(* ===== verification/_CoqProject ===== *)
-Q . S2P
Prelude.v
Utils.v
Pqueue.v
Cache.v
BranchPred.v
LruList.v
Tlb.v
Mmu.v
PageMapping.v
Rob.v
Allocate.v
Dram.v
Noc.v
NocTopology.v
Memory.v
MemoryPlaces.v
MemoryFlow.v
MemoryMiss.v
MemorySystem.v
Uops.v
Map.v
MapSystem.v
Exec.v
Schedule.v
ScheduleSystem.v
Retire.v
Stride.v
Prefetch.v
Frontend.v
FrontendSystem.v
CpuOpcodes.v
TraceCpu.v
TraceDecode.v
TraceRead.v
TraceStream.v
ProcessManager.v
ProcessSystem.v
GpuSchedule.v
GpuWarps.v
