(* ===== verification/Prelude.v ===== *)
(** * MacSim: root of the verification library

    MacSim is a trace-driven, cycle-level simulator of heterogeneous
    processors. A core fetches micro-operations, predicts branches, allocates
    reorder-buffer entries and resources, executes and retires; memory
    operations are translated by an MMU with a TLB, pass the caches and the
    on-chip network, and end in DRAM controllers. Every component is a C++
    class ticked by [run_a_cycle]; components share pointers to
    micro-operations and memory requests, and hand them over in queues.

    ** Files and what they model (sources under src/src/)

    - [Prelude] (this file): machine integers, the [outcome] monad for code
      that can assert or misuse memory, arrays, bit vectors, scans, circular
      arrays, sums and counts; the [macsim] hint database.
    - [Utils] (utils.cc, utils.h): [Bits] the integer helpers, [Pool] the entry
      pool, [Hash] the pooled hash table, [MultiKey] the two-key map.
    - [Pqueue] (pqueue.h): the latency queue between pipeline stages, a ring of
      priority lists with a pool of entries.
    - [Cache] (cache.cc, cache.h): address split, lookup, replacement,
      insertion, invalidation and the CPU/GPU line counters of [cache_c].
    - [BranchPred] (bp_gshare.cc, bp_targ.cc): [Gshare] the direction
      predictor, [Btb] the target buffer, which is a client of [Cache].
    - [LruList]: the doubly linked list over an array of entries with a table
      and a free list that the TLB (tlb.h, tlb.cc) and the page replacement
      unit (mmu.h) both contain; pointers are indices of a node array and every
      dereference is checked.
    - [Tlb] (tlb.cc, tlb.h): the TLB on top of [LruList].
    - [Mmu] (mmu.cc, mmu.h, and the entry of dcu_c::access in memory.cc):
      [Repl] the replacement unit, [Mmu] translation, the walk, fault and retry
      queues, batch processing of faults, eviction and the cycle. The answer
      of the data cache, the core clock and the iteration order of the hash
      set are parameters.
    - [PageMapping] (page_mapping.cc): the FCFS and the region-based mappers.
    - [Rob] (rob.cc, rob.h, fence.h, rob_smc.cc): [Fence] the fence lists, [Rob]
      the circular reorder buffer with its version bookkeeping and ordering
      queries, [Smc] the buffers of the threads of one core.
    - [Allocate] (allocate.cc, port.cc, resource.cc): [Port] and [Resource], and
      [Allocate] the allocation stage, a client of [Pqueue] and [Rob].
    - [Dram] (dram_ctrl.cc, dram_ctrl.h): the banks, channels, data bus and
      scheduling policies of the DRAM controller. [Policy] is the interface
      between the controller and a scheduling policy. What the network answers
      and delivers are parameters.
    - [Noc] (network.cc, network_ring.cc, network_mesh.cc): the router pipeline
      (injection, route computation, virtual-channel and switch allocation,
      switch and link traversal, credits, ejection) over an abstract topology;
      [NocTopology] the ring and the mesh as topologies and the theorems.
    - [Memory] (memory.cc, memory.h, memreq_info.cc): the cache hierarchy, that
      is [dcu_c] with its four queues and retry list, and [memory_c] with its
      miss buffers: new requests, merging, promotion of prefetches, access from
      the pipeline, hits, misses, fills, write-backs, completion, cycles and
      invalidation, for every memory type. The network, the clocks and the
      instruction and read-only caches answer through the class [mem_env].
      [MemoryPlaces] abstracts a state to the places its requests are in and
      follows completion on that level, [MemoryFlow] follows the queue loops
      and cycles, [MemoryMiss] new requests and accesses, and [MemorySystem]
      puts them together as a step relation with its reachable states.
    - [Uops] (uop.h): the micro-operation with the fields the back end uses, and
      the store of these objects.
    - [Map] (map.cc, map.h; calls in frontend.cc and uop.cc): the register maps
      and the table of pending stores that give a fetched micro-operation its
      sources; [MapSystem] the step relation over fetches and releases.
    - [Exec] (exec.cc, exec.h): the execution stage of a CPU core. The memories
      and the branch predictors answer through the classes [MemoryPath] and
      [Predictor].
    - [Schedule] (schedule.cc, schedule_ooo.cc, schedule_io.cc): source checks,
      starting a micro-operation, the two schedulers; [ScheduleSystem] their
      invariant and the properties of whole cycles.
    - [Retire] (retire.cc, retire.h): the retirement cycle of a CPU core with the
      write buffer. The calls of the process manager when a thread ends are the
      class [ProcessManager]; any of them may fault.
    - [Stride] (pref_stride.cc): the stride prefetcher, a client of the request
      queue through the class [PrefQueue]; [Prefetch] (pref_common.cc, pref.cc,
      pref_factory.cc): the framework with the request queues, which implements
      that class, the training events, region and pollution tables and feedback.
      The memory system answers through the class [PrefMemory].
    - [Frontend] (frontend.cc, frontend.h): the fetch policy, the instruction
      cache, fetching, predictors, barriers and the cycle. Trace readers,
      predictors and memory answer through the class [FetchEnv];
      [FrontendSystem] the laws of a CPU trace reader ([FetchEnvOk]) and the
      invariant of whole cycles over [MapSystem].
    - [CpuOpcodes] (trace_read_cpu.cc, trace_read.h): the instruction categories
      and the kinds of operation they stand for; [TraceCpu] (trace_read_cpu.cc,
      trace_read.cc, inst_info.h): the decoder that splits an instruction of an
      x86 trace into micro-operations, with its table of decoded instructions, and
      the reference it is compared with; [TraceDecode] its properties.
    - [TraceRead] (trace_read.cc, trace_read_cpu.cc): reading records in chunks,
      starting threads, handing out micro-operations one by one; [TraceStream] the
      records to come and what a whole trace delivers.
    - [ProcessManager] (process_manager.cc, thread part of core.cc): the queues of
      waiting threads and blocks, the choice of a core, the scheduler and the end
      of a thread; [ProcessSystem] the accounts it keeps in every reachable state.
    - [GpuSchedule] (schedule_smc.cc): the warp schedulers of a GPU core over one
      circular list; the execution stage answers through the class [GpuExec].
      [GpuWarps] the list they choose from and the order of their starts.

    ** How the models correspond to the code

    Each class is a [Record] with the fields of the class, each method a
    function on it with the name of the method; a method with side effects
    returns the new record. An [ASSERT] that fails, an access outside an array
    or to a null or freed object is a [Fault], so a theorem that an operation
    is [Done] says that none of these happens. Shared objects (micro-operations,
    list nodes, hash sub-tables) live in a store and are passed as addresses.
    64-bit, 32-bit and 16-bit unsigned values keep their wrap-around ([u64],
    [u32], [u16]) where the code can reach it. Knobs are fields of a
    configuration record. Fields a constructor does not initialise are
    arguments of its model, and so is what a read of freed memory gives
    ([retire_block] of [ProcessManager]).

    Loops: [data_loop] of [Dram] has one turn more than there are banks, since
    every turn takes one bank out of the state it looks for; [plru_loop] of
    [Cache] has two rounds, since the first clears every time stamp;
    [pending_loop] of [Rob] and [search_free] of [Mmu] go once around a circular
    array; the bit loops of [Utils] shift a word of known width. In each case
    running out of fuel would be [Fault Diverged], which the theorems exclude.
    The completion functions of [Memory] call themselves for merged requests;
    their depth is one more than the number of requests, which
    [completion_depth_enough] shows is never reached. The loop of [invalidate]
    takes its bound as an argument: it has one turn per line of the page.
    [child_loop] of [Exec] looks at higher bits of a 64-bit mask every turn, so 65
    turns are enough; [ooo_loop] of [Schedule] goes at most once around the list,
    [advance_loop] takes an entry from a queue every turn, [io_loop] starts one
    of the waiting micro-operations every turn. [fetch_loop] of [Frontend] stops at
    the width of the machine, [fetch_rr_loop] after as many tries as threads;
    [repeat_loop] of [TraceCpu] has a round per byte left, and a round takes four;
    [read_loop] of [TraceRead] ends in its second turn, [create_threads] has a turn
    per thread; [skip_function] takes its bound as an argument and can need any.
    [cpu_loop] and [gpu_loop] of [ProcessManager] take a waiting thread every turn,
    [drop_terminated] a number out of a finite set. [warp_loop] of [GpuSchedule] goes
    at most once around the list, its [advance_loop] takes an entry every turn.

    ** What the theorems show

    - Data structures: the latency queue, hash table, TLB, reorder buffer and
      fence queues behave like the simple structures they stand for, under
      every sequence of operations ([pqueue_runs_safe], [hash_table_correct],
      [tlb_refines_mru], [rob_refines_queue], [rob_order_checks],
      [smc_rob_exclusive], ...).
    - Caches and predictors: exact effect of access, insertion and
      invalidation, victim choice, address split, training and recovery.
    - Address translation: coherence of TLB, page table and frames in every
      reachable state, conservation of suspended micro-operations, progress of
      fault handling, injectivity of the page mappers.
    - Front end: a cycle adds the next micro-operations of one thread in trace
      order and maps them, none for a thread that was stalled when the cycle
      began; the fetch policy picks the first ready thread in circular order and
      is fair while its picks can be used; barriers open when all arrived.
    - Decoding: a trace without string operations and GPU records decodes to the
      micro-operations its records stand for, whether they are decoded or taken
      from the table; string operations become
      rounds over consecutive pieces. A thread delivers the micro-operations of its
      records in order and then nothing.
    - Threads: as long as no warp is created for a block that has retired
      ([reopened_block_miscounted] shows that case), every thread waits, runs or has
      ended and the counters say so, blocks stay on one core and are kept while one
      of their warps waits or runs; CPU
      threads are placed in order by the policy until no core has room; a GPU core
      can get more threads than it may run ([gpu_core_overfull]).
    - Pipeline: the allocation stage is in order and never fails an assertion;
      the sources of a micro-operation are the last writers of its registers and
      the last pending store of each address it overlaps, with the cases the code
      misses ([taken_number_hides_store], [overwritten_store_missed]); the
      out-of-order scheduler refines a list of
      waiting entries, never starts a micro-operation before its sources have
      their results and never overuses a port; the in-order one keeps the order; the
      warp schedulers try exactly the oldest micro-operation of each of their
      threads until one starts; retirement is in order, frees every object once,
      gives resources back exactly and, on a core that runs one thread, is its
      reference [commits] and [undone].
    - Prefetching: when the uninitialised core number of the stride prefetcher names
      a core, tables and queues stay well formed from the constructors on; a
      stream of constant stride is learnt and its lines from the start distance on
      are requested in order; waiting requests below 2^63 are all sent, once.
    - DRAM: requests are neither lost nor duplicated and no assertion but the
      starvation check, whose counter starts uninitialised, can fail, under every
      policy; what FR-FCFS picks; the bandwidth of the bus; the address mapping
      loses no information.
    - Network: packets are neither lost nor duplicated, credits account for
      every buffer slot unless the network is ideal, ring and mesh routes are
      shortest.
    - Memory hierarchy: as long as no cache refuses a request handed to it,
      every request is at exactly one place in every reachable state
      ([memory_requests_placed]); completion ends; queues stay sorted; a dirty
      victim is written back.
    - Defects: theorems that state what the code does where it deviates from
      its intention (flush of a latency queue, the two-key map, the LRU bound,
      the replacement unit, eviction under per-process tables, line counters
      after invalidation, counters wider than two bits, a request refused by a
      full cache, a prefetch promoted by another core, invalidation of a page, a
      thread the fetch policy skips, a fetch ratio that is never met, stores a
      load does not wait for, a block that is reopened).

    ** Not modelled

    The integrated-GPU scheduler and the GPU allocation stage are not modelled. Of the
    process manager the set-up and the end of a process are left out, which read
    configuration files; of retire.cc the GPU branch and the repetition of traces;
    of pref_common.cc the options that compute with floating point; of memory.cc the
    coherence handler (empty), the training of the prefetchers and the functions
    nothing calls. The readers of GPU and ARM traces, knobs, statistics and start-up are
    left out: they are built like the x86 reader or are input and output;
    the secure-memory classes are empty skeletons; ramulator, manifold and orion
    are third-party simulators. *)

From stdpp Require Export base tactics numbers list list_numbers gmap sorting.
From Stdlib Require Export ZArith Lia.

#[global] Open Scope Z_scope.

Declare Scope macsim_scope.
Delimit Scope macsim_scope with macsim.

(** ** Machine integers

    A C++ integer is a [Z] kept in range by the wrap-around of its width:
    [uns8], [uns16], [uns32]/[uns], [uns64]/[Addr]/[Counter] are unsigned,
    [int] is two's complement. *)

Definition u8 (z : Z) : Z := z mod 2 ^ 8.
Definition u16 (z : Z) : Z := z mod 2 ^ 16.
Definition u32 (z : Z) : Z := z mod 2 ^ 32.
Definition u64 (z : Z) : Z := z mod 2 ^ 64.
Definition s32 (z : Z) : Z := (z + 2 ^ 31) mod 2 ^ 32 - 2 ^ 31.

Definition MAX_INT : Z := 2147483647.
Definition ULLONG_MAX : Z := 18446744073709551615.

(** [~x], [x << n] and [x + 1] on [uns64]. *)
Definition lnot64 (z : Z) : Z := u64 (Z.lnot z).
Definition shl64 (z n : Z) : Z := u64 (Z.shiftl z n).
Definition inc64 (z : Z) : Z := u64 (z + 1).

Definition is_u64 (z : Z) : Prop := 0 <= z < 2 ^ 64.

(** ** Fallible code

    [ASSERT]/[assert] terminate the simulator; reading outside an array,
    dereferencing a null or released pointer is undefined behaviour. Both are
    explicit outcomes, so a theorem that an operation is [Done] is a theorem
    that none of them happens. *)

Inductive fault :=
| AssertFailed
| OutOfBounds
| NullDeref
| UseAfterFree
| Diverged
| DivByZero
| Uninitialised.

Inductive outcome (A : Type) :=
| Done (a : A)
| Fault (f : fault).
Arguments Done {A} a.
Arguments Fault {A} f.

#[export] Instance fault_eq_dec : EqDecision fault.
Proof. solve_decision. Defined.

#[export] Instance outcome_ret : MRet outcome := fun A a => Done a.
#[export] Instance outcome_bind : MBind outcome := fun A B k c =>
  match c with Done a => k a | Fault f => Fault f end.

Definition ASSERT (b : bool) : outcome unit :=
  if b then Done tt else Fault AssertFailed.

(** The value an option holds, or the fault that its absence is. *)
Definition get_or {A} (f : fault) (o : option A) : outcome A :=
  match o with Some a => Done a | None => Fault f end.

(** [a[i]] and [a[i] = x] on an array of known extent. *)
Definition aget {A} (l : list A) (i : Z) : outcome A :=
  if 0 <=? i then get_or OutOfBounds (l !! Z.to_nat i) else Fault OutOfBounds.
Definition aset {A} (l : list A) (i : Z) (x : A) : outcome (list A) :=
  if bool_decide (0 <= i < Z.of_nat (length l))
  then Done (<[Z.to_nat i := x]> l) else Fault OutOfBounds.

Lemma bind_done {A B} (a : A) (k : A -> outcome B) : (Done a ≫= k) = k a.
Proof. reflexivity. Qed.

Lemma bind_done_inv {A B} (c : outcome A) (k : A -> outcome B) b :
  (c ≫= k) = Done b -> exists a, c = Done a /\ k a = Done b.
Proof. destruct c; simpl; [eauto | discriminate]. Qed.

Lemma get_or_done {A} f (o : option A) x : get_or f o = Done x -> o = Some x.
Proof. by destruct o; intros [= ->]. Qed.
Lemma done_pair {A B} (a a' : A) (b b' : B) : mret (a, b) = Done (a', b') -> a' = a /\ b' = b.
Proof. by intros [= <- <-]. Qed.
Lemma done_val {A} (a a' : A) : mret a = Done a' -> a' = a.
Proof. by intros [= <-]. Qed.
(** Name the result of the first step of a successful run. *)
Tactic Notation "step" hyp(H) "as" simple_intropattern(x) ident(E) := apply bind_done_inv in H as (x & E & H).

Lemma ASSERT_done b u : ASSERT b = Done u -> b = true.
Proof. by destruct b. Qed.

Lemma aget_lookup {A} (l : list A) i x :
  l !! i = Some x -> aget l (Z.of_nat i) = Done x.
Proof.
  intros H. unfold aget. rewrite (proj2 (Z.leb_le 0 _)) by lia.
  by rewrite Nat2Z.id, H.
Qed.

Lemma aget_at {A} (l : list A) i x : 0 <= i -> l !! Z.to_nat i = Some x -> aget l i = Done x.
Proof. intros Hi H. rewrite <- (Z2Nat.id i Hi). by apply aget_lookup. Qed.

Lemma aget_done {A} (l : list A) i x :
  aget l i = Done x -> 0 <= i /\ l !! Z.to_nat i = Some x.
Proof.
  unfold aget, get_or. destruct (Z.leb_spec 0 i); [| discriminate].
  destruct (l !! Z.to_nat i); [| discriminate]. by intros [= ->].
Qed.

Lemma aget_in_range {A} (l : list A) i :
  0 <= i < Z.of_nat (length l) -> exists x, l !! Z.to_nat i = Some x /\ aget l i = Done x.
Proof.
  intros H. destruct (lookup_lt_is_Some_2 l (Z.to_nat i)) as [x Hx]; [lia |].
  exists x. split; [done |]. unfold aget.
  by rewrite (proj2 (Z.leb_le 0 i)), Hx by lia.
Qed.

Lemma aset_in_range {A} (l : list A) i x :
  0 <= i < Z.of_nat (length l) -> aset l i x = Done (<[Z.to_nat i := x]> l).
Proof. intros H. unfold aset. by rewrite bool_decide_true. Qed.

Lemma aset_done {A} (l l' : list A) i x :
  aset l i x = Done l' ->
  0 <= i < Z.of_nat (length l) /\ l' = <[Z.to_nat i := x]> l.
Proof.
  unfold aset. case_bool_decide; [| discriminate]. by intros [= <-].
Qed.

(** Code that does not run out of turns. *)
Lemma aget_ends {A} (l : list A) i : aget l i <> Fault Diverged.
Proof. unfold aget, get_or. destruct (_ <=? _); [destruct (l !! _) |]; done. Qed.
Lemma get_or_ends {A} f (o : option A) : f <> Diverged -> get_or f o <> Fault Diverged.
Proof. intros Hf. destruct o; [done |]. by intros [= ->]. Qed.
Lemma bind_ends {A B} (c : outcome A) (f : A -> outcome B) : c <> Fault Diverged -> (forall a, c = Done a -> f a <> Fault Diverged) -> (c ≫= f) <> Fault Diverged.
Proof. intros Hc Hf. destruct c; [by apply Hf |]. by intros [= ->]. Qed.
Lemma aset_ends {A} (l : list A) i x : aset l i x <> Fault Diverged.
Proof. unfold aset. by case_bool_decide. Qed.
Lemma ASSERT_ends b : ASSERT b <> Fault Diverged.
Proof. by destruct b. Qed.
Create HintDb ends.
#[export] Hint Resolve aget_ends aset_ends get_or_ends ASSERT_ends : ends.
#[export] Hint Extern 1 (_ <> _) => done : ends.
Ltac ends := repeat first [apply bind_ends; [| intros ? _] | case_match | solve [eauto with ends]].

(** Case split on the [Nat.ltb] tests of the goal and the hypotheses. *)
Ltac nat_ltb_cases :=
  repeat match goal with
  | |- context [Nat.ltb ?a ?b] => destruct (Nat.ltb_spec a b)
  | _ : context [Nat.ltb ?a ?b] |- _ => destruct (Nat.ltb_spec a b)
  end.

(** Split a successful run into its successful steps. *)
Ltac inv_done :=
  repeat match goal with
  | H : (_ ≫= _) = Done _ |- _ =>
      let a := fresh "a" in let E := fresh "E" in
      apply bind_done_inv in H as (a & E & H)
  | H : ASSERT _ = Done _ |- _ => apply ASSERT_done in H
  | H : mret _ = Done _ |- _ => injection H as H
  | H : Done _ = Done _ |- _ => injection H as H
  | H : Fault _ = Done _ |- _ => discriminate H
  | a : unit |- _ => destruct a
  end.

(** ** Bit vectors

    The masks and shifts of the address arithmetic, as division and remainder
    by powers of two. *)

Definition N_BIT_MASK (n : Z) : Z := u64 (Z.shiftl 1 n - 1).

Create HintDb macsim.

Lemma pow2_pos n : 0 <= n -> 0 < 2 ^ n.
Proof. intros. apply Z.pow_pos_nonneg; lia. Qed.
#[export] Hint Resolve pow2_pos : macsim.

Lemma u64_range z : is_u64 (u64 z).
Proof. unfold is_u64, u64. apply Z.mod_pos_bound. lia. Qed.

Lemma u64_small z : is_u64 z -> u64 z = z.
Proof. unfold is_u64, u64. intros. by apply Z.mod_small. Qed.
#[export] Hint Resolve u64_range u64_small : macsim.

Lemma N_BIT_MASK_ones n : 0 <= n <= 64 -> N_BIT_MASK n = Z.ones n.
Proof.
  intros H. unfold N_BIT_MASK. rewrite Z.shiftl_1_l, Z.ones_equiv, <- Z.sub_1_r.
  apply u64_small. unfold is_u64.
  pose proof (pow2_pos n ltac:(lia)). pose proof (Z.pow_le_mono_r 2 n 64). lia.
Qed.

Lemma land_mask a n : 0 <= n <= 64 -> Z.land a (N_BIT_MASK n) = a mod 2 ^ n.
Proof. intros. rewrite N_BIT_MASK_ones, Z.land_ones; lia. Qed.

(** The test [(t & (t - 1)) == 0] recognises the powers of two. *)
Lemma land_pred_pow2 t : 0 < t -> Z.land t (t - 1) = 0 -> t = 2 ^ Z.log2 t.
Proof.
  intros Ht Hl. destruct (Z.log2_spec t Ht) as [Hlo Hhi].
  destruct (Z.eq_dec t (2 ^ Z.log2 t)) as [| Hne]; [done | exfalso].
  assert (Hlog : Z.log2 (t - 1) = Z.log2 t) by (apply Z.log2_unique; [apply Z.log2_nonneg | lia]).
  assert (Hpos : 0 < t - 1) by (pose proof (pow2_pos (Z.log2 t) (Z.log2_nonneg t)); lia).
  pose proof (Z.bit_log2 t Ht) as B1. pose proof (Z.bit_log2 (t - 1) Hpos) as B2.
  rewrite Hlog in B2. assert (B : Z.testbit (Z.land t (t - 1)) (Z.log2 t) = true)
    by (by rewrite Z.land_spec, B1, B2).
  by rewrite Hl, Z.testbit_0_l in B.
Qed.

Lemma testbit_above a n i : 0 <= a < 2 ^ n -> 0 <= n <= i -> Z.testbit a i = false.
Proof.
  intros Ha Hi. destruct (Z.eq_dec a 0) as [-> | Hne]; [apply Z.testbit_0_l |].
  apply Z.bits_above_log2; [lia |]. apply Z.log2_lt_pow2; [lia |].
  pose proof (Z.pow_le_mono_r 2 n i ltac:(lia) ltac:(lia)). lia.
Qed.

Lemma lnot64_testbit z i :
  Z.testbit (lnot64 z) i = (0 <=? i) && (i <? 64) && negb (Z.testbit z i).
Proof.
  unfold lnot64, u64. rewrite <- Z.land_ones by lia.
  rewrite Z.land_spec.
  destruct (Z.leb_spec 0 i); [| by rewrite !Z.testbit_neg_r by lia].
  rewrite Z.lnot_spec, Z.testbit_ones by lia.
  rewrite (proj2 (Z.leb_le 0 i)) by lia. simpl.
  by rewrite andb_comm.
Qed.

(** Clearing the low [n] bits of a 64-bit word is rounding it down. *)
Lemma land_lnot64_mask a n :
  is_u64 a -> 0 <= n <= 64 ->
  Z.land a (lnot64 (N_BIT_MASK n)) = Z.shiftl (Z.shiftr a n) n.
Proof.
  intros Ha Hn. rewrite N_BIT_MASK_ones by lia. apply Z.bits_inj'. intros i Hi.
  rewrite Z.land_spec, lnot64_testbit, Z.shiftl_spec by lia.
  rewrite (proj2 (Z.leb_le 0 i)) by lia. simpl.
  rewrite Z.testbit_ones by lia. rewrite (proj2 (Z.leb_le 0 i)) by lia. simpl.
  destruct (Z.ltb_spec i n).
  - rewrite (Z.testbit_neg_r _ (i - n)) by lia. simpl. by rewrite !andb_false_r.
  - rewrite Z.shiftr_spec by lia. replace (i - n + n) with i by lia.
    destruct (Z.ltb_spec i 64); simpl; [by rewrite andb_true_r |].
    rewrite andb_false_r. symmetry. apply testbit_above with 64; [exact Ha | lia].
Qed.

(** Disjoint bit ranges: [or] is addition. *)
Lemma lor_shiftl_add a b n :
  0 <= n -> 0 <= b < 2 ^ n -> Z.lor (Z.shiftl a n) b = a * 2 ^ n + b.
Proof.
  intros Hn Hb. assert (Hd : Z.land (Z.shiftl a n) b = 0).
  { apply Z.bits_inj'. intros i Hi. rewrite Z.land_spec, Z.shiftl_spec, Z.testbit_0_l by lia.
    destruct (Z.ltb_spec i n); [by rewrite Z.testbit_neg_r by lia |].
    rewrite (testbit_above b n i) by lia. apply andb_false_r. }
  rewrite <- Z.shiftl_mul_pow2 by lia.
  by rewrite Z.add_nocarry_lxor, Z.lxor_lor by done.
Qed.

(** ** Scans over arrays

    The simulator picks victims, oldest requests and winners by a loop that
    keeps the best index so far; [key] is [None] for an element the loop
    skips, and the comparison is the strict one of the source. *)

Fixpoint scan_min {A} (key : A -> option Z) (l : list A) (i : nat)
    (best : option nat) (bk : Z) : option nat * Z :=
  match l with
  | [] => (best, bk)
  | x :: l' =>
      match key x with
      | Some k => if k <? bk then scan_min key l' (S i) (Some i) k
                  else scan_min key l' (S i) best bk
      | None => scan_min key l' (S i) best bk
      end
  end.

(** The loop started at offset [i] on [l] returns either its initial best, and
    then every key seen is at least the initial bound, or the first index of
    a minimal key, which is below the initial bound. *)
Lemma scan_min_spec {A} (key : A -> option Z) (l : list A) i best bk r k :
  scan_min key l i best bk = (r, k) ->
  (forall j x kx, l !! j = Some x -> key x = Some kx -> k <= kx) /\
  ((r = best /\ k = bk) \/
   (exists j x, r = Some (i + j)%nat /\ l !! j = Some x /\ key x = Some k /\ k < bk /\
      forall j' x' kx', (j' < j)%nat -> l !! j' = Some x' -> key x' = Some kx' -> k < kx')).
Proof.
  revert i best bk. induction l as [| a l IH]; intros i best bk H; simpl in H.
  { injection H as -> ->. split; [done | by left]. }
  assert (Hskip : scan_min key l (S i) best bk = (r, k) ->
    (forall ka, key a = Some ka -> bk <= ka) ->
    (forall j x kx, (a :: l) !! j = Some x -> key x = Some kx -> k <= kx) /\
    ((r = best /\ k = bk) \/
     (exists j x, r = Some (i + j)%nat /\ (a :: l) !! j = Some x /\ key x = Some k /\ k < bk /\
      forall j' x' kx', (j' < j)%nat -> (a :: l) !! j' = Some x' -> key x' = Some kx' -> k < kx'))).
  { intros Hr Hka. destruct (IH _ _ _ Hr) as [Hall [[-> ->] | (j & x & -> & Hx & Hk & Hlt & Hfst)]].
    - split; [| by left]. intros [| j] x kx Hx Hkx; simpl in Hx; [| eauto].
      injection Hx as ->. eauto.
    - split.
      + intros [| j'] x' kx Hx' Hkx; simpl in Hx'; [| eauto].
        injection Hx' as ->. specialize (Hka _ Hkx). lia.
      + right. exists (S j), x. repeat split; [f_equal; lia | done.. |].
        intros [| j'] x' kx' Hj Hx' Hkx'; simpl in Hx'.
        * injection Hx' as ->. specialize (Hka _ Hkx'). lia.
        * apply (Hfst j' x' kx'); [lia | done | done]. }
  destruct (key a) as [ka |] eqn:Ea.
  - destruct (Z.ltb_spec ka bk).
    + destruct (IH _ _ _ H) as [Hall [[-> ->] | (j & x & -> & Hx & Hk & Hlt & Hfst)]].
      * split.
        -- intros [| j] x kx Hx Hkx; simpl in Hx; [| eauto]. simplify_eq. lia.
        -- right. exists 0%nat, a. repeat split; [f_equal; lia | done | lia |].
           intros. lia.
      * split.
        -- intros [| j'] x' kx Hx' Hkx; simpl in Hx'; [| eauto]. simplify_eq. lia.
        -- right. exists (S j), x. repeat split; [f_equal; lia | done | done | lia |].
           intros [| j'] x' kx' Hj Hx' Hkx'; simpl in Hx'; [simplify_eq; lia |].
           apply (Hfst j' x' kx'); [lia | done | done].
    + apply Hskip; [done |]. intros ? [= <-]. done.
  - apply Hskip; [done |]. intros ? [=].
Qed.

(** Number of array elements that satisfy a test, as the simulator's counters
    count them. *)
Fixpoint countb {A} (f : A -> bool) (l : list A) : Z :=
  match l with
  | [] => 0
  | x :: l' => (if f x then 1 else 0) + countb f l'
  end.

Lemma countb_nonneg {A} (f : A -> bool) l : 0 <= countb f l <= Z.of_nat (length l).
Proof. induction l as [| x l IH]; simpl; [lia |]. destruct (f x); lia. Qed.

Lemma countb_insert {A} (f : A -> bool) l i (x y : A) :
  l !! i = Some x ->
  countb f (<[i := y]> l) = countb f l - (if f x then 1 else 0) + (if f y then 1 else 0).
Proof.
  revert i. induction l as [| a l IH]; intros [| i] H; simpl in *; try done.
  - simplify_eq. lia.
  - rewrite (IH i H). lia.
Qed.

Lemma countb_perm {A} (f : A -> bool) (l l' : list A) : l ≡ₚ l' -> countb f l = countb f l'.
Proof. induction 1; simpl; lia. Qed.
Lemma countb_cons {A} (f : A -> bool) (a : A) l : countb f (a :: l) = (if f a then 1 else 0) + countb f l.
Proof. done. Qed.
Lemma filter_none {A} (P : A -> Prop) `{!forall x, Decision (P x)} (l : list A) : (forall x, x ∈ l -> ~ P x) -> filter P l = [].
Proof.
  induction l as [| a l IH]; intros Hn; [done |]. rewrite filter_cons_False by (apply Hn; by left). apply IH. intros x Hx. apply Hn. by right.
Qed.
Lemma filter_ext_in {A} (P Q : A -> Prop) `{!forall x, Decision (P x), !forall x, Decision (Q x)} (l : list A) :
  (forall x, x ∈ l -> P x <-> Q x) -> filter P l = filter Q l.
Proof.
  induction l as [| a l IH]; intros Hpq; [done |]. rewrite !filter_cons. rewrite IH by (intros x Hx; apply Hpq; by right).
  pose proof (Hpq a ltac:(by left)). repeat case_decide; naive_solver.
Qed.
Lemma countb_app {A} (f : A -> bool) l k : countb f (l ++ k) = countb f l + countb f k.
Proof. induction l as [| x l IH]; simpl; [lia |]. rewrite IH. lia. Qed.

Lemma countb_fmap {A B} (f : B -> bool) (g : A -> B) l :
  countb f (g <$> l) = countb (fun x => f (g x)) l.
Proof. induction l as [| x l IH]; [done |]. rewrite fmap_cons. simpl. by rewrite IH. Qed.

Lemma countb_ext {A} (f g : A -> bool) l :
  (forall x, x ∈ l -> f x = g x) -> countb f l = countb g l.
Proof.
  induction l as [| x l IH]; intros H; simpl; [done |].
  rewrite (H x) by apply list_elem_of_here. rewrite IH; [done |].
  intros y Hy. by apply H, list_elem_of_further.
Qed.

Lemma countb_false {A} (f : A -> bool) l : (forall x, x ∈ l -> f x = false) -> countb f l = 0.
Proof.
  intros H. rewrite (countb_ext f (fun _ => false)) by done. clear.
  induction l; simpl; lia.
Qed.

(** ** Circular arrays

    [rotation c l] is the array read from index [c] round to [c]. *)
Definition rotation {A} (c : nat) (l : list A) : list A := drop c l ++ take c l.

Lemma rotation_first {A} (l : list A) c x :
  l !! c = Some x ->
  exists suf, rotation c l = x :: suf /\
    (forall b, rotation c (<[c := b]> l) = b :: suf) /\
    rotation ((c + 1) mod length l) l = suf ++ [x].
Proof.
  intros H. pose proof (lookup_lt_Some _ _ _ H) as Hc.
  exists (drop (S c) l ++ take c l). unfold rotation. split_and!.
  - by rewrite (drop_S l x c H).
  - intros b. rewrite (drop_S _ b c) by (by apply list_lookup_insert_eq).
    by rewrite drop_insert_lt, take_insert_ge by lia.
  - destruct (decide (S c = length l)) as [E | E].
    + rewrite Nat.add_1_r, E, Nat.Div0.mod_same. rewrite drop_0, take_0, app_nil_r.
      rewrite (drop_ge l (length l)) by lia. simpl.
      rewrite <- (take_S_r l c x H), E, take_ge by lia. done.
    + rewrite Nat.mod_small by lia. rewrite Nat.add_1_r, <- app_assoc.
      by rewrite (take_S_r l c x H).
Qed.

Lemma rotation_last {A} (l : list A) c last x :
  (c < length l)%nat -> last = ((c + length l - 1) mod length l)%nat -> l !! last = Some x ->
  exists pre, rotation c l = pre ++ [x] /\
    (forall b, rotation c (<[last := b]> l) = pre ++ [b]).
Proof.
  intros Hc Hlast Hx. destruct c as [| c].
  - rewrite Nat.mod_small in Hlast by lia. exists (take last l). unfold rotation.
    assert (E : forall b, <[last := b]> l = take last l ++ [b]).
    { intros b. rewrite insert_take_drop by lia. rewrite drop_ge by lia. done. }
    rewrite !drop_0, take_0, app_nil_r. split; [| intros b; by rewrite drop_0, take_0, app_nil_r].
    rewrite <- E. by rewrite list_insert_id.
  - assert (last = c) as ->.
    { rewrite Hlast. replace (S c + length l - 1)%nat with (c + 1 * length l)%nat by lia.
      rewrite Nat.Div0.mod_add. apply Nat.mod_small. lia. }
    exists (drop (S c) l ++ take c l). unfold rotation. split.
    + by rewrite (take_S_r l c x Hx), app_assoc.
    + intros b. rewrite drop_insert_lt by lia.
      rewrite (take_S_r _ c b) by (apply list_lookup_insert_eq; lia).
      by rewrite take_insert_ge, app_assoc by lia.
Qed.

Lemma rotation_perm {A} c (l : list A) : rotation c l ≡ₚ l.
Proof. unfold rotation. rewrite Permutation_app_comm. by rewrite take_drop. Qed.

(** Sum of a measure over an array, and its change under one update. *)
Fixpoint sum_by {A} (h : A -> Z) (l : list A) : Z :=
  match l with
  | [] => 0
  | x :: l' => h x + sum_by h l'
  end.

Lemma sum_by_alter {A} (h : A -> Z) (f : A -> A) l n x :
  l !! n = Some x -> sum_by h (alter f n l) = sum_by h l - h x + h (f x).
Proof.
  revert n. induction l as [| a l IH]; intros [| n] H; simpl in H; try done.
  - simplify_eq. change (alter f 0%nat (x :: l)) with (f x :: l). cbn [sum_by]. lia.
  - change (alter f (S n) (a :: l)) with (a :: alter f n l). cbn [sum_by].
    rewrite (IH n H). lia.
Qed.

Lemma sum_by_ext {A B} (h : A -> Z) (k : B -> Z) l l' :
  Forall2 (fun x y => h x = k y) l l' -> sum_by h l = sum_by k l'.
Proof. induction 1; simpl; lia. Qed.

Lemma list_alter_insert {A} (f : A -> A) (l : list A) i x :
  l !! i = Some x -> alter f i l = <[i := f x]> l.
Proof.
  revert i. induction l as [| a l IH]; intros [| i] H; simpl in H; try done.
  - by injection H as ->.
  - change (alter f (S i) (a :: l)) with (a :: alter f i l).
    change (<[S i := f x]> (a :: l)) with (a :: <[i := f x]> l). by rewrite (IH i H).
Qed.

Lemma sum_by_insert {A} (h : A -> Z) l n x y :
  l !! n = Some x -> sum_by h (<[n := y]> l) = sum_by h l - h x + h y.
Proof.
  intros H. rewrite <- (list_alter_insert (fun _ => y) l n x H).
  by rewrite (sum_by_alter h _ l n x H).
Qed.

Lemma countb_Forall2 {A} (f : A -> bool) (R : relation A) l l' :
  (forall x y, R x y -> f x = f y) -> Forall2 R l l' -> countb f l = countb f l'.
Proof. intros HR. induction 1 as [| x y l l' Hxy _ IH]; simpl; [done |]. by rewrite (HR x y), IH. Qed.

Lemma sum_by_app {A} (h : A -> Z) l l' : sum_by h (l ++ l') = sum_by h l + sum_by h l'.
Proof. induction l as [| a l IH]; simpl; [done |]. rewrite IH. lia. Qed.

Lemma sum_by_none {A} (h : A -> Z) l : Forall (fun x => h x = 0) l -> sum_by h l = 0.
Proof. induction 1; simpl; lia. Qed.

Lemma sum_by_perm {A} (h : A -> Z) l l' : l ≡ₚ l' -> sum_by h l = sum_by h l'.
Proof. induction 1; simpl; lia. Qed.

(** [std::list::sort], which is stable. *)
Fixpoint insert_sorted {A} (lt : A -> A -> bool) (e : A) (l : list A) : list A :=
  match l with
  | [] => [e]
  | y :: l' => if lt e y then e :: l else y :: insert_sorted lt e l'
  end.
Definition list_sort {A} (lt : A -> A -> bool) (l : list A) : list A :=
  foldl (fun acc e => insert_sorted lt e acc) [] l.

Lemma insert_sorted_perm {A} (lt : A -> A -> bool) e l : insert_sorted lt e l ≡ₚ e :: l.
Proof.
  induction l as [| y l IH]; simpl; [done |]. destruct (lt e y); [done |]. rewrite IH. apply Permutation_swap.
Qed.

Lemma list_sort_perm {A} (lt : A -> A -> bool) l : list_sort lt l ≡ₚ l.
Proof.
  unfold list_sort. assert (Hacc : forall acc, foldl (fun acc e => insert_sorted lt e acc) acc l ≡ₚ acc ++ l).
  { induction l as [| e l IH]; intros acc; simpl; [by rewrite app_nil_r |].
    rewrite IH, insert_sorted_perm. by rewrite <- Permutation_middle. }
  apply (Hacc []).
Qed.

(** Sorting by a strict weak order leaves a least entry at the front. *)
Section Sorted.
Context {A : Type} (lt : A -> A -> bool).
Context (lt_asym : forall a b, lt a b = true -> lt b a = false).
Context (le_trans : forall a b c, lt b a = false -> lt c b = false -> lt c a = false).
Let le a b := lt b a = false.

Lemma insert_sorted_sorted e l : StronglySorted le l -> StronglySorted le (insert_sorted lt e l).
Proof.
  induction 1 as [| y l Hl IH Hy]; simpl; [by repeat constructor |].
  destruct (lt e y) eqn:E; constructor.
  - by constructor.
  - constructor; [by apply lt_asym |]. eapply Forall_impl; [exact Hy |]. intros z Hz.
    apply (le_trans e y z); [by apply lt_asym | exact Hz].
  - exact IH.
  - rewrite insert_sorted_perm. by constructor.
Qed.

Lemma list_sort_sorted l : StronglySorted le (list_sort lt l).
Proof.
  unfold list_sort. assert (H : forall acc, StronglySorted le acc ->
    StronglySorted le (foldl (fun acc e => insert_sorted lt e acc) acc l)).
  { induction l as [| e l IH]; intros acc Hacc; simpl; [done |]. by apply IH, insert_sorted_sorted. }
  apply H. constructor.
Qed.

End Sorted.

(** Sum of a measure over the entries of a finite map. *)
Definition ksum `{Countable K} {A} (h : K -> A -> Z) (m : gmap K A) : Z :=
  sum_by (fun kv => h kv.1 kv.2) (map_to_list m).

Lemma ksum_fresh `{Countable K} {A} (h : K -> A -> Z) (m : gmap K A) k x :
  m !! k = None -> ksum h (<[k := x]> m) = h k x + ksum h m.
Proof. intros Hk. unfold ksum. by rewrite (sum_by_perm _ _ _ (map_to_list_insert m k x Hk)). Qed.

Lemma ksum_delete `{Countable K} {A} (h : K -> A -> Z) (m : gmap K A) k x :
  m !! k = Some x -> ksum h (delete k m) = ksum h m - h k x.
Proof.
  intros Hk. rewrite <- (insert_delete_id m k x Hk) at 2. rewrite ksum_fresh by apply lookup_delete_eq. lia.
Qed.

Lemma ksum_insert `{Countable K} {A} (h : K -> A -> Z) (m : gmap K A) k x y :
  m !! k = Some x -> ksum h (<[k := y]> m) = ksum h m - h k x + h k y.
Proof.
  intros Hx. rewrite <- (insert_delete_eq m k y), ksum_fresh by apply lookup_delete_eq.
  rewrite (ksum_delete h m k x Hx). lia.
Qed.

(** Sum over the values only. *)
Definition msum `{Countable K} {A} (h : A -> Z) (m : gmap K A) : Z := ksum (fun _ x => h x) m.

Lemma msum_insert `{Countable K} {A} (h : A -> Z) (m : gmap K A) k x y :
  m !! k = Some x -> msum h (<[k := y]> m) = msum h m - h x + h y.
Proof. apply ksum_insert. Qed.

Lemma lookup_tabulate_map `{Countable K} {A} (g : K -> A) (l : list K) k :
  (list_to_map ((fun x => (x, g x)) <$> l) : gmap K A) !! k = if decide (k ∈ l) then Some (g k) else None.
Proof.
  induction l as [| a l IH]; csimpl; [done |]. destruct (decide (a = k)) as [<- | Hne].
  - rewrite lookup_insert_eq, decide_True by (by left). done.
  - rewrite lookup_insert_ne, IH by done. apply decide_ext. set_solver.
Qed.

Lemma msum_zero `{Countable K} {A} (h : A -> Z) (m : gmap K A) :
  (forall k x, m !! k = Some x -> h x = 0) -> msum h m = 0.
Proof.
  intros Hm. unfold msum, ksum. assert (Hl : forall kv, kv ∈ map_to_list m -> h kv.2 = 0).
  { intros [k x] Hk. apply elem_of_map_to_list in Hk. by eapply Hm. }
  induction (map_to_list m) as [| kv l IH]; simpl; [done |].
  rewrite (Hl kv) by apply list_elem_of_here. rewrite IH; [done |].
  intros kv' Hk. by apply Hl, list_elem_of_further.
Qed.

(** ** Steps that succeed

    [succeeds R s c]: the step [c] taken in state [s] raises no fault and ends
    in a state related to [s] by [R]. *)
Definition succeeds {A} (R : A -> A -> Prop) (s : A) (c : outcome A) : Prop :=
  exists s', c = Done s' /\ R s s'.

Lemma succeeds_ret {A} (R : A -> A -> Prop) s s' : R s s' -> succeeds R s (mret s').
Proof. intros H. by exists s'. Qed.

Lemma succeeds_bind {A} (R : A -> A -> Prop) `{!Transitive R} s c f :
  succeeds R s c -> (forall s', R s s' -> succeeds R s' (f s')) -> succeeds R s (c ≫= f).
Proof.
  intros (s1 & -> & H1) Hf. destruct (Hf s1 H1) as (s2 & E & H2).
  exists s2. split; [exact E | by etrans].
Qed.
