(* ===== verification/Utils.v ===== *)
(** * Utilities: src/src/utils.cc and src/src/utils.h

    The integer helpers ([log2_int], the bit searches), the entry pool
    [pool_c], the pooled hash table [hash_c] and the two-key map
    [multi_key_map_c] that renames (application, block) pairs. *)

From S2P Require Import Prelude.

(** ** Bit helpers *)
Module Bits.

(** [for (power = 0; n >>= 1; ++power);] on a 32-bit [n]: 32 rounds are enough
    to shift every bit out. *)
Fixpoint log2_loop (fuel : nat) (n power : Z) : Z :=
  match fuel with
  | O => power
  | S f => let n' := Z.shiftr n 1 in
           if n' =? 0 then power else log2_loop f n' (power + 1)
  end.
Definition log2_int (n : Z) : Z := log2_loop 32 n 0.

Fixpoint next_set_bit_loop (rounds : nat) (val i : Z) : Z :=
  match rounds with
  | O => -1
  | S k => if Z.land val 1 =? 1 then i
           else next_set_bit_loop k (Z.shiftr val 1) (i + 1)
  end.
Definition get_next_set_bit64 (val pos : Z) : Z :=
  next_set_bit_loop (Z.to_nat (64 - pos)) (Z.shiftr val pos) pos.

(** [while (val > 0)]: a 64-bit value is exhausted after 64 rounds. *)
Fixpoint num_set_bits_loop (fuel : nat) (val count : Z) : Z :=
  match fuel with
  | O => count
  | S f => if 0 <? val
           then num_set_bits_loop f (Z.shiftr val 1)
                  (if Z.land val 1 =? 1 then count + 1 else count)
           else count
  end.
Definition get_num_set_bits64 (val : Z) : Z := num_set_bits_loop 64 val 0.

Lemma shiftr1_div n : Z.shiftr n 1 = n / 2.
Proof. rewrite Z.shiftr_div_pow2 by lia. reflexivity. Qed.

Lemma land1_testbit n : (Z.land n 1 =? 1) = Z.testbit n 0.
Proof.
  change 1 with (Z.ones 1). rewrite Z.land_ones, Z.bit0_odd by lia.
  rewrite Zmod_odd. by destruct (Z.odd n).
Qed.

Lemma log2_loop_spec fuel n power :
  0 <= n < 2 ^ Z.of_nat fuel -> log2_loop fuel n power = power + Z.log2 n.
Proof.
  revert n power. induction fuel as [| f IH]; intros n power Hn; simpl log2_loop.
  - assert (n = 0) as -> by (simpl in Hn; lia). simpl. lia.
  - rewrite shiftr1_div. rewrite Nat2Z.inj_succ, Z.pow_succ_r in Hn by lia.
    destruct (Z.eqb_spec (n / 2) 0) as [E | E].
    + assert (n = 0 \/ n = 1) as [-> | ->] by (pose proof (Z.div_small_iff n 2); lia); simpl; lia.
    + assert (2 <= n) by (pose proof (Z.div_small n 2); lia).
      rewrite IH by (split; [apply Z.div_pos; lia | apply Z.div_lt_upper_bound; lia]).
      rewrite <- Z.div2_div. destruct (Z.lt_ge_cases 1 n); [| lia].
      pose proof (Z.log2_shiftr n 1 ltac:(lia)) as E2.
      rewrite shiftr1_div, <- Z.div2_div in E2.
      pose proof (Z.log2_pos n). lia.
Qed.

Lemma log2_int_log2 n : 0 <= n < 2 ^ 32 -> log2_int n = Z.log2 n.
Proof. intros. unfold log2_int. rewrite log2_loop_spec; [lia | exact H]. Qed.

Lemma log2_int_pow2 k : 0 <= k < 32 -> log2_int (2 ^ k) = k.
Proof.
  intros. rewrite log2_int_log2; [apply Z.log2_pow2; lia |].
  split; [apply Z.pow_nonneg; lia | apply Z.pow_lt_mono_r; lia].
Qed.

Lemma next_set_bit_loop_spec rounds val i :
  0 <= i ->
  let r := next_set_bit_loop rounds val i in
  (r = -1 /\ forall j, 0 <= j < Z.of_nat rounds -> Z.testbit val j = false) \/
  (i <= r < i + Z.of_nat rounds /\ Z.testbit val (r - i) = true /\
   forall j, 0 <= j < r - i -> Z.testbit val j = false).
Proof.
  revert val i. induction rounds as [| k IH]; intros val i Hi; simpl.
  { left. split; [done | lia]. }
  rewrite land1_testbit. destruct (Z.testbit val 0) eqn:E0.
  { right. rewrite Z.sub_diag. repeat split; [lia | lia | done |]. lia. }
  destruct (IH (Z.shiftr val 1) (i + 1) ltac:(lia)) as [[-> Hz] | (Hr & Hb & Hz)].
  - left. split; [done |]. intros j Hj. destruct (Z.eq_dec j 0) as [-> | ]; [done |].
    specialize (Hz (j - 1)). rewrite Z.shiftr_spec in Hz by lia.
    replace (j - 1 + 1) with j in Hz by lia. apply Hz. lia.
  - right. set (r := next_set_bit_loop k (Z.shiftr val 1) (i + 1)) in *.
    rewrite Z.shiftr_spec in Hb by lia. replace (r - (i + 1) + 1) with (r - i) in Hb by lia.
    repeat split; [lia | lia | done |].
    intros j Hj. destruct (Z.eq_dec j 0) as [-> | ]; [done |].
    specialize (Hz (j - 1)). rewrite Z.shiftr_spec in Hz by lia.
    replace (j - 1 + 1) with j in Hz by lia. apply Hz. lia.
Qed.

Lemma num_set_bits_loop_spec fuel val count :
  0 <= val < 2 ^ Z.of_nat fuel ->
  num_set_bits_loop fuel val count =
    count + countb (fun i => Z.testbit val i) (seqZ 0 (Z.of_nat fuel)).
Proof.
  revert val count. induction fuel as [| f IH]; intros val count Hv.
  { simpl. unfold seqZ. simpl. lia. }
  rewrite Nat2Z.inj_succ, Z.pow_succ_r in Hv by lia.
  simpl num_set_bits_loop. rewrite land1_testbit.
  replace (Z.of_nat (S f)) with (Z.succ (Z.of_nat f)) by lia.
  rewrite seqZ_cons by lia. replace (Z.pred (Z.succ (Z.of_nat f))) with (Z.of_nat f) by lia.
  assert (Hs : countb (fun i => Z.testbit val i) (seqZ (Z.succ 0) (Z.of_nat f)) =
               countb (fun i => Z.testbit (Z.shiftr val 1) i) (seqZ 0 (Z.of_nat f))).
  { change (Z.succ 0) with (1 + 0). rewrite <- fmap_add_seqZ.
    rewrite countb_fmap. apply countb_ext. intros z Hz. apply elem_of_seqZ in Hz.
    rewrite Z.shiftr_spec by lia. by rewrite Z.add_comm. }
  cbn [countb]. rewrite Hs. destruct (Z.ltb_spec 0 val).
  - rewrite IH; [destruct (Z.testbit val 0); lia |].
    rewrite shiftr1_div. split; [apply Z.div_pos; lia | apply Z.div_lt_upper_bound; lia].
  - assert (val = 0) as -> by lia. rewrite Z.shiftr_0_l, Z.testbit_0_l, countb_false; [lia |].
    intros. apply Z.testbit_0_l.
Qed.

End Bits.

(** ** Entry pool: [pool_c]

    Entries are the addresses [new] hands out; [m_next] is the allocator's
    next fresh address. *)
Module Pool.

Record pool_c := mk_pool {
  m_pool : list nat;
  m_poolsize : Z;
  m_poolexpand_unit : Z;
  m_next : nat
}.

Definition pool_new (unit next : Z) : pool_c :=
  mk_pool [] 0 unit (Z.to_nat next).

Definition expand_pool (p : pool_c) : pool_c :=
  let n := Z.to_nat (m_poolexpand_unit p) in
  mk_pool (m_pool p ++ seq (m_next p) n) (m_poolsize p + m_poolexpand_unit p)
    (m_poolexpand_unit p) (m_next p + n).

(** [front()] of a pool that is still empty after expansion is undefined. *)
Definition acquire_entry (p : pool_c) : outcome (nat * pool_c) :=
  let p' := match m_pool p with [] => expand_pool p | _ => p end in
  match m_pool p' with
  | [] => Fault NullDeref
  | e :: rest => Done (e, mk_pool rest (m_poolsize p') (m_poolexpand_unit p') (m_next p'))
  end.

Definition release_entry (e : nat) (p : pool_c) : pool_c :=
  mk_pool (e :: m_pool p) (m_poolsize p) (m_poolexpand_unit p) (m_next p).

Definition size (p : pool_c) : Z := m_poolsize p.

(** Every allocated entry is in exactly one place: the pool or the hands of
    one client ([out]), and the recorded size counts them all. *)
Definition pool_inv (p : pool_c) (out : list nat) : Prop :=
  NoDup (m_pool p ++ out) /\
  Forall (fun e => (e < m_next p)%nat) (m_pool p ++ out) /\
  m_poolsize p = Z.of_nat (length (m_pool p ++ out)) /\
  0 < m_poolexpand_unit p.

#[export] Instance pool_inv_proper p : Proper (Permutation ==> iff) (pool_inv p).
Proof. intros o1 o2 Ho. unfold pool_inv. by setoid_rewrite Ho. Qed.

Lemma pool_new_inv unit next : 0 < unit -> pool_inv (pool_new unit next) [].
Proof. intros. repeat split; [constructor | constructor | done]. Qed.

Lemma expand_pool_inv p out :
  pool_inv p out -> pool_inv (expand_pool p) out.
Proof.
  intros (Hnd & Hlt & Hsz & Hu). unfold pool_inv, expand_pool. simpl.
  assert (Hp : (m_pool p ++ seq (m_next p) (Z.to_nat (m_poolexpand_unit p))) ++ out
     ≡ₚ (m_pool p ++ out) ++ seq (m_next p) (Z.to_nat (m_poolexpand_unit p)))
    by (rewrite <- !app_assoc; f_equiv; apply Permutation_app_comm).
  rewrite Forall_forall in Hlt. repeat split; [rewrite Hp | rewrite Hp | | done].
  - apply NoDup_app. split; [done |]. split; [| apply NoDup_seq].
    intros e He. rewrite elem_of_seq. specialize (Hlt e He). simpl in Hlt. lia.
  - apply Forall_app. split; apply Forall_forall.
    + intros e He. specialize (Hlt e He). simpl in Hlt. lia.
    + intros e He. rewrite elem_of_seq in He. lia.
  - rewrite (Permutation_length Hp), length_app, length_seq. lia.
Qed.

Lemma acquire_entry_ok p out :
  pool_inv p out ->
  exists e p', acquire_entry p = Done (e, p') /\ (e ∉ out) /\ pool_inv p' (e :: out).
Proof.
  intros Hi. set (q := match m_pool p with [] => expand_pool p | _ => p end).
  assert (Hq : pool_inv q out /\ m_pool q <> []).
  { unfold q. destruct (m_pool p) eqn:E; [| by rewrite E].
    split; [by apply expand_pool_inv |]. unfold expand_pool. simpl. rewrite E. simpl.
    destruct Hi as (_ & _ & _ & Hu).
    destruct (Z.to_nat (m_poolexpand_unit p)) eqn:En; [lia | done]. }
  destruct Hq as [(Hnd & Hlt & Hsz & Hu) Hne]. unfold acquire_entry. fold q.
  destruct (m_pool q) as [| e rest] eqn:E; [done |].
  eexists e, _. split; [reflexivity |]. simpl in Hnd. apply NoDup_cons in Hnd as [He Hnd].
  rewrite elem_of_app in He. split; [tauto |]. unfold pool_inv. simpl.
  assert (Hp : rest ++ e :: out ≡ₚ e :: rest ++ out) by (symmetry; apply Permutation_middle).
  rewrite Hp. repeat split; [by constructor; [rewrite elem_of_app |] | done | | done].
  simpl in Hsz |- *. lia.
Qed.

Lemma release_entry_ok p e out :
  pool_inv p (e :: out) -> pool_inv (release_entry e p) out.
Proof.
  unfold pool_inv, release_entry. simpl. rewrite <- Permutation_middle. done.
Qed.

End Pool.

(** ** Pooled hash table: [hash_c] *)
Module Hash.
Import Pool.

Record hash_c := mk_hash {
  m_table : gmap Z nat;
  h_pool : pool_c
}.

Definition hash_new (unit next : Z) : hash_c := mk_hash ∅ (pool_new unit next).

Definition hash_table_access_create (key : Z) (h : hash_c) : outcome (nat * bool * hash_c) :=
  match m_table h !! key with
  | None =>
      '(result, pool) ← acquire_entry (h_pool h);
      mret (result, true, mk_hash (<[key := result]> (m_table h)) pool)
  | Some result => mret (result, false, h)
  end.

Definition hash_table_access (key : Z) (h : hash_c) : option nat := m_table h !! key.

Definition hash_table_access_delete (key : Z) (h : hash_c) : bool * hash_c :=
  match m_table h !! key with
  | None => (false, h)
  | Some entry => (true, mk_hash (delete key (m_table h)) (release_entry entry (h_pool h)))
  end.

Definition hash_size (h : hash_c) : Z := Z.of_nat (base.size (m_table h)).

(** [clear] releases the entries in the iteration order of the underlying
    unordered map, which is the argument [order]. *)
Definition clear (order : list (Z * nat)) (h : hash_c) : hash_c :=
  mk_hash ∅ (fold_left (fun p kv => release_entry kv.2 p) order (h_pool h)).

(** The live entries are those of the table and nothing else; distinct keys
    own distinct entries. *)
Definition hash_inv (h : hash_c) : Prop :=
  pool_inv (h_pool h) ((map_to_list (m_table h)).*2).

Lemma hash_inv_distinct h k1 k2 e :
  hash_inv h -> m_table h !! k1 = Some e -> m_table h !! k2 = Some e -> k1 = k2.
Proof.
  intros (Hnd & _) H1 H2. apply NoDup_app in Hnd as (_ & _ & Hnd).
  destruct (decide (k1 = k2)) as [| Hne]; [done | exfalso].
  assert (Hp : map_to_list (m_table h) ≡ₚ
     (k1, e) :: (k2, e) :: map_to_list (delete k2 (delete k1 (m_table h)))).
  { rewrite map_to_list_delete by (by rewrite lookup_delete_ne).
    by rewrite map_to_list_delete. }
  rewrite Hp in Hnd. simpl in Hnd. apply NoDup_cons in Hnd as [Hnd _].
  apply Hnd, list_elem_of_here.
Qed.

Lemma hash_new_inv unit next : 0 < unit -> hash_inv (hash_new unit next).
Proof. intros. unfold hash_inv. simpl. rewrite map_to_list_empty. by apply pool_new_inv. Qed.

Lemma access_create_ok key h :
  hash_inv h ->
  exists e b h', hash_table_access_create key h = Done (e, b, h') /\ hash_inv h' /\
    b = bool_decide (m_table h !! key = None) /\
    hash_table_access key h' = Some e /\
    (forall k, k <> key -> hash_table_access k h' = hash_table_access k h) /\
    (b = false -> h' = h).
Proof.
  intros Hi. unfold hash_table_access_create.
  destruct (m_table h !! key) as [e |] eqn:E.
  { exists e, false, h. by split_and!. }
  destruct (acquire_entry_ok _ _ Hi) as (e & p' & -> & Hfresh & Hp).
  eexists e, true, _. split; [reflexivity |]. unfold hash_inv, hash_table_access. simpl.
  rewrite map_to_list_insert by done.
  split_and!; [done | done | apply lookup_insert_eq | | done].
  intros k Hk. by rewrite lookup_insert_ne.
Qed.

Lemma access_delete_ok key h :
  hash_inv h ->
  let r := hash_table_access_delete key h in
  hash_inv r.2 /\ r.1 = bool_decide (is_Some (m_table h !! key)) /\
  hash_table_access key r.2 = None /\
  (forall k, k <> key -> hash_table_access k r.2 = hash_table_access k h).
Proof.
  intros Hi. unfold hash_table_access_delete, hash_table_access.
  destruct (m_table h !! key) as [e |] eqn:E; simpl; [| done].
  unfold hash_inv in *. simpl. split_and!; [| done | |].
  - apply release_entry_ok. by rewrite <- (map_to_list_delete _ _ _ E) in Hi.
  - apply lookup_delete_eq.
  - intros k Hk. by rewrite lookup_delete_ne.
Qed.

Lemma release_all_inv (order : list (Z * nat)) p out :
  pool_inv p (order.*2 ++ out) ->
  pool_inv (fold_left (fun p kv => release_entry kv.2 p) order p) out.
Proof.
  revert p. induction order as [| kv order IH]; intros p H; simpl in *; [done |].
  by apply IH, release_entry_ok.
Qed.

Lemma clear_ok order h :
  hash_inv h -> order ≡ₚ map_to_list (m_table h) ->
  hash_inv (clear order h) /\ hash_size (clear order h) = 0 /\
  size (h_pool (clear order h)) = size (h_pool h).
Proof.
  intros Hi Ho. assert (Hinv : hash_inv (clear order h)).
  { unfold hash_inv, clear. simpl. rewrite map_to_list_empty.
    apply release_all_inv. rewrite app_nil_r. by rewrite Ho. }
  split; [done |]. split; [done |]. unfold clear. simpl. clear.
  generalize (h_pool h). induction order as [| kv order IH]; intros p; simpl; [done |].
  by rewrite IH.
Qed.

End Hash.

(** ** Two-key map: [multi_key_map_c]

    The inner tables are heap objects reached through pointers: [delete_table]
    frees one but leaves its pointer in [m_table]. *)
Module MultiKey.

Record multi_key_map_c := mk_mkm {
  m_table : gmap Z nat;
  m_heap : gmap nat (gmap Z Z);
  m_fresh : nat;
  m_size : Z
}.

Definition mkm_new : multi_key_map_c := mk_mkm ∅ ∅ 0 0.

Definition find (key1 key2 : Z) (m : multi_key_map_c) : outcome Z :=
  match m_table m !! key1 with
  | None => mret (-1)
  | Some p =>
      sub_table ← get_or UseAfterFree (m_heap m !! p);
      match (sub_table : gmap Z Z) !! key2 with
      | None => mret (-1)
      | Some v => mret v
      end
  end.

Definition insert (key1 key2 : Z) (m : multi_key_map_c) : outcome (Z * multi_key_map_c) :=
  match m_table m !! key1 with
  | None =>
      let p := m_fresh m in
      mret (m_size m,
            mk_mkm (<[key1 := p]> (m_table m)) (<[p := {[key2 := m_size m]}]> (m_heap m))
                   (S p) (m_size m + 1))
  | Some p =>
      sub_table ← get_or UseAfterFree (m_heap m !! p);
      mret (m_size m,
            mk_mkm (m_table m) (<[p := <[key2 := m_size m]> sub_table]> (m_heap m))
                   (m_fresh m) (m_size m + 1))
  end.

(** The iterator of an absent key is [end()]; dereferencing it is undefined. *)
Definition delete_table (key1 : Z) (m : multi_key_map_c) : outcome multi_key_map_c :=
  p ← get_or NullDeref (m_table m !! key1);
  _ ← get_or UseAfterFree (m_heap m !! p);
  mret (mk_mkm (m_table m) (base.delete p (m_heap m)) (m_fresh m) (m_size m)).

(** No dangling pointer, no sharing of inner tables, ids below the counter. *)
Record mkm_inv (m : multi_key_map_c) : Prop := {
  inv_live : forall k p, m_table m !! k = Some p -> is_Some (m_heap m !! p) /\ (p < m_fresh m)%nat;
  inv_unshared : forall k k' p, m_table m !! k = Some p -> m_table m !! k' = Some p -> k = k';
  inv_ids : forall p s k v, m_heap m !! p = Some s -> s !! k = Some v -> 0 <= v < m_size m;
  inv_size : 0 <= m_size m
}.

Lemma mkm_new_inv : mkm_inv mkm_new.
Proof. split; simpl; intros; try done; by rewrite lookup_empty in *. Qed.

Lemma find_total k1 k2 m : mkm_inv m -> exists v, find k1 k2 m = Done v /\ -1 <= v < m_size m.
Proof.
  intros Hi. pose proof (inv_size m Hi). unfold find.
  destruct (m_table m !! k1) as [p |] eqn:E1; [| exists (-1); split; [done | lia]].
  destruct (inv_live m Hi _ _ E1) as [[s Hs] _]. rewrite Hs. simpl.
  destruct (s !! k2) as [v |] eqn:E2; [| exists (-1); split; [done | lia]].
  exists v. split; [done |]. pose proof (inv_ids m Hi _ _ _ _ Hs E2). lia.
Qed.

(** What one insertion achieves, stated once for both branches of the code. *)
Definition insert_post (k1 k2 : Z) (m m' : multi_key_map_c) : Prop :=
  mkm_inv m' /\ find k1 k2 m' = Done (m_size m) /\
  (forall j1 j2, (j1, j2) <> (k1, k2) -> find j1 j2 m' = find j1 j2 m).

Lemma insert_present k1 k2 m p :
  mkm_inv m -> m_table m !! k1 = Some p ->
  exists m', insert k1 k2 m = Done (m_size m, m') /\ insert_post k1 k2 m m'.
Proof.
  intros [Hl Hu Hid Hs] E1. unfold insert, insert_post. rewrite E1.
  destruct (Hl _ _ E1) as [[s Es] Hp]. rewrite Es. simpl.
  eexists. split; [reflexivity |]. split_and!.
  - split; simpl; [| done | | lia].
    + intros k q Hq. destruct (Hl _ _ Hq). split; [| done].
      destruct (decide (q = p)) as [-> |]; [by rewrite lookup_insert_eq | by rewrite lookup_insert_ne].
    + intros q t k v Ht Hv. destruct (decide (q = p)) as [-> | Hne].
      * rewrite lookup_insert_eq in Ht. simplify_eq.
         destruct (decide (k = k2)) as [-> | Hk]; [rewrite lookup_insert_eq in Hv; simplify_eq; lia |].
         rewrite lookup_insert_ne in Hv by done. specialize (Hid _ _ _ _ Es Hv). lia.
      * rewrite lookup_insert_ne in Ht by done. specialize (Hid _ _ _ _ Ht Hv). lia.
  - unfold find. simpl. rewrite E1. simpl. rewrite lookup_insert_eq. simpl.
    by rewrite lookup_insert_eq.
  - intros j1 j2 Hj. unfold find. simpl. destruct (m_table m !! j1) as [q |] eqn:Ej; [| done].
    destruct (decide (q = p)) as [-> | Hne]; [| by rewrite lookup_insert_ne].
    assert (j1 = k1) as -> by eauto. rewrite lookup_insert_eq, Es. simpl.
    rewrite lookup_insert_ne by congruence. done.
Qed.

Lemma insert_absent k1 k2 m :
  mkm_inv m -> m_table m !! k1 = None ->
  exists m', insert k1 k2 m = Done (m_size m, m') /\ insert_post k1 k2 m m'.
Proof.
  intros [Hl Hu Hid Hs] E1. unfold insert, insert_post. rewrite E1.
  eexists. split; [reflexivity |]. split_and!.
  - split; simpl; [| | | lia].
    + intros k q Hq. destruct (decide (k = k1)) as [-> | Hk].
      * rewrite lookup_insert_eq in Hq. simplify_eq. rewrite lookup_insert_eq. split; [done | lia].
      * rewrite lookup_insert_ne in Hq by done. destruct (Hl _ _ Hq).
         rewrite lookup_insert_ne by lia. split; [done | lia].
    + intros k k' q. rewrite !lookup_insert.
      repeat case_decide; intros; simplify_eq; try done.
      * match goal with H : m_table m !! _ = Some _ |- _ => apply Hl in H as [_ H]; lia end.
      * match goal with H : m_table m !! _ = Some _ |- _ => apply Hl in H as [_ H]; lia end.
      * eauto.
    + intros q t k v Ht Hv. destruct (decide (q = m_fresh m)) as [-> | Hne].
      * rewrite lookup_insert_eq in Ht. simplify_eq.
         apply lookup_singleton_Some in Hv as [<- <-]. lia.
      * rewrite lookup_insert_ne in Ht by done. specialize (Hid _ _ _ _ Ht Hv). lia.
  - unfold find. simpl. rewrite lookup_insert_eq. simpl. rewrite lookup_insert_eq. simpl.
    by rewrite lookup_singleton_eq.
  - intros j1 j2 Hj. unfold find. simpl. destruct (decide (j1 = k1)) as [-> | Hne].
    + rewrite lookup_insert_eq. simpl. rewrite lookup_insert_eq. simpl.
      rewrite lookup_singleton_ne by congruence. by rewrite E1.
    + rewrite lookup_insert_ne by done. destruct (m_table m !! j1) as [q |] eqn:Ej; [| done].
      destruct (Hl _ _ Ej). by rewrite lookup_insert_ne by lia.
Qed.

Lemma insert_ok k1 k2 m :
  mkm_inv m ->
  exists m', insert k1 k2 m = Done (m_size m, m') /\ insert_post k1 k2 m m'.
Proof.
  intros Hi. destruct (m_table m !! k1) eqn:E; eauto using insert_present, insert_absent.
Qed.

Lemma delete_table_dangles k1 k2 m p :
  mkm_inv m -> m_table m !! k1 = Some p ->
  exists m', delete_table k1 m = Done m' /\ find k1 k2 m' = Fault UseAfterFree.
Proof.
  intros Hi E. destruct (inv_live m Hi _ _ E) as [[s Es] _].
  unfold delete_table. rewrite E. simpl. rewrite Es. simpl.
  eexists. split; [reflexivity |]. unfold find. simpl. rewrite E. simpl.
  by rewrite lookup_delete_eq.
Qed.

End MultiKey.

(** ** Properties *)
Section PROPERTIES.
Import Bits Hash MultiKey.

(** [log2_int] is the integer logarithm for every 32-bit argument;
    [get_next_set_bit64] returns the lowest set bit at or above [pos], or -1
    when there is none; [get_num_set_bits64] is the population count. The
    loops end within the width of their argument. *)
Theorem bit_helpers_correct n val pos :
  0 < n < 2 ^ 32 -> is_u64 val -> 0 <= pos < 64 ->
  2 ^ log2_int n <= n < 2 ^ (log2_int n + 1) /\
  (let r := get_next_set_bit64 val pos in
   (r = -1 /\ forall i, pos <= i -> Z.testbit val i = false) \/
   (pos <= r < 64 /\ Z.testbit val r = true /\
    forall i, pos <= i < r -> Z.testbit val i = false)) /\
  get_num_set_bits64 val = countb (fun i => Z.testbit val i) (seqZ 0 64).
Proof.
  intros Hn Hv Hp. split_and!.
  - rewrite log2_int_log2 by lia. apply Z.log2_spec. lia.
  - rewrite log2_int_log2 by lia. apply Z.log2_spec. lia.
  - simpl. unfold get_next_set_bit64.
    destruct (next_set_bit_loop_spec (Z.to_nat (64 - pos)) (Z.shiftr val pos) pos ltac:(lia))
      as [[-> Hz] | (Hr & Hb & Hz)]; [left | right].
    + split; [done |]. intros i Hi. destruct (Z.lt_ge_cases i 64) as [H | H].
      * specialize (Hz (i - pos) ltac:(lia)). rewrite Z.shiftr_spec in Hz by lia.
        by replace (i - pos + pos) with i in Hz by lia.
      * apply testbit_above with 64; [exact Hv | lia].
    + rewrite Z.shiftr_spec in Hb by lia. rewrite Z.sub_add in Hb.
      split_and!; [lia | lia | done |]. intros i Hi.
      specialize (Hz (i - pos) ltac:(lia)). rewrite Z.shiftr_spec in Hz by lia.
      by rewrite Z.sub_add in Hz.
  - unfold get_num_set_bits64. rewrite num_set_bits_loop_spec; [done |]. exact Hv.
Qed.

Lemma bit_helpers_correct_witness :
  2 ^ log2_int 100 <= 100 < 2 ^ (log2_int 100 + 1).
Proof. apply (bit_helpers_correct 100 40 4); unfold is_u64; lia. Defined.

(** the pooled hash table is a map from keys to entries: [create] returns
    the entry of its key and reports correctly whether it is new, [delete]
    removes exactly its key, the other keys keep their entries, two keys never
    share an entry although entries are recycled, and no operation reads an
    empty pool. *)
Theorem hash_table_correct h key :
  hash_inv h ->
  (exists e b h', hash_table_access_create key h = Done (e, b, h') /\ hash_inv h' /\
     b = bool_decide (hash_table_access key h = None) /\
     hash_table_access key h' = Some e /\
     (forall k, k <> key -> hash_table_access k h' = hash_table_access k h /\
                            hash_table_access k h' <> Some e)) /\
  (let r := hash_table_access_delete key h in
   hash_inv r.2 /\ r.1 = bool_decide (is_Some (hash_table_access key h)) /\
   hash_table_access key r.2 = None /\
   (forall k, k <> key -> hash_table_access k r.2 = hash_table_access k h)).
Proof.
  intros Hi. split; [| by apply access_delete_ok].
  destruct (access_create_ok key h Hi) as (e & b & h' & H & Hi' & Hb & Hk & Ho & _).
  exists e, b, h'. split_and!; try done. intros k Hne. split; [by apply Ho |].
  intros He. apply Hne. by eapply hash_inv_distinct.
Qed.

Lemma hash_table_correct_witness :
  exists e b h', hash_table_access_create 5 (hash_new 100 0) = Done (e, b, h') /\
    hash_table_access 5 h' = Some e.
Proof.
  destruct (hash_table_correct (hash_new 100 0) 5) as [(e & b & h' & H & _ & _ & He & _) _];
    [apply hash_new_inv; lia | eauto].
Defined.

(** [insert] returns an id no pair had before, [find] of the pair returns
    it and every other pair keeps its answer; but after [delete_table] the key
    still holds a pointer to the freed table, so [find] of that key reads
    freed memory. *)
Theorem multi_key_map_correct m k1 k2 :
  mkm_inv m ->
  (forall j1 j2, exists v, find j1 j2 m = Done v /\ v <> MultiKey.m_size m) /\
  exists m', insert k1 k2 m = Done (MultiKey.m_size m, m') /\ mkm_inv m' /\
    find k1 k2 m' = Done (MultiKey.m_size m) /\
    (forall j1 j2, (j1, j2) <> (k1, k2) -> find j1 j2 m' = find j1 j2 m) /\
    exists m'', delete_table k1 m' = Done m'' /\ find k1 k2 m'' = Fault UseAfterFree.
Proof.
  intros Hi. split.
  - intros j1 j2. destruct (find_total j1 j2 m Hi) as (v & -> & Hv). exists v. split; [done | lia].
  - destruct (insert_ok k1 k2 m Hi) as (m' & E & Hi' & Hf & Ho). exists m'.
    split_and!; try done. unfold find in Hf.
    destruct (m_table m' !! k1) as [p |] eqn:Ep; [by eapply delete_table_dangles |].
    injection Hf as Hf. pose proof (MultiKey.inv_size m Hi). lia.
Qed.

Lemma multi_key_map_correct_witness :
  exists m', insert 3 4 mkm_new = Done (0, m') /\ find 3 4 m' = Done 0.
Proof.
  destruct (multi_key_map_correct mkm_new 3 4 mkm_new_inv) as [_ (m' & E & _ & Hf & _)]. eauto.
Defined.

End PROPERTIES.
