(* ===== verification/Pqueue.v ===== *)
(** * Latency queue: src/src/pqueue.h

    [pqueue_c] models pipeline latches: [latency + 1] buckets in a ring, a new
    entry goes to the last bucket (ordered by priority), an entry is ready
    when its bucket is the current one. *)

From S2P Require Import Prelude Utils.
Import Utils.Pool.

Section PQUEUE.
Context {T : Type} (T0 : T).

(** An entry is a pool object; [e_ptr] is its address. *)
Record pqueue_entry_s := mk_entry {
  e_ptr : nat;
  m_priority : Z;
  m_data : T
}.

Record pqueue_c := mk_pqueue {
  m_entry : list (list pqueue_entry_s);
  m_entry_pool : pool_c;
  m_size : Z;
  m_capacity : Z;
  m_num_entry : Z;
  m_last_index : Z;
  m_current_index : Z
}.

Definition pqueue_new (size latency next : Z) : pqueue_c :=
  mk_pqueue (replicate (Z.to_nat (latency + 1)) []) (pool_new 100 next)
    (latency + 1) size 0 latency 0.

Definition ready (q : pqueue_c) : outcome bool :=
  bucket ← aget (m_entry q) (m_current_index q);
  mret (match bucket with [] => false | _ => true end).

(** The loop of [enqueue]: before the first entry of lower priority, at the
    back when there is none. *)
Fixpoint insert_by_priority (e : pqueue_entry_s) (l : list pqueue_entry_s) :=
  match l with
  | [] => [e]
  | x :: l' => if m_priority x <? m_priority e then e :: x :: l'
               else x :: insert_by_priority e l'
  end.

Definition enqueue (priority : Z) (data : T) (q : pqueue_c) : outcome (bool * pqueue_c) :=
  _ ← ASSERT (m_num_entry q <? m_capacity q);
  '(p, pool) ← acquire_entry (m_entry_pool q);
  bucket ← aget (m_entry q) (m_last_index q);
  es ← aset (m_entry q) (m_last_index q) (insert_by_priority (mk_entry p priority data) bucket);
  mret (true, mk_pqueue es pool (m_size q) (m_capacity q) (m_num_entry q + 1)
                (m_last_index q) (m_current_index q)).

(** Returns the data and, through the optional pointer, the priority. *)
Definition dequeue (q : pqueue_c) : outcome (T * Z * pqueue_c) :=
  bucket ← aget (m_entry q) (m_current_index q);
  match bucket with
  | [] => Fault NullDeref
  | e :: rest =>
      es ← aset (m_entry q) (m_current_index q) rest;
      mret (m_data e, m_priority e,
            mk_pqueue es (release_entry (e_ptr e) (m_entry_pool q)) (m_size q) (m_capacity q)
              (m_num_entry q - 1) (m_last_index q) (m_current_index q))
  end.

Definition advance (q : pqueue_c) : outcome (bool * pqueue_c) :=
  if m_num_entry q =? 0 then mret (true, q) else
  bucket ← aget (m_entry q) (m_current_index q);
  match bucket with
  | _ :: _ => mret (true, q)
  | [] => mret (true, mk_pqueue (m_entry q) (m_entry_pool q) (m_size q) (m_capacity q)
                  (m_num_entry q) (m_current_index q) ((m_current_index q + 1) mod m_size q))
  end.

(** Inner loop of [peek]: [if (count++ == entry) { data = ...; break; }]. *)
Fixpoint peek_bucket (entry : Z) (l : list pqueue_entry_s) (count : Z) (data : T) : Z * T :=
  match l with
  | [] => (count, data)
  | e :: l' => if count =? entry then (count + 1, m_data e)
               else peek_bucket entry l' (count + 1) data
  end.

(** Outer loop, over [m_current_index .. m_current_index + m_size - 1] modulo
    [m_size]; the inner [break] does not leave it. *)
Fixpoint peek_buckets (entry : Z) (bs : list (list pqueue_entry_s)) (count : Z) (data : T) : T :=
  match bs with
  | [] => data
  | b :: bs' => let '(count', data') := peek_bucket entry b count data in
                peek_buckets entry bs' count' data'
  end.

Definition peek (entry : Z) (q : pqueue_c) : outcome T :=
  _ ← ASSERT (entry <=? m_num_entry q);
  mret (peek_buckets entry (rotation (Z.to_nat (m_current_index q)) (m_entry q)) 0 T0).

Definition space (q : pqueue_c) : Z := m_capacity q - m_num_entry q.

(** [flush]: buckets are drained in index order, each from its front. *)
Definition flush (q : pqueue_c) : pqueue_c :=
  mk_pqueue ((fun _ => []) <$> m_entry q)
    (fold_left (fun p e => release_entry (e_ptr e) p) (concat (m_entry q)) (m_entry_pool q))
    (m_size q) (m_capacity q) 0 (m_size q) 0.

Definition pool_size (q : pqueue_c) : Z := Pool.size (m_entry_pool q).

(** ** Specification *)

(** The queue as one list, in the order its entries leave it. *)
Definition contents (q : pqueue_c) : list pqueue_entry_s :=
  concat (rotation (Z.to_nat (m_current_index q)) (m_entry q)).

Definition by_priority : relation pqueue_entry_s := fun a b => m_priority b <= m_priority a.

Record pq_inv (q : pqueue_c) : Prop := {
  inv_size : m_size q = Z.of_nat (length (m_entry q)) /\ 0 < m_size q;
  inv_cur : 0 <= m_current_index q < m_size q;
  inv_last : m_last_index q = (m_current_index q + m_size q - 1) mod m_size q;
  inv_num : m_num_entry q = Z.of_nat (length (contents q)) /\ m_num_entry q <= m_capacity q;
  inv_sorted : Forall (StronglySorted by_priority) (m_entry q);
  inv_pool : pool_inv (m_entry_pool q) (e_ptr <$> contents q)
}.

Lemma inv_index_nat q :
  pq_inv q ->
  (Z.to_nat (m_current_index q) < length (m_entry q))%nat /\
  Z.to_nat (m_last_index q) =
    ((Z.to_nat (m_current_index q) + length (m_entry q) - 1) mod length (m_entry q))%nat /\
  0 <= m_last_index q < Z.of_nat (length (m_entry q)).
Proof.
  intros [[Hs H0] Hc Hl _ _ _]. rewrite Hs in *.
  pose proof (Z.mod_pos_bound (m_current_index q + Z.of_nat (length (m_entry q)) - 1)
                (Z.of_nat (length (m_entry q))) ltac:(lia)) as Hm.
  split_and!; [lia | | lia | lia]. rewrite Hl.
  apply Nat2Z.inj. rewrite Z2Nat.id by lia. rewrite Nat2Z.inj_mod. f_equal. lia.
Qed.

(** The current bucket is the head of the rotation, the last one its end. *)
Lemma current_bucket q :
  pq_inv q -> exists b suf, aget (m_entry q) (m_current_index q) = Done b /\
    m_entry q !! Z.to_nat (m_current_index q) = Some b /\
    rotation (Z.to_nat (m_current_index q)) (m_entry q) = b :: suf.
Proof.
  intros Hi. destruct (inv_size q Hi) as [Hs H0]. pose proof (inv_cur q Hi).
  destruct (aget_in_range (m_entry q) (m_current_index q)) as (b & Hb & Ha); [lia |].
  destruct (rotation_first _ _ _ Hb) as (suf & Hr & _). eauto.
Qed.

Lemma insert_by_priority_perm e l : insert_by_priority e l ≡ₚ e :: l.
Proof.
  induction l as [| x l IH]; simpl; [done |].
  destruct (m_priority x <? m_priority e); [done |]. rewrite IH. apply Permutation_swap.
Qed.

Lemma insert_by_priority_sorted e l :
  StronglySorted by_priority l -> StronglySorted by_priority (insert_by_priority e l).
Proof.
  induction 1 as [| x l Hs IH Hall]; simpl; [by repeat constructor |].
  destruct (Z.ltb_spec (m_priority x) (m_priority e)).
  - constructor; [by constructor |]. constructor; [unfold by_priority; lia |].
    eapply Forall_impl; [done |]. unfold by_priority. simpl. lia.
  - constructor; [done |]. rewrite insert_by_priority_perm. constructor; [done |]. done.
Qed.

(** Among equal priorities the older entry stays in front. *)
Lemma insert_by_priority_stable e l :
  exists hi lo, l = hi ++ lo /\ insert_by_priority e l = hi ++ e :: lo /\
    Forall (fun x => m_priority e <= m_priority x) hi /\
    (StronglySorted by_priority l -> Forall (fun x => m_priority x < m_priority e) lo).
Proof.
  induction l as [| x l (hi & lo & -> & Hins & Hhi & Hlo)]; simpl.
  { by exists [], []. }
  destruct (Z.ltb_spec (m_priority x) (m_priority e)).
  - exists [], (x :: hi ++ lo). split_and!; [done | done | done |].
    intros Hss. inversion_clear Hss as [| ? ? Hs Hall]. constructor; [done |].
    eapply Forall_impl; [done |]. unfold by_priority. simpl. lia.
  - exists (x :: hi), lo. rewrite Hins. split_and!; [done | done | by constructor |].
    intros Hs. inversion_clear Hs. auto.
Qed.

Lemma pqueue_new_inv size latency next :
  0 <= latency -> 0 <= size -> pq_inv (pqueue_new size latency next).
Proof.
  intros Hl Hs. assert (Hc : contents (pqueue_new size latency next) = []).
  { unfold contents, pqueue_new, rotation. simpl. rewrite take_0, drop_0, app_nil_r.
    induction (Z.to_nat (latency + 1)); simpl; done. }
  split; simpl; [rewrite length_replicate; lia | lia | rewrite Z.mod_small; lia | | |].
  - rewrite Hc. done.
  - apply Forall_replicate. constructor.
  - rewrite Hc. apply pool_new_inv. lia.
Qed.

(** An insertion replaces the last bucket of the rotation. *)
Lemma enqueue_rotation priority data q :
  pq_inv q -> m_num_entry q < m_capacity q ->
  exists q' e pre b, enqueue priority data q = Done (true, q') /\ pq_inv q' /\
    rotation (Z.to_nat (m_current_index q)) (m_entry q) = pre ++ [b] /\
    rotation (Z.to_nat (m_current_index q')) (m_entry q') = pre ++ [insert_by_priority e b] /\
    m_priority e = priority /\ m_data e = data /\ StronglySorted by_priority b.
Proof.
  intros Hi Hcap. destruct (inv_index_nat q Hi) as (Hc & Hl & Hlr).
  destruct (aget_in_range _ _ Hlr) as (b & Hb & Ha).
  destruct (rotation_last _ _ _ _ Hc Hl Hb) as (pre & Hr & Hrs).
  destruct (acquire_entry_ok _ _ (inv_pool q Hi)) as (p & pool & Hacq & _ & Hpool).
  unfold enqueue. rewrite (proj2 (Z.ltb_lt _ _) Hcap). simpl. rewrite Hacq. simpl.
  rewrite Ha. simpl. rewrite aset_in_range by done. simpl.
  set (e := mk_entry p priority data). set (q' := mk_pqueue _ _ _ _ _ _ _).
  destruct Hi as [Hsz Hcu Hla [Hnum _] Hso Hpo].
  pose proof (Forall_lookup_1 _ _ _ _ Hso Hb) as Hbs.
  assert (Hp : contents q' ≡ₚ e :: contents q).
  { unfold contents, q'. simpl. rewrite Hrs, Hr, !concat_app. simpl. rewrite !app_nil_r.
    rewrite insert_by_priority_perm. symmetry. apply Permutation_middle. }
  exists q', e, pre, b. split_and!; [done | | done | apply Hrs | done | done | done].
  split; [| done | done | | |].
  - unfold q'. simpl. by rewrite length_insert.
  - rewrite (Permutation_length Hp). unfold q'. simpl. lia.
  - apply Forall_insert; [done |]. by apply insert_by_priority_sorted.
  - by rewrite Hp.
Qed.

Lemma enqueue_split priority data q :
  pq_inv q -> m_num_entry q < m_capacity q ->
  exists q' e hi lo, enqueue priority data q = Done (true, q') /\
    m_priority e = priority /\ m_data e = data /\
    contents q = hi ++ lo /\ contents q' = hi ++ e :: lo /\
    Forall (fun x => m_priority x < priority) lo.
Proof.
  intros Hi Hcap. destruct (enqueue_rotation priority data q Hi Hcap)
    as (q' & e & pre & b & Henq & Hi' & Hr & Hr' & Hp & Hd & Hs).
  destruct (insert_by_priority_stable e b) as (hi & lo & -> & Hins & _ & Hlo).
  exists q', e, (concat pre ++ hi), lo. unfold contents.
  rewrite Hr, Hr', Hins, !concat_app. simpl. rewrite !app_nil_r, <- !app_assoc.
  subst priority. by split_and!; auto.
Qed.

Lemma dequeue_ok q :
  pq_inv q -> ready q = Done true ->
  exists e rest q', dequeue q = Done (m_data e, m_priority e, q') /\ pq_inv q' /\
    contents q = e :: rest /\ contents q' = rest.
Proof.
  intros Hi Hready. destruct (current_bucket q Hi) as (b & suf & Ha & Hb & Hr).
  unfold ready in Hready. rewrite Ha in Hready. simpl in Hready.
  destruct b as [| e rest]; [done |].
  destruct (rotation_first _ _ _ Hb) as (suf' & Hr' & Hset & _).
  rewrite Hr in Hr'. injection Hr' as <-.
  destruct Hi as [Hsz Hcu Hla [Hnum Hcap] Hso Hpo].
  unfold dequeue. rewrite Ha. simpl. rewrite aset_in_range by lia. simpl.
  set (q' := mk_pqueue _ _ _ _ _ _ _).
  assert (Hc1 : contents q = e :: rest ++ concat suf) by (unfold contents; by rewrite Hr).
  assert (Hc2 : contents q' = rest ++ concat suf) by (unfold contents, q'; simpl; by rewrite Hset).
  exists e, (rest ++ concat suf), q'. split_and!; [done | | done | done].
  split; [| done | done | | |]; [| rewrite Hc2; rewrite Hc1 in Hnum; unfold q'; simpl in * | |].
  - unfold q'. simpl. by rewrite length_insert.
  - lia.
  - apply Forall_insert; [done |].
    pose proof (Forall_lookup_1 _ _ _ _ Hso Hb) as Hss. by inversion_clear Hss.
  - rewrite Hc2. unfold q'. simpl. apply release_entry_ok. by rewrite Hc1 in Hpo.
Qed.

Lemma advance_ok q :
  pq_inv q ->
  exists q', advance q = Done (true, q') /\ pq_inv q' /\ contents q' = contents q /\
    (m_num_entry q <> 0 -> ready q = Done false ->
     exists suf, rotation (Z.to_nat (m_current_index q)) (m_entry q) = [] :: suf /\
       rotation (Z.to_nat (m_current_index q')) (m_entry q') = suf ++ [[]]).
Proof.
  intros Hi. destruct (current_bucket q Hi) as (b & suf & Ha & Hb & Hr).
  unfold advance, ready. rewrite Ha. simpl.
  destruct (Z.eqb_spec (m_num_entry q) 0); [exists q; by split_and! |].
  destruct b as [| e b]; [| exists q; by split_and!].
  set (q' := mk_pqueue _ _ _ _ _ _ _). exists q'.
  destruct (rotation_first _ _ _ Hb) as (suf' & Hr' & _ & Hnext).
  rewrite Hr in Hr'. injection Hr' as <-.
  destruct Hi as [[Hsz H0] Hcu Hla Hnum Hso Hpo].
  assert (Hi' : Z.to_nat (m_current_index q') =
                ((Z.to_nat (m_current_index q) + 1) mod length (m_entry q))%nat).
  { unfold q'. simpl. rewrite Hsz. apply Nat2Z.inj.
    rewrite Z2Nat.id by (apply Z.mod_pos_bound; lia). rewrite Nat2Z.inj_mod. f_equal. lia. }
  assert (Hrq : rotation (Z.to_nat (m_current_index q')) (m_entry q') = suf ++ [[]])
    by (rewrite Hi'; exact Hnext).
  assert (Hc : contents q' = contents q).
  { unfold contents. rewrite Hrq, Hr, concat_app. simpl. by rewrite app_nil_r. }
  split_and!; [done | | done | eauto].
  split; rewrite ?Hc; try done.
  - unfold q'. simpl. apply Z.mod_pos_bound. lia.
  - unfold q'. simpl.
    destruct (Z.eq_dec (m_current_index q + 1) (m_size q)) as [E | E].
    + rewrite E, Z.mod_same, Z.mod_small by lia. lia.
    + rewrite (Z.mod_small (m_current_index q + 1)) by lia.
      replace (m_current_index q + 1 + m_size q - 1) with (m_current_index q + 1 * m_size q) by lia.
      rewrite Z.mod_add, Z.mod_small by lia. lia.
Qed.

Lemma peek_bucket_spec entry l count d :
  peek_bucket entry l count d =
    if bool_decide (count <= entry < count + Z.of_nat (length l))
    then (entry + 1, default d (m_data <$> l !! Z.to_nat (entry - count)))
    else (count + Z.of_nat (length l), d).
Proof.
  revert count. induction l as [| e l IH]; intros count; simpl.
  { rewrite bool_decide_false by lia. f_equal. lia. }
  destruct (Z.eqb_spec count entry) as [<- | Hne].
  - rewrite bool_decide_true by lia. by rewrite Z.sub_diag.
  - rewrite IH. destruct (decide (count <= entry < count + Z.of_nat (S (length l)))) as [H | H].
    + rewrite !bool_decide_true by lia.
      replace (Z.to_nat (entry - count)) with (S (Z.to_nat (entry - (count + 1)))) by lia. done.
    + rewrite !bool_decide_false by lia. f_equal. lia.
Qed.

Lemma peek_buckets_past entry bs count d : entry < count -> peek_buckets entry bs count d = d.
Proof.
  revert count. induction bs as [| b bs IH]; intros count H; simpl; [done |].
  rewrite peek_bucket_spec, bool_decide_false by lia. apply IH. lia.
Qed.

Lemma peek_buckets_spec entry bs count d :
  count <= entry ->
  peek_buckets entry bs count d = default d (m_data <$> concat bs !! Z.to_nat (entry - count)).
Proof.
  revert count. induction bs as [| b bs IH]; intros count H; simpl; [done |].
  rewrite peek_bucket_spec. case_bool_decide as E.
  - rewrite peek_buckets_past by lia. rewrite lookup_app_l by lia. done.
  - rewrite IH by lia. rewrite lookup_app_r by lia. do 3 f_equal. lia.
Qed.

Lemma peek_ok q entry :
  pq_inv q -> 0 <= entry <= m_num_entry q ->
  peek entry q = Done (default T0 (m_data <$> contents q !! Z.to_nat entry)).
Proof.
  intros Hi He. unfold peek. rewrite (proj2 (Z.leb_le _ _)) by lia. simpl.
  rewrite peek_buckets_spec, Z.sub_0_r by lia. done.
Qed.

Lemma flush_contents q : contents (flush q) = [].
Proof.
  unfold contents, flush. simpl. unfold rotation. rewrite take_0, drop_0, app_nil_r.
  by induction (m_entry q).
Qed.

(** [flush] gives every entry back to the pool. *)
Lemma flush_pool q :
  pq_inv q -> exists e p, acquire_entry (m_entry_pool (flush q)) = Done (e, p).
Proof.
  intros Hi. assert (Hp : pool_inv (m_entry_pool (flush q)) []).
  { unfold flush. simpl. pose proof (inv_pool q Hi) as Hpo.
    assert (E : e_ptr <$> contents q ≡ₚ (e_ptr <$> concat (m_entry q)) ++ []).
    { rewrite app_nil_r. f_equiv. unfold contents. by rewrite rotation_perm. }
    rewrite E in Hpo. clear E Hi. revert Hpo. generalize (m_entry_pool q).
    induction (concat (m_entry q)) as [| e l IH]; intros p Hpo; simpl in *; [done |].
    by apply IH, release_entry_ok. }
  destruct (acquire_entry_ok _ _ Hp) as (e & p & H & _). eauto.
Qed.

(** ** Client protocol

    A pipeline stage enqueues only when there is space and dequeues only when
    an entry is ready. *)
Inductive pq_op := PEnq (priority : Z) (data : T) | PDeq | PAdv.

Definition pq_exec (o : pq_op) (q : pqueue_c) : outcome pqueue_c :=
  match o with
  | PEnq p d => if 0 <? space q then '(_, q') ← enqueue p d q; mret q' else mret q
  | PDeq => r ← ready q; if (r : bool) then '(_, q') ← dequeue q; mret q' else mret q
  | PAdv => '(_, q') ← advance q; mret q'
  end.

Fixpoint pq_run (ops : list pq_op) (q : pqueue_c) : outcome pqueue_c :=
  match ops with
  | [] => mret q
  | o :: ops' => q' ← pq_exec o q; pq_run ops' q'
  end.

Lemma ready_total q : pq_inv q -> exists b, ready q = Done b.
Proof.
  intros Hi. destruct (current_bucket q Hi) as (b & suf & Ha & _).
  unfold ready. rewrite Ha. by eexists.
Qed.

Lemma pq_exec_ok o q : pq_inv q -> exists q', pq_exec o q = Done q' /\ pq_inv q'.
Proof.
  intros Hi. destruct o as [p d | |]; simpl.
  - destruct (Z.ltb_spec 0 (space q)) as [H |]; [| by exists q]. unfold space in H.
    destruct (enqueue_rotation p d q Hi ltac:(lia)) as (q' & _ & _ & _ & -> & Hi' & _).
    by exists q'.
  - destruct (ready_total q Hi) as [r Hr]. rewrite Hr. simpl.
    destruct r; [| by exists q].
    destruct (dequeue_ok q Hi Hr) as (e & rest & q' & -> & Hi' & _). by exists q'.
  - destruct (advance_ok q Hi) as (q' & -> & Hi' & _). by exists q'.
Qed.

Lemma pq_run_ok ops q : pq_inv q -> exists q', pq_run ops q = Done q' /\ pq_inv q'.
Proof.
  revert q. induction ops as [| o ops IH]; intros q Hi; simpl; [by exists q |].
  destruct (pq_exec_ok o q Hi) as (q1 & -> & Hi1). simpl. auto.
Qed.

(** [k] calls of [advance]. *)
Fixpoint advances (k : nat) (q : pqueue_c) : outcome pqueue_c :=
  match k with
  | O => mret q
  | S k' => '(_, q') ← advance q; advances k' q'
  end.

Lemma concat_nil_all {A} (ls : list (list A)) :
  concat ls = [] -> ls = replicate (length ls) [].
Proof.
  induction ls as [| l ls IH]; simpl; [done |]. intros H.
  apply app_eq_nil in H as [-> H]. by f_equal; auto.
Qed.

(** One entry, [n] empty buckets in front of it. *)
Lemma advances_ready q e n m :
  pq_inv q ->
  rotation (Z.to_nat (m_current_index q)) (m_entry q) = replicate n [] ++ [e] :: replicate m [] ->
  forall k, (k <= n)%nat -> exists q', advances k q = Done q' /\ ready q' = Done (bool_decide (k = n)).
Proof.
  intros Hi Hrot k. revert q n m Hi Hrot.
  assert (Hready : forall q b suf, pq_inv q ->
    rotation (Z.to_nat (m_current_index q)) (m_entry q) = b :: suf ->
    ready q = Done (match b with [] => false | _ => true end)).
  { intros q b suf Hi Hr. destruct (current_bucket q Hi) as (b' & suf' & Ha & _ & Hr').
    rewrite Hr in Hr'. injection Hr' as <- _. unfold ready. by rewrite Ha. }
  induction k as [| k IH]; intros q n m Hi Hrot Hk.
  - exists q. split; [done |]. destruct n as [| n]; simpl in Hrot;
      by rewrite (Hready _ _ _ Hi Hrot).
  - destruct n as [| n]; [lia |]. simpl in Hrot.
    destruct (advance_ok q Hi) as (q' & Ha & Hi' & Hc & Hstep). simpl. rewrite Ha. simpl.
    destruct Hstep as (suf & Hs1 & Hs2).
    { destruct (inv_num q Hi) as [Hn _]. rewrite Hn. unfold contents. rewrite Hrot.
      simpl. rewrite concat_app, length_app. simpl. lia. }
    { by rewrite (Hready _ _ _ Hi Hrot). }
    rewrite Hrot in Hs1. injection Hs1 as <-.
    destruct (IH q' n (m + 1)%nat Hi') as (q'' & Hq & Hr); [| lia |].
    { rewrite Hs2, <- app_assoc. f_equal. simpl. f_equal. by rewrite replicate_add. }
    exists q''. split; [done |]. rewrite Hr. f_equal. apply bool_decide_ext. lia.
Qed.

(** C24: every run of a latency queue by clients that respect [space] and
    [ready] succeeds: no assertion fails, no bucket index leaves the array, no
    empty list is popped, and the invariant (sorted buckets, ring indices,
    counts, pool ownership) holds at its end. *)
Theorem pqueue_runs_safe size latency next ops :
  0 <= latency -> 0 <= size ->
  exists q, pq_run ops (pqueue_new size latency next) = Done q /\ pq_inv q.
Proof. intros. apply pq_run_ok. by apply pqueue_new_inv. Qed.

(** [enqueue] places the new entry behind all entries of the last bucket
    with at least its priority and before those with a lower one, leaves the
    order of the others unchanged, and entries leave in that order: [dequeue]
    returns the head of the queue, [peek n] its [n]-th element. *)
Theorem pqueue_order q :
  pq_inv q ->
  (forall priority data, m_num_entry q < m_capacity q ->
     exists q' e hi lo, enqueue priority data q = Done (true, q') /\
       m_priority e = priority /\ m_data e = data /\
       contents q = hi ++ lo /\ contents q' = hi ++ e :: lo /\
       Forall (fun x => m_priority x < priority) lo) /\
  (ready q = Done true ->
     exists e rest q', dequeue q = Done (m_data e, m_priority e, q') /\
       contents q = e :: rest /\ contents q' = rest) /\
  (forall n, 0 <= n <= m_num_entry q ->
     peek n q = Done (default T0 (m_data <$> contents q !! Z.to_nat n))).
Proof.
  intros Hi. split_and!.
  - intros p d Hcap. by apply enqueue_split.
  - intros Hr. destruct (dequeue_ok q Hi Hr) as (e & rest & q' & H1 & _ & H2 & H3). eauto 10.
  - intros n Hn. by apply peek_ok.
Qed.

(** an entry put in an empty queue becomes ready after exactly [latency]
    calls of [advance], not earlier. *)
Theorem pqueue_latency q priority data :
  pq_inv q -> m_num_entry q = 0 -> 0 < m_capacity q ->
  exists q', enqueue priority data q = Done (true, q') /\
    forall k, 0 <= k <= m_size q - 1 ->
      exists q'', advances (Z.to_nat k) q' = Done q'' /\
        ready q'' = Done (bool_decide (k = m_size q - 1)).
Proof.
  intros Hi Hn Hcap. destruct (enqueue_rotation priority data q Hi ltac:(lia))
    as (q' & e & pre & b & Henq & Hi' & Hr & Hr' & _).
  assert (Hall : concat (pre ++ [b]) = []).
  { destruct (inv_num q Hi) as [Hn' _]. rewrite Hn in Hn'. unfold contents in Hn'.
    rewrite Hr in Hn'. apply nil_length_inv. lia. }
  apply concat_nil_all in Hall. rewrite length_app in Hall. simpl in Hall.
  rewrite replicate_add in Hall. apply app_inj_2 in Hall as [Hpre Hb]; [| done].
  injection Hb as ->. exists q'. split; [done |]. intros k Hk.
  destruct (inv_size q Hi) as [Hsz _].
  assert (Hlen : length (m_entry q) = (length pre + 1)%nat).
  { rewrite <- (Permutation_length (rotation_perm (Z.to_nat (m_current_index q)) _)), Hr.
    by rewrite length_app. }
  destruct (advances_ready q' e (length pre) 0 Hi') with (k := Z.to_nat k) as (q'' & Ha & Hb);
    [by rewrite Hr', Hpre, length_replicate | lia |].
  exists q''. split; [done |]. rewrite Hb. f_equal. apply bool_decide_ext. lia.
Qed.

(** after [flush] the bucket index for insertion is [m_size], one past the
    array, so the next [enqueue] accesses it out of bounds. *)
Theorem pqueue_flush_breaks_enqueue q priority data :
  pq_inv q -> 0 < m_capacity q ->
  contents (flush q) = [] /\ enqueue priority data (flush q) = Fault OutOfBounds.
Proof.
  intros Hi Hcap. split; [apply flush_contents |].
  destruct (flush_pool q Hi) as (e & p & Hacq). unfold enqueue.
  rewrite (proj2 (Z.ltb_lt (m_num_entry (flush q)) (m_capacity (flush q)))) by done.
  change (ASSERT true) with (Done tt). rewrite bind_done, Hacq, bind_done.
  destruct (inv_size q Hi) as [Hs H0].
  unfold aget. simpl. rewrite (proj2 (Z.leb_le _ _)) by lia.
  rewrite lookup_ge_None_2; [done |]. rewrite length_fmap. lia.
Qed.

End PQUEUE.

(** ** Witnesses *)

Lemma pqueue_runs_safe_witness :
  exists q, pq_run [PEnq 0 7; PEnq 3 8; PAdv; PDeq; PAdv] (pqueue_new 4 2 0) = Done q /\ pq_inv q.
Proof. apply (pqueue_runs_safe 4 2 0); lia. Defined.

Definition wq : pqueue_c := pqueue_new (T := Z) 4 2 0.
Definition wq1 : pqueue_c :=
  match pq_run [PEnq 1 7; PEnq 5 8; PAdv; PAdv] wq with Done q => q | Fault _ => wq end.

Lemma wq_inv : pq_inv wq.
Proof. apply pqueue_new_inv; lia. Qed.
Lemma wq1_inv : pq_inv wq1.
Proof.
  destruct (pq_run_ok [PEnq 1 7; PEnq 5 8; PAdv; PAdv] wq wq_inv) as (q & E & H).
  unfold wq1. by rewrite E.
Qed.

Lemma pqueue_order_witness :
  ready wq1 = Done true /\
  exists e rest q', dequeue wq1 = Done (m_data e, m_priority e, q') /\
    contents wq1 = e :: rest /\ contents q' = rest.
Proof.
  split; [reflexivity |]. apply (proj1 (proj2 (pqueue_order 0 wq1 wq1_inv))). reflexivity.
Defined.

Lemma pqueue_latency_witness :
  exists q', enqueue 0 9 wq = Done (true, q') /\
    forall k, 0 <= k <= m_size wq - 1 ->
      exists q'', advances (Z.to_nat k) q' = Done q'' /\
        ready q'' = Done (bool_decide (k = m_size wq - 1)).
Proof. apply (pqueue_latency wq 0 9 wq_inv); [reflexivity | reflexivity]. Defined.

Lemma pqueue_flush_breaks_enqueue_witness :
  contents (flush wq1) = [] /\ enqueue 0 9 (flush wq1) = Fault OutOfBounds.
Proof. apply (pqueue_flush_breaks_enqueue wq1 0 9 wq1_inv). reflexivity. Defined.
