(* ===== verification/Cache.v ===== *)
(** * Set-associative cache: src/src/cache.cc, src/src/cache.h

    The cache library every level of the hierarchy and the branch target
    buffer use: address decomposition (with tiles), lookup, LRU and
    pseudo-LRU replacement, static CPU/GPU partitioning, insertion and
    invalidation. A pointer to a line is its (set, way) position; the data a
    line points to is of type [D] ([D_zero] is what [memset] leaves). *)

From S2P Require Import Prelude Utils.
Import Utils.Bits.

(** ** Geometry: the fields the constructor fixes *)
Record cache_geom := mk_geom {
  m_data_size : Z;
  m_assoc : Z;
  m_num_sets : Z;
  m_line_size : Z;
  m_set_bits : Z;
  m_shift_bits : Z;
  m_set_mask : Z;
  m_tag_mask : Z;
  m_offset_mask : Z;
  m_bank_num : Z;
  m_cache_by_pass : bool;
  m_enable_partition : bool;
  m_num_tiles : Z;
  m_tile_bits : Z;
  m_interleave_factor : Z;
  m_interleave_bits : Z;
  m_interleave_mask : Z
}.

Definition cache_geometry (num_set assoc line_size data_size bank_num : Z)
    (cache_by_pass enable_partition : bool) (num_tiles interleave_factor : Z) : cache_geom :=
  let tiles := if 0 <? num_tiles then num_tiles else 1 in
  let set_mask := N_BIT_MASK (log2_int num_set) in
  let shift_bits := log2_int line_size in
  {| m_data_size := data_size;
     m_assoc := assoc;
     m_num_sets := num_set;
     m_line_size := line_size;
     m_set_bits := log2_int num_set;
     m_shift_bits := shift_bits;
     m_set_mask := set_mask;
     m_tag_mask := lnot64 set_mask;
     m_offset_mask := N_BIT_MASK shift_bits;
     m_bank_num := bank_num;
     m_cache_by_pass := cache_by_pass;
     m_enable_partition := enable_partition;
     m_num_tiles := tiles;
     m_tile_bits := if Z.land tiles (tiles - 1) =? 0 then log2_int tiles else 0;
     m_interleave_factor := interleave_factor;
     m_interleave_bits := log2_int interleave_factor;
     m_interleave_mask := N_BIT_MASK (log2_int interleave_factor) |}.

(** The address with the tile number taken out: by shifts when the number of
    tiles is a power of two (1), by a division otherwise (2). *)
Definition mod_addr_shift (g : cache_geom) (addr : Z) : Z :=
  Z.lor (shl64 (Z.shiftr addr (m_interleave_bits g + m_tile_bits g)) (m_interleave_bits g))
        (Z.land addr (m_interleave_mask g)).
Definition mod_addr_div (g : cache_geom) (addr : Z) : Z :=
  Z.lor (shl64 (Z.shiftr addr (m_interleave_bits g) / m_num_tiles g) (m_interleave_bits g))
        (Z.land addr (m_interleave_mask g)).
Definition mod_addr (g : cache_geom) (addr : Z) : Z :=
  if negb (m_tile_bits g =? 0) then mod_addr_shift g addr else mod_addr_div g addr.

Definition find_tag_and_set (g : cache_geom) (addr : Z) : Z * Z :=
  if m_num_tiles g =? 1 then
    (Z.land (Z.shiftr addr (m_shift_bits g)) (m_tag_mask g),
     Z.land (Z.shiftr addr (m_shift_bits g)) (m_set_mask g))
  else
    (Z.land (Z.shiftr (mod_addr g addr) (m_shift_bits g)) (m_tag_mask g),
     Z.land (Z.shiftr (mod_addr g addr) (m_shift_bits g)) (m_set_mask g)).

Definition base_cache_line (g : cache_geom) (addr : Z) : Z :=
  Z.land addr (lnot64 (m_offset_mask g)).

Definition get_bank_num (g : cache_geom) (addr : Z) : Z :=
  let a := if m_num_tiles g =? 1 then addr else mod_addr g addr in
  Z.land (Z.shiftr a (m_shift_bits g)) (N_BIT_MASK (log2_int (m_bank_num g))).

(** ** Facts on the address decomposition *)

Record geom_wf (g : cache_geom) : Prop := {
  wf_set_bits : 0 <= m_set_bits g <= 31;
  wf_sets : 2 ^ m_set_bits g <= m_num_sets g;
  wf_set_mask : m_set_mask g = N_BIT_MASK (m_set_bits g);
  wf_tag_mask : m_tag_mask g = lnot64 (m_set_mask g);
  wf_shift : 0 <= m_shift_bits g <= 31;
  wf_offset : m_offset_mask g = N_BIT_MASK (m_shift_bits g);
  wf_assoc : 0 < m_assoc g;
  wf_ibits : 0 <= m_interleave_bits g <= 31;
  wf_imask : m_interleave_mask g = N_BIT_MASK (m_interleave_bits g);
  wf_tiles : 0 < m_num_tiles g;
  wf_tbits : 0 <= m_tile_bits g <= 31;
  wf_pow2 : m_tile_bits g <> 0 -> m_num_tiles g = 2 ^ m_tile_bits g
}.

Lemma log2_int_range n : 0 <= n < 2 ^ 31 -> 0 <= log2_int n <= 31.
Proof.
  intros Hn. rewrite log2_int_log2 by lia. split; [apply Z.log2_nonneg |].
  destruct (Z.eq_dec n 0) as [-> |]; [done |].
  apply Z.lt_le_incl, Z.log2_lt_pow2; lia.
Qed.

Lemma cache_geometry_wf num_set assoc line_size data_size bank_num bypass part tiles ifactor :
  0 < num_set < 2 ^ 31 -> 0 < assoc -> 0 < line_size < 2 ^ 31 -> tiles < 2 ^ 31 ->
  0 <= ifactor < 2 ^ 31 ->
  geom_wf (cache_geometry num_set assoc line_size data_size bank_num bypass part tiles ifactor).
Proof.
  intros Hs Ha Hl Ht Hi. set (t := if 0 <? tiles then tiles else 1).
  assert (Ht' : 0 < t < 2 ^ 31) by (unfold t; destruct (Z.ltb_spec 0 tiles); lia).
  split; simpl; fold t; try done; try (apply log2_int_range; lia).
  - rewrite log2_int_log2 by lia. apply Z.log2_spec. lia.
  - lia.
  - destruct (_ =? _); [apply log2_int_range |]; lia.
  - destruct (Z.eqb_spec (Z.land t (t - 1)) 0) as [E |]; [| done]. intros _.
    rewrite log2_int_log2 by lia. apply land_pred_pow2; [lia | done].
Qed.

(** The line number that tag and set split. *)
Definition line_number (g : cache_geom) (addr : Z) : Z :=
  Z.shiftr (if m_num_tiles g =? 1 then addr else mod_addr g addr) (m_shift_bits g).

Lemma shiftr_u64 a n : is_u64 a -> 0 <= n -> is_u64 (Z.shiftr a n).
Proof.
  unfold is_u64. intros Ha Hn. rewrite Z.shiftr_div_pow2 by lia.
  pose proof (pow2_pos n Hn). split; [apply Z.div_pos; lia |].
  apply Z.le_lt_trans with a; [| lia]. apply Z.div_le_upper_bound; [lia |]. nia.
Qed.

Lemma tile_split_bounds a n t :
  is_u64 a -> 0 <= n -> 0 < t ->
  0 <= a / 2 ^ n / t /\ is_u64 (a / 2 ^ n / t * 2 ^ n + a mod 2 ^ n).
Proof.
  unfold is_u64. intros Ha Hn Ht. pose proof (pow2_pos n Hn).
  pose proof (Z.div_mod a (2 ^ n) ltac:(lia)). pose proof (Z.mod_pos_bound a (2 ^ n) ltac:(lia)).
  assert (0 <= a / 2 ^ n) by (apply Z.div_pos; lia).
  assert (0 <= a / 2 ^ n / t) by (apply Z.div_pos; lia).
  assert (a / 2 ^ n / t <= a / 2 ^ n) by (apply Z.div_le_upper_bound; nia). nia.
Qed.

Lemma mod_addr_div_arith g addr :
  geom_wf g -> is_u64 addr ->
  mod_addr_div g addr =
    addr / 2 ^ m_interleave_bits g / m_num_tiles g * 2 ^ m_interleave_bits g +
    addr mod 2 ^ m_interleave_bits g.
Proof.
  intros Hg Ha. pose proof (wf_ibits g Hg) as Hi. pose proof (wf_tiles g Hg) as Ht.
  destruct (tile_split_bounds addr (m_interleave_bits g) (m_num_tiles g) Ha ltac:(lia) Ht) as [Hq Hb].
  pose proof (pow2_pos (m_interleave_bits g) ltac:(lia)) as Hp.
  pose proof (Z.mod_pos_bound addr _ Hp) as Hm.
  unfold mod_addr_div, shl64. rewrite (wf_imask g Hg), land_mask by lia.
  rewrite Z.shiftr_div_pow2 by lia. rewrite u64_small.
  - apply lor_shiftl_add; lia.
  - unfold is_u64 in *. rewrite Z.shiftl_mul_pow2 by lia. nia.
Qed.

Lemma mod_addr_shift_div g addr :
  geom_wf g -> m_num_tiles g = 2 ^ m_tile_bits g -> mod_addr_shift g addr = mod_addr_div g addr.
Proof.
  intros Hg Ht. unfold mod_addr_shift, mod_addr_div. do 2 f_equal.
  pose proof (wf_ibits g Hg). pose proof (wf_tbits g Hg).
  rewrite Ht, !Z.shiftr_div_pow2, Z.pow_add_r by lia.
  symmetry. apply Z.div_div; [apply Z.pow_nonzero | apply pow2_pos]; lia.
Qed.

Lemma mod_addr_arith g addr :
  geom_wf g -> is_u64 addr ->
  mod_addr g addr =
    addr / 2 ^ m_interleave_bits g / m_num_tiles g * 2 ^ m_interleave_bits g +
    addr mod 2 ^ m_interleave_bits g.
Proof.
  intros Hg Ha. rewrite <- mod_addr_div_arith by done. unfold mod_addr.
  destruct (Z.eqb_spec (m_tile_bits g) 0) as [| Hne]; simpl; [done |].
  apply mod_addr_shift_div; [done |]. by apply wf_pow2.
Qed.

Lemma line_number_u64 g addr : geom_wf g -> is_u64 addr -> is_u64 (line_number g addr).
Proof.
  intros Hg Ha. pose proof (wf_shift g Hg). apply shiftr_u64; [| lia].
  destruct (_ =? _); [done |]. rewrite mod_addr_arith by done.
  pose proof (wf_ibits g Hg). apply tile_split_bounds; [done | lia | by apply wf_tiles].
Qed.

Lemma find_tag_and_set_split g addr :
  geom_wf g -> is_u64 addr ->
  find_tag_and_set g addr =
    (line_number g addr - line_number g addr mod 2 ^ m_set_bits g,
     line_number g addr mod 2 ^ m_set_bits g).
Proof.
  intros Hg Ha. pose proof (line_number_u64 g addr Hg Ha) as Hl.
  pose proof (wf_set_bits g Hg) as Hb. pose proof (pow2_pos (m_set_bits g) ltac:(lia)).
  assert (E : find_tag_and_set g addr = (Z.land (line_number g addr) (m_tag_mask g),
                                         Z.land (line_number g addr) (m_set_mask g)))
    by (unfold find_tag_and_set, line_number; by destruct (_ =? _)).
  rewrite E, (wf_tag_mask g Hg), (wf_set_mask g Hg), land_mask by lia.
  rewrite land_lnot64_mask by (done || lia).
  rewrite Z.shiftl_mul_pow2, Z.shiftr_div_pow2 by lia. f_equal.
  pose proof (Z.div_mod (line_number g addr) (2 ^ m_set_bits g)). lia.
Qed.

Lemma find_tag_and_set_range g addr :
  geom_wf g -> is_u64 addr -> 0 <= (find_tag_and_set g addr).2 < m_num_sets g.
Proof.
  intros Hg Ha. rewrite find_tag_and_set_split by done. simpl.
  pose proof (wf_set_bits g Hg). pose proof (wf_sets g Hg).
  pose proof (Z.mod_pos_bound (line_number g addr) (2 ^ m_set_bits g) ltac:(apply pow2_pos; lia)).
  lia.
Qed.

Lemma find_tag_and_set_inj g a b :
  geom_wf g -> is_u64 a -> is_u64 b ->
  find_tag_and_set g a = find_tag_and_set g b <-> line_number g a = line_number g b.
Proof.
  intros Hg Ha Hb. rewrite !find_tag_and_set_split by done. split; [| by intros ->].
  intros [= H1 H2]. lia.
Qed.

(** Tile of an address, as the interleaving assigns it. *)
Definition tile_of (g : cache_geom) (addr : Z) : Z :=
  Z.shiftr addr (m_interleave_bits g) mod m_num_tiles g.

Lemma div_pow2_split a n k : 0 <= n <= k ->
  a / 2 ^ k = a / 2 ^ n / 2 ^ (k - n) /\ a mod 2 ^ k / 2 ^ n = a / 2 ^ n mod 2 ^ (k - n).
Proof.
  intros H. pose proof (pow2_pos n ltac:(lia)). pose proof (pow2_pos (k - n) ltac:(lia)).
  replace (2 ^ k) with (2 ^ n * 2 ^ (k - n)) by (rewrite <- Z.pow_add_r by lia; f_equal; lia).
  rewrite Z.div_div by lia. split; [done |].
  rewrite Z.rem_mul_r by lia. rewrite Z.mul_comm, Z.div_add by lia.
  rewrite Z.div_small by (apply Z.mod_pos_bound; lia). lia.
Qed.

Lemma line_number_arith g addr :
  geom_wf g -> is_u64 addr -> (m_num_tiles g <> 1 -> m_shift_bits g <= m_interleave_bits g) ->
  let A := addr / 2 ^ m_shift_bits g in
  let k := m_interleave_bits g - m_shift_bits g in
  line_number g addr =
    if m_num_tiles g =? 1 then A else A / 2 ^ k / m_num_tiles g * 2 ^ k + A mod 2 ^ k.
Proof.
  intros Hg Ha Hle. pose proof (wf_shift g Hg). unfold line_number.
  rewrite Z.shiftr_div_pow2 by lia. destruct (Z.eqb_spec (m_num_tiles g) 1) as [| Hne]; [done |].
  specialize (Hle Hne). rewrite mod_addr_arith by done.
  destruct (div_pow2_split addr (m_shift_bits g) (m_interleave_bits g) ltac:(lia)) as [E1 E2].
  rewrite <- E1, <- E2. set (q := addr / _ / m_num_tiles g).
  replace (2 ^ m_interleave_bits g) with
    (2 ^ (m_interleave_bits g - m_shift_bits g) * 2 ^ m_shift_bits g) at 1
    by (rewrite <- Z.pow_add_r by lia; f_equal; lia).
  rewrite Z.mul_assoc, Z.add_comm, Z.div_add by (pose proof (pow2_pos (m_shift_bits g)); lia).
  lia.
Qed.

Lemma same_line_iff g a b :
  geom_wf g -> is_u64 a -> is_u64 b ->
  (m_num_tiles g <> 1 -> m_shift_bits g <= m_interleave_bits g) ->
  tile_of g a = tile_of g b ->
  line_number g a = line_number g b <-> a / 2 ^ m_shift_bits g = b / 2 ^ m_shift_bits g.
Proof.
  intros Hg Ha Hb Hle Ht. rewrite !line_number_arith by done. cbv zeta.
  destruct (Z.eqb_spec (m_num_tiles g) 1) as [| Hne]; [done |]. specialize (Hle Hne).
  unfold tile_of in Ht. pose proof (wf_ibits g Hg). pose proof (wf_shift g Hg).
  rewrite !Z.shiftr_div_pow2 in Ht by lia.
  rewrite (proj1 (div_pow2_split a (m_shift_bits g) (m_interleave_bits g) ltac:(lia))) in Ht.
  rewrite (proj1 (div_pow2_split b (m_shift_bits g) (m_interleave_bits g) ltac:(lia))) in Ht.
  set (A := a / 2 ^ m_shift_bits g) in *. set (B := b / 2 ^ m_shift_bits g) in *.
  set (k := m_interleave_bits g - m_shift_bits g) in *. split; [| by intros ->].
  pose proof (pow2_pos k ltac:(lia)) as Hk. pose proof (wf_tiles g Hg).
  intros E. assert (E1 : A mod 2 ^ k = B mod 2 ^ k).
  { apply (f_equal (fun z => z mod 2 ^ k)) in E.
    rewrite !(Z.add_comm (_ * 2 ^ k)), !Z.mod_add, !Z.mod_mod in E by lia. done. }
  assert (E2 : A / 2 ^ k / m_num_tiles g = B / 2 ^ k / m_num_tiles g) by nia.
  rewrite (Z.div_mod A (2 ^ k)), (Z.div_mod B (2 ^ k)), E1 by lia. f_equal. f_equal.
  rewrite (Z.div_mod (A / 2 ^ k) (m_num_tiles g)), (Z.div_mod (B / 2 ^ k) (m_num_tiles g)) by lia.
  by rewrite E2, Ht.
Qed.

(** The knobs the replacement code reads. *)
Record cache_knobs := mk_cache_knobs {
  KNOB_CACHE_USE_PSEUDO_LRU : bool;
  KNOB_HETERO_STATIC_CACHE_PARTITION : bool;
  KNOB_HETERO_STATIC_CPU_PARTITION : Z;
  KNOB_COLLECT_CACHE_INFO : Z
}.

Section CACHE.
Context {D : Type} (D_zero : D).

(** ** State *)
Record cache_entry_c := mk_line {
  m_valid : bool;
  m_tag : Z;
  m_base : Z;
  m_last_access_time : Z;
  m_access_counter : Z;
  m_data : D;
  m_pref : bool;
  m_dirty : bool;
  m_appl_id : Z;
  m_gpuline : bool;
  m_skip : bool
}.

Record cache_set_c := mk_set {
  m_entry : list cache_entry_c;
  s_num_cpu_line : Z;
  s_num_gpu_line : Z
}.

Record cache_c := mk_cache {
  m_geom : cache_geom;
  m_set : list cache_set_c;
  m_num_cpu_line : Z;
  m_num_gpu_line : Z;
  m_insert_count : Z
}.

(** [uninit] is the content of a freshly allocated set: the constructors
    initialise only the fields below, not the tags, the dirty bits or the
    per-set line counters. *)
Definition cache_entry_new (data_size : Z) (e : cache_entry_c) : cache_entry_c :=
  mk_line false (m_tag e) (m_base e) 0 0
    (if 0 <? data_size then D_zero else m_data e)
    (m_pref e) (m_dirty e) (m_appl_id e) (m_gpuline e) (m_skip e).

Definition cache_new (g : cache_geom) (uninit : nat -> nat -> cache_entry_c)
    (uninit_cnt : nat -> Z * Z) : cache_c :=
  mk_cache g
    ((fun ii => mk_set
        ((fun jj => cache_entry_new (m_data_size g) (uninit ii jj)) <$> seq 0 (Z.to_nat (m_assoc g)))
        (uninit_cnt ii).1 (uninit_cnt ii).2) <$> seq 0 (Z.to_nat (m_num_sets g)))
    0 0 0.

(** Writing through a line pointer. *)
Definition upd_set (f : cache_set_c -> cache_set_c) (set : nat) (c : cache_c) : cache_c :=
  mk_cache (m_geom c) (alter f set (m_set c)) (m_num_cpu_line c) (m_num_gpu_line c)
    (m_insert_count c).
Definition set_entries (es : list cache_entry_c) (s : cache_set_c) : cache_set_c :=
  mk_set es (s_num_cpu_line s) (s_num_gpu_line s).
Definition upd_line (f : cache_entry_c -> cache_entry_c) (set way : nat) (c : cache_c) : cache_c :=
  upd_set (fun s => set_entries (alter f way (m_entry s)) s) set c.

(** ** Lookup *)
Definition line_matches (tag : Z) (e : cache_entry_c) : bool := m_valid e && (m_tag e =? tag).

Definition find_way (tag : Z) (es : list cache_entry_c) : option nat :=
  fst <$> list_find (fun e => Is_true (line_matches tag e)) es.

(** [update_line_on_hit] and the prefetch bit of a hit line. *)
Definition touch_line (CYCLE : Z) (e : cache_entry_c) : cache_entry_c :=
  mk_line (m_valid e) (m_tag e) (m_base e) CYCLE (m_access_counter e) (m_data e)
    false (m_dirty e) (m_appl_id e) (m_gpuline e) (m_skip e).

(** Result: the line hit (or [NULL]), the value written to [*line_addr] (none
    when the cache is bypassed) and the new state. *)
Definition access_cache (CYCLE addr : Z) (update_repl : bool) (c : cache_c)
    : outcome (option (nat * nat) * option Z * cache_c) :=
  let g := m_geom c in
  if m_cache_by_pass g then mret (None, None, c) else
  let '(tag, set) := find_tag_and_set g addr in
  let line_addr := base_cache_line g addr in
  s ← aget (m_set c) set;
  match find_way tag (m_entry s) with
  | Some ii =>
      mret (Some (Z.to_nat set, ii), Some line_addr,
            if update_repl then upd_line (touch_line CYCLE) (Z.to_nat set) ii c else c)
  | None => mret (None, Some line_addr, c)
  end.

(** ** Replacement *)

(** One pass of the pseudo-LRU loop, and the loop itself: when no line is
    free or unreferenced all reference times are cleared and the pass is
    repeated. *)
Definition plru_pick (es : list cache_entry_c) : option nat :=
  fst <$> list_find (fun e => Is_true (negb (m_valid e) || (m_last_access_time e =? 0))) es.
Definition clear_time (e : cache_entry_c) : cache_entry_c :=
  mk_line (m_valid e) (m_tag e) (m_base e) 0 (m_access_counter e) (m_data e)
    (m_pref e) (m_dirty e) (m_appl_id e) (m_gpuline e) (m_skip e).
Fixpoint plru_loop (fuel : nat) (es : list cache_entry_c) : outcome (nat * list cache_entry_c) :=
  match fuel with
  | O => Fault Diverged
  | S f => match plru_pick es with
           | Some i => mret (i, es)
           | None => plru_loop f (clear_time <$> es)
           end
  end.

(** The LRU loop: stop at a free line, else keep the oldest seen so far. *)
Fixpoint lru_scan (es : list cache_entry_c) (i lru_ind : nat) (lru_time : Z) : nat :=
  match es with
  | [] => lru_ind
  | e :: es' =>
      if negb (m_valid e) then i
      else if m_last_access_time e <? lru_time
           then lru_scan es' (S i) i (m_last_access_time e)
           else lru_scan es' (S i) lru_ind lru_time
  end.

(** Two rounds of the pseudo-LRU loop are enough for a non-empty set. *)
Definition find_replacement_line (k : cache_knobs) (es : list cache_entry_c)
    : outcome (nat * list cache_entry_c) :=
  if KNOB_CACHE_USE_PSEUDO_LRU k then plru_loop 2 es
  else mret (lru_scan es 0 0 MAX_INT, es).

Fixpoint same_type_scan (free_allowed gpuline : bool) (es : list cache_entry_c)
    (ii : nat) (lru_index : option nat) (lru_time : Z) : option nat :=
  match es with
  | [] => lru_index
  | e :: es' =>
      if negb (m_valid e) && free_allowed then Some ii
      else if m_valid e && Bool.eqb (m_gpuline e) gpuline && (m_last_access_time e <? lru_time)
           then same_type_scan free_allowed gpuline es' (S ii) (Some ii) (m_last_access_time e)
           else same_type_scan free_allowed gpuline es' (S ii) lru_index lru_time
  end.

Definition find_replacement_line_from_same_type (k : cache_knobs) (assoc : Z)
    (s : cache_set_c) (gpuline : bool) : outcome nat :=
  let '(current_type_count, current_type_max) :=
    if gpuline then (s_num_gpu_line s, assoc - KNOB_HETERO_STATIC_CPU_PARTITION k)
    else (s_num_cpu_line s, KNOB_HETERO_STATIC_CPU_PARTITION k) in
  get_or AssertFailed
    (same_type_scan (current_type_count <? current_type_max) gpuline (m_entry s) 0 None ULLONG_MAX).

(** ** Insertion *)
Definition init_line (g : cache_geom) (CYCLE tag addr appl_id : Z) (gpuline skip : bool)
    (e : cache_entry_c) : cache_entry_c :=
  mk_line true tag (Z.land addr (lnot64 (m_offset_mask g))) CYCLE 0 (m_data e)
    false (m_dirty e) appl_id gpuline skip.

(** The line counters of the cache and of one set, moved by [d]. *)
Definition count_line (d : Z) (gpuline : bool) (set : nat) (c : cache_c) : cache_c :=
  if gpuline then
    mk_cache (m_geom c)
      (alter (fun s => mk_set (m_entry s) (s_num_cpu_line s) (s_num_gpu_line s + d)) set (m_set c))
      (m_num_cpu_line c) (m_num_gpu_line c + d) (m_insert_count c)
  else
    mk_cache (m_geom c)
      (alter (fun s => mk_set (m_entry s) (s_num_cpu_line s + d) (s_num_gpu_line s)) set (m_set c))
      (m_num_cpu_line c + d) (m_num_gpu_line c) (m_insert_count c).

Definition update_set_on_replacement (set : nat) (gpuline : bool) (c : cache_c) : cache_c :=
  count_line (-1) gpuline set c.

Definition initialize_cache_line (CYCLE tag addr appl_id : Z) (gpuline skip : bool)
    (set way : nat) (c : cache_c) : cache_c :=
  count_line 1 gpuline set
    (upd_line (init_line (m_geom c) CYCLE tag addr appl_id gpuline skip) set way c).

(** Result: the line filled, [*line_addr], [*updated_line], the new state. *)
Definition insert_cache (k : cache_knobs) (CYCLE addr appl_id : Z) (gpuline skip : bool)
    (c : cache_c) : outcome (nat * nat * Z * Z * cache_c) :=
  let g := m_geom c in
  let line_addr := base_cache_line g addr in
  let '(tag, set) := find_tag_and_set g addr in
  s ← aget (m_set c) set;
  '(way, es) ←
    (if KNOB_HETERO_STATIC_CACHE_PARTITION k && m_enable_partition g
     then (w ← find_replacement_line_from_same_type k (m_assoc g) s gpuline; mret (w, m_entry s))
     else find_replacement_line k (m_entry s));
  let n := Z.to_nat set in
  let c1 := upd_set (set_entries es) n c in
  ins_line ← get_or OutOfBounds (es !! way);
  let '(updated_line, c2) :=
    if m_valid ins_line
    then (m_base ins_line, update_set_on_replacement n (m_gpuline ins_line) c1)
    else (0, c1) in
  let c3 := initialize_cache_line CYCLE tag addr appl_id gpuline skip n way c2 in
  mret (n, way, line_addr, updated_line,
        mk_cache (m_geom c3) (m_set c3) (m_num_cpu_line c3) (m_num_gpu_line c3)
          (inc64 (m_insert_count c3))).

(** ** Invalidation *)
Definition null_line (data_size : Z) (e : cache_entry_c) : cache_entry_c :=
  mk_line false 0 0 (m_last_access_time e) (m_access_counter e)
    (if 0 <? data_size then D_zero else m_data e)
    (m_pref e) (m_dirty e) (m_appl_id e) (m_gpuline e) (m_skip e).

(** Returns the dirty bit of the line it clears. *)
Definition null_cache_line_fields (set way : nat) (c : cache_c) : bool * cache_c :=
  (match m_set c !! set ≫= fun s => m_entry s !! way with
   | Some e => m_dirty e
   | None => false
   end,
   upd_line (null_line (m_data_size (m_geom c))) set way c).

Definition invalidate_cache_line (addr : Z) (c : cache_c) : outcome (bool * cache_c) :=
  let '(tag, set) := find_tag_and_set (m_geom c) addr in
  s ← aget (m_set c) set;
  match find_way tag (m_entry s) with
  | Some ii => mret (null_cache_line_fields (Z.to_nat set) ii c)
  | None => mret (false, c)
  end.

Definition invalidate_line (data_size : Z) (e : cache_entry_c) : cache_entry_c :=
  mk_line false 0 (m_base e) (m_last_access_time e) (m_access_counter e)
    (if 0 <? data_size then D_zero else m_data e)
    (m_pref e) (m_dirty e) (m_appl_id e) (m_gpuline e) (m_skip e).

Definition invalidate_cache (c : cache_c) : cache_c :=
  mk_cache (m_geom c)
    ((fun s => set_entries (invalidate_line (m_data_size (m_geom c)) <$> m_entry s) s) <$> m_set c)
    (m_num_cpu_line c) (m_num_gpu_line c) (m_insert_count c).

(** ** Queries *)
Definition find_min_lru (CYCLE : Z) (set : Z) (c : cache_c) : outcome Z :=
  s ← aget (m_set c) set;
  let lru_time := (scan_min (fun e => if m_valid e then Some (m_last_access_time e) else None)
                     (m_entry s) 0 None MAX_INT).2 in
  mret (if lru_time =? MAX_INT then CYCLE else lru_time).

(** Whether a line of statistics is printed; the test itself counts. *)
Definition print_info (k : cache_knobs) (c : cache_c) : bool * cache_c :=
  if 0 <? KNOB_COLLECT_CACHE_INFO k then
    let n := inc64 (m_insert_count c) in
    (n mod KNOB_COLLECT_CACHE_INFO k =? 0,
     mk_cache (m_geom c) (m_set c) (m_num_cpu_line c) (m_num_gpu_line c) n)
  else (false, c).

(** ** Facts on one set *)

Implicit Types (es : list cache_entry_c) (e : cache_entry_c) (c : cache_c).

(** Equal up to replacement metadata: the same lines are valid with the same
    tags. *)
Definition same_line (e1 e2 : cache_entry_c) : Prop :=
  m_valid e1 = m_valid e2 /\ m_tag e1 = m_tag e2 /\ m_gpuline e1 = m_gpuline e2 /\
  m_base e1 = m_base e2 /\ m_data e1 = m_data e2.

#[local] Instance same_line_equiv : Equivalence same_line.
Proof.
  split; unfold same_line; [done | intros e1 e2 (? & ? & ? & ? & ?); by split_and! |].
  intros e1 e2 e3 (? & ? & ? & ? & ?) (? & ? & ? & ? & ?). split_and!; congruence.
Qed.

Definition tags_unique es : Prop :=
  forall i j ei ej, es !! i = Some ei -> es !! j = Some ej ->
    m_valid ei = true -> m_valid ej = true -> m_tag ei = m_tag ej -> i = j.

Lemma line_matches_spec tag e :
  line_matches tag e = true <-> m_valid e = true /\ m_tag e = tag.
Proof. unfold line_matches. by rewrite andb_true_iff, Z.eqb_eq. Qed.

Lemma find_way_Some tag es i :
  find_way tag es = Some i ->
  exists e, es !! i = Some e /\ m_valid e = true /\ m_tag e = tag.
Proof.
  unfold find_way. intros H. apply fmap_Some in H as ([j e] & H & ->). simpl.
  apply list_find_Some in H as (Hj & Hm & _). exists e.
  apply Is_true_true, line_matches_spec in Hm as [Hv Ht]. done.
Qed.

Lemma find_way_None tag es :
  find_way tag es = None <-> forall i e, es !! i = Some e -> m_valid e = true -> m_tag e <> tag.
Proof.
  unfold find_way. rewrite fmap_None, list_find_None, Forall_lookup. split; intros H i e He.
  - intros Hv Ht. apply (H i e He), Is_true_true, line_matches_spec. done.
  - intros Hm. apply Is_true_true, line_matches_spec in Hm as [Hv Ht]. by apply (H i e).
Qed.

Lemma find_way_unique tag es i e :
  tags_unique es -> es !! i = Some e -> m_valid e = true -> m_tag e = tag ->
  find_way tag es = Some i.
Proof.
  intros Hu He Hv Ht. destruct (find_way tag es) as [j |] eqn:E.
  - apply find_way_Some in E as (ej & Hj & Hvj & Htj). f_equal.
    apply (Hu j i ej e); congruence.
  - exfalso. by apply (proj1 (find_way_None tag es) E i e).
Qed.

Definition same_tag (e1 e2 : cache_entry_c) : Prop :=
  m_valid e1 = m_valid e2 /\ m_tag e1 = m_tag e2.

Lemma same_line_tag es es' : Forall2 same_line es es' -> Forall2 same_tag es es'.
Proof. intros H. eapply Forall2_impl; [exact H |]. by intros x y (? & ? & _). Qed.

Lemma find_way_same_tag tag es es' :
  Forall2 same_tag es es' -> find_way tag es = find_way tag es'.
Proof.
  unfold find_way. induction 1 as [| e e' es es' (Hv & Ht) _ IH]; [done |].
  simpl. assert (E : line_matches tag e = line_matches tag e')
    by (unfold line_matches; congruence).
  destruct (decide (Is_true (line_matches tag e))) as [Hm | Hm];
    destruct (decide (Is_true (line_matches tag e'))) as [Hm' | Hm']; try (rewrite E in Hm; done).
  apply (f_equal (fmap S)) in IH. rewrite <- !option_fmap_compose in *.
  by destruct (list_find _ es) as [[] |], (list_find _ es') as [[] |]; simpl in *; congruence.
Qed.

Lemma tags_unique_same_tag es es' : Forall2 same_tag es es' -> tags_unique es -> tags_unique es'.
Proof.
  intros HF Hu i j ei ej Hi Hj Hvi Hvj Ht.
  destruct (Forall2_lookup_r _ _ _ _ _ HF Hi) as (ei' & Hi' & ? & ?).
  destruct (Forall2_lookup_r _ _ _ _ _ HF Hj) as (ej' & Hj' & ? & ?).
  apply (Hu i j ei' ej'); congruence.
Qed.

Lemma find_way_same tag es es' : Forall2 same_line es es' -> find_way tag es = find_way tag es'.
Proof. intros H. by apply find_way_same_tag, same_line_tag. Qed.
Lemma tags_unique_same es es' : Forall2 same_line es es' -> tags_unique es -> tags_unique es'.
Proof. intros H. by apply tags_unique_same_tag, same_line_tag. Qed.

(** Filling way [w] with a line for [tag]: [tag] is found there, the line that
    was there is gone, every other line is found where it was. *)
Lemma find_way_fill tag es w e new :
  tags_unique es -> es !! w = Some e -> find_way tag es = None ->
  m_valid new = true -> m_tag new = tag ->
  tags_unique (<[w := new]> es) /\
  (forall tag', find_way tag' (<[w := new]> es) =
    if decide (tag' = tag) then Some w
    else if decide (find_way tag' es = Some w) then None else find_way tag' es).
Proof.
  intros Hu Hw Hn Hv Ht. pose proof (lookup_lt_Some _ _ _ Hw) as Hlt.
  assert (Hu' : tags_unique (<[w := new]> es)).
  { intros i j ei ej Hi Hj Hvi Hvj Htij. rewrite list_lookup_insert in Hi, Hj.
    pose proof (proj1 (find_way_None tag es) Hn) as Hno.
    repeat case_decide; simplify_eq; try lia; eauto.
    - exfalso. apply (Hno i ei); congruence.
    - exfalso. apply (Hno j ej); congruence. }
  split; [done |]. intros tag'. case_decide as E; [subst tag' |].
  { apply (find_way_unique _ _ _ new); try done. by apply list_lookup_insert_eq. }
  destruct (find_way tag' es) as [j |] eqn:Ej.
  - apply find_way_Some in Ej as (ej & Hj & Hvj & Htj). case_decide as Ejw.
    + injection Ejw as ->. apply find_way_None. intros i ei Hi Hvi Hti.
      rewrite list_lookup_insert in Hi. case_decide; simplify_eq; try done.
      assert (i = w) by (apply (Hu i w ei e); congruence). lia.
    + apply (find_way_unique _ _ _ ej); try done. by rewrite list_lookup_insert_ne by congruence.
  - case_decide; [done |]. apply find_way_None. intros i ei Hi Hvi Hti.
    rewrite list_lookup_insert in Hi. case_decide; simplify_eq; try done.
    by apply (proj1 (find_way_None _ es) Ej i ei).
Qed.

(** Clearing way [w]: its line is gone, every other line is found where it was. *)
Lemma find_way_clear es w e new :
  tags_unique es -> es !! w = Some e -> m_valid new = false ->
  tags_unique (<[w := new]> es) /\
  (forall tag, find_way tag (<[w := new]> es) =
    if decide (find_way tag es = Some w) then None else find_way tag es).
Proof.
  intros Hu Hw Hv. pose proof (lookup_lt_Some _ _ _ Hw) as Hlt. split.
  - intros i j ei ej Hi Hj Hvi Hvj Ht. rewrite list_lookup_insert in Hi, Hj.
    repeat case_decide; simplify_eq; try congruence; eauto.
  - intros tag. destruct (find_way tag es) as [j |] eqn:Ej.
    + apply find_way_Some in Ej as (ej & Hj & Hvj & Htj). case_decide as Ejw.
      * injection Ejw as ->. apply find_way_None. intros i ei Hi Hvi Hti.
        rewrite list_lookup_insert in Hi. case_decide; simplify_eq; try congruence.
        assert (i = w) by (apply (Hu i w ei e); congruence). lia.
      * destruct (find_way tag (<[w:=new]> es)) as [k |] eqn:Ek.
        -- apply find_way_Some in Ek as (ek & Hk & Hvk & Htk). rewrite list_lookup_insert in Hk.
           case_decide; simplify_eq; try congruence. f_equal. apply (Hu k j ek ej); congruence.
        -- exfalso. apply (proj1 (find_way_None _ _) Ek j ej); [| done | done].
           by rewrite list_lookup_insert_ne by congruence.
    + case_decide; [done |]. apply find_way_None. intros i ei Hi Hvi Hti.
      rewrite list_lookup_insert in Hi. case_decide; simplify_eq; try congruence.
      by apply (proj1 (find_way_None _ es) Ej i ei).
Qed.

(** ** Replacement policies *)

Lemma plru_loop_ok es :
  es <> [] -> exists i es' e, plru_loop 2 es = Done (i, es') /\ es' !! i = Some e /\
    Forall2 same_line es es' /\
    (m_valid e = true -> m_last_access_time e = 0).
Proof.
  intros Hne. assert (Hpick : forall es i, plru_pick es = Some i -> exists e, es !! i = Some e /\
    (m_valid e = true -> m_last_access_time e = 0)).
  { clear. intros es i H. unfold plru_pick in H. apply fmap_Some in H as ([j e] & H & ->).
    apply list_find_Some in H as (Hj & Hm & _). exists e. split; [done |]. intros Hv.
    apply Is_true_true in Hm. rewrite Hv in Hm. simpl in Hm. by apply Z.eqb_eq in Hm. }
  cbn [plru_loop]. destruct (plru_pick es) as [i |] eqn:E1.
  - destruct (Hpick _ _ E1) as (e & He & Hz). exists i, es, e. by split_and!.
  - destruct (plru_pick (clear_time <$> es)) as [i |] eqn:E2.
    + destruct (Hpick _ _ E2) as (e & He & Hz). exists i, (clear_time <$> es), e.
      split_and!; try done. apply Forall2_fmap_r, Forall_Forall2_diag, Forall_true.
      by intros x.
    + exfalso. destruct es as [| e es]; [done |]. unfold plru_pick in E2.
      apply fmap_None, list_find_None in E2. rewrite fmap_cons, Forall_cons in E2.
      destruct E2 as [E2 _]. apply E2. simpl. rewrite orb_true_r. done.
Qed.

Lemma lru_scan_valid es i d t :
  Forall (fun e => m_valid e = true) es ->
  (scan_min (fun e => Some (m_last_access_time e)) es i (Some d) t).1 = Some (lru_scan es i d t).
Proof.
  intros Hv. revert i d t. induction Hv as [| e es He _ IH]; intros i d t; simpl; [done |].
  rewrite He. simpl. destruct (m_last_access_time e <? t); apply IH.
Qed.

Lemma lru_scan_free es i d t w e :
  es !! w = Some e -> m_valid e = false ->
  (forall j ej, (j < w)%nat -> es !! j = Some ej -> m_valid ej = true) ->
  lru_scan es i d t = (i + w)%nat.
Proof.
  revert es i d t. induction w as [| w IH]; intros [| x es] i d t He Hv Hb; simpl in He; try done.
  - injection He as ->. simpl. rewrite Hv. simpl. lia.
  - simpl. rewrite (Hb 0%nat x) by (done || lia). simpl.
    destruct (_ <? _); rewrite (IH es); try done; try lia;
      intros j ej Hj; apply (Hb (S j)); lia.
Qed.

(** The victim of the LRU scan: the first free line, or the first of the least
    recently used ones when all time stamps are below [MAX_INT]. *)
Lemma lru_scan_spec es :
  es <> [] -> Forall (fun e => m_last_access_time e < MAX_INT) es ->
  let w := lru_scan es 0 0 MAX_INT in
  exists e, es !! w = Some e /\
    ((m_valid e = false /\ forall j ej, (j < w)%nat -> es !! j = Some ej -> m_valid ej = true) \/
     (forall j ej, es !! j = Some ej -> m_valid ej = true /\
        m_last_access_time e <= m_last_access_time ej)).
Proof.
  intros Hne Ht w. destruct (list_find (fun e => m_valid e = false) es) as [[i e] |] eqn:E.
  - apply list_find_Some in E as (Hi & Hv & Hb).
    assert (Hb' : forall j ej, (j < i)%nat -> es !! j = Some ej -> m_valid ej = true).
    { intros j ej Hj Hej. destruct (m_valid ej) eqn:Hvj; [done | exfalso]. by eapply Hb. }
    unfold w. rewrite (lru_scan_free es 0 0 MAX_INT i e) by done. simpl. eauto.
  - apply list_find_None in E.
    assert (Hv : Forall (fun e => m_valid e = true) es)
      by (eapply Forall_impl; [done |]; intros x; simpl; by destruct (m_valid x)).
    pose proof (lru_scan_valid es 0 0 MAX_INT Hv) as Hw. fold w in Hw.
    destruct (scan_min _ es 0 (Some 0%nat) MAX_INT) as [r k] eqn:Es. simpl in Hw.
    apply scan_min_spec in Es as [Hall [[-> ->] | (j & x & -> & Hx & Hk & Hlt & _)]].
    + exfalso. destruct es as [| x es]; [done |].
      specialize (Hall 0%nat x _ eq_refl eq_refl). inversion_clear Ht. lia.
    + injection Hw as <-. simpl. injection Hk as Hk. exists x. split; [done |]. right. intros j' ej Hej.
      split; [by eapply (Forall_lookup_1 _ _ _ _ Hv) |].
      rewrite Hk. by eapply Hall.
Qed.

Lemma lru_scan_lt es : es <> [] -> exists e, es !! lru_scan es 0 0 MAX_INT = Some e.
Proof.
  intros Hne. assert (H : forall es i d t, (d < i)%nat \/ d = 0%nat ->
    lru_scan es i d t = d \/ (i <= lru_scan es i d t < i + length es)%nat).
  { clear. induction es as [| e es IH]; intros i d t Hd; simpl; [by left |].
    destruct (m_valid e); simpl; [| lia].
    destruct (_ <? _).
    - destruct (IH (S i) i (m_last_access_time e)); lia.
    - destruct (IH (S i) d t); lia. }
  apply lookup_lt_is_Some_2. destruct es as [| e es]; [done |].
  destruct (H (e :: es) 0%nat 0%nat MAX_INT ltac:(by right)) as [-> | ]; simpl in *; lia.
Qed.

(** Without a time stamp below [MAX_INT] the scan falls back on way 0. *)
Lemma lru_scan_saturated es :
  Forall (fun e => m_valid e = true /\ MAX_INT <= m_last_access_time e) es ->
  lru_scan es 0 0 MAX_INT = 0%nat.
Proof.
  generalize 0%nat at 1. induction es as [| e es IH]; intros i Hf; simpl; [done |].
  apply Forall_cons in Hf as [[Hv Ht] Hf]. rewrite Hv. simpl.
  destruct (Z.ltb_spec (m_last_access_time e) MAX_INT); [lia |]. by apply IH.
Qed.

Lemma find_replacement_line_ok k es :
  es <> [] -> exists w es' e, find_replacement_line k es = Done (w, es') /\
    es' !! w = Some e /\ Forall2 same_line es es'.
Proof.
  intros Hne. unfold find_replacement_line. destruct (KNOB_CACHE_USE_PSEUDO_LRU k).
  - destruct (plru_loop_ok es Hne) as (i & es' & e & -> & He & HF & _). eauto 10.
  - destruct (lru_scan_lt es Hne) as [e He]. eexists _, es, e. split_and!; [done | done |].
    apply Forall_Forall2_diag, Forall_true. reflexivity.
Qed.

(** ** Facts on the whole cache *)

Record cache_wf (c : cache_c) : Prop := {
  wf_geom : geom_wf (m_geom c);
  wf_len : Z.of_nat (length (m_set c)) = m_num_sets (m_geom c);
  wf_ways : Forall (fun s => Z.of_nat (length (m_entry s)) = m_assoc (m_geom c)) (m_set c)
}.

Definition entries_at (c : cache_c) (n : nat) : option (list cache_entry_c) :=
  m_entry <$> m_set c !! n.

(** No line is cached twice. *)
Definition cache_unique (c : cache_c) : Prop :=
  forall n es, entries_at c n = Some es -> tags_unique es.

(** Where the line of an address is cached. *)
Definition lookup_line (c : cache_c) (addr : Z) : option (nat * nat) :=
  let '(tag, set) := find_tag_and_set (m_geom c) addr in
  es ← entries_at c (Z.to_nat set);
  w ← find_way tag es;
  Some (Z.to_nat set, w).

Lemma entries_upd_set c f n n' :
  entries_at (upd_set f n c) n' =
    if decide (n = n') then m_entry <$> (f <$> m_set c !! n) else entries_at c n'.
Proof.
  unfold entries_at, upd_set. simpl. case_decide as E.
  - subst. by rewrite list_lookup_alter_eq.
  - by rewrite list_lookup_alter_ne.
Qed.

Lemma entries_upd_line c f n w n' :
  entries_at (upd_line f n w c) n' =
    if decide (n = n') then alter f w <$> entries_at c n else entries_at c n'.
Proof.
  unfold upd_line. rewrite entries_upd_set. unfold entries_at.
  by destruct (m_set c !! n), (decide (n = n')).
Qed.

Lemma entries_count_line d g n c n' : entries_at (count_line d g n c) n' = entries_at c n'.
Proof.
  unfold entries_at, count_line. destruct g; simpl; rewrite list_lookup_alter;
    by destruct (decide (n = n')) as [<- |], (m_set c !! n).
Qed.

Lemma cache_wf_entries c addr :
  cache_wf c -> is_u64 addr ->
  let n := Z.to_nat (find_tag_and_set (m_geom c) addr).2 in
  exists s, m_set c !! n = Some s /\
    aget (m_set c) (find_tag_and_set (m_geom c) addr).2 = Done s /\ m_entry s <> [].
Proof.
  intros [Hg Hl Hw] Ha. pose proof (find_tag_and_set_range _ _ Hg Ha) as Hr.
  destruct (aget_in_range (m_set c) (find_tag_and_set (m_geom c) addr).2) as (s & Hs & Hget);
    [lia |].
  exists s. split_and!; [done | done |]. pose proof (Forall_lookup_1 _ _ _ _ Hw Hs) as Hn.
  simpl in Hn. pose proof (wf_assoc _ Hg). destruct (m_entry s); [simpl in Hn; lia | done].
Qed.

(** A cache whose sets keep their number of ways under an update of one. *)
Lemma cache_wf_entries_eq c c' :
  cache_wf c -> m_geom c' = m_geom c -> length (m_set c') = length (m_set c) ->
  (forall n es', entries_at c' n = Some es' ->
     exists es, entries_at c n = Some es /\ length es' = length es) ->
  cache_wf c'.
Proof.
  intros [Hg Hl Hw] Eg El He. split; rewrite ?Eg, ?El; [done | done |].
  apply Forall_lookup. intros n s Hs.
  destruct (He n (m_entry s)) as (es & Hes & ->); [unfold entries_at; by rewrite Hs |].
  unfold entries_at in Hes. apply fmap_Some in Hes as (s0 & Hs0 & ->).
  exact (Forall_lookup_1 _ _ _ _ Hw Hs0).
Qed.

(** *** Access *)
Lemma access_cache_ok CYCLE addr upd c :
  cache_wf c -> is_u64 addr -> m_cache_by_pass (m_geom c) = false ->
  exists c', access_cache CYCLE addr upd c =
      Done (lookup_line c addr, Some (base_cache_line (m_geom c) addr), c') /\
    m_geom c' = m_geom c /\ cache_wf c' /\ (upd = false -> c' = c) /\
    (forall n, match entries_at c n, entries_at c' n with
               | Some es, Some es' => Forall2 same_line es es'
               | None, None => True
               | _, _ => False
               end).
Proof.
  intros Hwf Ha Hb. destruct (cache_wf_entries c addr Hwf Ha) as (s & Hs & Hget & Hne).
  unfold access_cache, lookup_line. rewrite Hb.
  destruct (find_tag_and_set (m_geom c) addr) as [tag set] eqn:Et. simpl in *.
  rewrite Hget. simpl. unfold entries_at at 1. rewrite Hs. simpl.
  assert (Hrefl : forall n, match entries_at c n, entries_at c n with
     | Some es, Some es' => Forall2 same_line es es' | None, None => True | _, _ => False end).
  { intros n. destruct (entries_at c n); [| done].
    apply Forall_Forall2_diag, Forall_true. reflexivity. }
  destruct (find_way tag (m_entry s)) as [w |]; simpl; [| by exists c].
  destruct upd; [| by exists c]. eexists. split; [done |]. split; [done |].
  assert (Heq : forall n, match entries_at c n,
       entries_at (upd_line (touch_line CYCLE) (Z.to_nat set) w c) n with
     | Some es, Some es' => Forall2 same_line es es' | None, None => True | _, _ => False end).
  { intros n. rewrite entries_upd_line. case_decide as En; [subst n | apply Hrefl].
    destruct (entries_at c (Z.to_nat set)) as [es |]; simpl; [| done].
    apply Forall2_lookup. intros i. destruct (decide (w = i)) as [-> |].
    - rewrite list_lookup_alter_eq. destruct (es !! i); by repeat constructor.
    - rewrite list_lookup_alter_ne by done. destruct (es !! i); by repeat constructor. }
  split; [| by split]. apply (cache_wf_entries_eq c); [done | done | |].
  - unfold upd_line, upd_set. simpl. apply length_alter.
  - intros n es' He'. specialize (Heq n). rewrite He' in Heq.
    destruct (entries_at c n) as [es |]; [| done]. exists es. split; [done |].
    symmetry. by apply Forall2_length in Heq.
Qed.

(** *** Insertion *)

(** The state after filling way [w] of the set of [addr]. *)
Record filled (k : cache_knobs) (CYCLE addr appl_id : Z) (gpu skip : bool) (c : cache_c)
    (n w : nat) (upd : Z) (c' : cache_c) (es0 es : list cache_entry_c) (e : cache_entry_c) : Prop := {
  fill_set : n = Z.to_nat (find_tag_and_set (m_geom c) addr).2;
  fill_es0 : entries_at c n = Some es0;
  fill_same : Forall2 same_line es0 es;
  fill_victim : es !! w = Some e;
  fill_upd : upd = if m_valid e then m_base e else 0;
  fill_geom : m_geom c' = m_geom c;
  fill_entries : forall n', entries_at c' n' =
    if decide (n = n')
    then Some (<[w := init_line (m_geom c) CYCLE (find_tag_and_set (m_geom c) addr).1 addr appl_id
                        gpu skip e]> es)
    else entries_at c n';
  fill_len : length (m_set c') = length (m_set c);
  fill_cpu : m_num_cpu_line c' = m_num_cpu_line c +
    (if gpu then 0 else 1) - (if m_valid e then if m_gpuline e then 0 else 1 else 0);
  fill_gpu : m_num_gpu_line c' = m_num_gpu_line c +
    (if gpu then 1 else 0) - (if m_valid e then if m_gpuline e then 1 else 0 else 0)
}.

Lemma insert_state k CYCLE addr appl_id gpu skip c s es w e :
  let n := Z.to_nat (find_tag_and_set (m_geom c) addr).2 in
  m_set c !! n = Some s -> Forall2 same_line (m_entry s) es -> es !! w = Some e ->
  let c1 := upd_set (set_entries es) n c in
  let c2 := if m_valid e then update_set_on_replacement n (m_gpuline e) c1 else c1 in
  let c3 := initialize_cache_line CYCLE (find_tag_and_set (m_geom c) addr).1 addr appl_id
              gpu skip n w c2 in
  filled k CYCLE addr appl_id gpu skip c n w (if m_valid e then m_base e else 0)
    (mk_cache (m_geom c3) (m_set c3) (m_num_cpu_line c3) (m_num_gpu_line c3)
       (inc64 (m_insert_count c3))) (m_entry s) es e.
Proof.
  intros n Hs HF He c1 c2 c3.
  assert (Hg2 : m_geom c2 = m_geom c) by (unfold c2; destruct (m_valid e), (m_gpuline e); done).
  assert (He2 : forall n', entries_at c2 n' = if decide (n = n') then Some es else entries_at c n').
  { intros n'. assert (E : entries_at c2 n' = entries_at c1 n')
      by (unfold c2, update_set_on_replacement; destruct (m_valid e); by rewrite ?entries_count_line).
    rewrite E. unfold c1. rewrite entries_upd_set, Hs. done. }
  split; try done.
  - unfold entries_at. by rewrite Hs.
  - unfold c3, initialize_cache_line, count_line. by destruct gpu.
  - intros n'. change (entries_at c3 n' =
      if decide (n = n') then Some (<[w := init_line (m_geom c) CYCLE
        (find_tag_and_set (m_geom c) addr).1 addr appl_id gpu skip e]> es) else entries_at c n').
    unfold c3, initialize_cache_line. rewrite entries_count_line, entries_upd_line, !He2, Hg2.
    destruct (decide (n = n')); [| done]. rewrite (decide_True _ _ (eq_refl n)). simpl. f_equal.
    by apply list_alter_insert.
  - unfold c3, initialize_cache_line, count_line, c2, update_set_on_replacement, count_line.
    destruct gpu, (m_valid e), (m_gpuline e); simpl; rewrite !length_alter; done.
  - unfold c3, initialize_cache_line, count_line, c2, update_set_on_replacement, count_line.
    destruct gpu, (m_valid e), (m_gpuline e); simpl; lia.
  - unfold c3, initialize_cache_line, count_line, c2, update_set_on_replacement, count_line.
    destruct gpu, (m_valid e), (m_gpuline e); simpl; lia.
Qed.

Lemma insert_cache_inv k CYCLE addr appl_id gpu skip c n w la upd c' :
  cache_wf c -> is_u64 addr ->
  insert_cache k CYCLE addr appl_id gpu skip c = Done (n, w, la, upd, c') ->
  la = base_cache_line (m_geom c) addr /\
  exists es0 es e, filled k CYCLE addr appl_id gpu skip c n w upd c' es0 es e /\
    (KNOB_HETERO_STATIC_CACHE_PARTITION k && m_enable_partition (m_geom c) = false ->
     find_replacement_line k es0 = Done (w, es)).
Proof.
  intros Hwf Ha H. destruct (cache_wf_entries c addr Hwf Ha) as (s & Hs & Hget & Hne).
  pose proof (fun es w e => insert_state k CYCLE addr appl_id gpu skip c s es w e Hs) as Hst.
  unfold insert_cache in H.
  destruct (find_tag_and_set (m_geom c) addr) as [tag set] eqn:Et. simpl in *.
  rewrite Hget in H. simpl in H.
  apply bind_done_inv in H as ([w0 es] & E & H). apply bind_done_inv in H as (e & Ee & H).
  unfold get_or in Ee. destruct (es !! w0) as [e0 |] eqn:Ew; [| done]. injection Ee as ->.
  assert (HF : Forall2 same_line (m_entry s) es).
  { destruct (_ && _); [inv_done; simplify_eq; apply Forall_Forall2_diag, Forall_true; reflexivity |].
    destruct (find_replacement_line_ok k (m_entry s) Hne) as (w' & es' & e' & E' & _ & HF').
    rewrite E in E'. by simplify_eq. }
  specialize (Hst es w0 e HF Ew).
  destruct (m_valid e) eqn:Ev; injection H as <- <- <- <- <-; (split; [done |]);
    exists (m_entry s), es, e; (split; [exact Hst |]); intros Ep; by rewrite Ep in E.
Qed.

Lemma insert_cache_total k CYCLE addr appl_id gpu skip c :
  cache_wf c -> is_u64 addr ->
  KNOB_HETERO_STATIC_CACHE_PARTITION k && m_enable_partition (m_geom c) = false ->
  exists n w la upd c', insert_cache k CYCLE addr appl_id gpu skip c = Done (n, w, la, upd, c').
Proof.
  intros Hwf Ha Hp. destruct (cache_wf_entries c addr Hwf Ha) as (s & Hs & Hget & Hne).
  unfold insert_cache. destruct (find_tag_and_set (m_geom c) addr) as [tag set]. simpl in *.
  rewrite Hget. simpl. rewrite Hp.
  destruct (find_replacement_line_ok k (m_entry s) Hne) as (w & es & e & -> & He & _). simpl.
  rewrite He. simpl. destruct (m_valid e); by repeat eexists.
Qed.

(** *** What the operations do to the set of cached lines *)

Lemma lookup_line_entries c addr :
  lookup_line c addr =
    (es ← entries_at c (Z.to_nat (find_tag_and_set (m_geom c) addr).2);
     w ← find_way (find_tag_and_set (m_geom c) addr).1 es;
     Some (Z.to_nat (find_tag_and_set (m_geom c) addr).2, w)).
Proof. unfold lookup_line. by destruct (find_tag_and_set (m_geom c) addr). Qed.

Lemma filled_wf k CYCLE addr a g sk c n w upd c' es0 es e :
  filled k CYCLE addr a g sk c n w upd c' es0 es e -> cache_wf c -> cache_wf c'.
Proof.
  intros Hf Hwf. apply (cache_wf_entries_eq c); [done | by eapply fill_geom | by eapply fill_len |].
  intros n' es'. rewrite (fill_entries _ _ _ _ _ _ _ _ _ _ _ _ _ _ Hf).
  case_decide as E; [subst n' | eauto]. intros [= <-]. exists es0.
  split; [by eapply fill_es0 |]. rewrite length_insert.
  symmetry. eapply Forall2_length. by eapply fill_same.
Qed.

Lemma filled_lookup k CYCLE addr a g sk c n w upd c' es0 es e :
  filled k CYCLE addr a g sk c n w upd c' es0 es e ->
  cache_wf c -> is_u64 addr -> cache_unique c -> lookup_line c addr = None ->
  cache_unique c' /\ lookup_line c' addr = Some (n, w) /\
  forall addr', is_u64 addr' ->
    find_tag_and_set (m_geom c) addr' <> find_tag_and_set (m_geom c) addr ->
    lookup_line c' addr' =
      if decide (lookup_line c addr' = Some (n, w)) then None else lookup_line c addr'.
Proof.
  intros [Hn H0 HF Hv _ Hg Hent _ _ _] Hwf Ha Hu Hmiss.
  rewrite lookup_line_entries, <- Hn, H0 in Hmiss. simpl in Hmiss.
  set (tag := (find_tag_and_set (m_geom c) addr).1) in *.
  assert (Hmiss' : find_way tag es = None).
  { rewrite <- (find_way_same tag _ _ HF). by destruct (find_way tag es0). }
  destruct (find_way_fill tag es w e (init_line (m_geom c) CYCLE tag addr a g sk e)) as [Hu' Hfind];
    [by eapply tags_unique_same; [done | eapply Hu] | done..|].
  split_and!.
  - intros n' es'. rewrite Hent. case_decide; [by intros [= <-] | apply Hu].
  - rewrite lookup_line_entries, Hg, <- Hn, Hent, decide_True by done. simpl.
    rewrite Hfind, decide_True by done. done.
  - intros addr' Ha' Hne. rewrite !lookup_line_entries, Hg, Hent. case_decide as En.
    + simpl. rewrite <- En, H0. simpl. rewrite Hfind, (find_way_same _ _ _ HF).
      rewrite decide_False.
      2: { intros Et. apply Hne. apply injective_projections; [done |].
           pose proof (find_tag_and_set_range _ _ (wf_geom c Hwf) Ha).
           pose proof (find_tag_and_set_range _ _ (wf_geom c Hwf) Ha'). lia. }
      destruct (find_way (find_tag_and_set (m_geom c) addr').1 es) as [j |]; simpl;
        repeat case_decide; simplify_eq; done.
    + rewrite decide_False; [done |]. intros E.
      apply bind_Some in E as (es1 & _ & E). apply bind_Some in E as (w1 & _ & E). congruence.
Qed.

Lemma lookup_line_same c a b p :
  cache_wf c -> is_u64 a -> is_u64 b ->
  lookup_line c a = Some p -> lookup_line c b = Some p ->
  find_tag_and_set (m_geom c) a = find_tag_and_set (m_geom c) b.
Proof.
  intros Hwf Ha Hb. rewrite !lookup_line_entries. intros H1 H2.
  apply bind_Some in H1 as (es & He & H1). apply bind_Some in H1 as (w & Hw & H1).
  apply bind_Some in H2 as (es' & He' & H2). apply bind_Some in H2 as (w' & Hw' & H2).
  simplify_eq. apply find_way_Some in Hw as (e & Hw & _ & Ht).
  apply find_way_Some in Hw' as (e' & Hw' & _ & Ht').
  pose proof (find_tag_and_set_range _ _ (wf_geom c Hwf) Ha).
  pose proof (find_tag_and_set_range _ _ (wf_geom c Hwf) Hb).
  match goal with E : Z.to_nat _ = Z.to_nat _ |- _ => rewrite E in * end.
  simplify_eq. apply injective_projections; [congruence | lia].
Qed.

(** The data of the lines that were not replaced is untouched. *)
Lemma filled_data k CYCLE addr a g sk c n w upd c' es0 es e s' w' :
  filled k CYCLE addr a g sk c n w upd c' es0 es e -> (s', w') <> (n, w) ->
  (es1 ← entries_at c' s'; m_data <$> es1 !! w') = (es1 ← entries_at c s'; m_data <$> es1 !! w').
Proof.
  intros [_ H0 HF _ _ _ Hent _ _ _] Hne. rewrite Hent. case_decide as E; [| done].
  subst s'. rewrite H0. simpl. rewrite list_lookup_insert_ne by congruence.
  apply Forall2_lookup with (i := w') in HF. inversion HF as [x y (_ & _ & _ & _ & Hd) |]; simpl; congruence.
Qed.

Lemma invalidate_state addr c :
  cache_wf c -> is_u64 addr -> cache_unique c ->
  exists b c', invalidate_cache_line addr c = Done (b, c') /\ m_geom c' = m_geom c /\
    cache_wf c' /\ cache_unique c' /\ lookup_line c' addr = None /\
    (forall addr', is_u64 addr' -> lookup_line c addr' <> lookup_line c addr ->
       lookup_line c' addr' = lookup_line c addr') /\
    m_num_cpu_line c' = m_num_cpu_line c /\ m_num_gpu_line c' = m_num_gpu_line c /\
    match lookup_line c addr with
    | None => c' = c
    | Some (n, w) => exists es e, entries_at c n = Some es /\ es !! w = Some e /\ m_valid e = true /\
        b = m_dirty e /\ (forall n', entries_at c' n' =
          if decide (n = n') then Some (<[w := null_line (m_data_size (m_geom c)) e]> es)
          else entries_at c n')
    end.
Proof.
  intros Hwf Ha Hu. destruct (cache_wf_entries c addr Hwf Ha) as (s & Hs & Hget & Hne).
  unfold invalidate_cache_line. rewrite !lookup_line_entries.
  destruct (find_tag_and_set (m_geom c) addr) as [tag set] eqn:Et. simpl in *.
  assert (He : entries_at c (Z.to_nat set) = Some (m_entry s)) by (unfold entries_at; by rewrite Hs).
  rewrite Hget, He. simpl. destruct (find_way tag (m_entry s)) as [w |] eqn:Ew; simpl.
  2: { exists false, c. split_and!; try done. rewrite lookup_line_entries, Et.
       cbn [fst snd]. rewrite He. simpl. by rewrite Ew. }
  destruct (find_way_Some _ _ _ Ew) as (e & Hw & Hv & Htag).
  set (new := null_line (m_data_size (m_geom c)) e).
  destruct (find_way_clear (m_entry s) w e new (Hu _ _ He) Hw eq_refl) as [Hu' Hfind].
  set (c' := upd_line (null_line (m_data_size (m_geom c))) (Z.to_nat set) w c).
  assert (Hent : forall n', entries_at c' n' =
    if decide (Z.to_nat set = n') then Some (<[w := new]> (m_entry s)) else entries_at c n').
  { intros n'. unfold c'. rewrite entries_upd_line, He. simpl.
    case_decide; [| done]. f_equal. by apply list_alter_insert. }
  exists (m_dirty e), c'. split_and!; try done.
  - unfold null_cache_line_fields. rewrite Hs. simpl. by rewrite Hw.
  - apply (cache_wf_entries_eq c); [done | done | unfold c', upd_line, upd_set; simpl; apply length_alter |].
    intros n' es'. rewrite Hent. case_decide as En; [subst n' | eauto]. intros [= <-].
    exists (m_entry s). by rewrite length_insert.
  - intros n' es'. rewrite Hent. case_decide; [by intros [= <-] | apply Hu].
  - rewrite lookup_line_entries. change (m_geom c') with (m_geom c). rewrite Et. simpl.
    rewrite Hent, decide_True by done. simpl. rewrite Hfind, decide_True; done.
  - intros addr' Ha' Hne'. rewrite lookup_line_entries in Hne' |- *.
    rewrite (lookup_line_entries c addr'). change (m_geom c') with (m_geom c).
    rewrite Hent. case_decide as En; [| done]. rewrite <- En, He in *. simpl in *.
    rewrite Hfind. case_decide as Ej; [| done]. rewrite Ej in Hne'. done.
  - exists (m_entry s), e. done.
Qed.

(** *** Line counters *)
Definition kind_count (gpu : bool) es : Z :=
  countb (fun e => m_valid e && Bool.eqb (m_gpuline e) gpu) es.
Definition lines_of (gpu : bool) (c : cache_c) : Z :=
  sum_by (kind_count gpu) (m_entry <$> m_set c).

(** The counters of the cache agree with its valid lines. *)
Definition counters_ok (c : cache_c) : Prop :=
  m_num_cpu_line c = lines_of false c /\ m_num_gpu_line c = lines_of true c.

Lemma lines_of_update gpu c c' n es es' :
  length (m_set c') = length (m_set c) -> entries_at c n = Some es ->
  (forall n', entries_at c' n' = if decide (n = n') then Some es' else entries_at c n') ->
  lines_of gpu c' = lines_of gpu c - kind_count gpu es + kind_count gpu es'.
Proof.
  intros Hl Hes Hent. unfold lines_of.
  assert (E : m_entry <$> m_set c' = <[n := es']> (m_entry <$> m_set c)).
  { apply list_eq. intros i. rewrite list_lookup_fmap. specialize (Hent i).
    unfold entries_at in *. rewrite Hent. rewrite list_lookup_insert, length_fmap, list_lookup_fmap.
    assert (n < length (m_set c))%nat
      by (apply fmap_Some in Hes as (s & Hs & _); by eapply lookup_lt_Some).
    repeat case_decide; try done; lia. }
  rewrite E. apply sum_by_insert. by rewrite list_lookup_fmap.
Qed.

Lemma kind_count_insert gpu es w e new :
  es !! w = Some e ->
  kind_count gpu (<[w := new]> es) = kind_count gpu es -
    (if m_valid e then if m_gpuline e then if gpu then 1 else 0 else if gpu then 0 else 1 else 0) +
    (if m_valid new then if m_gpuline new then if gpu then 1 else 0 else if gpu then 0 else 1 else 0).
Proof.
  intros He. unfold kind_count. rewrite (countb_insert _ _ _ _ _ He).
  destruct gpu, (m_valid e), (m_gpuline e), (m_valid new), (m_gpuline new); simpl; lia.
Qed.

Lemma kind_count_same gpu es es' :
  Forall2 same_line es es' -> kind_count gpu es = kind_count gpu es'.
Proof.
  apply countb_Forall2. intros x y (Hv & _ & Hg & _). by rewrite Hv, Hg.
Qed.

Lemma filled_counters k CYCLE addr a g sk c n w upd c' es0 es e :
  filled k CYCLE addr a g sk c n w upd c' es0 es e -> counters_ok c -> counters_ok c'.
Proof.
  intros [Hn H0 HF Hv _ Hg Hent Hl Hc Hgp] [H1 H2]. unfold counters_ok.
  rewrite !(lines_of_update _ c c' n es0 _ Hl H0 Hent), Hc, Hgp.
  rewrite !(kind_count_insert _ es w e _ Hv), !(kind_count_same _ _ _ HF). simpl.
  rewrite H1, H2. destruct g, (m_valid e), (m_gpuline e); lia.
Qed.

(** *** The constructor establishes the invariants *)
Lemma cache_new_invalid g uninit cnt :
  Forall (fun s => Z.of_nat (length (m_entry s)) = Z.max 0 (m_assoc g) /\
                   Forall (fun e => m_valid e = false) (m_entry s)) (m_set (cache_new g uninit cnt)).
Proof.
  simpl. apply Forall_fmap, Forall_true. intros n. simpl. rewrite length_fmap, length_seq.
  split; [lia |]. apply Forall_fmap, Forall_true. done.
Qed.

Lemma cache_new_ok g uninit cnt :
  geom_wf g ->
  let c := cache_new g uninit cnt in cache_wf c /\ cache_unique c /\ counters_ok c.
Proof.
  intros Hg c. pose proof (cache_new_invalid g uninit cnt) as Hinv. fold c in Hinv. split_and!.
  - split; [done | | eapply Forall_impl; [exact Hinv |]; intros s [H _]; simpl; pose proof (wf_assoc g Hg); lia].
    simpl. rewrite length_fmap, length_seq. pose proof (wf_sets g Hg).
    pose proof (pow2_pos (m_set_bits g) (proj1 (wf_set_bits g Hg))). lia.
  - intros n es Hes i j ei ej Hi _ Hv. apply fmap_Some in Hes as (s & Hs & ->).
    pose proof (proj2 (Forall_lookup_1 _ _ _ _ Hinv Hs)) as Hf.
    pose proof (Forall_lookup_1 _ _ _ _ Hf Hi) as Hx. simpl in Hx. congruence.
  - assert (H : forall gpu, lines_of gpu c = 0).
    { intros gpu. unfold lines_of. clear -Hinv. induction Hinv as [| s l [_ Hs] _ IH]; [done |].
      rewrite fmap_cons. cbn [sum_by]. rewrite IH. unfold kind_count. rewrite countb_false; [done |].
      intros e He. rewrite Forall_forall in Hs. by rewrite (Hs e He). }
    split; rewrite H; done.
Qed.

(** ** Properties *)

(** C17: inserting a missing line never faults on an unpartitioned cache and has
    exactly one effect on the cached lines: the new line is found at the way
    returned, the line evicted from that way is the one reported in
    [updated_line] (0 when the way was free) and is no longer found, every
    other line is found where it was; no line is ever cached twice. *)
Theorem cache_insert_correct k CYCLE addr appl_id gpu skip c :
  cache_wf c -> cache_unique c -> is_u64 addr -> lookup_line c addr = None ->
  KNOB_HETERO_STATIC_CACHE_PARTITION k && m_enable_partition (m_geom c) = false ->
  exists n w la upd c' es e,
    insert_cache k CYCLE addr appl_id gpu skip c = Done (n, w, la, upd, c') /\
    cache_wf c' /\ cache_unique c' /\
    la = base_cache_line (m_geom c) addr /\
    (entries_at c n = Some es /\ es !! w = Some e /\ upd = if m_valid e then m_base e else 0) /\
    lookup_line c' addr = Some (n, w) /\
    forall addr', is_u64 addr' ->
      find_tag_and_set (m_geom c) addr' <> find_tag_and_set (m_geom c) addr ->
      lookup_line c' addr' =
        if decide (lookup_line c addr' = Some (n, w)) then None else lookup_line c addr'.
Proof.
  intros Hwf Hu Ha Hm Hp.
  destruct (insert_cache_total k CYCLE addr appl_id gpu skip c Hwf Ha Hp)
    as (n & w & la & upd & c' & E).
  destruct (insert_cache_inv k CYCLE addr appl_id gpu skip c n w la upd c' Hwf Ha E)
    as (-> & es0 & es & e & Hf & _).
  destruct (filled_lookup _ _ _ _ _ _ _ _ _ _ _ _ _ _ Hf Hwf Ha Hu Hm) as (Hu' & Hl & Ho).
  destruct (Forall2_lookup_r _ _ _ _ _ (fill_same _ _ _ _ _ _ _ _ _ _ _ _ _ _ Hf)
              (fill_victim _ _ _ _ _ _ _ _ _ _ _ _ _ _ Hf)) as (e0 & He0 & Hv & _ & _ & Hb & _).
  exists n, w, (base_cache_line (m_geom c) addr), upd, c', es0, e0.
  split_and!; try done; [by eapply filled_wf | by eapply fill_es0 |].
  rewrite Hv, Hb. by eapply fill_upd.
Qed.

(** [access_cache] on a cache that is not bypassed returns the position of
    the line when it is cached and [NULL] otherwise, with the line address;
    whatever it updates, every address is found afterwards exactly where it
    was before, with the same data. *)
Theorem cache_access_correct CYCLE addr upd c :
  cache_wf c -> is_u64 addr -> m_cache_by_pass (m_geom c) = false ->
  exists c', access_cache CYCLE addr upd c =
      Done (lookup_line c addr, Some (base_cache_line (m_geom c) addr), c') /\
    cache_wf c' /\ (cache_unique c -> cache_unique c') /\
    forall addr', lookup_line c' addr' = lookup_line c addr'.
Proof.
  intros Hwf Ha Hb. destruct (access_cache_ok CYCLE addr upd c Hwf Ha Hb) as (c' & E & Hg & Hwf' & _ & He).
  exists c'. split_and!; [done | done | |].
  - intros Hu n es' Hes'. specialize (He n). rewrite Hes' in He.
    destruct (entries_at c n) as [es |] eqn:Hes; [| done].
    by eapply tags_unique_same; [| eapply Hu].
  - intros addr'. rewrite !lookup_line_entries, Hg.
    specialize (He (Z.to_nat (find_tag_and_set (m_geom c) addr').2)).
    destruct (entries_at c _) as [es |], (entries_at c' _) as [es' |]; try done. simpl.
    by rewrite (find_way_same _ _ _ He).
Qed.

(** [invalidate_cache_line] removes the line of its address and no other,
    and returns the dirty bit it had; but it leaves the line counters as they
    are, so after invalidating a cached line the counters are no longer those
    of the valid lines. *)
Theorem cache_invalidate_correct addr c n w :
  cache_wf c -> cache_unique c -> is_u64 addr -> counters_ok c ->
  lookup_line c addr = Some (n, w) ->
  exists b c' es e, invalidate_cache_line addr c = Done (b, c') /\
    cache_wf c' /\ cache_unique c' /\
    entries_at c n = Some es /\ es !! w = Some e /\ b = m_dirty e /\
    lookup_line c' addr = None /\
    (forall addr', is_u64 addr' -> lookup_line c addr' <> Some (n, w) ->
       lookup_line c' addr' = lookup_line c addr') /\
    m_num_cpu_line c' + m_num_gpu_line c' = lines_of false c' + lines_of true c' + 1.
Proof.
  intros Hwf Hu Ha [H1 H2] Hl.
  destruct (invalidate_state addr c Hwf Ha Hu) as (b & c' & E & Hg & Hwf' & Hu' & Hn & Ho & Hc & Hgp & Hm).
  rewrite Hl in Hm, Ho. destruct Hm as (es & e & Hes & He & Hv & -> & Hent).
  exists (m_dirty e), c', es, e. split_and!; try done.
  assert (Hlen : length (m_set c') = length (m_set c)).
  { apply Nat2Z.inj. rewrite (wf_len _ Hwf'), (wf_len _ Hwf). by rewrite Hg. }
  rewrite !(lines_of_update _ c c' n es _ Hlen Hes Hent), Hc, Hgp.
  rewrite !(kind_count_insert _ es w e _ He), Hv. simpl. destruct (m_gpuline e); lia.
Qed.

(** without invalidations the CPU and GPU line counters are exact: a
    successful [insert_cache] (partitioned or not) keeps both equal to the
    number of valid lines of their kind. *)
Theorem cache_counters_exact k CYCLE addr appl_id gpu skip c n w la upd c' :
  cache_wf c -> is_u64 addr -> counters_ok c ->
  insert_cache k CYCLE addr appl_id gpu skip c = Done (n, w, la, upd, c') ->
  counters_ok c' /\ cache_wf c'.
Proof.
  intros Hwf Ha Hok E. destruct (insert_cache_inv _ _ _ _ _ _ _ _ _ _ _ _ Hwf Ha E)
    as (_ & es0 & es & e & Hf & _).
  split; [by eapply filled_counters | by eapply filled_wf].
Qed.

(** the victim of an insertion under the default policy is a free way when
    the set has one, otherwise the least recently used line, as long as the
    time stamps are below [MAX_INT]; under pseudo-LRU the search loop ends
    within two rounds with a free or unreferenced way. *)
Theorem cache_victim_correct k CYCLE addr appl_id gpu skip c n w la upd c' :
  cache_wf c -> is_u64 addr ->
  KNOB_HETERO_STATIC_CACHE_PARTITION k && m_enable_partition (m_geom c) = false ->
  insert_cache k CYCLE addr appl_id gpu skip c = Done (n, w, la, upd, c') ->
  exists es, entries_at c n = Some es /\
    if KNOB_CACHE_USE_PSEUDO_LRU k
    then exists es' e, find_replacement_line k es = Done (w, es') /\ es' !! w = Some e /\
           (m_valid e = true -> m_last_access_time e = 0)
    else Forall (fun e => m_last_access_time e < MAX_INT) es ->
         exists e, es !! w = Some e /\
           (m_valid e = false \/
            forall j ej, es !! j = Some ej -> m_valid ej = true /\
              m_last_access_time e <= m_last_access_time ej).
Proof.
  intros Hwf Ha Hp E. destruct (insert_cache_inv _ _ _ _ _ _ _ _ _ _ _ _ Hwf Ha E)
    as (_ & es0 & es & e & Hf & Hr). specialize (Hr Hp).
  exists es0. split; [by eapply fill_es0 |].
  assert (Hne : es0 <> []).
  { destruct (cache_wf_entries c addr Hwf Ha) as (s & Hs & _ & Hne).
    pose proof (fill_es0 _ _ _ _ _ _ _ _ _ _ _ _ _ _ Hf) as H0.
    rewrite (fill_set _ _ _ _ _ _ _ _ _ _ _ _ _ _ Hf) in H0.
    unfold entries_at in H0. rewrite Hs in H0. by injection H0 as <-. }
  unfold find_replacement_line in *. destruct (KNOB_CACHE_USE_PSEUDO_LRU k).
  - destruct (plru_loop_ok es0 Hne) as (i & es' & e' & E' & He' & _ & Hz).
    rewrite Hr in E'. injection E' as <- <-. eauto.
  - injection Hr as <- <-. intros Ht. destruct (lru_scan_spec es0 Hne Ht) as (e0 & He0 & H).
    exists e0. split; [done |]. destruct H as [[Hv _] | H]; [by left | by right].
Qed.

(** the initial bound of the LRU scan is the 32-bit [MAX_INT] while time
    stamps are 64-bit cycle counts: in a full set whose lines were all touched
    at or after cycle 2^31 - 1 the victim is way 0, whatever the time stamps
    are - even when way 0 is the line used last. *)
Theorem cache_lru_saturates k es :
  KNOB_CACHE_USE_PSEUDO_LRU k = false ->
  Forall (fun e => m_valid e = true /\ MAX_INT <= m_last_access_time e) es ->
  find_replacement_line k es = Done (0%nat, es).
Proof.
  intros Hk Hf. unfold find_replacement_line. rewrite Hk. by rewrite lru_scan_saturated.
Qed.

End CACHE.

(** the set index is always inside the array; the two ways of taking the
    tile number out of an address agree when the number of tiles is a power of
    two; and within one tile two addresses have the same tag and set exactly
    when they are in the same line, so distinct lines never alias. *)
Theorem address_split_correct g a b :
  geom_wf g -> is_u64 a -> is_u64 b ->
  0 <= (find_tag_and_set g a).2 < m_num_sets g /\
  (m_num_tiles g = 2 ^ m_tile_bits g -> mod_addr_shift g a = mod_addr_div g a) /\
  ((m_num_tiles g <> 1 -> m_shift_bits g <= m_interleave_bits g) -> tile_of g a = tile_of g b ->
   (find_tag_and_set g a = find_tag_and_set g b <->
    a / 2 ^ m_shift_bits g = b / 2 ^ m_shift_bits g)).
Proof.
  intros Hg Ha Hb. split_and!; try (by apply find_tag_and_set_range).
  - intros. by apply mod_addr_shift_div.
  - intros Hle Ht. rewrite find_tag_and_set_inj by done. by apply same_line_iff.
Qed.

(** ** Witnesses *)

Definition wg : cache_geom := cache_geometry 4 2 64 0 1 false false 2 64.
Definition wk : cache_knobs := mk_cache_knobs false false 0 0.
Definition wline : cache_entry_c := mk_line false 0 0 0 0 tt false true 0 false false.
Definition wc : cache_c := cache_new tt wg (fun _ _ => wline) (fun _ => (0, 0)).
Definition wc1 : cache_c :=
  match insert_cache wk 10 0x1040 0 false false wc with Done (_, c) => c | Fault _ => wc end.

Lemma wg_wf : geom_wf wg.
Proof. apply cache_geometry_wf; lia. Qed.
Lemma wc_ok : cache_wf wc /\ cache_unique wc /\ counters_ok wc.
Proof. apply cache_new_ok, wg_wf. Qed.
Lemma wc_wf : cache_wf wc.
Proof. apply wc_ok. Qed.
Lemma wc_unique : cache_unique wc.
Proof. apply wc_ok. Qed.
Lemma wc_counters : counters_ok wc.
Proof. apply wc_ok. Qed.

Lemma address_split_correct_witness :
  find_tag_and_set wg 0x1040 = find_tag_and_set wg 0x1050 <-> 0x1040 / 2 ^ 6 = 0x1050 / 2 ^ 6.
Proof.
  apply (address_split_correct wg 0x1040 0x1050 wg_wf); unfold is_u64; [lia | lia | | reflexivity].
  intros _. vm_compute. discriminate.
Defined.

Lemma cache_insert_correct_witness :
  exists n w la upd c', insert_cache wk 10 0x1040 0 false false wc = Done (n, w, la, upd, c') /\
    lookup_line c' 0x1040 = Some (n, w).
Proof.
  destruct (cache_insert_correct wk 10 0x1040 0 false false wc wc_wf wc_unique)
    as (n & w & la & upd & c' & es & e & E & _ & _ & _ & _ & Hl & _);
    [unfold is_u64; lia | reflexivity | reflexivity |].
  exists n, w, la, upd, c'. split; [exact E | exact Hl].
Defined.

Lemma cache_access_correct_witness :
  exists c', access_cache 11 0x1040 true wc = Done (None, Some 0x1040, c').
Proof.
  destruct (cache_access_correct 11 0x1040 true wc wc_wf) as (c' & E & _);
    [unfold is_u64; lia | reflexivity |]. exists c'. exact E.
Defined.

Lemma wc1_facts : cache_wf wc1 /\ cache_unique wc1 /\ counters_ok wc1.
Proof.
  assert (Ha : is_u64 0x1040) by (unfold is_u64; lia).
  destruct (insert_cache_total wk 10 0x1040 0 false false wc wc_wf Ha eq_refl)
    as (n & w & la & upd & c' & E).
  unfold wc1. rewrite E.
  destruct (insert_cache_inv _ _ _ _ _ _ _ _ _ _ _ _ wc_wf Ha E) as (_ & es0 & es & e & Hf & _).
  split_and!; [by eapply filled_wf, wc_wf | | by eapply filled_counters].
  by eapply (filled_lookup _ _ _ _ _ _ _ _ _ _ _ _ _ _ Hf wc_wf Ha wc_unique).
Qed.

Lemma cache_invalidate_correct_witness :
  exists b c', invalidate_cache_line tt 0x1040 wc1 = Done (b, c') /\
    m_num_cpu_line c' + m_num_gpu_line c' = lines_of false c' + lines_of true c' + 1.
Proof.
  destruct wc1_facts as (H1 & H2 & H3).
  destruct (cache_invalidate_correct tt 0x1040 wc1 0 0 H1 H2)
    as (b & c' & es & e & E & _ & _ & _ & _ & _ & _ & _ & Hd);
    [unfold is_u64; lia | done | vm_compute; reflexivity |]. exists b, c'. split; [exact E | exact Hd].
Defined.

Lemma cache_counters_exact_witness :
  exists n w la upd c', insert_cache wk 10 0x1040 0 false false wc = Done (n, w, la, upd, c') /\
    counters_ok c'.
Proof.
  destruct (insert_cache_total wk 10 0x1040 0 false false wc wc_wf) as (n & w & la & upd & c' & E);
    [unfold is_u64; lia | reflexivity |].
  exists n, w, la, upd, c'. split; [exact E |].
  apply (cache_counters_exact wk 10 0x1040 0 false false wc n w la upd c' wc_wf);
    [unfold is_u64; lia | exact wc_counters | exact E].
Defined.

Lemma cache_victim_correct_witness :
  exists n w la upd c' es, insert_cache wk 10 0x1040 0 false false wc = Done (n, w, la, upd, c') /\
    entries_at wc n = Some es.
Proof.
  destruct (insert_cache_total wk 10 0x1040 0 false false wc wc_wf) as (n & w & la & upd & c' & E);
    [unfold is_u64; lia | reflexivity |].
  destruct (cache_victim_correct wk 10 0x1040 0 false false wc n w la upd c' wc_wf)
    as (es & Hes & _); [unfold is_u64; lia | reflexivity | exact E |].
  exists n, w, la, upd, c', es. split; [exact E | exact Hes].
Defined.

Lemma cache_lru_saturates_witness :
  let old t := mk_line true 0 0 t 0 tt false false 0 false false in
  find_replacement_line wk [old 4000000000; old 3000000000] =
    Done (0%nat, [old 4000000000; old 3000000000]).
Proof. apply (cache_lru_saturates wk); [reflexivity |]. repeat constructor; done. Defined.
