(* ===== verification/BranchPred.v ===== *)
(** * Branch prediction: src/src/bp_gshare.cc and src/src/bp_targ.cc

    The gshare direction predictor (a table of saturating counters indexed by
    history xor address, with speculative history and recovery) and the branch
    target buffer, which is a [cache_c] whose lines hold target addresses. *)

From S2P Require Import Prelude Utils Cache.
Import Utils.Bits.

Module Gshare.

Record bp_knobs := mk_bp_knobs {
  KNOB_BP_HIST_LENGTH : Z;
  KNOB_PHT_CTR_BITS : Z
}.

(** The fields of [uop_c] the predictor reads and writes. *)
Record bp_uop := mk_bp_uop {
  m_pc : Z;
  m_dir : Z;
  m_pred_global_hist : Z;          (* m_uop_info.m_pred_global_hist *)
  m_recovery_hist : Z              (* m_recovery_info.m_global_hist *)
}.

Record recovery_info_c := mk_recovery {
  r_global_hist : Z;
  r_global_hist_64 : Z
}.

Record bp_gshare_c := mk_gshare {
  m_pht : list Z;
  m_global_hist : Z;
  m_global_hist_64 : Z
}.

Section GSHARE.
Variable k : bp_knobs.

Definition PHT_INIT_VALUE : Z := Z.shiftl 1 (KNOB_PHT_CTR_BITS k) - 1.
Definition COOK_HIST_BITS (hist len untouched : Z) : Z :=
  u32 (Z.shiftl (Z.shiftr (u32 hist) (32 - len + untouched)) untouched).
Definition COOK_ADDR_BITS (addr len shift : Z) : Z :=
  Z.land (Z.shiftr (u32 addr) shift) (N_BIT_MASK len).
Definition SAT_INC (val max : Z) : Z := if val =? max then max else val + 1.
Definition SAT_DEC (val min : Z) : Z := if val =? min then min else val - 1.

Definition bp_gshare_new : bp_gshare_c :=
  mk_gshare (replicate (Z.to_nat (Z.shiftl 1 (KNOB_BP_HIST_LENGTH k))) (u8 PHT_INIT_VALUE)) 0 0.

Definition pht_index_of (hist addr : Z) : Z :=
  Z.lxor (COOK_HIST_BITS hist (KNOB_BP_HIST_LENGTH k) 0)
         (u32 (COOK_ADDR_BITS addr (KNOB_BP_HIST_LENGTH k) 2)).

(** [pred]: predict from bit 1 of the counter, save the history in the uop,
    and shift the prediction into the speculative history. *)
Definition pred (uop : bp_uop) (b : bp_gshare_c) : outcome (Z * bp_uop * bp_gshare_c) :=
  pht_entry ← aget (m_pht b) (pht_index_of (m_global_hist b) (m_pc uop));
  let pred := Z.land (Z.shiftr pht_entry 1) 1 in
  let hist := Z.shiftr (m_global_hist b) 1 in
  mret (pred,
        mk_bp_uop (m_pc uop) (m_dir uop) (m_global_hist b)
          (Z.lor hist (u32 (Z.shiftl (m_dir uop) 31))),
        mk_gshare (m_pht b) (Z.lor hist (u32 (Z.shiftl pred 31))) (m_global_hist_64 b)).

(** [update]: train the counter the prediction was made from. *)
Definition update (uop : bp_uop) (b : bp_gshare_c) : outcome bp_gshare_c :=
  let pht_index := pht_index_of (m_pred_global_hist uop) (m_pc uop) in
  pht_entry ← aget (m_pht b) pht_index;
  pht ← aset (m_pht b) pht_index
    (if negb (m_dir uop =? 0)
     then u8 (SAT_INC pht_entry (N_BIT_MASK (KNOB_PHT_CTR_BITS k)))
     else u8 (SAT_DEC pht_entry 0));
  mret (mk_gshare pht (m_global_hist b) (m_global_hist_64 b)).

Definition recover (r : recovery_info_c) (b : bp_gshare_c) : bp_gshare_c :=
  mk_gshare (m_pht b) (r_global_hist r) (r_global_hist_64 r).

(** ** Facts *)
Hypothesis Hlen : 0 < KNOB_BP_HIST_LENGTH k < 32.
Hypothesis Hctr : 1 < KNOB_PHT_CTR_BITS k <= 8.

Definition ctr_max : Z := 2 ^ KNOB_PHT_CTR_BITS k - 1.

Record gs_inv (b : bp_gshare_c) : Prop := {
  inv_pht_len : Z.of_nat (length (m_pht b)) = 2 ^ KNOB_BP_HIST_LENGTH k;
  inv_pht : Forall (fun v => 0 <= v <= ctr_max) (m_pht b);
  inv_hist : 0 <= m_global_hist b < 2 ^ 32
}.

Lemma ctr_max_range : 3 <= ctr_max < 256.
Proof.
  unfold ctr_max. pose proof (Z.pow_le_mono_r 2 2 (KNOB_PHT_CTR_BITS k) ltac:(lia) ltac:(lia)).
  pose proof (Z.pow_le_mono_r 2 (KNOB_PHT_CTR_BITS k) 8 ltac:(lia) ltac:(lia)). lia.
Qed.

Lemma ctr_mask : N_BIT_MASK (KNOB_PHT_CTR_BITS k) = ctr_max.
Proof. rewrite N_BIT_MASK_ones, Z.ones_equiv by lia. unfold ctr_max. lia. Qed.

Lemma lxor_range a b n : 0 <= n -> 0 <= a < 2 ^ n -> 0 <= b < 2 ^ n -> 0 <= Z.lxor a b < 2 ^ n.
Proof.
  intros Hn Ha Hb. assert (H0 : 0 <= Z.lxor a b) by (apply Z.lxor_nonneg; lia).
  split; [done |]. destruct (Z.eq_dec (Z.lxor a b) 0) as [-> | Hne]; [lia |].
  apply Z.log2_lt_pow2; [lia |]. apply Z.lt_nge. intros Hge.
  pose proof (Z.bit_log2 (Z.lxor a b) ltac:(lia)) as B. rewrite Z.lxor_spec in B.
  by rewrite !(testbit_above _ n) in B by lia.
Qed.

(** The index is inside the pattern history table, whatever history and
    address are. *)
Lemma pht_index_range hist addr :
  0 <= pht_index_of hist addr < 2 ^ KNOB_BP_HIST_LENGTH k.
Proof.
  set (n := KNOB_BP_HIST_LENGTH k). pose proof (pow2_pos n ltac:(lia)).
  assert (Hn : 2 ^ n < 2 ^ 32) by (apply Z.pow_lt_mono_r; lia).
  unfold pht_index_of. fold n. apply lxor_range; [lia | |].
  - unfold COOK_HIST_BITS. rewrite Z.shiftl_0_r, Z.add_0_r, Z.shiftr_div_pow2 by lia.
    assert (Hu : 0 <= u32 hist < 2 ^ 32) by (apply Z.mod_pos_bound; lia).
    assert (Hd : 0 <= u32 hist / 2 ^ (32 - n) < 2 ^ n).
    { pose proof (pow2_pos (32 - n) ltac:(lia)). split; [apply Z.div_pos; lia |].
      apply Z.div_lt_upper_bound; [lia |]. rewrite <- Z.pow_add_r by lia.
      replace (32 - n + n) with 32 by lia. lia. }
    set (q := u32 hist / 2 ^ (32 - n)) in *. unfold u32. rewrite !Z.mod_small by lia. lia.
  - unfold COOK_ADDR_BITS. rewrite land_mask by lia.
    pose proof (Z.mod_pos_bound (Z.shiftr (u32 addr) 2) (2 ^ n) ltac:(lia)).
    set (q := _ mod 2 ^ n) in *. unfold u32. rewrite !Z.mod_small by lia. lia.
Qed.

Lemma pht_get b hist addr :
  gs_inv b -> exists v, aget (m_pht b) (pht_index_of hist addr) = Done v /\
    m_pht b !! Z.to_nat (pht_index_of hist addr) = Some v /\ 0 <= v <= ctr_max.
Proof.
  intros Hi. pose proof (pht_index_range hist addr) as Hr. rewrite <- (inv_pht_len b Hi) in Hr.
  destruct (aget_in_range _ _ Hr) as (v & Hv & Hg). exists v. split_and!; try done;
    apply (Forall_lookup_1 _ _ _ _ (inv_pht b Hi) Hv).
Qed.

Lemma bp_gshare_new_inv : gs_inv bp_gshare_new.
Proof.
  pose proof ctr_max_range. split; simpl.
  - rewrite length_replicate, Z.shiftl_1_l. pose proof (pow2_pos (KNOB_BP_HIST_LENGTH k)). lia.
  - apply Forall_replicate. unfold PHT_INIT_VALUE. rewrite Z.shiftl_1_l. fold ctr_max.
    unfold u8. rewrite Z.mod_small; lia.
  - lia.
Qed.

Lemma hist_shift_range h d : 0 <= h < 2 ^ 32 ->
  0 <= Z.lor (Z.shiftr h 1) (u32 (Z.shiftl d 31)) < 2 ^ 32.
Proof.
  intros Hh. assert (Hu : 0 <= u32 (Z.shiftl d 31) < 2 ^ 32) by (apply Z.mod_pos_bound; lia).
  assert (Hs : 0 <= Z.shiftr h 1 < 2 ^ 32).
  { rewrite Z.shiftr_div_pow2 by lia. split; [apply Z.div_pos; lia | apply Z.div_lt_upper_bound; lia]. }
  set (x := Z.lor _ _). assert (H0 : 0 <= x) by (apply Z.lor_nonneg; lia). split; [done |].
  destruct (Z.eq_dec x 0) as [-> | Hne]; [lia |]. apply Z.log2_lt_pow2; [lia |].
  unfold x. rewrite Z.log2_lor by lia. apply Z.max_lub_lt.
  - destruct (Z.eq_dec (Z.shiftr h 1) 0) as [-> |]; [done |]. apply Z.log2_lt_pow2; lia.
  - destruct (Z.eq_dec (u32 (Z.shiftl d 31)) 0) as [-> |]; [done |]. apply Z.log2_lt_pow2; lia.
Qed.

Lemma pred_ok uop b : gs_inv b -> exists p u' b' v, pred uop b = Done (p, u', b') /\ gs_inv b' /\
  m_pht b !! Z.to_nat (pht_index_of (m_global_hist b) (m_pc uop)) = Some v /\
  p = (v / 2) mod 2 /\ m_pht b' = m_pht b /\
  m_pc u' = m_pc uop /\ m_dir u' = m_dir uop /\ m_pred_global_hist u' = m_global_hist b.
Proof.
  intros Hi. destruct (pht_get b (m_global_hist b) (m_pc uop) Hi) as (v & Hg & Hv & _).
  unfold pred. rewrite Hg. simpl. eexists _, _, _, v. split; [done |]. simpl.
  split_and!; try done.
  - destruct Hi as [Hl Hp Hh]. split; simpl; [done | done | by apply hist_shift_range].
  - change 1 with (Z.ones 1). rewrite Z.land_ones, shiftr1_div by lia. done.
Qed.

Definition trained (taken : bool) (v : Z) : Z :=
  if taken then Z.min (v + 1) ctr_max else Z.max (v - 1) 0.

Lemma update_ok uop b : gs_inv b -> exists b' v, update uop b = Done b' /\ gs_inv b' /\
  m_pht b !! Z.to_nat (pht_index_of (m_pred_global_hist uop) (m_pc uop)) = Some v /\
  m_pht b' = <[Z.to_nat (pht_index_of (m_pred_global_hist uop) (m_pc uop)) :=
               trained (negb (m_dir uop =? 0)) v]> (m_pht b) /\
  m_global_hist b' = m_global_hist b.
Proof.
  intros Hi. destruct (pht_get b (m_pred_global_hist uop) (m_pc uop) Hi) as (v & Hg & Hv & Hr).
  pose proof (pht_index_range (m_pred_global_hist uop) (m_pc uop)) as Hx.
  rewrite <- (inv_pht_len b Hi) in Hx. pose proof ctr_max_range.
  unfold update. rewrite Hg. simpl. rewrite aset_in_range by done. simpl.
  assert (Ht : (if negb (m_dir uop =? 0) then u8 (SAT_INC v (N_BIT_MASK (KNOB_PHT_CTR_BITS k)))
                else u8 (SAT_DEC v 0)) = trained (negb (m_dir uop =? 0)) v).
  { rewrite ctr_mask. unfold trained, SAT_INC, SAT_DEC, u8.
    destruct (negb (m_dir uop =? 0));
      [destruct (Z.eqb_spec v ctr_max) | destruct (Z.eqb_spec v 0)]; rewrite Z.mod_small; lia. }
  rewrite Ht. eexists _, v. split; [done |]. split_and!; try done.
  destruct Hi as [Hl Hp Hh]. split; simpl; [by rewrite length_insert | | done].
  apply Forall_insert; [done |]. unfold trained. destruct (negb _); lia.
Qed.

(** Training one table entry [n] times in one direction. *)
Fixpoint train (n : nat) (uop : bp_uop) (b : bp_gshare_c) : outcome bp_gshare_c :=
  match n with
  | O => mret b
  | S n' => b' ← update uop b; train n' uop b'
  end.

Lemma train_ok n uop b v :
  gs_inv b -> m_pht b !! Z.to_nat (pht_index_of (m_pred_global_hist uop) (m_pc uop)) = Some v ->
  exists b', train n uop b = Done b' /\ gs_inv b' /\ m_global_hist b' = m_global_hist b /\
    m_pht b' !! Z.to_nat (pht_index_of (m_pred_global_hist uop) (m_pc uop)) =
      Some (if negb (m_dir uop =? 0) then Z.min (v + Z.of_nat n) ctr_max
            else Z.max (v - Z.of_nat n) 0).
Proof.
  revert b v. induction n as [| n IH]; intros b v Hi Hv.
  { exists b. split_and!; try done. pose proof (Forall_lookup_1 _ _ _ _ (inv_pht b Hi) Hv).
    rewrite Hv. f_equal. simpl in *. destruct (negb _); lia. }
  destruct (update_ok uop b Hi) as (b1 & v1 & E & Hi1 & Hv1 & Hp1 & Hh1).
  rewrite Hv in Hv1. injection Hv1 as <-. simpl. rewrite E. simpl.
  destruct (IH b1 (trained (negb (m_dir uop =? 0)) v) Hi1) as (b' & E' & Hi' & Hh' & Hv').
  { rewrite Hp1. apply list_lookup_insert_eq. by eapply lookup_lt_Some. }
  exists b'. split_and!; try done; [congruence |]. rewrite Hv'. f_equal.
  pose proof ctr_max_range. unfold trained. destruct (negb _); lia.
Qed.

(** Runs of predictions, updates and recoveries in any order. *)
Inductive bp_op := OpPred (u : bp_uop) | OpUpdate (u : bp_uop) | OpRecover (r : recovery_info_c).
Definition bp_exec (o : bp_op) (b : bp_gshare_c) : outcome bp_gshare_c :=
  match o with
  | OpPred u => '(_, b') ← pred u b; mret b'
  | OpUpdate u => update u b
  | OpRecover r => mret (recover r b)
  end.
Fixpoint bp_run (ops : list bp_op) (b : bp_gshare_c) : outcome bp_gshare_c :=
  match ops with [] => mret b | o :: ops' => b' ← bp_exec o b; bp_run ops' b' end.

(** ** Properties *)

(** however predictions, updates and recoveries (with 32-bit histories)
    are interleaved, the table index is in bounds and every counter stays
    between 0 and its saturation value. *)
Theorem gshare_safe ops :
  Forall (fun o => match o with OpRecover r => 0 <= r_global_hist r < 2 ^ 32 | _ => True end) ops ->
  exists b, bp_run ops bp_gshare_new = Done b /\ gs_inv b.
Proof.
  pose proof bp_gshare_new_inv as Hi. revert Hi. generalize bp_gshare_new.
  induction ops as [| o ops IH]; intros b Hi Hf; simpl; [by exists b |].
  apply Forall_cons in Hf as [Ho Hf]. destruct o as [u | u | r]; simpl.
  - destruct (pred_ok u b Hi) as (p & u' & b' & v & -> & Hi' & _). simpl. auto.
  - destruct (update_ok u b Hi) as (b' & v & -> & Hi' & _). simpl. auto.
  - apply IH; [| done]. destruct Hi as [Hl Hp Hh]. by split.
Qed.

(** training works: after [2^ctr - 1] updates of a branch in one direction
    under one history, the prediction for that branch under that history is
    that direction. *)
Theorem gshare_learns uop b :
  gs_inv b -> m_pred_global_hist uop = m_global_hist b ->
  exists b' p u' b'', train (Z.to_nat ctr_max) uop b = Done b' /\
    pred uop b' = Done (p, u', b'') /\ p = if negb (m_dir uop =? 0) then 1 else 0.
Proof.
  intros Hi Hh. pose proof ctr_max_range as Hc.
  destruct (pht_get b (m_pred_global_hist uop) (m_pc uop) Hi) as (v & _ & Hv & Hr).
  destruct (train_ok (Z.to_nat ctr_max) uop b v Hi Hv) as (b' & E & Hi' & Hh' & Hv').
  destruct (pred_ok uop b' Hi') as (p & u' & b'' & v' & Ep & _ & Hv'' & Hp & _).
  exists b', p, u', b''. split_and!; try done.
  rewrite Hh', <- Hh, Hv' in Hv''. injection Hv'' as <-. subst p.
  destruct (negb (m_dir uop =? 0)).
  - rewrite Z.min_r by lia. unfold ctr_max.
    replace (2 ^ KNOB_PHT_CTR_BITS k - 1) with (1 + (2 ^ (KNOB_PHT_CTR_BITS k - 2) * 2 - 1) * 2).
    2: { replace (KNOB_PHT_CTR_BITS k) with (KNOB_PHT_CTR_BITS k - 2 + 2) at 2 by lia.
         rewrite (Z.pow_add_r 2 (KNOB_PHT_CTR_BITS k - 2) 2) by lia. lia. }
    rewrite Z.div_add by lia. change (1 / 2) with 0. set (q := 2 ^ (KNOB_PHT_CTR_BITS k - 2)).
    symmetry. apply (Z.mod_unique _ 2 (q - 1) 1); lia.
  - rewrite Z.max_r by lia. done.
Qed.

(** recovery repairs the speculative history: after a prediction,
    recovering with the history saved in the uop leaves the history that a
    correct prediction would have left, and the table is untouched. *)
Theorem gshare_recovery uop b :
  gs_inv b -> 0 <= m_dir uop <= 1 ->
  exists p u' b', pred uop b = Done (p, u', b') /\
    let b'' := recover (mk_recovery (m_recovery_hist u') (m_global_hist_64 b)) b' in
    m_pht b'' = m_pht b /\ m_global_hist b'' = m_global_hist b / 2 + m_dir uop * 2 ^ 31 /\
    (p = m_dir uop -> b'' = b').
Proof.
  intros Hi Hd. destruct (pht_get b (m_global_hist b) (m_pc uop) Hi) as (v & Hg & Hv & _).
  unfold pred. rewrite Hg. simpl. eexists _, _, _. split; [done |]. simpl. split; [done |].
  pose proof (inv_hist b Hi) as Hh. split; [| by intros <-].
  assert (Hs : u32 (Z.shiftl (m_dir uop) 31) = Z.shiftl (m_dir uop) 31).
  { unfold u32. rewrite Z.shiftl_mul_pow2 by lia. apply Z.mod_small. lia. }
  rewrite Hs, Z.lor_comm, lor_shiftl_add, shiftr1_div; [lia | lia |].
  rewrite shiftr1_div. split; [apply Z.div_pos; lia | apply Z.div_lt_upper_bound; lia].
Qed.

(** the prediction is bit 1 of the counter whatever the counter width is:
    with 2-bit counters a counter in the upper half predicts taken and one in
    the lower half predicts not taken; with 3-bit counters the values 4 and 5,
    in the upper half, predict not taken, and 2 and 3 predict taken. *)
Theorem gshare_prediction_bit uop b :
  gs_inv b -> exists p u' b' v, pred uop b = Done (p, u', b') /\
    m_pht b !! Z.to_nat (pht_index_of (m_global_hist b) (m_pc uop)) = Some v /\
    (KNOB_PHT_CTR_BITS k = 2 -> (p = 1 <-> 2 ^ (KNOB_PHT_CTR_BITS k - 1) <= v)) /\
    (KNOB_PHT_CTR_BITS k = 3 -> (p = 1 <-> v = 2 \/ v = 3 \/ v = 6 \/ v = 7)).
Proof.
  intros Hi. destruct (pred_ok uop b Hi) as (p & u' & b' & v & E & _ & Hv & -> & _).
  exists ((v / 2) mod 2), u', b', v. split; [done |]. split; [done |].
  pose proof (Forall_lookup_1 _ _ _ _ (inv_pht b Hi) Hv) as Hr. unfold ctr_max in Hr. simpl in Hr.
  split; intros Hk; rewrite Hk in *.
  - assert (v = 0 \/ v = 1 \/ v = 2 \/ v = 3) as H by lia.
    destruct H as [-> | [-> | [-> | ->]]]; split; (done || lia).
  - assert (v = 0 \/ v = 1 \/ v = 2 \/ v = 3 \/ v = 4 \/ v = 5 \/ v = 6 \/ v = 7) as H by lia.
    destruct H as [-> | [-> | [-> | [-> | [-> | [-> | [-> | ->]]]]]]]; split; (done || lia).
Qed.

End GSHARE.

(** ** Witnesses *)
Definition wk : bp_knobs := mk_bp_knobs 5 2.
Definition wu : bp_uop := mk_bp_uop 0x400 0 0 0.

Lemma wk_inv : gs_inv wk (bp_gshare_new wk).
Proof. apply bp_gshare_new_inv; simpl; lia. Qed.

Lemma gshare_safe_witness :
  exists b, bp_run wk [OpPred wu; OpUpdate wu; OpRecover (mk_recovery 5 0)] (bp_gshare_new wk) = Done b /\
    gs_inv wk b.
Proof. apply (gshare_safe wk); simpl; [lia | lia |]. repeat constructor; simpl; lia. Defined.

Lemma gshare_learns_witness :
  exists b' p u' b'', train wk (Z.to_nat (ctr_max wk)) wu (bp_gshare_new wk) = Done b' /\
    pred wk wu b' = Done (p, u', b'') /\ p = 0.
Proof. apply (gshare_learns wk); simpl; [lia | lia | apply wk_inv | reflexivity]. Defined.

Lemma gshare_recovery_witness :
  exists p u' b', pred wk wu (bp_gshare_new wk) = Done (p, u', b') /\ p = 1 /\
    m_global_hist (recover (mk_recovery (m_recovery_hist u') 0) b') = 0.
Proof.
  destruct (gshare_recovery wk ltac:(simpl; lia) wu (bp_gshare_new wk) wk_inv)
    as (p & u' & b' & E & _ & H & _); [simpl; lia |].
  exists p, u', b'. split; [exact E |]. split; [| exact H].
  vm_compute in E. congruence.
Defined.

Lemma gshare_prediction_bit_witness :
  exists p u' b' v, pred wk wu (bp_gshare_new wk) = Done (p, u', b') /\ (p = 1 <-> 2 <= v).
Proof.
  destruct (gshare_prediction_bit wk ltac:(simpl; lia) ltac:(simpl; lia) wu (bp_gshare_new wk) wk_inv)
    as (p & u' & b' & v & E & _ & H & _).
  exists p, u', b', v. split; [exact E |]. apply H. reflexivity.
Defined.

End Gshare.

Module Btb.

Record btb_knobs := mk_btb_knobs {
  KNOB_BTB_ENTRIES : Z;
  KNOB_BTB_ASSOC : Z;
  KNOB_BTB_BANK_NUM : Z;
  KNOB_PERFECT_BTB : bool;
  btb_cache_knobs : cache_knobs
}.

Record targ_uop := mk_targ_uop {
  t_pc : Z;
  t_target_addr : Z;
  t_off_path : bool;
  t_btb_set : Z
}.

(** A line holds a target address. *)
#[local] Abbreviation btb_c := (cache_c (D := Z)).
#[local] Abbreviation btb_line := (cache_entry_c (D := Z)).

Section BTB.
Variable k : btb_knobs.

Definition btb_geometry : cache_geom :=
  cache_geometry (KNOB_BTB_ENTRIES k * 4) (KNOB_BTB_ASSOC k) 4 8 (KNOB_BTB_BANK_NUM k)
    false false 1 0.

Definition bp_targ_new (uninit : nat -> nat -> btb_line) (uninit_cnt : nat -> Z * Z) : btb_c :=
  cache_new 0 btb_geometry uninit uninit_cnt.

(** Reading and writing the target a line points to. *)
Definition line_at (s w : nat) (btb : btb_c) : option btb_line :=
  es ← entries_at btb s; es !! w.
Definition set_target (target : Z) (e : btb_line) : btb_line :=
  mk_line (m_valid e) (m_tag e) (m_base e) (m_last_access_time e) (m_access_counter e) target
    (m_pref e) (m_dirty e) (m_appl_id e) (m_gpuline e) (m_skip e).

Definition pred (CYCLE : Z) (uop : targ_uop) (btb : btb_c) : outcome (Z * targ_uop * btb_c) :=
  '(return_addr, btb') ←
    (if KNOB_PERFECT_BTB k then mret (t_target_addr uop, btb)
     else '(ptr, _, btb') ← access_cache CYCLE (t_pc uop) true btb;
          match ptr with
          | Some (s, w) => e ← get_or NullDeref (line_at s w btb'); mret (m_data e, btb')
          | None => mret (0, btb')
          end);
  let '(_, set) := find_tag_and_set (m_geom btb) (t_pc uop) in
  mret (return_addr, mk_targ_uop (t_pc uop) (t_target_addr uop) (t_off_path uop) set, btb').

Definition update (CYCLE appl_id : Z) (uop : targ_uop) (btb : btb_c) : outcome btb_c :=
  if t_off_path uop then mret btb else
  '(ptr, _, btb1) ← access_cache CYCLE (t_pc uop) false btb;
  '(s, w, btb2) ←
    match ptr with
    | Some (s, w) => mret (s, w, btb1)
    | None => '(n, w, _, _, b) ←
                insert_cache (btb_cache_knobs k) CYCLE (t_pc uop) appl_id false false btb1;
              mret (n, w, b)
    end;
  mret (upd_line (set_target (t_target_addr uop)) s w btb2).

(** The target the buffer holds for an address. *)
Definition target_of (btb : btb_c) (pc : Z) : option Z :=
  '(s, w) ← lookup_line btb pc; m_data <$> line_at s w btb.

Definition btb_inv (btb : btb_c) : Prop :=
  cache_wf btb /\ cache_unique btb /\ m_geom btb = btb_geometry.

Lemma line_at_lookup btb pc s w :
  lookup_line btb pc = Some (s, w) -> exists e, line_at s w btb = Some e.
Proof.
  rewrite lookup_line_entries. intros H. apply bind_Some in H as (es & He & H).
  apply bind_Some in H as (w' & Hw & H). injection H as <- <-.
  apply find_way_Some in Hw as (e & Hw & _). exists e. unfold line_at. rewrite He. done.
Qed.

Lemma set_target_wf t s w btb : cache_wf btb -> cache_wf (upd_line (set_target t) s w btb).
Proof.
  intros Hwf. apply (cache_wf_entries_eq btb); [done | done | |].
  - unfold upd_line, upd_set. simpl. apply length_alter.
  - intros n es'. rewrite entries_upd_line. case_decide as E; [subst n | by eauto].
    intros H. apply fmap_Some in H as (es & Hes & ->). exists es. by rewrite length_alter.
Qed.

Lemma set_target_same t w es : Forall2 same_tag es (alter (set_target t) w es).
Proof.
  apply Forall2_lookup. intros i. rewrite list_lookup_alter.
  destruct (decide (w = i)) as [<- |]; [destruct (es !! w) | destruct (es !! i)]; by constructor.
Qed.

Lemma set_target_lookup t s w btb pc :
  lookup_line (upd_line (set_target t) s w btb) pc = lookup_line btb pc.
Proof.
  rewrite !lookup_line_entries. change (m_geom (upd_line _ s w btb)) with (m_geom btb).
  rewrite entries_upd_line. case_decide as E; [| done]. rewrite <- E.
  destruct (entries_at btb s) as [es |]; simpl; [| done].
  by rewrite <- (find_way_same_tag _ _ _ (set_target_same t w es)).
Qed.

Lemma set_target_unique t s w btb : cache_unique btb -> cache_unique (upd_line (set_target t) s w btb).
Proof.
  intros Hu n es'. rewrite entries_upd_line. case_decide as E; [| apply Hu].
  intros H. apply fmap_Some in H as (es & Hes & ->).
  eapply tags_unique_same_tag; [apply set_target_same | by eapply Hu].
Qed.

Lemma line_at_set_target t s w btb s' w' :
  line_at s' w' (upd_line (set_target t) s w btb) =
    if decide (s = s' /\ w = w') then set_target t <$> line_at s w btb else line_at s' w' btb.
Proof.
  unfold line_at. rewrite entries_upd_line. destruct (decide (s = s')) as [<- |].
  - destruct (entries_at btb s) as [es |]; simpl; [| by case_decide].
    rewrite list_lookup_alter. repeat case_decide; by (try tauto; simplify_eq).
  - rewrite decide_False by tauto. done.
Qed.

Lemma btb_pred_ok CYCLE uop btb :
  btb_inv btb -> is_u64 (t_pc uop) ->
  exists u' btb', pred CYCLE uop btb =
      Done (if KNOB_PERFECT_BTB k then t_target_addr uop else default 0 (target_of btb (t_pc uop)),
            u', btb').
Proof.
  intros (Hwf & Hu & Hg) Ha. unfold pred. destruct (KNOB_PERFECT_BTB k).
  { simpl. destruct (find_tag_and_set _ _). by eexists _, _. }
  destruct (access_cache_ok CYCLE (t_pc uop) true btb Hwf Ha) as (btb' & -> & _ & _ & _ & He);
    [by rewrite Hg |]. simpl. unfold target_of.
  destruct (lookup_line btb (t_pc uop)) as [[s w] |] eqn:El; simpl.
  - destruct (line_at_lookup btb (t_pc uop) s w El) as [e Hl]. unfold line_at in Hl |- *.
    specialize (He s). destruct (entries_at btb s) as [es |]; [| done]. simpl in Hl.
    destruct (entries_at btb' s) as [es' |]; [| done]. simpl.
    destruct (Forall2_lookup_l _ _ _ _ _ He Hl) as (e' & He' & _ & _ & _ & _ & Hd).
    rewrite He', Hl. simpl. rewrite Hd. destruct (find_tag_and_set _ _). by eexists _, _.
  - destruct (find_tag_and_set _ _). by eexists _, _.
Qed.

(** Writing the target of an entry that is in the buffer. *)
Lemma write_target_ok t s w btb pc :
  btb_inv btb -> is_u64 pc -> lookup_line btb pc = Some (s, w) ->
  let btb' := upd_line (set_target t) s w btb in
  btb_inv btb' /\ target_of btb' pc = Some t /\
  forall pc', is_u64 pc' ->
    find_tag_and_set (m_geom btb) pc' <> find_tag_and_set (m_geom btb) pc ->
    target_of btb' pc' = target_of btb pc'.
Proof.
  intros (Hwf & Hu & Hg) Ha Hl btb'. split_and!.
  - split_and!; [by apply set_target_wf | by apply set_target_unique | done].
  - unfold target_of, btb'. rewrite set_target_lookup, Hl. simpl.
    rewrite line_at_set_target, decide_True by done.
    destruct (line_at_lookup _ _ _ _ Hl) as [e ->]. done.
  - intros pc' Ha' Hne. unfold target_of, btb'. rewrite set_target_lookup.
    destruct (lookup_line btb pc') as [[s' w'] |] eqn:El; simpl; [| done].
    rewrite line_at_set_target, decide_False; [done |]. intros [<- <-].
    apply Hne. by eapply lookup_line_same.
Qed.

Lemma btb_update_ok CYCLE appl_id uop btb :
  btb_inv btb -> is_u64 (t_pc uop) -> t_off_path uop = false ->
  exists btb' s w, update CYCLE appl_id uop btb = Done btb' /\ btb_inv btb' /\
    target_of btb' (t_pc uop) = Some (t_target_addr uop) /\
    forall pc, is_u64 pc ->
      find_tag_and_set (m_geom btb) pc <> find_tag_and_set (m_geom btb) (t_pc uop) ->
      target_of btb' pc =
        if decide (lookup_line btb pc = Some (s, w)) then None else target_of btb pc.
Proof.
  intros (Hwf & Hu & Hg) Ha Hoff. unfold update. rewrite Hoff.
  destruct (access_cache_ok CYCLE (t_pc uop) false btb Hwf Ha) as (btb1 & -> & _ & _ & Hsame & _);
    [by rewrite Hg |]. rewrite Hsame by done. simpl.
  destruct (lookup_line btb (t_pc uop)) as [[s w] |] eqn:El; simpl.
  - destruct (write_target_ok (t_target_addr uop) s w btb (t_pc uop)) as (Hi & Ht & Ho); try done.
    eexists _, s, w. split_and!; try done. intros pc Hpc Hne.
    rewrite decide_False; [by apply Ho |]. intros E. apply Hne. by eapply lookup_line_same.
  - destruct (insert_cache_total (btb_cache_knobs k) CYCLE (t_pc uop) appl_id false false btb Hwf Ha)
      as (n & w & la & upd & btb2 & E); [rewrite Hg; apply andb_false_r |].
    rewrite E. simpl.
    destruct (insert_cache_inv _ _ _ _ _ _ _ _ _ _ _ _ Hwf Ha E) as (_ & es0 & es & e & Hf & _).
    destruct (filled_lookup _ _ _ _ _ _ _ _ _ _ _ _ _ _ Hf Hwf Ha Hu El) as (Hu2 & Hl2 & Ho2).
    pose proof (fill_geom _ _ _ _ _ _ _ _ _ _ _ _ _ _ Hf) as Hg2.
    destruct (write_target_ok (t_target_addr uop) n w btb2 (t_pc uop)) as (Hi & Ht & Ho); try done.
    { split_and!; [by eapply filled_wf | done | congruence]. }
    eexists _, n, w. split_and!; try done. intros pc Hpc Hne.
    rewrite Ho by (by rewrite ?Hg2). unfold target_of. rewrite Ho2 by done.
    case_decide as Ed; [done |].
    destruct (lookup_line btb pc) as [[s' w'] |]; [| done]. simpl. unfold line_at.
    pose proof (filled_data _ _ _ _ _ _ _ _ _ _ _ _ _ _ s' w' Hf ltac:(congruence)) as Hd.
    by destruct (entries_at btb2 s'), (entries_at btb s').
Qed.

(** after an on-path update the target buffer predicts the resolved target
    for that branch; every other branch keeps its prediction, except the one
    whose entry was replaced, which misses; wrong-path updates change
    nothing. *)
Theorem btb_predicts_updated_target CYCLE appl_id uop btb :
  btb_inv btb -> is_u64 (t_pc uop) -> KNOB_PERFECT_BTB k = false ->
  exists btb', update CYCLE appl_id uop btb = Done btb' /\
    if t_off_path uop then btb' = btb
    else exists s w,
      (forall CYCLE', exists u' btb'', pred CYCLE' uop btb' = Done (t_target_addr uop, u', btb'')) /\
      forall pc, is_u64 pc ->
        find_tag_and_set (m_geom btb) pc <> find_tag_and_set (m_geom btb) (t_pc uop) ->
        target_of btb' pc =
          if decide (lookup_line btb pc = Some (s, w)) then None else target_of btb pc.
Proof.
  intros Hi Ha Hk. destruct (t_off_path uop) eqn:Hoff.
  { exists btb. unfold update. by rewrite Hoff. }
  destruct (btb_update_ok CYCLE appl_id uop btb Hi Ha Hoff) as (btb' & s & w & E & Hi' & Ht & Ho).
  exists btb'. split; [done |]. exists s, w. split; [| done]. intros CYCLE'.
  destruct (btb_pred_ok CYCLE' uop btb' Hi' Ha) as (u' & btb'' & E'). rewrite Hk, Ht in E'.
  by exists u', btb''.
Qed.

End BTB.

Definition wk : btb_knobs := mk_btb_knobs 4 2 1 false (mk_cache_knobs false false 0 0).
Definition wbtb : btb_c :=
  bp_targ_new wk (fun _ _ => mk_line true 7 7 7 7 7 true true 7 true true) (fun _ => (0, 0)).
Definition wuop : targ_uop := mk_targ_uop 0x400 0x500 false 0.

Lemma wbtb_inv : btb_inv wk wbtb.
Proof.
  destruct (cache_new_ok 0 (btb_geometry wk)
    (fun _ _ => mk_line true 7 7 7 7 7 true true 7 true true) (fun _ => (0, 0))) as (H1 & H2 & _);
    [apply cache_geometry_wf; simpl; lia | by split_and!].
Qed.

Lemma btb_predicts_updated_target_witness :
  exists btb', update wk 1 0 wuop wbtb = Done btb' /\
    exists u' btb'', pred wk 2 wuop btb' = Done (0x500, u', btb'').
Proof.
  destruct (btb_predicts_updated_target wk 1 0 wuop wbtb wbtb_inv) as (btb' & E & s & w & H & _);
    [unfold is_u64; simpl; lia | reflexivity |]. exists btb'. split; [exact E | apply H].
Defined.

End Btb.
