(* ===== verification/LruList.v ===== *)
(** * Intrusive LRU lists: the doubly linked lists of tlb.h and mmu.h

    [TLB] and [MMU::ReplacementUnit] keep their entries on a doubly linked
    list between two sentinels, most recently used first. The model keeps the
    pointers: a heap of entries with [prev] and [next], and the two pointer
    routines. The facts relate the heap to the list it represents. *)

From S2P Require Import Prelude.

Section LRU_LIST.
Context {P : Type}.

Record Entry := mk_entry {
  payload : P;
  prev : option nat;
  next : option nat
}.

#[local] Abbreviation heap := (gmap nat Entry).
Implicit Types (h : heap).

(** [*p]: a null pointer faults, and so does an address that holds no entry. *)
Definition deref (h : heap) (p : option nat) : outcome (nat * Entry) :=
  a ← get_or NullDeref p;
  e ← get_or UseAfterFree (h !! a);
  mret (a, e).

Definition set_next (p v : option nat) (h : heap) : outcome heap :=
  '(a, e) ← deref h p; mret (<[a := mk_entry (payload e) (prev e) v]> h).
Definition set_prev (p v : option nat) (h : heap) : outcome heap :=
  '(a, e) ← deref h p; mret (<[a := mk_entry (payload e) v (next e)]> h).
Definition set_payload (p : option nat) (x : P) (h : heap) : outcome heap :=
  '(a, e) ← deref h p; mret (<[a := mk_entry x (prev e) (next e)]> h).

(** [node->prev->next = node->next; node->next->prev = node->prev;] *)
Definition detach_node (node : nat) (h : heap) : outcome heap :=
  '(_, n) ← deref h (Some node);
  h1 ← set_next (prev n) (next n) h;
  '(_, n1) ← deref h1 (Some node);
  set_prev (next n1) (prev n1) h1.

(** [node->next = m_head->next; node->prev = m_head; m_head->next = node;
     node->next->prev = node;] *)
Definition attach_node (m_head node : nat) (h : heap) : outcome heap :=
  '(_, hd) ← deref h (Some m_head);
  h1 ← set_next (Some node) (next hd) h;
  h2 ← set_prev (Some node) (Some m_head) h1;
  h3 ← set_next (Some m_head) (Some node) h2;
  '(_, n) ← deref h3 (Some node);
  set_prev (next n) (Some node) h3.

(** ** The list a heap represents *)

Definition nxt (h : heap) (a : nat) : option nat := h !! a ≫= next.
Definition prv (h : heap) (a : nat) : option nat := h !! a ≫= prev.
Definition pay (h : heap) (a : nat) : option P := payload <$> h !! a.

Fixpoint linked (h : heap) (path : list nat) : Prop :=
  match path with
  | a :: (b :: _) as q => nxt h a = Some b /\ prv h b = Some a /\ linked h q
  | _ => True
  end.

(** Writes through one pointer, as effects on the three projections. *)
Lemma set_next_ok h a v :
  is_Some (h !! a) -> exists h', set_next (Some a) v h = Done h' /\
    (forall n, nxt h' n = if decide (n = a) then v else nxt h n) /\
    (forall n, prv h' n = prv h n) /\ (forall n, pay h' n = pay h n).
Proof.
  intros [e He]. unfold set_next, deref. simpl. rewrite He. simpl. eexists. split; [done |].
  unfold nxt, prv, pay. split_and!; intros n; destruct (decide (n = a)) as [-> |];
    rewrite ?lookup_insert_eq, ?lookup_insert_ne by done; by rewrite ?He.
Qed.

Lemma set_prev_ok h a v :
  is_Some (h !! a) -> exists h', set_prev (Some a) v h = Done h' /\
    (forall n, nxt h' n = nxt h n) /\
    (forall n, prv h' n = if decide (n = a) then v else prv h n) /\ (forall n, pay h' n = pay h n).
Proof.
  intros [e He]. unfold set_prev, deref. simpl. rewrite He. simpl. eexists. split; [done |].
  unfold nxt, prv, pay. split_and!; intros n; destruct (decide (n = a)) as [-> |];
    rewrite ?lookup_insert_eq, ?lookup_insert_ne by done; by rewrite ?He.
Qed.

Lemma set_payload_ok h a x :
  is_Some (h !! a) -> exists h', set_payload (Some a) x h = Done h' /\
    (forall n, nxt h' n = nxt h n) /\ (forall n, prv h' n = prv h n) /\
    (forall n, pay h' n = if decide (n = a) then Some x else pay h n).
Proof.
  intros [e He]. unfold set_payload, deref. simpl. rewrite He. simpl. eexists. split; [done |].
  unfold nxt, prv, pay. split_and!; intros n; destruct (decide (n = a)) as [-> |];
    rewrite ?lookup_insert_eq, ?lookup_insert_ne by done; by rewrite ?He.
Qed.

Lemma is_Some_pay h h' a : (forall n, pay h' n = pay h n) -> is_Some (h !! a) -> is_Some (h' !! a).
Proof.
  intros H [e He]. specialize (H a). unfold pay in H. rewrite He in H.
  by destruct (h' !! a) eqn:E.
Qed.

Lemma deref_done h a : is_Some (h !! a) -> exists e, deref h (Some a) = Done (a, e) /\
  next e = nxt h a /\ prev e = prv h a.
Proof. intros [e He]. exists e. unfold deref, nxt, prv. simpl. by rewrite He. Qed.

Lemma linked_app h p a q : linked h (p ++ a :: q) <-> linked h (p ++ [a]) /\ linked h (a :: q).
Proof.
  induction p as [| x p IH]; simpl; [by destruct q; simpl; tauto |].
  destruct p as [| y p]; simpl in *; [destruct q; tauto |]. tauto.
Qed.

(** A path survives when no [next] of a non-final and no [prev] of a
    non-initial node changes. *)
Lemma linked_frame h h' a p :
  (forall n, n ∈ a :: p -> last (a :: p) <> Some n -> nxt h' n = nxt h n) ->
  (forall n, n ∈ p -> prv h' n = prv h n) -> NoDup (a :: p) ->
  linked h (a :: p) -> linked h' (a :: p).
Proof.
  revert a. induction p as [| b p IH]; intros a Hn Hp Hnd Hl; [done |].
  apply NoDup_cons in Hnd as [Ha Hnd]. destruct Hl as (H1 & H2 & Hl). split_and!.
  - rewrite Hn; [done | apply list_elem_of_here |].
    intros E. apply Ha. apply last_Some_elem_of. by rewrite <- E.
  - rewrite Hp; [done | apply list_elem_of_here].
  - apply IH; [| | done | done].
    + intros n Hin Hlast. apply Hn; [by apply list_elem_of_further | by destruct p].
    + intros n Hin. apply Hp. by apply list_elem_of_further.
Qed.

Lemma nxt_alloc h a b : nxt h a = Some b -> is_Some (h !! a).
Proof. unfold nxt. by destruct (h !! a). Qed.
Lemma prv_alloc h a b : prv h a = Some b -> is_Some (h !! a).
Proof. unfold prv. by destruct (h !! a). Qed.

(** [detach] takes an inner node out of the path. *)
Lemma detach_node_ok h pre a x b suf :
  linked h (pre ++ a :: x :: b :: suf) -> NoDup (pre ++ a :: x :: b :: suf) ->
  exists h', detach_node x h = Done h' /\ linked h' (pre ++ a :: b :: suf) /\
    (forall n, pay h' n = pay h n).
Proof.
  intros Hl Hnd. apply linked_app in Hl as [Hpre (Hax & Hxa & Hxb & Hbx & Hsuf)].
  apply NoDup_app in Hnd as (Hnd1 & Hdis & Hnd2).
  apply NoDup_cons in Hnd2 as [Ha Hnd2]. apply NoDup_cons in Hnd2 as [Hx Hnd2].
  assert (x <> a) as Hxa' by set_solver. assert (a <> b) as Hab by set_solver.
  destruct (deref_done h x (nxt_alloc _ _ _ Hxb)) as (n & Hd & Hn & Hp).
  unfold detach_node. rewrite Hd. simpl. rewrite Hn, Hp, Hxa, Hxb.
  destruct (set_next_ok h a (Some b) (nxt_alloc _ _ _ Hax)) as (h1 & -> & N1 & P1 & Y1). simpl.
  destruct (deref_done h1 x) as (n1 & Hd1 & Hn1 & Hp1).
  { apply (is_Some_pay h); [done | by eapply nxt_alloc]. }
  rewrite Hd1. simpl. rewrite Hn1, Hp1, N1, P1, Hxa, Hxb, decide_False by done.
  destruct (set_prev_ok h1 b (Some a)) as (h2 & -> & N2 & P2 & Y2).
  { apply (is_Some_pay h); [done | by eapply prv_alloc]. }
  exists h2. split; [done |]. split; [| intros m; by rewrite Y2, Y1].
  apply NoDup_cons in Hnd2 as [Hbs Hnd2].
  apply linked_app. split.
  - destruct pre as [| y pre]; [done |]. simpl. eapply linked_frame; [| | | exact Hpre].
    + intros m Hm Hlast. rewrite N2, N1, decide_False; [done |]. intros ->. apply Hlast.
      change (y :: pre ++ [a]) with ((y :: pre) ++ [a]). by rewrite last_snoc.
    + intros m Hm. rewrite P2, P1, decide_False; [done |]. intros ->.
      apply elem_of_app in Hm as [Hm | Hm].
      * apply (Hdis b); [by apply list_elem_of_further | set_solver].
      * set_solver.
    + change (NoDup ((y :: pre) ++ [a])). apply NoDup_app. split_and!; [done | | apply NoDup_singleton].
      intros m Hm Hin. apply (Hdis m Hm). set_solver.
  - change (nxt h2 a = Some b /\ prv h2 b = Some a /\ linked h2 (b :: suf)). split_and!.
    + rewrite N2, N1. by rewrite decide_True.
    + rewrite P2. by rewrite decide_True.
    + eapply linked_frame; [| | by constructor | exact Hsuf].
      * intros m Hm _. rewrite N2, N1, decide_False; [done | set_solver].
      * intros m Hm. rewrite P2, P1, decide_False; [done | set_solver].
Qed.

(** [attach] puts a node right behind the head sentinel. *)
Lemma attach_node_ok h hd x b suf :
  linked h (hd :: b :: suf) -> NoDup (hd :: x :: b :: suf) -> is_Some (h !! x) ->
  exists h', attach_node hd x h = Done h' /\ linked h' (hd :: x :: b :: suf) /\
    (forall n, pay h' n = pay h n).
Proof.
  intros (Hhb & Hbh & Hsuf) Hnd Hx. apply NoDup_cons in Hnd as [Hh Hnd].
  apply NoDup_cons in Hnd as [Hxn Hnd].
  assert (x <> hd) as Hxh by set_solver. assert (hd <> b) as Hhb' by set_solver.
  assert (x <> b) as Hxb by set_solver.
  destruct (deref_done h hd (nxt_alloc _ _ _ Hhb)) as (e & Hd & Hn & _).
  unfold attach_node. rewrite Hd. simpl. rewrite Hn, Hhb.
  destruct (set_next_ok h x (Some b) Hx) as (h1 & -> & N1 & P1 & Y1). simpl.
  destruct (set_prev_ok h1 x (Some hd)) as (h2 & -> & N2 & P2 & Y2);
    [by apply (is_Some_pay h) |]. simpl.
  destruct (set_next_ok h2 hd (Some x)) as (h3 & -> & N3 & P3 & Y3).
  { apply (is_Some_pay h); [intros m; by rewrite Y2 | by eapply nxt_alloc]. }
  simpl. destruct (deref_done h3 x) as (n & Hd3 & Hn3 & _).
  { apply (is_Some_pay h); [intros m; by rewrite Y3, Y2 | done]. }
  rewrite Hd3. simpl. rewrite Hn3, N3, N2, N1, decide_False, decide_True by done.
  destruct (set_prev_ok h3 b (Some x)) as (h4 & -> & N4 & P4 & Y4).
  { apply (is_Some_pay h); [intros m; by rewrite Y3, Y2 | by eapply prv_alloc]. }
  exists h4. split; [done |]. split; [| intros m; by rewrite Y4, Y3, Y2, Y1].
  change (nxt h4 hd = Some x /\ prv h4 x = Some hd /\ nxt h4 x = Some b /\ prv h4 b = Some x /\
          linked h4 (b :: suf)). split_and!.
  - by rewrite N4, N3, decide_True.
  - by rewrite P4, P3, P2, decide_False, decide_True.
  - by rewrite N4, N3, N2, N1, decide_False, decide_True.
  - by rewrite P4, decide_True.
  - apply NoDup_cons in Hnd as [Hbs Hnd]. eapply linked_frame; [| | by constructor | exact Hsuf].
    + intros m Hm _. rewrite N4, N3, N2, N1, !decide_False; [done | set_solver..].
    + intros m Hm. rewrite P4, P3, P2, P1, !decide_False; [done | set_solver..].
Qed.

(** ** The tables kept on such a list

    Both classes pair the list with a hash table from (page, pid) to entry and
    a stack of free entries; [m_free_entries] is kept with its [back()] first.
    [key] is the pair the table is indexed by, [blank] the payload of an unused
    entry. *)
Context (key : P -> Z * Z) (blank : P).

Record lru := mk_lru {
  m_table : gmap (Z * Z) nat;
  m_free_entries : list nat;
  m_head : nat;
  m_tail : nat;
  mem : heap
}.

Definition with_mem (h : heap) (st : lru) : lru :=
  mk_lru (m_table st) (m_free_entries st) (m_head st) (m_tail st) h.
Definition with_table (t : gmap (Z * Z) nat) (st : lru) : lru :=
  mk_lru t (m_free_entries st) (m_head st) (m_tail st) (mem st).

(** The constructors: [max] blank entries on the free stack and two linked
    sentinels. [junk] is what the allocation leaves in the fields that the
    constructors do not write. *)
Definition lru_new (max : nat) (junk : nat -> Entry) : lru :=
  mk_lru ∅ (reverse (seq 0 max)) max (S max)
    (<[max := mk_entry (payload (junk max)) None (Some (S max))]>
     (<[S max := mk_entry (payload (junk (S max))) (Some max) None]>
      (list_to_map ((fun i => (i, mk_entry blank (prev (junk i)) (next (junk i)))) <$> seq 0 max)))).

(** [unordered_map::emplace] leaves an existing binding alone. *)
Definition emplace (k : Z * Z) (a : nat) (t : gmap (Z * Z) nat) : gmap (Z * Z) nat :=
  match t !! k with Some _ => t | None => <[k := a]> t end.

Definition move_to_front (node : nat) (st : lru) : outcome lru :=
  h1 ← detach_node node (mem st);
  h2 ← attach_node (m_head st) node h1;
  mret (with_mem h2 st).

(** [update]: look the key up, assert it is there, move it to the MRU end. *)
Definition lru_touch (k : Z * Z) (st : lru) : outcome lru :=
  node ← get_or AssertFailed (m_table st !! k);
  move_to_front node st.

(** Fill [node], link it at the MRU end and enter it into the table. *)
Definition place (node : nat) (p : P) (st : lru) : outcome lru :=
  h1 ← set_payload (Some node) p (mem st);
  h2 ← attach_node (m_head st) node h1;
  mret (with_table (emplace (key p) node (m_table st)) (with_mem h2 st)).

(** [insert]: assert the key is new, then take a free entry or the LRU one. *)
Definition lru_insert (p : P) (st : lru) : outcome lru :=
  _ ← ASSERT (bool_decide (m_table st !! key p = None));
  match m_free_entries st with
  | node :: free =>
      place node p (mk_lru (m_table st) free (m_head st) (m_tail st) (mem st))
  | [] =>
      '(_, t) ← deref (mem st) (Some (m_tail st));
      node ← get_or NullDeref (prev t);
      h1 ← detach_node node (mem st);
      '(_, n) ← deref h1 (Some node);
      place node p (with_table (delete (key (payload n)) (m_table st)) (with_mem h1 st))
  end.

(** Unlink [node], blank it and push it on the free stack. *)
Definition release_node (node : nat) (st : lru) : outcome lru :=
  h1 ← detach_node node (mem st);
  h2 ← set_payload (Some node) blank h1;
  mret (mk_lru (m_table st) (node :: m_free_entries st) (m_head st) (m_tail st) h2).

(** ** Abstraction: a most-recently-used-first list of payloads *)

Record on_list (cap : nat) (st : lru) (ns : list nat) (l : list P) : Prop := {
  r_link : linked (mem st) (m_head st :: ns ++ [m_tail st]);
  r_nodup : NoDup (m_head st :: m_tail st :: ns ++ m_free_entries st);
  r_pay : pay (mem st) <$> ns = Some <$> l;
  r_free : Forall (fun a => is_Some (mem st !! a)) (m_free_entries st);
  r_cap : (length ns + length (m_free_entries st) = cap)%nat
}.

Definition lru_ok (cap : nat) (st : lru) (l : list P) : Prop :=
  exists ns, on_list cap st ns l /\ NoDup (key <$> l) /\
    m_table st = list_to_map (zip (key <$> l) ns).


Lemma NoDup_perm {A} (l k : list A) : NoDup l -> l ≡ₚ k -> NoDup k.
Proof. intros H E. by rewrite <- E. Qed.

Lemma on_list_length cap st ns l : on_list cap st ns l -> length ns = length l.
Proof. intros H. rewrite <- (length_fmap (pay (mem st)) ns), (r_pay _ _ _ _ H). apply length_fmap. Qed.

(** Unlinking the node at position [length pre]. *)
Lemma detach_on_list cap st pre a suf l :
  on_list cap st (pre ++ a :: suf) l ->
  exists h, detach_node a (mem st) = Done h /\
    linked h (m_head st :: (pre ++ suf) ++ [m_tail st]) /\ (forall n, pay h n = pay (mem st) n).
Proof.
  intros H. pose proof (r_link _ _ _ _ H) as Hl. pose proof (r_nodup _ _ _ _ H) as Hnd.
  assert (NoDup (m_head st :: (pre ++ a :: suf) ++ [m_tail st])) as Hn.
  { apply (NoDup_app _ (m_free_entries st)). apply (NoDup_perm _ _ Hnd). solve_Permutation. }
  assert (exists p0 a0 b0 s0, m_head st :: (pre ++ a :: suf) ++ [m_tail st] = p0 ++ a0 :: a :: b0 :: s0 /\
    m_head st :: (pre ++ suf) ++ [m_tail st] = p0 ++ a0 :: b0 :: s0) as (p0 & a0 & b0 & s0 & E1 & E2).
  { assert (exists p0 a0, m_head st :: pre = p0 ++ [a0]) as (p0 & a0 & E).
    { destruct (exists_last (l := m_head st :: pre)) as (p0 & a0 & E); [done |]. eauto. }
    assert (exists b0 s0, suf ++ [m_tail st] = b0 :: s0) as (b0 & s0 & E').
    { destruct suf; simpl; eauto. }
    exists p0, a0, b0, s0. split.
    - change (a0 :: a :: b0 :: s0) with ([a0] ++ a :: (b0 :: s0)).
      rewrite <- E', app_assoc, <- E. simpl. by rewrite <- !app_assoc.
    - change (a0 :: b0 :: s0) with ([a0] ++ (b0 :: s0)).
      rewrite <- E', app_assoc, <- E. simpl. by rewrite <- !app_assoc. }
  rewrite E1 in Hl, Hn. rewrite E2. by apply detach_node_ok.
Qed.

(** Linking a node that is not on the list behind the head. *)
Lemma attach_on_list h hd tl a ns :
  linked h (hd :: ns ++ [tl]) -> NoDup (hd :: a :: ns ++ [tl]) -> is_Some (h !! a) ->
  exists h', attach_node hd a h = Done h' /\ linked h' (hd :: (a :: ns) ++ [tl]) /\
    (forall n, pay h' n = pay h n).
Proof.
  intros Hl Hnd Ha. assert (exists b0 s0, ns ++ [tl] = b0 :: s0) as (b0 & s0 & E).
  { destruct ns; simpl; eauto. }
  simpl. rewrite E in *. by apply attach_node_ok.
Qed.

Lemma pay_ext h h' (ns : list nat) :
  (forall n, n ∈ ns -> pay h' n = pay h n) -> pay h' <$> ns = pay h <$> ns.
Proof. intros H. apply list_fmap_ext. intros i x Hx. apply H. by eapply list_elem_of_lookup_2. Qed.

Lemma is_Some_pay_iff h a : is_Some (pay h a) <-> is_Some (h !! a).
Proof. unfold pay. destruct (h !! a); simpl; split; intros [? ?]; eauto; done. Qed.

(** Moving a node to the front of the list moves its payload to the front. *)
Lemma move_on_list cap st pre a suf lp p ls :
  on_list cap st (pre ++ a :: suf) (lp ++ p :: ls) -> length pre = length lp ->
  exists st', move_to_front a st = Done st' /\ on_list cap st' (a :: pre ++ suf) (p :: lp ++ ls) /\
    m_table st' = m_table st.
Proof.
  intros H Hlen. destruct (detach_on_list _ _ _ _ _ _ H) as (h1 & E1 & L1 & Y1).
  pose proof (r_nodup _ _ _ _ H) as Hnd. pose proof (r_pay _ _ _ _ H) as Hp.
  rewrite !fmap_app, !fmap_cons in Hp. apply app_inj_1 in Hp as [Hp1 Hp2]; [| by rewrite !length_fmap].
  injection Hp2 as Hpa Hp2.
  destruct (attach_on_list h1 (m_head st) (m_tail st) a (pre ++ suf)) as (h2 & E2 & L2 & Y2); [done | | |].
  { apply (NoDup_app _ (m_free_entries st)). apply (NoDup_perm _ _ Hnd). solve_Permutation. }
  { apply is_Some_pay_iff. rewrite Y1, Hpa. eauto. }
  exists (with_mem h2 st). unfold move_to_front. rewrite E1. simpl. rewrite E2. simpl.
  split_and!; [done | | done]. split; simpl; [done | | | |].
  - apply (NoDup_perm _ _ Hnd). solve_Permutation.
  - rewrite (pay_ext (mem st) h2) by (intros; by rewrite Y2, Y1).
    rewrite Y2, Y1, Hpa, !fmap_app. congruence.
  - eapply Forall_impl; [exact (r_free _ _ _ _ H) |]. intros n Hn. simpl in Hn.
    apply is_Some_pay_iff. rewrite Y2, Y1. by apply is_Some_pay_iff.
  - pose proof (r_cap _ _ _ _ H) as Hc. rewrite length_app in Hc |- *. simpl in *.
    rewrite ?length_app. lia.
Qed.

(** Placing a payload into an entry that is off the list. *)
Lemma place_on_list st node p ns l fr cap :
  linked (mem st) (m_head st :: ns ++ [m_tail st]) ->
  NoDup (m_head st :: m_tail st :: (node :: ns) ++ fr) ->
  pay (mem st) <$> ns = Some <$> l -> is_Some (mem st !! node) ->
  Forall (fun a => is_Some (mem st !! a)) fr -> m_free_entries st = fr ->
  (S (length ns) + length fr = cap)%nat ->
  exists st', place node p st = Done st' /\ on_list cap st' (node :: ns) (p :: l) /\
    m_table st' = emplace (key p) node (m_table st).
Proof.
  intros Hl Hnd Hp Hn Hf Hfr Hcap. subst fr.
  destruct (set_payload_ok (mem st) node p Hn) as (h1 & E1 & N1 & P1 & Y1).
  assert (node ∉ ns) as Hni.
  { apply NoDup_cons in Hnd as [_ Hnd]. apply NoDup_cons in Hnd as [_ Hnd].
    apply NoDup_cons in Hnd as [Hni _]. set_solver. }
  assert (NoDup (m_head st :: node :: ns ++ [m_tail st])) as Hnd1.
  { apply (NoDup_app _ (m_free_entries st)). apply (NoDup_perm _ _ Hnd). solve_Permutation. }
  destruct (attach_on_list h1 (m_head st) (m_tail st) node ns) as (h2 & E2 & L2 & Y2).
  { eapply linked_frame; [intros; apply N1 | intros; apply P1 | | exact Hl].
    revert Hnd1. rewrite !NoDup_cons. set_solver. }
  { done. }
  { apply is_Some_pay_iff. rewrite Y1, decide_True by done. eauto. }
  unfold place. rewrite E1. simpl. rewrite E2. simpl. eexists. split_and!; [done | | done].
  split; simpl; [done | done | | | done].
  - rewrite Y2, Y1, decide_True by done. f_equal. etrans; [apply pay_ext | exact Hp].
    intros n Hin. rewrite Y2, Y1, decide_False; [done |]. by intros ->.
  - eapply Forall_impl; [exact Hf |]. intros n Hs. simpl in Hs. apply is_Some_pay_iff.
    rewrite Y2, Y1. destruct (decide _); [eauto | by apply is_Some_pay_iff].
Qed.

(** Unlinking a node and returning it to the free stack. *)
Lemma release_on_list cap st pre a suf lp p ls :
  on_list cap st (pre ++ a :: suf) (lp ++ p :: ls) -> length pre = length lp ->
  exists st', release_node a st = Done st' /\ on_list cap st' (pre ++ suf) (lp ++ ls) /\
    m_table st' = m_table st.
Proof.
  intros H Hlen. destruct (detach_on_list _ _ _ _ _ _ H) as (h1 & E1 & L1 & Y1).
  pose proof (r_nodup _ _ _ _ H) as Hnd. pose proof (r_pay _ _ _ _ H) as Hp.
  rewrite !fmap_app, !fmap_cons in Hp. apply app_inj_1 in Hp as [Hp1 Hp2]; [| by rewrite !length_fmap].
  injection Hp2 as Hpa Hp2.
  destruct (set_payload_ok h1 a blank) as (h2 & E2 & N2 & P2 & Y2).
  { apply is_Some_pay_iff. rewrite Y1, Hpa. eauto. }
  assert (NoDup (a :: m_head st :: m_tail st :: (pre ++ suf) ++ m_free_entries st)) as Hnd1.
  { apply (NoDup_perm _ _ Hnd). solve_Permutation. }
  unfold release_node. rewrite E1. simpl. rewrite E2. simpl. eexists. split_and!; [done | | done].
  split; simpl.
  - eapply linked_frame; [intros; apply N2 | intros; apply P2 | | exact L1].
    apply (NoDup_app _ (a :: m_free_entries st)). apply (NoDup_perm _ _ Hnd). solve_Permutation.
  - apply (NoDup_perm _ _ Hnd). solve_Permutation.
  - rewrite (pay_ext (mem st) h2), !fmap_app; [congruence |].
    intros n Hin. rewrite Y2, Y1, decide_False; [done |]. intros ->.
    apply NoDup_cons in Hnd1 as [Hni _]. apply Hni. set_solver.
  - assert (forall n, is_Some (mem st !! n) -> is_Some (h2 !! n)) as Hkeep.
    { intros n Hn. apply is_Some_pay_iff. rewrite Y2, Y1.
      destruct (decide _); [eauto | by apply is_Some_pay_iff]. }
    constructor; [| by eapply Forall_impl; [exact (r_free _ _ _ _ H) |]].
    apply Hkeep, is_Some_pay_iff. rewrite Hpa. eauto.
  - pose proof (r_cap _ _ _ _ H) as Hc. rewrite length_app in Hc |- *. simpl in *. lia.
Qed.

(** The table seen through the list. *)
Lemma table_perm (ks ks' : list (Z * Z)) (ns ns' : list nat) :
  NoDup ks -> length ks = length ns -> zip ks ns ≡ₚ zip ks' ns' ->
  (list_to_map (zip ks ns) : gmap (Z * Z) nat) = list_to_map (zip ks' ns').
Proof.
  intros Hnd Hlen Hp. apply list_to_map_proper; [| done]. rewrite fst_zip; [done | lia].
Qed.

Lemma table_lookup (l : list P) (ns : list nat) k a :
  NoDup (key <$> l) -> length ns = length l ->
  (list_to_map (zip (key <$> l) ns) : gmap (Z * Z) nat) !! k = Some a <->
  (k, a) ∈ zip (key <$> l) ns.
Proof.
  intros Hnd Hlen. symmetry. apply elem_of_list_to_map. by rewrite fst_zip by (rewrite length_fmap; lia).
Qed.

Lemma table_miss (l : list P) (ns : list nat) k : length ns = length l ->
  (list_to_map (zip (key <$> l) ns) : gmap (Z * Z) nat) !! k = None <-> k ∉ key <$> l.
Proof.
  intros Hlen. rewrite <- not_elem_of_list_to_map.
  by rewrite fst_zip by (rewrite length_fmap; lia).
Qed.

Lemma zip_middle {A B} (lp : list A) p ls (pre : list B) a suf :
  length pre = length lp -> zip (lp ++ p :: ls) (pre ++ a :: suf) = zip lp pre ++ (p, a) :: zip ls suf.
Proof. intros H. by rewrite zip_with_app by done. Qed.

Lemma split_like {A B} (ns : list B) (lp : list A) p ls : length ns = length (lp ++ p :: ls) ->
  exists pre a suf, ns = pre ++ a :: suf /\ length pre = length lp.
Proof.
  rewrite length_app. simpl. intros H.
  destruct (lookup_lt_is_Some_2 ns (length lp)) as [a Ha]; [lia |].
  exists (take (length lp) ns), a, (drop (S (length lp)) ns). split.
  - by rewrite take_drop_middle.
  - rewrite length_take. lia.
Qed.

Lemma key_unique (lp : list P) p ls : NoDup (key <$> (lp ++ p :: ls)) ->
  NoDup (key <$> (p :: lp ++ ls)) /\ NoDup (key <$> (lp ++ ls)) /\ key p ∉ key <$> (lp ++ ls).
Proof.
  intros H. assert (NoDup (key <$> (p :: lp ++ ls))) as H1.
  { apply (NoDup_perm _ _ H), fmap_Permutation. solve_Permutation. }
  split; [done |]. rewrite fmap_cons in H1. by apply NoDup_cons in H1 as [? ?].
Qed.

(** ** Refinement: the operations on the most-recently-used-first list *)

(** [lru_touch] moves a present payload to the front; an absent key fails the
    assertion. *)
Lemma lru_touch_ok cap st lp p ls : lru_ok cap st (lp ++ p :: ls) ->
  exists st', lru_touch (key p) st = Done st' /\ lru_ok cap st' (p :: lp ++ ls).
Proof.
  intros (ns & H & Hnd & Ht). pose proof (on_list_length _ _ _ _ H) as Hlen.
  destruct (split_like ns lp p ls Hlen) as (pre & a & suf & -> & Hpre).
  destruct (move_on_list _ _ _ _ _ _ _ _ H Hpre) as (st' & E & H' & Ht').
  assert (m_table st !! key p = Some a) as Hlk.
  { rewrite Ht. apply table_lookup; [done.. |]. rewrite fmap_app, fmap_cons, zip_middle by (by rewrite length_fmap).
    set_solver. }
  exists st'. unfold lru_touch. rewrite Hlk. simpl. split; [done |].
  exists (a :: pre ++ suf). split_and!; [done | by apply key_unique |].
  rewrite Ht', Ht. apply table_perm; [done | by rewrite length_fmap |].
  rewrite fmap_app, !fmap_cons, fmap_app, zip_middle by (by rewrite length_fmap).
  simpl. rewrite zip_with_app by (by rewrite length_fmap). solve_Permutation.
Qed.

Lemma lru_lookup cap st l k : lru_ok cap st l -> (m_table st !! k = None <-> k ∉ key <$> l).
Proof.
  intros (ns & H & _ & ->). apply table_miss. by eapply on_list_length.
Qed.

Lemma lru_touch_miss cap st l k : lru_ok cap st l -> k ∉ key <$> l ->
  lru_touch k st = Fault AssertFailed.
Proof. intros H Hk. unfold lru_touch. by rewrite (proj2 (lru_lookup _ _ _ _ H) Hk). Qed.

Lemma emplace_fresh (l : list P) (ns : list nat) p a : length ns = length l -> key p ∉ key <$> l ->
  emplace (key p) a (list_to_map (zip (key <$> l) ns)) = list_to_map (zip (key <$> (p :: l)) (a :: ns)).
Proof.
  intros Hlen Hp. unfold emplace. by rewrite (proj2 (table_miss _ _ _ Hlen) Hp).
Qed.

Lemma delete_snoc (l : list ((Z * Z) * nat)) k a : k ∉ l.*1 ->
  delete k (list_to_map (l ++ [(k, a)]) : gmap (Z * Z) nat) = list_to_map l.
Proof.
  intros H. rewrite list_to_map_snoc by done. apply delete_insert_id.
  by apply not_elem_of_list_to_map.
Qed.

Lemma linked_last h p a b : linked h (p ++ [a; b]) -> prv h b = Some a.
Proof. intros H. apply linked_app in H as [_ (_ & H & _)]. done. Qed.

(** [m_tail->prev] is the LRU entry. *)
Lemma last_node cap st pre a l : on_list cap st (pre ++ [a]) l ->
  exists t, deref (mem st) (Some (m_tail st)) = Done (m_tail st, t) /\ prev t = Some a.
Proof.
  intros H. pose proof (r_link _ _ _ _ H) as Hl.
  assert (prv (mem st) (m_tail st) = Some a) as Ha.
  { apply (linked_last _ (m_head st :: pre)). revert Hl. simpl. by rewrite <- app_assoc. }
  destruct (deref_done (mem st) (m_tail st) (prv_alloc _ _ _ Ha)) as (t & E & _ & E').
  exists t. by rewrite E'.
Qed.

Lemma pay_deref h a p : pay h a = Some p -> exists n, deref h (Some a) = Done (a, n) /\ payload n = p.
Proof. unfold pay, deref. simpl. destruct (h !! a) as [e |]; [| done]. intros [= <-]. by exists e. Qed.

(** The eviction branch: the last payload makes room for [p]. *)
Lemma lru_evict_ok cap st pre a lp q p :
  on_list cap st (pre ++ [a]) (lp ++ [q]) -> length pre = length lp -> m_free_entries st = [] ->
  exists t h1 n st', deref (mem st) (Some (m_tail st)) = Done (m_tail st, t) /\ prev t = Some a /\
    detach_node a (mem st) = Done h1 /\ deref h1 (Some a) = Done (a, n) /\ payload n = q /\
    place a p (with_table (delete (key q) (m_table st)) (with_mem h1 st)) = Done st' /\
    on_list cap st' (a :: pre) (p :: lp) /\
    m_table st' = emplace (key p) a (delete (key q) (m_table st)).
Proof.
  intros H Hpre Ef. destruct (last_node cap st pre a (lp ++ [q]) H) as (t & Et & Ept).
  destruct (detach_on_list _ _ _ _ _ _ H) as (h1 & E1 & L1 & Y1).
  rewrite app_nil_r in L1. pose proof (r_pay _ _ _ _ H) as Hp. rewrite !fmap_app in Hp. simpl in Hp.
  apply app_inj_2 in Hp as [Hp1 [= Hpa]]; [| done].
  destruct (pay_deref h1 a q) as (n & En & Epn); [by rewrite Y1 |].
  pose proof (r_nodup _ _ _ _ H) as Hn. rewrite Ef in Hn.
  pose proof (r_cap _ _ _ _ H) as Hc. rewrite Ef, length_app in Hc. simpl in Hc.
  destruct (place_on_list (with_table (delete (key q) (m_table st)) (with_mem h1 st)) a p pre lp [] cap)
    as (st' & E & H' & Ht'); simpl.
  - exact L1.
  - apply (NoDup_perm _ _ Hn). solve_Permutation.
  - etrans; [apply pay_ext; intros; apply Y1 | exact Hp1].
  - apply is_Some_pay_iff. rewrite Y1, Hpa. eauto.
  - constructor.
  - done.
  - lia.
  - by exists t, h1, n, st'.
Qed.

(** The free-entry branch. *)
Lemma lru_fill_ok cap st ns l node fr p : on_list cap st ns l -> m_free_entries st = node :: fr ->
  exists st', place node p (mk_lru (m_table st) fr (m_head st) (m_tail st) (mem st)) = Done st' /\
    on_list cap st' (node :: ns) (p :: l) /\ m_table st' = emplace (key p) node (m_table st).
Proof.
  intros H Ef. pose proof (r_cap _ _ _ _ H) as Hc. pose proof (r_nodup _ _ _ _ H) as Hn.
  pose proof (r_free _ _ _ _ H) as Hf. rewrite Ef in Hc, Hn, Hf. apply Forall_cons in Hf as [Hf1 Hf2].
  simpl in Hc. apply (place_on_list (mk_lru (m_table st) fr (m_head st) (m_tail st) (mem st)) node p ns l fr cap);
    simpl; [exact (r_link _ _ _ _ H) | | exact (r_pay _ _ _ _ H) | done | done | done | lia].
  apply (NoDup_perm _ _ Hn). solve_Permutation.
Qed.

(** [lru_insert] puts a new payload in front and drops the last one when the
    list is full. *)
Lemma lru_insert_ok cap st l p : lru_ok cap st l -> key p ∉ key <$> l -> (0 < cap)%nat ->
  exists st', lru_insert p st = Done st' /\ lru_ok cap st' (p :: take (cap - 1) l).
Proof.
  intros Hok Hk Hcap. pose proof (lru_lookup _ _ _ (key p) Hok) as Hlk.
  destruct Hok as (ns & H & Hnd & Ht). pose proof (on_list_length _ _ _ _ H) as Hlen.
  unfold lru_insert. rewrite bool_decide_true by (by apply Hlk). simpl.
  pose proof (r_cap _ _ _ _ H) as Hc. destruct (m_free_entries st) as [| node fr] eqn:Ef; simpl in Hc.
  - destruct (exists_last (l := ns)) as (pre & a & ->); [by intros ->; simpl in *; lia |].
    destruct (exists_last (l := l)) as (lp & q & ->).
    { intros ->. rewrite length_app in Hlen. simpl in Hlen. lia. }
    rewrite !length_app in Hlen. rewrite length_app in Hc. simpl in Hlen, Hc.
    destruct (lru_evict_ok cap st pre a lp q p H) as (t & h1 & n & st' & -> & E2 & E3 & E4 & E5 & E6 & H' & Ht');
      [lia | done |].
    simpl. rewrite E2. simpl. rewrite E3. simpl. rewrite E4. simpl. rewrite E5, E6.
    exists st'. split; [done |]. rewrite take_app_le, take_ge by lia.
    apply key_unique in Hnd as (Hnd1 & Hnd2 & Hq). rewrite app_nil_r in *. rewrite fmap_app in Hk.
    assert (key p ∉ key <$> lp) as Hk' by set_solver. exists (a :: pre).
    split_and!; [done | rewrite fmap_cons; by constructor |].
    rewrite Ht', Ht, fmap_app, fmap_cons, zip_middle by (rewrite length_fmap; lia).
    rewrite delete_snoc by (by rewrite fst_zip by (rewrite length_fmap; lia)).
    apply emplace_fresh; [lia | done].
  - destruct (lru_fill_ok cap st ns l node fr p H Ef) as (st' & E & H' & Ht').
    exists st'. split; [done |]. rewrite take_ge by lia. exists (node :: ns).
    split_and!; [done | rewrite fmap_cons; by constructor |]. rewrite Ht', Ht. by apply emplace_fresh.
Qed.

Lemma lru_insert_dup cap st l p : lru_ok cap st l -> key p ∈ key <$> l ->
  lru_insert p st = Fault AssertFailed.
Proof.
  intros H Hk. unfold lru_insert. rewrite bool_decide_false; [done |].
  intros E. by apply (lru_lookup _ _ _ _ H) in E.
Qed.

(** Releasing the entry of a present key; the caller erases the key. *)
Lemma lru_release_ok cap st lp p ls : lru_ok cap st (lp ++ p :: ls) ->
  exists a st', m_table st !! key p = Some a /\ pay (mem st) a = Some p /\
    release_node a st = Done st' /\ m_table st' = m_table st /\
    lru_ok cap (with_table (delete (key p) (m_table st')) st') (lp ++ ls).
Proof.
  intros (ns & H & Hnd & Ht). pose proof (on_list_length _ _ _ _ H) as Hlen.
  destruct (split_like ns lp p ls Hlen) as (pre & a & suf & -> & Hpre).
  destruct (release_on_list _ _ _ _ _ _ _ _ H Hpre) as (st' & E & H' & Ht').
  assert (zip (key <$> (lp ++ p :: ls)) (pre ++ a :: suf) ≡ₚ
          zip (key <$> (lp ++ ls)) (pre ++ suf) ++ [(key p, a)]) as Hperm.
  { rewrite fmap_app, !fmap_cons, fmap_app, zip_middle by (by rewrite length_fmap).
    rewrite zip_with_app by (by rewrite length_fmap). solve_Permutation. }
  exists a, st'. split_and!; [| | done | done |].
  - rewrite Ht. apply table_lookup; [done.. |]. rewrite Hperm. set_solver.
  - pose proof (r_pay _ _ _ _ H) as Hp. rewrite !fmap_app in Hp.
    apply app_inj_1 in Hp as [_ Hp]; [| by rewrite !length_fmap]. by injection Hp.
  - destruct (key_unique lp p ls Hnd) as (_ & Hnd' & Hp). exists (pre ++ suf).
    split_and!; [destruct H'; by split | done |]. simpl.
    assert (list_to_map (zip (key <$> (lp ++ p :: ls)) (pre ++ a :: suf)) =
            (list_to_map (zip (key <$> (lp ++ ls)) (pre ++ suf) ++ [(key p, a)]) : gmap (Z * Z) nat)) as Em.
    { apply list_to_map_proper; [| done]. rewrite fst_zip by (rewrite length_fmap; lia). done. }
    rewrite Ht', Ht, Em. apply delete_snoc. rewrite fst_zip; [done |].
    rewrite length_fmap. apply on_list_length in H'. lia.
Qed.

(** The constructor establishes the representation of the empty list. *)
Lemma lru_new_ok max junk : lru_ok max (lru_new max junk) [].
Proof.
  exists []. split_and!; [| constructor | done]. split; simpl.
  - unfold nxt, prv. by rewrite lookup_insert_eq, lookup_insert_ne, lookup_insert_eq by lia.
  - assert (forall n, n ∈ reverse (seq 0 max) -> (n < max)%nat) as Hr.
    { intros n Hn. rewrite elem_of_reverse, elem_of_seq in Hn. lia. }
    apply NoDup_cons. split; [| apply NoDup_cons; split; [| rewrite reverse_Permutation; apply NoDup_seq]].
    + rewrite elem_of_cons. intros [? | ?%Hr]; lia.
    + intros ?%Hr. lia.
  - done.
  - apply Forall_forall. intros n Hn. rewrite elem_of_reverse in Hn.
    apply lookup_insert_is_Some'. right. apply lookup_insert_is_Some'. right.
    apply not_eq_None_Some. intros Hc%not_elem_of_list_to_map. apply Hc.
    rewrite <- list_fmap_compose. by rewrite list_fmap_id.
  - rewrite length_reverse. apply length_seq.
Qed.

End LRU_LIST.
