(* ===== verification/Tlb.v ===== *)
(** * The TLB (tlb.h, tlb.cc)

    A fully associative translation buffer: [LruList] instantiated with page,
    frame and process id. The abstract specification is a most-recently-used
    first list of translations with a capacity; [tlb_refines_mru] relates every
    run of the pointer code to a run of that list. *)

From S2P Require Import Prelude LruList.

Module Tlb.

(** [Entry] without its links. *)
Record PageDescriptor := mk_desc { frame_number : Z; pid : Z }.
Record entry := mk_tlb_entry { page_number : Z; page_desc : PageDescriptor }.

(** [EntryIndex]: the pair the table is keyed by. *)
Definition EntryIndex (e : entry) : Z * Z := (page_number e, pid (page_desc e)).

(** -1 as [Addr] and as [int]. *)
Definition unused : entry := mk_tlb_entry ULLONG_MAX (mk_desc ULLONG_MAX (-1)).

Record TLB := mk_TLB {
  entries : lru (P := entry);
  m_max_entries : Z;
  m_page_size : Z;
  m_offset_bits : Z
}.

(** [n = 0; while ((val >>= 1)) n++;] *)
Fixpoint calc_log2_loop (fuel : nat) (val n : Z) : outcome Z :=
  match fuel with
  | O => Fault Diverged
  | S fuel' => let val' := Z.shiftr val 1 in
               if val' =? 0 then Done n else calc_log2_loop fuel' val' (n + 1)
  end.
Definition calc_log2 (val : Z) : outcome Z := calc_log2_loop 64 val 0.

(** The constructor; [junk] is the content of uninitialised entry fields. *)
Definition TLB_new (junk : nat -> Entry (P := entry)) (num_entries page_size : Z) : outcome TLB :=
  bits ← calc_log2 (u64 page_size);
  mret (mk_TLB (lru_new unused (Z.to_nat num_entries) junk) num_entries page_size bits).

Definition with_entries (l : lru) (t : TLB) : TLB :=
  mk_TLB l (m_max_entries t) (m_page_size t) (m_offset_bits t).

Definition get_page_number (t : TLB) (addr : Z) : Z := Z.shiftr addr (m_offset_bits t).

Definition lookup (t : TLB) (addr id : Z) : bool :=
  bool_decide (is_Some (m_table (entries t) !! (get_page_number t addr, id))).

Definition update (t : TLB) (addr id : Z) : outcome TLB :=
  l ← lru_touch (get_page_number t addr, id) (entries t);
  mret (with_entries l t).

Definition translate (t : TLB) (addr id : Z) : outcome (TLB * Z) :=
  node ← get_or AssertFailed (m_table (entries t) !! (get_page_number t addr, id));
  l ← move_to_front node (entries t);
  '(_, n) ← deref (mem l) (Some node);
  mret (with_entries l t, frame_number (page_desc (payload n))).

Definition insert (t : TLB) (addr frame id : Z) : outcome TLB :=
  l ← lru_insert EntryIndex (mk_tlb_entry (get_page_number t addr) (mk_desc frame id)) (entries t);
  mret (with_entries l t).

Definition invalidate (t : TLB) (page id : Z) : outcome TLB :=
  match m_table (entries t) !! (page, id) with
  | None => mret t
  | Some node =>
      '(_, n) ← deref (mem (entries t)) (Some node);
      _ ← ASSERT (page_number (payload n) =? page);
      l ← release_node unused node (entries t);
      mret (with_entries (with_table (delete (page, id) (m_table l)) l) t)
  end.

(** ** Operations as a script, with what each one returns *)

Inductive op :=
| Lookup (addr id : Z)
| Update (addr id : Z)
| Translate (addr id : Z)
| Insert (addr frame id : Z)
| Invalidate (page id : Z).

Inductive result :=
| RBool (b : bool)
| RFrame (f : Z)
| RUnit.

Definition exec (o : op) (t : TLB) : outcome (TLB * result) :=
  match o with
  | Lookup a i => mret (t, RBool (lookup t a i))
  | Update a i => t' ← update t a i; mret (t', RUnit)
  | Translate a i => '(t', f) ← translate t a i; mret (t', RFrame f)
  | Insert a f i => t' ← insert t a f i; mret (t', RUnit)
  | Invalidate p i => t' ← invalidate t p i; mret (t', RUnit)
  end.

Fixpoint run {S} (step : op -> S -> outcome (S * result)) (ops : list op) (s : S)
    : outcome (S * list result) :=
  match ops with
  | [] => mret (s, [])
  | o :: ops' => '(s1, r) ← step o s; '(s2, rs) ← run step ops' s1; mret (s2, r :: rs)
  end.

(** ** Abstract specification: an MRU-first list of translations *)

Fixpoint take_out (k : Z * Z) (m : list entry) : option (entry * list entry) :=
  match m with
  | [] => None
  | e :: m' => if decide (EntryIndex e = k) then Some (e, m')
               else '(x, r) ← take_out k m'; Some (x, e :: r)
  end.

Definition spec_exec (bits : Z) (cap : nat) (o : op) (m : list entry)
    : outcome (list entry * result) :=
  match o with
  | Lookup a i => mret (m, RBool (bool_decide (is_Some (take_out (Z.shiftr a bits, i) m))))
  | Update a i =>
      '(e, r) ← get_or AssertFailed (take_out (Z.shiftr a bits, i) m); mret (e :: r, RUnit)
  | Translate a i =>
      '(e, r) ← get_or AssertFailed (take_out (Z.shiftr a bits, i) m);
      mret (e :: r, RFrame (frame_number (page_desc e)))
  | Insert a f i =>
      _ ← ASSERT (bool_decide (take_out (Z.shiftr a bits, i) m = None));
      mret (mk_tlb_entry (Z.shiftr a bits) (mk_desc f i) :: take (cap - 1) m, RUnit)
  | Invalidate p i =>
      mret (match take_out (p, i) m with Some (_, r) => r | None => m end, RUnit)
  end.

(** ** Simulation *)

Lemma take_out_Some k m e r : take_out k m = Some (e, r) ->
  exists lp ls, m = lp ++ e :: ls /\ r = lp ++ ls /\ EntryIndex e = k.
Proof.
  revert r. induction m as [| x m IH]; intros r H; [done |]. simpl in H.
  destruct (decide (EntryIndex x = k)) as [E | E].
  - simplify_eq. by exists [], r.
  - destruct (take_out k m) as [[y r'] |] eqn:Et; [| done]. simplify_eq/=.
    destruct (IH r' eq_refl) as (lp & ls & -> & -> & Hk). by exists (x :: lp), ls.
Qed.

Lemma take_out_None k m : take_out k m = None <-> k ∉ EntryIndex <$> m.
Proof.
  induction m as [| x m IH]; cbn [take_out]; [split; [intros _; apply not_elem_of_nil | done] |].
  rewrite fmap_cons, not_elem_of_cons. destruct (decide (EntryIndex x = k)) as [E | E].
  - split; [done |]. intros [? _]. congruence.
  - destruct (take_out k m) as [[y r] |] eqn:Et; simpl.
    + split; [done |]. intros [_ H]. apply IH in H. done.
    + split; [| done]. intros _. split; [congruence | by apply IH].
Qed.

Definition tlb_sim (bits : Z) (cap : nat) (t : TLB) (m : list entry) : Prop :=
  lru_ok EntryIndex cap (entries t) m /\ m_offset_bits t = bits.

(** Two steps agree: same result and related states, or the same fault. *)
Definition agree {A B R} (rel : A -> B -> Prop) (x : outcome (A * R)) (y : outcome (B * R)) : Prop :=
  match x, y with
  | Done (a, r), Done (b, r') => rel a b /\ r = r'
  | Fault f, Fault f' => f = f'
  | _, _ => False
  end.

Lemma move_translate cap l lp e ls : lru_ok EntryIndex cap l (lp ++ e :: ls) ->
  exists node l' n, m_table l !! EntryIndex e = Some node /\ move_to_front node l = Done l' /\
    deref (mem l') (Some node) = Done (node, n) /\ payload n = e /\
    lru_ok EntryIndex cap l' (e :: lp ++ ls).
Proof.
  intros H. destruct (lru_touch_ok EntryIndex cap l lp e ls H) as (l' & E & H').
  unfold lru_touch in E. inv_done. rename a into node. exists node, l'.
  destruct (lru_release_ok EntryIndex unused cap l' [] e (lp ++ ls) H') as (a & _ & Ha & Hp & _).
  assert (m_table l' = m_table l) as Et.
  { unfold move_to_front in E. by inv_done; subst. }
  rewrite Et in Ha. destruct (m_table l !! EntryIndex e); simplify_eq/=.
  destruct (pay_deref _ _ _ Hp) as (n & En & Epn). by exists n.
Qed.

Lemma sim_lookup bits cap t m a i : tlb_sim bits cap t m ->
  lookup t a i = bool_decide (is_Some (take_out (Z.shiftr a bits, i) m)).
Proof.
  intros [H <-]. unfold lookup, get_page_number. apply bool_decide_ext.
  rewrite <- !not_eq_None_Some, take_out_None. by rewrite (lru_lookup _ _ _ _ _ H).
Qed.

Lemma sim_step bits cap t m o : (0 < cap)%nat -> tlb_sim bits cap t m ->
  agree (tlb_sim bits cap) (exec o t) (spec_exec bits cap o m).
Proof.
  intros Hcap [H <-]. destruct o as [a i | a i | a i | a f i | p i]; simpl.
  - split; [done |]. f_equal. by eapply sim_lookup.
  - unfold update, get_page_number. destruct (take_out _ m) as [[e r] |] eqn:Et.
    + apply take_out_Some in Et as (lp & ls & -> & -> & <-).
      destruct (lru_touch_ok _ _ _ _ _ _ H) as (l' & -> & H'). simpl. done.
    + apply take_out_None in Et. by rewrite (lru_touch_miss _ _ _ _ _ H Et).
  - unfold translate, get_page_number. destruct (take_out _ m) as [[e r] |] eqn:Et.
    + apply take_out_Some in Et as (lp & ls & -> & -> & <-).
      destruct (move_translate _ _ _ _ _ H) as (node & l' & n & -> & E & E2 & <- & H'). simpl.
      rewrite E. simpl. rewrite E2. simpl. done.
    + apply take_out_None in Et. by rewrite (proj2 (lru_lookup _ _ _ _ _ H) Et).
  - unfold insert, get_page_number. case_bool_decide as Et; simpl.
    + apply take_out_None in Et.
      destruct (lru_insert_ok EntryIndex cap _ m (mk_tlb_entry (Z.shiftr a (m_offset_bits t)) (mk_desc f i)) H)
        as (l' & -> & H'); [done.. |]. simpl. done.
    + rewrite take_out_None in Et.
      rewrite (lru_insert_dup EntryIndex cap _ m _ H); [done |]. by apply dec_stable.
  - unfold invalidate. destruct (take_out _ m) as [[e r] |] eqn:Et.
    + apply take_out_Some in Et as (lp & ls & -> & -> & Hk).
      destruct (lru_release_ok EntryIndex unused _ _ _ _ _ H) as (node & l' & Hl & Hp & E & Ht & H').
      rewrite Hk in Hl. rewrite Hl. destruct (pay_deref _ _ _ Hp) as (n & -> & <-). simpl.
      injection Hk as <- <-. rewrite Z.eqb_refl. simpl. rewrite E. simpl. done.
    + apply take_out_None in Et. by rewrite (proj2 (lru_lookup _ _ _ _ _ H) Et).
Qed.

Lemma sim_run bits cap ops : forall t m, (0 < cap)%nat -> tlb_sim bits cap t m ->
  agree (tlb_sim bits cap) (run exec ops t) (run (spec_exec bits cap) ops m).
Proof.
  induction ops as [| o ops IH]; intros t m Hcap H; simpl; [done |].
  pose proof (sim_step bits cap t m o Hcap H) as Hs.
  destruct (exec o t) as [[t1 r1] | f], (spec_exec bits cap o m) as [[m1 r1'] | f']; simpl in Hs; try done.
  destruct Hs as [H1 <-]. simpl. specialize (IH t1 m1 Hcap H1).
  destruct (run exec ops t1) as [[t2 r2] | f], (run _ ops m1) as [[m2 r2'] | f']; simpl in *; try done.
  destruct IH as [H2 ->]. done.
Qed.

Lemma calc_log2_ok val : 0 < val < 2 ^ 64 -> calc_log2 val = Done (Z.log2 val).
Proof.
  intros H. unfold calc_log2.
  assert (forall fuel v n, 0 < v < 2 ^ Z.of_nat (S fuel) ->
            calc_log2_loop (S fuel) v n = Done (n + Z.log2 v)) as Hl.
  { induction fuel as [| fuel IH]; intros v n Hv.
    - assert (v = 1) as -> by (simpl in Hv; lia). simpl. f_equal. lia.
    - remember (S fuel) as k. cbn [calc_log2_loop]. cbv zeta.
      assert (Z.shiftr v 1 = v / 2) as Ed by (rewrite Z.shiftr_div_pow2 by lia; done).
      pose proof (Z.log2_shiftr v 1 ltac:(lia)) as Hsh. pose proof (Z.div_mod v 2 ltac:(lia)) as Hdm.
      pose proof (Z.mod_pos_bound v 2 ltac:(lia)) as Hm.
      rewrite Ed in *. destruct (Z.eqb_spec (v / 2) 0) as [E | E].
      + assert (v = 1) as -> by lia. f_equal. simpl. lia.
      + pose proof (Z.log2_le_mono 2 v ltac:(lia)) as Hlog. simpl in Hlog.
        subst k. rewrite IH; [f_equal; lia |].
        rewrite (Nat2Z.inj_succ (S fuel)), Z.pow_succ_r in Hv by lia. lia. }
  rewrite (Hl 63%nat) by (simpl; lia). f_equal.
Qed.

Lemma TLB_new_ok junk n ps : 0 < n -> 0 < ps < 2 ^ 63 ->
  exists t, TLB_new junk n ps = Done t /\ tlb_sim (Z.log2 ps) (Z.to_nat n) t [].
Proof.
  intros Hn Hps. unfold TLB_new. rewrite u64_small by (unfold is_u64; lia).
  rewrite calc_log2_ok by lia. simpl. eexists. split; [done |]. split; [apply lru_new_ok | done].
Qed.

(** An entry sinks by at most one position per operation, unless it is the one
    invalidated. *)
Lemma take_out_sinks k x rest lp e ls : take_out k (lp ++ e :: ls) = Some (x, rest) ->
  (exists lp' ls', x :: rest = lp' ++ e :: ls' /\ (length lp' <= S (length lp))%nat) /\
  (k <> EntryIndex e -> exists lp' ls', rest = lp' ++ e :: ls' /\ (length lp' <= length lp)%nat).
Proof.
  intros (p & q & Hpq & -> & Hk)%take_out_Some.
  destruct (app_eq_inv _ _ _ _ Hpq) as [([| y d] & -> & E) | ([| y d] & -> & E)]; simplify_eq/=.
  - split; [exists [], (p ++ ls); split; [done | simpl; lia] | done].
  - rewrite length_app. simpl.
    split; [exists (y :: p ++ d), ls | intros _; exists (p ++ d), ls];
      simpl; rewrite length_app, <- app_assoc; split; done || lia.
  - split; [exists [], (lp ++ q); rewrite app_nil_r; split; [done | simpl; lia] | done].
  - split; [exists (x :: lp), (d ++ q) | intros _; exists lp, (d ++ q)];
      rewrite <- app_assoc; split; done || (simpl; lia).
Qed.

Lemma spec_sinks bits cap o m' r lp e ls :
  (S (length lp) < cap)%nat -> spec_exec bits cap o (lp ++ e :: ls) = Done (m', r) ->
  o <> Invalidate (page_number e) (pid (page_desc e)) ->
  exists lp' ls', m' = lp' ++ e :: ls' /\ (length lp' <= S (length lp))%nat.
Proof.
  intros Hcap H Ho. destruct o as [a i | a i | a i | a f i | p i]; simpl in H.
  - inv_done. simplify_eq. exists lp, ls. split; [done | lia].
  - destruct (take_out _ _) as [[x rest] |] eqn:Et; simpl in H; inv_done; simplify_eq/=. by apply take_out_sinks in Et as [? _].
  - destruct (take_out _ _) as [[x rest] |] eqn:Et; simpl in H; inv_done; simplify_eq/=. by apply take_out_sinks in Et as [? _].
  - case_bool_decide; simpl in H; inv_done; simplify_eq/=.
    exists (mk_tlb_entry (Z.shiftr a bits) (mk_desc f i) :: lp), (take (cap - 2 - length lp) ls).
    split; [| simpl; lia]. rewrite take_app_ge by lia. simpl. do 2 f_equal.
    replace (cap - 1 - length lp)%nat with (S (cap - 2 - length lp)) by lia. done.
  - destruct (take_out (p, i) _) as [[x rest] |] eqn:Et; simpl in H; inv_done; simplify_eq/=.
    + destruct (take_out_sinks _ _ _ _ _ _ Et) as [_ Hr]. destruct Hr as (lp' & ls' & -> & Hl).
      { intros [= -> ->]. by apply Ho. }
      exists lp', ls'. split; [done | lia].
    + exists lp, ls. split; [done | lia].
Qed.

Lemma run_sinks bits cap ops : forall lp e ls m' rs,
  run (spec_exec bits cap) ops (lp ++ e :: ls) = Done (m', rs) ->
  (length lp + length ops < cap)%nat ->
  Forall (fun o => o <> Invalidate (page_number e) (pid (page_desc e))) ops ->
  exists lp' ls', m' = lp' ++ e :: ls'.
Proof.
  induction ops as [| o ops IH]; intros lp e ls m' rs H Hlen Hf; simpl in *.
  { inv_done. simplify_eq. eauto. }
  apply Forall_cons in Hf as [Ho Hf]. inv_done. destruct a as [m1 r1]. inv_done.
  destruct a as [m2 r2]. inv_done. simplify_eq.
  apply spec_sinks in E as (lp' & ls' & -> & Hl); [| lia | done].
  by apply (IH _ _ _ _ _ E0); [lia |].
Qed.

Lemma run_app {S} (step : op -> S -> outcome (S * result)) ops1 ops2 s s' rs :
  run step (ops1 ++ ops2) s = Done (s', rs) ->
  exists s1 r1 r2, run step ops1 s = Done (s1, r1) /\ run step ops2 s1 = Done (s', r2).
Proof.
  revert s rs. induction ops1 as [| o ops1 IH]; intros s rs H; simpl in *; [by exists s, [], rs |].
  inv_done. destruct a as [s1 r1]. inv_done. destruct a as [s2 r2]. inv_done. simplify_eq.
  destruct (IH _ _ E0) as (s3 & r3 & r4 & H3 & H4). exists s3, (r1 :: r3), r4.
  rewrite E. simpl. by rewrite H3.
Qed.

Section PROPERTIES.
Context (junk : nat -> Entry (P := entry)) (n ps : Z).

(** C13: the TLB implements a fully associative LRU table. Every script of
    lookups, updates, translations, insertions and invalidations started from
    the constructor gives the same results, call by call, as a list of
    translations kept most recently used first and cut to [n] entries, and it
    fails an assertion exactly when the list does (a translation or update of
    an absent page, an insertion of a present one). No pointer operation
    faults, whatever the uninitialised links hold. *)
Theorem tlb_refines_mru (ops : list op) : 0 < n -> 0 < ps < 2 ^ 63 ->
  exists t, TLB_new junk n ps = Done t /\
    agree (tlb_sim (Z.log2 ps) (Z.to_nat n))
      (run exec ops t) (run (spec_exec (Z.log2 ps) (Z.to_nat n)) ops []).
Proof.
  intros Hn Hps. destruct (TLB_new_ok junk n ps Hn Hps) as (t & E & H).
  exists t. split; [done |]. apply sim_run; [lia | done].
Qed.

(** a translation stays in an [n]-entry TLB for at least [n - 1] further
    operations: after any history, an inserted page is found and translates to
    the inserted frame as long as fewer than [n] operations, none of them its
    invalidation, have followed. *)
Theorem tlb_retains_recent (pre ops : list op) addr frame id t t1 rs :
  0 < n -> 0 < ps < 2 ^ 63 -> TLB_new junk n ps = Done t ->
  run exec (pre ++ Insert addr frame id :: ops) t = Done (t1, rs) ->
  Z.of_nat (length ops) < n ->
  Forall (fun o => o <> Invalidate (get_page_number t addr) id) ops ->
  lookup t1 addr id = true /\ exists t2, translate t1 addr id = Done (t2, frame).
Proof.
  intros Hn Hps Et Hr Hlen Hf. destruct (TLB_new_ok junk n ps Hn Hps) as (t0 & E & H).
  rewrite Et in E. injection E as <-.
  pose proof (sim_run _ (Z.to_nat n) (pre ++ Insert addr frame id :: ops) _ _ ltac:(lia) H) as Hs.
  rewrite Hr in Hs. simpl in Hs.
  destruct (run (spec_exec _ _) _ []) as [[m1 rs'] |] eqn:Em; [| done]. destruct Hs as [Hs <-].
  apply run_app in Em as (m0 & r0 & r2 & _ & Em). simpl in Em. inv_done.
  destruct a as [m2 r3]. inv_done. destruct a as [m3 r4]. inv_done. simplify_eq/=.
  destruct H as [_ Hb]. unfold get_page_number in Hf. rewrite Hb in Hf.
  apply (run_sinks _ _ _ []) in E1 as (lp & ls & ->); [| simpl; lia | done].
  destruct Hs as [Hs Hb1].
  destruct (move_translate _ _ _ _ _ Hs) as (node & l' & nd & Hl & Hm & Hd & Hp & _).
  unfold EntryIndex in Hl. simpl in Hl. split.
  - unfold lookup, get_page_number. by rewrite Hb1, Hl, bool_decide_true by eauto.
  - unfold translate, get_page_number. rewrite Hb1, Hl. simpl. rewrite Hm. simpl. rewrite Hd. simpl.
    rewrite Hp. by eexists.
Qed.

End PROPERTIES.

Definition junk0 : nat -> Entry (P := entry) := fun i => mk_entry unused (Some 7%nat) None.

Lemma tlb_refines_mru_witness : exists t, TLB_new junk0 2 4096 = Done t /\
  agree (tlb_sim 12 2) (run exec [Insert 4096 3 0; Insert 8192 4 0; Lookup 4100 0; Translate 4100 0] t)
    (run (spec_exec 12 2) [Insert 4096 3 0; Insert 8192 4 0; Lookup 4100 0; Translate 4100 0] []).
Proof.
  apply (tlb_refines_mru junk0 2 4096 [Insert 4096 3 0; Insert 8192 4 0; Lookup 4100 0; Translate 4100 0]); lia.
Defined.

Lemma retain_run : exists t t1 rs, TLB_new junk0 2 4096 = Done t /\
  run exec ([Insert 4096 3 0; Insert 8192 4 0] ++ [Insert 12288 5 0; Update 8192 0]) t = Done (t1, rs).
Proof. do 3 eexists. split; [vm_compute; reflexivity | vm_compute; reflexivity]. Qed.

Lemma tlb_retains_recent_witness : exists t t1 rs, TLB_new junk0 2 4096 = Done t /\
  run exec ([Insert 4096 3 0; Insert 8192 4 0] ++ [Insert 12288 5 0; Update 8192 0]) t = Done (t1, rs) /\
  lookup t1 12288 0 = true /\ exists t2, translate t1 12288 0 = Done (t2, 5).
Proof.
  destruct retain_run as (t & t1 & rs & Et & Er). exists t, t1, rs.
  split; [exact Et |]. split; [exact Er |].
  apply (tlb_retains_recent junk0 2 4096 [Insert 4096 3 0; Insert 8192 4 0] [Update 8192 0] 12288 5 0 t t1 rs);
    [lia | lia | exact Et | exact Er | simpl; lia |]. constructor; [discriminate | constructor].
Defined.

End Tlb.
