(* ===== verification/Mmu.v ===== *)
(** * The memory management unit (mmu.h, mmu.cc)

    Page table, TLB, page-walk queue, fault buffer and the batch processing of
    page faults. [Repl] is [MMU::ReplacementUnit], [Mmu] the unit itself. The
    micro-operations it suspends are objects of a shared store, referred to by
    address. *)

From S2P Require Import Prelude LruList Tlb.

Module Repl.

(** An entry holds a page and a process id; the table is keyed by both. *)
Abbreviation entry := (Z * Z)%type.
Definition unused : entry := (ULLONG_MAX, -1).
Abbreviation unit_ := (lru (P := entry)).

Definition ReplacementUnit_new (junk : nat -> Entry (P := entry)) (max_entries : Z) : unit_ :=
  lru_new unused (Z.to_nat max_entries) junk.

Definition update (page_number pid : Z) (r : unit_) : outcome unit_ :=
  lru_touch (page_number, pid) r.

Definition insert (page_number pid : Z) (r : unit_) : outcome unit_ :=
  lru_insert (fun e => e) (page_number, pid) r.

(** The key erased from the table is read after the node has been blanked. *)
Definition getVictim (r : unit_) : outcome (unit_ * entry) :=
  '(_, t) ← deref (mem r) (Some (m_tail r));
  node ← get_or NullDeref (prev t);
  '(_, n) ← deref (mem r) (Some node);
  r1 ← release_node unused node r;
  mret (with_table (delete unused (m_table r1)) r1, payload n).

End Repl.

Module Mmu.

Inductive Uop_State :=
| OS_INVALID | OS_FETCHED | OS_ISSUED | OS_SCHEDULED | OS_MISS | OS_WAIT_MEM | OS_DONE | OS_ALLOCATE
| OS_EXEC | OS_MERGED | OS_SCHEDULE | OS_SCHEDULE_DONE | OS_DCACHE_BEGIN | OS_DCACHE_HIT
| OS_DCACHE_ACCESS | OS_DCACHE_PORT_UNAVAILABLE | OS_DCACHE_MEM_ACCESS_DENIED | OS_EXEC_BEGIN
| OS_TRANS_BEGIN | OS_TRANS_WALK_QUEUE | OS_TRANS_RETRY_QUEUE | OS_TRANS_FAULT_RETRY_QUEUE
| OS_TRANS_FAULT_BUFFER | OS_TRANS_DONE | OS_DIMM_BEGIN | OS_DIMM_DONE | OS_CME_BEGIN | OS_CME_DONE.

(** The fields of [uop_c] the unit reads or writes. *)
Record uop_c := mk_uop {
  m_vaddr : Z;
  m_core_id : Z;
  m_thread_id : Z;
  m_uop_num : Z;
  m_parent_uop : option nat;
  m_num_child_uops : Z;
  m_paddr : Z;
  m_state : Uop_State;
  m_translated : bool;
  m_num_page_table_walks : Z;
  m_num_child_uops_done : Z;
  m_done_cycle : Z
}.

Definition set_state (s : Uop_State) (u : uop_c) : uop_c :=
  mk_uop (m_vaddr u) (m_core_id u) (m_thread_id u) (m_uop_num u) (m_parent_uop u)
    (m_num_child_uops u) (m_paddr u) s (m_translated u) (m_num_page_table_walks u)
    (m_num_child_uops_done u) (m_done_cycle u).
Definition set_translated (paddr : Z) (u : uop_c) : uop_c :=
  mk_uop (m_vaddr u) (m_core_id u) (m_thread_id u) (m_uop_num u) (m_parent_uop u)
    (m_num_child_uops u) paddr (m_state u) true (m_num_page_table_walks u)
    (m_num_child_uops_done u) (m_done_cycle u).
Definition set_paddr (paddr : Z) (u : uop_c) : uop_c :=
  mk_uop (m_vaddr u) (m_core_id u) (m_thread_id u) (m_uop_num u) (m_parent_uop u)
    (m_num_child_uops u) paddr (m_state u) (m_translated u) (m_num_page_table_walks u)
    (m_num_child_uops_done u) (m_done_cycle u).
Definition set_walks (n : Z) (u : uop_c) : uop_c :=
  mk_uop (m_vaddr u) (m_core_id u) (m_thread_id u) (m_uop_num u) (m_parent_uop u)
    (m_num_child_uops u) (m_paddr u) (m_state u) (m_translated u) n
    (m_num_child_uops_done u) (m_done_cycle u).
Definition set_children_done (n : Z) (u : uop_c) : uop_c :=
  mk_uop (m_vaddr u) (m_core_id u) (m_thread_id u) (m_uop_num u) (m_parent_uop u)
    (m_num_child_uops u) (m_paddr u) (m_state u) (m_translated u) (m_num_page_table_walks u)
    n (m_done_cycle u).
Definition set_done_cycle (c : Z) (u : uop_c) : uop_c :=
  mk_uop (m_vaddr u) (m_core_id u) (m_thread_id u) (m_uop_num u) (m_parent_uop u)
    (m_num_child_uops u) (m_paddr u) (m_state u) (m_translated u) (m_num_page_table_walks u)
    (m_num_child_uops_done u) c.

(** Knobs and the constants [initialize] derives from them, and the mapping
    from (core, thread) to process of [core_c::m_tid_to_appl_map]. *)
Record config := mk_config {
  m_page_size : Z;
  m_offset_bits : Z;
  m_nonswap : bool;
  m_walk_latency : Z;
  m_fault_latency : Z;
  m_eviction_latency : Z;
  m_batch_processing_overhead : Z;
  m_fault_buffer_size : Z;
  KNOB_FOOL_PAGE_TABLE : bool;
  KNOB_ENABLE_PHYSICAL_MAPPING : bool;
  KNOB_FETCH_ONLY_LOAD_READY : bool;
  m_tid_to_appl_map : gmap (Z * Z) Z
}.

(** The translation structures. Pages of all processes are one map from
    (page, pid) to frame. *)
Record tables := mk_tables {
  m_page_table : gmap (Z * Z) Z;
  m_TLB : Tlb.TLB;
  m_replacement_unit : Repl.unit_;
  m_free_frames : list bool;
  m_free_frames_remaining : Z;
  m_frame_to_allocate : Z;
  m_frame_dimm : Z
}.

(** The queues of suspended micro-operations. [m_walk_queue_cycle] is a
    [std::map]: an association list in the order of its keys. *)
Record queues := mk_queues {
  m_walk_queue_cycle : list (Z * list (Z * Z));
  m_walk_queue_page : gmap (Z * Z) (list nat);
  m_retry_queue : list nat;
  m_fault_retry_queue : list nat;
  m_fault_buffer : gset (Z * Z);
  m_fault_uops : gmap (Z * Z) (list nat)
}.

Record batch := mk_batch {
  m_fault_buffer_processing : list (Z * Z);
  m_fault_uops_processing : gmap (Z * Z) (list nat);
  m_batch_processing : bool;
  m_batch_processing_first_transfer_started : bool;
  m_batch_processing_start_cycle : Z;
  m_batch_processing_transfer_start_cycle : Z;
  m_batch_processing_next_event_cycle : Z
}.

(** What the unit touches outside itself: the micro-operations,
    [core_c::m_per_thread_fault_parent_uops] by (core, thread), the frame
    addresses it had invalidated in the caches and the loads it reported
    ready to the front ends. *)
Record world := mk_world {
  uops : gmap nat uop_c;
  m_per_thread_fault_parent_uops : gmap (Z * Z) (gset Z);
  invalidated : list Z;
  load_ready : list (Z * Z * Z)
}.

Record MMU := mk_MMU {
  m_cycle : Z;
  tab : tables;
  que : queues;
  bat : batch;
  wld : world
}.

Definition with_tab (t : tables) (s : MMU) : MMU := mk_MMU (m_cycle s) t (que s) (bat s) (wld s).
Definition with_que (q : queues) (s : MMU) : MMU := mk_MMU (m_cycle s) (tab s) q (bat s) (wld s).
Definition with_bat (b : batch) (s : MMU) : MMU := mk_MMU (m_cycle s) (tab s) (que s) b (wld s).
Definition with_wld (w : world) (s : MMU) : MMU := mk_MMU (m_cycle s) (tab s) (que s) (bat s) w.

Definition with_tlb (x : Tlb.TLB) (t : tables) : tables :=
  mk_tables (m_page_table t) x (m_replacement_unit t) (m_free_frames t)
    (m_free_frames_remaining t) (m_frame_to_allocate t) (m_frame_dimm t).
Definition with_repl (x : Repl.unit_) (t : tables) : tables :=
  mk_tables (m_page_table t) (m_TLB t) x (m_free_frames t)
    (m_free_frames_remaining t) (m_frame_to_allocate t) (m_frame_dimm t).

Definition with_walk (c : list (Z * list (Z * Z))) (p : gmap (Z * Z) (list nat)) (q : queues) : queues :=
  mk_queues c p (m_retry_queue q) (m_fault_retry_queue q) (m_fault_buffer q) (m_fault_uops q).
Definition with_retry (l : list nat) (q : queues) : queues :=
  mk_queues (m_walk_queue_cycle q) (m_walk_queue_page q) l (m_fault_retry_queue q)
    (m_fault_buffer q) (m_fault_uops q).
Definition with_fault_retry (l : list nat) (q : queues) : queues :=
  mk_queues (m_walk_queue_cycle q) (m_walk_queue_page q) (m_retry_queue q) l
    (m_fault_buffer q) (m_fault_uops q).
Definition with_faults (b : gset (Z * Z)) (f : gmap (Z * Z) (list nat)) (q : queues) : queues :=
  mk_queues (m_walk_queue_cycle q) (m_walk_queue_page q) (m_retry_queue q) (m_fault_retry_queue q) b f.

Definition with_uops (m : gmap nat uop_c) (w : world) : world :=
  mk_world m (m_per_thread_fault_parent_uops w) (invalidated w) (load_ready w).
Definition with_parents (m : gmap (Z * Z) (gset Z)) (w : world) : world :=
  mk_world (uops w) m (invalidated w) (load_ready w).

(** Reading and writing through a [uop_c *]. *)
Definition get_uop (u : nat) (s : MMU) : outcome uop_c := get_or UseAfterFree (uops (wld s) !! u).
Definition put_uop (u : nat) (x : uop_c) (s : MMU) : MMU :=
  with_wld (with_uops (<[u := x]> (uops (wld s))) (wld s)) s.
Definition upd_uop (u : nat) (f : uop_c -> uop_c) (s : MMU) : outcome MMU :=
  x ← get_uop u s; mret (put_uop u (f x) s).

(** [initialize]; [m_cycle] is not set by it and is an argument, as is what
    the allocations leave uninitialised. *)
Definition initialize (cfg : config) (memory_size tlb_entries cycle frame_dimm : Z)
    (tlb_junk : nat -> Entry (P := Tlb.entry)) (repl_junk : nat -> Entry (P := Repl.entry))
    (repl0 : Repl.unit_) : outcome MMU :=
  tlb ← Tlb.TLB_new tlb_junk tlb_entries (m_page_size cfg);
  let frames := Z.shiftr memory_size (m_offset_bits cfg) in
  let t := if m_nonswap cfg
           then mk_tables ∅ tlb repl0 [] (2 ^ 63 - 1) 0 0
           else mk_tables ∅ tlb (Repl.ReplacementUnit_new repl_junk frames)
                  (replicate (Z.to_nat frames) true) frames 0 frame_dimm in
  mret (mk_MMU cycle t (mk_queues [] ∅ [] [] ∅ ∅) (mk_batch [] ∅ false false 0 0 0)
          (mk_world ∅ ∅ [] [])).

Section OPERATIONS.
Context (cfg : config).

(** The iteration order of the hash set [m_fault_buffer]. *)
Context (hash_order : gset (Z * Z) -> list (Z * Z)).

Definition get_page_number (addr : Z) : Z := Z.shiftr addr (m_offset_bits cfg).
Definition get_page_offset (addr : Z) : Z := Z.land addr (m_page_size cfg - 1).
Definition frame_address (frame offset : Z) : Z := Z.lor (shl64 frame (m_offset_bits cfg)) offset.

(** [core_c::get_appl_id]: 0 for an unknown thread. *)
Definition get_appl_id (core tid : Z) : Z := default 0 (m_tid_to_appl_map cfg !! (core, tid)).

Definition get_pid (u : uop_c) : outcome Z :=
  if KNOB_FOOL_PAGE_TABLE cfg then mret (-1) else
  let pid := get_appl_id (m_core_id u) (m_thread_id u) in
  _ ← ASSERT (0 <=? pid); mret pid.

(** [m_walk_queue_cycle.emplace(c, {}); m_walk_queue_cycle[c].emplace_back(w);] *)
Fixpoint emplace_walk (c : Z) (w : Z * Z) (q : list (Z * list (Z * Z))) : list (Z * list (Z * Z)) :=
  match q with
  | [] => [(c, [w])]
  | (c', ws) :: q' =>
      if c <? c' then (c, [w]) :: q
      else if c =? c' then (c', ws ++ [w]) :: q'
      else (c', ws) :: emplace_walk c w q'
  end.

(** [m.emplace(k, {}); m[k].emplace_back(u);] *)
Definition emplace_back (k : Z * Z) (u : nat) (m : gmap (Z * Z) (list nat)) : gmap (Z * Z) (list nat) :=
  <[k := default [] (m !! k) ++ [u]]> m.

(** Apply [f] to the parent's counter of outstanding walks, when there is one. *)
Definition upd_parent_walks (f : Z -> Z) (x : uop_c) (s : MMU) : outcome MMU :=
  match m_parent_uop x with
  | None => mret s
  | Some p => upd_uop p (fun y => set_walks (f (m_num_page_table_walks y)) y) s
  end.

Definition translate (u : nat) (s : MMU) : outcome (MMU * bool) :=
  x ← get_uop u s;
  if m_translated x then mret (s, true) else
  pid ← get_pid x;
  let addr := m_vaddr x in
  let page_number := get_page_number addr in
  if Tlb.lookup (m_TLB (tab s)) addr pid then
    '(tlb, frame) ← Tlb.translate (m_TLB (tab s)) addr pid;
    s1 ← upd_uop u (fun y => set_state OS_TRANS_DONE
                     (set_translated (frame_address frame (get_page_offset addr)) y)) s;
    mret (with_tab (with_tlb tlb (tab s1)) s1, true)
  else
    let q := que s in
    let q1 :=
      match m_walk_queue_page q !! (page_number, pid) with
      | Some l => with_walk (m_walk_queue_cycle q)
                    (<[(page_number, pid) := l ++ [u]]> (m_walk_queue_page q)) q
      | None => with_walk
                  (emplace_walk (u64 (m_cycle s + m_walk_latency cfg)) (page_number, pid)
                     (m_walk_queue_cycle q))
                  (emplace_back (page_number, pid) u (m_walk_queue_page q)) q
      end in
    s1 ← upd_uop u (set_state OS_TRANS_WALK_QUEUE) (with_que q1 s);
    s2 ← upd_parent_walks (fun n => s32 (n + 1)) x s1;
    mret (s2, false).

(** The page-table-hit branch of [do_page_table_walks]. *)
Definition page_table_hit (u : nat) (x : uop_c) (pid frame : Z) (s : MMU) : outcome MMU :=
  let addr := m_vaddr x in
  s1 ← upd_uop u (fun y => set_state OS_TRANS_RETRY_QUEUE
                   (set_translated (frame_address frame (get_page_offset addr)) y)) s;
  s2 ← upd_parent_walks (fun n => if n =? 0 then n else s32 (n - 1)) x s1;
  tlb1 ← (if Tlb.lookup (m_TLB (tab s2)) addr pid then mret (m_TLB (tab s2))
          else Tlb.insert (m_TLB (tab s2)) addr frame pid);
  tlb2 ← Tlb.update tlb1 addr pid;
  r ← (if m_nonswap cfg then mret (m_replacement_unit (tab s2))
       else Repl.update (get_page_number addr) (-1) (m_replacement_unit (tab s2)));
  mret (with_que (with_retry (m_retry_queue (que s2) ++ [u]) (que s2))
          (with_tab (with_repl r (with_tlb tlb2 (tab s2))) s2)).

(** Whether a fault has to wait until the fault buffer drains: its parent has
    no fault in the buffer yet, and the buffer has no room for the page. *)
Definition fault_buffer_full (x p : uop_c) (fault : Z * Z) (s : MMU) : bool :=
  let set := default ∅ (m_per_thread_fault_parent_uops (wld s) !! (m_core_id x, m_thread_id x)) in
  bool_decide (m_uop_num p ∉ set) && bool_decide (fault ∉ m_fault_buffer (que s)) &&
  (u64 (m_fault_buffer_size cfg) <=? Z.of_nat (size (m_fault_buffer (que s)))).

(** [core->m_per_thread_fault_parent_uops.emplace(tid, {})]. *)
Definition emplace_thread (x : uop_c) (s : MMU) : MMU :=
  let k := (m_core_id x, m_thread_id x) in
  let m := m_per_thread_fault_parent_uops (wld s) in
  match m !! k with
  | Some _ => s
  | None => with_wld (with_parents (<[k := ∅]> m) (wld s)) s
  end.

(** The parent's bookkeeping of a buffered fault. *)
Definition note_parent_fault (x : uop_c) (s : MMU) : outcome MMU :=
  match m_parent_uop x with
  | None => mret s
  | Some p =>
      s1 ← upd_uop p (fun y => set_walks (s32 (m_num_page_table_walks y - 1)) y) s;
      y ← get_uop p s1;
      let k := (m_core_id x, m_thread_id x) in
      let m := m_per_thread_fault_parent_uops (wld s1) in
      mret (with_wld (with_parents
              (if m_num_page_table_walks y =? 0 then delete k m
               else <[k := default ∅ (m !! k) ∪ {[m_uop_num y]}]> m) (wld s1)) s1)
  end.

(** Put a fault into the fault buffer. *)
Definition buffer_fault (u : nat) (x : uop_c) (fault : Z * Z) (s : MMU) : outcome MMU :=
  let s1 := with_que (with_faults ({[fault]} ∪ m_fault_buffer (que s))
                        (emplace_back fault u (m_fault_uops (que s))) (que s)) s in
  s2 ← note_parent_fault x s1;
  upd_uop u (set_state OS_TRANS_FAULT_BUFFER) s2.

Definition do_page_table_walks (u : nat) (s : MMU) : outcome MMU :=
  x ← get_uop u s;
  pid ← get_pid x;
  let fault := (get_page_number (m_vaddr x), pid) in
  match m_page_table (tab s) !! fault with
  | Some frame => page_table_hit u x pid frame s
  | None =>
      match m_parent_uop x with
      | None => buffer_fault u x fault s
      | Some p =>
          let s1 := emplace_thread x s in
          y ← get_uop p s1;
          if fault_buffer_full x y fault s1 then
            s2 ← upd_uop u (set_state OS_TRANS_FAULT_RETRY_QUEUE) s1;
            mret (with_que (with_fault_retry (m_fault_retry_queue (que s2) ++ [u]) (que s2)) s2)
          else buffer_fault u x fault s1
      end
  end.

Fixpoint walk_all (us : list nat) (s : MMU) : outcome MMU :=
  match us with
  | [] => mret s
  | u :: us' => s1 ← do_page_table_walks u s; walk_all us' s1
  end.

(** ** Batch processing of page faults *)

(** Swap a page out: the LRU page of the replacement unit loses its
    translation, its cached lines and its frame. *)
Definition evict_page (s : MMU) : outcome MMU :=
  let t := tab s in
  '(r, victim) ← Repl.getVictim (m_replacement_unit t);
  victim_frame ← get_or AssertFailed (m_page_table t !! victim);
  tlb ← Tlb.invalidate (m_TLB t) victim.1 victim.2;
  free ← aset (m_free_frames t) victim_frame true;
  let w := wld s in
  mret (with_wld (mk_world (uops w) (m_per_thread_fault_parent_uops w)
                    (invalidated w ++ [shl64 victim_frame (m_offset_bits cfg)]) (load_ready w))
        (with_tab (mk_tables (delete victim (m_page_table t)) tlb r free
                     (m_free_frames_remaining t + 1) victim_frame (m_frame_dimm t)) s)).

Definition set_next_event (c : Z) (s : MMU) : MMU :=
  let b := bat s in
  with_bat (mk_batch (m_fault_buffer_processing b) (m_fault_uops_processing b) (m_batch_processing b)
    (m_batch_processing_first_transfer_started b) (m_batch_processing_start_cycle b)
    (m_batch_processing_transfer_start_cycle b) c) s.

(** Schedule the next transfer, after an eviction when no frame is free. *)
Definition prepare_transfer (s : MMU) : outcome MMU :=
  if 0 <? m_free_frames_remaining (tab s)
  then mret (set_next_event (u64 (m_cycle s + m_fault_latency cfg)) s)
  else evict_page (set_next_event
                     (u64 (m_cycle s + m_eviction_latency cfg + m_fault_latency cfg)) s).

Definition set_first_transfer_started (s : MMU) : MMU :=
  let b := bat s in
  with_bat (mk_batch (m_fault_buffer_processing b) (m_fault_uops_processing b) (m_batch_processing b)
    true (m_batch_processing_start_cycle b) (m_batch_processing_transfer_start_cycle b)
    (m_batch_processing_next_event_cycle b)) s.

(** [do { f = (f + 1) % size; } while (f != start && !free[f]);] *)
Fixpoint search_free (fuel : nat) (free : list bool) (start f : Z) : outcome Z :=
  match fuel with
  | O => Fault Diverged
  | S fuel' =>
      let f' := (f + 1) mod Z.of_nat (length free) in
      if f' =? start then mret f' else
      b ← aget free f';
      if b : bool then mret f' else search_free fuel' free start f'
  end.

Definition allocate_frame (t : tables) : tables * Z :=
  (mk_tables (m_page_table t) (m_TLB t) (m_replacement_unit t) (m_free_frames t)
     (m_free_frames_remaining t) (m_frame_to_allocate t) (inc64 (m_frame_dimm t)), m_frame_dimm t).

Definition set_frame_to_allocate (f : Z) (t : tables) : tables :=
  mk_tables (m_page_table t) (m_TLB t) (m_replacement_unit t) (m_free_frames t)
    (m_free_frames_remaining t) f (m_frame_dimm t).

(** Choose the frame for the next fault. *)
Definition pick_frame (t : tables) : outcome tables :=
  if m_nonswap cfg then
    let '(t1, f) := allocate_frame t in mret (set_frame_to_allocate f t1)
  else
    b ← aget (m_free_frames t) (m_frame_to_allocate t);
    f ← (if b : bool then mret (m_frame_to_allocate t)
         else search_free (length (m_free_frames t)) (m_free_frames t)
                (m_frame_to_allocate t) (m_frame_to_allocate t));
    b' ← aget (m_free_frames t) f;
    _ ← ASSERT b';
    mret (set_frame_to_allocate f t).

(** Enter (page, frame) into the page table and, when swapping, into the
    replacement unit, which is called with its default process id. *)
Definition map_page (fault : Z * Z) (t : tables) : outcome tables :=
  let frame := m_frame_to_allocate t in
  let pt := match m_page_table t !! fault with
            | Some _ => m_page_table t
            | None => <[fault := frame]> (m_page_table t)
            end in
  if m_nonswap cfg then
    mret (mk_tables pt (m_TLB t) (m_replacement_unit t) (m_free_frames t)
            (m_free_frames_remaining t) (m_frame_to_allocate t) (m_frame_dimm t))
  else
    r ← Repl.insert fault.1 (-1) (m_replacement_unit t);
    free ← aset (m_free_frames t) frame false;
    mret (mk_tables pt (m_TLB t) r free (m_free_frames_remaining t - 1)
            (m_frame_to_allocate t) (m_frame_dimm t)).

(** Move a list of micro-operations to the retry queue. *)
Fixpoint retry_uops (us : list nat) (s : MMU) : outcome MMU :=
  match us with
  | [] => mret s
  | u :: us' =>
      s1 ← upd_uop u (set_state OS_TRANS_RETRY_QUEUE) s;
      retry_uops us' (with_que (with_retry (m_retry_queue (que s1) ++ [u]) (que s1)) s1)
  end.

Definition drop_processed (fault : Z * Z) (s : MMU) : MMU :=
  let b := bat s in
  with_bat (mk_batch (m_fault_buffer_processing b) (delete fault (m_fault_uops_processing b))
    (m_batch_processing b) (m_batch_processing_first_transfer_started b)
    (m_batch_processing_start_cycle b) (m_batch_processing_transfer_start_cycle b)
    (m_batch_processing_next_event_cycle b)) s.

(** Wake the micro-operations of a resolved fault, those of the batch and those
    that faulted on the page since. *)
Definition wake_uops (fault : Z * Z) (s : MMU) : outcome MMU :=
  us ← get_or AssertFailed (m_fault_uops_processing (bat s) !! fault);
  s1 ← retry_uops us s;
  let s2 := drop_processed fault s1 in
  match m_fault_uops (que s2) !! fault with
  | None => mret s2
  | Some us' =>
      s3 ← retry_uops us' s2;
      mret (with_que (with_faults (m_fault_buffer (que s3) ∖ {[fault]})
                        (delete fault (m_fault_uops (que s3))) (que s3)) s3)
  end.

(** [m_fault_buffer_processing.front()] and [pop_front()]; of an empty list
    both are undefined. *)
Definition pop_fault (s : MMU) : outcome (MMU * (Z * Z)) :=
  let b := bat s in
  match m_fault_buffer_processing b with
  | [] => Fault UseAfterFree
  | f :: l => mret (with_bat (mk_batch l (m_fault_uops_processing b) (m_batch_processing b)
                (m_batch_processing_first_transfer_started b) (m_batch_processing_start_cycle b)
                (m_batch_processing_transfer_start_cycle b)
                (m_batch_processing_next_event_cycle b)) s, f)
  end.

Definition end_batch (s : MMU) : MMU :=
  with_bat (mk_batch (m_fault_buffer_processing (bat s)) (m_fault_uops_processing (bat s))
    false false ULLONG_MAX ULLONG_MAX ULLONG_MAX) s.

Definition do_batch_processing (s : MMU) : outcome (MMU * bool) :=
  if m_cycle s <? m_batch_processing_transfer_start_cycle (bat s) then mret (s, false) else
  if negb (m_batch_processing_first_transfer_started (bat s)) then
    s1 ← prepare_transfer s;
    mret (set_first_transfer_started s1, false)
  else
  if m_cycle s <? m_batch_processing_next_event_cycle (bat s) then mret (s, false) else
  _ ← ASSERT (0 <? m_free_frames_remaining (tab s));
  t1 ← pick_frame (tab s);
  '(s1, fault) ← pop_fault (with_tab t1 s);
  t2 ← map_page fault (tab s1);
  s2 ← wake_uops fault (with_tab t2 s1);
  match m_fault_buffer_processing (bat s2) with
  | _ :: _ => s3 ← prepare_transfer s2; mret (s3, false)
  | [] => mret (end_batch s2, true)
  end.

(** [std::list::sort] by [operator<], which compares page numbers only. *)
Fixpoint insert_fault (f : Z * Z) (l : list (Z * Z)) : list (Z * Z) :=
  match l with
  | [] => [f]
  | g :: l' => if g.1 <=? f.1 then g :: insert_fault f l' else f :: l
  end.
Definition sort_faults (l : list (Z * Z)) : list (Z * Z) :=
  foldl (fun acc f => insert_fault f acc) [] l.

Definition begin_batch_processing (s : MMU) : outcome MMU :=
  _ ← ASSERT (negb (m_batch_processing (bat s)));
  mret (with_que (with_faults ∅ ∅ (que s))
    (with_bat (mk_batch
      (sort_faults (m_fault_buffer_processing (bat s) ++ hash_order (m_fault_buffer (que s))))
      (m_fault_uops (que s)) true false (m_cycle s)
      (u64 (m_cycle s + m_batch_processing_overhead cfg)) ULLONG_MAX) s)).

Definition handle_page_faults (s : MMU) : outcome MMU :=
  '(s1, go_on) ← (if m_batch_processing (bat s) then do_batch_processing s else mret (s, true));
  if negb go_on then mret s1
  else if decide (m_fault_buffer (que s1) = ∅) then mret s1
  else begin_batch_processing s1.

(** ** The unit's cycle *)

(** What [memory_c::access] does up to the data cache: a micro-operation whose
    translation is not done returns -1; otherwise the latency is the cache's,
    given by [dcache]. *)
Definition access (dcache : nat -> Z) (u : nat) (s : MMU) : outcome (MMU * Z) :=
  '(s1, ok) ← (if KNOB_ENABLE_PHYSICAL_MAPPING cfg then translate u s
               else s' ← upd_uop u (fun y => set_paddr (m_vaddr y) y) s; mret (s', true));
  if negb ok then mret (s1, -1)
  else s2 ← upd_uop u (set_state OS_DCACHE_BEGIN) s1; mret (s2, dcache u).

Definition note_load_ready (x : uop_c) (s : MMU) : MMU :=
  if KNOB_FETCH_ONLY_LOAD_READY cfg then
    let w := wld s in
    with_wld (mk_world (uops w) (m_per_thread_fault_parent_uops w) (invalidated w)
                (load_ready w ++ [(m_core_id x, m_thread_id x, m_uop_num x)])) s
  else s.

(** A retried access that hits in the cache completes the micro-operation, or
    its parent with the last of the children. [core_cycle] is
    [m_simBase->m_core_cycle]. *)
Definition retry_hit (core_cycle : Z -> Z) (u : nat) (latency : Z) (s : MMU) : outcome MMU :=
  x ← get_uop u s;
  match m_parent_uop x with
  | Some p =>
      s1 ← upd_uop p (fun y => set_children_done (s32 (m_num_child_uops_done y + 1)) y) s;
      y ← get_uop p s1;
      if m_num_child_uops_done y =? m_num_child_uops y then
        upd_uop p (fun z => set_state OS_SCHEDULED
                   (set_done_cycle (u64 (core_cycle (m_core_id x) + 1)) z)) (note_load_ready y s1)
      else mret s1
  | None =>
      upd_uop u (fun z => set_state OS_SCHEDULED
                 (set_done_cycle (u64 (core_cycle (m_core_id x) + latency)) z)) (note_load_ready x s)
  end.

(** The pass over the retry queue; [kept] collects the accesses refused this
    cycle. *)
Fixpoint retry_pass (dcache : nat -> Z) (core_cycle : Z -> Z) (us kept : list nat) (s : MMU)
    : outcome MMU :=
  match us with
  | [] => mret (with_que (with_retry kept (que s)) s)
  | u :: us' =>
      '(s1, latency) ← access dcache u s;
      if latency =? 0 then retry_pass dcache core_cycle us' (kept ++ [u]) s1
      else s2 ← (if 0 <? latency then retry_hit core_cycle u latency s1 else mret s1);
           retry_pass dcache core_cycle us' kept s2
  end.

(** The walks of one cycle's list. *)
Fixpoint walk_pages (ws : list (Z * Z)) (s : MMU) : outcome MMU :=
  match ws with
  | [] => mret s
  | w :: ws' =>
      s1 ← walk_all (default [] (m_walk_queue_page (que s) !! w)) s;
      walk_pages ws' (with_que (with_walk (m_walk_queue_cycle (que s1))
                        (delete w (m_walk_queue_page (que s1))) (que s1)) s1)
  end.

Fixpoint walk_due (q : list (Z * list (Z * Z))) (s : MMU) : outcome MMU :=
  match q with
  | [] => mret s
  | (c, ws) :: q' =>
      if c <=? m_cycle s then
        s1 ← walk_pages ws s;
        walk_due q' (with_que (with_walk q' (m_walk_queue_page (que s1)) (que s1)) s1)
      else mret s
  end.

Definition retry_faults (s : MMU) : outcome MMU :=
  if decide (m_fault_buffer (que s) = ∅)
  then walk_all (m_fault_retry_queue (que s)) (with_que (with_fault_retry [] (que s)) s)
  else mret s.

Definition tick (s : MMU) : MMU := mk_MMU (inc64 (m_cycle s)) (tab s) (que s) (bat s) (wld s).

Definition run_a_cycle (dcache : nat -> Z) (core_cycle : Z -> Z) (pll_lock : bool) (s : MMU)
    : outcome MMU :=
  if pll_lock then mret (tick s) else
  s1 ← retry_pass dcache core_cycle (m_retry_queue (que s)) [] s;
  s2 ← retry_faults s1;
  s3 ← walk_due (m_walk_queue_cycle (que s2)) s2;
  mret (tick s3).

End OPERATIONS.

(** ** Framing: what each step leaves alone *)

Section FACTS.
Context (cfg : config) (hash_order : gset (Z * Z) -> list (Z * Z)).

(** Everything but the micro-operations and the other components. *)
Definition same_core (s s' : MMU) : Prop :=
  m_cycle s' = m_cycle s /\ tab s' = tab s /\ que s' = que s /\ bat s' = bat s.

Lemma same_core_refl s : same_core s s.
Proof. done. Qed.
Lemma same_core_trans s1 s2 s3 : same_core s1 s2 -> same_core s2 s3 -> same_core s1 s3.
Proof. unfold same_core. intuition congruence. Qed.

Lemma upd_uop_core u f s s' : upd_uop u f s = Done s' -> same_core s s'.
Proof. unfold upd_uop. intros H. inv_done. by subst. Qed.

Lemma upd_parent_walks_core f x s s' : upd_parent_walks f x s = Done s' -> same_core s s'.
Proof.
  unfold upd_parent_walks. destruct (m_parent_uop x); [apply upd_uop_core |].
  intros H. inv_done. by subst.
Qed.

Lemma emplace_thread_core x s : same_core s (emplace_thread x s).
Proof. unfold emplace_thread. by destruct (_ !! _). Qed.

Lemma note_parent_fault_core x s s' : note_parent_fault x s = Done s' -> same_core s s'.
Proof.
  unfold note_parent_fault. destruct (m_parent_uop x); intros H; inv_done; subst; [| done].
  eapply same_core_trans; [by eapply upd_uop_core | done].
Qed.

Lemma note_load_ready_core x s : same_core s (note_load_ready cfg x s).
Proof. unfold note_load_ready. by destruct (KNOB_FETCH_ONLY_LOAD_READY cfg). Qed.

Lemma retry_hit_core cc u lat s s' : retry_hit cfg cc u lat s = Done s' -> same_core s s'.
Proof.
  unfold retry_hit. intros H. inv_done. destruct (m_parent_uop a) as [p |].
  - inv_done. eapply same_core_trans; [by eapply upd_uop_core |].
    destruct (_ =? _); [| by inv_done; subst].
    eapply same_core_trans; [apply note_load_ready_core | by eapply upd_uop_core].
  - eapply same_core_trans; [apply note_load_ready_core | by eapply upd_uop_core].
Qed.

(** ** Coherence of the translation structures *)

(** The TLB holds only translations of the page table. *)
Definition tlb_within (cap : nat) (pt : gmap (Z * Z) Z) (x : Tlb.TLB) : Prop :=
  exists m, Tlb.tlb_sim (m_offset_bits cfg) cap x m /\
    forall e, e ∈ m -> pt !! Tlb.EntryIndex e = Some (Tlb.frame_number (Tlb.page_desc e)).

Lemma take_out_in k m e r : Tlb.take_out k m = Some (e, r) ->
  e ∈ m /\ Tlb.EntryIndex e = k /\ (forall x, x ∈ e :: r <-> x ∈ m).
Proof.
  intros (lp & ls & -> & -> & <-)%Tlb.take_out_Some. split_and!; [set_solver | done |].
  intros x. set_solver.
Qed.

Lemma tlb_translate_within cap pt x addr pid x' f : (0 < cap)%nat -> tlb_within cap pt x ->
  Tlb.translate x addr pid = Done (x', f) ->
  pt !! (get_page_number cfg addr, pid) = Some f /\ tlb_within cap pt x'.
Proof.
  intros Hc (m & Hs & Hm) H. pose proof (Tlb.sim_step _ _ _ _ (Tlb.Translate addr pid) Hc Hs) as Ha.
  simpl in Ha. rewrite H in Ha. simpl in Ha.
  destruct (Tlb.take_out _ m) as [[e r] |] eqn:Et; simpl in Ha; [| done].
  destruct Ha as [Hs' [= ->]]. apply take_out_in in Et as (Hin & Hk & Hr). split.
  - unfold get_page_number. rewrite <- Hk. by apply Hm.
  - exists (e :: r). split; [done |]. intros y Hy. by apply Hm, Hr.
Qed.

Lemma tlb_update_within cap pt x addr pid x' : (0 < cap)%nat -> tlb_within cap pt x ->
  Tlb.update x addr pid = Done x' -> tlb_within cap pt x'.
Proof.
  intros Hc (m & Hs & Hm) H. pose proof (Tlb.sim_step _ _ _ _ (Tlb.Update addr pid) Hc Hs) as Ha.
  simpl in Ha. rewrite H in Ha. simpl in Ha.
  destruct (Tlb.take_out _ m) as [[e r] |] eqn:Et; simpl in Ha; [| done].
  destruct Ha as [Hs' _]. apply take_out_in in Et as (Hin & Hk & Hr).
  exists (e :: r). split; [done |]. intros y Hy. by apply Hm, Hr.
Qed.

Lemma tlb_insert_within cap pt x addr f pid x' : (0 < cap)%nat -> tlb_within cap pt x ->
  pt !! (get_page_number cfg addr, pid) = Some f ->
  Tlb.insert x addr f pid = Done x' -> tlb_within cap pt x'.
Proof.
  intros Hc (m & Hs & Hm) Hf H. pose proof (Tlb.sim_step _ _ _ _ (Tlb.Insert addr f pid) Hc Hs) as Ha.
  simpl in Ha. rewrite H in Ha. simpl in Ha.
  case_bool_decide; simpl in Ha; [| done]. destruct Ha as [Hs' _]. eexists. split; [done |].
  intros y [-> | Hy]%elem_of_cons; [exact Hf |]. apply Hm.
  rewrite <- (take_drop (cap - 1) m). apply elem_of_app. by left.
Qed.

Lemma tlb_invalidate_within cap pt x page pid x' : (0 < cap)%nat -> tlb_within cap pt x ->
  Tlb.invalidate x page pid = Done x' -> tlb_within cap (delete (page, pid) pt) x'.
Proof.
  intros Hc (m & Hs & Hm) H.
  pose proof (Tlb.sim_step _ _ _ _ (Tlb.Invalidate page pid) Hc Hs) as Ha.
  simpl in Ha. rewrite H in Ha. simpl in Ha. destruct Ha as [Hs' _].
  eexists. split; [done |]. intros y Hy. destruct (Tlb.take_out (page, pid) m) as [[e r] |] eqn:Et.
  - pose proof Hs as [(ns & _ & Hnd & _) _].
    apply Tlb.take_out_Some in Et as (lp & ls & -> & -> & Hk).
    apply key_unique in Hnd as (_ & _ & Hni). rewrite lookup_delete_ne.
    + apply Hm. set_solver.
    + intros E. apply Hni. rewrite Hk, E. by apply list_elem_of_fmap_2.
  - apply Tlb.take_out_None in Et. rewrite lookup_delete_ne; [by apply Hm |].
    intros E. apply Et. rewrite E. by apply list_elem_of_fmap_2.
Qed.

(** No frame backs two pages, and a mapped frame is never one the allocator
    may hand out. *)
Record tables_ok (cap : nat) (t : tables) : Prop := {
  t_tlb : tlb_within cap (m_page_table t) (m_TLB t);
  t_inj : forall k1 k2 f, m_page_table t !! k1 = Some f -> m_page_table t !! k2 = Some f -> k1 = k2;
  t_used : forall k f, m_page_table t !! k = Some f ->
    0 <= f /\ if m_nonswap cfg then f < m_frame_dimm t else m_free_frames t !! Z.to_nat f = Some false
}.

Context (cap : nat) (Hcap : (0 < cap)%nat).

Lemma tables_ok_tlb t x : tables_ok cap t -> tlb_within cap (m_page_table t) x ->
  tables_ok cap (with_tlb x t).
Proof. intros [] ?. by split. Qed.

Lemma tables_ok_repl t r : tables_ok cap t -> tables_ok cap (with_repl r t).
Proof. intros []. by split. Qed.

(** The frame allocator. [m_frame_dimm] grows by at most one. *)
Definition dimm_le (t t' : tables) : Prop :=
  0 <= m_frame_dimm t -> m_frame_dimm t <= m_frame_dimm t' <= m_frame_dimm t + 1.

Lemma pick_frame_ok t t' : 0 <= m_frame_dimm t < ULLONG_MAX -> tables_ok cap t ->
  pick_frame cfg t = Done t' ->
  tables_ok cap t' /\ dimm_le t t' /\ m_page_table t' = m_page_table t /\
  m_free_frames_remaining t' = m_free_frames_remaining t /\
  (forall k, m_page_table t' !! k <> Some (m_frame_to_allocate t')) /\
  0 <= m_frame_to_allocate t' /\
  (m_nonswap cfg = true -> m_frame_to_allocate t' < m_frame_dimm t').
Proof.
  intros Hd H E. destruct H as [H1 H2 H3]. unfold pick_frame, allocate_frame in E.
  unfold dimm_le. destruct (m_nonswap cfg) eqn:En.
  - inv_done. subst t'. simpl.
    assert (inc64 (m_frame_dimm t) = m_frame_dimm t + 1) as Ei.
    { unfold inc64. apply u64_small. unfold is_u64, ULLONG_MAX in *. lia. }
    rewrite Ei. split_and!; [| lia | done | done | | lia | lia].
    + split; simpl; rewrite ?En; [done | done |].
      intros k f Hf. specialize (H3 k f Hf). lia.
    + intros k Hk. specialize (H3 k _ Hk). lia.
  - inv_done. subst t'. simpl. apply aget_done in E2 as [Hf0 Hf].
    split_and!; [by split; simpl; rewrite ?En | lia | done | done | | done | done].
    intros k Hk. specialize (H3 k _ Hk) as [_ H3]. subst a1. congruence.
Qed.

(** The page table after [emplace]. *)
Definition emplace_page (fault : Z * Z) (frame : Z) (pt : gmap (Z * Z) Z) : gmap (Z * Z) Z :=
  match pt !! fault with Some _ => pt | None => <[fault := frame]> pt end.

Lemma emplace_page_inv fault frame pt k f : emplace_page fault frame pt !! k = Some f ->
  pt !! k = Some f \/ (k = fault /\ f = frame).
Proof.
  unfold emplace_page. destruct (pt !! fault); [by left |].
  intros [[-> ->] | [_ ?]]%lookup_insert_Some; [by right | by left].
Qed.

Lemma emplace_page_keep fault frame pt k f : pt !! k = Some f ->
  emplace_page fault frame pt !! k = Some f.
Proof. unfold emplace_page. destruct (pt !! fault) eqn:E; [done |]. intros. rewrite lookup_insert_ne; congruence. Qed.

Lemma emplace_page_some fault frame pt : is_Some (emplace_page fault frame pt !! fault).
Proof. unfold emplace_page. destruct (pt !! fault) eqn:E; [eauto | rewrite lookup_insert_eq; eauto]. Qed.

Lemma map_page_ok fault t t' : tables_ok cap t ->
  (forall k, m_page_table t !! k <> Some (m_frame_to_allocate t)) -> 0 <= m_frame_to_allocate t ->
  (m_nonswap cfg = true -> m_frame_to_allocate t < m_frame_dimm t) ->
  map_page cfg fault t = Done t' ->
  tables_ok cap t' /\ m_frame_dimm t' = m_frame_dimm t /\
  m_page_table t' = emplace_page fault (m_frame_to_allocate t) (m_page_table t) /\
  (m_nonswap cfg = true -> m_free_frames_remaining t' = m_free_frames_remaining t).
Proof.
  intros [H1 H2 H3] Hnew H0 Hns E.
  assert (tlb_within cap (emplace_page fault (m_frame_to_allocate t) (m_page_table t)) (m_TLB t)) as Htlb.
  { destruct H1 as (m & Hs & Hm). exists m. split; [done |]. intros e He. by apply emplace_page_keep, Hm. }
  assert (forall k1 k2 f, emplace_page fault (m_frame_to_allocate t) (m_page_table t) !! k1 = Some f ->
    emplace_page fault (m_frame_to_allocate t) (m_page_table t) !! k2 = Some f -> k1 = k2) as Hinj.
  { intros k1 k2 f [Ha | [-> ->]]%emplace_page_inv [Hb | [-> Hb]]%emplace_page_inv;
      [by eapply H2 | subst f | | done]; exfalso; by eapply Hnew. }
  unfold map_page in E. fold (emplace_page fault (m_frame_to_allocate t) (m_page_table t)) in E.
  destruct (m_nonswap cfg) eqn:En; inv_done; subst t'; simpl; (split; [split; simpl; rewrite ?En | done]);
    [done | done | | done | done |]; intros k f Hk; apply emplace_page_inv in Hk as [Hk | [-> ->]].
  - by eapply H3.
  - by split; [| apply Hns].
  - pose proof (H3 _ _ Hk) as [Hf0 Hf]. split; [done |]. apply aset_done in E1 as [Hr ->].
    rewrite list_lookup_insert_ne; [done |]. intros E'. apply (Hnew k). rewrite Hk. f_equal. lia.
  - split; [done |]. apply aset_done in E1 as [Hr ->]. apply list_lookup_insert_eq. lia.
Qed.

Lemma evict_page_ok s s' : tables_ok cap (tab s) -> evict_page cfg s = Done s' ->
  tables_ok cap (tab s') /\ m_frame_dimm (tab s') = m_frame_dimm (tab s) /\
  que s' = que s /\ bat s' = bat s /\ m_cycle s' = m_cycle s /\ uops (wld s') = uops (wld s).
Proof.
  intros [H1 H2 H3] E. unfold evict_page in E. inv_done. destruct a as [r [vp vi]]. inv_done.
  subst s'. simpl in *. apply aset_done in E3 as [Hr ->].
  destruct (m_page_table (tab s) !! (vp, vi)) as [vf |] eqn:Ev; [| done]. simpl in E1. inv_done. subst vf.
  split_and!; [split; simpl | done..].
  - by eapply tlb_invalidate_within.
  - intros k1 k2 f [_ ?]%lookup_delete_Some [_ ?]%lookup_delete_Some. by eapply H2.
  - intros k f [Hne Hk]%lookup_delete_Some. pose proof (H3 k f Hk) as [Hf0 Hf]. split; [done |].
    destruct (m_nonswap cfg); [done |]. rewrite list_lookup_insert_ne; [done |].
    intros E'. apply Hne. apply (H2 _ _ f); [| done]. rewrite Ev. f_equal. lia.
Qed.

(** Steps that keep the structures coherent and the page table as it is. *)
Definition keeps (s s' : MMU) : Prop :=
  tables_ok cap (tab s) -> tables_ok cap (tab s') /\
    m_frame_dimm (tab s') = m_frame_dimm (tab s) /\ m_page_table (tab s') = m_page_table (tab s) /\
    m_free_frames_remaining (tab s') = m_free_frames_remaining (tab s).

Lemma keeps_trans s1 s2 s3 : keeps s1 s2 -> keeps s2 s3 -> keeps s1 s3.
Proof.
  intros H1 H2 H. destruct (H1 H) as (Ha & Hb & Hc & Hg). destruct (H2 Ha) as (Hd & He & Hf & Hh).
  split_and!; [done | congruence..].
Qed.

Lemma keeps_tab s s' : tab s' = tab s -> keeps s s'.
Proof. unfold keeps. by intros ->. Qed.

Lemma core_keeps s s' : same_core s s' -> keeps s s'.
Proof. intros (_ & H & _). by apply keeps_tab. Qed.

Lemma translate_keeps u s s' b : translate cfg u s = Done (s', b) -> keeps s s'.
Proof.
  unfold translate. intros H. inv_done. destruct (m_translated a); [by inv_done; simplify_eq |].
  inv_done. destruct (Tlb.lookup _ _ _).
  - inv_done. destruct a1 as [tlb f]. inv_done. simplify_eq.
    match goal with H : upd_uop _ _ _ = Done _ |- _ => apply upd_uop_core in H as (_ & Et & _) end.
    intros Hok. simpl. rewrite Et. split; [| done]. apply tables_ok_tlb; [done |].
    eapply tlb_translate_within; [done | by destruct Hok | done].
  - inv_done. simplify_eq. apply keeps_tab.
    apply upd_uop_core in E1 as (_ & E1 & _). apply upd_parent_walks_core in E2 as (_ & E2 & _).
    by rewrite E2, E1.
Qed.

Lemma page_table_hit_keeps u x pid f s s' :
  m_page_table (tab s) !! (get_page_number cfg (m_vaddr x), pid) = Some f ->
  page_table_hit cfg u x pid f s = Done s' -> keeps s s'.
Proof.
  unfold page_table_hit. intros Hf H Hok. inv_done. subst s'. simpl.
  match goal with H : upd_uop _ _ _ = Done _ |- _ => apply upd_uop_core in H as (_ & Et1 & _) end.
  match goal with H : upd_parent_walks _ _ _ = Done _ |- _ =>
    apply upd_parent_walks_core in H as (_ & Et2 & _) end.
  rewrite Et1 in Et2. rewrite Et2 in *. simpl. split; [| done].
  apply tables_ok_repl, tables_ok_tlb; [done |]. pose proof (t_tlb _ _ Hok) as Hw.
  eapply tlb_update_within; [done | | done].
  destruct (Tlb.lookup _ _ _); inv_done; subst; [done |]. by eapply tlb_insert_within.
Qed.

Lemma buffer_fault_keeps u x fault s s' : buffer_fault u x fault s = Done s' -> keeps s s'.
Proof.
  unfold buffer_fault. intros H. inv_done. apply keeps_tab.
  apply note_parent_fault_core in E as (_ & E & _). apply upd_uop_core in H as (_ & H & _).
  by rewrite H, E.
Qed.

Lemma do_page_table_walks_keeps u s s' : do_page_table_walks cfg u s = Done s' -> keeps s s'.
Proof.
  unfold do_page_table_walks. intros H. inv_done.
  destruct (m_page_table _ !! _) as [f |] eqn:Ef; [by eapply page_table_hit_keeps |].
  destruct (m_parent_uop _) as [p |]; [| by eapply buffer_fault_keeps].
  inv_done. eapply keeps_trans; [apply core_keeps, emplace_thread_core |].
  destruct (fault_buffer_full _ _ _ _ _); [| by eapply buffer_fault_keeps].
  inv_done. subst s'. apply upd_uop_core in E2. by apply core_keeps in E2.
Qed.

Lemma walk_all_keeps us : forall s s', walk_all cfg us s = Done s' -> keeps s s'.
Proof.
  induction us as [| u us IH]; intros s s' H; simpl in H; inv_done; [by subst; apply keeps_tab |].
  eapply keeps_trans; [by eapply do_page_table_walks_keeps | by apply IH].
Qed.

Lemma retry_uops_core us : forall s s', retry_uops us s = Done s' ->
  tab s' = tab s /\ bat s' = bat s /\ m_cycle s' = m_cycle s /\
  que s' = with_retry (m_retry_queue (que s) ++ us) (que s).
Proof.
  induction us as [| u us IH]; intros s s' H; simpl in H; inv_done.
  - subst s'. rewrite app_nil_r. by destruct s as [? ? [] ? ?].
  - apply upd_uop_core in E as (Ec & Et & Eq & Eb).
    apply IH in H as (H1 & H2 & H3 & H4). simpl in *. rewrite Et, Eb, Ec, Eq in *.
    rewrite H4. by rewrite <- app_assoc.
Qed.

Lemma wake_uops_keeps fault s s' : wake_uops fault s = Done s' -> keeps s s'.
Proof.
  unfold wake_uops. intros H. inv_done. apply retry_uops_core in E0 as (Et & _).
  apply keeps_tab. destruct (m_fault_uops _ !! fault) as [us' |]; inv_done; subst s'; [| done].
  match goal with H : retry_uops us' _ = Done _ |- _ => apply retry_uops_core in H as (Et' & _) end.
  simpl in *. congruence.
Qed.

Lemma retry_pass_keeps dc cc us : forall kept s s', retry_pass cfg dc cc us kept s = Done s' -> keeps s s'.
Proof.
  induction us as [| u us IH]; intros kept s s' H; simpl in H; inv_done; [by subst; apply keeps_tab |].
  destruct a as [s1 lat].
  assert (keeps s s1) as Hk.
  { unfold access in E. inv_done. destruct a as [s2 ok].
    eapply keeps_trans with s2.
    - destruct (KNOB_ENABLE_PHYSICAL_MAPPING cfg); [by eapply translate_keeps |].
      inv_done. simplify_eq. by eapply core_keeps, upd_uop_core.
    - destruct ok; simpl in E; inv_done; simplify_eq; [| by apply keeps_tab].
      by eapply core_keeps, upd_uop_core. }
  eapply keeps_trans; [exact Hk |]. destruct (lat =? 0); [by eapply IH |]. inv_done.
  eapply keeps_trans; [| by eapply IH].
  destruct (0 <? lat); [by eapply core_keeps, retry_hit_core | inv_done; subst; by apply keeps_tab].
Qed.

Lemma walk_pages_keeps ws : forall s s', walk_pages cfg ws s = Done s' -> keeps s s'.
Proof.
  induction ws as [| w ws IH]; intros s s' H; simpl in H; inv_done; [by subst; apply keeps_tab |].
  eapply keeps_trans; [by eapply walk_all_keeps |].
  eapply keeps_trans; [| by eapply IH]. by apply keeps_tab.
Qed.

Lemma walk_due_keeps q : forall s s', walk_due cfg q s = Done s' -> keeps s s'.
Proof.
  induction q as [| [c ws] q IH]; intros s s' H; simpl in H; [inv_done; by subst; apply keeps_tab |].
  destruct (c <=? m_cycle s); inv_done; [| by subst; apply keeps_tab].
  eapply keeps_trans; [by eapply walk_pages_keeps |].
  eapply keeps_trans; [| by eapply IH]. by apply keeps_tab.
Qed.

Lemma run_a_cycle_keeps dc cc pll s s' : run_a_cycle cfg dc cc pll s = Done s' -> keeps s s'.
Proof.
  unfold run_a_cycle. destruct pll; intros H; inv_done; subst; [by apply keeps_tab |].
  eapply keeps_trans; [by eapply retry_pass_keeps |].
  eapply keeps_trans with a0; [| eapply keeps_trans; [by eapply walk_due_keeps | by apply keeps_tab]].
  unfold retry_faults in E0. destruct (decide _); [| inv_done; subst; by apply keeps_tab].
  eapply keeps_trans; [| by eapply walk_all_keeps]. by apply keeps_tab.
Qed.

(** What a fault handler guarantees: coherence, at most one new frame, and
    without swapping a page table that only grows. *)
Definition advances (s s' : MMU) : Prop :=
  tables_ok cap (tab s') /\ dimm_le (tab s) (tab s') /\
  (m_nonswap cfg = true -> 0 < m_free_frames_remaining (tab s) ->
     m_page_table (tab s) ⊆ m_page_table (tab s') /\
     m_free_frames_remaining (tab s') = m_free_frames_remaining (tab s)).

Lemma keeps_advances s s' : tables_ok cap (tab s) -> keeps s s' -> advances s s'.
Proof.
  intros H Hk. destruct (Hk H) as (H1 & H2 & H3 & H4). unfold advances, dimm_le.
  rewrite H2, H3, H4. split_and!; [done | lia | done].
Qed.

Lemma prepare_transfer_ok s s' : tables_ok cap (tab s) -> prepare_transfer cfg s = Done s' ->
  advances s s' /\ m_frame_dimm (tab s') = m_frame_dimm (tab s) /\ que s' = que s /\
  m_cycle s' = m_cycle s /\ uops (wld s') = uops (wld s) /\
  m_fault_buffer_processing (bat s') = m_fault_buffer_processing (bat s) /\
  m_fault_uops_processing (bat s') = m_fault_uops_processing (bat s) /\
  m_batch_processing (bat s') = m_batch_processing (bat s) /\
  m_batch_processing_first_transfer_started (bat s') = m_batch_processing_first_transfer_started (bat s).
Proof.
  intros Hok. unfold prepare_transfer. destruct (Z.ltb_spec 0 (m_free_frames_remaining (tab s))); intros E.
  - inv_done. subst s'. split; [| done]. by apply keeps_advances; [| apply keeps_tab].
  - apply evict_page_ok in E as (H1 & H2 & H3 & H4 & H5 & H6); [| done]. simpl in *.
    rewrite H4. split_and!; [| done..]. unfold advances, dimm_le. rewrite H2.
    split_and!; [done | lia | intros; lia].
Qed.

Lemma do_batch_processing_ok s s' b : tables_ok cap (tab s) -> 0 <= m_frame_dimm (tab s) < ULLONG_MAX ->
  do_batch_processing cfg s = Done (s', b) -> advances s s'.
Proof.
  intros Hok Hd. unfold do_batch_processing.
  destruct (m_cycle s <? _); [intros H; inv_done; simplify_eq; by apply keeps_advances, keeps_tab |].
  destruct (m_batch_processing_first_transfer_started (bat s)); simpl negb; cbv iota; cycle 1.
  { intros H. inv_done. simplify_eq. by apply prepare_transfer_ok in E as (H & _). }
  destruct (m_cycle s <? _); [intros H; inv_done; simplify_eq; by apply keeps_advances, keeps_tab |].
  intros H. inv_done. destruct a1 as [s1 fault]. inv_done.
  rename a0 into t1, a into t2, a1 into s2.
  destruct (pick_frame_ok _ _ Hd Hok E0) as (H1 & H2 & H3 & H4 & H5 & H6 & H7).
  assert (tab s1 = t1) as Et1.
  { unfold pop_fault in E1. simpl in E1. destruct (m_fault_buffer_processing _); inv_done. by simplify_eq. }
  rewrite Et1 in *. destruct (map_page_ok _ _ _ H1 H5 H6 H7 E2) as (M1 & M2 & M3 & M4).
  apply wake_uops_keeps in E3. destruct (E3 M1) as (W1 & W2 & W3 & W4). simpl in W2, W3, W4.
  assert (advances s s2) as Ha.
  { unfold advances, dimm_le in *. rewrite W2, M2. split_and!; [done | done |]. intros Hns Hr.
    rewrite W3, M3, W4, M4, H4, H3 by done. split; [| done].
    apply map_subseteq_spec. intros k f. apply emplace_page_keep. }
  destruct (m_fault_buffer_processing (bat s2)); inv_done; simplify_eq; [done |].
  apply prepare_transfer_ok in E4 as ((P1 & P2 & P3) & P4 & _); [| by destruct Ha].
  destruct Ha as (A1 & A2 & A3). unfold advances, dimm_le. rewrite P4. split_and!; [done | done |].
  intros Hns Hr. destruct (A3 Hns Hr) as [A4 A5]. rewrite A5 in P3. destruct (P3 Hns Hr) as [P5 P6].
  split; [by etrans | done].
Qed.

Lemma handle_page_faults_ok s s' : tables_ok cap (tab s) -> 0 <= m_frame_dimm (tab s) < ULLONG_MAX ->
  handle_page_faults cfg hash_order s = Done s' -> advances s s'.
Proof.
  intros Hok Hd H. unfold handle_page_faults in H. inv_done. destruct a as [s1 go].
  assert (advances s s1) as Ha.
  { destruct (m_batch_processing (bat s)); [by eapply do_batch_processing_ok |].
    inv_done. simplify_eq. by apply keeps_advances, keeps_tab. }
  assert (tab s' = tab s1) as Et.
  { destruct go; simpl in H; [| by inv_done; subst]. destruct (decide _); [by inv_done; subst |].
    unfold begin_batch_processing in H. inv_done. by subst. }
  unfold advances. by rewrite Et.
Qed.

(** ** Runs: the events the simulator drives the unit with

    [NewUop] is the core allocating a micro-operation at an address. *)
Inductive event :=
| NewUop (u : nat) (x : uop_c)
| Translate (u : nat)
| HandleFaults
| Cycle (dcache : nat -> Z) (core_cycle : Z -> Z) (pll_lock : bool).

Definition step (e : event) (s : MMU) : outcome MMU :=
  match e with
  | NewUop u x => mret (put_uop u x s)
  | Translate u => '(s', _) ← translate cfg u s; mret s'
  | HandleFaults => handle_page_faults cfg hash_order s
  | Cycle dc cc pll => run_a_cycle cfg dc cc pll s
  end.

Fixpoint steps (es : list event) (s : MMU) : outcome MMU :=
  match es with
  | [] => mret s
  | e :: es' => s1 ← step e s; steps es' s1
  end.

Lemma step_ok e s s' : tables_ok cap (tab s) -> 0 <= m_frame_dimm (tab s) < ULLONG_MAX ->
  step e s = Done s' -> advances s s'.
Proof.
  intros Hok Hd H. destruct e as [u x | u | | dc cc pll]; simpl in H.
  - inv_done. subst. by apply keeps_advances, keeps_tab.
  - inv_done. destruct a as [s1 b]. inv_done. subst. apply keeps_advances; [done |].
    by eapply translate_keeps.
  - by apply handle_page_faults_ok.
  - apply keeps_advances; [done |]. by eapply run_a_cycle_keeps.
Qed.

Lemma steps_ok es : forall s s', tables_ok cap (tab s) -> 0 <= m_frame_dimm (tab s) ->
  m_frame_dimm (tab s) + Z.of_nat (length es) <= ULLONG_MAX -> steps es s = Done s' ->
  tables_ok cap (tab s') /\
  (m_nonswap cfg = true -> 0 < m_free_frames_remaining (tab s) ->
     m_page_table (tab s) ⊆ m_page_table (tab s')).
Proof.
  induction es as [| e es IH]; intros s s' Hok H0 Hd H; simpl in H; inv_done; [by subst |].
  simpl in Hd. destruct (step_ok e s a Hok ltac:(lia) E) as (A1 & A2 & A3). unfold dimm_le in A2.
  destruct (IH a s' A1 ltac:(lia) ltac:(lia) H) as [B1 B2]. split; [done |].
  intros Hns Hr. destruct (A3 Hns Hr) as [A4 A5]. etrans; [exact A4 |]. apply B2; [done | lia].
Qed.

(** A state some run from [initialize] leads to. *)
Definition reachable (s : MMU) : Prop :=
  exists mem n cyc dimm tj rj r0 s0 es,
    cap = Z.to_nat n /\ initialize cfg mem n cyc dimm tj rj r0 = Done s0 /\
    0 <= dimm /\ dimm + Z.of_nat (length es) <= ULLONG_MAX /\ steps es s0 = Done s.

Definition config_ok : Prop :=
  0 < m_page_size cfg < 2 ^ 63 /\ m_page_size cfg = 2 ^ m_offset_bits cfg /\ 0 <= m_offset_bits cfg.

Lemma initialize_ok mem n cyc dimm tj rj r0 s : config_ok -> cap = Z.to_nat n ->
  initialize cfg mem n cyc dimm tj rj r0 = Done s ->
  tables_ok cap (tab s) /\ (m_frame_dimm (tab s) = 0 \/ m_frame_dimm (tab s) = dimm).
Proof.
  intros (Hp1 & Hp2 & Hp3) -> H. unfold initialize in H. inv_done.
  destruct (Tlb.TLB_new_ok tj n (m_page_size cfg)) as (x & Ex & Hx); [lia | lia |].
  rewrite Ex in E. injection E as <-. rewrite Hp2, Z.log2_pow2 in Hx by lia.
  subst s. simpl. destruct (m_nonswap cfg) eqn:En; simpl; (split; [split; simpl | tauto]);
    try (by intros *; rewrite lookup_empty); exists []; (split; [done |]); intros e He;
    by apply not_elem_of_nil in He.
Qed.

Lemma reachable_ok s : config_ok -> reachable s -> tables_ok cap (tab s).
Proof.
  intros Hc (mem & n & cyc & dimm & tj & rj & r0 & s0 & es & Hn & Hi & Hd & Hl & Hs).
  destruct (initialize_ok _ _ _ _ _ _ _ _ Hc Hn Hi) as [Hok Hd0].
  by apply (steps_ok es s0 s Hok ltac:(lia) ltac:(lia) Hs).
Qed.

Lemma lookup_translate t addr pid : tlb_within cap (m_page_table t) (m_TLB t) ->
  Tlb.lookup (m_TLB t) addr pid = true ->
  exists tlb f, Tlb.translate (m_TLB t) addr pid = Done (tlb, f) /\
    m_page_table t !! (get_page_number cfg addr, pid) = Some f.
Proof.
  intros Hw Hl. destruct Hw as (m & Hs & Hm).
  pose proof (Tlb.sim_step _ _ _ _ (Tlb.Translate addr pid) Hcap Hs) as Ha. simpl in Ha.
  rewrite (Tlb.sim_lookup _ _ _ _ _ _ Hs) in Hl. apply bool_decide_eq_true in Hl as [[e r] He].
  rewrite He in Ha. simpl in Ha. destruct (Tlb.translate _ _ _) as [[tlb f] |] eqn:Et; [| done].
  exists tlb, f. split; [done |]. simpl in Ha. destruct Ha as [_ [= ->]].
  apply take_out_in in He as (Hin & Hk & _). unfold get_page_number. rewrite <- Hk. by apply Hm.
Qed.

(** ** Address assembly *)
Lemma frame_address_split frame addr : config_ok -> 0 <= addr -> 0 <= frame < 2 ^ (64 - m_offset_bits cfg) ->
  m_offset_bits cfg <= 64 ->
  frame_address cfg frame (get_page_offset cfg addr) =
  frame * m_page_size cfg + addr mod m_page_size cfg.
Proof.
  intros (Hp1 & Hp2 & Hp3) Ha Hf Hb. unfold frame_address, get_page_offset, shl64.
  rewrite Z.sub_1_r, Hp2, <- Z.ones_equiv, Z.land_ones by lia.
  rewrite u64_small.
  - rewrite lor_shiftl_add; [done | lia |]. apply Z.mod_pos_bound. lia.
  - unfold is_u64. rewrite Z.shiftl_mul_pow2 by lia.
    assert (2 ^ 64 = 2 ^ (64 - m_offset_bits cfg) * 2 ^ m_offset_bits cfg) as ->
      by (rewrite <- Z.pow_add_r by lia; f_equal; lia).
    pose proof (pow2_pos (m_offset_bits cfg) Hp3). nia.
Qed.

(** C1: the translation structures stay coherent in every reachable state. The
    TLB answers only with the frame the page table holds for that page and
    process, no two (page, process) pairs share a frame, and a mapped frame is
    never free: without swapping it lies below the allocation cursor, with
    swapping its free flag is clear. *)
Theorem mmu_coherent s : config_ok -> reachable s ->
  (forall addr pid, Tlb.lookup (m_TLB (tab s)) addr pid = true ->
     exists tlb f, Tlb.translate (m_TLB (tab s)) addr pid = Done (tlb, f) /\
       m_page_table (tab s) !! (get_page_number cfg addr, pid) = Some f) /\
  (forall k1 k2 f, m_page_table (tab s) !! k1 = Some f -> m_page_table (tab s) !! k2 = Some f -> k1 = k2) /\
  (forall k f, m_page_table (tab s) !! k = Some f ->
     if m_nonswap cfg then f < m_frame_dimm (tab s) else m_free_frames (tab s) !! Z.to_nat f = Some false).
Proof.
  intros Hc Hr. destruct (reachable_ok s Hc Hr) as [H1 H2 H3]. split_and!; [| done |].
  - intros addr pid. by apply lookup_translate.
  - intros k f Hk. by apply (H3 k f Hk).
Qed.

(** a translation that completes gives the physical address of the page
    table. In a reachable state, [translate] of a micro-operation that has no
    translation yet answers [true] only with its physical address set to the
    frame of its page, times the page size, plus the offset within the page. *)
Theorem mmu_translates_by_page_table s u x pid s' : config_ok -> reachable s ->
  uops (wld s) !! u = Some x -> m_translated x = false -> get_pid cfg x = Done pid ->
  0 <= m_vaddr x -> m_offset_bits cfg <= 64 ->
  translate cfg u s = Done (s', true) ->
  exists f y, m_page_table (tab s) !! (get_page_number cfg (m_vaddr x), pid) = Some f /\
    uops (wld s') !! u = Some y /\ m_translated y = true /\ m_state y = OS_TRANS_DONE /\
    (0 <= f < 2 ^ (64 - m_offset_bits cfg) ->
       m_paddr y = f * m_page_size cfg + m_vaddr x mod m_page_size cfg).
Proof.
  intros Hc Hr Hu Hx Hp Hv Hb H. pose proof (reachable_ok s Hc Hr) as Hok.
  unfold translate, get_uop in H. rewrite Hu in H. simpl in H. rewrite Hx, Hp in H. simpl in H.
  destruct (Tlb.lookup _ _ _) eqn:El; [| by inv_done; simplify_eq].
  inv_done. destruct a as [tlb f].
  apply tlb_translate_within with (cap := cap) (pt := m_page_table (tab s)) in E as [Hpt _];
    [| done | by destruct Hok].
  unfold upd_uop, get_uop in H. rewrite Hu in H. simpl in H. inv_done. subst s'.
  eexists f, _. split_and!; [done | simpl; apply lookup_insert_eq | done | done |].
  intros Hf. simpl. by apply frame_address_split.
Qed.

(** ** No micro-operation is lost *)

Definition vals (m : gmap (Z * Z) (list nat)) : list nat := concat (map_to_list m).*2.

Lemma vals_empty : vals ∅ = [].
Proof. unfold vals. by rewrite map_to_list_empty. Qed.

Lemma vals_insert k l m : m !! k = None -> vals (<[k := l]> m) ≡ₚ l ++ vals m.
Proof. intros H. unfold vals. by rewrite map_to_list_insert. Qed.

Lemma vals_delete k l m : m !! k = Some l -> vals m ≡ₚ l ++ vals (delete k m).
Proof. intros H. unfold vals. by rewrite <- (map_to_list_delete m k l H). Qed.

Lemma vals_replace k l l' m : m !! k = Some l -> vals (<[k := l']> m) ≡ₚ l' ++ vals (delete k m).
Proof.
  intros H. rewrite <- insert_delete_eq. apply vals_insert. apply lookup_delete_eq.
Qed.

Lemma vals_emplace_back k u m : vals (emplace_back k u m) ≡ₚ u :: vals m.
Proof.
  unfold emplace_back. destruct (m !! k) as [l |] eqn:E; simpl.
  - rewrite (vals_replace _ _ _ _ E), (vals_delete _ _ _ E). solve_Permutation.
  - rewrite vals_insert by done. done.
Qed.

(** The micro-operations the unit holds. *)
Definition queued (q : queues) : list nat :=
  vals (m_walk_queue_page q) ++ m_retry_queue q ++ m_fault_retry_queue q ++ vals (m_fault_uops q).
Definition waiting (s : MMU) : list nat := queued (que s) ++ vals (m_fault_uops_processing (bat s)).

Lemma core_waiting s s' : same_core s s' -> waiting s' = waiting s.
Proof. unfold waiting. by intros (_ & _ & -> & ->). Qed.

Lemma translate_waiting u s s' b : translate cfg u s = Done (s', b) ->
  waiting s' ≡ₚ (if b then [] else [u]) ++ waiting s.
Proof.
  unfold translate. intros H. inv_done. destruct (m_translated a); [by inv_done; simplify_eq |].
  inv_done. destruct (Tlb.lookup _ _ _).
  - inv_done. destruct a1 as [tlb f]. inv_done. simplify_eq.
    match goal with H : upd_uop _ _ _ = Done _ |- _ => apply upd_uop_core, core_waiting in H; rewrite <- H end.
    done.
  - inv_done. simplify_eq. apply upd_uop_core, core_waiting in E1.
    apply upd_parent_walks_core, core_waiting in E2. rewrite E2, E1. unfold waiting, queued. simpl.
    destruct (m_walk_queue_page (que s) !! _) as [l |] eqn:El; simpl.
    + rewrite (vals_replace _ _ _ _ El), (vals_delete _ _ _ El). solve_Permutation.
    + rewrite vals_emplace_back. done.
Qed.

Lemma buffer_fault_waiting u x fault s s' : buffer_fault u x fault s = Done s' ->
  waiting s' ≡ₚ u :: waiting s.
Proof.
  unfold buffer_fault. intros H. inv_done. apply note_parent_fault_core, core_waiting in E.
  apply upd_uop_core, core_waiting in H. rewrite H, E. unfold waiting, queued. simpl.
  rewrite vals_emplace_back. solve_Permutation.
Qed.

Lemma do_page_table_walks_waiting u s s' : do_page_table_walks cfg u s = Done s' ->
  waiting s' ≡ₚ u :: waiting s.
Proof.
  unfold do_page_table_walks. intros H. inv_done.
  destruct (m_page_table _ !! _) as [f |] eqn:Ef.
  - unfold page_table_hit in H. inv_done. subst s'. apply upd_uop_core, core_waiting in E1.
    apply upd_parent_walks_core, core_waiting in E2. rewrite <- E1, <- E2.
    unfold waiting, queued. simpl. solve_Permutation.
  - destruct (m_parent_uop _) as [p |]; [| by eapply buffer_fault_waiting]. inv_done.
    pose proof (core_waiting _ _ (emplace_thread_core a s)) as Ew.
    destruct (fault_buffer_full _ _ _ _ _); [| rewrite <- Ew; by eapply buffer_fault_waiting].
    inv_done. subst s'. apply upd_uop_core, core_waiting in E2. rewrite <- Ew, <- E2.
    unfold waiting, queued. simpl. solve_Permutation.
Qed.

Lemma walk_all_waiting us : forall s s', walk_all cfg us s = Done s' -> waiting s' ≡ₚ us ++ waiting s.
Proof.
  induction us as [| u us IH]; intros s s' H; simpl in H; inv_done; [by subst |].
  rewrite (IH _ _ H), (do_page_table_walks_waiting _ _ _ E). solve_Permutation.
Qed.

(** Page walks leave the walk queues alone. *)
Definition same_walks (s s' : MMU) : Prop :=
  m_walk_queue_page (que s') = m_walk_queue_page (que s) /\
  m_walk_queue_cycle (que s') = m_walk_queue_cycle (que s) /\ m_cycle s' = m_cycle s /\ bat s' = bat s.

Lemma do_page_table_walks_walks u s s' : do_page_table_walks cfg u s = Done s' -> same_walks s s'.
Proof.
  assert (forall x fault s s', buffer_fault u x fault s = Done s' -> same_walks s s') as Hb.
  { unfold buffer_fault. intros x fault s0 s1 H. inv_done.
    apply note_parent_fault_core in E as (E1 & _ & E2 & E3). apply upd_uop_core in H as (H1 & _ & H2 & H3).
    unfold same_walks. rewrite H1, H2, H3, E1, E2, E3. done. }
  unfold do_page_table_walks. intros H. inv_done. destruct (m_page_table _ !! _) as [f |] eqn:Ef.
  - unfold page_table_hit in H. inv_done. subst s'. apply upd_uop_core in E1 as (A1 & _ & A2 & A3).
    apply upd_parent_walks_core in E2 as (B1 & _ & B2 & B3). unfold same_walks. simpl.
    rewrite B1, B2, B3, A1, A2, A3. done.
  - destruct (m_parent_uop _) as [p |]; [| by eapply Hb]. inv_done.
    destruct (emplace_thread_core a s) as (C1 & _ & C2 & C3).
    destruct (fault_buffer_full _ _ _ _ _).
    + inv_done. subst s'. apply upd_uop_core in E2 as (A1 & _ & A2 & A3). unfold same_walks. simpl.
      rewrite A1, A2, A3, C1, C2, C3. done.
    + apply Hb in H. unfold same_walks in *. by rewrite C1, C2, C3 in H.
Qed.

Lemma walk_all_walks us : forall s s', walk_all cfg us s = Done s' -> same_walks s s'.
Proof.
  induction us as [| u us IH]; intros s s' H; simpl in H; inv_done; [by subst |].
  apply do_page_table_walks_walks in E as (A1 & A2 & A3 & A4). apply IH in H as (B1 & B2 & B3 & B4).
  unfold same_walks. split_and!; congruence.
Qed.

Lemma walk_pages_waiting ws : forall s s', walk_pages cfg ws s = Done s' ->
  waiting s' ≡ₚ waiting s /\ m_cycle s' = m_cycle s /\ bat s' = bat s /\
  m_walk_queue_cycle (que s') = m_walk_queue_cycle (que s).
Proof.
  induction ws as [| w ws IH]; intros s s' H; simpl in H; inv_done; [by subst |].
  pose proof (walk_all_waiting _ _ _ E) as Hw. apply walk_all_walks in E as (A1 & A2 & A3 & A4).
  apply IH in H as (B1 & B2 & B3 & B4). simpl in *. split_and!; [| congruence..].
  rewrite B1. unfold waiting, queued in *. simpl. rewrite A1 in *.
  destruct (m_walk_queue_page (que s) !! w) as [l |] eqn:El; simpl in Hw.
  - rewrite (vals_delete _ _ _ El) in Hw at 2 |- *.
    rewrite (vals_delete _ _ _ El) in Hw. rewrite <- !app_assoc in Hw |- *.
    apply (Permutation_app_inv_l l). rewrite Hw. solve_Permutation.
  - by rewrite delete_id.
Qed.

Lemma walk_due_waiting q : forall s s', walk_due cfg q s = Done s' ->
  waiting s' ≡ₚ waiting s /\ bat s' = bat s.
Proof.
  induction q as [| [c ws] q IH]; intros s s' H; simpl in H; [by inv_done; subst |].
  destruct (c <=? m_cycle s); inv_done; [| by subst].
  apply walk_pages_waiting in E as (A1 & A2 & A3 & A4). apply IH in H as [B1 B2].
  split; [| simpl in B2; congruence]. rewrite B1, <- A1. done.
Qed.

Lemma retry_faults_waiting s s' : retry_faults cfg s = Done s' -> waiting s' ≡ₚ waiting s.
Proof.
  unfold retry_faults. destruct (decide _); intros H; [| by inv_done; subst].
  rewrite (walk_all_waiting _ _ _ H). unfold waiting, queued. simpl. solve_Permutation.
Qed.

Lemma access_waiting dc u s s' lat : access cfg dc u s = Done (s', lat) ->
  (waiting s' ≡ₚ u :: waiting s /\ lat = -1 /\ m_retry_queue (que s') = m_retry_queue (que s)) \/
  (waiting s' = waiting s /\ lat = dc u /\ m_retry_queue (que s') = m_retry_queue (que s)).
Proof.
  unfold access. intros H. inv_done. destruct a as [s1 ok].
  assert (waiting s1 ≡ₚ (if ok then [] else [u]) ++ waiting s /\
          m_retry_queue (que s1) = m_retry_queue (que s) /\ (ok = true -> waiting s1 = waiting s)) as (Hw & Hr & Ht).
  { destruct (KNOB_ENABLE_PHYSICAL_MAPPING cfg).
    - split; [by apply translate_waiting |]. unfold translate in E. inv_done.
      destruct (m_translated a); [by inv_done; simplify_eq |]. inv_done.
      destruct (Tlb.lookup _ _ _); inv_done.
      + destruct a1 as [tlb f]. inv_done. simplify_eq. simpl.
        match goal with H : upd_uop _ _ _ = Done _ |- _ =>
          pose proof (core_waiting _ _ (upd_uop_core _ _ _ _ H)) as Hw;
          apply upd_uop_core in H as (_ & _ & Eq & Eb) end.
        unfold waiting. simpl. by rewrite Eq, Eb.
      + simplify_eq.
        match goal with H : upd_uop _ _ _ = Done _, H' : upd_parent_walks _ _ _ = Done _ |- _ =>
          apply upd_uop_core in H as (_ & _ & Eq & _);
          apply upd_parent_walks_core in H' as (_ & _ & Eq' & _) end.
        rewrite Eq', Eq. split; [simpl; by destruct (_ !! _) | done].
    - inv_done. simplify_eq. apply upd_uop_core in E0.
      rewrite (core_waiting _ _ E0). destruct E0 as (_ & _ & E0 & _). by rewrite E0. }
  destruct ok; simpl in H; inv_done; simplify_eq.
  - right. apply upd_uop_core in E0. rewrite (core_waiting _ _ E0).
    destruct E0 as (_ & _ & E0 & _). rewrite E0. by rewrite Ht.
  - by left.
Qed.

(** The retry pass drops exactly the accesses the data cache served. *)
Lemma retry_pass_waiting dc cc us : forall kept s s', retry_pass cfg dc cc us kept s = Done s' ->
  exists fin, Forall (fun u => u ∈ us /\ dc u <> 0) fin /\
    waiting s' ++ m_retry_queue (que s) ++ fin ≡ₚ waiting s ++ kept ++ us.
Proof.
  induction us as [| u us IH]; intros kept s s' H; simpl in H; inv_done.
  { exists []. split; [constructor |]. subst s'. unfold waiting, queued. simpl. solve_Permutation. }
  destruct a as [s1 lat]. apply access_waiting in E.
  assert (forall fin, Forall (fun u => u ∈ us /\ dc u <> 0) fin ->
    Forall (fun v => v ∈ u :: us /\ dc v <> 0) fin) as Hmono.
  { intros fin Hfin. eapply Forall_impl; [exact Hfin |]. intros v [? ?].
    split; [by apply list_elem_of_further | done]. }
  destruct (Z.eqb_spec lat 0) as [-> | Hlat].
  - destruct (IH _ _ _ H) as (fin & Hf & Hp). exists fin. split; [by apply Hmono |].
    destruct E as [(_ & ? & _) | (Hw & _ & Hr)]; [lia |]. rewrite <- Hw, <- Hr, Hp. solve_Permutation.
  - inv_done. destruct (IH _ _ _ H) as (fin & Hf & Hp).
    assert (waiting a = waiting s1 /\ m_retry_queue (que a) = m_retry_queue (que s1)) as [Ew Er].
    { destruct (0 <? lat); [| by inv_done; subst]. apply retry_hit_core in E0.
      rewrite (core_waiting _ _ E0). destruct E0 as (_ & _ & E0 & _). by rewrite E0. }
    rewrite Ew, Er in Hp. destruct E as [(Hw & -> & Hr) | (Hw & -> & Hr)].
    + exists fin. split; [by apply Hmono |]. rewrite <- Hr, Hp, Hw. solve_Permutation.
    + exists (u :: fin). split; [constructor; [split; [apply list_elem_of_here | done] | by apply Hmono] |].
      rewrite <- Hw, <- Hr. transitivity (u :: waiting s1 ++ kept ++ us); [rewrite <- Hp |]; solve_Permutation.
Qed.

Lemma run_a_cycle_waiting dc cc pll s s' : run_a_cycle cfg dc cc pll s = Done s' ->
  exists fin, waiting s ≡ₚ fin ++ waiting s' /\
    Forall (fun u => u ∈ m_retry_queue (que s) /\ dc u <> 0) fin.
Proof.
  unfold run_a_cycle. destruct pll; intros H; inv_done; subst s'; [by exists [] |].
  apply retry_pass_waiting in E as (fin & Hf & Hp). exists fin. split; [| done].
  assert (waiting (tick a1) ≡ₚ waiting a) as ->.
  { change (waiting (tick a1)) with (waiting a1). apply walk_due_waiting in E1 as [-> _].
    by apply retry_faults_waiting. }
  apply (Permutation_app_inv_l (m_retry_queue (que s))).
  transitivity (waiting s ++ [] ++ m_retry_queue (que s)); [| rewrite <- Hp]; solve_Permutation.
Qed.

(** The fault buffers and the lists of their micro-operations agree, and a
    batch is under way exactly when it has faults left. *)
Record faults_ok (s : MMU) : Prop := {
  f_buffer : dom (m_fault_uops (que s)) = m_fault_buffer (que s);
  f_processing : dom (m_fault_uops_processing (bat s)) = list_to_set (m_fault_buffer_processing (bat s));
  f_nodup : NoDup (m_fault_buffer_processing (bat s));
  f_batch : m_batch_processing (bat s) = true <-> m_fault_buffer_processing (bat s) <> []
}.

Lemma faults_ok_ext s s' : m_fault_uops (que s') = m_fault_uops (que s) ->
  m_fault_buffer (que s') = m_fault_buffer (que s) -> bat s' = bat s -> faults_ok s -> faults_ok s'.
Proof. intros E1 E2 E3 []. split; by rewrite ?E1, ?E2, ?E3. Qed.

Lemma core_faults s s' : same_core s s' -> faults_ok s -> faults_ok s'.
Proof. intros (_ & _ & E1 & E2). by apply faults_ok_ext; rewrite ?E1, ?E2. Qed.

Lemma buffer_fault_faults u x fault s s' : buffer_fault u x fault s = Done s' -> faults_ok s -> faults_ok s'.
Proof.
  unfold buffer_fault. intros H Hf. inv_done. apply upd_uop_core in H. apply (core_faults _ _ H).
  apply note_parent_fault_core in E. apply (core_faults _ _ E). destruct Hf as [F1 F2 F3 F4].
  split; simpl; [| done..]. unfold emplace_back. rewrite dom_insert_L. by rewrite F1.
Qed.

Lemma do_page_table_walks_faults u s s' : do_page_table_walks cfg u s = Done s' -> faults_ok s -> faults_ok s'.
Proof.
  unfold do_page_table_walks. intros H Hf. inv_done. destruct (m_page_table _ !! _) as [f |].
  - unfold page_table_hit in H. inv_done. subst s'. apply upd_uop_core in E1.
    apply upd_parent_walks_core in E2. apply (core_faults _ _ E1) in Hf. apply (core_faults _ _ E2) in Hf.
    by eapply faults_ok_ext; [.. | exact Hf].
  - destruct (m_parent_uop _) as [p |]; [| by eapply buffer_fault_faults]. inv_done.
    apply (core_faults _ _ (emplace_thread_core a s)) in Hf.
    destruct (fault_buffer_full _ _ _ _ _); [| by eapply buffer_fault_faults].
    inv_done. subst s'. apply upd_uop_core in E2. apply (core_faults _ _ E2) in Hf.
    by eapply faults_ok_ext; [.. | exact Hf].
Qed.

Lemma walk_all_faults us : forall s s', walk_all cfg us s = Done s' -> faults_ok s -> faults_ok s'.
Proof.
  induction us as [| u us IH]; intros s s' H Hf; simpl in H; inv_done; [by subst |].
  eapply IH; [done |]. by eapply do_page_table_walks_faults.
Qed.

Lemma walk_pages_faults ws : forall s s', walk_pages cfg ws s = Done s' -> faults_ok s -> faults_ok s'.
Proof.
  induction ws as [| w ws IH]; intros s s' H Hf; simpl in H; inv_done; [by subst |].
  eapply IH; [done |]. eapply faults_ok_ext; [.. | by eapply walk_all_faults]; done.
Qed.

Lemma walk_due_faults q : forall s s', walk_due cfg q s = Done s' -> faults_ok s -> faults_ok s'.
Proof.
  induction q as [| [c ws] q IH]; intros s s' H Hf; simpl in H; [by inv_done; subst |].
  destruct (c <=? m_cycle s); inv_done; [| by subst].
  eapply IH; [done |]. eapply faults_ok_ext; [.. | by eapply walk_pages_faults]; done.
Qed.

Lemma translate_faults u s s' b : translate cfg u s = Done (s', b) -> faults_ok s -> faults_ok s'.
Proof.
  unfold translate. intros H Hf. inv_done. destruct (m_translated a); [by inv_done; simplify_eq |].
  inv_done. destruct (Tlb.lookup _ _ _).
  - inv_done. destruct a1 as [tlb f]. inv_done. simplify_eq.
    match goal with H : upd_uop _ _ _ = Done _ |- _ =>
      apply upd_uop_core, core_faults in H as Hf'; [| exact Hf] end.
    by eapply faults_ok_ext; [.. | exact Hf'].
  - inv_done. simplify_eq. apply upd_uop_core in E1. apply upd_parent_walks_core in E2.
    apply (core_faults _ _ E2), (core_faults _ _ E1).
    eapply faults_ok_ext; [.. | exact Hf]; simpl; by destruct (_ !! _).
Qed.

Lemma retry_pass_faults dc cc us : forall kept s s', retry_pass cfg dc cc us kept s = Done s' ->
  faults_ok s -> faults_ok s'.
Proof.
  induction us as [| u us IH]; intros kept s s' H Hf; simpl in H; inv_done.
  { subst. by eapply faults_ok_ext; [.. | exact Hf]. }
  destruct a as [s1 lat].
  assert (faults_ok s1) as H1.
  { unfold access in E. inv_done. destruct a as [s2 ok].
    assert (faults_ok s2) as H2.
    { destruct (KNOB_ENABLE_PHYSICAL_MAPPING cfg); [by eapply translate_faults |].
      inv_done. simplify_eq. eapply core_faults; [by eapply upd_uop_core | done]. }
    destruct ok; simpl in E; inv_done; simplify_eq; [| done].
    eapply core_faults; [by eapply upd_uop_core | done]. }
  destruct (lat =? 0); [by eapply IH |]. inv_done. eapply IH; [done |].
  destruct (0 <? lat); [| by inv_done; subst]. eapply core_faults; [by eapply retry_hit_core | done].
Qed.

Lemma run_a_cycle_faults dc cc pll s s' : run_a_cycle cfg dc cc pll s = Done s' ->
  faults_ok s -> faults_ok s'.
Proof.
  unfold run_a_cycle. destruct pll; intros H Hf; inv_done; subst s';
    [by eapply faults_ok_ext; [.. | exact Hf] |].
  eapply faults_ok_ext with a1; [done.. |]. eapply walk_due_faults; [done |].
  apply retry_pass_faults in E; [| done]. unfold retry_faults in E0.
  destruct (decide _); [| by inv_done; subst]. eapply walk_all_faults; [done |].
  by eapply faults_ok_ext; [.. | exact E].
Qed.

(** ** The batch *)

Lemma insert_fault_perm f l : insert_fault f l ≡ₚ f :: l.
Proof.
  induction l as [| g l IH]; simpl; [done |]. destruct (g.1 <=? f.1); [| done].
  rewrite IH. solve_Permutation.
Qed.

Lemma sort_faults_perm l : sort_faults l ≡ₚ l.
Proof.
  unfold sort_faults. assert (forall acc, foldl (fun acc f => insert_fault f acc) acc l ≡ₚ acc ++ l) as H.
  { induction l as [| f l IH]; intros acc; simpl; [by rewrite app_nil_r |].
    rewrite IH, insert_fault_perm. solve_Permutation. }
  apply H.
Qed.

Lemma wake_uops_ok fault s s' : dom (m_fault_uops (que s)) = m_fault_buffer (que s) -> wake_uops fault s = Done s' ->
  tab s' = tab s /\ m_cycle s' = m_cycle s /\ waiting s' ≡ₚ waiting s /\
  dom (m_fault_uops (que s')) = m_fault_buffer (que s') /\
  bat s' = bat (drop_processed fault s) /\
  (forall us, m_fault_uops_processing (bat s) !! fault = Some us ->
     forall u, u ∈ us -> u ∈ m_retry_queue (que s')).
Proof.
  intros F1 H. unfold wake_uops in H. inv_done. rename a into us.
  destruct (m_fault_uops_processing (bat s) !! fault) as [us0 |] eqn:Eu; [| done]. simpl in E.
  inv_done. subst us0. apply retry_uops_core in E0 as (T1 & B1 & C1 & Q1).
  destruct (m_fault_uops (que (drop_processed fault a0)) !! fault) as [us' |] eqn:Eu'; simpl in Eu'.
  - inv_done. subst s'.
    match goal with H : retry_uops us' _ = Done _ |- _ =>
      apply retry_uops_core in H as (T2 & B2 & C2 & Q2) end. simpl in *.
    rewrite T2, T1, C2, C1, B2, B1, Q2, Q1. rewrite Q1 in Eu'. simpl in *.
    split_and!; [done | done | | by rewrite dom_delete_L, F1 | done |].
    + unfold waiting, queued. simpl. rewrite ?B2, ?B1. simpl.
      rewrite (vals_delete _ _ _ Eu), (vals_delete _ _ _ Eu'). solve_Permutation.
    + intros us0 [= <-] u Hu. set_solver.
  - inv_done. subst s'. simpl. rewrite T1, C1, B1, Q1. rewrite Q1 in Eu'. simpl in *.
    split_and!; [done | done | | done | done |].
    + unfold waiting, queued. simpl. rewrite ?B1, ?Q1. simpl. rewrite (vals_delete _ _ _ Eu). solve_Permutation.
    + intros us0 [= <-] u Hu. set_solver.
Qed.

Lemma prepare_transfer_frame s s' : prepare_transfer cfg s = Done s' ->
  que s' = que s /\ m_cycle s' = m_cycle s /\ uops (wld s') = uops (wld s) /\
  m_fault_buffer_processing (bat s') = m_fault_buffer_processing (bat s) /\
  m_fault_uops_processing (bat s') = m_fault_uops_processing (bat s) /\
  m_batch_processing (bat s') = m_batch_processing (bat s).
Proof.
  unfold prepare_transfer, evict_page. destruct (0 <? _); intros H; inv_done; [by subst |].
  destruct a as [r v]. inv_done. by subst.
Qed.

Lemma faults_ok_bat s s' : que s' = que s ->
  m_fault_buffer_processing (bat s') = m_fault_buffer_processing (bat s) ->
  m_fault_uops_processing (bat s') = m_fault_uops_processing (bat s) ->
  m_batch_processing (bat s') = m_batch_processing (bat s) ->
  faults_ok s -> faults_ok s' /\ waiting s' = waiting s.
Proof. intros E1 E2 E3 E4 []. unfold waiting. rewrite E1, E3. split; [split; by rewrite ?E1, ?E2, ?E3, ?E4 | done]. Qed.

Lemma prepare_transfer_faults s s' : prepare_transfer cfg s = Done s' -> faults_ok s ->
  faults_ok s' /\ waiting s' = waiting s.
Proof. intros (H1 & _ & _ & H2 & H3 & H4)%prepare_transfer_frame Hf. by apply faults_ok_bat. Qed.

(** Taking the first fault off the batch and waking its micro-operations. *)
Lemma resolve_faults s s1 s2 t1 t2 fault :
  faults_ok s -> m_batch_processing (bat s) = true ->
  pop_fault (with_tab t1 s) = Done (s1, fault) -> wake_uops fault (with_tab t2 s1) = Done s2 ->
  m_fault_buffer_processing (bat s) = fault :: m_fault_buffer_processing (bat s2) /\
  waiting s2 ≡ₚ waiting s /\ dom (m_fault_uops (que s2)) = m_fault_buffer (que s2) /\
  dom (m_fault_uops_processing (bat s2)) = list_to_set (m_fault_buffer_processing (bat s2)) /\
  NoDup (m_fault_buffer_processing (bat s2)) /\ m_batch_processing (bat s2) = true /\
  (forall us u, m_fault_uops_processing (bat s) !! fault = Some us -> u ∈ us ->
     u ∈ m_retry_queue (que s2)) /\ m_cycle s2 = m_cycle s /\ tab s2 = t2.
Proof.
  intros Hf Hb Hp Hw. unfold pop_fault in Hp. simpl in Hp.
  destruct (m_fault_buffer_processing (bat s)) as [| f l] eqn:El; inv_done. simplify_eq/=.
  destruct Hf as [F1 F2 F3 F4]. rewrite El in F2, F3. apply NoDup_cons in F3 as [Hni F3].
  apply wake_uops_ok in Hw as (W1 & W2 & W3 & W4 & W5 & W6); [| exact F1]. rewrite W5. simpl in *. split_and!; [done | exact W3 | done | | done | done | | done | done].
  - rewrite dom_delete_L, F2. set_solver.
  - intros us u Hus. by apply W6.
Qed.

Lemma do_batch_processing_faults s s' b : faults_ok s -> m_batch_processing (bat s) = true ->
  do_batch_processing cfg s = Done (s', b) ->
  faults_ok s' /\ waiting s' ≡ₚ waiting s /\ (b = true -> m_fault_buffer_processing (bat s') = []).
Proof.
  intros Hf Hb. unfold do_batch_processing.
  destruct (m_cycle s <? _); [intros H; inv_done; by simplify_eq |].
  destruct (m_batch_processing_first_transfer_started (bat s)); simpl negb; cbv iota; cycle 1.
  { intros H. inv_done. simplify_eq. apply prepare_transfer_faults in E as [H1 H2]; [| done].
    split_and!; [by apply (faults_ok_bat a) | | done]. by rewrite <- H2. }
  destruct (m_cycle s <? _); [intros H; inv_done; by simplify_eq |].
  intros H. inv_done. destruct a1 as [s1 fault]. inv_done.
  destruct (resolve_faults _ _ _ _ _ _ Hf Hb E1 E3) as (R1 & R2 & R3 & R4 & R5 & R6 & _).
  destruct (m_fault_buffer_processing (bat a1)) as [| f l] eqn:El; inv_done; simplify_eq.
  - split_and!; [| exact R2 | done]. split; simpl; rewrite ?El; [done | done | constructor | done].
  - assert (faults_ok a1) as H1 by (split; rewrite ?El; done).
    apply prepare_transfer_faults in E4 as [H2 H3]; [| done]. split_and!; [done | by rewrite H3 | done].
Qed.

Context (Hhash : forall X, hash_order X ≡ₚ elements X).

Lemma begin_batch_faults s s' : faults_ok s -> m_fault_buffer (que s) <> ∅ ->
  m_fault_buffer_processing (bat s) = [] -> begin_batch_processing cfg hash_order s = Done s' ->
  faults_ok s' /\ waiting s' ≡ₚ waiting s.
Proof.
  intros [F1 F2 F3 F4] Hne Hp H. unfold begin_batch_processing in H. inv_done. subst s'. rewrite Hp in *.
  assert (m_fault_uops_processing (bat s) = ∅) as Hpe by (by apply dom_empty_inv_L).
  assert (sort_faults ([] ++ hash_order (m_fault_buffer (que s))) ≡ₚ elements (m_fault_buffer (que s))) as Hs.
  { rewrite sort_faults_perm. apply Hhash. }
  split; [split; simpl |].
  - done.
  - simpl in Hs. rewrite F1, Hs. by rewrite list_to_set_elements_L.
  - simpl in Hs. rewrite Hs. apply NoDup_elements.
  - split; [| done]. intros _ E'. simpl in Hs. rewrite E' in Hs.
    symmetry in Hs. apply Permutation_nil_r, elements_empty_inv in Hs. by apply Hne, leibniz_equiv.
  - unfold waiting, queued. simpl. rewrite Hpe, !vals_empty. solve_Permutation.
Qed.

Lemma handle_page_faults_faults s s' : faults_ok s -> handle_page_faults cfg hash_order s = Done s' ->
  faults_ok s' /\ waiting s' ≡ₚ waiting s.
Proof.
  intros Hf H. unfold handle_page_faults in H. inv_done. destruct a as [s1 go].
  assert (faults_ok s1 /\ waiting s1 ≡ₚ waiting s /\
          (go = true -> m_fault_buffer_processing (bat s1) = [])) as (H1 & H2 & H3).
  { destruct (m_batch_processing (bat s)) eqn:Eb; [by eapply do_batch_processing_faults |].
    inv_done. simplify_eq. split_and!; [done | done |]. intros _. destruct Hf as [_ _ _ F4].
    destruct (m_fault_buffer_processing (bat s1)); [done |]. by rewrite (proj2 F4) in Eb. }
  destruct go; simpl in H; [| by inv_done; subst]. destruct (decide _); [by inv_done; subst |].
  apply begin_batch_faults in H as [H4 H5]; [| done | done | by apply H3]. by rewrite H5.
Qed.

Lemma step_faults e s s' : faults_ok s -> step e s = Done s' -> faults_ok s'.
Proof.
  intros Hf H. destruct e as [u x | u | | dc cc pll]; simpl in H.
  - inv_done. subst. by eapply faults_ok_ext; [.. | exact Hf].
  - inv_done. destruct a as [s1 b]. inv_done. subst. by eapply translate_faults.
  - by apply handle_page_faults_faults in H as [H _].
  - by eapply run_a_cycle_faults.
Qed.

Lemma reachable_faults s : reachable s -> faults_ok s.
Proof.
  intros (mem & n & cyc & dimm & tj & rj & r0 & s0 & es & _ & Hi & _ & _ & Hs).
  assert (faults_ok s0) as H0.
  { unfold initialize in Hi. inv_done. subst s0. split; simpl; [by rewrite dom_empty_L | by rewrite dom_empty_L | constructor | done]. }
  clear Hi. revert s0 H0 Hs. induction es as [| e es IH]; intros s0 H0 Hs; simpl in Hs; inv_done; [by subst |].
  eapply IH; [| done]. by eapply step_faults.
Qed.

(** C25: the unit loses no micro-operation and invents none. In a reachable
    state, [translate] either answers at once or adds exactly the one it was
    given to the suspended ones; fault handling only moves suspended
    micro-operations between queues; a cycle takes out exactly some
    micro-operations of the retry queue that the data cache answered. *)
Theorem mmu_conserves_uops s s' : reachable s ->
  (forall u b, translate cfg u s = Done (s', b) -> waiting s' ≡ₚ (if b then [] else [u]) ++ waiting s) /\
  (handle_page_faults cfg hash_order s = Done s' -> waiting s' ≡ₚ waiting s) /\
  (forall dc cc pll, run_a_cycle cfg dc cc pll s = Done s' ->
     exists fin, waiting s ≡ₚ fin ++ waiting s' /\
       Forall (fun u => u ∈ m_retry_queue (que s) /\ dc u <> 0) fin).
Proof.
  intros Hr. apply reachable_faults in Hr. split_and!.
  - intros u b. apply translate_waiting.
  - intros H. by apply handle_page_faults_faults in H as [_ H].
  - intros dc cc pll. apply run_a_cycle_waiting.
Qed.

(** ** Progress without swapping *)

Lemma retry_uops_done us : forall s, Forall (fun u => is_Some (uops (wld s) !! u)) us ->
  exists s', retry_uops us s = Done s' /\ dom (uops (wld s')) = dom (uops (wld s)).
Proof.
  induction us as [| u us IH]; intros s Hf; simpl; [by exists s |].
  apply Forall_cons in Hf as [[x Hx] Hf]. unfold upd_uop, get_uop. rewrite Hx. simpl.
  match goal with |- exists s', retry_uops us ?q = _ /\ _ => destruct (IH q) as (s' & E & Ed) end.
  - eapply Forall_impl; [exact Hf |]. intros v [y Hy]. simpl. apply lookup_insert_is_Some'. eauto.
  - exists s'. split; [done |]. rewrite Ed. simpl. rewrite dom_insert_L.
    assert (u ∈ dom (uops (wld s))) by (apply elem_of_dom; eauto). set_solver.
Qed.

Lemma wake_uops_done fault us s : m_fault_uops_processing (bat s) !! fault = Some us ->
  (forall u, u ∈ waiting s -> is_Some (uops (wld s) !! u)) -> exists s', wake_uops fault s = Done s'.
Proof.
  intros Hus Hw. unfold wake_uops. rewrite Hus. simpl.
  destruct (retry_uops_done us s) as (s1 & E1 & D1).
  { apply Forall_forall. intros u Hu. apply Hw. unfold waiting. rewrite (vals_delete _ _ _ Hus). set_solver. }
  rewrite E1. simpl. pose proof (retry_uops_core _ _ _ E1) as (_ & _ & _ & Q1). rewrite Q1. simpl.
  destruct (m_fault_uops (que s) !! fault) as [us' |] eqn:Eu'; [| eauto].
  destruct (retry_uops_done us' (drop_processed fault s1)) as (s2 & E2 & _); [| rewrite E2; simpl; eauto].
  apply Forall_forall. intros u Hu. simpl. apply elem_of_dom. rewrite D1. apply elem_of_dom, Hw.
  unfold waiting, queued. rewrite (vals_delete _ _ _ Eu'). set_solver.
Qed.

(** C26: without swapping, a due transfer resolves its fault. In a reachable
    state with a batch under way whose transfer time has come, and with the
    suspended micro-operations alive, the batch step succeeds: the first fault
    of the batch gets a page-table entry, every micro-operation waiting for it
    is in the retry queue, the batch is shorter by that fault, and the batch
    is reported over exactly when it was the last one. *)
Theorem mmu_resolves_fault s fault rest : config_ok -> reachable s -> m_nonswap cfg = true ->
  m_batch_processing (bat s) = true -> m_fault_buffer_processing (bat s) = fault :: rest ->
  m_batch_processing_first_transfer_started (bat s) = true ->
  m_batch_processing_transfer_start_cycle (bat s) <= m_cycle s ->
  m_batch_processing_next_event_cycle (bat s) <= m_cycle s ->
  0 < m_free_frames_remaining (tab s) -> m_frame_dimm (tab s) < ULLONG_MAX ->
  (forall u, u ∈ waiting s -> is_Some (uops (wld s) !! u)) ->
  exists s', do_batch_processing cfg s = Done (s', bool_decide (rest = [])) /\
    is_Some (m_page_table (tab s') !! fault) /\
    (forall us u, m_fault_uops_processing (bat s) !! fault = Some us -> u ∈ us ->
       u ∈ m_retry_queue (que s')) /\
    m_fault_buffer_processing (bat s') = rest.
Proof.
  intros Hc Hr Hns Hb Hp Hst Ht1 Ht2 Hfr Hd Hlive. pose proof (reachable_faults _ Hr) as Hf.
  unfold do_batch_processing. rewrite (proj2 (Z.ltb_ge _ _) Ht1), Hst, (proj2 (Z.ltb_ge _ _) Ht2).
  simpl negb. cbv iota. rewrite (proj2 (Z.ltb_lt _ _) Hfr). simpl.
  unfold pick_frame. rewrite Hns. simpl. unfold pop_fault. simpl. rewrite Hp. simpl.
  unfold map_page. rewrite Hns. simpl.
  destruct Hf as [F1 F2 F3 F4].
  assert (exists us, m_fault_uops_processing (bat s) !! fault = Some us) as [us Hus].
  { apply elem_of_dom. rewrite F2, Hp. set_solver. }
  match goal with |- context [wake_uops fault ?q] => destruct (wake_uops_done fault us q Hus Hlive) as (s2 & E2);
    pose proof (wake_uops_ok fault q s2 F1 E2) as (W1 & _ & _ & _ & W5 & W6) end.
  rewrite E2. simpl. rewrite W5. simpl in *.
  assert (is_Some (m_page_table (tab s2) !! fault)) as Hpt.
  { rewrite W1. simpl. apply (emplace_page_some fault). }
  destruct rest as [| f l]; simpl.
  - exists (end_batch s2).
    split_and!; [done | done | | by simpl; rewrite W5]. intros us' u Hus' Hu. by eapply W6.
  - unfold prepare_transfer. rewrite W1. simpl. rewrite (proj2 (Z.ltb_lt _ _) Hfr). simpl.
    eexists.
    split_and!; [done | done | | by simpl; rewrite W5]. intros us' u Hus' Hu. by eapply W6.
Qed.

End FACTS.

(** ** The replacement unit *)

(** [getVictim] on a list whose last entry is [v]. *)
Lemma getVictim_last cap (r : Repl.unit_) l v : lru_ok (fun e => e) cap r (l ++ [v]) ->
  exists r', Repl.getVictim r = Done (r', v) /\ (exists ns, on_list cap r' ns l) /\
    m_table r' = delete Repl.unused (m_table r).
Proof.
  intros (ns & H & Hnd & Ht). pose proof (on_list_length _ _ _ _ H) as Hlen.
  destruct (split_like ns l v [] Hlen) as (pre & a & suf & -> & Hpre).
  assert (suf = []) as ->.
  { rewrite !length_app in Hlen. simpl in Hlen. destruct suf; [done | simpl in Hlen; lia]. }
  destruct (last_node _ _ _ _ _ H) as (t & Et & Ept).
  destruct (release_on_list (fun e => e) Repl.unused _ _ _ _ _ _ _ _ H Hpre) as (r1 & E1 & H1 & Ht1).
  rewrite !app_nil_r in H1. pose proof (r_pay _ _ _ _ H) as Hp. rewrite !fmap_app in Hp. simpl in Hp.
  apply app_inj_2 in Hp as [_ [= Hpa]]; [| done].
  destruct (pay_deref _ _ _ Hpa) as (n & En & Epn).
  exists (with_table (delete Repl.unused (m_table r1)) r1). unfold Repl.getVictim.
  rewrite Et. simpl. rewrite Ept. simpl. rewrite En. simpl. rewrite E1. simpl. rewrite Epn, Ht1.
  split_and!; [done | | done]. exists pre. destruct H1. by split.
Qed.

(** the replacement unit picks the least recently used page and unlinks
    it, but its table keeps the page: the key erased is the one of the node
    after it has been blanked. Inserting the evicted page again, which is what
    resolving its next fault does, fails the assertion that it is not there. *)
Theorem replacement_victim_stays_in_table cap (r : Repl.unit_) l v :
  lru_ok (fun e => e) cap r (l ++ [v]) -> v <> Repl.unused ->
  exists r', Repl.getVictim r = Done (r', v) /\ (exists ns, on_list cap r' ns l) /\
    Repl.insert v.1 v.2 r' = Fault AssertFailed.
Proof.
  intros H Hv. destruct (getVictim_last _ _ _ _ H) as (r' & E & Hl & Ht).
  exists r'. split_and!; [done | done |]. unfold Repl.insert, lru_insert.
  rewrite <- surjective_pairing, Ht, lookup_delete_ne by done. rewrite bool_decide_false; [done |].
  rewrite (lru_lookup _ _ _ _ _ H). intros Hn. apply Hn. rewrite list_fmap_id. set_solver.
Qed.

(** with per-process page tables, swapping cannot evict. The unit enters
    pages into the replacement unit under process id -1, so once every page
    table entry belongs to a real process, choosing a victim fails the
    assertion that the victim is mapped, whichever page it is. *)
Theorem swap_eviction_asserts cfg s cap l v :
  lru_ok (fun e => e) cap (m_replacement_unit (tab s)) (l ++ [v]) ->
  Forall (fun e => e.2 = -1) (l ++ [v]) ->
  (forall k f, m_page_table (tab s) !! k = Some f -> 0 <= k.2) ->
  evict_page cfg s = Fault AssertFailed.
Proof.
  intros H Hp Hk. destruct (getVictim_last _ _ _ _ H) as (r' & E & _ & _).
  unfold evict_page. rewrite E. simpl.
  destruct (m_page_table (tab s) !! v) as [f |] eqn:Ef; [| done].
  apply Hk in Ef. apply Forall_app in Hp as [_ Hp]. inversion_clear Hp as [| ? ? Hv _].
  lia.
Qed.

(** ** Witnesses *)

Definition junk_tlb : nat -> Entry (P := Tlb.entry) := fun _ => mk_entry Tlb.unused None None.
Definition junk_repl : nat -> Entry (P := Repl.entry) := fun _ => mk_entry Repl.unused None None.
Definition repl0 : Repl.unit_ := Repl.ReplacementUnit_new junk_repl 1.

Definition cfg_linear : config := mk_config 4096 12 true 2 3 5 1 4 true true false ∅.
Definition cfg_swap : config := mk_config 4096 12 false 2 3 5 1 4 false true false ∅.

Definition uop_at (addr : Z) : uop_c := mk_uop addr 0 0 7 None 0 0 OS_EXEC_BEGIN false 0 0 0.
Definition idle : list event := [HandleFaults; Cycle (fun _ => 1) (fun _ => 0) false].

(** A load of 0x2345 misses the TLB, faults, waits for the batch and retries. *)
Definition fault_run (n : nat) : list event :=
  [NewUop 0 (uop_at 9029); Translate 0] ++ concat (replicate n idle).

Definition start (cfg : config) : outcome MMU :=
  initialize cfg 4096 8 0 0 junk_tlb junk_repl repl0.

Definition empty_mmu : MMU :=
  mk_MMU 0 (mk_tables ∅ (Tlb.mk_TLB (lru_new Tlb.unused 1 junk_tlb) 1 4096 12) repl0 [] 0 0 0)
    (mk_queues [] ∅ [] [] ∅ ∅) (mk_batch [] ∅ false false 0 0 0) (mk_world ∅ ∅ [] []).

(** The state a run leads to. *)
Definition run_state (cfg : config) (es : list event) : MMU :=
  match (s0 ← start cfg; steps cfg elements es s0) with Done s => s | Fault _ => empty_mmu end.

Lemma linear_ok : config_ok cfg_linear.
Proof. unfold config_ok. simpl. lia. Qed.

Lemma linear_reachable es : (exists s, (s0 ← start cfg_linear; steps cfg_linear elements es s0) = Done s) ->
  Z.of_nat (length es) <= ULLONG_MAX -> reachable cfg_linear elements 8 (run_state cfg_linear es).
Proof.
  intros [s Hs] Hl. unfold run_state. rewrite Hs. inv_done.
  exists 4096, 8, 0, 0, junk_tlb, junk_repl, repl0, a, es. done.
Qed.

(** The mapped page is in the TLB; a second access translates at once. *)
Definition warm : list event := fault_run 12 ++ [NewUop 1 (uop_at 9030)].

Lemma warm_reachable : reachable cfg_linear elements 8 (run_state cfg_linear warm).
Proof. apply linear_reachable; [eexists; vm_compute; reflexivity | vm_compute; done]. Qed.

Lemma mmu_coherent_witness :
  exists tlb f, Tlb.translate (m_TLB (tab (run_state cfg_linear warm))) 9029 (-1) = Done (tlb, f) /\
    m_page_table (tab (run_state cfg_linear warm)) !! (get_page_number cfg_linear 9029, -1) = Some f.
Proof.
  apply (mmu_coherent cfg_linear elements 8 ltac:(lia) (run_state cfg_linear warm) linear_ok warm_reachable).
  vm_compute. reflexivity.
Defined.

Lemma mmu_translates_by_page_table_witness : exists s' f y,
  translate cfg_linear 1 (run_state cfg_linear warm) = Done (s', true) /\
  m_page_table (tab (run_state cfg_linear warm)) !! (2, -1) = Some f /\
  uops (wld s') !! 1%nat = Some y /\ m_translated y = true.
Proof.
  set (s := run_state cfg_linear warm).
  assert (exists s', translate cfg_linear 1 s = Done (s', true)) as [s' Hs]
    by (eexists; vm_compute; reflexivity).
  destruct (mmu_translates_by_page_table cfg_linear elements 8 ltac:(lia) s 1 (uop_at 9030) (-1) s')
    as (f & y & H1 & H2 & H3 & _);
    [apply linear_ok | apply warm_reachable | vm_compute; reflexivity | reflexivity | reflexivity
    | simpl; lia | simpl; lia | exact Hs |].
  exists s', f, y. split_and!; [exact Hs | exact H1 | exact H2 | exact H3].
Defined.

Lemma mmu_conserves_uops_witness :
  exists s', handle_page_faults cfg_linear elements (run_state cfg_linear (fault_run 7)) = Done s' /\
    waiting s' ≡ₚ waiting (run_state cfg_linear (fault_run 7)).
Proof.
  assert (exists s', handle_page_faults cfg_linear elements (run_state cfg_linear (fault_run 7)) = Done s')
    as [s' Hs] by (eexists; vm_compute; reflexivity).
  exists s'. split; [exact Hs |].
  apply (mmu_conserves_uops cfg_linear elements 8 ltac:(lia) (fun X => reflexivity _)
           (run_state cfg_linear (fault_run 7)) s'); [| exact Hs].
  apply linear_reachable; [eexists; vm_compute; reflexivity | vm_compute; done].
Defined.

Lemma mmu_resolves_fault_witness :
  exists s', do_batch_processing cfg_linear (run_state cfg_linear (fault_run 7)) = Done (s', true) /\
    is_Some (m_page_table (tab s') !! (2, -1)).
Proof.
  assert (waiting (run_state cfg_linear (fault_run 7)) = [0%nat]) as Hw by (vm_compute; reflexivity).
  destruct (mmu_resolves_fault cfg_linear elements 8 ltac:(lia) (fun X => reflexivity _)
    (run_state cfg_linear (fault_run 7)) (2, -1) []) as (s' & H1 & H2 & _);
    [apply linear_ok | apply linear_reachable; [eexists; vm_compute; reflexivity | vm_compute; done]
    | reflexivity | vm_compute; reflexivity | vm_compute; reflexivity | vm_compute; reflexivity
    | vm_compute; discriminate | vm_compute; discriminate | vm_compute; reflexivity
    | vm_compute; reflexivity | |].
  - rewrite Hw. intros u Hu. apply list_elem_of_singleton in Hu. subst u. eexists. vm_compute. reflexivity.
  - exists s'. split; [exact H1 | exact H2].
Defined.

(** One page in a replacement unit of one entry. *)
Lemma one_page : exists r, lru_ok (fun e => e) 1 r ([] ++ [(2, -1)]).
Proof.
  destruct (lru_insert_ok (fun e => e) 1 repl0 [] (2, -1)) as (r & _ & H).
  - apply lru_new_ok.
  - apply not_elem_of_nil.
  - lia.
  - by exists r.
Qed.

Lemma replacement_victim_stays_in_table_witness : exists r r',
  Repl.getVictim r = Done (r', (2, -1)) /\ Repl.insert 2 (-1) r' = Fault AssertFailed.
Proof.
  destruct one_page as [r Hr]. exists r.
  destruct (replacement_victim_stays_in_table 1 r [] (2, -1) Hr) as (r' & H1 & _ & H2); [discriminate |].
  exists r'. split; [exact H1 | exact H2].
Defined.

Lemma swap_eviction_asserts_witness : exists r,
  evict_page cfg_swap (mk_MMU 0 (mk_tables {[(2, 0) := 0]} (m_TLB (tab empty_mmu)) r [false] 0 0 0)
    (que empty_mmu) (bat empty_mmu) (wld empty_mmu)) = Fault AssertFailed.
Proof.
  destruct one_page as [r Hr]. exists r. apply (swap_eviction_asserts _ _ 1 [] (2, -1)).
  - exact Hr.
  - repeat constructor.
  - intros k f. simpl. intros [<- _]%lookup_singleton_Some. simpl. lia.
Defined.

(** The same failure in a run: one frame, two pages of process 0. *)
Example swap_run_asserts :
  (s0 ← start cfg_swap;
   steps cfg_swap elements
     ([NewUop 0 (uop_at 9029); NewUop 1 (uop_at 20480); Translate 0; Translate 1]
        ++ concat (replicate 12 idle)) s0) = Fault AssertFailed.
Proof. vm_compute. reflexivity. Qed.

End Mmu.
