(* ===== verification/PageMapping.v ===== *)
(** * First-come-first-served page mappers (page_mapping.h, page_mapping.cc)

    [FCFSPageMapper] numbers virtual pages in the order of their first touch;
    [RegionBasedFCFSPageMapper] does so for regions of several pages and keeps
    a page table beside. The theorems say that both are injective on virtual
    addresses for the whole 64-bit space. *)

From S2P Require Import Prelude.

(** [m_page_table]/[m_region_table] with [m_physical_tag]. *)
Record numbering := mk_numbering { table : gmap Z Z; m_physical_tag : Z }.

Definition numbering_new : numbering := mk_numbering ∅ 0.

(** [table[k] = m_physical_tag++] for a key that is not there. *)
Definition number_of (k : Z) (n : numbering) : numbering * Z :=
  match table n !! k with
  | Some p => (n, p)
  | None => (mk_numbering (<[k := m_physical_tag n]> (table n)) (inc64 (m_physical_tag n)),
             m_physical_tag n)
  end.

(** [(p << bits) | (v & (size - 1))]. *)
Definition place_at (bits size p v : Z) : Z := Z.lor (shl64 p bits) (Z.land v (size - 1)).

Section FCFS.
Context (m_page_size : Z).

Definition fcfs_translate (virtual_address : Z) (n : numbering) : numbering * Z :=
  let bits := Z.log2 m_page_size in
  let vpn := Z.shiftr virtual_address bits in
  let '(n1, p) := number_of vpn n in
  (n1, place_at bits m_page_size p virtual_address).

Fixpoint fcfs_run (vs : list Z) (n : numbering) : numbering * list Z :=
  match vs with
  | [] => (n, [])
  | v :: vs' => let '(n1, p) := fcfs_translate v n in
                let '(n2, ps) := fcfs_run vs' n1 in (n2, p :: ps)
  end.

Definition getNumPhysicalPages (n : numbering) : Z := Z.of_nat (size (table n)).

End FCFS.

Record region_mapper := mk_region_mapper {
  regions : numbering;
  m_page_table : gmap Z Z
}.

Section REGION.
Context (m_page_size m_region_size : Z).

(** The constructor asserts that a region holds at least a page. *)
Definition region_mapper_new : outcome region_mapper :=
  _ ← ASSERT (m_page_size <=? m_region_size);
  mret (mk_region_mapper numbering_new ∅).

Definition region_translate (virtual_address : Z) (m : region_mapper) : region_mapper * Z :=
  let vpn := Z.shiftr virtual_address (Z.log2 m_page_size) in
  let region := Z.shiftr virtual_address (Z.log2 m_region_size) in
  match table (regions m) !! region with
  | None =>
      let '(r1, tag) := number_of region (regions m) in
      let physical_address := place_at (Z.log2 m_region_size) m_region_size tag virtual_address in
      (mk_region_mapper r1
         (<[vpn := Z.shiftr physical_address (Z.log2 m_page_size)]> (m_page_table m)),
       physical_address)
  | Some tag =>
      let physical_address := place_at (Z.log2 m_region_size) m_region_size tag virtual_address in
      match m_page_table m !! vpn with
      | None => (mk_region_mapper (regions m)
                   (<[vpn := Z.shiftr physical_address (Z.log2 m_page_size)]> (m_page_table m)),
                 physical_address)
      | Some _ => (m, physical_address)
      end
  end.

Fixpoint region_run (vs : list Z) (m : region_mapper) : region_mapper * list Z :=
  match vs with
  | [] => (m, [])
  | v :: vs' => let '(m1, p) := region_translate v m in
                let '(m2, ps) := region_run vs' m1 in (m2, p :: ps)
  end.

End REGION.

(** Closed lists of 64-bit words. *)
Ltac u64_list :=
  lazymatch goal with
  | |- Forall is_u64 (_ :: _) => apply Forall_cons; split; [unfold is_u64; lia | u64_list]
  | |- Forall is_u64 [] => apply Forall_nil; exact I
  end.

(** ** The numbering *)

Record numbering_ok (n : numbering) (bound : Z) : Prop := {
  n_tag : m_physical_tag n = Z.of_nat (size (table n));
  n_keys : forall k p, table n !! k = Some p -> 0 <= k < bound;
  n_vals : forall k p, table n !! k = Some p -> 0 <= p < m_physical_tag n;
  n_inj : forall k k' p, table n !! k = Some p -> table n !! k' = Some p -> k = k'
}.

Lemma keys_below (m : gmap Z Z) bound : 0 <= bound ->
  (forall k p, m !! k = Some p -> 0 <= k < bound) -> Z.of_nat (size m) <= bound.
Proof.
  intros Hb H. rewrite <- size_dom.
  assert (dom m ⊆ (list_to_set (seqZ 0 bound) : gset Z)) as Hsub.
  { intros x Hx. apply elem_of_dom in Hx as [p Hp]. apply elem_of_list_to_set, elem_of_seqZ.
    specialize (H _ _ Hp). lia. }
  apply subseteq_size in Hsub. rewrite size_list_to_set, length_seqZ in Hsub by apply NoDup_seqZ. lia.
Qed.

(** Keys below [bound], one of them unused, leave fewer than [bound] numbers. *)
Lemma tag_below n bound k : numbering_ok n bound -> 0 <= k < bound -> table n !! k = None ->
  m_physical_tag n < bound.
Proof.
  intros [H1 H2 _ _] Hk Hn. rewrite H1.
  pose proof (keys_below (<[k := 0]> (table n)) bound ltac:(lia)) as Hs.
  rewrite map_size_insert_None in Hs by done. apply Z.lt_le_trans with (Z.of_nat (S (size (table n)))); [lia |].
  apply Hs. intros k' p [[<- _] | [_ Hp]]%lookup_insert_Some; [done | by eapply H2].
Qed.

Lemma number_of_ok n bound k n' p : numbering_ok n bound -> 0 <= k < bound -> bound < 2 ^ 64 ->
  number_of k n = (n', p) ->
  numbering_ok n' bound /\ table n' !! k = Some p /\ table n ⊆ table n'.
Proof.
  intros Hok Hk Hb E. unfold number_of in E. destruct (table n !! k) as [q |] eqn:Ek; simplify_eq; [done |].
  pose proof (tag_below _ _ _ Hok Hk Ek) as Htag. destruct Hok as [H1 H2 H3 H4].
  assert (inc64 (m_physical_tag n) = m_physical_tag n + 1) as Ei.
  { unfold inc64. apply u64_small. unfold is_u64. lia. }
  split_and!; [split; simpl; rewrite ?Ei | simpl; by rewrite lookup_insert_eq | by apply insert_subseteq].
  - rewrite map_size_insert_None by done. lia.
  - intros k' p [[<- _] | [_ Hp]]%lookup_insert_Some; [done | by eapply H2].
  - intros k' p [[_ <-] | [_ Hp]]%lookup_insert_Some; [lia |]. specialize (H3 _ _ Hp). lia.
  - intros k1 k2 p [[<- E1] | [_ Hp1]]%lookup_insert_Some [[<- E2] | [_ Hp2]]%lookup_insert_Some; [done | | |].
    + specialize (H3 _ _ Hp2). lia.
    + specialize (H3 _ _ Hp1). lia.
    + by eapply H4.
Qed.

Lemma vals_bounded n bound k p : 0 <= bound -> numbering_ok n bound -> table n !! k = Some p -> 0 <= p < bound.
Proof.
  intros Hb Hok Hp. pose proof (keys_below (table n) bound Hb (n_keys _ _ Hok)).
  pose proof (n_vals _ _ Hok _ _ Hp). pose proof (n_tag _ _ Hok). lia.
Qed.

Lemma numbering_new_ok bound : numbering_ok numbering_new bound.
Proof. split; simpl; intros *; rewrite ?lookup_empty; done. Qed.

(** Page number and offset of an address, put together again elsewhere. *)
Lemma place_at_split bits p v : 0 <= bits <= 64 -> 0 <= p < 2 ^ (64 - bits) ->
  place_at bits (2 ^ bits) p v = p * 2 ^ bits + v mod 2 ^ bits.
Proof.
  intros Hb Hp. unfold place_at, shl64. rewrite Z.sub_1_r, <- Z.ones_equiv, Z.land_ones by lia.
  rewrite u64_small.
  - rewrite lor_shiftl_add; [done | lia |]. apply Z.mod_pos_bound, pow2_pos. lia.
  - unfold is_u64. rewrite Z.shiftl_mul_pow2 by lia.
    assert (2 ^ 64 = 2 ^ (64 - bits) * 2 ^ bits) as -> by (rewrite <- Z.pow_add_r by lia; f_equal; lia).
    pose proof (pow2_pos bits ltac:(lia)). nia.
Qed.

Lemma shiftr_bound v bits : is_u64 v -> 0 <= bits <= 64 -> 0 <= Z.shiftr v bits < 2 ^ (64 - bits).
Proof.
  intros Hv Hb. unfold is_u64 in Hv. rewrite Z.shiftr_div_pow2 by lia.
  pose proof (pow2_pos bits ltac:(lia)). split; [apply Z.div_pos; lia |]. apply Z.div_lt_upper_bound; [lia |].
  rewrite <- Z.pow_add_r by lia. replace (bits + (64 - bits)) with 64 by lia. lia.
Qed.

(** Same frame and same offset is same address. *)
Lemma place_inj bits n p p' v v' :
  0 <= bits <= 64 -> numbering_ok n (2 ^ (64 - bits)) ->
  table n !! Z.shiftr v bits = Some p -> table n !! Z.shiftr v' bits = Some p' ->
  place_at bits (2 ^ bits) p v = place_at bits (2 ^ bits) p' v' -> v = v'.
Proof.
  intros Hb Hok Hp Hp' E. pose proof (pow2_pos (64 - bits) ltac:(lia)).
  pose proof (vals_bounded n (2 ^ (64 - bits)) _ _ ltac:(lia) Hok Hp). pose proof (vals_bounded n (2 ^ (64 - bits)) _ _ ltac:(lia) Hok Hp').
  rewrite !place_at_split in E by done. pose proof (pow2_pos bits ltac:(lia)).
  pose proof (Z.mod_pos_bound v (2 ^ bits) ltac:(lia)). pose proof (Z.mod_pos_bound v' (2 ^ bits) ltac:(lia)).
  assert (p = p') as <- by nia. pose proof (n_inj _ _ Hok _ _ _ Hp Hp') as Ek.
  rewrite !Z.shiftr_div_pow2 in Ek by lia.
  rewrite (Z.div_mod v (2 ^ bits)), (Z.div_mod v' (2 ^ bits)) by lia. lia.
Qed.

Lemma fcfs_run_ok bits vs : forall n n' ps, 1 <= bits <= 64 -> Forall is_u64 vs ->
  numbering_ok n (2 ^ (64 - bits)) -> fcfs_run (2 ^ bits) vs n = (n', ps) ->
  numbering_ok n' (2 ^ (64 - bits)) /\ table n ⊆ table n' /\
  Forall2 (fun v pa => exists p, table n' !! Z.shiftr v bits = Some p /\ pa = place_at bits (2 ^ bits) p v) vs ps.
Proof.
  induction vs as [| v vs IH]; intros n n' ps Hb Hv Hok E; simpl in E.
  { simplify_eq. split_and!; [done | done | constructor]. }
  apply Forall_cons in Hv as [Hv Hvs]. unfold fcfs_translate in E. rewrite Z.log2_pow2 in E by lia.
  destruct (number_of (Z.shiftr v bits) n) as [n1 p] eqn:En.
  destruct (fcfs_run (2 ^ bits) vs n1) as [n2 ps'] eqn:Er. simplify_eq.
  pose proof (Z.pow_lt_mono_r 2 (64 - bits) 64 ltac:(lia) ltac:(lia) ltac:(lia)).
  destruct (number_of_ok _ _ _ _ _ Hok (shiftr_bound v bits Hv ltac:(lia)) ltac:(lia) En) as (H1 & H2 & H3).
  destruct (IH _ _ _ Hb Hvs H1 Er) as (I1 & I2 & I3).
  split_and!; [done | by etrans |]. constructor; [| done]. exists p. split; [by eapply lookup_weaken | done].
Qed.

(** the FCFS mapper is a page-granular injection. Over any sequence of
    64-bit virtual addresses, with a page size of at least 2, equal addresses
    always get the same physical address and different ones different
    physical addresses, the offset in the page is kept, and the number of
    physical pages in use is the number handed out so far. No number is ever
    reused and no address computation wraps around. *)
Theorem fcfs_injective bits vs n ps : 1 <= bits <= 64 -> Forall is_u64 vs ->
  fcfs_run (2 ^ bits) vs numbering_new = (n, ps) ->
  getNumPhysicalPages n = m_physical_tag n /\
  forall i j v v' pa pa', vs !! i = Some v -> vs !! j = Some v' -> ps !! i = Some pa -> ps !! j = Some pa' ->
    (pa = pa' <-> v = v') /\ pa mod 2 ^ bits = v mod 2 ^ bits.
Proof.
  intros Hb Hv E.
  destruct (fcfs_run_ok bits vs _ _ _ Hb Hv (numbering_new_ok _) E) as (H1 & _ & H3).
  split; [unfold getNumPhysicalPages; by rewrite (n_tag _ _ H1) |].
  intros i j v v' pa pa' Hi Hj Hpi Hpj.
  destruct (Forall2_lookup_lr _ _ _ _ _ _ H3 Hi Hpi) as (p & Hp & ->).
  destruct (Forall2_lookup_lr _ _ _ _ _ _ H3 Hj Hpj) as (p' & Hp' & ->). split; [split |].
  - apply (place_inj bits n p p'); [lia | done..].
  - intros <-. congruence.
  - pose proof (pow2_pos (64 - bits) ltac:(lia)). pose proof (vals_bounded n (2 ^ (64 - bits)) _ _ ltac:(lia) H1 Hp).
    rewrite place_at_split by (done || lia). pose proof (pow2_pos bits ltac:(lia)).
    rewrite Z.add_comm, Z.mod_add, Z.mod_mod by lia. done.
Qed.

Lemma fcfs_injective_witness : exists n ps, fcfs_run (2 ^ 12) [8192; 8200; 12288; 8192] numbering_new = (n, ps) /\
  getNumPhysicalPages n = m_physical_tag n.
Proof.
  do 2 eexists. split; [reflexivity |].
  destruct (fcfs_injective 12 [8192; 8200; 12288; 8192] _ _ ltac:(lia) ltac:(u64_list) eq_refl) as [H _].
  exact H.
Defined.

(** ** Regions *)

(** A physical page number depends on the virtual page only. *)
Lemma place_page pb rb p v v' : 0 <= pb <= rb -> Z.shiftr v pb = Z.shiftr v' pb ->
  Z.shiftr v rb = Z.shiftr v' rb /\
  Z.shiftr (place_at rb (2 ^ rb) p v) pb = Z.shiftr (place_at rb (2 ^ rb) p v') pb.
Proof.
  intros Hb E. split.
  - replace rb with (pb + (rb - pb)) by lia. by rewrite <- !Z.shiftr_shiftr, E by lia.
  - unfold place_at. by rewrite !Z.shiftr_lor, !Z.shiftr_land, E.
Qed.

Record region_ok (pb rb : Z) (m : region_mapper) : Prop := {
  g_regions : numbering_ok (regions m) (2 ^ (64 - rb));
  g_pages : forall v q, m_page_table m !! Z.shiftr v pb = Some q ->
    exists p, table (regions m) !! Z.shiftr v rb = Some p /\
      q = Z.shiftr (place_at rb (2 ^ rb) p v) pb
}.

(** What a translation leaves behind for its address. *)
Definition mapped (pb rb : Z) (m : region_mapper) (v pa : Z) : Prop :=
  exists p, table (regions m) !! Z.shiftr v rb = Some p /\ pa = place_at rb (2 ^ rb) p v /\
    m_page_table m !! Z.shiftr v pb = Some (Z.shiftr pa pb).

Lemma region_add_page pb rb m v p : 0 <= pb <= rb -> region_ok pb rb m ->
  table (regions m) !! Z.shiftr v rb = Some p ->
  region_ok pb rb (mk_region_mapper (regions m)
    (<[Z.shiftr v pb := Z.shiftr (place_at rb (2 ^ rb) p v) pb]> (m_page_table m))).
Proof.
  intros Hb [H1 H2] Hp. split; simpl; [done |].
  intros v' q [[Ev <-] | [_ Hq]]%lookup_insert_Some; [| by apply H2].
  destruct (place_page pb rb p v v' Hb Ev) as [Er Ep]. exists p. by rewrite <- Er, Ep.
Qed.

Lemma region_translate_ok pb rb m v m' pa : 0 <= pb <= rb -> 1 <= rb <= 64 -> is_u64 v ->
  region_ok pb rb m -> region_translate (2 ^ pb) (2 ^ rb) v m = (m', pa) ->
  region_ok pb rb m' /\ mapped pb rb m' v pa /\ table (regions m) ⊆ table (regions m') /\
  m_page_table m ⊆ m_page_table m'.
Proof.
  intros Hb Hr Hv Hok E. unfold region_translate in E. rewrite !Z.log2_pow2 in E by lia.
  pose proof (Z.pow_lt_mono_r 2 (64 - rb) 64 ltac:(lia) ltac:(lia) ltac:(lia)).
  destruct (table (regions m) !! Z.shiftr v rb) as [p |] eqn:Ep.
  - destruct (m_page_table m !! Z.shiftr v pb) as [q |] eqn:Eq; simplify_eq.
    + destruct (g_pages _ _ _ Hok v q Eq) as (p' & Hp' & ->). simplify_eq.
      split_and!; [done | by exists p | done | done].
    + split_and!; [by apply region_add_page | | done | by apply insert_subseteq].
      exists p. simpl. by rewrite lookup_insert_eq.
  - destruct (number_of _ _) as [r1 tag] eqn:En. simplify_eq.
    destruct (number_of_ok _ _ _ _ _ (g_regions _ _ _ Hok) (shiftr_bound v rb Hv ltac:(lia)) ltac:(lia) En)
      as (N1 & N2 & N3).
    assert (m_page_table m !! Z.shiftr v pb = None) as Hnone.
    { destruct (m_page_table m !! Z.shiftr v pb) as [q |] eqn:Eq; [| done].
      destruct (g_pages _ _ _ Hok v q Eq) as (p' & Hp' & _). congruence. }
    split_and!; [| exists tag; simpl; by rewrite lookup_insert_eq | done | by apply insert_subseteq].
    apply (region_add_page pb rb (mk_region_mapper r1 (m_page_table m))); [done | | done].
    split; simpl; [done |]. intros v' q Hq. destruct (g_pages _ _ _ Hok v' q Hq) as (p' & Hp' & ->).
    exists p'. split; [by eapply lookup_weaken | done].
Qed.

Lemma mapped_weaken pb rb m m' v pa : table (regions m) ⊆ table (regions m') ->
  m_page_table m ⊆ m_page_table m' -> mapped pb rb m v pa -> mapped pb rb m' v pa.
Proof. intros H1 H2 (p & Hp & -> & Hq). exists p. split_and!; [by eapply lookup_weaken | done | by eapply lookup_weaken]. Qed.

Lemma region_run_ok pb rb vs : forall m m' ps, 0 <= pb <= rb -> 1 <= rb <= 64 -> Forall is_u64 vs ->
  region_ok pb rb m -> region_run (2 ^ pb) (2 ^ rb) vs m = (m', ps) ->
  region_ok pb rb m' /\ table (regions m) ⊆ table (regions m') /\ m_page_table m ⊆ m_page_table m' /\
  Forall2 (mapped pb rb m') vs ps.
Proof.
  induction vs as [| v vs IH]; intros m m' ps Hb Hr Hv Hok E; simpl in E.
  { simplify_eq. split_and!; [done | done | done | constructor]. }
  apply Forall_cons in Hv as [Hv Hvs].
  destruct (region_translate _ _ v m) as [m1 pa] eqn:Et.
  destruct (region_run _ _ vs m1) as [m2 ps'] eqn:Er. simplify_eq.
  destruct (region_translate_ok _ _ _ _ _ _ Hb Hr Hv Hok Et) as (H1 & H2 & H3 & H4).
  destruct (IH _ _ _ Hb Hr Hvs H1 Er) as (I1 & I2 & I3 & I4).
  split_and!; [done | by etrans | by etrans |]. constructor; [| done]. by eapply mapped_weaken.
Qed.

(** the region-based mapper is injective and keeps regions contiguous.
    Over any sequence of 64-bit addresses, equal addresses get equal physical
    addresses and different ones different physical addresses; two addresses
    of one region are as far apart physically as virtually; and the page table
    kept beside records the physical page of every translated address. *)
Theorem region_mapper_correct pb rb vs m0 m ps : 0 <= pb <= rb -> 1 <= rb <= 64 -> Forall is_u64 vs ->
  region_mapper_new (2 ^ pb) (2 ^ rb) = Done m0 -> region_run (2 ^ pb) (2 ^ rb) vs m0 = (m, ps) ->
  forall i j v v' pa pa', vs !! i = Some v -> vs !! j = Some v' -> ps !! i = Some pa -> ps !! j = Some pa' ->
    (pa = pa' <-> v = v') /\ (Z.shiftr v rb = Z.shiftr v' rb -> pa - pa' = v - v') /\
    m_page_table m !! Z.shiftr v pb = Some (Z.shiftr pa pb).
Proof.
  intros Hb Hr Hv E0 E. unfold region_mapper_new in E0. inv_done. subst m0.
  assert (region_ok pb rb (mk_region_mapper numbering_new ∅)) as H0.
  { split; [apply numbering_new_ok |]. intros v q. simpl. by rewrite lookup_empty. }
  destruct (region_run_ok _ _ _ _ _ _ Hb Hr Hv H0 E) as (H1 & _ & _ & H4).
  intros i j v v' pa pa' Hi Hj Hpi Hpj.
  destruct (Forall2_lookup_lr _ _ _ _ _ _ H4 Hi Hpi) as (p & Hp & -> & Hq).
  destruct (Forall2_lookup_lr _ _ _ _ _ _ H4 Hj Hpj) as (p' & Hp' & -> & _).
  split_and!; [split | | done].
  - apply (place_inj rb (regions m) p p'); [lia | by destruct H1 | done..].
  - intros <-. congruence.
  - intros Er. rewrite Er, Hp' in Hp. injection Hp as <-.
    pose proof (pow2_pos (64 - rb) ltac:(lia)).
    pose proof (vals_bounded _ (2 ^ (64 - rb)) _ _ ltac:(lia) (g_regions _ _ _ H1) Hp') as Hpb.
    rewrite !place_at_split by (done || lia). rewrite !Z.shiftr_div_pow2 in Er by lia.
    pose proof (pow2_pos rb ltac:(lia)). rewrite !Z.mod_eq by lia. lia.
Qed.

Lemma region_mapper_correct_witness : exists m0 m ps,
  region_mapper_new (2 ^ 12) (2 ^ 16) = Done m0 /\
  region_run (2 ^ 12) (2 ^ 16) [65536; 131072; 69632] m0 = (m, ps) /\
  m_page_table m !! Z.shiftr 131072 12 = Some (Z.shiftr 65536 12).
Proof.
  do 3 eexists. split; [reflexivity |]. split; [vm_compute; reflexivity |].
  eapply (region_mapper_correct 12 16 [65536; 131072; 69632] _ _ _ ltac:(lia) ltac:(lia) ltac:(u64_list)
            eq_refl ltac:(vm_compute; reflexivity) 1%nat 1%nat); reflexivity.
Defined.
