(* ===== verification/Rob.v ===== *)
(** * The reorder buffer, its fences and the per-thread buffers
      (rob.h, rob.cc, fence.h, rob_smc.h, rob_smc.cc)

    [Fence] is the three fence lists, [Rob] the circular buffer with the
    version bookkeeping of acquire/release ordering, [Smc] the assignment of
    buffers to threads. Micro-operations are objects of a shared store. *)

From S2P Require Import Prelude.

(** ** Micro-operations, as the back end uses them *)

Inductive Mem_Type :=
| NOT_MEM | MEM_LD | MEM_ST | MEM_PF | MEM_WH | MEM_EVICT | MEM_SWPREF_NTA | MEM_SWPREF_T0
| MEM_SWPREF_T1 | MEM_SWPREF_T2 | MEM_LD_LM | MEM_LD_SM | MEM_LD_GM | MEM_ST_LM | MEM_ST_SM
| MEM_ST_GM | MEM_LD_CM | MEM_LD_TM | MEM_LD_PM.
Inductive Bar_Type := NOT_BAR | BAR_FETCH | BAR_ISSUE | PTX_BLOCK_BAR | ACQ_BAR | REL_BAR.
(** The operations the back end tells apart; [UOP_OTHER c] is any other one, by its code. *)
Inductive Uop_Type :=
| UOP_FULL_FENCE | UOP_ACQ_FENCE | UOP_REL_FENCE | UOP_IADD | UOP_IMUL | UOP_ICMP
| UOP_FCVT | UOP_FADD | UOP_SIMD | UOP_OTHER (code : Z).
Inductive Cf_Type := NOT_CF | CF_BR | CF_CBR | CF_CALL | CF_IBR | CF_ICALL | CF_ICO | CF_RET | CF_MITE.
Inductive ALLOCQ := gen_ALLOCQ | mem_ALLOCQ | fp_ALLOCQ | simd_ALLOCQ.

#[export] Instance Mem_Type_eq_dec : EqDecision Mem_Type.
Proof. solve_decision. Defined.
#[export] Instance Bar_Type_eq_dec : EqDecision Bar_Type.
Proof. solve_decision. Defined.
#[export] Instance Uop_Type_eq_dec : EqDecision Uop_Type.
Proof. solve_decision. Defined.

Record uop_c := mk_uop {
  m_uop_num : Z;
  m_thread_id : Z;
  m_mem_type : Mem_Type;
  m_uop_type : Uop_Type;
  m_bar_type : Bar_Type;
  m_cf_type : Cf_Type;
  m_done_cycle : Z;
  m_sched_cycle : Z;
  m_btb_miss : bool;
  m_mem_version : Z;
  m_alloc_cycle : Z;
  m_req_sb : bool;
  m_req_lb : bool;
  m_req_int_reg : bool;
  m_req_fp_reg : bool;
  m_allocq_num : ALLOCQ;
  m_btb_miss_resolved : bool
}.

Abbreviation store := (gmap nat uop_c).

Definition set_mem_version (v : Z) (u : uop_c) : uop_c :=
  mk_uop (m_uop_num u) (m_thread_id u) (m_mem_type u) (m_uop_type u) (m_bar_type u) (m_cf_type u)
    (m_done_cycle u) (m_sched_cycle u) (m_btb_miss u) v (m_alloc_cycle u) (m_req_sb u)
    (m_req_lb u) (m_req_int_reg u) (m_req_fp_reg u) (m_allocq_num u) (m_btb_miss_resolved u).

Definition get_uop (p : option nat) (σ : store) : outcome uop_c :=
  a ← get_or NullDeref p; get_or UseAfterFree (σ !! a).

Module Fence.

Inductive fence_type := FENCE_ACQUIRE | FENCE_RELEASE | FENCE_FULL.

(** A set for membership and a list for order. *)
Record fence_list := mk_fence_list { m_fence_set : gset Z; m_fence_list : list Z }.
Definition fence_list_new : fence_list := mk_fence_list ∅ [].

Definition fl_ins (entry : Z) (f : fence_list) : fence_list :=
  if decide (entry ∈ m_fence_set f) then f
  else mk_fence_list ({[entry]} ∪ m_fence_set f) (m_fence_list f ++ [entry]).

(** [front()] of an empty list is undefined. *)
Definition fl_del (f : fence_list) : outcome fence_list :=
  match m_fence_list f with
  | [] => Fault UseAfterFree
  | e :: l => mret (mk_fence_list (m_fence_set f ∖ {[e]}) l)
  end.

Definition fl_front_index (f : fence_list) : Z :=
  match m_fence_list f with [] => -1 | e :: _ => e end.

Definition fl_empty (f : fence_list) : bool :=
  match m_fence_list f with [] => true | _ => false end.

Record fence_c := mk_fence { m_full : fence_list; m_acq : fence_list; m_rel : fence_list }.
Definition fence_new : fence_c := mk_fence fence_list_new fence_list_new fence_list_new.

Definition list_of (ft : fence_type) (f : fence_c) : fence_list :=
  match ft with FENCE_ACQUIRE => m_acq f | FENCE_RELEASE => m_rel f | FENCE_FULL => m_full f end.
Definition with_list (ft : fence_type) (l : fence_list) (f : fence_c) : fence_c :=
  match ft with
  | FENCE_ACQUIRE => mk_fence (m_full f) l (m_rel f)
  | FENCE_RELEASE => mk_fence (m_full f) (m_acq f) l
  | FENCE_FULL => mk_fence l (m_acq f) (m_rel f)
  end.

Definition get_front_index (ft : fence_type) (f : fence_c) : Z := fl_front_index (list_of ft f).
Definition is_fence_active (f : fence_c) : bool :=
  negb (fl_empty (m_full f)) || negb (fl_empty (m_acq f)) || negb (fl_empty (m_rel f)).
Definition ins_fence_entry (entry : Z) (ft : fence_type) (f : fence_c) : fence_c :=
  with_list ft (fl_ins entry (list_of ft f)) f.
Definition del_fence_entry (ft : fence_type) (f : fence_c) : outcome fence_c :=
  l ← fl_del (list_of ft f); mret (with_list ft l f).
Definition is_list_empty (f : fence_c) : bool :=
  fl_empty (m_full f) && fl_empty (m_acq f) && fl_empty (m_rel f).

End Fence.

Module Rob.
Import Fence.

Record orq_entry := mk_orq { uop_num : Z; version : Z }.

Record rob_c := mk_rob {
  m_max_cnt : Z;
  m_usable_cnt : Z;
  m_free_cnt : Z;
  m_rob : list (option nat);
  m_first_entry : Z;
  m_last_entry : Z;
  m_fence : fence_c;
  m_wb_empty : bool;
  m_version : Z;
  m_reset_uop_num : Z;
  m_last_fence_version : Z;
  m_orq : list orq_entry;
  m_root_fences : gmap Z bool
}.

(** The constructor; the three version counters are not initialised by it. *)
Definition rob_new (knob_rob_size version reset_uop_num last_fence_version : Z) : rob_c :=
  let max := knob_rob_size * 2 in
  mk_rob max (max / 2) (max / 2) (replicate (Z.to_nat max) None) 0 0 fence_new true
    version reset_uop_num last_fence_version [] ∅.

Definition entries (r : rob_c) : Z := m_usable_cnt r - m_free_cnt r.
Definition space (r : rob_c) : Z := m_free_cnt r.
Definition back (r : rob_c) : outcome (option nat) :=
  aget (m_rob r) ((m_last_entry r + m_max_cnt r - 1) mod m_max_cnt r).
Definition front (r : rob_c) : outcome (option nat) := aget (m_rob r) (m_first_entry r).
Definition front_rob (r : rob_c) : Z := m_first_entry r.
Definition last_rob (r : rob_c) : Z := m_last_entry r.
Definition inc_index (index : Z) (r : rob_c) : Z := (index + 1) mod m_max_cnt r.
Definition dec_index (index : Z) (r : rob_c) : Z := (index + m_max_cnt r - 1) mod m_max_cnt r.

Definition with_buffer (b : list (option nat)) (free first last : Z) (r : rob_c) : rob_c :=
  mk_rob (m_max_cnt r) (m_usable_cnt r) free b first last (m_fence r) (m_wb_empty r) (m_version r)
    (m_reset_uop_num r) (m_last_fence_version r) (m_orq r) (m_root_fences r).
Definition with_versions (v reset lfv : Z) (orq : list orq_entry) (roots : gmap Z bool) (r : rob_c) : rob_c :=
  mk_rob (m_max_cnt r) (m_usable_cnt r) (m_free_cnt r) (m_rob r) (m_first_entry r) (m_last_entry r)
    (m_fence r) (m_wb_empty r) v reset lfv orq roots.
Definition with_fence (f : fence_c) (r : rob_c) : rob_c :=
  mk_rob (m_max_cnt r) (m_usable_cnt r) (m_free_cnt r) (m_rob r) (m_first_entry r) (m_last_entry r)
    f (m_wb_empty r) (m_version r) (m_reset_uop_num r) (m_last_fence_version r) (m_orq r) (m_root_fences r).

Definition is_any_fence (u : uop_c) : bool :=
  match m_uop_type u with UOP_FULL_FENCE | UOP_ACQ_FENCE | UOP_REL_FENCE => true | _ => false end.
Definition is_root_fence (u : uop_c) : bool :=
  match m_uop_type u with UOP_FULL_FENCE | UOP_ACQ_FENCE => true | _ => false end.

Section KNOBS.
Context (KNOB_FENCE_ENABLE KNOB_USE_WB KNOB_ACQ_REL : bool).

(** The version a micro-operation gets, and the counters after it.
    [m_version] and [m_last_fence_version] are 16 bits wide. *)
Definition process_version (u : nat) (r : rob_c) (σ : store) : outcome (rob_c * store) :=
  x ← get_uop (Some u) σ;
  let σ1 :=
    match m_mem_type x with
    | NOT_MEM => σ
    | _ => <[u := set_mem_version
                    (match m_bar_type x with
                     | REL_BAR | ACQ_BAR => m_last_fence_version r
                     | _ => m_version r
                     end) x]> σ
    end in
  let lfv := if is_any_fence x then u16 (m_last_fence_version r + 1) else m_last_fence_version r in
  if is_root_fence x then
    let r1 := if KNOB_FENCE_ENABLE
              then with_versions (m_version r) (m_reset_uop_num r) lfv
                     (m_orq r ++ [mk_orq (m_uop_num x) lfv])
                     (match m_root_fences r !! m_uop_num x with
                      | Some _ => m_root_fences r
                      | None => <[m_uop_num x := false]> (m_root_fences r)
                      end) r
              else with_versions (m_version r) (m_reset_uop_num r) lfv (m_orq r) (m_root_fences r) r in
    let v := match m_uop_type x with UOP_FULL_FENCE => lfv | _ => m_version r1 end in
    mret (with_versions v (m_reset_uop_num r1) (m_last_fence_version r1) (m_orq r1) (m_root_fences r1) r1, σ1)
  else mret (with_versions (m_version r) (m_reset_uop_num r) lfv (m_orq r) (m_root_fences r) r, σ1).

Definition push (u : nat) (r : rob_c) (σ : store) : outcome (rob_c * store) :=
  b ← aset (m_rob r) (m_last_entry r) (Some u);
  let r1 := with_buffer b (m_free_cnt r - 1) (m_first_entry r)
              ((m_last_entry r + 1) mod m_max_cnt r) r in
  process_version u r1 σ.

(** Popping the last entry resets the versions. *)
Definition pop (r : rob_c) (σ : store) : outcome rob_c :=
  r1 ← (if (entries r =? 1) && bool_decide (m_orq r = []) then
          p ← back r; x ← get_uop p σ;
          mret (with_versions 0 (m_uop_num x) 0 (m_orq r) (m_root_fences r) r)
        else mret r);
  mret (with_buffer (m_rob r1) (m_free_cnt r1 + 1) ((m_first_entry r1 + 1) mod m_max_cnt r1)
          (m_last_entry r1) r1).

Definition reinit (r : rob_c) : rob_c :=
  let b := replicate (Z.to_nat (m_max_cnt r)) None in
  mk_rob (m_max_cnt r) (m_max_cnt r / 2) (m_max_cnt r / 2) b 0 0 (m_fence r) (m_wb_empty r)
    (m_version r) (m_reset_uop_num r) (m_last_fence_version r) (m_orq r) (m_root_fences r).

(** The loop of [update_orq]: it runs at most once per entry. *)
Fixpoint orq_loop (lowest_age : Z) (q : list orq_entry) (roots : gmap Z bool)
    : outcome (list orq_entry * gmap Z bool) :=
  match q with
  | [] => mret ([], roots)
  | e :: q' =>
      if uop_num e <? lowest_age then
        b ← get_or AssertFailed (roots !! uop_num e);
        if b : bool then orq_loop lowest_age q' (delete (uop_num e) roots) else mret (q, roots)
      else mret (q, roots)
  end.

Definition update_orq (lowest_age : Z) (r : rob_c) : outcome rob_c :=
  '(q, roots) ← orq_loop lowest_age (m_orq r) (m_root_fences r);
  mret (with_versions (m_version r) (m_reset_uop_num r) (m_last_fence_version r) q roots r).

Definition update_root (x : uop_c) (r : rob_c) : outcome rob_c :=
  if negb (is_root_fence x) then mret r else
  _ ← ASSERT (negb (bool_decide (m_orq r = [])));
  _ ← get_or AssertFailed (m_root_fences r !! m_uop_num x);
  mret (with_versions (m_version r) (m_reset_uop_num r) (m_last_fence_version r) (m_orq r)
          (<[m_uop_num x := true]> (m_root_fences r)) r).

#[local] Instance orq_entry_eq_dec : EqDecision orq_entry.
Proof. solve_decision. Defined.

(** The deadlock warning reads [m_orq.front()] before the emptiness test. *)
Definition version_ordering_check (x : uop_c) (r : rob_c) : outcome bool :=
  _ ← (if (m_mem_version x =? 65535) && (m_reset_uop_num r <? m_uop_num x)
       then match m_orq r with [] => Fault UseAfterFree | _ => mret tt end else mret tt);
  match m_orq r with
  | [] => mret false
  | e :: _ => mret (negb ((m_mem_version x <=? version e) || (m_uop_num x <=? m_reset_uop_num r)))
  end.

Definition get_orq_version (r : rob_c) : Z := match m_orq r with [] => 65535 | e :: _ => version e end.
Definition version_bits_avail (r : rob_c) : bool := m_last_fence_version r <? 65535.

(** [while (search_idx != entry)] over the circular buffer. *)
Fixpoint pending_loop (fuel : nat) (entry idx : Z) (r : rob_c) (σ : store) : outcome bool :=
  match fuel with
  | O => Fault Diverged
  | S fuel' =>
      if idx =? entry then mret (if KNOB_USE_WB then negb (m_wb_empty r) else false) else
      p ← aget (m_rob r) idx;
      x ← get_uop p σ;
      match m_mem_type x with
      | NOT_MEM => pending_loop fuel' entry ((idx + 1) mod m_max_cnt r) r σ
      | _ => mret true
      end
  end.
Definition pending_mem_ops (entry : Z) (r : rob_c) (σ : store) : outcome bool :=
  pending_loop (S (Z.to_nat (m_max_cnt r))) entry (m_first_entry r) r σ.

Definition get_relative_index (entry : Z) (r : rob_c) : Z :=
  if m_first_entry r <=? entry then entry - m_first_entry r
  else entry + m_max_cnt r - m_first_entry r.

Definition is_later_entry (first_fence_entry entry : Z) (r : rob_c) : bool :=
  negb (get_relative_index entry r <? get_relative_index first_fence_entry r).

(** The acquire, release and full lists in this order, until one fence is not
    behind the entry. *)
Definition ensure_mem_ordering (entry : Z) (r : rob_c) : bool :=
  if KNOB_ACQ_REL then false else
  if is_list_empty (m_fence r) then false else
  existsb (fun f => is_later_entry f entry r)
    (m_fence_list (m_acq (m_fence r)) ++ m_fence_list (m_rel (m_fence r)) ++ m_fence_list (m_full (m_fence r))).

Definition rob_ins_fence_entry (entry : Z) (ft : fence_type) (r : rob_c) : rob_c :=
  with_fence (ins_fence_entry entry ft (m_fence r)) r.
Definition rob_del_fence_entry (ft : fence_type) (r : rob_c) : outcome rob_c :=
  f ← del_fence_entry ft (m_fence r); mret (with_fence f r).
Definition set_wb_empty (state : bool) (r : rob_c) : rob_c :=
  mk_rob (m_max_cnt r) (m_usable_cnt r) (m_free_cnt r) (m_rob r) (m_first_entry r) (m_last_entry r)
    (m_fence r) state (m_version r) (m_reset_uop_num r) (m_last_fence_version r) (m_orq r) (m_root_fences r).

End KNOBS.

(** ** The buffer as a queue *)

Record rob_ok (r : rob_c) (l : list nat) : Prop := {
  k_max : m_max_cnt r = 2 * m_usable_cnt r /\ 0 < m_usable_cnt r;
  k_len : Z.of_nat (length (m_rob r)) = m_max_cnt r;
  k_first : 0 <= m_first_entry r < m_max_cnt r;
  k_last : m_last_entry r = (m_first_entry r + Z.of_nat (length l)) mod m_max_cnt r;
  k_free : m_free_cnt r = m_usable_cnt r - Z.of_nat (length l);
  k_fit : Z.of_nat (length l) <= m_usable_cnt r;
  k_slot : forall i u, l !! i = Some u ->
    m_rob r !! Z.to_nat ((m_first_entry r + Z.of_nat i) mod m_max_cnt r) = Some (Some u)
}.

(** Positions less than a turn apart are different slots. *)
Lemma ring_inj m f i j : 0 <= i < m -> 0 <= j < m -> (f + i) mod m = (f + j) mod m -> i = j.
Proof.
  intros Hi Hj E. pose proof (Z.div_mod (f + i) m ltac:(lia)). pose proof (Z.div_mod (f + j) m ltac:(lia)).
  assert ((f + i) / m = (f + j) / m) by nia. nia.
Qed.

Lemma ring_bound m x : 0 < m -> 0 <= x mod m < m.
Proof. intros. by apply Z.mod_pos_bound. Qed.

Lemma ring_next m f i : 0 < m -> ((f + 1) mod m + i) mod m = (f + (i + 1)) mod m.
Proof. intros. rewrite Z.add_mod_idemp_l by lia. f_equal. lia. Qed.

(** Versions do not concern the buffer. *)
Definition same_buffer (r r' : rob_c) : Prop :=
  m_max_cnt r' = m_max_cnt r /\ m_usable_cnt r' = m_usable_cnt r /\ m_free_cnt r' = m_free_cnt r /\
  m_rob r' = m_rob r /\ m_first_entry r' = m_first_entry r /\ m_last_entry r' = m_last_entry r.

Lemma rob_ok_same r r' l : same_buffer r r' -> rob_ok r l -> rob_ok r' l.
Proof. intros (E1 & E2 & E3 & E4 & E5 & E6) []. split; rewrite ?E1, ?E2, ?E3, ?E4, ?E5, ?E6; done. Qed.

Lemma process_version_ok fe u r σ : is_Some (σ !! u) ->
  exists r' σ', process_version fe u r σ = Done (r', σ') /\ same_buffer r r' /\ dom σ' = dom σ /\
    m_fence r' = m_fence r.
Proof.
  intros [x Hx]. unfold process_version, get_uop. simpl. rewrite Hx. simpl.
  assert (forall v, dom (<[u := set_mem_version v x]> σ) = dom σ) as Hd.
  { intros v. apply dom_insert_lookup_L. by exists x. }
  assert (forall mt, dom (match mt with NOT_MEM => σ | _ => <[u := set_mem_version
    (match m_bar_type x with REL_BAR | ACQ_BAR => m_last_fence_version r | _ => m_version r end) x]> σ end)
    = dom σ) as Hd' by (intros []; done || apply Hd).
  destruct (is_root_fence x); do 2 eexists; (split; [reflexivity |]);
    (split; [by destruct fe |]); (split; [apply Hd' | by destruct fe]).
Qed.

Lemma push_ok fe u r l σ : rob_ok r l -> 1 <= space r -> is_Some (σ !! u) ->
  exists r' σ', push fe u r σ = Done (r', σ') /\ rob_ok r' (l ++ [u]) /\ dom σ' = dom σ /\
    m_fence r' = m_fence r /\ m_max_cnt r' = m_max_cnt r /\ m_first_entry r' = m_first_entry r.
Proof.
  intros [K1 K2 K3 K4 K5 K6 K7] Hs Hu. unfold space in Hs. unfold push.
  assert (0 <= m_last_entry r < m_max_cnt r) as Hl by (rewrite K4; apply ring_bound; lia).
  rewrite aset_in_range by lia. simpl.
  match goal with |- exists r' σ', process_version fe u ?q σ = _ /\ _ =>
    destruct (process_version_ok fe u q σ Hu) as (r' & σ' & E & Hb & Hd & Hf) end.
  exists r', σ'. pose proof Hb as (B1 & _ & _ & _ & B5 & _). simpl in B1, B5.
  split_and!; [done | | done | done | done | done]. apply (rob_ok_same _ _ _ Hb).
  split; simpl; rewrite ?length_insert, ?length_app; simpl; [done | done | done | | lia | lia |].
  - rewrite K4, Z.add_mod_idemp_l by lia. f_equal. lia.
  - intros i v [[Hlt Hi] | [-> ->]]%lookup_snoc_Some.
    + rewrite list_lookup_insert_ne; [by apply K7 |]. intros E'.
      pose proof (ring_bound (m_max_cnt r) (m_first_entry r + Z.of_nat i) ltac:(lia)).
      assert (Z.of_nat (length l) = Z.of_nat i); [| lia].
      apply (ring_inj (m_max_cnt r) (m_first_entry r)); lia.
    + rewrite <- K4. apply list_lookup_insert_eq. lia.
Qed.

(** The only field [push] writes is the version. *)
Lemma push_store fe u r σ r' σ' : push fe u r σ = Done (r', σ') ->
  exists x, σ !! u = Some x /\ (σ' = σ \/ exists v, σ' = <[u := set_mem_version v x]> σ).
Proof.
  unfold push, process_version, get_uop. intros H. apply bind_done_inv in H as (b & _ & H). simpl in H.
  destruct (σ !! u) as [x |] eqn:Ex; simpl in H; [| done]. exists x. split; [done |].
  destruct (is_root_fence x); inv_done; simplify_eq; destruct (m_mem_type x); eauto.
Qed.

Lemma front_ok r u l : rob_ok r (u :: l) -> front r = Done (Some u).
Proof.
  intros [K1 K2 K3 K4 K5 K6 K7]. unfold front. specialize (K7 0%nat u eq_refl). simpl in K7.
  rewrite Z.add_0_r, Z.mod_small in K7 by lia. unfold aget.
  rewrite (proj2 (Z.leb_le _ _)) by lia. by rewrite K7.
Qed.

Lemma back_ok r l u : rob_ok r (l ++ [u]) -> back r = Done (Some u).
Proof.
  intros [K1 K2 K3 K4 K5 K6 K7]. unfold back. rewrite length_app in *. simpl in *.
  specialize (K7 (length l) u). rewrite lookup_app_r, Nat.sub_diag in K7 by lia. specialize (K7 eq_refl).
  rewrite K4. replace ((m_first_entry r + Z.of_nat (length l + 1)) mod m_max_cnt r + m_max_cnt r - 1)
    with ((m_first_entry r + Z.of_nat (length l + 1)) mod m_max_cnt r + (m_max_cnt r - 1)) by lia.
  rewrite Z.add_mod_idemp_l by lia.
  replace (m_first_entry r + Z.of_nat (length l + 1) + (m_max_cnt r - 1))
    with (m_first_entry r + Z.of_nat (length l) + 1 * m_max_cnt r) by lia.
  rewrite Z.mod_add by lia. unfold aget.
  pose proof (ring_bound (m_max_cnt r) (m_first_entry r + Z.of_nat (length l)) ltac:(lia)).
  rewrite (proj2 (Z.leb_le _ _)) by lia. by rewrite K7.
Qed.

Lemma pop_ok r u l σ : rob_ok r (u :: l) -> (forall v, v ∈ u :: l -> is_Some (σ !! v)) ->
  exists r', pop r σ = Done r' /\ rob_ok r' l /\ m_fence r' = m_fence r /\ m_max_cnt r' = m_max_cnt r.
Proof.
  intros H Hσ. unfold pop.
  assert (exists r1, (if (entries r =? 1) && bool_decide (m_orq r = []) then
          p ← back r; x ← get_uop p σ;
          mret (with_versions 0 (m_uop_num x) 0 (m_orq r) (m_root_fences r) r)
        else mret r) = Done r1 /\ same_buffer r r1 /\ m_fence r1 = m_fence r) as (r1 & -> & Hb & Hf).
  { destruct (_ && _) eqn:E; [| by exists r]. apply andb_true_iff in E as [E _]. apply Z.eqb_eq in E.
    pose proof (k_free _ _ H) as Hfr. unfold entries in E. simpl in Hfr. assert (l = []) as ->.
    { destruct l; [done | simpl in Hfr; lia]. }
    rewrite (back_ok r [] u H). destruct (Hσ u) as [x Hx]; [apply list_elem_of_here |].
    unfold get_uop. simpl. rewrite Hx. by eexists. }
  simpl. apply (rob_ok_same _ _ _ Hb) in H. destruct Hb as (B1 & _). destruct H as [K1 K2 K3 K4 K5 K6 K7].
  simpl in *. eexists. split_and!; [done | | done | done].
  split; simpl; [done | done | apply ring_bound; lia | | lia | lia |].
  - rewrite K4, Z.add_mod_idemp_l by lia. f_equal. lia.
  - intros i v Hi. specialize (K7 (S i) v Hi). rewrite Nat2Z.inj_succ in K7.
    rewrite Z.add_mod_idemp_l by lia. rewrite <- K7. do 3 f_equal. lia.
Qed.

Lemma rob_new_ok size v re lf : 0 < size -> rob_ok (rob_new size v re lf) [].
Proof.
  intros H. split; simpl; rewrite ?length_replicate, ?Z.div_mul, ?Z.mod_small by lia; try lia; done.
Qed.

Lemma reinit_ok r l : rob_ok r l -> rob_ok (reinit r) [].
Proof.
  intros [K1 K2 K3 K4 K5 K6 K7]. destruct K1 as [K1 K1']. split; simpl;
    rewrite ?K1, ?(Z.mul_comm 2), ?Z.div_mul, ?length_replicate, ?Z.mod_small by lia; try lia; done.
Qed.

(** ** Scripts *)
Inductive rob_op := RPush (u : nat) | RPop.

(** [push] as the allocation stage guards it, [pop] as the retire stage does;
    the result is the micro-operation at the front before the step. *)
Definition rob_exec (fe : bool) (o : rob_op) (r : rob_c) (σ : store) : outcome (rob_c * store * option nat) :=
  f ← (if entries r =? 0 then mret None else front r);
  match o with
  | RPush u => if 1 <=? space r then '(r', σ') ← push fe u r σ; mret (r', σ', f) else mret (r, σ, f)
  | RPop => if entries r =? 0 then mret (r, σ, f) else r' ← pop r σ; mret (r', σ, f)
  end.

Fixpoint rob_run (fe : bool) (ops : list rob_op) (r : rob_c) (σ : store)
    : outcome (rob_c * store * list (option nat)) :=
  match ops with
  | [] => mret (r, σ, [])
  | o :: ops' => '(r1, σ1, f) ← rob_exec fe o r σ;
                 '(r2, σ2, fs) ← rob_run fe ops' r1 σ1; mret (r2, σ2, f :: fs)
  end.

(** The specification: a bounded first-in first-out queue. *)
Definition queue_exec (cap : Z) (o : rob_op) (l : list nat) : list nat :=
  match o with
  | RPush u => if Z.of_nat (length l) <? cap then l ++ [u] else l
  | RPop => tail l
  end.

Fixpoint queue_run (cap : Z) (ops : list rob_op) (l : list nat) : list nat * list (option nat) :=
  match ops with
  | [] => (l, [])
  | o :: ops' => let '(l2, fs) := queue_run cap ops' (queue_exec cap o l) in (l2, head l :: fs)
  end.

Lemma rob_exec_ok fe o r l σ : rob_ok r l -> (forall v, v ∈ l -> is_Some (σ !! v)) ->
  (forall u, o = RPush u -> is_Some (σ !! u)) ->
  exists r' σ', rob_exec fe o r σ = Done (r', σ', head l) /\ rob_ok r' (queue_exec (m_usable_cnt r) o l) /\
    dom σ' = dom σ /\ m_usable_cnt r' = m_usable_cnt r.
Proof.
  intros H Hl Ho. unfold rob_exec. pose proof (k_free _ _ H) as Hf.
  assert ((if entries r =? 0 then mret None else front r) = Done (head l)) as ->.
  { unfold entries. destruct l as [| v l]; [by rewrite (proj2 (Z.eqb_eq _ _)) by (simpl in Hf; lia) |].
    rewrite (proj2 (Z.eqb_neq _ _)) by (simpl in Hf; lia). by apply (front_ok r v l). }
  simpl. unfold entries. destruct o as [u |]; simpl.
  - destruct (Z.leb_spec 1 (space r)); unfold space in *.
    + destruct (push_ok fe u r l σ H) as (r' & σ' & -> & H' & Hd & _ & Hm & _); [done | by apply Ho |].
      simpl. rewrite (proj2 (Z.ltb_lt _ _)) by lia. exists r', σ'. split_and!; [done | done | done |].
      pose proof (k_max _ _ H). pose proof (k_max _ _ H'). lia.
    + rewrite (proj2 (Z.ltb_ge _ _)) by lia. by exists r, σ.
  - destruct l as [| v l]; simpl.
    + rewrite (proj2 (Z.eqb_eq _ _)) by (simpl in Hf; lia). by exists r, σ.
    + rewrite (proj2 (Z.eqb_neq _ _)) by (simpl in Hf; lia).
      destruct (pop_ok r v l σ H Hl) as (r' & -> & H' & _ & Hm). simpl. exists r', σ.
      split_and!; [done | done | done |]. pose proof (k_max _ _ H). pose proof (k_max _ _ H'). lia.
Qed.

Lemma queue_exec_sub cap o l v : v ∈ queue_exec cap o l -> v ∈ l \/ o = RPush v.
Proof.
  destruct o as [u |]; simpl.
  - destruct (_ <? _); [| by left]. intros [Hv | Hv]%elem_of_app; [by left |].
    apply list_elem_of_singleton in Hv as ->. by right.
  - intros H. left. destruct l; [done |]. by apply list_elem_of_further.
Qed.

Lemma rob_run_ok fe ops : forall r l σ, rob_ok r l ->
  (forall v, v ∈ l \/ RPush v ∈ ops -> is_Some (σ !! v)) ->
  exists r' σ', rob_run fe ops r σ = Done (r', σ', snd (queue_run (m_usable_cnt r) ops l)) /\
    rob_ok r' (fst (queue_run (m_usable_cnt r) ops l)) /\ m_usable_cnt r' = m_usable_cnt r.
Proof.
  induction ops as [| o ops IH]; intros r l σ H Hl; simpl; [by exists r, σ |].
  destruct (rob_exec_ok fe o r l σ H) as (r1 & σ1 & -> & H1 & Hd & Hu).
  { intros v Hv. apply Hl. by left. }
  { intros u ->. apply Hl. right. apply list_elem_of_here. }
  simpl. destruct (IH r1 _ σ1 H1) as (r2 & σ2 & E & H2 & H3).
  { intros v Hv. apply elem_of_dom. rewrite Hd. apply elem_of_dom, Hl.
    destruct Hv as [[Hv | ->]%queue_exec_sub | Hv]; [by left | right; apply list_elem_of_here |].
    right. by apply list_elem_of_further. }
  rewrite E. simpl. rewrite Hu in *. destruct (queue_run _ ops _) as [l2 fs] eqn:Eq. simpl in *.
  by exists r2, σ2.
Qed.

(** ** Order within the buffer *)

(** The slot of the [i]-th oldest entry. *)
Definition slot (r : rob_c) (i : nat) : Z := (m_first_entry r + Z.of_nat i) mod m_max_cnt r.

Lemma relative_slot r l i : rob_ok r l -> (i < Z.to_nat (m_max_cnt r))%nat ->
  get_relative_index (slot r i) r = Z.of_nat i.
Proof.
  intros [K1 K2 K3 _ _ _ _] Hi. unfold get_relative_index, slot.
  destruct (Z.lt_ge_cases (m_first_entry r + Z.of_nat i) (m_max_cnt r)).
  - rewrite Z.mod_small by lia. rewrite (proj2 (Z.leb_le _ _)) by lia. lia.
  - assert ((m_first_entry r + Z.of_nat i) mod m_max_cnt r = m_first_entry r + Z.of_nat i - m_max_cnt r) as ->.
    { symmetry. apply Z.mod_unique_pos with 1; lia. }
    rewrite (proj2 (Z.leb_gt _ _)) by lia. lia.
Qed.

Lemma later_slot r l i j : rob_ok r l -> (i < length l)%nat -> (j < length l)%nat ->
  is_later_entry (slot r i) (slot r j) r = bool_decide (i <= j)%nat.
Proof.
  intros H Hi Hj. pose proof (k_fit _ _ H). pose proof (k_max _ _ H). unfold is_later_entry.
  rewrite !(relative_slot r l) by (done || lia).
  destruct (Z.ltb_spec (Z.of_nat j) (Z.of_nat i)); case_bool_decide; try done; lia.
Qed.

Lemma slot_next r l i : rob_ok r l -> (slot r i + 1) mod m_max_cnt r = slot r (S i).
Proof.
  intros H. pose proof (k_max _ _ H). unfold slot. rewrite Z.add_mod_idemp_l by lia. f_equal. lia.
Qed.

Lemma slot_get r l i u : rob_ok r l -> l !! i = Some u -> aget (m_rob r) (slot r i) = Done (Some u).
Proof.
  intros [K1 K2 K3 _ _ _ K7] Hu. unfold aget, slot.
  pose proof (ring_bound (m_max_cnt r) (m_first_entry r + Z.of_nat i) ltac:(lia)).
  rewrite (proj2 (Z.leb_le _ _)) by lia. by rewrite (K7 i u Hu).
Qed.

Definition is_mem (σ : store) (u : nat) : bool :=
  match m_mem_type <$> σ !! u with Some NOT_MEM | None => false | _ => true end.

Lemma pending_loop_ok wb r l σ j : rob_ok r l -> (j <= length l)%nat ->
  (forall v, v ∈ l -> is_Some (σ !! v)) ->
  forall k i fuel, (j = i + k)%nat -> (k < fuel)%nat ->
  pending_loop wb fuel (slot r j) (slot r i) r σ =
    Done (existsb (is_mem σ) (take k (drop i l)) || (if wb then negb (m_wb_empty r) else false)).
Proof.
  intros H Hj Hl. pose proof (k_fit _ _ H) as Kf. pose proof (k_max _ _ H) as Km. induction k as [| k IH]; intros i fuel Hik Hfuel.
  - rewrite Nat.add_0_r in Hik. subst i. destruct fuel as [| fuel]; [lia |]. cbn [pending_loop].
    by rewrite Z.eqb_refl, take_0.
  - destruct fuel as [| fuel]; [lia |]. cbn [pending_loop].
    rewrite (proj2 (Z.eqb_neq _ _)); cycle 1.
    { unfold slot. intros E. apply ring_inj in E; [| lia..]. lia. }
    destruct (lookup_lt_is_Some_2 l i) as [u Hu]; [lia |].
    rewrite (slot_get _ _ _ _ H Hu). cbn [mbind outcome_bind]. destruct (Hl u) as [x Hx].
    { by eapply list_elem_of_lookup_2. }
    unfold get_uop. simpl. rewrite Hx. simpl. rewrite (drop_S _ _ _ Hu). simpl.
    unfold is_mem at 1. rewrite Hx. simpl.
    rewrite (slot_next r l i H). destruct (m_mem_type x); simpl; try done. apply IH; lia.
Qed.

(** C16: the reorder buffer is a bounded first-in first-out queue. Every script
    of guarded pushes and pops, started from the constructor with whatever the
    uninitialised version counters hold, runs without a fault, shows at each
    step the oldest micro-operation that is still in, and keeps at most
    [size] of them, in insertion order. *)
Theorem rob_refines_queue fe size v re lf ops (σ : store) : 0 < size ->
  (forall u, RPush u ∈ ops -> is_Some (σ !! u)) ->
  exists r σ' l fs, queue_run size ops [] = (l, fs) /\
    rob_run fe ops (rob_new size v re lf) σ = Done (r, σ', fs) /\
    entries r = Z.of_nat (length l) /\ space r = size - Z.of_nat (length l) /\
    forall i u, l !! i = Some u -> aget (m_rob r) (slot r i) = Done (Some u).
Proof.
  intros Hs Hσ. destruct (rob_run_ok fe ops (rob_new size v re lf) [] σ) as (r & σ' & E & H & Er).
  { by apply rob_new_ok. }
  { intros u [Hu | Hu]; [by apply not_elem_of_nil in Hu | by apply Hσ]. }
  assert (m_usable_cnt (rob_new size v re lf) = size) as Eu by (simpl; apply Z.div_mul; lia).
  rewrite Eu in *. destruct (queue_run size ops []) as [l fs]. simpl in *.
  exists r, σ', l, fs.
  split_and!; [done | done | | | intros i u; by apply (slot_get r l)];
    unfold entries, space; rewrite (k_free _ _ H), Er; lia.
Qed.

(** The entries of all three fence lists. *)
Definition fences (r : rob_c) : list Z :=
  m_fence_list (m_acq (m_fence r)) ++ m_fence_list (m_rel (m_fence r)) ++ m_fence_list (m_full (m_fence r)).

(** the ordering queries see program order. On a buffer holding [l], for
    the entry of the [j]-th oldest micro-operation: [pending_mem_ops] finds a
    memory operation among exactly the older ones (or a non-empty write
    buffer), and when every fence entry belongs to a live micro-operation,
    [ensure_mem_ordering] demands ordering exactly when a fence is at or
    before it, wherever the buffer wraps around. *)
Theorem rob_order_checks wb r l j σ : rob_ok r l -> (j < length l)%nat ->
  (forall v, v ∈ l -> is_Some (σ !! v)) ->
  pending_mem_ops wb (slot r j) r σ =
    Done (existsb (is_mem σ) (take j l) || (if wb then negb (m_wb_empty r) else false)) /\
  ((forall e, e ∈ fences r -> exists i, (i < length l)%nat /\ e = slot r i) ->
   (ensure_mem_ordering false (slot r j) r = true <->
    exists i, (i <= j)%nat /\ slot r i ∈ fences r)).
Proof.
  intros H Hj Hl. pose proof (k_fit _ _ H). pose proof (k_max _ _ H). split.
  - unfold pending_mem_ops. replace (m_first_entry r) with (slot r 0).
    + rewrite (pending_loop_ok wb r l σ j H ltac:(lia) Hl j 0%nat) by lia. by rewrite drop_0.
    + unfold slot. rewrite Z.add_0_r. apply Z.mod_small. apply (k_first _ _ H).
  - intros Hf. unfold ensure_mem_ordering. fold (fences r).
    assert (is_list_empty (m_fence r) = true -> fences r = []) as He.
    { unfold is_list_empty, fl_empty, fences. destruct (m_fence_list (m_full _)),
        (m_fence_list (m_acq _)), (m_fence_list (m_rel _)); done. }
    destruct (is_list_empty (m_fence r)).
    { rewrite He by done. split; [done |]. intros (i & _ & Hi). by apply not_elem_of_nil in Hi. }
    rewrite existsb_exists. split.
    + intros (e & He1 & He2). apply list_elem_of_In in He1. destruct (Hf e He1) as (i & Hi & ->).
      rewrite (later_slot r l) in He2 by done. apply bool_decide_eq_true in He2. eauto.
    + intros (i & Hij & Hi). exists (slot r i). split; [by apply list_elem_of_In |].
      rewrite (later_slot r l) by (done || lia). by apply bool_decide_eq_true.
Qed.

(** ** The queue of root fences *)

Record orq_ok (r : rob_c) : Prop := {
  o_nodup : NoDup (uop_num <$> m_orq r);
  o_roots : forall n, is_Some (m_root_fences r !! n) <-> n ∈ uop_num <$> m_orq r
}.

(** A fence that may leave: older than [age] and retired. *)
Definition may_leave (age : Z) (roots : gmap Z bool) (e : orq_entry) : Prop :=
  uop_num e < age /\ roots !! uop_num e = Some true.

Lemma orq_loop_ok age q : forall roots, NoDup (uop_num <$> q) ->
  (forall e, e ∈ q -> is_Some (roots !! uop_num e)) ->
  exists pre q' roots', orq_loop age q roots = Done (q', roots') /\ q = pre ++ q' /\
    Forall (may_leave age roots) pre /\ (forall e, head q' = Some e -> ~ may_leave age roots e) /\
    (forall n, roots' !! n = if decide (n ∈ uop_num <$> pre) then None else roots !! n).
Proof.
  induction q as [| e q IH]; intros roots Hnd Hr; cbn [orq_loop].
  { exists [], [], roots. split_and!; [done | done | constructor | done |].
    intros n. rewrite decide_False; [done | apply not_elem_of_nil]. }
  rewrite fmap_cons in Hnd. apply NoDup_cons in Hnd as [Hni Hnd].
  assert ((may_leave age roots e -> False) ->
    exists pre q' roots', Done (e :: q, roots) = Done (q', roots') /\ e :: q = pre ++ q' /\
      Forall (may_leave age roots) pre /\ (forall e', head q' = Some e' -> ~ may_leave age roots e') /\
      (forall n, roots' !! n = if decide (n ∈ uop_num <$> pre) then None else roots !! n)) as Hstop.
  { intros Hno. exists [], (e :: q), roots. split_and!; [done | done | constructor | by intros e' [= <-] |].
    intros n. rewrite decide_False; [done | apply not_elem_of_nil]. }
  unfold may_leave in Hstop. destruct (Z.ltb_spec (uop_num e) age); [| apply Hstop; lia].
  destruct (Hr e) as [b Hb]; [apply list_elem_of_here |]. rewrite Hb. cbn [mbind outcome_bind get_or].
  destruct b; [| apply Hstop; intros [_ ?]; congruence].
  destruct (IH (delete (uop_num e) roots) Hnd) as (pre & q' & roots' & E & -> & Hf & Hh & Hl).
  { intros e' He'. rewrite lookup_delete_ne; [by apply Hr, list_elem_of_further |].
    intros E. apply Hni. rewrite E. by apply list_elem_of_fmap_2. }
  assert (forall e', e' ∈ pre ++ q' ->
    delete (uop_num e) roots !! uop_num e' = roots !! uop_num e') as Hsame.
  { intros e' He'. apply lookup_delete_ne. intros E'. apply Hni. rewrite E'. by apply list_elem_of_fmap_2. }
  exists (e :: pre), q', roots'. split_and!; [done | done | | |].
  - constructor; [done |]. apply Forall_forall. intros e' He'. rewrite Forall_forall in Hf.
    destruct (Hf e' He') as [H1 H2]. split; [done |]. rewrite Hsame in H2 by set_solver. done.
  - intros e' He'. specialize (Hh e' He'). unfold may_leave in *. rewrite Hsame in Hh; [done |].
    destruct q'; [done |]. injection He' as ->. set_solver.
  - intros n. rewrite Hl, fmap_cons. destruct (decide (n = uop_num e)) as [-> | Hne].
    + rewrite lookup_delete_eq. rewrite (decide_True (P := uop_num e ∈ uop_num e :: _)) by set_solver.
      by destruct (decide _).
    + rewrite lookup_delete_ne by done. destruct (decide (n ∈ uop_num <$> pre)).
      * by rewrite decide_True by set_solver.
      * by rewrite decide_False by set_solver.
Qed.

(** The invariant holds initially and survives pushes of new fences and
    retirements. *)
Lemma orq_ok_new size v re lf : orq_ok (rob_new size v re lf).
Proof.
  split; simpl; [constructor |]. intros n. rewrite lookup_empty. split; [by intros [] |].
  intros H. by apply not_elem_of_nil in H.
Qed.

Lemma orq_ok_push u r σ r' σ' x : orq_ok r -> σ !! u = Some x ->
  m_uop_num x ∉ uop_num <$> m_orq r -> process_version true u r σ = Done (r', σ') -> orq_ok r'.
Proof.
  intros [O1 O2] Hx Hn E. unfold process_version, get_uop in E. simpl in E. rewrite Hx in E. simpl in E.
  destruct (is_root_fence x); inv_done; simplify_eq; [| done].
  split; simpl; rewrite fmap_app; simpl.
  - apply NoDup_app. split_and!; [done | | apply NoDup_singleton]. set_solver.
  - intros n. rewrite elem_of_app, list_elem_of_singleton, <- O2.
    destruct (m_root_fences r !! m_uop_num x) as [b |] eqn:Eb.
    { exfalso. apply Hn, O2. eauto. }
    destruct (decide (n = m_uop_num x)) as [-> | Hne]; [rewrite lookup_insert_eq | rewrite lookup_insert_ne by done].
    + split; [by right | eauto].
    + split; [by left | by intros [? | ?]].
Qed.

Lemma orq_ok_root x r r' : orq_ok r -> update_root x r = Done r' -> orq_ok r'.
Proof.
  intros [O1 O2] E. unfold update_root in E. destruct (is_root_fence x); simpl in E; inv_done; subst; [| done].
  split; simpl; [done |]. intros n. rewrite <- O2.
  destruct (m_root_fences r !! m_uop_num x) eqn:Eb; [| done].
  destruct (decide (n = m_uop_num x)) as [-> | Hne]; [rewrite lookup_insert_eq, Eb; split; eauto |].
  by rewrite lookup_insert_ne by done.
Qed.

(** [update_orq] drops exactly the longest run of fences from the front
    that are older than the write buffer's oldest entry and have retired; the
    rest stays in order with its completion marks, and no assertion fails. *)
Theorem orq_drops_completed_prefix age r : orq_ok r ->
  exists pre r', update_orq age r = Done r' /\ m_orq r = pre ++ m_orq r' /\
    Forall (may_leave age (m_root_fences r)) pre /\
    (forall e, head (m_orq r') = Some e -> ~ may_leave age (m_root_fences r) e) /\
    (forall n, m_root_fences r' !! n =
       if decide (n ∈ uop_num <$> pre) then None else m_root_fences r !! n).
Proof.
  intros [O1 O2]. destruct (orq_loop_ok age (m_orq r) (m_root_fences r) O1) as (pre & q' & roots' & E & H).
  { intros e He. apply O2. by apply list_elem_of_fmap_2. }
  exists pre. unfold update_orq. rewrite E. simpl. eexists. split; [done |]. exact H.
Qed.

(** The version check compares with the oldest root fence. With fences
    pending it asks a store to wait exactly when its version is above the
    front's and it is younger than the last version reset; with none it never
    does, except that for version 0xFFFF the warning before the test reads the
    front of the empty list. *)
Lemma version_check_cases x r :
  (forall e q, m_orq r = e :: q -> version_ordering_check x r =
     Done (bool_decide (version e < m_mem_version x /\ m_reset_uop_num r < m_uop_num x))) /\
  (m_orq r = [] -> version_ordering_check x r =
     if bool_decide (m_mem_version x = 65535 /\ m_reset_uop_num r < m_uop_num x)
     then Fault UseAfterFree else Done false).
Proof.
  unfold version_ordering_check. split.
  - intros e q ->. destruct (_ && _); simpl; f_equal;
    destruct (Z.leb_spec (m_mem_version x) (version e)), (Z.leb_spec (m_uop_num x) (m_reset_uop_num r));
    case_bool_decide; simpl; done || lia.
  - intros ->. destruct (Z.eqb_spec (m_mem_version x) 65535), (Z.ltb_spec (m_reset_uop_num r) (m_uop_num x));
      case_bool_decide; simpl; done || lia.
Qed.

(** ** Witnesses *)

Definition uop_like (n : Z) (mt : Mem_Type) (ut : Uop_Type) : uop_c :=
  mk_uop n 0 mt ut NOT_BAR NOT_CF 0 0 false 0 0 false false false false gen_ALLOCQ false.
Definition store0 : store :=
  <[0%nat := uop_like 10 NOT_MEM UOP_IADD]> (<[1%nat := uop_like 11 MEM_ST (UOP_OTHER 0)]>
   (<[2%nat := uop_like 12 NOT_MEM UOP_FULL_FENCE]> (<[3%nat := uop_like 13 MEM_LD (UOP_OTHER 0)]> ∅))).
Definition script : list rob_op := [RPush 0; RPush 1; RPop; RPush 2; RPop; RPush 3].

Lemma store0_live u : u ∈ [0; 1; 2; 3]%nat -> is_Some (store0 !! u).
Proof.
  intros H. repeat (apply elem_of_cons in H as [-> | H]; [by eexists |]). by apply not_elem_of_nil in H.
Qed.

Lemma script_live u : RPush u ∈ script -> is_Some (store0 !! u).
Proof.
  intros H. apply store0_live.
  assert (Forall (fun o => match o with RPush u => (u < 4)%nat | RPop => True end) script) as Hf
    by (repeat constructor; lia).
  rewrite Forall_forall in Hf. specialize (Hf _ H). simpl in Hf.
  do 4 (destruct u as [| u]; [set_solver |]). lia.
Qed.

Lemma rob_refines_queue_witness : exists r σ' l fs, queue_run 2 script [] = (l, fs) /\
  rob_run true script (rob_new 2 9 9 9) store0 = Done (r, σ', fs) /\ entries r = Z.of_nat (length l).
Proof.
  destruct (rob_refines_queue true 2 9 9 9 script store0) as (r & σ' & l & fs & H1 & H2 & H3 & _);
    [lia | exact script_live |]. exists r, σ', l, fs. split; [exact H1 |]. split; [exact H2 | exact H3].
Defined.

(** The buffer after the script: the fence and the load, with a full fence
    entered for the first. *)
Definition after : rob_c :=
  match rob_run true script (rob_new 2 0 0 0) store0 with
  | Done (r, _, _) => rob_ins_fence_entry (m_first_entry r) FENCE_FULL r
  | Fault _ => rob_new 2 0 0 0
  end.

Lemma after_ok : rob_ok after [2; 3]%nat.
Proof.
  destruct (rob_run_ok true script (rob_new 2 0 0 0) [] store0) as (r & σ' & E & H & _).
  { by apply rob_new_ok. }
  { intros u [Hu | Hu]; [by apply not_elem_of_nil in Hu | by apply script_live]. }
  assert (fst (queue_run (m_usable_cnt (rob_new 2 0 0 0)) script []) = [2; 3]%nat) as El by reflexivity.
  rewrite El in H. unfold after. rewrite E. apply (rob_ok_same r); [| exact H].
  unfold same_buffer. split_and!; reflexivity.
Qed.

Lemma rob_order_checks_witness :
  pending_mem_ops false (slot after 1) after store0 = Done false /\
  (ensure_mem_ordering false (slot after 1) after = true <->
   exists i, (i <= 1)%nat /\ slot after i ∈ fences after).
Proof.
  destruct (rob_order_checks false after [2; 3]%nat 1 store0 after_ok) as [H1 H2].
  - simpl. lia.
  - intros v Hv. apply store0_live. set_solver.
  - split; [rewrite H1; vm_compute; reflexivity |]. apply H2. intros e He.
    assert (fences after = [slot after 0]) as Ef by (vm_compute; reflexivity). rewrite Ef in He.
    apply list_elem_of_singleton in He. exists 0%nat. split; [simpl; lia | exact He].
Defined.

Lemma after_orq_ok : orq_ok after.
Proof.
  assert (m_orq after = [mk_orq 12 1]) as E1 by (vm_compute; reflexivity).
  assert (m_root_fences after = {[12 := false]}) as E2 by (vm_compute; reflexivity).
  split; rewrite E1; simpl.
  - apply NoDup_singleton.
  - intros n. rewrite E2, lookup_singleton_is_Some, list_elem_of_singleton. clear. split; congruence.
Qed.

Lemma orq_drops_completed_prefix_witness : exists pre r', update_orq 100 after = Done r' /\
  m_orq after = pre ++ m_orq r'.
Proof.
  destruct (orq_drops_completed_prefix 100 after after_orq_ok) as (pre & r' & H1 & H2 & _).
  exists pre, r'. split; [exact H1 | exact H2].
Defined.

Lemma version_check_cases_witness : version_ordering_check (set_mem_version 65535 (uop_like 7 MEM_ST (UOP_OTHER 0)))
  (rob_new 4 0 0 0) = Fault UseAfterFree.
Proof. exact (proj2 (version_check_cases (set_mem_version 65535 (uop_like 7 MEM_ST (UOP_OTHER 0))) (rob_new 4 0 0 0)) eq_refl). Defined.

End Rob.

Module Smc.
Import Rob.

Record smc_rob_c := mk_smc {
  m_thread_robs : list rob_c;
  m_free_list : list Z;
  m_thread_to_rob_map : gmap Z Z;
  m_uop_list : list nat
}.

Definition smc_new (num_threads : nat) (r : rob_c) : smc_rob_c :=
  mk_smc (replicate num_threads r) (seqZ 0 (Z.of_nat num_threads)) ∅ [].

(** A thread without a buffer fails the assertion; the search behind it is
    not reached. *)
Definition get_thread_rob (thread_id : Z) (m : smc_rob_c) : outcome rob_c :=
  _ ← ASSERT (0 <=? thread_id);
  i ← get_or AssertFailed (m_thread_to_rob_map m !! thread_id);
  aget (m_thread_robs m) i.

Definition get_thread_rob_id (thread_id : Z) (m : smc_rob_c) : outcome Z :=
  _ ← ASSERT (0 <=? thread_id);
  mret (default (-1) (m_thread_to_rob_map m !! thread_id)).

Definition reserve_rob (thread_id : Z) (m : smc_rob_c) : outcome (smc_rob_c * Z) :=
  _ ← ASSERT (0 <=? thread_id);
  _ ← ASSERT (bool_decide (m_thread_to_rob_map m !! thread_id = None));
  match m_free_list m with
  | [] => Fault AssertFailed
  | index :: free =>
      r ← aget (m_thread_robs m) index;
      robs ← aset (m_thread_robs m) index (reinit r);
      mret (mk_smc robs free (<[thread_id := index]> (m_thread_to_rob_map m)) (m_uop_list m), index)
  end.

Definition free_rob (thread_id : Z) (m : smc_rob_c) : outcome smc_rob_c :=
  _ ← ASSERT (0 <=? thread_id);
  i ← get_or AssertFailed (m_thread_to_rob_map m !! thread_id);
  mret (mk_smc (m_thread_robs m) (m_free_list m ++ [i]) (delete thread_id (m_thread_to_rob_map m))
          (m_uop_list m)).

(** [sort_uops]: by completion, then scheduling, then thread. *)
Definition sort_uops (a b : uop_c) : bool :=
  if m_done_cycle a <? m_done_cycle b then true
  else if m_done_cycle a =? m_done_cycle b then
    if m_sched_cycle a <? m_sched_cycle b then true
    else if m_sched_cycle a =? m_sched_cycle b then m_thread_id a <? m_thread_id b else false
  else false.

(** The pass over the threads' buffers, in the order the hash map yields them. *)
Fixpoint collect (indices : list Z) (core_cycle : Z) (m : smc_rob_c) (σ : store) (acc : list nat)
    : outcome (list nat) :=
  match indices with
  | [] => mret acc
  | i :: rest =>
      r ← aget (m_thread_robs m) i;
      if entries r =? 0 then collect rest core_cycle m σ acc else
      p ← front r;
      x ← get_uop p σ;
      collect rest core_cycle m σ
        (if negb (m_done_cycle x =? 0) && (m_done_cycle x <=? core_cycle)
         then acc ++ (match p with Some u => [u] | None => [] end) else acc)
  end.

Definition get_n_uops_in_ready_order (hash_order : list Z) (core_cycle : Z) (m : smc_rob_c) (σ : store)
    : outcome (smc_rob_c * list nat) :=
  l ← collect hash_order core_cycle m σ (m_uop_list m);
  mret (mk_smc (m_thread_robs m) (m_free_list m) (m_thread_to_rob_map m) l, l).

(** ** Buffers and threads *)

(** Every buffer is either free or assigned to exactly one thread. *)
Definition smc_ok (m : smc_rob_c) : Prop :=
  (map_to_list (m_thread_to_rob_map m)).*2 ++ m_free_list m ≡ₚ seqZ 0 (Z.of_nat (length (m_thread_robs m))).

Lemma smc_new_ok n r : smc_ok (smc_new n r).
Proof. unfold smc_ok. simpl. rewrite map_to_list_empty. simpl. by rewrite length_replicate. Qed.

Lemma smc_nodup m : smc_ok m -> NoDup ((map_to_list (m_thread_to_rob_map m)).*2 ++ m_free_list m).
Proof. unfold smc_ok. intros ->. apply NoDup_seqZ. Qed.

Lemma smc_range m i : smc_ok m -> i ∈ (map_to_list (m_thread_to_rob_map m)).*2 ++ m_free_list m ->
  0 <= i < Z.of_nat (length (m_thread_robs m)).
Proof. unfold smc_ok. intros ->. rewrite elem_of_seqZ. lia. Qed.

Lemma assigned_in m t i : m_thread_to_rob_map m !! t = Some i -> i ∈ (map_to_list (m_thread_to_rob_map m)).*2.
Proof. intros H. apply list_elem_of_fmap. exists (t, i). split; [done |]. by apply elem_of_map_to_list. Qed.

Lemma reserve_ok t m i free : smc_ok m -> 0 <= t -> m_thread_to_rob_map m !! t = None ->
  m_free_list m = i :: free ->
  exists m' r, reserve_rob t m = Done (m', i) /\ smc_ok m' /\
    m_thread_robs m !! Z.to_nat i = Some r /\ m_thread_robs m' = <[Z.to_nat i := reinit r]> (m_thread_robs m) /\
    m_thread_to_rob_map m' = <[t := i]> (m_thread_to_rob_map m) /\ m_free_list m' = free.
Proof.
  intros Hok Ht Hn Hf. pose proof (smc_range m i Hok) as Hr. rewrite Hf in Hr.
  unfold reserve_rob. rewrite (proj2 (Z.leb_le _ _) Ht), bool_decide_true, Hf by done. simpl.
  destruct (aget_in_range (m_thread_robs m) i) as (r & Hl & Ha); [apply Hr; set_solver |].
  rewrite Ha. simpl. rewrite aset_in_range by (apply Hr; set_solver). simpl.
  eexists _, r. split_and!; [done | | done | done | done | done]. unfold smc_ok in *. simpl.
  rewrite length_insert, map_to_list_insert by done. simpl. rewrite Hf in Hok. rewrite <- Hok.
  solve_Permutation.
Qed.

Lemma free_ok t m m' : smc_ok m -> free_rob t m = Done m' -> smc_ok m' /\ m_thread_robs m' = m_thread_robs m /\
  m_thread_to_rob_map m' = delete t (m_thread_to_rob_map m).
Proof.
  intros Hok E. unfold free_rob in E. inv_done. destruct (m_thread_to_rob_map m !! t) as [i |] eqn:Ei; [| done].
  simpl in *. inv_done. subst m'. split; [| done]. unfold smc_ok in *. simpl. rewrite <- Hok.
  rewrite <- (map_to_list_delete (m_thread_to_rob_map m) t i Ei). simpl. simplify_eq. solve_Permutation.
Qed.

Inductive smc_op := Reserve (t : Z) | Free (t : Z).

Definition smc_exec (o : smc_op) (m : smc_rob_c) : outcome smc_rob_c :=
  match o with
  | Reserve t => '(m', _) ← reserve_rob t m; mret m'
  | Free t => free_rob t m
  end.

Fixpoint smc_run (ops : list smc_op) (m : smc_rob_c) : outcome smc_rob_c :=
  match ops with
  | [] => mret m
  | o :: ops' => m1 ← smc_exec o m; smc_run ops' m1
  end.

Lemma smc_exec_ok o m m' : smc_ok m -> smc_exec o m = Done m' -> smc_ok m'.
Proof.
  intros Hok E. destruct o as [t | t]; simpl in E; [| by apply free_ok in E as (H1 & _)].
  inv_done. destruct a as [m1 i]. inv_done. subst m1. pose proof E0 as E1. unfold reserve_rob in E1.
  destruct (Z.leb_spec 0 t); [simpl in E1 | done]. case_bool_decide as Hn; [simpl in E1 | done].
  destruct (m_free_list m) as [| j free] eqn:Ef; [done |]. clear E1.
  destruct (reserve_ok t m j free Hok) as (m2 & r & E3 & H3 & _); [done.. |].
  rewrite E3 in E0. by injection E0 as <- _.
Qed.

Lemma smc_run_ok ops : forall m m', smc_ok m -> smc_run ops m = Done m' -> smc_ok m'.
Proof.
  induction ops as [| o ops IH]; intros m m' Hok E; simpl in E; inv_done; [by subst |].
  eapply IH; [| done]. by eapply smc_exec_ok.
Qed.

(** The values of an assignment without duplicates determine their thread. *)
Lemma nodup_vals_inj (m : gmap Z Z) t t' i : NoDup (map_to_list m).*2 ->
  m !! t = Some i -> m !! t' = Some i -> t = t'.
Proof.
  intros Hnd H1 H2. destruct (decide (t = t')) as [| Hne]; [done | exfalso].
  assert (delete t m !! t' = Some i) as H3 by (by rewrite lookup_delete_ne).
  rewrite <- (map_to_list_delete m t i H1), <- (map_to_list_delete (delete t m) t' i H3) in Hnd.
  simpl in Hnd. apply NoDup_cons in Hnd as [Hni _]. apply Hni. apply list_elem_of_here.
Qed.

(** C38: threads never share a reorder buffer. After any sequence of
    reservations and releases that met no failed assertion, two threads hold
    different buffers, and a further reservation by a new thread succeeds
    exactly as long as a buffer is free: it gets one no thread holds, emptied,
    and leaves the buffers of all other threads as they were. *)
Theorem smc_rob_exclusive n r0 ops m : smc_run ops (smc_new n r0) = Done m ->
  (forall t t' i, m_thread_to_rob_map m !! t = Some i -> m_thread_to_rob_map m !! t' = Some i -> t = t') /\
  (forall t, 0 <= t -> m_thread_to_rob_map m !! t = None ->
     (m_free_list m = [] /\ reserve_rob t m = Fault AssertFailed) \/
     exists m' i r, reserve_rob t m = Done (m', i) /\
       (forall t', m_thread_to_rob_map m !! t' <> Some i) /\
       m_thread_robs m !! Z.to_nat i = Some r /\ m_thread_robs m' = <[Z.to_nat i := reinit r]> (m_thread_robs m) /\
       get_thread_rob_id t m' = Done i).
Proof.
  intros E. pose proof (smc_run_ok _ _ _ (smc_new_ok n r0) E) as Hok. pose proof (smc_nodup _ Hok) as Hnd.
  split.
  - intros t t' i. apply nodup_vals_inj. by apply NoDup_app in Hnd as [? _].
  - intros t Ht Hn. destruct (m_free_list m) as [| i free] eqn:Ef.
    { left. split; [done |]. unfold reserve_rob. rewrite (proj2 (Z.leb_le _ _) Ht), bool_decide_true by done.
      simpl. by rewrite Ef. }
    right. destruct (reserve_ok t m i free Hok Ht Hn Ef) as (m' & r & H1 & H2 & H3 & H4 & H5 & _).
    exists m', i, r. split_and!; [done | | done | done |].
    + intros t' Ht'. apply NoDup_app in Hnd as (_ & Hd & _). apply (Hd i); [by eapply assigned_in |].
      apply list_elem_of_here.
    + unfold get_thread_rob_id. rewrite (proj2 (Z.leb_le _ _) Ht). simpl. by rewrite H5, lookup_insert_eq.
Qed.

Lemma smc_rob_exclusive_witness : exists m, smc_run [Reserve 5; Reserve 9; Free 5] (smc_new 2 (rob_new 4 0 0 0)) = Done m /\
  (forall t t' i, m_thread_to_rob_map m !! t = Some i -> m_thread_to_rob_map m !! t' = Some i -> t = t').
Proof.
  eexists. split; [vm_compute; reflexivity |].
  eapply (smc_rob_exclusive 2 (rob_new 4 0 0 0) [Reserve 5; Reserve 9; Free 5]). vm_compute. reflexivity.
Defined.

End Smc.
