(* ===== verification/Allocate.v ===== *)
(** * Ports, physical resources and the allocation stage
      (port.cc, resource.h, resource.cc, allocate.cc)

    [Port] is the per-cycle port arbitration, [Resource] the counters of
    buffers and registers, [Allocate] the stage that moves micro-operations
    from the front-end queue into the reorder buffer and the allocation
    queues. It is proved against the interfaces of [Pqueue] and [Rob]. *)

From S2P Require Import Prelude Utils Pqueue Rob.

Module Port.

Record port_c := mk_port {
  m_read_last_cycle : Z;
  m_write_last_cycle : Z;
  m_num_read_ports : Z;
  m_read_ports_in_use : Z;
  m_num_write_ports : Z;
  m_write_ports_in_use : Z;
  m_writes_prevent_reads : bool
}.

Definition port_new (read write : Z) (writes_prevent_reads : bool) : port_c :=
  mk_port 0 0 read 0 write 0 writes_prevent_reads.

Definition get_read_port (cycle_count : Z) (p : port_c) : outcome (port_c * bool) :=
  if negb (m_read_last_cycle p =? cycle_count) then
    _ ← ASSERT (0 <? m_num_read_ports p);
    mret (mk_port cycle_count (m_write_last_cycle p) (m_num_read_ports p) 1 (m_num_write_ports p)
            (m_write_ports_in_use p) (m_writes_prevent_reads p), true)
  else if m_read_ports_in_use p =? m_num_read_ports p then mret (p, false)
  else if negb (m_write_ports_in_use p =? 0) && m_writes_prevent_reads p then mret (p, false)
  else mret (mk_port (m_read_last_cycle p) (m_write_last_cycle p) (m_num_read_ports p)
               (u32 (m_read_ports_in_use p + 1)) (m_num_write_ports p) (m_write_ports_in_use p)
               (m_writes_prevent_reads p), true).

Definition get_write_port (cycle_count : Z) (p : port_c) : outcome (port_c * bool) :=
  if negb (m_write_last_cycle p =? cycle_count) then
    _ ← ASSERT (0 <? m_num_write_ports p);
    mret (mk_port (m_read_last_cycle p) cycle_count (m_num_read_ports p) (m_read_ports_in_use p)
            (m_num_write_ports p) 1 (m_writes_prevent_reads p), true)
  else if m_write_ports_in_use p =? m_num_write_ports p then mret (p, false)
  else
    _ ← (if m_writes_prevent_reads p then ASSERT (m_read_ports_in_use p =? 0) else mret tt);
    mret (mk_port (m_read_last_cycle p) (m_write_last_cycle p) (m_num_read_ports p)
            (m_read_ports_in_use p) (m_num_write_ports p) (u32 (m_write_ports_in_use p + 1))
            (m_writes_prevent_reads p), true).

(** [n] read requests in one cycle: how many are granted. *)
Fixpoint reads (n : nat) (cycle : Z) (p : port_c) : outcome (port_c * Z) :=
  match n with
  | O => mret (p, 0)
  | S n' => '(p1, b) ← get_read_port cycle p;
            '(p2, k) ← reads n' cycle p1; mret (p2, (if b : bool then 1 else 0) + k)
  end.

Definition port_ok (p : port_c) : Prop :=
  0 < m_num_read_ports p < 2 ^ 32 /\ 0 <= m_read_ports_in_use p <= m_num_read_ports p.

Lemma reads_same_cycle n : forall cycle p, port_ok p -> m_read_last_cycle p = cycle ->
  m_writes_prevent_reads p = false ->
  exists p', reads n cycle p = Done (p', Z.min (Z.of_nat n) (m_num_read_ports p - m_read_ports_in_use p)).
Proof.
  induction n as [| n IH]; intros cycle p [H1 H2] Hc Hw; cbn [reads].
  { exists p. f_equal. f_equal. lia. }
  unfold get_read_port. rewrite Hc, Z.eqb_refl. simpl negb. cbv iota.
  destruct (Z.eqb_spec (m_read_ports_in_use p) (m_num_read_ports p)) as [E | E]; simpl.
  - destruct (IH cycle p) as (p' & ->); [done.. |]. simpl. eexists. f_equal. f_equal. lia.
  - rewrite Hw, andb_false_r. simpl.
    assert (u32 (m_read_ports_in_use p + 1) = m_read_ports_in_use p + 1) as Eu
      by (unfold u32; apply Z.mod_small; lia). rewrite Eu.
    match goal with |- context [reads n cycle ?q] => destruct (IH cycle q) as (p' & ->) end;
      [split; simpl; lia | done | done |].
    simpl. eexists. f_equal. f_equal. lia.
Qed.

(** a port grants at most its number of ports per cycle, and no fewer than
    asked for up to that number: of [n] reads in a new cycle, with no write
    blocking them, exactly the smaller of [n] and the number of read ports
    succeed, and a request never fails the assertion. When writes prevent
    reads, the first read of a cycle is nevertheless granted although a write
    port was taken in the same cycle. *)
Theorem port_grants n cycle p : port_ok p -> m_read_last_cycle p <> cycle ->
  (m_writes_prevent_reads p = false ->
   exists p', reads n cycle p = Done (p', Z.min (Z.of_nat n) (m_num_read_ports p))) /\
  (forall p1, get_write_port cycle p = Done (p1, true) -> 0 < m_write_ports_in_use p1 ->
     exists p2, get_read_port cycle p1 = Done (p2, true)).
Proof.
  intros [H1 H2] Hc. split.
  - intros Hw. destruct n as [| n]; [exists p; simpl; f_equal; f_equal; lia |]. cbn [reads].
    unfold get_read_port. rewrite (proj2 (Z.eqb_neq _ _) Hc), (proj2 (Z.ltb_lt 0 _)) by lia. simpl.
    match goal with |- context [reads n cycle ?q] => destruct (reads_same_cycle n cycle q) as (p' & ->) end;
      [split; simpl; lia | done | done |].
    simpl. eexists. f_equal. f_equal. lia.
  - intros p1 E _.
    assert (m_read_last_cycle p1 = m_read_last_cycle p /\ m_num_read_ports p1 = m_num_read_ports p) as [E1 E2].
    { unfold get_write_port in E. destruct (m_write_last_cycle p =? cycle); simpl in E;
        [destruct (_ =? _); inv_done; simplify_eq |]; inv_done; by simplify_eq. }
    unfold get_read_port. rewrite E1, (proj2 (Z.eqb_neq _ _) Hc), E2, (proj2 (Z.ltb_lt 0 _)) by lia.
    simpl. by eexists.
Qed.

Definition port0 : port_c := port_new 2 1 true.

Lemma port_grants_witness : exists p1 p2,
  get_write_port 5 port0 = Done (p1, true) /\ get_read_port 5 p1 = Done (p2, true).
Proof.
  assert (port_ok port0) as Hp by (unfold port_ok; simpl; lia).
  eexists. destruct (port_grants 2 5 port0 Hp ltac:(discriminate)) as [_ H].
  destruct (H _ eq_refl) as (p2 & E); [simpl; lia |]. exists p2. split; [reflexivity | exact E].
Defined.

End Port.

Module Resource.

Record resource_c := mk_resource {
  m_max_sb_cnt : Z; m_num_sb : Z;
  m_max_lb_cnt : Z; m_num_lb : Z;
  m_max_int_regs : Z; m_num_int_regs : Z;
  m_max_fp_regs : Z; m_num_fp_regs : Z
}.

Definition resource_new (nsb nlb int_regs fp_regs : Z) : resource_c :=
  mk_resource nsb nsb nlb nlb int_regs int_regs fp_regs fp_regs.

Definition set_counts (sb lb ir fp : Z) (r : resource_c) : resource_c :=
  mk_resource (m_max_sb_cnt r) sb (m_max_lb_cnt r) lb (m_max_int_regs r) ir (m_max_fp_regs r) fp.

Definition alloc_sb (r : resource_c) : outcome resource_c :=
  _ ← ASSERT (0 <? m_num_sb r);
  mret (set_counts (m_num_sb r - 1) (m_num_lb r) (m_num_int_regs r) (m_num_fp_regs r) r).
Definition dealloc_sb (r : resource_c) : outcome resource_c :=
  _ ← ASSERT (m_num_sb r <? m_max_sb_cnt r);
  mret (set_counts (m_num_sb r + 1) (m_num_lb r) (m_num_int_regs r) (m_num_fp_regs r) r).
Definition alloc_lb (r : resource_c) : outcome resource_c :=
  _ ← ASSERT (0 <? m_num_lb r);
  mret (set_counts (m_num_sb r) (m_num_lb r - 1) (m_num_int_regs r) (m_num_fp_regs r) r).
Definition dealloc_lb (r : resource_c) : outcome resource_c :=
  _ ← ASSERT (m_num_lb r <? m_max_lb_cnt r);
  mret (set_counts (m_num_sb r) (m_num_lb r + 1) (m_num_int_regs r) (m_num_fp_regs r) r).
Definition alloc_int_reg (r : resource_c) : outcome resource_c :=
  _ ← ASSERT (0 <? m_num_int_regs r);
  mret (set_counts (m_num_sb r) (m_num_lb r) (m_num_int_regs r - 1) (m_num_fp_regs r) r).
Definition alloc_fp_reg (r : resource_c) : outcome resource_c :=
  _ ← ASSERT (0 <? m_num_fp_regs r);
  mret (set_counts (m_num_sb r) (m_num_lb r) (m_num_int_regs r) (m_num_fp_regs r - 1) r).
(** The register counters are returned without a check. *)
Definition dealloc_int_reg (r : resource_c) : resource_c :=
  set_counts (m_num_sb r) (m_num_lb r) (m_num_int_regs r + 1) (m_num_fp_regs r) r.
Definition dealloc_fp_reg (r : resource_c) : resource_c :=
  set_counts (m_num_sb r) (m_num_lb r) (m_num_int_regs r) (m_num_fp_regs r + 1) r.
Definition reset (r : resource_c) : resource_c :=
  set_counts (m_max_sb_cnt r) (m_max_lb_cnt r) (m_max_int_regs r) (m_max_fp_regs r) r.

End Resource.

Module Allocate.
Import Resource.

Record knobs := mk_knobs {
  m_knob_width : nat;
  m_num_queues : Z;
  KNOB_GEN_ALLOCQ_INDEX : Z;
  KNOB_FLOAT_ALLOCQ_INDEX : Z;
  KNOB_SIMD_ALLOCQ_INDEX : Z;
  KNOB_MEM_ALLOCQ_INDEX : Z;
  KNOB_FENCE_ENABLE : bool;
  KNOB_EXTRA_RECOVERY_CYCLES : Z
}.

(** What the stage works on; [targ] is the branch target predictor and
    [redirect] the per-thread redirect cycles. *)
Record alloc_state (B : Type) := mk_alloc {
  m_allocate_running : bool;
  m_frontend_q : pqueue_c (T := option nat);
  m_alloc_q : list (pqueue_c (T := Z));
  m_rob : Rob.rob_c;
  m_resource : resource_c;
  uops : store;
  targ : B;
  redirect : gmap Z Z
}.
Arguments mk_alloc {B}.
Arguments m_allocate_running {B}.
Arguments m_frontend_q {B}.
Arguments m_alloc_q {B}.
Arguments m_rob {B}.
Arguments m_resource {B}.
Arguments uops {B}.
Arguments targ {B}.
Arguments redirect {B}.

(** The class of resource a micro-operation needs besides its buffer entry. *)
Inductive need := NeedLB | NeedSB | NeedInt | NeedFp | NeedSimd | NeedNone.

Definition need_of (x : uop_c) : need :=
  match m_mem_type x with
  | MEM_LD => NeedLB
  | MEM_ST => NeedSB
  | _ => match m_uop_type x with
         | UOP_IADD | UOP_IMUL | UOP_ICMP => NeedInt
         | UOP_FCVT | UOP_FADD => NeedFp
         | UOP_SIMD => NeedSimd
         | _ => NeedNone
         end
  end.

Definition need_eqb (a b : need) : bool :=
  match a, b with
  | NeedLB, NeedLB | NeedSB, NeedSB | NeedInt, NeedInt | NeedFp, NeedFp
  | NeedSimd, NeedSimd | NeedNone, NeedNone => true
  | _, _ => false
  end.
Definition req (a b : need) : Z := if need_eqb a b then 1 else 0.

Definition q_type (k : knobs) (d : need) : Z :=
  if m_num_queues k =? 1 then KNOB_GEN_ALLOCQ_INDEX k else
  match d with
  | NeedFp => KNOB_FLOAT_ALLOCQ_INDEX k
  | NeedSimd => KNOB_SIMD_ALLOCQ_INDEX k
  | NeedSB | NeedLB => KNOB_MEM_ALLOCQ_INDEX k
  | _ => KNOB_GEN_ALLOCQ_INDEX k
  end.

(** The stall condition; no physical register is required for SIMD. *)
Definition enough (d : need) (r : Rob.rob_c) (rs : resource_c) (q : pqueue_c (T := Z)) : bool :=
  negb ((Rob.space r <? 1) || (m_num_sb rs <? req d NeedSB) || (m_num_lb rs <? req d NeedLB)
        || (space q <? 1) || (m_num_int_regs rs <? req d NeedInt) || (m_num_fp_regs rs <? req d NeedFp)).

Definition alloc_resource (d : need) (rs : resource_c) : outcome resource_c :=
  match d with
  | NeedSB => alloc_sb rs
  | NeedLB => alloc_lb rs
  | NeedInt => alloc_int_reg rs
  | NeedFp => alloc_fp_reg rs
  | _ => mret rs
  end.

Definition allocq_num (k : knobs) (qt : Z) : ALLOCQ :=
  if qt =? KNOB_GEN_ALLOCQ_INDEX k then gen_ALLOCQ
  else if qt =? KNOB_MEM_ALLOCQ_INDEX k then mem_ALLOCQ
  else if qt =? KNOB_FLOAT_ALLOCQ_INDEX k then fp_ALLOCQ else simd_ALLOCQ.

(** The fields the stage writes into the micro-operation. *)
Definition mark (cycle : Z) (d : need) (a : ALLOCQ) (u : uop_c) : uop_c :=
  mk_uop (m_uop_num u) (m_thread_id u) (m_mem_type u) (m_uop_type u) (m_bar_type u) (m_cf_type u)
    (m_done_cycle u) (m_sched_cycle u) (m_btb_miss u) (m_mem_version u) cycle
    (m_req_sb u || need_eqb d NeedSB) (m_req_lb u || need_eqb d NeedLB)
    (m_req_int_reg u || need_eqb d NeedInt) (m_req_fp_reg u || need_eqb d NeedFp) a (m_btb_miss_resolved u).

Definition set_resolved (u : uop_c) : uop_c :=
  mk_uop (m_uop_num u) (m_thread_id u) (m_mem_type u) (m_uop_type u) (m_bar_type u) (m_cf_type u)
    (m_done_cycle u) (m_sched_cycle u) (m_btb_miss u) (m_mem_version u) (m_alloc_cycle u)
    (m_req_sb u) (m_req_lb u) (m_req_int_reg u) (m_req_fp_reg u) (m_allocq_num u) true.

(** The position of a branch type in [Cf_Type]. *)
Definition cf_rank (c : Cf_Type) : Z :=
  match c with
  | NOT_CF => 0 | CF_BR => 1 | CF_CBR => 2 | CF_CALL => 3 | CF_IBR => 4 | CF_ICALL => 5
  | CF_ICO => 6 | CF_RET => 7 | CF_MITE => 8
  end.

Section STAGE.
Context {B : Type} (targ_update : uop_c -> B -> outcome B).
Context (k : knobs) (core_cycle cur_core_cycle : Z).

(** A BTB miss resolved at allocation trains the target predictor and sets the
    redirect cycle. *)
Definition resolve_btb_miss (u : nat) (x : uop_c) (s : alloc_state B) : outcome (alloc_state B) :=
  if m_btb_miss x && negb (m_btb_miss_resolved x) then
    if (cf_rank (m_cf_type x) <? cf_rank CF_IBR) && (cf_rank CF_ICO <? cf_rank (m_cf_type x)) then
      b ← targ_update x (targ s);
      mret (mk_alloc (m_allocate_running s) (m_frontend_q s) (m_alloc_q s) (m_rob s) (m_resource s)
              (<[u := set_resolved x]> (uops s)) b
              (<[m_thread_id x := cur_core_cycle + 1 + KNOB_EXTRA_RECOVERY_CYCLES k]> (redirect s)))
    else mret s
  else mret s.

(** One turn of the loop; [None] is its [break]. *)
Definition alloc_one (s : alloc_state B) : outcome (option (alloc_state B)) :=
  rdy ← ready (m_frontend_q s);
  if negb rdy then mret None else
  p ← peek None 0 (m_frontend_q s);
  x ← get_uop p (uops s);
  u ← get_or NullDeref p;
  let d := need_of x in
  let qt := q_type k d in
  q ← aget (m_alloc_q s) qt;
  if negb (enough d (m_rob s) (m_resource s) q) then mret None else
  rs ← alloc_resource d (m_resource s);
  '(_, q1) ← enqueue 0 (Rob.last_rob (m_rob s)) q;
  qs ← aset (m_alloc_q s) qt q1;
  let x1 := mark core_cycle d (allocq_num k qt) x in
  '(r, σ) ← Rob.push (KNOB_FENCE_ENABLE k) u (m_rob s) (<[u := x1]> (uops s));
  '(_, _, fq) ← dequeue (m_frontend_q s);
  x2 ← get_uop (Some u) σ;
  s1 ← resolve_btb_miss u x2 (mk_alloc (m_allocate_running s) fq qs r rs σ (targ s) (redirect s));
  mret (Some s1).

Fixpoint alloc_loop (n : nat) (s : alloc_state B) : outcome (alloc_state B) :=
  match n with
  | O => mret s
  | S n' => o ← alloc_one s;
            match o with None => mret s | Some s1 => alloc_loop n' s1 end
  end.

Definition run_a_cycle (s : alloc_state B) : outcome (alloc_state B) :=
  if m_allocate_running s then alloc_loop (m_knob_width k) s else mret s.

(** ** Correctness of the stage *)

(** The need of the micro-operation at [u]. *)
Definition need_at (σ : store) (u : nat) : option need := need_of <$> σ !! u.

Definition same_needs (σ σ' : store) : Prop := forall v, need_at σ' v = need_at σ v.

Lemma same_needs_live σ σ' v : same_needs σ σ' -> is_Some (σ !! v) -> is_Some (σ' !! v).
Proof.
  intros H [x Hx]. specialize (H v). unfold need_at in H. rewrite Hx in H.
  destruct (σ' !! v); [eauto | done].
Qed.

Lemma same_needs_insert σ u x y : σ !! u = Some x -> need_of y = need_of x -> same_needs σ (<[u := y]> σ).
Proof.
  intros Hx Hy v. unfold need_at. destruct (decide (v = u)) as [-> |].
  - by rewrite lookup_insert_eq, Hx; simpl; rewrite Hy.
  - by rewrite lookup_insert_ne.
Qed.

Record alloc_ok (s : alloc_state B) (l : list nat) : Prop := {
  a_front : pq_inv (m_frontend_q s);
  a_queues : Forall pq_inv (m_alloc_q s);
  a_index : forall d, 0 <= q_type k d < Z.of_nat (length (m_alloc_q s));
  a_rob : Rob.rob_ok (m_rob s) l;
  a_live : forall e, e ∈ contents (m_frontend_q s) ->
    exists u, m_data e = Some u /\ is_Some (uops s !! u)
}.

(** What the front-end queue holds, in order. *)
Definition waiting (s : alloc_state B) : list (option nat) := m_data <$> contents (m_frontend_q s).

(** Resources after handing out those of [us]. *)
Definition charged (σ : store) (us : list nat) (a b : resource_c) : Prop :=
  let n d := countb (fun u => bool_decide (need_eqb d <$> need_at σ u = Some true)) us in
  m_num_lb b = m_num_lb a - n NeedLB /\ m_num_sb b = m_num_sb a - n NeedSB /\
  m_num_int_regs b = m_num_int_regs a - n NeedInt /\ m_num_fp_regs b = m_num_fp_regs a - n NeedFp.

Lemma resolve_dead u x s : resolve_btb_miss u x s = Done s.
Proof.
  unfold resolve_btb_miss. destruct (_ && negb _); [| done].
  by destruct (m_cf_type x).
Qed.

Lemma alloc_resource_ok d rs q r : enough d r rs q = true ->
  exists rs', alloc_resource d rs = Done rs' /\ 1 <= Rob.space r /\ 1 <= space q /\
    m_num_lb rs' = m_num_lb rs - req d NeedLB /\ m_num_sb rs' = m_num_sb rs - req d NeedSB /\
    m_num_int_regs rs' = m_num_int_regs rs - req d NeedInt /\ m_num_fp_regs rs' = m_num_fp_regs rs - req d NeedFp.
Proof.
  unfold enough. intros H. apply negb_true_iff in H.
  repeat (apply orb_false_iff in H as [H ?]). repeat match goal with E : (_ <? _) = false |- _ => apply Z.ltb_ge in E end.
  destruct d; unfold alloc_resource, alloc_sb, alloc_lb, alloc_int_reg, alloc_fp_reg, req, need_eqb in *; simpl in *;
    rewrite ?(proj2 (Z.ltb_lt 0 _)) by lia; simpl; eexists; (split; [reflexivity |]); simpl; lia.
Qed.

Lemma alloc_one_ok s l : alloc_ok s l ->
  alloc_one s = Done None \/
  exists u s1, alloc_one s = Done (Some s1) /\
    alloc_ok s1 (l ++ [u]) /\ waiting s = Some u :: waiting s1 /\ same_needs (uops s) (uops s1) /\
    charged (uops s) [u] (m_resource s) (m_resource s1) /\ targ s1 = targ s /\ redirect s1 = redirect s /\
    m_allocate_running s1 = m_allocate_running s.
Proof.
  intros [A1 A2 A3 A4 A5]. unfold alloc_one. destruct (ready_total _ A1) as [b Hb]. rewrite Hb. simpl.
  destruct b; simpl; [| by left].
  destruct (dequeue_ok _ A1 Hb) as (e & rest & fq & Hd & F1 & F2 & F3).
  destruct (inv_num _ A1) as [Hnum _].
  rewrite (peek_ok None _ 0 A1) by lia. rewrite F2. simpl.
  destruct (A5 e) as (u & Hu & x & Hx); [rewrite F2; apply list_elem_of_here |]. rewrite Hu. simpl.
  assert (forall (σ : store) y, σ !! u = Some y -> get_uop (Some u) σ = Done y) as Hget.
  { intros σ y Hy. unfold get_uop. simpl. by rewrite Hy. }
  rewrite (Hget _ _ Hx). simpl.
  destruct (aget_in_range (m_alloc_q s) (q_type k (need_of x)) (A3 _)) as (q & Hq & ->). simpl.
  destruct (enough (need_of x) (m_rob s) (m_resource s) q) eqn:Een; simpl; [| by left]. right.
  destruct (alloc_resource_ok _ _ _ _ Een) as (rs & -> & Hs1 & Hs2 & Hr). simpl.
  assert (pq_inv q) as Hqi by (eapply Forall_lookup_1; [exact A2 | exact Hq]).
  unfold space in Hs2.
  destruct (enqueue_rotation 0 (Rob.last_rob (m_rob s)) q Hqi ltac:(lia)) as (q1 & _ & _ & _ & -> & Hq1 & _).
  simpl. rewrite aset_in_range by apply A3. simpl.
  set (x1 := mark core_cycle (need_of x) (allocq_num k (q_type k (need_of x))) x).
  assert (same_needs (uops s) (<[u := x1]> (uops s))) as N1 by (by eapply same_needs_insert).
  destruct (Rob.push_ok (KNOB_FENCE_ENABLE k) u (m_rob s) l (<[u := x1]> (uops s)) A4 Hs1)
    as (r & σ & Ep & Hr1 & _); [rewrite lookup_insert_eq; eauto |].
  rewrite Ep. simpl. rewrite Hd. simpl.
  assert (same_needs (uops s) σ) as N2.
  { apply Rob.push_store in Ep as (y & Hy & [-> | [v ->]]); [done |].
    intros w. rewrite <- (N1 w). eapply (same_needs_insert (<[u := x1]> (uops s))); [exact Hy | done]. }
  destruct (same_needs_live _ _ u N2) as [x2 Hx2]; [eauto |]. rewrite (Hget _ _ Hx2). simpl.
  rewrite resolve_dead. simpl. eexists u, _. split_and!; [done | | | done | | done | done | done].
  - split; simpl; [done | | | done |].
    + by apply Forall_insert.
    + intros d. rewrite length_insert. apply A3.
    + intros e' He'. rewrite F3 in He'. destruct (A5 e') as (w & Hw & Hlive).
      { rewrite F2. by apply list_elem_of_further. }
      exists w. split; [done | by eapply same_needs_live].
  - unfold waiting. simpl. rewrite F2, F3, fmap_cons. by rewrite Hu.
  - unfold charged, need_at. simpl. rewrite Hx. simpl. unfold req in Hr.
    destruct (need_of x); simpl in *; lia.
Qed.

Lemma charged_cons σ σ' u us a b c : same_needs σ σ' ->
  charged σ [u] a b -> charged σ' us b c -> charged σ (u :: us) a c.
Proof.
  intros Hn (H1 & H2 & H3 & H4) (G1 & G2 & G3 & G4).
  assert (forall d, countb (fun v => bool_decide (need_eqb d <$> need_at σ' v = Some true)) us =
                    countb (fun v => bool_decide (need_eqb d <$> need_at σ v = Some true)) us) as E.
  { intros d. apply countb_ext. intros v _. by rewrite (Hn v). }
  cbv beta zeta in *. rewrite !E in G1, G2, G3, G4. unfold charged. cbn [countb] in *. lia.
Qed.

(** Nothing moved. *)
Lemma moved_none (n : nat) s l : alloc_ok s l ->
  exists s' us, mret s = Done s' /\ (length us <= n)%nat /\ alloc_ok s' (l ++ us) /\
    waiting s = (Some <$> us) ++ waiting s' /\ charged (uops s) us (m_resource s) (m_resource s') /\
    targ s' = targ s /\ redirect s' = redirect s.
Proof.
  intros H. exists s, []. rewrite app_nil_r. split; [done |]. split; [simpl; lia |]. split; [done |].
  split; [done |]. split; [| done]. unfold charged. cbv zeta. cbn [countb]. lia.
Qed.

Lemma alloc_loop_ok n : forall s l, alloc_ok s l ->
  exists s' us, alloc_loop n s = Done s' /\ (length us <= n)%nat /\ alloc_ok s' (l ++ us) /\
    waiting s = (Some <$> us) ++ waiting s' /\ charged (uops s) us (m_resource s) (m_resource s') /\
    targ s' = targ s /\ redirect s' = redirect s.
Proof.
  induction n as [| n IH]; intros s l H; cbn [alloc_loop].
  { by apply moved_none. }
  destruct (alloc_one_ok s l H) as [-> | (u & s1 & -> & H1 & Hw & Hn & Hc & Ht & Hr & _)]; simpl.
  - by apply moved_none.
  - destruct (IH s1 _ H1) as (s' & us & E & Hl & H2 & Hw2 & Hc2 & Ht2 & Hr2).
    exists s', (u :: us). rewrite <- app_assoc in H2.
    split; [done |]. split; [simpl; lia |]. split; [done |]. split; [by rewrite Hw, Hw2 |].
    split; [by eapply charged_cons |]. split; congruence.
Qed.

(** C19: the allocation stage moves a prefix of the front-end queue, in order,
    into the reorder buffer. From any state whose queues and buffer are
    well-formed and whose waiting micro-operations are alive, a cycle never
    fails an assertion: it takes at most [m_knob_width] micro-operations off
    the front of the queue, appends them to the reorder buffer in the same
    order, and charges exactly one load buffer, store buffer, integer or
    floating-point register for each of them that needs one. The branch
    target predictor and the redirect cycles are never touched: the test that
    guards the resolution of a BTB miss cannot be met. *)
Theorem allocate_in_order s l : alloc_ok s l ->
  exists s' us, run_a_cycle s = Done s' /\ (length us <= m_knob_width k)%nat /\ alloc_ok s' (l ++ us) /\
    waiting s = (Some <$> us) ++ waiting s' /\ charged (uops s) us (m_resource s) (m_resource s') /\
    targ s' = targ s /\ redirect s' = redirect s.
Proof.
  intros H. unfold run_a_cycle. destruct (m_allocate_running s); [by apply alloc_loop_ok |].
  by apply moved_none.
Qed.

End STAGE.

Definition knobs0 : knobs := mk_knobs 2 1 0 0 0 0 true 0.
Definition uop0 (n : Z) (mt : Mem_Type) : uop_c :=
  mk_uop n 0 mt UOP_IADD NOT_BAR CF_BR 0 0 true 0 0 false false false false gen_ALLOCQ false.

(** A front end with one load in it. *)
Lemma one_waiting : exists fq, pq_inv fq /\ exists e, contents fq = [e] /\ m_data e = Some 0%nat.
Proof.
  destruct (enqueue_split 0 (Some 0%nat) (pqueue_new 4 0 0)) as (q & e & hi & lo & E & _ & Hd & Hc & Hc' & _).
  { by apply pqueue_new_inv. }
  { done. }
  destruct (enqueue_rotation 0 (Some 0%nat) (pqueue_new 4 0 0)) as (q' & _ & _ & _ & E' & Hi & _).
  { by apply pqueue_new_inv. }
  { done. }
  rewrite E in E'. injection E' as <-. exists q. split; [done |]. exists e. split; [| done].
  assert (contents (T := option nat) (pqueue_new 4 0 0) = []) as Hn by reflexivity. rewrite Hn in Hc.
  symmetry in Hc. apply app_eq_nil in Hc as [-> ->]. done.
Qed.

Lemma allocate_in_order_witness : exists fq s' (us : list nat),
  run_a_cycle (fun _ b => Done b) knobs0 5 5
    (mk_alloc true fq [pqueue_new 4 0 0] (Rob.rob_new 4 0 0 0) (resource_new 2 2 2 2)
       {[0%nat := uop0 1 MEM_LD]} tt ∅) = Done s' /\ (length us <= 2)%nat /\ targ s' = tt.
Proof.
  destruct one_waiting as (fq & Hi & e & Hc & He). exists fq.
  destruct (allocate_in_order (fun _ b => Done b) knobs0 5 5
    (mk_alloc true fq [pqueue_new 4 0 0] (Rob.rob_new 4 0 0 0) (resource_new 2 2 2 2)
       {[0%nat := uop0 1 MEM_LD]} tt ∅) []) as (s' & us & H1 & H2 & _ & _ & _ & H3 & _).
  - split; simpl.
    + exact Hi.
    + apply Forall_singleton. apply pqueue_new_inv; lia.
    + intros d. unfold q_type. simpl. lia.
    + apply Rob.rob_new_ok. lia.
    + intros e' He'. rewrite Hc in He'. apply list_elem_of_singleton in He' as ->.
      exists 0%nat. split; [exact He | eexists; reflexivity].
  - exists s', us. split; [exact H1 |]. split; [exact H2 | exact H3].
Defined.

End Allocate.
