(* ===== verification/Dram.v ===== *)
(** * The DRAM controllers (dram_ctrl.h, dram_ctrl.cc)

    Request buffers per bank, the bank and channel schedulers, the data bus, and
    the FCFS and FR-FCFS policies. The arrays indexed by bank are one list of
    [bank] records, those indexed by channel one list of [channel] records. The network and the memory hierarchy are
    arguments: what [NETWORK->send] answers, what [NETWORK->receive] delivers;
    the requests given to [MEMORY->free_req] are collected in [freed]. *)

From S2P Require Import Prelude Utils.
Import Bits.

Inductive Mem_Req_Type :=
| MRT_IFETCH | MRT_DFETCH | MRT_DSTORE | MRT_IPRF | MRT_DPRF | MRT_WB | MRT_SW_DPRF | MRT_SW_DPRF_NTA
| MRT_SW_DPRF_T0 | MRT_SW_DPRF_T1 | MRT_SW_DPRF_T2.
Inductive DRAM_STATE := DRAM_INIT | DRAM_CMD | DRAM_CMD_WAIT | DRAM_DATA | DRAM_DATA_WAIT.
Inductive Mem_Req_State :=
| MEM_INV | MEM_NEW | MEM_MERGED | MEM_OUTQUEUE_NEW | MEM_IN_NOC | MEM_OUT_FILL | MEM_OUT_WB
| MEM_FILL_NEW | MEM_FILL_WAIT_DONE | MEM_FILL_WAIT_FILL | MEM_DRAM_START | MEM_DRAM_CMD
| MEM_DRAM_DATA | MEM_DRAM_DONE | MEM_NOC_START | MEM_NOC_DONE.

#[export] Instance Mem_Req_Type_eq_dec : EqDecision Mem_Req_Type.
Proof. solve_decision. Defined.
#[export] Instance DRAM_STATE_eq_dec : EqDecision DRAM_STATE.
Proof. solve_decision. Defined.

(** [mem_req_s]; [r_ptr] is its address. *)
Record mem_req_s := mk_req {
  r_ptr : nat;
  r_addr : Z;
  r_type : Mem_Req_Type;
  r_size : Z;
  r_acc : bool;
  r_rdy_cycle : Z;
  r_state : Mem_Req_State
}.

Definition set_req_state (s : Mem_Req_State) (r : mem_req_s) : mem_req_s :=
  mk_req (r_ptr r) (r_addr r) (r_type r) (r_size r) (r_acc r) (r_rdy_cycle r) s.
Definition set_rdy_cycle (c : Z) (r : mem_req_s) : mem_req_s :=
  mk_req (r_ptr r) (r_addr r) (r_type r) (r_size r) (r_acc r) c (r_state r).

(** [drb_entry_s]; [m_req] is null in an unused entry. *)
Record drb_entry_s := mk_drb {
  e_ptr : nat;
  m_state : DRAM_STATE;
  m_addr : Z;
  m_bid : Z;
  m_rid : Z;
  m_cid : Z;
  m_req : option mem_req_s;
  m_size : Z;
  m_timestamp : Z;
  m_scheduled : Z
}.

Definition reset (e : drb_entry_s) : drb_entry_s :=
  mk_drb (e_ptr e) DRAM_INIT 0 ULLONG_MAX ULLONG_MAX ULLONG_MAX None 0 0 0.

(** [set]; the state and the scheduling time are left as they are. *)
Definition set_entry (r : mem_req_s) (bid rid cid now : Z) (e : drb_entry_s) : drb_entry_s :=
  mk_drb (e_ptr e) (m_state e) (r_addr r) bid rid cid (Some r) (r_size r) now (m_scheduled e).

Definition with_state (s : DRAM_STATE) (e : drb_entry_s) : drb_entry_s :=
  mk_drb (e_ptr e) s (m_addr e) (m_bid e) (m_rid e) (m_cid e) (m_req e) (m_size e)
    (m_timestamp e) (m_scheduled e).
Definition with_req_state (s : Mem_Req_State) (e : drb_entry_s) : drb_entry_s :=
  mk_drb (e_ptr e) (m_state e) (m_addr e) (m_bid e) (m_rid e) (m_cid e)
    (set_req_state s <$> m_req e) (m_size e) (m_timestamp e) (m_scheduled e).
Definition with_scheduled (c : Z) (e : drb_entry_s) : drb_entry_s :=
  mk_drb (e_ptr e) (m_state e) (m_addr e) (m_bid e) (m_rid e) (m_cid e) (m_req e) (m_size e)
    (m_timestamp e) c.

Record bank := mk_bank {
  m_buffer : list drb_entry_s;
  m_buffer_free_list : list drb_entry_s;
  m_current_list : option drb_entry_s;
  m_current_rid : Z;
  m_data_ready : Z;
  m_data_avail : Z;
  m_bank_ready : Z;
  m_bank_timestamp : Z
}.

Record channel := mk_channel { m_byte_avail : Z; m_dbus_ready : Z }.

Record dram_knobs := mk_dram_knobs {
  KNOB_DRAM_NUM_BANKS : Z;
  KNOB_DRAM_NUM_CHANNEL : Z;
  KNOB_DRAM_BUS_WIDTH : Z;
  KNOB_DRAM_BUFFER_SIZE : Z;
  KNOB_DRAM_ROWBUFFER_SIZE : Z;
  KNOB_DRAM_NUM_MC : Z;
  KNOB_LLC_LINE_SIZE : Z;
  KNOB_NUM_LLC : Z;
  KNOB_LLC_NUM_SET : Z;
  KNOB_DEFAULT_INTERLEAVING : bool;
  KNOB_DRAM_BANK_XOR_INDEX : bool;
  KNOB_DRAM_MERGE_REQUESTS : bool;
  KNOB_DRAM_ADDITIONAL_LATENCY : Z;
  KNOB_MEE_BYPASS : bool;
  KNOB_ENABLE_NOC_VC_PARTITION : bool;
  KNOB_DRAM_PRECHARGE : Z;
  KNOB_DRAM_ACTIVATE : Z;
  KNOB_DRAM_COLUMN : Z
}.

(** The fields [parse_addr] uses. *)
Record addr_map := mk_addr_map {
  m_cid_mask : Z; m_bid_shift : Z; m_bid_mask : Z; m_rid_shift : Z; m_bid_xor_shift : Z
}.

Record dram_ctrl_c := mk_dram {
  banks : list bank;
  channels : list channel;
  m_num_bank_per_channel : Z;
  m_cycle : Z;
  m_total_req : Z;
  m_num_completed_in_last_cycle : Z;
  m_starvation_cycle : Z;
  m_output_buffer : list mem_req_s;
  m_tmp_output_buffer : option (list mem_req_s);
  freed : list mem_req_s;
  total_dram_bandwidth : Z
}.

Section DRAM.
Context (k : dram_knobs).

Definition is_pow2_mc : bool := Z.land (KNOB_DRAM_NUM_MC k) (KNOB_DRAM_NUM_MC k - 1) =? 0.

(** The address fields set by the constructor, for default and for per-MC
    interleaving; with no interleaving chosen the source leaves them unset. *)
Definition address_map : addr_map :=
  let row := log2_int (KNOB_DRAM_ROWBUFFER_SIZE k) in
  let nb := log2_int (KNOB_DRAM_NUM_BANKS k) in
  if KNOB_DEFAULT_INTERLEAVING k then
    mk_addr_map (N_BIT_MASK row) row (N_BIT_MASK nb) nb
      (log2_int (KNOB_LLC_LINE_SIZE k) + log2_int 512)
  else
    mk_addr_map (N_BIT_MASK row)
      (if is_pow2_mc then row + log2_int (KNOB_DRAM_NUM_MC k) else row)
      (N_BIT_MASK nb) nb
      (log2_int (KNOB_LLC_LINE_SIZE k) + log2_int (KNOB_NUM_LLC k) + log2_int (KNOB_LLC_NUM_SET k) + 5).

(** Bank, row and column of an address. *)
Definition parse_addr (a : addr_map) (addr : Z) : Z * Z * Z :=
  let bid_xor := Z.land (Z.shiftr addr (m_bid_xor_shift a)) (m_bid_mask a) in
  let cid := Z.land addr (m_cid_mask a) in
  let addr1 := if is_pow2_mc then Z.shiftr addr (m_bid_shift a)
               else Z.shiftr addr (m_bid_shift a) / KNOB_DRAM_NUM_MC k in
  let bid := Z.land addr1 (m_bid_mask a) in
  let rid := Z.shiftr addr1 (m_rid_shift a) in
  (if KNOB_DRAM_BANK_XOR_INDEX k then Z.lxor bid bid_xor else bid, rid, cid).

Definition bank_new (b : nat) : bank :=
  mk_bank []
    ((fun j => mk_drb (b * Z.to_nat (KNOB_DRAM_BUFFER_SIZE k) + j) DRAM_INIT 0 ULLONG_MAX ULLONG_MAX
                 ULLONG_MAX None 0 0 0) <$> seq 0 (Z.to_nat (KNOB_DRAM_BUFFER_SIZE k)))
    None ULLONG_MAX ULLONG_MAX ULLONG_MAX ULLONG_MAX 0.

(** The state the constructor sets up when its division succeeds. *)
Definition dram_ctrl_init (completed starvation : Z) : dram_ctrl_c :=
  mk_dram (bank_new <$> seq 0 (Z.to_nat (KNOB_DRAM_NUM_BANKS k)))
    (replicate (Z.to_nat (KNOB_DRAM_NUM_CHANNEL k)) (mk_channel (KNOB_DRAM_BUS_WIDTH k) 0))
    (Z.quot (KNOB_DRAM_NUM_BANKS k) (KNOB_DRAM_NUM_CHANNEL k)) 0 0 completed starvation []
    (if negb (KNOB_DRAM_ADDITIONAL_LATENCY k =? 0) || negb (KNOB_MEE_BYPASS k) then Some [] else None)
    [] 0.

(** The constructor divides the banks among the channels. The two progress
    counters are not initialised by it: [completed] and [starvation] are
    whatever the memory holds. *)
Definition dram_ctrl_new (completed starvation : Z) : outcome dram_ctrl_c :=
  if KNOB_DRAM_NUM_CHANNEL k =? 0 then Fault DivByZero else mret (dram_ctrl_init completed starvation).

Definition with_banks (bs : list bank) (s : dram_ctrl_c) : dram_ctrl_c :=
  mk_dram bs (channels s) (m_num_bank_per_channel s) (m_cycle s) (m_total_req s)
    (m_num_completed_in_last_cycle s) (m_starvation_cycle s) (m_output_buffer s)
    (m_tmp_output_buffer s) (freed s) (total_dram_bandwidth s).
Definition with_queue (b f : list drb_entry_s) (x : bank) : bank :=
  mk_bank b f (m_current_list x) (m_current_rid x) (m_data_ready x) (m_data_avail x)
    (m_bank_ready x) (m_bank_timestamp x).

(** ** Insertion *)

Definition is_prefetch (e : drb_entry_s) : bool :=
  bool_decide (r_type <$> m_req e = Some MRT_DPRF).

(** All prefetches of the bank leave, in order, to the back of the free list. *)
Definition flush_prefetch (x : bank) : bank * list mem_req_s :=
  let gone := filter (fun e => Is_true (is_prefetch e)) (m_buffer x) in
  let kept := filter (fun e => Is_true (negb (is_prefetch e))) (m_buffer x) in
  (with_queue kept (m_buffer_free_list x ++ gone) x, omap m_req gone).

Definition insert_req_in_drb (r : mem_req_s) (bid rid cid now : Z) (x : bank) : outcome bank :=
  match m_buffer_free_list x with
  | [] => Fault UseAfterFree
  | e :: free => mret (with_queue (m_buffer x ++ [set_entry r bid rid cid now e]) free x)
  end.

Definition insert_new_req (a : addr_map) (r : mem_req_s) (s : dram_ctrl_c) : outcome (dram_ctrl_c * bool) :=
  let '(bid, rid, cid) := parse_addr a (r_addr r) in
  x ← aget (banks s) bid;
  let '(x1, gone) := if decide (m_buffer_free_list x = []) then flush_prefetch x else (x, []) in
  let total := m_total_req s - Z.of_nat (length gone) in
  bs1 ← aset (banks s) bid x1;
  let s1 := mk_dram bs1 (channels s) (m_num_bank_per_channel s) (m_cycle s) total
              (m_num_completed_in_last_cycle s) (m_starvation_cycle s) (m_output_buffer s)
              (m_tmp_output_buffer s) (freed s ++ gone) (total_dram_bandwidth s) in
  if decide (m_buffer_free_list x1 = []) then mret (s1, false) else
  x2 ← insert_req_in_drb (set_req_state MEM_DRAM_START r) bid rid cid (m_cycle s) x1;
  bs2 ← aset bs1 bid x2;
  mret (mk_dram bs2 (channels s) (m_num_bank_per_channel s) (m_cycle s) (total + 1)
          (m_num_completed_in_last_cycle s) (m_starvation_cycle s) (m_output_buffer s)
          (m_tmp_output_buffer s) (freed s1) (total_dram_bandwidth s), true).

(** ** Completion *)

(** A finished request: a write-back is freed, anything else is answered. *)
Definition finish (r : mem_req_s) (s : dram_ctrl_c) : dram_ctrl_c :=
  match r_type r with
  | MRT_WB =>
      mk_dram (banks s) (channels s) (m_num_bank_per_channel s) (m_cycle s) (m_total_req s)
        (m_num_completed_in_last_cycle s) (m_starvation_cycle s) (m_output_buffer s)
        (m_tmp_output_buffer s) (freed s ++ [r]) (total_dram_bandwidth s)
  | _ =>
      let done := set_req_state MEM_DRAM_DONE r in
      match m_tmp_output_buffer s with
      | Some l =>
          mk_dram (banks s) (channels s) (m_num_bank_per_channel s) (m_cycle s) (m_total_req s)
            (m_num_completed_in_last_cycle s) (m_starvation_cycle s) (m_output_buffer s)
            (Some (l ++ [set_rdy_cycle (u64 (m_cycle s + KNOB_DRAM_ADDITIONAL_LATENCY k)) done]))
            (freed s) (total_dram_bandwidth s)
      | None =>
          mk_dram (banks s) (channels s) (m_num_bank_per_channel s) (m_cycle s) (m_total_req s)
            (m_num_completed_in_last_cycle s) (m_starvation_cycle s) (m_output_buffer s ++ [done])
            None (freed s) (total_dram_bandwidth s)
      end
  end.

Definition set_counts (total completed : Z) (s : dram_ctrl_c) : dram_ctrl_c :=
  mk_dram (banks s) (channels s) (m_num_bank_per_channel s) (m_cycle s) total completed
    (m_starvation_cycle s) (m_output_buffer s) (m_tmp_output_buffer s) (freed s) (total_dram_bandwidth s).

(** Requests in the buffer for the address just served finish with it; the
    completion counter takes the value of the cycle. *)
Fixpoint merge_requests (addr : Z) (l : list drb_entry_s) (s : dram_ctrl_c) : outcome dram_ctrl_c :=
  match l with
  | [] => mret s
  | e :: l' =>
      if m_addr e =? addr then
        r ← get_or NullDeref (m_req e);
        let s1 := finish r s in
        merge_requests addr l' (set_counts (m_total_req s1 - 1) (s32 (m_cycle s)) s1)
      else merge_requests addr l' s
  end.

(** The body of [bank_schedule_complete] for one bank. *)
Definition complete_bank (ii : nat) (s : dram_ctrl_c) : outcome dram_ctrl_c :=
  x ← get_or OutOfBounds (banks s !! ii);
  match m_current_list x with
  | None => mret s
  | Some e =>
      if m_data_ready x <=? m_cycle s then
        _ ← ASSERT (bool_decide (m_state e = DRAM_DATA_WAIT));
        let merged := if KNOB_DRAM_MERGE_REQUESTS k
                      then filter (fun e' => m_addr e' = m_addr e) (m_buffer x) else [] in
        let kept := if KNOB_DRAM_MERGE_REQUESTS k
                    then filter (fun e' => m_addr e' <> m_addr e) (m_buffer x) else m_buffer x in
        s1 ← (if KNOB_DRAM_MERGE_REQUESTS k then merge_requests (m_addr e) (m_buffer x) s else mret s);
        r ← get_or NullDeref (m_req e);
        let s2 := finish r s1 in
        let x' := mk_bank kept (m_buffer_free_list x ++ (reset <$> merged) ++ [reset e]) None
                    (m_current_rid x) ULLONG_MAX (m_data_avail x) (m_bank_ready x) (m_bank_timestamp x) in
        mret (set_counts (m_total_req s2 - 1) (s32 (m_num_completed_in_last_cycle s2 + 1))
                (with_banks (<[ii := x']> (banks s2)) s2))
      else mret s
  end.

Fixpoint complete_banks (ids : list nat) (s : dram_ctrl_c) : outcome dram_ctrl_c :=
  match ids with [] => mret s | i :: ids' => s1 ← complete_bank i s; complete_banks ids' s1 end.

Definition bank_schedule_complete (s : dram_ctrl_c) : outcome dram_ctrl_c :=
  complete_banks (seq 0 (length (banks s))) (set_counts (m_total_req s) 0 s).

(** ** Bank scheduling *)

(** FCFS: the front of the buffer. *)
Definition schedule_fcfs (x : bank) : list drb_entry_s := m_buffer x.

(** FR-FCFS: [operator()] of [sort_func]; the open row passes through an [int]. *)
Definition sort_func (current_rid : Z) (a b : drb_entry_s) : bool :=
  let cur := u64 (s32 current_rid) in
  if negb (is_prefetch a) && is_prefetch b then true
  else if is_prefetch a && negb (is_prefetch b) then false
  else if (m_rid a =? cur) && negb (m_rid b =? cur) then true
  else if negb (m_rid a =? cur) && (m_rid b =? cur) then false
  else m_timestamp a <? m_timestamp b.

Definition schedule_frfcfs (x : bank) : list drb_entry_s := list_sort (sort_func (m_current_rid x)) (m_buffer x).

(** What the scheduler relies on: a policy reorders the buffer. *)
Class Policy (policy : bank -> list drb_entry_s) : Prop := policy_perm x : policy x ≡ₚ m_buffer x.

(** [policy] gives the buffer in the order the policy leaves it in; its front is
    the entry chosen. *)
Definition bank_new_request (policy : bank -> list drb_entry_s) (now : Z) (x : bank) : outcome bank :=
  match m_buffer x, m_current_list x with
  | [], None => mret x
  | _, None =>
      match policy x with
      | [] => Fault AssertFailed
      | e :: rest =>
          mret (mk_bank rest (m_buffer_free_list x) (Some (with_scheduled now (with_state DRAM_CMD e)))
                  (m_current_rid x) (m_data_ready x) (m_data_avail x) ULLONG_MAX now)
      end
  | _, Some e =>
      if (m_bank_ready x <=? now) && bool_decide (m_state e = DRAM_CMD_WAIT) then
        mret (mk_bank (m_buffer x) (m_buffer_free_list x) (Some (with_state DRAM_CMD e))
                (m_current_rid x) (m_data_ready x) (m_data_avail x) ULLONG_MAX now)
      else mret x
  end.

Fixpoint map_banks (f : bank -> outcome bank) (bs : list bank) : outcome (list bank) :=
  match bs with [] => mret [] | x :: bs' => x' ← f x; bs'' ← map_banks f bs'; mret (x' :: bs'') end.

Definition bank_schedule_new (policy : bank -> list drb_entry_s) (s : dram_ctrl_c) : outcome dram_ctrl_c :=
  bs ← map_banks (bank_new_request policy (m_cycle s)) (banks s); mret (with_banks bs s).

Definition bank_schedule (policy : bank -> list drb_entry_s) (s : dram_ctrl_c) : outcome dram_ctrl_c :=
  s1 ← bank_schedule_complete s; bank_schedule_new policy s1.

(** ** Channel scheduling *)

(** The banks of channel [ii] and the oldest of them that is a candidate. *)
Definition channel_banks (ii : nat) (s : dram_ctrl_c) : list bank :=
  take (Z.to_nat (m_num_bank_per_channel s)) (drop (ii * Z.to_nat (m_num_bank_per_channel s)) (banks s)).

Definition oldest_bank (cand : bank -> bool) (ii : nat) (s : dram_ctrl_c) : option nat :=
  (fun j => (ii * Z.to_nat (m_num_bank_per_channel s) + j)%nat) <$>
  (scan_min (fun x => if cand x then Some (m_bank_timestamp x) else None) (channel_banks ii s) 0 None ULLONG_MAX).1.

Definition in_state (st : DRAM_STATE) (x : bank) : bool :=
  bool_decide (m_state <$> m_current_list x = Some st).

(** The command for a bank: activate a closed row, access the column of the
    open one, or precharge. *)
Definition issue_cmd (now : Z) (x : bank) : outcome bank :=
  match m_current_list x with
  | None => Fault NullDeref
  | Some e0 =>
      _ ← ASSERT (bool_decide (m_state e0 = DRAM_CMD));
      let e := with_req_state MEM_DRAM_CMD e0 in
      if m_current_rid x =? ULLONG_MAX then
        mret (mk_bank (m_buffer x) (m_buffer_free_list x) (Some (with_state DRAM_CMD_WAIT e)) (m_rid e)
                (m_data_ready x) ULLONG_MAX (u64 (now + KNOB_DRAM_ACTIVATE k)) (m_bank_timestamp x))
      else if m_rid e =? m_current_rid x then
        mret (mk_bank (m_buffer x) (m_buffer_free_list x) (Some (with_state DRAM_DATA e)) (m_current_rid x)
                (m_data_ready x) (u64 (now + KNOB_DRAM_COLUMN k)) (u64 (now + KNOB_DRAM_COLUMN k))
                (m_bank_timestamp x))
      else
        mret (mk_bank (m_buffer x) (m_buffer_free_list x) (Some (with_state DRAM_CMD_WAIT e)) ULLONG_MAX
                (m_data_ready x) ULLONG_MAX (u64 (now + KNOB_DRAM_PRECHARGE k)) (m_bank_timestamp x))
  end.

Definition schedule_cmd_channel (ii : nat) (s : dram_ctrl_c) : outcome dram_ctrl_c :=
  match oldest_bank (in_state DRAM_CMD) ii s with
  | None => mret s
  | Some b => x ← get_or OutOfBounds (banks s !! b);
              x' ← issue_cmd (m_cycle s) x;
              mret (with_banks (<[b := x']> (banks s)) s)
  end.

(** Claim the data bus of a channel for [req_size] bytes: the cycle the
    transfer ends in. A request that does not fit the rest of the cycle divides
    by the width of the bus. *)
Definition acquire_data_bus (now req_size : Z) (c : channel) : outcome (channel * Z) :=
  let w := KNOB_DRAM_BUS_WIDTH k in
  if req_size <? m_byte_avail c then mret (mk_channel (m_byte_avail c - req_size) now, now)
  else if w =? 0 then Fault DivByZero
  else let over := req_size - m_byte_avail c in
       let latency := u64 (now + Z.quot over w + 1) in
       mret (mk_channel (w - Z.rem over w) latency, latency).

Definition data_candidate (now : Z) (x : bank) : bool := in_state DRAM_DATA x && (m_data_avail x <=? now).

(** [while (avail_data_bus(ii))]: every turn moves one bank on, so one turn
    more than there are banks is enough. *)
Fixpoint data_loop (fuel ii : nat) (s : dram_ctrl_c) : outcome dram_ctrl_c :=
  match fuel with
  | O => Fault Diverged
  | S fuel' =>
      c ← get_or OutOfBounds (channels s !! ii);
      if negb (m_dbus_ready c <=? m_cycle s) then mret s else
      match oldest_bank (data_candidate (m_cycle s)) ii s with
      | None => mret s
      | Some b =>
          x ← get_or OutOfBounds (banks s !! b);
          e0 ← get_or NullDeref (m_current_list x);
          _ ← ASSERT (bool_decide (m_state e0 = DRAM_DATA));
          let e := with_req_state MEM_DRAM_DATA e0 in
          '(c', latency) ← acquire_data_bus (m_cycle s) (m_size e) c;
          let x' := mk_bank (m_buffer x) (m_buffer_free_list x) (Some (with_state DRAM_DATA_WAIT e))
                      (m_current_rid x) latency ULLONG_MAX (m_bank_ready x) (m_bank_timestamp x) in
          data_loop fuel' ii
            (mk_dram (<[b := x']> (banks s)) (<[ii := c']> (channels s)) (m_num_bank_per_channel s)
               (m_cycle s) (m_total_req s) (m_num_completed_in_last_cycle s) (m_starvation_cycle s)
               (m_output_buffer s) (m_tmp_output_buffer s) (freed s) (total_dram_bandwidth s + m_size e))
      end
  end.

Fixpoint each_channel (f : nat -> dram_ctrl_c -> outcome dram_ctrl_c) (ids : list nat) (s : dram_ctrl_c)
    : outcome dram_ctrl_c :=
  match ids with [] => mret s | i :: ids' => s1 ← f i s; each_channel f ids' s1 end.

Definition channel_schedule_cmd (s : dram_ctrl_c) : outcome dram_ctrl_c :=
  each_channel schedule_cmd_channel (seq 0 (length (channels s))) s.
Definition channel_schedule_data (s : dram_ctrl_c) : outcome dram_ctrl_c :=
  each_channel (data_loop (S (length (banks s)))) (seq 0 (length (channels s))) s.
Definition channel_schedule (s : dram_ctrl_c) : outcome dram_ctrl_c :=
  s1 ← channel_schedule_cmd s; channel_schedule_data s1.

(** ** The controller's cycle *)

Definition set_output (out : list mem_req_s) (tmp : option (list mem_req_s)) (s : dram_ctrl_c) : dram_ctrl_c :=
  mk_dram (banks s) (channels s) (m_num_bank_per_channel s) (m_cycle s) (m_total_req s)
    (m_num_completed_in_last_cycle s) (m_starvation_cycle s) out tmp (freed s) (total_dram_bandwidth s).

(** Requests whose extra latency is over move on, up to the first that waits. *)
Fixpoint split_ready (now : Z) (l : list mem_req_s) : list mem_req_s * list mem_req_s :=
  match l with
  | [] => ([], [])
  | r :: l' => if r_rdy_cycle r <=? now
               then let '(a, b) := split_ready now l' in (r :: a, b) else ([], l)
  end.
Definition delay_packet (s : dram_ctrl_c) : dram_ctrl_c :=
  match m_tmp_output_buffer s with
  | None => s
  | Some l => let '(a, b) := split_ready (m_cycle s) l in set_output (m_output_buffer s ++ a) (Some b) s
  end.

(** One pass of [send] over the output buffer: requests of an allowed type go
    out in order until the network refuses one; [net] is what [NETWORK->send]
    answers. What stays, what went out, and the types that were tried. *)
Fixpoint send_pass (net : mem_req_s -> bool) (allowed checked : bool -> bool) (l : list mem_req_s)
    : list mem_req_s * list mem_req_s * (bool -> bool) :=
  match l with
  | [] => ([], [], checked)
  | r :: l' =>
      if allowed (r_acc r) then
        let checked' := fun t => checked t || eqb t (r_acc r) in
        if net r then
          let '(kept, sent, c) := send_pass net allowed checked' l' in (kept, r :: sent, c)
        else (l, [], checked')
      else let '(kept, sent, c) := send_pass net allowed checked l' in (r :: kept, sent, c)
  end.

(** With partitioned virtual channels a second pass tries the type the first
    one has not met. *)
Definition send_requests (net : mem_req_s -> bool) (l : list mem_req_s) : list mem_req_s * list mem_req_s :=
  let '(kept, sent, checked) := send_pass net (fun _ => true) (fun _ => false) l in
  if KNOB_ENABLE_NOC_VC_PARTITION k && negb (checked false && checked true) then
    let '(kept2, sent2, _) := send_pass net (fun t => negb (checked t)) checked kept in (kept2, sent ++ sent2)
  else (kept, sent).
Definition send (net : mem_req_s -> bool) (s : dram_ctrl_c) : dram_ctrl_c * list mem_req_s :=
  let '(kept, sent) := send_requests net (m_output_buffer s) in
  (set_output kept (m_tmp_output_buffer s) s, sent).

(** [receive]: [arrival] is what [NETWORK->receive] returns. *)
Definition receive (a : addr_map) (arrival : option mem_req_s) (s : dram_ctrl_c) : outcome (dram_ctrl_c * bool) :=
  match arrival with None => mret (s, false) | Some r => insert_new_req a r s end.

Definition progress_check (s : dram_ctrl_c) : outcome dram_ctrl_c :=
  let n := if (0 <? m_total_req s) && (m_num_completed_in_last_cycle s =? 0)
           then s32 (m_starvation_cycle s + 1) else 0 in
  _ ← ASSERT (n <? 5000);
  mret (mk_dram (banks s) (channels s) (m_num_bank_per_channel s) (m_cycle s) (m_total_req s)
          (m_num_completed_in_last_cycle s) n (m_output_buffer s) (m_tmp_output_buffer s) (freed s)
          (total_dram_bandwidth s)).

Definition tick (s : dram_ctrl_c) : dram_ctrl_c :=
  mk_dram (banks s) (channels s) (m_num_bank_per_channel s) (inc64 (m_cycle s)) (m_total_req s)
    (m_num_completed_in_last_cycle s) (m_starvation_cycle s) (m_output_buffer s) (m_tmp_output_buffer s)
    (freed s) (total_dram_bandwidth s).

(** [run_a_cycle]: the new state, whether the arriving request was taken and
    the requests given to the network. *)
Definition run_a_cycle (policy : bank -> list drb_entry_s) (a : addr_map) (net : mem_req_s -> bool)
    (arrival : option mem_req_s) (pll_lock : bool) (s : dram_ctrl_c)
    : outcome (dram_ctrl_c * bool * list mem_req_s) :=
  if pll_lock then mret (tick s, false, []) else
  let '(s0, sent) := send net s in
  let s1 := delay_packet s0 in
  s2 ← channel_schedule s1;
  s3 ← bank_schedule policy s2;
  '(s4, taken) ← receive a arrival s3;
  s5 ← progress_check s4;
  mret (tick s5, taken, sent).

(** ** Invariant

    A weight on requests is summed over everything the controller holds, so
    that one set of lemmas gives both the request counter and the
    conservation of requests. *)

Definition wt (h : nat -> Z) (r : mem_req_s) : Z := h (r_ptr r).
Definition entry_wt (h : nat -> Z) (e : drb_entry_s) : Z := from_option (wt h) 0 (m_req e).
Definition pending (x : bank) : list drb_entry_s := m_buffer x ++ option_list (m_current_list x).
Definition bank_wt (h : nat -> Z) (x : bank) : Z := sum_by (entry_wt h) (pending x).
Definition load (h : nat -> Z) (s : dram_ctrl_c) : Z := sum_by (bank_wt h) (banks s).
Definition population (h : nat -> Z) (s : dram_ctrl_c) : Z :=
  load h s + sum_by (wt h) (m_output_buffer s)
  + sum_by (wt h) (default [] (m_tmp_output_buffer s)) + sum_by (wt h) (freed s).

Definition has_req (e : drb_entry_s) : Prop := is_Some (m_req e).

(** A bank's buffer entries are all accounted for, each pending one holds a
    request, and data is only awaited for a request in its last state. *)
Record bank_ok (x : bank) : Prop := {
  bk_size : (length (pending x) + length (m_buffer_free_list x) = Z.to_nat (KNOB_DRAM_BUFFER_SIZE k))%nat;
  bk_req : Forall has_req (pending x);
  bk_data : m_data_ready x = ULLONG_MAX \/ in_state DRAM_DATA_WAIT x = true
}.

Record dram_ok (s : dram_ctrl_c) : Prop := {
  ok_banks : Forall bank_ok (banks s);
  ok_nbanks : length (banks s) = Z.to_nat (KNOB_DRAM_NUM_BANKS k);
  ok_total : m_total_req s = load (fun _ => 1) s
}.

(** What a step of the controller that neither takes nor gives away a request
    keeps. *)
Record keeps (s s' : dram_ctrl_c) : Prop := {
  kp_ok : dram_ok s';
  kp_pop : forall h, population h s' = population h s;
  kp_cycle : m_cycle s' = m_cycle s;
  kp_starve : m_starvation_cycle s' = m_starvation_cycle s;
  kp_chan : length (channels s') = length (channels s)
}.

Lemma dram_keeps_refl s : dram_ok s -> keeps s s.
Proof. by split. Qed.

#[export] Instance dram_keeps_trans : Transitive keeps.
Proof. intros s1 s2 s3 [] []. split; [done | intros h; etrans; eauto | congruence..]. Qed.

(** A bank replaced by one with the same pending requests. *)
Lemma keeps_bank s b x x' :
  dram_ok s -> banks s !! b = Some x -> bank_ok x' -> (forall h, bank_wt h x' = bank_wt h x) ->
  keeps s (with_banks (<[b := x']> (banks s)) s).
Proof.
  intros [Hb Hn Ht] Hx Hok Hw.
  assert (E : forall h, sum_by (bank_wt h) (<[b := x']> (banks s)) = sum_by (bank_wt h) (banks s)).
  { intros h. rewrite (sum_by_insert _ _ _ x) by done. rewrite Hw. lia. }
  split; [| | done..].
  - split; simpl; [by apply Forall_insert | by rewrite length_insert |].
    unfold load. simpl. by rewrite E.
  - intros h. unfold population, load. simpl. by rewrite E.
Qed.

(** ** Channel scheduling keeps the invariant *)

Lemma oldest_bank_some cand ii s b :
  oldest_bank cand ii s = Some b ->
  exists x, banks s !! b = Some x /\ cand x = true /\ m_bank_timestamp x < ULLONG_MAX.
Proof.
  unfold oldest_bank. destruct (scan_min _ _ _ _ _) as [r kk] eqn:E. simpl.
  destruct r as [j |]; [| done]. intros [= <-].
  apply scan_min_spec in E as [_ [[? _] | (j' & x & [= ->] & Hx & Hk & Hlt & _)]]; [done |].
  exists x. destruct (cand x); [| done]. injection Hk as <-. split; [| done].
  unfold channel_banks in Hx. apply lookup_take_Some in Hx as [Hx _].
  rewrite lookup_drop in Hx. exact Hx.
Qed.

Lemma oldest_bank_none cand ii s x j :
  oldest_bank cand ii s = None -> channel_banks ii s !! j = Some x -> cand x = true ->
  ULLONG_MAX <= m_bank_timestamp x.
Proof.
  unfold oldest_bank. destruct (scan_min _ _ _ _ _) as [r kk] eqn:E. simpl.
  destruct r as [? |]; [done |]. intros _ Hx Hc.
  apply scan_min_spec in E as [Hall [[_ ->] | (? & ? & ? & _)]]; [| done].
  apply (Hall j x _ Hx). by rewrite Hc.
Qed.

Lemma in_state_true st x : in_state st x = true <-> exists e, m_current_list x = Some e /\ m_state e = st.
Proof.
  unfold in_state. rewrite bool_decide_eq_true. destruct (m_current_list x) as [e |]; simpl.
  - split; [intros [= ?]; eauto | intros (? & [= <-] & ->); done].
  - split; [done | intros (? & ? & _); done].
Qed.

Lemma bank_current x e : bank_ok x -> m_current_list x = Some e -> has_req e.
Proof.
  intros [_ Hr _] He. unfold pending in Hr. rewrite He in Hr.
  apply Forall_app in Hr as [_ Hr]. by apply Forall_cons in Hr as [? _].
Qed.

(** The current entry replaced by one with the same request. *)
Lemma swap_current x x' e e' :
  bank_ok x -> m_current_list x = Some e -> m_current_list x' = Some e' ->
  m_buffer x' = m_buffer x -> m_buffer_free_list x' = m_buffer_free_list x ->
  r_ptr <$> m_req e' = r_ptr <$> m_req e ->
  m_data_ready x' = ULLONG_MAX \/ m_state e' = DRAM_DATA_WAIT ->
  bank_ok x' /\ forall h, bank_wt h x' = bank_wt h x.
Proof.
  intros Hok He He' Hb Hf Hr Hd. pose proof (bank_current x e Hok He) as [r Er].
  destruct Hok as [Hs Hq _]. unfold pending in *. rewrite He in *. simpl in *.
  rewrite Er in Hr. destruct (m_req e') as [r' |] eqn:Er'; [| done]. injection Hr as Hr.
  split.
  - split; unfold pending.
    + by rewrite Hb, Hf, He', length_app in *.
    + rewrite Hb, He'. apply Forall_app in Hq as [? _]. apply Forall_app. split; [done |].
      constructor; [by exists r' | done].
    + destruct Hd as [-> | ?]; [by left |]. right. apply in_state_true. eauto.
  - intros h. unfold bank_wt, pending. rewrite Hb, He, He'. simpl.
    clear -Er Er' Hr. induction (m_buffer x) as [| a l IH]; simpl; [| by rewrite IH].
    unfold entry_wt. rewrite Er, Er'. simpl. unfold wt. by rewrite Hr.
Qed.

Lemma data_ready_idle x st :
  bank_ok x -> in_state st x = true -> st <> DRAM_DATA_WAIT -> m_data_ready x = ULLONG_MAX.
Proof.
  intros [_ _ [? | Hd]] Hs Hne; [done |].
  apply in_state_true in Hs as (e & E & <-), Hd as (e' & E' & Es). congruence.
Qed.

Lemma issue_cmd_ok now x :
  bank_ok x -> in_state DRAM_CMD x = true ->
  exists x', issue_cmd now x = Done x' /\ bank_ok x' /\ forall h, bank_wt h x' = bank_wt h x.
Proof.
  intros Hok Hs. pose proof (data_ready_idle x _ Hok Hs ltac:(done)) as Hd.
  apply in_state_true in Hs as (e & E & Es). unfold issue_cmd. rewrite E, bool_decide_true by done.
  simpl. destruct (m_current_rid x =? ULLONG_MAX); [| destruct (m_rid e =? m_current_rid x)];
    (eexists; split; [reflexivity |]); eapply swap_current; eauto; simpl; auto; by destruct (m_req e).
Qed.

Lemma schedule_cmd_channel_ok ii s : dram_ok s -> succeeds keeps s (schedule_cmd_channel ii s).
Proof.
  intros Hok. unfold schedule_cmd_channel.
  destruct (oldest_bank _ ii s) as [b |] eqn:Eb; [| by apply succeeds_ret, dram_keeps_refl].
  apply oldest_bank_some in Eb as (x & Hx & Hs & _). rewrite Hx. simpl.
  pose proof (Forall_lookup_1 _ _ _ _ (ok_banks s Hok) Hx) as Hbk.
  destruct (issue_cmd_ok (m_cycle s) x Hbk Hs) as (x' & -> & Hok' & Hw). simpl.
  eexists. split; [reflexivity |]. by apply (keeps_bank s b x).
Qed.

Lemma each_channel_ok f ids s :
  dram_ok s -> (forall i s', i ∈ ids -> keeps s s' -> succeeds keeps s' (f i s')) ->
  succeeds keeps s (each_channel f ids s).
Proof.
  revert s. induction ids as [| i ids IH]; intros s Hok Hf; simpl; [by apply succeeds_ret, dram_keeps_refl |].
  apply (succeeds_bind keeps); [apply Hf; [by left | by apply dram_keeps_refl] |].
  intros s' Hk. apply IH; [apply Hk |]. intros j s2 Hj Hk2.
  apply Hf; [by right | by etrans].
Qed.

Lemma channel_schedule_cmd_ok s : dram_ok s -> succeeds keeps s (channel_schedule_cmd s).
Proof.
  intros Hok. apply each_channel_ok; [done |]. intros i s' _ Hk. apply schedule_cmd_channel_ok, Hk.
Qed.

(** With a bus of some width the bus can always be claimed. *)
Lemma acquire_data_bus_done now size c :
  0 < KNOB_DRAM_BUS_WIDTH k -> exists c' latency, acquire_data_bus now size c = Done (c', latency).
Proof.
  intros Hw. unfold acquire_data_bus. destruct (_ <? _); [by do 2 eexists |].
  destruct (Z.eqb_spec (KNOB_DRAM_BUS_WIDTH k) 0); [lia | by do 2 eexists].
Qed.

(** The bus state and the byte counter are not part of the invariant. *)
Lemma keeps_bus s s' ch bw :
  keeps s s' -> length ch = length (channels s) ->
  keeps s (mk_dram (banks s') ch (m_num_bank_per_channel s') (m_cycle s') (m_total_req s')
             (m_num_completed_in_last_cycle s') (m_starvation_cycle s') (m_output_buffer s')
             (m_tmp_output_buffer s') (freed s') bw).
Proof. intros [[? ? ?] ? ? ? ?] ?. by split. Qed.

Section Bus.
Context (Hwidth : 0 < KNOB_DRAM_BUS_WIDTH k).

Lemma data_loop_ok ii fuel s :
  dram_ok s -> (ii < length (channels s))%nat ->
  countb (in_state DRAM_DATA) (banks s) < Z.of_nat fuel -> succeeds keeps s (data_loop fuel ii s).
Proof.
  revert s. induction fuel as [| fuel IH]; intros s Hok Hii Hf.
  { pose proof (countb_nonneg (in_state DRAM_DATA) (banks s)). lia. }
  simpl. destruct (lookup_lt_is_Some_2 (channels s) ii Hii) as [c Hc]. rewrite Hc. simpl.
  destruct (negb _); [by apply succeeds_ret, dram_keeps_refl |].
  destruct (oldest_bank _ ii s) as [b |] eqn:Eb; [| by apply succeeds_ret, dram_keeps_refl].
  apply oldest_bank_some in Eb as (x & Hx & Hs & _). rewrite Hx. simpl.
  apply andb_true_iff in Hs as [Hs _]. pose proof Hs as Hs0.
  apply in_state_true in Hs as (e & E & Es). rewrite E. simpl. rewrite bool_decide_true by done. simpl.
  destruct (acquire_data_bus_done (m_cycle s) (m_size e) c Hwidth)
    as (c' & latency & ->). simpl.
  set (x' := mk_bank _ _ _ _ _ _ _ _).
  pose proof (Forall_lookup_1 _ _ _ _ (ok_banks s Hok) Hx) as Hbk.
  destruct (swap_current x x' e _ Hbk E eq_refl eq_refl eq_refl) as [Hok' Hw].
  { simpl. by destruct (m_req e). }
  { by right. }
  pose proof (keeps_bus s _ (<[ii := c']> (channels s)) (total_dram_bandwidth s + m_size e)
    (keeps_bank s b x x' Hok Hx Hok' Hw) ltac:(by rewrite length_insert)) as Hk. simpl in Hk.
  destruct (IH _ (kp_ok _ _ Hk)) as (s2 & E2 & Hk2); simpl.
  - by rewrite length_insert.
  - rewrite (countb_insert _ _ _ x) by done. rewrite Hs0.
    change (in_state DRAM_DATA x') with false. lia.
  - exists s2. split; [exact E2 | by etrans].
Qed.

Lemma channel_schedule_ok s : dram_ok s -> succeeds keeps s (channel_schedule s).
Proof.
  intros Hok. apply (succeeds_bind keeps); [by apply channel_schedule_cmd_ok |]. intros s1 Hk1.
  apply each_channel_ok; [apply Hk1 |]. intros i s2 Hi Hk2.
  apply elem_of_seq in Hi. apply data_loop_ok; [apply Hk2 | rewrite (kp_chan _ _ Hk2); lia |].
  pose proof (countb_nonneg (in_state DRAM_DATA) (banks s2)).
  pose proof (ok_nbanks _ (kp_ok _ _ Hk2)). pose proof (ok_nbanks _ (kp_ok _ _ Hk1)). lia.
Qed.

End Bus.

(** ** Completion keeps the invariant *)

Lemma sum_by_partition {A} (h : A -> Z) (P : A -> Prop) `{forall a, Decision (P a)} l :
  sum_by h (filter P l) + sum_by h (filter (fun a => ~ P a) l) = sum_by h l.
Proof.
  induction l as [| a l IH]; [done |]. rewrite !filter_cons. simpl.
  destruct (decide (P a)); rewrite ?decide_True, ?decide_False by tauto; simpl; lia.
Qed.

Lemma length_partition {A} (P : A -> Prop) `{forall a, Decision (P a)} l :
  (length (filter P l) + length (filter (fun a => ~ P a) l) = length l)%nat.
Proof.
  induction l as [| a l IH]; [done |]. rewrite !filter_cons. simpl.
  destruct (decide (P a)); rewrite ?decide_True, ?decide_False by tauto; simpl; lia.
Qed.

Lemma Forall_filter_keep {A} (Q P : A -> Prop) `{forall a, Decision (P a)} l :
  Forall Q l -> Forall Q (filter P l).
Proof.
  rewrite !Forall_forall. intros HQ a Ha. apply list_elem_of_filter in Ha as [_ Ha]. by apply HQ.
Qed.

Lemma entry_wt_one e : has_req e -> entry_wt (fun _ => 1) e = 1.
Proof. intros [r E]. unfold entry_wt. by rewrite E. Qed.

Lemma sum_entry_wt_one l : Forall has_req l -> sum_by (entry_wt (fun _ => 1)) l = Z.of_nat (length l).
Proof. induction 1 as [| e l He Hl IH]; simpl; [done |]. rewrite entry_wt_one, IH by done. lia. Qed.

(** What finishing requests outside the banks changes: [n] of them, of weight
    [w], leave. *)
Record finishes (w : (nat -> Z) -> Z) (n : Z) (s s' : dram_ctrl_c) : Prop := {
  fin_banks : banks s' = banks s;
  fin_chan : channels s' = channels s;
  fin_cycle : m_cycle s' = m_cycle s;
  fin_starve : m_starvation_cycle s' = m_starvation_cycle s;
  fin_total : m_total_req s' = m_total_req s - n;
  fin_pop : forall h, population h s' = population h s + w h
}.

Lemma finish_ok r s : finishes (fun h => wt h r) 0 s (finish r s).
Proof.
  unfold finish. destruct (r_type r); try destruct (m_tmp_output_buffer s) eqn:E;
  split; simpl; try done; try lia;
  intros h; unfold population, load; simpl; rewrite ?E, ?sum_by_app; simpl; unfold wt; simpl; lia.
Qed.

Lemma finishes_counts w n s s' d c :
  finishes w n s s' -> finishes w (n + d) s (set_counts (m_total_req s' - d) c s').
Proof. intros [? ? ? ? ? ?]. split; simpl; try done. lia. Qed.

Lemma finishes_trans w1 n1 w2 n2 s1 s2 s3 :
  finishes w1 n1 s1 s2 -> finishes w2 n2 s2 s3 -> finishes (fun h => w1 h + w2 h) (n1 + n2) s1 s3.
Proof.
  intros [? ? ? ? ? Hp] [? ? ? ? ? Hq]. split; try congruence; [lia |].
  intros h. rewrite Hq, Hp. lia.
Qed.

Lemma merge_requests_ok addr l s :
  Forall has_req l ->
  exists s', merge_requests addr l s = Done s' /\
    finishes (fun h => sum_by (entry_wt h) (filter (fun e => m_addr e = addr) l))
      (Z.of_nat (length (filter (fun e => m_addr e = addr) l))) s s'.
Proof.
  intros Hl. revert s. induction Hl as [| e l [r Er] _ IH]; intros s; simpl.
  { exists s. split; [done |]. split; simpl; try done; intros; lia. }
  rewrite filter_cons. destruct (Z.eqb_spec (m_addr e) addr) as [Ea | Ea].
  - rewrite decide_True by done. rewrite Er. simpl.
    pose proof (finishes_counts _ _ _ _ 1 (s32 (m_cycle s)) (finish_ok r s)) as H1.
    destruct (IH (set_counts (m_total_req (finish r s) - 1) (s32 (m_cycle s)) (finish r s)))
      as (s' & E' & H2).
    exists s'. split; [exact E' |].
    destruct (finishes_trans _ _ _ _ _ _ _ H1 H2) as [? ? ? ? ? Hp].
    split; try done; [lia |]. intros h. rewrite Hp. unfold entry_wt at 2. rewrite Er. simpl. lia.
  - rewrite decide_False by done. apply IH.
Qed.

(** The bank left by a completion: [merged] and the current entry go back to
    the free list. *)
Lemma completed_bank_ok x e r kept merged cr da br bt :
  bank_ok x -> m_current_list x = Some e -> m_req e = Some r ->
  Forall has_req kept -> (length kept + length merged = length (m_buffer x))%nat ->
  (forall h, sum_by (entry_wt h) merged + sum_by (entry_wt h) kept = sum_by (entry_wt h) (m_buffer x)) ->
  let x' := mk_bank kept (m_buffer_free_list x ++ (reset <$> merged) ++ [reset e]) None cr
              ULLONG_MAX da br bt in
  bank_ok x' /\ forall h, bank_wt h x' = bank_wt h x - sum_by (entry_wt h) merged - wt h r.
Proof.
  intros [Hs Hr _] He Er Hk Hl Hw x'. unfold pending in *. rewrite He in *. split.
  - split; unfold pending; simpl; [| by rewrite app_nil_r | by left].
    rewrite app_nil_r, !length_app, length_fmap in *. simpl in *. lia.
  - intros h. unfold bank_wt, pending. rewrite He. simpl. rewrite app_nil_r, sum_by_app. simpl.
    specialize (Hw h). unfold entry_wt at 3. rewrite Er. simpl. lia.
Qed.

(** A bank gives up requests that others have finished. *)
Lemma finishes_keeps w n s s2 b x x' c :
  dram_ok s -> finishes w (n - 1) s s2 -> banks s !! b = Some x -> bank_ok x' ->
  (forall h, bank_wt h x' = bank_wt h x - w h) -> w (fun _ => 1) = n ->
  keeps s (set_counts (m_total_req s2 - 1) c (with_banks (<[b := x']> (banks s2)) s2)).
Proof.
  intros [Hb Hn Ht] [Eb Ec Ey Es Et Ep] Hx Hok Hw H1.
  assert (E : forall h, sum_by (bank_wt h) (<[b := x']> (banks s)) = sum_by (bank_wt h) (banks s) - w h).
  { intros h. rewrite (sum_by_insert _ _ _ x) by done. rewrite Hw. lia. }
  split; simpl; [| | done | done | by rewrite Ec].
  - split; unfold load in *; simpl; rewrite ?Eb;
      [by apply Forall_insert | by rewrite length_insert |]. rewrite E. lia.
  - intros h. specialize (Ep h). unfold population, load in *. simpl. rewrite Eb in *. rewrite E. lia.
Qed.

Lemma complete_bank_ok ii s :
  dram_ok s -> (ii < length (banks s))%nat -> m_cycle s < ULLONG_MAX -> succeeds keeps s (complete_bank ii s).
Proof.
  intros Hok Hii Hc. unfold complete_bank.
  destruct (lookup_lt_is_Some_2 _ _ Hii) as [x Hx]. rewrite Hx. simpl.
  pose proof (Forall_lookup_1 _ _ _ _ (ok_banks s Hok) Hx) as Hbk.
  destruct (m_current_list x) as [e |] eqn:Ee; [| by apply succeeds_ret, dram_keeps_refl].
  destruct (Z.leb_spec (m_data_ready x) (m_cycle s)); [| by apply succeeds_ret, dram_keeps_refl].
  destruct (bk_data x Hbk) as [? | Hs]; [lia |].
  apply in_state_true in Hs as (e' & Ee' & Es). rewrite Ee in Ee'. injection Ee' as <-.
  rewrite bool_decide_true by done. simpl.
  destruct (bank_current x e Hbk Ee) as [r Er]. pose proof (bk_req x Hbk) as Hreq.
  unfold pending in Hreq. apply Forall_app in Hreq as [Hreq _]. destruct (KNOB_DRAM_MERGE_REQUESTS k).
  - destruct (merge_requests_ok (m_addr e) (m_buffer x) s Hreq) as (s1 & -> & H1). simpl.
    rewrite Er. simpl. eexists. split; [reflexivity |].
    destruct (completed_bank_ok x e r (filter (fun e' => m_addr e' <> m_addr e) (m_buffer x))
      (filter (fun e' => m_addr e' = m_addr e) (m_buffer x)) (m_current_rid x) (m_data_avail x)
      (m_bank_ready x) (m_bank_timestamp x) Hbk Ee Er) as [Hok' Hw'].
    + by apply Forall_filter_keep.
    + rewrite Nat.add_comm. apply length_partition.
    + intros h. apply sum_by_partition.
    + eapply finishes_keeps; [done | | exact Hx | exact Hok' | intros h; rewrite Hw' |].
      * pose proof (finishes_trans _ _ _ _ _ _ _ H1 (finish_ok r s1)) as H2.
        rewrite Z.add_0_r in H2. rewrite <- (Z.add_simpl_r (Z.of_nat _) 1) in H2. exact H2.
      * simpl. lia.
      * simpl. rewrite sum_entry_wt_one by (by apply Forall_filter_keep). done.
  - simpl. rewrite Er. simpl. eexists. split; [reflexivity |].
    destruct (completed_bank_ok x e r (m_buffer x) [] (m_current_rid x) (m_data_avail x)
      (m_bank_ready x) (m_bank_timestamp x) Hbk Ee Er) as [Hok' Hw']; [done | simpl; lia | done |].
    eapply (finishes_keeps _ 1); [done | apply finish_ok | exact Hx | exact Hok' | | done].
    intros h. rewrite Hw'. simpl. lia.
Qed.

Lemma complete_banks_ok ids s :
  dram_ok s -> m_cycle s < ULLONG_MAX -> (forall i, i ∈ ids -> (i < length (banks s))%nat) ->
  succeeds keeps s (complete_banks ids s).
Proof.
  revert s. induction ids as [| i ids IH]; intros s Hok Hc Hi; simpl; [by apply succeeds_ret, dram_keeps_refl |].
  apply (succeeds_bind keeps); [apply complete_bank_ok; [done | apply Hi; by left | done] |].
  intros s' Hk. apply IH; [apply Hk | by rewrite (kp_cycle _ _ Hk) |].
  intros j Hj. rewrite (ok_nbanks _ (kp_ok _ _ Hk)), <- (ok_nbanks _ Hok). apply Hi. by right.
Qed.

Lemma bank_schedule_complete_ok s :
  dram_ok s -> m_cycle s < ULLONG_MAX -> succeeds keeps s (bank_schedule_complete s).
Proof.
  intros Hok Hc. unfold bank_schedule_complete.
  assert (Hk : keeps s (set_counts (m_total_req s) 0 s)) by (destruct Hok; by split).
  destruct (complete_banks_ok (seq 0 (length (banks s))) (set_counts (m_total_req s) 0 s))
    as (s' & E & Hk'); [apply Hk | done | intros i Hi; apply elem_of_seq in Hi; simpl; lia |].
  exists s'. split; [exact E | by etrans].
Qed.

(** ** Bank scheduling keeps the invariant *)

Lemma entry_wt_update h e st c : entry_wt h (with_scheduled c (with_state st e)) = entry_wt h e.
Proof. done. Qed.

Lemma bank_new_request_ok policy `{!Policy policy} now x :
  bank_ok x ->
  exists x', bank_new_request policy now x = Done x' /\ bank_ok x' /\ forall h, bank_wt h x' = bank_wt h x.
Proof.
  intros Hok. unfold bank_new_request.
  assert (Hstay : exists x', Done x = Done x' /\ bank_ok x' /\ forall h, bank_wt h x' = bank_wt h x) by eauto.
  destruct (m_current_list x) as [e |] eqn:Ee.
  - assert (Hcur : exists x', (if (m_bank_ready x <=? now) && bool_decide (m_state e = DRAM_CMD_WAIT)
      then mret (mk_bank (m_buffer x) (m_buffer_free_list x) (Some (with_state DRAM_CMD e))
                (m_current_rid x) (m_data_ready x) (m_data_avail x) ULLONG_MAX now) else mret x) = Done x' /\
      bank_ok x' /\ forall h, bank_wt h x' = bank_wt h x).
    { destruct ((_ <=? _) && _) eqn:Eb; [| exact Hstay]. eexists. split; [reflexivity |].
      apply andb_true_iff in Eb as [_ Eb]. apply bool_decide_eq_true in Eb.
      eapply swap_current; eauto. left. simpl.
      apply (data_ready_idle x DRAM_CMD_WAIT Hok); [apply in_state_true; eauto | done]. }
    destruct (m_buffer x); exact Hcur.
  - destruct (m_buffer x) as [| e0 l0] eqn:Eb; [exact Hstay |].
    pose proof (policy_perm x) as Hp. rewrite Eb in Hp.
    destruct (policy x) as [| e rest] eqn:Epol; [by apply Permutation_nil_cons in Hp |].
    eexists. split; [reflexivity |]. destruct Hok as [Hs Hr Hd]. unfold pending in *.
    rewrite Ee, Eb, app_nil_r in *. split.
    + split; unfold pending; simpl.
      * rewrite <- Hp in Hs. rewrite length_app. simpl in *. lia.
      * rewrite <- Hp in Hr. apply Forall_cons in Hr as [? ?]. apply Forall_app. split; [done |].
        by constructor.
      * left. destruct Hd as [? | Hd]; [done |]. apply in_state_true in Hd as (? & ? & _). congruence.
    + intros h. unfold bank_wt, pending. rewrite Ee, Eb, app_nil_r, <- (sum_by_perm _ _ _ Hp).
      simpl. rewrite sum_by_app. simpl. rewrite entry_wt_update. lia.
Qed.

Lemma map_banks_ok (f : bank -> outcome bank) (P : bank -> Prop) (R : bank -> bank -> Prop) bs :
  Forall P bs -> (forall x, P x -> exists x', f x = Done x' /\ R x x') ->
  exists bs', map_banks f bs = Done bs' /\ Forall2 R bs bs'.
Proof.
  intros HP Hf. induction HP as [| x bs Hx _ IH]; simpl; [by exists [] |].
  destruct (Hf x Hx) as (x' & -> & HR), IH as (bs' & -> & HRs). simpl. eexists. split; [reflexivity |].
  by constructor.
Qed.

Lemma bank_schedule_ok policy `{!Policy policy} s :
  dram_ok s -> m_cycle s < ULLONG_MAX -> succeeds keeps s (bank_schedule policy s).
Proof.
  intros Hok Hc. apply (succeeds_bind keeps); [by apply bank_schedule_complete_ok |]. intros s1 Hk1.
  pose proof (kp_ok _ _ Hk1) as [Hb Hn Ht]. unfold bank_schedule_new.
  destruct (map_banks_ok (bank_new_request policy (m_cycle s1)) bank_ok
    (fun x x' => bank_ok x' /\ forall h, bank_wt h x' = bank_wt h x) (banks s1) Hb) as (bs & -> & HR).
  { intros x Hx. apply (bank_new_request_ok policy (m_cycle s1) x Hx). }
  assert (E : forall h, sum_by (bank_wt h) bs = sum_by (bank_wt h) (banks s1)).
  { intros h. apply sum_by_ext. clear -HR. induction HR as [| ? ? ? ? [_ Hw] _ IH]; constructor; auto. }
  eexists. split; [reflexivity |]. split; [| | done..].
  - split; unfold load; simpl.
    + clear -HR. induction HR as [| ? ? ? ? [? _] _ IH]; by constructor.
    + by rewrite <- (Forall2_length _ _ _ HR).
    + by rewrite E.
  - intros h. unfold population, load. simpl. by rewrite E.
Qed.

(** ** Insertion *)

Lemma sum_omap_req h l : sum_by (wt h) (omap m_req l) = sum_by (entry_wt h) l.
Proof.
  induction l as [| e l IH]; [done |]. cbn [omap list_omap sum_by]. unfold entry_wt at 1.
  destruct (m_req e); cbn [sum_by from_option]; rewrite <- IH; done.
Qed.

Lemma length_omap_req l : Forall has_req l -> length (omap m_req l) = length l.
Proof. induction 1 as [| e l [r Er] _ IH]; simpl; [done |]. rewrite Er. simpl. f_equal. exact IH. Qed.

Lemma flush_prefetch_ok x x1 gone :
  bank_ok x -> flush_prefetch x = (x1, gone) ->
  bank_ok x1 /\ (forall h, bank_wt h x1 = bank_wt h x - sum_by (wt h) gone) /\
  sum_by (wt (fun _ => 1)) gone = Z.of_nat (length gone).
Proof.
  intros [Hs Hr Hd] [= <- <-]. unfold pending in *.
  pose proof (list_filter_iff (fun e => Is_true (negb (is_prefetch e))) (fun e => ~ Is_true (is_prefetch e))
    (m_buffer x) (fun e => negb_True _)) as Ef. rewrite Ef.
  pose proof (length_partition (fun e => Is_true (is_prefetch e)) (m_buffer x)) as Hl.
  apply Forall_app in Hr as [Hr1 Hr2]. split_and!.
  - split; unfold pending; simpl; [| | exact Hd].
    + cbv beta in *. rewrite !length_app in *. lia.
    + apply Forall_app. split; [by apply Forall_filter_keep | done].
  - intros h. unfold bank_wt, pending. simpl. rewrite !sum_by_app, sum_omap_req.
    pose proof (sum_by_partition (entry_wt h) (fun e => Is_true (is_prefetch e)) (m_buffer x)).
    cbv beta in *. lia.
  - rewrite sum_omap_req, length_omap_req, sum_entry_wt_one; [done | by apply Forall_filter_keep..].
Qed.

Lemma insert_req_in_drb_ok r bid rid cid now x :
  bank_ok x -> m_buffer_free_list x <> [] ->
  exists x', insert_req_in_drb r bid rid cid now x = Done x' /\ bank_ok x' /\
    forall h, bank_wt h x' = bank_wt h x + wt h r.
Proof.
  intros [Hs Hr Hd] Hf. unfold insert_req_in_drb.
  destruct (m_buffer_free_list x) as [| e free] eqn:Ef; [done |].
  eexists. split; [reflexivity |]. unfold pending in *. apply Forall_app in Hr as [? ?]. split.
  - split; unfold pending; simpl; [| | exact Hd].
    + rewrite !length_app in *. simpl in *. lia.
    + apply Forall_app. split; [apply Forall_app; split; [done |] | done].
      constructor; [by exists r | done].
  - intros h. unfold bank_wt, pending. simpl. rewrite !sum_by_app. simpl. unfold entry_wt at 2. simpl. lia.
Qed.

(** Bank numbers are in range because there is a power of two of them. *)
Lemma parse_addr_bid nb addr bid rid cid :
  0 <= nb < 32 -> KNOB_DRAM_NUM_BANKS k = 2 ^ nb ->
  parse_addr address_map addr = (bid, rid, cid) -> 0 <= bid < KNOB_DRAM_NUM_BANKS k.
Proof.
  intros Hnb HN E. rewrite HN.
  assert (Hm : m_bid_mask address_map = N_BIT_MASK nb).
  { unfold address_map. rewrite HN, log2_int_pow2 by done. by destruct (KNOB_DEFAULT_INTERLEAVING k). }
  injection E as Eb _ _. rewrite Hm in Eb. rewrite !land_mask in Eb by lia.
  pose proof (pow2_pos nb ltac:(lia)) as Hp.
  destruct (KNOB_DRAM_BANK_XOR_INDEX k); subst bid.
  - set (a := _ mod 2 ^ nb). set (b := _ mod 2 ^ nb).
    assert (Ha : 0 <= a < 2 ^ nb) by (by apply Z.mod_pos_bound).
    assert (Hb : 0 <= b < 2 ^ nb) by (by apply Z.mod_pos_bound).
    clearbody a b. split; [by apply Z.lxor_nonneg; lia |].
    destruct (Z.eq_dec (Z.lxor a b) 0) as [-> | Hne]; [lia |].
    apply Z.log2_lt_pow2; [pose proof (proj2 (Z.lxor_nonneg a b)); lia |].
    pose proof (Z.log2_lxor a b ltac:(lia) ltac:(lia)).
    assert (Hlog : forall z, 0 <= z < 2 ^ nb -> Z.log2 z < nb \/ (nb = 0 /\ z = 0)).
    { intros z Hz. destruct (Z.eq_dec z 0) as [-> |]; [change (Z.log2 0) with 0; lia |].
      left. apply Z.log2_lt_pow2; lia. }
    pose proof (Z.log2_nonneg a). pose proof (Z.log2_nonneg b).
    destruct (Hlog a Ha) as [? | [? ->]], (Hlog b Hb) as [? | [? ->]]; [lia.. | done].
  - by apply Z.mod_pos_bound.
Qed.

Lemma insert_new_req_ok nb r s :
  0 <= nb < 32 -> KNOB_DRAM_NUM_BANKS k = 2 ^ nb -> dram_ok s ->
  exists s' taken, insert_new_req address_map r s = Done (s', taken) /\ dram_ok s' /\
    (forall h, population h s' = population h s + if taken then wt h r else 0) /\
    m_cycle s' = m_cycle s /\ m_starvation_cycle s' = m_starvation_cycle s.
Proof.
  intros Hnb HN [Hb Hn Ht]. unfold insert_new_req.
  destruct (parse_addr address_map (r_addr r)) as [[bid rid] cid] eqn:Ep.
  pose proof (parse_addr_bid nb _ _ _ _ Hnb HN Ep) as Hbid.
  destruct (aget_in_range (banks s) bid ltac:(lia)) as (x & Hx & ->). simpl.
  pose proof (Forall_lookup_1 _ _ _ _ Hb Hx) as Hbk.
  destruct (if decide _ then _ else _) as [x1 gone] eqn:Ex.
  assert (Hx1 : bank_ok x1 /\ (forall h, bank_wt h x1 = bank_wt h x - sum_by (wt h) gone) /\
    sum_by (wt (fun _ => 1)) gone = Z.of_nat (length gone)).
  { case_decide; [by apply flush_prefetch_ok |]. injection Ex as <- <-. split_and!; [done | | done].
    intros h. simpl. lia. }
  clear Ex. destruct Hx1 as (Hok1 & Hw1 & Hone). rewrite aset_in_range by lia. simpl.
  assert (E1 : forall h y, sum_by (bank_wt h) (<[Z.to_nat bid := y]> (banks s))
                 = sum_by (bank_wt h) (banks s) - bank_wt h x + bank_wt h y).
  { intros h y. by rewrite (sum_by_insert _ _ _ x). }
  case_decide as Hfree; simpl.
  - do 2 eexists. split; [reflexivity |]. split_and!; [| | done..].
    + split; unfold load in *; simpl; [by apply Forall_insert | by rewrite length_insert |].
      rewrite E1, Hw1. lia.
    + intros h. unfold population, load in *. simpl. rewrite E1, Hw1, sum_by_app. lia.
  - destruct (insert_req_in_drb_ok (set_req_state MEM_DRAM_START r) bid rid cid (m_cycle s) x1 Hok1 Hfree)
      as (x2 & -> & Hok2 & Hw2). simpl.
    change (forall h, bank_wt h x2 = bank_wt h x1 + wt h r) in Hw2.
    rewrite aset_in_range by (rewrite length_insert; lia). simpl. rewrite list_insert_insert_eq.
    do 2 eexists. split; [reflexivity |]. split_and!; [| | done..].
    + split; unfold load in *; simpl; [by apply Forall_insert | by rewrite length_insert |].
      rewrite E1, Hw2, Hw1. change (wt (fun _ => 1) r) with 1. lia.
    + intros h. unfold population, load in *. simpl. rewrite E1, Hw2, Hw1, sum_by_app. lia.
Qed.

(** ** Output and the cycle *)

Lemma send_pass_sum h net allowed checked l kept sent c :
  send_pass net allowed checked l = (kept, sent, c) ->
  sum_by (wt h) kept + sum_by (wt h) sent = sum_by (wt h) l.
Proof.
  revert checked kept sent c. induction l as [| r l IH]; intros checked kept sent c; simpl.
  { by intros [= <- <- _]. }
  destruct (allowed (r_acc r)); [destruct (net r) |].
  - destruct (send_pass _ _ _ l) as [[kept' sent'] c'] eqn:E. intros [= <- <- _].
    apply IH in E. simpl. lia.
  - intros [= <- <- _]. simpl. lia.
  - destruct (send_pass _ _ _ l) as [[kept' sent'] c'] eqn:E. intros [= <- <- _].
    apply IH in E. simpl. lia.
Qed.

Lemma send_requests_sum h net l kept sent :
  send_requests net l = (kept, sent) -> sum_by (wt h) kept + sum_by (wt h) sent = sum_by (wt h) l.
Proof.
  unfold send_requests. destruct (send_pass _ _ _ l) as [[kept1 sent1] c] eqn:E1.
  apply (send_pass_sum h) in E1. destruct (_ && _).
  - destruct (send_pass _ _ c kept1) as [[kept2 sent2] c2] eqn:E2. intros [= <- <-].
    apply (send_pass_sum h) in E2. rewrite sum_by_app. lia.
  - by intros [= <- <-].
Qed.

Lemma split_ready_app now l a b : split_ready now l = (a, b) -> l = a ++ b.
Proof.
  revert a b. induction l as [| r l IH]; intros a b; simpl; [by intros [= <- <-] |].
  destruct (_ <=? _); [| by intros [= <- <-]].
  destruct (split_ready now l) as [a' b'] eqn:E. intros [= <- <-]. simpl. by rewrite (IH _ _ eq_refl).
Qed.

Lemma delay_packet_ok s : dram_ok s -> keeps s (delay_packet s).
Proof.
  intros Hok. unfold delay_packet. destruct (m_tmp_output_buffer s) as [l |] eqn:E; [| by apply dram_keeps_refl].
  destruct (split_ready _ l) as [a b] eqn:Es. apply split_ready_app in Es as ->.
  destruct Hok. split; [by split | | done..]. intros h. unfold population, load. simpl.
  rewrite E. simpl. rewrite !sum_by_app. lia.
Qed.

Definition int_range (z : Z) : Prop := - 2 ^ 31 <= z < 2 ^ 31.

Lemma s32_succ z : int_range z -> s32 (z + 1) <= z + 1 /\ int_range (s32 (z + 1)).
Proof.
  unfold int_range, s32. intros Hz.
  pose proof (Z.mod_pos_bound (z + 1 + 2 ^ 31) (2 ^ 32) ltac:(lia)).
  pose proof (Z.mod_le (z + 1 + 2 ^ 31) (2 ^ 32) ltac:(lia) ltac:(lia)). lia.
Qed.

Lemma progress_check_cases s :
  dram_ok s -> int_range (m_starvation_cycle s) ->
  (exists s', progress_check s = Done s' /\ dram_ok s' /\ (forall h, population h s' = population h s) /\
     m_cycle s' = m_cycle s /\ m_starvation_cycle s' <= Z.max 0 (m_starvation_cycle s + 1) /\
     int_range (m_starvation_cycle s')) \/
  (progress_check s = Fault AssertFailed /\ 5000 <= m_starvation_cycle s + 1).
Proof.
  intros [Hb Hn Ht] Hr. unfold progress_check. set (n := if _ && _ then _ else _).
  assert (n <= Z.max 0 (m_starvation_cycle s + 1) /\ int_range n) as [Hle Hn0].
  { pose proof (s32_succ _ Hr). subst n. destruct (_ && _); unfold int_range in *; lia. }
  clearbody n. destruct (Z.ltb_spec n 5000); simpl; [left | right; split; [done | lia]].
  eexists. split; [reflexivity |]. split; [by split | done].
Qed.

(** One cycle succeeds, or stops at the starvation assertion. *)
Lemma run_a_cycle_ok policy `{!Policy policy} nb net arrival pll s :
  0 < KNOB_DRAM_BUS_WIDTH k -> 0 <= nb < 32 -> KNOB_DRAM_NUM_BANKS k = 2 ^ nb ->
  dram_ok s -> int_range (m_starvation_cycle s) -> 0 <= m_cycle s < ULLONG_MAX ->
  (exists s' taken sent, run_a_cycle policy address_map net arrival pll s = Done (s', taken, sent) /\
     dram_ok s' /\ m_cycle s' = m_cycle s + 1 /\
     m_starvation_cycle s' <= Z.max 0 (m_starvation_cycle s + 1) /\
     int_range (m_starvation_cycle s') /\
     forall h, population h s' + sum_by (wt h) sent =
       population h s + if taken then from_option (wt h) 0 arrival else 0) \/
  (run_a_cycle policy address_map net arrival pll s = Fault AssertFailed /\
   5000 <= m_starvation_cycle s + 1).
Proof.
  intros Hw Hnb HN Hok Hir Hc.
  assert (Hinc : inc64 (m_cycle s) = m_cycle s + 1).
  { apply u64_small. unfold is_u64, ULLONG_MAX in *. lia. }
  unfold run_a_cycle. destruct pll.
  { left. do 3 eexists. split; [reflexivity |]. destruct Hok. split; [by split |]. split_and!; [done | simpl; lia | apply Hir.. |].
    intros h. simpl. change (population h (tick s)) with (population h s). lia. }
  unfold send. destruct (send_requests net (m_output_buffer s)) as [kept sent] eqn:Es.
  set (s0 := set_output kept _ s). assert (Hok0 : dram_ok s0) by (destruct Hok; by split).
  assert (Hp0 : forall h, population h s0 + sum_by (wt h) sent = population h s).
  { intros h. pose proof (send_requests_sum h _ _ _ _ Es). unfold population, load in *. simpl. lia. }
  pose proof (delay_packet_ok s0 Hok0) as Hk1.
  destruct (channel_schedule_ok Hw (delay_packet s0) (kp_ok _ _ Hk1)) as (s2 & -> & Hk2).
  pose proof (transitivity Hk1 Hk2) as Hk02. simpl.
  destruct (bank_schedule_ok policy s2 (kp_ok _ _ Hk2)) as (s3 & -> & Hk3).
  { rewrite (kp_cycle _ _ Hk02). simpl. lia. }
  pose proof (transitivity Hk02 Hk3) as [Hok3 Hp3 Hc3 Hs3 _]. simpl in *. clear Hk1 Hk2 Hk3 Hk02.
  assert (Hr : exists s4 taken, receive address_map arrival s3 = Done (s4, taken) /\ dram_ok s4 /\
    (forall h, population h s4 = population h s3 + if taken then from_option (wt h) 0 arrival else 0) /\
    m_cycle s4 = m_cycle s3 /\ m_starvation_cycle s4 = m_starvation_cycle s3).
  { destruct arrival as [r |]; simpl; [by apply (insert_new_req_ok nb) |].
    exists s3, false. split_and!; try done. intros h. lia. }
  destruct Hr as (s4 & taken & -> & Hok4 & Hp4 & Hc4 & Hs4). simpl.
  destruct (progress_check_cases s4 Hok4 ltac:(by rewrite Hs4, Hs3))
    as [(s5 & -> & Hok5 & Hp5 & Hc5 & Hs5 & Hi5) | [-> Hf]]; simpl.
  - left. do 3 eexists. split; [reflexivity |]. destruct Hok5. split; [by split |]. split_and!; [| simpl; lia | apply Hi5.. |].
    + simpl. rewrite Hc5, Hc4, Hc3. exact Hinc.
    + intros h. change (population h (tick s5)) with (population h s5). rewrite Hp5, Hp4, Hp3, <- Hp0. lia.
  - right. split; [done | lia].
Qed.

(** Several cycles: the state, the requests taken and the requests sent. *)
Fixpoint run (policy : bank -> list drb_entry_s)
    (inputs : list ((mem_req_s -> bool) * option mem_req_s * bool)) (s : dram_ctrl_c)
    : outcome (dram_ctrl_c * list mem_req_s * list mem_req_s) :=
  match inputs with
  | [] => mret (s, [], [])
  | (net, arrival, pll) :: inputs' =>
      '(s1, taken, sent) ← run_a_cycle policy address_map net arrival pll s;
      '(s2, ins, outs) ← run policy inputs' s1;
      mret (s2, (if taken : bool then option_list arrival else []) ++ ins, sent ++ outs)
  end.

Lemma bank_new_ok b : bank_ok (bank_new b).
Proof. split; simpl; [by rewrite length_fmap, length_seq | done | by left]. Qed.

Lemma new_load h c st : population h (dram_ctrl_init c st) = 0.
Proof.
  unfold population, load. simpl.
  assert (E : forall n m, sum_by (bank_wt h) (bank_new <$> seq n m) = 0).
  { intros n m. revert n. induction m as [| m IH]; intros n; simpl; [done |].
    rewrite IH. by unfold bank_wt. }
  rewrite E. by destruct (_ || _).
Qed.

Lemma dram_ctrl_init_ok c st : dram_ok (dram_ctrl_init c st).
Proof.
  pose proof (new_load (fun _ => 1) c st) as Hl. unfold population in Hl. simpl in Hl.
  split; simpl; [| by rewrite length_fmap, length_seq | by destruct (_ || _); simpl in Hl; lia].
  apply Forall_fmap, Forall_true. intros b. exact (bank_new_ok b).
Qed.

Lemma run_ok policy `{!Policy policy} nb inputs s :
  0 < KNOB_DRAM_BUS_WIDTH k -> 0 <= nb < 32 -> KNOB_DRAM_NUM_BANKS k = 2 ^ nb -> dram_ok s ->
  int_range (m_starvation_cycle s) -> 0 <= m_cycle s -> m_cycle s + Z.of_nat (length inputs) <= ULLONG_MAX ->
  match run policy inputs s with
  | Done (s', taken, sent) => dram_ok s' /\
      forall h, population h s' + sum_by (wt h) sent = population h s + sum_by (wt h) taken
  | Fault f => f = AssertFailed /\
      5000 <= Z.max 0 (m_starvation_cycle s) + Z.of_nat (length inputs)
  end.
Proof.
  intros Hw Hnb HN. revert s. induction inputs as [| [[net arrival] pll] inputs IH]; intros s Hok Hi H0 Hc; simpl.
  { split; [done |]. done. }
  simpl in Hc. destruct (run_a_cycle_ok policy nb net arrival pll s Hw Hnb HN Hok Hi ltac:(lia))
    as [(s1 & taken & sent & -> & Hok1 & Hc1 & Hs1 & Hi1 & Hp1) | [-> Hf]]; simpl; [| split; [done | lia]].
  specialize (IH s1 Hok1 Hi1 ltac:(lia) ltac:(lia)).
  destruct (run policy inputs s1) as [[[s2 ins] outs] | f]; simpl.
  - destruct IH as [Hok2 Hp2]. split; [done |]. intros h. rewrite !sum_by_app.
    specialize (Hp1 h). specialize (Hp2 h). destruct taken, arrival; simpl in *; lia.
  - destruct IH as [-> IH]. split; [done | lia].
Qed.

End DRAM.

(** ** The policies reorder the buffer *)

#[export] Instance schedule_fcfs_policy : Policy schedule_fcfs.
Proof. intros x. reflexivity. Qed.

#[export] Instance schedule_frfcfs_policy : Policy schedule_frfcfs.
Proof. intros x. apply list_sort_perm. Qed.

Lemma sort_func_asym cur a b : sort_func cur a b = true -> sort_func cur b a = false.
Proof.
  unfold sort_func. destruct (is_prefetch a), (is_prefetch b); simpl; try done;
  destruct (m_rid a =? _), (m_rid b =? _); simpl; try done; intros ?%Z.ltb_lt; apply Z.ltb_ge; lia.
Qed.

Lemma sort_func_le_trans cur a b c :
  sort_func cur b a = false -> sort_func cur c b = false -> sort_func cur c a = false.
Proof.
  unfold sort_func. destruct (is_prefetch a), (is_prefetch b), (is_prefetch c); simpl; try done;
  destruct (m_rid a =? _), (m_rid b =? _), (m_rid c =? _); simpl; try done;
  rewrite !Z.ltb_ge; lia.
Qed.

(** The open row as the comparator sees it, after its trip through an [int]. *)
Definition row_seen (x : bank) : Z := u64 (s32 (m_current_rid x)).

Lemma row_seen_exact x :
  0 <= m_current_rid x < 2 ^ 31 \/ m_current_rid x = ULLONG_MAX -> row_seen x = m_current_rid x.
Proof.
  unfold row_seen. intros [Hr | ->]; [| done]. unfold s32.
  rewrite Z.mod_small by lia. rewrite u64_small by (unfold is_u64; lia). lia.
Qed.

Lemma row_seen_wrong x :
  2 ^ 31 <= m_current_rid x < ULLONG_MAX - 2 ^ 31 -> row_seen x <> m_current_rid x.
Proof.
  unfold row_seen, ULLONG_MAX. intros Hr. unfold s32.
  pose proof (Z.mod_pos_bound (m_current_rid x + 2 ^ 31) (2 ^ 32) ltac:(lia)).
  set (r := (m_current_rid x + 2 ^ 31) mod 2 ^ 32) in *. unfold u64.
  destruct (Z.le_gt_cases (2 ^ 31) r).
  - rewrite Z.mod_small by lia. lia.
  - rewrite <- (Z.mod_unique (r - 2 ^ 31) (2 ^ 64) (-1) (r - 2 ^ 31 + 2 ^ 64)) by lia. lia.
Qed.

(** [e] precedes or equals [e'] in the FR-FCFS order with open row [row]. *)
Definition no_worse (row : Z) (e e' : drb_entry_s) : Prop :=
  (is_prefetch e = true -> is_prefetch e' = true) /\
  (is_prefetch e = is_prefetch e' ->
     (m_rid e' = row -> m_rid e = row) /\
     ((m_rid e = row <-> m_rid e' = row) -> m_timestamp e <= m_timestamp e')).

(** [std::list::sort] with the FR-FCFS order: what the entry at the front is
    compared with any other. *)
Lemma frfcfs_front x e rest :
  schedule_frfcfs x = e :: rest -> forall e', e' ∈ rest -> no_worse (row_seen x) e e'.
Proof.
  intros E e' He'.
  pose proof (list_sort_sorted _ (sort_func_asym (m_current_rid x)) (sort_func_le_trans (m_current_rid x))
    (m_buffer x)) as Hs.
  unfold schedule_frfcfs in E. rewrite E in Hs. inversion_clear Hs as [| ? ? _ Hall].
  rewrite Forall_forall in Hall. specialize (Hall e' He'). unfold sort_func in Hall.
  fold (row_seen x) in Hall. set (row := row_seen x) in *. clearbody row. clear E He'. unfold no_worse.
  destruct (is_prefetch e), (is_prefetch e'); simpl in Hall; (split; [done |]; intros Hpf); try done;
  destruct (Z.eqb_spec (m_rid e) row), (Z.eqb_spec (m_rid e') row);
  simpl in Hall; try discriminate; try apply Z.ltb_ge in Hall; split; intros; try done; try tauto; lia.
Qed.

(** ** The data bus *)

(** Transfers started one after the other on a channel, each when the bus is
    available. *)
Fixpoint bus_run (k : dram_knobs) (reqs : list (Z * Z)) (c : channel) : outcome channel :=
  match reqs with
  | [] => mret c
  | (now, size) :: reqs' =>
      _ ← ASSERT (m_dbus_ready c <=? now);
      '(c', _) ← acquire_data_bus k now size c;
      bus_run k reqs' c'
  end.

Definition bus_ok (k : dram_knobs) (c : channel) : Prop := 0 < m_byte_avail c <= KNOB_DRAM_BUS_WIDTH k.

(** One transfer: the bytes moved are the bus width times the cycles taken,
    corrected by the change of the bytes left in the last cycle. *)
Lemma acquire_accounts k now size c :
  bus_ok k c -> 0 <= size -> 0 <= now -> now + size + 1 < 2 ^ 64 ->
  exists c' latency, acquire_data_bus k now size c = Done (c', latency) /\ bus_ok k c' /\ m_dbus_ready c' = latency /\ now <= latency /\
  size = KNOB_DRAM_BUS_WIDTH k * (latency - now) + m_byte_avail c - m_byte_avail c'.
Proof.
  intros Hb Hs Hn Hsmall. unfold bus_ok, acquire_data_bus in *. set (w := KNOB_DRAM_BUS_WIDTH k) in *.
  destruct (Z.ltb_spec size (m_byte_avail c)); simpl.
  { do 2 eexists. split; [reflexivity |]. simpl. lia. }
  destruct (Z.eqb_spec w 0); [lia |]. do 2 eexists. split; [reflexivity |]. simpl.
  set (over := size - m_byte_avail c). assert (Ho : 0 <= over) by (subst over; lia).
  rewrite Z.quot_div_nonneg, Z.rem_mod_nonneg by lia.
  pose proof (Z.div_mod over w ltac:(lia)). pose proof (Z.mod_pos_bound over w ltac:(lia)).
  pose proof (Z.div_pos over w ltac:(lia) ltac:(lia)).
  assert (over / w <= over) by (apply Z.div_le_upper_bound; nia).
  rewrite u64_small by (unfold is_u64; lia). subst over. split_and!; lia.
Qed.

(** ** Properties *)

(** C2: The DRAM controller with at least one channel, a bus of positive
    width, a power of two of banks and any scheduling policy that reorders the
    buffer: its constructor succeeds, and run for any number of cycles (below
    2^64) with any requests arriving and any answers of the network it either
    succeeds or stops at its starvation assertion. The counter behind that
    assertion is not initialised: the assertion can stop the run only when the
    value the counter happened to start with, if positive, plus the number of
    cycles reaches five thousand. No other assertion fails, no division is by
    zero and no array is indexed out of bounds; the request counter equals the
    requests in the banks; and every request taken from the network is, exactly
    once, in a bank, in an output buffer, freed, or sent back. *)
Theorem dram_conserves_requests k policy `{!Policy policy} nb completed starvation inputs :
  0 < KNOB_DRAM_NUM_CHANNEL k -> 0 < KNOB_DRAM_BUS_WIDTH k ->
  0 <= nb < 32 -> KNOB_DRAM_NUM_BANKS k = 2 ^ nb -> int_range starvation ->
  Z.of_nat (length inputs) <= ULLONG_MAX ->
  exists s0, dram_ctrl_new k completed starvation = Done s0 /\
  match run k policy inputs s0 with
  | Done (s, taken, sent) =>
      dram_ok k s /\ forall h, population h s + sum_by (wt h) sent = sum_by (wt h) taken
  | Fault f => f = AssertFailed /\ 5000 <= Z.max 0 starvation + Z.of_nat (length inputs)
  end.
Proof.
  intros Hch Hw Hnb HN Hi Hl. exists (dram_ctrl_init k completed starvation). split.
  { unfold dram_ctrl_new. by destruct (Z.eqb_spec (KNOB_DRAM_NUM_CHANNEL k) 0); [lia |]. }
  pose proof (run_ok k policy nb inputs _ Hw Hnb HN (dram_ctrl_init_ok k completed starvation) Hi) as H.
  specialize (H ltac:(done) ltac:(done)). destruct (run _ _ _ _) as [[[s ins] outs] |]; [| exact H].
  destruct H as [Hok Hp]. split; [done |]. intros h. rewrite Hp, new_load. lia.
Qed.

(** C30: A bank that picks a request by FR-FCFS takes one that no other waiting
    request precedes: a prefetch only if all waiting requests are prefetches;
    among equals in that, one for the open row if there is any; among equals in
    both, the oldest. The others stay in the buffer. The open row is the one the
    comparator sees: its number passes through an int. That is the number of
    the open row when it is below 2^31 or no row is open; from there up to the
    last 2^31 row numbers the row compared is another one. *)
Theorem frfcfs_picks_best now x :
  m_current_list x = None -> m_buffer x <> [] ->
  (exists e x', bank_new_request schedule_frfcfs now x = Done x' /\
    m_current_list x' = Some (with_scheduled now (with_state DRAM_CMD e)) /\
    m_buffer x ≡ₚ e :: m_buffer x' /\
    forall e', e' ∈ m_buffer x' -> no_worse (row_seen x) e e') /\
  (0 <= m_current_rid x < 2 ^ 31 \/ m_current_rid x = ULLONG_MAX -> row_seen x = m_current_rid x) /\
  (2 ^ 31 <= m_current_rid x < ULLONG_MAX - 2 ^ 31 -> row_seen x <> m_current_rid x).
Proof.
  intros Hc Hb. split; [| split; [apply row_seen_exact | apply row_seen_wrong]].
  pose proof (policy_perm (policy := schedule_frfcfs) x) as Hp.
  unfold bank_new_request. rewrite Hc. destruct (m_buffer x) as [| e0 l0] eqn:Eb; [done |].
  destruct (schedule_frfcfs x) as [| e rest] eqn:E; [by apply Permutation_nil_cons in Hp |].
  do 2 eexists. split; [reflexivity |]. simpl. split_and!; [done | by rewrite <- Hp |].
  by apply (frfcfs_front x e rest).
Qed.

(** The data bus never carries more than its width: over any sequence of
    transfers the bytes moved are at most the bus width times the cycles
    between the channel's ready times, plus what was left of the first cycle
    and minus what is left of the last; the bytes left stay between one and
    the width. *)
Theorem dram_bus_bandwidth k reqs c c' :
  bus_ok k c -> Forall (fun r => 0 <= r.1 /\ 0 <= r.2 /\ r.1 + r.2 + 1 < 2 ^ 64) reqs ->
  bus_run k reqs c = Done c' ->
  bus_ok k c' /\ m_dbus_ready c <= m_dbus_ready c' /\
  sum_by snd reqs <= KNOB_DRAM_BUS_WIDTH k * (m_dbus_ready c' - m_dbus_ready c)
                     + m_byte_avail c - m_byte_avail c'.
Proof.
  intros Hb Hr. revert c Hb. induction Hr as [| [now size] reqs (Hn & Hs & Hsm) _ IH]; intros c Hb; simpl in *.
  { intros [= ->]. split_and!; [apply Hb.. | lia | lia]. }
  destruct (Z.leb_spec (m_dbus_ready c) now); [simpl | done].
  destruct (acquire_accounts k now size c Hb Hs Hn Hsm) as (c1 & latency & -> & Hb1 & E1 & Hle & Esz).
  simpl. intros Hrun. destruct (IH c1 Hb1 Hrun) as (Hb' & Hle' & Hsum). split_and!; [apply Hb'.. | lia |].
  unfold bus_ok in *. nia.
Qed.

(** How many controllers the address is interleaved over before bank and row
    are taken from it: with default interleaving and a power of two of
    controllers none is divided out. *)
Definition mc_share (k : dram_knobs) : Z :=
  if KNOB_DEFAULT_INTERLEAVING k && is_pow2_mc k then 1 else KNOB_DRAM_NUM_MC k.

Lemma shiftr_mul_div a m n : 0 <= m -> 0 <= n -> Z.shiftr a (m + n) = Z.shiftr a m / 2 ^ n.
Proof. intros. by rewrite <- Z.shiftr_shiftr, (Z.shiftr_div_pow2 _ n) by done. Qed.

(** Bank and row come from the row-sized pieces, divided by the controllers. *)
Lemma parse_addr_parts k rw nb addr bid rid cid :
  0 < KNOB_DRAM_NUM_MC k < 2 ^ 31 ->
  0 <= rw < 32 -> 0 <= nb < 32 -> KNOB_DRAM_ROWBUFFER_SIZE k = 2 ^ rw -> KNOB_DRAM_NUM_BANKS k = 2 ^ nb ->
  parse_addr k (address_map k) addr = (bid, rid, cid) ->
  let piece := Z.shiftr addr rw / mc_share k in
  let swizzle := Z.shiftr addr (m_bid_xor_shift (address_map k)) mod 2 ^ nb in
  bid = (if KNOB_DRAM_BANK_XOR_INDEX k then Z.lxor (piece mod 2 ^ nb) swizzle else piece mod 2 ^ nb) /\
  rid = piece / 2 ^ nb /\ cid = addr mod 2 ^ rw.
Proof.
  intros Hmc Hrw Hnb Er En E piece swizzle. revert E. unfold parse_addr.
  set (a1 := if is_pow2_mc k then _ else _).
  assert (Ea : a1 = piece).
  { subst a1 piece. unfold address_map, mc_share. rewrite Er, En, !log2_int_pow2 by done.
    destruct (is_pow2_mc k) eqn:Ep, (KNOB_DEFAULT_INTERLEAVING k); simpl; try done; [by rewrite Z.div_1_r |].
    unfold is_pow2_mc in Ep. apply Z.eqb_eq in Ep.
    pose proof (land_pred_pow2 (KNOB_DRAM_NUM_MC k) ltac:(lia) Ep) as Eq. pose proof (Z.log2_nonneg (KNOB_DRAM_NUM_MC k)).
    rewrite log2_int_log2, shiftr_mul_div by lia. by rewrite <- Eq. }
  clearbody a1. subst a1.
  assert (m_bid_mask (address_map k) = N_BIT_MASK nb /\ m_rid_shift (address_map k) = nb /\
    m_cid_mask (address_map k) = N_BIT_MASK rw) as (-> & -> & ->).
  { unfold address_map. rewrite Er, En, !log2_int_pow2 by done. by destruct (KNOB_DEFAULT_INTERLEAVING k). }
  rewrite !land_mask by lia. rewrite (Z.shiftr_div_pow2 piece) by lia. by intros [= <- <- <-].
Qed.

(** C37: With a power of two of banks and row bytes and any positive number of
    controllers, under default interleaving or any other: bank and column are
    in range, and bank, row and column together with the controller's share of
    the address (the residue of its row-sized piece modulo the controllers that
    are divided out, none with default interleaving and a power of two of
    controllers) give the address back. With the permutation-based bank index
    the bank is first undone with the address bits it was mixed with; when the
    controllers are a power of two and those bits lie above bank and row
    offset, they are bits of the row, so that no two addresses of one share
    have the same bank, row and column. *)
Theorem dram_address_roundtrip k rw nb addr bid rid cid :
  0 < KNOB_DRAM_NUM_MC k < 2 ^ 31 ->
  0 <= rw < 32 -> 0 <= nb < 32 -> KNOB_DRAM_ROWBUFFER_SIZE k = 2 ^ rw -> KNOB_DRAM_NUM_BANKS k = 2 ^ nb ->
  is_u64 addr -> parse_addr k (address_map k) addr = (bid, rid, cid) ->
  let xs := m_bid_xor_shift (address_map k) in
  let swizzle := Z.shiftr addr xs mod 2 ^ nb in
  let bank := if KNOB_DRAM_BANK_XOR_INDEX k then Z.lxor bid swizzle else bid in
  0 <= bid < 2 ^ nb /\ 0 <= cid < 2 ^ rw /\
  addr = ((rid * 2 ^ nb + bank) * mc_share k + Z.shiftr addr rw mod mc_share k) * 2 ^ rw + cid /\
  (is_pow2_mc k = true -> rw + Z.log2 (mc_share k) + nb <= xs ->
   swizzle = Z.shiftr rid (xs - rw - Z.log2 (mc_share k) - nb) mod 2 ^ nb).
Proof.
  intros Hmc Hrw Hnb Er En Ha E xs swizzle bank.
  pose proof (parse_addr_bid k nb addr bid rid cid Hnb En E) as Hbid. rewrite En in Hbid.
  destruct (parse_addr_parts k rw nb addr bid rid cid Hmc Hrw Hnb Er En E) as (Eb & Ed & Ec).
  fold xs swizzle in Eb. clear E.
  assert (Hshare : 0 < mc_share k) by (unfold mc_share; destruct (_ && _); lia).
  pose proof (pow2_pos rw ltac:(lia)). pose proof (pow2_pos nb ltac:(lia)).
  set (piece := Z.shiftr addr rw / mc_share k) in *.
  assert (Hbank : bank = piece mod 2 ^ nb).
  { subst bank. destruct (KNOB_DRAM_BANK_XOR_INDEX k); [| done]. subst bid.
    by rewrite Z.lxor_assoc, Z.lxor_nilpotent, Z.lxor_0_r. }
  split; [done |]. split; [subst cid; by apply Z.mod_pos_bound |]. split.
  - rewrite Hbank, Ed, Ec. rewrite (Z.mul_comm (piece / 2 ^ nb)), <- (Z.div_mod piece) by lia.
    subst piece. rewrite (Z.mul_comm (_ / _)), <- (Z.div_mod (Z.shiftr addr rw)) by lia.
    rewrite Z.shiftr_div_pow2, (Z.mul_comm (_ / _)) by lia. apply Z.div_mod. lia.
  - intros Hp Hx. subst swizzle. f_equal. subst rid piece.
    assert (Es : mc_share k = 2 ^ Z.log2 (mc_share k)).
    { unfold mc_share. rewrite Hp. destruct (KNOB_DEFAULT_INTERLEAVING k); simpl; [done |].
      apply land_pred_pow2; [lia |]. by apply Z.eqb_eq in Hp. }
    pose proof (Z.log2_nonneg (mc_share k)). set (c := Z.log2 (mc_share k)) in *. rewrite Es.
    rewrite <- shiftr_mul_div, <- shiftr_mul_div, Z.shiftr_shiftr by lia. f_equal. lia.
Qed.

(** ** Witnesses *)

(** Four banks on two channels, an eight-byte bus, four buffer entries. *)
Definition demo_knobs : dram_knobs :=
  mk_dram_knobs 4 2 8 4 2048 1 64 1 1024 true true true 0 true false 5 5 5.
Definition demo_req (p : nat) (addr : Z) (t : Mem_Req_Type) : mem_req_s :=
  mk_req p addr t 64 false 0 MEM_IN_NOC.

(** A read, a second read of the same line, a write-back to another row and a
    prefetch arrive; sixty idle cycles follow. *)
Definition demo_inputs : list ((mem_req_s -> bool) * option mem_req_s * bool) :=
  ((fun r => (fun _ => true, Some r, false)) <$>
     [demo_req 1 0 MRT_DFETCH; demo_req 2 0 MRT_DFETCH; demo_req 3 65536 MRT_WB; demo_req 4 4096 MRT_DPRF])
  ++ replicate 60 (fun _ => true, None, false).

Example demo_run_serves :
  match (s0 ← dram_ctrl_new demo_knobs 0 0; run demo_knobs schedule_frfcfs demo_inputs s0) with
  | Done (s, taken, sent) =>
      r_ptr <$> taken = [1; 2; 3; 4]%nat /\ r_ptr <$> sent = [2; 1; 4]%nat /\
      r_ptr <$> freed s = [3]%nat /\ m_total_req s = 0
  | Fault _ => False
  end.
Proof. vm_compute. split_and!; reflexivity. Qed.

Lemma dram_conserves_requests_witness :
  exists s0, dram_ctrl_new demo_knobs 0 0 = Done s0 /\
  match run demo_knobs schedule_frfcfs demo_inputs s0 with
  | Done (s, taken, sent) =>
      dram_ok demo_knobs s /\ forall h, population h s + sum_by (wt h) sent = sum_by (wt h) taken
  | Fault f => f = AssertFailed /\ 5000 <= Z.max 0 0 + Z.of_nat (length demo_inputs)
  end.
Proof.
  apply (dram_conserves_requests demo_knobs schedule_frfcfs 2 0 0 demo_inputs);
    [reflexivity | reflexivity | lia | reflexivity | unfold int_range; lia |].
  vm_compute. discriminate.
Defined.

(** Row 5 is open: the request for it is taken before an older one. *)
Definition demo_entry (p : nat) (rid ts : Z) (t : Mem_Req_Type) : drb_entry_s :=
  mk_drb p DRAM_INIT 0 0 rid 0 (Some (demo_req p 0 t)) 64 ts 0.
Definition demo_bank : bank :=
  mk_bank [demo_entry 1 5 1 MRT_DPRF; demo_entry 2 7 2 MRT_DFETCH; demo_entry 3 5 3 MRT_DFETCH] [] None 5
    ULLONG_MAX ULLONG_MAX ULLONG_MAX 0.

Lemma frfcfs_picks_best_witness :
  e_ptr <$> head (schedule_frfcfs demo_bank) = Some 3%nat /\ row_seen demo_bank = 5 /\
  exists e x', bank_new_request schedule_frfcfs 9 demo_bank = Done x' /\
    m_current_list x' = Some (with_scheduled 9 (with_state DRAM_CMD e)) /\
    m_buffer demo_bank ≡ₚ e :: m_buffer x' /\
    forall e', e' ∈ m_buffer x' -> no_worse (row_seen demo_bank) e e'.
Proof.
  destruct (frfcfs_picks_best 9 demo_bank) as (He & Hr & _); [reflexivity | discriminate |].
  split; [reflexivity |]. split; [apply Hr; left; simpl; lia | exact He].
Defined.

Lemma dram_bus_bandwidth_witness :
  exists c', bus_run demo_knobs [(10, 64); (18, 4); (18, 64)] (mk_channel 8 0) = Done c' /\
    bus_ok demo_knobs c' /\ 0 <= m_dbus_ready c' /\
    sum_by snd [(10, 64); (18, 4); (18, 64)] <= 8 * (m_dbus_ready c' - 0) + 8 - m_byte_avail c'.
Proof.
  eexists. split; [reflexivity |].
  apply (dram_bus_bandwidth demo_knobs [(10, 64); (18, 4); (18, 64)] (mk_channel 8 0)).
  - split; simpl; lia.
  - repeat constructor; simpl; lia.
  - reflexivity.
Defined.

(** Six controllers without default interleaving, as in the GPU parameters. *)
Definition demo_knobs6 : dram_knobs :=
  mk_dram_knobs 4 2 8 4 2048 6 64 1 1024 false true true 0 true false 5 5 5.

Lemma dram_address_roundtrip_witness :
  (exists bid rid cid, parse_addr demo_knobs (address_map demo_knobs) 123456789 = (bid, rid, cid) /\
    let swizzle := Z.shiftr rid (m_bid_xor_shift (address_map demo_knobs) - 11 - 0 - 2) mod 2 ^ 2 in
    123456789 = ((rid * 2 ^ 2 + Z.lxor bid swizzle) * 1 + 0) * 2 ^ 11 + cid) /\
  exists bid rid cid, parse_addr demo_knobs6 (address_map demo_knobs6) 123456789 = (bid, rid, cid) /\
    let swizzle := Z.shiftr 123456789 (m_bid_xor_shift (address_map demo_knobs6)) mod 2 ^ 2 in
    123456789 = ((rid * 2 ^ 2 + Z.lxor bid swizzle) * 6 + 5) * 2 ^ 11 + cid.
Proof.
  split.
  - do 3 eexists. split; [vm_compute; reflexivity |].
    edestruct (dram_address_roundtrip demo_knobs 11 2 123456789) as (_ & _ & Ea & Es);
      [done | done | done | reflexivity | reflexivity | done | vm_compute; reflexivity |].
    specialize (Es eq_refl ltac:(by vm_compute)). revert Ea. simpl. intros Ea. etrans; [exact Ea |].
    vm_compute. reflexivity.
  - do 3 eexists. split; [vm_compute; reflexivity |].
    edestruct (dram_address_roundtrip demo_knobs6 11 2 123456789) as (_ & _ & Ea & _);
      [done | done | done | reflexivity | reflexivity | done | vm_compute; reflexivity |].
    exact Ea.
Defined.
