(* ===== verification/Noc.v ===== *)
(** * The network on chip (network.cc, network.h, network_ring.cc,
      network_mesh.cc)

    Virtual-channel routers with credit flow control, on a ring or a mesh. The
    arrays [m_input_buffer], [m_route], ... of all routers, indexed by port and
    virtual channel, are two finite maps keyed by router, port and channel; the
    other fields of a router are a record per router. Flits and credits are
    taken from pools, which only recycles objects; here they are values. The
    topology is a record of what the subclasses of [router_c] override. *)

From S2P Require Import Prelude.

(** Ports; a direction of -1 is [None]. *)
Definition LOCAL : nat := 0.
Definition LEFT : nat := 1.
Definition RIGHT : nat := 2.
Definition UP : nat := 3.
Definition DOWN : nat := 4.

Definition m_opposite_dir (p : nat) : nat :=
  match p with 1 => RIGHT | 2 => LEFT | 3 => DOWN | 4 => UP | _ => LOCAL end%nat.

Inductive NOC_TYPE := NOC_FILL | NOC_ACK | NOC_NEW | NOC_NEW_WITH_DATA | NOC_LAST | MAX_NOC_STATE.
Inductive flit_state := INIT | IB | RC | VCA | SA | ST | LT.

#[export] Instance NOC_TYPE_eq_dec : EqDecision NOC_TYPE.
Proof. solve_decision. Defined.
#[export] Instance flit_state_eq_dec : EqDecision flit_state.
Proof. solve_decision. Defined.

(** The fields of [mem_req_s] the network uses. *)
Record packet := mk_packet {
  r_ptr : nat;
  m_msg_src : nat;
  m_msg_dst : nat;
  m_msg_type : NOC_TYPE;
  m_size : Z
}.

Record flit_c := mk_flit {
  m_src : nat;
  m_dst : nat;
  m_dir : option nat;
  m_head : bool;
  m_tail : bool;
  m_req : packet;
  m_state : flit_state;
  m_timestamp : Z;
  m_rdy_cycle : Z;
  m_fid : nat
}.

Definition with_fstate (st : flit_state) (f : flit_c) : flit_c :=
  mk_flit (m_src f) (m_dst f) (m_dir f) (m_head f) (m_tail f) (m_req f) st (m_timestamp f) (m_rdy_cycle f) (m_fid f).
Definition with_rdy (c : Z) (f : flit_c) : flit_c :=
  mk_flit (m_src f) (m_dst f) (m_dir f) (m_head f) (m_tail f) (m_req f) (m_state f) (m_timestamp f) c (m_fid f).
Definition with_dir (d : nat) (f : flit_c) : flit_c :=
  mk_flit (m_src f) (m_dst f) (Some d) (m_head f) (m_tail f) (m_req f) (m_state f) (m_timestamp f) (m_rdy_cycle f)
    (m_fid f).

Record credit_c := mk_credit { c_rdy_cycle : Z; c_port : nat; c_vc : nat }.

(** One input virtual channel: its buffer, its two rows of permitted output
    ports and what it was allocated. *)
Record ivc_c := mk_ivc {
  m_input_buffer : list flit_c;
  m_route : list (list bool);
  m_route_fixed : option nat;
  m_output_port_id : option nat;
  m_output_vc_id : option nat
}.

(** One output virtual channel. *)
Record ovc_c := mk_ovc { m_output_buffer : list flit_c; m_output_vc_avail : bool; m_credit : Z }.

Record router_c := mk_router {
  m_injection_buffer : list packet;
  m_req_buffer : list packet;
  m_sw_avail : list Z;
  m_link_avail : list Z;
  m_pending_credit : list credit_c;
  m_cycle : Z
}.

Record noc_knobs := mk_noc_knobs {
  KNOB_NUM_VC : nat;
  KNOB_LINK_LATENCY : Z;
  KNOB_LINK_WIDTH : Z;
  KNOB_OLDEST_FIRST : bool;
  KNOB_IDEAL_NOC : bool;
  KNOB_IDEAL_NOC_LATENCY : Z
}.

Definition m_buffer_max_size : Z := 10.
Definition m_injection_buffer_max_size : Z := 32.

(** What a topology provides: ports, links, [stage_rc] for one flit (the new
    rows of permitted ports and the flit), whether [stage_rc] skips channels
    with a fixed route, and the rows and flits [stage_vca_pick_winner] admits. *)
Record topology := mk_topology {
  t_ports : nat;
  t_link : nat -> nat -> option nat;
  t_route : nat -> flit_c -> list (list bool) -> list (list bool) * flit_c;
  t_skip_fixed : bool;
  t_rc_index : nat -> outcome nat;
  t_admit : nat -> nat -> flit_c -> bool
}.

(** ** Ring *)

Definition one_hot (ports p : nat) : list bool := (fun q => bool_decide (q = p)) <$> seq 0 ports.

Definition ring_link (n i p : nat) : option nat :=
  if bool_decide (p = LEFT) then Some ((i + n - 1) mod n)%nat
  else if bool_decide (p = RIGHT) then Some ((i + 1) mod n)%nat else None.

(** Shortest way round, kept once chosen. *)
Definition ring_dir (n id dst : nat) : nat :=
  let '(dl, dr) :=
    if Nat.ltb dst id then (Z.of_nat id - Z.of_nat dst, Z.of_nat dst - Z.of_nat id + Z.of_nat n)
    else (Z.of_nat id - Z.of_nat dst + Z.of_nat n, Z.of_nat dst - Z.of_nat id) in
  if dl <? dr then LEFT else RIGHT.

Definition ring_route (n id : nat) (f : flit_c) (old : list (list bool)) : list (list bool) * flit_c :=
  let row d := <[0%nat := one_hot 3 d]> old in
  if bool_decide (m_dst f = id) then (row LOCAL, f)
  else match m_dir f with
       | Some d => (row d, f)
       | None => let d := ring_dir n id (m_dst f) in (row d, with_dir d f)
       end.

(** The last two channels break the cycle: one only for flits on their way up,
    the other only for flits on their way down. *)
Definition ring_admit (vcs id ovc : nat) (f : flit_c) : bool :=
  if Nat.ltb ovc (vcs - 2) then true
  else if Nat.eqb ovc (vcs - 2) then negb (Nat.ltb (m_dst f) id)
  else if Nat.eqb ovc (vcs - 1) then negb (Nat.ltb id (m_dst f)) else true.

Definition ring (n vcs : nat) : topology :=
  mk_topology 3 (ring_link n) (ring_route n) true (fun _ => Done 0%nat) (ring_admit vcs).

(** ** Mesh *)

Definition mesh_link (w i p : nat) : option nat :=
  (if bool_decide (p = UP) then if Nat.ltb 0 (i / w) then Some (i - w) else None
   else if bool_decide (p = DOWN) then if Nat.ltb (i / w) (w - 1) then Some (i + w) else None
   else if bool_decide (p = LEFT) then if Nat.eqb (i mod w) 0 then None else Some (i - 1)
   else if bool_decide (p = RIGHT) then if Nat.eqb (i mod w) (w - 1) then None else Some (i + 1)
   else None)%nat.

(** Adaptive routing permits every direction that gets closer; escape routing
    finishes the row first. *)
Definition mesh_adaptive (w id dst p : nat) : bool :=
  (if bool_decide (p = LEFT) then Nat.ltb (dst mod w) (id mod w)
   else if bool_decide (p = RIGHT) then Nat.ltb (id mod w) (dst mod w)
   else if bool_decide (p = UP) then Nat.ltb (dst / w) (id / w)
   else if bool_decide (p = DOWN) then Nat.ltb (id / w) (dst / w)
   else false)%nat.
Definition mesh_escape (w id dst p : nat) : bool :=
  (if bool_decide (p = LEFT) then Nat.ltb (dst mod w) (id mod w)
   else if bool_decide (p = RIGHT) then Nat.ltb (id mod w) (dst mod w)
   else if bool_decide (p = UP) then Nat.eqb (id mod w) (dst mod w) && Nat.ltb (dst / w) (id / w)
   else if bool_decide (p = DOWN) then Nat.eqb (id mod w) (dst mod w) && Nat.ltb (id / w) (dst / w)
   else false)%nat.

Definition mesh_route (w id : nat) (f : flit_c) (old : list (list bool)) : list (list bool) * flit_c :=
  if bool_decide (m_dst f = id) then ([one_hot 5 LOCAL; one_hot 5 LOCAL], f)
  else ([mesh_adaptive w id (m_dst f) <$> seq 0 5; mesh_escape w id (m_dst f) <$> seq 0 5], f).

Definition mesh (w vcs : nat) : topology :=
  mk_topology 5 (mesh_link w) (mesh_route w) false
    (fun ovc => if Nat.eqb (vcs - 1) 0 then Fault DivByZero else Done (ovc / (vcs - 1))%nat)
    (fun _ _ _ => true).

(** ** Routers created by [init] *)

Inductive MEMORY_TYPE := MEM_L1 | MEM_L2 | MEM_L3 | MEM_LLC | MEM_MC | MEM_LAST.
Definition level_no (l : MEMORY_TYPE) : Z :=
  match l with MEM_L1 => 1 | MEM_L2 => 2 | MEM_L3 => 3 | MEM_LLC => 4 | MEM_MC => 5 | MEM_LAST => 6 end.

(** [CREATE_ROUTER]: the map and the number of routers so far. *)
Definition CREATE_ROUTER (index : nat) (level : MEMORY_TYPE) (offset : nat) (st : gmap Z nat * nat) : gmap Z nat * nat :=
  foldl (fun '(m, nr) ii => (<[level_no level * 1000 + Z.of_nat ii + Z.of_nat offset := nr]> m, S nr)) st (seq 0 index).

Definition ring_init (cpu gpu l3 llc mc : nat) : gmap Z nat * nat :=
  CREATE_ROUTER mc MEM_MC 0 (CREATE_ROUTER llc MEM_LLC 0 (CREATE_ROUTER l3 MEM_L3 0
    (CREATE_ROUTER gpu MEM_L2 cpu (CREATE_ROUTER cpu MEM_L2 0 (∅, 0%nat))))).

(** The mesh adds routers until it is a square of the given width. *)
Definition mesh_init (cpu gpu l3 llc mc : nat) : gmap Z nat * nat * nat :=
  let '(m, nr) := CREATE_ROUTER gpu MEM_L2 cpu (CREATE_ROUTER mc MEM_MC 0 (CREATE_ROUTER llc MEM_LLC 0
                    (CREATE_ROUTER l3 MEM_L3 0 (CREATE_ROUTER cpu MEM_L2 0 (∅, 0%nat))))) in
  let width := Nat.sqrt nr in
  if Nat.eqb (width * width) nr then (m, nr, width) else (m, (width + 1) * (width + 1), width + 1)%nat.

(** ** Routers *)

Record network_c := mk_net {
  ins : gmap (nat * nat * nat) ivc_c;
  outs : gmap (nat * nat * nat) ovc_c;
  rts : gmap nat router_c
}.

Definition with_ins (x : gmap (nat * nat * nat) ivc_c) (s : network_c) := mk_net x (outs s) (rts s).
Definition with_outs (x : gmap (nat * nat * nat) ovc_c) (s : network_c) := mk_net (ins s) x (rts s).
Definition with_rts (x : gmap nat router_c) (s : network_c) := mk_net (ins s) (outs s) x.

Definition with_ibuf (l : list flit_c) (x : ivc_c) : ivc_c :=
  mk_ivc l (m_route x) (m_route_fixed x) (m_output_port_id x) (m_output_vc_id x).
Definition with_injection (l : list packet) (r : router_c) : router_c :=
  mk_router l (m_req_buffer r) (m_sw_avail r) (m_link_avail r) (m_pending_credit r) (m_cycle r).
Definition with_req_buffer (l : list packet) (r : router_c) : router_c :=
  mk_router (m_injection_buffer r) l (m_sw_avail r) (m_link_avail r) (m_pending_credit r) (m_cycle r).
Definition with_sw (l : list Z) (r : router_c) : router_c :=
  mk_router (m_injection_buffer r) (m_req_buffer r) l (m_link_avail r) (m_pending_credit r) (m_cycle r).
Definition with_links (l : list Z) (r : router_c) : router_c :=
  mk_router (m_injection_buffer r) (m_req_buffer r) (m_sw_avail r) l (m_pending_credit r) (m_cycle r).
Definition with_pending (l : list credit_c) (r : router_c) : router_c :=
  mk_router (m_injection_buffer r) (m_req_buffer r) (m_sw_avail r) (m_link_avail r) l (m_cycle r).
Definition next_cycle (r : router_c) : router_c :=
  mk_router (m_injection_buffer r) (m_req_buffer r) (m_sw_avail r) (m_link_avail r) (m_pending_credit r)
    (inc64 (m_cycle r)).

Definition get_ivc (s : network_c) (i p v : nat) : outcome ivc_c := get_or OutOfBounds (ins s !! (i, p, v)).
Definition get_ovc (s : network_c) (i p v : nat) : outcome ovc_c := get_or OutOfBounds (outs s !! (i, p, v)).
Definition get_router (s : network_c) (i : nat) : outcome router_c := get_or NullDeref (rts s !! i).
Definition put_ivc (i p v : nat) (x : ivc_c) (s : network_c) := with_ins (<[(i, p, v) := x]> (ins s)) s.
Definition put_ovc (i p v : nat) (x : ovc_c) (s : network_c) := with_outs (<[(i, p, v) := x]> (outs s)) s.
Definition put_router (i : nat) (r : router_c) (s : network_c) := with_rts (<[i := r]> (rts s)) s.

Fixpoint for_each {A} (l : list A) (f : A -> network_c -> outcome network_c) (s : network_c) : outcome network_c :=
  match l with [] => mret s | a :: l' => s1 ← f a s; for_each l' f s1 end.

Section NOC.
Context (k : noc_knobs) (t : topology).

Definition ports : list nat := seq 0 (t_ports t).
Definition vcs : list nat := seq 0 (KNOB_NUM_VC k).
Definition channels : list (nat * nat) := p ← ports; v ← vcs; [(p, v)].

(** ** Insertion *)

Definition inject_packet (i : nat) (q : packet) (s : network_c) : outcome (network_c * bool) :=
  r ← get_router s i;
  if Z.of_nat (length (m_injection_buffer r)) <? m_injection_buffer_max_size
  then mret (put_router i (with_injection (m_injection_buffer r ++ [q]) r) s, true)
  else mret (s, false).

(** The division is evaluated before the ideal network overrides its result. *)
Definition num_flit (q : packet) : outcome Z :=
  m ← (if bool_decide (m_msg_type q = NOC_NEW_WITH_DATA \/ m_msg_type q = NOC_FILL) then
         if KNOB_LINK_WIDTH k =? 0 then Fault DivByZero
         else mret (1 + Z.quot (m_size q) (KNOB_LINK_WIDTH k))
       else mret 1);
  mret (if KNOB_IDEAL_NOC k then 1 else m).

Definition flits_of (now : Z) (q : packet) (m : Z) : list flit_c :=
  (fun j => mk_flit (m_msg_src q) (m_msg_dst q) None (bool_decide (j = 0)%nat)
              (bool_decide (Z.of_nat j = m - 1)) q IB now now j)
    <$> seq 0 (Z.to_nat m).

(** The first channel of the local port with room for all flits of a packet. *)
Fixpoint find_room (i : nat) (n : Z) (l : list nat) (s : network_c) : outcome (option (nat * ivc_c)) :=
  match l with
  | [] => mret None
  | v :: l' =>
      x ← get_ivc s i LOCAL v;
      if Z.of_nat (length (m_input_buffer x)) + n <=? m_buffer_max_size then mret (Some (v, x))
      else find_room i n l' s
  end.

(** The injection loop, by the requests still in the injection buffer. *)
Fixpoint inject_loop (i : nat) (l : list packet) (s : network_c) : outcome network_c :=
  match l with
  | [] => mret s
  | q :: l' =>
      r ← get_router s i;
      m ← num_flit q;
      o ← find_room i m vcs s;
      match o with
      | None => mret s
      | Some (v, x) =>
          inject_loop i l'
            (put_router i (with_injection l' r)
               (put_ivc i LOCAL v (with_ibuf (m_input_buffer x ++ flits_of (m_cycle r) q m) x) s))
      end
  end.
Definition local_packet_injection (i : nat) (s : network_c) : outcome network_c :=
  r ← get_router s i; inject_loop i (m_injection_buffer r) s.

(** [insert_packet] of a flit into a neighbour; the caller then sets the cycle
    it is ready in. *)
Definition insert_packet (j p v : nat) (rdy : Z) (f : flit_c) (s : network_c) : outcome network_c :=
  x ← get_ivc s j p v;
  mret (put_ivc j p v (with_ibuf (m_input_buffer x ++ [with_rdy rdy (with_fstate IB f)]) x) s).
Definition insert_credit (j : nat) (c : credit_c) (s : network_c) : outcome network_c :=
  r ← get_router s j; mret (put_router j (with_pending (m_pending_credit r ++ [c]) r) s).

(** ** Credits *)

Fixpoint credit_loop (CYCLE : Z) (i : nat) (l : list credit_c) (s : network_c) : outcome (network_c * list credit_c) :=
  match l with
  | [] => mret (s, [])
  | c :: l' =>
      if c_rdy_cycle c <=? CYCLE then
        x ← get_ovc s i (c_port c) (c_vc c);
        credit_loop CYCLE i l'
          (put_ovc i (c_port c) (c_vc c) (mk_ovc (m_output_buffer x) (m_output_vc_avail x) (m_credit x + 1)) s)
      else '(s1, keep) ← credit_loop CYCLE i l' s; mret (s1, c :: keep)
  end.
Definition process_pending_credit (CYCLE : Z) (i : nat) (s : network_c) : outcome network_c :=
  r ← get_router s i;
  '(s1, keep) ← credit_loop CYCLE i (m_pending_credit r) s;
  r1 ← get_router s1 i;
  mret (put_router i (with_pending keep r1) s1).

(** ** Route computation *)

Definition rc_channel (i : nat) (pv : nat * nat) (s : network_c) : outcome network_c :=
  r ← get_router s i;
  x ← get_ivc s i pv.1 pv.2;
  if t_skip_fixed t && bool_decide (m_route_fixed x <> None) then mret s else
  match m_input_buffer x with
  | [] => mret s
  | f :: l =>
      if m_head f && bool_decide (m_state f = IB) && (m_rdy_cycle f <=? m_cycle r) then
        let '(rows, f') := t_route t i f (m_route x) in
        mret (put_ivc i pv.1 pv.2
                (mk_ivc (with_fstate RC f' :: l) rows (m_route_fixed x) (m_output_port_id x) (m_output_vc_id x)) s)
      else mret s
  end.
Definition stage_rc (i : nat) : network_c -> outcome network_c := for_each channels (rc_channel i).

(** ** Virtual channel allocation *)

Definition permits (x : ivc_c) (row p : nat) : bool := default false (m_route x !! row ≫= (.!! p)).

(** Age of the flit of a channel that may be granted output channel
    [(oport, ovc)]. *)
Definition vca_key (i oport ovc row : nat) (s : network_c) (pv : nat * nat) : option Z :=
  if bool_decide (pv.1 = oport) then None else
  match ins s !! (i, pv.1, pv.2) with
  | Some x =>
      match m_input_buffer x with
      | f :: _ =>
          if permits x row oport && t_admit t i ovc f && m_head f && bool_decide (m_state f = RC)
          then Some (m_timestamp f) else None
      | [] => None
      end
  | None => None
  end.
Definition stage_vca_pick_winner (i oport ovc : nat) (s : network_c) : outcome (option (nat * nat)) :=
  row ← t_rc_index t ovc;
  _ ← ASSERT (KNOB_OLDEST_FIRST k);
  mret ((scan_min (vca_key i oport ovc row s) channels 0 None ULLONG_MAX).1 ≫= (channels !!.)).

Definition vca_channel (i : nat) (po : nat * nat) (s : network_c) : outcome network_c :=
  o ← get_ovc s i po.1 po.2;
  if negb (m_output_vc_avail o) then mret s else
  w ← stage_vca_pick_winner i po.1 po.2 s;
  match w with
  | None => mret s
  | Some (ip, iv) =>
      x ← get_ivc s i ip iv;
      match m_input_buffer x with
      | [] => Fault UseAfterFree
      | f :: l =>
          mret (put_ovc i po.1 po.2 (mk_ovc (m_output_buffer o) false (m_credit o))
                 (put_ivc i ip iv (mk_ivc (with_fstate VCA f :: l) (m_route x) (Some po.1) (Some po.1) (Some po.2)) s))
      end
  end.

(** Without contention a flit goes straight to the next router. *)
Definition first_port (x : ivc_c) : option nat :=
  fst <$> list_find (fun p => Is_true (permits x 0 p)) ports.

Definition vca_ideal (i : nat) (pv : nat * nat) (s : network_c) : outcome network_c :=
  r ← get_router s i;
  x ← get_ivc s i pv.1 pv.2;
  match m_input_buffer x with
  | [] => mret s
  | f :: l =>
      if negb (bool_decide (m_state f = RC)) || (m_cycle r <? u64 (m_timestamp f + KNOB_IDEAL_NOC_LATENCY k))
      then mret s else
      p ← get_or AssertFailed (first_port x);
      if bool_decide (p = LOCAL) then
        mret (put_ivc i pv.1 pv.2 (with_ibuf l x)
                (if m_tail f then put_router i (with_req_buffer (m_req_buffer r ++ [m_req f]) r) s else s))
      else
        j ← get_or NullDeref (t_link t i p);
        s1 ← insert_packet j (m_opposite_dir p) pv.2 (u64 (m_cycle r + 1)) f s;
        x1 ← get_ivc s1 i pv.1 pv.2;
        mret (put_ivc i pv.1 pv.2 (with_ibuf (tail (m_input_buffer x1)) x1) s1)
  end.
Definition stage_vca (i : nat) : network_c -> outcome network_c :=
  for_each channels (if KNOB_IDEAL_NOC k then vca_ideal i else vca_channel i).

(** ** Switch allocation *)

(** The channel was given output port [op]. *)
Definition routed_to (op : nat) (x : ivc_c) : bool :=
  bool_decide (m_route_fixed x = Some op /\ m_output_port_id x = Some op).

Definition sa_key (i op : nat) (s : network_c) (pv : nat * nat) : option Z :=
  if bool_decide (pv.1 = op) then None else
  match ins s !! (i, pv.1, pv.2) with
  | Some x =>
      match m_input_buffer x with
      | f :: _ =>
          if routed_to op x && (if m_head f then bool_decide (m_state f = VCA) else bool_decide (m_state f = IB))
          then Some (m_timestamp f) else None
      | [] => None
      end
  | None => None
  end.
(** Under any other policy the winner is left uninitialised. *)
Definition stage_sa_pick_winner (i op : nat) (s : network_c) : outcome (option (nat * nat)) :=
  if negb (KNOB_OLDEST_FIRST k) then Fault Uninitialised else
  mret ((scan_min (sa_key i op s) channels 0 None ULLONG_MAX).1 ≫= (channels !!.)).

Definition sa_port (i op : nat) (s : network_c) : outcome network_c :=
  r ← get_router s i;
  if m_cycle r <? default 0 (m_sw_avail r !! op) then mret s else
  w ← stage_sa_pick_winner i op s;
  match w with
  | None => mret s
  | Some (ip, iv) =>
      x ← get_ivc s i ip iv;
      match m_input_buffer x with
      | [] => Fault UseAfterFree
      | f :: l =>
          mret (put_router i (with_sw (<[op := u64 (m_cycle r + 1)]> (m_sw_avail r)) r)
                 (put_ivc i ip iv (with_ibuf (with_fstate SA f :: l) x) s))
      end
  end.
Definition stage_sa (i : nat) : network_c -> outcome network_c := for_each ports (sa_port i).

(** ** Switch traversal *)

Definition st_ready (i op : nat) (s : network_c) (pv : nat * nat) : bool :=
  match ins s !! (i, pv.1, pv.2) with
  | Some x => routed_to op x &&
      match m_input_buffer x with f :: _ => bool_decide (m_state f = SA) | [] => false end
  | None => false
  end.

(** The search keeps the first ready channel of the last port that has one. *)
Definition st_pick (i op : nat) (s : network_c) : option (nat * nat) :=
  foldl (fun acc ip =>
    if bool_decide (ip = op) then acc else
    match list_find (fun v => Is_true (st_ready i op s (ip, v))) vcs with
    | Some (_, v) => Some (ip, v)
    | None => acc
    end) None ports.

Definition st_port (i op : nat) (s : network_c) : outcome network_c :=
  match st_pick i op s with
  | None => mret s
  | Some (ip, iv) =>
      r ← get_router s i;
      x ← get_ivc s i ip iv;
      match m_input_buffer x with
      | [] => Fault UseAfterFree
      | f :: l =>
          ovc ← get_or OutOfBounds (m_output_vc_id x);
          o ← get_ovc s i op ovc;
          let x' := if m_tail f then mk_ivc l (m_route x) None None None else with_ibuf l x in
          let s1 := put_ovc i op ovc (mk_ovc (m_output_buffer o ++ [with_fstate ST f]) (m_output_vc_avail o) (m_credit o))
                      (put_ivc i ip iv x' s) in
          if bool_decide (ip = LOCAL) then mret s1 else
          j ← get_or NullDeref (t_link t i ip);
          insert_credit j (mk_credit (u64 (m_cycle r + 1)) (m_opposite_dir ip) iv) s1
      end
  end.
Definition stage_st (i : nat) : network_c -> outcome network_c := for_each ports (st_port i).

(** ** Link traversal *)

Fixpoint lt_pick (i port : nat) (l : list nat) (s : network_c) : outcome (option (nat * flit_c)) :=
  match l with
  | [] => mret None
  | v :: l' =>
      o ← get_ovc s i port v;
      match m_output_buffer o with
      | [] => lt_pick i port l' s
      | f :: _ =>
          if m_credit o =? 0 then lt_pick i port l' s else
          _ ← ASSERT (bool_decide (m_state f = ST));
          if m_timestamp f <? ULLONG_MAX then mret (Some (v, f)) else lt_pick i port l' s
      end
  end.

Definition lt_order (now : Z) : list nat :=
  (fun d => Z.to_nat (u64 (Z.of_nat d + now) mod Z.of_nat (KNOB_NUM_VC k))) <$> vcs.

Definition lt_port (i port : nat) (s : network_c) : outcome network_c :=
  r ← get_router s i;
  if m_cycle r <? default 0 (m_link_avail r !! port) then mret s else
  w ← lt_pick i port (lt_order (m_cycle r)) s;
  match w with
  | None => mret s
  | Some (v, f) =>
      s1 ← (if bool_decide (port = LOCAL) then
              mret (if m_tail f then put_router i (with_req_buffer (m_req_buffer r ++ [m_req f]) r) s else s)
            else
              j ← get_or NullDeref (t_link t i port);
              s' ← insert_packet j (m_opposite_dir port) v (u64 (m_cycle r + KNOB_LINK_LATENCY k + 1)) f s;
              mret (put_router i (with_links (<[port := u64 (m_cycle r + KNOB_LINK_LATENCY k)]> (m_link_avail r)) r) s'));
      o ← get_ovc s1 i port v;
      mret (put_ovc i port v
              (mk_ovc (tail (m_output_buffer o)) (m_tail f || m_output_vc_avail o)
                 (if bool_decide (port = LOCAL) then m_credit o else m_credit o - 1)) s1)
  end.
Definition stage_lt (i : nat) : network_c -> outcome network_c := for_each ports (lt_port i).

(** ** Cycle *)

Definition tick_router (i : nat) (s : network_c) : outcome network_c :=
  r ← get_router s i; mret (put_router i (next_cycle r) s).

Definition run_router (CYCLE : Z) (pll_lock : bool) (i : nat) (s : network_c) : outcome network_c :=
  if pll_lock then tick_router i s
  else if KNOB_IDEAL_NOC k then
    s1 ← stage_vca i s; s2 ← stage_rc i s1; s3 ← local_packet_injection i s2; tick_router i s3
  else
    s1 ← process_pending_credit CYCLE i s; s2 ← stage_lt i s1; s3 ← stage_sa i s2; s4 ← stage_st i s3;
    s5 ← stage_rc i s4; s6 ← stage_vca i s5; s7 ← local_packet_injection i s6; tick_router i s7.

(** All routers, starting at one that moves with the clock. *)
Definition run_a_cycle (CYCLE : Z) (pll_lock : bool) (n : nat) (s : network_c) : outcome network_c :=
  for_each ((fun d => Z.to_nat ((CYCLE mod Z.of_nat n + Z.of_nat d) mod Z.of_nat n)) <$> seq 0 n)
    (run_router CYCLE pll_lock) s.

(** [receive_req] and [pop_req]. *)
Definition receive_req (i : nat) (s : network_c) : outcome (option packet) :=
  r ← get_router s i; mret (head (m_req_buffer r)).
Definition pop_req (i : nat) (s : network_c) : outcome network_c :=
  r ← get_router s i;
  match m_req_buffer r with
  | [] => Fault UseAfterFree
  | _ :: l => mret (put_router i (with_req_buffer l r) s)
  end.

(** ** Constructors *)

Definition ivc_new : ivc_c :=
  mk_ivc [] (replicate 2 (replicate (t_ports t) false)) None None None.
Definition ovc_new : ovc_c := mk_ovc [] true 10.
Definition router_new (cycle : Z) : router_c :=
  mk_router [] [] (replicate (t_ports t) 0) (replicate (t_ports t) 0) [] cycle.

Definition keys (n : nat) : list (nat * nat * nat) := i ← seq 0 n; pv ← channels; [(i, pv.1, pv.2)].

(** [n] routers; their clocks are not set by the constructor. *)
Definition network_new (n : nat) (cycle : nat -> Z) : network_c :=
  mk_net (list_to_map ((fun x => (x, ivc_new)) <$> keys n)) (list_to_map ((fun x => (x, ovc_new)) <$> keys n))
    (list_to_map ((fun i => (i, router_new (cycle i))) <$> seq 0 n)).

(** ** Endpoints

    [m_router_map] takes [level * 1000 + id] to a router. Reading a missing key
    of the C++ map inserts 0, which is what the default stands for. *)
Definition router_map := gmap Z nat.
Definition endpoint (level id : Z) : Z := level * 1000 + id.
Definition router_of (rm : router_map) (level id : Z) : nat := default 0%nat (rm !! endpoint level id).

Definition with_route (src dst : nat) (q : packet) : packet :=
  mk_packet (r_ptr q) src dst (m_msg_type q) (m_size q).

Definition send (rm : router_map) (q : packet) (src_level src_id dst_level dst_id : Z) (s : network_c) :
    outcome (network_c * bool) :=
  inject_packet (router_of rm src_level src_id)
    (with_route (router_of rm src_level src_id) (router_of rm dst_level dst_id) q) s.
Definition receive (rm : router_map) (level id : Z) (s : network_c) : outcome (option packet) :=
  receive_req (router_of rm level id) s.
Definition receive_pop (rm : router_map) (level id : Z) (s : network_c) : outcome network_c :=
  pop_req (router_of rm level id) s.

(** What the memory hierarchy does with the network, and the packets it
    accepted and delivered so far. A receiver takes the front packet out once
    it has room for it. *)
Inductive noc_op :=
  | Send (q : packet) (src_level src_id dst_level dst_id : Z)
  | Receive (level id : Z) (accepts : bool)
  | Cycle (CYCLE : Z) (pll_lock : bool).

Record noc_run_state := mk_noc_run { nr_net : network_c; nr_sent : list packet; nr_got : list (nat * packet) }.

Definition noc_do (rm : router_map) (n : nat) (o : noc_op) (st : noc_run_state) : outcome noc_run_state :=
  let s := nr_net st in
  match o with
  | Send q sl si dl di =>
      r ← send rm q sl si dl di s;
      mret (mk_noc_run r.1
        (if r.2 : bool then nr_sent st ++ [with_route (router_of rm sl si) (router_of rm dl di) q] else nr_sent st) (nr_got st))
  | Receive level id accepts =>
      q ← receive rm level id s;
      match q with
      | Some q =>
          if accepts then
            s1 ← receive_pop rm level id s;
            mret (mk_noc_run s1 (nr_sent st) (nr_got st ++ [(router_of rm level id, q)]))
          else mret st
      | None => mret st
      end
  | Cycle c pll => s1 ← run_a_cycle c pll n s; mret (mk_noc_run s1 (nr_sent st) (nr_got st))
  end.

Fixpoint noc_run (rm : router_map) (n : nat) (l : list noc_op) (st : noc_run_state) : outcome noc_run_state :=
  match l with [] => mret st | o :: l' => st1 ← noc_do rm n o st; noc_run rm n l' st1 end.

(** ** Invariant *)

Context (n : nat).

Definition packet_ok (q : packet) : Prop := (m_msg_dst q < n)%nat /\ 0 <= m_size q.
Definition flit_ok (f : flit_c) : Prop :=
  (m_dst f < n)%nat /\ forall d i, m_dir f = Some d -> (i < n)%nat -> is_Some (t_link t i d).
Definition leads (i p : nat) : Prop := p = LOCAL \/ is_Some (t_link t i p).
Definition rows_ok (i : nat) (rows : list (list bool)) : Prop :=
  forall row p, rows !! row ≫= (.!! p) = Some true -> leads i p.

(** What the pipeline relies on: links are symmetric and a route only leads
    where there is a link. *)
Class TopologyOk : Prop := {
  tp_link i p j : (i < n)%nat -> t_link t i p = Some j ->
    (j < n)%nat /\ (p < t_ports t)%nat /\ p <> LOCAL /\ t_link t j (m_opposite_dir p) = Some i;
  tp_route i f rows rows' f' : (i < n)%nat -> flit_ok f -> rows_ok i rows -> length rows = 2%nat ->
    t_route t i f rows = (rows', f') ->
    rows_ok i rows' /\ length rows' = 2%nat /\ (exists p, rows' !! 0%nat ≫= (.!! p) = Some true) /\
    flit_ok f' /\ m_req f' = m_req f /\ m_tail f' = m_tail f;
  tp_row ovc : (ovc < KNOB_NUM_VC k)%nat -> exists row, t_rc_index t ovc = Done row;
  tp_ports : (0 < t_ports t)%nat
}.

(** Only the front flit of a buffer moves through the pipeline, and once its
    route is computed some output port is permitted. *)
Definition staged (x : ivc_c) : Prop :=
  match m_input_buffer x with
  | [] => True
  | f :: l => (m_state f = RC -> exists p, permits x 0 p = true) /\ Forall (fun g => m_state g = IB) l
  end.

Record ivc_ok (i p : nat) (x : ivc_c) : Prop := {
  iv_staged : staged x;
  iv_len : length (m_route x) = 2%nat;
  iv_flits : Forall flit_ok (m_input_buffer x);
  iv_rows : rows_ok i (m_route x);
  iv_from : m_input_buffer x <> [] -> leads i p;
  iv_fixed op : m_route_fixed x = Some op ->
    (op < t_ports t)%nat /\ leads i op /\ exists ov, (ov < KNOB_NUM_VC k)%nat /\ m_output_vc_id x = Some ov
}.

Record ovc_ok (i p : nat) (o : ovc_c) : Prop := {
  ov_flits : Forall (fun f => m_state f = ST /\ flit_ok f) (m_output_buffer o);
  ov_to : m_output_buffer o <> [] -> leads i p;
  ov_credit : 0 <= m_credit o
}.

Record router_ok (r : router_c) : Prop := {
  rt_packets : Forall packet_ok (m_injection_buffer r);
  rt_credits : Forall (fun c => (c_port c < t_ports t)%nat /\ (c_vc c < KNOB_NUM_VC k)%nat) (m_pending_credit r)
}.

Definition in_range (x : nat * nat * nat) : Prop :=
  (x.1.1 < n)%nat /\ (x.1.2 < t_ports t)%nat /\ (x.2 < KNOB_NUM_VC k)%nat.

Record net_ok (s : network_c) : Prop := {
  sh_ins x : is_Some (ins s !! x) <-> in_range x;
  sh_outs x : is_Some (outs s !! x) <-> in_range x;
  sh_rts i : is_Some (rts s !! i) <-> (i < n)%nat;
  ok_ivc i p v x : ins s !! (i, p, v) = Some x -> ivc_ok i p x;
  ok_ovc i p v o : outs s !! (i, p, v) = Some o -> ovc_ok i p o;
  ok_rt i r : rts s !! i = Some r -> router_ok r
}.

(** Packets in the network, each weighted once: while it waits for injection,
    as its tail flit, and in the ejection queue. *)
Definition tail_wt (h : nat -> Z) (f : flit_c) : Z := if m_tail f then h (r_ptr (m_req f)) else 0.
Definition pk_wt (h : nat -> Z) (q : packet) : Z := h (r_ptr q).
Definition ivc_wt (h : nat -> Z) (x : ivc_c) : Z := sum_by (tail_wt h) (m_input_buffer x).
Definition ovc_wt (h : nat -> Z) (o : ovc_c) : Z := sum_by (tail_wt h) (m_output_buffer o).
Definition router_wt (h : nat -> Z) (r : router_c) : Z :=
  sum_by (pk_wt h) (m_injection_buffer r) + sum_by (pk_wt h) (m_req_buffer r).
Definition population (h : nat -> Z) (s : network_c) : Z :=
  msum (ivc_wt h) (ins s) + msum (ovc_wt h) (outs s) + msum (router_wt h) (rts s).

(** Credits of an output channel, flits in the buffer it feeds, and credits on
    their way back add up to the buffer's size. *)
Definition cred (s : network_c) (i p v : nat) : Z := from_option m_credit 0 (outs s !! (i, p, v)).
Definition ilen (s : network_c) (i p v : nat) : Z :=
  from_option (fun x => Z.of_nat (length (m_input_buffer x))) 0 (ins s !! (i, p, v)).
Definition for_channel (p v : nat) (c : credit_c) : bool := bool_decide (c_port c = p /\ c_vc c = v).
Definition pend (s : network_c) (i p v : nat) : Z :=
  from_option (fun r => countb (for_channel p v) (m_pending_credit r)) 0 (rts s !! i).
Definition balanced (s : network_c) : Prop :=
  KNOB_IDEAL_NOC k = false -> forall i p j v, (i < n)%nat -> (v < KNOB_NUM_VC k)%nat -> t_link t i p = Some j ->
    cred s i p v + ilen s j (m_opposite_dir p) v + pend s i p v = m_buffer_max_size.

Record keeps (s s' : network_c) : Prop := {
  kp_ok : net_ok s';
  kp_pop h : population h s' = population h s;
  kp_bal : balanced s -> balanced s'
}.

Lemma noc_keeps_refl s : net_ok s -> keeps s s.
Proof. by split. Qed.

#[export] Instance noc_keeps_trans : Transitive keeps.
Proof. intros s1 s2 s3 [] []. split; [done | intros h; etrans; eauto | eauto]. Qed.

Lemma for_each_ok {A} (l : list A) f s :
  net_ok s -> (forall a s', a ∈ l -> net_ok s' -> succeeds keeps s' (f a s')) ->
  succeeds keeps s (for_each l f s).
Proof.
  revert s. induction l as [| a l IH]; intros s Hok Hf; simpl; [by apply succeeds_ret, noc_keeps_refl |].
  apply (succeeds_bind keeps); [apply Hf; [by left | done] |]. intros s' Hk.
  apply IH; [apply Hk |]. intros b s2 Hb. apply Hf. by right.
Qed.

(** ** One update *)

Lemma get_ivc_ok s i p v : net_ok s -> in_range (i, p, v) ->
  exists x, ins s !! (i, p, v) = Some x /\ get_ivc s i p v = Done x /\ ivc_ok i p x.
Proof.
  intros Hok Hr. apply (sh_ins s Hok) in Hr as [x Hx]. exists x. unfold get_ivc. rewrite Hx.
  split_and!; [done | done |]. by eapply ok_ivc.
Qed.
Lemma get_ovc_ok s i p v : net_ok s -> in_range (i, p, v) ->
  exists o, outs s !! (i, p, v) = Some o /\ get_ovc s i p v = Done o /\ ovc_ok i p o.
Proof.
  intros Hok Hr. apply (sh_outs s Hok) in Hr as [x Hx]. exists x. unfold get_ovc. rewrite Hx.
  split_and!; [done | done |]. by eapply ok_ovc.
Qed.
Lemma get_router_ok s i : net_ok s -> (i < n)%nat ->
  exists r, rts s !! i = Some r /\ get_router s i = Done r /\ router_ok r.
Proof.
  intros Hok Hr. apply (sh_rts s Hok) in Hr as [x Hx]. exists x. unfold get_router. rewrite Hx.
  split_and!; [done | done |]. by eapply ok_rt.
Qed.

Lemma insert_is_Some `{Countable K} {A} (m : gmap K A) k0 x k1 :
  is_Some (m !! k0) -> is_Some (<[k0 := x]> m !! k1) <-> is_Some (m !! k1).
Proof.
  intros H0. destruct (decide (k0 = k1)) as [<- |]; [| by rewrite lookup_insert_ne].
  rewrite lookup_insert_eq. split; [done | eauto].
Qed.

Lemma put_ivc_ok s i p v x : net_ok s -> in_range (i, p, v) -> ivc_ok i p x -> net_ok (put_ivc i p v x s).
Proof.
  intros [H1 H2 H3 H4 H5 H6] Hr Hx. split; simpl; try done.
  - intros y. rewrite <- H1. apply insert_is_Some. by apply H1.
  - intros i' p' v' x' Hx'. apply lookup_insert_Some in Hx' as [[[= <- <- <-] <-] | [_ Hx']]; [done |].
    by eapply H4.
Qed.
Lemma put_ovc_ok s i p v o : net_ok s -> in_range (i, p, v) -> ovc_ok i p o -> net_ok (put_ovc i p v o s).
Proof.
  intros [H1 H2 H3 H4 H5 H6] Hr Hx. split; simpl; try done.
  - intros y. rewrite <- H2. apply insert_is_Some. by apply H2.
  - intros i' p' v' x' Hx'. apply lookup_insert_Some in Hx' as [[[= <- <- <-] <-] | [_ Hx']]; [done |].
    by eapply H5.
Qed.
Lemma put_router_ok s i r : net_ok s -> (i < n)%nat -> router_ok r -> net_ok (put_router i r s).
Proof.
  intros [H1 H2 H3 H4 H5 H6] Hr Hx. split; simpl; try done.
  - intros y. rewrite <- H3. apply insert_is_Some. by apply H3.
  - intros i' r' Hx'. apply lookup_insert_Some in Hx' as [[<- <-] | [_ Hx']]; [done | by eapply H6].
Qed.

Lemma put_ivc_pop h s i p v x x' : ins s !! (i, p, v) = Some x ->
  population h (put_ivc i p v x' s) = population h s - ivc_wt h x + ivc_wt h x'.
Proof. intros Hx. unfold population. simpl. rewrite (msum_insert _ _ _ x) by done. lia. Qed.
Lemma put_ovc_pop h s i p v x x' : outs s !! (i, p, v) = Some x ->
  population h (put_ovc i p v x' s) = population h s - ovc_wt h x + ovc_wt h x'.
Proof. intros Hx. unfold population. simpl. rewrite (msum_insert _ _ _ x) by done. lia. Qed.
Lemma put_router_pop h s i r r' : rts s !! i = Some r ->
  population h (put_router i r' s) = population h s - router_wt h r + router_wt h r'.
Proof. intros Hx. unfold population. simpl. rewrite (msum_insert _ _ _ r) by done. lia. Qed.

Lemma ilen_put s i p v x i' p' v' :
  ilen (put_ivc i p v x s) i' p' v' =
  if decide ((i, p, v) = (i', p', v')) then Z.of_nat (length (m_input_buffer x)) else ilen s i' p' v'.
Proof.
  unfold ilen. simpl. case_decide as E; [by rewrite E, lookup_insert_eq | by rewrite lookup_insert_ne].
Qed.
Lemma cred_put s i p v o i' p' v' :
  cred (put_ovc i p v o s) i' p' v' = if decide ((i, p, v) = (i', p', v')) then m_credit o else cred s i' p' v'.
Proof.
  unfold cred. simpl. case_decide as E; [by rewrite E, lookup_insert_eq | by rewrite lookup_insert_ne].
Qed.
Lemma pend_put s i r i' p' v' :
  pend (put_router i r s) i' p' v' =
  if decide (i = i') then countb (for_channel p' v') (m_pending_credit r) else pend s i' p' v'.
Proof.
  unfold pend. simpl. case_decide as E; [by rewrite E, lookup_insert_eq | by rewrite lookup_insert_ne].
Qed.

Lemma ilen_at s i p v x : ins s !! (i, p, v) = Some x -> ilen s i p v = Z.of_nat (length (m_input_buffer x)).
Proof. intros E. unfold ilen. by rewrite E. Qed.
Lemma cred_at s i p v o : outs s !! (i, p, v) = Some o -> cred s i p v = m_credit o.
Proof. intros E. unfold cred. by rewrite E. Qed.
Lemma pend_at s i p v r : rts s !! i = Some r -> pend s i p v = countb (for_channel p v) (m_pending_credit r).
Proof. intros E. unfold pend. by rewrite E. Qed.

(** An input channel replaced by one with the same packets and as many flits. *)
Lemma put_ivc_keeps s i p v x x' :
  net_ok s -> in_range (i, p, v) -> ins s !! (i, p, v) = Some x -> ivc_ok i p x' ->
  (forall h, ivc_wt h x' = ivc_wt h x) -> length (m_input_buffer x') = length (m_input_buffer x) ->
  keeps s (put_ivc i p v x' s).
Proof.
  intros Hok Hr Hx Hx' Hw Hl. split; [by apply put_ivc_ok | |].
  - intros h. rewrite (put_ivc_pop h s i p v x) by done. rewrite Hw. lia.
  - intros Hb Hid i' p' j' v' Hi Hv Hlk. specialize (Hb Hid i' p' j' v' Hi Hv Hlk).
    rewrite ilen_put. case_decide as E; [| exact Hb]. injection E as <- -> <-.
    rewrite (ilen_at _ _ _ _ x) in Hb by done. rewrite Hl. exact Hb.
Qed.

(** A router replaced by one with the same packets and pending credits. *)
Lemma put_router_keeps s i r r' :
  net_ok s -> rts s !! i = Some r -> router_ok r' -> (forall h, router_wt h r' = router_wt h r) ->
  m_pending_credit r' = m_pending_credit r -> keeps s (put_router i r' s).
Proof.
  intros Hok Hr Hr' Hw Hp. assert (Hi : (i < n)%nat) by (apply (sh_rts s Hok); eauto).
  split; [by apply put_router_ok | |].
  - intros h. rewrite (put_router_pop h s i r) by done. rewrite Hw. lia.
  - intros Hb Hid i' p' j' v' Hi' Hv Hlk. specialize (Hb Hid i' p' j' v' Hi' Hv Hlk).
    rewrite pend_put. case_decide as E; [| exact Hb]. subst i'.
    rewrite (pend_at _ _ _ _ r) in Hb by done. rewrite Hp. exact Hb.
Qed.

(** The front flit moves to a stage after route computation. *)
Lemma front_moves_ok i p x f l st rf op ov : ivc_ok i p x -> m_input_buffer x = f :: l -> st <> RC ->
  (forall o, rf = Some o ->
    (o < t_ports t)%nat /\ leads i o /\ exists v, (v < KNOB_NUM_VC k)%nat /\ ov = Some v) ->
  ivc_ok i p (mk_ivc (with_fstate st f :: l) (m_route x) rf op ov).
Proof.
  intros [Hst Hlen Hf Hrows Hfrom _] Eb Hne Hfix. unfold staged in Hst. rewrite Eb in *.
  apply Forall_cons in Hf as [Hf Hfs]. split; simpl; [| done | by constructor | done | by intros _; apply Hfrom | done].
  split; [done | apply Hst].
Qed.

Lemma elem_channels pv : pv ∈ channels <-> (pv.1 < t_ports t)%nat /\ (pv.2 < KNOB_NUM_VC k)%nat.
Proof.
  unfold channels. rewrite list_elem_of_bind. setoid_rewrite list_elem_of_bind.
  unfold ports, vcs. setoid_rewrite elem_of_seq. setoid_rewrite list_elem_of_singleton. split.
  - intros (p & (v & -> & Hv) & Hp). simpl. lia.
  - intros [Hp Hv]. destruct pv as [p v]. simpl in *. exists p. split; [exists v; split; [done | lia] | lia].
Qed.

Lemma channel_range i pv : (i < n)%nat -> pv ∈ channels -> in_range (i, pv.1, pv.2).
Proof. intros Hi Hpv. apply elem_channels in Hpv as [? ?]. done. Qed.

Lemma scan_channel (key : nat * nat -> option Z) ip iv :
  (scan_min key channels 0 None ULLONG_MAX).1 ≫= (channels !!.) = Some (ip, iv) ->
  (ip, iv) ∈ channels /\ is_Some (key (ip, iv)).
Proof.
  destruct (scan_min _ _ _ _ _) as [o kk] eqn:E. simpl. destruct o as [j |]; [| done]. simpl. intros Hj.
  apply scan_min_spec in E as [_ [[? _] | (j' & x & [= ->] & Hx & Hk & _)]]; [done |].
  simpl in Hj. rewrite Hx in Hj. injection Hj as ->. split; [by eapply list_elem_of_lookup_2 | eauto].
Qed.

Section STAGES.
Context `{!TopologyOk}.

Lemma opposite_involutive p : m_opposite_dir p <> LOCAL -> m_opposite_dir (m_opposite_dir p) = p.
Proof. by destruct p as [| [| [| [| [| p]]]]]. Qed.

(** The port at the other end of a link. *)
Lemma link_back i p j : (i < n)%nat -> t_link t i p = Some j ->
  (j < n)%nat /\ (p < t_ports t)%nat /\ p <> LOCAL /\ t_link t j (m_opposite_dir p) = Some i /\
  (m_opposite_dir p < t_ports t)%nat /\ m_opposite_dir p <> LOCAL /\ m_opposite_dir (m_opposite_dir p) = p.
Proof.
  intros Hi Hl. destruct (tp_link i p j Hi Hl) as (Hj & Hp & Hpl & Hb).
  destruct (tp_link j _ i Hj Hb) as (_ & Hop & Hol & _). split_and!; try done. by apply opposite_involutive.
Qed.

Lemma rc_channel_ok i pv s : (i < n)%nat -> pv ∈ channels -> net_ok s -> succeeds keeps s (rc_channel i pv s).
Proof.
  intros Hi Hpv Hok. pose proof (channel_range i pv Hi Hpv) as Hr. unfold rc_channel.
  destruct (get_router_ok s i Hok Hi) as (r & _ & -> & _). simpl.
  destruct (get_ivc_ok s i _ _ Hok Hr) as (x & Hx & -> & Hxo). simpl.
  pose proof (noc_keeps_refl s Hok) as Hsame.
  destruct (_ && bool_decide _); [by apply succeeds_ret |].
  destruct (m_input_buffer x) as [| f l] eqn:Eb; [by apply succeeds_ret |].
  destruct (m_head f && _ && _); [| by apply succeeds_ret].
  destruct (t_route t i f (m_route x)) as [rows f'] eqn:Er.
  destruct Hxo as [Hst Hlen Hf Hrows Hfrom Hfix]. unfold staged in Hst. rewrite Eb in *.
  apply Forall_cons in Hf as [Hf Hfs].
  destruct (tp_route i f _ _ _ Hi Hf Hrows Hlen Er) as (Hrows' & Hlen' & (p0 & Hp0) & Hf' & Hq & Ht).
  apply succeeds_ret. eapply put_ivc_keeps; [done | done | exact Hx | | |].
  - split; simpl; [| done | by constructor | done | by intros _; apply Hfrom | done].
    split; [| apply Hst]. intros _. exists p0. unfold permits. simpl. by rewrite Hp0.
  - intros h. unfold ivc_wt. rewrite Eb. simpl. unfold tail_wt. simpl. by rewrite Hq, Ht.
  - simpl. by rewrite Eb.
Qed.

Lemma stage_rc_ok i s : (i < n)%nat -> net_ok s -> succeeds keeps s (stage_rc i s).
Proof. intros Hi Hok. apply for_each_ok; [done |]. intros pv s'. by apply rc_channel_ok. Qed.

Lemma vca_key_some i oport ovc row s ip iv :
  is_Some (vca_key i oport ovc row s (ip, iv)) ->
  exists x f l, ins s !! (i, ip, iv) = Some x /\ m_input_buffer x = f :: l /\ permits x row oport = true.
Proof.
  unfold vca_key. simpl. case_bool_decide; [by intros [? ?] |].
  destruct (ins s !! (i, ip, iv)) as [x |]; [| by intros [? ?]].
  destruct (m_input_buffer x) as [| f l] eqn:Eb; [by intros [? ?] |].
  destruct (permits x row oport) eqn:Ep; [| by intros [? ?]]. intros _. by exists x, f, l.
Qed.

Lemma vca_channel_ok i po s : KNOB_OLDEST_FIRST k = true ->
  (i < n)%nat -> po ∈ channels -> net_ok s -> succeeds keeps s (vca_channel i po s).
Proof.
  intros Hpol Hi Hpo Hok. pose proof (channel_range i po Hi Hpo) as Hr. unfold vca_channel.
  destruct (get_ovc_ok s i _ _ Hok Hr) as (o & Ho & -> & Hoo). simpl.
  pose proof (noc_keeps_refl s Hok) as Hsame.
  destruct (negb _); [by apply succeeds_ret |]. unfold stage_vca_pick_winner.
  apply elem_channels in Hpo as [Hop Hov]. destruct (tp_row po.2 Hov) as [row ->]. rewrite Hpol. simpl.
  destruct (_ ≫= _) as [[ip iv] |] eqn:Ew; [| by apply succeeds_ret].
  apply scan_channel in Ew as [Hin Hk].
  apply vca_key_some in Hk as (x & f & l & Hx & Eb & Hper).
  pose proof (channel_range i _ Hi Hin) as Hri. unfold get_ivc. rewrite Hx. simpl. rewrite Eb.
  pose proof (ok_ivc s Hok _ _ _ _ Hx) as Hxo.
  assert (Hlead : leads i po.1).
  { apply (iv_rows _ _ _ Hxo row). unfold permits in Hper. destruct (m_route x !! row ≫= _) as [[] |]; done. }
  assert (Hx' : ivc_ok i ip (mk_ivc (with_fstate VCA f :: l) (m_route x) (Some po.1) (Some po.1) (Some po.2))).
  { eapply front_moves_ok; [done | done | done |].
    intros op [= <-]. split; [done |]. split; [done |]. by exists po.2. }
  apply succeeds_ret. etrans.
  { apply (put_ivc_keeps s i ip iv x _ Hok Hri Hx Hx'); [intros h; unfold ivc_wt |]; by rewrite Eb. }
  pose proof (put_ivc_ok s i ip iv _ Hok Hri Hx') as Hok1. set (s1 := put_ivc i ip iv _ s) in *. split.
  - apply put_ovc_ok; [done | done |]. destruct Hoo. by split.
  - intros h. rewrite (put_ovc_pop h s1 i po.1 po.2 o) by done. unfold ovc_wt. simpl. lia.
  - intros Hb Hid i' p' j' v' Hi' Hv Hlk. specialize (Hb Hid i' p' j' v' Hi' Hv Hlk).
    rewrite cred_put. case_decide as E; [| exact Hb]. injection E as <- <- <-.
    rewrite (cred_at s1 _ _ _ o) in Hb by done. exact Hb.
Qed.

Lemma sa_key_some i op s ip iv :
  is_Some (sa_key i op s (ip, iv)) -> exists x f l, ins s !! (i, ip, iv) = Some x /\ m_input_buffer x = f :: l.
Proof.
  unfold sa_key. simpl. case_bool_decide; [by intros [? ?] |].
  destruct (ins s !! (i, ip, iv)) as [x |]; [| by intros [? ?]].
  destruct (m_input_buffer x) as [| f l] eqn:Eb; [by intros [? ?] |]. intros _. by exists x, f, l.
Qed.

Lemma sa_port_ok i op s : KNOB_OLDEST_FIRST k = true -> (i < n)%nat -> net_ok s -> succeeds keeps s (sa_port i op s).
Proof.
  intros Hpol Hi Hok. unfold sa_port, stage_sa_pick_winner. rewrite Hpol. pose proof (noc_keeps_refl s Hok) as Hsame.
  destruct (get_router_ok s i Hok Hi) as (r & Hr & -> & Hro). simpl.
  destruct (_ <? _); [by apply succeeds_ret |].
  simpl. destruct (_ ≫= _) as [[ip iv] |] eqn:Ew; [| by apply succeeds_ret].
  apply scan_channel in Ew as [Hin Hk]. apply sa_key_some in Hk as (x & f & l & Hx & Eb).
  pose proof (channel_range i _ Hi Hin) as Hri. unfold get_ivc. rewrite Hx. simpl. rewrite Eb.
  pose proof (ok_ivc s Hok _ _ _ _ Hx) as Hxo.
  assert (Hx' : ivc_ok i ip (with_ibuf (with_fstate SA f :: l) x)).
  { eapply front_moves_ok; [done | done | done |]. apply Hxo. }
  apply succeeds_ret. etrans.
  { apply (put_ivc_keeps s i ip iv x _ Hok Hri Hx Hx'); [intros h; unfold ivc_wt |]; by rewrite Eb. }
  apply (put_router_keeps _ i r); [by apply put_ivc_ok | exact Hr | | done | done]. destruct Hro. by split.
Qed.

Lemma stage_sa_ok i s : KNOB_OLDEST_FIRST k = true -> (i < n)%nat -> net_ok s -> succeeds keeps s (stage_sa i s).
Proof. intros Hpol Hi Hok. apply for_each_ok; [done |]. intros op s' _. by apply sa_port_ok. Qed.

(** A link is determined by either end. *)
Lemma link_ends i p j i' p' j' : (i < n)%nat -> (i' < n)%nat -> t_link t i p = Some j -> t_link t i' p' = Some j' ->
  (i = i' /\ p = p') <-> (j = j' /\ m_opposite_dir p = m_opposite_dir p').
Proof.
  intros Hi Hi' Hl Hl'. destruct (link_back i p j Hi Hl) as (_ & _ & _ & Hb & _ & _ & Hinv).
  destruct (link_back i' p' j' Hi' Hl') as (_ & _ & _ & Hb' & _ & _ & Hinv'). split.
  - intros [<- <-]. split; congruence.
  - intros [<- E]. rewrite E in *. split; congruence.
Qed.

(** ** Switch traversal *)

Lemma st_pick_some i op s ip iv :
  st_pick i op s = Some (ip, iv) -> (ip, iv) ∈ channels /\ st_ready i op s (ip, iv) = true.
Proof.
  unfold st_pick. assert (Hfold : forall l acc,
    (forall q, acc = Some q -> q ∈ channels /\ st_ready i op s q = true) ->
    (forall q, q ∈ l -> (q < t_ports t)%nat) ->
    forall q, foldl (fun acc ip => if bool_decide (ip = op) then acc else
      match list_find (fun v => Is_true (st_ready i op s (ip, v))) vcs with
      | Some (_, v) => Some (ip, v) | None => acc end) acc l = Some q ->
    q ∈ channels /\ st_ready i op s q = true).
  { induction l as [| p l IH]; intros acc Hacc Hl q; simpl; [by apply Hacc |].
    apply IH; [| intros; apply Hl; by right]. intros q'. case_bool_decide; [by apply Hacc |].
    destruct (list_find _ vcs) as [[idx v] |] eqn:Ef; [| by apply Hacc]. intros [= <-].
    apply list_find_Some in Ef as (Hv & Hs & _). split; [| by apply Is_true_true in Hs].
    apply elem_channels. apply list_elem_of_lookup_2, elem_of_seq in Hv. simpl.
    split; [apply Hl; by left | lia]. }
  apply Hfold; [done |]. intros q Hq. apply elem_of_seq in Hq. lia.
Qed.

Lemma tail_ivc_ok i p x f l : ivc_ok i p x -> m_input_buffer x = f :: l ->
  ivc_ok i p (with_ibuf l x) /\ ivc_ok i p (mk_ivc l (m_route x) None None None).
Proof.
  intros [Hst Hlen Hf Hr Hfrom Hfix] Eb. unfold staged in Hst. rewrite Eb in *. apply Forall_cons in Hf as [_ Hf].
  destruct Hst as [_ Hst]. split; split; simpl; try done; try (intros _; by apply Hfrom).
  all: unfold staged; simpl; destruct l as [| g l]; [done |]; apply Forall_cons in Hst as [Hg Hst].
  all: split; [congruence | done].
Qed.

Lemma countb_snoc {A} (g : A -> bool) l a : countb g (l ++ [a]) = countb g l + (if g a then 1 else 0).
Proof. rewrite countb_app. simpl. lia. Qed.

(** A flit leaves input channel [(ip, iv)] of router [i]: the credit that goes
    back restores the balance. *)
Lemma st_balance s s' i ip iv x x' : net_ok s -> (i < n)%nat ->
  ins s !! (i, ip, iv) = Some x -> length (m_input_buffer x) = S (length (m_input_buffer x')) ->
  (forall i' p' v', cred s' i' p' v' = cred s i' p' v') ->
  (forall i' p' v', ilen s' i' p' v' = ilen (put_ivc i ip iv x' s) i' p' v') ->
  (ip = LOCAL /\ (forall i' p' v', pend s' i' p' v' = pend s i' p' v') \/
   exists j, t_link t i ip = Some j /\ forall i' p' v', pend s' i' p' v' =
     pend s i' p' v' + if decide (j = i' /\ m_opposite_dir ip = p' /\ iv = v') then 1 else 0) ->
  balanced s -> balanced s'.
Proof.
  intros Hok Hi Hx Hl Hc Hn Hp Hb Hid i' p' j' v' Hi' Hv Hlk. specialize (Hb Hid i' p' j' v' Hi' Hv Hlk).
  rewrite Hc, Hn, ilen_put. destruct (link_back i' p' j' Hi' Hlk) as (Hj' & _ & _ & Hb' & _ & Hne & Hinv).
  destruct Hp as [[-> Hp] | (j & Hlj & Hp)]; rewrite Hp.
  - rewrite decide_False; [exact Hb |]. intros [= _ E _]. by rewrite <- E in Hne.
  - assert (Hiff : (i, ip, iv) = (j', m_opposite_dir p', v') <-> j = i' /\ m_opposite_dir ip = p' /\ iv = v').
    { destruct (link_ends i ip j j' (m_opposite_dir p') i' Hi Hj' Hlj Hb') as [H1 H2]. rewrite Hinv in *. split.
      - intros [= Ei Ep Ev]. destruct (H1 (conj Ei Ep)) as [? ?]. done.
      - intros (Ei & Ep & Ev). destruct (H2 (conj Ei Ep)) as [-> ->]. by rewrite Ev. }
    destruct (decide (_ = _)) as [E | E].
    + rewrite decide_True by (by apply Hiff). injection E as -> -> ->.
      rewrite (ilen_at _ _ _ _ x) in Hb by done. lia.
    + rewrite decide_False by (by rewrite <- Hiff). lia.
Qed.

Lemma st_port_ok i op s : (i < n)%nat -> net_ok s -> succeeds keeps s (st_port i op s).
Proof.
  intros Hi Hok. unfold st_port. destruct (st_pick i op s) as [[ip iv] |] eqn:Ep;
    [| by apply succeeds_ret, noc_keeps_refl].
  apply st_pick_some in Ep as [Hin Hs]. pose proof (channel_range i _ Hi Hin) as Hri. simpl in Hri.
  destruct (get_router_ok s i Hok Hi) as (r & Hr & -> & Hro). simpl.
  destruct (get_ivc_ok s i ip iv Hok Hri) as (x & Hx & -> & Hxo). simpl.
  unfold st_ready in Hs. simpl in Hs. rewrite Hx in Hs. apply andb_true_iff in Hs as [Hrt Hs].
  apply bool_decide_eq_true in Hrt as [Hfix _].
  destruct (m_input_buffer x) as [| f l] eqn:Eb; [done |]. clear Hs.
  destruct (iv_fixed _ _ _ Hxo op Hfix) as (Hop & Hlead & ov & Hov & Eov). rewrite Eov. simpl.
  destruct (get_ovc_ok s i op ov Hok ltac:(done)) as (o & Ho & -> & Hoo). simpl.
  destruct (tail_ivc_ok i ip x f l Hxo Eb) as [Hx1 Hx2].
  set (x' := if m_tail f then _ else _). assert (Hx' : ivc_ok i ip x') by (subst x'; by destruct (m_tail f)).
  assert (Hl' : m_input_buffer x' = l) by (subst x'; by destruct (m_tail f)).
  set (o' := mk_ovc _ _ _). assert (Ho' : ovc_ok i op o').
  { destruct Hoo as [H1 H2 H3]. split; simpl; [| done | done]. apply Forall_app. split; [done |].
    destruct Hxo as [_ _ Hf _ _ _]. rewrite Eb in Hf. apply Forall_cons in Hf as [Hf _]. by constructor. }
  set (s1 := put_ovc i op ov o' (put_ivc i ip iv x' s)).
  assert (Hok1 : net_ok s1) by (apply put_ovc_ok; [by apply put_ivc_ok | done | done]).
  assert (Hpop : forall h, population h s1 = population h s).
  { intros h. unfold s1. rewrite (put_ovc_pop h _ i op ov o) by done.
    rewrite (put_ivc_pop h s i ip iv x) by done. unfold ivc_wt, ovc_wt. rewrite Hl', Eb. simpl.
    rewrite sum_by_app. simpl. change (tail_wt h (with_fstate ST f)) with (tail_wt h f). lia. }
  assert (Hcr : forall i' p' v', cred s1 i' p' v' = cred s i' p' v').
  { intros. unfold s1. rewrite cred_put. case_decide as E; [| done]. injection E as <- <- <-.
    simpl. by rewrite (cred_at s _ _ _ o). }
  assert (Hlen : length (m_input_buffer x) = S (length (m_input_buffer x'))) by (by rewrite Eb, Hl').
  case_bool_decide as Eloc.
  { apply succeeds_ret. split; [done | done |]. apply (st_balance s s1 i ip iv x x'); try done. by left. }
  destruct (iv_from _ _ _ Hxo) as [? | [j Hj]]; [by rewrite Eb | done |].
  rewrite Hj. simpl. destruct (link_back i ip j Hi Hj) as (Hjn & _ & _ & _ & Hopp & _).
  destruct (get_router_ok s1 j Hok1 Hjn) as (rj & Hrj & Erj & Hrjo). unfold insert_credit. rewrite Erj. simpl.
  apply succeeds_ret. split.
  - apply put_router_ok; [done | done |]. destruct Hrjo as [H1 H2]. split; simpl; [done |].
    apply Forall_app. split; [done |]. constructor; [| done]. split; [done | apply Hri].
  - intros h. rewrite (put_router_pop h s1 j rj) by done. rewrite Hpop. unfold router_wt. simpl. lia.
  - apply (st_balance s _ i ip iv x x'); try done. right. exists j. split; [done |]. intros i' p' v'.
    rewrite pend_put. case_decide as Ej.
    + subst i'. simpl. rewrite countb_snoc. unfold for_channel at 2. simpl.
      change (pend s j p' v') with (pend s1 j p' v'). rewrite (pend_at s1 j p' v' rj) by done.
      case_bool_decide as E1; [rewrite decide_True by tauto | rewrite decide_False by tauto]; done.
    + rewrite decide_False by tauto. change (pend s1 i' p' v') with (pend s i' p' v'). lia.
Qed.

Lemma stage_st_ok i s : (i < n)%nat -> net_ok s -> succeeds keeps s (stage_st i s).
Proof. intros Hi Hok. apply for_each_ok; [done |]. intros op s' _. by apply st_port_ok. Qed.

(** ** Link traversal *)

(** Flits appended to a buffer. *)
Lemma append_ok i p x fs : ivc_ok i p x -> leads i p -> Forall (fun f => flit_ok f /\ m_state f = IB) fs ->
  ivc_ok i p (with_ibuf (m_input_buffer x ++ fs) x).
Proof.
  intros [Hst Hlen Hf Hr Hfrom Hfix] Hl Hfs.
  assert (Hok : Forall flit_ok fs) by (apply (Forall_impl _ _ _ Hfs); naive_solver).
  assert (Hib : Forall (fun f => m_state f = IB) fs) by (apply (Forall_impl _ _ _ Hfs); naive_solver).
  split; simpl; [| done | by apply Forall_app | done | done | done]. unfold staged in *. simpl.
  destruct (m_input_buffer x) as [| f l].
  - destruct fs as [| g fs]; [done |]. apply Forall_cons in Hib as [Hg Hib]. simpl. split; [congruence | done].
  - destruct Hst as [Hrc Hst]. simpl. split; [exact Hrc |]. by apply Forall_app.
Qed.

Lemma insert_packet_ok j p v rdy f s : net_ok s -> in_range (j, p, v) -> leads j p -> flit_ok f ->
  exists s', insert_packet j p v rdy f s = Done s' /\ net_ok s' /\ outs s' = outs s /\ rts s' = rts s /\
    (forall h, population h s' = population h s + tail_wt h f) /\
    forall j' p' v', ilen s' j' p' v' = ilen s j' p' v' + if decide ((j, p, v) = (j', p', v')) then 1 else 0.
Proof.
  intros Hok Hr Hl Hf. unfold insert_packet. destruct (get_ivc_ok s j p v Hok Hr) as (x & Hx & -> & Hxo). simpl.
  eexists. split; [done |]. split_and!; [| done | done | |].
  - apply put_ivc_ok; [done | done |]. apply append_ok; [done | done |]. by constructor.
  - intros h. rewrite (put_ivc_pop h s j p v x) by done. unfold ivc_wt. simpl. rewrite sum_by_app. simpl.
    change (tail_wt h (with_rdy rdy (with_fstate IB f))) with (tail_wt h f). lia.
  - intros j' p' v'. rewrite ilen_put. case_decide as E; [| lia]. injection E as <- <- <-.
    rewrite (ilen_at s j p v x) by done. simpl. rewrite length_app. simpl. lia.
Qed.

Lemma lt_pick_ok i port l s : net_ok s -> (i < n)%nat -> (port < t_ports t)%nat ->
  Forall (fun v => v < KNOB_NUM_VC k)%nat l ->
  exists w, lt_pick i port l s = Done w /\ forall v f, w = Some (v, f) ->
    (v < KNOB_NUM_VC k)%nat /\ exists o fs, outs s !! (i, port, v) = Some o /\ m_output_buffer o = f :: fs /\
    m_credit o <> 0.
Proof.
  intros Hok Hi Hp Hl. induction Hl as [| v l Hv Hl IH]; simpl; [by exists None |].
  destruct (get_ovc_ok s i port v Hok ltac:(done)) as (o & Ho & -> & Hoo). simpl.
  destruct (m_output_buffer o) as [| f fs] eqn:Eb; [done |]. destruct (Z.eqb_spec (m_credit o) 0); [done |].
  pose proof (ov_flits _ _ _ Hoo) as Hfl. rewrite Eb in Hfl. apply Forall_cons in Hfl as [[Hst _] _].
  rewrite bool_decide_eq_true_2 by done. simpl. destruct (_ <? _); [| done].
  eexists. split; [done |]. intros v' f' [= <- <-]. split; [done |]. by exists o, fs.
Qed.

Lemma lt_order_ok now : Forall (fun v => v < KNOB_NUM_VC k)%nat (lt_order now).
Proof.
  apply Forall_forall. intros v Hv. unfold lt_order, vcs in Hv. apply list_elem_of_fmap in Hv as (d & -> & Hd).
  apply elem_of_seq in Hd. pose proof (Z.mod_pos_bound (u64 (Z.of_nat d + now)) (Z.of_nat (KNOB_NUM_VC k))). lia.
Qed.

(** A flit crosses the link from port [p] of router [i]: one credit less, one
    flit more in the buffer it feeds. *)
Lemma lt_balance s s' i p j v : (i < n)%nat -> t_link t i p = Some j ->
  (forall i' p' v', cred s' i' p' v' = cred s i' p' v' - if decide ((i, p, v) = (i', p', v')) then 1 else 0) ->
  (forall i' p' v', ilen s' i' p' v' =
    ilen s i' p' v' + if decide ((j, m_opposite_dir p, v) = (i', p', v')) then 1 else 0) ->
  (forall i' p' v', pend s' i' p' v' = pend s i' p' v') ->
  balanced s -> balanced s'.
Proof.
  intros Hi Hl Hc Hn Hp Hb Hid i' p' j' v' Hi' Hv Hlk. specialize (Hb Hid i' p' j' v' Hi' Hv Hlk).
  rewrite Hc, Hn, Hp. pose proof (link_ends i p j i' p' j' Hi Hi' Hl Hlk) as Hends.
  assert (Hiff : (i, p, v) = (i', p', v') <-> (j, m_opposite_dir p, v) = (j', m_opposite_dir p', v')).
  { split; intros [= E1 E2 E3]; subst v'; [destruct Hends as [He _] | destruct Hends as [_ He]];
      destruct (He (conj E1 E2)) as [? ?]; congruence. }
  destruct (decide ((i, p, v) = _)) as [E | E].
  - rewrite decide_True by (by apply Hiff). lia.
  - rewrite decide_False by (by rewrite <- Hiff). lia.
Qed.


(** The flit leaves the output buffer, with a credit unless it is ejected. *)
Lemma lt_pop s i p v o f fs (b : bool) a : net_ok s -> in_range (i, p, v) ->
  outs s !! (i, p, v) = Some o -> m_output_buffer o = f :: fs -> m_credit o <> 0 ->
  let s' := put_ovc i p v (mk_ovc fs a (if b then m_credit o else m_credit o - 1)) s in
  net_ok s' /\ (forall h, population h s' = population h s - tail_wt h f) /\
  forall i' p' v', cred s' i' p' v' =
    cred s i' p' v' - if b then 0 else if decide ((i, p, v) = (i', p', v')) then 1 else 0.
Proof.
  intros Hok Hr Ho Eb Hc s'. destruct (ok_ovc s Hok _ _ _ _ Ho) as [Hf Hto Hpos]. rewrite Eb in *.
  apply Forall_cons in Hf as [_ Hf]. split_and!.
  - apply put_ovc_ok; [done | done |]. split; simpl; [done | intros _; by apply Hto | destruct b; lia].
  - intros h. unfold s'. rewrite (put_ovc_pop h s i p v o) by done. unfold ovc_wt. rewrite Eb. simpl. lia.
  - intros i' p' v'. unfold s'. rewrite cred_put. case_decide as E; [| destruct b; lia].
    injection E as <- <- <-. rewrite (cred_at s i p v o) by done. simpl. destruct b; lia.
Qed.

(** The last flit of a packet delivers it. *)
Lemma eject_ok i r f s : net_ok s -> rts s !! i = Some r ->
  let s' := if m_tail f then put_router i (with_req_buffer (m_req_buffer r ++ [m_req f]) r) s else s in
  net_ok s' /\ outs s' = outs s /\ ins s' = ins s /\
  (forall h, population h s' = population h s + tail_wt h f) /\
  forall i' p' v', pend s' i' p' v' = pend s i' p' v'.
Proof.
  intros Hok Hr. simpl. unfold tail_wt. destruct (m_tail f); [| split_and!; try done; lia]. split_and!; try done.
  - apply put_router_ok; [done | by apply (sh_rts s Hok); eauto |]. destruct (ok_rt s Hok i r Hr). by split.
  - intros h. rewrite (put_router_pop h s i r) by done. unfold router_wt. simpl. rewrite sum_by_app. simpl.
    change (pk_wt h (m_req f)) with (h (r_ptr (m_req f))). lia.
  - intros. rewrite pend_put. case_decide as E; [| done]. subst i'. by rewrite (pend_at s i _ _ r).
Qed.

Lemma lt_port_ok i port s : (i < n)%nat -> (port < t_ports t)%nat -> net_ok s -> succeeds keeps s (lt_port i port s).
Proof.
  intros Hi Hp Hok. pose proof (noc_keeps_refl s Hok) as Hsame. unfold lt_port.
  destruct (get_router_ok s i Hok Hi) as (r & Hr & -> & Hro). simpl.
  destruct (_ <? _); [by apply succeeds_ret |].
  destruct (lt_pick_ok i port _ s Hok Hi Hp (lt_order_ok (m_cycle r))) as (w & -> & Hw). simpl.
  destruct w as [[v f] |]; [| by apply succeeds_ret].
  destruct (Hw v f eq_refl) as (Hv & o & fs & Ho & Eb & Hc). clear Hw.
  pose proof (ok_ovc s Hok _ _ _ _ Ho) as Hoo.
  assert (Hf : flit_ok f).
  { pose proof (ov_flits _ _ _ Hoo) as Hfl. rewrite Eb in Hfl. by apply Forall_cons in Hfl as [[_ ?] _]. }
  assert (Hlead : leads i port) by (apply (ov_to _ _ _ Hoo); by rewrite Eb).
  case_bool_decide as Eloc.
  - simpl. destruct (eject_ok i r f s Hok Hr) as (Hok1 & Houts & _ & Hpop & Hpe).
    set (s1 := if m_tail f then _ else s) in *.
    assert (Hil : forall i' p' v', ilen s1 i' p' v' = ilen s i' p' v') by (intros; unfold s1; by destruct (m_tail f)).
    unfold get_ovc. rewrite Houts, Ho. simpl. rewrite Eb. simpl.
    destruct (lt_pop s1 i port v o f fs true (m_tail f || m_output_vc_avail o)) as (Hok2 & Hpop2 & Hcr2);
      [done | done | by rewrite Houts | done | done |].
    apply succeeds_ret. split; [done | intros h; rewrite Hpop2, Hpop; lia |].
    intros Hb Hid i' p' j' v' Hi' Hv' Hlk. rewrite Hcr2. specialize (Hb Hid i' p' j' v' Hi' Hv' Hlk).
    rewrite <- Hb, <- Hil, <- Hpe. unfold cred. rewrite Houts. unfold ilen, pend. simpl. lia.
  - destruct Hlead as [? | [j Hj]]; [done |]. rewrite Hj. simpl.
    destruct (link_back i port j Hi Hj) as (Hjn & _ & _ & Hjb & Hopp & _).
    destruct (insert_packet_ok j (m_opposite_dir port) v (u64 (m_cycle r + KNOB_LINK_LATENCY k + 1)) f s)
      as (s0 & -> & Hok0 & Ho0 & Hr0 & Hpop0 & Hil0); [done | done | right; eauto | done |]. simpl.
    set (s1 := put_router i _ s0).
    assert (Hk1 : keeps s0 s1).
    { apply (put_router_keeps s0 i r); [done | by rewrite Hr0 | destruct Hro; by split | done | done]. }
    unfold get_ovc. change (outs s1) with (outs s0). rewrite Ho0, Ho. simpl. rewrite Eb. simpl.
    destruct (lt_pop s1 i port v o f fs false (m_tail f || m_output_vc_avail o)) as (Hok2 & Hpop2 & Hcr2);
      [apply Hk1 | done | change (outs s1) with (outs s0); by rewrite Ho0 | done | done |].
    apply succeeds_ret. split; [done | intros h; rewrite Hpop2, (kp_pop _ _ Hk1), Hpop0; lia |].
    apply (lt_balance s _ i port j v Hi Hj).
    + intros i' p' v'. rewrite Hcr2. unfold cred. change (outs s1) with (outs s0). by rewrite Ho0.
    + intros i' p' v'. rewrite <- Hil0. done.
    + intros i' p' v'. unfold pend. simpl. rewrite Hr0. destruct (decide (i = i')) as [<- |].
      * rewrite lookup_insert_eq, Hr. done.
      * by rewrite lookup_insert_ne.
Qed.

Lemma stage_lt_ok i s : (i < n)%nat -> net_ok s -> succeeds keeps s (stage_lt i s).
Proof.
  intros Hi Hok. apply for_each_ok; [done |]. intros p s' Hp. apply elem_of_seq in Hp. apply lt_port_ok; [done | lia].
Qed.


(** ** Credits *)

Lemma credit_loop_ok CYCLE i l s : (i < n)%nat -> net_ok s ->
  Forall (fun c => (c_port c < t_ports t)%nat /\ (c_vc c < KNOB_NUM_VC k)%nat) l ->
  exists s' keep, credit_loop CYCLE i l s = Done (s', keep) /\ net_ok s' /\ ins s' = ins s /\ rts s' = rts s /\
    (forall h, population h s' = population h s) /\
    Forall (fun c => (c_port c < t_ports t)%nat /\ (c_vc c < KNOB_NUM_VC k)%nat) keep /\
    forall i' p v, cred s' i' p v = cred s i' p v +
      if decide (i = i') then countb (for_channel p v) l - countb (for_channel p v) keep else 0.
Proof.
  intros Hi Hok Hl. revert s Hok. induction Hl as [| c l [Hp Hv] Hl IH]; intros s Hok; simpl.
  { exists s, []. split_and!; try done. intros. simpl. case_decide; lia. }
  destruct (c_rdy_cycle c <=? CYCLE).
  - assert (Hr : in_range (i, c_port c, c_vc c)) by done.
    destruct (get_ovc_ok s i _ _ Hok Hr) as (o & Ho & -> & Hoo). simpl. set (o' := mk_ovc _ _ _).
    assert (Hoo' : ovc_ok i (c_port c) o') by (destruct Hoo; split; simpl; [done | done | lia]).
    destruct (IH _ (put_ovc_ok s i (c_port c) (c_vc c) o' Hok Hr Hoo'))
      as (s' & keep & -> & Hok' & Hins & Hrts & Hpop & Hkeep & Hc).
    exists s', keep. split_and!; try done.
    + intros h. rewrite Hpop, (put_ovc_pop h s i _ _ o) by done. unfold ovc_wt. simpl. lia.
    + intros i' p v. rewrite Hc, cred_put. destruct (for_channel p v c) eqn:E; unfold for_channel in E.
      * apply bool_decide_eq_true in E as [<- <-]. destruct (decide (i = i')) as [<- |].
        -- rewrite decide_True, (cred_at s _ _ _ o) by done. simpl. lia.
        -- rewrite decide_False by congruence. lia.
      * apply bool_decide_eq_false in E. rewrite (decide_False (P := (_, _, _) = _)) by naive_solver. case_decide; lia.
  - destruct (IH s Hok) as (s' & keep & -> & Hok' & Hins & Hrts & Hpop & Hkeep & Hc). simpl.
    exists s', (c :: keep). split_and!; try done; [by constructor |].
    intros i' p v. rewrite Hc. simpl. case_decide; lia.
Qed.

Lemma process_pending_credit_ok CYCLE i s : (i < n)%nat -> net_ok s ->
  succeeds keeps s (process_pending_credit CYCLE i s).
Proof.
  intros Hi Hok. unfold process_pending_credit. destruct (get_router_ok s i Hok Hi) as (r & Hr & -> & Hro). simpl.
  destruct (credit_loop_ok CYCLE i (m_pending_credit r) s Hi Hok (rt_credits _ Hro))
    as (s' & keep & -> & Hok' & Hins & Hrts & Hpop & Hkeep & Hc). simpl.
  unfold get_router. rewrite Hrts, Hr. simpl. apply succeeds_ret. split.
  - apply put_router_ok; [done | done |]. destruct Hro. by split.
  - intros h. rewrite (put_router_pop h s' i r) by (by rewrite Hrts). rewrite Hpop. unfold router_wt. simpl. lia.
  - intros Hb Hid i' p j v Hi' Hv Hlk. specialize (Hb Hid i' p j v Hi' Hv Hlk). rewrite pend_put.
    change (cred s' i' p v + ilen s' j (m_opposite_dir p) v +
      (if decide (i = i') then countb (for_channel p v) keep else pend s' i' p v) = m_buffer_max_size).
    rewrite Hc. unfold ilen, pend in *. rewrite Hins, Hrts. destruct (decide (i = i')) as [<- |]; [| lia].
    rewrite Hr in Hb. simpl in Hb. lia.
Qed.


(** ** Injection *)

Lemma flits_of_ok now q m : packet_ok q ->
  Forall (fun f => flit_ok f /\ m_state f = IB) (flits_of now q m).
Proof. intros [Hd _]. apply Forall_fmap, Forall_true. intros j. by split. Qed.

(** A packet has one tail flit. *)
Lemma flits_of_wt h now q m : 1 <= m -> sum_by (tail_wt h) (flits_of now q m) = pk_wt h q.
Proof.
  intros Hm. unfold flits_of. replace (Z.to_nat m) with (S (Z.to_nat (m - 1))) by lia.
  rewrite seq_S, fmap_app, sum_by_app. simpl. rewrite sum_by_none.
  - unfold tail_wt, pk_wt. simpl. rewrite bool_decide_eq_true_2 by lia. lia.
  - apply Forall_fmap, Forall_forall. intros j Hj. apply elem_of_seq in Hj. unfold tail_wt. simpl.
    by rewrite bool_decide_eq_false_2 by lia.
Qed.

Lemma find_room_ok i m l s : net_ok s -> (i < n)%nat -> Forall (fun v => v < KNOB_NUM_VC k)%nat l ->
  exists o, find_room i m l s = Done o /\ forall v x, o = Some (v, x) ->
    (v < KNOB_NUM_VC k)%nat /\ ins s !! (i, LOCAL, v) = Some x.
Proof.
  intros Hok Hi Hl. induction Hl as [| v l Hv Hl IH]; simpl; [by exists None |].
  destruct (get_ivc_ok s i LOCAL v Hok) as (x & Hx & -> & _); [split; [done | split; [apply tp_ports | done]] |].
  simpl. destruct (_ <=? _); [| done]. eexists. split; [done |]. by intros ? ? [= <- <-].
Qed.

Context (link_width_pos : 0 < KNOB_LINK_WIDTH k) (oldest_first : KNOB_OLDEST_FIRST k = true).

Lemma num_flit_ok q : packet_ok q -> exists m, num_flit q = Done m /\ 1 <= m.
Proof.
  intros [_ Hs]. unfold num_flit. rewrite (proj2 (Z.eqb_neq _ _)) by lia.
  pose proof (Z.quot_pos (m_size q) (KNOB_LINK_WIDTH k) Hs link_width_pos).
  case_bool_decide; simpl; eexists; (split; [done |]); destruct (KNOB_IDEAL_NOC k); lia.
Qed.

Lemma inject_loop_ok i l s r : (i < n)%nat -> net_ok s -> rts s !! i = Some r -> m_injection_buffer r = l ->
  succeeds keeps s (inject_loop i l s).
Proof.
  intros Hi. revert s r. induction l as [| q l IH]; intros s r Hok Hr El; simpl; [by apply succeeds_ret, noc_keeps_refl |].
  unfold get_router. rewrite Hr. simpl. destruct (ok_rt s Hok i r Hr) as [Hpk Hcr]. rewrite El in Hpk.
  apply Forall_cons in Hpk as [Hq Hpk]. destruct (num_flit_ok q Hq) as (m & -> & Hm). simpl.
  destruct (find_room_ok i m vcs s Hok Hi) as (o & -> & Ho).
  { apply Forall_forall. intros v Hv. apply elem_of_seq in Hv. lia. }
  simpl. destruct o as [[v x] |]; [| by apply succeeds_ret, noc_keeps_refl].
  destruct (Ho v x eq_refl) as [Hv Hx]. pose proof (ok_ivc s Hok _ _ _ _ Hx) as Hxo.
  assert (Hri : in_range (i, LOCAL, v)) by (split; [done | split; [apply tp_ports | done]]).
  set (x' := with_ibuf _ _). set (s1 := put_ivc i LOCAL v x' s). set (r' := with_injection l r).
  assert (Hx' : ivc_ok i LOCAL x') by (apply append_ok; [done | by left | by apply flits_of_ok]).
  assert (Hk : keeps s (put_router i r' s1)).
  { split.
    - apply put_router_ok; [by apply put_ivc_ok | done | by split].
    - intros h. rewrite (put_router_pop h s1 i r) by done. unfold s1. rewrite (put_ivc_pop h s i LOCAL v x) by done.
      unfold router_wt, ivc_wt. simpl. rewrite El, sum_by_app, flits_of_wt by done. simpl. lia.
    - intros Hb Hid i' p j v' Hi' Hv' Hlk. specialize (Hb Hid i' p j v' Hi' Hv' Hlk).
      destruct (link_back i' p j Hi' Hlk) as (_ & _ & _ & _ & _ & Hne & _).
      rewrite pend_put. change (cred s i' p v' + ilen s1 j (m_opposite_dir p) v' +
        (if decide (i = i') then countb (for_channel p v') (m_pending_credit r) else pend s i' p v') = m_buffer_max_size).
      unfold s1. rewrite ilen_put, (decide_False (P := (_, _, _) = _)) by congruence.
      destruct (decide (i = i')) as [<- |]; [by rewrite <- (pend_at s i p v' r) | done]. }
  destruct (IH (put_router i r' s1) r') as (s2 & -> & Hk2); [apply Hk | apply lookup_insert_eq | done |].
  apply succeeds_ret. by etrans.
Qed.

Lemma local_packet_injection_ok i s : (i < n)%nat -> net_ok s -> succeeds keeps s (local_packet_injection i s).
Proof.
  intros Hi Hok. unfold local_packet_injection. destruct (get_router_ok s i Hok Hi) as (r & Hr & -> & _). simpl.
  by apply (inject_loop_ok i _ s r).
Qed.

(** ** Ideal network *)

Lemma first_port_ok x : (exists p, permits x 0 p = true) ->
  (forall p, permits x 0 p = true -> (p < t_ports t)%nat) ->
  exists p, first_port x = Some p /\ permits x 0 p = true.
Proof.
  intros [p Hp] Hlt. unfold first_port.
  destruct (list_find _ ports) as [[q y] |] eqn:Ef.
  - exists q. split; [done |]. apply list_find_Some in Ef as (Hq & Hs & _).
    apply lookup_seq in Hq as [-> _]. by apply Is_true_true in Hs.
  - apply list_find_None in Ef. rewrite Forall_forall in Ef. exfalso. apply (Ef p).
    + apply elem_of_seq. specialize (Hlt p Hp). lia.
    + by apply Is_true_true.
Qed.

Lemma leads_port i p : (i < n)%nat -> leads i p -> (p < t_ports t)%nat.
Proof. intros Hi [-> | [j Hj]]; [apply tp_ports | by apply (link_back i p j Hi Hj)]. Qed.

Lemma vca_ideal_ok i pv s : KNOB_IDEAL_NOC k = true -> (i < n)%nat -> pv ∈ channels -> net_ok s ->
  succeeds keeps s (vca_ideal i pv s).
Proof.
  intros Hid Hi Hpv Hok. pose proof (channel_range i pv Hi Hpv) as Hri. pose proof (noc_keeps_refl s Hok) as Hsame.
  unfold vca_ideal. destruct (get_router_ok s i Hok Hi) as (r & Hr & -> & Hro). simpl.
  destruct (get_ivc_ok s i _ _ Hok Hri) as (x & Hx & -> & Hxo). simpl.
  destruct (m_input_buffer x) as [| f l] eqn:Eb; [by apply succeeds_ret |].
  destruct (decide (m_state f = RC)) as [Hst |];
    [rewrite bool_decide_eq_true_2 by done | rewrite bool_decide_eq_false_2 by done; by apply succeeds_ret].
  simpl. destruct (_ <? _); [by apply succeeds_ret |].
  assert (Hleads : forall p, permits x 0 p = true -> leads i p).
  { intros p Hp. apply (iv_rows _ _ _ Hxo 0%nat). unfold permits in Hp. by destruct (_ ≫= _) as [[] |]. }
  destruct (first_port_ok x) as (p & -> & Hp).
  { pose proof (iv_staged _ _ _ Hxo) as Hstg. unfold staged in Hstg. rewrite Eb in Hstg. by apply Hstg. }
  { intros p Hp. apply (leads_port i); auto. }
  simpl. apply Hleads in Hp. case_bool_decide as Eloc.
  - destruct (eject_ok i r f s Hok Hr) as (Hok1 & _ & Hins & Hpop & _). set (s1 := if m_tail f then _ else s) in *.
    apply succeeds_ret. split; [| | by intros _; unfold balanced; rewrite Hid].
    + apply put_ivc_ok; [done | done |]. by eapply tail_ivc_ok.
    + intros h. rewrite (put_ivc_pop h s1 _ _ _ x) by (by rewrite Hins). rewrite Hpop. unfold ivc_wt. rewrite Eb. simpl. lia.
  - destruct Hp as [? | [j Hj]]; [done |]. rewrite Hj. simpl.
    destruct (link_back i p j Hi Hj) as (Hjn & _ & _ & Hjb & Hopp & _).
    assert (Hf : flit_ok f).
    { pose proof (iv_flits _ _ _ Hxo) as Hfl. rewrite Eb in Hfl. by apply Forall_cons in Hfl as [? _]. }
    destruct (insert_packet_ok j (m_opposite_dir p) pv.2 (u64 (m_cycle r + 1)) f s)
      as (s1 & E1 & Hok1 & _ & _ & Hpop & _); [done | split; [done | split; [done | apply Hri]] | right; eauto | done |].
    rewrite E1. simpl. destruct (get_ivc_ok s1 i _ _ Hok1 Hri) as (x1 & Hx1 & -> & Hxo1). simpl.
    assert (Hfront : exists l1, m_input_buffer x1 = f :: l1).
    { unfold insert_packet in E1. destruct (get_ivc s j _ _) as [y |] eqn:Ey; [| done]. injection E1 as <-.
      unfold get_ivc in Ey. destruct (ins s !! (j, m_opposite_dir p, pv.2)) as [y' |] eqn:Ey'; [| done].
      injection Ey as ->. simpl in Hx1. apply lookup_insert_Some in Hx1 as [[E <-] | [_ Hx1]].
      - injection E as Ej Ep. rewrite Ej, Ep, Hx in Ey'. injection Ey' as <-. simpl. rewrite Eb. eauto.
      - rewrite Hx in Hx1. injection Hx1 as <-. eauto. }
    destruct Hfront as [l1 Eb1]. rewrite Eb1. simpl. apply succeeds_ret. split; [| | by intros _; unfold balanced; rewrite Hid].
    + apply put_ivc_ok; [done | done |]. by eapply tail_ivc_ok.
    + intros h. rewrite (put_ivc_pop h s1 _ _ _ x1) by done. rewrite Hpop. unfold ivc_wt. rewrite Eb1. simpl. lia.
Qed.


Lemma stage_vca_ok i s : (i < n)%nat -> net_ok s -> succeeds keeps s (stage_vca i s).
Proof.
  intros Hi Hok. unfold stage_vca. destruct (KNOB_IDEAL_NOC k) eqn:Hid; apply for_each_ok; try done; intros pv s' Hpv.
  - by apply vca_ideal_ok.
  - by apply vca_channel_ok.
Qed.

(** ** Cycle *)

Lemma tick_router_ok i s : (i < n)%nat -> net_ok s -> succeeds keeps s (tick_router i s).
Proof.
  intros Hi Hok. unfold tick_router. destruct (get_router_ok s i Hok Hi) as (r & Hr & -> & Hro). simpl.
  apply succeeds_ret, (put_router_keeps s i r); [done | done | destruct Hro; by split | done | done].
Qed.

(** Runs one stage of the pipeline and continues in the state it leaves. *)
Ltac noc_stage lem :=
  apply (succeeds_bind keeps); [by apply lem |];
  let s' := fresh "s" in let Hk := fresh "Hk" in intros s' Hk; apply kp_ok in Hk.

Lemma run_router_ok CYCLE pll_lock i s : (i < n)%nat -> net_ok s -> succeeds keeps s (run_router CYCLE pll_lock i s).
Proof.
  intros Hi Hok. unfold run_router. destruct pll_lock; [by apply tick_router_ok |].
  destruct (KNOB_IDEAL_NOC k).
  - noc_stage stage_vca_ok. noc_stage stage_rc_ok. noc_stage local_packet_injection_ok. by apply tick_router_ok.
  - noc_stage process_pending_credit_ok. noc_stage stage_lt_ok. noc_stage stage_sa_ok. noc_stage stage_st_ok.
    noc_stage stage_rc_ok. noc_stage stage_vca_ok. noc_stage local_packet_injection_ok. by apply tick_router_ok.
Qed.

Lemma noc_cycle_ok CYCLE pll_lock s : net_ok s -> succeeds keeps s (run_a_cycle CYCLE pll_lock n s).
Proof.
  intros Hok. apply for_each_ok; [done |]. intros i s' Hin. apply run_router_ok.
  apply list_elem_of_fmap in Hin as (d & -> & Hd). apply elem_of_seq in Hd.
  pose proof (Z.mod_pos_bound (CYCLE mod Z.of_nat n + Z.of_nat d) (Z.of_nat n)). lia.
Qed.


(** ** Runs *)

Context (rm : router_map) (n_pos : (0 < n)%nat) (rm_lt : forall key i, rm !! key = Some i -> (i < n)%nat).

Definition op_ok (o : noc_op) : Prop := match o with Send q _ _ _ _ => 0 <= m_size q | _ => True end.

Record run_ok (st : noc_run_state) : Prop := {
  ru_net : net_ok (nr_net st);
  ru_bal : balanced (nr_net st);
  ru_pop h : sum_by (pk_wt h) (nr_sent st) = sum_by (pk_wt h) (nr_got st).*2 + population h (nr_net st)
}.

Lemma router_of_lt level id : (router_of rm level id < n)%nat.
Proof. unfold router_of. destruct (rm !! _) as [i |] eqn:E; [by apply (rm_lt _ i E) | done]. Qed.

Lemma send_ok q sl si dl di st : run_ok st -> 0 <= m_size q ->
  exists st', noc_do rm n (Send q sl si dl di) st = Done st' /\ run_ok st'.
Proof.
  intros [Hok Hb Hp] Hq. simpl. unfold send, inject_packet.
  destruct (get_router_ok (nr_net st) _ Hok (router_of_lt sl si)) as (r & Hr & -> & Hro). simpl.
  destruct (_ <? _); simpl; (eexists; split; [done |]); [| by split].
  set (i := router_of rm sl si) in *. set (q' := with_route _ _ q). split; simpl.
  - apply put_router_ok; [done | apply router_of_lt |]. destruct Hro. split; simpl; [| done].
    apply Forall_app. split; [done |]. constructor; [| done]. split; [apply router_of_lt | done].
  - intros Hid i' p j v Hi Hv Hl. specialize (Hb Hid i' p j v Hi Hv Hl). rewrite pend_put.
    case_decide as E; [| exact Hb]. subst i'. rewrite (pend_at _ _ _ _ r) in Hb by done. exact Hb.
  - intros h. rewrite (put_router_pop h _ i r) by done. unfold router_wt. simpl. rewrite !sum_by_app, Hp. simpl. lia.
Qed.

Lemma receive_ok level id accepts st : run_ok st ->
  exists st', noc_do rm n (Receive level id accepts) st = Done st' /\ run_ok st'.
Proof.
  intros [Hok Hb Hp]. simpl. unfold receive, receive_req, receive_pop, pop_req.
  destruct (get_router_ok (nr_net st) _ Hok (router_of_lt level id)) as (r & Hr & -> & Hro). simpl.
  destruct (m_req_buffer r) as [| q l] eqn:El; simpl; [by eexists |]. destruct accepts; [| by eexists].
  eexists. split; [done |]. set (i := router_of rm level id) in *. split; simpl.
  - apply put_router_ok; [done | apply router_of_lt |]. destruct Hro. by split.
  - intros Hid i' p j v Hi Hv Hl. specialize (Hb Hid i' p j v Hi Hv Hl). rewrite pend_put.
    case_decide as E; [| exact Hb]. subst i'. rewrite (pend_at _ _ _ _ r) in Hb by done. exact Hb.
  - intros h. rewrite (put_router_pop h _ i r) by done. unfold router_wt. simpl.
    rewrite fmap_app, !sum_by_app, Hp, El. simpl. lia.
Qed.

Lemma noc_run_ok ops st : run_ok st -> Forall op_ok ops -> exists st', noc_run rm n ops st = Done st' /\ run_ok st'.
Proof.
  intros Hst Hops. revert st Hst. induction Hops as [| o ops Ho _ IH]; intros st Hst; simpl; [by eexists |].
  assert (Hstep : exists st', noc_do rm n o st = Done st' /\ run_ok st').
  { destruct o; [by apply send_ok | by apply receive_ok |]. simpl. destruct Hst as [Hok Hb Hp].
    destruct (noc_cycle_ok CYCLE pll_lock _ Hok) as (s' & -> & Hk). simpl. eexists. split; [done |].
    split; [apply Hk | by apply Hk |]. intros h. simpl. by rewrite (kp_pop _ _ Hk). }
  destruct Hstep as (st' & -> & Hst'). by apply IH.
Qed.

Lemma elem_keys x : x ∈ keys n <-> in_range x.
Proof.
  unfold keys, in_range. rewrite list_elem_of_bind. setoid_rewrite list_elem_of_bind.
  setoid_rewrite elem_of_seq. setoid_rewrite list_elem_of_singleton. setoid_rewrite elem_channels. split.
  - intros (i & (pv & -> & Hpv) & Hi). simpl. split; [lia | done].
  - destruct x as [[i p] v]. simpl. intros (Hi & Hp & Hv). exists i. split; [by exists (p, v) | lia].
Qed.

Lemma network_new_ok cycle : run_ok (mk_noc_run (network_new n cycle) [] []).
Proof.
  assert (Hi : forall x, ins (network_new n cycle) !! x = if decide (in_range x) then Some ivc_new else None).
  { intros x. simpl. rewrite lookup_tabulate_map. apply decide_ext, elem_keys. }
  assert (Ho : forall x, outs (network_new n cycle) !! x = if decide (in_range x) then Some ovc_new else None).
  { intros x. simpl. rewrite lookup_tabulate_map. apply decide_ext, elem_keys. }
  assert (Hr : forall i, rts (network_new n cycle) !! i = if decide (i < n)%nat then Some (router_new (cycle i)) else None).
  { intros i. simpl. rewrite lookup_tabulate_map. apply decide_ext. rewrite elem_of_seq. lia. }
  split; cbn [nr_net nr_sent nr_got].
  - split.
    + intros x. rewrite Hi. case_decide; split; try done; by intros [? ?].
    + intros x. rewrite Ho. case_decide; split; try done; by intros [? ?].
    + intros i. rewrite Hr. case_decide; split; try done; by intros [? ?].
    + intros i p v x. rewrite Hi. case_decide; [intros [= <-] | done]. split; try done.
      intros row q. simpl. destruct row as [| [| row]]; simpl; try done;
        rewrite lookup_replicate; by intros [? _].
    + intros i p v o. rewrite Ho. case_decide; [intros [= <-] | done]. split; simpl; [done | done | lia].
    + intros i r. rewrite Hr. case_decide; [intros [= <-] | done]. by split.
  - intros _ i p j v Hlt Hv Hl. destruct (link_back i p j Hlt Hl) as (Hj & Hp & _ & _ & Hop & _).
    unfold cred, ilen, pend. rewrite Hi, Ho, Hr. by rewrite !decide_True by done.
  - intros h. simpl. unfold population. rewrite !msum_zero; [done | | |].
    + intros i r. rewrite Hr. case_decide; [by intros [= <-] | done].
    + intros x o. rewrite Ho. case_decide; [by intros [= <-] | done].
    + intros x c. rewrite Hi. case_decide; [by intros [= <-] | done].
Qed.

End STAGES.

End NOC.
