(* ===== verification/NocTopology.v ===== *)
(** * Ring and mesh (network_ring.cc, network_mesh.cc) and whole-network results

    Both topologies meet the interface [TopologyOk] of the router pipeline, so
    its theorems hold of them. Then the routes flits take, the endpoints [init]
    creates, and what every run of a network guarantees. *)

From S2P Require Import Prelude.
From S2P Require Import Noc.

(** ** Topologies *)

Lemma one_hot_true m d p : one_hot m d !! p = Some true <-> p = d /\ (p < m)%nat.
Proof.
  unfold one_hot. rewrite list_lookup_fmap. destruct (decide (p < m)%nat) as [Hp | Hp].
  - rewrite lookup_seq_lt by done. simpl. split.
    + intros [= E]. apply bool_decide_eq_true in E. done.
    + intros [-> _]. by rewrite bool_decide_eq_true_2.
  - rewrite lookup_seq_ge by lia. simpl. split; [done | lia].
Qed.

Lemma tabulate_true (g : nat -> bool) m p : (g <$> seq 0 m) !! p = Some true <-> g p = true /\ (p < m)%nat.
Proof.
  rewrite list_lookup_fmap. destruct (decide (p < m)%nat) as [Hp | Hp].
  - rewrite lookup_seq_lt by done. simpl. split; [by intros [= ->] | by intros [-> _]].
  - rewrite lookup_seq_ge by lia. simpl. split; [done | lia].
Qed.

Lemma ring_pred n i : (i < n)%nat -> ((i + n - 1) mod n = if decide (i = 0) then n - 1 else i - 1)%nat.
Proof.
  intros Hi. case_decide as E.
  - subst i. by rewrite Nat.mod_small by lia.
  - replace (i + n - 1)%nat with (i - 1 + 1 * n)%nat by lia. rewrite Nat.Div0.mod_add. apply Nat.mod_small. lia.
Qed.
Lemma ring_succ n i : (i < n)%nat -> ((i + 1) mod n = if decide (i = n - 1) then 0 else i + 1)%nat.
Proof.
  intros Hi. case_decide as E.
  - replace (i + 1)%nat with n by lia. apply Nat.Div0.mod_same.
  - apply Nat.mod_small. lia.
Qed.

Lemma ring_link_ok n i p j : (i < n)%nat -> ring_link n i p = Some j ->
  (j < n)%nat /\ (p < 3)%nat /\ p <> LOCAL /\ ring_link n j (m_opposite_dir p) = Some i.
Proof.
  intros Hi. unfold ring_link, LEFT, RIGHT, LOCAL. destruct (decide (p = 1%nat)) as [-> | H1].
  - simpl. rewrite ring_pred by done. intros [= <-]. case_decide as E0;
      (split_and!; [lia | lia | done |]); rewrite ring_succ by lia; case_decide; f_equal; lia.
  - rewrite bool_decide_eq_false_2 by done. case_bool_decide as H2; [subst p | done]. simpl.
    rewrite ring_succ by done. intros [= <-]. case_decide as E0;
      (split_and!; [lia | lia | done |]); rewrite ring_pred by lia; case_decide; f_equal; lia.
Qed.

Lemma ring_dir_links n i dst : is_Some (ring_link n i (ring_dir n i dst)) /\ (ring_dir n i dst < 3)%nat.
Proof. unfold ring_dir. destruct (Nat.ltb dst i), (_ <? _); (split; [by eexists | unfold LEFT, RIGHT; lia]). Qed.

Lemma ring_rows_ok V n i d rows : leads (ring n V) i d -> (d < 3)%nat ->
  rows_ok (ring n V) i rows -> length rows = 2%nat ->
  let rows' := <[0%nat := one_hot 3 d]> rows in
  rows_ok (ring n V) i rows' /\ length rows' = 2%nat /\ exists p, rows' !! 0%nat ≫= (.!! p) = Some true.
Proof.
  intros Hl Hd Hr Hlen rows'. unfold rows'. split_and!.
  - intros row p. destruct row as [| row].
    + rewrite list_lookup_insert_eq by lia. simpl. by intros [-> _]%one_hot_true.
    + rewrite list_lookup_insert_ne by done. apply (Hr (S row)).
  - by rewrite length_insert.
  - exists d. rewrite list_lookup_insert_eq by lia. simpl. by apply one_hot_true.
Qed.

#[export] Instance ring_topology_ok k n : (0 < n)%nat -> TopologyOk k (ring n (KNOB_NUM_VC k)) n.
Proof.
  intros Hn. split; simpl.
  - intros i p j Hi Hl. by apply ring_link_ok.
  - intros i f rows rows' f' Hi [Hd Hdir] Hr Hlen. unfold ring_route. case_bool_decide as E.
    { intros [= <- <-]. destruct (ring_rows_ok (KNOB_NUM_VC k) n i LOCAL rows) as (? & ? & ?);
        [by left | unfold LOCAL; lia | done | done |]. by split_and!. }
    destruct (m_dir f) as [d |] eqn:Ed; intros [= <- <-].
    + destruct (Hdir d i eq_refl Hi) as [j Hj]. destruct (ring_link_ok n i d j Hi Hj) as (_ & Hd3 & _).
      destruct (ring_rows_ok (KNOB_NUM_VC k) n i d rows) as (? & ? & ?); [right; by eexists | done | done | done |].
      split_and!; try done. split; [done |]. by rewrite Ed.
    + destruct (ring_dir_links n i (m_dst f)) as [Hj Hd3].
      destruct (ring_rows_ok (KNOB_NUM_VC k) n i _ rows (or_intror Hj) Hd3 Hr Hlen) as (? & ? & ?).
      split_and!; try done. split; [done |]. simpl. intros d i' [= <-] Hi'.
      unfold ring_dir. destruct (Nat.ltb _ _), (_ <? _); by eexists.
  - by exists 0%nat.
  - lia.
Qed.

(** Coordinates in the mesh. *)
Lemma coords w i : (i < w * w)%nat ->
  exists x y, i = (w * y + x)%nat /\ (x < w)%nat /\ (y < w)%nat /\ (i mod w = x)%nat /\ (i / w = y)%nat.
Proof.
  intros Hi. assert (Hw : w <> 0%nat) by lia. exists (i mod w)%nat, (i / w)%nat.
  split_and!; try done; [by apply Nat.div_mod | by apply Nat.mod_upper_bound | by apply Nat.Div0.div_lt_upper_bound].
Qed.
Lemma coords_of w x y : (x < w)%nat -> ((w * y + x) mod w = x /\ (w * y + x) / w = y)%nat.
Proof. intros Hx. split; symmetry; [by eapply Nat.mod_unique | by eapply Nat.div_unique]. Qed.

(** A link leads to the neighbour in its direction. *)
Lemma mesh_link_coords w p x y j : (x < w)%nat -> (y < w)%nat ->
  mesh_link w (w * y + x) p = Some j <->
  (p = UP /\ 0 < y /\ j = w * (y - 1) + x \/ p = DOWN /\ y < w - 1 /\ j = w * (y + 1) + x \/
   p = LEFT /\ 0 < x /\ j = w * y + (x - 1) \/ p = RIGHT /\ x < w - 1 /\ j = w * y + (x + 1))%nat.
Proof.
  intros Hx Hy. unfold mesh_link, UP, DOWN, LEFT, RIGHT. destruct (coords_of w x y Hx) as [-> ->].
  destruct (decide (p = 3)%nat) as [-> |]; [| destruct (decide (p = 4)%nat) as [-> |];
    [| destruct (decide (p = 1)%nat) as [-> |]; [| destruct (decide (p = 2)%nat) as [-> |]]]]; simpl.
  - destruct (Nat.ltb_spec 0 y); split; [intros [= <-]; left; nia | intros; f_equal; nia | done | lia].
  - destruct (Nat.ltb_spec y (w - 1)); split; [intros [= <-]; right; left; nia | intros; f_equal; nia | done | lia].
  - destruct (Nat.eqb_spec x 0); split; [done | lia | intros [= <-]; do 2 right; left; lia | intros; f_equal; lia].
  - destruct (Nat.eqb_spec x (w - 1)); split; [done | lia | intros [= <-]; do 3 right; lia | intros; f_equal; lia].
  - rewrite !bool_decide_eq_false_2 by done. split; [done | lia].
Qed.

Lemma mesh_link_ok w i p j : (i < w * w)%nat -> mesh_link w i p = Some j ->
  (j < w * w)%nat /\ (p < 5)%nat /\ p <> LOCAL /\ mesh_link w j (m_opposite_dir p) = Some i.
Proof.
  intros Hi Hl. destruct (coords w i Hi) as (x & y & -> & Hx & Hy & _ & _).
  apply mesh_link_coords in Hl; [| done | done]. unfold UP, DOWN, LEFT, RIGHT, LOCAL in *.
  destruct Hl as [(-> & Hp & ->) | [(-> & Hp & ->) | [(-> & Hp & ->) | (-> & Hp & ->)]]];
    (split_and!; [nia | lia | done |]); apply mesh_link_coords; try lia; unfold UP, DOWN, LEFT, RIGHT; simpl.
  - right. left. split_and!; [done | lia | f_equal; f_equal; lia].
  - left. split_and!; [done | lia | f_equal; f_equal; lia].
  - do 3 right. split_and!; [done | lia | lia].
  - do 2 right. left. split_and!; [done | lia | lia].
Qed.

(** Hops between two routers. *)
Definition mesh_dist (w i j : nat) : nat :=
  (Nat.max (i mod w) (j mod w) - Nat.min (i mod w) (j mod w) + (Nat.max (i / w) (j / w) - Nat.min (i / w) (j / w)))%nat.

(** A permitted direction has a link, and the link gets closer. *)
Lemma mesh_adaptive_closer w i dst p : (i < w * w)%nat -> (dst < w * w)%nat -> mesh_adaptive w i dst p = true ->
  exists j, mesh_link w i p = Some j /\ (p < 5)%nat /\ mesh_dist w i dst = S (mesh_dist w j dst).
Proof.
  intros Hi Hd Ha. destruct (coords w i Hi) as (x & y & -> & Hx & Hy & Ex & Ey).
  destruct (coords w dst Hd) as (x' & y' & -> & Hx' & Hy' & Ex' & Ey').
  assert (Hj : exists a b, mesh_link w (w * y + x) p = Some (w * b + a)%nat /\ (a < w)%nat /\ (p < 5)%nat /\
    (Nat.max x x' - Nat.min x x' + (Nat.max y y' - Nat.min y y') =
     S (Nat.max a x' - Nat.min a x' + (Nat.max b y' - Nat.min b y')))%nat).
  { unfold mesh_adaptive in Ha. rewrite Ex, Ey, Ex', Ey' in Ha.
    repeat case_bool_decide; subst; try done; apply Nat.ltb_lt in Ha.
    - exists (x - 1)%nat, y. rewrite mesh_link_coords by done.
      split; [do 2 right; left; split_and!; [done | lia | done] | unfold LEFT; lia].
    - exists (x + 1)%nat, y. rewrite mesh_link_coords by done.
      split; [do 3 right; split_and!; [done | lia | done] | unfold RIGHT; lia].
    - exists x, (y - 1)%nat. rewrite mesh_link_coords by done.
      split; [left; split_and!; [done | lia | done] | unfold UP; lia].
    - exists x, (y + 1)%nat. rewrite mesh_link_coords by done.
      split; [right; left; split_and!; [done | lia | done] | unfold DOWN; lia]. }
  destruct Hj as (a & b & Hl & Hlt & Hp & Hdist). exists (w * b + a)%nat. split_and!; [done | done |].
  unfold mesh_dist. destruct (coords_of w a b Hlt) as [-> ->]. by rewrite Ex, Ey, Ex', Ey'.
Qed.

Lemma mesh_escape_adaptive w i dst p : mesh_escape w i dst p = true -> mesh_adaptive w i dst p = true.
Proof.
  unfold mesh_escape, mesh_adaptive. repeat case_bool_decide; try done; intros E; by apply andb_true_iff in E as [_ ?].
Qed.

(** Escape routing always permits a direction, and only one. *)
Lemma mesh_escape_unique w i dst : (i < w * w)%nat -> (dst < w * w)%nat -> i <> dst ->
  exists p, forall q, mesh_escape w i dst q = true <-> q = p.
Proof.
  intros Hi Hd Hne. destruct (coords w i Hi) as (x & y & -> & Hx & Hy & Ex & Ey).
  destruct (coords w dst Hd) as (x' & y' & -> & Hx' & Hy' & Ex' & Ey').
  exists (if decide (x' < x)%nat then LEFT else if decide (x < x')%nat then RIGHT
          else if decide (y' < y)%nat then UP else DOWN).
  intros q. unfold mesh_escape. rewrite Ex, Ey, Ex', Ey'. unfold LEFT, RIGHT, UP, DOWN.
  assert (Hy0 : x = x' -> y <> y') by (intros -> ->; done).
  repeat case_bool_decide; repeat case_decide; subst; rewrite ?andb_true_iff, ?Nat.ltb_lt, ?Nat.eqb_eq; lia.
Qed.

#[export] Instance mesh_topology_ok k w : (0 < w)%nat -> (2 <= KNOB_NUM_VC k)%nat ->
  TopologyOk k (mesh w (KNOB_NUM_VC k)) (w * w).
Proof.
  intros Hw HV. split; cbn [mesh t_ports t_link t_route t_rc_index].
  - intros i p j Hi Hl. by apply mesh_link_ok.
  - intros i f rows rows' f' Hi [Hd Hdir] _ _. unfold mesh_route. case_bool_decide as E; intros [<- <-]%pair_eq.
    + split_and!; try done.
      * intros [| [| row]] p; [| | done]; intros [-> _]%one_hot_true; by left.
      * exists LOCAL. apply one_hot_true. split; [done | unfold LOCAL; lia].
    + split_and!; try done.
      * intros [| [| row]] p; [| | done]; intros [Hp _]%tabulate_true; right; [| apply mesh_escape_adaptive in Hp];
          destruct (mesh_adaptive_closer w i (m_dst f) p Hi Hd Hp) as (j & Hj & _); by exists j.
      * destruct (mesh_escape_unique w i (m_dst f) Hi Hd) as [p Hp]; [congruence |]. exists p.
        assert (Ha : mesh_adaptive w i (m_dst f) p = true) by (by apply mesh_escape_adaptive, Hp).
        apply tabulate_true. split; [done |]. by destruct (mesh_adaptive_closer w i _ p Hi Hd Ha) as (? & _ & ? & _).
  - intros ovc _. rewrite (proj2 (Nat.eqb_neq _ _)) by lia. by eexists.
  - lia.
Qed.

(** ** Routes *)

(** One hop of a flit: its route is computed, an allocator picks any permitted
    port of any row it uses, and the flit crosses that link. *)
Definition route_step (k : noc_knobs) (t : topology) (x y : nat * flit_c) : Prop :=
  exists ovc row rows rows' p, (ovc < KNOB_NUM_VC k)%nat /\ t_rc_index t ovc = Done row /\ length rows = 2%nat /\
    t_route t x.1 x.2 rows = (rows', y.2) /\ rows' !! row ≫= (.!! p) = Some true /\ t_link t x.1 p = Some y.1.

(** Hops to the left and to the right on the ring. *)
Definition ring_left (n i dst : nat) : nat := if Nat.ltb i dst then i + n - dst else i - dst.
Definition ring_right (n i dst : nat) : nat := if Nat.ltb dst i then dst + n - i else dst - i.
Definition ring_dist (n i dst : nat) : nat := Nat.min (ring_left n i dst) (ring_right n i dst).

(** A direction once chosen is a shortest one. *)
Definition ring_heading (n i : nat) (f : flit_c) : Prop :=
  match m_dir f with
  | None => True
  | Some d => i <> m_dst f ->
      (d = LEFT /\ ring_left n i (m_dst f) <= ring_right n i (m_dst f) \/
       d = RIGHT /\ ring_right n i (m_dst f) <= ring_left n i (m_dst f))%nat
  end.

Lemma ring_dir_shortest n i dst : (i < n)%nat -> (dst < n)%nat -> i <> dst ->
  (ring_dir n i dst = LEFT /\ ring_left n i dst <= ring_right n i dst \/
   ring_dir n i dst = RIGHT /\ ring_right n i dst <= ring_left n i dst)%nat.
Proof.
  intros Hi Hd Hne. unfold ring_dir, ring_left, ring_right.
  destruct (Nat.ltb_spec dst i), (Nat.ltb_spec i dst); try lia; destruct (_ <? _) eqn:E;
    [apply Z.ltb_lt in E; left | apply Z.ltb_ge in E; right | apply Z.ltb_lt in E; left | apply Z.ltb_ge in E; right];
    (split; [done | lia]).
Qed.

Lemma ring_hop n i f d j : (i < n)%nat -> (m_dst f < n)%nat -> i <> m_dst f -> m_dir f = Some d ->
  ring_heading n i f -> ring_link n i d = Some j ->
  ring_heading n j f /\ ring_dist n i (m_dst f) = S (ring_dist n j (m_dst f)).
Proof.
  intros Hi Hd Hne Ed Hh Hl. unfold ring_heading in *. rewrite Ed in *.
  destruct (Hh Hne) as [[-> Hle] | [-> Hle]]; cbn in Hl; injection Hl as <-;
    rewrite ?ring_pred, ?ring_succ by done; unfold ring_dist, ring_left, ring_right in *;
    case_decide; nat_ltb_cases; (split; [intros | lia]);
    first [left; split; [done | lia] | right; split; [done | lia] | lia].
Qed.

Lemma ring_step_closer k n i f j f' : (i < n)%nat -> (m_dst f < n)%nat -> ring_heading n i f ->
  route_step k (ring n (KNOB_NUM_VC k)) (i, f) (j, f') ->
  (j < n)%nat /\ m_dst f' = m_dst f /\ ring_heading n j f' /\ ring_dist n i (m_dst f) = S (ring_dist n j (m_dst f)).
Proof.
  intros Hi Hd Hh (ovc & row & rows & rows' & p & _ & [= <-] & Hlen & Hr & Hp & Hl). cbn in Hr, Hl. unfold ring_route in Hr.
  destruct (ring_link_ok n i p j Hi Hl) as (Hj & _ & Hnl & _).
  case_bool_decide as E.
  { apply pair_eq in Hr as [<- <-]. rewrite list_lookup_insert_eq in Hp by lia. by apply one_hot_true in Hp as [-> _]. }
  destruct (m_dir f) as [d |] eqn:Ed; apply pair_eq in Hr as [<- <-]; rewrite list_lookup_insert_eq in Hp by lia;
    apply one_hot_true in Hp as [-> _].
  - destruct (ring_hop n i f d j Hi Hd) as [? ?]; done.
  - set (d := ring_dir n i (m_dst f)) in *. destruct (ring_hop n i (with_dir d f) d j Hi Hd) as [? ?]; try done.
    unfold ring_heading. simpl. intros Hne. by apply ring_dir_shortest.
Qed.

Lemma ring_steps k n m : forall i f j f', (i < n)%nat -> (m_dst f < n)%nat -> ring_heading n i f ->
  nsteps (route_step k (ring n (KNOB_NUM_VC k))) m (i, f) (j, f') ->
  (j < n)%nat /\ m_dst f' = m_dst f /\ ring_heading n j f' /\ ring_dist n i (m_dst f) = (m + ring_dist n j (m_dst f))%nat.
Proof.
  induction m as [| m IH]; intros i f j f' Hi Hd Hh Hs; inversion Hs as [| ? ? [j1 f1] ? H1 H2]; subst; [done |].
  destruct (ring_step_closer k n i f j1 f1 Hi Hd Hh H1) as (Hj1 & Ed & Hh1 & Hdist).
  rewrite <- Ed in *. destruct (IH j1 f1 j f' Hj1 Hd Hh1 H2) as (Hj & Ed' & Hh' & Hdist').
  rewrite Hdist, Hdist'. by split_and!.
Qed.

(** A step is possible everywhere but at the destination. *)
Lemma route_step_exists k t n i f : TopologyOk k t n -> (0 < KNOB_NUM_VC k)%nat -> t_rc_index t 0%nat = Done 0%nat ->
  (i < n)%nat -> flit_ok t n f ->
  (exists y, route_step k t (i, f) y) \/
  exists rows' f', t_route t i f (replicate 2 []) = (rows', f') /\ rows' !! 0%nat ≫= (.!! LOCAL) = Some true.
Proof.
  intros Ht HV H0 Hi Hf. destruct (t_route t i f (replicate 2 [])) as [rows' f'] eqn:Er.
  assert (Hr0 : rows_ok t i (replicate 2 [])) by (by intros [| [| row]] p).
  destruct (tp_route _ _ _ i f _ _ _ Hi Hf Hr0 eq_refl Er) as (Hok & _ & (p & Hp) & _).
  destruct (Hok 0%nat p Hp) as [-> | [j Hj]]; [right; by exists rows', f' |].
  left. exists (j, f'), 0%nat, 0%nat, (replicate 2 []), rows', p. done.
Qed.

Lemma mesh_steps k w m : forall i f j f', (2 <= KNOB_NUM_VC k)%nat -> (i < w * w)%nat -> (m_dst f < w * w)%nat ->
  nsteps (route_step k (mesh w (KNOB_NUM_VC k))) m (i, f) (j, f') ->
  (j < w * w)%nat /\ f' = f /\ (m + mesh_dist w j (m_dst f) = mesh_dist w i (m_dst f))%nat.
Proof.
  induction m as [| m IH]; intros i f j f' HV Hi Hd Hs; inversion Hs as [| ? ? [j1 f1] ? H1 H2]; subst; [done |].
  destruct H1 as (ovc & row & rows & rows' & p & _ & _ & _ & Hr & Hp & Hl). cbn [mesh t_route t_link fst snd] in Hr, Hl.
  destruct (mesh_link_ok w i p j1 Hi Hl) as (Hj1 & _ & Hnl & _). unfold mesh_route in Hr.
  case_bool_decide as E; apply pair_eq in Hr as [<- <-].
  { by destruct row as [| [| row]]; [apply one_hot_true in Hp as [-> _] | apply one_hot_true in Hp as [-> _] |]. }
  assert (Ha : mesh_adaptive w i (m_dst f) p = true).
  { destruct row as [| [| row]]; [| | done]; apply tabulate_true in Hp as [Hp _]; [done | by apply mesh_escape_adaptive]. }
  destruct (mesh_adaptive_closer w i _ p Hi Hd Ha) as (j2 & Hl2 & _ & Hdist). rewrite Hl in Hl2. injection Hl2 as <-.
  destruct (IH j1 f j f' HV Hj1 Hd H2) as (Hj & -> & Hdist'). split_and!; [done | done | lia].
Qed.

(** C33: On the ring a flit takes a shortest way: after any number of hops from
    its source, along whatever ports the allocators pick, the hops so far plus
    the distance left are the distance at the start, and unless it has arrived
    it can make another hop. *)
Theorem ring_routes_shortest k n m i f j f' :
  (2 <= KNOB_NUM_VC k)%nat -> (i < n)%nat -> (m_dst f < n)%nat -> m_dir f = None ->
  nsteps (route_step k (ring n (KNOB_NUM_VC k))) m (i, f) (j, f') ->
  (m + ring_dist n j (m_dst f) = ring_dist n i (m_dst f))%nat /\
  (j <> m_dst f -> exists y, route_step k (ring n (KNOB_NUM_VC k)) (j, f') y).
Proof.
  intros HV Hi Hd Hdir Hs.
  destruct (ring_steps k n m i f j f' Hi Hd) as (Hj & Ed & Hh & Hdist); [unfold ring_heading; by rewrite Hdir | done |].
  split; [done |]. intros Hne. rewrite <- Ed in *.
  destruct (route_step_exists k (ring n (KNOB_NUM_VC k)) n j f') as [? | (rows' & f2 & Hr & Hl)]; try done.
  - apply ring_topology_ok. lia.
  - lia.
  - split; [done |]. intros d i' Edir Hi'. unfold ring_heading in Hh. rewrite Edir in Hh.
    destruct (Hh Hne) as [[-> _] | [-> _]]; by eexists.
  - exfalso. cbn in Hr. unfold ring_route in Hr. rewrite bool_decide_eq_false_2 in Hr by congruence.
    unfold ring_heading in Hh. destruct (m_dir f') as [d |] eqn:Edir; apply pair_eq in Hr as [<- _].
    + destruct (Hh Hne) as [[-> _] | [-> _]]; done.
    + destruct (ring_dir_shortest n j (m_dst f')) as [[E _] | [E _]]; try done; by rewrite E in Hl.
Qed.

(** A cache three hops to the left of its memory controller on a ring of eight. *)
Definition noc_demo_knobs (ideal : bool) : noc_knobs := mk_noc_knobs 4 1 32 true ideal 10.
Definition demo_packet : packet := mk_packet 7 1 6 NOC_NEW_WITH_DATA 64.
Definition demo_flit : flit_c := mk_flit 1 6 None true false demo_packet IB 0 0 0.

Lemma ring_routes_shortest_witness :
  (0 + ring_dist 8 1 6 = 3)%nat /\
  (1%nat <> 6%nat -> exists y, route_step (noc_demo_knobs false) (ring 8 4) (1%nat, demo_flit) y).
Proof.
  apply (ring_routes_shortest (noc_demo_knobs false) 8 0 1 demo_flit 1 demo_flit);
    [simpl; lia | lia | simpl; lia | reflexivity | constructor].
Defined.

(** C35: On the mesh every hop along a permitted port, adaptive or escape, gets
    one closer to the destination, which is reached after exactly the distance
    between source and destination; unless it has arrived a flit can make
    another hop, and exactly one direction is permitted on the escape channel. *)
Theorem mesh_routes_minimal k w m i f j f' :
  (2 <= KNOB_NUM_VC k)%nat -> (i < w * w)%nat -> (m_dst f < w * w)%nat -> m_dir f = None ->
  nsteps (route_step k (mesh w (KNOB_NUM_VC k))) m (i, f) (j, f') ->
  (m + mesh_dist w j (m_dst f) = mesh_dist w i (m_dst f))%nat /\
  (j <> m_dst f -> (exists y, route_step k (mesh w (KNOB_NUM_VC k)) (j, f') y) /\
    exists p, forall q, mesh_escape w j (m_dst f) q = true <-> q = p).
Proof.
  intros HV Hi Hd Hdir Hs.
  destruct (mesh_steps k w m i f j f' HV Hi Hd Hs) as (Hj & -> & Hdist). split; [done |]. intros Hne.
  split; [| by apply mesh_escape_unique].
  destruct (route_step_exists k (mesh w (KNOB_NUM_VC k)) (w * w) j f) as [? | (rows' & f2 & Hr & Hl)]; try done.
  - apply mesh_topology_ok; [| done]. destruct w; lia.
  - lia.
  - cbn. rewrite (proj2 (Nat.eqb_neq _ _)) by lia. by rewrite Nat.Div0.div_0_l.
  - split; [done | by rewrite Hdir].
  - cbn [mesh t_route] in Hr. unfold mesh_route in Hr. rewrite bool_decide_eq_false_2 in Hr by congruence.
    apply pair_eq in Hr as [<- _]. by apply (tabulate_true (mesh_adaptive w j (m_dst f)) 5) in Hl as [? _].
Qed.

Lemma mesh_routes_minimal_witness :
  (0 + mesh_dist 3 1 6 = 3)%nat /\
  (1%nat <> 6%nat -> (exists y, route_step (noc_demo_knobs false) (mesh 3 4) (1%nat, demo_flit) y) /\
    exists p, forall q, mesh_escape 3 1 6 q = true <-> q = p).
Proof.
  apply (mesh_routes_minimal (noc_demo_knobs false) 3 0 1 demo_flit 1 demo_flit);
    [simpl; lia | lia | simpl; lia | reflexivity | constructor].
Defined.

(** ** The whole network *)

(** The maps and sizes [init] leaves. *)
Lemma CREATE_ROUTER_spec index level offset m nr :
  let '(m', nr') := CREATE_ROUTER index level offset (m, nr) in
  nr' = (nr + index)%nat /\
  (forall ii, (ii < index)%nat -> m' !! (level_no level * 1000 + Z.of_nat ii + Z.of_nat offset) = Some (nr + ii)%nat) /\
  forall key, (forall ii, (ii < index)%nat -> key <> level_no level * 1000 + Z.of_nat ii + Z.of_nat offset) ->
    m' !! key = m !! key.
Proof.
  unfold CREATE_ROUTER. induction index as [| c IH]; [split_and!; [simpl; lia | lia | done] |].
  rewrite seq_S, foldl_app. destruct (foldl _ _ (seq 0 c)) as [m1 nr1]. destruct IH as (-> & Hin & Hout). simpl.
  split_and!; [lia | |].
  - intros ii Hii. destruct (decide (ii = c)) as [-> |]; [by rewrite lookup_insert_eq |].
    rewrite lookup_insert_ne by lia. apply Hin. lia.
  - intros key Hkey. rewrite lookup_insert_ne by (intros E; apply (Hkey c); [lia | done]).
    apply Hout. intros ii Hii. apply Hkey. lia.
Qed.

Definition map_below (st : gmap Z nat * nat) : Prop := forall key i, st.1 !! key = Some i -> (i < st.2)%nat.

Lemma CREATE_ROUTER_below index level offset st : map_below st -> map_below (CREATE_ROUTER index level offset st).
Proof.
  destruct st as [m nr]. intros Hm. unfold CREATE_ROUTER. induction index as [| c IH]; [done |].
  rewrite seq_S, foldl_app. destruct (foldl _ _ (seq 0 c)) as [m1 nr1]. simpl.
  intros key i Hi. simpl in *. apply lookup_insert_Some in Hi as [[_ <-] | [_ Hi]]; [lia |].
  specialize (IH key i Hi). simpl in IH. lia.
Qed.

Lemma ring_init_below cpu gpu l3 llc mc : map_below (ring_init cpu gpu l3 llc mc).
Proof. repeat apply CREATE_ROUTER_below. done. Qed.
Lemma mesh_init_below cpu gpu l3 llc mc :
  let '(m, nr, w) := mesh_init cpu gpu l3 llc mc in (forall key i, m !! key = Some i -> (i < nr)%nat) /\ nr = (w * w)%nat.
Proof.
  unfold mesh_init. set (st := CREATE_ROUTER gpu _ _ _).
  assert (Hst : map_below st) by (repeat apply CREATE_ROUTER_below; done). destruct st as [m nr].
  destruct (Nat.eqb_spec (Nat.sqrt nr * Nat.sqrt nr) nr) as [E | E]; [by split |].
  split; [| done]. intros key i Hi. specialize (Hst key i Hi). simpl in Hst.
  pose proof (Nat.sqrt_spec nr). nia.
Qed.

(** Every endpoint of the ring has its own router: cores first, then the L3
    caches, the last-level caches and the memory controllers, as long as a level
    has at most 1000 of them. *)
Theorem ring_endpoints cpu gpu l3 llc mc :
  (cpu + gpu <= 1000)%nat -> (l3 <= 1000)%nat -> (llc <= 1000)%nat -> (mc <= 1000)%nat ->
  let '(m, nr) := ring_init cpu gpu l3 llc mc in
  nr = (cpu + gpu + l3 + llc + mc)%nat /\
  (forall i, (i < cpu + gpu)%nat -> router_of m (level_no MEM_L2) (Z.of_nat i) = i) /\
  (forall i, (i < l3)%nat -> router_of m (level_no MEM_L3) (Z.of_nat i) = (cpu + gpu + i)%nat) /\
  (forall i, (i < llc)%nat -> router_of m (level_no MEM_LLC) (Z.of_nat i) = (cpu + gpu + l3 + i)%nat) /\
  (forall i, (i < mc)%nat -> router_of m (level_no MEM_MC) (Z.of_nat i) = (cpu + gpu + l3 + llc + i)%nat).
Proof.
  intros H1 H2 H3 H4. unfold ring_init, router_of, router_map, endpoint.
  pose proof (CREATE_ROUTER_spec cpu MEM_L2 0 ∅ 0) as Sc. destruct (CREATE_ROUTER cpu _ _ _) as [m1 n1].
  pose proof (CREATE_ROUTER_spec gpu MEM_L2 cpu m1 n1) as Sg. destruct (CREATE_ROUTER gpu _ _ _) as [m2 n2].
  pose proof (CREATE_ROUTER_spec l3 MEM_L3 0 m2 n2) as S3. destruct (CREATE_ROUTER l3 _ _ _) as [m3 n3].
  pose proof (CREATE_ROUTER_spec llc MEM_LLC 0 m3 n3) as Sl. destruct (CREATE_ROUTER llc _ _ _) as [m4 n4].
  pose proof (CREATE_ROUTER_spec mc MEM_MC 0 m4 n4) as Sm. destruct (CREATE_ROUTER mc _ _ _) as [m5 n5].
  destruct Sc as (-> & Ic & Oc), Sg as (-> & Ig & Og), S3 as (-> & I3 & O3), Sl as (-> & Il & Ol), Sm as (-> & Im & Om).
  cbn [level_no] in *. split; [lia |]. split_and!; intros i Hi.
  - rewrite Om, Ol, O3 by (intros; lia). destruct (decide (i < cpu)%nat).
    + rewrite Og by (intros; lia). specialize (Ic i ltac:(lia)). rewrite Z.add_0_r in Ic. by rewrite Ic.
    + specialize (Ig (i - cpu)%nat ltac:(lia)). replace (2 * 1000 + Z.of_nat i) with
        (2 * 1000 + Z.of_nat (i - cpu) + Z.of_nat cpu) by lia. rewrite Ig. simpl. lia.
  - rewrite Om, Ol by (intros; lia). specialize (I3 i Hi). rewrite Z.add_0_r in I3. rewrite I3. simpl. lia.
  - rewrite Om by (intros; lia). specialize (Il i Hi). rewrite Z.add_0_r in Il. rewrite Il. simpl. lia.
  - specialize (Im i Hi). rewrite Z.add_0_r in Im. rewrite Im. simpl. lia.
Qed.

Lemma ring_endpoints_witness :
  let '(m, nr) := ring_init 2 1 1 1 1 in
  nr = 6%nat /\ (forall i, (i < 3)%nat -> router_of m 2 (Z.of_nat i) = i) /\
  (forall i, (i < 1)%nat -> router_of m 3 (Z.of_nat i) = (3 + i)%nat) /\
  (forall i, (i < 1)%nat -> router_of m 4 (Z.of_nat i) = (4 + i)%nat) /\
  (forall i, (i < 1)%nat -> router_of m 5 (Z.of_nat i) = (5 + i)%nat).
Proof. apply (ring_endpoints 2 1 1 1 1); lia. Defined.

(** Accepted packets are the delivered ones and those inside, whatever is
    counted of them. *)
Definition packets_accounted (st : noc_run_state) : Prop :=
  forall h, sum_by (pk_wt h) (nr_sent st) = sum_by (pk_wt h) (nr_got st).*2 + population h (nr_net st).

Definition credits_exact (k : noc_knobs) (t : topology) (n : nat) (s : network_c) : Prop :=
  forall i p j v, (i < n)%nat -> (v < KNOB_NUM_VC k)%nat -> t_link t i p = Some j ->
  cred s i p v + ilen s j (m_opposite_dir p) v + pend s i p v = m_buffer_max_size /\
  0 <= cred s i p v /\ 0 <= ilen s j (m_opposite_dir p) v <= m_buffer_max_size.

(** C4: From its constructor and under any sequence of sends, receives and
    cycles, on any topology with symmetric links, no router ever faults (no
    assertion fails, no missing link or channel is used) and packets are neither
    lost nor duplicated: what was accepted is what was delivered plus what is
    still inside, each packet counted once. *)
Theorem noc_conserves_packets k t n `{!TopologyOk k t n} rm clocks ops :
  0 < KNOB_LINK_WIDTH k -> KNOB_OLDEST_FIRST k = true -> (0 < n)%nat ->
  (forall key i, rm !! key = Some i -> (i < n)%nat) -> Forall op_ok ops ->
  exists st, noc_run k t rm n ops (mk_noc_run (network_new k t n clocks) [] []) = Done st /\
    packets_accounted st.
Proof.
  intros Hw Hp Hn Hrm Hops.
  destruct (noc_run_ok k t n Hw Hp rm Hn Hrm ops _ (network_new_ok k t n Hn clocks) Hops) as (st & -> & Hst).
  exists st. split; [done | exact (ru_pop _ _ _ _ Hst)].
Qed.

Definition noc_demo_ops : list noc_op :=
  Send demo_packet 2 0 5 0 :: ((fun c => Cycle (Z.of_nat c) false) <$> seq 0 40).

Lemma noc_demo_ring : TopologyOk (noc_demo_knobs false) (ring 6 4) 6.
Proof. apply (ring_topology_ok (noc_demo_knobs false)). lia. Qed.

Lemma noc_demo_ops_ok : Forall op_ok noc_demo_ops.
Proof. constructor; [simpl; lia |]. apply Forall_fmap, Forall_true. done. Qed.

Lemma noc_conserves_packets_witness :
  exists st, noc_run (noc_demo_knobs false) (ring 6 4) (ring_init 2 1 1 1 1).1 6 noc_demo_ops
      (mk_noc_run (network_new (noc_demo_knobs false) (ring 6 4) 6 (fun _ => 0)) [] []) = Done st /\
    packets_accounted st.
Proof.
  pose proof noc_demo_ring.
  apply (noc_conserves_packets (noc_demo_knobs false) (ring 6 4) 6);
    [reflexivity | reflexivity | lia | apply (ring_init_below 2 1 1 1 1) | apply noc_demo_ops_ok].
Defined.

(** C12: Credits are exact when KNOB_IDEAL_NOC is off (the ideal network
    hands flits over without credits), arbitration is oldest-first and links
    have a positive width: at any time, for every link and virtual channel,
    the credits the sender holds, the flits in the receiver's buffer and the
    credits on their way back add up to the size of the buffer. So a buffer
    fed by a link never holds more than ten flits. *)
Theorem noc_credit_flow k t n `{!TopologyOk k t n} rm clocks ops :
  0 < KNOB_LINK_WIDTH k -> KNOB_OLDEST_FIRST k = true -> KNOB_IDEAL_NOC k = false -> (0 < n)%nat ->
  (forall key i, rm !! key = Some i -> (i < n)%nat) -> Forall op_ok ops ->
  exists st, noc_run k t rm n ops (mk_noc_run (network_new k t n clocks) [] []) = Done st /\
    credits_exact k t n (nr_net st).
Proof.
  intros Hw Hp Hid Hn Hrm Hops.
  destruct (noc_run_ok k t n Hw Hp rm Hn Hrm ops _ (network_new_ok k t n Hn clocks) Hops) as (st & -> & Hst).
  exists st. split; [done |]. intros i p j v Hi Hv Hl. set (s := nr_net st). pose proof (ru_bal _ _ _ _ Hst Hid i p j v Hi Hv Hl) as Hb.
  assert (Hc : 0 <= cred s i p v).
  { unfold cred. destruct (outs s !! (i, p, v)) as [o |] eqn:E; [| done].
    by destruct (ok_ovc _ _ _ _ (ru_net _ _ _ _ Hst) _ _ _ _ E). }
  assert (Hq : 0 <= pend s i p v).
  { unfold pend. destruct (rts s !! i); simpl; [apply countb_nonneg | done]. }
  assert (0 <= ilen s j (m_opposite_dir p) v) by (unfold ilen; destruct (ins s !! _); simpl; lia).
  unfold s in *. lia.
Qed.

Lemma noc_credit_flow_witness :
  exists st, noc_run (noc_demo_knobs false) (ring 6 4) (ring_init 2 1 1 1 1).1 6 noc_demo_ops
      (mk_noc_run (network_new (noc_demo_knobs false) (ring 6 4) 6 (fun _ => 0)) [] []) = Done st /\
    credits_exact (noc_demo_knobs false) (ring 6 4) 6 (nr_net st).
Proof.
  pose proof noc_demo_ring.
  apply (noc_credit_flow (noc_demo_knobs false) (ring 6 4) 6);
    [reflexivity | reflexivity | reflexivity | lia | apply (ring_init_below 2 1 1 1 1) | apply noc_demo_ops_ok].
Defined.
