(* ===== verification/Memory.v ===== *)
(** * The memory hierarchy (memory.cc, memory.h)

    The data caches [dcu_c] of the levels L1, L2, L3 and LLC with their queues,
    and [memory_c] with the miss buffers of the cores. Requests are shared: they
    live in a store and queues, miss buffers and merge lists hold their
    addresses. The network is a parameter of a cycle (whether it accepts a
    packet, what it delivers); [outside] collects the requests it holds. *)

From S2P Require Import Prelude.
From S2P Require Import Utils.
From S2P Require Import Cache.
From S2P Require Import Rob.
From S2P Require Import Allocate.
From S2P Require Import Dram.
From S2P Require Import Noc.
Import Utils.Bits.
Import Allocate.Port.

(** Levels are numbered as in [MEMORY_TYPE]. *)
Definition L1 : nat := 1.
Definition L2 : nat := 2.
Definition L3 : nat := 3.
Definition LLC : nat := 4.
Definition MC : nat := 5.

(** ** Requests *)

Record dcache_data_s := mk_ddata {
  dd_dirty : bool; dd_fetch_cycle : Z; dd_core_id : nat; dd_pc : Z; dd_tid : Z
}.
Definition dd_zero : dcache_data_s := mk_ddata false 0 0 0 0.

Inductive qkind := QIn | QWb | QFill | QOut.
#[export] Instance qkind_eq_dec : EqDecision qkind.
Proof. solve_decision. Defined.

#[export] Instance Mem_Req_State_eq_dec : EqDecision Mem_Req_State.
Proof. solve_decision. Defined.

(** A queue: level, cache and which of its four queues. *)
Abbreviation qid := (nat * nat * qkind)%type.

(** The functions [m_done_func] can hold: the two wrappers of the data cache, and
    those of the instruction and read-only caches, which serve merged requests
    and then ask their own cache. *)
Inductive done_func := dcache_fill_line_wrapper | dcache_write_ack_wrapper | other_fill_line_wrapper.

Record req_info := mk_info {
  i_id : Z; i_appl_id : Z; i_core_id : nat; i_thread_id : Z; i_type : Mem_Req_Type; i_with_data : bool;
  i_addr : Z; i_size : Z; i_pc : Z; i_acc : bool; i_cache_id : list nat; i_uop : option nat; i_in : Z;
  i_dirty : bool; i_bypass : bool; i_skip : bool; i_done_func : option done_func
}.

Record mem_req_s := mk_mreq {
  r_info : req_info;
  r_state : Mem_Req_State;
  r_priority : Z;
  r_rdy_cycle : Z;
  r_queue : option qid;
  r_done : bool;
  r_merged_req : option nat;
  r_msg_type : NOC_TYPE;
  r_merge : list nat
}.

Definition with_rstate (x : Mem_Req_State) (r : mem_req_s) : mem_req_s :=
  mk_mreq (r_info r) x (r_priority r) (r_rdy_cycle r) (r_queue r) (r_done r) (r_merged_req r) (r_msg_type r) (r_merge r).
Definition with_priority (x : Z) (r : mem_req_s) : mem_req_s :=
  mk_mreq (r_info r) (r_state r) x (r_rdy_cycle r) (r_queue r) (r_done r) (r_merged_req r) (r_msg_type r) (r_merge r).
Definition with_rrdy (x : Z) (r : mem_req_s) : mem_req_s :=
  mk_mreq (r_info r) (r_state r) (r_priority r) x (r_queue r) (r_done r) (r_merged_req r) (r_msg_type r) (r_merge r).
Definition with_queue (x : option qid) (r : mem_req_s) : mem_req_s :=
  mk_mreq (r_info r) (r_state r) (r_priority r) (r_rdy_cycle r) x (r_done r) (r_merged_req r) (r_msg_type r) (r_merge r).
Definition with_done (x : bool) (r : mem_req_s) : mem_req_s :=
  mk_mreq (r_info r) (r_state r) (r_priority r) (r_rdy_cycle r) (r_queue r) x (r_merged_req r) (r_msg_type r) (r_merge r).
Definition with_merged_req (x : option nat) (r : mem_req_s) : mem_req_s :=
  mk_mreq (r_info r) (r_state r) (r_priority r) (r_rdy_cycle r) (r_queue r) (r_done r) x (r_msg_type r) (r_merge r).
Definition with_msg_type (x : NOC_TYPE) (r : mem_req_s) : mem_req_s :=
  mk_mreq (r_info r) (r_state r) (r_priority r) (r_rdy_cycle r) (r_queue r) (r_done r) (r_merged_req r) x (r_merge r).
Definition with_merge (x : list nat) (r : mem_req_s) : mem_req_s :=
  mk_mreq (r_info r) (r_state r) (r_priority r) (r_rdy_cycle r) (r_queue r) (r_done r) (r_merged_req r) (r_msg_type r) x.

(** [mem_req_s::init]; the fields it leaves alone are kept. *)
Definition info_init (i : req_info) : req_info :=
  mk_info 0 0 0 0 MRT_IFETCH (i_with_data i) 0 0 0 false (replicate 6 0%nat) None 0 false false (i_skip i) None.
Definition req_init (r : mem_req_s) : mem_req_s :=
  mk_mreq (info_init (r_info r)) MEM_INV 0 0 None false None NOC_FILL (r_merge r).

(** [mem_req_s::mem_req_s]. *)
Definition blank_req : mem_req_s :=
  mk_mreq (mk_info 0 0 0 0 MRT_IFETCH false 0 0 0 false (replicate 6 0%nat) None 0 false false false None)
    MEM_INV 0 0 None false None NOC_FILL [].

Definition g_mem_priority (t : Mem_Req_Type) : Z :=
  match t with MRT_IFETCH | MRT_DFETCH | MRT_DSTORE => 10 | MRT_WB => 5 | _ => 0 end.

(** ** Caches and the memory system *)

Record dcu_cfg := mk_dcfg {
  m_disable : bool; m_next_id : Z; m_prev_id : Z; m_coupled_up : bool; m_coupled_down : bool; m_has_router : bool;
  m_done : bool; m_line_size : Z; m_banks : Z; m_latency : Z; m_acc_sim : bool; m_igpu_sim : bool
}.

Abbreviation dcache := (cache_c (D := dcache_data_s)).

Record dcu_c := mk_dcu {
  d_cfg : dcu_cfg;
  d_cache : option dcache;
  d_port : list port_c;
  d_in : list nat; d_wb : list nat; d_fill : list nat; d_out : list nat;
  d_retry : list nat;
  d_cycle : Z
}.

Definition q_get (q : qkind) (d : dcu_c) : list nat :=
  match q with QIn => d_in d | QWb => d_wb d | QFill => d_fill d | QOut => d_out d end.
Definition q_set (q : qkind) (l : list nat) (d : dcu_c) : dcu_c :=
  match q with
  | QIn => mk_dcu (d_cfg d) (d_cache d) (d_port d) l (d_wb d) (d_fill d) (d_out d) (d_retry d) (d_cycle d)
  | QWb => mk_dcu (d_cfg d) (d_cache d) (d_port d) (d_in d) l (d_fill d) (d_out d) (d_retry d) (d_cycle d)
  | QFill => mk_dcu (d_cfg d) (d_cache d) (d_port d) (d_in d) (d_wb d) l (d_out d) (d_retry d) (d_cycle d)
  | QOut => mk_dcu (d_cfg d) (d_cache d) (d_port d) (d_in d) (d_wb d) (d_fill d) l (d_retry d) (d_cycle d)
  end.
Definition with_dretry (l : list nat) (d : dcu_c) : dcu_c :=
  mk_dcu (d_cfg d) (d_cache d) (d_port d) (d_in d) (d_wb d) (d_fill d) (d_out d) l (d_cycle d).
Definition with_cache (c : dcache) (d : dcu_c) : dcu_c :=
  mk_dcu (d_cfg d) (Some c) (d_port d) (d_in d) (d_wb d) (d_fill d) (d_out d) (d_retry d) (d_cycle d).
Definition with_ports (l : list port_c) (d : dcu_c) : dcu_c :=
  mk_dcu (d_cfg d) (d_cache d) l (d_in d) (d_wb d) (d_fill d) (d_out d) (d_retry d) (d_cycle d).
Definition dcu_tick (d : dcu_c) : dcu_c :=
  mk_dcu (d_cfg d) (d_cache d) (d_port d) (d_in d) (d_wb d) (d_fill d) (d_out d) (d_retry d) (inc64 (d_cycle d)).

(** The fields of a micro-operation that completion writes. *)
Record muop := mk_muop {
  u_core_id : nat; u_done_cycle : Z; u_scheduled : bool; u_parent : option nat;
  u_num_child_uops : Z; u_num_child_uops_done : Z
}.

(** [refused] records that a cache turned down a request another cache or the
    network handed it; see [insert]. [ready_events] are the calls of
    [set_load_ready]. *)
Record memory_c := mk_memory {
  reqs : gmap nat mem_req_s;
  dcus : gmap (nat * nat) dcu_c;
  m_mshr : gmap nat (list nat);
  m_mshr_free_list : gmap nat (list nat);
  next_req : nat;
  m_unique_id : Z;
  mem_cycle : Z;
  m_stop_prefetch : Z;
  muops : gmap nat muop;
  ready_events : list nat;
  outside : list nat;
  refused : bool
}.

Definition with_reqs (x : gmap nat mem_req_s) (s : memory_c) : memory_c :=
  mk_memory x (dcus s) (m_mshr s) (m_mshr_free_list s) (next_req s) (m_unique_id s) (mem_cycle s) (m_stop_prefetch s)
    (muops s) (ready_events s) (outside s) (refused s).
Definition with_dcus (x : gmap (nat * nat) dcu_c) (s : memory_c) : memory_c :=
  mk_memory (reqs s) x (m_mshr s) (m_mshr_free_list s) (next_req s) (m_unique_id s) (mem_cycle s) (m_stop_prefetch s)
    (muops s) (ready_events s) (outside s) (refused s).
Definition with_mshr (x y : gmap nat (list nat)) (s : memory_c) : memory_c :=
  mk_memory (reqs s) (dcus s) x y (next_req s) (m_unique_id s) (mem_cycle s) (m_stop_prefetch s)
    (muops s) (ready_events s) (outside s) (refused s).
Definition with_ids (n : nat) (u : Z) (s : memory_c) : memory_c :=
  mk_memory (reqs s) (dcus s) (m_mshr s) (m_mshr_free_list s) n u (mem_cycle s) (m_stop_prefetch s)
    (muops s) (ready_events s) (outside s) (refused s).
Definition with_stop (x : Z) (s : memory_c) : memory_c :=
  mk_memory (reqs s) (dcus s) (m_mshr s) (m_mshr_free_list s) (next_req s) (m_unique_id s) (mem_cycle s) x
    (muops s) (ready_events s) (outside s) (refused s).
Definition with_uops (x : gmap nat muop) (e : list nat) (s : memory_c) : memory_c :=
  mk_memory (reqs s) (dcus s) (m_mshr s) (m_mshr_free_list s) (next_req s) (m_unique_id s) (mem_cycle s)
    (m_stop_prefetch s) x e (outside s) (refused s).
Definition with_outside (x : list nat) (s : memory_c) : memory_c :=
  mk_memory (reqs s) (dcus s) (m_mshr s) (m_mshr_free_list s) (next_req s) (m_unique_id s) (mem_cycle s)
    (m_stop_prefetch s) (muops s) (ready_events s) x (refused s).
Definition refuse (s : memory_c) : memory_c :=
  mk_memory (reqs s) (dcus s) (m_mshr s) (m_mshr_free_list s) (next_req s) (m_unique_id s) (mem_cycle s)
    (m_stop_prefetch s) (muops s) (ready_events s) (outside s) true.
Definition mem_tick (s : memory_c) : memory_c :=
  mk_memory (reqs s) (dcus s) (m_mshr s) (m_mshr_free_list s) (next_req s) (m_unique_id s) (inc64 (mem_cycle s))
    (m_stop_prefetch s) (muops s) (ready_events s) (outside s) (refused s).

Definition get_req (s : memory_c) (p : nat) : outcome mem_req_s := get_or UseAfterFree (reqs s !! p).
Definition put_req (p : nat) (r : mem_req_s) (s : memory_c) : memory_c := with_reqs (<[p := r]> (reqs s)) s.
Definition upd_req (f : mem_req_s -> mem_req_s) (p : nat) (s : memory_c) : outcome memory_c :=
  r ← get_req s p; mret (put_req p (f r) s).
Definition get_dcu (s : memory_c) (l i : nat) : outcome dcu_c := get_or NullDeref (dcus s !! (l, i)).
Definition put_dcu (l i : nat) (d : dcu_c) (s : memory_c) : memory_c := with_dcus (<[(l, i) := d]> (dcus s)) s.

(** [m_next] and [m_prev] of a level: the second level points past the third. *)
Definition next_level (l : nat) : nat := match l with 1 => L2 | _ => LLC end%nat.
Definition prev_level (l : nat) : nat := (l - 1)%nat.
Definition cid (r : mem_req_s) (l : nat) : nat := default 0%nat (i_cache_id (r_info r) !! l).

Record mem_knobs := mk_mem_knobs {
  KNOB_NUM_SIM_CORES : nat;
  KNOB_MEM_MSHR_SIZE : nat;
  KNOB_CC20 : bool;
  KNOB_HETERO_MEM_PRIORITY_CPU : bool;
  KNOB_HETERO_MEM_PRIORITY_GPU : bool;
  KNOB_USE_INCOMING_TID_CID_FOR_WB : bool;
  KNOB_FETCH_ONLY_LOAD_READY : bool;
  KNOB_NEW_NOC : bool;
  mem_cache_knobs : cache_knobs
}.

(** ** Placement of addresses *)

Record mem_geom := mk_mgeom {
  m_num_l3 : Z; m_num_llc : Z; m_num_mc : Z;
  m_l3_interleave_factor : Z; m_llc_interleave_factor : Z; m_dram_interleave_factor : Z;
  KNOB_DRAM_INTERLEAVE_FACTOR : Z
}.

Inductive memory_type :=
  llc_coupled_network | llc_decoupled_network | l2_coupled_local | no_cache | l2_decoupled_network
| l2_decoupled_local | igpu_network.

Definition BANK (a num int : Z) : Z := Z.land (Z.shiftr a (log2_int int)) (N_BIT_MASK (log2_int num)).

(** By mask for a power of two, by remainder otherwise. *)
Definition spread (a num int : Z) : Z :=
  if Z.land num (num - 1) =? 0 then BANK a num int else Z.shiftr a (log2_int int) mod num.

(** [set_cache_id] of the memory types; [old] are the ids the request has. *)
Definition set_cache_id (t : memory_type) (g : mem_geom) (core : nat) (addr : Z) (old : list nat) : list nat :=
  let l3 := Z.to_nat (BANK addr (m_num_l3 g) (m_l3_interleave_factor g)) in
  let llc := Z.to_nat (BANK addr (m_num_llc g) (m_llc_interleave_factor g)) in
  let mc := Z.to_nat (BANK addr (m_num_mc g) (KNOB_DRAM_INTERLEAVE_FACTOR g)) in
  let at0 := default 0%nat (old !! 0%nat) in
  match t with
  | l2_coupled_local | no_cache => [at0; core; core; default 0%nat (old !! L3); core; mc]
  | l2_decoupled_network =>
      [at0; core; core;
       Z.to_nat (spread addr (m_num_l3 g) (m_l3_interleave_factor g));
       Z.to_nat (spread addr (m_num_llc g) (m_llc_interleave_factor g));
       Z.to_nat (spread addr (m_num_mc g) (m_dram_interleave_factor g))]
  | _ => [at0; core; core; l3; llc; mc]
  end.

Definition with_ids_of (t : memory_type) (g : mem_geom) (i : req_info) : req_info :=
  mk_info (i_id i) (i_appl_id i) (i_core_id i) (i_thread_id i) (i_type i) (i_with_data i) (i_addr i) (i_size i) (i_pc i)
    (i_acc i) (set_cache_id t g (i_core_id i) (i_addr i) (i_cache_id i)) (i_uop i) (i_in i) (i_dirty i) (i_bypass i)
    (i_skip i) (i_done_func i).

(** What the rest of the simulator answers in a step: besides the configuration,
    the clocks, the application of a thread, and whether the instruction or
    read-only cache takes a line. *)
Class mem_env := mk_mem_env {
  env_knobs : mem_knobs;
  env_type : memory_type;
  env_geom : mem_geom;
  CYCLE : Z;
  core_cycle : nat -> Z;
  get_appl_id : nat -> Z -> Z;
  ext_fill : nat -> bool
}.

Section MEMORY.
Context {E : mem_env}.
Local Abbreviation k := env_knobs.
Local Abbreviation t := env_type.
Local Abbreviation g := env_geom.

(** ** Queues *)

Definition queue_size (q : qkind) : nat := match q with QIn | QFill => 1024 | QWb | QOut => 2048 end%nat.

(** [queue_c::sort_func]; queues hold live requests, see [placed]. *)
Definition sort_key (s : memory_c) (p : nat) : bool * Z :=
  match reqs s !! p with Some r => (i_acc (r_info r), r_priority r) | None => (false, 0) end.
Definition queue_lt (s : memory_c) (a b : nat) : bool :=
  let '(acc_a, pa) := sort_key s a in
  let '(acc_b, pb) := sort_key s b in
  if KNOB_HETERO_MEM_PRIORITY_CPU k && negb (Bool.eqb acc_a acc_b) then negb acc_a
  else if negb (KNOB_HETERO_MEM_PRIORITY_CPU k) && KNOB_HETERO_MEM_PRIORITY_GPU k && negb (Bool.eqb acc_a acc_b) then acc_a
  else pb <? pa.

Definition queue_full (l i : nat) (q : qkind) (s : memory_c) : outcome bool :=
  d ← get_dcu s l i; mret (Nat.eqb (length (q_get q d)) (queue_size q)).

Definition queue_push (l i : nat) (q : qkind) (p : nat) (s : memory_c) : outcome (memory_c * bool) :=
  d ← get_dcu s l i;
  if Nat.eqb (length (q_get q d)) (queue_size q) then mret (s, false) else
  s1 ← upd_req (with_queue (Some (l, i, q))) p s;
  mret (put_dcu l i (q_set q (list_sort (queue_lt s1) (q_get q d ++ [p])) d) s1, true).

Definition queue_pop (l i : nat) (q : qkind) (p : nat) (s : memory_c) : outcome memory_c :=
  d ← get_dcu s l i; mret (put_dcu l i (q_set q (filter (fun x => x <> p) (q_get q d)) d) s).

(** First request that covers [addr, addr + size). *)
Definition covers (s : memory_c) (addr size : Z) (p : nat) : bool :=
  match reqs s !! p with
  | Some r => (i_addr (r_info r) <=? addr) && (u64 (addr + size) <=? u64 (i_addr (r_info r) + i_size (r_info r)))
  | None => false
  end.
Definition queue_search (l i : nat) (q : qkind) (addr size : Z) (s : memory_c) : outcome (option nat) :=
  d ← get_dcu s l i; mret (snd <$> list_find (fun p => Is_true (covers s addr size p)) (q_get q d)).

(** ** Insertion into a cache's queues *)

Definition dcu_fill (l i p : nat) (s : memory_c) : outcome (memory_c * bool) :=
  '(s1, ok) ← queue_push l i QFill p s;
  if ok : bool then
    d ← get_dcu s1 l i;
    s2 ← upd_req (fun r => with_rrdy (u64 (d_cycle d + 1)) (with_rstate MEM_FILL_NEW r)) p s1;
    mret (s2, true)
  else mret (s1, false).

(** A request that does not fit waits in the retry queue, and the caller is told
    that it was not inserted. *)
Definition dcu_insert (l i p : nat) (s : memory_c) : outcome (memory_c * bool) :=
  '(s1, ok) ← queue_push l i QIn p s;
  d ← get_dcu s1 l i;
  if ok : bool then
    s2 ← upd_req (with_rrdy (u64 (d_cycle d + m_latency (d_cfg d)))) p s1;
    mret (s2, true)
  else mret (put_dcu l i (with_dretry (d_retry d ++ [p]) d) s1, false).

(** [insert] by a caller that keeps the request when it is refused. *)
Definition dcu_insert_or_keep (l i p : nat) (s : memory_c) : outcome (memory_c * bool) :=
  '(s1, ok) ← dcu_insert l i p s; mret (if ok : bool then (s1, true) else (refuse s1, false)).

(** ** Write-backs and filling a line *)

Definition new_wb_req (addr size : Z) (ptx : bool) (data : dcache_data_s) (s : memory_c) : memory_c * nat :=
  let p := next_req s in
  let info := mk_info (m_unique_id s) (get_appl_id (dd_core_id data) (dd_tid data)) (dd_core_id data) (dd_tid data)
                MRT_WB false addr size (dd_pc data) ptx (replicate 6 0%nat) None (mem_cycle s) true false false None in
  let r := mk_mreq (with_ids_of t g info) MEM_NEW (g_mem_priority MRT_WB) (u64 (mem_cycle s + 1)) None false None
             NOC_FILL [] in
  (put_req p r (with_ids (S p) (m_unique_id s + 1) s), p).

Definition line_data (c : dcache) (x : nat * nat) : outcome dcache_data_s :=
  es ← get_or NullDeref (entries_at c x.1); e ← get_or NullDeref (es !! x.2); mret (m_data e).
Definition set_data (v : dcache_data_s) (e : cache_entry_c (D := dcache_data_s)) : cache_entry_c :=
  mk_line (m_valid e) (m_tag e) (m_base e) (m_last_access_time e) (m_access_counter e) v (m_pref e) (m_dirty e)
    (m_appl_id e) (m_gpuline e) (m_skip e).
Definition upd_data (f : dcache_data_s -> dcache_data_s) (x : nat * nat) (c : dcache) : dcache :=
  upd_line (fun e => set_data (f (m_data e)) e) x.1 x.2 c.
Definition or_dirty (b : bool) (v : dcache_data_s) : dcache_data_s :=
  mk_ddata (b || dd_dirty v) (dd_fetch_cycle v) (dd_core_id v) (dd_pc v) (dd_tid v).

(** Write back the victim of an insertion if it is dirty. *)
Definition write_back_victim (l i : nat) (r : mem_req_s) (victim : Z) (data : dcache_data_s) (s : memory_c) :
    outcome memory_c :=
  if (victim =? 0) || negb (dd_dirty data) then mret s else
  d ← get_dcu s l i;
  let data := if KNOB_USE_INCOMING_TID_CID_FOR_WB k
              then mk_ddata (dd_dirty data) (dd_fetch_cycle data) (i_core_id (r_info r)) (dd_pc data) (i_thread_id (r_info r))
              else data in
  let '(s1, wb) := new_wb_req victim (m_line_size (d_cfg d)) (m_acc_sim (d_cfg d)) data s in
  s2 ← upd_req (with_rrdy (u64 (d_cycle d + 1))) wb s1;
  '(s3, ok) ← queue_push l i QWb wb s2;
  _ ← ASSERT ok;
  mret s3.

(** Insert the line of a request into the cache and set it up. *)
Definition insert_line (l i : nat) (r : mem_req_s) (s : memory_c) : outcome memory_c :=
  d ← get_dcu s l i;
  c ← get_or NullDeref (d_cache d);
  '(n, w, _, victim, c1) ←
    insert_cache (mem_cache_knobs k) CYCLE (i_addr (r_info r)) (i_appl_id (r_info r)) (i_acc (r_info r)) false c;
  data ← line_data c1 (n, w);
  s1 ← write_back_victim l i r victim data (put_dcu l i (with_cache c1 d) s);
  d1 ← get_dcu s1 l i;
  c2 ← get_or NullDeref (d_cache d1);
  mret (put_dcu l i (with_cache (upd_data (fun _ => mk_ddata (i_dirty (r_info r)) (d_cycle d) (i_core_id (r_info r))
          (i_pc (r_info r)) (i_thread_id (r_info r))) (n, w) c2) d1) s1).

(** Acquire the write port of a bank. *)
Definition dcu_write_port (l i : nat) (addr : Z) (s : memory_c) : outcome (memory_c * bool) :=
  d ← get_dcu s l i;
  c ← get_or NullDeref (d_cache d);
  let bank := get_bank_num (m_geom c) addr in
  pt ← aget (d_port d) bank;
  '(pt1, ok) ← get_write_port (d_cycle d) pt;
  ps ← aset (d_port d) bank pt1;
  mret (put_dcu l i (with_ports ps d) s, ok).

(** ** Completion *)

(** [m_done_cycle] and [m_state] of a micro-operation, of its parent once all
    children are done, and the wake-up of the front end. *)
Definition schedule_uop (u : nat) (x : muop) (s : memory_c) : memory_c :=
  with_uops (<[u := mk_muop (u_core_id x) (u64 (core_cycle (u_core_id x) + 1)) true (u_parent x) (u_num_child_uops x)
                      (u_num_child_uops_done x)]> (muops s)) (ready_events s) s.
Definition note_ready (u : nat) (s : memory_c) : memory_c :=
  if KNOB_FETCH_ONLY_LOAD_READY k then with_uops (muops s) (ready_events s ++ [u]) s else s.
Definition wake_uop (acc : bool) (u : nat) (s : memory_c) : outcome memory_c :=
  x ← get_or NullDeref (muops s !! u);
  let s1 := schedule_uop u x s in
  if negb acc then mret s1 else
  match u_parent x with
  | None => mret (note_ready u s1)
  | Some pu =>
      px ← get_or NullDeref (muops s1 !! pu);
      let px1 := mk_muop (u_core_id px) (u_done_cycle px) (u_scheduled px) (u_parent px) (u_num_child_uops px)
                   (u_num_child_uops_done px + 1) in
      let s2 := with_uops (<[pu := px1]> (muops s1)) (ready_events s1) s1 in
      if u_num_child_uops_done px1 =? u_num_child_uops px1 then
        mret (with_uops (<[pu := mk_muop (u_core_id px1) (u64 (core_cycle (u_core_id x) + 1)) true (u_parent px1)
                            (u_num_child_uops px1) (u_num_child_uops_done px1)]> (muops (note_ready pu s2)))
                (ready_events (note_ready pu s2)) (note_ready pu s2))
      else mret s2
  end.

(** [dcu_c::done] of the first-level cache. *)
Definition dcu_done (p : nat) (s : memory_c) : outcome (memory_c * bool) :=
  r ← get_req s p;
  let i := cid r L1 in
  full ← queue_full L1 i QWb s;
  if full : bool then mret (s, false) else
  d ← get_dcu s L1 i;
  '(s1, ok) ←
    (if m_disable (d_cfg d) then mret (s, true) else
     '(s1, port) ← dcu_write_port L1 i (i_addr (r_info r)) s;
     if negb port then mret (s1, false) else
     d1 ← get_dcu s1 L1 i;
     c ← get_or NullDeref (d_cache d1);
     '(line, _, c1) ← access_cache CYCLE (i_addr (r_info r)) false c;
     match line with
     | None => s2 ← insert_line L1 i r (put_dcu L1 i (with_cache c1 d1) s1); mret (s2, true)
     | Some x => mret (put_dcu L1 i (with_cache (upd_data (or_dirty (i_dirty (r_info r))) x c1) d1) s1, true)
     end);
  if negb ok then mret (s1, false) else
  match i_uop (r_info r) with
  | None => mret (s1, true)
  | Some u => s2 ← wake_uop (m_acc_sim (d_cfg d)) u s1; mret (s2, true)
  end.

Definition dcu_write_done (p : nat) (s : memory_c) : outcome memory_c :=
  r ← get_req s p;
  d ← get_dcu s L1 (cid r L1);
  u ← get_or NullDeref (i_uop (r_info r));
  wake_uop (m_acc_sim (d_cfg d) || m_igpu_sim (d_cfg d)) u s.

Section REC.
(** [wrap] runs the fill wrapper of a request. *)
Context (wrap : bool -> nat -> memory_c -> outcome (memory_c * bool)).

Definition run_done_func (p : nat) (s : memory_c) : outcome (memory_c * bool) :=
  r ← get_req s p;
  match i_done_func (r_info r) with
  | None => mret (s, true)
  | Some dcache_fill_line_wrapper => wrap true p s
  | Some other_fill_line_wrapper => wrap false p s
  | Some dcache_write_ack_wrapper => s1 ← dcu_write_done p s; mret (s1, true)
  end.

Definition free_req_with (core p : nat) (s : memory_c) : outcome memory_c :=
  r ← get_req s p;
  s1 ← (match r_merge r with [] => mret s | _ => x ← wrap true p s; mret x.1 end);
  r1 ← get_req s1 p;
  _ ← ASSERT (bool_decide (r_merge r1 = []));
  if bool_decide (i_type (r_info r1) = MRT_WB) then mret (with_reqs (delete p (reqs s1)) s1)
  else
    ms ← get_or OutOfBounds (m_mshr s1 !! core);
    fr ← get_or OutOfBounds (m_mshr_free_list s1 !! core);
    mret (with_mshr (<[core := filter (fun x => x <> p) ms]> (m_mshr s1)) (<[core := fr ++ [p]]> (m_mshr_free_list s1))
            (put_req p (req_init r1) s1)).

(** The merged requests whose own done function succeeds. *)
Fixpoint serve_merged (l : list nat) (s : memory_c) : outcome (memory_c * bool * list nat) :=
  match l with
  | [] => mret (s, true, [])
  | i :: l' =>
      '(s1, ok) ← run_done_func i s;
      '(s2, res, dones) ← serve_merged l' s1;
      mret (s2, ok && res, if ok : bool then i :: dones else dones)
  end.

Fixpoint free_merged (p : nat) (l : list nat) (s : memory_c) : outcome memory_c :=
  match l with
  | [] => mret s
  | i :: l' =>
      s1 ← upd_req (fun r => with_merge (filter (fun x => x <> i) (r_merge r)) r) p s;
      ri ← get_req s1 i;
      s2 ← free_req_with (i_core_id (r_info ri)) i s1;
      free_merged p l' s2
  end.

(** The fill wrappers of the data cache ([true]) and of the other caches. *)
Definition fill_wrapper (data : bool) (p : nat) (s : memory_c) : outcome (memory_c * bool) :=
  r ← get_req s p;
  '(s1, result, dones) ← serve_merged (r_merge r) s;
  s2 ← free_merged p dones s1;
  r2 ← get_req s2 p;
  if data then
    (if result && bool_decide (i_done_func (r_info r2) <> None) then dcu_done p s2 else mret (s2, result))
  else mret (s2, result && ext_fill p).
End REC.

(** Merged requests can be merged under further ones, so the wrappers recurse;
    [fuel] bounds the depth of nesting. *)
Fixpoint wrapper (fuel : nat) (data : bool) (p : nat) (s : memory_c) : outcome (memory_c * bool) :=
  match fuel with
  | O => Fault Diverged
  | S n => fill_wrapper (wrapper n) data p s
  end.

Definition depth (s : memory_c) : nat := S (size (reqs s)).
Definition done_function (p : nat) (s : memory_c) : outcome (memory_c * bool) := run_done_func (wrapper (depth s)) p s.
Definition free_req (core p : nat) (s : memory_c) : outcome memory_c := free_req_with (wrapper (depth s)) core p s.
Definition free_write_req (p : nat) (s : memory_c) : outcome memory_c :=
  _ ← get_req s p; mret (with_reqs (delete p (reqs s)) s).

(** Take processed requests out of a queue and free the completed ones. *)
Definition is_gpu_store (r : mem_req_s) : bool :=
  i_acc (r_info r) && KNOB_CC20 k && bool_decide (i_type (r_info r) = MRT_DSTORE).
Fixpoint retire_done (l i : nat) (q : qkind) (dones : list nat) (s : memory_c) : outcome memory_c :=
  match dones with
  | [] => mret s
  | p :: dones' =>
      s1 ← queue_pop l i q p s;
      r ← get_req s1 p;
      s2 ← (if r_done r then
              if is_gpu_store r then free_write_req p s1 else free_req (i_core_id (r_info r)) p s1
            else mret s1);
      retire_done l i q dones' s2
  end.

(** ** The four queues of a cache *)

(** Requests processed per cycle and queue. *)
Definition per_cycle : nat := 4.

(** The line a lookup returns, without one when the cache is bypassed or
    disabled; a write-back does not touch the replacement state. *)
Definition lookup_in (l i : nat) (r : mem_req_s) (s : memory_c) : outcome (memory_c * option (nat * nat)) :=
  d ← get_dcu s l i;
  if (bool_decide (l = LLC) && i_bypass (r_info r)) || m_disable (d_cfg d) then mret (s, None) else
  c ← get_or NullDeref (d_cache d);
  '(line, _, c1) ← access_cache CYCLE (i_addr (r_info r)) (negb (bool_decide (i_type (r_info r) = MRT_WB))) c;
  mret (put_dcu l i (with_cache c1 d) s, line).

Definition mark_dirty (l i : nat) (x : nat * nat) (s : memory_c) : outcome memory_c :=
  d ← get_dcu s l i;
  c ← get_or NullDeref (d_cache d);
  mret (put_dcu l i (with_cache (upd_data (or_dirty true) x c) d) s).

(** Push to the output queue, the request getting a state and a ready cycle. *)
Definition to_out (l i p : nat) (st : Mem_Req_State) (rdy : option Z) (s : memory_c) : outcome (memory_c * bool) :=
  '(s1, ok) ← queue_push l i QOut p s;
  if ok : bool then
    s2 ← upd_req (fun r => with_rrdy (default (r_rdy_cycle r) rdy) (with_rstate st r)) p s1; mret (s2, true)
  else mret (s1, false).

Definition on_hit (l i p : nat) (x : nat * nat) (s : memory_c) : outcome (memory_c * bool) :=
  r ← get_req s p;
  d ← get_dcu s l i;
  let cfg := d_cfg d in
  s1 ← (if bool_decide (i_type (r_info r) = MRT_DSTORE) then mark_dirty l i x s else mret s);
  if bool_decide (i_type (r_info r) = MRT_WB) then
    s2 ← mark_dirty l i x s1; s3 ← upd_req (with_done true) p s2; mret (s3, true)
  else if m_done cfg then
    '(s2, ok) ← done_function p s1;
    if ok : bool then s3 ← upd_req (with_done true) p s2; mret (s3, true) else mret (s2, false)
  else if (m_coupled_up cfg && (m_prev_id cfg =? Z.of_nat (cid r (l - 1)))) || negb (m_has_router cfg) then
    _ ← ASSERT (bool_decide (l = LLC));
    dcu_fill (prev_level l) (cid r (l - 1)) p s1
  else to_out l i p MEM_OUT_FILL (Some (u64 (d_cycle d + 1))) s1.

Definition on_miss (l i p : nat) (s : memory_c) : outcome (memory_c * bool) :=
  r ← get_req s p;
  d ← get_dcu s l i;
  let cfg := d_cfg d in
  if (m_coupled_down cfg && (m_next_id cfg =? Z.of_nat (cid r (l + 1)))) || negb (m_has_router cfg) then
    _ ← ASSERT (negb (bool_decide (l = LLC)));
    dcu_insert_or_keep (next_level l) (cid r (l + 1)) p s
  else to_out l i p MEM_OUTQUEUE_NEW (Some (u64 (d_cycle d + 1))) s.

Definition in_one (l i p : nat) (s : memory_c) : outcome (memory_c * bool) :=
  r ← get_req s p;
  d ← get_dcu s l i;
  if d_cycle d <? r_rdy_cycle r then mret (s, false) else
  '(s1, line) ← lookup_in l i r s;
  match line with Some x => on_hit l i p x s1 | None => on_miss l i p s1 end.

Definition send_msg (l : nat) (r : mem_req_s) : outcome (NOC_TYPE * nat) :=
  let data := i_acc (r_info r) && KNOB_CC20 k && i_with_data (r_info r) in
  match r_state r with
  | MEM_OUTQUEUE_NEW => mret (if data && negb (bool_decide (l = LLC)) then NOC_NEW_WITH_DATA else NOC_NEW, l + 1)%nat
  | MEM_OUT_FILL => mret (if data && bool_decide (l = LLC) then NOC_ACK else NOC_FILL, l - 1)%nat
  | MEM_OUT_WB => mret (NOC_FILL, l + 1)%nat
  | _ => Fault AssertFailed
  end.

(** [send_packet]: [accepts] is the network's answer for the message and the
    level it goes to. *)
Definition send_packet (accepts : nat -> NOC_TYPE -> nat -> bool) (l i p : nat) (s : memory_c) : outcome (memory_c * bool) :=
  r ← get_req s p;
  '(m, dst) ← send_msg l r;
  s1 ← upd_req (with_msg_type m) p s;
  if accepts p m dst then
    s2 ← upd_req (with_rstate MEM_IN_NOC) p s1; mret (with_outside (outside s2 ++ [p]) s2, true)
  else mret (s1, false).

Definition out_one (accepts : nat -> NOC_TYPE -> nat -> bool) (l i p : nat) (s : memory_c) : outcome (memory_c * bool) :=
  r ← get_req s p;
  d ← get_dcu s l i;
  if d_cycle d <? r_rdy_cycle r then mret (s, false) else
  _ ← ASSERT (m_has_router (d_cfg d));
  send_packet accepts l i p s.

Definition wb_one (l i p : nat) (s : memory_c) : outcome (memory_c * bool) :=
  r ← get_req s p;
  d ← get_dcu s l i;
  let cfg := d_cfg d in
  if d_cycle d <? r_rdy_cycle r then mret (s, false) else
  if negb (bool_decide (l = LLC)) && m_coupled_down cfg && (m_next_id cfg =? Z.of_nat (cid r (l + 1))) then
    dcu_fill (next_level l) (Z.to_nat (m_next_id cfg)) p s
  else to_out l i p MEM_OUT_WB None s.

(** Hand a filled request upwards: to the cache above or to the network; it
    waits when that is full. *)
Definition fill_up (l i p : nat) (s : memory_c) : outcome (memory_c * bool) :=
  r ← get_req s p;
  d ← get_dcu s l i;
  let cfg := d_cfg d in
  '(s1, ok) ←
    (if (m_coupled_up cfg && (m_prev_id cfg =? Z.of_nat (cid r (l - 1)))) ||
        (negb (m_has_router cfg) && negb (m_disable cfg && bool_decide (r_state r = MEM_FILL_NEW)))
     then dcu_fill (prev_level l) (cid r (l - 1)) p s
     else to_out l i p MEM_OUT_FILL None s);
  if ok : bool then mret (s1, true) else s2 ← upd_req (with_rstate MEM_FILL_WAIT_FILL) p s1; mret (s2, false).

(** A new fill first updates this cache; false when its port is busy. *)
Definition fill_here (l i p : nat) (s : memory_c) : outcome (memory_c * bool) :=
  r ← get_req s p;
  d ← get_dcu s l i;
  if m_disable (d_cfg d) then mret (s, true) else
  c ← get_or NullDeref (d_cache d);
  '(line, _, c1) ← access_cache CYCLE (i_addr (r_info r)) false c;
  let s1 := put_dcu l i (with_cache c1 d) s in
  match line with
  | Some x => mret (put_dcu l i (with_cache (upd_data (or_dirty (i_dirty (r_info r))) x c1) d) s, true)
  | None =>
      '(s2, ok) ← dcu_write_port l i (i_addr (r_info r)) s1;
      if ok : bool then s3 ← insert_line l i r s2; mret (s3, true) else mret (s2, false)
  end.

Definition finish_done (p : nat) (wait : bool) (s : memory_c) : outcome (memory_c * bool) :=
  '(s1, ok) ← done_function p s;
  if ok : bool then s2 ← upd_req (with_done true) p s1; mret (s2, true)
  else if wait then s2 ← upd_req (with_rstate MEM_FILL_WAIT_DONE) p s1; mret (s2, false)
  else mret (s1, false).

Definition fill_one (l i p : nat) (s : memory_c) : outcome (memory_c * bool) :=
  r ← get_req s p;
  d ← get_dcu s l i;
  if is_gpu_store r && bool_decide (l = L1) then
    _ ← ASSERT (m_done (d_cfg d) && bool_decide (i_done_func (r_info r) <> None));
    '(s1, ok) ← done_function p s;
    _ ← ASSERT ok;
    s2 ← upd_req (with_done true) p s1; mret (s2, true)
  else if d_cycle d <? r_rdy_cycle r then mret (s, false) else
  match r_state r with
  | MEM_FILL_NEW =>
      '(s1, ok) ← fill_here l i p s;
      if negb ok then mret (s1, false)
      else if m_done (d_cfg d) then _ ← ASSERT (negb (bool_decide (l = LLC))); finish_done p true s1
      else if bool_decide (i_type (r_info r) = MRT_WB) then s2 ← upd_req (with_done true) p s1; mret (s2, true)
      else fill_up l i p s1
  | MEM_FILL_WAIT_DONE => finish_done p false s
  | MEM_FILL_WAIT_FILL => fill_up l i p s
  | _ => Fault AssertFailed
  end.

(** The common shape of the four loops: a snapshot of the queue is walked, at
    most four requests are taken, and they leave the queue afterwards. *)
Fixpoint walk (stop : memory_c -> outcome bool) (one : nat -> memory_c -> outcome (memory_c * bool)) (count : nat)
    (l : list nat) (s : memory_c) : outcome (memory_c * list nat) :=
  match l, count with
  | [], _ | _, O => mret (s, [])
  | p :: l', S c =>
      b ← stop s;
      if b : bool then mret (s, []) else
      '(s1, taken) ← one p s;
      '(s2, dones) ← walk stop one (if taken : bool then c else count) l' s1;
      mret (s2, if taken : bool then p :: dones else dones)
  end.

Definition no_stop (s : memory_c) : outcome bool := mret false.

Definition process_in_queue (l i : nat) (s : memory_c) : outcome memory_c :=
  d ← get_dcu s l i;
  '(s1, dones) ← walk no_stop (in_one l i) per_cycle (d_in d) s;
  retire_done l i QIn dones s1.

Definition process_fill_queue (l i : nat) (s : memory_c) : outcome memory_c :=
  d ← get_dcu s l i;
  '(s1, dones) ← walk (queue_full l i QWb) (fill_one l i) per_cycle (d_fill d) s;
  retire_done l i QFill dones s1.

Fixpoint pop_all (l i : nat) (q : qkind) (f : mem_req_s -> mem_req_s) (dones : list nat) (s : memory_c) : outcome memory_c :=
  match dones with
  | [] => mret s
  | p :: dones' => s1 ← upd_req f p s; s2 ← queue_pop l i q p s1; pop_all l i q f dones' s2
  end.

Definition process_out_queue (accepts : nat -> NOC_TYPE -> nat -> bool) (l i : nat) (s : memory_c) : outcome memory_c :=
  d ← get_dcu s l i;
  '(s1, dones) ← walk no_stop (out_one accepts l i) per_cycle (d_out d) s;
  pop_all l i QOut (with_queue None) dones s1.

Definition process_wb_queue (l i : nat) (s : memory_c) : outcome memory_c :=
  d ← get_dcu s l i;
  '(s1, dones) ← walk no_stop (wb_one l i) per_cycle (d_wb d) s;
  pop_all l i QWb (fun r => r) dones s1.

(** ** Receiving and the cycle *)

Fixpoint remove_first (p : nat) (l : list nat) : list nat :=
  match l with [] => [] | x :: l' => if Nat.eqb x p then l' else x :: remove_first p l' end.

(** One packet the network delivers. *)
Definition receive_one (l i p : nat) (s : memory_c) : outcome memory_c :=
  s1 ← upd_req (with_rstate MEM_NOC_DONE) p s;
  r ← get_req s1 p;
  '(s2, ok) ← match r_msg_type r with
              | NOC_FILL | NOC_ACK => dcu_fill l i p s1
              | NOC_NEW | NOC_NEW_WITH_DATA => dcu_insert_or_keep l i p s1
              | _ => Fault AssertFailed
              end;
  mret (if ok : bool then with_outside (remove_first p (outside s2)) s2 else s2).

(** The packets the network offers in the rounds of a cycle; it holds them. *)
Fixpoint receive_packet (l i : nat) (packets : list nat) (s : memory_c) : outcome memory_c :=
  match packets with
  | [] => mret s
  | p :: ps =>
      s1 ← (if bool_decide (p ∈ outside s) then receive_one l i p s else mret s);
      receive_packet l i ps s1
  end.

(** Requests that did not fit the input queue are tried again. *)
Fixpoint retry (l i : nat) (todo : list nat) (s : memory_c) : outcome (memory_c * list nat) :=
  match todo with
  | [] => mret (s, [])
  | p :: todo' =>
      '(s1, ok) ← queue_push l i QIn p s;
      '(s2, rest) ← retry l i todo' s1;
      mret (s2, if ok : bool then rest else p :: rest)
  end.
Definition process_retry (l i : nat) (s : memory_c) : outcome memory_c :=
  d ← get_dcu s l i;
  '(s1, rest) ← retry l i (d_retry d) s;
  d1 ← get_dcu s1 l i;
  mret (put_dcu l i (with_dretry rest d1) s1).

Definition dcu_cycle (accepts : nat -> NOC_TYPE -> nat -> bool) (packets : list nat) (pll_lock : bool) (l i : nat)
    (s : memory_c) : outcome memory_c :=
  let tick s := d ← get_dcu s l i; mret (put_dcu l i (dcu_tick d) s) in
  if pll_lock then tick s else
  s1 ← process_retry l i s;
  s2 ← process_wb_queue l i s1;
  s3 ← process_fill_queue l i s2;
  s4 ← process_out_queue accepts l i s3;
  s5 ← process_in_queue l i s4;
  d ← get_dcu s5 l i;
  s6 ← (if KNOB_NEW_NOC k && m_has_router (d_cfg d) then receive_packet l i packets s5 else mret s5);
  tick s6.

(** ** Miss buffers *)

Definition allocate_new_entry (core : nat) (s : memory_c) : outcome (memory_c * option nat) :=
  fr ← get_or OutOfBounds (m_mshr_free_list s !! core);
  ms ← get_or OutOfBounds (m_mshr s !! core);
  match last fr with
  | None => mret (s, None)
  | Some p => mret (with_mshr (<[core := ms ++ [p]]> (m_mshr s)) (<[core := take (length fr - 1) fr]> (m_mshr_free_list s)) s,
                    Some p)
  end.

Definition search_req (core : nat) (addr size : Z) (s : memory_c) : outcome (option nat) :=
  ms ← get_or OutOfBounds (m_mshr s !! core);
  mret (snd <$> list_find (fun p => Is_true (covers s addr size p)) ms).

(** Every core's buffer is searched, the first match counts. *)
Fixpoint search_cores (cores : list nat) (addr size : Z) (s : memory_c) : outcome (option nat) :=
  match cores with
  | [] => mret None
  | c :: cores' => m ← search_req c addr size s; match m with Some p => mret (Some p) | None => search_cores cores' addr size s end
  end.

(** What the creator of a request supplies. *)
Record new_req := mk_new_req {
  n_type : Mem_Req_Type; n_addr : Z; n_size : Z; n_with_data : bool; n_delay : Z; n_uop : option nat; n_pc : Z;
  n_bypass : bool; n_skip : bool; n_done_func : option done_func; n_core_id : nat; n_thread_id : Z; n_ptx : bool
}.

Definition uop_of (q : new_req) : option nat := if bool_decide (n_type q = MRT_DPRF) then None else n_uop q.

Definition init_new_req (p : nat) (q : new_req) (s : memory_c) : outcome memory_c :=
  r ← get_req s p;
  let info := mk_info (m_unique_id s) (get_appl_id (n_core_id q) (n_thread_id q)) (n_core_id q) (n_thread_id q) (n_type q)
                (n_with_data q) (n_addr q) (n_size q) (n_pc q) (n_ptx q) (i_cache_id (r_info r)) (uop_of q)
                (mem_cycle s) false (n_bypass q) (n_skip q) (n_done_func q) in
  _ ← ASSERT (bool_decide (r_merge r = []));
  mret (put_req p (mk_mreq (with_ids_of t g info) MEM_NEW (g_mem_priority (n_type q)) (u64 (mem_cycle s + n_delay q))
                     (r_queue r) false None (r_msg_type r) (r_merge r)) (with_ids (next_req s) (m_unique_id s + 1) s)).

(** A prefetch becomes a demand request. *)
Definition adjust_req (p : nat) (q : new_req) (s : memory_c) : outcome memory_c :=
  r ← get_req s p;
  let i := r_info r in
  let info := mk_info (i_id i) (get_appl_id (n_core_id q) (n_thread_id q)) (n_core_id q) (n_thread_id q) (n_type q)
                (i_with_data i) (n_addr q) (n_size q) (n_pc q) (n_ptx q) (i_cache_id i) (uop_of q)
                (mem_cycle s) false false false (n_done_func q) in
  mret (put_req p (mk_mreq (with_ids_of t g info) (r_state r) (g_mem_priority (n_type q)) (r_rdy_cycle r) (r_queue r) false
                     None (r_msg_type r) (r_merge r)) s).

(** Prefetches without merged requests leave their queue and are freed. *)
Fixpoint flush_each (core : nat) (l : list nat) (s : memory_c) : outcome memory_c :=
  match l with
  | [] => mret s
  | p :: l' =>
      r ← get_req s p;
      s1 ← match r_queue r with
           | Some (lv, i, q) => s1 ← queue_pop lv i q p s; free_req core p s1
           | None => mret s
           end;
      flush_each core l' s1
  end.
Definition is_lone_prefetch (s : memory_c) (p : nat) : bool :=
  match reqs s !! p with
  | Some r => bool_decide (i_type (r_info r) = MRT_DPRF) && bool_decide (r_merge r = [])
  | None => false
  end.
Definition flush_prefetch (core : nat) (s : memory_c) : outcome memory_c :=
  ms ← get_or OutOfBounds (m_mshr s !! core);
  flush_each core (filter (fun p => Is_true (is_lone_prefetch s p)) ms) s.

(** A new entry, after throwing prefetches out if there is none. *)
Inductive entry := Entry (p : nat) | Blocked | Dropped.
Definition get_entry (q : new_req) (gpu_store : bool) (s : memory_c) : outcome (memory_c * entry) :=
  if gpu_store then
    (* a fresh object of the pool *)
    let p := next_req s in
    mret (put_req p blank_req (with_ids (S p) (m_unique_id s) s), Entry p)
  else
    '(s1, e) ← allocate_new_entry (n_core_id q) s;
    match e with
    | Some p => mret (s1, Entry p)
    | None =>
        s2 ← flush_prefetch (n_core_id q) (with_stop (u64 (mem_cycle s1 + 500)) s1);
        if bool_decide (n_type q = MRT_DPRF) then mret (s2, Dropped) else
        '(s3, e2) ← allocate_new_entry (n_core_id q) s2;
        mret (s3, match e2 with Some p => Entry p | None => Blocked end)
    end.

(** Merge a new request under a matching one. *)
Definition merge_req (m p : nat) (prio : Z) (s : memory_c) : outcome memory_c :=
  s1 ← upd_req (fun r => with_merge (r_merge r ++ [p]) r) m s;
  s2 ← upd_req (fun r => with_rstate MEM_MERGED (with_merged_req (Some m) r)) p s1;
  upd_req (fun r => if r_priority r <? prio then with_priority prio r else r) m s2.

(** Make room in the second-level queue by throwing prefetches out; true when
    it is still full. *)
Definition make_room (core : nat) (s : memory_c) : outcome (memory_c * bool) :=
  full ← queue_full L2 core QIn s;
  if full : bool then
    s1 ← flush_prefetch core (with_stop (u64 (mem_cycle s + 500)) s);
    full1 ← queue_full L2 core QIn s1; mret (s1, full1)
  else mret (s, false).

Definition new_mem_req (q : new_req) (s : memory_c) : outcome (memory_c * bool) :=
  let dprf := bool_decide (n_type q = MRT_DPRF) in
  if (mem_cycle s <? m_stop_prefetch s) && dprf then mret (s, true) else
  matching ← search_cores (seq 0 (KNOB_NUM_SIM_CORES k)) (n_addr q) (n_size q) s;
  let gpu_store := n_ptx q && KNOB_CC20 k && bool_decide (n_type q = MRT_DSTORE) in
  let matching := if gpu_store then None else matching in
  mr ← match matching with None => mret None | Some m => r ← get_req s m; mret (Some (m, r)) end;
  _ ← ASSERT (negb (bool_decide (matching <> None /\ n_type q = MRT_WB)));
  match mr with
  | Some (m, r) =>
      if dprf then mret (s, true)
      else if bool_decide (i_type (r_info r) = MRT_DPRF) then s1 ← adjust_req m q s; mret (s1, true)
      else
        _ ← ASSERT (negb (bool_decide (i_type (r_info r) = MRT_WB)));
        '(s1, _) ← make_room (n_core_id q) s;
        '(s2, e) ← get_entry q gpu_store s1;
        match e with
        | Entry p => s3 ← init_new_req p q s2; s4 ← merge_req m p (g_mem_priority (n_type q)) s3; mret (s4, true)
        | Blocked => mret (s2, false)
        | Dropped => mret (s2, true)
        end
  | None =>
      '(s1, full) ← make_room (n_core_id q) s;
      if full && dprf then mret (s1, true) else
      '(s2, e) ← get_entry q gpu_store s1;
      match e with
      | Entry p => s3 ← init_new_req p q s2; '(s4, _) ← dcu_insert L2 (n_core_id q) p s3; mret (s4, true)
      | Blocked => mret (s2, false)
      | Dropped => mret (s2, true)
      end
  end.

(** ** Access from the pipeline *)

Record access_knobs := mk_access_knobs {
  KNOB_DCACHE_INFINITE_PORT : bool; KNOB_PERFECT_DCACHE : bool; KNOB_BYTE_LEVEL_ACCESS : bool;
  KNOB_HETERO_GPU_CORE_DISABLE : Z
}.

(** The micro-operation that accesses, after translation. *)
Record access_uop := mk_access_uop {
  a_uop : nat; a_core : nat; a_thread : Z; a_paddr : Z; a_type : Mem_Type; a_size : Z; a_pc : Z; a_bypass : bool; a_skip : bool
}.

Inductive access_result := PortUnavailable | AccessDenied | Latency (l : Z) | Pending.
Definition result_code (r : access_result) : Z :=
  match r with PortUnavailable | AccessDenied => 0 | Latency l => l | Pending => -1 end.

Definition IsStore (x : Mem_Type) : bool :=
  match x with MEM_ST | MEM_ST_LM | MEM_ST_SM | MEM_ST_GM => true | _ => false end.

Definition req_type (x : Mem_Type) : outcome Mem_Req_Type :=
  match x with
  | MEM_LD | MEM_LD_LM | MEM_LD_CM | MEM_LD_TM => mret MRT_DFETCH
  | MEM_ST | MEM_ST_LM | MEM_ST_GM => mret MRT_DSTORE
  | MEM_SWPREF_NTA | MEM_SWPREF_T0 | MEM_SWPREF_T1 | MEM_SWPREF_T2 | MEM_PF => mret MRT_DPRF
  | _ => Fault AssertFailed
  end.

Definition base_addr (line_size addr : Z) : Z := Z.land addr (u64 (- line_size)).

(** The read or write port of the bank, in the cycle before. *)
Definition access_port (ak : access_knobs) (u : access_uop) (s : memory_c) : outcome (memory_c * bool) :=
  d ← get_dcu s L1 (a_core u);
  if KNOB_DCACHE_INFINITE_PORT ak || m_disable (d_cfg d) then mret (s, true) else
  let bank := BANK (a_paddr u) (m_banks (d_cfg d)) 256 in
  pt ← aget (d_port d) bank;
  '(pt1, ok) ← (if IsStore (a_type u) then get_write_port (u64 (d_cycle d - 1)) pt
                else get_read_port (u64 (d_cycle d - 1)) pt);
  ps ← aset (d_port d) bank pt1;
  mret (put_dcu L1 (a_core u) (with_ports ps d) s, ok).

Definition access_new_req (ak : access_knobs) (u : access_uop) (d : dcu_c) (line_addr : Z) (ty : Mem_Req_Type)
    (with_data : bool) (f : done_func) (bypass skip : bool) : new_req :=
  let byte := m_acc_sim (d_cfg d) && KNOB_BYTE_LEVEL_ACCESS ak in
  mk_new_req ty (if byte then a_paddr u else line_addr) (if byte then a_size u else m_line_size (d_cfg d)) with_data
    (m_latency (d_cfg d)) (Some (a_uop u)) (a_pc u) bypass skip (Some f) (a_core u) (a_thread u) (m_acc_sim (d_cfg d)).

Definition access_hit (ak : access_knobs) (u : access_uop) (line : option (nat * nat)) (line_addr : Z) (s : memory_c) :
    outcome (memory_c * access_result) :=
  s1 ← match line with
       | Some x => if IsStore (a_type u) then mark_dirty L1 (a_core u) x s else mret s
       | None => mret s
       end;
  d ← get_dcu s1 L1 (a_core u);
  if m_acc_sim (d_cfg d) && KNOB_CC20 k && bool_decide (a_type u = MEM_ST) then
    c ← get_or NullDeref (d_cache d);
    '(_, c1) ← invalidate_cache_line dd_zero (a_paddr u) c;
    '(s2, ok) ← new_mem_req (access_new_req ak u d line_addr MRT_DSTORE true dcache_write_ack_wrapper (a_bypass u) (a_skip u))
                  (put_dcu L1 (a_core u) (with_cache c1 d) s1);
    mret (s2, if ok : bool then Pending else AccessDenied)
  else mret (s1, Latency (m_latency (d_cfg d))).

Definition access_miss (ak : access_knobs) (u : access_uop) (line_addr : Z) (s : memory_c) :
    outcome (memory_c * access_result) :=
  d ← get_dcu s L1 (a_core u);
  ty ← req_type (a_type u);
  let bypass := a_bypass u || (Z.of_nat (a_core u) =? KNOB_HETERO_GPU_CORE_DISABLE ak) in
  let skip := a_skip u || (Z.of_nat (a_core u) =? KNOB_HETERO_GPU_CORE_DISABLE ak + 1) in
  let f := if m_acc_sim (d_cfg d) && KNOB_CC20 k && bool_decide (a_type u = MEM_ST \/ a_type u = MEM_ST_LM)
           then dcache_write_ack_wrapper else dcache_fill_line_wrapper in
  '(s1, ok) ← new_mem_req (access_new_req ak u d line_addr ty
                (bool_decide (a_type u = MEM_ST_GM \/ a_type u = MEM_ST_LM)) f bypass skip) s;
  mret (s1, if negb ok then AccessDenied
            else if bool_decide (ty = MRT_DPRF) then Latency (m_latency (d_cfg d)) else Pending).

Definition access (ak : access_knobs) (u : access_uop) (s : memory_c) : outcome (memory_c * access_result) :=
  '(s1, ok) ← access_port ak u s;
  if negb ok then mret (s1, PortUnavailable) else
  d ← get_dcu s1 L1 (a_core u);
  let base := base_addr (m_line_size (d_cfg d)) (a_paddr u) in
  if KNOB_PERFECT_DCACHE ak then access_hit ak u None base s1
  else if m_disable (d_cfg d) then access_miss ak u base s1
  else
    c ← get_or NullDeref (d_cache d);
    '(line, la, c1) ← access_cache CYCLE (a_paddr u) true c;
    let s2 := put_dcu L1 (a_core u) (with_cache c1 d) s1 in
    match line with
    | Some x => access_hit ak u (Some x) (default base la) s2
    | None => access_miss ak u (default base la) s2
    end.

(** ** Cycles of the whole system *)

Record net_answers := mk_net_answers {
  na_accepts : nat -> nat -> nat -> NOC_TYPE -> nat -> bool;
  na_delivers : nat -> nat -> list nat
}.

Definition cache_cycle (na : net_answers) (pll_lock : bool) (l i : nat) (s : memory_c) : outcome memory_c :=
  dcu_cycle (na_accepts na l i) (na_delivers na l i) pll_lock l i s.

Fixpoint cycles (na : net_answers) (pll_lock : bool) (l : nat) (ids : list nat) (s : memory_c) : outcome memory_c :=
  match ids with [] => mret s | i :: ids' => s1 ← cache_cycle na pll_lock l i s; cycles na pll_lock l ids' s1 end.

Definition rotated (now n : Z) : list nat := (fun j => Z.to_nat ((now mod n + Z.of_nat j) mod n)) <$> seq 0 (Z.to_nat n).

Definition run_a_cycle_core (na : net_answers) (core : nat) (pll_lock : bool) (s : memory_c) : outcome memory_c :=
  s1 ← cache_cycle na pll_lock L2 core s; cache_cycle na pll_lock L1 core s1.
Definition run_a_cycle_uncore (na : net_answers) (pll_lock : bool) (s : memory_c) : outcome memory_c :=
  s1 ← cycles na pll_lock LLC (rotated (mem_cycle s) (m_num_llc g)) s;
  cycles na pll_lock L3 (rotated (mem_cycle s) (m_num_l3 g)) s1.
Definition mem_run_a_cycle (na : net_answers) (pll_lock : bool) (s : memory_c) : outcome memory_c :=
  s1 ← run_a_cycle_uncore na pll_lock s; mret (mem_tick s1).

(** ** Invalidation of a page

    One address is advanced through all the caches. *)
Fixpoint invalidate_lines (fuel : nat) (l i : nat) (addr end_addr : Z) (s : memory_c) : outcome (memory_c * Z) :=
  match fuel with
  | O => Fault Diverged
  | S n =>
      d ← get_dcu s l i;
      if addr <? end_addr then
        c ← get_or NullDeref (d_cache d);
        '(_, c1) ← invalidate_cache_line dd_zero addr c;
        invalidate_lines n l i (u64 (addr + m_line_size (d_cfg d))) end_addr (put_dcu l i (with_cache c1 d) s)
      else mret (s, addr)
  end.
Fixpoint invalidate_caches (fuel : nat) (cs : list (nat * nat)) (addr end_addr : Z) (s : memory_c) : outcome memory_c :=
  match cs with
  | [] => mret s
  | (l, i) :: cs' => '(s1, a) ← invalidate_lines fuel l i addr end_addr s; invalidate_caches fuel cs' a end_addr s1
  end.
Definition cache_order (cores l3 llc : nat) : list (nat * nat) :=
  let upper := i ← seq 0 cores; [(L1, i); (L2, i)] in
  let third := (fun i => (L3, i)) <$> seq 0 l3 in
  let last := (fun i => (LLC, i)) <$> seq 0 llc in
  match t with
  | l2_decoupled_network => upper ++ third
  | igpu_network => third ++ last
  | _ => upper ++ third ++ last
  end.
Definition invalidate (fuel : nat) (page_size page_addr : Z) (s : memory_c) : outcome memory_c :=
  invalidate_caches fuel
    (cache_order (KNOB_NUM_SIM_CORES k) (Z.to_nat (m_num_l3 g)) (Z.to_nat (m_num_llc g)))
    page_addr (u64 (page_addr + page_size)) s.
End MEMORY.

(** ** Construction *)

(** What the configuration says of a cache of a level and core; for the last
    level also the number of tiles and the interleaving of its lines. *)
Record dcu_params := mk_dcu_params {
  dp_num_set : Z; dp_assoc : Z; dp_line_size : Z; dp_banks : Z; dp_latency : Z;
  dp_read_ports : Z; dp_write_ports : Z; dp_acc_sim : bool; dp_igpu_sim : bool;
  dp_num_tiles : Z; dp_interleaving : Z
}.

(** The arguments of [dcu_c::init] a memory type gives to a cache. *)
Record dcu_links := mk_links {
  ln_next_id : Z; ln_prev_id : Z; ln_done : bool; ln_up : bool; ln_down : bool; ln_disable : bool; ln_router : bool
}.

(** None: the cache is not initialised. *)
Definition init_args (t : memory_type) (l i : nat) : option dcu_links :=
  let ii := Z.of_nat i in
  match t, l with
  | llc_coupled_network, 1%nat => Some (mk_links ii (-1) false false true false false)
  | llc_coupled_network, 2%nat => Some (mk_links ii ii true true true false true)
  | llc_coupled_network, 4%nat => Some (mk_links (-1) ii false true false false true)
  | llc_decoupled_network, 1%nat => Some (mk_links ii (-1) false false true false false)
  | llc_decoupled_network, 2%nat => Some (mk_links (-1) ii true true false false true)
  | llc_decoupled_network, 3%nat => Some (mk_links (-1) (-1) false false false true true)
  | llc_decoupled_network, 4%nat => Some (mk_links (-1) (-1) false false false false true)
  | l2_coupled_local, 1%nat => Some (mk_links ii (-1) false false true false false)
  | l2_coupled_local, 2%nat => Some (mk_links ii ii true true true false true)
  | l2_coupled_local, 4%nat => Some (mk_links (-1) ii false true false true true)
  | no_cache, 1%nat => Some (mk_links ii (-1) false false true true false)
  | no_cache, 2%nat => Some (mk_links ii ii true true true true false)
  | no_cache, 4%nat => Some (mk_links (-1) ii false true false true true)
  | l2_decoupled_network, 1%nat => Some (mk_links ii (-1) false false true false false)
  | l2_decoupled_network, 2%nat => Some (mk_links (-1) ii true true false true true)
  | l2_decoupled_network, 3%nat => Some (mk_links (-1) (-1) false false false true true)
  | l2_decoupled_network, 4%nat => Some (mk_links (-1) (-1) false false false false true)
  | l2_decoupled_local, 1%nat => Some (mk_links ii (-1) false false true false false)
  | l2_decoupled_local, 2%nat => Some (mk_links (-1) ii true true false true false)
  | l2_decoupled_local, 3%nat => Some (mk_links (-1) (-1) false false false true true)
  | l2_decoupled_local, 4%nat => Some (mk_links (-1) (-1) false false false false true)
  | igpu_network, 1%nat => Some (mk_links ii (-1) false false true true false)
  | igpu_network, 2%nat => Some (mk_links (-1) ii true true true true true)
  | igpu_network, 3%nat => Some (mk_links (-1) (-1) false false false false true)
  | igpu_network, 4%nat => Some (mk_links (-1) (-1) false false false false true)
  | _, _ => None
  end.

(** The constructor and [init]; [line0] is what freshly allocated memory holds. *)
Definition dcu_new (line0 : cache_entry_c (D := dcache_data_s)) (l : nat) (p : dcu_params) (a : dcu_links) : dcu_c :=
  let last := bool_decide (l = LLC) in
  mk_dcu
    (mk_dcfg (ln_disable a) (ln_next_id a) (ln_prev_id a) (ln_up a) (ln_down a) (ln_router a) (ln_done a) (dp_line_size p)
       (dp_banks p) (if ln_disable a then 1 else dp_latency p) (dp_acc_sim p) (dp_igpu_sim p))
    (if ln_disable a then None
     else Some (cache_new dd_zero
                  (cache_geometry (dp_num_set p) (dp_assoc p) (dp_line_size p) 40 (dp_banks p) false (bool_decide (l = L3))
                     (if last then dp_num_tiles p else 1) (if last then dp_interleaving p else 0))
                  (fun _ _ => line0) (fun _ => (0, 0))))
    (if ln_disable a then [] else replicate (Z.to_nat (dp_banks p)) (port_new (dp_read_ports p) (dp_write_ports p) false))
    [] [] [] [] [] 0.

(** The caches with their numbers, and the entries of the miss buffers. *)
Definition cache_ids (cores l3 llc : nat) : list (nat * nat) :=
  ((fun i => (L1, i)) <$> seq 0 cores) ++ ((fun i => (L2, i)) <$> seq 0 cores) ++ ((fun i => (L3, i)) <$> seq 0 l3) ++
  ((fun i => (LLC, i)) <$> seq 0 llc).
Definition new_caches (t : memory_type) (params : nat -> nat -> dcu_params) (line0 : cache_entry_c (D := dcache_data_s))
    (ids : list (nat * nat)) : gmap (nat * nat) dcu_c :=
  list_to_map (omap (fun x => (fun a => (x, dcu_new line0 x.1 (params x.1 x.2) a)) <$> init_args t x.1 x.2) ids).
Definition new_free_lists (cores size : nat) : gmap nat (list nat) :=
  list_to_map ((fun ii => (ii, seq (ii * size) size)) <$> seq 0 cores).
Definition new_entries (n : nat) : gmap nat mem_req_s := list_to_map ((fun p => (p, blank_req)) <$> seq 0 n).

Definition memory_new (k : mem_knobs) (t : memory_type) (g : mem_geom) (params : nat -> nat -> dcu_params)
    (line0 : cache_entry_c (D := dcache_data_s)) : memory_c :=
  let cores := KNOB_NUM_SIM_CORES k in
  let n := (cores * KNOB_MEM_MSHR_SIZE k)%nat in
  mk_memory (new_entries n) (new_caches t params line0 (cache_ids cores (Z.to_nat (m_num_l3 g)) (Z.to_nat (m_num_llc g))))
    (list_to_map ((fun ii => (ii, [])) <$> seq 0 cores)) (new_free_lists cores (KNOB_MEM_MSHR_SIZE k)) n 0 0 0 ∅ [] [] false.
