(* ===== verification/MemoryPlaces.v ===== *)
(** * Where memory requests are (memory.cc)

    An abstraction of the memory hierarchy that keeps, of every request, what
    decides where it belongs, and of every cache its queues; the weight of all
    places against the live requests; and the invariants of the operations. *)

From S2P Require Import Prelude.
From S2P Require Import Utils.
From S2P Require Import Cache.
From S2P Require Import Rob.
From S2P Require Import Allocate.
From S2P Require Import Dram.
From S2P Require Import Noc.
From S2P Require Import Memory.

(** ** The abstract state *)

Record areq := mk_areq { a_info : req_info; a_queue : option qid; a_done : bool; a_merge : list nat }.
Definition abs_req (r : mem_req_s) : areq := mk_areq (r_info r) (r_queue r) (r_done r) (r_merge r).
Definition a_with_merge (m : list nat) (r : areq) : areq := mk_areq (a_info r) (a_queue r) (a_done r) m.
Definition a_with_queue (q : option qid) (r : areq) : areq := mk_areq (a_info r) q (a_done r) (a_merge r).

Record acache := mk_acache {
  ac_in : list nat; ac_wb : list nat; ac_fill : list nat; ac_out : list nat; ac_retry : list nat
}.
Definition abs_dcu (d : dcu_c) : acache := mk_acache (d_in d) (d_wb d) (d_fill d) (d_out d) (d_retry d).
Definition ac_get (q : qkind) (c : acache) : list nat :=
  match q with QIn => ac_in c | QWb => ac_wb c | QFill => ac_fill c | QOut => ac_out c end.
Definition ac_set (q : qkind) (l : list nat) (c : acache) : acache :=
  match q with
  | QIn => mk_acache l (ac_wb c) (ac_fill c) (ac_out c) (ac_retry c)
  | QWb => mk_acache (ac_in c) l (ac_fill c) (ac_out c) (ac_retry c)
  | QFill => mk_acache (ac_in c) (ac_wb c) l (ac_out c) (ac_retry c)
  | QOut => mk_acache (ac_in c) (ac_wb c) (ac_fill c) l (ac_retry c)
  end.
Definition ac_with_retry (l : list nat) (c : acache) : acache :=
  mk_acache (ac_in c) (ac_wb c) (ac_fill c) (ac_out c) l.
Definition ac_places (c : acache) : list nat := ac_in c ++ ac_wb c ++ ac_fill c ++ ac_out c ++ ac_retry c.

Record astate := mk_astate {
  as_reqs : gmap nat areq;
  as_caches : gmap (nat * nat) acache;
  as_mshr : gmap nat (list nat);
  as_free : gmap nat (list nat);
  as_next : nat;
  as_out : list nat;
  as_refused : bool
}.
Definition abs (s : memory_c) : astate :=
  mk_astate (abs_req <$> reqs s) (abs_dcu <$> dcus s) (m_mshr s) (m_mshr_free_list s) (next_req s) (outside s) (refused s).

Definition a_set_reqs (x : gmap nat areq) (a : astate) : astate :=
  mk_astate x (as_caches a) (as_mshr a) (as_free a) (as_next a) (as_out a) (as_refused a).
Definition a_set_req (p : nat) (r : areq) (a : astate) : astate := a_set_reqs (<[p := r]> (as_reqs a)) a.
Definition a_set_cache (x : nat * nat) (c : acache) (a : astate) : astate :=
  mk_astate (as_reqs a) (<[x := c]> (as_caches a)) (as_mshr a) (as_free a) (as_next a) (as_out a) (as_refused a).
Definition a_set_mshr (m f : gmap nat (list nat)) (a : astate) : astate :=
  mk_astate (as_reqs a) (as_caches a) m f (as_next a) (as_out a) (as_refused a).
Definition a_set_next (n : nat) (a : astate) : astate :=
  mk_astate (as_reqs a) (as_caches a) (as_mshr a) (as_free a) n (as_out a) (as_refused a).
Definition a_set_out (l : list nat) (a : astate) : astate :=
  mk_astate (as_reqs a) (as_caches a) (as_mshr a) (as_free a) (as_next a) l (as_refused a).

Definition queue_at (a : astate) (x : qid) : list nat :=
  match as_caches a !! x.1 with Some c => ac_get x.2 c | None => [] end.
Definition merged (i : nat) (a : astate) : Prop := exists p r, as_reqs a !! p = Some r /\ i ∈ a_merge r.

(** *** The abstraction of the concrete updates *)

Lemma abs_put_req p r s : abs (put_req p r s) = a_set_req p (abs_req r) (abs s).
Proof. unfold abs, a_set_req, a_set_reqs; simpl. by rewrite fmap_insert. Qed.
Lemma abs_put_dcu l i d s : abs (put_dcu l i d s) = a_set_cache (l, i) (abs_dcu d) (abs s).
Proof. unfold abs, a_set_cache; simpl. by rewrite fmap_insert. Qed.
Lemma abs_dcu_q_get q d : ac_get q (abs_dcu d) = q_get q d.
Proof. by destruct q. Qed.
Lemma abs_dcu_q_set q l d : abs_dcu (q_set q l d) = ac_set q l (abs_dcu d).
Proof. by destruct q. Qed.
Lemma set_req_lookup p r a q r' :
  as_reqs (a_set_req p r a) !! q = Some r' -> (q = p /\ r' = r) \/ (q <> p /\ as_reqs a !! q = Some r').
Proof. simpl. rewrite lookup_insert_Some. naive_solver. Qed.
Lemma a_set_req_id p r a : as_reqs a !! p = Some r -> a_set_req p r a = a.
Proof. intros H. unfold a_set_req, a_set_reqs. rewrite insert_id by done. by destruct a. Qed.
Lemma a_set_cache_id x c a : as_caches a !! x = Some c -> a_set_cache x c a = a.
Proof. intros H. unfold a_set_cache. rewrite insert_id by done. by destruct a. Qed.
Lemma abs_lookup_req s p r : reqs s !! p = Some r -> as_reqs (abs s) !! p = Some (abs_req r).
Proof. intros H. simpl. by rewrite lookup_fmap, H. Qed.
Lemma abs_lookup_dcu s x d : dcus s !! x = Some d -> as_caches (abs s) !! x = Some (abs_dcu d).
Proof. intros H. simpl. by rewrite lookup_fmap, H. Qed.
Lemma abs_lookup_inv s p r : as_reqs (abs s) !! p = Some r -> exists r0, reqs s !! p = Some r0 /\ r = abs_req r0.
Proof. simpl. rewrite lookup_fmap, fmap_Some. done. Qed.

Lemma get_req_done s p r : get_req s p = Done r -> reqs s !! p = Some r.
Proof. apply get_or_done. Qed.
Lemma get_dcu_done s l i d : get_dcu s l i = Done d -> dcus s !! (l, i) = Some d.
Proof. apply get_or_done. Qed.


(** Replacing a cache by one with the same queues. *)
Lemma abs_put_dcu_same l i d d0 s :
  dcus s !! (l, i) = Some d0 -> abs_dcu d = abs_dcu d0 -> abs (put_dcu l i d s) = abs s.
Proof. intros H Hd. rewrite abs_put_dcu, Hd. apply a_set_cache_id, abs_lookup_dcu, H. Qed.
Lemma upd_req_abs f p s s' :
  upd_req f p s = Done s' ->
  exists r, reqs s !! p = Some r /\ reqs s' !! p = Some (f r) /\ abs s' = a_set_req p (abs_req (f r)) (abs s).
Proof.
  unfold upd_req. intros H. inv_done. subst s'. apply get_req_done in E. exists a.
  split; [done |]. split; [apply lookup_insert_eq | apply abs_put_req].
Qed.
(** Updates of fields that the abstraction drops. *)
Lemma upd_req_quiet f p s s' :
  upd_req f p s = Done s' -> (forall r, abs_req (f r) = abs_req r) -> abs s' = abs s.
Proof.
  intros H Hf. destruct (upd_req_abs _ _ _ _ H) as (r & Hr & _ & ->). rewrite Hf.
  by apply a_set_req_id, abs_lookup_req.
Qed.

(** ** The weight of the places

    For a weight [h] of requests, [W h] is the weight of all places a request can
    be in, counted as often as it is there, and [L h] that of the live requests.
    They agree for every [h] when each live request is in exactly one place. *)

Definition W (h : nat -> Z) (a : astate) : Z :=
  msum (fun c => sum_by h (ac_places c)) (as_caches a) + sum_by h (as_out a) + msum (sum_by h) (as_free a)
  + msum (fun r => sum_by h (a_merge r)) (as_reqs a).
Definition L (h : nat -> Z) (a : astate) : Z := ksum (fun p _ => h p) (as_reqs a).
Definition D (h : nat -> Z) (a : astate) : Z := W h a - L h a.

Definition ind (p : nat) (y : nat) : Z := if decide (y = p) then 1 else 0.

Lemma ind_eq p : ind p p = 1.
Proof. unfold ind. by rewrite decide_True. Qed.
Lemma ind_nonneg p y : 0 <= ind p y.
Proof. unfold ind. by case_decide. Qed.

Lemma sum_by_remove h p l :
  sum_by h (filter (fun x => x <> p) l) = sum_by h l - h p * sum_by (ind p) l.
Proof.
  induction l as [| y l IH]; csimpl; [lia |]. unfold ind at 1. destruct (decide (y = p)) as [-> | Hne].
  - rewrite filter_cons_False by (by intros []). rewrite IH. lia.
  - rewrite filter_cons_True by done. csimpl. rewrite IH. lia.
Qed.
Lemma sum_by_nonneg {A} (h : A -> Z) l : (forall y, 0 <= h y) -> 0 <= sum_by h l.
Proof. intros Hh. induction l as [| y l IH]; simpl; [lia |]. specialize (Hh y). lia. Qed.
Lemma sum_by_ind_in p l : p ∈ l -> 1 <= sum_by (ind p) l.
Proof.
  intros Hp. apply list_elem_of_split in Hp as (l1 & l2 & ->). rewrite sum_by_app. simpl. rewrite ind_eq.
  pose proof (sum_by_nonneg (ind p) l1 (ind_nonneg p)). pose proof (sum_by_nonneg (ind p) l2 (ind_nonneg p)). lia.
Qed.
Lemma sum_by_ind_notin p l : p ∉ l -> sum_by (ind p) l = 0.
Proof.
  induction l as [| y l IH]; simpl; [done |]. intros H. apply not_elem_of_cons in H as [H1 H2].
  rewrite (IH H2). unfold ind. by rewrite decide_False.
Qed.
Lemma sum_by_ind_nodup l : (forall p, sum_by (ind p) l <= 1) -> NoDup l.
Proof.
  induction l as [| y l IH]; intros H; constructor.
  - intros Hy. specialize (H y). simpl in H. rewrite ind_eq in H. pose proof (sum_by_ind_in y l Hy). lia.
  - apply IH. intros p. specialize (H p). simpl in H. pose proof (ind_nonneg p y). lia.
Qed.

Lemma ksum_nonneg `{Countable K} {A} (h : K -> A -> Z) (m : gmap K A) : (forall k x, 0 <= h k x) -> 0 <= ksum h m.
Proof. intros Hh. apply sum_by_nonneg. intros [k x]. apply Hh. Qed.
Lemma ksum_ge `{Countable K} {A} (h : K -> A -> Z) (m : gmap K A) k x :
  (forall k x, 0 <= h k x) -> m !! k = Some x -> h k x <= ksum h m.
Proof. intros Hh Hk. pose proof (ksum_delete h m k x Hk). pose proof (ksum_nonneg h (delete k m) Hh). lia. Qed.

Lemma L_ind p a : L (ind p) a = match as_reqs a !! p with Some _ => 1 | None => 0 end.
Proof.
  unfold L. induction (as_reqs a) as [| k x m Hk IH] using map_ind; [done |].
  rewrite (ksum_fresh _ m k x Hk), IH. unfold ind. destruct (decide (k = p)) as [-> | Hne].
  - by rewrite Hk, lookup_insert_eq.
  - by rewrite lookup_insert_ne.
Qed.

(** *** The parts of the weight *)

Section PARTS.
Context (p : nat).
Local Abbreviation hp := (ind p).

Lemma W_parts_nonneg a :
  0 <= msum (fun c => sum_by hp (ac_places c)) (as_caches a) /\ 0 <= sum_by hp (as_out a) /\
  0 <= msum (sum_by hp) (as_free a) /\ 0 <= msum (fun r => sum_by hp (a_merge r)) (as_reqs a).
Proof. repeat split; try apply ksum_nonneg; intros; apply sum_by_nonneg, ind_nonneg. Qed.

Lemma part_queue a x :
  sum_by hp (queue_at a x) <= msum (fun c => sum_by hp (ac_places c)) (as_caches a).
Proof.
  unfold queue_at. destruct (as_caches a !! x.1) as [c |] eqn:Hc.
  - etrans; [| eapply (ksum_ge (fun _ c => sum_by hp (ac_places c)) _ _ c); [| exact Hc]].
    + unfold ac_places. rewrite !sum_by_app.
      pose proof (sum_by_nonneg hp (ac_in c) (ind_nonneg p)). pose proof (sum_by_nonneg hp (ac_wb c) (ind_nonneg p)).
      pose proof (sum_by_nonneg hp (ac_fill c) (ind_nonneg p)). pose proof (sum_by_nonneg hp (ac_out c) (ind_nonneg p)).
      pose proof (sum_by_nonneg hp (ac_retry c) (ind_nonneg p)). destruct x.2; simpl; lia.
    + intros. apply sum_by_nonneg, ind_nonneg.
  - apply W_parts_nonneg.
Qed.
Lemma part_merge a q r :
  as_reqs a !! q = Some r -> sum_by hp (a_merge r) <= msum (fun r => sum_by hp (a_merge r)) (as_reqs a).
Proof.
  intros Hr. apply (ksum_ge (fun _ r => sum_by hp (a_merge r)) _ q r); [| done].
  intros. apply sum_by_nonneg, ind_nonneg.
Qed.
Lemma part_free a c fr :
  as_free a !! c = Some fr -> sum_by hp fr <= msum (sum_by hp) (as_free a).
Proof.
  intros Hr. apply (ksum_ge (fun _ l => sum_by hp l) _ c fr); [| done]. intros. apply sum_by_nonneg, ind_nonneg.
Qed.
Lemma part_merged a : merged p a -> 1 <= msum (fun r => sum_by hp (a_merge r)) (as_reqs a).
Proof. intros (q & r & Hr & Hp). pose proof (part_merge a q r Hr). pose proof (sum_by_ind_in p _ Hp). lia. Qed.
End PARTS.

(** *** Changes of the weight *)

Lemma D_set_req h p r r' a :
  as_reqs a !! p = Some r -> D h (a_set_req p r' a) = D h a - sum_by h (a_merge r) + sum_by h (a_merge r').
Proof.
  intros Hr. unfold D, W, L; simpl. rewrite (msum_insert _ _ _ r r' Hr), (ksum_insert _ _ _ r r' Hr). lia.
Qed.
Lemma D_new_req h p r a :
  as_reqs a !! p = None -> D h (a_set_req p r a) = D h a + sum_by h (a_merge r) - h p.
Proof. intros Hr. unfold D, W, L, msum; simpl. rewrite !ksum_fresh by done. lia. Qed.
Lemma D_del_req h p r a :
  as_reqs a !! p = Some r -> D h (a_set_reqs (delete p (as_reqs a)) a) = D h a - sum_by h (a_merge r) + h p.
Proof. intros Hr. unfold D, W, L, msum; simpl. rewrite !(ksum_delete _ _ _ r) by done. lia. Qed.
Lemma D_set_cache h x c c' a :
  as_caches a !! x = Some c ->
  D h (a_set_cache x c' a) = D h a - sum_by h (ac_places c) + sum_by h (ac_places c').
Proof. intros Hc. unfold D, W, L; simpl. rewrite (msum_insert _ _ _ c c' Hc). lia. Qed.
Lemma D_set_free h m core fr fr' a :
  as_free a !! core = Some fr ->
  D h (a_set_mshr m (<[core := fr']> (as_free a)) a) = D h a - sum_by h fr + sum_by h fr'.
Proof. intros Hc. unfold D, W, L; simpl. rewrite (msum_insert _ _ _ fr fr' Hc). lia. Qed.
Lemma D_set_out h l a : D h (a_set_out l a) = D h a - sum_by h (as_out a) + sum_by h l.
Proof. unfold D, W, L; simpl. lia. Qed.
Lemma D_set_next h n a : D h (a_set_next n a) = D h a.
Proof. done. Qed.

Lemma places_set_queue h q l c :
  sum_by h (ac_places (ac_set q l c)) = sum_by h (ac_places c) - sum_by h (ac_get q c) + sum_by h l.
Proof. unfold ac_places. destruct q; simpl; rewrite !sum_by_app; lia. Qed.
Lemma places_set_retry h l c :
  sum_by h (ac_places (ac_with_retry l c)) = sum_by h (ac_places c) - sum_by h (ac_retry c) + sum_by h l.
Proof. unfold ac_places. simpl; rewrite !sum_by_app; lia. Qed.

Lemma queue_at_set_cache a x c y :
  queue_at (a_set_cache x c a) y = if decide (y.1 = x) then ac_get y.2 c else queue_at a y.
Proof.
  unfold queue_at; simpl. destruct (decide (y.1 = x)) as [-> | Hne].
  - by rewrite lookup_insert_eq.
  - by rewrite lookup_insert_ne by congruence.
Qed.
Lemma ac_get_set q l c q' : ac_get q' (ac_set q l c) = if decide (q' = q) then l else ac_get q' c.
Proof. by destruct q, q'. Qed.
(** Setting one queue. *)
Lemma queue_at_set a x l c y :
  as_caches a !! x.1 = Some c ->
  queue_at (a_set_cache x.1 (ac_set x.2 l c) a) y = if decide (y = x) then l else queue_at a y.
Proof.
  intros Hc. rewrite queue_at_set_cache. destruct x as [x q], y as [y q']; simpl in *.
  destruct (decide (y = x)) as [-> | Hne].
  - rewrite ac_get_set. unfold queue_at; simpl. rewrite Hc. destruct (decide (q' = q)) as [-> | Hq].
    + by rewrite decide_True.
    + rewrite decide_False; congruence.
  - rewrite decide_False; congruence.
Qed.

(** ** The invariant of requests

    A request outside [F] is not done and, if it names a queue, is in it. A GPU
    store is in no miss buffer and has nothing merged under it; what the free
    lists hold is blank. *)

Definition gpu_store (cc20 : bool) (i : req_info) : bool := i_acc i && cc20 && bool_decide (i_type i = MRT_DSTORE).
Definition blank (r : areq) : Prop :=
  a_merge r = [] /\ i_addr (a_info r) = 0 /\ i_size (a_info r) = 0 /\ i_type (a_info r) = MRT_IFETCH.

Record settled (cc20 : bool) (F : list nat) (a : astate) (p : nat) (r : areq) : Prop := mk_settled {
  st_next : (p < as_next a)%nat;
  st_done : p ∉ F -> a_done r = false;
  st_queue : forall x, p ∉ F -> a_queue r = Some x -> p ∈ queue_at a x;
  st_gpu : gpu_store cc20 (a_info r) = true ->
    a_merge r = [] /\ forall core ms, as_mshr a !! core = Some ms -> p ∉ ms;
  st_free : forall core fr, as_free a !! core = Some fr -> p ∈ fr -> blank r
}.
Record calm (cc20 : bool) (F : list nat) (a : astate) : Prop := mk_calm {
  calm_reqs : forall p r, as_reqs a !! p = Some r -> settled cc20 F a p r;
  calm_mshr : forall core ms p, as_mshr a !! core = Some ms -> p ∈ ms -> (p < as_next a)%nat;
  calm_free : forall core fr p, as_free a !! core = Some fr -> p ∈ fr -> (p < as_next a)%nat
}.

Section CALM.
Context (cc20 : bool).
Local Abbreviation calm := (calm cc20).
Local Abbreviation settled := (settled cc20).

Lemma calm_fresh F a : calm F a -> as_reqs a !! as_next a = None.
Proof.
  intros H. destruct (as_reqs a !! as_next a) eqn:E; [| done]. apply (calm_reqs _ _ _ H) in E.
  pose proof (st_next _ _ _ _ _ E). lia.
Qed.

Lemma calm_set_req F F' p r a :
  calm F a -> settled F' a p r -> (forall y, y <> p -> y ∉ F' -> y ∉ F) -> calm F' (a_set_req p r a).
Proof.
  intros [Hr Hm Hl] Hp HF. split; [| exact Hm | exact Hl]. intros y ry Hy. simpl in Hy.
  apply lookup_insert_Some in Hy as [[<- <-] | [Hne Hy]]; [destruct Hp; by constructor |].
  destruct (Hr y ry Hy). constructor; simpl; eauto.
Qed.
Lemma calm_set_req_same F p r r' a :
  calm F a -> as_reqs a !! p = Some r -> a_info r' = a_info r -> a_done r' = a_done r ->
  (a_queue r' = a_queue r \/ a_queue r' = None) -> (forall i, i ∈ a_merge r' -> i ∈ a_merge r) -> calm F (a_set_req p r' a).
Proof.
  intros H Hp Hi Hd Hq Hm. apply (calm_set_req F); [done | | done].
  assert (Hnil : a_merge r = [] -> a_merge r' = []).
  { intros E. rewrite E in Hm. destruct (a_merge r') as [| i m]; [done |]. specialize (Hm i). set_solver. }
  destruct (calm_reqs _ _ _ H p r Hp). constructor.
  - done.
  - intros. rewrite Hd. auto.
  - intros x HF Hx. destruct Hq as [Hq | Hq]; [| congruence]. apply st_queue0; congruence.
  - rewrite Hi. intros G. destruct (st_gpu0 G). auto.
  - intros core fr Hf Hin. destruct (st_free0 core fr Hf Hin) as (B1 & B2). rewrite <- Hi in B2. split; auto.
Qed.
(** Replacing a cache: every request keeps the queue it names. *)
Lemma calm_set_cache F x c a :
  calm F a ->
  (forall z y r, y ∉ F -> as_reqs a !! y = Some r -> a_queue r = Some z -> y ∈ queue_at a z ->
     y ∈ queue_at (a_set_cache x c a) z) ->
  calm F (a_set_cache x c a).
Proof.
  intros [Hr Hm Hl] Hq. split; [| exact Hm | exact Hl]. intros y r Hy. simpl in Hy. destruct (Hr y r Hy). constructor; simpl; eauto.
Qed.
Lemma calm_set_next F n a : calm F a -> (as_next a <= n)%nat -> calm F (a_set_next n a).
Proof.
  intros [Hr Hm Hl] Hn. split.
  - intros p r Hp. simpl in Hp. destruct (Hr p r Hp). constructor; simpl; eauto. lia.
  - intros core ms p Hc Hp. simpl. eapply Nat.lt_le_trans; [by eapply Hm | done].
  - intros core fr p Hc Hp. simpl. eapply Nat.lt_le_trans; [by eapply Hl | done].
Qed.
Lemma calm_set_out F l a : calm F a -> calm F (a_set_out l a).
Proof. intros [Hr Hm Hl]. split; [| exact Hm | exact Hl]. intros p r Hp. destruct (Hr p r Hp). by constructor. Qed.
Lemma calm_del F p a : calm (p :: F) a -> calm F (a_set_reqs (delete p (as_reqs a)) a).
Proof.
  intros [Hr Hm Hl]. split; [| exact Hm | exact Hl]. intros y r Hy. simpl in Hy. apply lookup_delete_Some in Hy as [Hne Hy].
  destruct (Hr y r Hy). constructor; simpl; eauto.
  - intros HF. apply st_done0. set_solver.
  - intros x HF. apply st_queue0. set_solver.
Qed.
Lemma calm_weaken F F' a : calm F a -> (forall y, y ∉ F' -> y ∉ F) -> calm F' a.
Proof. intros [Hr Hm Hl] HF. split; [| exact Hm | exact Hl]. intros p r Hp. destruct (Hr p r Hp). constructor; eauto. Qed.
Lemma calm_set_mshr F ms fr core a :
  calm F a ->
  (forall p, p ∈ ms -> (p < as_next a)%nat /\ forall r, as_reqs a !! p = Some r -> gpu_store cc20 (a_info r) = false) ->
  (forall p, p ∈ fr -> (p < as_next a)%nat /\ forall r, as_reqs a !! p = Some r -> blank r) ->
  calm F (a_set_mshr (<[core := ms]> (as_mshr a)) (<[core := fr]> (as_free a)) a).
Proof.
  intros [Hr Hm Hl] Hms Hfr. split.
  - intros p r Hp. simpl in Hp. destruct (Hr p r Hp). constructor; simpl; eauto.
    + intros G. destruct (st_gpu0 G) as [G1 G2]. split; [done |]. intros core' ms' Hc Hin.
      apply lookup_insert_Some in Hc as [[<- <-] | [Hne Hc]]; [| by eapply G2].
      destruct (Hms p Hin) as [_ Hg]. specialize (Hg r Hp). congruence.
    + intros core' fr' Hc Hin. apply lookup_insert_Some in Hc as [[<- <-] | [Hne Hc]]; [| by eauto].
      by apply (proj2 (Hfr p Hin)).
  - intros core' ms' p Hc Hin. simpl in *. apply lookup_insert_Some in Hc as [[<- <-] | [Hne Hc]]; [by apply Hms | eauto].
  - intros core' fr' p Hc Hin. simpl in *. apply lookup_insert_Some in Hc as [[<- <-] | [Hne Hc]]; [by apply Hfr | eauto].
Qed.

(** ** Pushing and popping *)

Definition pushed (x : qid) (p : nat) (a a' : astate) : Prop :=
  exists c r l, as_caches a !! x.1 = Some c /\ as_reqs a !! p = Some r /\ l ≡ₚ p :: ac_get x.2 c /\
    a' = a_set_cache x.1 (ac_set x.2 l c) (a_set_req p (a_with_queue (Some x) r) a).

Lemma pushed_D h x p a a' : pushed x p a a' -> D h a' = D h a + h p.
Proof.
  intros (c & r & l & Hc & Hr & Hl & ->). rewrite (D_set_cache _ _ c) by done.
  rewrite places_set_queue, (sum_by_perm _ _ _ Hl), (D_set_req _ _ r) by done. simpl. lia.
Qed.
Lemma pushed_queue x p a a' y :
  pushed x p a a' -> (y <> x /\ queue_at a' y = queue_at a y) \/ (y = x /\ queue_at a' y ≡ₚ p :: queue_at a y).
Proof.
  intros (c & r & l & Hc & Hr & Hl & ->). rewrite queue_at_set by done. destruct (decide (y = x)) as [-> | Hne].
  - right. split; [done |]. unfold queue_at. by rewrite Hc.
  - by left.
Qed.
Lemma pushed_grow x p a a' y q : pushed x p a a' -> q ∈ queue_at a y -> q ∈ queue_at a' y.
Proof.
  intros H Hq. destruct (pushed_queue _ _ _ _ y H) as [[_ ->] | [_ Hp]]; [done |]. rewrite Hp. by right.
Qed.
Lemma pushed_reqs x p a a' :
  pushed x p a a' -> exists r, as_reqs a !! p = Some r /\ as_reqs a' = <[p := a_with_queue (Some x) r]> (as_reqs a).
Proof. intros (c & r & l & Hc & Hr & Hl & ->). eauto. Qed.
Lemma pushed_rest x p a a' :
  pushed x p a a' -> as_mshr a' = as_mshr a /\ as_free a' = as_free a /\ as_next a' = as_next a /\ as_out a' = as_out a /\
    as_refused a' = as_refused a.
Proof. by intros (c & r & l & Hc & Hr & Hl & ->). Qed.

Lemma pushed_calm F x p a a' : pushed x p a a' -> calm F a -> calm F a'.
Proof.
  intros H Hcalm. pose proof H as (c & r & l & Hc & Hr & Hl & Ha').
  destruct (pushed_rest _ _ _ _ H) as (M1 & M2 & M3 & M4 & M5). split.
  - intros y ry Hy.
    assert (Hy0 : exists r0, as_reqs a !! y = Some r0 /\ a_info ry = a_info r0 /\ a_done ry = a_done r0 /\
      a_merge ry = a_merge r0 /\ ((y = p /\ a_queue ry = Some x) \/ a_queue ry = a_queue r0)).
    { rewrite Ha' in Hy. simpl in Hy. apply lookup_insert_Some in Hy as [[<- <-] | [Hne Hy]]; eauto 10. }
    destruct Hy0 as (r0 & Hy0 & E1 & E2 & E3 & E4). destruct (calm_reqs _ _ _ Hcalm y r0 Hy0).
    constructor; unfold blank; rewrite ?M1, ?M2, ?M3, ?E1, ?E2, ?E3; auto.
    intros z HF Hz. destruct E4 as [[-> Hx] | E4].
    + assert (z = x) as -> by congruence. destruct (pushed_queue _ _ _ _ x H) as [[] | [_ Hp]]; [done |].
      rewrite Hp. by left.
    + apply (pushed_grow _ _ _ _ z y H), st_queue0; congruence.
  - intros core ms y. rewrite M1, M3. apply Hcalm.
  - intros core fr y. rewrite M2, M3. apply Hcalm.
Qed.

(** Popping takes every occurrence out. *)
Definition a_pop (x : qid) (p : nat) (a : astate) : astate :=
  match as_caches a !! x.1 with
  | Some c => a_set_cache x.1 (ac_set x.2 (filter (fun y => y <> p) (ac_get x.2 c)) c) a
  | None => a
  end.
Lemma queue_pop_abs l i q p s s' : queue_pop l i q p s = Done s' -> abs s' = a_pop (l, i, q) p (abs s).
Proof.
  unfold queue_pop. intros H. inv_done. subst s'. apply get_dcu_done in E.
  unfold a_pop; simpl fst; simpl snd. rewrite (abs_lookup_dcu _ _ _ E).
  by rewrite abs_put_dcu, abs_dcu_q_set, abs_dcu_q_get.
Qed.
Lemma a_pop_D h x p a : D h (a_pop x p a) = D h a - h p * sum_by (ind p) (queue_at a x).
Proof.
  unfold a_pop, queue_at. destruct (as_caches a !! x.1) as [c |] eqn:Hc; [| simpl; lia].
  rewrite (D_set_cache _ _ c) by done. rewrite places_set_queue, sum_by_remove. lia.
Qed.
Lemma a_pop_queue x p a y :
  queue_at (a_pop x p a) y = if decide (y = x) then filter (fun q => q <> p) (queue_at a x) else queue_at a y.
Proof.
  unfold a_pop. destruct (as_caches a !! x.1) as [c |] eqn:Hc.
  - rewrite queue_at_set by done. destruct (decide (y = x)); [| done]. unfold queue_at. by rewrite Hc.
  - destruct (decide (y = x)) as [-> | _]; [| done]. unfold queue_at. by rewrite Hc.
Qed.
Lemma a_pop_reqs x p a : as_reqs (a_pop x p a) = as_reqs a.
Proof. unfold a_pop. by destruct (as_caches a !! x.1). Qed.
Lemma a_pop_rest x p a :
  as_mshr (a_pop x p a) = as_mshr a /\ as_free (a_pop x p a) = as_free a /\ as_next (a_pop x p a) = as_next a /\
  as_out (a_pop x p a) = as_out a /\ as_refused (a_pop x p a) = as_refused a.
Proof. unfold a_pop. by destruct (as_caches a !! x.1). Qed.
Lemma a_pop_calm F x p a :
  calm F a -> p ∈ F \/ (forall r, as_reqs a !! p = Some r -> a_queue r <> Some x) -> calm F (a_pop x p a).
Proof.
  intros H Hp. unfold a_pop. destruct (as_caches a !! x.1) as [c |] eqn:Hc; [| done].
  apply calm_set_cache; [done |]. intros z y r HF Hy Hz Hin. rewrite queue_at_set by done.
  destruct (decide (z = x)) as [-> | Hne]; [| done]. apply list_elem_of_filter.
  unfold queue_at in Hin. rewrite Hc in Hin. split; [| done]. intros ->. destruct Hp as [Hp | Hp]; [done |].
  by eapply Hp.
Qed.
End CALM.

(** ** The elementary operations of the code *)

Section OPS.
Context {Env : mem_env}.
Local Abbreviation k := env_knobs.
Local Abbreviation calm := (calm (KNOB_CC20 k)).

Lemma queue_push_abs l i q p s s' b :
  queue_push l i q p s = Done (s', b) ->
  (b = false /\ s' = s) \/ (b = true /\ pushed (l, i, q) p (abs s) (abs s')).
Proof.
  unfold queue_push. intros H. inv_done. destruct (Nat.eqb _ _); inv_done; simplify_eq; [by left | right].
  split; [done |]. apply get_dcu_done in E. destruct (upd_req_abs _ _ _ _ E0) as (r & Hr & _ & Ha).
  rewrite abs_put_dcu, abs_dcu_q_set, Ha. eexists _, _, _. split_and!; [by apply abs_lookup_dcu | by apply abs_lookup_req | | done].
  rewrite list_sort_perm, abs_dcu_q_get. symmetry. apply Permutation_cons_append.
Qed.


(** Steps that change caches, ports and micro-operations only. *)
Lemma put_dcu_quiet l i d d0 s :
  get_dcu s l i = Done d0 -> abs_dcu d = abs_dcu d0 -> abs (put_dcu l i d s) = abs s.
Proof. intros H. apply abs_put_dcu_same, get_dcu_done, H. Qed.
Lemma mark_dirty_quiet l i x s s' : mark_dirty l i x s = Done s' -> abs s' = abs s.
Proof. unfold mark_dirty. intros H. inv_done. subst s'. by eapply put_dcu_quiet. Qed.
Lemma write_port_quiet l i addr s s' b : dcu_write_port l i addr s = Done (s', b) -> abs s' = abs s.
Proof. unfold dcu_write_port. intros H. inv_done. destruct a2 as [pt ok]. inv_done. simplify_eq. by eapply put_dcu_quiet. Qed.
Lemma lookup_in_quiet l i r s s' x : lookup_in l i r s = Done (s', x) -> abs s' = abs s.
Proof.
  unfold lookup_in. intros H. inv_done. destruct (_ || _); inv_done; [by simplify_eq |].
  destruct a1 as [[line la] c1]. inv_done. simplify_eq. by eapply put_dcu_quiet.
Qed.
Lemma wake_uop_quiet acc u s s' : wake_uop acc u s = Done s' -> abs s' = abs s.
Proof.
  unfold wake_uop, note_ready. intros H. inv_done. destruct acc; simpl in H; [| by inv_done; subst].
  destruct (u_parent a); inv_done; [| by destruct (KNOB_FETCH_ONLY_LOAD_READY k); subst].
  destruct (_ =? _); inv_done; subst; [| done]. by destruct (KNOB_FETCH_ONLY_LOAD_READY k).
Qed.
Lemma write_done_quiet p s s' : dcu_write_done p s = Done s' -> abs s' = abs s.
Proof. unfold dcu_write_done. intros H. inv_done. by eapply wake_uop_quiet. Qed.

(** A write-back is created and pushed. *)
Definition spawned (x : qid) (a a' : astate) : Prop :=
  exists r, a_merge r = [] /\ a_done r = false /\ a_queue r = None /\ i_type (a_info r) = MRT_WB /\
    pushed x (as_next a) (a_set_next (S (as_next a)) (a_set_req (as_next a) r a)) a'.
Definition spills (x : qid) (a a' : astate) : Prop := a' = a \/ spawned x a a'.

Lemma wb_not_gpu cc i : i_type i = MRT_WB -> gpu_store cc i = false.
Proof. unfold gpu_store. intros ->. by rewrite andb_false_r. Qed.

Lemma spawned_D F h x a a' : calm F a -> spawned x a a' -> D h a' = D h a.
Proof.
  intros Hc (r & Hm & _ & _ & _ & Hp). rewrite (pushed_D h _ _ _ _ Hp), D_set_next.
  rewrite D_new_req by (by eapply calm_fresh). rewrite Hm. simpl. lia.
Qed.
Lemma spawned_calm F x a a' : calm F a -> spawned x a a' -> calm F a'.
Proof.
  intros Hc (r & Hm & Hd & Hq & Ht & Hp). eapply pushed_calm; [exact Hp |].
  assert (Hn : calm F (a_set_next (S (as_next a)) a)) by (apply calm_set_next; [done | lia]).
  apply (calm_set_req _ F F (as_next a) r _ Hn); [| done]. constructor; simpl.
  - lia.
  - done.
  - congruence.
  - by rewrite (wb_not_gpu _ _ Ht).
  - intros core fr Hf Hin. pose proof (calm_free _ _ _ Hc core fr _ Hf Hin). lia.
Qed.

(** The invariants a push of a fresh write-back leaves alone. *)
Lemma spawned_queue x a a' y :
  spawned x a a' ->
  (y <> x -> queue_at a' y = queue_at a y) /\ (forall q, q ∈ queue_at a y -> q ∈ queue_at a' y).
Proof.
  intros (r & Hm & Hd & Hq & Ht & Hp). split.
  - intros Hne. destruct (pushed_queue _ _ _ _ y Hp) as [[_ ->] | [-> _]]; done.
  - intros q Hin. by apply (pushed_grow _ _ _ _ y q Hp).
Qed.
Lemma spawned_reqs x a a' :
  spawned x a a' -> exists r, a_merge r = [] /\ as_reqs a' = <[as_next a := r]> (as_reqs a).
Proof.
  intros (r & Hm & Hd & Hq & Ht & Hp). destruct (pushed_reqs _ _ _ _ Hp) as (r0 & Hr0 & ->). simpl in *.
  rewrite lookup_insert_eq in Hr0. injection Hr0 as <-. exists (a_with_queue (Some x) r). split; [done |].
  by rewrite insert_insert_eq.
Qed.
Lemma spawned_rest x a a' : spawned x a a' -> as_out a' = as_out a /\ as_refused a' = as_refused a.
Proof. intros (r & _ & _ & _ & _ & Hp). by destruct (pushed_rest _ _ _ _ Hp) as (_ & _ & _ & -> & ->). Qed.

Lemma write_back_victim_spills l i r victim data s s' :
  write_back_victim l i r victim data s = Done s' -> spills (l, i, QWb) (abs s) (abs s').
Proof.
  unfold write_back_victim. destruct (_ || _); intros H; inv_done; [left; by subst |].
  destruct (new_wb_req _ _ _ _ s) as [s1 wb] eqn:Ew. inv_done. destruct a1 as [s2 ok]. inv_done. subst s2 ok.
  injection Ew as Hs1 Hwb. right. subst wb.
  destruct (queue_push_abs _ _ _ _ _ _ _ E1) as [[] | [_ Hp]]; [done |].
  rewrite (upd_req_quiet _ _ _ _ E0) in Hp by done. rewrite <- Hs1, abs_put_req in Hp.
  eexists. split_and!; [| | | | exact Hp]; done.
Qed.
Lemma insert_line_spills l i r s s' : insert_line l i r s = Done s' -> spills (l, i, QWb) (abs s) (abs s').
Proof.
  unfold insert_line. intros H. inv_done. destruct a1 as [[[[n w] x] victim] c1]. inv_done. subst s'.
  pose proof (write_back_victim_spills _ _ _ _ _ _ _ E3) as Hw.
  rewrite (put_dcu_quiet l i _ _ s E) in Hw by done. by rewrite (put_dcu_quiet _ _ _ _ _ E4).
Qed.
Lemma dcu_done_spills p s s' b :
  dcu_done p s = Done (s', b) -> exists i, spills (L1, i, QWb) (abs s) (abs s').
Proof.
  unfold dcu_done. intros H. step H as r Hr. step H as full Hf. exists (cid r L1).
  destruct full; [left; by apply done_pair in H as [-> _] |]. step H as d Hd. step H as [s1 ok] Hs.
  assert (Hs1 : spills (L1, cid r L1, QWb) (abs s) (abs s1)).
  { clear H. destruct (m_disable (d_cfg d)); [left; by apply done_pair in Hs as [-> _] |]. step Hs as [s2 port] Hp.
    apply write_port_quiet in Hp. destruct port; simpl in Hs; [| left; by apply done_pair in Hs as [-> _]].
    step Hs as d1 Hd1. step Hs as c Hc. step Hs as [[line la] c1] Ha. destruct line as [x |].
    - left. apply done_pair in Hs as [-> _]. by rewrite (put_dcu_quiet _ _ _ _ _ Hd1).
    - step Hs as s3 Hi. apply done_pair in Hs as [-> _]. apply insert_line_spills in Hi.
      by rewrite (put_dcu_quiet _ _ _ _ _ Hd1), Hp in Hi. }
  destruct ok; simpl in H; [| by apply done_pair in H as [-> _]].
  destruct (i_uop (r_info r)); [| by apply done_pair in H as [-> _]].
  step H as s3 Hw. apply done_pair in H as [-> _]. by rewrite (wake_uop_quiet _ _ _ _ Hw).
Qed.

(** ** Freeing a request *)

Record freed (p : nat) (a a' : astate) : Prop := mk_freed {
  fr_D : forall h, D h a' = D h a + h p;
  fr_keep : forall y, y <> p -> as_reqs a' !! y = as_reqs a !! y;
  fr_self : forall r, as_reqs a' !! p = Some r -> a_merge r = [];
  fr_queue : forall x, queue_at a' x = queue_at a x;
  fr_out : as_out a' = as_out a;
  fr_refused : as_refused a' = as_refused a;
  fr_calm : forall F, calm (p :: F) a -> calm F a'
}.

Lemma deleted_freed p r a :
  as_reqs a !! p = Some r -> a_merge r = [] -> freed p a (a_set_reqs (delete p (as_reqs a)) a).
Proof.
  intros Hr Hm. constructor; try done.
  - intros h. rewrite (D_del_req h p r) by done. rewrite Hm. simpl. lia.
  - intros y Hy. simpl. by rewrite lookup_delete_ne.
  - intros r' Hr'. simpl in Hr'. by rewrite lookup_delete_eq in Hr'.
  - intros F. apply calm_del.
Qed.

Lemma blank_not_gpu cc r : blank r -> gpu_store cc (a_info r) = false.
Proof. unfold gpu_store. intros (_ & _ & _ & ->). by rewrite andb_false_r. Qed.

Lemma recycled_freed p r r' core ms fr a :
  as_reqs a !! p = Some r -> a_merge r = [] -> blank r' -> a_queue r' = None -> a_done r' = false ->
  as_mshr a !! core = Some ms -> as_free a !! core = Some fr ->
  freed p a (a_set_mshr (<[core := filter (fun x => x <> p) ms]> (as_mshr a)) (<[core := fr ++ [p]]> (as_free a))
               (a_set_req p r' a)).
Proof.
  intros Hr Hm Hb Hq Hd Hms Hfr. set (a1 := a_set_req p r' a). constructor; try done.
  - intros h. change (as_free a) with (as_free a1). rewrite (D_set_free h _ core fr) by done.
    unfold a1. rewrite (D_set_req h p r), Hm, (proj1 Hb), sum_by_app by done. simpl. lia.
  - intros y Hy. simpl. by rewrite lookup_insert_ne.
  - intros r0. simpl. rewrite lookup_insert_eq. intros [= <-]. apply Hb.
  - intros F Hc. assert (H1 : calm F a1).
    { apply (calm_set_req _ (p :: F)); [done | | set_solver]. pose proof (calm_reqs _ _ _ Hc p r Hr) as Hs.
      constructor; [apply Hs | done | congruence | by rewrite (blank_not_gpu _ _ Hb) | done]. }
    apply (calm_set_mshr _ F (filter (fun x => x <> p) ms) (fr ++ [p]) core a1 H1).
    + intros y Hy. apply list_elem_of_filter in Hy as [Hne Hy]. split; [by eapply (calm_mshr _ _ _ H1) |].
      intros ry Hry. pose proof (st_gpu _ _ _ _ _ (calm_reqs _ _ _ H1 y ry Hry)) as Hg.
      destruct (gpu_store _ _); [| done]. destruct Hg as [_ Hn]; [done |]. by destruct (Hn core ms).
    + intros y Hy. apply elem_of_app in Hy as [Hy | Hy].
      * split; [by eapply (calm_free _ _ _ H1) |]. intros ry Hry. by eapply (st_free _ _ _ _ _ (calm_reqs _ _ _ H1 y ry Hry)).
      * apply list_elem_of_singleton in Hy as ->. assert (Hp : as_reqs a1 !! p = Some r') by apply lookup_insert_eq.
        split; [apply (calm_reqs _ _ _ H1 p r' Hp) |]. intros ry. rewrite Hp. by intros [= <-].
Qed.

(** What [free_req] does once nothing is merged under the request. *)
Lemma release_freed core p s s' :
  (r1 ← get_req s p;
   _ ← ASSERT (bool_decide (r_merge r1 = []));
   if bool_decide (i_type (r_info r1) = MRT_WB) then mret (with_reqs (delete p (reqs s)) s)
   else
     ms ← get_or OutOfBounds (m_mshr s !! core);
     fr ← get_or OutOfBounds (m_mshr_free_list s !! core);
     mret (with_mshr (<[core := filter (fun x => x <> p) ms]> (m_mshr s)) (<[core := fr ++ [p]]> (m_mshr_free_list s))
             (put_req p (req_init r1) s))) = Done s' ->
  freed p (abs s) (abs s').
Proof.
  intros H. step H as r Hr. step H as [] Ha. apply ASSERT_done, bool_decide_eq_true in Ha. apply get_req_done in Hr.
  pose proof (abs_lookup_req _ _ _ Hr) as Hr'. destruct (bool_decide _).
  - apply done_val in H as ->. replace (abs (with_reqs _ s)) with (a_set_reqs (delete p (as_reqs (abs s))) (abs s)).
    + by apply (deleted_freed p (abs_req r)).
    + unfold abs, a_set_reqs; simpl. by rewrite fmap_delete.
  - step H as ms Hms. step H as fr Hfr. apply get_or_done in Hms, Hfr. apply done_val in H as ->.
    pose proof (recycled_freed p (abs_req r) (abs_req (req_init r)) core ms fr (abs s) Hr' Ha) as Hrec.
    rewrite <- abs_put_req in Hrec. by apply Hrec.
Qed.

(** ** Completion of merged requests

    [rho] ranks a merged request above the one it is merged under, so serving a
    request never touches those of its rank or below. [F] are the requests known
    to be done. *)

Definition clean (a : astate) : Prop := forall i, merged i a -> D (ind i) a <= 0.
Definition ranked (rho : nat -> nat) (a : astate) : Prop :=
  forall p r i, as_reqs a !! p = Some r -> i ∈ a_merge r -> (rho p < rho i)%nat.

Section SERVE.
Context (rho : nat -> nat) (F : list nat).

Record ready (a : astate) : Prop := mk_ready {
  rd_rank : ranked rho a;
  rd_clean : clean a;
  rd_calm : calm F a;
  rd_F : forall i, i ∈ F -> ~ merged i a
}.

(** A step that leaves the requests of [K] alone. *)
Record serves (K : nat -> Prop) (a a' : astate) : Prop := mk_serves {
  sv_D : forall h, D h a' = D h a;
  sv_keep : forall y r, K y -> as_reqs a !! y = Some r -> as_reqs a' !! y = Some r;
  sv_shrink : forall y r' i, as_reqs a' !! y = Some r' -> i ∈ a_merge r' ->
    exists r, as_reqs a !! y = Some r /\ i ∈ a_merge r;
  sv_queue : forall x, x.2 <> QWb -> queue_at a' x = queue_at a x;
  sv_out : as_out a' = as_out a;
  sv_refused : as_refused a' = as_refused a;
  sv_calm : calm F a'
}.

Lemma serves_refl K a : calm F a -> serves K a a.
Proof. intros Hc. constructor; eauto. Qed.
Lemma serves_trans K K1 K2 a b c :
  serves K1 a b -> serves K2 b c -> (forall y, K y -> K1 y /\ K2 y) -> serves K a c.
Proof.
  intros [] [] HK. constructor; eauto; try congruence.
  - intros y r Hy. destruct (HK y Hy). eauto.
  - intros y r' i Hy Hi. destruct (sv_shrink1 y r' i Hy Hi) as (r & Hr & Hir). eauto.
  - intros x Hx. by rewrite sv_queue1, sv_queue0.
Qed.
Lemma serves_weaken K K' a a' : serves K a a' -> (forall y, K' y -> K y) -> serves K' a a'.
Proof. intros [] HK. constructor; eauto. Qed.
Lemma serves_merged K a a' i : serves K a a' -> merged i a' -> merged i a.
Proof. intros H (p & r' & Hr & Hi). destruct (sv_shrink _ _ _ H p r' i Hr Hi) as (r & ? & ?). by exists p, r. Qed.
Lemma serves_ready K a a' : serves K a a' -> ready a -> ready a'.
Proof.
  intros H [Hk Hc Hm HF]. constructor.
  - intros p r' i Hp Hi. destruct (sv_shrink _ _ _ H p r' i Hp Hi) as (r & Hr & Hir). by eapply Hk.
  - intros i Hi. rewrite (sv_D _ _ _ H). by apply Hc, (serves_merged K a a').
  - apply H.
  - intros i Hi Hm'. by apply (HF i Hi), (serves_merged K a a').
Qed.
Lemma spills_serves K l i a a' : calm F a -> spills (l, i, QWb) a a' -> serves K a a'.
Proof.
  intros Hc [-> | Hs]; [by apply serves_refl |]. destruct (spawned_reqs _ _ _ Hs) as (r0 & Hm & Hr).
  destruct (spawned_rest _ _ _ Hs) as [Ho Hf]. constructor; try done.
  - intros h. by apply (spawned_D F h _ _ _ Hc Hs).
  - intros y r _ Hy. rewrite Hr, lookup_insert_ne; [done |]. intros <-. by rewrite (calm_fresh _ _ _ Hc) in Hy.
  - intros y r' j. rewrite Hr. intros [[<- <-] | [Hne Hy]]%lookup_insert_Some Hj; [| eauto]. rewrite Hm in Hj. set_solver.
  - intros x Hx. apply (spawned_queue _ _ _ x Hs). intros ->. by apply Hx.
  - by apply (spawned_calm F _ _ _ Hc Hs).
Qed.

(** Serving [p] itself: only requests merged under it change, and its own list. *)
Definition around (p : nat) (a : astate) (y : nat) : Prop := y <> p /\ ((rho y <= rho p)%nat \/ ~ merged y a).
Definition served (p : nat) (a a' : astate) : Prop :=
  serves (around p a) a a' /\
  forall r, as_reqs a !! p = Some r -> exists m, as_reqs a' !! p = Some (a_with_merge m r).

Lemma a_with_merge_id r : a_with_merge (a_merge r) r = r.
Proof. by destruct r. Qed.
Lemma around_mono p K a a' y : serves K a a' -> around p a y -> around p a' y.
Proof. intros H [Hne [Hr | Hm]]; split; auto. right. intros Hm'. by apply Hm, (serves_merged K a a'). Qed.
Lemma served_trans p a b c : served p a b -> served p b c -> served p a c.
Proof.
  intros [H1 S1] [H2 S2]. split.
  - eapply serves_trans; [exact H1 | exact H2 |]. intros y Hy. split; [done |]. by eapply around_mono.
  - intros r Hr. destruct (S1 r Hr) as [m Hm]. destruct (S2 _ Hm) as [m' Hm']. by exists m'.
Qed.
Lemma untouched_served p a a' : serves (fun _ => True) a a' -> served p a a'.
Proof.
  intros H. split; [by eapply serves_weaken |]. intros r Hr. exists (a_merge r). rewrite a_with_merge_id. by apply H.
Qed.

(** A request merged under [p]: serving it leaves [p] alone. *)
Definition under (p : nat) (a : astate) (y : nat) : Prop := (rho y <= rho p)%nat \/ ~ merged y a.
Lemma served_under p i a a' : served i a a' -> merged i a -> (rho p < rho i)%nat -> serves (under p a) a a'.
Proof.
  intros [H _] Hi Hr. eapply serves_weaken; [exact H |]. intros y Hy. split.
  - intros ->. destruct Hy; [lia | done].
  - destruct Hy; [left; lia | by right].
Qed.

(** A merged request is live and merged once. *)
Lemma merged_once p r i a :
  clean a -> as_reqs a !! p = Some r -> i ∈ a_merge r -> sum_by (ind i) (a_merge r) = 1 /\ D (ind i) a = 0.
Proof.
  intros Hc Hr Hi. assert (Hm : merged i a) by (by exists p, r). specialize (Hc i Hm).
  pose proof (part_merge i a p r Hr). pose proof (sum_by_ind_in i _ Hi).
  destruct (W_parts_nonneg i a) as (? & ? & ? & ?). pose proof (L_ind i a). unfold D, W in *.
  destruct (as_reqs a !! i); lia.
Qed.

(** *** One level of the recursion *)

Section WRAP.
Context (wrap : bool -> nat -> memory_c -> outcome (memory_c * bool)).
Context (Hwrap : forall data p s s' b, ready (abs s) -> wrap data p s = Done (s', b) -> served p (abs s) (abs s')).

Lemma dcu_done_served p s s' b : ready (abs s) -> dcu_done p s = Done (s', b) -> served p (abs s) (abs s').
Proof.
  intros Hr H. destruct (dcu_done_spills _ _ _ _ H) as [i Hs]. apply untouched_served.
  eapply spills_serves; [apply Hr | exact Hs].
Qed.
Lemma quiet_served p s s' : ready (abs s) -> abs s' = abs s -> served p (abs s) (abs s').
Proof. intros Hr ->. apply untouched_served, serves_refl, Hr. Qed.

Lemma run_done_func_served p s s' b :
  ready (abs s) -> run_done_func wrap p s = Done (s', b) -> served p (abs s) (abs s').
Proof.
  intros Hr H. unfold run_done_func in H. step H as r Hp. destruct (i_done_func (r_info r)) as [[] |].
  - by eapply Hwrap.
  - step H as s1 Hw. apply done_pair in H as [-> _]. by eapply quiet_served, write_done_quiet.
  - by eapply Hwrap.
  - apply done_pair in H as [-> _]. by apply quiet_served.
Qed.

Lemma free_req_with_freed core p s s' :
  ready (abs s) -> free_req_with wrap core p s = Done s' -> exists a1, served p (abs s) a1 /\ freed p a1 (abs s').
Proof.
  intros Hr H. unfold free_req_with in H. step H as r Hp. step H as s1 Hs. exists (abs s1).
  split; [| by apply (release_freed core)]. clear H. destruct (r_merge r) as [| i m].
  - apply done_val in Hs as ->. by apply quiet_served.
  - step Hs as [s2 b] Hw. apply done_val in Hs as ->. by eapply Hwrap.
Qed.

Lemma serve_merged_serves p r l s s' b dones :
  ready (abs s) -> as_reqs (abs s) !! p = Some r -> (forall i, i ∈ l -> i ∈ a_merge r) ->
  serve_merged wrap l s = Done (s', b, dones) ->
  serves (under p (abs s)) (abs s) (abs s') /\ sublist dones l.
Proof.
  revert s s' b dones. induction l as [| i l IH]; intros s s' b dones Hr Hp Hl H; simpl in H.
  - apply done_pair in H as [[= -> _] ->]. split; [by apply serves_refl, Hr | done].
  - step H as [s1 ok] H1. step H as [[s2 res] dones'] H2. apply done_pair in H as [[= -> _] ->].
    assert (Hi : i ∈ a_merge r) by (apply Hl; by left).
    apply run_done_func_served in H1; [| done].
    eapply (served_under p) in H1; [| by exists p, r | by eapply (rd_rank _ Hr)].
    apply IH in H2 as [H2 H3].
    + split.
      * eapply serves_trans; [exact H1 | exact H2 |]. intros y Hy. split; [done |].
        destruct Hy as [Hy | Hy]; [by left |]. right. intros Hm. by apply Hy, (serves_merged _ _ _ _ H1).
      * destruct ok; by constructor.
    + by eapply serves_ready.
    + apply H1; [| done]. by left.
    + intros j Hj. apply Hl. by right.
Qed.

(** Taking [i] out of the list of [p] and freeing it. *)
Lemma unmerge_ready p r i a :
  ready a -> as_reqs a !! p = Some r -> i ∈ a_merge r ->
  let a1 := a_set_req p (a_with_merge (filter (fun x => x <> i) (a_merge r)) r) a in
  ready a1 /\ (forall h, D h a1 = D h a - h i) /\ (forall j, merged j a1 -> merged j a).
Proof.
  intros Hr Hp Hi a1. destruct (merged_once p r i a (rd_clean _ Hr) Hp Hi) as [H1 H0].
  assert (HD : forall h, D h a1 = D h a - h i).
  { intros h. unfold a1. rewrite (D_set_req h p r) by done. simpl. rewrite sum_by_remove, H1. lia. }
  assert (Hsub : forall q r' j, as_reqs a1 !! q = Some r' -> j ∈ a_merge r' -> exists r0, as_reqs a !! q = Some r0 /\ j ∈ a_merge r0).
  { intros q r' j Hq Hj. apply set_req_lookup in Hq as [[-> ->] | [Hne Hq]]; [| eauto]. exists r. split; [done |].
    simpl in Hj. by apply list_elem_of_filter in Hj as [_ ?]. }
  assert (Hmg : forall j, merged j a1 -> merged j a).
  { intros j (q & r' & Hq & Hj). destruct (Hsub q r' j Hq Hj) as (r0 & ? & ?). by exists q, r0. }
  split; [| done]. constructor.
  - intros q r' j Hq Hj. destruct (Hsub q r' j Hq Hj) as (r0 & ? & ?). by eapply (rd_rank _ Hr).
  - intros j Hj. rewrite HD. pose proof (rd_clean _ Hr j (Hmg j Hj)). pose proof (ind_nonneg j i). lia.
  - apply (calm_set_req_same _ F p r); [apply Hr | done | done | done | by left |]. simpl.
    intros j Hj. by apply list_elem_of_filter in Hj as [_ ?].
  - intros j Hj Hm. by apply (rd_F _ Hr j Hj), Hmg.
Qed.

Lemma unmerge_free p r i core s s1 s2 :
  ready (abs s) -> as_reqs (abs s) !! p = Some r -> i ∈ a_merge r ->
  upd_req (fun r => with_merge (filter (fun x => x <> i) (r_merge r)) r) p s = Done s1 ->
  free_req_with wrap core i s1 = Done s2 ->
  serves (around p (abs s)) (abs s) (abs s2) /\
  as_reqs (abs s2) !! p = Some (a_with_merge (filter (fun x => x <> i) (a_merge r)) r).
Proof.
  intros Hr Hp Hi H1 H2. destruct (upd_req_abs _ _ _ _ H1) as (r0 & Hr0 & _ & Ha).
  rewrite (abs_lookup_req _ _ _ Hr0) in Hp. injection Hp as <-.
  assert (Hmi : merged i (abs s)) by (exists p, (abs_req r0); by rewrite (abs_lookup_req _ _ _ Hr0)).
  assert (Hlt : (rho p < rho i)%nat) by (by eapply (rd_rank _ Hr); [apply abs_lookup_req |]).
  destruct (unmerge_ready p (abs_req r0) i (abs s) Hr (abs_lookup_req _ _ _ Hr0) Hi) as (Hr1 & HD1 & Hm1).
  set (a1 := a_set_req p _ (abs s)) in *. change (abs s1 = a1) in Ha. rewrite <- Ha in Hr1.
  apply free_req_with_freed in H2 as (a2 & [S2 _] & F2); [| done]. rewrite Ha in S2.
  assert (Hkeep : forall y ry, y <> i -> (rho y <= rho i)%nat \/ ~ merged y a1 -> as_reqs a1 !! y = Some ry ->
    as_reqs (abs s2) !! y = Some ry).
  { intros y ry Hne Hy Hry. rewrite (fr_keep _ _ _ F2) by done. by apply (sv_keep _ _ _ S2). }
  split; [constructor |].
  - intros h. rewrite (fr_D _ _ _ F2), (sv_D _ _ _ S2), HD1. lia.
  - intros y ry [Hne Hy] Hry. apply Hkeep.
    + intros ->. destruct Hy; [lia | done].
    + destruct Hy as [Hy | Hy]; [left; lia | right; auto].
    + unfold a1. simpl. by rewrite lookup_insert_ne.
  - intros y r' j Hy Hj. destruct (decide (y = i)) as [-> | Hne].
    + rewrite (fr_self _ _ _ F2 r' Hy) in Hj. set_solver.
    + rewrite (fr_keep _ _ _ F2) in Hy by done. destruct (sv_shrink _ _ _ S2 y r' j Hy Hj) as (r1 & Hr1' & Hj1).
      apply set_req_lookup in Hr1' as [[-> ->] | [_ Hr1']]; [| eauto].
      eexists. split; [by apply abs_lookup_req |]. simpl in Hj1. by apply list_elem_of_filter in Hj1 as [_ ?].
  - intros x Hx. by rewrite (fr_queue _ _ _ F2), (sv_queue _ _ _ S2).
  - by rewrite (fr_out _ _ _ F2), (sv_out _ _ _ S2).
  - by rewrite (fr_refused _ _ _ F2), (sv_refused _ _ _ S2).
  - apply (fr_calm _ _ _ F2), (calm_weaken _ F); [apply S2 | set_solver].
  - apply Hkeep; [intros -> | left | apply lookup_insert_eq]; lia.
Qed.

Lemma free_merged_served p l s s' r :
  ready (abs s) -> as_reqs (abs s) !! p = Some r -> NoDup l -> (forall i, i ∈ l -> i ∈ a_merge r) ->
  free_merged wrap p l s = Done s' -> served p (abs s) (abs s').
Proof.
  revert s r. induction l as [| i l IH]; intros s r Hr Hp Hnd Hl H; simpl in H.
  - apply done_val in H as ->. by apply quiet_served.
  - step H as s1 H1. step H as ri Hri. step H as s2 H2. apply NoDup_cons in Hnd as [Hni Hnd].
    destruct (unmerge_free p r i _ s s1 s2 Hr Hp (Hl i (list_elem_of_here _ _)) H1 H2) as [HS Hp2].
    apply (served_trans p _ (abs s2)).
    + split; [done |]. intros r' Hr'. rewrite Hp in Hr'. injection Hr' as <-. eauto.
    + eapply IH; [by eapply serves_ready | exact Hp2 | done | | exact H]. intros j Hj. simpl.
      apply list_elem_of_filter. split; [by intros -> | apply Hl; by right].
Qed.

Lemma merge_nodup p r a : ready a -> as_reqs a !! p = Some r -> NoDup (a_merge r).
Proof.
  intros Hr Hp. apply sum_by_ind_nodup. intros i. destruct (decide (i ∈ a_merge r)) as [Hi | Hi].
  - destruct (merged_once p r i a (rd_clean _ Hr) Hp Hi). lia.
  - rewrite sum_by_ind_notin by done. lia.
Qed.

Lemma fill_wrapper_served data p s s' b :
  ready (abs s) -> fill_wrapper wrap data p s = Done (s', b) -> served p (abs s) (abs s').
Proof.
  intros Hr H. unfold fill_wrapper in H. step H as r Hp. step H as [[s1 result] dones] H1. step H as s2 H2. step H as r2 Hr2.
  apply get_req_done, abs_lookup_req in Hp.
  assert (H12 : served p (abs s) (abs s2)).
  { destruct (serve_merged_serves p (abs_req r) _ s s1 result dones Hr Hp (fun i H => H) H1) as [HS Hsub].
    assert (Hp1 : as_reqs (abs s1) !! p = Some (abs_req r)) by (apply HS; [by left | done]).
    apply (served_trans p _ (abs s1)).
    - split.
      + eapply serves_weaken; [exact HS |]. by intros y [_ Hy].
      + intros r' Hr'. rewrite Hp in Hr'. injection Hr' as <-. exists (a_merge (abs_req r)). by rewrite a_with_merge_id.
    - eapply free_merged_served; [by eapply serves_ready | exact Hp1 | | | exact H2].
      + eapply sublist_NoDup; [by apply (merge_nodup p (abs_req r) (abs s)) | exact Hsub].
      + intros i Hi. by eapply elem_of_sublist. }
  assert (Hr2' : ready (abs s2)) by (by eapply serves_ready; [apply H12 |]).
  destruct data; [destruct (_ && _) |].
  - eapply served_trans; [exact H12 |]. by eapply dcu_done_served.
  - by apply done_pair in H as [-> _].
  - by apply done_pair in H as [-> _].
Qed.
End WRAP.

Lemma wrapper_served n data p s s' b :
  ready (abs s) -> wrapper n data p s = Done (s', b) -> served p (abs s) (abs s').
Proof.
  revert data p s s' b. induction n as [| n IH]; intros data p s s' b Hr H; [done |].
  by apply (fill_wrapper_served (wrapper n)) in H.
Qed.
Lemma done_function_served p s s' b :
  ready (abs s) -> done_function p s = Done (s', b) -> served p (abs s) (abs s').
Proof. apply run_done_func_served. intros *. apply wrapper_served. Qed.
Lemma free_req_freed core p s s' :
  ready (abs s) -> free_req core p s = Done s' -> exists a1, served p (abs s) a1 /\ freed p a1 (abs s').
Proof. apply free_req_with_freed. intros *. apply wrapper_served. Qed.
End SERVE.
End OPS.
