(* ===== verification/MemoryFlow.v ===== *)
(** * The flow of requests through the queues (memory.cc)

    Every queue-processing loop of a cache, every delivery of the network and
    every new request keeps each live request in exactly one place, as long as no
    cache refuses a request another cache or the network hands it. *)

From S2P Require Import Prelude.
From S2P Require Import Utils.
From S2P Require Import Cache.
From S2P Require Import Rob.
From S2P Require Import Allocate.
From S2P Require Import Dram.
From S2P Require Import Noc.
From S2P Require Import Memory.
From S2P Require Import MemoryPlaces.

Section FLOW.
Context {Env : mem_env}.
Local Abbreviation k := env_knobs.
Local Abbreviation calm := (calm (KNOB_CC20 k)).

(** ** Refusals are remembered *)

Lemma quiet_refused s s' : abs s' = abs s -> refused s' = refused s.
Proof. intros H. exact (f_equal as_refused H). Qed.
Lemma upd_req_refused f p s s' : upd_req f p s = Done s' -> refused s' = refused s.
Proof. intros H. destruct (upd_req_abs _ _ _ _ H) as (r & _ & _ & Ha). exact (f_equal as_refused Ha). Qed.
Lemma queue_push_refused l i q p s s' b : queue_push l i q p s = Done (s', b) -> refused s' = refused s.
Proof.
  intros H. destruct (queue_push_abs _ _ _ _ _ _ _ H) as [[_ ->] | [_ Hp]]; [done |].
  exact (proj2 (proj2 (proj2 (proj2 (pushed_rest _ _ _ _ Hp))))).
Qed.
Lemma queue_pop_refused l i q p s s' : queue_pop l i q p s = Done s' -> refused s' = refused s.
Proof.
  intros H%queue_pop_abs. apply (f_equal as_refused) in H.
  destruct (a_pop_rest (l, i, q) p (abs s)) as (_ & _ & _ & _ & Hr). rewrite Hr in H. exact H.
Qed.
Lemma spills_refused x s s' : spills x (abs s) (abs s') -> refused s' = refused s.
Proof. intros [H | H]; [by apply quiet_refused |]. exact (proj2 (spawned_rest _ _ _ H)). Qed.

Section WRAP_REFUSED.
Context (wrap : bool -> nat -> memory_c -> outcome (memory_c * bool)).
Context (Hwrap : forall data p s s' b, wrap data p s = Done (s', b) -> refused s' = refused s).

Lemma run_done_func_refused p s s' b : run_done_func wrap p s = Done (s', b) -> refused s' = refused s.
Proof.
  intros H. unfold run_done_func in H. step H as r Hp. destruct (i_done_func (r_info r)) as [[] |].
  - by eapply Hwrap.
  - step H as s1 Hw. apply done_pair in H as [-> _]. by eapply quiet_refused, write_done_quiet.
  - by eapply Hwrap.
  - by apply done_pair in H as [-> _].
Qed.
Lemma free_req_with_refused core p s s' : free_req_with wrap core p s = Done s' -> refused s' = refused s.
Proof.
  intros H. unfold free_req_with in H. step H as r Hp. step H as s1 Hs. apply release_freed, fr_refused in H.
  change (refused s' = refused s1) in H. rewrite H. destruct (r_merge r) as [| i m].
  - by apply done_val in Hs as ->.
  - step Hs as [s2 b] Hw. apply done_val in Hs as ->. by eapply Hwrap.
Qed.
Lemma serve_merged_refused l s s' b dones : serve_merged wrap l s = Done (s', b, dones) -> refused s' = refused s.
Proof.
  revert s s' b dones. induction l as [| i l IH]; intros s s' b dones H; simpl in H.
  - by apply done_pair in H as [[= -> _] ->].
  - step H as [s1 ok] H1. step H as [[s2 res] dones'] H2. apply done_pair in H as [[= -> _] ->].
    rewrite (IH _ _ _ _ H2). by eapply run_done_func_refused.
Qed.
Lemma free_merged_refused p l s s' : free_merged wrap p l s = Done s' -> refused s' = refused s.
Proof.
  revert s. induction l as [| i l IH]; intros s H; simpl in H; [by apply done_val in H as -> |].
  step H as s1 H1. step H as ri Hri. step H as s2 H2. rewrite (IH _ H), (free_req_with_refused _ _ _ _ H2).
  by eapply upd_req_refused.
Qed.
Lemma fill_wrapper_refused data p s s' b : fill_wrapper wrap data p s = Done (s', b) -> refused s' = refused s.
Proof.
  intros H. unfold fill_wrapper in H. step H as r Hp. step H as [[s1 result] dones] H1. step H as s2 H2. step H as r2 Hr2.
  rewrite <- (serve_merged_refused _ _ _ _ _ H1), <- (free_merged_refused _ _ _ _ H2).
  destruct data; [destruct (_ && _) |]; [| by apply done_pair in H as [-> _] ..].
  destruct (dcu_done_spills _ _ _ _ H) as [i Hs]. by eapply spills_refused.
Qed.
End WRAP_REFUSED.

Lemma wrapper_refused n data p s s' b : wrapper n data p s = Done (s', b) -> refused s' = refused s.
Proof.
  revert data p s s' b. induction n as [| n IH]; intros data p s s' b H; [done |].
  by apply (fill_wrapper_refused (wrapper n)) in H.
Qed.
Lemma done_function_refused p s s' b : done_function p s = Done (s', b) -> refused s' = refused s.
Proof. apply run_done_func_refused. intros *. apply wrapper_refused. Qed.
Lemma free_req_refused core p s s' : free_req core p s = Done s' -> refused s' = refused s.
Proof. apply free_req_with_refused. intros *. apply wrapper_refused. Qed.

(** ** One request of a queue

    What handling request [p] of queue [x] does with it: it stays, it is handed
    on, or it is done; its removal from [x] comes later. *)

Lemma dcu_fill_abs l i p s s' b :
  dcu_fill l i p s = Done (s', b) -> (b = false /\ s' = s) \/ (b = true /\ pushed (l, i, QFill) p (abs s) (abs s')).
Proof.
  unfold dcu_fill. intros H. step H as [s1 ok] H1. destruct (queue_push_abs _ _ _ _ _ _ _ H1) as [[-> ->] | [-> Hp]].
  - apply done_pair in H as [-> ->]. by left.
  - right. step H as d Hd. step H as s2 H2. apply done_pair in H as [-> ->]. split; [done |].
    by rewrite (upd_req_quiet _ _ _ _ H2).
Qed.
Definition a_retry (x : nat * nat) (p : nat) (a a' : astate) : Prop :=
  exists c, as_caches a !! x = Some c /\ a' = a_set_cache x (ac_with_retry (ac_retry c ++ [p]) c) a.
Lemma dcu_insert_abs l i p s s' b :
  dcu_insert l i p s = Done (s', b) ->
  (b = false /\ a_retry (l, i) p (abs s) (abs s')) \/ (b = true /\ pushed (l, i, QIn) p (abs s) (abs s')).
Proof.
  unfold dcu_insert. intros H. step H as [s1 ok] H1. step H as d Hd.
  destruct (queue_push_abs _ _ _ _ _ _ _ H1) as [[-> ->] | [-> Hp]].
  - apply done_pair in H as [-> ->]. left. split; [done |]. apply get_dcu_done in Hd. exists (abs_dcu d).
    split; [by apply abs_lookup_dcu | by rewrite abs_put_dcu].
  - right. step H as s2 H2. apply done_pair in H as [-> ->]. split; [done |]. by rewrite (upd_req_quiet _ _ _ _ H2).
Qed.
Lemma dcu_insert_or_keep_abs l i p s s' b :
  dcu_insert_or_keep l i p s = Done (s', b) ->
  (b = false /\ refused s' = true) \/ (b = true /\ pushed (l, i, QIn) p (abs s) (abs s')).
Proof.
  unfold dcu_insert_or_keep. intros H. step H as [s1 ok] H1. apply dcu_insert_abs in H1 as [[-> _] | [-> Hp]].
  - apply done_pair in H as [-> ->]. by left.
  - apply done_pair in H as [-> ->]. by right.
Qed.
Lemma to_out_abs l i p st rdy s s' b :
  to_out l i p st rdy s = Done (s', b) -> (b = false /\ s' = s) \/ (b = true /\ pushed (l, i, QOut) p (abs s) (abs s')).
Proof.
  unfold to_out. intros H. step H as [s1 ok] H1. destruct (queue_push_abs _ _ _ _ _ _ _ H1) as [[-> ->] | [-> Hp]].
  - apply done_pair in H as [-> ->]. by left.
  - right. step H as s2 H2. apply done_pair in H as [-> ->]. split; [done |]. by rewrite (upd_req_quiet _ _ _ _ H2).
Qed.

Inductive fate := Stays | Moves | Finishes.
Definition taken_of (o : fate) : bool := match o with Stays => false | _ => true end.

Section ONE.
Context (rho : nat -> nat) (F : list nat).

Record tried (x : qid) (p : nat) (a a' : astate) (o : fate) : Prop := mk_tried {
  tr_shrink : forall y r' i, as_reqs a' !! y = Some r' -> i ∈ a_merge r' -> exists r, as_reqs a !! y = Some r /\ i ∈ a_merge r;
  tr_keep : forall y r, y <> p -> ~ merged y a -> as_reqs a !! y = Some r -> as_reqs a' !! y = Some r;
  tr_queue : queue_at a' x = queue_at a x;
  tr_D : forall h, D h a' = D h a + match o with Moves => h p | _ => 0 end;
  tr_calm : calm match o with Finishes => p :: F | _ => F end a';
  tr_self : forall r, as_reqs a !! p = Some r -> exists r', as_reqs a' !! p = Some r' /\
    match o with
    | Stays => True
    | Moves => x.2 <> QOut -> a_queue r' <> Some x
    | Finishes => a_done r' = true
    end
}.

Lemma served_stays x p a a' : x.2 <> QWb -> served rho F p a a' -> tried x p a a' Stays.
Proof.
  intros Hx [H Hs]. constructor; try apply H.
  - intros y r Hne Hm. apply H. split; [done | by right].
  - done.
  - intros h. rewrite (sv_D _ _ _ _ H). lia.
  - intros r Hr. destruct (Hs r Hr) as [m Hm]. eauto.
Qed.
Lemma still_stays x p a : calm F a -> tried x p a a Stays.
Proof. intros Hc. constructor; eauto. intros h. lia. Qed.

Lemma push_moves x y p a a1 a2 : tried x p a a1 Stays -> pushed y p a1 a2 -> y <> x -> tried x p a a2 Moves.
Proof.
  intros H Hp Hne. destruct (pushed_reqs _ _ _ _ Hp) as (r1 & Hr1 & Hrs). constructor.
  - intros z r' i. rewrite Hrs. intros [[<- <-] | [_ Hz]]%lookup_insert_Some Hi; [| by eapply H].
    by eapply (tr_shrink _ _ _ _ _ H p r1).
  - intros z r Hz Hm Hr. rewrite Hrs, lookup_insert_ne by done. by apply H.
  - destruct (pushed_queue _ _ _ _ x Hp) as [[_ ->] | [-> _]]; [apply H | done].
  - intros h. rewrite (pushed_D h _ _ _ _ Hp), (tr_D _ _ _ _ _ H). lia.
  - eapply pushed_calm; [exact Hp | apply H].
  - intros r Hr. rewrite Hrs, lookup_insert_eq. eexists. split; [done |]. simpl. congruence.
Qed.
Lemma done_finishes x p a s1 s2 :
  tried x p a (abs s1) Stays -> upd_req (with_done true) p s1 = Done s2 -> tried x p a (abs s2) Finishes.
Proof.
  intros H Hu. destruct (upd_req_abs _ _ _ _ Hu) as (r1 & Hr1 & _ & Ha). apply abs_lookup_req in Hr1.
  rewrite Ha. constructor.
  - intros z r' i Hz Hi. apply set_req_lookup in Hz as [[-> ->] | [_ Hz]]; [| by eapply H].
    by eapply (tr_shrink _ _ _ _ _ H p _ i Hr1).
  - intros z r Hz Hm Hr. simpl. rewrite lookup_insert_ne by done. by apply H.
  - apply H.
  - intros h. rewrite (D_set_req h p _ _ _ Hr1), (tr_D _ _ _ _ _ H). simpl. lia.
  - pose proof (calm_reqs _ _ _ (tr_calm _ _ _ _ _ H) p _ Hr1) as [].
    apply (calm_set_req _ F); [apply H | | set_solver]. constructor; auto; try (intros; set_solver).
  - intros r Hr. simpl. rewrite lookup_insert_eq. eauto.
Qed.
Lemma tried_before x p a0 a a' o : a0 = a -> tried x p a0 a' o -> tried x p a a' o.
Proof. by intros ->. Qed.

Definition fated (x : qid) (p : nat) (a a' : astate) (b : bool) : Prop := exists o, tried x p a a' o /\ b = taken_of o.
Definition fated_in (P : fate -> Prop) (x : qid) (p : nat) (a a' : astate) (b : bool) : Prop :=
  exists o, tried x p a a' o /\ b = taken_of o /\ P o.
Local Abbreviation passed := (fated_in (fun o => o <> Finishes)).
Lemma passed_fated x p a a' b : passed x p a a' b -> fated x p a a' b.
Proof. intros (o & H & Hb & _). by exists o. Qed.
Lemma fated_any x p a a' b : fated x p a a' b -> fated_in (fun _ => True) x p a a' b.
Proof. intros (o & H & Hb). by exists o. Qed.

Lemma push_passed x y p s s1 s2 b :
  tried x p (abs s) (abs s1) Stays -> y <> x ->
  (b = false /\ s2 = s1) \/ (b = true /\ pushed y p (abs s1) (abs s2)) -> passed x p (abs s) (abs s2) b.
Proof.
  intros H Hne [[-> ->] | [-> Hp]]; [by exists Stays |]. exists Moves. split; [by eapply push_moves | done].
Qed.
Lemma push_fated x y p s s1 s2 b :
  tried x p (abs s) (abs s1) Stays -> y <> x ->
  (b = false /\ s2 = s1) \/ (b = true /\ pushed y p (abs s1) (abs s2)) -> fated x p (abs s) (abs s2) b.
Proof. intros H Hne Hp. by eapply passed_fated, push_passed. Qed.

(** Calling the done function and marking the request done if it succeeds. *)
Lemma done_function_stays x p s s1 s2 b :
  x.2 <> QWb -> ready rho F (abs s) -> abs s1 = abs s -> done_function p s1 = Done (s2, b) -> tried x p (abs s) (abs s2) Stays.
Proof.
  intros Hx Hr Hs H. rewrite <- Hs in Hr. rewrite <- Hs. apply served_stays; [done |].
  by eapply done_function_served.
Qed.
Lemma finish_fated x p s s1 s2 s3 :
  x.2 <> QWb -> ready rho F (abs s) -> abs s1 = abs s -> done_function p s1 = Done (s2, true) ->
  upd_req (with_done true) p s2 = Done s3 -> fated x p (abs s) (abs s3) true.
Proof.
  intros Hx Hr Hs H Hu. exists Finishes. split; [| done]. eapply done_finishes; [| exact Hu].
  by eapply done_function_stays.
Qed.

Lemma on_hit_fated l i p x s s' b :
  l <> 0%nat -> ready rho F (abs s) -> on_hit l i p x s = Done (s', b) -> fated (l, i, QIn) p (abs s) (abs s') b.
Proof.
  intros Hl Hr H. unfold on_hit in H. step H as r Hp. step H as d Hd. step H as s1 H1.
  assert (Hs1 : abs s1 = abs s).
  { destruct (bool_decide _); [by eapply mark_dirty_quiet | by apply done_val in H1 as ->]. }
  clear H1. assert (Hst : tried (l, i, QIn) p (abs s) (abs s1) Stays) by (rewrite Hs1; apply still_stays, Hr).
  destruct (bool_decide (i_type _ = MRT_WB)).
  - step H as s2 H2. step H as s3 H3. apply done_pair in H as [-> ->]. exists Finishes. split; [| done].
    eapply done_finishes; [| exact H3]. rewrite (mark_dirty_quiet _ _ _ _ _ H2), Hs1. apply still_stays, Hr.
  - destruct (m_done (d_cfg d)).
    + step H as [s2 ok] H2. destruct ok.
      * step H as s3 H3. apply done_pair in H as [-> ->]. by eapply finish_fated.
      * apply done_pair in H as [-> ->]. exists Stays. split; [| done]. by eapply done_function_stays.
    + destruct (_ || _).
      * step H as [] Ha. eapply push_fated; [exact Hst | | by eapply dcu_fill_abs]. congruence.
      * eapply push_fated; [exact Hst | | by eapply to_out_abs]. congruence.
Qed.

Lemma next_level_ne l : l <> LLC -> next_level l <> l.
Proof. unfold next_level, L2, LLC. destruct l as [| [| [| [| [| l]]]]]; simpl; lia. Qed.

Lemma on_miss_fated l i p s s' b :
  calm F (abs s) -> on_miss l i p s = Done (s', b) -> refused s' = false -> fated (l, i, QIn) p (abs s) (abs s') b.
Proof.
  intros Hc H Hf. unfold on_miss in H. step H as r Hp. step H as d Hd. destruct (_ || _).
  - step H as [] Ha. apply ASSERT_done, negb_true_iff, bool_decide_eq_false in Ha.
    destruct (dcu_insert_or_keep_abs _ _ _ _ _ _ H) as [[_ Ht] | [-> Hpu]]; [congruence |].
    eapply push_fated; [by apply still_stays | | right; eauto]. intros [= E _]. by apply (next_level_ne l).
  - eapply push_fated; [by apply still_stays | | by eapply to_out_abs]. congruence.
Qed.

Lemma in_one_fated l i p s s' b :
  l <> 0%nat -> ready rho F (abs s) -> in_one l i p s = Done (s', b) -> refused s' = false ->
  fated (l, i, QIn) p (abs s) (abs s') b.
Proof.
  intros Hl Hr H Hf. unfold in_one in H. step H as r Hp. step H as d Hd. destruct (_ <? _).
  - apply done_pair in H as [-> ->]. exists Stays. split; [apply still_stays, Hr | done].
  - step H as [s1 line] H1. apply lookup_in_quiet in H1. rewrite <- H1 in Hr |- *.
    destruct line as [x |]; [by eapply on_hit_fated |]. eapply on_miss_fated; [apply Hr | done..].
Qed.

Lemma fill_up_fated l i p s0 s s' b :
  l <> 0%nat -> tried (l, i, QFill) p (abs s0) (abs s) Stays -> fill_up l i p s = Done (s', b) ->
  fated (l, i, QFill) p (abs s0) (abs s') b.
Proof.
  intros Hl Hst H. unfold fill_up in H. step H as r Hp. step H as d Hd. step H as [s1 ok] H1.
  assert (Hft : fated (l, i, QFill) p (abs s0) (abs s1) ok).
  { destruct (_ || _).
    - eapply push_fated; [exact Hst | | by eapply dcu_fill_abs]. unfold prev_level. intros [= E _]. lia.
    - eapply push_fated; [exact Hst | | by eapply to_out_abs]. congruence. }
  destruct ok.
  - by apply done_pair in H as [-> ->].
  - step H as s2 H2. apply done_pair in H as [-> ->]. by rewrite (upd_req_quiet _ _ _ _ H2).
Qed.

Lemma fill_here_spills l i p s s' b : fill_here l i p s = Done (s', b) -> spills (l, i, QWb) (abs s) (abs s').
Proof.
  unfold fill_here. intros H. step H as r Hp. step H as d Hd. destruct (m_disable _); [left; by apply done_pair in H as [-> _] |].
  step H as c Hc. step H as [[line la] c1] Ha. destruct line as [x |].
  - left. apply done_pair in H as [-> _]. by eapply put_dcu_quiet.
  - step H as [s2 ok] H2. apply write_port_quiet in H2. rewrite (put_dcu_quiet _ _ _ _ _ Hd) in H2 by done. destruct ok.
    + step H as s3 H3. apply done_pair in H as [-> _]. rewrite <- H2. by eapply insert_line_spills.
    + left. by apply done_pair in H as [-> _].
Qed.

Lemma finish_done_fated x p w s s' b :
  x.2 <> QWb -> ready rho F (abs s) -> finish_done p w s = Done (s', b) -> fated x p (abs s) (abs s') b.
Proof.
  intros Hx Hr H. unfold finish_done in H. step H as [s1 ok] H1. destruct ok; [| destruct w].
  - step H as s2 H2. apply done_pair in H as [-> ->]. by eapply finish_fated.
  - step H as s2 H2. apply done_pair in H as [-> ->]. exists Stays. rewrite (upd_req_quiet _ _ _ _ H2) by done.
    split; [by eapply done_function_stays | done].
  - apply done_pair in H as [-> ->]. exists Stays. split; [by eapply done_function_stays | done].
Qed.

Lemma tried_merged x p a a' o i : tried x p a a' o -> merged i a' -> merged i a.
Proof. intros H (q & r' & Hq & Hi). destruct (tr_shrink _ _ _ _ _ H q r' i Hq Hi) as (r & ? & ?). by exists q, r. Qed.
Lemma fated_after x p a a1 a2 b : tried x p a a1 Stays -> fated x p a1 a2 b -> fated x p a a2 b.
Proof.
  intros H (o & H2 & ->). exists o. split; [| done]. constructor.
  - intros y r' i Hy Hi. destruct (tr_shrink _ _ _ _ _ H2 y r' i Hy Hi) as (r & Hr & Hir). by eapply H.
  - intros y r Hne Hm Hr. apply H2; [done | | by apply H]. intros Hm'. by eapply Hm, tried_merged.
  - by rewrite (tr_queue _ _ _ _ _ H2), (tr_queue _ _ _ _ _ H).
  - intros h. rewrite (tr_D _ _ _ _ _ H2), (tr_D _ _ _ _ _ H). lia.
  - apply H2.
  - intros r Hr. destruct (tr_self _ _ _ _ _ H r Hr) as (r1 & Hr1 & _). by apply (tr_self _ _ _ _ _ H2 r1).
Qed.
Lemma serves_stays x p a a' : x.2 <> QWb -> serves F (fun _ => True) a a' -> tried x p a a' Stays.
Proof. intros Hx H. apply served_stays; [done |]. by apply untouched_served. Qed.

Lemma fill_one_fated l i p s s' b :
  l <> 0%nat -> ready rho F (abs s) -> fill_one l i p s = Done (s', b) -> fated (l, i, QFill) p (abs s) (abs s') b.
Proof.
  intros Hl Hr H. unfold fill_one in H. step H as r Hp. step H as d Hd.
  assert (Hstay : tried (l, i, QFill) p (abs s) (abs s) Stays) by (apply still_stays, Hr).
  destruct (_ && _).
  - step H as [] Ha. step H as [s1 ok] H1. step H as [] Hok. apply ASSERT_done in Hok as ->.
    step H as s2 H2. apply done_pair in H as [-> ->]. by eapply finish_fated.
  - destruct (_ <? _); [apply done_pair in H as [-> ->]; by exists Stays |]. destruct (r_state r); try done.
    + step H as [s1 ok] H1. apply fill_here_spills in H1.
      assert (HS : serves F (fun _ => True) (abs s) (abs s1)) by (eapply spills_serves; [apply Hr | exact H1]).
      assert (Ht : tried (l, i, QFill) p (abs s) (abs s1) Stays) by (by apply serves_stays).
      assert (Hr1 : ready rho F (abs s1)) by (by eapply serves_ready). destruct ok; simpl in H.
      * destruct (m_done (d_cfg d)); [| destruct (bool_decide _)].
        -- step H as [] Ha. eapply fated_after; [exact Ht |]. by eapply finish_done_fated.
        -- step H as s2 H2. apply done_pair in H as [-> ->]. exists Finishes. split; [by eapply done_finishes | done].
        -- by eapply fill_up_fated.
      * apply done_pair in H as [-> ->]. by exists Stays.
    + by eapply finish_done_fated.
    + by eapply fill_up_fated.
Qed.

Lemma wb_one_passed l i p s s' b :
  calm F (abs s) -> wb_one l i p s = Done (s', b) -> passed (l, i, QWb) p (abs s) (abs s') b.
Proof.
  intros Hc H. unfold wb_one in H. step H as r Hp. step H as d Hd.
  assert (Hst : tried (l, i, QWb) p (abs s) (abs s) Stays) by (by apply still_stays).
  destruct (_ <? _); [apply done_pair in H as [-> ->]; by exists Stays |]. destruct (_ && _).
  - eapply push_passed; [exact Hst | | by eapply dcu_fill_abs]. congruence.
  - eapply push_passed; [exact Hst | | by eapply to_out_abs]. congruence.
Qed.

(** A packet the network takes. *)
Definition a_send (p : nat) (a : astate) : astate := a_set_out (as_out a ++ [p]) a.
Lemma out_one_passed accepts l i p s s' b :
  calm F (abs s) -> out_one accepts l i p s = Done (s', b) ->
  passed (l, i, QOut) p (abs s) (abs s') b.
Proof.
  intros Hc H. unfold out_one, send_packet in H. step H as r Hp. step H as d Hd.
  destruct (_ <? _); [apply done_pair in H as [-> ->]; exists Stays; split; [by apply still_stays | done] |].
  step H as [] Ha. step H as r' Hr'. step H as [m dst] Hm. step H as s1 H1. apply upd_req_quiet in H1; [| done].
  destruct (accepts p m dst).
  - step H as s2 H2. apply done_pair in H as [-> ->]. apply upd_req_quiet in H2; [| done].
    assert (Habs : abs (with_outside (outside s2 ++ [p]) s2) = a_send p (abs s)) by (by rewrite <- H1, <- H2).
    exists Moves. split; [| done]. rewrite Habs. constructor; try done; eauto.
    + intros h. unfold a_send. rewrite D_set_out, sum_by_app. simpl. lia.
    + by apply calm_set_out.
  - apply done_pair in H as [-> ->]. rewrite H1. exists Stays. split; [by apply still_stays | done].
Qed.
End ONE.

(** ** Refusals are remembered by every step *)

Definition sticky (s s' : memory_c) : Prop := refused s = true -> refused s' = true.
Lemma sticky_eq s s' : refused s' = refused s -> sticky s s'.
Proof. unfold sticky. congruence. Qed.
Lemma sticky_refl s : sticky s s.
Proof. by intros H. Qed.
#[local] Hint Resolve sticky_refl : core.
Lemma sticky_trans s1 s2 s3 : sticky s1 s2 -> sticky s2 s3 -> sticky s1 s3.
Proof. unfold sticky. auto. Qed.

Lemma push_result_refused y p s s' b :
  (b = false /\ s' = s) \/ (b = true /\ pushed y p (abs s) (abs s')) -> refused s' = refused s.
Proof.
  intros [[_ ->] | [_ Hp]]; [done |]. exact (proj2 (proj2 (proj2 (proj2 (pushed_rest _ _ _ _ Hp))))).
Qed.
Lemma dcu_fill_refused l i p s s' b : dcu_fill l i p s = Done (s', b) -> refused s' = refused s.
Proof. intros H%dcu_fill_abs. by eapply push_result_refused. Qed.
Lemma to_out_refused l i p st rdy s s' b : to_out l i p st rdy s = Done (s', b) -> refused s' = refused s.
Proof. intros H%to_out_abs. by eapply push_result_refused. Qed.
Lemma dcu_insert_refused l i p s s' b : dcu_insert l i p s = Done (s', b) -> refused s' = refused s.
Proof.
  intros [[_ (c & _ & Ha)] | H]%dcu_insert_abs; [exact (f_equal as_refused Ha) |].
  eapply push_result_refused. right. exact H.
Qed.
Lemma insert_or_keep_sticky l i p s s' b : dcu_insert_or_keep l i p s = Done (s', b) -> sticky s s'.
Proof.
  intros [[_ H] | H]%dcu_insert_or_keep_abs; [by intros _ |]. apply sticky_eq. eapply push_result_refused. right. exact H.
Qed.
Lemma finish_done_refused p w s s' b : finish_done p w s = Done (s', b) -> refused s' = refused s.
Proof.
  unfold finish_done. intros H. step H as [s1 ok] H1. rewrite <- (done_function_refused _ _ _ _ H1).
  destruct ok; [| destruct w]; [step H as s2 H2 | step H as s2 H2 |]; apply done_pair in H as [-> _]; try done;
    by eapply upd_req_refused.
Qed.

Lemma in_one_sticky l i p s s' b : in_one l i p s = Done (s', b) -> sticky s s'.
Proof.
  unfold in_one. intros H. step H as r Hp. step H as d Hd. destruct (_ <? _); [by apply done_pair in H as [-> _] |].
  step H as [s1 line] H1. apply lookup_in_quiet, quiet_refused, sticky_eq in H1.
  apply (sticky_trans _ _ _ H1). clear H1. destruct line as [x |].
  - unfold on_hit in H. step H as r1 Hp1. step H as d1 Hd1. step H as s2 H2. apply sticky_eq.
    assert (Hs2 : refused s2 = refused s1).
    { destruct (bool_decide _); [by eapply quiet_refused, mark_dirty_quiet | by apply done_val in H2 as ->]. }
    rewrite <- Hs2. destruct (bool_decide (i_type _ = MRT_WB)); [| destruct (m_done (d_cfg d1)); [| destruct (_ || _)]].
    + step H as s3 H3. step H as s4 H4. apply done_pair in H as [-> _]. rewrite (upd_req_refused _ _ _ _ H4).
      by eapply quiet_refused, mark_dirty_quiet.
    + step H as [s3 ok] H3. rewrite <- (done_function_refused _ _ _ _ H3). destruct ok; [| by apply done_pair in H as [-> _]].
      step H as s4 H4. apply done_pair in H as [-> _]. by eapply upd_req_refused.
    + step H as [] Ha. by eapply dcu_fill_refused.
    + by eapply to_out_refused.
  - unfold on_miss in H. step H as r1 Hp1. step H as d1 Hd1. destruct (_ || _).
    + step H as [] Ha. by eapply insert_or_keep_sticky.
    + by eapply sticky_eq, to_out_refused.
Qed.

Lemma fill_up_refused l i p s s' b : fill_up l i p s = Done (s', b) -> refused s' = refused s.
Proof.
  unfold fill_up. intros H. step H as r Hp. step H as d Hd. step H as [s1 ok] H1.
  assert (Hs1 : refused s1 = refused s) by (destruct (_ || _); [by eapply dcu_fill_refused | by eapply to_out_refused]).
  rewrite <- Hs1. destruct ok; [by apply done_pair in H as [-> _] |]. step H as s2 H2. apply done_pair in H as [-> _].
  by eapply upd_req_refused.
Qed.
Lemma fill_one_refused l i p s s' b : fill_one l i p s = Done (s', b) -> refused s' = refused s.
Proof.
  unfold fill_one. intros H. step H as r Hp. step H as d Hd. destruct (_ && _).
  - step H as [] Ha. step H as [s1 ok] H1. step H as [] Hok. step H as s2 H2. apply done_pair in H as [-> _].
    rewrite (upd_req_refused _ _ _ _ H2). by eapply done_function_refused.
  - destruct (_ <? _); [by apply done_pair in H as [-> _] |]. destruct (r_state r); try done.
    + step H as [s1 ok] H1. apply fill_here_spills, spills_refused in H1. rewrite <- H1.
      destruct ok; simpl in H; [| by apply done_pair in H as [-> _]]. destruct (m_done (d_cfg d)); [| destruct (bool_decide _)].
      * step H as [] Ha. by eapply finish_done_refused.
      * step H as s2 H2. apply done_pair in H as [-> _]. by eapply upd_req_refused.
      * by eapply fill_up_refused.
    + by eapply finish_done_refused.
    + by eapply fill_up_refused.
Qed.
Lemma wb_one_refused l i p s s' b : wb_one l i p s = Done (s', b) -> refused s' = refused s.
Proof.
  unfold wb_one. intros H. step H as r Hp. step H as d Hd. destruct (_ <? _); [by apply done_pair in H as [-> _] |].
  destruct (_ && _); [by eapply dcu_fill_refused | by eapply to_out_refused].
Qed.
Lemma out_one_refused accepts l i p s s' b : out_one accepts l i p s = Done (s', b) -> refused s' = refused s.
Proof.
  unfold out_one, send_packet. intros H. step H as r Hp. step H as d Hd. destruct (_ <? _); [by apply done_pair in H as [-> _] |].
  step H as [] Ha. step H as r' Hr'. step H as [m dst] Hm. step H as s1 H1. apply upd_req_refused in H1. rewrite <- H1.
  destruct (accepts p m dst); [| by apply done_pair in H as [-> _]]. step H as s2 H2. apply done_pair in H as [-> _].
  exact (upd_req_refused _ _ _ _ H2).
Qed.

Lemma walk_sticky stop one c l s s' dones :
  (forall p s s' b, one p s = Done (s', b) -> sticky s s') -> walk stop one c l s = Done (s', dones) -> sticky s s'.
Proof.
  intros Hone. revert c s dones. induction l as [| q l IH]; intros c s dones H; simpl in H; [by apply done_pair in H as [-> _] |].
  destruct c; [by apply done_pair in H as [-> _] |]. step H as b Hb. destruct b; [by apply done_pair in H as [-> _] |].
  step H as [s3 tk] H3. step H as [s4 dn] H4. apply done_pair in H as [-> _].
  eapply sticky_trans; [by eapply Hone | by eapply IH].
Qed.
Lemma retire_done_refused l i q dones s s' : retire_done l i q dones s = Done s' -> refused s' = refused s.
Proof.
  revert s. induction dones as [| p dones IH]; intros s H; simpl in H; [by apply done_val in H as -> |].
  step H as s1 H1. step H as r Hr. step H as s2 H2. rewrite (IH _ H), <- (queue_pop_refused _ _ _ _ _ _ H1).
  destruct (r_done r); [destruct (is_gpu_store r) |]; [| by eapply free_req_refused | by apply done_val in H2 as ->].
  unfold free_write_req in H2. step H2 as r2 Hr2. by apply done_val in H2 as ->.
Qed.
Lemma pop_all_refused l i q f dones s s' : pop_all l i q f dones s = Done s' -> refused s' = refused s.
Proof.
  revert s. induction dones as [| p dones IH]; intros s H; simpl in H; [by apply done_val in H as -> |].
  step H as s1 H1. step H as s2 H2. by rewrite (IH _ H), (queue_pop_refused _ _ _ _ _ _ H2), (upd_req_refused _ _ _ _ H1).
Qed.

(** ** A whole queue

    [T] are the requests handed on and [F] those done, all still in the queue. *)

Section QUEUE.
Context (rho : nat -> nat).

Record busy (x : qid) (Q T F : list nat) (a : astate) : Prop := mk_busy {
  by_ready : ready rho F a;
  by_D : forall h, D h a = sum_by h T;
  by_Q : queue_at a x = Q;
  by_nodup : NoDup Q;
  by_merged : forall i, i ∈ Q -> ~ merged i a;
  by_live : forall i, i ∈ Q -> is_Some (as_reqs a !! i);
  by_T : forall p, p ∈ T -> p ∈ Q /\ p ∉ F;
  by_Tq : forall p r, p ∈ T -> as_reqs a !! p = Some r -> x.2 <> QOut -> a_queue r <> Some x;
  by_F : forall p, p ∈ F -> p ∈ Q;
  by_Fd : forall p r, p ∈ F -> as_reqs a !! p = Some r -> a_done r = true;
  by_Tn : NoDup T
}.

(** At rest every live request is in exactly one place. *)
Record rests (a : astate) : Prop := mk_rests {
  rs_rank : ranked rho a;
  rs_calm : calm [] a;
  rs_D : forall h, D h a = 0
}.

Lemma rests_ready a : rests a -> ready rho [] a.
Proof.
  intros H. constructor; try apply H.
  - intros i _. rewrite (rs_D _ H). done.
  - intros i Hi. set_solver.
Qed.
Lemma rests_busy a x : rests a -> busy x (queue_at a x) [] [] a.
Proof.
  intros H. pose proof (rests_ready a H) as Hr.
  assert (Hq : forall i, sum_by (ind i) (queue_at a x) + msum (fun r => sum_by (ind i) (a_merge r)) (as_reqs a)
                         <= match as_reqs a !! i with Some _ => 1 | None => 0 end).
  { intros i. pose proof (rs_D _ H (ind i)) as HD. pose proof (part_queue i a x). rewrite <- L_ind.
    destruct (W_parts_nonneg i a) as (? & ? & ? & ?). unfold D, W in HD. lia. }
  assert (Hm : forall i, 0 <= msum (fun r => sum_by (ind i) (a_merge r)) (as_reqs a)) by (intros i; apply W_parts_nonneg).
  constructor; try done; try set_solver.
  - intros h. by rewrite (rs_D _ H).
  - apply sum_by_ind_nodup. intros i. specialize (Hq i). specialize (Hm i). destruct (as_reqs a !! i); lia.
  - intros i Hi Hmi. specialize (Hq i). pose proof (part_merged i a Hmi). pose proof (sum_by_ind_in i _ Hi).
    destruct (as_reqs a !! i); lia.
  - intros i Hi. specialize (Hq i). specialize (Hm i). pose proof (sum_by_ind_in i _ Hi).
    destruct (as_reqs a !! i); [done | lia].
  - constructor.
Qed.
Lemma busy_rests x Q a : busy x Q [] [] a -> rests a.
Proof. intros H. destruct (by_ready _ _ _ _ _ H). constructor; [done | done |]. intros h. by rewrite (by_D _ _ _ _ _ H). Qed.

Lemma busy_clean (Q T : list nat) a i :
  (forall h, D h a = sum_by h T) -> (forall p, p ∈ T -> p ∈ Q) -> i ∉ Q -> D (ind i) a = 0.
Proof. intros HD HT Hi. rewrite HD. apply sum_by_ind_notin. auto. Qed.

Lemma busy_step x Q T F p a a' o :
  busy x Q T F a -> p ∈ Q -> p ∉ T -> p ∉ F -> tried F x p a a' o ->
  busy x Q (match o with Moves => p :: T | _ => T end) (match o with Finishes => p :: F | _ => F end) a'.
Proof.
  intros [] Hp HpT HpF H.
  assert (Hmg : forall i, i ∈ Q -> ~ merged i a') by (intros i Hi Hm; by eapply by_merged0, tried_merged).
  assert (Hkeep : forall y r r', y ∈ Q -> y <> p -> as_reqs a !! y = Some r -> as_reqs a' !! y = Some r' -> r' = r).
  { intros y r r' Hy Hne Hr Hr'. rewrite (tr_keep _ _ _ _ _ _ H y r Hne (by_merged0 y Hy) Hr) in Hr'. by injection Hr'. }
  assert (HD : forall h, D h a' = sum_by h (match o with Moves => p :: T | _ => T end)).
  { intros h. rewrite (tr_D _ _ _ _ _ _ H), by_D0. destruct o; simpl; lia. }
  assert (HF' : forall y, y ∈ match o with Finishes => p :: F | _ => F end -> y ∈ Q) by (destruct o; set_solver).
  assert (HTQ : forall y, y ∈ match o with Moves => p :: T | _ => T end -> y ∈ Q).
  { intros y Hy. destruct o; [by apply by_T0 | | by apply by_T0]. apply elem_of_cons in Hy as [-> | Hy]; [done | by apply by_T0]. }
  constructor; try done.
  - destruct by_ready0 as [Hk Hc Hm HF]. constructor.
    + intros q r' i Hq Hi. destruct (tr_shrink _ _ _ _ _ _ H q r' i Hq Hi) as (r & Hr & Hir). by eapply Hk.
    + intros i Hi. rewrite (busy_clean Q (match o with Moves => p :: T | _ => T end) a' i HD HTQ); [done |].
      intros HiQ. by apply (Hmg i HiQ).
    + apply H.
    + intros i Hi. auto.
  - by rewrite (tr_queue _ _ _ _ _ _ H).
  - intros i Hi. destruct (by_live0 i Hi) as [r Hr]. destruct (decide (i = p)) as [-> | Hne].
    + destruct (tr_self _ _ _ _ _ _ H r Hr) as (r' & Hr' & _). eauto.
    + rewrite (tr_keep _ _ _ _ _ _ H i r Hne (by_merged0 i Hi) Hr). eauto.
  - intros y Hy. split; [auto |]. destruct o; set_solver.
  - intros y r' Hy Hr' Hx. destruct (by_live0 y (HTQ y Hy)) as [r Hr]. destruct (decide (y = p)) as [-> | Hne].
    + destruct (tr_self _ _ _ _ _ _ H r Hr) as (r1 & Hr1 & Ho). rewrite Hr1 in Hr'. injection Hr' as <-.
      destruct o; [by destruct HpT | by apply Ho | by destruct HpT].
    + rewrite (Hkeep y r r' (HTQ y Hy) Hne Hr Hr'). eapply by_Tq0; [| done | done]. destruct o; set_solver.
  - intros y r' Hy Hr'. destruct (by_live0 y (HF' y Hy)) as [r Hr]. destruct (decide (y = p)) as [-> | Hne].
    + destruct (tr_self _ _ _ _ _ _ H r Hr) as (r1 & Hr1 & Ho). rewrite Hr1 in Hr'. injection Hr' as <-.
      destruct o; [by destruct HpF | by destruct HpF | done].
    + rewrite (Hkeep y r r' (HF' y Hy) Hne Hr Hr'). eapply by_Fd0; [| done]. destruct o; set_solver.
  - destruct o; [done | by constructor | done].
Qed.

Lemma walk_none (P : fate -> Prop) x Q T F a (l : list nat) :
  busy x Q T F a ->
  busy x Q T F a /\ NoDup (@nil nat) /\ (forall p, p ∈ @nil nat -> p ∈ l) /\ (forall p, p ∈ F -> p ∈ F \/ P Finishes) /\
  forall p, (p ∈ T \/ p ∈ F) <-> (p ∈ T \/ p ∈ F \/ p ∈ @nil nat).
Proof.
  intros H. split_and!; [done | constructor | by intros p ?%not_elem_of_nil | by left |].
  intros p. rewrite elem_of_nil. tauto.
Qed.

Lemma walk_busy (P : fate -> Prop) x Q stop one c l s s' dones T F :
  (forall F p s s' b, ready rho F (abs s) -> one p s = Done (s', b) -> refused s' = false -> fated_in F P x p (abs s) (abs s') b) ->
  (forall p s s' b, one p s = Done (s', b) -> sticky s s') ->
  busy x Q T F (abs s) -> NoDup l -> (forall p, p ∈ l -> p ∈ Q /\ (p ∉ T) /\ p ∉ F) ->
  walk stop one c l s = Done (s', dones) -> refused s' = false ->
  exists T' F', busy x Q T' F' (abs s') /\ NoDup dones /\ (forall p, p ∈ dones -> p ∈ l) /\
    (forall p, p ∈ F' -> p ∈ F \/ P Finishes) /\
    forall p, (p ∈ T' \/ p ∈ F') <-> (p ∈ T \/ p ∈ F \/ p ∈ dones).
Proof.
  intros Hone Hmono. revert c s s' dones T F. induction l as [| p l IH]; intros c s s' dones T F Hb Hnd Hl H Hf; simpl in H.
  - apply done_pair in H as [-> ->]. exists T, F. by apply walk_none.
  - destruct c as [| c]; [apply done_pair in H as [-> ->]; exists T, F; by apply walk_none |].
    step H as b Hstop. destruct b;
      [apply done_pair in H as [-> ->]; exists T, F; by apply walk_none |].
    step H as [s1 taken] H1. step H as [s2 dones'] H2. apply done_pair in H as [-> ->].
    apply NoDup_cons in Hnd as [Hpl Hnd]. destruct (Hl p (list_elem_of_here _ _)) as (HpQ & HpT & HpF).
    assert (Hf1 : refused s1 = false).
    { destruct (refused s1) eqn:E; [| done]. pose proof (walk_sticky _ _ _ _ _ _ _ Hmono H2 E). congruence. }
    destruct (Hone F p s s1 taken (by_ready _ _ _ _ _ Hb) H1 Hf1) as (o & Ho & -> & HP).
    pose proof (busy_step x Q T F p _ _ o Hb HpQ HpT HpF Ho) as Hb1.
    apply IH with (T := match o with Moves => p :: T | _ => T end) (F := match o with Finishes => p :: F | _ => F end)
      in H2 as (T' & F' & HB & HN & HS & HX & HI); [| done | done | | done].
    + exists T', F'. split; [done |]. destruct o; simpl.
      * split_and!; [done | intros q Hq; right; auto | done | done].
      * split_and!; [constructor; [by intros ?%HS | done] | | done | intros q; rewrite HI, !elem_of_cons; tauto].
        intros q. rewrite !elem_of_cons. naive_solver.
      * split_and!; [constructor; [by intros ?%HS | done] | | by right | intros q; rewrite HI, !elem_of_cons; tauto].
        intros q. rewrite !elem_of_cons. naive_solver.
    + intros q Hq. destruct (Hl q (list_elem_of_further _ _ _ Hq)) as (? & ? & ?).
      assert (q <> p) by (by intros ->). destruct o; rewrite ?elem_of_cons; naive_solver.
Qed.

(** *** Removing what was taken *)

Lemma sum_ind_once (l : list nat) p : NoDup l -> p ∈ l -> sum_by (ind p) l = 1.
Proof.
  intros Hnd Hp. apply list_elem_of_split in Hp as (l1 & l2 & ->). rewrite NoDup_app, NoDup_cons in Hnd.
  destruct Hnd as (_ & H1 & H2 & _). rewrite sum_by_app. simpl. rewrite ind_eq, !sum_by_ind_notin; [done | done |].
  intros Hp. apply (H1 p Hp). by left.
Qed.

Lemma busy_pop_D x Q T F a p : busy x Q T F a -> p ∈ Q -> forall h, D h (a_pop x p a) = sum_by h T - h p.
Proof.
  intros H Hp h. rewrite a_pop_D, (by_D _ _ _ _ _ H), (by_Q _ _ _ _ _ H), sum_ind_once; [lia | apply H | done].
Qed.
Lemma a_pop_merged x p a i : merged i (a_pop x p a) <-> merged i a.
Proof. unfold merged. by rewrite a_pop_reqs. Qed.

Lemma busy_pop_moved x Q T F a p :
  busy x Q T F a -> p ∈ T -> (forall r, as_reqs a !! p = Some r -> a_queue r <> Some x) ->
  busy x (filter (fun y => y <> p) Q) (filter (fun y => y <> p) T) F (a_pop x p a).
Proof.
  intros H HpT Hq. pose proof (busy_pop_D x Q T F a p H (proj1 (by_T _ _ _ _ _ H p HpT))) as HD. destruct H.
  assert (HD' : forall h, D h (a_pop x p a) = sum_by h (filter (fun y => y <> p) T)).
  { intros h. rewrite HD, sum_by_remove, sum_ind_once by done. lia. }
  constructor; rewrite ?a_pop_reqs; try done.
  - destruct by_ready0 as [Hk Hc Hm HF]. constructor.
    + intros q r i. rewrite a_pop_reqs. apply Hk.
    + intros i Hi. rewrite a_pop_merged in Hi. rewrite HD', sum_by_ind_notin; [done |].
      intros HiT. apply list_elem_of_filter in HiT as [_ HiT]. by apply (by_merged0 i); [apply by_T0 |].
    + apply a_pop_calm; [done | by right].
    + intros i Hi. rewrite a_pop_merged. auto.
  - rewrite a_pop_queue, decide_True by done. by rewrite by_Q0.
  - by apply NoDup_filter.
  - intros i Hi. rewrite a_pop_merged. apply list_elem_of_filter in Hi as [_ Hi]. auto.
  - intros i Hi. apply list_elem_of_filter in Hi as [_ Hi]. auto.
  - intros y Hy. apply list_elem_of_filter in Hy as [Hne Hy]. rewrite list_elem_of_filter. destruct (by_T0 y Hy). auto.
  - intros y r Hy. apply list_elem_of_filter in Hy as [Hne Hy]. eauto.
  - intros y Hy. apply list_elem_of_filter. split; [intros -> | auto]. by destruct (by_T0 p HpT).
  - by apply NoDup_filter.
Qed.

Lemma busy_pop_ready x Q T F a p : busy x Q T F a -> p ∈ F -> ready rho F (a_pop x p a).
Proof.
  intros H HpF. pose proof (busy_pop_D x Q T F a p H (by_F _ _ _ _ _ H p HpF)) as HD. destruct H.
  destruct by_ready0 as [Hk Hc Hm HF]. constructor.
  - intros q r i. rewrite a_pop_reqs. apply Hk.
  - intros i Hi. rewrite a_pop_merged in Hi. rewrite HD, sum_by_ind_notin; [pose proof (ind_nonneg i p); lia |].
    intros HiT. by apply (by_merged0 i); [apply by_T0 |].
  - apply a_pop_calm; [done | by left].
  - intros i Hi. rewrite a_pop_merged. auto.
Qed.

Lemma busy_free x Q T F a a1 a2 p :
  x.2 <> QWb -> busy x Q T F a -> p ∈ F -> served rho F p (a_pop x p a) a1 -> freed p a1 a2 ->
  busy x (filter (fun y => y <> p) Q) T (filter (fun y => y <> p) F) a2.
Proof.
  intros Hx H HpF [HS _] HFr. pose proof (busy_pop_D x Q T F a p H (by_F _ _ _ _ _ H p HpF)) as HD.
  pose proof (busy_pop_ready x Q T F a p H HpF) as Hr0. destruct H.
  assert (HD2 : forall h, D h a2 = sum_by h T) by (intros h; rewrite (fr_D _ _ _ HFr), (sv_D _ _ _ _ HS), HD; lia).
  assert (Hshr : forall y r' i, as_reqs a2 !! y = Some r' -> i ∈ a_merge r' -> exists r, as_reqs a !! y = Some r /\ i ∈ a_merge r).
  { intros y r' i Hy Hi. destruct (decide (y = p)) as [-> | Hne].
    - rewrite (fr_self _ _ _ HFr r' Hy) in Hi. set_solver.
    - rewrite (fr_keep _ _ _ HFr) in Hy by done. rewrite <- (a_pop_reqs x p a). by eapply HS. }
  assert (Hmg : forall i, merged i a2 -> merged i a).
  { intros i (y & r' & Hy & Hi). destruct (Hshr y r' i Hy Hi) as (r & ? & ?). by exists y, r. }
  assert (Hkeep : forall y r, y <> p -> y ∈ Q -> as_reqs a !! y = Some r -> as_reqs a2 !! y = Some r).
  { intros y r Hne Hy Hr. rewrite (fr_keep _ _ _ HFr) by done. apply HS; [| by rewrite a_pop_reqs].
    split; [done |]. right. rewrite a_pop_merged. auto. }
  assert (Hsame : forall y r, y <> p -> y ∈ Q -> as_reqs a2 !! y = Some r -> as_reqs a !! y = Some r).
  { intros y r Hne Hy Hr. destruct (by_live0 y Hy) as [r0 Hr0']. rewrite (Hkeep y r0 Hne Hy Hr0') in Hr. congruence. }
  assert (HTp : forall y, y ∈ T -> y <> p) by (intros y Hy ->; by destruct (by_T0 p Hy)).
  constructor; try done.
  - destruct by_ready0 as [Hk Hc Hm HF]. constructor.
    + intros q r' i Hq Hi. destruct (Hshr q r' i Hq Hi) as (r & ? & ?). by eapply Hk.
    + intros i Hi. rewrite HD2, sum_by_ind_notin; [done |]. intros HiT. by apply (by_merged0 i); [apply by_T0 | auto].
    + apply (fr_calm _ _ _ HFr), (calm_weaken _ F); [apply HS |]. intros y Hy HyF. apply Hy.
      destruct (decide (y = p)) as [-> | Hne]; [by left | right]. by apply list_elem_of_filter.
    + intros i Hi Hm'. apply list_elem_of_filter in Hi as [_ Hi]. by apply (HF i Hi), Hmg.
  - rewrite (fr_queue _ _ _ HFr), (sv_queue _ _ _ _ HS) by done. rewrite a_pop_queue, decide_True by done. by rewrite by_Q0.
  - by apply NoDup_filter.
  - intros i Hi Hm. apply list_elem_of_filter in Hi as [_ Hi]. by apply (by_merged0 i Hi), Hmg.
  - intros i Hi. apply list_elem_of_filter in Hi as [Hne Hi]. destruct (by_live0 i Hi) as [r Hr].
    rewrite (Hkeep i r Hne Hi Hr). eauto.
  - intros y Hy. rewrite !list_elem_of_filter. destruct (by_T0 y Hy). split; [auto |]. by intros [_ ?].
  - intros y r Hy Hr. eapply by_Tq0; [done |]. apply Hsame; auto. by apply by_T0.
  - intros y Hy. rewrite list_elem_of_filter in *. destruct Hy. auto.
  - intros y r Hy Hr. apply list_elem_of_filter in Hy as [Hne Hy]. eapply by_Fd0; [done |]. apply Hsame; auto.
Qed.

Lemma nothing_taken x Q T F a : busy x Q T F a -> (forall p, (p ∈ T \/ p ∈ F) <-> p ∈ @nil nat) -> rests a.
Proof.
  intros H HI. assert (T = []) as ->.
  { destruct T as [| p T]; [done |]. assert (p ∈ @nil nat); [apply HI; left; by left | set_solver]. }
  assert (F = []) as ->.
  { destruct F as [| p F]; [done |]. assert (p ∈ @nil nat); [apply HI; right; by left | set_solver]. }
  by eapply busy_rests.
Qed.

(** The remaining requests after [p] is dealt with. *)
Lemma rest_of_moved p (dones T F : list nat) :
  p ∉ dones -> p ∈ T -> p ∉ F -> (forall q, (q ∈ T \/ q ∈ F) <-> q ∈ p :: dones) ->
  forall q, (q ∈ filter (fun y => y <> p) T \/ q ∈ F) <-> q ∈ dones.
Proof.
  intros Hd HT HF HI q. specialize (HI q). rewrite elem_of_cons in HI. rewrite list_elem_of_filter.
  destruct (decide (q = p)) as [-> | Hne]; tauto.
Qed.
Lemma rest_of_done p (dones T F : list nat) :
  p ∉ dones -> p ∉ T -> p ∈ F -> (forall q, (q ∈ T \/ q ∈ F) <-> q ∈ p :: dones) ->
  forall q, (q ∈ T \/ q ∈ filter (fun y => y <> p) F) <-> q ∈ dones.
Proof.
  intros Hd HT HF HI q. specialize (HI q). rewrite elem_of_cons in HI. rewrite list_elem_of_filter.
  destruct (decide (q = p)) as [-> | Hne]; tauto.
Qed.

Lemma retire_one_busy l i q p s s1 r s2 Q T F :
  q <> QWb -> q <> QOut -> busy (l, i, q) Q T F (abs s) -> p ∈ T \/ p ∈ F ->
  queue_pop l i q p s = Done s1 -> get_req s1 p = Done r ->
  (if r_done r then
     if is_gpu_store r then free_write_req p s1 else free_req (i_core_id (r_info r)) p s1
   else mret s1) = Done s2 ->
  exists Q', (p ∈ T /\ (p ∉ F) /\ busy (l, i, q) Q' (filter (fun y => y <> p) T) F (abs s2)) \/
             ((p ∉ T) /\ p ∈ F /\ busy (l, i, q) Q' T (filter (fun y => y <> p) F) (abs s2)).
Proof.
  intros Hq1 Hq2 Hb Hp H1 Hr H2. apply queue_pop_abs in H1. apply get_req_done, abs_lookup_req in Hr. rewrite H1 in Hr.
  rewrite a_pop_reqs in Hr. exists (filter (fun y => y <> p) Q). destruct (r_done r) eqn:Hd.
  - right. assert (HpF : p ∈ F).
    { destruct (decide (p ∈ F)) as [| HpF]; [done |].
      pose proof (st_done _ _ _ _ _ (calm_reqs _ _ _ (rd_calm _ _ _ (by_ready _ _ _ _ _ Hb)) p _ Hr) HpF) as Hn.
      simpl in Hn. congruence. }
    assert (HpT : p ∉ T) by (intros HpT; by destruct (by_T _ _ _ _ _ Hb p HpT)).
    split_and!; [done | done |]. pose proof (busy_pop_ready _ _ _ _ _ _ Hb HpF) as Hr0.
    destruct (is_gpu_store r) eqn:Hg.
    + unfold free_write_req in H2. step H2 as r2 Hr2. apply done_val in H2 as ->.
      apply get_req_done, abs_lookup_req in Hr2. rewrite H1, a_pop_reqs, Hr in Hr2.
      assert (Hm : r_merge r = []).
      { by destruct (st_gpu _ _ _ _ _ (calm_reqs _ _ _ (rd_calm _ _ _ (by_ready _ _ _ _ _ Hb)) p _ Hr) Hg). }
      eapply busy_free; [done | exact Hb | done | |].
      * apply untouched_served, serves_refl, Hr0.
      * rewrite <- H1. replace (abs (with_reqs _ s1)) with (a_set_reqs (delete p (as_reqs (abs s1))) (abs s1)).
        -- apply (deleted_freed p (abs_req r)); [by rewrite H1, a_pop_reqs | done].
        -- unfold abs, a_set_reqs; simpl. by rewrite fmap_delete.
    + rewrite <- H1 in Hr0. destruct (free_req_freed _ _ _ _ _ _ Hr0 H2) as (a1 & HS & HF). rewrite H1 in HS.
      by eapply busy_free.
  - left. apply done_val in H2 as ->. assert (HpF : p ∉ F).
    { intros HpF. pose proof (by_Fd _ _ _ _ _ Hb p _ HpF Hr) as Hn. simpl in Hn. congruence. }
    destruct Hp as [Hp |]; [| done]. split_and!; [done | done |]. rewrite H1. apply busy_pop_moved; [done | done |].
    intros r0 Hr0. by eapply (by_Tq _ _ _ _ _ Hb).
Qed.

Lemma retire_done_rests l i q dones s s' Q T F :
  q <> QWb -> q <> QOut -> busy (l, i, q) Q T F (abs s) -> NoDup dones -> (forall p, (p ∈ T \/ p ∈ F) <-> p ∈ dones) ->
  retire_done l i q dones s = Done s' -> rests (abs s').
Proof.
  intros Hq1 Hq2. revert s Q T F. induction dones as [| p dones IH]; intros s Q T F Hb Hnd HI H; simpl in H.
  - apply done_val in H as ->. by eapply nothing_taken.
  - step H as s1 H1. step H as r Hr. step H as s2 H2. apply NoDup_cons in Hnd as [Hpd Hnd].
    assert (Hp : p ∈ T \/ p ∈ F) by (apply HI; by left).
    destruct (retire_one_busy _ _ _ _ _ _ _ _ _ _ _ Hq1 Hq2 Hb Hp H1 Hr H2) as [Q' [(HT & HF & Hb') | (HT & HF & Hb')]].
    + eapply IH; [exact Hb' | done | by apply rest_of_moved | exact H].
    + eapply IH; [exact Hb' | done | by apply rest_of_done | exact H].
Qed.

(** The two loops that never finish a request. *)
Lemma busy_unqueue x Q T F a p r :
  busy x Q T F a -> as_reqs a !! p = Some r -> busy x Q T F (a_set_req p (a_with_queue None r) a).
Proof.
  intros [] Hr. set (a' := a_set_req p _ a).
  assert (Hback : forall y ry, as_reqs a' !! y = Some ry -> exists r0, as_reqs a !! y = Some r0 /\
    a_merge ry = a_merge r0 /\ a_done ry = a_done r0 /\ (a_queue ry = a_queue r0 \/ a_queue ry = None)).
  { intros y ry Hy. apply set_req_lookup in Hy as [[-> ->] | [_ Hy]]; eauto 10. }
  assert (Hmg : forall i, merged i a' -> merged i a).
  { intros i (y & ry & Hy & Hi). destruct (Hback y ry Hy) as (r0 & H0 & Hm & _). rewrite Hm in Hi. by exists y, r0. }
  assert (HD : forall h, D h a' = D h a) by (intros h; unfold a'; rewrite (D_set_req h p r _ _ Hr); simpl; lia).
  constructor; try done.
  - destruct by_ready0 as [Hk Hc Hm HF]. constructor.
    + intros y ry i Hy Hi. destruct (Hback y ry Hy) as (r0 & H0 & E & _). rewrite E in Hi. by eapply Hk.
    + intros i Hi. rewrite HD. auto.
    + apply (calm_set_req_same _ F p r); auto.
    + intros i Hi Hm'. by apply (HF i Hi), Hmg.
  - intros h. by rewrite HD.
  - intros i Hi Hm. by apply (by_merged0 i Hi), Hmg.
  - intros i Hi. unfold a'. simpl. destruct (decide (i = p)) as [-> | Hne].
    + rewrite lookup_insert_eq. eauto.
    + rewrite lookup_insert_ne by done. auto.
  - intros y ry Hy Hry Hx. destruct (Hback y ry Hry) as (r0 & H0 & _ & _ & [-> | ->]); [by eapply by_Tq0 | done].
  - intros y ry Hy Hry. destruct (Hback y ry Hry) as (r0 & H0 & _ & -> & _). by eapply by_Fd0.
Qed.
Lemma pop_all_rests l i q f dones s s' Q T :
  (forall r, abs_req (f r) = (if decide (q = QOut) then a_with_queue None (abs_req r) else abs_req r)) ->
  busy (l, i, q) Q T [] (abs s) -> NoDup dones -> (forall p, p ∈ T <-> p ∈ dones) ->
  pop_all l i q f dones s = Done s' -> rests (abs s').
Proof.
  intros Hf. revert s Q T. induction dones as [| p dones IH]; intros s Q T Hb Hnd HI H; simpl in H.
  - apply done_val in H as ->. eapply nothing_taken; [exact Hb |]. intros p. rewrite <- HI. set_solver.
  - step H as s1 H1. step H as s2 H2. apply NoDup_cons in Hnd as [Hpd Hnd].
    assert (HpT : p ∈ T) by (apply HI; by left). apply queue_pop_abs in H2.
    destruct (upd_req_abs _ _ _ _ H1) as (r & Hr & _ & Ha). rewrite Hf in Ha. apply abs_lookup_req in Hr.
    assert (Hb1 : busy (l, i, q) Q T [] (abs s1) /\ forall r, as_reqs (abs s1) !! p = Some r -> a_queue r <> Some (l, i, q)).
    { rewrite Ha. destruct (decide (q = QOut)) as [-> | Hq].
      - split; [by apply busy_unqueue |]. intros r0 Hr0. apply set_req_lookup in Hr0 as [[_ ->] | [] ]; done.
      - rewrite a_set_req_id by done. split; [done |]. intros r0 Hr0. by apply (by_Tq _ _ _ _ _ Hb p r0). }
    destruct Hb1 as [Hb1 Hq]. pose proof (busy_pop_moved _ _ _ _ _ _ Hb1 HpT Hq) as Hb2. rewrite <- H2 in Hb2.
    eapply IH; [exact Hb2 | done | | exact H]. intros y. specialize (HI y). rewrite elem_of_cons in HI.
    rewrite list_elem_of_filter. destruct (decide (y = p)) as [-> | Hne]; tauto.
Qed.

(** *** The four loops *)

Lemma all_queue x a : rests a -> forall p, p ∈ queue_at a x -> p ∈ queue_at a x /\ (p ∉ @nil nat) /\ p ∉ @nil nat.
Proof. intros _ p Hp. split_and!; [done | apply not_elem_of_nil ..]. Qed.
Lemma taken_only (T F dones : list nat) :
  (forall p, (p ∈ T \/ p ∈ F) <-> (p ∈ @nil nat \/ p ∈ @nil nat \/ p ∈ dones)) -> forall p, (p ∈ T \/ p ∈ F) <-> p ∈ dones.
Proof. intros H p. rewrite (H p), elem_of_nil. tauto. Qed.
Lemma queue_at_abs s l i q d : get_dcu s l i = Done d -> queue_at (abs s) (l, i, q) = q_get q d.
Proof.
  intros H%get_dcu_done. unfold queue_at. simpl fst. rewrite (abs_lookup_dcu _ _ _ H). apply abs_dcu_q_get.
Qed.

Lemma process_in_queue_rests l i s s' :
  l <> 0%nat -> rests (abs s) -> process_in_queue l i s = Done s' -> refused s' = false -> rests (abs s').
Proof.
  intros Hl Hs H Hf. unfold process_in_queue in H. step H as d Hd. step H as [s1 dones] H1.
  rewrite (retire_done_refused _ _ _ _ _ _ H) in Hf. apply (queue_at_abs _ _ _ QIn) in Hd. simpl in Hd. rewrite <- Hd in H1.
  pose proof (rests_busy _ (l, i, QIn) Hs) as Hb.
  destruct (walk_busy (fun _ => True) (l, i, QIn) _ no_stop (in_one l i) per_cycle _ s s1 dones [] []
    (fun F p s s' b Hr H Hf => fated_any _ _ _ _ _ _ (in_one_fated rho F l i p s s' b Hl Hr H Hf)) (in_one_sticky l i)
    Hb (by_nodup _ _ _ _ _ Hb) (all_queue _ _ Hs) H1 Hf) as (T & F & HB & HN & _ & _ & HI).
  eapply retire_done_rests; [| | exact HB | exact HN | by apply taken_only | exact H]; done.
Qed.
Lemma process_fill_queue_rests l i s s' :
  l <> 0%nat -> rests (abs s) -> process_fill_queue l i s = Done s' -> refused s' = false -> rests (abs s').
Proof.
  intros Hl Hs H Hf. unfold process_fill_queue in H. step H as d Hd. step H as [s1 dones] H1.
  rewrite (retire_done_refused _ _ _ _ _ _ H) in Hf. apply (queue_at_abs _ _ _ QFill) in Hd. simpl in Hd. rewrite <- Hd in H1.
  pose proof (rests_busy _ (l, i, QFill) Hs) as Hb.
  destruct (walk_busy (fun _ => True) (l, i, QFill) _ (queue_full l i QWb) (fill_one l i) per_cycle _ s s1 dones [] []
    (fun F p s s' b Hr H Hf => fated_any _ _ _ _ _ _ (fill_one_fated rho F l i p s s' b Hl Hr H))
    (fun p s s' b H => sticky_eq _ _ (fill_one_refused l i p s s' b H))
    Hb (by_nodup _ _ _ _ _ Hb) (all_queue _ _ Hs) H1 Hf) as (T & F & HB & HN & _ & _ & HI).
  eapply retire_done_rests; [| | exact HB | exact HN | by apply taken_only | exact H]; done.
Qed.

Lemma pass_loop_rests l i q f stop one c s s' s1 dones :
  (forall F p s s' b, ready rho F (abs s) -> one p s = Done (s', b) ->
     fated_in F (fun o => o <> Finishes) (l, i, q) p (abs s) (abs s') b) ->
  (forall p s s' b, one p s = Done (s', b) -> refused s' = refused s) ->
  (forall r, abs_req (f r) = (if decide (q = QOut) then a_with_queue None (abs_req r) else abs_req r)) ->
  rests (abs s) -> walk stop one c (queue_at (abs s) (l, i, q)) s = Done (s1, dones) ->
  pop_all l i q f dones s1 = Done s' -> refused s' = false -> rests (abs s').
Proof.
  intros Hone Hst Hfq Hs H1 H Hf. rewrite (pop_all_refused _ _ _ _ _ _ _ H) in Hf.
  pose proof (rests_busy _ (l, i, q) Hs) as Hb.
  destruct (walk_busy (fun o => o <> Finishes) (l, i, q) _ stop one c _ s s1 dones [] []
    (fun F p s s' b Hr H Hf => Hone F p s s' b Hr H) (fun p s s' b H => sticky_eq _ _ (Hst p s s' b H))
    Hb (by_nodup _ _ _ _ _ Hb) (all_queue _ _ Hs) H1 Hf) as (T & F & HB & HN & _ & HX & HI).
  assert (F = []) as ->.
  { destruct F as [| p F]; [done |]. destruct (HX p (list_elem_of_here _ _)) as [?%not_elem_of_nil | Hn]; done. }
  eapply pop_all_rests; [exact Hfq | exact HB | exact HN | | exact H].
  intros p. rewrite <- (taken_only _ _ _ HI p), elem_of_nil. tauto.
Qed.
Lemma process_wb_queue_rests l i s s' :
  rests (abs s) -> process_wb_queue l i s = Done s' -> refused s' = false -> rests (abs s').
Proof.
  intros Hs H Hf. unfold process_wb_queue in H. step H as d Hd. step H as [s1 dones] H1.
  apply (queue_at_abs _ _ _ QWb) in Hd. simpl in Hd. rewrite <- Hd in H1.
  eapply (pass_loop_rests l i QWb); [| | | exact Hs | exact H1 | exact H | exact Hf].
  - intros F p s2 s3 b Hr. apply wb_one_passed, Hr.
  - intros p s2 s3 b. apply wb_one_refused.
  - done.
Qed.
Lemma process_out_queue_rests accepts l i s s' :
  rests (abs s) -> process_out_queue accepts l i s = Done s' -> refused s' = false -> rests (abs s').
Proof.
  intros Hs H Hf. unfold process_out_queue in H. step H as d Hd. step H as [s1 dones] H1.
  apply (queue_at_abs _ _ _ QOut) in Hd. simpl in Hd. rewrite <- Hd in H1.
  eapply (pass_loop_rests l i QOut); [| | | exact Hs | exact H1 | exact H | exact Hf].
  - intros F p s2 s3 b Hr. apply out_one_passed, Hr.
  - intros p s2 s3 b. apply out_one_refused.
  - done.
Qed.

(** ** Retries, deliveries and the cycle *)

Lemma pushed_ranked x p a a' : pushed x p a a' -> ranked rho a -> ranked rho a'.
Proof.
  intros H Hr. destruct (pushed_reqs _ _ _ _ H) as (r & Hp & Hrs). intros y ry i Hy Hi. rewrite Hrs in Hy.
  apply lookup_insert_Some in Hy as [[<- <-] | [_ Hy]]; by eapply Hr.
Qed.

(** Every request of [todo] that fits enters the input queue. *)
Lemma retry_abs l i todo s s' rest :
  retry l i todo s = Done (s', rest) -> calm [] (abs s) -> ranked rho (abs s) ->
  calm [] (abs s') /\ ranked rho (abs s') /\ refused s' = refused s /\
  (forall h, D h (abs s') = D h (abs s) + sum_by h todo - sum_by h rest) /\
  forall d d', get_dcu s l i = Done d -> get_dcu s' l i = Done d' -> d_retry d' = d_retry d.
Proof.
  revert s s' rest. induction todo as [| p todo IH]; intros s s' rest H Hc Hk; simpl in H.
  - apply done_pair in H as [-> ->]. split_and!; [done | done | done | intros h; simpl; lia | congruence].
  - step H as [s1 ok] H1. step H as [s2 rest'] H2. apply done_pair in H as [-> ->].
    pose proof (queue_push_refused _ _ _ _ _ _ _ H1) as Hf1.
    assert (Hs1 : forall d d', get_dcu s l i = Done d -> get_dcu s1 l i = Done d' -> d_retry d' = d_retry d).
    { intros d d' Hd Hd'. unfold queue_push in H1. rewrite Hd in H1. simpl in H1. destruct (Nat.eqb _ _).
      - apply done_pair in H1 as [-> _]. congruence.
      - step H1 as s3 H3. apply done_pair in H1 as [-> _]. apply get_dcu_done in Hd'. simpl in Hd'.
        rewrite lookup_insert_eq in Hd'. by injection Hd' as <-. }
    assert (H1' : calm [] (abs s1) /\ ranked rho (abs s1) /\
      forall h, D h (abs s1) = D h (abs s) + if ok then h p else 0).
    { destruct (queue_push_abs _ _ _ _ _ _ _ H1) as [[-> ->] | [-> Hp]].
      - split_and!; [done | done | intros h; lia].
      - split_and!; [by eapply pushed_calm | by eapply pushed_ranked | intros h; by eapply pushed_D]. }
    destruct H1' as (Hc1 & Hk1 & HD1). destruct (IH _ _ _ H2 Hc1 Hk1) as (Hc2 & Hk2 & Hf2 & HD2 & Hr2).
    split_and!; [done | done | congruence | |].
    + intros h. rewrite HD2, HD1. destruct ok; simpl; lia.
    + intros d d' Hd Hd'. unfold queue_push in H1. rewrite Hd in H1. simpl in H1.
      assert (exists d1, get_dcu s1 l i = Done d1) as [d1 Hd1].
      { destruct (Nat.eqb _ _); [apply done_pair in H1 as [-> _]; eauto |]. step H1 as s3 H3.
        apply done_pair in H1 as [-> _]. eexists. unfold get_dcu. simpl. by rewrite lookup_insert_eq. }
      rewrite (Hr2 d1 d' Hd1 Hd'). by apply Hs1.
Qed.

Lemma process_retry_rests l i s s' : rests (abs s) -> process_retry l i s = Done s' -> rests (abs s') /\ refused s' = refused s.
Proof.
  intros [Hk Hc HD] H. unfold process_retry in H. step H as d Hd. step H as [s1 rest] H1. step H as d1 Hd1.
  apply done_val in H as ->. destruct (retry_abs _ _ _ _ _ _ H1 Hc Hk) as (Hc1 & Hk1 & Hf1 & HD1 & Hr1).
  specialize (Hr1 d d1 Hd Hd1). apply get_dcu_done, abs_lookup_dcu in Hd1.
  split; [| exact Hf1]. rewrite abs_put_dcu. change (abs_dcu (with_dretry rest d1)) with (ac_with_retry rest (abs_dcu d1)).
  constructor.
  - exact Hk1.
  - apply calm_set_cache; [done |]. intros z y r _ _ _ Hin. rewrite queue_at_set_cache.
    destruct (decide (z.1 = (l, i))) as [E | Hne]; [| done]. unfold queue_at in Hin. rewrite E, Hd1 in Hin.
    by destruct z.2.
  - intros h. rewrite (D_set_cache h _ _ _ _ Hd1), places_set_retry, HD1, HD. simpl. rewrite Hr1. lia.
Qed.

Lemma remove_first_sum h p l : p ∈ l -> sum_by h (remove_first p l) = sum_by h l - h p.
Proof.
  induction l as [| y l IH]; intros Hp; [set_solver |]. simpl. destruct (Nat.eqb_spec y p) as [-> | Hne]; [lia |].
  simpl. rewrite IH; [lia | set_solver].
Qed.
Lemma delivered_rests x p a a' :
  rests a -> p ∈ as_out a -> pushed x p a a' -> rests (a_set_out (remove_first p (as_out a')) a').
Proof.
  intros [Hk Hc HD] Hp H. destruct (pushed_rest _ _ _ _ H) as (_ & _ & _ & Ho & _). constructor.
  - exact (pushed_ranked _ _ _ _ H Hk).
  - apply calm_set_out. by eapply pushed_calm.
  - intros h. rewrite D_set_out, Ho, remove_first_sum, (pushed_D h _ _ _ _ H), HD by done. lia.
Qed.
Lemma receive_one_rests l i p s s' :
  rests (abs s) -> p ∈ outside s -> receive_one l i p s = Done s' -> refused s' = false -> rests (abs s').
Proof.
  intros Hs Hp H Hf. unfold receive_one in H. step H as s1 H1. apply upd_req_quiet in H1; [| done]. step H as r Hr.
  step H as [s2 ok] H2. apply done_val in H as ->. rewrite <- H1 in Hs.
  assert (Hp1 : p ∈ as_out (abs s1)) by (by rewrite H1).
  assert (Hcase : (ok = false /\ s2 = s1) \/ (ok = false /\ refused s2 = true) \/
                  (ok = true /\ exists x, pushed x p (abs s1) (abs s2))).
  { destruct (r_msg_type r); try done.
    all: first [apply dcu_fill_abs in H2 as [? | [? ?]] | apply dcu_insert_or_keep_abs in H2 as [? | [? ?]]]; eauto 6. }
  destruct Hcase as [[-> ->] | [[-> Hn] | [-> [x Hx]]]]; [done | congruence |].
  exact (delivered_rests x p _ _ Hs Hp1 Hx).
Qed.
Lemma receive_one_sticky l i p s s' : receive_one l i p s = Done s' -> sticky s s'.
Proof.
  intros H. unfold receive_one in H. step H as s1 H1. apply upd_req_refused, sticky_eq in H1. step H as r Hr.
  step H as [s2 ok] H2. apply done_val in H as ->. apply (sticky_trans _ _ _ H1).
  assert (H2' : sticky s1 s2); [| by destruct ok].
  destruct (r_msg_type r); try done; first [by eapply sticky_eq, dcu_fill_refused | by eapply insert_or_keep_sticky].
Qed.
Lemma receive_packet_sticky l i packets s s' : receive_packet l i packets s = Done s' -> sticky s s'.
Proof.
  revert s. induction packets as [| p ps IH]; intros s H; simpl in H; [by apply done_val in H as -> |].
  step H as s1 H1. eapply sticky_trans; [| by eapply IH]. destruct (bool_decide _); [by eapply receive_one_sticky |].
  by apply done_val in H1 as ->.
Qed.
(** The state before a step that remembers refusals had none either. *)
Lemma sticky_false s s' : sticky s s' -> refused s' = false -> refused s = false.
Proof. unfold sticky. intros H H'. destruct (refused s); [| done]. rewrite H in H'; done. Qed.
Lemma receive_packet_rests l i packets s s' :
  rests (abs s) -> receive_packet l i packets s = Done s' -> refused s' = false -> rests (abs s').
Proof.
  revert s. induction packets as [| p ps IH]; intros s Hs H Hf; simpl in H; [by apply done_val in H as -> |].
  step H as s1 H1. eapply IH; [| exact H | exact Hf]. apply receive_packet_sticky in H.
  pose proof (sticky_false _ _ H Hf) as Hf1. case_bool_decide as Hp; [by eapply receive_one_rests |].
  by apply done_val in H1 as ->.
Qed.

Lemma process_in_sticky l i s s' : process_in_queue l i s = Done s' -> sticky s s'.
Proof.
  intros H. unfold process_in_queue in H. step H as d Hd. step H as [s1 dones] H1.
  eapply sticky_trans; [eapply walk_sticky; [apply in_one_sticky | exact H1] | by eapply sticky_eq, retire_done_refused].
Qed.
Lemma process_fill_sticky l i s s' : process_fill_queue l i s = Done s' -> sticky s s'.
Proof.
  intros H. unfold process_fill_queue in H. step H as d Hd. step H as [s1 dones] H1.
  eapply sticky_trans; [eapply walk_sticky; [| exact H1] | by eapply sticky_eq, retire_done_refused].
  intros p s2 s3 b H2. by eapply sticky_eq, fill_one_refused.
Qed.
Lemma process_out_sticky accepts l i s s' : process_out_queue accepts l i s = Done s' -> sticky s s'.
Proof.
  intros H. unfold process_out_queue in H. step H as d Hd. step H as [s1 dones] H1.
  eapply sticky_trans; [eapply walk_sticky; [| exact H1] | by eapply sticky_eq, pop_all_refused].
  intros p s2 s3 b H2. by eapply sticky_eq, out_one_refused.
Qed.
Lemma process_wb_sticky l i s s' : process_wb_queue l i s = Done s' -> sticky s s'.
Proof.
  intros H. unfold process_wb_queue in H. step H as d Hd. step H as [s1 dones] H1.
  eapply sticky_trans; [eapply walk_sticky; [| exact H1] | by eapply sticky_eq, pop_all_refused].
  intros p s2 s3 b H2. by eapply sticky_eq, wb_one_refused.
Qed.
Lemma retry_refused l i todo s s' rest : retry l i todo s = Done (s', rest) -> refused s' = refused s.
Proof.
  revert s s' rest. induction todo as [| p todo IH]; intros s s' rest H; simpl in H; [by apply done_pair in H as [-> _] |].
  step H as [s1 ok] H1. step H as [s2 r2] H2. apply done_pair in H as [-> _]. rewrite (IH _ _ _ H2).
  by eapply queue_push_refused.
Qed.
Lemma process_retry_refused l i s s' : process_retry l i s = Done s' -> refused s' = refused s.
Proof.
  intros H. unfold process_retry in H. step H as d Hd. step H as [s1 rest] H1. step H as d1 Hd1. apply done_val in H as ->.
  exact (retry_refused _ _ _ _ _ _ H1).
Qed.
Lemma tick_quiet l i s s' : (d ← get_dcu s l i; mret (put_dcu l i (dcu_tick d) s)) = Done s' -> abs s' = abs s.
Proof. intros H. step H as d Hd. apply done_val in H as ->. by eapply put_dcu_quiet. Qed.

Lemma dcu_cycle_sticky accepts packets lock l i s s' : dcu_cycle accepts packets lock l i s = Done s' -> sticky s s'.
Proof.
  intros H. unfold dcu_cycle in H. destruct lock; [by apply tick_quiet, quiet_refused, sticky_eq in H |].
  step H as s1 H1. step H as s2 H2. step H as s3 H3. step H as s4 H4. step H as s5 H5. step H as d Hd. step H as s6 H6.
  apply process_retry_refused, sticky_eq in H1. apply process_wb_sticky in H2. apply process_fill_sticky in H3.
  apply process_out_sticky in H4. apply process_in_sticky in H5. apply tick_quiet, quiet_refused, sticky_eq in H.
  assert (Hs6 : sticky s5 s6) by (destruct (_ && _); [by eapply receive_packet_sticky | by apply done_val in H6 as ->]).
  by do 5 (eapply sticky_trans; [eassumption |]); eapply sticky_trans.
Qed.
Lemma dcu_cycle_rests accepts packets lock l i s s' :
  l <> 0%nat -> rests (abs s) -> dcu_cycle accepts packets lock l i s = Done s' -> refused s' = false -> rests (abs s').
Proof.
  intros Hl Hs H Hf. unfold dcu_cycle in H. destruct lock; [by rewrite (tick_quiet _ _ _ _ H) |].
  step H as s1 H1. step H as s2 H2. step H as s3 H3. step H as s4 H4. step H as s5 H5. step H as d Hd. step H as s6 H6.
  pose proof (tick_quiet _ _ _ _ H) as Hq. rewrite Hq. rewrite (quiet_refused _ _ Hq) in Hf. clear H Hq.
  assert (Hs6 : sticky s5 s6) by (destruct (_ && _); [by eapply receive_packet_sticky | by apply done_val in H6 as ->]).
  pose proof (sticky_false _ _ Hs6 Hf) as Hf5. pose proof (sticky_false _ _ (process_in_sticky _ _ _ _ H5) Hf5) as Hf4.
  pose proof (sticky_false _ _ (process_out_sticky _ _ _ _ _ H4) Hf4) as Hf3.
  pose proof (sticky_false _ _ (process_fill_sticky _ _ _ _ H3) Hf3) as Hf2.
  apply process_retry_rests in H1 as [H1 _]; [| done]. apply process_wb_queue_rests in H2; [| done | done].
  apply process_fill_queue_rests in H3; [| done..]. apply process_out_queue_rests in H4; [| done | done].
  apply process_in_queue_rests in H5; [| done..].
  destruct (_ && _); [by eapply receive_packet_rests | by apply done_val in H6 as ->].
Qed.

Lemma cycles_sticky na lock l ids s s' : cycles na lock l ids s = Done s' -> sticky s s'.
Proof.
  revert s. induction ids as [| i ids IH]; intros s H; simpl in H; [by apply done_val in H as -> |].
  step H as s1 H1. eapply sticky_trans; [by eapply dcu_cycle_sticky | by apply IH].
Qed.
Lemma cycles_rests na lock l ids s s' :
  l <> 0%nat -> rests (abs s) -> cycles na lock l ids s = Done s' -> refused s' = false -> rests (abs s').
Proof.
  intros Hl. revert s. induction ids as [| i ids IH]; intros s Hs H Hf; simpl in H; [by apply done_val in H as -> |].
  step H as s1 H1. eapply IH; [| exact H | exact Hf]. eapply dcu_cycle_rests; [done | done | exact H1 |].
  eapply sticky_false; [by eapply cycles_sticky | done].
Qed.
Lemma run_a_cycle_core_rests na core lock s s' :
  rests (abs s) -> run_a_cycle_core na core lock s = Done s' -> refused s' = false -> rests (abs s').
Proof.
  intros Hs H Hf. unfold run_a_cycle_core in H. step H as s1 H1.
  pose proof (sticky_false _ _ (dcu_cycle_sticky _ _ _ _ _ _ _ H) Hf) as Hf1.
  eapply dcu_cycle_rests; [| | exact H | done]; [done |]. by eapply dcu_cycle_rests; [| | exact H1 |].
Qed.
Lemma mem_run_a_cycle_rests na lock s s' :
  rests (abs s) -> mem_run_a_cycle na lock s = Done s' -> refused s' = false -> rests (abs s').
Proof.
  intros Hs H Hf. unfold mem_run_a_cycle, run_a_cycle_uncore in H. step H as s1 H1. step H1 as s0 H0.
  apply done_val in H as ->. change (abs (mem_tick s1)) with (abs s1). change (refused s1 = false) in Hf.
  eapply cycles_rests; [| | exact H1 | done]; [done |]. eapply cycles_rests; [| exact Hs | exact H0 |]; [done |].
  eapply sticky_false; [by eapply cycles_sticky | done].
Qed.
End QUEUE.
End FLOW.
