(* ===== verification/MemoryMiss.v ===== *)
(** * New requests and the miss buffers (memory.cc)

    [memory_c::new_mem_req] with everything it calls: a new request is taken from
    the free list (or the pool), and ends in exactly one place: the queue or the
    retry list of the second level, or the list of the request it is merged
    under. *)

From S2P Require Import Prelude.
From S2P Require Import Utils.
From S2P Require Import Cache.
From S2P Require Import Rob.
From S2P Require Import Allocate.
From S2P Require Import Dram.
From S2P Require Import Noc.
From S2P Require Import Memory.
From S2P Require Import MemoryPlaces.
From S2P Require Import MemoryFlow.

(** What a creator may ask for: a range of bytes within the address space, and
    write-backs come from the caches only. *)
Definition sane (q : new_req) : Prop := n_type q <> MRT_WB /\ 0 < n_addr q + n_size q < 2 ^ 64.

Section MISS.
Context {Env : mem_env}.
Local Abbreviation k := env_knobs.
Local Abbreviation calm := (calm (KNOB_CC20 k)).

Section RHO.
Context (rho : nat -> nat).
Local Abbreviation rests := (rests rho).

(** ** Freeing a request taken out of its place *)

Lemma released_rests p a0 a1 a2 :
  ready rho [p] a0 -> (forall h, D h a0 = - h p) -> served rho [p] p a0 a1 -> freed p a1 a2 -> rests a2.
Proof.
  intros Hr HD [HS _] HF. constructor.
  - intros y r' i Hy Hi. destruct (decide (y = p)) as [-> | Hne].
    + rewrite (fr_self _ _ _ HF r' Hy) in Hi. set_solver.
    + rewrite (fr_keep _ _ _ HF) in Hy by done. destruct (sv_shrink _ _ _ _ HS y r' i Hy Hi) as (r & Hry & Hir).
      by eapply (rd_rank _ _ _ Hr).
  - apply (fr_calm _ _ _ HF), HS.
  - intros h. rewrite (fr_D _ _ _ HF), (sv_D _ _ _ _ HS), HD. lia.
Qed.
Lemma popped_ready x p a :
  rests a -> p ∈ queue_at a x -> ready rho [p] (a_pop x p a) /\ forall h, D h (a_pop x p a) = - h p.
Proof.
  intros Hs Hp. pose proof (rests_busy rho a x Hs) as Hb.
  assert (HD : forall h, D h (a_pop x p a) = - h p).
  { intros h. rewrite a_pop_D, (rs_D _ _ Hs), sum_ind_once; [lia | apply Hb | done]. }
  split; [| done]. constructor.
  - intros y r i. rewrite a_pop_reqs. apply Hs.
  - intros i Hi. rewrite HD. pose proof (ind_nonneg i p). lia.
  - apply a_pop_calm; [| left; by left]. apply (calm_weaken _ []); [apply Hs | set_solver].
  - intros i Hi. apply list_elem_of_singleton in Hi as ->. rewrite a_pop_merged. by apply (by_merged _ _ _ _ _ _ Hb).
Qed.

(** ** Throwing prefetches out *)

Lemma free_req_lone core p r s s' :
  reqs s !! p = Some r -> r_merge r = [] -> free_req core p s = Done s' -> freed p (abs s) (abs s').
Proof.
  intros Hr Hm H. unfold free_req, free_req_with in H. step H as r0 Hr0. apply get_req_done in Hr0.
  assert (r0 = r) as -> by congruence. rewrite Hm in H. step H as s1 H1. apply done_val in H1 as ->.
  by apply (release_freed core).
Qed.

Definition lone (a : astate) (p : nat) : Prop := forall r, as_reqs a !! p = Some r -> a_merge r = [].

Lemma flush_each_rests core l s s' :
  rests (abs s) -> (forall p, p ∈ l -> lone (abs s) p) -> flush_each core l s = Done s' ->
  rests (abs s') /\ refused s' = refused s /\ forall y, y ∉ l -> as_reqs (abs s') !! y = as_reqs (abs s) !! y.
Proof.
  revert s. induction l as [| p l IH]; intros s Hs Hl H; simpl in H; [by apply done_val in H as -> |].
  step H as r Hr. step H as s1 H1. apply get_req_done in Hr.
  assert (Hs1 : rests (abs s1) /\ refused s1 = refused s /\ (forall y, y <> p -> as_reqs (abs s1) !! y = as_reqs (abs s) !! y) /\
    lone (abs s1) p).
  { pose proof (Hl p (list_elem_of_here _ _)) as Hlp. destruct (r_queue r) as [[[lv i] q] |] eqn:Hq.
    - step H1 as s0 H0. pose proof (queue_pop_abs _ _ _ _ _ _ H0) as Ha.
      assert (Hp : p ∈ queue_at (abs s) (lv, i, q)).
      { apply (st_queue _ _ _ _ _ (calm_reqs _ _ _ (rs_calm _ _ Hs) p _ (abs_lookup_req _ _ _ Hr))); [set_solver | done]. }
      destruct (popped_ready _ p _ Hs Hp) as [Hr0 HD0]. rewrite <- Ha in Hr0, HD0.
      assert (Hr0' : reqs s0 !! p = Some r).
      { unfold queue_pop in H0. step H0 as d Hd. by apply done_val in H0 as ->. }
      assert (HF : freed p (abs s0) (abs s1)).
      { eapply free_req_lone; [exact Hr0' | | exact H1]. exact (Hlp _ (abs_lookup_req _ _ _ Hr)). }
      split_and!.
      + eapply released_rests; [exact Hr0 | exact HD0 | apply untouched_served, serves_refl, Hr0 | exact HF].
      + rewrite <- (queue_pop_refused _ _ _ _ _ _ H0). exact (fr_refused _ _ _ HF).
      + intros y Hne. rewrite (fr_keep _ _ _ HF) by done. by rewrite Ha, a_pop_reqs.
      + exact (fr_self _ _ _ HF).
    - apply done_val in H1 as ->. done. }
  destruct Hs1 as (Hs1 & Hf1 & Hk1 & Hl1). apply IH in H as (Hs' & Hf' & Hk').
  - split_and!; [done | congruence |]. intros y Hy. apply not_elem_of_cons in Hy as [Hne Hy]. by rewrite Hk', Hk1.
  - done.
  - intros y Hy. destruct (decide (y = p)) as [-> | Hne]; [done |]. intros ry. rewrite Hk1 by done.
    apply Hl. by right.
Qed.
Definition unflushed (a : astate) (y : nat) : Prop :=
  forall r, as_reqs a !! y = Some r -> i_type (a_info r) <> MRT_DPRF.
Lemma flush_prefetch_rests core s s' :
  rests (abs s) -> flush_prefetch core s = Done s' ->
  rests (abs s') /\ refused s' = refused s /\ forall y, unflushed (abs s) y -> as_reqs (abs s') !! y = as_reqs (abs s) !! y.
Proof.
  intros Hs H. unfold flush_prefetch in H. step H as ms Hms. clear Hms. apply flush_each_rests in H as (H1 & H2 & H3).
  - split_and!; [done | done |]. intros y Hy. apply H3. intros Hin. apply list_elem_of_filter in Hin as [Hp _].
    unfold is_lone_prefetch in Hp. destruct (reqs s !! y) as [r |] eqn:Hr; [| done].
    apply Is_true_true, andb_true_iff in Hp as [Hp _]. apply bool_decide_eq_true in Hp.
    by apply (Hy _ (abs_lookup_req _ _ _ Hr)).
  - done.
  - intros p Hp r0 Hr0. apply list_elem_of_filter in Hp as [Hp _]. unfold is_lone_prefetch in Hp.
    destruct (abs_lookup_inv _ _ _ Hr0) as (r & Hr & ->). rewrite Hr in Hp.
    apply Is_true_true, andb_true_iff in Hp as [_ Hp]. by apply bool_decide_eq_true in Hp.
Qed.
Lemma make_room_rests core s s' b :
  rests (abs s) -> make_room core s = Done (s', b) ->
  rests (abs s') /\ refused s' = refused s /\ forall y, unflushed (abs s) y -> as_reqs (abs s') !! y = as_reqs (abs s) !! y.
Proof.
  intros Hs H. unfold make_room in H. step H as full Hf. destruct full; [| by apply done_pair in H as [-> _]].
  step H as s1 H1. step H as full1 Hf1. apply done_pair in H as [-> _]. by apply flush_prefetch_rests in H1.
Qed.

(** ** Getting an entry

    [lacks p a]: all live requests but [p] are in one place, and [p] is nowhere. *)

Record lacks (p : nat) (a : astate) : Prop := mk_lacks {
  lk_rank : ranked rho a;
  lk_calm : calm [] a;
  lk_D : forall h, D h a = - h p;
  lk_live : exists r, as_reqs a !! p = Some r /\ blank r
}.
Lemma lacks_absent p a : (forall h, D h a = - h p) -> (~ merged p a) /\ forall core fr, as_free a !! core = Some fr -> p ∉ fr.
Proof.
  intros HD. specialize (HD (ind p)). rewrite ind_eq in HD.
  destruct (W_parts_nonneg p a) as (? & ? & ? & ?). pose proof (L_ind p a) as HL. unfold D, W in HD.
  assert (L (ind p) a <= 1) by (rewrite HL; destruct (as_reqs a !! p); lia). split.
  - intros Hm. pose proof (part_merged p a Hm). lia.
  - intros core fr Hfr Hin. pose proof (part_free p a core fr Hfr). pose proof (sum_by_ind_in p fr Hin). lia.
Qed.

Lemma last_split {A} (l : list A) x : last l = Some x -> l = take (length l - 1) l ++ [x].
Proof.
  intros H. apply last_Some in H as [l' ->]. rewrite length_app. simpl.
  replace (length l' + 1 - 1)%nat with (length l') by lia. by rewrite take_app_length.
Qed.
Lemma allocated_lacks core s s' p :
  rests (abs s) -> allocate_new_entry core s = Done (s', Some p) ->
  (exists r, as_reqs (abs s) !! p = Some r) -> lacks p (abs s') /\ as_reqs (abs s') = as_reqs (abs s) /\ refused s' = refused s.
Proof.
  intros Hs H [r Hr]. unfold allocate_new_entry in H. step H as fr Hfr. step H as ms Hms. apply get_or_done in Hfr, Hms.
  destruct (last fr) as [p' |] eqn:Hl; [| by apply done_pair in H as [_ ?]]. apply done_pair in H as [-> [= <-]].
  split_and!; [| done | done]. apply last_split in Hl. set (fr' := take (length fr - 1) fr) in *.
  assert (Hin : p ∈ fr) by (rewrite Hl; set_solver).
  pose proof (st_free _ _ _ _ _ (calm_reqs _ _ _ (rs_calm _ _ Hs) p r Hr) core fr Hfr Hin) as Hb.
  constructor.
  - apply Hs.
  - apply (calm_set_mshr _ [] (ms ++ [p]) fr' core (abs s)); [apply Hs | |].
    + intros y Hy. apply elem_of_app in Hy as [Hy | Hy].
      * split; [by apply (calm_mshr _ _ _ (rs_calm _ _ Hs) core ms) |]. intros ry Hry.
        pose proof (st_gpu _ _ _ _ _ (calm_reqs _ _ _ (rs_calm _ _ Hs) y ry Hry)) as Hg.
        destruct (gpu_store _ _); [| done]. destruct Hg as [_ Hg]; [done |]. by destruct (Hg core ms).
      * apply list_elem_of_singleton in Hy as ->. split; [by apply (calm_reqs _ _ _ (rs_calm _ _ Hs) p r) |].
        intros ry. rewrite Hr. intros [= <-]. by apply blank_not_gpu.
    + intros y Hy. assert (Hy' : y ∈ fr) by (rewrite Hl; set_solver).
      split; [by apply (calm_free _ _ _ (rs_calm _ _ Hs) core fr) |]. intros ry Hry.
      by apply (st_free _ _ _ _ _ (calm_reqs _ _ _ (rs_calm _ _ Hs) y ry Hry) core fr).
  - intros h. change (D h (a_set_mshr (<[core := ms ++ [p]]> (as_mshr (abs s))) (<[core := fr']> (as_free (abs s))) (abs s)) = - h p).
    rewrite (D_set_free h _ core fr fr') by done. rewrite (rs_D _ _ Hs). rewrite Hl, sum_by_app. simpl. lia.
  - by exists r.
Qed.
Lemma allocate_none core s s' : allocate_new_entry core s = Done (s', None) -> s' = s.
Proof.
  intros H. unfold allocate_new_entry in H. step H as fr Hfr. step H as ms Hms.
  destruct (last fr); by apply done_pair in H as [-> ?].
Qed.

(** An object of the pool. *)
Lemma pooled_lacks p r a :
  rests a -> p = as_next a -> blank r -> a_queue r = None -> a_done r = false ->
  lacks p (a_set_next (S p) (a_set_req p r a)) /\ forall core ms, as_mshr a !! core = Some ms -> p ∉ ms.
Proof.
  intros Hs -> Hb Hq Hd. pose proof (rs_calm _ _ Hs) as Hc. split.
  - constructor.
    + intros y ry i Hy Hi. apply set_req_lookup in Hy as [[-> ->] | [_ Hy]]; [| by eapply (rs_rank _ _ Hs)].
      rewrite (proj1 Hb) in Hi. set_solver.
    + assert (Hn : calm [] (a_set_next (S (as_next a)) a)) by (apply calm_set_next; [done | lia]).
      apply (calm_set_req _ [] [] (as_next a) r _ Hn); [| done]. constructor; simpl.
      * lia.
      * done.
      * congruence.
      * by rewrite (blank_not_gpu _ _ Hb).
      * done.
    + intros h. rewrite D_set_next, D_new_req by (by eapply calm_fresh). rewrite (rs_D _ _ Hs), (proj1 Hb). simpl. lia.
    + exists r. split; [apply lookup_insert_eq | done].
  - intros core ms Hms Hin. pose proof (calm_mshr _ _ _ Hc core ms _ Hms Hin). lia.
Qed.

Lemma get_entry_rests q gs s s' e :
  rests (abs s) -> get_entry q gs s = Done (s', e) ->
  refused s' = refused s /\
  (forall y, unflushed (abs s) y -> (y < next_req s)%nat -> as_reqs (abs s') !! y = as_reqs (abs s) !! y) /\
  match e with
  | Entry p => (exists r, reqs s' !! p = Some r) ->
      lacks p (abs s') /\ (gs = true -> forall core ms, as_mshr (abs s') !! core = Some ms -> p ∉ ms)
  | _ => rests (abs s')
  end.
Proof.
  intros Hs H. unfold get_entry in H. destruct gs.
  - apply done_pair in H as [-> ->]. split_and!; [done | |].
    + intros y _ Hy. simpl. rewrite fmap_insert, lookup_insert_ne by lia. done.
    + intros _. match goal with |- context [put_req _ ?r _] => set (r0 := r) end.
      destruct (pooled_lacks (next_req s) (abs_req r0) (abs s) Hs eq_refl) as [H1 H2]; [done | done | done |].
      rewrite abs_put_req. split; [exact H1 | intros _; exact H2].
  - step H as [s1 e1] H1. destruct e1 as [p |].
    + apply done_pair in H as [-> ->].
      assert (Hk : as_reqs (abs s1) = as_reqs (abs s) /\ refused s1 = refused s).
      { unfold allocate_new_entry in H1. step H1 as fr Hfr. step H1 as ms Hms.
        destruct (last fr); by apply done_pair in H1 as [-> ?]. }
      destruct Hk as [Hk1 Hk2]. split_and!; [done | by intros; rewrite Hk1 |]. intros [r Hr].
      split; [| done]. apply (allocated_lacks (n_core_id q) s s1 p); [done | done |]. rewrite <- Hk1.
      eexists. by apply abs_lookup_req.
    + apply allocate_none in H1 as ->. step H as s2 H2. apply flush_prefetch_rests in H2 as (Hs2 & Hf2 & Hk2); [| done].
      destruct (bool_decide _); [apply done_pair in H as [-> ->]; split_and!; [done | by intros; apply Hk2 | done] |].
      step H as [s3 e2] H3. apply done_pair in H as [-> ->].
      assert (Hk : as_reqs (abs s3) = as_reqs (abs s2) /\ refused s3 = refused s2).
      { clear Hk2. unfold allocate_new_entry in H3. step H3 as fr Hfr. step H3 as ms Hms.
        destruct (last fr); by apply done_pair in H3 as [-> ?]. }
      destruct Hk as [Hk3 Hf3]. split_and!; [by rewrite Hf3 | by intros; rewrite Hk3; apply Hk2 |].
      destruct e2 as [p |].
      * intros [r Hr]. split; [| done]. apply (allocated_lacks (n_core_id q) s2 s3 p); [done | done |]. rewrite <- Hk3.
        eexists. by apply abs_lookup_req.
      * by apply allocate_none in H3 as ->.
Qed.

(** ** The new request *)

Record unplaced (p : nat) (a : astate) : Prop := mk_unplaced {
  up_rank : ranked rho a;
  up_calm : calm [] a;
  up_D : forall h, D h a = - h p;
  up_lone : lone a p
}.
Definition asks_gpu (q : new_req) : bool := n_ptx q && KNOB_CC20 k && bool_decide (n_type q = MRT_DSTORE).

Lemma init_unplaced p q s s' :
  lacks p (abs s) -> (asks_gpu q = true -> forall core ms, as_mshr (abs s) !! core = Some ms -> p ∉ ms) ->
  init_new_req p q s = Done s' ->
  unplaced p (abs s') /\ refused s' = refused s /\ forall y, y <> p -> as_reqs (abs s') !! y = as_reqs (abs s) !! y.
Proof.
  intros [Hk Hc HD (r0 & Hr0 & Hb)] Hg H. unfold init_new_req in H. step H as r Hr. step H as [] Ha.
  apply ASSERT_done, bool_decide_eq_true in Ha. apply get_req_done, abs_lookup_req in Hr. apply done_val in H as ->.
  rewrite abs_put_req. set (r' := abs_req _). change (abs (with_ids _ _ s)) with (abs s).
  assert (Hm : a_merge r' = []) by exact Ha.
  assert (Hinfo : gpu_store (KNOB_CC20 k) (a_info r') = asks_gpu q) by done.
  assert (Hq : a_queue r' = a_queue (abs_req r)) by done. assert (Hd : a_done r' = false) by done. clearbody r'.
  split_and!; [| done | by intros y Hne; simpl; rewrite lookup_insert_ne].
  constructor.
  - intros y ry i Hy Hi. apply set_req_lookup in Hy as [[-> ->] | [_ Hy]]; [| by eapply Hk]. rewrite Hm in Hi. set_solver.
  - apply (calm_set_req _ []); [done | | done]. pose proof (calm_reqs _ _ _ Hc p _ Hr) as [S1 S2 S3 S4 S5].
    constructor.
    + done.
    + done.
    + intros x Hx Hqx. apply S3; [done |]. congruence.
    + rewrite Hinfo. intros Hga. split; [done |]. by apply Hg.
    + intros core fr Hfr Hin. by destruct (proj2 (lacks_absent p _ HD) core fr Hfr).
  - intros h. rewrite (D_set_req h p _ _ _ Hr), HD. simpl. rewrite Hm, Ha. simpl. lia.
  - intros ry Hy. apply set_req_lookup in Hy as [[_ ->] | [] ]; done.
Qed.

Lemma insert_rests core p s s' b :
  unplaced p (abs s) -> dcu_insert L2 core p s = Done (s', b) -> rests (abs s') /\ refused s' = refused s.
Proof.
  intros [Hk Hc HD Hl] H. split; [| by eapply dcu_insert_refused].
  destruct (dcu_insert_abs _ _ _ _ _ _ H) as [[_ (c & Hcc & Ha)] | [_ Hp]].
  - rewrite Ha. constructor.
    + done.
    + apply calm_set_cache; [done |]. intros z y r _ _ _ Hin. rewrite queue_at_set_cache.
      destruct (decide (z.1 = (L2, core))) as [E | Hne]; [| done]. unfold queue_at in Hin. rewrite E, Hcc in Hin.
      by destruct z.2.
    + intros h. rewrite (D_set_cache h _ _ _ _ Hcc), places_set_retry, HD, sum_by_app. simpl. lia.
  - constructor.
    + by eapply pushed_ranked.
    + by eapply pushed_calm.
    + intros h. rewrite (pushed_D h _ _ _ _ Hp), HD. lia.
Qed.
End RHO.

Lemma merge_rests rho m p prio r s s' :
  unplaced rho p (abs s) -> m <> p -> as_reqs (abs s) !! m = Some r -> gpu_store (KNOB_CC20 k) (a_info r) = false ->
  ~ blank r -> merge_req m p prio s = Done s' -> exists rho', rests rho' (abs s') /\ refused s' = refused s.
Proof.
  intros [Hk Hc HD Hl] Hne Hm Hg Hnb H. unfold merge_req in H. step H as s1 H1. step H as s2 H2.
  exists (fun y => if decide (y = p) then S (rho m) else rho y).
  assert (Hf : refused s' = refused s).
  { by rewrite (upd_req_refused _ _ _ _ H), (upd_req_refused _ _ _ _ H2), (upd_req_refused _ _ _ _ H1). }
  split; [| done]. clear Hf. apply upd_req_quiet in H; [| by intros x; destruct (_ <? _)].
  apply upd_req_quiet in H2; [| done]. destruct (upd_req_abs _ _ _ _ H1) as (r0 & Hr0 & _ & Ha).
  apply abs_lookup_req in Hr0. rewrite Hm in Hr0. injection Hr0 as ->. rewrite H, H2, Ha.
  destruct (lacks_absent p _ HD) as [Habs _]. constructor.
  - intros y ry i Hy Hi. assert (Hy0 : exists r1, as_reqs (abs s) !! y = Some r1 /\ (i ∈ a_merge r1 \/ (y = m /\ i = p))).
    { apply set_req_lookup in Hy as [[-> ->] | [_ Hy]]; [| eauto]. exists (abs_req r0). split; [done |].
      simpl in Hi. apply elem_of_app in Hi as [Hi | Hi]; [by left | right]. by apply list_elem_of_singleton in Hi. }
    destruct Hy0 as (r1 & Hr1 & [Hi1 | [-> ->]]).
    + assert (i <> p) by (intros ->; apply Habs; by exists y, r1).
      assert (y <> p) by (intros ->; rewrite (Hl r1 Hr1) in Hi1; set_solver).
      rewrite !decide_False by done. by eapply Hk.
    + rewrite decide_False, decide_True by done. lia.
  - apply (calm_set_req _ []); [done | | done]. pose proof (calm_reqs _ _ _ Hc m _ Hm) as [S1 S2 S3 S4 S5].
    constructor; try done.
    + intros Hgp. change (gpu_store (KNOB_CC20 k) (a_info (abs_req r0)) = true) in Hgp. congruence.
    + intros core fr Hfr Hin. by destruct Hnb; eapply S5.
  - intros h. rewrite (D_set_req h m _ _ _ Hm), HD. simpl. rewrite sum_by_app. simpl. lia.
Qed.

(** ** Promotion *)

Lemma adjust_rests rho m q r s s' :
  rests rho (abs s) -> asks_gpu q = false -> as_reqs (abs s) !! m = Some r -> ~ blank r ->
  adjust_req m q s = Done s' -> rests rho (abs s') /\ refused s' = refused s.
Proof.
  intros [Hk Hc HD] Hg Hm Hnb H. unfold adjust_req in H. step H as r0 Hr0. apply done_val in H as ->.
  apply get_req_done, abs_lookup_req in Hr0. rewrite Hm in Hr0. injection Hr0 as ->. split; [| done].
  rewrite abs_put_req. set (r' := abs_req (mk_mreq _ _ _ _ _ _ _ _ _)).
  assert (Hmg : a_merge r' = a_merge (abs_req r0)) by done. assert (Hq : a_queue r' = a_queue (abs_req r0)) by done.
  assert (Hinfo : gpu_store (KNOB_CC20 k) (a_info r') = asks_gpu q) by done. assert (Hd : a_done r' = false) by done.
  clearbody r'. constructor.
  - intros y ry i Hy Hi. apply set_req_lookup in Hy as [[-> ->] | [_ Hy]]; [| by eapply Hk].
    rewrite Hmg in Hi. by eapply Hk.
  - apply (calm_set_req _ []); [done | | done]. pose proof (calm_reqs _ _ _ Hc m _ Hm) as [S1 S2 S3 S4 S5].
    constructor; try done.
    + intros x Hx Hqx. apply S3; [done | congruence].
    + rewrite Hinfo, Hg. done.
    + intros core fr Hfr Hin. by destruct Hnb; eapply S5.
  - intros h. rewrite (D_set_req h m _ _ _ Hm), HD, Hmg. lia.
Qed.

(** ** Matching *)

Lemma covers_nonblank s addr size p r :
  0 < addr + size < 2 ^ 64 -> covers s addr size p = true -> reqs s !! p = Some r -> ~ blank (abs_req r).
Proof.
  intros Hr Hc Hp (_ & Ha & Hs & _). unfold covers in Hc. rewrite Hp in Hc. simpl in Ha, Hs. rewrite Ha, Hs in Hc.
  apply andb_true_iff in Hc as [_ Hc]. apply Z.leb_le in Hc. rewrite u64_small in Hc by (split; lia).
  change (u64 (0 + 0)) with 0 in Hc. lia.
Qed.
Lemma search_cores_found cores addr size s m :
  search_cores cores addr size s = Done (Some m) ->
  covers s addr size m = true /\ exists core ms, m_mshr s !! core = Some ms /\ m ∈ ms.
Proof.
  induction cores as [| c cores IH]; intros H; simpl in H; [done |]. step H as o Ho. destruct o as [p |]; [| auto].
  apply done_val in H as [= ->]. unfold search_req in Ho. step Ho as ms Hms. apply get_or_done in Hms.
  apply done_val in Ho. symmetry in Ho. apply fmap_Some in Ho as ([n y] & Hf & ->). simpl.
  apply list_find_Some in Hf as (Hl & Hp & _). split; [by apply Is_true_true |].
  exists c, ms. split; [done |]. by eapply list_elem_of_lookup_2.
Qed.

(** ** All of it *)

Lemma init_live p q s s' : init_new_req p q s = Done s' -> exists r, reqs s !! p = Some r.
Proof. intros H. unfold init_new_req in H. step H as r Hr. apply get_req_done in Hr. eauto. Qed.

Lemma new_alone_rests rho q s1 s' b :
  rests rho (abs s1) ->
  ('(s2, e) ← get_entry q (asks_gpu q) s1;
   match e with
   | Entry p => s3 ← init_new_req p q s2; '(s4, _) ← dcu_insert L2 (n_core_id q) p s3; mret (s4, true)
   | Blocked => mret (s2, false)
   | Dropped => mret (s2, true)
   end) = Done (s', b) -> rests rho (abs s') /\ refused s' = refused s1.
Proof.
  intros Hs H. step H as [s2 e] H2. destruct (get_entry_rests rho q _ _ _ _ Hs H2) as (Hf2 & _ & He).
  destruct e as [p | |]; [| by apply done_pair in H as [-> _] ..].
  step H as s3 H3. step H as [s4 b4] H4. apply done_pair in H as [-> _].
  destruct (He (init_live _ _ _ _ H3)) as [Hlk Hg]. destruct (init_unplaced rho p q s2 s3 Hlk Hg H3) as (Hu & Hf3 & _).
  destruct (insert_rests rho _ _ _ _ _ Hu H4) as [Hr Hf4]. split; [done | congruence].
Qed.

Lemma new_merged_rests rho q m r s1 s' b :
  rests rho (abs s1) -> asks_gpu q = false -> as_reqs (abs s1) !! m = Some r ->
  gpu_store (KNOB_CC20 k) (a_info r) = false -> ~ blank r -> i_type (a_info r) <> MRT_DPRF ->
  ('(s2, e) ← get_entry q (asks_gpu q) s1;
   match e with
   | Entry p => s3 ← init_new_req p q s2; s4 ← merge_req m p (g_mem_priority (n_type q)) s3; mret (s4, true)
   | Blocked => mret (s2, false)
   | Dropped => mret (s2, true)
   end) = Done (s', b) -> exists rho', rests rho' (abs s') /\ refused s' = refused s1.
Proof.
  intros Hs Hq Hm Hg Hnb Hty H. step H as [s2 e] H2.
  destruct (get_entry_rests rho q _ _ _ _ Hs H2) as (Hf2 & Hk2 & He).
  destruct e as [p | |]; [| by exists rho; apply done_pair in H as [-> _] ..].
  step H as s3 H3. step H as s4 H4. apply done_pair in H as [-> _].
  destruct (He (init_live _ _ _ _ H3)) as [Hlk Hgp]. clear He.
  assert (Hm2 : as_reqs (abs s2) !! m = Some r).
  { rewrite Hk2; [done | |].
    - intros r' Hr'. rewrite Hm in Hr'. by injection Hr' as <-.
    - exact (st_next _ _ _ _ _ (calm_reqs _ _ _ (rs_calm _ _ Hs) m r Hm)). }
  assert (Hne : m <> p).
  { intros ->. destruct (lk_live _ _ _ Hlk) as (r' & Hr' & Hb'). rewrite Hm2 in Hr'. by injection Hr' as <-. }
  destruct (init_unplaced rho p q s2 s3 Hlk) as (Hu & Hf3 & Hk3); [congruence | exact H3 |].
  destruct (merge_rests rho m p (g_mem_priority (n_type q)) r s3 s4 Hu Hne) as (rho' & Hr' & Hf4); [by rewrite Hk3 | done | done | exact H4 |].
  exists rho'. split; [done | congruence].
Qed.

Lemma new_mem_req_rests rho q s s' b :
  sane q -> rests rho (abs s) -> new_mem_req q s = Done (s', b) ->
  exists rho', rests rho' (abs s') /\ refused s' = refused s.
Proof.
  intros [Hwb Hrange] Hs H. unfold new_mem_req in H. change (n_ptx q && _ && _) with (asks_gpu q) in H.
  destruct (_ && _); [exists rho; by apply done_pair in H as [-> _] |].
  step H as matching Hsr. step H as mr Hmr. step H as [] Ha. destruct mr as [[m r] |].
  - assert (Hmm : matching = Some m /\ asks_gpu q = false /\ reqs s !! m = Some r).
    { destruct (asks_gpu q); [by apply done_val in Hmr |]. destruct matching as [m' |]; [| by apply done_val in Hmr].
      step Hmr as r' Hr'. apply done_val in Hmr as [= -> ->]. by apply get_req_done in Hr'. }
    destruct Hmm as (-> & Hg & Hr). rewrite Hg in Ha, Hmr. destruct (search_cores_found _ _ _ _ _ Hsr) as (Hcov & core & ms & Hms & Hin).
    pose proof (covers_nonblank _ _ _ _ _ Hrange Hcov Hr) as Hnb. apply abs_lookup_req in Hr.
    assert (Hgm : gpu_store (KNOB_CC20 k) (a_info (abs_req r)) = false).
    { pose proof (st_gpu _ _ _ _ _ (calm_reqs _ _ _ (rs_calm _ _ Hs) m _ Hr)) as Hn.
      destruct (gpu_store _ _); [| done]. destruct Hn as [_ Hn]; [done |]. by destruct (Hn core ms). }
    destruct (bool_decide (n_type q = MRT_DPRF)); [exists rho; by apply done_pair in H as [-> _] |].
    case_bool_decide as Hty.
    + step H as s1 H1. apply done_pair in H as [-> _]. exists rho. by apply (adjust_rests rho m q (abs_req r) s s1).
    + step H as [] Hb. step H as [s1 full] H1. destruct (make_room_rests rho _ _ _ _ Hs H1) as (Hs1 & Hf1 & Hk1).
      rewrite <- Hf1.
      apply (new_merged_rests rho q m (abs_req r) s1 s' b); [done | done | | done | done | done | exact H].
      rewrite Hk1; [done |]. intros r' Hr'. rewrite Hr in Hr'. by injection Hr' as <-.
  - step H as [s1 full] H1. destruct (make_room_rests rho _ _ _ _ Hs H1) as (Hs1 & Hf1 & Hk1).
    exists rho. rewrite <- Hf1. destruct (_ && _); [by apply done_pair in H as [-> _] |].
    by apply (new_alone_rests rho q s1 s' b).
Qed.

(** ** The access from the pipeline *)

Lemma access_port_quiet ak u s s' b :
  access_port ak u s = Done (s', b) ->
  abs s' = abs s /\ forall d, get_dcu s L1 (a_core u) = Done d ->
    exists d', get_dcu s' L1 (a_core u) = Done d' /\ d_cfg d' = d_cfg d /\ d_cache d' = d_cache d.
Proof.
  unfold access_port. intros H. step H as d Hd. destruct (_ || _).
  - apply done_pair in H as [-> _]. split; [done |]. intros d0 Hd0. eauto.
  - step H as pt Hpt. step H as [pt1 ok] Hok. step H as ps Hps. apply done_pair in H as [-> _].
    split; [by eapply put_dcu_quiet |]. intros d0 Hd0. rewrite Hd in Hd0. injection Hd0 as <-.
    exists (with_ports ps d). split; [| done]. unfold get_dcu; simpl. by rewrite lookup_insert_eq.
Qed.

(** The bytes an access may ask for. *)
Definition access_sane (ak : access_knobs) (u : access_uop) (s : memory_c) : Prop :=
  forall d, get_dcu s L1 (a_core u) = Done d ->
    0 < a_paddr u + a_size u < 2 ^ 64 /\
    0 < base_addr (m_line_size (d_cfg d)) (a_paddr u) + m_line_size (d_cfg d) < 2 ^ 64 /\
    forall c, d_cache d = Some c -> 0 < base_cache_line (m_geom c) (a_paddr u) + m_line_size (d_cfg d) < 2 ^ 64.

Lemma access_req_sane ak u d la ty wd f bp sk :
  ty <> MRT_WB -> 0 < a_paddr u + a_size u < 2 ^ 64 -> 0 < la + m_line_size (d_cfg d) < 2 ^ 64 ->
  sane (access_new_req ak u d la ty wd f bp sk).
Proof. intros Ht Hb Hl. split; [done |]. simpl. by destruct (m_acc_sim (d_cfg d) && KNOB_BYTE_LEVEL_ACCESS ak). Qed.
Lemma req_type_not_wb x ty : req_type x = Done ty -> ty <> MRT_WB.
Proof. destruct x; simpl; intros [= <-]; done. Qed.

Lemma access_hit_rests rho ak u x la s s' r :
  rests rho (abs s) -> 0 < a_paddr u + a_size u < 2 ^ 64 ->
  (forall d, get_dcu s L1 (a_core u) = Done d -> 0 < la + m_line_size (d_cfg d) < 2 ^ 64) ->
  access_hit ak u x la s = Done (s', r) -> exists rho', rests rho' (abs s') /\ refused s' = refused s.
Proof.
  intros Hs Hp Hl H. unfold access_hit in H. step H as s1 H1. step H as d Hd.
  assert (Hs1 : abs s1 = abs s /\ 0 < la + m_line_size (d_cfg d) < 2 ^ 64).
  { destruct x as [x |]; [destruct (IsStore _) |].
    - split; [by eapply mark_dirty_quiet |]. unfold mark_dirty in H1. step H1 as d0 Hd0. step H1 as c Hc.
      apply done_val in H1 as ->. unfold get_dcu in Hd. simpl in Hd. rewrite lookup_insert_eq in Hd. injection Hd as <-.
      exact (Hl d0 Hd0).
    - apply done_val in H1 as ->. auto.
    - apply done_val in H1 as ->. auto. }
  destruct Hs1 as [Hs1 Hla]. destruct (_ && _).
  - step H as c Hc. step H as [b1 c1] Hi. step H as [s2 ok] H2. apply done_pair in H as [-> _].
    assert (Hq : abs (put_dcu L1 (a_core u) (with_cache c1 d) s1) = abs s) by (rewrite <- Hs1; by eapply put_dcu_quiet).
    apply (new_mem_req_rests rho) in H2 as (rho' & Hr & Hf).
    + exists rho'. split; [done |]. rewrite Hf. by apply quiet_refused.
    + by apply access_req_sane.
    + by rewrite Hq.
  - apply done_pair in H as [-> _]. exists rho. rewrite Hs1. split; [done | by apply quiet_refused].
Qed.
Lemma access_miss_rests rho ak u la s s' r :
  rests rho (abs s) -> 0 < a_paddr u + a_size u < 2 ^ 64 ->
  (forall d, get_dcu s L1 (a_core u) = Done d -> 0 < la + m_line_size (d_cfg d) < 2 ^ 64) ->
  access_miss ak u la s = Done (s', r) -> exists rho', rests rho' (abs s') /\ refused s' = refused s.
Proof.
  intros Hs Hp Hl H. unfold access_miss in H. step H as d Hd. step H as ty Hty. step H as [s1 ok] H1.
  apply done_pair in H as [-> _]. apply (new_mem_req_rests rho) in H1; [done | | done].
  apply access_req_sane; [by eapply req_type_not_wb | done | auto].
Qed.

Lemma access_rests rho ak u s s' r :
  access_sane ak u s -> rests rho (abs s) -> access ak u s = Done (s', r) ->
  exists rho', rests rho' (abs s') /\ refused s' = refused s.
Proof.
  intros Hsane Hs H. unfold access in H. step H as [s1 ok] H1. destruct (access_port_quiet _ _ _ _ _ H1) as [Hq1 Hd1].
  assert (Hf1 : refused s1 = refused s) by (by apply quiet_refused). rewrite <- Hf1. rewrite <- Hq1 in Hs.
  destruct ok; simpl in H; [| apply done_pair in H as [-> _]; by exists rho]. step H as d1 Hd.
  assert (exists d, get_dcu s L1 (a_core u) = Done d /\ d_cfg d1 = d_cfg d /\ d_cache d1 = d_cache d) as (d & Hds & Ec & Ek).
  { unfold access_port in H1. step H1 as d Hds. destruct (Hd1 d Hds) as (d' & Hd' & ? & ?). rewrite Hd in Hd'.
    injection Hd' as <-. by exists d. }
  destruct (Hsane d Hds) as (Hp & Hb & Hc). rewrite <- Ec in Hb, Hc. rewrite <- Ek in Hc.
  assert (Hbase : forall d, get_dcu s1 L1 (a_core u) = Done d ->
    0 < base_addr (m_line_size (d_cfg d1)) (a_paddr u) + m_line_size (d_cfg d) < 2 ^ 64) by (intros d0 E; congruence).
  destruct (KNOB_PERFECT_DCACHE ak); [by eapply access_hit_rests |].
  destruct (m_disable (d_cfg d1)); [by eapply access_miss_rests |].
  step H as c Hcc. step H as [[line la] c1] Ha. apply get_or_done in Hcc.
  set (s2 := put_dcu L1 (a_core u) (with_cache c1 d1) s1) in *.
  assert (Hq2 : abs s2 = abs s1) by (by eapply put_dcu_quiet).
  assert (Hla : forall d, get_dcu s2 L1 (a_core u) = Done d ->
    0 < default (base_addr (m_line_size (d_cfg d1)) (a_paddr u)) la + m_line_size (d_cfg d) < 2 ^ 64).
  { intros d0 Hd0. unfold get_dcu, s2 in Hd0. simpl in Hd0. rewrite lookup_insert_eq in Hd0. injection Hd0 as <-. simpl.
    unfold access_cache in Ha. destruct (m_cache_by_pass (m_geom c)); [by injection Ha as <- <- <- |].
    destruct (find_tag_and_set _ _). step Ha as cs Hcs. destruct (find_way _ _); injection Ha as <- <- <-; simpl; auto. }
  assert (Hf2 : refused s2 = refused s1) by done. rewrite <- Hf2. rewrite <- Hq2 in Hs.
  destruct line; [by eapply access_hit_rests | by eapply access_miss_rests].
Qed.

(** ** Refusals, whatever the state *)

Lemma flush_each_refused core l s s' : flush_each core l s = Done s' -> refused s' = refused s.
Proof.
  revert s. induction l as [| p l IH]; intros s H; simpl in H; [by apply done_val in H as -> |].
  step H as r Hr. step H as s1 H1. rewrite (IH _ H). destruct (r_queue r) as [[[lv i] q] |]; [| by apply done_val in H1 as ->].
  step H1 as s0 H0. by rewrite (free_req_refused _ _ _ _ H1), (queue_pop_refused _ _ _ _ _ _ H0).
Qed.
Lemma flush_prefetch_refused core s s' : flush_prefetch core s = Done s' -> refused s' = refused s.
Proof. unfold flush_prefetch. intros H. step H as ms Hms. by eapply flush_each_refused. Qed.
Lemma allocate_refused core s s' e : allocate_new_entry core s = Done (s', e) -> refused s' = refused s.
Proof.
  unfold allocate_new_entry. intros H. step H as fr Hfr. step H as ms Hms. destruct (last fr); by apply done_pair in H as [-> _].
Qed.
Lemma make_room_refused core s s' b : make_room core s = Done (s', b) -> refused s' = refused s.
Proof.
  unfold make_room. intros H. step H as full Hf. destruct full; [| by apply done_pair in H as [-> _]].
  step H as s1 H1. step H as full1 Hf1. apply done_pair in H as [-> _]. exact (flush_prefetch_refused _ _ _ H1).
Qed.
Lemma get_entry_refused q gs s s' e : get_entry q gs s = Done (s', e) -> refused s' = refused s.
Proof.
  unfold get_entry. intros H. destruct gs; [by apply done_pair in H as [-> _] |]. step H as [s1 e1] H1.
  apply allocate_refused in H1. rewrite <- H1. destruct e1; [by apply done_pair in H as [-> _] |].
  step H as s2 H2. apply flush_prefetch_refused in H2. destruct (bool_decide _); [by apply done_pair in H as [-> _] |].
  step H as [s3 e3] H3. apply done_pair in H as [-> _]. rewrite (allocate_refused _ _ _ _ H3). exact H2.
Qed.
Lemma init_new_req_refused p q s s' : init_new_req p q s = Done s' -> refused s' = refused s.
Proof. unfold init_new_req. intros H. step H as r Hr. step H as [] Ha. by apply done_val in H as ->. Qed.
Lemma merge_req_refused m p prio s s' : merge_req m p prio s = Done s' -> refused s' = refused s.
Proof.
  unfold merge_req. intros H. step H as s1 H1. step H as s2 H2.
  by rewrite (upd_req_refused _ _ _ _ H), (upd_req_refused _ _ _ _ H2), (upd_req_refused _ _ _ _ H1).
Qed.
Lemma new_mem_req_refused q s s' b : new_mem_req q s = Done (s', b) -> refused s' = refused s.
Proof.
  unfold new_mem_req. intros H. destruct (_ && _); [by apply done_pair in H as [-> _] |].
  step H as matching Hsr. step H as mr Hmr. step H as [] Ha. destruct mr as [[m r] |].
  - destruct (bool_decide (n_type q = MRT_DPRF)); [by apply done_pair in H as [-> _] |].
    destruct (bool_decide (i_type _ = _)).
    + step H as s1 H1. apply done_pair in H as [-> _]. unfold adjust_req in H1. step H1 as r1 Hr1. by apply done_val in H1 as ->.
    + step H as [] Hb. step H as [s1 full] H1. step H as [s2 e] H2.
      rewrite <- (make_room_refused _ _ _ _ H1), <- (get_entry_refused _ _ _ _ _ H2).
      destruct e as [p | |]; [| by apply done_pair in H as [-> _] ..]. step H as s3 H3. step H as s4 H4.
      apply done_pair in H as [-> _]. by rewrite (merge_req_refused _ _ _ _ _ H4), (init_new_req_refused _ _ _ _ H3).
  - step H as [s1 full] H1. rewrite <- (make_room_refused _ _ _ _ H1). destruct (full && _); [by apply done_pair in H as [-> _] |].
    step H as [s2 e] H2. rewrite <- (get_entry_refused _ _ _ _ _ H2).
    destruct e as [p | |]; [| by apply done_pair in H as [-> _] ..]. step H as s3 H3. step H as [s4 b4] H4.
    apply done_pair in H as [-> _]. by rewrite (dcu_insert_refused _ _ _ _ _ _ H4), (init_new_req_refused _ _ _ _ H3).
Qed.
Lemma access_refused ak u s s' r : access ak u s = Done (s', r) -> refused s' = refused s.
Proof.
  unfold access. intros H. step H as [s1 ok] H1. destruct (access_port_quiet _ _ _ _ _ H1) as [Hq1 _].
  rewrite <- (quiet_refused _ _ Hq1). destruct ok; simpl in H; [| by apply done_pair in H as [-> _]]. step H as d Hd.
  assert (Hhit : forall x la s s' r, access_hit ak u x la s = Done (s', r) -> refused s' = refused s).
  { clear. intros x la s s' r H. unfold access_hit in H. step H as s1 H1. step H as d Hd.
    assert (Hs1 : refused s1 = refused s).
    { destruct x as [x |]; [destruct (IsStore _) |]; [by eapply quiet_refused, mark_dirty_quiet | by apply done_val in H1 as -> ..]. }
    rewrite <- Hs1. destruct (_ && _); [| by apply done_pair in H as [-> _]]. step H as c Hc. step H as [b1 c1] Hi.
    step H as [s2 ok] H2. apply done_pair in H as [-> _]. exact (new_mem_req_refused _ _ _ _ H2). }
  assert (Hmiss : forall la s s' r, access_miss ak u la s = Done (s', r) -> refused s' = refused s).
  { clear. intros la s s' r H. unfold access_miss in H. step H as d Hd. step H as ty Hty. step H as [s1 ok] H1.
    apply done_pair in H as [-> _]. exact (new_mem_req_refused _ _ _ _ H1). }
  destruct (KNOB_PERFECT_DCACHE ak); [by eapply Hhit |]. destruct (m_disable _); [by eapply Hmiss |].
  step H as c Hc. step H as [[line la] c1] Ha. destruct line; [exact (Hhit _ _ _ _ _ H) | exact (Hmiss _ _ _ _ H)].
Qed.
End MISS.
