(* ===== verification/MemorySystem.v ===== *)
(** * The memory system as a whole (memory.cc)

    All that can happen to the memory hierarchy, from its construction on: the
    cycles of the caches, accesses of the pipeline, requests of the other caches
    and prefetchers, and what the network and the memory controllers do with the
    requests they hold. Every live request is in exactly one place, and the
    completion functions always return. *)

From S2P Require Import Prelude.
From S2P Require Import Utils.
From S2P Require Import Cache.
From S2P Require Import Rob.
From S2P Require Import Allocate.
From S2P Require Import Dram.
From S2P Require Import Noc.
From S2P Require Import Memory.
From S2P Require Import MemoryPlaces.
From S2P Require Import MemoryFlow.
From S2P Require Import MemoryMiss.

(** ** Places *)

(** Everything that holds requests: the four queues and the retry list of every
    cache, the network and the memory controllers, the free lists, and the lists
    of merged requests. *)
Definition places (s : memory_c) : list nat :=
  (x ← map_to_list (dcus s); ac_places (abs_dcu x.2)) ++ outside s ++ (x ← map_to_list (m_mshr_free_list s); x.2) ++
  (x ← map_to_list (reqs s); r_merge x.2).
Definition live (s : memory_c) : list nat := (map_to_list (reqs s)).*1.

Lemma sum_by_bind {A B} (h : B -> Z) (f : A -> list B) l : sum_by h (x ← l; f x) = sum_by (fun x => sum_by h (f x)) l.
Proof. induction l as [| a l IH]; csimpl; [done |]. rewrite sum_by_app. by rewrite <- IH. Qed.
Lemma sum_by_fmap {A B} (h : B -> Z) (f : A -> B) l : sum_by h (f <$> l) = sum_by (fun x => h (f x)) l.
Proof. induction l as [| a l IH]; csimpl; [done |]. by rewrite IH. Qed.
Lemma ksum_fmap `{Countable K} {A B} (h : K -> B -> Z) (f : A -> B) (m : gmap K A) :
  ksum h (f <$> m) = ksum (fun i x => h i (f x)) m.
Proof. unfold ksum. rewrite map_to_list_fmap, sum_by_fmap. done. Qed.

Lemma W_places h s : W h (abs s) = sum_by h (places s).
Proof.
  unfold W, places, msum; simpl. rewrite !ksum_fmap, !sum_by_app, !sum_by_bind. unfold ksum. simpl. lia.
Qed.
Lemma L_live h s : L h (abs s) = sum_by h (live s).
Proof. unfold L, live; simpl. rewrite ksum_fmap, sum_by_fmap. done. Qed.

(** Lists that weigh the same under all weights are permutations. *)
Lemma same_weight_perm (l l' : list nat) : (forall h, sum_by h l = sum_by h l') -> l ≡ₚ l'.
Proof.
  revert l'. induction l as [| x l IH]; intros l' H.
  - destruct l' as [| y l']; [done |]. specialize (H (ind y)). simpl in H. rewrite ind_eq in H.
    pose proof (sum_by_nonneg (ind y) l' (ind_nonneg y)). lia.
  - assert (Hx : x ∈ l').
    { destruct (decide (x ∈ l')) as [| Hn]; [done |]. specialize (H (ind x)). rewrite (sum_by_ind_notin x l' Hn) in H.
      simpl in H. rewrite ind_eq in H. pose proof (sum_by_nonneg (ind x) l (ind_nonneg x)). lia. }
    apply elem_of_Permutation in Hx as [l1 Hl1]. rewrite Hl1. constructor. apply IH. intros h. specialize (H h).
    rewrite (sum_by_perm h _ _ Hl1) in H. simpl in H. lia.
Qed.
Lemma rests_placed {Env : mem_env} rho s : rests rho (abs s) -> places s ≡ₚ live s.
Proof.
  intros H. apply same_weight_perm. intros h. pose proof (rs_D _ _ H h) as HD. unfold D in HD.
  rewrite W_places, L_live in HD. lia.
Qed.

(** ** What can happen *)

Inductive mem_op :=
| OpCore (na : net_answers) (core : nat) (lock : bool)     (* the private caches of a core *)
| OpUncore (na : net_answers) (lock : bool)                (* the shared caches *)
| OpAccess (ak : access_knobs) (u : access_uop)            (* the pipeline *)
| OpRequest (q : new_req)                                  (* instruction and read-only caches, prefetchers *)
| OpOutside (p : nat) (st : Mem_Req_State) (m : NOC_TYPE)  (* network or memory controller *)
| OpFree (p : nat)                                         (* a memory controller retires a request *)
| OpInvalidate (fuel : nat) (size addr : Z)
| OpUops (x : gmap nat muop) (e : list nat).               (* the pipeline's own state *)

(** What the network and the memory controllers touch they hold, and requests
    are for bytes of the address space. *)
Definition in_space (addr size : Z) : bool := (0 <? addr + size) && (addr + size <? 2 ^ 64).
Definition allowed (o : mem_op) (s : memory_c) : bool :=
  match o with
  | OpAccess ak u =>
      match get_dcu s L1 (a_core u) with
      | Done d =>
          in_space (a_paddr u) (a_size u) &&
          in_space (base_addr (m_line_size (d_cfg d)) (a_paddr u)) (m_line_size (d_cfg d)) &&
          match d_cache d with
          | Some c => in_space (base_cache_line (m_geom c) (a_paddr u)) (m_line_size (d_cfg d))
          | None => true
          end
      | Fault _ => true
      end
  | OpRequest q => negb (bool_decide (n_type q = MRT_WB)) && in_space (n_addr q) (n_size q)
  | OpOutside p _ _ | OpFree p => bool_decide (p ∈ outside s)
  | _ => true
  end.

Definition mem_do {Env : mem_env} (o : mem_op) (s : memory_c) : outcome memory_c :=
  match o with
  | OpCore na core lock => run_a_cycle_core na core lock s
  | OpUncore na lock => mem_run_a_cycle na lock s
  | OpAccess ak u => x ← access ak u s; mret x.1
  | OpRequest q => x ← new_mem_req q s; mret x.1
  | OpOutside p st m => upd_req (fun r => with_rstate st (with_msg_type m r)) p s
  | OpFree p =>
      r ← get_req s p; free_req (i_core_id (r_info r)) p (with_outside (remove_first p (outside s)) s)
  | OpInvalidate fuel size addr => invalidate fuel size addr s
  | OpUops x e => mret (with_uops x e s)
  end.

(** The clocks and answers vary from step to step, the configuration does not. *)
Definition configured (k : mem_knobs) (t : memory_type) (g : mem_geom) (Env : mem_env) : Prop :=
  @env_knobs Env = k /\ @env_type Env = t /\ @env_geom Env = g.

Section REACH.
Context (k : mem_knobs) (t : memory_type) (g : mem_geom) (params : nat -> nat -> dcu_params)
  (line0 : cache_entry_c (D := dcache_data_s)).

Inductive mem_step (s s' : memory_c) : Prop :=
| mem_step_do (Env : mem_env) (o : mem_op) :
    configured k t g Env -> allowed o s = true -> mem_do o s = Done s' -> mem_step s s'.
Inductive mem_reach : memory_c -> Prop :=
| reach_new : mem_reach (memory_new k t g params line0)
| reach_step s s' : mem_reach s -> mem_step s s' -> mem_reach s'.

(** Running a list of operations. *)
Fixpoint mem_run {Env : mem_env} (ops : list mem_op) (s : memory_c) : outcome memory_c :=
  match ops with
  | [] => mret s
  | o :: ops' => _ ← ASSERT (allowed o s); s1 ← mem_do o s; mem_run ops' s1
  end.
Lemma mem_run_reach (Env : mem_env) ops s s' :
  configured k t g Env -> mem_reach s -> mem_run ops s = Done s' -> mem_reach s'.
Proof.
  intros He. revert s. induction ops as [| o ops IH]; intros s Hs H; simpl in H; [by apply done_val in H as -> |].
  step H as [] Ha. step H as s1 H1. apply ASSERT_done in Ha. eapply IH; [| exact H].
  eapply reach_step; [exact Hs |]. by eapply mem_step_do.
Qed.
End REACH.

Lemma in_space_true addr size : in_space addr size = true -> 0 < addr + size < 2 ^ 64.
Proof. unfold in_space. rewrite andb_true_iff, !Z.ltb_lt. done. Qed.
Lemma allowed_sane q s : allowed (OpRequest q) s = true -> sane q.
Proof.
  simpl. rewrite andb_true_iff, negb_true_iff, bool_decide_eq_false. intros [H1 H2]. split; [done |].
  by apply in_space_true.
Qed.
Lemma allowed_access ak u s : allowed (OpAccess ak u) s = true -> access_sane ak u s.
Proof.
  simpl. intros H d Hd. rewrite Hd in H. apply andb_true_iff in H as [H H3]. apply andb_true_iff in H as [H1 H2].
  split; [by apply in_space_true |]. split; [by apply in_space_true |]. intros c Hc. rewrite Hc in H3. by apply in_space_true.
Qed.

(** ** The initial state *)

Lemma ksum_list_to_map `{Countable K} {A} (h : K -> A -> Z) (l : list (K * A)) :
  NoDup l.*1 -> ksum h (list_to_map l : gmap K A) = sum_by (fun kv => h kv.1 kv.2) l.
Proof. intros Hl. unfold ksum. apply sum_by_perm, map_to_list_to_map, Hl. Qed.
Lemma tabulate_keys {A B} (f : A -> B) (l : list A) : ((fun x => (x, f x)) <$> l).*1 = l.
Proof. rewrite <- list_fmap_compose. apply list_fmap_id. Qed.
Lemma entries_lists h cores size :
  sum_by (fun ii => sum_by h (seq (ii * size) size)) (seq 0 cores) = sum_by h (seq 0 (cores * size)).
Proof.
  induction cores as [| n IH]; [done |]. rewrite seq_S, sum_by_app, IH. simpl.
  replace (size + n * size)%nat with (n * size + size)%nat by lia. rewrite seq_app, sum_by_app. simpl. lia.
Qed.

Section SYSTEM.
Context {Env : mem_env}.
Local Abbreviation calm := (calm (KNOB_CC20 env_knobs)).

Lemma new_entries_lookup n p r : new_entries n !! p = Some r -> (p < n)%nat /\ r = blank_req.
Proof.
  unfold new_entries. rewrite lookup_tabulate_map. case_decide as Hp; [| done]. intros [= <-].
  apply elem_of_seq in Hp. split; [lia | done].
Qed.
Lemma new_caches_empty t params line0 ids x d : new_caches t params line0 ids !! x = Some d -> ac_places (abs_dcu d) = [].
Proof.
  unfold new_caches. intros H. apply elem_of_list_to_map_2, list_elem_of_omap in H as (y & _ & Hy).
  destruct (init_args t y.1 y.2); [| done]. by injection Hy as <- <-.
Qed.

Lemma memory_new_rests k t g params line0 : rests (fun _ => 0%nat) (abs (memory_new k t g params line0)).
Proof.
  set (n := (KNOB_NUM_SIM_CORES k * KNOB_MEM_MSHR_SIZE k)%nat).
  assert (Hreq : forall p r, as_reqs (abs (memory_new k t g params line0)) !! p = Some r ->
    (p < n)%nat /\ r = abs_req blank_req).
  { intros p r Hp. apply abs_lookup_inv in Hp as (r0 & Hr0 & ->). simpl in Hr0.
    apply new_entries_lookup in Hr0 as [? ->]. done. }
  constructor.
  - intros p r i Hp Hi. apply Hreq in Hp as [_ ->]. simpl in Hi. set_solver.
  - constructor.
    + intros p r Hp. apply Hreq in Hp as [Hp ->]. constructor; done.
    + intros core ms p Hms Hp. simpl in Hms. rewrite lookup_tabulate_map in Hms. case_decide; [| done].
      injection Hms as <-. set_solver.
    + intros core fr p Hfr Hp. simpl in Hfr. unfold new_free_lists in Hfr. rewrite lookup_tabulate_map in Hfr.
      case_decide as Hc; [| done]. injection Hfr as <-. apply elem_of_seq in Hc, Hp. simpl. nia.
  - intros h. unfold D. rewrite W_places, L_live. unfold places, live. simpl. rewrite !sum_by_app, !sum_by_bind.
    assert (E1 : sum_by (fun x => sum_by h (ac_places (abs_dcu x.2)))
      (map_to_list (new_caches t params line0 (cache_ids (KNOB_NUM_SIM_CORES k) (Z.to_nat (m_num_l3 g)) (Z.to_nat (m_num_llc g))))) = 0).
    { apply sum_by_none, Forall_forall. intros [x d] Hx. apply elem_of_map_to_list in Hx.
      cbn [snd]. by rewrite (new_caches_empty _ _ _ _ x d Hx). }
    assert (E2 : sum_by (fun x => sum_by h (r_merge x.2)) (map_to_list (new_entries n)) = 0).
    { apply sum_by_none, Forall_forall. intros [x d] Hx. apply elem_of_map_to_list, new_entries_lookup in Hx as [_ ->]. done. }
    fold n. rewrite E1, E2. rewrite sum_by_fmap.
    change (sum_by (fun x => sum_by h x.2) (map_to_list ?m)) with (ksum (fun _ l => sum_by h l) m).
    change (sum_by (fun x => h x.1) (map_to_list ?m)) with (ksum (fun p _ => h p) m).
    unfold new_free_lists, new_entries. rewrite !ksum_list_to_map by (rewrite tabulate_keys; apply NoDup_seq).
    rewrite !sum_by_fmap. simpl. rewrite entries_lists. fold n. change (fun x : nat => h x) with h. lia.
Qed.

(** ** The network and the memory controllers *)

Lemma outside_touched p st m s s' :
  upd_req (fun r => with_rstate st (with_msg_type m r)) p s = Done s' -> abs s' = abs s.
Proof. intros H. by apply upd_req_quiet in H. Qed.

Lemma outside_free_rests rho core p s s' :
  rests rho (abs s) -> p ∈ outside s -> free_req core p (with_outside (remove_first p (outside s)) s) = Done s' ->
  rests rho (abs s').
Proof.
  intros Hs Hp H. set (a0 := a_set_out (remove_first p (as_out (abs s))) (abs s)).
  assert (HD : forall h, D h a0 = - h p).
  { intros h. unfold a0. rewrite D_set_out, remove_first_sum, (rs_D _ _ Hs) by done. lia. }
  assert (Hr : ready rho [p] a0).
  { constructor.
    - apply Hs.
    - intros i _. rewrite HD. pose proof (ind_nonneg i p). lia.
    - apply calm_set_out, (calm_weaken _ []); [apply Hs | set_solver].
    - intros i Hi Hm. apply list_elem_of_singleton in Hi as ->. pose proof (rs_D _ _ Hs (ind p)) as H0.
      pose proof (part_merged p (abs s) Hm) as H1. pose proof (sum_by_ind_in p _ Hp) as H2. pose proof (L_ind p (abs s)) as H3.
      destruct (W_parts_nonneg p (abs s)) as (? & ? & ? & ?). unfold D, W in H0. change (as_out (abs s)) with (outside s) in H0.
      destruct (as_reqs (abs s) !! p); lia. }
  destruct (free_req_freed rho [p] core p (with_outside (remove_first p (outside s)) s) s' Hr H) as (a1 & HS & HF). by eapply released_rests.
Qed.

Lemma invalidate_lines_quiet fuel l i addr e s s' a :
  invalidate_lines fuel l i addr e s = Done (s', a) -> abs s' = abs s.
Proof.
  revert addr s. induction fuel as [| fuel IH]; intros addr s H; [done |]. simpl in H. step H as d Hd. destruct (_ <? _).
  - step H as c Hc. step H as [b c1] Hi. rewrite (IH _ _ H). by eapply put_dcu_quiet.
  - by apply done_pair in H as [-> _].
Qed.
Lemma invalidate_quiet fuel size addr s s' : invalidate fuel size addr s = Done s' -> abs s' = abs s.
Proof.
  unfold invalidate. generalize (u64 (addr + size)). intros e. revert addr s.
  induction (cache_order _ _ _) as [| [l i] cs IH]; intros addr s H; simpl in H; [by apply done_val in H as -> |].
  step H as [s1 a] H1. by rewrite (IH _ _ H), (invalidate_lines_quiet _ _ _ _ _ _ _ _ H1).
Qed.
End SYSTEM.

(** ** The invariant of every reachable state *)

Definition well_placed (k : mem_knobs) (s : memory_c) : Prop :=
  refused s = false -> forall Env : mem_env, @env_knobs Env = k -> exists rho, rests rho (abs s).

Lemma do_sticky (Env : mem_env) o s s' : mem_do o s = Done s' -> sticky s s'.
Proof.
  intros H. destruct o; simpl in H.
  - unfold run_a_cycle_core in H. step H as s1 H1. eapply sticky_trans; by eapply dcu_cycle_sticky.
  - unfold mem_run_a_cycle, run_a_cycle_uncore in H. step H as s1 H1. step H1 as s0 H0. apply done_val in H as ->.
    eapply sticky_trans; [by eapply cycles_sticky | exact (cycles_sticky _ _ _ _ _ _ H1)].
  - step H as [s1 r] H1. apply done_val in H as ->. by eapply sticky_eq, access_refused.
  - step H as [s1 r] H1. apply done_val in H as ->. by eapply sticky_eq, new_mem_req_refused.
  - by eapply sticky_eq, upd_req_refused.
  - step H as r Hr. apply sticky_eq. exact (free_req_refused _ _ _ _ H).
  - by eapply sticky_eq, quiet_refused, invalidate_quiet.
  - apply done_val in H as ->. by intros H.
Qed.

(** What the environment of a step says beyond the configuration does not matter
    to where requests are. *)
Lemma rests_env (E1 E2 : mem_env) rho a : @env_knobs E1 = @env_knobs E2 -> @rests E1 rho a -> @rests E2 rho a.
Proof. intros He [H1 H2 H3]. constructor; [done | | done]. by rewrite <- He. Qed.

Lemma do_rests (Env : mem_env) rho o s s' :
  allowed o s = true -> rests rho (abs s) -> mem_do o s = Done s' -> refused s' = false -> exists rho', rests rho' (abs s').
Proof.
  intros Ha Hs H Hf. destruct o; simpl in H.
  - exists rho. by eapply run_a_cycle_core_rests.
  - exists rho. by eapply mem_run_a_cycle_rests.
  - step H as [s1 r] H1. apply done_val in H as ->.
    destruct (access_rests _ _ _ _ _ _ (allowed_access _ _ _ Ha) Hs H1) as (rho' & ? & _). by exists rho'.
  - step H as [s1 r] H1. apply done_val in H as ->.
    destruct (new_mem_req_rests _ _ _ _ _ (allowed_sane _ _ Ha) Hs H1) as (rho' & ? & _). by exists rho'.
  - exists rho. by rewrite (outside_touched _ _ _ _ _ H).
  - step H as r Hr. exists rho. apply bool_decide_eq_true in Ha. by eapply outside_free_rests.
  - exists rho. by rewrite (invalidate_quiet _ _ _ _ _ H).
  - exists rho. by apply done_val in H as ->.
Qed.
Lemma reach_well_placed k t g params line0 s : mem_reach k t g params line0 s -> well_placed k s.
Proof.
  induction 1 as [| s s' Hs IH [Env o (He & _ & _) Ha H]]; intros Hf E0 HE0.
  - exists (fun _ => 0%nat). apply memory_new_rests.
  - pose proof (sticky_false _ _ (do_sticky _ _ _ _ H) Hf) as Hf0. destruct (IH Hf0 Env He) as [rho Hr].
    destruct (do_rests Env rho o s s' Ha Hr H Hf) as [rho' Hr']. exists rho'. apply (rests_env Env); [congruence | done].
Qed.

(** ** The completion functions return

    The nesting of merged requests bounds the depth of their recursion. *)

Section DEPTH.
Context {Env : mem_env} (rho : nat -> nat) (F : list nat).
Local Abbreviation ready := (ready rho F).

(** The merged requests that rank above [p]. *)
Definition above (p : nat) (a : astate) : gset nat :=
  filter (fun y => (rho p < rho y)%nat) (list_to_set (x ← map_to_list (as_reqs a); a_merge x.2)).
Lemma elem_of_above p a y : y ∈ above p a <-> (rho p < rho y)%nat /\ merged y a.
Proof.
  unfold above. rewrite elem_of_filter, elem_of_list_to_set, list_elem_of_bind. apply and_iff_compat_l. split.
  - intros ([q r] & Hy & Hq). apply elem_of_map_to_list in Hq. by exists q, r.
  - intros (q & r & Hq & Hy). exists (q, r). split; [done |]. by apply elem_of_map_to_list.
Qed.
Lemma above_shrink p a a' : (forall i, merged i a' -> merged i a) -> (size (above p a') <= size (above p a))%nat.
Proof. intros H. apply subseteq_size. intros y. rewrite !elem_of_above. naive_solver. Qed.
Lemma above_child p i a : merged i a -> (rho p < rho i)%nat -> (size (above i a) < size (above p a))%nat.
Proof.
  intros Hi Hr. apply subset_size. split.
  - intros y. rewrite !elem_of_above. intros [H1 H2]. split; [lia | done].
  - intros H. assert (Hy : i ∈ above i a) by (apply H, elem_of_above; done). apply elem_of_above in Hy. lia.
Qed.
Lemma above_depth p s : ready (abs s) -> (size (above p (abs s)) < depth s)%nat.
Proof.
  intros Hr. unfold depth. apply Nat.lt_succ_r. rewrite <- (size_dom (reqs s)). apply subseteq_size. intros y Hy.
  apply elem_of_above in Hy as [_ Hy]. apply elem_of_dom. destruct Hy as (q & r & Hq & Hy).
  destruct (merged_once q r y (abs s) (rd_clean _ _ _ Hr) Hq Hy) as [H1 H0].
  pose proof (part_merge y (abs s) q r Hq). destruct (W_parts_nonneg y (abs s)) as (? & ? & ? & ?).
  pose proof (L_ind y (abs s)) as HL. unfold D, W in H0. simpl in HL. rewrite lookup_fmap in HL.
  destruct (reqs s !! y); [done | simpl in HL; lia].
Qed.

(** Two wrappers that agree on what ranks above [p] serve [p] alike. *)
Section AGREE.
Context (w1 w2 : bool -> nat -> memory_c -> outcome (memory_c * bool)) (n : nat).
Context (Hw1 : forall data p s s' b, ready (abs s) -> w1 data p s = Done (s', b) -> served rho F p (abs s) (abs s')).
Context (Hag : forall data p s, ready (abs s) -> (size (above p (abs s)) < n)%nat -> w1 data p s = w2 data p s).

Lemma run_done_func_agree i s :
  ready (abs s) -> (size (above i (abs s)) < n)%nat -> run_done_func w1 i s = run_done_func w2 i s.
Proof.
  intros Hr Hn. unfold run_done_func. destruct (get_req s i) as [r |]; [simpl | done].
  destruct (i_done_func (r_info r)) as [[] |]; auto.
Qed.
Lemma free_req_agree core i s :
  ready (abs s) -> (size (above i (abs s)) < n)%nat -> free_req_with w1 core i s = free_req_with w2 core i s.
Proof.
  intros Hr Hn. unfold free_req_with. destruct (get_req s i) as [r |]; [simpl | done]. destruct (r_merge r); [done |].
  by rewrite (Hag true i s Hr Hn).
Qed.
Lemma serve_merged_agree p r l s :
  ready (abs s) -> as_reqs (abs s) !! p = Some r -> (forall i, i ∈ l -> i ∈ a_merge r) ->
  (size (above p (abs s)) <= n)%nat -> serve_merged w1 l s = serve_merged w2 l s.
Proof.
  revert s. induction l as [| i l IH]; intros s Hr Hp Hl Hn; [done |]. simpl.
  assert (Hi : i ∈ a_merge r) by (apply Hl; by left). assert (Hm : merged i (abs s)) by (by exists p, r).
  pose proof (rd_rank _ _ _ Hr p r i Hp Hi) as Hlt. pose proof (above_child p i _ Hm Hlt).
  rewrite <- run_done_func_agree; [| done | lia].
  destruct (run_done_func w1 i s) as [[s1 ok] |] eqn:H1; [simpl | done].
  apply (run_done_func_served rho F w1 Hw1) in H1; [| done]. apply (served_under _ _ p) in H1; [| done | done].
  rewrite (IH s1); [done | by eapply serves_ready | apply H1; [by left | done] | | ].
  - intros j Hj. apply Hl. by right.
  - etrans; [| exact Hn]. apply above_shrink. intros j. apply (serves_merged _ _ _ _ _ H1).
Qed.
Lemma free_merged_agree p r l s :
  ready (abs s) -> as_reqs (abs s) !! p = Some r -> NoDup l -> (forall i, i ∈ l -> i ∈ a_merge r) ->
  (size (above p (abs s)) <= n)%nat -> free_merged w1 p l s = free_merged w2 p l s.
Proof.
  revert s r. induction l as [| i l IH]; intros s r Hr Hp Hnd Hl Hn; [done |]. simpl.
  destruct (upd_req _ p s) as [s1 |] eqn:H1; [simpl | done]. destruct (get_req s1 i) as [ri |]; [simpl | done].
  assert (Hi : i ∈ a_merge r) by (apply Hl; by left). assert (Hm : merged i (abs s)) by (by exists p, r).
  pose proof (rd_rank _ _ _ Hr p r i Hp Hi) as Hlt. pose proof (above_child p i _ Hm Hlt) as Hch.
  apply NoDup_cons in Hnd as [Hni Hnd].
  assert (Hs1 : ready (abs s1) /\ forall j, merged j (abs s1) -> merged j (abs s)).
  { destruct (upd_req_abs _ _ _ _ H1) as (r0 & Hr0 & _ & Ha). rewrite (abs_lookup_req _ _ _ Hr0) in Hp. injection Hp as <-.
    destruct (unmerge_ready rho F p (abs_req r0) i (abs s) Hr (abs_lookup_req _ _ _ Hr0) Hi) as (Hr1 & _ & Hm1).
    rewrite Ha. done. }
  destruct Hs1 as [Hr1 Hm1]. pose proof (above_shrink i _ _ Hm1).
  rewrite <- free_req_agree; [| done | lia].
  destruct (free_req_with w1 _ i s1) as [s2 |] eqn:H2; [simpl | done].
  destruct (unmerge_free rho F w1 Hw1 p r i _ s s1 s2 Hr Hp Hi H1 H2) as [HS Hp2].
  eapply (IH s2); [by eapply serves_ready | exact Hp2 | done | |].
  - intros j Hj. simpl. apply list_elem_of_filter. split; [by intros -> | apply Hl; by right].
  - etrans; [| exact Hn]. apply above_shrink. intros j. apply (serves_merged _ _ _ _ _ HS).
Qed.
Lemma fill_wrapper_agree data p s :
  ready (abs s) -> (size (above p (abs s)) <= n)%nat -> fill_wrapper w1 data p s = fill_wrapper w2 data p s.
Proof.
  intros Hr Hn. unfold fill_wrapper. destruct (get_req s p) as [r |] eqn:Hp; [simpl | done].
  apply get_req_done, abs_lookup_req in Hp.
  rewrite <- (serve_merged_agree p (abs_req r) (r_merge r) s Hr Hp (fun i H => H) Hn).
  destruct (serve_merged w1 (r_merge r) s) as [[[s1 result] dones] |] eqn:H1; [simpl | done].
  destruct (serve_merged_serves rho F w1 Hw1 p (abs_req r) _ s s1 result dones Hr Hp (fun i H => H) H1) as [HS Hsub].
  rewrite (free_merged_agree p (abs_req r) dones s1); [done | by eapply serves_ready | apply HS; [by left | done] | | |].
  - eapply sublist_NoDup; [by apply (merge_nodup rho F p (abs_req r) (abs s)) | exact Hsub].
  - intros i Hi. by eapply elem_of_sublist.
  - etrans; [| exact Hn]. apply above_shrink. intros j. apply (serves_merged _ _ _ _ _ HS).
Qed.
End AGREE.

(** With enough depth it does not matter what is called at the bottom: nothing is. *)
Lemma wrapper_stable bottom n m data p s :
  ready (abs s) -> (size (above p (abs s)) < n)%nat -> (n <= m)%nat ->
  wrapper n data p s = Nat.iter m fill_wrapper bottom data p s.
Proof.
  revert m data p s. induction n as [| n IH]; intros m data p s Hr Hn Hm; [lia |]. destruct m as [| m]; [lia |].
  simpl. apply (fill_wrapper_agree (wrapper n) (Nat.iter m fill_wrapper bottom) n); [| | done | lia].
  - intros *. apply wrapper_served.
  - intros data' q s' Hr' Hq. apply IH; [done | done | lia].
Qed.

Lemma done_function_stable bottom m p s :
  ready (abs s) -> (depth s <= m)%nat -> run_done_func (Nat.iter m fill_wrapper bottom) p s = done_function p s.
Proof.
  intros Hr Hm. unfold done_function. symmetry. apply (run_done_func_agree _ _ (depth s)); [| done | by apply above_depth].
  intros data q s' Hr' Hq. by apply wrapper_stable.
Qed.
Lemma free_req_stable bottom m core p s :
  ready (abs s) -> (depth s <= m)%nat -> free_req_with (Nat.iter m fill_wrapper bottom) core p s = free_req core p s.
Proof.
  intros Hr Hm. unfold free_req. symmetry. apply (free_req_agree _ _ (depth s)); [| done | by apply above_depth].
  intros data q s' Hr' Hq. by apply wrapper_stable.
Qed.
End DEPTH.

(** ** A small system *)

Module Example.
Definition k : mem_knobs :=
  mk_mem_knobs 2 2 false false false false false true (mk_cache_knobs false false 0 0).
Definition t : memory_type := l2_decoupled_network.
Definition g : mem_geom := mk_mgeom 1 1 1 64 64 64 64.
Definition params (l i : nat) : dcu_params := mk_dcu_params 2 1 64 1 1 1 1 false false 1 0.
Definition line0 : cache_entry_c (D := dcache_data_s) := mk_line false 0 0 0 0 dd_zero false false 0 false false.
Definition env : mem_env := mk_mem_env k t g 0 (fun _ => 0) (fun _ _ => 0) (fun _ => true).
Definition s0 : memory_c := memory_new k t g params line0.

(** The network takes every packet and delivers what it holds to the level it
    was sent to. *)
Definition net (to_l to_i p : nat) : net_answers :=
  mk_net_answers (fun _ _ _ _ _ => true) (fun l i => if bool_decide (l = to_l /\ i = to_i) then [p] else []).
Definition quiet : net_answers := mk_net_answers (fun _ _ _ _ _ => true) (fun _ _ => []).
Definition uops : mem_op := OpUops {[ 7%nat := mk_muop 0 0 false None 0 0; 8%nat := mk_muop 1 0 false None 0 0 ]} [].
Definition ak : access_knobs := mk_access_knobs false false false 0.
Definition load (core u : nat) (addr : Z) : mem_op := OpAccess ak (mk_access_uop u core 0 addr MEM_LD 8 0 false false).
Definition prefetch (core : nat) (addr : Z) : mem_op :=
  OpRequest (mk_new_req MRT_DPRF addr 64 false 1 None 0 false false None core 0 false).
(** From the second level to the memory controller. *)
Definition go_down (core p : nat) : list mem_op :=
  replicate 3 (OpCore quiet core false) ++ [OpUncore (net L3 0 p) false] ++ replicate 4 (OpUncore quiet false) ++
  [OpUncore (net LLC 0 p) false] ++ replicate 4 (OpUncore quiet false).
(** And back. *)
Definition go_up (core p : nat) : list mem_op :=
  [OpOutside p MEM_DRAM_DONE NOC_FILL; OpUncore (net LLC 0 p) false] ++ replicate 4 (OpUncore quiet false) ++
  [OpUncore (net L3 0 p) false] ++ replicate 4 (OpUncore quiet false) ++
  [OpCore (net L2 core p) core false] ++ replicate 3 (OpCore quiet core false).

Lemma env_configured : configured k t g env.
Proof. done. Qed.
Definition run (ops : list mem_op) : outcome memory_c := @mem_run env ops s0.
Lemma run_reach ops s : run ops = Done s -> mem_reach k t g params line0 s.
Proof. intros H. eapply mem_run_reach; [apply env_configured | apply reach_new | exact H]. Qed.

(** Two loads of a line by different cores, one merged under the other, at the
    memory controller. *)
Definition no_call (_ : bool) (_ : nat) (s : memory_c) : outcome (memory_c * bool) := Done (s, true).
Definition two_loads : list mem_op := [uops; load 0 7 128; load 1 8 128] ++ go_down 0 1.
(** A line of the first level that is dirty, and a request for another line of
    its set. *)
Definition dirty_line : list mem_op :=
  [uops; load 0 7 128] ++ go_down 0 1 ++ go_up 0 1 ++
  [OpAccess ak (mk_access_uop 8 0 0 128 MEM_ST 8 0 false false); OpCore quiet 0 false].
Definition req256 : mem_req_s :=
  mk_mreq (mk_info 0 0 0 0 MRT_DFETCH false 256 64 0 false (replicate 6 0%nat) None 0 false false false None)
    MEM_FILL_NEW 0 0 None false None NOC_FILL [].
Definition dirty_s : memory_c := match run dirty_line with Done s => s | Fault _ => s0 end.
Definition dirty_d : dcu_c :=
  match get_dcu dirty_s L1 0 with Done d => d | Fault _ => dcu_new line0 L1 (params 1 0) (mk_links 0 0 false false false true false) end.
Definition dirty_c : dcache :=
  match d_cache dirty_d with Some c => c | None => cache_new dd_zero (cache_geometry 2 1 64 40 1 false false 1 0) (fun _ _ => line0) (fun _ => (0, 0)) end.
(** A prefetch of one core, promoted by a load of another, and completed. *)
Definition promoted : list mem_op := [uops; prefetch 0 128; load 1 7 128] ++ go_down 0 1 ++ go_up 1 1.
End Example.

(** ** Properties *)

(** C3: in every state the memory hierarchy can reach without a cache refusing
    a request that another cache or the network hands it, the queues and retry
    lists of all caches, the network with the memory controllers, the free lists
    and the lists of merged requests together hold every live request exactly
    once, and nothing else. *)
Theorem memory_requests_placed k t g params line0 s :
  mem_reach k t g params line0 s -> refused s = false -> places s ≡ₚ live s.
Proof.
  intros H Hf. destruct (reach_well_placed _ _ _ _ _ _ H Hf (mk_mem_env k t g 0 (fun _ => 0) (fun _ _ => 0) (fun _ => true)) eq_refl)
    as [rho Hr]. by eapply rests_placed.
Qed.

Lemma memory_requests_placed_witness :
  exists s, Example.run Example.two_loads = Done s /\ refused s = false /\ outside s = [1%nat] /\
    r_merge <$> (reqs s !! 1%nat) = Some [3%nat] /\ places s ≡ₚ live s.
Proof.
  destruct (Example.run Example.two_loads) as [s |] eqn:E; [| vm_compute in E; discriminate E].
  assert (Hs : refused s = false /\ outside s = [1%nat] /\ r_merge <$> (reqs s !! 1%nat) = Some [3%nat]).
  { vm_compute in E. injection E as <-. vm_compute. done. }
  destruct Hs as (H1 & H2 & H3). exists s. split; [done |]. split; [done |]. split; [done |]. split; [done |].
  exact (memory_requests_placed _ _ _ _ _ s (Example.run_reach _ _ E) H1).
Defined.

(** the completion functions, which serve the requests merged under a
    request, those merged under them and so on, never nest as deep as the number
    of requests plus one: whatever function stands for the calls at that depth or
    any larger one, the result is the same, so those calls do not happen. *)
Theorem completion_depth_enough k t g params line0 s (Env : mem_env) bottom m core p :
  mem_reach k t g params line0 s -> refused s = false -> @env_knobs Env = k -> (depth s <= m)%nat ->
  run_done_func (Nat.iter m fill_wrapper bottom) p s = done_function p s /\
  free_req_with (Nat.iter m fill_wrapper bottom) core p s = free_req core p s.
Proof.
  intros H Hf He Hm. destruct (reach_well_placed _ _ _ _ _ _ H Hf Env He) as [rho Hr]. apply rests_ready in Hr.
  split; [by eapply done_function_stable | by eapply free_req_stable].
Qed.

Lemma completion_depth_enough_witness :
  exists s, Example.run Example.two_loads = Done s /\ depth s = 5%nat /\
    free_req_with (Nat.iter 9 (@fill_wrapper Example.env) Example.no_call) 0 1 s = @free_req Example.env 0 1 s /\
    (exists s', @free_req Example.env 0 1 s = Done s').
Proof.
  destruct (Example.run Example.two_loads) as [s |] eqn:E; [| vm_compute in E; discriminate E].
  assert (Hs : refused s = false /\ depth s = 5%nat /\ exists s', @free_req Example.env 0 1 s = Done s').
  { vm_compute in E. injection E as <-. vm_compute. eauto. }
  destruct Hs as (H1 & H2 & H3). exists s. split; [done |]. split; [done |]. split; [| done].
  refine (proj2 (completion_depth_enough _ _ _ _ _ s Example.env _ 9 0 1 (Example.run_reach _ _ E) H1 eq_refl _)).
  rewrite H2. lia.
Defined.

(** a request that misses and finds the input queue of the next cache full
    is put on the retry list of the next cache, but [on_miss] answers false and
    leaves it in its own input queue, where [process_in_queue] then keeps it. *)
Theorem refused_insert_duplicates (Env : mem_env) l i p s r d d' :
  reqs s !! p = Some r -> dcus s !! (l, i) = Some d -> p ∈ d_in d -> l <> LLC ->
  (m_coupled_down (d_cfg d) && (m_next_id (d_cfg d) =? Z.of_nat (cid r (l + 1)))) || negb (m_has_router (d_cfg d)) = true ->
  dcus s !! (next_level l, cid r (l + 1)) = Some d' -> length (d_in d') = queue_size QIn ->
  exists s' d1 d2, on_miss l i p s = Done (s', false) /\ refused s' = true /\
    dcus s' !! (l, i) = Some d1 /\ p ∈ d_in d1 /\
    dcus s' !! (next_level l, cid r (l + 1)) = Some d2 /\ d_retry d2 = d_retry d' ++ [p].
Proof.
  intros Hr Hd Hp Hl Hc Hd' Hfull.
  exists (refuse (put_dcu (next_level l) (cid r (l + 1)) (with_dretry (d_retry d' ++ [p]) d') s)), d,
    (with_dretry (d_retry d' ++ [p]) d').
  unfold on_miss, dcu_insert_or_keep, dcu_insert, queue_push, get_req, get_dcu. rewrite Hr, Hd. simpl. rewrite Hc.
  rewrite bool_decide_eq_false_2 by done. simpl. rewrite Hd'. simpl. rewrite Hfull. simpl. rewrite Hd'. simpl.
  split_and!; try done.
  - rewrite lookup_insert_ne; [done |]. intros [= E _]. by apply (next_level_ne l).
  - by rewrite lookup_insert_eq.
Qed.

(** A first-level cache with one request below a full second level. *)
Definition full_below : memory_c :=
  let full := ac_places (mk_acache (replicate 1024 0%nat) [] [] [] []) in
  match dcus Example.s0 !! (L1, 0%nat), dcus Example.s0 !! (L2, 0%nat) with
  | Some d1, Some d2 => put_dcu L1 0 (q_set QIn [0%nat] d1) (put_dcu L2 0 (q_set QIn full d2) Example.s0)
  | _, _ => Example.s0
  end.
Lemma refused_insert_duplicates_witness :
  exists s' d1 d2, @on_miss Example.env L1 0 0 full_below = Done (s', false) /\ refused s' = true /\
    dcus s' !! (L1, 0%nat) = Some d1 /\ 0%nat ∈ d_in d1 /\ dcus s' !! (L2, 0%nat) = Some d2 /\ d_retry d2 = [0%nat].
Proof.
  destruct (dcus full_below !! (L1, 0%nat)) as [d |] eqn:Ed; [| vm_compute in Ed; discriminate Ed].
  destruct (dcus full_below !! (L2, 0%nat)) as [d' |] eqn:Ed'; [| vm_compute in Ed'; discriminate Ed'].
  assert (Hd : 0%nat ∈ d_in d /\ m_coupled_down (d_cfg d) = true /\ m_next_id (d_cfg d) = 0).
  { vm_compute in Ed. injection Ed as <-. split; [apply list_elem_of_here | done]. }
  assert (Hd' : length (d_in d') = queue_size QIn /\ d_retry d' = []).
  { vm_compute in Ed'. injection Ed' as <-. by vm_compute. }
  destruct Hd as (H1 & H2 & H3), Hd' as (H4 & H5).
  assert (Hc : (m_coupled_down (d_cfg d) && (m_next_id (d_cfg d) =? Z.of_nat (cid blank_req (L1 + 1)))) ||
    negb (m_has_router (d_cfg d)) = true) by (by rewrite H2, H3).
  pose proof (refused_insert_duplicates Example.env L1 0 0 full_below blank_req d d' eq_refl Ed H1 ltac:(done) Hc Ed' H4) as H.
  rewrite H5 in H. exact H.
Defined.

(** a prefetch of one core that a request of another core promotes is
    returned, when it completes, to the free list of the promoting core, and
    stays in the miss buffer of the first: the one core has an entry too many,
    the other one less, and its buffer lists an entry that is free. *)
Theorem promotion_moves_entry :
  exists s, mem_reach Example.k Example.t Example.g Example.params Example.line0 s /\
    m_mshr s !! 0%nat = Some [1%nat] /\ m_mshr_free_list s !! 0%nat = Some [0%nat] /\
    m_mshr s !! 1%nat = Some [] /\ m_mshr_free_list s !! 1%nat = Some [2%nat; 3%nat; 1%nat] /\
    KNOB_MEM_MSHR_SIZE Example.k = 2%nat.
Proof.
  destruct (Example.run Example.promoted) as [s |] eqn:E; [| vm_compute in E; discriminate E].
  exists s. split; [by apply (Example.run_reach Example.promoted) |].
  vm_compute in E. injection E as <-. by vm_compute.
Qed.

(** ** Invalidation *)

Lemma invalidate_lines_end fuel l i addr e s s' a :
  invalidate_lines fuel l i addr e s = Done (s', a) ->
  e <= a /\ forall y, y <> (l, i) -> dcus s' !! y = dcus s !! y.
Proof.
  revert addr s. induction fuel as [| n IH]; intros addr s H; [done |]. simpl in H. step H as d Hd.
  destruct (addr <? e) eqn:Hlt.
  - step H as c Hc. step H as [b c1] Hi. destruct (IH _ _ H) as [Ha Hy]. split; [done |]. intros y Hne.
    rewrite (Hy y Hne). simpl. by rewrite lookup_insert_ne.
  - apply done_pair in H as [-> ->]. apply Z.ltb_ge in Hlt. done.
Qed.
Lemma invalidate_caches_past fuel cs addr e s s' :
  e <= addr -> invalidate_caches fuel cs addr e s = Done s' -> s' = s.
Proof.
  intros He. induction cs as [| [l i] cs IH]; intros H; simpl in H; [by apply done_val in H |].
  destruct fuel as [| n]; [done |]. simpl in H. step H as [s1 a] H1. step H1 as d Hd.
  rewrite (proj2 (Z.ltb_ge _ _) He) in H1. apply done_pair in H1 as [-> ->]. auto.
Qed.

(** invalidating a page touches the first cache of the system only: the
    address that runs over the page is never reset, so for every other cache the
    loop is already over. *)
Theorem invalidate_first_cache_only (Env : mem_env) fuel size addr s s' x rest y :
  cache_order (KNOB_NUM_SIM_CORES env_knobs) (Z.to_nat (m_num_l3 env_geom)) (Z.to_nat (m_num_llc env_geom)) = x :: rest ->
  invalidate fuel size addr s = Done s' -> y <> x -> dcus s' !! y = dcus s !! y.
Proof.
  intros Hx H Hy. unfold invalidate in H. rewrite Hx in H. destruct x as [l i]. simpl in H. step H as [s1 a] H1.
  destruct (invalidate_lines_end _ _ _ _ _ _ _ _ H1) as [Ha Hd]. rewrite (invalidate_caches_past _ _ _ _ _ _ Ha H). auto.
Qed.

Lemma invalidate_first_cache_only_witness :
  exists s' rest, @cache_order Example.env 2 1 1 = (L1, 0%nat) :: rest /\
    @invalidate Example.env 9 128 256 Example.s0 = Done s' /\ dcus s' !! (L1, 1%nat) = dcus Example.s0 !! (L1, 1%nat).
Proof.
  destruct (@invalidate Example.env 9 128 256 Example.s0) as [s' |] eqn:E; [| vm_compute in E; discriminate E].
  exists s'. eexists. split; [reflexivity |]. split; [done |].
  apply (invalidate_first_cache_only Example.env 9 128 256 Example.s0 s' (L1, 0%nat) _ (L1, 1%nat) eq_refl E). done.
Defined.

(** ** The order of a queue *)

Lemma queue_lt_asym {Env : mem_env} s a b : queue_lt s a b = true -> queue_lt s b a = false.
Proof.
  unfold queue_lt. destruct (sort_key s a) as [[] pa], (sort_key s b) as [[] pb];
    destruct (KNOB_HETERO_MEM_PRIORITY_CPU env_knobs), (KNOB_HETERO_MEM_PRIORITY_GPU env_knobs); simpl; try done;
    rewrite Z.ltb_lt, Z.ltb_ge; lia.
Qed.
Lemma queue_le_trans {Env : mem_env} s a b c : queue_lt s b a = false -> queue_lt s c b = false -> queue_lt s c a = false.
Proof.
  unfold queue_lt. destruct (sort_key s a) as [[] pa], (sort_key s b) as [[] pb], (sort_key s c) as [[] pc];
    destruct (KNOB_HETERO_MEM_PRIORITY_CPU env_knobs), (KNOB_HETERO_MEM_PRIORITY_GPU env_knobs); simpl; try done;
    rewrite !Z.ltb_ge; lia.
Qed.
(** a request pushed into a queue that is not full joins it, the queue
    stays within its size and is sorted: the requests of the preferred kind of
    core first, and within a kind those of higher priority first; the other
    queues keep their contents. *)
Theorem queue_push_sorted (Env : mem_env) l i q p s s' d :
  queue_push l i q p s = Done (s', true) -> get_dcu s l i = Done d -> (length (q_get q d) <= queue_size q)%nat ->
  exists d', get_dcu s' l i = Done d' /\ q_get q d' ≡ₚ p :: q_get q d /\ (length (q_get q d') <= queue_size q)%nat /\
    StronglySorted (fun a b => queue_lt s' b a = false) (q_get q d') /\
    forall x, x <> (l, i, q) -> queue_at (abs s') x = queue_at (abs s) x.
Proof.
  intros H Hd Hlen. pose proof H as Hpu. apply queue_push_abs in Hpu as [[] | [_ Hpu]]; [done |].
  unfold queue_push in H. rewrite Hd in H. simpl in H. destruct (Nat.eqb_spec (length (q_get q d)) (queue_size q)) as [| Hne];
    [by apply done_pair in H as [_ ?] |]. step H as s1 H1. apply done_pair in H as [-> _].
  assert (Hg : forall l0, q_get q (q_set q l0 d) = l0) by (by destruct q).
  exists (q_set q (list_sort (queue_lt s1) (q_get q d ++ [p])) d). rewrite Hg.
  assert (Hperm : list_sort (queue_lt s1) (q_get q d ++ [p]) ≡ₚ p :: q_get q d).
  { rewrite list_sort_perm. symmetry. apply Permutation_cons_append. }
  split; [unfold get_dcu; simpl; by rewrite lookup_insert_eq |]. split; [done |]. split; [| split].
  - rewrite (Permutation_length Hperm). simpl. lia.
  - change (queue_lt (put_dcu l i ?x s1)) with (queue_lt s1).
    apply list_sort_sorted; [apply queue_lt_asym | apply queue_le_trans].
  - intros x Hx. destruct (pushed_queue _ _ _ _ x Hpu) as [[_ ?] | [? _]]; done.
Qed.

Lemma queue_push_sorted_witness :
  exists s s' d d', Example.run [Example.uops; Example.load 0 7 128] = Done s /\
    @queue_push Example.env L2 0 QIn 0 s = Done (s', true) /\ get_dcu s L2 0 = Done d /\ d_in d = [1%nat] /\
    get_dcu s' L2 0 = Done d' /\ d_in d' ≡ₚ [0%nat; 1%nat] /\
    StronglySorted (fun a b => @queue_lt Example.env s' b a = false) (d_in d').
Proof.
  destruct (Example.run [Example.uops; Example.load 0 7 128]) as [s |] eqn:E; [| vm_compute in E; discriminate E].
  destruct (@queue_push Example.env L2 0 QIn 0 s) as [[s' b] |] eqn:E1; [| vm_compute in E; injection E as <-; vm_compute in E1; done].
  destruct (get_dcu s L2 0) as [d |] eqn:E2; [| vm_compute in E; injection E as <-; vm_compute in E2; done].
  assert (Hb : b = true) by (vm_compute in E; injection E as <-; vm_compute in E1; by injection E1 as _ <-).
  assert (Hd : d_in d = [1%nat]) by (vm_compute in E; injection E as <-; vm_compute in E2; by injection E2 as <-).
  subst b. assert (Hl : (length (q_get QIn d) <= queue_size QIn)%nat) by (simpl; rewrite Hd; simpl; lia).
  destruct (queue_push_sorted Example.env L2 0 QIn 0 s s' d E1 E2 Hl) as (d' & H1 & H2 & H3 & H4 & _).
  exists s, s', d, d'. cbn [q_get] in H2, H4. rewrite Hd in H2. split; [reflexivity |]. repeat (split; [assumption |]). assumption.
Defined.

(** ** Filling a line *)

Lemma line_data_upd f n w c data : line_data c (n, w) = Done data -> line_data (upd_data f (n, w) c) (n, w) = Done (f data).
Proof.
  unfold line_data, entries_at, upd_data, upd_line, upd_set; simpl. intros H. step H as es Hes. step H as e He.
  apply get_or_done in Hes, He. apply done_val in H as ->. apply fmap_Some in Hes as (cs & Hcs & ->).
  rewrite list_lookup_alter_eq, Hcs. simpl. by rewrite list_lookup_alter_eq, He.
Qed.
Lemma write_back_keeps_cache (Env : mem_env) l i r victim data s s' d :
  dcus s !! (l, i) = Some d -> write_back_victim l i r victim data s = Done s' ->
  exists d', dcus s' !! (l, i) = Some d' /\ d_cache d' = d_cache d.
Proof.
  intros Hd H. unfold write_back_victim in H. destruct (_ || _); [apply done_val in H as ->; eauto |].
  step H as d0 Hd0. destruct (new_wb_req _ _ _ _ s) as [s1 wb] eqn:Ew. step H as s2 H2. step H as [s3 ok] H3.
  step H as [] Ha. apply done_val in H as ->. injection Ew as Hs1 _. unfold queue_push in H3. step H3 as d2 Hd2.
  assert (d2 = d) as ->.
  { unfold upd_req in H2. step H2 as r2 Hr2. apply done_val in H2 as ->. subst s1. apply get_dcu_done in Hd2. simpl in Hd2.
    congruence. }
  destruct (Nat.eqb _ _).
  - apply done_pair in H3 as [-> _]. apply get_dcu_done in Hd2. eauto.
  - step H3 as s4 H4. apply done_pair in H3 as [-> _]. simpl. rewrite lookup_insert_eq. eexists. split; [done |]. done.
Qed.
Lemma queue_push_req (Env : mem_env) l i q p s s' r :
  queue_push l i q p s = Done (s', true) -> reqs s !! p = Some r -> reqs s' !! p = Some (with_queue (Some (l, i, q)) r).
Proof.
  intros H Hr. unfold queue_push in H. step H as d Hd. destruct (Nat.eqb _ _); [by apply done_pair in H as [_ ?] |].
  step H as s1 H1. apply done_pair in H as [-> _]. destruct (upd_req_abs _ _ _ _ H1) as (r0 & Hr0 & H0 & _).
  simpl. rewrite H0. congruence.
Qed.
Lemma write_back_request (Env : mem_env) l i r victim data s s' d :
  get_dcu s l i = Done d -> negb (victim =? 0) && dd_dirty data = true -> write_back_victim l i r victim data s = Done s' ->
  exists wb, reqs s' !! next_req s = Some wb /\ i_type (r_info wb) = MRT_WB /\ i_addr (r_info wb) = victim /\
    i_size (r_info wb) = m_line_size (d_cfg d) /\ i_dirty (r_info wb) = true /\
    queue_at (abs s') (l, i, QWb) ≡ₚ next_req s :: queue_at (abs s) (l, i, QWb).
Proof.
  intros Hd Hv H. pose proof (write_back_victim_spills _ _ _ _ _ _ _ H) as Hsp.
  unfold write_back_victim in H. apply andb_true_iff in Hv as [Hv1 Hv2]. apply negb_true_iff in Hv1.
  rewrite Hv1, Hv2 in H. cbn [orb negb] in H. step H as d0 Hd0. rewrite Hd in Hd0. injection Hd0 as <-.
  destruct (new_wb_req _ _ _ _ s) as [s1 wb] eqn:Ew. step H as s2 H2. step H as [s3 ok] H3. step H as [] Ha.
  apply ASSERT_done in Ha as ->. apply done_val in H as ->. injection Ew as Hs1 <-.
  destruct (upd_req_abs _ _ _ _ H2) as (r0 & Hr0 & Hr2 & _). rewrite <- Hs1 in Hr0. simpl in Hr0.
  rewrite lookup_insert_eq in Hr0. injection Hr0 as <-. eexists. split; [by eapply queue_push_req |].
  split_and!; try done. destruct Hsp as [Heq | (r1 & _ & _ & _ & _ & Hp)].
  - exfalso. pose proof (f_equal as_next Heq) as Hn. simpl in Hn.
    unfold queue_push in H3. step H3 as d3 Hd3. destruct (Nat.eqb _ _); [by apply done_pair in H3 as [_ ?] |].
    step H3 as s4 H4. apply done_pair in H3 as [-> _]. simpl in Hn. unfold upd_req in H4, H2. step H4 as r4 Hr4.
    step H2 as r2' Hr2'. apply done_val in H4 as ->. apply done_val in H2 as ->. subst s1. simpl in Hn. lia.
  - destruct (pushed_queue _ _ _ _ (l, i, QWb) Hp) as [[] | [_ Hq]]; [done |]. exact Hq.
Qed.

(** inserting the line of a request in a cache sets the line up for the
    request; if the line it replaces is valid at an address other than zero and
    dirty, one write-back request for that line is created and waits in the
    write-back queue of the cache; otherwise nothing else changes. *)
Theorem insert_line_writes_back (Env : mem_env) l i r s s' d c n w la victim c1 data :
  get_dcu s l i = Done d -> d_cache d = Some c ->
  insert_cache (mem_cache_knobs env_knobs) CYCLE (i_addr (r_info r)) (i_appl_id (r_info r)) (i_acc (r_info r)) false c =
    Done (n, w, la, victim, c1) ->
  line_data c1 (n, w) = Done data -> insert_line l i r s = Done s' ->
  (exists d' c', get_dcu s' l i = Done d' /\ d_cache d' = Some c' /\
     line_data c' (n, w) = Done (mk_ddata (i_dirty (r_info r)) (d_cycle d) (i_core_id (r_info r)) (i_pc (r_info r))
                                  (i_thread_id (r_info r)))) /\
  if negb (victim =? 0) && dd_dirty data then
    exists wb, reqs s' !! next_req s = Some wb /\ i_type (r_info wb) = MRT_WB /\ i_addr (r_info wb) = victim /\
      i_size (r_info wb) = m_line_size (d_cfg d) /\ i_dirty (r_info wb) = true /\
      queue_at (abs s') (l, i, QWb) ≡ₚ next_req s :: queue_at (abs s) (l, i, QWb)
  else abs s' = abs s.
Proof.
  intros Hd Hc Hi Hl H. unfold insert_line in H. rewrite Hd in H. cbn [mbind outcome_bind] in H. rewrite Hc in H. simpl in H.
  rewrite Hi in H. simpl in H. rewrite Hl in H. simpl in H. step H as s1 H1. step H as d1 Hd1. step H as c2 Hc2.
  apply done_val in H as ->. apply get_or_done in Hc2.
  assert (Hd0 : dcus (put_dcu l i (with_cache c1 d) s) !! (l, i) = Some (with_cache c1 d)) by apply lookup_insert_eq.
  destruct (write_back_keeps_cache _ _ _ _ _ _ _ _ _ Hd0 H1) as (d2 & Hd2 & Hc2'). apply get_dcu_done in Hd1 as Hd1'.
  assert (d2 = d1) as -> by congruence. rewrite Hc2 in Hc2'. injection Hc2' as ->. split.
  - eexists _, _. split; [unfold get_dcu; simpl; by rewrite lookup_insert_eq |]. split; [done |].
    by rewrite (line_data_upd _ n w c1 data Hl).
  - assert (Hq : abs (put_dcu l i (with_cache c1 d) s) = abs s) by (by eapply put_dcu_quiet).
    rewrite (put_dcu_quiet _ _ _ _ _ Hd1) by done. destruct (negb (victim =? 0) && dd_dirty data) eqn:Hv.
    + destruct (write_back_request Env l i r victim data _ s1 (with_cache c1 d) ltac:(unfold get_dcu; by rewrite Hd0) Hv H1)
        as (wb & Hwb & H2 & H3 & H4 & H5 & H6). exists wb. rewrite Hq in H6. done.
    + unfold write_back_victim in H1. apply andb_false_iff in Hv. destruct (_ || _) eqn:Ho in H1.
      * apply done_val in H1 as ->. done.
      * exfalso. apply orb_false_iff in Ho as [Ho1 Ho2]. apply negb_false_iff in Ho2. rewrite Ho1, Ho2 in Hv. by destruct Hv.
Qed.

Lemma insert_line_writes_back_witness :
  exists s', @insert_line Example.env L1 0 Example.req256 Example.dirty_s = Done s' /\
    exists wb, reqs s' !! next_req Example.dirty_s = Some wb /\ i_type (r_info wb) = MRT_WB /\ i_addr (r_info wb) = 128 /\
      i_size (r_info wb) = 64 /\ i_dirty (r_info wb) = true /\
      queue_at (abs s') (L1, 0%nat, QWb) ≡ₚ [next_req Example.dirty_s].
Proof.
  eexists. split; [vm_compute; reflexivity |].
  refine (proj2 (insert_line_writes_back Example.env L1 0 Example.req256 Example.dirty_s _ Example.dirty_d Example.dirty_c
    0 0 256 128 _ (mk_ddata true 4 0 0 0) _ _ _ _ _)); vm_compute; reflexivity.
Defined.
