(* ===== verification/Uops.v ===== *)
(** * Micro-operations (uop.h, uop.cc)

    [uop_s] is [uop_c] with the fields that dependence mapping, scheduling and
    execution use; [base] holds those the reorder buffer and the allocation
    stage use. Objects come from a pool and are recycled: [allocate] and [free]
    are the two ends of a life. *)

From S2P Require Import Prelude.
From S2P Require Import Rob.

Inductive Dep_Type := REG_DATA_DEP | MEM_ADDR_DEP | MEM_DATA_DEP | PREV_UOP_DEP.

#[export] Instance Dep_Type_eq_dec : EqDecision Dep_Type.
Proof. solve_decision. Defined.
#[export] Instance Cf_Type_eq_dec : EqDecision Cf_Type.
Proof. solve_decision. Defined.
#[export] Instance ALLOCQ_eq_dec : EqDecision ALLOCQ.
Proof. solve_decision. Defined.

Definition MAX_UOP_SRC_DEPS : Z := 10.
Definition MAX_SRCS : Z := 9.
Definition MAX_DESTS : Z := 6.

(** What a micro-operation waits for; a null pointer is [None]. *)
Record src_info_c := mk_src { si_type : Dep_Type; si_uop : option nat; si_uop_num : Z; si_unique_num : Z }.

Record uop_deps := mk_deps {
  m_num_srcs : Z;
  m_src_info : list Z;
  m_num_dests : Z;
  m_dest_info : list Z;
  m_map_src_info : list src_info_c;
  m_srcs_not_rdy_vector : Z;
  m_srcs_rdy : bool;
  m_last_dep_exec : option nat;      (* the object whose [m_done_cycle] it points to *)
  m_dep_on_hmc_inst : bool
}.

Record uop_mem := mk_umem {
  m_vaddr : Z;
  m_mem_size : Z;
  m_mem_start_cycle : Z;
  m_num_child_uops : Z;
  m_num_child_uops_done : Z;
  m_child_uops : list nat;
  m_pending_child_uops : Z
}.

Record uop_s := mk_uop_s {
  base : uop_c;
  m_valid : bool;
  m_bogus : bool;
  m_off_path : bool;
  m_mispredicted : bool;
  m_isitBOM : bool;
  m_last_uop : bool;
  m_unique_num : Z;
  m_hmc_inst : Z;
  m_in_iaq : bool;
  m_in_scheduler : bool;
  m_exec_cycle : Z;
  deps : uop_deps;
  mem : uop_mem
}.

Abbreviation uop_store := (gmap nat uop_s).

Definition num_of (x : uop_s) : Z := m_uop_num (base x).
Definition thread_of (x : uop_s) : Z := m_thread_id (base x).
Definition done_of (x : uop_s) : Z := m_done_cycle (base x).

(** ** Field updates *)

Definition with_base (b : uop_c) (x : uop_s) : uop_s :=
  mk_uop_s b (m_valid x) (m_bogus x) (m_off_path x) (m_mispredicted x) (m_isitBOM x) (m_last_uop x) (m_unique_num x) (m_hmc_inst x) (m_in_iaq x)
    (m_in_scheduler x) (m_exec_cycle x) (deps x) (mem x).
Definition with_deps (d : uop_deps) (x : uop_s) : uop_s :=
  mk_uop_s (base x) (m_valid x) (m_bogus x) (m_off_path x) (m_mispredicted x) (m_isitBOM x) (m_last_uop x) (m_unique_num x) (m_hmc_inst x) (m_in_iaq x)
    (m_in_scheduler x) (m_exec_cycle x) d (mem x).
Definition with_mem (d : uop_mem) (x : uop_s) : uop_s :=
  mk_uop_s (base x) (m_valid x) (m_bogus x) (m_off_path x) (m_mispredicted x) (m_isitBOM x) (m_last_uop x) (m_unique_num x) (m_hmc_inst x) (m_in_iaq x)
    (m_in_scheduler x) (m_exec_cycle x) (deps x) d.
Definition with_valid (b : bool) (x : uop_s) : uop_s :=
  mk_uop_s (base x) b (m_bogus x) (m_off_path x) (m_mispredicted x) (m_isitBOM x) (m_last_uop x) (m_unique_num x) (m_hmc_inst x) (m_in_iaq x)
    (m_in_scheduler x) (m_exec_cycle x) (deps x) (mem x).
Definition with_sched (iaq sched : bool) (x : uop_s) : uop_s :=
  mk_uop_s (base x) (m_valid x) (m_bogus x) (m_off_path x) (m_mispredicted x) (m_isitBOM x) (m_last_uop x) (m_unique_num x) (m_hmc_inst x) iaq
    sched (m_exec_cycle x) (deps x) (mem x).
Definition with_exec_cycle (c : Z) (x : uop_s) : uop_s :=
  mk_uop_s (base x) (m_valid x) (m_bogus x) (m_off_path x) (m_mispredicted x) (m_isitBOM x) (m_last_uop x) (m_unique_num x) (m_hmc_inst x) (m_in_iaq x)
    (m_in_scheduler x) c (deps x) (mem x).

Definition set_id (num thread : Z) (u : uop_c) : uop_c :=
  mk_uop num thread (m_mem_type u) (m_uop_type u) (m_bar_type u) (m_cf_type u) (m_done_cycle u) (m_sched_cycle u)
    (m_btb_miss u) (m_mem_version u) (m_alloc_cycle u) (m_req_sb u) (m_req_lb u) (m_req_int_reg u) (m_req_fp_reg u)
    (m_allocq_num u) (m_btb_miss_resolved u).
Definition set_cycles (sched done_ : Z) (u : uop_c) : uop_c :=
  mk_uop (m_uop_num u) (m_thread_id u) (m_mem_type u) (m_uop_type u) (m_bar_type u) (m_cf_type u) done_ sched
    (m_btb_miss u) (m_mem_version u) (m_alloc_cycle u) (m_req_sb u) (m_req_lb u) (m_req_int_reg u) (m_req_fp_reg u)
    (m_allocq_num u) (m_btb_miss_resolved u).
Definition set_resolved (u : uop_c) : uop_c :=
  mk_uop (m_uop_num u) (m_thread_id u) (m_mem_type u) (m_uop_type u) (m_bar_type u) (m_cf_type u) (m_done_cycle u)
    (m_sched_cycle u) (m_btb_miss u) (m_mem_version u) (m_alloc_cycle u) (m_req_sb u) (m_req_lb u) (m_req_int_reg u)
    (m_req_fp_reg u) (m_allocq_num u) true.

Definition with_done (c : Z) (x : uop_s) : uop_s := with_base (set_cycles (m_sched_cycle (base x)) c (base x)) x.
Definition with_sched_cycle (c : Z) (x : uop_s) : uop_s := with_base (set_cycles c (m_done_cycle (base x)) (base x)) x.

Definition with_srcs (n : Z) (l : list src_info_c) (v : Z) (d : uop_deps) : uop_deps :=
  mk_deps n (m_src_info d) (m_num_dests d) (m_dest_info d) l v (m_srcs_rdy d) (m_last_dep_exec d) (m_dep_on_hmc_inst d).
Definition with_rdy (b : bool) (p : option nat) (d : uop_deps) : uop_deps :=
  mk_deps (m_num_srcs d) (m_src_info d) (m_num_dests d) (m_dest_info d) (m_map_src_info d) (m_srcs_not_rdy_vector d) b p
    (m_dep_on_hmc_inst d).
Definition with_hmc_dep (b : bool) (d : uop_deps) : uop_deps :=
  mk_deps (m_num_srcs d) (m_src_info d) (m_num_dests d) (m_dest_info d) (m_map_src_info d) (m_srcs_not_rdy_vector d)
    (m_srcs_rdy d) (m_last_dep_exec d) b.
Definition with_children (start done_ pending : Z) (d : uop_mem) : uop_mem :=
  mk_umem (m_vaddr d) (m_mem_size d) start (m_num_child_uops d) done_ (m_child_uops d) pending.

(** ** The store *)

Definition get_s (u : nat) (σ : uop_store) : outcome uop_s := get_or UseAfterFree (σ !! u).
Definition upd_s (f : uop_s -> uop_s) (u : nat) (σ : uop_store) : outcome uop_store :=
  x ← get_s u σ; mret (<[u := f x]> σ).

(** The part of the store the reorder buffer looks at. *)
Definition bases (σ : uop_store) : store := base <$> σ.

Lemma get_s_done u σ x : get_s u σ = Done x -> σ !! u = Some x.
Proof. apply get_or_done. Qed.
Lemma get_s_live u σ x : σ !! u = Some x -> get_s u σ = Done x.
Proof. unfold get_s. by intros ->. Qed.
Lemma upd_s_done f u σ σ' : upd_s f u σ = Done σ' -> exists x, σ !! u = Some x /\ σ' = <[u := f x]> σ.
Proof. unfold upd_s. intros H. step H as x Hx. apply get_s_done in Hx. apply done_val in H as ->. eauto. Qed.
Lemma upd_s_live f u σ x : σ !! u = Some x -> upd_s f u σ = Done (<[u := f x]> σ).
Proof. intros H. unfold upd_s. by rewrite (get_s_live _ _ _ H). Qed.
