(* ===== verification/Map.v ===== *)
(** * Dependence mapping (map.cc, map.h)

    When a micro-operation is fetched, [map_uop] looks up the last writer of
    each of its source registers and [map_mem_dep] the pending stores a load
    overlaps; when a store is freed it leaves the table again. Registers and
    store addresses of the wrong path have entries of their own.

    Every key of a [hash_c] has a pool entry of its own (see [Utils.Hash]), so
    the tables below hold the entries themselves; what a new entry of the store
    table holds before it is set up is an argument. Fields that are only printed
    are left out. *)

From S2P Require Import Prelude.
From S2P Require Import Utils.
From S2P Require Import Rob.
From S2P Require Import Uops.

Definition NUM_REG_IDS : Z := 1600.
Definition BYTES_IN_QUADWORD : Z := 8.

Record map_entry_c := mk_entry { e_uop : nat; e_uop_num : Z; e_unique_num : Z }.
Record mem_map_entry_c := mk_mem_entry { mm_uop : list (option nat); m_store_mask : Z }.
Record map_data_c := mk_map_data {
  m_reg_map : list map_entry_c;
  m_map_flags : list bool;
  m_last_store : list map_entry_c;
  m_last_store_flag : bool;
  m_oracle_mem_hash : gmap Z mem_map_entry_c
}.

(** The map of one core, with the objects it refers to. *)
Record map_c := mk_map { uops : uop_store; m_core_map_data : gmap Z map_data_c }.

Definition with_uops (σ : uop_store) (s : map_c) : map_c := mk_map σ (m_core_map_data s).
Definition with_data (t : Z) (d : map_data_c) (s : map_c) : map_c := mk_map (uops s) (<[t := d]> (m_core_map_data s)).
Definition with_hash (h : gmap Z mem_map_entry_c) (d : map_data_c) : map_data_c :=
  mk_map_data (m_reg_map d) (m_map_flags d) (m_last_store d) (m_last_store_flag d) h.

Record map_knobs := mk_map_knobs {
  KNOB_IGNORE_DEP : bool; KNOB_MEM_OBEY_STORE_DEP : bool; KNOB_MEM_OOO_STORES : bool; KNOB_USE_NEW_ORACLE : bool
}.

Definition path_bit (b : bool) : Z := if b then 1 else 0.
Definition MEM_MAP_KEY (va : Z) (off_path : bool) : Z := Z.lor (Z.shiftl (Z.shiftr va 3) 1) (path_bit off_path).
Definition BYTE_OVERLAP (a0 s0 a1 s1 : Z) : bool := negb ((u64 (a1 + s1) <=? a0) || (u64 (a0 + s0) <=? a1)).

(** Bits of the 8-bit mask. *)
Definition xsetbit (x y : Z) : Z := Z.lor x (Z.shiftl 1 y).
Definition xclearbit (x y : Z) : Z := Z.land x (Z.lnot (Z.shiftl 1 y)).

(** Indices of a register: [id << 1 | off_path]. *)
Definition reg_index (id : Z) (off_path : bool) : Z := Z.lor (Z.shiftl id 1) (path_bit off_path).

Section MAP.
Context (k : map_knobs) (m_invalid_uop : nat).

Definition invalid_entry : map_entry_c := mk_entry m_invalid_uop 0 0.
Definition initialize : map_data_c :=
  mk_map_data (replicate (Z.to_nat (NUM_REG_IDS * 2)) invalid_entry) (replicate (Z.to_nat (NUM_REG_IDS * 2)) false)
    (replicate 2 invalid_entry) false ∅.

(** ** Adding a source *)

Definition set_not_rdy_bit (bit : Z) (x : uop_s) : outcome uop_s :=
  _ ← ASSERT (bit <? m_num_srcs (deps x));
  mret (with_deps (with_srcs (m_num_srcs (deps x)) (m_map_src_info (deps x))
          (Z.lor (m_srcs_not_rdy_vector (deps x)) (Z.shiftl 1 bit)) (deps x)) x).

Definition put_src (i : Z) (info : src_info_c) (x : uop_s) : outcome uop_s :=
  l ← aset (m_map_src_info (deps x)) i info;
  set_not_rdy_bit i (with_deps (with_srcs (m_num_srcs (deps x)) l (m_srcs_not_rdy_vector (deps x)) (deps x)) x).

Definition add_src_from_map_entry (u : nat) (src_num : Z) (e : map_entry_c) (type : Dep_Type) (σ : uop_store) :
    outcome uop_store :=
  x ← get_s u σ;
  y ← get_s (e_uop e) σ;
  let x := if (0 <? m_hmc_inst y) && (m_hmc_inst x =? 0) && negb (bool_decide (m_mem_type (base y) = NOT_MEM))
           then with_deps (with_hmc_dep true (deps x)) x else x in
  _ ← ASSERT (src_num <? MAX_UOP_SRC_DEPS);
  _ ← ASSERT ((num_of x =? 0) || (e_uop_num e <? num_of x) || m_off_path x);
  x1 ← put_src src_num (mk_src type (Some (e_uop e)) (e_uop_num e) (e_unique_num e)) x;
  mret (<[u := x1]> σ).

(** Is the current micro-operation of one of the sources number [num]? *)
Fixpoint has_src (infos : list src_info_c) (num : Z) (σ : uop_store) : outcome bool :=
  match infos with
  | [] => mret false
  | i :: infos' =>
      a ← get_or NullDeref (si_uop i); y ← get_s a σ;
      if num_of y =? num then mret true else has_src infos' num σ
  end.

Definition inc_srcs (x : uop_s) : uop_s :=
  with_deps (with_srcs (m_num_srcs (deps x) + 1) (m_map_src_info (deps x)) (m_srcs_not_rdy_vector (deps x)) (deps x)) x.

Definition add_src_from_uop (u src : nat) (type : Dep_Type) (σ : uop_store) : outcome uop_store :=
  x ← get_s u σ;
  y ← get_s src σ;
  dup ← has_src (take (Z.to_nat (m_num_srcs (deps x))) (m_map_src_info (deps x))) (num_of y) σ;
  if dup : bool then mret σ else
  _ ← ASSERT (negb (bool_decide (type = REG_DATA_DEP)));
  let n := m_num_srcs (deps x) in
  _ ← ASSERT (n <? MAX_UOP_SRC_DEPS);
  _ ← ASSERT ((num_of y <? num_of x) || (negb (thread_of x =? -1) && negb (thread_of y =? -1)) ||
              (m_off_path x && negb (thread_of y =? -1)));
  x1 ← put_src n (mk_src type (Some src) (num_of y) (m_unique_num y)) (inc_srcs x);
  mret (<[u := x1]> σ).

(** ** Registers *)

(** [hash_table_access_create] followed by [initialize] for a new entry. *)
Definition data_of_create (t : Z) (s : map_c) : map_data_c := default initialize (m_core_map_data s !! t).

Fixpoint read_regs (u : nat) (d : map_data_c) (ii : nat) (n : nat) (σ : uop_store) : outcome uop_store :=
  match n with
  | O => mret σ
  | S n' =>
      x ← get_s u σ;
      id ← aget (m_src_info (deps x)) (Z.of_nat ii);
      _ ← ASSERT (id <? NUM_REG_IDS);
      flag ← aget (m_map_flags d) id;
      let ind := reg_index id flag in
      _ ← ASSERT (ind <? NUM_REG_IDS * 2);
      e ← aget (m_reg_map d) ind;
      σ1 ← add_src_from_map_entry u (Z.of_nat ii) e REG_DATA_DEP σ;
      read_regs u d (S ii) n' σ1
  end.

Definition read_reg_map (u : nat) (s : map_c) : outcome map_c :=
  x ← get_s u (uops s);
  let d := data_of_create (thread_of x) s in
  σ ← read_regs u d 0 (Z.to_nat (m_num_srcs (deps x))) (uops s);
  mret (with_uops σ (with_data (thread_of x) d s)).

Definition read_store_map (u : nat) (s : map_c) : outcome map_c :=
  x ← get_s u (uops s);
  d ← get_or AssertFailed (m_core_map_data s !! thread_of x);
  if negb (KNOB_MEM_OBEY_STORE_DEP k) || KNOB_MEM_OOO_STORES k then mret s else
  if bool_decide (m_mem_type (base x) = NOT_MEM) then mret s else
  e ← aget (m_last_store d) (path_bit (m_last_store_flag d));
  σ ← add_src_from_map_entry u (m_num_srcs (deps x)) e MEM_ADDR_DEP (<[u := inc_srcs x]> (uops s));
  mret (with_uops σ s).

Fixpoint write_regs (u : nat) (x : uop_s) (ii n : nat) (d : map_data_c) : outcome map_data_c :=
  match n with
  | O => mret d
  | S n' =>
      id ← aget (m_dest_info (deps x)) (Z.of_nat ii);
      _ ← ASSERT (id <? NUM_REG_IDS);
      let ind := reg_index id (m_off_path x) in
      _ ← ASSERT (ind <? NUM_REG_IDS * 2);
      m ← aset (m_reg_map d) ind (mk_entry u (num_of x) (m_unique_num x));
      f ← aset (m_map_flags d) id (m_off_path x);
      write_regs u x (S ii) n' (mk_map_data m f (m_last_store d) (m_last_store_flag d) (m_oracle_mem_hash d))
  end.

Definition update_map (u : nat) (s : map_c) : outcome map_c :=
  x ← get_s u (uops s);
  d ← get_or AssertFailed (m_core_map_data s !! thread_of x);
  d1 ← write_regs u x 0 (Z.to_nat (m_num_dests (deps x))) d;
  mret (with_data (thread_of x) d1 s).

Definition map_uop (u : nat) (s : map_c) : outcome map_c :=
  s1 ← read_reg_map u s; s2 ← read_store_map u s1; update_map u s2.

(** ** Stores *)

(** [junk] is what a new entry of the table holds. *)
Definition update_store_hash (junk : mem_map_entry_c) (u : nat) (s : map_c) : outcome map_c :=
  x ← get_s u (uops s);
  let va := m_vaddr (mem x) in
  let key := MEM_MAP_KEY va (m_off_path x) in
  let first_byte := Z.land va 7 in
  d ← get_or AssertFailed (m_core_map_data s !! thread_of x);
  e ← match m_oracle_mem_hash d !! key with
      | Some e => mret e
      | None => if KNOB_USE_NEW_ORACLE k && negb (m_off_path x) then Fault NullDeref
                else mret (mk_mem_entry (mm_uop junk) 0)
      end;
  l ← aset (mm_uop e) first_byte (Some u);
  mret (with_data (thread_of x)
          (with_hash (<[key := mk_mem_entry l (xsetbit (m_store_mask e) first_byte)]> (m_oracle_mem_hash d)) d) s).

(** The loop over the bytes of a quadword: the sources found are added at once
    when stores are out of order; [best] is the byte of the youngest one and the
    low 32 bits of its number. *)
Fixpoint find_stores (u : nat) (va size : Z) (e : mem_map_entry_c) (bytes : list nat) (best : option nat * Z)
    (σ : uop_store) : outcome (uop_store * (option nat * Z)) :=
  match bytes with
  | [] => mret (σ, best)
  | ii :: bytes' =>
      p ← aget (mm_uop e) (Z.of_nat ii);
      if negb (Z.testbit (m_store_mask e) (Z.of_nat ii)) then find_stores u va size e bytes' best σ else
      a ← get_or NullDeref p;
      y ← get_s a σ;
      if negb (BYTE_OVERLAP (m_vaddr (mem y)) (m_mem_size (mem y)) va size) then find_stores u va size e bytes' best σ else
      σ1 ← (if KNOB_MEM_OOO_STORES k then add_src_from_uop u a MEM_DATA_DEP σ else mret σ);
      let best1 := if best.2 <? num_of y then (Some ii, u32 (num_of y)) else best in
      find_stores u va size e bytes' best1 σ1
  end.

(** The last part of [add_store_deps], once the byte is known. *)
Definition depend_on_byte (u : nat) (va : Z) (off_path : bool) (e : mem_map_entry_c) (b : Z) (s : map_c) :
    outcome (map_c * option nat) :=
  x ← get_s u (uops s);
  p ← aget (mm_uop e) b;
  a ← get_or NullDeref p;
  y ← get_s a (uops s);
  _ ← ASSERT ((num_of y <? num_of x) || negb (thread_of x =? -1) || m_off_path x);
  _ ← ASSERT (MEM_MAP_KEY va off_path =? MEM_MAP_KEY (m_vaddr (mem y)) off_path);
  if KNOB_MEM_OOO_STORES k then mret (s, Some a) else
  σ ← add_src_from_uop u a MEM_DATA_DEP (uops s);
  mret (with_uops σ s, Some a).

Definition add_store_deps (u : nat) (s : map_c) : outcome (map_c * option nat) :=
  x ← get_s u (uops s);
  let va := m_vaddr (mem x) in
  let first_byte := Z.land va 7 in
  d ← get_or AssertFailed (m_core_map_data s !! thread_of x);
  match m_oracle_mem_hash d !! MEM_MAP_KEY va (m_off_path x) with
  | None => mret (s, None)
  | Some e =>
      if m_store_mask e =? Z.shiftl 1 first_byte then
        p ← aget (mm_uop e) first_byte;
        a ← get_or NullDeref p;
        y ← get_s a (uops s);
        _ ← ASSERT (m_vaddr (mem y) =? va);
        σ ← (if KNOB_MEM_OOO_STORES k then add_src_from_uop u a MEM_DATA_DEP (uops s) else mret (uops s));
        depend_on_byte u va (m_off_path x) e first_byte (with_uops σ s)
      else
        '(σ, best) ← find_stores u va (m_mem_size (mem x)) e (seq 0 8) (None, 0) (uops s);
        match best.1 with
        | None => mret (with_uops σ s, None)
        | Some b => depend_on_byte u va (m_off_path x) e (Z.of_nat b) (with_uops σ s)
        end
  end.

Definition is_mem_store (t : Mem_Type) : bool := match t with MEM_ST | MEM_ST_LM => true | _ => false end.
Definition is_mem_load (t : Mem_Type) : bool := match t with MEM_LD | MEM_LD_LM => true | _ => false end.

Definition map_mem_dep (junk : mem_map_entry_c) (u : nat) (s : map_c) : outcome map_c :=
  if negb (KNOB_MEM_OBEY_STORE_DEP k) then mret s else
  x ← get_s u (uops s);
  s1 ← (if is_mem_store (m_mem_type (base x)) then update_store_hash junk u s else mret s);
  if is_mem_load (m_mem_type (base x)) then '(s2, _) ← add_store_deps u s1; mret s2 else mret s1.

Definition delete_store_hash_entry (u : nat) (s : map_c) : outcome map_c :=
  if KNOB_IGNORE_DEP k then mret s else
  x ← get_s u (uops s);
  let va := m_vaddr (mem x) in
  let key := MEM_MAP_KEY va (m_off_path x) in
  let first_byte := Z.land va 7 in
  match m_core_map_data s !! thread_of x with
  | None => mret s
  | Some d =>
      match m_oracle_mem_hash d !! key with
      | None => mret s
      | Some e =>
          p ← aget (mm_uop e) first_byte;
          if negb (bool_decide (p = Some u)) then mret s else
          l ← aset (mm_uop e) first_byte None;
          let mask := xclearbit (m_store_mask e) first_byte in
          mret (with_data (thread_of x)
                  (with_hash (if mask =? 0 then delete key (m_oracle_mem_hash d)
                              else <[key := mk_mem_entry l mask]> (m_oracle_mem_hash d)) d) s)
      end
  end.

Definition delete_map (t : Z) (s : map_c) : map_c := mk_map (uops s) (delete t (m_core_map_data s)).

(** ** The life of a micro-operation *)

(** The front end takes an object, fills it in ([x]) and maps it. *)
Definition map_new_uop (junk : mem_map_entry_c) (u : nat) (x : uop_s) (s : map_c) : outcome map_c :=
  let s0 := with_uops (<[u := x]> (uops s)) s in
  if KNOB_IGNORE_DEP k then mret s0 else s1 ← map_uop u s0; map_mem_dep junk u s1.

(** [uop_c::free]: the number goes first, the thread last. *)
Definition free_uop (u : nat) (s : map_c) : outcome map_c :=
  x ← get_s u (uops s);
  let s0 := with_uops (<[u := with_valid false (with_base (set_id 0 (thread_of x) (base x)) x)]> (uops s)) s in
  s1 ← (if is_mem_store (m_mem_type (base x)) then delete_store_hash_entry u s0 else mret s0);
  σ ← upd_s (fun y => with_base (set_id (num_of y) (-1) (base y)) y) u (uops s1);
  mret (with_uops σ s1).
End MAP.

(** ** What mapping does to a micro-operation *)

(** The fields that gaining sources changes. *)
Definition sourced (n : Z) (l : list src_info_c) (v : Z) (h : bool) (x : uop_s) : uop_s :=
  with_deps (mk_deps n (m_src_info (deps x)) (m_num_dests (deps x)) (m_dest_info (deps x)) l v (m_srcs_rdy (deps x))
    (m_last_dep_exec (deps x)) h) x.

Lemma sourced_sourced n l v h n' l' v' h' x : sourced n l v h (sourced n' l' v' h' x) = sourced n l v h x.
Proof. done. Qed.
Lemma sourced_self x :
  sourced (m_num_srcs (deps x)) (m_map_src_info (deps x)) (m_srcs_not_rdy_vector (deps x)) (m_dep_on_hmc_inst (deps x)) x = x.
Proof. by destruct x as [? ? ? ? ? ? ? ? ? ? ? ? [] ?]. Qed.

Lemma put_src_ok i info x :
  0 <= i < m_num_srcs (deps x) -> i < Z.of_nat (length (m_map_src_info (deps x))) ->
  exists v, put_src i info x =
    Done (sourced (m_num_srcs (deps x)) (<[Z.to_nat i := info]> (m_map_src_info (deps x))) v (m_dep_on_hmc_inst (deps x)) x).
Proof.
  intros H1 H2. unfold put_src, set_not_rdy_bit. rewrite aset_in_range by lia. simpl.
  rewrite (proj2 (Z.ltb_lt _ _)) by lia. simpl. by eexists.
Qed.

Definition info_of (ty : Dep_Type) (e : map_entry_c) : src_info_c := mk_src ty (Some (e_uop e)) (e_uop_num e) (e_unique_num e).

Lemma add_src_from_map_entry_ok u i e ty σ x :
  σ !! u = Some x -> is_Some (σ !! e_uop e) -> 0 <= i < m_num_srcs (deps x) -> i < MAX_UOP_SRC_DEPS ->
  length (m_map_src_info (deps x)) = Z.to_nat MAX_UOP_SRC_DEPS -> num_of x = 0 \/ e_uop_num e < num_of x ->
  exists v h, add_src_from_map_entry u i e ty σ =
    Done (<[u := sourced (m_num_srcs (deps x)) (<[Z.to_nat i := info_of ty e]> (m_map_src_info (deps x))) v h x]> σ).
Proof.
  intros Hx [y Hy] Hi Hm Hl He. unfold add_src_from_map_entry. rewrite (get_s_live _ _ _ Hx). simpl.
  rewrite (get_s_live _ _ _ Hy). simpl. rewrite (proj2 (Z.ltb_lt i _) Hm).
  set (c := _ && _ && _). set (x0 := if c then _ else _). simpl.
  assert (exists h, x0 = sourced (m_num_srcs (deps x)) (m_map_src_info (deps x)) (m_srcs_not_rdy_vector (deps x)) h x) as [h ->].
  { subst x0. destruct c; [by exists true |]. exists (m_dep_on_hmc_inst (deps x)). by rewrite sourced_self. }
  change (num_of (sourced _ _ _ _ x)) with (num_of x). 
  assert (Hnum : (num_of x =? 0) || (e_uop_num e <? num_of x) || m_off_path x = true).
  { destruct He as [-> | He]; [done |]. by rewrite (proj2 (Z.ltb_lt _ _) He), orb_true_r. }
  change (m_off_path (sourced _ _ _ _ x)) with (m_off_path x). rewrite Hnum. simpl.
  destruct (put_src_ok i (info_of ty e) (sourced (m_num_srcs (deps x)) (m_map_src_info (deps x))
    (m_srcs_not_rdy_vector (deps x)) h x)) as [v Hv]; [done | simpl; rewrite Hl; lia |].
  unfold info_of in *. rewrite Hv. simpl. by eexists _, _.
Qed.

Lemma reg_index_eq id b : 0 <= id -> reg_index id b = 2 * id + path_bit b.
Proof. intros H. unfold reg_index. rewrite lor_shiftl_add; destruct b; simpl; lia. Qed.

(** ** Registers: what a lookup finds *)

(** [f] is what reading each register gives. *)
Record reads (f : Z -> map_entry_c) (d : map_data_c) : Prop := {
  rd_map : length (m_reg_map d) = Z.to_nat (NUM_REG_IDS * 2);
  rd_flags : length (m_map_flags d) = Z.to_nat (NUM_REG_IDS * 2);
  rd_entry : forall id, 0 <= id < NUM_REG_IDS -> exists b, m_map_flags d !! Z.to_nat id = Some b /\
    m_reg_map d !! Z.to_nat (reg_index id b) = Some (f id)
}.
Lemma reads_ext f g d : (forall id, 0 <= id < NUM_REG_IDS -> f id = g id) -> reads f d -> reads g d.
Proof.
  intros Hfg [H1 H2 H3]. split; [done | done |]. intros id Hid. rewrite <- (Hfg id Hid). auto.
Qed.

Definition is_reg (id : Z) : Prop := 0 <= id < NUM_REG_IDS.

Lemma reg_index_range id b : is_reg id -> 0 <= reg_index id b < NUM_REG_IDS * 2.
Proof. unfold is_reg. intros H. rewrite reg_index_eq by lia. destruct b; simpl; lia. Qed.
Lemma reg_index_inj id id' b b' : is_reg id -> is_reg id' -> reg_index id b = reg_index id' b' -> id = id'.
Proof. unfold is_reg. intros H H'. rewrite !reg_index_eq by lia. destruct b, b'; simpl; lia. Qed.

(** The sources read for the registers [rs] from position [ii] on. *)
Definition filled (f : Z -> map_entry_c) (ii : nat) (rs : list Z) (l l' : list src_info_c) : Prop :=
  length l' = length l /\ forall j, l' !! j =
    if decide (ii <= j < ii + length rs)%nat then info_of REG_DATA_DEP ∘ f <$> rs !! (j - ii)%nat else l !! j.

Lemma read_regs_ok f u d n : forall ii σ x rs,
  reads f d -> (forall id, is_reg id -> is_Some (σ !! e_uop (f id)) /\ (num_of x = 0 \/ e_uop_num (f id) < num_of x)) ->
  σ !! u = Some x -> length (m_map_src_info (deps x)) = Z.to_nat MAX_UOP_SRC_DEPS ->
  Z.of_nat ii + Z.of_nat n = m_num_srcs (deps x) -> m_num_srcs (deps x) <= MAX_UOP_SRC_DEPS ->
  take n (drop ii (m_src_info (deps x))) = rs -> length rs = n -> Forall is_reg rs ->
  exists l v h, read_regs u d ii n σ = Done (<[u := sourced (m_num_srcs (deps x)) l v h x]> σ) /\
    filled f ii rs (m_map_src_info (deps x)) l.
Proof.
  induction n as [| n IH]; intros ii σ x rs Hd Hf Hx Hl Hn Hm Hrs Hlen Hreg.
  { apply nil_length_inv in Hlen as ->. eexists _, _, _. rewrite sourced_self, insert_id by done. split; [done |].
    split; [done |]. intros j. rewrite decide_False; [done | simpl; lia]. }
  destruct rs as [| id rs]; [done |]. apply Forall_cons in Hreg as [Hid Hreg].
  assert (Hii : m_src_info (deps x) !! ii = Some id).
  { apply (f_equal (lookup 0%nat)) in Hrs. rewrite lookup_take_lt, lookup_drop, Nat.add_0_r in Hrs by lia. done. }
  assert (Hrest : take n (drop (S ii) (m_src_info (deps x))) = rs).
  { rewrite (drop_S _ id) in Hrs by done. by injection Hrs. }
  cbn [read_regs]. rewrite (get_s_live _ _ _ Hx). cbn [mbind outcome_bind]. rewrite (aget_lookup _ _ _ Hii).
  cbn [mbind outcome_bind]. destruct (rd_entry _ _ Hd id Hid) as (b & Hb & He). pose proof (reg_index_range id b Hid) as Hr.
  rewrite (proj2 (Z.ltb_lt id _) (proj2 Hid)). cbn [mbind outcome_bind ASSERT].
  rewrite (aget_at _ _ _ (proj1 Hid) Hb). cbn [mbind outcome_bind].
  rewrite (proj2 (Z.ltb_lt _ _) (proj2 Hr)). cbn [mbind outcome_bind ASSERT].
  rewrite (aget_at _ _ _ (proj1 Hr) He). cbn [mbind outcome_bind].
  destruct (Hf id Hid) as [Hsome Hlt].
  destruct (add_src_from_map_entry_ok u (Z.of_nat ii) (f id) REG_DATA_DEP σ x) as (v & h & ->); [done | done | lia | lia | done.. |].
  cbn [mbind outcome_bind]. rewrite Nat2Z.id. set (x1 := sourced _ _ v h x). simpl in Hlen.
  destruct (IH (S ii) (<[u := x1]> σ) x1 rs) as (l & v' & h' & -> & Hfill); try done; try lia; simpl.
  - intros id' Hid'. destruct (Hf id' Hid') as [H1 H2]. split; [| done]. apply lookup_insert_is_Some. destruct (decide (u = e_uop (f id'))); eauto.
  - apply lookup_insert_eq.
  - by rewrite length_insert.
  - change (m_num_srcs (deps x1)) with (m_num_srcs (deps x)). lia.
  - exists l, v', h'. rewrite insert_insert_eq. split; [done |]. destruct Hfill as [Hfl Hfj].
    simpl in Hfl, Hfj. rewrite length_insert in Hfl. split; [done |]. intros j. rewrite Hfj. simpl.
    destruct (decide (j = ii)) as [-> |].
    + rewrite decide_False, decide_True, Nat.sub_diag by lia. simpl. rewrite list_lookup_insert_eq; [done |]. rewrite Hl. lia.
    + rewrite list_lookup_insert_ne by done. destruct (decide (S ii <= j < S ii + length rs)%nat).
      * rewrite !decide_True by lia. by replace (j - ii)%nat with (S (j - S ii)) by lia.
      * by rewrite !decide_False by lia.
Qed.

(** Writing the registers [ids]. *)
Definition written (e : map_entry_c) (ids : list Z) (f : Z -> map_entry_c) (id : Z) : map_entry_c :=
  if decide (id ∈ ids) then e else f id.

Lemma write_regs_ok u x n : forall ii f d ids,
  reads f d -> take n (drop ii (m_dest_info (deps x))) = ids -> length ids = n -> Forall is_reg ids ->
  exists d', write_regs u x ii n d = Done d' /\ reads (written (mk_entry u (num_of x) (m_unique_num x)) ids f) d' /\
    m_last_store d' = m_last_store d /\ m_last_store_flag d' = m_last_store_flag d /\
    m_oracle_mem_hash d' = m_oracle_mem_hash d.
Proof.
  induction n as [| n IH]; intros ii f d ids Hd Hids Hlen Hreg.
  { apply nil_length_inv in Hlen as ->. exists d. split; [done |]. split; [| done]. eapply reads_ext; [| exact Hd].
    intros id _. unfold written. by rewrite decide_False by apply not_elem_of_nil. }
  destruct ids as [| id ids]; [done |]. apply Forall_cons in Hreg as [Hid Hreg].
  assert (Hii : m_dest_info (deps x) !! ii = Some id).
  { apply (f_equal (lookup 0%nat)) in Hids. rewrite lookup_take_lt, lookup_drop, Nat.add_0_r in Hids by lia. done. }
  assert (Hrest : take n (drop (S ii) (m_dest_info (deps x))) = ids).
  { rewrite (drop_S _ id) in Hids by done. by injection Hids. }
  pose proof (reg_index_range id (m_off_path x) Hid) as Hr. pose proof Hd as [Hd1 Hd2 Hd3]. destruct Hid as [Hid0 Hid1].
  cbn [write_regs]. rewrite (aget_lookup _ _ _ Hii). cbn [mbind outcome_bind].
  rewrite (proj2 (Z.ltb_lt id _) Hid1). cbn [mbind outcome_bind ASSERT].
  rewrite (proj2 (Z.ltb_lt _ _) (proj2 Hr)). cbn [mbind outcome_bind ASSERT].
  rewrite (aset_in_range (m_reg_map d)) by (rewrite Hd1; lia). cbn [mbind outcome_bind].
  rewrite (aset_in_range (m_map_flags d)) by (rewrite Hd2; unfold NUM_REG_IDS in *; lia). cbn [mbind outcome_bind].
  set (e := mk_entry u (num_of x) (m_unique_num x)). set (d1 := mk_map_data _ _ _ _ _).
  destruct (IH (S ii) (written e [id] f) d1 ids) as (d' & -> & H1 & H2 & H3 & H4); try done; [| by injection Hlen |].
  - split; [by subst d1; simpl; rewrite length_insert | by subst d1; simpl; rewrite length_insert |].
    intros id' Hid'. unfold written. subst d1. simpl. destruct (decide (id' ∈ [id])) as [->%list_elem_of_singleton | Hne].
    + exists (m_off_path x). rewrite !list_lookup_insert_eq by (rewrite ?Hd1, ?Hd2; unfold NUM_REG_IDS in *; lia). done.
    + rewrite list_elem_of_singleton in Hne. destruct (Hd3 id' Hid') as (b & Hb & He). exists b.
      rewrite !list_lookup_insert_ne; [done | | lia]. intros E. apply Hne.
      apply Z2Nat.inj in E; [| apply Hr | apply (reg_index_range id' b Hid')]. symmetry. by eapply reg_index_inj; [| | exact E].
  - exists d'. split; [done |]. split; [| done]. eapply reads_ext; [| exact H1]. intros id' _. unfold written.
    repeat case_decide; set_solver.
Qed.

(** ** The table of pending stores *)

(** The store recorded for an address of a path. *)
Definition slot (h : gmap Z mem_map_entry_c) (va : Z) (off_path : bool) : option nat :=
  match h !! MEM_MAP_KEY va off_path with
  | Some e => if Z.testbit (m_store_mask e) (Z.land va 7) then default None (mm_uop e !! Z.to_nat (Z.land va 7)) else None
  | None => None
  end.

Lemma byte_of va : Z.land va 7 = va mod 8.
Proof. change 7 with (Z.ones 3). by rewrite Z.land_ones by lia. Qed.
Lemma byte_range va : 0 <= Z.land va 7 < 8.
Proof. rewrite byte_of. by apply Z.mod_pos_bound. Qed.
Lemma MEM_MAP_KEY_eq va b : MEM_MAP_KEY va b = 2 * (va / 8) + path_bit b.
Proof.
  unfold MEM_MAP_KEY. rewrite lor_shiftl_add by (destruct b; simpl; lia).
  rewrite Z.shiftr_div_pow2 by lia. change (2 ^ 3) with 8. lia.
Qed.
Lemma MEM_MAP_KEY_inj va va' b b' : MEM_MAP_KEY va b = MEM_MAP_KEY va' b' -> va / 8 = va' / 8 /\ b = b'.
Proof. rewrite !MEM_MAP_KEY_eq. destruct b, b'; simpl; intros H; (split; [lia | (done || lia)]). Qed.
Lemma address_inj va va' b b' :
  MEM_MAP_KEY va b = MEM_MAP_KEY va' b' -> Z.land va 7 = Z.land va' 7 -> va = va' /\ b = b'.
Proof.
  intros H Hb. apply MEM_MAP_KEY_inj in H as [H ->]. rewrite !byte_of in Hb.
  rewrite (Z.div_mod va 8), (Z.div_mod va' 8) by done. by rewrite H, Hb.
Qed.

Lemma bit_of_power i n : 0 <= i -> 0 <= n -> Z.testbit (Z.shiftl 1 i) n = (i =? n).
Proof. intros Hi Hn. rewrite Z.shiftl_1_l. by rewrite Z.pow2_bits_eqb. Qed.
Lemma xsetbit_spec m i n : 0 <= i -> 0 <= n -> Z.testbit (xsetbit m i) n = (i =? n) || Z.testbit m n.
Proof. intros. unfold xsetbit. by rewrite Z.lor_spec, bit_of_power, orb_comm. Qed.
Lemma xclearbit_spec m i n : 0 <= i -> 0 <= n -> Z.testbit (xclearbit m i) n = negb (i =? n) && Z.testbit m n.
Proof. intros. unfold xclearbit. by rewrite Z.land_spec, Z.lnot_spec, bit_of_power, andb_comm by lia. Qed.

(** A mask of eight bits. *)
Definition is_mask (m : Z) : Prop := 0 <= m /\ forall n, 8 <= n -> Z.testbit m n = false.
Lemma xsetbit_mask m i : is_mask m -> 0 <= i < 8 -> is_mask (xsetbit m i).
Proof.
  intros [H0 H] Hi. split.
  - unfold xsetbit. apply Z.lor_nonneg. split; [done |]. rewrite Z.shiftl_nonneg. lia.
  - intros n Hn. rewrite xsetbit_spec, H by lia. rewrite (proj2 (Z.eqb_neq i n)) by lia. done.
Qed.
Lemma xclearbit_mask m i : is_mask m -> 0 <= i < 8 -> is_mask (xclearbit m i).
Proof.
  intros [H0 H] Hi. split; [unfold xclearbit; apply Z.land_nonneg; by left |].
  intros n Hn. by rewrite xclearbit_spec, H, andb_false_r by lia.
Qed.
Lemma mask_zero m : is_mask m -> (forall n, 0 <= n < 8 -> Z.testbit m n = false) -> m = 0.
Proof.
  intros [H0 H] Hz. apply Z.bits_inj'. intros n Hn. rewrite Z.bits_0. destruct (Z.lt_ge_cases n 8); [apply Hz | apply H]; lia.
Qed.

(** A store of thread [t] that is pending at a key and byte. *)
Record pending (t key b : Z) (y : uop_s) : Prop := {
  pd_valid : m_valid y = true;
  pd_store : is_mem_store (m_mem_type (base y)) = true;
  pd_thread : thread_of y = t;
  pd_key : MEM_MAP_KEY (m_vaddr (mem y)) (m_off_path y) = key;
  pd_byte : Z.land (m_vaddr (mem y)) 7 = b;
  pd_num : 0 <= num_of y
}.

Record entry_ok (t : Z) (σ : uop_store) (key : Z) (e : mem_map_entry_c) : Prop := {
  eo_length : length (mm_uop e) = 8%nat;
  eo_mask : is_mask (m_store_mask e);
  eo_pending : forall b, 0 <= b < 8 -> Z.testbit (m_store_mask e) b = true ->
    exists a y, mm_uop e !! Z.to_nat b = Some (Some a) /\ σ !! a = Some y /\ pending t key b y
}.
Definition hash_ok (t : Z) (σ : uop_store) (h : gmap Z mem_map_entry_c) : Prop :=
  forall key e, h !! key = Some e -> entry_ok t σ key e /\ m_store_mask e <> 0.

Lemma slot_pending t σ h va b a : hash_ok t σ h -> slot h va b = Some a ->
  exists y, σ !! a = Some y /\ pending t (MEM_MAP_KEY va b) (Z.land va 7) y /\ m_vaddr (mem y) = va /\ m_off_path y = b.
Proof.
  intros Hh H. unfold slot in H. destruct (h !! MEM_MAP_KEY va b) as [e |] eqn:He; [| done].
  destruct (Z.testbit _ _) eqn:Hb; [| done]. destruct (Hh _ _ He) as [[_ _ Hp] _].
  destruct (Hp (Z.land va 7) (byte_range va) Hb) as (a' & y & Ha & Hy & Hpd). rewrite Ha in H. simpl in H. injection H as ->.
  exists y. split; [done |]. split; [done |]. apply address_inj; [apply Hpd | apply Hpd].
Qed.

(** The table only depends on the stores it records. *)
Lemma entry_ok_store t σ σ' key e :
  (forall a y, σ !! a = Some y -> pending t key (Z.land (m_vaddr (mem y)) 7) y ->
     exists y', σ' !! a = Some y' /\ pending t key (Z.land (m_vaddr (mem y)) 7) y') ->
  entry_ok t σ key e -> entry_ok t σ' key e.
Proof.
  intros Hs [H1 H2 H3]. split; [done | done |]. intros b Hb Ht. destruct (H3 b Hb Ht) as (a & y & Ha & Hy & Hp).
  pose proof (pd_byte _ _ _ _ Hp) as E. rewrite <- E in Hp. destruct (Hs a y Hy Hp) as (y' & Hy' & Hp').
  exists a, y'. rewrite E in Hp'. done.
Qed.

Lemma slot_entry h va b e :
  h !! MEM_MAP_KEY va b = Some e ->
  slot h va b = if Z.testbit (m_store_mask e) (Z.land va 7) then default None (mm_uop e !! Z.to_nat (Z.land va 7)) else None.
Proof. unfold slot. by intros ->. Qed.

(** Recording a store. *)
Definition record_store (u : nat) (va : Z) (e : mem_map_entry_c) : mem_map_entry_c :=
  mk_mem_entry (<[Z.to_nat (Z.land va 7) := Some u]> (mm_uop e)) (xsetbit (m_store_mask e) (Z.land va 7)).

Lemma record_entry_ok t σ u x e va b :
  va = m_vaddr (mem x) -> b = m_off_path x -> σ !! u = Some x -> pending t (MEM_MAP_KEY va b) (Z.land va 7) x ->
  entry_ok t σ (MEM_MAP_KEY va b) e -> entry_ok t σ (MEM_MAP_KEY va b) (record_store u va e).
Proof.
  intros -> -> Hx Hp [H1 H2 H3]. pose proof (byte_range (m_vaddr (mem x))) as Hb. split; simpl.
  - by rewrite length_insert.
  - by apply xsetbit_mask.
  - intros n Hn Ht. destruct (decide (n = Z.land (m_vaddr (mem x)) 7)) as [-> | Hne].
    + exists u, x. rewrite list_lookup_insert_eq by lia. done.
    + rewrite xsetbit_spec in Ht by lia. rewrite (proj2 (Z.eqb_neq _ n)) in Ht by done. simpl in Ht.
      rewrite list_lookup_insert_ne by lia. by apply H3.
Qed.
Lemma record_slot u va b h e va' b' :
  length (mm_uop e) = 8%nat -> (h !! MEM_MAP_KEY va b = Some e \/ h !! MEM_MAP_KEY va b = None /\ m_store_mask e = 0) ->
  slot (<[MEM_MAP_KEY va b := record_store u va e]> h) va' b' =
    if decide (va' = va /\ b' = b) then Some u else slot h va' b'.
Proof.
  intros Hlen He. pose proof (byte_range va). pose proof (byte_range va').
  destruct (decide (MEM_MAP_KEY va' b' = MEM_MAP_KEY va b)) as [Ek | Hk].
  - rewrite (slot_entry _ _ _ (record_store u va e)) by (rewrite Ek; apply lookup_insert_eq). simpl.
    rewrite xsetbit_spec by lia. destruct (decide (Z.land va' 7 = Z.land va 7)) as [Eb | Hb].
    + destruct (address_inj _ _ _ _ Ek Eb) as [-> ->]. rewrite decide_True by done. rewrite Z.eqb_refl. simpl.
      by rewrite list_lookup_insert_eq by lia.
    + rewrite decide_False by (intros [-> ->]; done). rewrite (proj2 (Z.eqb_neq _ _)) by done. simpl.
      rewrite list_lookup_insert_ne by lia. destruct He as [He | [He Hm]].
      * by rewrite (slot_entry h va' b' e) by (by rewrite Ek).
      * unfold slot. by rewrite Ek, He, Hm, Z.bits_0.
  - rewrite decide_False by (intros [-> ->]; done). unfold slot. by rewrite lookup_insert_ne.
Qed.

Lemma update_store_hash_ok k junk u s x d :
  KNOB_USE_NEW_ORACLE k = false -> length (mm_uop junk) = 8%nat ->
  uops s !! u = Some x -> m_core_map_data s !! thread_of x = Some d -> hash_ok (thread_of x) (uops s) (m_oracle_mem_hash d) ->
  pending (thread_of x) (MEM_MAP_KEY (m_vaddr (mem x)) (m_off_path x)) (Z.land (m_vaddr (mem x)) 7) x ->
  exists h', update_store_hash k junk u s = Done (with_data (thread_of x) (with_hash h' d) s) /\
    hash_ok (thread_of x) (uops s) h' /\
    forall va b, slot h' va b = if decide (va = m_vaddr (mem x) /\ b = m_off_path x) then Some u else slot (m_oracle_mem_hash d) va b.
Proof.
  intros Hk Hj Hx Hd Hh Hp. unfold update_store_hash. rewrite (get_s_live _ _ _ Hx). simpl. rewrite Hd. simpl. rewrite Hk. simpl.
  set (va := m_vaddr (mem x)) in *. set (b := m_off_path x) in *. set (key := MEM_MAP_KEY va b) in *.
  pose proof (byte_range va) as Hb. set (h := m_oracle_mem_hash d) in *.
  set (e := default (mk_mem_entry (mm_uop junk) 0) (h !! key)).
  assert (He : h !! key = Some e \/ h !! key = None /\ m_store_mask e = 0).
  { subst e. destruct (h !! key); [by left | by right]. }
  assert (Hok : entry_ok (thread_of x) (uops s) key e).
  { destruct He as [He | [He Hm]]; [by apply Hh |]. subst e. rewrite He in *. simpl.
    split; simpl; [done | split; [lia |]; intros; apply Z.bits_0 |]. intros n Hn. by rewrite Z.bits_0. }
  replace (match h !! key with Some e0 => _ | None => _ end) with (mret e : outcome mem_map_entry_c) by (subst e; by destruct (h !! key)).
  simpl. rewrite aset_in_range by (rewrite (eo_length _ _ _ _ Hok); lia). simpl.
  exists (<[key := record_store u va e]> h). split; [done |]. split; [| intros va' b'; by apply record_slot; [apply Hok |]].
  intros key' e' He'. destruct (decide (key' = key)) as [-> |].
  - rewrite lookup_insert_eq in He'. injection He' as <-. split; [by eapply record_entry_ok |]. simpl. intros E.
    apply (f_equal (fun m => Z.testbit m (Z.land va 7))) in E. rewrite xsetbit_spec, Z.eqb_refl, Z.bits_0 in E by lia. done.
  - rewrite lookup_insert_ne in He' by done. by apply Hh.
Qed.

(** Removing a store: [u] has left the pending stores in [σ']. *)
Definition forget_store (va : Z) (b : bool) (h : gmap Z mem_map_entry_c) (e : mem_map_entry_c) : gmap Z mem_map_entry_c :=
  let mask := xclearbit (m_store_mask e) (Z.land va 7) in
  if mask =? 0 then delete (MEM_MAP_KEY va b) h
  else <[MEM_MAP_KEY va b := mk_mem_entry (<[Z.to_nat (Z.land va 7) := None]> (mm_uop e)) mask]> h.

Lemma forget_slot va b h e va' b' :
  h !! MEM_MAP_KEY va b = Some e -> is_mask (m_store_mask e) ->
  slot (forget_store va b h e) va' b' = if decide (va' = va /\ b' = b) then None else slot h va' b'.
Proof.
  intros He Hm. pose proof (byte_range va). pose proof (byte_range va'). unfold forget_store.
  set (mask := xclearbit _ _). destruct (decide (MEM_MAP_KEY va' b' = MEM_MAP_KEY va b)) as [Ek | Hk].
  - assert (Hslot : slot h va' b' = if Z.testbit (m_store_mask e) (Z.land va' 7)
      then default None (mm_uop e !! Z.to_nat (Z.land va' 7)) else None) by (apply slot_entry; by rewrite Ek).
    assert (Hbit : Z.testbit mask (Z.land va' 7) = negb (Z.land va 7 =? Z.land va' 7) && Z.testbit (m_store_mask e) (Z.land va' 7))
      by (apply xclearbit_spec; lia).
    destruct (decide (va' = va /\ b' = b)) as [[-> ->] | Hne].
    + rewrite Z.eqb_refl in Hbit. simpl in Hbit. unfold slot. destruct (mask =? 0).
      * by rewrite lookup_delete_eq.
      * rewrite lookup_insert_eq. simpl. by rewrite Hbit.
    + assert (Hb : Z.land va 7 <> Z.land va' 7) by (intros E; apply Hne; by apply address_inj).
      rewrite (proj2 (Z.eqb_neq _ _) Hb) in Hbit. simpl in Hbit. rewrite Hslot. unfold slot. rewrite Ek.
      destruct (Z.eqb_spec mask 0) as [E0 |].
      * rewrite E0, Z.bits_0 in Hbit. by rewrite lookup_delete_eq, <- Hbit.
      * rewrite lookup_insert_eq. simpl. rewrite Hbit, list_lookup_insert_ne by lia. done.
  - rewrite decide_False by (intros [-> ->]; done). unfold slot. destruct (mask =? 0).
    + by rewrite lookup_delete_ne.
    + by rewrite lookup_insert_ne.
Qed.

Lemma forget_hash_ok t σ σ' u x h e :
  hash_ok t σ h -> σ !! u = Some x -> (forall a, a <> u -> σ' !! a = σ !! a) ->
  h !! MEM_MAP_KEY (m_vaddr (mem x)) (m_off_path x) = Some e ->
  hash_ok t σ' (forget_store (m_vaddr (mem x)) (m_off_path x) h e).
Proof.
  intros Hh Hx Hs He. set (va := m_vaddr (mem x)) in *. set (b := m_off_path x) in *. pose proof (byte_range va) as Hb.
  destruct (Hh _ _ He) as [[H1 H2 H3] H4].
  assert (Hother : forall key e', h !! key = Some e' -> forall n, 0 <= n < 8 -> Z.testbit (m_store_mask e') n = true ->
    (key <> MEM_MAP_KEY va b \/ n <> Z.land va 7) ->
    exists a y, mm_uop e' !! Z.to_nat n = Some (Some a) /\ σ' !! a = Some y /\ pending t key n y).
  { intros key e' He' n Hn Ht Hne. destruct (Hh _ _ He') as [[_ _ Hp] _]. destruct (Hp n Hn Ht) as (a & y & Ha & Hy & Hpd).
    exists a, y. split; [done |]. split; [| done]. rewrite Hs; [done |]. intros ->. rewrite Hx in Hy. injection Hy as <-.
    destruct Hpd as [_ _ _ E1 E2 _]. by destruct Hne. }
  assert (Hrest : forall key e', h !! key = Some e' -> key <> MEM_MAP_KEY va b -> entry_ok t σ' key e' /\ m_store_mask e' <> 0).
  { intros key e' He' Hk. destruct (Hh _ _ He') as [[? ? _] ?]. split; [| done]. split; [done | done |]. intros n Hn Ht.
    eapply Hother; eauto. }
  intros key e' He'. unfold forget_store in He'. destruct (Z.eqb_spec (xclearbit (m_store_mask e) (Z.land va 7)) 0) as [E0 | H0].
  - apply lookup_delete_Some in He' as [Hk He']. by apply Hrest.
  - apply lookup_insert_Some in He' as [[<- <-] | [Hk He']]; [| by apply Hrest]. split; [| done].
    split; simpl; [by rewrite length_insert | by apply xclearbit_mask |]. intros n Hn Ht.
    rewrite xclearbit_spec in Ht by lia. apply andb_true_iff in Ht as [Hne Ht]. apply negb_true_iff, Z.eqb_neq in Hne.
    rewrite list_lookup_insert_ne by lia. apply (Hother _ _ He n Hn Ht). by right.
Qed.

(** Freeing [u], which was [x0], removes it from the table of its thread. *)
Lemma delete_store_hash_entry_ok k u s x x0 d :
  KNOB_IGNORE_DEP k = false -> uops s !! u = Some x -> mem x = mem x0 -> m_off_path x = m_off_path x0 ->
  m_core_map_data s !! thread_of x = Some d -> hash_ok (thread_of x) (<[u := x0]> (uops s)) (m_oracle_mem_hash d) ->
  exists h', delete_store_hash_entry k u s = Done (with_data (thread_of x) (with_hash h' d) s) /\
    hash_ok (thread_of x) (uops s) h' /\
    forall va b, slot h' va b = if decide (slot (m_oracle_mem_hash d) va b = Some u) then None else slot (m_oracle_mem_hash d) va b.
Proof.
  intros Hk Hx Em Eo Hd Hh. unfold delete_store_hash_entry. rewrite Hk, (get_s_live _ _ _ Hx). simpl. rewrite Hd.
  set (h := m_oracle_mem_hash d) in *. pose proof (byte_range (m_vaddr (mem x))) as Hb.
  assert (Haddr : forall va b, slot h va b = Some u -> va = m_vaddr (mem x) /\ b = m_off_path x).
  { intros va b Hs. destruct (slot_pending _ _ _ _ _ _ Hh Hs) as (y & Hy & _ & <- & <-). rewrite lookup_insert_eq in Hy.
    injection Hy as <-. by rewrite Em, Eo. }
  assert (Hsame : with_data (thread_of x) (with_hash h d) s = s).
  { destruct s as [σ ds]. unfold with_data. simpl in *. f_equal. subst h. rewrite insert_id; [done |]. rewrite Hd. by destruct d. }
  assert (Hnone : (forall va b, slot h va b <> Some u) ->
    hash_ok (thread_of x) (uops s) h /\ forall va b, slot h va b = if decide (slot h va b = Some u) then None else slot h va b).
  { intros Hn. split; [| intros va b; by rewrite decide_False]. intros key e He. destruct (Hh _ _ He) as [[H1 H2 H3] H4].
    split; [| done]. split; [done | done |]. intros n Hbn Ht. destruct (H3 n Hbn Ht) as (a & y & Ha & Hy & Hp).
    exists a, y. split; [done |]. split; [| done]. rewrite lookup_insert_ne in Hy; [done |]. intros <-.
    apply (Hn (m_vaddr (mem y)) (m_off_path y)). pose proof (pd_byte _ _ _ _ Hp) as E. pose proof (pd_key _ _ _ _ Hp) as Ek.
    unfold slot. rewrite Ek, He, E, Ht. by rewrite Ha. }
  set (va := m_vaddr (mem x)) in *. set (b := m_off_path x) in *.
  destruct (h !! MEM_MAP_KEY va b) as [e |] eqn:He.
  2: { exists h. rewrite Hsame. split; [done |]. apply Hnone. intros va' b' Hs. destruct (Haddr _ _ Hs) as [-> ->].
       unfold slot in Hs. by rewrite He in Hs. }
  destruct (Hh _ _ He) as [[H1 H2 H3] H4]. destruct (aget_in_range (mm_uop e) (Z.land va 7)) as (p & Hp & ->); [lia |]. simpl.
  destruct (bool_decide (p = Some u)) eqn:Hpu; simpl.
  - rewrite aset_in_range by lia. simpl. exists (forget_store va b h e). split; [done |]. split.
    + assert (Ex : va = m_vaddr (mem x0) /\ b = m_off_path x0) by (subst va b; by rewrite Em, Eo). destruct Ex as [-> ->].
      apply (forget_hash_ok _ (<[u := x0]> (uops s)) _ u); [done | apply lookup_insert_eq | | done].
      intros a Ha. by rewrite lookup_insert_ne.
    + intros va' b'. rewrite forget_slot by done. destruct (decide (va' = va /\ b' = b)) as [[-> ->] | Hne].
      * rewrite (slot_entry _ _ _ _ He), Hp. apply bool_decide_eq_true in Hpu as ->. simpl. by destruct (Z.testbit _ _); case_decide.
      * rewrite decide_False; [done |]. intros Hs. by apply Hne, Haddr.
  - exists h. rewrite Hsame. split; [done |]. apply Hnone. intros va' b' Hs. destruct (Haddr _ _ Hs) as [-> ->].
    rewrite (slot_entry _ _ _ _ He), Hp in Hs. apply bool_decide_eq_false in Hpu. destruct (Z.testbit _ _); [| done].
    simpl in Hs. congruence.
Qed.

(** ** Loads *)

Definition srcs (x : uop_s) : list src_info_c := take (Z.to_nat (m_num_srcs (deps x))) (m_map_src_info (deps x)).
Definition src_live (σ : uop_store) (i : src_info_c) : Prop := exists a, si_uop i = Some a /\ is_Some (σ !! a).

(** The object of one of the sources of [x] carries the number [num] now: what
    [add_src_from_uop] takes for a source that is already there. *)
Definition named (σ : uop_store) (x : uop_s) (num : Z) : Prop :=
  exists i a y, i ∈ srcs x /\ si_uop i = Some a /\ σ !! a = Some y /\ num_of y = num.

(** The source that makes a load wait for the store [y] in object [a]. *)
Definition src_for (a : nat) (y : uop_s) : src_info_c := mk_src MEM_DATA_DEP (Some a) (num_of y) (m_unique_num y).

(** A micro-operation whose sources can be extended. *)
Record extensible (σ : uop_store) (x : uop_s) : Prop := {
  ex_length : length (m_map_src_info (deps x)) = Z.to_nat MAX_UOP_SRC_DEPS;
  ex_num : 0 <= m_num_srcs (deps x) <= MAX_UOP_SRC_DEPS;
  ex_live : Forall (src_live σ) (srcs x)
}.

(** [u] only gains sources. *)
Definition gains (u : nat) (σ σ' : uop_store) (added : nat) : Prop :=
  exists x n l v h, σ !! u = Some x /\ σ' = <[u := sourced n l v h x]> σ /\
    m_num_srcs (deps x) <= n <= m_num_srcs (deps x) + Z.of_nat added /\ extensible σ' (sourced n l v h x) /\
    srcs x `prefix_of` srcs (sourced n l v h x).

Lemma gains_refl u σ x : σ !! u = Some x -> extensible σ x -> gains u σ σ 0.
Proof.
  intros Hx He. eexists x, _, _, _, _. rewrite sourced_self, insert_id by done. split; [done |]. split; [done |].
  split; [lia |]. split; [done |]. done.
Qed.
Lemma gains_trans u σ1 σ2 σ3 n m : gains u σ1 σ2 n -> gains u σ2 σ3 m -> gains u σ1 σ3 (n + m).
Proof.
  intros (x & n1 & l1 & v1 & h1 & Hx & -> & Hn & He & Hp) (y & n2 & l2 & v2 & h2 & Hy & -> & Hm & He' & Hp').
  rewrite lookup_insert_eq in Hy. injection Hy as <-. rewrite sourced_sourced, insert_insert_eq in *.
  eexists x, n2, l2, v2, h2. split; [done |]. split; [done |]. simpl in Hm. split; [lia |]. split; [done |]. by etrans.
Qed.
Lemma gains_weaken u σ σ' n m : gains u σ σ' n -> (n <= m)%nat -> gains u σ σ' m.
Proof. intros (x & n1 & l & v & h & Hx & E & Hn & He & Hp) Hm. exists x, n1, l, v, h. split_and!; try done; lia. Qed.
Lemma gains_other u σ σ' n a : gains u σ σ' n -> a <> u -> σ' !! a = σ !! a.
Proof. intros (x & ? & ? & ? & ? & _ & -> & _) Ha. by rewrite lookup_insert_ne. Qed.
Lemma gains_self u σ σ' n x : gains u σ σ' n -> σ !! u = Some x ->
  exists x', σ' !! u = Some x' /\ extensible σ' x' /\ m_num_srcs (deps x') <= m_num_srcs (deps x) + Z.of_nat n /\
    srcs x `prefix_of` srcs x' /\
    num_of x' = num_of x /\ thread_of x' = thread_of x /\ mem x' = mem x /\ base x' = base x /\ m_off_path x' = m_off_path x.
Proof.
  intros (x0 & n1 & l & v & h & Hx & -> & Hn & He & Hp) Hx'. rewrite Hx in Hx'. injection Hx' as ->.
  eexists. split; [apply lookup_insert_eq |]. split; [done |]. split; [simpl; lia |]. split; [done |]. done.
Qed.

Lemma has_src_ok σ num l : Forall (src_live σ) l ->
  exists b, has_src l num σ = Done b /\
    (b = true -> exists i a y, i ∈ l /\ si_uop i = Some a /\ σ !! a = Some y /\ num_of y = num).
Proof.
  induction l as [| i l IH]; intros H; [by exists false |]. apply Forall_cons in H as [(a & Ha & [y Hy]) Hl].
  simpl. rewrite Ha. simpl. rewrite (get_s_live _ _ _ Hy). simpl. destruct (Z.eqb_spec (num_of y) num) as [E |].
  - exists true. split; [done |]. intros _. exists i, a, y. split; [by left | done].
  - destruct (IH Hl) as (b & -> & Hb). exists b. split; [done |]. intros E. destruct (Hb E) as (j & a' & y' & Hj & H').
    exists j, a', y'. split; [by right | done].
Qed.

(** A store becomes a source, unless one already has its number. *)
Lemma add_src_from_uop_ok u a σ x y :
  σ !! u = Some x -> σ !! a = Some y -> extensible σ x -> m_num_srcs (deps x) < MAX_UOP_SRC_DEPS ->
  thread_of x <> -1 -> thread_of y <> -1 ->
  exists σ' x', add_src_from_uop u a MEM_DATA_DEP σ = Done σ' /\ gains u σ σ' 1 /\ σ' !! u = Some x' /\
    (srcs x' = srcs x /\ named σ x (num_of y) \/ srcs x' = srcs x ++ [src_for a y]).
Proof.
  intros Hx Hy Hex Hn Htx Hty. pose proof Hex as [Hlen Hnum Hlive]. unfold add_src_from_uop.
  rewrite (get_s_live _ _ _ Hx). simpl. rewrite (get_s_live _ _ _ Hy). simpl.
  destruct (has_src_ok σ (num_of y) (srcs x) Hlive) as (dup & Hdup & Hd). unfold srcs in Hdup. rewrite Hdup. simpl.
  destruct dup.
  { exists σ, x. split; [done |]. split; [eapply gains_weaken; [by eapply gains_refl | lia] |]. split; [done |].
    left. split; [done | by apply Hd]. }
  rewrite (proj2 (Z.ltb_lt _ _) Hn). simpl. rewrite (proj2 (Z.eqb_neq _ _) Htx), (proj2 (Z.eqb_neq _ _) Hty). simpl.
  rewrite orb_true_r. simpl.
  set (n := m_num_srcs (deps x)) in *. set (info := mk_src _ _ _ _). change info with (src_for a y) in *. clear info. set (info := src_for a y) in *.
  destruct (put_src_ok n info (inc_srcs x)) as [v ->]; [simpl; lia | simpl; rewrite Hlen; lia |]. simpl.
  eexists _, _. split; [done |]. set (x1 := sourced _ _ _ _ _).
  assert (Hsrcs : srcs x1 = srcs x ++ [info]).
  { unfold srcs, x1. simpl. fold n. rewrite Z2Nat.inj_add by lia. simpl. rewrite Nat.add_1_r.
    rewrite (take_S_r _ _ info) by (apply list_lookup_insert_eq; rewrite Hlen; lia). by rewrite take_insert_ge by lia. }
  assert (Hlook : forall b, is_Some (σ !! b) -> is_Some ((<[u := x1]> σ) !! b)).
  { intros b Hb. apply lookup_insert_is_Some. destruct (decide (u = b)); eauto. }
  split.
  - exists x, (n + 1), (<[Z.to_nat n := info]> (m_map_src_info (deps x))), v, (m_dep_on_hmc_inst (deps x)).
    split; [done |]. split; [done |]. split; [lia |]. change (sourced _ _ _ _ x) with x1. split.
    + split; [simpl; by rewrite length_insert | subst x1; simpl; fold n; lia |]. rewrite Hsrcs. apply Forall_app. split.
      * eapply Forall_impl; [exact Hlive |]. intros i (b & Hb & Hs). exists b. auto.
      * apply Forall_singleton. exists a. split; [done |]. apply Hlook. eauto.
    + rewrite Hsrcs. by apply prefix_app_r.
  - split; [apply lookup_insert_eq | by right].
Qed.

Section LOAD.
Context (k : map_knobs) (t key : Z) (u : nat) (σ0 : uop_store) (e : mem_map_entry_c) (va size : Z).
Context (He : entry_ok t σ0 key e) (Ht : t <> -1).
Context (x0 : uop_s) (Hx0 : σ0 !! u = Some x0) (Hu : is_mem_store (m_mem_type (base x0)) = false).

(** A pending store of the quadword that overlaps the load, by its byte. *)
Definition overlaps (ii : nat) (a : nat) (y : uop_s) : Prop :=
  (ii < 8)%nat /\ Z.testbit (m_store_mask e) (Z.of_nat ii) = true /\ mm_uop e !! ii = Some (Some a) /\ σ0 !! a = Some y /\
  BYTE_OVERLAP (m_vaddr (mem y)) (m_mem_size (mem y)) va size = true.

Lemma pending_at ii : (ii < 8)%nat -> Z.testbit (m_store_mask e) (Z.of_nat ii) = true ->
  exists a y, mm_uop e !! ii = Some (Some a) /\ σ0 !! a = Some y /\ pending t key (Z.of_nat ii) y /\ a <> u.
Proof.
  intros Hi Hb. destruct (eo_pending _ _ _ _ He (Z.of_nat ii) ltac:(lia) Hb) as (a & y & Ha & Hy & Hp). rewrite Nat2Z.id in Ha.
  exists a, y. split_and!; try done. intros ->. rewrite Hx0 in Hy. injection Hy as <-.
  destruct Hp as [_ Hst _ _ _ _]. by rewrite Hu in Hst.
Qed.

(** The byte remembered so far: that of the youngest among the bytes [P]; a
    store with the number zero is not remembered. *)
Definition best_ok (P : list nat) (best : option nat * Z) : Prop :=
  match best.1 with
  | None => best.2 = 0 /\ forall ii a y, ii ∈ P -> overlaps ii a y -> num_of y = 0
  | Some b => exists a y, b ∈ P /\ overlaps b a y /\ best.2 = num_of y /\
      forall ii a' y', ii ∈ P -> overlaps ii a' y' -> num_of y' <= num_of y
  end.

Context (Hnum : forall ii a y, overlaps ii a y -> num_of y < 2 ^ 32).
Context (Hdistinct : forall ii a y ii' a' y', overlaps ii a y -> overlaps ii' a' y' -> num_of y = num_of y' -> a = a').

Lemma overlaps_num ii a y : overlaps ii a y -> 0 <= num_of y < 2 ^ 32.
Proof.
  intros H. split; [| by eapply Hnum]. destruct H as (H1 & H2 & H3 & H4 & _).
  destruct (pending_at ii H1 H2) as (a' & y' & Ha & Hy & Hp & _). rewrite H3 in Ha. injection Ha as <-.
  rewrite H4 in Hy. injection Hy as <-. apply Hp.
Qed.
Lemma overlaps_fun ii a y a' y' : overlaps ii a y -> overlaps ii a' y' -> a = a' /\ y = y'.
Proof. intros (_ & _ & H3 & H4 & _) (_ & _ & H3' & H4' & _). rewrite H3 in H3'. injection H3' as ->. split; [done | congruence]. Qed.

Lemma best_ok_skip P ii best : (forall a y, ~ overlaps ii a y) -> best_ok P best -> best_ok (P ++ [ii]) best.
Proof.
  intros Hn. unfold best_ok. destruct best.1 as [b |].
  - intros (a & y & Hb & Ho & E & Hmax). exists a, y. split; [set_solver |]. split; [done |]. split; [done |].
    intros j a' y' [Hj | ->%list_elem_of_singleton]%elem_of_app Hj'; [by eapply Hmax | by apply Hn in Hj'].
  - intros [E Hno]. split; [done |]. intros j a y [Hj | ->%list_elem_of_singleton]%elem_of_app Hj'; [by eapply Hno | by apply Hn in Hj'].
Qed.
Lemma best_ok_take P ii a y best :
  overlaps ii a y -> best_ok P best -> best_ok (P ++ [ii]) (if best.2 <? num_of y then (Some ii, u32 (num_of y)) else best).
Proof.
  intros Ho Hb. pose proof (overlaps_num _ _ _ Ho) as Hy. destruct (Z.ltb_spec best.2 (num_of y)) as [Hlt | Hge].
  - exists a, y. split; [set_solver |]. split; [done |]. split; [apply Z.mod_small; lia |].
    intros j a' y' [Hj | ->%list_elem_of_singleton]%elem_of_app Hj'.
    + unfold best_ok in Hb. destruct best.1 as [b |].
      * destruct Hb as (a2 & y2 & _ & _ & E & Hmax). specialize (Hmax _ _ _ Hj Hj'). lia.
      * destruct Hb as [_ Hno]. rewrite (Hno _ _ _ Hj Hj'). lia.
    + destruct (overlaps_fun _ _ _ _ _ Ho Hj') as [_ ->]. done.
  - unfold best_ok in Hb |- *. destruct best.1 as [b |].
    2: { destruct Hb as [E Hno]. split; [done |]. intros j a' y' [Hj | ->%list_elem_of_singleton]%elem_of_app Hj'; [by eapply Hno |].
         destruct (overlaps_fun _ _ _ _ _ Ho Hj') as [_ <-]. lia. }
    destruct Hb as (a2 & y2 & Hb & Ho2 & E & Hmax).
    exists a2, y2. split; [set_solver |]. split; [done |]. split; [done |].
    intros j a' y' [Hj | ->%list_elem_of_singleton]%elem_of_app Hj'; [by eapply Hmax |].
    destruct (overlaps_fun _ _ _ _ _ Ho Hj') as [_ <-]. lia.
Qed.

Abbreviation ooo := (KNOB_MEM_OOO_STORES k).

(** The stores at the bytes [P] are sources, unless their number was taken. *)
Definition awaited (P : list nat) (x : uop_s) : Prop :=
  ooo = true -> forall ii a y, ii ∈ P -> overlaps ii a y -> ~ named σ0 x0 (num_of y) -> src_for a y ∈ srcs x.

(** Before a turn of the loop, with [room] sources left to be added. *)
Record scanning (P : list nat) (room : nat) (σ : uop_store) (best : option nat * Z) : Prop := {
  sc_frame : forall a, a <> u -> σ !! a = σ0 !! a;
  sc_self : exists x, σ !! u = Some x /\ extensible σ x /\ thread_of x = thread_of x0 /\ num_of x = num_of x0 /\
    (ooo = true -> m_num_srcs (deps x) + Z.of_nat room <= MAX_UOP_SRC_DEPS) /\
    (forall i, i ∈ srcs x -> i ∈ srcs x0 \/ exists ii a y, overlaps ii a y /\ i = src_for a y) /\ awaited P x;
  sc_best : best_ok P best
}.
Context (Htx : thread_of x0 <> -1).

Lemma scanning_skip P ii room σ best :
  (forall a y, ~ overlaps ii a y) -> scanning P (S room) σ best -> scanning (P ++ [ii]) room σ best.
Proof.
  intros Hn [H1 (x & H2 & H3 & H4 & H5 & H6 & H7 & H8) H9]. split; [done | | by apply best_ok_skip].
  exists x. split_and!; try done.
  - intros Hk. specialize (H6 Hk). lia.
  - intros Hk j a y [Hj | ->%list_elem_of_singleton]%elem_of_app Ho; [by eapply H8 | by apply Hn in Ho].
Qed.

(** The number of a store in conflict is carried by a source only if one of
    the sources from before carried it or the store is a source already. *)
Lemma named_before P room σ best x ii a y :
  scanning P room σ best -> σ !! u = Some x -> overlaps ii a y -> named σ x (num_of y) ->
  named σ0 x0 (num_of y) \/ src_for a y ∈ srcs x.
Proof.
  intros [H1 (x' & H2 & _ & _ & H5 & _ & H7 & _) _] Hx Ho (i & b & z & Hi & Hb & Hz & En).
  rewrite H2 in Hx. injection Hx as ->. destruct (H7 i Hi) as [Hi0 | (jj & a' & y' & Ho' & ->)].
  - left. destruct (decide (b = u)) as [-> | Hne].
    + exists i, u, x0. rewrite H2 in Hz. injection Hz as <-. split_and!; try done. congruence.
    + exists i, b, z. by rewrite <- H1.
  - right. simpl in Hb. injection Hb as <-. destruct (decide (a' = u)) as [-> | Hne].
    { exfalso. destruct Ho' as (Hj8 & Hbit & Ha' & _). destruct (pending_at jj Hj8 Hbit) as (a2 & y2 & Ha2 & _ & _ & Hne).
      rewrite Ha' in Ha2. by injection Ha2 as <-. }
    assert (Ez : y' = z). { destruct Ho' as (_ & _ & _ & Hy' & _). rewrite H1 in Hz by done. congruence. }
    subst z. pose proof (Hdistinct _ _ _ _ _ _ Ho' Ho En) as ->.
    destruct Ho' as (_ & _ & _ & Hy' & _), Ho as (_ & _ & _ & Hy & _). rewrite Hy in Hy'. by injection Hy' as <-.
Qed.

(** Adding the store [y] of a conflict to the sources. *)
Lemma scanning_add P ii a y room σ best x :
  scanning P room σ best -> overlaps ii a y -> a <> u -> pending t key (Z.of_nat ii) y ->
  σ !! u = Some x -> m_num_srcs (deps x) < MAX_UOP_SRC_DEPS ->
  exists σ1 x1, add_src_from_uop u a MEM_DATA_DEP σ = Done σ1 /\ gains u σ σ1 1 /\ σ1 !! u = Some x1 /\
    srcs x `prefix_of` srcs x1 /\ (~ named σ0 x0 (num_of y) -> src_for a y ∈ srcs x1) /\
    (forall i, i ∈ srcs x1 -> i ∈ srcs x0 \/ exists ii a y, overlaps ii a y /\ i = src_for a y).
Proof.
  intros Hs Ho Ha Hp Hx Hroom. pose proof Hs as [H1 (x' & H2 & H3 & H4 & _ & _ & H7 & _) _].
  rewrite H2 in Hx. injection Hx as ->.
  destruct (add_src_from_uop_ok u a σ x y) as (σ1 & x1 & E & Hg & Hx1 & Hsrc); try done.
  { rewrite H1 by done. apply Ho. }
  { congruence. }
  { by rewrite (pd_thread _ _ _ _ Hp). }
  exists σ1, x1. split_and!; try done.
  - destruct Hsrc as [[-> _] | ->]; [done | by apply prefix_app_r].
  - intros Hnn. destruct Hsrc as [[-> Hnm] | ->]; [| set_solver].
    by destruct (named_before _ _ _ _ _ _ _ _ Hs H2 Ho Hnm).
  - intros i. destruct Hsrc as [[-> _] | ->]; [apply H7 |].
    intros [Hi | ->%list_elem_of_singleton]%elem_of_app; [by apply H7 |]. right. by exists ii, a, y.
Qed.

Lemma scanning_take P ii a y room σ best best' :
  overlaps ii a y -> a <> u -> pending t key (Z.of_nat ii) y -> scanning P (S room) σ best -> best_ok (P ++ [ii]) best' ->
  exists σ1, (if ooo then add_src_from_uop u a MEM_DATA_DEP σ else mret σ) = Done σ1 /\
    gains u σ σ1 (if ooo then 1 else 0) /\ scanning (P ++ [ii]) room σ1 best'.
Proof.
  intros Ho Ha Hp Hs Hbest. pose proof Hs as [H1 (x & Hx & Hex & Et & En & Hr & H7 & H8) _]. unfold awaited in H8.
  destruct ooo eqn:Hk.
  - specialize (Hr eq_refl).
    destruct (scanning_add P ii a y (S room) σ best x Hs Ho Ha Hp Hx ltac:(lia)) as (σ1 & x1 & E & Hg & Hx1 & Hpre & Hin & Hall).
    exists σ1. split; [done |]. split; [done |].
    destruct (gains_self _ _ _ _ _ Hg Hx) as (x1' & Hx1' & Hex1 & Hn & _ & Enum & Eth & _).
    rewrite Hx1 in Hx1'. injection Hx1' as <-. split; [| | done].
    + intros b Hb. rewrite (gains_other _ _ _ _ _ Hg Hb). by apply H1.
    + exists x1. split_and!; [done | done | congruence | congruence | intros _; lia | done |].
      intros _ j a' y' [Hj | ->%list_elem_of_singleton]%elem_of_app Ho' Hnn.
      * eapply elem_of_prefix; [| exact Hpre]. by eapply H8.
      * destruct (overlaps_fun _ _ _ _ _ Ho Ho') as [<- <-]. by apply Hin.
  - exists σ. split; [done |]. split; [by eapply gains_refl |]. split; [done | | done].
    exists x. split_and!; try done; intros ?; congruence.
Qed.

Lemma find_stores_ok bytes : forall P best σ,
  scanning P (length bytes) σ best -> Forall (fun ii => ii < 8)%nat bytes ->
  exists σ' best', find_stores k u va size e bytes best σ = Done (σ', best') /\
    gains u σ σ' (if ooo then length bytes else 0) /\ scanning (P ++ bytes) 0 σ' best'.
Proof.
  induction bytes as [| ii bytes IH]; intros P best σ Hs Hlt.
  { exists σ, best. split; [done |]. destruct (sc_self _ _ _ _ Hs) as (x & Hx & Hex & _).
    split; [eapply gains_weaken; [by eapply gains_refl |]; lia |]. by rewrite app_nil_r. }
  apply Forall_cons in Hlt as [Hii Hlt]. cbn [find_stores].
  destruct (aget_in_range (mm_uop e) (Z.of_nat ii)) as (p & Hp & ->); [rewrite (eo_length _ _ _ _ He); lia |].
  rewrite Nat2Z.id in Hp. cbn [mbind outcome_bind].
  assert (Hskip : (forall a y, ~ overlaps ii a y) -> exists σ' best', find_stores k u va size e bytes best σ = Done (σ', best') /\
    gains u σ σ' (if ooo then length (ii :: bytes) else 0) /\ scanning (P ++ ii :: bytes) 0 σ' best').
  { intros Hn. destruct (IH (P ++ [ii]) best σ) as (σ' & best' & E & Hg & Hs'); [by apply scanning_skip | done |].
    exists σ', best'. rewrite cons_middle, app_assoc. split; [done |]. split; [| done].
    eapply gains_weaken; [exact Hg |]. destruct ooo; simpl; lia. }
  destruct (Z.testbit (m_store_mask e) (Z.of_nat ii)) eqn:Hbit; cbn [negb]; [| apply Hskip; intros a y (_ & ? & _); congruence].
  destruct (pending_at ii Hii Hbit) as (a & y & Ha & Hy & Hpd & Hau). rewrite Ha in Hp. injection Hp as <-. cbn [get_or mbind outcome_bind].
  rewrite (get_s_live a σ y) by (by rewrite (sc_frame _ _ _ _ Hs a Hau)). cbn [mbind outcome_bind].
  destruct (BYTE_OVERLAP (m_vaddr (mem y)) (m_mem_size (mem y)) va size) eqn:Hov; cbn [negb].
  2: { apply Hskip. intros a' y' (_ & _ & H3 & H4 & H5). rewrite Ha in H3. injection H3 as <-. congruence. }
  destruct (scanning_take P ii a y (length bytes) σ best (if best.2 <? num_of y then (Some ii, u32 (num_of y)) else best))
    as (σ1 & -> & Hg1 & Hs1);
    [by split_and! | done.. | apply (best_ok_take P ii a y best); [by split_and! | apply Hs] |]. cbn [mbind outcome_bind].
  destruct (IH (P ++ [ii]) _ σ1 Hs1 Hlt) as (σ' & best' & E & Hg & Hs'). exists σ', best'. rewrite cons_middle, app_assoc.
  split; [done |]. split; [| done]. eapply gains_weaken; [eapply gains_trans; [exact Hg1 | exact Hg] |]. destruct ooo; simpl; lia.
Qed.

Lemma scanning_widen P P' room σ best :
  (forall ii, ii ∈ P -> ii ∈ P') -> (forall ii a y, ii ∈ P' -> ii ∉ P -> ~ overlaps ii a y) ->
  scanning P room σ best -> scanning P' room σ best.
Proof.
  intros Hsub Hno [H1 (x & H2 & H3 & H4 & H5 & H6 & H7 & H8) H9]. split; [done | |].
  - exists x. split_and!; try done. intros Hk ii a y Hi Ho. destruct (decide (ii ∈ P)); [by eapply H8 | by apply Hno in Ho].
  - unfold best_ok in *. destruct best.1 as [b |].
    + destruct H9 as (a & y & Hb & Ho & E & Hm). exists a, y. split_and!; [auto | done | done |]. intros ii a' y' Hi Ho'.
      destruct (decide (ii ∈ P)); [eauto | by apply Hno in Ho'].
    + destruct H9 as [E Hn]. split; [done |]. intros ii a y Hi Ho. destruct (decide (ii ∈ P)); [by eapply Hn | by apply Hno in Ho].
Qed.

(** The byte found: its store is the youngest that overlaps, and a source. *)
Lemma depend_on_byte_ok b best s off :
  key = MEM_MAP_KEY va off -> scanning (seq 0 8) 0 (uops s) best -> best.1 = Some b ->
  (ooo = false -> forall x, uops s !! u = Some x -> m_num_srcs (deps x) < MAX_UOP_SRC_DEPS) ->
  exists σ' a y, depend_on_byte k u va off e (Z.of_nat b) s = Done (with_uops σ' s, Some a) /\
    gains u (uops s) σ' 1 /\ overlaps b a y /\ (forall ii a' y', overlaps ii a' y' -> num_of y' <= num_of y) /\
    (forall x, σ' !! u = Some x -> (~ named σ0 x0 (num_of y) -> src_for a y ∈ srcs x) /\ awaited (seq 0 8) x).
Proof.
  intros Hkey Hs Hb Hroom. pose proof Hs as [H1 (x & Hx & Hex & Et & _ & _ & _ & Haw) H6]. unfold best_ok in H6. rewrite Hb in H6.
  destruct H6 as (a & y & Hin & Ho & _ & Hmax). pose proof Ho as (Hb8 & Hbit & Ha & Hy & Hov).
  destruct (pending_at b Hb8 Hbit) as (a' & y' & Ha' & Hy' & Hpd & Hau). rewrite Ha in Ha'. injection Ha' as <-.
  rewrite Hy in Hy'. injection Hy' as <-.
  assert (Hmax' : forall ii a' y', overlaps ii a' y' -> num_of y' <= num_of y).
  { intros ii a' y' Ho'. eapply Hmax; [| exact Ho']. apply elem_of_seq. destruct Ho' as [? _]. lia. }
  unfold depend_on_byte. rewrite (get_s_live _ _ _ Hx). cbn [mbind outcome_bind]. rewrite (aget_lookup _ _ _ Ha).
  cbn [mbind outcome_bind get_or]. assert (Hys : uops s !! a = Some y) by (by rewrite H1).
  rewrite (get_s_live _ _ _ Hys). cbn [mbind outcome_bind]. rewrite Et, (proj2 (Z.eqb_neq _ _) Htx). cbn [negb]. rewrite orb_true_r.
  cbn [orb ASSERT mbind outcome_bind].
  assert (Hk2 : (MEM_MAP_KEY va off =? MEM_MAP_KEY (m_vaddr (mem y)) off) = true).
  { apply Z.eqb_eq. rewrite <- Hkey, <- (pd_key _ _ _ _ Hpd). f_equal.
    destruct (MEM_MAP_KEY_inj (m_vaddr (mem y)) va (m_off_path y) off) as [_ E]; [by rewrite <- Hkey; apply Hpd | done]. }
  rewrite Hk2. cbn [ASSERT mbind outcome_bind]. unfold awaited in *. destruct ooo eqn:Hk.
  - exists (uops s), a, y. split; [by destruct s |]. split; [eapply gains_weaken; [by eapply gains_refl | lia] |].
    split; [done |]. split; [done |]. intros x' Hx'. rewrite Hx in Hx'. injection Hx' as <-. split; [| done]. intros Hnn. by eapply Haw.
  - destruct (scanning_add _ _ _ _ _ _ _ _ Hs Ho Hau Hpd Hx) as (σ' & x1 & -> & Hg & Hx1 & _ & Hw & _); [by apply Hroom |].
    cbn [mbind outcome_bind]. exists σ', a, y. split; [done |]. split; [done |]. split; [done |]. split; [done |].
    intros x' Hx'. rewrite Hx1 in Hx'. injection Hx' as <-. split; [done | intros ?; congruence].
Qed.
End LOAD.

(** The pending stores that [x] overlaps within its quadword. *)
Definition conflicts (σ : uop_store) (h : gmap Z mem_map_entry_c) (x : uop_s) (a : nat) (y : uop_s) : Prop :=
  σ !! a = Some y /\ slot h (m_vaddr (mem y)) (m_off_path x) = Some a /\ m_vaddr (mem y) / 8 = m_vaddr (mem x) / 8 /\
  BYTE_OVERLAP (m_vaddr (mem y)) (m_mem_size (mem y)) (m_vaddr (mem x)) (m_mem_size (mem x)) = true.

Lemma conflicts_overlaps t σ h e x a y :
  hash_ok t σ h -> h !! MEM_MAP_KEY (m_vaddr (mem x)) (m_off_path x) = Some e ->
  conflicts σ h x a y <-> exists ii, overlaps σ e (m_vaddr (mem x)) (m_mem_size (mem x)) ii a y.
Proof.
  intros Hh He. assert (Hkey : m_vaddr (mem y) / 8 = m_vaddr (mem x) / 8 ->
    MEM_MAP_KEY (m_vaddr (mem y)) (m_off_path x) = MEM_MAP_KEY (m_vaddr (mem x)) (m_off_path x)).
  { intros E. by rewrite !MEM_MAP_KEY_eq, E. }
  pose proof (byte_range (m_vaddr (mem y))) as Hb. split.
  - intros (Hy & Hs & Ed & Ho). unfold slot in Hs. rewrite Hkey, He in Hs by done. destruct (Z.testbit _ _) eqn:Hbit; [| done].
    exists (Z.to_nat (Z.land (m_vaddr (mem y)) 7)). split; [lia |]. rewrite Z2Nat.id by lia. split; [done |]. split; [| done].
    destruct (mm_uop e !! _) as [[a' |] |]; simpl in Hs; congruence.
  - intros (ii & Hi & Hbit & Ha & Hy & Ho). destruct (Hh _ _ He) as [[_ _ Hp] _].
    destruct (Hp (Z.of_nat ii) ltac:(lia) Hbit) as (a' & y' & Ha' & Hy' & Hpd). rewrite Nat2Z.id, Ha in Ha'. injection Ha' as <-.
    rewrite Hy in Hy'. injection Hy' as <-. destruct (MEM_MAP_KEY_inj _ _ _ _ (pd_key _ _ _ _ Hpd)) as [Ed _].
    split; [done |]. split; [| done]. unfold slot. rewrite (Hkey Ed), He, (pd_byte _ _ _ _ Hpd), Hbit, Nat2Z.id, Ha. done.
Qed.

(** A memory access within the address space. *)
Definition proper_access (x : uop_s) : Prop :=
  0 <= m_vaddr (mem x) /\ 0 < m_mem_size (mem x) /\ m_vaddr (mem x) + m_mem_size (mem x) < 2 ^ 64.
Lemma same_address_overlaps x y :
  proper_access x -> proper_access y -> m_vaddr (mem y) = m_vaddr (mem x) ->
  BYTE_OVERLAP (m_vaddr (mem y)) (m_mem_size (mem y)) (m_vaddr (mem x)) (m_mem_size (mem x)) = true.
Proof.
  intros (H1 & H2 & H3) (H4 & H5 & H6) E. unfold BYTE_OVERLAP. rewrite !u64_small by (unfold is_u64; lia).
  rewrite E in *. rewrite !(proj2 (Z.leb_gt _ _)) by lia. done.
Qed.

(** What a load may assume of the pending stores. *)
Definition stores_ok (σ : uop_store) (h : gmap Z mem_map_entry_c) : Prop :=
  forall va b a y, slot h va b = Some a -> σ !! a = Some y -> proper_access y /\ num_of y < 2 ^ 32.

(** Pending stores differ in their numbers. *)
Definition stores_distinct (σ : uop_store) (h : gmap Z mem_map_entry_c) : Prop :=
  forall va b a y va' b' a' y', slot h va b = Some a -> slot h va' b' = Some a' -> σ !! a = Some y -> σ !! a' = Some y' ->
    num_of y = num_of y' -> a = a'.

(** What mapping a load does to its sources and what it returns: the youngest
    store in conflict, or nothing when there is none but one with number zero.
    A store in conflict becomes a source unless its number was carried by the
    object of a source before. *)
Definition load_mapped (k : map_knobs) (u : nat) (σ : uop_store) (h : gmap Z mem_map_entry_c) (x : uop_s)
    (σ' : uop_store) (r : option nat) : Prop :=
  gains u σ σ' 9 /\
  (KNOB_MEM_OOO_STORES k = true -> forall x' a y, σ' !! u = Some x' -> conflicts σ h x a y ->
     ~ named σ x (num_of y) -> src_for a y ∈ srcs x') /\
  match r with
  | None => forall a y, conflicts σ h x a y -> num_of y = 0
  | Some a => exists y, conflicts σ h x a y /\ (forall a' y', conflicts σ h x a' y' -> num_of y' <= num_of y) /\
      forall x', σ' !! u = Some x' -> ~ named σ x (num_of y) -> src_for a y ∈ srcs x'
  end.

Section ADD_DEPS.
Context (k : map_knobs) (u : nat) (s : map_c) (x : uop_s) (h : gmap Z mem_map_entry_c).
Abbreviation va := (m_vaddr (mem x)).
Abbreviation off := (m_off_path x).
Abbreviation key := (MEM_MAP_KEY va off).
Abbreviation size := (m_mem_size (mem x)).
Context (Hx : uops s !! u = Some x) (Hns : is_mem_store (m_mem_type (base x)) = false) (Ht : thread_of x <> -1).
Context (Hh : hash_ok (thread_of x) (uops s) h) (Hst : stores_ok (uops s) h) (Hdi : stores_distinct (uops s) h) (Hpx : proper_access x) (Hex : extensible (uops s) x).
Context (Hroom : m_num_srcs (deps x) + (if KNOB_MEM_OOO_STORES k then 8 else 1) <= MAX_UOP_SRC_DEPS).

Lemma no_entry_no_conflict a y : h !! key = None -> ~ conflicts (uops s) h x a y.
Proof.
  intros He (_ & Hs & Ed & _). unfold slot in Hs. rewrite MEM_MAP_KEY_eq, Ed, <- MEM_MAP_KEY_eq in Hs. by rewrite He in Hs.
Qed.

Context (e : mem_map_entry_c) (He : h !! key = Some e).
Abbreviation scan := (scanning k u (uops s) e va size x).
Abbreviation ov := (overlaps (uops s) e va size).

Lemma conflict_at a y : conflicts (uops s) h x a y <-> exists ii, ov ii a y.
Proof using Hh He. by eapply conflicts_overlaps. Qed.
Lemma overlap_num ii a y : ov ii a y -> num_of y < 2 ^ 32.
Proof using Hst Hh He. intros Ho. destruct (proj2 (conflict_at a y) (ex_intro _ ii Ho)) as (Hy & Hs & _). by eapply Hst. Qed.
Lemma overlap_distinct ii a y ii' a' y' : ov ii a y -> ov ii' a' y' -> num_of y = num_of y' -> a = a'.
Proof using Hdi Hh He.
  intros Ho Ho'. destruct (proj2 (conflict_at a y) (ex_intro _ ii Ho)) as (Hy & Hs & _).
  destruct (proj2 (conflict_at a' y') (ex_intro _ ii' Ho')) as (Hy' & Hs' & _). by eapply Hdi.
Qed.
Lemma overlap_byte ii a y : ov ii a y -> ii ∈ seq 0 8.
Proof. intros [? _]. apply elem_of_seq. lia. Qed.
Lemma scan_start : scan [] 8 (uops s) (None, 0).
Proof using Hx Hex Hroom.
  split; [done | |].
  - exists x. split_and!; try done; [intros Hk; rewrite Hk in Hroom; exact Hroom | by left |].
    intros _ ii a y Hi. by apply elem_of_nil in Hi.
  - split; [done |]. intros ii a y Hi. by apply elem_of_nil in Hi.
Qed.

Lemma scan_finish best σ1 b :
  scan (seq 0 8) 0 σ1 best -> best.1 = Some b -> gains u (uops s) σ1 (if KNOB_MEM_OOO_STORES k then 8 else 0) ->
  exists σ' r, depend_on_byte k u va off e (Z.of_nat b) (with_uops σ1 s) = Done (with_uops σ' s, r) /\
    load_mapped k u (uops s) h x σ' r.
Proof using Hx Hns Ht Hh Hst Hdi Hroom He.
  intros Hs1 Hb1 Hg1.
  destruct (depend_on_byte_ok k (thread_of x) key u (uops s) e va size (proj1 (Hh _ _ He)) Ht x Hx Hns overlap_num overlap_distinct Ht b best
    (with_uops σ1 s) off) as (σ' & a & y & -> & Hg & Ho & Hmax & Hw); try done.
  { intros Hk x1 Hx1. rewrite Hk in Hg1, Hroom. destruct (gains_self _ _ _ _ _ Hg1 Hx) as (x2 & Hx2 & _ & Hn & _).
    simpl in Hx1. rewrite Hx1 in Hx2. injection Hx2 as <-. lia. }
  exists σ', (Some a). split; [done |]. split.
  { eapply gains_weaken; [eapply gains_trans; [exact Hg1 | exact Hg] |]. destruct (KNOB_MEM_OOO_STORES k); lia. }
  split.
  - intros Hk x' a' y' Hx' [ii Ho']%conflict_at Hnn. eapply (proj2 (Hw x' Hx')); [done | | exact Ho' | done]. by eapply overlap_byte.
  - exists y. split; [apply conflict_at; eauto |]. split; [intros a' y' [ii ?]%conflict_at; by eapply Hmax |].
    intros x' Hx'. apply (Hw x' Hx').
Qed.

(** The only pending store of the quadword starts where the load does. *)
Lemma scan_exact :
  m_store_mask e = Z.shiftl 1 (Z.land va 7) ->
  exists a y σ1 best, mm_uop e !! Z.to_nat (Z.land va 7) = Some (Some a) /\ uops s !! a = Some y /\ m_vaddr (mem y) = va /\
    (if KNOB_MEM_OOO_STORES k then add_src_from_uop u a MEM_DATA_DEP (uops s) else mret (uops s)) = Done σ1 /\
    gains u (uops s) σ1 (if KNOB_MEM_OOO_STORES k then 1 else 0) /\
    scan (seq 0 8) 0 σ1 best /\ best.1 = Some (Z.to_nat (Z.land va 7)).
Proof using Hx Hns Ht Hh Hst Hdi Hpx Hex Hroom He.
  intros Emask. pose proof (byte_range va) as Hb. destruct (Hh _ _ He) as [Heo _]. set (b := Z.to_nat (Z.land va 7)).
  assert (Hbit : forall n, 0 <= n -> Z.testbit (m_store_mask e) n = (Z.land va 7 =? n)) by (intros; rewrite Emask, bit_of_power; lia).
  destruct (pending_at (thread_of x) key u (uops s) e Heo x Hx Hns b) as (a & y & Ha & Hy & Hpd & Hau);
    [subst b; lia | rewrite Hbit by lia; apply Z.eqb_eq; subst b; lia |].
  assert (Ey : m_vaddr (mem y) = va).
  { apply (address_inj _ _ (m_off_path y) off); [apply Hpd |]. rewrite (pd_byte _ _ _ _ Hpd). subst b. lia. }
  assert (Hs : slot h (m_vaddr (mem y)) off = Some a).
  { rewrite Ey, (slot_entry _ _ _ _ He), Hbit, Z.eqb_refl by lia. fold b. by rewrite Ha. }
  assert (Ho : ov b a y).
  { split; [subst b; lia |]. split; [rewrite Hbit by lia; apply Z.eqb_eq; subst b; lia |]. split; [done |]. split; [done |].
    apply same_address_overlaps; [done | by eapply Hst | done]. }
  assert (Hbest : best_ok (uops s) e va size ([] ++ [b]) (Some b, num_of y)).
  { exists a, y. split; [set_solver |]. split_and!; try done. intros ii a' y' ->%list_elem_of_singleton Ho'.
    by destruct (overlaps_fun _ _ _ _ _ _ _ _ _ Ho Ho') as [_ <-]. }
  destruct (scanning_take k (thread_of x) key u (uops s) e va size Heo Ht x Hx Hns overlap_num overlap_distinct Ht [] b a y 7 (uops s) (None, 0)
    _ Ho Hau Hpd scan_start Hbest) as (σ1 & E & Hg & Hs1).
  exists a, y, σ1, (Some b, num_of y). split_and!; try done.
  eapply (scanning_widen k u (uops s) e va size x [b]) in Hs1.
  - destruct Hs1 as [? (x1 & ? & ? & ? & ? & Hrm & ? & ?) ?]. split; [done | | done]. exists x1. split_and!; try done.
    intros Hk. specialize (Hrm Hk). lia.
  - intros ii ->%list_elem_of_singleton. by eapply overlap_byte.
  - intros ii a' y' _ Hne (_ & Hbi & _). rewrite Hbit in Hbi by lia. apply Hne, list_elem_of_singleton. apply Z.eqb_eq in Hbi. subst b. lia.
Qed.
End ADD_DEPS.

Lemma add_store_deps_ok k u s x d :
  uops s !! u = Some x -> is_mem_store (m_mem_type (base x)) = false -> thread_of x <> -1 ->
  m_core_map_data s !! thread_of x = Some d -> hash_ok (thread_of x) (uops s) (m_oracle_mem_hash d) ->
  stores_ok (uops s) (m_oracle_mem_hash d) -> stores_distinct (uops s) (m_oracle_mem_hash d) ->
  proper_access x -> extensible (uops s) x ->
  m_num_srcs (deps x) + (if KNOB_MEM_OOO_STORES k then 8 else 1) <= MAX_UOP_SRC_DEPS ->
  exists σ' r, add_store_deps k u s = Done (with_uops σ' s, r) /\ load_mapped k u (uops s) (m_oracle_mem_hash d) x σ' r.
Proof.
  intros Hx Hns Ht Hd Hh Hst Hdi Hpx Hex Hroom. unfold add_store_deps. rewrite (get_s_live _ _ _ Hx). cbn [mbind outcome_bind].
  rewrite Hd. cbn [mbind outcome_bind get_or]. set (h := m_oracle_mem_hash d) in *.
  destruct (h !! MEM_MAP_KEY (m_vaddr (mem x)) (m_off_path x)) as [e |] eqn:He.
  2: { exists (uops s), None. split; [by destruct s |]. split; [eapply gains_weaken; [by eapply gains_refl | lia] |].
       split; [intros _ x' a y _ Hc | intros a y Hc]; by apply no_entry_no_conflict in Hc. }
  pose proof (byte_range (m_vaddr (mem x))) as Hb.
  destruct (Z.eqb_spec (m_store_mask e) (Z.shiftl 1 (Z.land (m_vaddr (mem x)) 7))) as [Emask |].
  - destruct (scan_exact k u s x h Hx Hns Ht Hh Hst Hdi Hpx Hex Hroom e He Emask) as (a & y & σ1 & best & Ha & Hy & Ey & E & Hg & Hs & Hbest).
    rewrite (aget_at _ _ _ (proj1 Hb) Ha). cbn [mbind outcome_bind get_or]. rewrite (get_s_live _ _ _ Hy). cbn [mbind outcome_bind].
    rewrite Ey, Z.eqb_refl. cbn [ASSERT mbind outcome_bind]. rewrite E. cbn [mbind outcome_bind].
    destruct (scan_finish k u s x h Hx Hns Ht Hh Hst Hdi Hroom e He best σ1 _ Hs Hbest) as (σ' & r & H1 & H2).
    { eapply gains_weaken; [exact Hg |]. destruct (KNOB_MEM_OOO_STORES k); lia. }
    rewrite Z2Nat.id in H1 by lia. rewrite H1. eauto.
  - destruct (find_stores_ok k (thread_of x) (MEM_MAP_KEY (m_vaddr (mem x)) (m_off_path x)) u (uops s) e (m_vaddr (mem x))
      (m_mem_size (mem x)) (proj1 (Hh _ _ He)) Ht x Hx Hns (overlap_num s x h Hh Hst e He)
      (overlap_distinct s x h Hh Hdi e He) Ht (seq 0 8) [] (None, 0) (uops s))
      as (σ1 & best & -> & Hg1 & Hs1); [by apply scan_start | by apply Forall_seq; lia |]. cbn [mbind outcome_bind].
    destruct best.1 as [b |] eqn:Hb1; [by eapply scan_finish |]. exists σ1, None. split; [done |].
    split; [eapply gains_weaken; [exact Hg1 |]; destruct (KNOB_MEM_OOO_STORES k); simpl; lia |].
    pose proof Hs1 as [_ (x1 & Hx1 & _ & _ & _ & _ & _ & Haw) Hbest]. split.
    + intros Hk x' a y Hx' Hc Hnn. rewrite Hx1 in Hx'. injection Hx' as <-. eapply conflict_at in Hc as [ii Ho]; [| done | done].
      eapply Haw; [done | | exact Ho | done]. by eapply overlap_byte.
    + intros a y Hc. eapply conflict_at in Hc as [ii Ho]; [| done | done].
      unfold best_ok in Hbest. rewrite Hb1 in Hbest. eapply (proj2 Hbest); [| exact Ho]. by eapply overlap_byte.
Qed.

(** ** Histories *)

(** What a thread has written, newest first, and the last writer of a register. *)
Abbreviation history := (list (map_entry_c * list Z)).
Fixpoint last_writer (inv : nat) (w : history) (id : Z) : map_entry_c :=
  match w with
  | [] => invalid_entry inv
  | (e, ids) :: w' => if decide (id ∈ ids) then e else last_writer inv w' id
  end.
Definition entry_of (u : nat) (x : uop_s) : map_entry_c := mk_entry u (num_of x) (m_unique_num x).
Definition src_regs (x : uop_s) : list Z := take (Z.to_nat (m_num_srcs (deps x))) (m_src_info (deps x)).
Definition dest_regs (x : uop_s) : list Z := take (Z.to_nat (m_num_dests (deps x))) (m_dest_info (deps x)).

Lemma last_writer_cases inv w id : last_writer inv w id = invalid_entry inv \/ exists ids, (last_writer inv w id, ids) ∈ w.
Proof.
  induction w as [| [e ids] w IH]; simpl; [by left |]. case_decide; [right; exists ids; by left |].
  destruct IH as [-> | [ids' Hin]]; [by left |]. right. exists ids'. by right.
Qed.

(** Entries with one number are one entry. *)
Definition numbered (w : history) : Prop :=
  forall e ids e' ids', (e, ids) ∈ w -> (e', ids') ∈ w -> e_uop_num e = e_uop_num e' -> e = e'.
Lemma numbered_cons e0 ids0 w : (forall e ids, (e, ids) ∈ w -> e_uop_num e < e_uop_num e0) -> numbered w -> numbered ((e0, ids0) :: w).
Proof.
  intros Hlt Hw e ids e' ids' [[= -> ->] | He]%elem_of_cons [[= -> ->] | He']%elem_of_cons En; [done | | | by eapply Hw].
  - apply Hlt in He'. lia.
  - apply Hlt in He. lia.
Qed.

(** The extra sources of a memory operation when stores are in order. *)
Definition addr_dep (k : map_knobs) (x : uop_s) : bool :=
  KNOB_MEM_OBEY_STORE_DEP k && negb (KNOB_MEM_OOO_STORES k) && negb (bool_decide (m_mem_type (base x) = NOT_MEM)).
(** How many sources memory can add: the last store of the address, and for a
    load the pending stores of its quadword, of which there are at most eight. *)
Definition room (k : map_knobs) (x : uop_s) : Z :=
  (if addr_dep k x then 1 else 0) +
  (if KNOB_MEM_OBEY_STORE_DEP k && is_mem_load (m_mem_type (base x)) then (if KNOB_MEM_OOO_STORES k then 8 else 1) else 0).

(** A micro-operation as the front end makes it: numbered above the earlier ones
    of its thread (the first one is number zero), with the registers and the
    memory access in range, and with room for the sources memory can add: with
    stores out of order a load may have two register sources, with stores in
    order eight. With more, and that many stores pending in its quadword, the
    assertions on the number of sources fail. *)
Record fresh_uop (k : map_knobs) (w : history) (x : uop_s) : Prop := {
  fu_valid : m_valid x = true;
  fu_thread : thread_of x <> -1;
  fu_num : 0 <= num_of x < 2 ^ 32;
  fu_newest : forall e ids, (e, ids) ∈ w -> e_uop_num e < num_of x;
  fu_infos : length (m_map_src_info (deps x)) = Z.to_nat MAX_UOP_SRC_DEPS;
  fu_srcs : 0 <= m_num_srcs (deps x) <= Z.of_nat (length (m_src_info (deps x)));
  fu_room : m_num_srcs (deps x) + room k x <= MAX_UOP_SRC_DEPS;
  fu_src_regs : Forall is_reg (src_regs x);
  fu_dests : 0 <= m_num_dests (deps x) <= Z.of_nat (length (m_dest_info (deps x)));
  fu_dest_regs : Forall is_reg (dest_regs x);
  fu_access : m_mem_type (base x) <> NOT_MEM -> proper_access x
}.

Lemma initialize_reads inv : reads (last_writer inv []) (initialize inv).
Proof.
  split; unfold initialize; cbn [m_reg_map m_map_flags]; [apply length_replicate.. |]. intros id Hid. exists false.
  pose proof (reg_index_range id false Hid) as Hr.
  split; apply lookup_replicate_2; [unfold NUM_REG_IDS in *; lia |]. apply Z2Nat.inj_lt; [apply Hr | done | apply Hr].
Qed.

Lemma filled_srcs f x l v h : filled f 0 (src_regs x) (m_map_src_info (deps x)) l -> 0 <= m_num_srcs (deps x) ->
  length (src_regs x) = Z.to_nat (m_num_srcs (deps x)) ->
  srcs (sourced (m_num_srcs (deps x)) l v h x) = (info_of REG_DATA_DEP ∘ f) <$> src_regs x.
Proof.
  intros [_ Hf] Hn Hl. unfold srcs. simpl. apply list_eq. intros j. rewrite list_lookup_fmap.
  destruct (decide (j < Z.to_nat (m_num_srcs (deps x)))%nat) as [Hj | Hj].
  - rewrite lookup_take_lt by done. rewrite Hf, decide_True by lia. by rewrite Nat.sub_0_r.
  - rewrite lookup_take_ge by lia. by rewrite lookup_ge_None_2 by lia.
Qed.

Section STEP.
Context (k : map_knobs) (inv : nat).

(** The state between two micro-operations, for the histories [w]. *)
Definition history_live (σ : uop_store) (w : history) : Prop := forall e ids, (e, ids) ∈ w -> is_Some (σ !! e_uop e).

Lemma writer_live σ w id : is_Some (σ !! inv) -> history_live σ w -> is_Some (σ !! e_uop (last_writer inv w id)).
Proof. intros Hi Hw. destruct (last_writer_cases inv w id) as [-> | [ids Hin]]; [done | by eapply Hw]. Qed.
Lemma writer_older w x id : fresh_uop k w x -> num_of x = 0 \/ e_uop_num (last_writer inv w id) < num_of x.
Proof.
  intros Hx. destruct (last_writer_cases inv w id) as [-> | [ids Hin]].
  - pose proof (fu_num _ _ _ Hx). simpl. lia.
  - right. by eapply fu_newest.
Qed.

Lemma read_reg_map_ok u s x w :
  uops s !! u = Some x -> fresh_uop k w x -> is_Some (uops s !! inv) -> history_live (uops s) w ->
  reads (last_writer inv w) (data_of_create inv (thread_of x) s) ->
  exists l v h, let x1 := sourced (m_num_srcs (deps x)) l v h x in
    read_reg_map inv u s =
      Done (mk_map (<[u := x1]> (uops s)) (<[thread_of x := data_of_create inv (thread_of x) s]> (m_core_map_data s))) /\
    srcs x1 = (info_of REG_DATA_DEP ∘ last_writer inv w) <$> src_regs x /\ extensible (<[u := x1]> (uops s)) x1.
Proof.
  intros Hx Hf Hi Hw Hr. pose proof Hf as [_ _ _ _ Hl Hs Hroom Hregs _ _ _].
  assert (Hroom0 : 0 <= room k x) by (unfold room; destruct (addr_dep k x), (_ && _), (KNOB_MEM_OOO_STORES k); lia).
  assert (Hlen : length (src_regs x) = Z.to_nat (m_num_srcs (deps x))) by (unfold src_regs; rewrite length_take; lia).
  destruct (read_regs_ok (last_writer inv w) u (data_of_create inv (thread_of x) s) (Z.to_nat (m_num_srcs (deps x))) 0 (uops s) x (src_regs x))
    as (l & v & h & E & Hfill); try done; try lia.
  { intros id _. split; [by apply writer_live | by apply writer_older]. }
  exists l, v, h. simpl. unfold read_reg_map. rewrite (get_s_live _ _ _ Hx). cbn [mbind outcome_bind]. rewrite E.
  cbn [mbind outcome_bind]. split; [done |]. rewrite (filled_srcs (last_writer inv w)); [| done | lia | done]. split; [done |].
  assert (El : length l = Z.to_nat MAX_UOP_SRC_DEPS) by (by rewrite (proj1 Hfill)).
  split; [done | simpl; lia |]. rewrite (filled_srcs (last_writer inv w)); [| done | lia | done]. apply Forall_fmap, Forall_forall. intros id _.
  eexists. split; [done |]. apply lookup_insert_is_Some. destruct (decide (u = e_uop (last_writer inv w id))); [by left | right].
  split; [done |]. by apply writer_live.
Qed.

Lemma read_store_map_ok u s x d :
  uops s !! u = Some x -> m_core_map_data s !! thread_of x = Some d -> m_last_store d = replicate 2 (invalid_entry inv) ->
  m_last_store_flag d = false -> is_Some (uops s !! inv) -> 0 <= num_of x -> extensible (uops s) x ->
  m_num_srcs (deps x) + (if addr_dep k x then 1 else 0) <= MAX_UOP_SRC_DEPS ->
  exists n l v h, let x1 := sourced n l v h x in
    read_store_map k u s = Done (with_uops (<[u := x1]> (uops s)) s) /\
    n = m_num_srcs (deps x) + (if addr_dep k x then 1 else 0) /\
    srcs x1 = srcs x ++ (if addr_dep k x then [info_of MEM_ADDR_DEP (invalid_entry inv)] else []) /\
    extensible (<[u := x1]> (uops s)) x1.
Proof.
  intros Hx Hd Hls Hfl Hi Hn Hex Hroom. pose proof Hex as [El En Ef]. unfold read_store_map. rewrite (get_s_live _ _ _ Hx).
  cbn [mbind outcome_bind]. rewrite Hd. cbn [mbind outcome_bind get_or].
  destruct (addr_dep k x) eqn:Ha; unfold addr_dep in Ha.
  - apply andb_true_iff in Ha as [Ha Ham]. apply andb_true_iff in Ha as [Ha1 Ha2]. apply negb_true_iff in Ham. rewrite Ha1. apply negb_true_iff in Ha2. rewrite Ha2. simpl. rewrite Ham.
    rewrite Hls, Hfl. simpl. set (n := m_num_srcs (deps x)) in *.
    destruct (add_src_from_map_entry_ok u n (invalid_entry inv) MEM_ADDR_DEP (<[u := inc_srcs x]> (uops s)) (inc_srcs x))
      as (v & h & ->); try done; try (simpl; lia).
    { apply lookup_insert_eq. }
    { apply lookup_insert_is_Some. destruct (decide (u = inv)); eauto. }
    { change (num_of (inc_srcs x)) with (num_of x). simpl. lia. }
    simpl. rewrite insert_insert_eq. eexists (n + 1), _, v, h. split; [done |]. split; [done |]. set (x1 := sourced _ _ _ _ x).
    assert (Hs : srcs x1 = srcs x ++ [info_of MEM_ADDR_DEP (invalid_entry inv)]).
    { unfold srcs, x1. simpl. fold n. rewrite Z2Nat.inj_add by lia. simpl. rewrite Nat.add_1_r.
      rewrite (take_S_r _ _ (info_of MEM_ADDR_DEP (invalid_entry inv))) by (apply list_lookup_insert_eq; rewrite El; lia).
      by rewrite take_insert_ge by lia. }
    split; [done |]. split; [simpl; by rewrite length_insert | simpl; lia |]. rewrite Hs.
    assert (Hlook : forall b, is_Some (uops s !! b) -> is_Some ((<[u := x1]> (uops s)) !! b)).
    { intros b Hb. apply lookup_insert_is_Some. destruct (decide (u = b)); eauto. }
    apply Forall_app. split.
    + eapply Forall_impl; [exact Ef |]. intros i (b & Hb & Hsm). exists b. auto.
    + apply Forall_singleton. exists inv. auto.
  - assert (Hskip : exists n l v h, let x1 := sourced n l v h x in Done s = Done (with_uops (<[u := x1]> (uops s)) s) /\
      n = m_num_srcs (deps x) + 0 /\ srcs x1 = srcs x ++ [] /\ extensible (<[u := x1]> (uops s)) x1).
    { exists (m_num_srcs (deps x)), (m_map_src_info (deps x)), (m_srcs_not_rdy_vector (deps x)), (m_dep_on_hmc_inst (deps x)).
      cbv zeta. rewrite sourced_self, insert_id by done. rewrite app_nil_r. split; [by destruct s |]. split; [lia | done]. }
    destruct (KNOB_MEM_OBEY_STORE_DEP k), (KNOB_MEM_OOO_STORES k); simpl in *; try exact Hskip.
    apply negb_false_iff in Ha. rewrite Ha. exact Hskip.
Qed.
End STEP.
