(* ===== verification/MapSystem.v ===== *)
(** * Dependence mapping over the life of a core (map.cc)

    Micro-operations are fetched and mapped, freed and fetched again, and
    threads end. Against this history the map is right: the sources of every
    micro-operation are the last writers of its registers, and the table of
    pending stores is a map from addresses to the last store still in flight. *)

From S2P Require Import Prelude.
From S2P Require Import Utils.
From S2P Require Import Rob.
From S2P Require Import Uops.
From S2P Require Import Map.

(** ** The state of a thread *)

Section THREAD.
Context (k : map_knobs) (inv : nat).

(** The data of thread [t] for the history [w] and the pending stores [st]. *)
Record thread_ok (σ : uop_store) (t : Z) (w : history) (st : Z -> bool -> option nat) (d : map_data_c) : Prop := {
  to_reads : reads (last_writer inv w) d;
  to_hash : hash_ok t σ (m_oracle_mem_hash d);
  to_slots : forall va b, slot (m_oracle_mem_hash d) va b = st va b;
  to_stores : stores_ok σ (m_oracle_mem_hash d);
  to_known : forall va b a y, st va b = Some a -> σ !! a = Some y ->
    exists e ids, (e, ids) ∈ w /\ e_uop e = a /\ e_uop_num e = num_of y;
  to_numbered : numbered w;
  to_last : m_last_store d = replicate 2 (invalid_entry inv);
  to_flag : m_last_store_flag d = false
}.

Lemma map_initialize_ok σ t : thread_ok σ t [] (fun _ _ => None) (initialize inv).
Proof.
  split; try done; [apply initialize_reads |]. intros e ids e' ids' He. by apply elem_of_nil in He.
Qed.

(** The pending stores of a thread differ in their numbers. *)
Lemma thread_stores_distinct σ t w st d : thread_ok σ t w st d -> stores_distinct σ (m_oracle_mem_hash d).
Proof.
  intros H va b a y va' b' a' y' Ha Ha' Hy Hy' En. rewrite (to_slots _ _ _ _ _ H) in Ha, Ha'.
  destruct (to_known _ _ _ _ _ H _ _ _ _ Ha Hy) as (e & ids & He & <- & E1).
  destruct (to_known _ _ _ _ _ H _ _ _ _ Ha' Hy') as (e' & ids' & He' & <- & E2).
  by rewrite (to_numbered _ _ _ _ _ H e ids e' ids' He He') by congruence.
Qed.

(** Only the pending stores matter to the table. *)
Lemma thread_ok_store σ σ' t w st d :
  (forall va b a y, st va b = Some a -> σ !! a = Some y ->
     exists y', σ' !! a = Some y' /\ mem y' = mem y /\ base y' = base y /\ m_valid y' = m_valid y /\ m_off_path y' = m_off_path y) ->
  thread_ok σ t w st d -> thread_ok σ' t w st d.
Proof.
  intros Hs [H1 H2 H3 H4 K1 K2 H5 H6]. split; try done.
  - intros key e He. destruct (H2 _ _ He) as [[E1 E2 E3] Hm]. split; [| done]. split; [done | done |]. intros b Hb Ht.
    destruct (E3 b Hb Ht) as (a & y & Ha & Hy & Hp). destruct (Hs (m_vaddr (mem y)) (m_off_path y) a y) as (y' & Hy' & Em & Eb & Ev & Eo).
    { rewrite <- H3. unfold slot. by rewrite (pd_key _ _ _ _ Hp), He, (pd_byte _ _ _ _ Hp), Ht, Ha. }
    { done. }
    exists a, y'. split; [done |]. split; [done |]. destruct Hp. split; unfold thread_of, num_of in *; rewrite ?Em, ?Eb, ?Ev, ?Eo; done.
  - intros va b a y' Ha Hy'. destruct (slot_pending _ _ _ _ _ _ H2 Ha) as (y & Hy & _). destruct (H4 va b a y Ha Hy) as [Hpa Hn].
    destruct (Hs va b a y) as (y2 & Hy2 & Em & Eb & _); [by rewrite <- H3 | done |]. rewrite Hy' in Hy2. injection Hy2 as <-.
    unfold proper_access, num_of in *. by rewrite Em, Eb.
  - intros va b a y' Ha Hy'. pose proof Ha as Hsl. rewrite <- H3 in Hsl. destruct (slot_pending _ _ _ _ _ _ H2 Hsl) as (y & Hy & _).
    destruct (Hs va b a y Ha Hy) as (y2 & Hy2 & _ & Eb & _). rewrite Hy' in Hy2. injection Hy2 as <-.
    unfold num_of. rewrite Eb. by apply (K1 va b).
Qed.

Lemma update_map_ok u s x d w st :
  uops s !! u = Some x -> m_core_map_data s !! thread_of x = Some d -> thread_ok (uops s) (thread_of x) w st d ->
  0 <= m_num_dests (deps x) <= Z.of_nat (length (m_dest_info (deps x))) -> Forall is_reg (dest_regs x) ->
  (forall e ids, (e, ids) ∈ w -> e_uop_num e < num_of x) ->
  exists d', update_map u s = Done (with_data (thread_of x) d' s) /\
    thread_ok (uops s) (thread_of x) ((entry_of u x, dest_regs x) :: w) st d'.
Proof.
  intros Hx Hd [H1 H2 H3 H4 K1 K2 H5 H6] Hn Hregs Hnew. unfold update_map. rewrite (get_s_live _ _ _ Hx). cbn [mbind outcome_bind].
  rewrite Hd. cbn [mbind outcome_bind get_or].
  destruct (write_regs_ok u x (Z.to_nat (m_num_dests (deps x))) 0 (last_writer inv w) d (dest_regs x)) as (d' & -> & Hr & E1 & E2 & E3);
    [done | done | unfold dest_regs; rewrite length_take; lia | done |].
  cbn [mbind outcome_bind]. exists d'. split; [done |]. split; rewrite ?E1, ?E2, ?E3; try done.
  - intros va b a y Ha Hy. destruct (K1 va b a y Ha Hy) as (e & ids & He & ?). exists e, ids. split; [by right | done].
  - by apply numbered_cons.
Qed.

(** [map_uop]: the sources are those of the registers, and of the address. *)
Lemma map_uop_ok u s x w st :
  let t := thread_of x in
  uops s !! u = Some x -> fresh_uop k w x -> is_Some (uops s !! inv) -> history_live (uops s) w ->
  thread_ok (uops s) t w st (data_of_create inv t s) -> (forall va b, st va b <> Some u) ->
  exists n l v h d', let x' := sourced n l v h x in
    map_uop k inv u s = Done (mk_map (<[u := x']> (uops s)) (<[t := d']> (m_core_map_data s))) /\
    n = m_num_srcs (deps x) + (if addr_dep k x then 1 else 0) /\
    srcs x' = ((info_of REG_DATA_DEP ∘ last_writer inv w) <$> src_regs x) ++
              (if addr_dep k x then [info_of MEM_ADDR_DEP (invalid_entry inv)] else []) /\
    extensible (<[u := x']> (uops s)) x' /\
    thread_ok (<[u := x']> (uops s)) t ((entry_of u x, dest_regs x) :: w) st d'.
Proof.
  intros t Hx Hf Hi Hw Ht Hu. pose proof Hf as [_ _ Hnum Hnew Hlen Hs Hroom _ Hd Hdr _].
  destruct (read_reg_map_ok k inv u s x w) as (l1 & v1 & h1 & E1 & Hs1 & Hex1); [done.. | apply Ht |].
  set (x1 := sourced _ l1 v1 h1 x) in *. unfold map_uop. rewrite E1. cbn [mbind outcome_bind]. fold t. set (s1 := mk_map _ _).
  assert (Hx1 : uops s1 !! u = Some x1) by apply lookup_insert_eq.
  assert (Hd1 : m_core_map_data s1 !! thread_of x1 = Some (data_of_create inv t s)) by apply lookup_insert_eq.
  assert (Hroom1 : m_num_srcs (deps x1) + (if addr_dep k x1 then 1 else 0) <= MAX_UOP_SRC_DEPS).
  { etrans; [| exact Hroom]. change (addr_dep k x1) with (addr_dep k x). change (m_num_srcs (deps x1)) with (m_num_srcs (deps x)).
    unfold room. destruct (_ && _), (KNOB_MEM_OOO_STORES k); lia. }
  destruct (read_store_map_ok k inv u s1 x1 (data_of_create inv t s)) as (n & l2 & v2 & h2 & E2 & En & Hs2 & Hex2);
    [done | done | apply Ht | apply Ht | | apply Hnum | done | done |].
  { simpl. apply lookup_insert_is_Some. destruct (decide (u = inv)); eauto. }
  rewrite E2. cbn [mbind outcome_bind]. unfold x1 in E2, En, Hs2, Hex2 |- *. rewrite sourced_sourced in *. set (x2 := sourced n l2 v2 h2 x) in *.
  unfold s1 in *. simpl in *. rewrite insert_insert_eq in *. unfold with_uops. simpl. set (s2 := mk_map _ _).
  destruct (update_map_ok u s2 x2 (data_of_create inv t s) w st) as (d' & E3 & Ht3); [apply lookup_insert_eq.. | | done | done | done |].
  { simpl. eapply thread_ok_store; [| exact Ht]. intros va b a y Ha Hy. exists y. rewrite lookup_insert_ne; [done |].
    intros <-. by apply Hu in Ha. }
  exists n, l2, v2, h2, d'. cbv zeta. fold x2. rewrite E3. unfold with_data, s2. simpl. rewrite insert_insert_eq.
  split; [done |]. split; [done |]. split; [rewrite Hs2; f_equal; exact Hs1 |]. done.
Qed.
End THREAD.

(** ** All threads *)

(** What has happened: the writes of each thread since it began, and for each
    thread, address and path the last store, while it is in flight. *)
Record map_spec := mk_spec { writers : Z -> history; stores : Z -> Z -> bool -> option nat }.

Inductive map_op :=
| Fetch (junk : mem_map_entry_c) (u : nat) (x : uop_s)
| Release (u : nat)
| EndThread (t : Z).

Definition spec0 : map_spec := mk_spec (fun _ => []) (fun _ _ _ => None).
Definition spec_do (k : map_knobs) (o : map_op) (sp : map_spec) : map_spec :=
  match o with
  | Fetch _ u x =>
      mk_spec (fun t => if decide (t = thread_of x) then (entry_of u x, dest_regs x) :: writers sp t else writers sp t)
        (fun t va b => if KNOB_MEM_OBEY_STORE_DEP k && is_mem_store (m_mem_type (base x)) &&
                          bool_decide (t = thread_of x /\ va = m_vaddr (mem x) /\ b = m_off_path x)
                       then Some u else stores sp t va b)
  | Release u => mk_spec (writers sp) (fun t va b => if decide (stores sp t va b = Some u) then None else stores sp t va b)
  | EndThread t =>
      mk_spec (fun t' => if decide (t' = t) then [] else writers sp t')
        (fun t' va b => if decide (t' = t) then None else stores sp t' va b)
  end.

Definition map_do (k : map_knobs) (inv : nat) (o : map_op) (s : map_c) : outcome map_c :=
  match o with
  | Fetch junk u x => map_new_uop k inv junk u x s
  | Release u => free_uop k u s
  | EndThread t => mret (delete_map t s)
  end.

(** Objects are taken when they are not in use and freed when they are; the
    micro-operations of a thread are numbered in order. *)
Definition map_allowed (k : map_knobs) (inv : nat) (o : map_op) (s : map_c) (sp : map_spec) : Prop :=
  match o with
  | Fetch junk u x =>
      u <> inv /\ (forall y, uops s !! u = Some y -> m_valid y = false) /\ fresh_uop k (writers sp (thread_of x)) x /\
      length (mm_uop junk) = 8%nat
  | Release u => u <> inv /\ exists x, uops s !! u = Some x /\ m_valid x = true
  | EndThread _ => True
  end.

Section SYSTEM.
Context (k : map_knobs) (inv : nat).

Record map_ok (s : map_c) (sp : map_spec) : Prop := {
  mo_inv : is_Some (uops s !! inv);
  mo_thread : forall t d, m_core_map_data s !! t = Some d -> thread_ok inv (uops s) t (writers sp t) (stores sp t) d;
  mo_none : forall t, m_core_map_data s !! t = None -> writers sp t = [] /\ forall va b, stores sp t va b = None;
  mo_live : forall t, history_live (uops s) (writers sp t)
}.

Lemma thread_ok_slots σ t w st st' d :
  (forall va b, st va b = st' va b) -> thread_ok inv σ t w st d -> thread_ok inv σ t w st' d.
Proof.
  intros E [H1 H2 H3 H4 K1 K2 H5 H6]. split; try done.
  - intros va b. by rewrite H3, E.
  - intros va b a y. rewrite <- E. apply K1.
Qed.

Lemma map_ok_create s sp t : map_ok s sp -> thread_ok inv (uops s) t (writers sp t) (stores sp t) (data_of_create inv t s).
Proof.
  intros [_ Ht Hn _]. unfold data_of_create. destruct (m_core_map_data s !! t) as [d |] eqn:E; [by apply Ht |].
  destruct (Hn t E) as [-> Hs]. eapply thread_ok_slots; [| apply map_initialize_ok]. simpl. auto.
Qed.
Lemma stores_valid s sp t va b a : map_ok s sp -> stores sp t va b = Some a ->
  exists y, uops s !! a = Some y /\ pending t (MEM_MAP_KEY va b) (Z.land va 7) y /\ m_vaddr (mem y) = va /\ m_off_path y = b.
Proof.
  intros Ho Hs. pose proof (map_ok_create s sp t Ho) as Ht. rewrite <- (to_slots _ _ _ _ _ _ Ht) in Hs.
  eapply slot_pending; [apply Ht | done].
Qed.

(** Objects that are not pending stores can change. *)
Lemma map_ok_store s sp σ' :
  is_Some (σ' !! inv) -> (forall a, is_Some (uops s !! a) -> is_Some (σ' !! a)) ->
  (forall t va b a y, stores sp t va b = Some a -> uops s !! a = Some y ->
     exists y', σ' !! a = Some y' /\ mem y' = mem y /\ base y' = base y /\ m_valid y' = m_valid y /\ m_off_path y' = m_off_path y) ->
  map_ok s sp -> map_ok (with_uops σ' s) sp.
Proof.
  intros Hi Hd Hs [H1 H2 H3 H4]. split; simpl; try done.
  - intros t d Ht. eapply thread_ok_store; [| by apply H2]. intros va b a y. apply Hs.
  - intros t e ids He. apply Hd. by eapply H4.
Qed.

(** ** Fetching *)

(** The stores a load overlaps within its quadword, among the last ones fetched
    for their addresses that are still in flight. *)
Definition in_conflict (σ : uop_store) (st : Z -> bool -> option nat) (x : uop_s) (a : nat) (y : uop_s) : Prop :=
  σ !! a = Some y /\ st (m_vaddr (mem y)) (m_off_path x) = Some a /\ m_vaddr (mem y) / 8 = m_vaddr (mem x) / 8 /\
  BYTE_OVERLAP (m_vaddr (mem y)) (m_mem_size (mem y)) (m_vaddr (mem x)) (m_mem_size (mem x)) = true.

(** The sources of [x] before memory is looked at. *)
Definition base_sources (w : history) (x : uop_s) : list src_info_c :=
  ((info_of REG_DATA_DEP ∘ last_writer inv w) <$> src_regs x) ++
  (if addr_dep k x then [info_of MEM_ADDR_DEP (invalid_entry inv)] else []).

(** The object of one of these sources, whoever uses it by now, carries the
    number [num]. *)
Definition number_taken (σ : uop_store) (l : list src_info_c) (num : Z) : Prop :=
  exists i b z, i ∈ l /\ si_uop i = Some b /\ σ !! b = Some z /\ num_of z = num.

(** The youngest store in conflict is a source, if its number is free. *)
Definition youngest_awaited (σ : uop_store) (st : Z -> bool -> option nat) (x : uop_s) (free : Z -> Prop) (l : list src_info_c) : Prop :=
  (forall a y, in_conflict σ st x a y -> num_of y = 0) \/
  exists a y, in_conflict σ st x a y /\ (forall a' y', in_conflict σ st x a' y' -> num_of y' <= num_of y) /\
    (free (num_of y) -> src_for a y ∈ l).

(** What the sources of [x], fetched as [u], are in the end. *)
Definition sources_ok (u : nat) (x : uop_s) (w : history) (st : Z -> bool -> option nat) (σ σ' : uop_store) : Prop :=
  exists x', σ' !! u = Some x' /\ base_sources w x `prefix_of` srcs x' /\
    let free num := ~ number_taken (<[u := x]> σ) (base_sources w x) num in
    (KNOB_MEM_OBEY_STORE_DEP k = true -> is_mem_load (m_mem_type (base x)) = true ->
     (KNOB_MEM_OOO_STORES k = true -> forall a y, in_conflict σ st x a y -> free (num_of y) -> src_for a y ∈ srcs x') /\
     youngest_awaited σ st x free (srcs x')).

Lemma map_ok_ext s sp sp' :
  (forall t, writers sp t = writers sp' t) -> (forall t va b, stores sp t va b = stores sp' t va b) -> map_ok s sp -> map_ok s sp'.
Proof.
  intros Ew Es [H1 H2 H3 H4]. split; [done | | |].
  - intros t d Ht. rewrite <- Ew. eapply thread_ok_slots; [| by apply H2]. intros va b. apply Es.
  - intros t Ht. destruct (H3 t Ht) as [E1 E2]. rewrite <- Ew. split; [done |]. intros va b. by rewrite <- Es.
  - intros t. rewrite <- Ew. apply H4.
Qed.

(** Replacing the data of one thread. *)
Lemma map_ok_data s sp sp' t d :
  thread_ok inv (uops s) t (writers sp' t) (stores sp' t) d ->
  history_live (uops s) (writers sp' t) ->
  (forall t', t' <> t -> writers sp' t' = writers sp t' /\ forall va b, stores sp' t' va b = stores sp t' va b) ->
  map_ok s sp -> map_ok (with_data t d s) sp'.
Proof.
  intros Ht Hl He [H1 H2 H3 H4]. split; simpl; [done | | |].
  - intros t' d' Hd'. destruct (decide (t' = t)) as [-> | Hne].
    + rewrite lookup_insert_eq in Hd'. by injection Hd' as <-.
    + rewrite lookup_insert_ne in Hd' by done. destruct (He t' Hne) as [-> Es]. eapply thread_ok_slots; [| by apply H2]. auto.
  - intros t' Hd'. destruct (decide (t' = t)) as [-> | Hne]; [by rewrite lookup_insert_eq in Hd' |].
    rewrite lookup_insert_ne in Hd' by done. destruct (He t' Hne) as [-> Es]. destruct (H3 t' Hd') as [? ?]. split; [done |]. intros. by rewrite Es.
  - intros t'. destruct (decide (t' = t)) as [-> | Hne]; [done |]. destruct (He t' Hne) as [-> _]. apply H4.
Qed.

(** Changing the object [u], which is no pending store. *)
Lemma map_ok_insert s sp u x :
  map_ok s sp -> (forall t va b, stores sp t va b <> Some u) -> map_ok (with_uops (<[u := x]> (uops s)) s) sp.
Proof.
  intros Ho Hu. apply map_ok_store; [| | | done].
  - apply lookup_insert_is_Some. destruct (decide (u = inv)); [by left | right; split; [done | apply Ho]].
  - intros a Ha. apply lookup_insert_is_Some. destruct (decide (u = a)); eauto.
  - intros t va b a y Ha Hy. exists y. rewrite lookup_insert_ne; [done |]. intros <-. by apply Hu in Ha.
Qed.
Lemma not_pending s sp u : map_ok s sp -> (forall y, uops s !! u = Some y -> m_valid y = false) ->
  forall t va b, stores sp t va b <> Some u.
Proof.
  intros Ho Hv t va b Hs. destruct (stores_valid _ _ _ _ _ _ Ho Hs) as (y & Hy & Hp & _). apply Hv in Hy.
  rewrite (pd_valid _ _ _ _ Hp) in Hy. done.
Qed.

Abbreviation written_by u x sp := (mk_spec (writers (spec_do k (Fetch (mk_mem_entry [] 0) u x) sp)) (stores sp)).

Lemma fetch_registers u x s sp :
  map_ok s sp -> u <> inv -> (forall y, uops s !! u = Some y -> m_valid y = false) -> fresh_uop k (writers sp (thread_of x)) x ->
  exists n l v h d, let x1 := sourced n l v h x in
    map_uop k inv u (with_uops (<[u := x]> (uops s)) s) = Done (mk_map (<[u := x1]> (uops s)) (<[thread_of x := d]> (m_core_map_data s))) /\
    n = m_num_srcs (deps x) + (if addr_dep k x then 1 else 0) /\
    srcs x1 = ((info_of REG_DATA_DEP ∘ last_writer inv (writers sp (thread_of x))) <$> src_regs x) ++
              (if addr_dep k x then [info_of MEM_ADDR_DEP (invalid_entry inv)] else []) /\
    extensible (<[u := x1]> (uops s)) x1 /\
    map_ok (mk_map (<[u := x1]> (uops s)) (<[thread_of x := d]> (m_core_map_data s))) (written_by u x sp).
Proof.
  intros Ho Hui Hv Hf. pose proof (not_pending _ _ _ Ho Hv) as Hnp. pose proof (map_ok_insert s sp u x Ho Hnp) as Ho0.
  set (s0 := with_uops (<[u := x]> (uops s)) s) in *.
  destruct (map_uop_ok k inv u s0 x (writers sp (thread_of x)) (stores sp (thread_of x))) as (n & l & v & h & d & E & En & Es & Hex & Ht).
  { apply lookup_insert_eq. }
  { done. }
  { apply Ho0. }
  { apply Ho0. }
  { by apply map_ok_create. }
  { apply Hnp. }
  exists n, l, v, h, d. cbv zeta in *. set (x1 := sourced n l v h x) in *. unfold s0 in E, Hex, Ht. simpl in E, Hex, Ht.
  rewrite insert_insert_eq in E, Hex, Ht. split; [done |]. split; [done |]. split; [done |]. split; [done |].
  change (mk_map _ _) with (with_data (thread_of x) d (with_uops (<[u := x1]> (uops s)) s)).
  apply (map_ok_data (with_uops (<[u := x1]> (uops s)) s) sp); [| | | by apply map_ok_insert]; simpl.
  - by rewrite decide_True.
  - rewrite decide_True by done. intros e ids [[= -> ->] | Hin]%elem_of_cons; simpl; [by rewrite lookup_insert_eq |].
    apply lookup_insert_is_Some. destruct (decide (u = e_uop e)); [by left | right]. split; [done |]. by eapply mo_live.
  - intros t' Hne. by rewrite decide_False.
Qed.
(** A store is recorded. *)
Lemma fetch_store junk u x1 s sp :
  map_ok s sp -> KNOB_USE_NEW_ORACLE k = false -> length (mm_uop junk) = 8%nat -> uops s !! u = Some x1 ->
  is_Some (m_core_map_data s !! thread_of x1) -> m_valid x1 = true -> is_mem_store (m_mem_type (base x1)) = true -> 0 <= num_of x1 < 2 ^ 32 ->
  proper_access x1 -> (exists ids, (entry_of u x1, ids) ∈ writers sp (thread_of x1)) ->
  exists s', update_store_hash k junk u s = Done s' /\ uops s' = uops s /\
    map_ok s' (mk_spec (writers sp) (fun t va b =>
      if bool_decide (t = thread_of x1 /\ va = m_vaddr (mem x1) /\ b = m_off_path x1) then Some u else stores sp t va b)).
Proof.
  intros Ho Hk Hj Hx [d Hd] Hv Hst Hn Hpa [ids Hids]. pose proof (mo_thread _ _ Ho _ _ Hd) as Ht.
  destruct (update_store_hash_ok k junk u s x1 d) as (h' & E & Hh & Hs); try done; [apply Ht | by split; try lia |].
  eexists. split; [exact E |]. split; [done |]. eapply map_ok_data; [| | | exact Ho]; simpl.
  - destruct Ht as [H1 H2 H3 H4 K1 K2 H5 H6]. split; simpl; try done.
    + by destruct H1.
    + intros va b. rewrite Hs, H3. repeat (case_decide || case_bool_decide); naive_solver.
    + intros va b a y Ha Hy. rewrite Hs in Ha. case_decide; [| by eapply H4]. injection Ha as <-. rewrite Hx in Hy. injection Hy as <-. split; [done | lia].
    + intros va b a y. case_bool_decide; [| apply K1]. intros [= <-] Hy. rewrite Hx in Hy. injection Hy as <-. by exists (entry_of u x1), ids.
  - apply Ho.
  - intros t' Hne. split; [done |]. intros va b. rewrite bool_decide_eq_false_2; [done |]. naive_solver.
Qed.

(** A load gains sources. *)
Lemma fetch_load u x1 s sp :
  map_ok s sp -> uops s !! u = Some x1 -> is_Some (m_core_map_data s !! thread_of x1) -> thread_of x1 <> -1 ->
  is_mem_store (m_mem_type (base x1)) = false -> proper_access x1 -> extensible (uops s) x1 ->
  m_num_srcs (deps x1) + (if KNOB_MEM_OOO_STORES k then 8 else 1) <= MAX_UOP_SRC_DEPS ->
  exists σ' r x2, add_store_deps k u s = Done (with_uops σ' s, r) /\ map_ok (with_uops σ' s) sp /\ σ' !! u = Some x2 /\
    srcs x1 `prefix_of` srcs x2 /\
    (KNOB_MEM_OOO_STORES k = true -> forall a y, in_conflict (uops s) (stores sp (thread_of x1)) x1 a y ->
       ~ named (uops s) x1 (num_of y) -> src_for a y ∈ srcs x2) /\
    youngest_awaited (uops s) (stores sp (thread_of x1)) x1 (fun num => ~ named (uops s) x1 num) (srcs x2).
Proof.
  intros Ho Hx [d Hd] Ht Hns Hpa Hex Hroom. pose proof (mo_thread _ _ Ho _ _ Hd) as Hto.
  destruct (add_store_deps_ok k u s x1 d) as (σ' & r & E & Hg & Hall & Hr); try done; [apply Hto | apply Hto | by eapply thread_stores_distinct |].
  destruct (gains_self _ _ _ _ _ Hg Hx) as (x2 & Hx2 & _ & _ & Hpre & _ & _ & Em & Eb & Eo).
  assert (Hc : forall a y, in_conflict (uops s) (stores sp (thread_of x1)) x1 a y <-> conflicts (uops s) (m_oracle_mem_hash d) x1 a y).
  { intros a y. unfold in_conflict, conflicts. by rewrite (to_slots _ _ _ _ _ _ Hto). }
  exists σ', r, x2. split; [done |]. split.
  { apply map_ok_store; [| | | done].
    - destruct (decide (inv = u)) as [-> | Hne]; [eauto |]. rewrite (gains_other _ _ _ _ _ Hg Hne). apply Ho.
    - intros a Ha. destruct (decide (a = u)) as [-> | Hne]; [eauto |]. by rewrite (gains_other _ _ _ _ _ Hg Hne).
    - intros t va b a y Ha Hy. exists y. rewrite (gains_other _ _ _ _ _ Hg); [done |]. intros ->. rewrite Hx in Hy. injection Hy as <-.
      destruct (stores_valid _ _ _ _ _ _ Ho Ha) as (y & Hy & Hp & _). rewrite Hx in Hy. injection Hy as <-.
      by rewrite (pd_store _ _ _ _ Hp) in Hns. }
  split; [done |]. split; [done |]. split; [intros Hk a y Hay%Hc; by apply Hall |].
  destruct r as [a |]; [right | left; intros a y Hay%Hc; by eapply Hr].
  destruct Hr as (y & Hcy & Hmax & Hw). exists a, y. split; [by apply Hc |]. split; [intros a' y' Hay%Hc; by eapply Hmax |]. by apply Hw.
Qed.

Context (Hdep : KNOB_IGNORE_DEP k = false) (Horacle : KNOB_USE_NEW_ORACLE k = false).

Lemma fetch_ok junk u x s sp :
  map_ok s sp -> map_allowed k inv (Fetch junk u x) s sp ->
  exists s', map_new_uop k inv junk u x s = Done s' /\ map_ok s' (spec_do k (Fetch junk u x) sp) /\
    sources_ok u x (writers sp (thread_of x)) (stores sp (thread_of x)) (uops s) (uops s').
Proof.
  intros Ho (Hui & Hv & Hf & Hj). pose proof (not_pending _ _ _ Ho Hv) as Hnp.
  pose proof Hf as [Hval Hth Hnum _ _ _ Hroom _ _ _ Hacc].
  destruct (fetch_registers u x s sp Ho Hui Hv Hf) as (n & l & v & h & d & E & En & Es & Hex & Ho1). cbv zeta in *.
  unfold map_new_uop. rewrite Hdep, E. cbn [mbind outcome_bind]. set (x1 := sourced n l v h x) in *. set (s1 := mk_map _ _) in *.
  assert (Hx1 : uops s1 !! u = Some x1) by apply lookup_insert_eq.
  assert (Hd1 : is_Some (m_core_map_data s1 !! thread_of x1)) by (eexists; apply lookup_insert_eq).
  unfold map_mem_dep. destruct (KNOB_MEM_OBEY_STORE_DEP k) eqn:Hobey; cbn [negb].
  2: { exists s1. split; [done |]. split; [eapply map_ok_ext; [| | exact Ho1]; simpl; [done |]; intros; by rewrite Hobey |].
       exists x1. split; [done |]. split; [by rewrite Es |]. intros free. congruence. }
  rewrite (get_s_live _ _ _ Hx1). cbn [mbind outcome_bind]. change (base x1) with (base x).
  destruct (is_mem_store (m_mem_type (base x))) eqn:Hst.
  - assert (Hmem : m_mem_type (base x) <> NOT_MEM) by (by intros Em; rewrite Em in Hst).
    assert (Hnl : is_mem_load (m_mem_type (base x)) = false) by (by destruct (m_mem_type (base x))).
    destruct (fetch_store junk u x1 s1 _ Ho1 Horacle Hj Hx1 Hd1 Hval Hst Hnum (Hacc Hmem)
      ltac:(exists (dest_regs x); simpl; rewrite decide_True by done; by left)) as (s2 & E2 & Eu & Ho2).
    rewrite E2. cbn [mbind outcome_bind]. rewrite Hnl. exists s2. split; [done |]. split.
    { eapply map_ok_ext; [| | exact Ho2]; simpl; [done |]. intros. by rewrite Hobey, Hst. }
    exists x1. rewrite Eu. split; [done |]. split; [by rewrite Es |]. intros free. congruence.
  - cbn [mbind outcome_bind mret outcome_ret]. assert (Ho1' : map_ok s1 (spec_do k (Fetch junk u x) sp)).
    { eapply map_ok_ext; [| | exact Ho1]; simpl; [done |]. intros. by rewrite Hst, andb_false_r. }
    destruct (is_mem_load (m_mem_type (base x))) eqn:Hld.
    2: { exists s1. split; [done |]. split; [done |]. exists x1. split; [done |]. split; [by rewrite Es | intros free; congruence]. }
    assert (Hmem : m_mem_type (base x) <> NOT_MEM) by (by intros Em; rewrite Em in Hld).
    destruct (fetch_load u x1 s1 (spec_do k (Fetch junk u x) sp)) as (σ2 & r & x2 & E2 & Ho2 & Hx2 & Hpre & Hall & Hy); try done; [by apply Hacc | |].
    { unfold x1. simpl. rewrite En. unfold room in Hroom. rewrite Hobey, Hld in Hroom. simpl in Hroom.
      destruct (KNOB_MEM_OOO_STORES k); lia. }
    rewrite E2. cbn [mbind outcome_bind]. eexists. split; [done |]. split; [done |]. exists x2. split; [done |].
    split; [unfold base_sources; by rewrite <- Es |]. intros free _ _.
    assert (Heq : forall a y, in_conflict (uops s) (stores sp (thread_of x)) x a y <->
      in_conflict (uops s1) (stores (spec_do k (Fetch junk u x) sp) (thread_of x1)) x1 a y).
    { intros a y. unfold in_conflict. simpl. rewrite Hst, andb_false_r. simpl. change (mem x1) with (mem x).
      destruct (decide (a = u)) as [-> |]; [| by rewrite lookup_insert_ne].
      split; intros (_ & Hu & _); by apply Hnp in Hu. }
    assert (Hfree : forall num, free num -> ~ named (uops s1) x1 num).
    { intros num Hf0 (i & b & z & Hi & Hb & Hz & En'). apply Hf0. rewrite Es in Hi. destruct (decide (b = u)) as [-> | Hne].
      - exists i, u, x. rewrite lookup_insert_eq. rewrite Hx1 in Hz. injection Hz as <-. done.
      - exists i, b, z. rewrite lookup_insert_ne by done. simpl in Hz. by rewrite lookup_insert_ne in Hz. }
    split; [intros Hk a y Hay%Heq Hfr; by apply Hall, Hfree |]. destruct Hy as [Hz | (a & y & Hc & Hmax & Hw)].
    + left. intros a y Hay%Heq. by eapply Hz.
    + right. exists a, y. split; [by apply Heq |]. split; [intros a' y' Hay%Heq; by eapply Hmax |]. intros Hfr. by apply Hw, Hfree.
Qed.

(** [u] leaves the pending stores of its thread. *)
Lemma thread_ok_released σ σ' u x t w st d :
  thread_ok inv σ t w st d -> σ !! u = Some x -> (forall a, a <> u -> σ' !! a = σ !! a) -> thread_of x <> t ->
  thread_ok inv σ' t w (fun va b => if decide (st va b = Some u) then None else st va b) d.
Proof.
  intros Ht Hx Hs Hne. assert (Hno : forall va b, st va b <> Some u).
  { intros va b E. rewrite <- (to_slots _ _ _ _ _ _ Ht) in E. destruct (slot_pending _ _ _ _ _ _ (to_hash _ _ _ _ _ _ Ht) E) as (y & Hy & Hp & _).
    rewrite Hx in Hy. injection Hy as <-. by apply Hne, Hp. }
  apply (thread_ok_slots _ _ _ st); [intros va b; by rewrite decide_False |]. eapply thread_ok_store; [| exact Ht].
  intros va b a y Ha Hy. exists y. rewrite Hs; [done |]. intros ->. by apply Hno in Ha.
Qed.

Lemma release_store u x s sp (x0 : uop_s) :
  map_ok s sp -> uops s !! u = Some x -> mem x0 = mem x -> m_off_path x0 = m_off_path x -> thread_of x0 = thread_of x ->
  exists s1, delete_store_hash_entry k u (with_uops (<[u := x0]> (uops s)) s) = Done s1 /\ uops s1 = <[u := x0]> (uops s) /\
    map_ok s1 (spec_do k (Release u) sp).
Proof.
  intros Ho Hx Em Eo Et. set (σ0 := <[u := x0]> (uops s)). set (s0 := with_uops σ0 s).
  assert (Hx0 : uops s0 !! u = Some x0) by apply lookup_insert_eq.
  assert (Hframe : forall a, a <> u -> σ0 !! a = uops s !! a) by (intros a Ha; by apply lookup_insert_ne).
  assert (Hdom : forall a, is_Some (uops s !! a) -> is_Some (σ0 !! a)).
  { intros a Ha. apply lookup_insert_is_Some. destruct (decide (u = a)); eauto. }
  assert (Hother : forall t d, m_core_map_data s !! t = Some d -> t <> thread_of x ->
    thread_ok inv σ0 t (writers sp t) (stores (spec_do k (Release u) sp) t) d).
  { intros t d Hd Hne. eapply thread_ok_released; [by apply Ho | exact Hx | done | done]. }
  assert (Hnone : forall t, m_core_map_data s !! t = None ->
    writers sp t = [] /\ forall va b, stores (spec_do k (Release u) sp) t va b = None).
  { intros t Hd. destruct (mo_none _ _ Ho t Hd) as [? Hs]. split; [done |]. intros va b. simpl. by rewrite Hs. }
  destruct (m_core_map_data s !! thread_of x) as [d |] eqn:Hd.
  - pose proof (mo_thread _ _ Ho _ _ Hd) as Ht.
    destruct (delete_store_hash_entry_ok k u s0 x0 x d) as (h' & E & Hh & Hs); try done; [by rewrite Et | |].
    { rewrite Et. simpl. unfold σ0. rewrite insert_insert_eq, insert_id by done. apply Ht. }
    rewrite Et in E, Hh. eexists. split; [exact E |]. split; [done |]. split; simpl.
    + apply Hdom, Ho.
    + intros t d' Hd'. destruct (decide (t = thread_of x)) as [-> | Hne].
      * rewrite lookup_insert_eq in Hd'. injection Hd' as <-. destruct Ht as [H1 H2 H3 H4 K1 K2 H5 H6]. split; simpl; try done; [by destruct H1 | | |].
        -- intros va b. by rewrite Hs, H3.
        -- intros va b a y E' Hy. rewrite Hs in E'. case_decide as Hdd; [done |]. eapply H4; [exact E' |]. rewrite <- Hframe; [done |]. by intros ->.
        -- intros va b a y. case_decide as Hdd; [done |]. intros E' Hy. apply (K1 va b); [done |]. rewrite <- Hframe; [done |]. congruence.
      * rewrite lookup_insert_ne in Hd' by done. by apply Hother.
    + intros t Hd'. destruct (decide (t = thread_of x)) as [-> | Hne]; [by rewrite lookup_insert_eq in Hd' |].
      rewrite lookup_insert_ne in Hd' by done. by apply Hnone.
    + intros t e ids He. apply Hdom. by eapply mo_live.
  - exists s0. split.
    { unfold delete_store_hash_entry. rewrite Hdep, (get_s_live _ _ _ Hx0). cbn [mbind outcome_bind]. simpl. by rewrite Et, Hd. }
    split; [done |]. split; simpl; [apply Hdom, Ho | | done |].
    + intros t d Hd'. apply Hother; [done |]. by intros ->; rewrite Hd in Hd'.
    + intros t e ids He. apply Hdom. by eapply mo_live.
Qed.

Lemma release_ok u s sp :
  map_ok s sp -> map_allowed k inv (Release u) s sp -> exists s', free_uop k u s = Done s' /\ map_ok s' (spec_do k (Release u) sp).
Proof.
  intros Ho (Hui & x & Hx & Hv). unfold free_uop. rewrite (get_s_live _ _ _ Hx). cbn [mbind outcome_bind].
  set (x0 := with_valid false _).
  set (f := fun y : uop_s => with_base (set_id (num_of y) (-1) (base y)) y).
  assert (Hs1 : exists s1, (if is_mem_store (m_mem_type (base x)) then delete_store_hash_entry k u (with_uops (<[u := x0]> (uops s)) s)
      else mret (with_uops (<[u := x0]> (uops s)) s)) = Done s1 /\ uops s1 = <[u := x0]> (uops s) /\ map_ok s1 (spec_do k (Release u) sp)).
  { destruct (is_mem_store (m_mem_type (base x))) eqn:Hst; [by apply (release_store u x) |].
    assert (Hno : forall t va b, stores sp t va b <> Some u).
    { intros t va b E. destruct (stores_valid _ _ _ _ _ _ Ho E) as (y & Hy & Hp & _). rewrite Hx in Hy. injection Hy as <-.
      by rewrite (pd_store _ _ _ _ Hp) in Hst. }
    eexists. split; [done |]. split; [done |]. eapply map_ok_ext; [| | by apply map_ok_insert]; simpl; [done |].
    intros t va b. by rewrite decide_False. }
  destruct Hs1 as (s1 & -> & Eu & Ho1). cbn [mbind outcome_bind]. rewrite (upd_s_live f u _ x0) by (rewrite Eu; apply lookup_insert_eq).
  cbn [mbind outcome_bind]. eexists. split; [done |]. apply map_ok_insert; [done |]. intros t va b. simpl. case_decide; congruence.
Qed.

Lemma end_thread_ok t s sp : map_ok s sp -> map_ok (delete_map t s) (spec_do k (EndThread t) sp).
Proof.
  intros [H1 H2 H3 H4]. split; simpl; [done | | |].
  - intros t' d Hd. apply lookup_delete_Some in Hd as [Hne Hd]. rewrite decide_False by done.
    eapply thread_ok_slots; [| by apply H2]. intros va b. by rewrite decide_False.
  - intros t' Hd. case_decide as Ht; [done |]. rewrite lookup_delete_ne in Hd by done. by apply H3.
  - intros t'. case_decide; [| apply H4]. intros e ids He. by apply elem_of_nil in He.
Qed.

(** ** All histories *)

(** A core that starts: no thread has mapped anything. *)
Inductive map_reach : map_c -> map_spec -> Prop :=
| map_reach_new σ : is_Some (σ !! inv) -> map_reach (mk_map σ ∅) spec0
| map_reach_step s sp o s' : map_reach s sp -> map_allowed k inv o s sp -> map_do k inv o s = Done s' ->
    map_reach s' (spec_do k o sp).

Lemma map_do_ok o s sp : map_ok s sp -> map_allowed k inv o s sp -> exists s', map_do k inv o s = Done s' /\ map_ok s' (spec_do k o sp).
Proof.
  intros Ho Ha. destruct o as [junk u x | u | t]; simpl.
  - destruct (fetch_ok junk u x s sp Ho Ha) as (s' & E & Ho' & _). eauto.
  - by apply release_ok.
  - eexists. split; [done |]. by apply end_thread_ok.
Qed.
Lemma map_reach_ok s sp : map_reach s sp -> map_ok s sp.
Proof.
  induction 1 as [σ Hi | s sp o s' _ IH Ha E].
  - split; simpl; [done | | done |]; [intros t d Hd; by rewrite lookup_empty in Hd | intros t e ids He; by apply elem_of_nil in He].
  - destruct (map_do_ok o s sp IH Ha) as (s2 & E2 & Ho). rewrite E in E2. by injection E2 as <-.
Qed.
End SYSTEM.

(** ** Running a script *)

Definition reg_b (id : Z) : bool := (0 <=? id) && (id <? NUM_REG_IDS).
Definition fresh_b (k : map_knobs) (w : history) (x : uop_s) : bool :=
  m_valid x && negb (thread_of x =? -1) && (0 <=? num_of x) && (num_of x <? 2 ^ 32) &&
  forallb (fun p => e_uop_num p.1 <? num_of x) w &&
  Nat.eqb (length (m_map_src_info (deps x))) (Z.to_nat MAX_UOP_SRC_DEPS) &&
  (0 <=? m_num_srcs (deps x)) && (m_num_srcs (deps x) <=? Z.of_nat (length (m_src_info (deps x)))) &&
  (m_num_srcs (deps x) + room k x <=? MAX_UOP_SRC_DEPS) && forallb reg_b (src_regs x) &&
  (0 <=? m_num_dests (deps x)) && (m_num_dests (deps x) <=? Z.of_nat (length (m_dest_info (deps x)))) &&
  forallb reg_b (dest_regs x) &&
  (bool_decide (m_mem_type (base x) = NOT_MEM) ||
   (0 <=? m_vaddr (mem x)) && (0 <? m_mem_size (mem x)) && (m_vaddr (mem x) + m_mem_size (mem x) <? 2 ^ 64)).
Definition map_allowed_b (k : map_knobs) (inv : nat) (o : map_op) (s : map_c) (sp : map_spec) : bool :=
  match o with
  | Fetch junk u x =>
      negb (Nat.eqb u inv) && match uops s !! u with Some y => negb (m_valid y) | None => true end &&
      fresh_b k (writers sp (thread_of x)) x && Nat.eqb (length (mm_uop junk)) 8
  | Release u => negb (Nat.eqb u inv) && match uops s !! u with Some y => m_valid y | None => false end
  | EndThread _ => true
  end.

Lemma regs_b_ok l : forallb reg_b l = true -> Forall is_reg l.
Proof.
  rewrite forallb_forall, Forall_forall. intros H id Hid%list_elem_of_In. apply H, andb_true_iff in Hid as [H1 H2].
  split; lia.
Qed.
Lemma fresh_b_ok k w x : fresh_b k w x = true -> fresh_uop k w x.
Proof.
  unfold fresh_b. rewrite !andb_true_iff, !Z.leb_le, !Z.ltb_lt, Nat.eqb_eq, negb_true_iff, Z.eqb_neq, orb_true_iff, bool_decide_eq_true,
    !andb_true_iff, Z.leb_le, !Z.ltb_lt. intros (((((((((((((H1 & H2) & H3) & H4) & H5) & H6) & H7) & H8) & H9) & H10) & H11) & H12) & H13) & H14).
  split; try done; try lia; [| by apply regs_b_ok | by apply regs_b_ok | unfold proper_access; naive_solver].
  intros e ids He%list_elem_of_In. rewrite forallb_forall in H5. specialize (H5 _ He). simpl in H5. lia.
Qed.
Lemma map_allowed_b_ok k inv o s sp : map_allowed_b k inv o s sp = true -> map_allowed k inv o s sp.
Proof.
  destruct o as [junk u x | u | t]; simpl; [| | done].
  - rewrite !andb_true_iff, negb_true_iff, !Nat.eqb_eq, Nat.eqb_neq. intros (((H1 & H2) & H3) & H4). split; [done |]. split; [| split; [by apply fresh_b_ok | done]].
    intros y Hy. rewrite Hy in H2. by apply negb_true_iff.
  - rewrite andb_true_iff, negb_true_iff, Nat.eqb_neq. intros [H1 H2]. split; [done |]. destruct (uops s !! u) as [y |]; [eauto | done].
Qed.

Fixpoint map_run (k : map_knobs) (inv : nat) (ops : list map_op) (s : map_c) (sp : map_spec) : outcome (map_c * map_spec) :=
  match ops with
  | [] => mret (s, sp)
  | o :: ops' => _ ← ASSERT (map_allowed_b k inv o s sp); s' ← map_do k inv o s; map_run k inv ops' s' (spec_do k o sp)
  end.
Lemma map_run_reach k inv ops s sp s' sp' :
  map_reach k inv s sp -> map_run k inv ops s sp = Done (s', sp') -> map_reach k inv s' sp'.
Proof.
  revert s sp. induction ops as [| o ops IH]; intros s sp Hr H; simpl in H; [by apply done_pair in H as [-> ->] |].
  step H as [] Ha. step H as s1 H1. eapply IH; [| exact H]. eapply map_reach_step; [exact Hr | | done].
  apply map_allowed_b_ok. by eapply ASSERT_done.
Qed.

Module MapExample.
Definition k : map_knobs := mk_map_knobs false true false false.
Definition k_ooo : map_knobs := mk_map_knobs false true true false.
Definition junk : mem_map_entry_c := mk_mem_entry (replicate 8 None) 0.
Definition uop (num : Z) (mt : Mem_Type) (rs ds : list Z) (va size : Z) : uop_s :=
  mk_uop_s (mk_uop num 0 mt (UOP_OTHER 0) NOT_BAR NOT_CF 0 0 false 0 0 false false false false gen_ALLOCQ false)
    true false false false true false (100 + num) 0 false false 0
    (mk_deps (Z.of_nat (length rs)) rs (Z.of_nat (length ds)) ds (replicate 10 (mk_src REG_DATA_DEP None 0 0)) 0 false None false)
    (mk_umem va size 0 0 0 [] 0).
Definition invalid : uop_s := with_valid false (uop 0 NOT_MEM [] [] 0 0).
Definition s0 : map_c := mk_map {[0%nat := invalid]} ∅.
Lemma s0_reach k : map_reach k 0 s0 spec0.
Proof. apply map_reach_new. by exists invalid. Qed.

(** Two writers of register 5, the first freed and its object reused, and two
    stores to one quadword. *)
Definition script : list map_op :=
  [Fetch junk 1 (uop 0 NOT_MEM [] [5] 0 0); Fetch junk 2 (uop 1 NOT_MEM [5] [5; 6] 0 0); Release 1;
   Fetch junk 1 (uop 2 MEM_ST [6] [] 260 4); Fetch junk 3 (uop 3 MEM_ST [] [] 256 8)].
Definition load : uop_s := uop 4 MEM_LD [5; 7] [8] 260 2.
(** A store across the border of two quadwords, and a load of its second half. *)
Definition crossing : list map_op := [Fetch junk 1 (uop 0 MEM_ST [] [] 260 8); Fetch junk 2 (uop 1 MEM_LD [] [5] 264 4)].
(** The writer of the load's address register is freed and its object reused
    for the store the load reads from. *)
Definition recycled : list map_op :=
  [Fetch junk 1 (uop 0 NOT_MEM [] [5] 0 0); Release 1; Fetch junk 1 (uop 1 MEM_ST [] [] 256 8);
   Fetch junk 2 (uop 2 MEM_LD [5] [6] 256 4)].
(** The first micro-operation of the thread is a store, and the load reads a
    register nobody has written. *)
Definition first_store : list map_op :=
  [Fetch junk 1 (uop 0 MEM_ST [] [] 256 8); Fetch junk 2 (uop 1 MEM_LD [5] [6] 256 4)].
(** Two stores to one address, the older one wider, and a load of what only
    the older one wrote. *)
Definition overwritten : list map_op :=
  [Fetch junk 1 (uop 0 MEM_ST [] [] 256 8); Fetch junk 2 (uop 1 MEM_ST [] [] 256 4); Fetch junk 3 (uop 2 MEM_LD [] [6] 260 4)].
End MapExample.

(** ** Properties *)

(** C20: Take any history of a core in which objects are taken when they are
    not in use and freed when they are, and micro-operations are numbered in
    order within their thread, from zero on. Mapping the next one, with its
    registers and its access in range and at most two register sources if it is
    a load and stores are out of order, eight if stores are in order, and ten
    otherwise (what memory adds has to fit the ten slots), does not fault, and
    the sources it gets are the last writers of its source registers: whatever
    has been fetched, freed and recycled before, source [i] names the latest
    micro-operation of the thread that wrote register [i], by object and number,
    or the invalid one when the thread has not written it. *)
Theorem map_sources_are_last_writers k inv s sp junk u x :
  KNOB_IGNORE_DEP k = false -> KNOB_USE_NEW_ORACLE k = false -> map_reach k inv s sp ->
  map_allowed k inv (Fetch junk u x) s sp ->
  exists s' x', map_do k inv (Fetch junk u x) s = Done s' /\ uops s' !! u = Some x' /\
    forall i r, src_regs x !! i = Some r ->
      srcs x' !! i = Some (info_of REG_DATA_DEP (last_writer inv (writers sp (thread_of x)) r)).
Proof.
  intros Hk Hor Hr Ha. destruct (fetch_ok k inv Hk Hor junk u x s sp (map_reach_ok k inv Hk Hor s sp Hr) Ha)
    as (s' & E & _ & x' & Hx' & Hpre & _).
  exists s', x'. split; [done |]. split; [done |]. intros i r Hi. eapply prefix_lookup_Some; [| exact Hpre].
  unfold base_sources. rewrite lookup_app_l by (rewrite length_fmap; by eapply lookup_lt_Some). by rewrite list_lookup_fmap, Hi.
Qed.

Lemma map_sources_are_last_writers_witness :
  exists s sp s' x', map_run MapExample.k 0 MapExample.script MapExample.s0 spec0 = Done (s, sp) /\
    map_do MapExample.k 0 (Fetch MapExample.junk 4 MapExample.load) s = Done s' /\ uops s' !! 4%nat = Some x' /\
    srcs x' !! 0%nat = Some (mk_src REG_DATA_DEP (Some 2%nat) 1 101) /\
    srcs x' !! 1%nat = Some (mk_src REG_DATA_DEP (Some 0%nat) 0 0).
Proof.
  destruct (map_run MapExample.k 0 MapExample.script MapExample.s0 spec0) as [[s sp] |] eqn:E; [| vm_compute in E; discriminate E].
  assert (Hb : map_allowed_b MapExample.k 0 (Fetch MapExample.junk 4 MapExample.load) s sp = true /\
    last_writer 0 (writers sp 0) 5 = mk_entry 2 1 101 /\ last_writer 0 (writers sp 0) 7 = mk_entry 0 0 0).
  { vm_compute in E. injection E as <- <-. by vm_compute. }
  destruct Hb as (Hb & E5 & E7).
  destruct (map_sources_are_last_writers MapExample.k 0 s sp MapExample.junk 4 MapExample.load eq_refl eq_refl
    (map_run_reach _ _ _ _ _ _ _ (MapExample.s0_reach _) E) (map_allowed_b_ok _ _ _ _ _ Hb)) as (s' & x' & H1 & H2 & H3).
  exists s, sp, s', x'. split; [reflexivity |]. split; [exact H1 |]. split; [exact H2 |]. clear E.
  change (thread_of MapExample.load) with 0 in H3.
  split; [rewrite (H3 0%nat 5 eq_refl), E5 | rewrite (H3 1%nat 7 eq_refl), E7]; reflexivity.
Defined.

(** The store recorded for an address of a thread. *)
Definition pending_store (s : map_c) (t va : Z) (b : bool) : option nat :=
  match m_core_map_data s !! t with Some d => slot (m_oracle_mem_hash d) va b | None => None end.

(** C22: For any history as in the claim on the sources, numbers from zero on
    included, the table of pending stores, quadword entries with byte masks over
    recycled objects, is a map from address and path to the last store fetched
    there, as long as that store has not been freed; what it holds are valid
    stores of the thread to that address; and no further operation of such a
    history (fetching a micro-operation whose sources fit the slots, freeing one
    in use, ending a thread) faults. *)
Theorem map_store_table_refines k inv s sp :
  KNOB_IGNORE_DEP k = false -> KNOB_USE_NEW_ORACLE k = false -> map_reach k inv s sp ->
  (forall t va b, pending_store s t va b = stores sp t va b) /\
  (forall t va b a, pending_store s t va b = Some a ->
     exists y, uops s !! a = Some y /\ m_valid y = true /\ is_mem_store (m_mem_type (base y)) = true /\
       thread_of y = t /\ m_vaddr (mem y) = va /\ m_off_path y = b) /\
  (forall o, map_allowed k inv o s sp -> exists s', map_do k inv o s = Done s').
Proof.
  intros Hk Hor Hr. pose proof (map_reach_ok k inv Hk Hor s sp Hr) as Ho.
  assert (Hp : forall t va b, pending_store s t va b = stores sp t va b).
  { intros t va b. unfold pending_store. destruct (m_core_map_data s !! t) as [d |] eqn:Hd.
    - apply (to_slots _ _ _ _ _ _ (mo_thread _ _ _ Ho t d Hd)).
    - by rewrite (proj2 (mo_none _ _ _ Ho t Hd)). }
  split; [done |]. split.
  - intros t va b a Ha. rewrite Hp in Ha. destruct (stores_valid _ _ _ _ _ _ _ Ho Ha) as (y & Hy & [] & ? & ?). by exists y.
  - intros o Hal. destruct (map_do_ok k inv Hk Hor o s sp Ho Hal) as (s' & ? & _). eauto.
Qed.

Lemma map_store_table_refines_witness :
  exists s sp, map_run MapExample.k 0 MapExample.script MapExample.s0 spec0 = Done (s, sp) /\
    pending_store s 0 260 false = Some 1%nat /\ pending_store s 0 256 false = Some 3%nat /\ pending_store s 0 261 false = None.
Proof.
  destruct (map_run MapExample.k 0 MapExample.script MapExample.s0 spec0) as [[s sp] |] eqn:E; [| vm_compute in E; discriminate E].
  assert (Hs : stores sp 0 260 false = Some 1%nat /\ stores sp 0 256 false = Some 3%nat /\ stores sp 0 261 false = None).
  { vm_compute in E. injection E as <- <-. by vm_compute. }
  destruct (map_store_table_refines MapExample.k 0 s sp eq_refl eq_refl (map_run_reach _ _ _ _ _ _ _ (MapExample.s0_reach _) E)) as [Hp _].
  exists s, sp. rewrite !Hp. split; [reflexivity | exact Hs].
Defined.

Definition number_taken_b (σ : uop_store) (l : list src_info_c) (num : Z) : bool :=
  existsb (fun i => match si_uop i ≫= (σ !!.) with Some z => num_of z =? num | None => false end) l.
Lemma number_free σ l num : number_taken_b σ l num = false -> ~ number_taken σ l num.
Proof.
  intros Hb (i & b & z & Hi & Hs & Hz & En). rewrite <- not_true_iff_false in Hb. apply Hb. apply existsb_exists.
  exists i. split; [by apply list_elem_of_In |]. rewrite Hs. simpl. rewrite Hz. by apply Z.eqb_eq.
Qed.



(** the last store is never recorded: in every reachable state the entry
    for it holds the invalid micro-operation, so the address dependence that
    memory operations get when stores are in order orders nothing. *)
Theorem last_store_never_recorded k inv s sp t d :
  KNOB_IGNORE_DEP k = false -> KNOB_USE_NEW_ORACLE k = false -> map_reach k inv s sp -> m_core_map_data s !! t = Some d ->
  m_last_store d = replicate 2 (invalid_entry inv) /\ m_last_store_flag d = false.
Proof. intros Hk Hor Hr Hd. destruct (mo_thread _ _ _ (map_reach_ok k inv Hk Hor s sp Hr) t d Hd). done. Qed.

Lemma last_store_never_recorded_witness :
  exists s sp d, map_run MapExample.k 0 MapExample.script MapExample.s0 spec0 = Done (s, sp) /\ m_core_map_data s !! 0 = Some d /\
    m_last_store d = [mk_entry 0 0 0; mk_entry 0 0 0].
Proof.
  destruct (map_run MapExample.k 0 MapExample.script MapExample.s0 spec0) as [[s sp] |] eqn:E; [| vm_compute in E; discriminate E].
  destruct (m_core_map_data s !! 0) as [d |] eqn:Ed; [| vm_compute in E; injection E as <- <-; vm_compute in Ed; done].
  exists s, sp, d. split; [reflexivity |]. split; [exact Ed |].
  exact (proj1 (last_store_never_recorded MapExample.k 0 s sp 0 d eq_refl eq_refl (map_run_reach _ _ _ _ _ _ _ (MapExample.s0_reach _) E) Ed)).
Defined.

(** A store that crosses into the next quadword is not seen by a load there. *)
Theorem crossing_store_missed :
  exists s sp x, map_run MapExample.k_ooo 0 MapExample.crossing MapExample.s0 spec0 = Done (s, sp) /\ uops s !! 2%nat = Some x /\
    BYTE_OVERLAP 260 8 (m_vaddr (mem x)) (m_mem_size (mem x)) = true /\ srcs x = [].
Proof.
  destruct (map_run MapExample.k_ooo 0 MapExample.crossing MapExample.s0 spec0) as [[s sp] |] eqn:E; [| vm_compute in E; discriminate E].
  destruct (uops s !! 2%nat) as [x |] eqn:Ex; [| vm_compute in E; injection E as <- <-; vm_compute in Ex; discriminate Ex].
  exists s, sp, x. split; [reflexivity |]. split; [exact Ex |]. vm_compute in E. injection E as <- <-. vm_compute in Ex. injection Ex as <-.
  split; vm_compute; reflexivity.
Qed.

(** When the object of a register source carries the number of the store, no
    dependence on the store is recorded: the writer of the address register has
    been freed and its object reused for the store, or the store is number zero
    and a register has no writer. The source that stands for the store has
    another number than its object, or is the invalid micro-operation. *)
Theorem taken_number_hides_store :
  (exists s sp x, map_run MapExample.k_ooo 0 MapExample.recycled MapExample.s0 spec0 = Done (s, sp) /\ uops s !! 2%nat = Some x /\
     stores sp 0 256 false = Some 1%nat /\ srcs x = [mk_src REG_DATA_DEP (Some 1%nat) 0 100]) /\
  exists s sp x, map_run MapExample.k_ooo 0 MapExample.first_store MapExample.s0 spec0 = Done (s, sp) /\ uops s !! 2%nat = Some x /\
     stores sp 0 256 false = Some 1%nat /\ srcs x = [mk_src REG_DATA_DEP (Some 0%nat) 0 0].
Proof.
  split.
  - destruct (map_run MapExample.k_ooo 0 MapExample.recycled MapExample.s0 spec0) as [[s sp] |] eqn:E; [| vm_compute in E; discriminate E].
    destruct (uops s !! 2%nat) as [x |] eqn:Ex; [| vm_compute in E; injection E as <- <-; vm_compute in Ex; discriminate Ex].
    exists s, sp, x. split; [reflexivity |]. split; [exact Ex |]. vm_compute in E. injection E as <- <-. vm_compute in Ex. injection Ex as <-.
    split; vm_compute; reflexivity.
  - destruct (map_run MapExample.k_ooo 0 MapExample.first_store MapExample.s0 spec0) as [[s sp] |] eqn:E; [| vm_compute in E; discriminate E].
    destruct (uops s !! 2%nat) as [x |] eqn:Ex; [| vm_compute in E; injection E as <- <-; vm_compute in Ex; discriminate Ex].
    exists s, sp, x. split; [reflexivity |]. split; [exact Ex |]. vm_compute in E. injection E as <- <-. vm_compute in Ex. injection Ex as <-.
    split; vm_compute; reflexivity.
Qed.

(** A pending store whose address a narrower one has been fetched for is not
    seen by a load of the rest of its bytes. *)
Theorem overwritten_store_missed :
  exists s sp x y, map_run MapExample.k_ooo 0 MapExample.overwritten MapExample.s0 spec0 = Done (s, sp) /\
    uops s !! 3%nat = Some x /\ uops s !! 1%nat = Some y /\ m_valid y = true /\
    BYTE_OVERLAP (m_vaddr (mem y)) (m_mem_size (mem y)) (m_vaddr (mem x)) (m_mem_size (mem x)) = true /\ srcs x = [].
Proof.
  destruct (map_run MapExample.k_ooo 0 MapExample.overwritten MapExample.s0 spec0) as [[s sp] |] eqn:E; [| vm_compute in E; discriminate E].
  destruct (uops s !! 3%nat) as [x |] eqn:Ex; [| vm_compute in E; injection E as <- <-; vm_compute in Ex; discriminate Ex].
  destruct (uops s !! 1%nat) as [y |] eqn:Ey; [| vm_compute in E; injection E as <- <-; vm_compute in Ey; discriminate Ey].
  exists s, sp, x, y. split; [reflexivity |]. split; [exact Ex |]. split; [exact Ey |].
  vm_compute in E. injection E as <- <-. vm_compute in Ex, Ey. injection Ex as <-. injection Ey as <-. split_and!; vm_compute; reflexivity.
Qed.
