(* ===== verification/Exec.v ===== *)
(** * Execution (exec.cc, exec.h)

    [exec] starts a micro-operation: it asks the memory for a memory operation,
    possibly once per child, uses a port, handles fences and branches and sets
    the cycle in which the result is ready. The memories a request can go to and
    the branch predictors are interfaces; the wake-ups of the front end are a
    list of events. The core is a CPU core, with one reorder buffer. *)

From S2P Require Import Prelude.
From S2P Require Import Utils.
From S2P Require Import Rob.
From S2P Require Import Uops.

Import Rob.

(** What answers a memory operation: 0 it cannot be taken, -1 it misses,
    otherwise the latency of a hit. It sees the micro-operations. *)
Class MemoryPath (M : Type) := {
  data_access : uop_store -> nat -> M -> outcome (M * Z);
  shared_load : uop_store -> nat -> M -> outcome (M * Z);
  const_load : uop_store -> nat -> M -> outcome (M * Z);
  texture_load : uop_store -> nat -> M -> outcome (M * Z);
  fence_pref : uop_store -> nat -> M -> outcome M
}.

(** The direction predictor and the target predictor. *)
Class Predictor (B : Type) := {
  bp_update : uop_s -> B -> outcome B;
  bp_recover : uop_s -> B -> outcome B;
  targ_update : uop_s -> B -> outcome B
}.

Inductive front_event := SetLoadWait (thread num : Z) | SetBrReady (thread : Z).

Record exec_knobs := mk_exec_knobs {
  m_max_port : list Z;
  m_latency : Uop_Type -> Z;
  m_acc_sim : bool;
  KNOB_PERFECT_DCACHE : bool;
  KNOB_ONE_CYCLE_EXEC : bool;
  KNOB_FETCH_ONLY_LOAD_READY : bool;
  KNOB_FENCE_ENABLE : bool;
  KNOB_ACQ_REL : bool;
  KNOB_USE_WB : bool;
  KNOB_EXEC_RETIRE_LATENCY : Z;
  KNOB_EXTRA_RECOVERY_CYCLES : Z;
  KNOB_MT_NO_FETCH_BR : bool
}.

Record exec_c (M B : Type) := mk_exec {
  x_uops : uop_store;
  x_rob : rob_c;
  m_port_used : list Z;
  x_mem : M;
  x_bp : B;
  m_bp_recovery_cycle : gmap Z Z;
  m_bp_redirect_cycle : gmap Z Z;
  m_bp_cause_op : gmap Z Z;
  x_events : list front_event
}.
Arguments mk_exec {M B}.
Arguments x_uops {M B}.
Arguments x_rob {M B}.
Arguments m_port_used {M B}.
Arguments x_mem {M B}.
Arguments x_bp {M B}.
Arguments m_bp_recovery_cycle {M B}.
Arguments m_bp_redirect_cycle {M B}.
Arguments m_bp_cause_op {M B}.
Arguments x_events {M B}.

Definition q_index (q : ALLOCQ) : Z := match q with gen_ALLOCQ => 0 | mem_ALLOCQ => 1 | fp_ALLOCQ => 2 | simd_ALLOCQ => 3 end.
Definition max_ALLOCQ : nat := 4.

Definition CLEAR_BIT (val pos : Z) : Z := Z.land val (lnot64 (shl64 1 pos)).

Section EXEC.
Context {M B : Type} `{!MemoryPath M} `{!Predictor B}.
Context (k : exec_knobs) (now : Z).
Abbreviation state := (exec_c M B).

Definition with_xuops (σ : uop_store) (s : state) : state :=
  mk_exec σ (x_rob s) (m_port_used s) (x_mem s) (x_bp s) (m_bp_recovery_cycle s) (m_bp_redirect_cycle s) (m_bp_cause_op s) (x_events s).
Definition with_xrob (r : rob_c) (s : state) : state :=
  mk_exec (x_uops s) r (m_port_used s) (x_mem s) (x_bp s) (m_bp_recovery_cycle s) (m_bp_redirect_cycle s) (m_bp_cause_op s) (x_events s).
Definition with_used (l : list Z) (s : state) : state :=
  mk_exec (x_uops s) (x_rob s) l (x_mem s) (x_bp s) (m_bp_recovery_cycle s) (m_bp_redirect_cycle s) (m_bp_cause_op s) (x_events s).
Definition with_xmem (m : M) (s : state) : state :=
  mk_exec (x_uops s) (x_rob s) (m_port_used s) m (x_bp s) (m_bp_recovery_cycle s) (m_bp_redirect_cycle s) (m_bp_cause_op s) (x_events s).
Definition with_bp (b : B) (rec red cause : gmap Z Z) (s : state) : state :=
  mk_exec (x_uops s) (x_rob s) (m_port_used s) (x_mem s) b rec red cause (x_events s).
Definition emit (e : front_event) (s : state) : state :=
  mk_exec (x_uops s) (x_rob s) (m_port_used s) (x_mem s) (x_bp s) (m_bp_recovery_cycle s) (m_bp_redirect_cycle s) (m_bp_cause_op s)
    (x_events s ++ [e]).
Definition upd_uop (f : uop_s -> uop_s) (u : nat) (s : state) : outcome state :=
  σ ← upd_s f u (x_uops s); mret (with_xuops σ s).

(** ** Ports *)

Definition clear_ports (s : state) : state := with_used (replicate max_ALLOCQ 0) s.
Definition get_latency (t : Uop_Type) : Z := if KNOB_ONE_CYCLE_EXEC k then 1 else m_latency k t.
Definition port_available (q : ALLOCQ) (s : state) : outcome bool :=
  used ← aget (m_port_used s) (q_index q); max ← aget (m_max_port k) (q_index q); mret (used <? max).
Definition use_port (entry : Z) (s : state) : outcome state :=
  p ← aget (m_rob (x_rob s)) entry;
  u ← get_or NullDeref p;
  x ← get_s u (x_uops s);
  if m_bogus x then mret s else
  used ← aget (m_port_used s) (q_index (m_allocq_num (base x)));
  l ← aset (m_port_used s) (q_index (m_allocq_num (base x))) (used + 1);
  mret (with_used l s).

(** ** Memory operations *)

(** The memory a request of type [t] goes to. *)
Definition memory_request (t : Mem_Type) : uop_store -> nat -> M -> outcome (M * Z) :=
  match t with
  | MEM_LD_SM | MEM_ST_SM => shared_load
  | MEM_LD_CM => const_load
  | MEM_LD_TM => texture_load
  | _ => data_access
  end.
Definition is_shared (t : Mem_Type) : bool := match t with MEM_LD_SM | MEM_ST_SM => true | _ => false end.

Definition set_mem_start (c : Z) (x : uop_s) : uop_s :=
  with_mem (with_children c (m_num_child_uops_done (mem x)) (m_pending_child_uops (mem x)) (mem x)) x.

Definition exec_single (u : nat) (s : state) : outcome (state * Z) :=
  x ← get_s u (x_uops s);
  '(m, latency) ← memory_request (m_mem_type (base x)) (x_uops s) u (x_mem s);
  let s1 := with_xmem m s in
  if latency =? 0 then mret (s1, latency) else s2 ← upd_uop (set_mem_start now) u s1; mret (s2, latency).

(** The answer to one child: a refused one stays pending, a hit counts as done. *)
Definition child_answer (latency bit : Z) (x : uop_s) : uop_s :=
  if latency =? 0 then x else
  let start := if is_shared (m_mem_type (base x)) || (m_mem_start_cycle (mem x) =? 0) then now else m_mem_start_cycle (mem x) in
  with_mem (with_children start (if 0 <? latency then m_num_child_uops_done (mem x) + 1 else m_num_child_uops_done (mem x))
              (CLEAR_BIT (m_pending_child_uops (mem x)) bit) (mem x)) x.

(** [while (-1 != next_set_bit)]: the bits grow, so there are at most 64 turns. *)
Fixpoint child_loop (fuel : nat) (u : nat) (next_set_bit max_latency : Z) (s : state) : outcome (state * Z) :=
  match fuel with
  | O => Fault Diverged
  | S fuel' =>
      if next_set_bit =? -1 then mret (s, max_latency) else
      x ← get_s u (x_uops s);
      c ← aget (m_child_uops (mem x)) next_set_bit;
      '(m, latency) ← memory_request (m_mem_type (base x)) (x_uops s) c (x_mem s);
      s1 ← upd_uop (child_answer latency next_set_bit) u (with_xmem m s);
      x1 ← get_s u (x_uops s1);
      child_loop fuel' u (Bits.get_next_set_bit64 (m_pending_child_uops (mem x1)) (next_set_bit + 1))
        (if 0 <? latency then Z.max latency max_latency else max_latency) s1
  end.

Definition child_turns : nat := 65.
Definition exec_children (u : nat) (s : state) : outcome (state * Z) :=
  x ← get_s u (x_uops s);
  '(s1, max_latency) ← child_loop child_turns u (Bits.get_next_set_bit64 (m_pending_child_uops (mem x)) 0) 0 s;
  x1 ← get_s u (x_uops s1);
  mret (s1, if negb (m_pending_child_uops (mem x1) =? 0) then 0
            else if m_num_child_uops (mem x1) =? m_num_child_uops_done (mem x1) then max_latency else -1).

Definition exec_memory (entry : Z) (u : nat) (s : state) : outcome (state * Z) :=
  if KNOB_PERFECT_DCACHE k then mret (s, 1) else
  x ← get_s u (x_uops s);
  '(s1, latency) ← (if m_num_child_uops (mem x) =? 0 then exec_single u s else exec_children u s);
  if latency =? 0 then mret (s1, 0) else
  s2 ← use_port entry s1;
  mret (if (latency =? -1) && m_acc_sim k && KNOB_FETCH_ONLY_LOAD_READY k
        then emit (SetLoadWait (thread_of x) (num_of x)) s2 else s2, latency).

(** ** Other operations *)

Definition fence_kind (t : Uop_Type) : Fence.fence_type :=
  match t with UOP_REL_FENCE => Fence.FENCE_RELEASE | UOP_ACQ_FENCE => Fence.FENCE_ACQUIRE | _ => Fence.FENCE_FULL end.

(** A full fence waits for the older memory operations; 0 is a failure. *)
Definition exec_fence (entry : Z) (t : Uop_Type) (s : state) : outcome (state * Z) :=
  if negb (KNOB_FENCE_ENABLE k) then mret (s, 1) else
  if KNOB_ACQ_REL k then mret (with_xrob (rob_ins_fence_entry entry (fence_kind t) (x_rob s)) s, 1) else
  let s1 := with_xrob (rob_ins_fence_entry entry Fence.FENCE_FULL (x_rob s)) s in
  pend ← pending_mem_ops (KNOB_USE_WB k) entry (x_rob s1) (bases (x_uops s1));
  mret (s1, if pend : bool then 0 else 1).

Definition exec_compute (entry : Z) (u : nat) (s : state) : outcome (state * Z) :=
  x ← get_s u (x_uops s);
  s1 ← use_port entry s;
  if is_any_fence (base x) then exec_fence entry (m_uop_type (base x)) s1
  else mret (s1, get_latency (m_uop_type (base x))).

(** ** Branches *)

Definition br_exec (u : nat) (s : state) : outcome state :=
  x ← get_s u (x_uops s);
  b1 ← match m_cf_type (base x) with CF_CBR => bp_update x (x_bp s) | _ => mret (x_bp s) end;
  let s1 := with_bp b1 (m_bp_recovery_cycle s) (m_bp_redirect_cycle s) (m_bp_cause_op s) s in
  let when := u64 (now + 1 + KNOB_EXTRA_RECOVERY_CYCLES k) in
  s2 ← (if m_mispredicted x then
          b2 ← bp_recover x (x_bp s1);
          mret (with_bp b2 (<[thread_of x := when]> (m_bp_recovery_cycle s1)) (m_bp_redirect_cycle s1)
                  (<[thread_of x := 0]> (m_bp_cause_op s1)) s1)
        else mret s1);
  s3 ← (if m_btb_miss (base x) && negb (m_btb_miss_resolved (base x)) then
          b3 ← targ_update x (x_bp s2);
          upd_uop (fun y => with_base (set_resolved (base y)) y) u
            (with_bp b3 (m_bp_recovery_cycle s2) (<[thread_of x := when]> (m_bp_redirect_cycle s2)) (m_bp_cause_op s2) s2)
        else mret s2);
  mret (if m_acc_sim k && KNOB_MT_NO_FETCH_BR k then emit (SetBrReady (thread_of x)) s3 else s3).

(** ** The whole function *)

Definition set_times (latency : Z) (x : uop_s) : uop_s :=
  let x1 := with_sched_cycle now x in
  if 0 <? latency then with_done (u64 (now + Z.max latency (KNOB_EXEC_RETIRE_LATENCY k))) x1 else x1.

Definition exec (entry : Z) (u : nat) (s : state) : outcome (state * bool) :=
  s1 ← upd_uop (fun x => if m_sched_cycle (base x) =? 0 then with_sched_cycle now x else x) u s;
  x ← get_s u (x_uops s1);
  let is_memory := negb (bool_decide (m_mem_type (base x) = NOT_MEM)) in
  '(s2, latency) ← (if is_memory then exec_memory entry u s1 else exec_compute entry u s1);
  if (latency =? 0) && (is_memory || is_any_fence (base x)) then mret (s2, false) else
  s3 ← upd_uop (set_times latency) u s2;
  _ ← ASSERT (negb (latency =? 0));
  s4 ← (if bool_decide (m_cf_type (base x) = NOT_CF) then mret s3 else br_exec u s3);
  s5 ← upd_uop (with_exec_cycle now) u s4;
  mret (s5, true).

(** ** Children: the loop over the mask is a pass over its bits *)

(** The pending children, lowest first. *)
Definition bits (mask : Z) : list Z := filter (fun b => Z.testbit mask b = true) (seqZ 0 64).

(** Offer the children at the bits [l] one after the other. *)
Fixpoint offer (l : list Z) (u : nat) (max_latency : Z) (s : state) : outcome (state * Z) :=
  match l with
  | [] => mret (s, max_latency)
  | b :: l' =>
      x ← get_s u (x_uops s);
      c ← aget (m_child_uops (mem x)) b;
      '(m, latency) ← memory_request (m_mem_type (base x)) (x_uops s) c (x_mem s);
      s1 ← upd_uop (child_answer latency b) u (with_xmem m s);
      offer l' u (if 0 <? latency then Z.max latency max_latency else max_latency) s1
  end.
End EXEC.

Lemma get_next_set_bit64_spec val pos : 0 <= pos <= 64 ->
  let r := Bits.get_next_set_bit64 val pos in
  (r = -1 /\ forall i, pos <= i < 64 -> Z.testbit val i = false) \/
  (pos <= r < 64 /\ Z.testbit val r = true /\ forall i, pos <= i < r -> Z.testbit val i = false).
Proof.
  intros Hp. simpl. unfold Bits.get_next_set_bit64.
  destruct (Bits.next_set_bit_loop_spec (Z.to_nat (64 - pos)) (Z.shiftr val pos) pos ltac:(lia)) as [[-> Hz] | (Hr & Hb & Hz)]; [left | right].
  - split; [done |]. intros i Hi. specialize (Hz (i - pos) ltac:(lia)). rewrite Z.shiftr_spec in Hz by lia. by rewrite Z.sub_add in Hz.
  - rewrite Z.shiftr_spec in Hb by lia. rewrite Z.sub_add in Hb. split_and!; [lia | lia | done |]. intros i Hi.
    specialize (Hz (i - pos) ltac:(lia)). rewrite Z.shiftr_spec in Hz by lia. by rewrite Z.sub_add in Hz.
Qed.

Lemma CLEAR_BIT_spec val pos n : 0 <= pos < 64 -> 0 <= n < 64 -> Z.testbit (CLEAR_BIT val pos) n = Z.testbit val n && negb (pos =? n).
Proof.
  intros Hp Hn. unfold CLEAR_BIT, shl64. rewrite u64_small.
  - rewrite Z.land_spec, lnot64_testbit by lia. rewrite (proj2 (Z.leb_le 0 n)), (proj2 (Z.ltb_lt n 64)) by lia.
    by rewrite Z.shiftl_1_l, Z.pow2_bits_eqb by lia.
  - unfold is_u64. rewrite Z.shiftl_1_l. split; [lia |]. apply Z.pow_lt_mono_r; lia.
Qed.

(** The bits from [pos] on. *)
Definition bits_from (mask pos : Z) : list Z := filter (fun b => Z.testbit mask b = true) (seqZ pos (64 - pos)).

Lemma bits_from_none mask pos : (forall i, pos <= i < 64 -> Z.testbit mask i = false) -> bits_from mask pos = [].
Proof. intros H. apply filter_none. intros i Hi. apply elem_of_seqZ in Hi. rewrite H by lia. done. Qed.
Lemma bits_from_next mask pos r : pos <= r < 64 -> Z.testbit mask r = true -> (forall i, pos <= i < r -> Z.testbit mask i = false) ->
  bits_from mask pos = r :: bits_from mask (r + 1).
Proof.
  intros Hr Hb Hz. unfold bits_from. replace (64 - pos) with ((r - pos) + (64 - r)) by lia. rewrite seqZ_app by lia.
  rewrite filter_app. rewrite (filter_none _ (seqZ pos (r - pos))).
  2: { intros i Hi. apply elem_of_seqZ in Hi. rewrite Hz by lia. done. }
  replace (pos + (r - pos)) with r by lia. rewrite seqZ_cons by lia. simpl. rewrite filter_cons_True by done.
  by replace (Z.pred (64 - r)) with (64 - (r + 1)) by lia.
Qed.
Lemma bits_from_ext m m' pos : (forall i, pos <= i < 64 -> Z.testbit m i = Z.testbit m' i) -> bits_from m pos = bits_from m' pos.
Proof. intros H. apply filter_ext_in. intros i Hi. apply elem_of_seqZ in Hi. by rewrite H by lia. Qed.

Section CHILDREN.
Context {M B : Type} `{!MemoryPath M} `{!Predictor B}.
Context (now : Z).

Lemma upd_uop_done f u (s s' : exec_c M B) : upd_uop f u s = Done s' ->
  exists x, x_uops s !! u = Some x /\ s' = with_xuops (<[u := f x]> (x_uops s)) s.
Proof.
  unfold upd_uop. intros H. step H as σ Hσ. apply upd_s_done in Hσ as (x & Hx & ->). apply done_val in H as ->. eauto.
Qed.
Lemma upd_uop_live f u (s : exec_c M B) x : x_uops s !! u = Some x -> upd_uop f u s = Done (with_xuops (<[u := f x]> (x_uops s)) s).
Proof. intros H. unfold upd_uop. by rewrite (upd_s_live _ _ _ _ H). Qed.

Lemma child_answer_pending latency b x n : 0 <= b < 64 -> 0 <= n < 64 ->
  Z.testbit (m_pending_child_uops (mem (child_answer now latency b x))) n =
    Z.testbit (m_pending_child_uops (mem x)) n && negb (negb (latency =? 0) && (b =? n)).
Proof.
  intros Hb Hn. unfold child_answer. destruct (latency =? 0); simpl; [by rewrite andb_true_r |]. by rewrite CLEAR_BIT_spec.
Qed.

(** The loop does what offering the remaining bits one by one does. *)
Lemma child_loop_offer fuel : forall pos u maxl (s : exec_c M B) x,
  x_uops s !! u = Some x -> 0 <= pos <= 64 -> (Z.to_nat (64 - pos) < fuel)%nat ->
  child_loop now fuel u (Bits.get_next_set_bit64 (m_pending_child_uops (mem x)) pos) maxl s =
    offer now (bits_from (m_pending_child_uops (mem x)) pos) u maxl s.
Proof.
  induction fuel as [| fuel IH]; intros pos u maxl s x Hx Hp Hf; [lia |]. cbn [child_loop].
  set (p := m_pending_child_uops (mem x)). destruct (get_next_set_bit64_spec p pos Hp) as [[-> Hz] | (Hr & Hb & Hz)].
  { rewrite bits_from_none by done. done. }
  set (r := Bits.get_next_set_bit64 p pos) in *. rewrite (bits_from_next p pos r) by done.
  rewrite (proj2 (Z.eqb_neq r (-1))) by lia. cbn [offer]. rewrite (get_s_live _ _ _ Hx). cbn [mbind outcome_bind].
  destruct (aget (m_child_uops (mem x)) r) as [c |]; [cbn [mbind outcome_bind] | done].
  destruct (memory_request _ _ _ _) as [[m latency] |]; [cbn [mbind outcome_bind] | done].
  rewrite (upd_uop_live _ _ (with_xmem m s) x) by done. cbn [mbind outcome_bind]. set (x1 := child_answer now latency r x).
  set (s1 := with_xuops _ _). assert (Hx1 : x_uops s1 !! u = Some x1) by apply lookup_insert_eq.
  rewrite (get_s_live _ _ _ Hx1). cbn [mbind outcome_bind]. rewrite (IH (r + 1) u _ s1 x1 Hx1) by lia. f_equal.
  apply bits_from_ext. intros i Hi. subst x1. rewrite child_answer_pending by lia. rewrite (proj2 (Z.eqb_neq r i)) by lia.
  by rewrite andb_false_r, andb_true_r.
Qed.

(** Everything but the memory fields of [u]. *)
Definition same_but_mem (u : nat) (s s' : exec_c M B) : Prop :=
  exists x d m, x_uops s !! u = Some x /\ s' = with_xmem m (with_xuops (<[u := with_mem d x]> (x_uops s)) s) /\
    m_vaddr d = m_vaddr (mem x) /\ m_mem_size d = m_mem_size (mem x) /\ m_child_uops d = m_child_uops (mem x) /\
    m_num_child_uops d = m_num_child_uops (mem x).

(** What the answers to the bits [l] do to the counts. *)
Definition answered (l answers : list Z) (x x' : uop_s) : Prop :=
  length answers = length l /\
  (forall n, 0 <= n < 64 -> Z.testbit (m_pending_child_uops (mem x')) n =
     Z.testbit (m_pending_child_uops (mem x)) n && negb (existsb (fun p => (p.1 =? n) && negb (p.2 =? 0)) (zip l answers))) /\
  (forall n, 64 <= n -> Z.testbit (m_pending_child_uops (mem x)) n = false -> Z.testbit (m_pending_child_uops (mem x')) n = false) /\
  m_num_child_uops_done (mem x') = m_num_child_uops_done (mem x) + countb (fun a => 0 <? a) answers /\
  m_num_child_uops (mem x') = m_num_child_uops (mem x).

(** The greatest latency of a hit, or the one before. *)
Definition slowest (maxl : Z) (answers : list Z) : Z := foldl (fun m a => if 0 <? a then Z.max a m else m) maxl answers.

(** The children of the bits [l] are offered one after the other, each to the memory
    as the one before left it, and the memory gives the answers. *)
Inductive offered (u : nat) : list Z -> list Z -> exec_c M B -> exec_c M B -> Prop :=
  | offered_none s : offered u [] [] s s
  | offered_next b l a answers s x c m s' :
      x_uops s !! u = Some x -> aget (m_child_uops (mem x)) b = Done c ->
      memory_request (m_mem_type (base x)) (x_uops s) c (x_mem s) = Done (m, a) ->
      offered u l answers (with_xuops (<[u := child_answer now a b x]> (x_uops s)) (with_xmem m s)) s' ->
      offered u (b :: l) (a :: answers) s s'.
Lemma offer_answers l : forall u maxl (s s' : exec_c M B) maxl' x,
  Forall (fun b => 0 <= b < 64) l -> x_uops s !! u = Some x -> offer now l u maxl s = Done (s', maxl') ->
  exists answers x', x_uops s' !! u = Some x' /\ same_but_mem u s s' /\ answered l answers x x' /\ maxl' = slowest maxl answers /\
    offered u l answers s s'.
Proof.
  induction l as [| b l IH]; intros u maxl s s' maxl' x Hl Hx H.
  { apply done_pair in H as [-> ->]. exists [], x. split; [done |]. split.
    - exists x, (mem x), (x_mem s). split; [done |]. split; [| done]. destruct s, x. unfold with_xuops, with_xmem, with_mem. simpl in *. by rewrite insert_id.
    - split; [| split; [done | constructor]]. split; [done |]. split; [| simpl; split; [done | split; [lia | done]]]. intros n Hn. simpl. by rewrite andb_true_r. }
  apply Forall_cons in Hl as [Hb Hl]. simpl in H. rewrite (get_s_live _ _ _ Hx) in H. cbn [mbind outcome_bind] in H.
  step H as c Hc. step H as [m a] Ha. step H as s1 H1. apply upd_uop_done in H1 as (x0 & Hx0 & ->). simpl in Hx0.
  rewrite Hx in Hx0. injection Hx0 as <-. set (x1 := child_answer now a b x) in *.
  destruct (fun Hx1 => IH u _ _ _ _ x1 Hl Hx1 H) as (answers & x' & Hx' & Hsame & (A1 & A2 & A5 & A3 & A4) & -> & Ho);
    [apply lookup_insert_eq |].
  exists (a :: answers), x'. split; [done |].
  assert (Em : exists d, x1 = with_mem d x /\ m_vaddr d = m_vaddr (mem x) /\ m_mem_size d = m_mem_size (mem x) /\
    m_child_uops d = m_child_uops (mem x) /\ m_num_child_uops d = m_num_child_uops (mem x)).
  { unfold x1, child_answer. destruct (a =? 0); [| by eexists]. exists (mem x). split; [by destruct x | done]. }
  split; [| split; [| split; [done | by eapply offered_next]]].
  - destruct Hsame as (y & d & m' & Hy & -> & E1 & E2 & E3 & E4). simpl in Hy. rewrite lookup_insert_eq in Hy. injection Hy as <-.
    destruct Em as (d0 & -> & F1 & F2 & F3 & F4). exists x, d, m'. split; [done |]. simpl in *. rewrite insert_insert_eq.
    split; [done |]. rewrite E1, E2, E3, E4. done.
  - split; [simpl; by rewrite A1 |]. split; [| split; [| split]].
    + intros n Hn. rewrite A2 by done. unfold x1. rewrite child_answer_pending by done. simpl. rewrite negb_orb, andb_assoc. f_equal. f_equal.
      f_equal. apply andb_comm.
    + intros n Hn Hz. apply A5; [done |]. unfold x1, child_answer. destruct (a =? 0); [done |]. simpl. unfold CLEAR_BIT.
      by rewrite Z.land_spec, Hz.
    + rewrite A3. simpl. unfold x1, child_answer. destruct (Z.eqb_spec a 0) as [-> |]; simpl; [lia |]. destruct (0 <? a); lia.
    + rewrite A4. destruct Em as (d0 & -> & _ & _ & _ & F4). done.
Qed.

Lemma bits_range mask : Forall (fun b => 0 <= b < 64) (bits mask).
Proof. apply Forall_forall. intros b Hb. apply list_elem_of_filter in Hb as [_ Hb]. apply elem_of_seqZ in Hb. lia. Qed.
Lemma bits_nodup mask : NoDup (bits mask).
Proof. unfold bits. apply NoDup_filter, NoDup_seqZ. Qed.
Lemma bits_all mask : bits mask = bits_from mask 0.
Proof. done. Qed.

(** Nothing is pending any more exactly when every child was taken. *)
Lemma pending_answers x x' answers :
  is_u64 (m_pending_child_uops (mem x)) -> answered (bits (m_pending_child_uops (mem x))) answers x x' ->
  (m_pending_child_uops (mem x') =? 0) = negb (bool_decide (0 ∈ answers)).
Proof.
  intros Hu (Hl & Hb & Hh & _). set (p := m_pending_child_uops (mem x)) in *. destruct (bool_decide_reflect (0 ∈ answers)) as [Hin | Hout]; simpl.
  - apply Z.eqb_neq. intros E. apply list_elem_of_lookup in Hin as [i Hi].
    destruct (lookup_lt_is_Some_2 (bits p) i) as [b Hbi]; [rewrite <- Hl; by eapply lookup_lt_Some |].
    assert (Hbin : b ∈ bits p) by (by eapply list_elem_of_lookup_2). apply list_elem_of_filter in Hbin as [Htb Hbr]. apply elem_of_seqZ in Hbr.
    specialize (Hb b ltac:(lia)). rewrite E, Z.bits_0, Htb in Hb. symmetry in Hb. simpl in Hb. apply negb_false_iff, existsb_exists in Hb as ([b' a] & Hba & Hc).
    apply list_elem_of_In, elem_of_lookup_zip_with_1 in Hba as (j & b2 & a2 & [= -> ->] & Hj1 & Hj2). simpl in Hc. apply andb_true_iff in Hc as [Hc1 Hc2].
    apply Z.eqb_eq in Hc1 as ->. apply negb_true_iff, Z.eqb_neq in Hc2. assert (i = j) as ->; [| congruence].
    eapply NoDup_lookup; [apply bits_nodup | exact Hbi | exact Hj1].
  - apply Z.eqb_eq, Z.bits_inj'. intros n Hn. rewrite Z.bits_0. destruct (Z.lt_ge_cases n 64) as [Hlt | Hge].
    2: { apply Hh; [done |]. by apply testbit_above with 64. }
    rewrite Hb by lia. destruct (Z.testbit p n) eqn:Ht; [simpl | done]. apply negb_false_iff, existsb_exists.
    assert (Hnb : n ∈ bits p) by (apply list_elem_of_filter; split; [done | apply elem_of_seqZ; lia]).
    apply list_elem_of_lookup in Hnb as [i Hi]. destruct (lookup_lt_is_Some_2 answers i) as [a Ha]; [rewrite Hl; by eapply lookup_lt_Some |].
    exists (n, a). split; [| simpl; rewrite Z.eqb_refl; simpl; apply negb_true_iff, Z.eqb_neq; intros ->; apply Hout; by eapply list_elem_of_lookup_2].
    apply list_elem_of_In. eapply list_elem_of_lookup_2. rewrite lookup_zip_with. rewrite Hi. simpl. by rewrite Ha.
Qed.

(** When the memory always answers, offering ends. *)
Definition memory_total : Prop := forall t σ c (m : M), exists m' a, memory_request t σ c m = Done (m', a).
Lemma offer_total l : memory_total -> forall u maxl (s : exec_c M B) x,
  x_uops s !! u = Some x -> Forall (fun b => 0 <= b < Z.of_nat (length (m_child_uops (mem x)))) l ->
  exists s' maxl', offer now l u maxl s = Done (s', maxl').
Proof.
  intros Ht. induction l as [| b l IH]; intros u maxl s x Hx Hl; [by eexists _, _ |]. apply Forall_cons in Hl as [Hb Hl]. simpl.
  rewrite (get_s_live _ _ _ Hx). cbn [mbind outcome_bind]. destruct (aget_in_range (m_child_uops (mem x)) b Hb) as (c & _ & ->).
  cbn [mbind outcome_bind]. destruct (Ht (m_mem_type (base x)) (x_uops s) c (x_mem s)) as (m' & a & ->). cbn [mbind outcome_bind].
  rewrite (upd_uop_live _ _ (with_xmem m' s) x) by done. cbn [mbind outcome_bind].
  eapply (IH u _ _ (child_answer now a b x)); [apply lookup_insert_eq |]. unfold child_answer. by destruct (a =? 0).
Qed.
End CHILDREN.

(** ** What execution changes *)

(** Fields of a micro-operation that execution leaves alone. *)
Record stable (x x' : uop_s) : Prop := {
  st_num : num_of x' = num_of x;
  st_thread : thread_of x' = thread_of x;
  st_mem : m_mem_type (base x') = m_mem_type (base x);
  st_type : m_uop_type (base x') = m_uop_type (base x);
  st_q : m_allocq_num (base x') = m_allocq_num (base x);
  st_valid : m_valid x' = m_valid x;
  st_bogus : m_bogus x' = m_bogus x;
  st_sched : m_in_scheduler x' = m_in_scheduler x;
  st_deps : deps x' = deps x
}.
#[export] Instance stable_preorder : PreOrder stable.
Proof. split; [done |]. intros x y z [] []. split; congruence. Qed.

(** The part of the reorder buffer that says where an entry is. *)
Definition slots (r : rob_c) : list (option nat) * Z := (m_rob r, m_max_cnt r).

Section EFFECT.
Context {M B : Type} `{!MemoryPath M} `{!Predictor B}.
Context (k : exec_knobs) (now : Z).

(** Only [u] changes, [n] ports of its queue are taken, none when it is bogus,
    and the cycle of its result stays when [keep]. *)
Definition effect (keep : bool) (u : nat) (n : Z) (s s' : exec_c M B) : Prop :=
  exists x x', x_uops s !! u = Some x /\ x_uops s' = <[u := x']> (x_uops s) /\ stable x x' /\
    (keep = true -> done_of x' = done_of x) /\ slots (x_rob s') = slots (x_rob s) /\
    m_port_used s' = alter (Z.add n) (Z.to_nat (q_index (m_allocq_num (base x)))) (m_port_used s) /\ (n = 0 \/ m_bogus x = false).

Lemma effect_trans k1 k2 u n1 n2 s s1 s2 : effect k1 u n1 s s1 -> effect k2 u n2 s1 s2 -> effect (k1 && k2) u (n1 + n2) s s2.
Proof.
  intros (x & x1 & Hx & E1 & S1 & D1 & R1 & P1 & N1) (y & x2 & Hy & E2 & S2 & D2 & R2 & P2 & N2). rewrite E1, lookup_insert_eq in Hy. injection Hy as <-.
  exists x, x2. split; [done |]. split; [by rewrite E2, E1, insert_insert_eq |]. split; [by transitivity x1 |]. split.
  { intros [-> ->]%andb_true_iff. rewrite D2, D1; done. }
  split; [congruence |]. rewrite (st_bogus _ _ S1) in N2. split; [| destruct N1, N2; auto; left; lia]. rewrite P2, P1, (st_q _ _ S1). rewrite list_alter_alter_eq. apply list_alter_ext; [| done]. intros z _. simpl. lia.
Qed.

Lemma alter_zero (l : list Z) i : alter (Z.add 0) i l = l.
Proof. apply list_alter_id. intros x. lia. Qed.
(** A step that changes the object only. *)
Lemma effect_upd keep f u s s' : (forall x, stable x (f x)) -> (keep = true -> forall x, done_of (f x) = done_of x) ->
  upd_uop f u s = Done s' -> effect keep u 0 s s'.
Proof.
  intros Hf Hd H. apply upd_uop_done in H as (x & Hx & ->). exists x, (f x). split_and!; try done; [by intros ->; auto | simpl; by rewrite alter_zero | by left].
Qed.
Lemma effect_refl keep u s : is_Some (x_uops s !! u) -> effect keep u 0 s s.
Proof. intros [x Hx]. exists x, x. split_and!; try done; [by rewrite insert_id | by rewrite alter_zero | by left]. Qed.
(** The rest of the state does not matter. *)
Lemma effect_same keep u n s s1 s' : effect keep u n s1 s' -> x_uops s1 = x_uops s -> slots (x_rob s1) = slots (x_rob s) ->
  m_port_used s1 = m_port_used s -> effect keep u n s s'.
Proof. unfold effect. intros H <- <- <-. exact H. Qed.
Lemma effect_same_r keep u n s s1 s' : effect keep u n s s1 -> x_uops s' = x_uops s1 -> slots (x_rob s') = slots (x_rob s1) ->
  m_port_used s' = m_port_used s1 -> effect keep u n s s'.
Proof. unfold effect. intros H -> -> ->. exact H. Qed.


Definition at_entry (entry : Z) (u : nat) (s : exec_c M B) : Prop := aget (m_rob (x_rob s)) entry = Done (Some u).
Lemma use_port_effect entry u s s' : at_entry entry u s -> use_port entry s = Done s' ->
  exists n, effect true u n s s' /\ 0 <= n <= 1.
Proof.
  intros He H. unfold use_port in H. rewrite He in H. simpl in H. step H as x Hx. apply get_s_done in Hx. destruct (m_bogus x) eqn:Hb.
  { apply done_val in H as ->. exists 0. split; [| lia]. apply effect_refl. eauto. }
  step H as used Hu. step H as l Hl. apply done_val in H as ->. apply aset_done in Hl as [Hr ->]. apply aget_done in Hu as [_ Hu].
  exists 1. split; [| lia]. exists x, x. split_and!; try done; [simpl; by rewrite insert_id | | by right]. simpl.
  rewrite list_alter_insert with (x := used) by done. by rewrite Z.add_comm.
Qed.
Lemma exec_single_effect u s s' lat : exec_single now u s = Done (s', lat) -> effect true u 0 s s'.
Proof.
  intros H. unfold exec_single in H. step H as x Hx. apply get_s_done in Hx. step H as [m l] Hm. destruct (l =? 0).
  - apply done_pair in H as [-> _]. eapply effect_same_r; [by apply effect_refl; eauto | done | done | done].
  - step H as s2 H2. apply done_pair in H as [-> _]. eapply (effect_same _ _ _ _ (with_xmem m s)); [| done | done | done].
    eapply effect_upd; [| | exact H2]; done.
Qed.
Lemma child_answer_stable a b x : stable x (child_answer now a b x) /\ done_of (child_answer now a b x) = done_of x.
Proof. unfold child_answer. by destruct (a =? 0). Qed.
Lemma child_loop_effect fuel : forall u next maxl s s' lat, is_Some (x_uops s !! u) ->
  child_loop now fuel u next maxl s = Done (s', lat) -> effect true u 0 s s'.
Proof.
  induction fuel as [| fuel IH]; intros u next maxl s s' lat Hu H; simpl in H; [done |]. destruct (next =? -1).
  { apply done_pair in H as [-> _]. by apply effect_refl. }
  step H as x Hx. step H as c Hc. step H as [m l] Hm. step H as s1 H1. step H as x1 Hx1. apply get_s_done in Hx1.
  apply IH in H; [| eauto]. refine (effect_trans true true u 0 0 s s1 s' _ H).
  eapply (effect_same _ _ _ _ (with_xmem m s)); [| done | done | done].
  eapply effect_upd; [| | exact H1]; intros; apply child_answer_stable.
Qed.
Lemma exec_children_effect u s s' lat : exec_children now u s = Done (s', lat) -> effect true u 0 s s'.
Proof.
  intros H. unfold exec_children in H. step H as x Hx. apply get_s_done in Hx. step H as [s1 l] H1. step H as x1 Hx1.
  apply done_pair in H as [-> _]. eapply child_loop_effect; [by eexists | exact H1].
Qed.

Lemma effect_entry keep u n s s' entry v : effect keep u n s s' -> at_entry entry v s -> at_entry entry v s'.
Proof. intros (x & x' & _ & _ & _ & _ & R & _). unfold at_entry. injection R as R _. by rewrite R. Qed.

Lemma exec_memory_effect entry u s s' lat : at_entry entry u s -> is_Some (x_uops s !! u) -> exec_memory k now entry u s = Done (s', lat) ->
  exists n, effect true u n s s' /\ 0 <= n <= 1.
Proof.
  intros He Hu H. unfold exec_memory in H. destruct (KNOB_PERFECT_DCACHE k).
  { apply done_pair in H as [-> _]. exists 0. split; [by apply effect_refl | lia]. }
  step H as x Hx. step H as [s1 l] H1. assert (E1 : effect true u 0 s s1).
  { destruct (m_num_child_uops (mem x) =? 0); [by eapply exec_single_effect | by eapply exec_children_effect]. }
  destruct (l =? 0). { apply done_pair in H as [-> _]. exists 0. split; [done | lia]. }
  step H as s2 H2. apply done_pair in H as [-> _]. destruct (use_port_effect entry u s1 s2 (effect_entry _ _ _ _ _ _ _ E1 He) H2) as (n & E2 & Hn).
  exists n. split; [| done]. eapply effect_same_r; [exact (effect_trans _ _ _ _ _ _ _ _ E1 E2) | | |]; by destruct (_ && _).
Qed.
Lemma exec_compute_effect entry u s s' lat : at_entry entry u s -> exec_compute k entry u s = Done (s', lat) ->
  exists n, effect true u n s s' /\ 0 <= n <= 1.
Proof.
  intros He H. unfold exec_compute in H. step H as x Hx. step H as s1 H1.
  destruct (use_port_effect entry u s s1 He H1) as (n & E1 & Hn). exists n. split; [| done].
  destruct (is_any_fence (base x)); [| by apply done_pair in H as [-> _]]. unfold exec_fence in H.
  destruct (KNOB_FENCE_ENABLE k); [| by apply done_pair in H as [-> _]].
  destruct (KNOB_ACQ_REL k); simpl negb in H; cbv iota in H; [| step H as pend Hp]; apply done_pair in H as [-> _];
    eapply effect_same_r; try exact E1; done.
Qed.
Lemma br_exec_effect keep u s s' : br_exec k now u s = Done s' -> effect keep u 0 s s'.
Proof.
  intros H. unfold br_exec in H. step H as x Hx. apply get_s_done in Hx. step H as b1 H1. set (s1 := with_bp b1 _ _ _ s) in *. step H as s2 H2.
  assert (E2 : x_uops s2 = x_uops s /\ slots (x_rob s2) = slots (x_rob s) /\ m_port_used s2 = m_port_used s).
  { destruct (m_mispredicted x); [step H2 as b2 Hb2 |]; by apply done_val in H2 as ->. }
  step H as s3 H3. apply done_val in H as ->. apply (effect_same_r keep u 0 s s3); [| by destruct (m_acc_sim k && KNOB_MT_NO_FETCH_BR k) ..].
  destruct E2 as (A1 & A2 & A3). destruct (_ && negb _).
  - step H3 as b3 Hb3. eapply effect_same; [eapply effect_upd; [| | exact H3]; done | done | done | done].
  - apply done_val in H3 as ->. apply (effect_same keep u 0 s s2); try done. apply effect_refl. rewrite A1. eauto.
Qed.

(** Execution changes the micro-operation only, takes at most one port of its
    queue, and leaves the cycle of the result alone when it fails. *)
Lemma exec_effect entry u s s' ok : at_entry entry u s -> exec k now entry u s = Done (s', ok) ->
  exists n, effect (negb ok) u n s s' /\ 0 <= n <= 1.
Proof.
  intros He H. unfold exec in H. step H as s1 H1.
  assert (E1 : effect true u 0 s s1). { eapply effect_upd; [| | exact H1]; intros; simpl; by destruct (m_sched_cycle (base _) =? 0). }
  step H as x Hx. apply get_s_done in Hx. step H as [s2 lat] H2. pose proof (effect_entry _ _ _ _ _ _ _ E1 He) as He1.
  assert (E2 : exists n, effect true u n s s2 /\ 0 <= n <= 1).
  { destruct (negb _) in H2.
    - destruct (exec_memory_effect _ _ _ _ _ He1 ltac:(eauto) H2) as (n & E2 & Hn). exists n. split; [| done].
      exact (effect_trans _ _ _ _ _ _ _ _ E1 E2).
    - destruct (exec_compute_effect _ _ _ _ _ He1 H2) as (n & E2 & Hn). exists n. split; [| done]. exact (effect_trans _ _ _ _ _ _ _ _ E1 E2). }
  destruct E2 as (n & E2 & Hn). exists n. split; [| done]. destruct (_ && _) in H; [by apply done_pair in H as [-> ->] |].
  step H as s3 H3. step H as [] Ha. step H as s4 H4. step H as s5 H5. apply done_pair in H as [-> ->]. simpl negb.
  assert (E3 : effect false u 0 s2 s3). { eapply effect_upd; [| | exact H3]; [| done]. intros y. unfold set_times. by destruct (0 <? lat). }
  pose proof (effect_trans _ _ _ _ _ _ _ _ E2 E3) as E23. rewrite Z.add_0_r in E23.
  assert (E4 : effect false u 0 s3 s4). { destruct (bool_decide _) in H4; [| by eapply br_exec_effect].
    apply done_val in H4 as ->. apply effect_refl. destruct E3 as (z & z' & _ & -> & _). rewrite lookup_insert_eq. eauto. }
  pose proof (effect_trans _ _ _ _ _ _ _ _ E23 E4) as E34. rewrite Z.add_0_r in E34.
  assert (E5 : effect false u 0 s4 s5). { eapply effect_upd; [| | exact H5]; done. }
  pose proof (effect_trans _ _ _ _ _ _ _ _ E34 E5) as E45. by rewrite Z.add_0_r in E45.
Qed.
End EFFECT.

Lemma exec_children_offer {M B : Type} `{!MemoryPath M} now u (s : exec_c M B) x :
  x_uops s !! u = Some x ->
  exec_children now u s =
    ('(s1, max_latency) ← offer now (bits (m_pending_child_uops (mem x))) u 0 s;
     x1 ← get_s u (x_uops s1);
     mret (s1, if negb (m_pending_child_uops (mem x1) =? 0) then 0
               else if m_num_child_uops (mem x1) =? m_num_child_uops_done (mem x1) then max_latency else -1)).
Proof.
  intros Hx. unfold exec_children. rewrite (get_s_live _ _ _ Hx), bind_done.
  rewrite (child_loop_offer now child_turns 0 u 0 s x Hx) by (unfold child_turns; lia). by rewrite bits_all.
Qed.

(** C32: a memory operation with children offers every pending child to the
    memory exactly once, lowest first, each to the memory as the request before left
    it, whatever the memory answers: the loop over the bit mask is a pass over its
    set bits and ends. Afterwards exactly the children the memory refused are
    pending, the hits are counted, and the result is 0 when a child was refused,
    otherwise the slowest hit when all children of the operation are done and -1
    when some are still on their way. The mask names children the operation has, and
    the memory answers every request. *)
Theorem exec_children_correct {M B : Type} `{!MemoryPath M} now u (s : exec_c M B) x :
  x_uops s !! u = Some x -> is_u64 (m_pending_child_uops (mem x)) -> memory_total (M := M) ->
  Forall (fun b => 0 <= b < Z.of_nat (length (m_child_uops (mem x)))) (bits (m_pending_child_uops (mem x))) ->
  exists s' r answers x', exec_children now u s = Done (s', r) /\ x_uops s' !! u = Some x' /\
    offered now u (bits (m_pending_child_uops (mem x))) answers s s' /\
    same_but_mem u s s' /\ answered (bits (m_pending_child_uops (mem x))) answers x x' /\
    r = if bool_decide (0 ∈ answers) then 0
        else if m_num_child_uops (mem x') =? m_num_child_uops_done (mem x') then slowest 0 answers else -1.
Proof.
  intros Hx Hu Ht Hc. rewrite (exec_children_offer now u s x Hx).
  destruct (offer_total now _ Ht u 0 s x Hx Hc) as (s' & maxl & E). rewrite E. cbn [mbind outcome_bind].
  destruct (offer_answers now _ _ _ _ _ _ _ (bits_range _) Hx E) as (answers & x' & Hx' & Hs & Ha & -> & Ho).
  rewrite (get_s_live _ _ _ Hx'). cbn [mbind outcome_bind]. eexists _, _, answers, x'. split; [done |]. split_and!; try done.
  rewrite (pending_answers _ _ _ Hu Ha). by destruct (bool_decide (0 ∈ answers)).
Qed.

(** A memory that gives the answers of a script, then refuses. *)
Module ExecExample.
Definition pop_answer (σ : uop_store) (u : nat) (m : list Z) : outcome (list Z * Z) :=
  mret (match m with [] => ([], 0) | a :: m' => (m', a) end).
#[export] Instance scripted : MemoryPath (list Z) := {
  data_access := pop_answer; shared_load := pop_answer; const_load := pop_answer; texture_load := pop_answer;
  fence_pref σ u m := mret m
}.
Definition uop (num : Z) (mt : Mem_Type) (ut : Uop_Type) (q : ALLOCQ) (children : list nat) (pending : Z) : uop_s :=
  mk_uop_s (mk_uop num 0 mt ut NOT_BAR NOT_CF 0 0 false 0 0 false false false false q false)
    true false false false true false (100 + num) 0 true false 0
    (mk_deps 0 [] 0 [] (replicate 10 (mk_src REG_DATA_DEP None 0 0)) 0 false None false)
    (mk_umem 64 4 0 (Z.of_nat (length children)) 0 children pending).
Definition parent : uop_s := uop 1 MEM_LD (UOP_OTHER 0) mem_ALLOCQ [2; 3; 4]%nat 7.
Definition s0 (answers : list Z) : exec_c (list Z) unit :=
  mk_exec {[1%nat := parent]} (rob_new 8 0 0 0) (replicate 4 0) answers tt ∅ ∅ ∅ [].
Lemma scripted_total : memory_total (M := list Z).
Proof. intros t σ c m. destruct m, t; eexists _, _; reflexivity. Qed.
End ExecExample.
#[local] Existing Instance ExecExample.scripted.

(** Three children: a hit, a refusal, a miss. The second one stays pending. *)
Lemma exec_children_correct_witness :
  exists s' r (answers : list Z) (x' : uop_s), exec_children 5 1 (ExecExample.s0 [3; 0; -1]) = Done (s', r) /\ x_uops s' !! 1%nat = Some x' /\
    answered [0; 1; 2] answers ExecExample.parent x' /\ r = 0 /\ m_pending_child_uops (mem x') = 2.
Proof.
  destruct (exec_children_correct 5 1 (ExecExample.s0 [3; 0; -1]) ExecExample.parent eq_refl) as (s' & r & answers & x' & E & Hx & _ & _ & Ha & _).
  - vm_compute. split; [discriminate | reflexivity].
  - exact ExecExample.scripted_total.
  - change (bits _) with [0; 1; 2]. repeat constructor; vm_compute; congruence.
  - exists s', r, answers, x'. change (bits _) with [0; 1; 2] in Ha. split; [exact E |]. split; [exact Hx |]. split; [exact Ha |].
    vm_compute in E. injection E as <- <-. vm_compute in Hx. injection Hx as <-. split; reflexivity.
Defined.
