(* ===== verification/Schedule.v ===== *)
(** * Schedulers (schedule.cc, schedule.h, schedule_ooo.cc, schedule_io.cc)

    The scheduler of a CPU core takes micro-operations from the allocation
    queues, keeps the reorder-buffer entries of those that wait in a circular
    list, and starts them in the execution stage when their sources are ready, a
    port is free and no fence is in the way. [run_a_cycle_ooo] tries every waiting
    entry, oldest first; [run_a_cycle_io] stops at the first one that cannot
    start. [schedule_core] is the part of the state [uop_schedule] works on. *)

From S2P Require Import Prelude.
From S2P Require Import Utils.
From S2P Require Import Pqueue.
From S2P Require Import Rob.
From S2P Require Import Uops.
From S2P Require Import Exec.

Import Rob.

Definition MAX_SCHED_SIZE : Z := 8192.

Inductive SCHED_FAIL_TYPE :=
| SCHED_SUCCESS | SCHED_FAIL_OPERANDS_NOT_READY | SCHED_FAIL_NO_AVAILABLE_PORTS | SCHED_FAIL_NO_MEM_REQ_SLOTS
| SCHED_FAIL_NO_AVAILABLE_SIMD_UNIT | SCHED_FAIL_FENCE_ACTIVE | SCHED_FAIL_MEM_MANAGEMENT.

Record sched_knobs := mk_sched_knobs {
  sk_exec : exec_knobs;
  core_type_igpu : bool;
  KNOB_FENCE_PREF_ENABLE : bool;
  m_knob_width : Z;
  m_knob_sched_to_width : bool;
  m_sched_size : list Z;
  m_sched_rate : list Z
}.

Record schedule_core (M B : Type) := mk_core {
  c_exec : exec_c M B;
  m_num_in_sched : Z;
  m_num_per_sched : list Z;
  m_last_sched_cycle : Z;
  m_ops_to_be_dispatched : gmap Z Z
}.
Arguments mk_core {M B}.
Arguments c_exec {M B}.
Arguments m_num_in_sched {M B}.
Arguments m_num_per_sched {M B}.
Arguments m_last_sched_cycle {M B}.
Arguments m_ops_to_be_dispatched {M B}.

Record schedule_c (M B : Type) := mk_schedule {
  s_core : schedule_core M B;
  m_alloc_q : list (pqueue_c (T := Z));
  m_schedule_list : list Z;
  m_first_schlist_ptr : Z;
  m_last_schlist_ptr : Z;
  m_schedule_running : bool;
  m_next_inorder_to_schedule : Z
}.
Arguments mk_schedule {M B}.
Arguments s_core {M B}.
Arguments m_alloc_q {M B}.
Arguments m_schedule_list {M B}.
Arguments m_first_schlist_ptr {M B}.
Arguments m_last_schlist_ptr {M B}.
Arguments m_schedule_running {M B}.
Arguments m_next_inorder_to_schedule {M B}.

Section SCHEDULE.
Context {M B : Type} `{!MemoryPath M} `{!Predictor B}.
Context (k : sched_knobs) (now : Z).
Abbreviation core := (schedule_core M B).
Abbreviation sched := (schedule_c M B).

Definition with_exec (e : exec_c M B) (c : core) : core :=
  mk_core e (m_num_in_sched c) (m_num_per_sched c) (m_last_sched_cycle c) (m_ops_to_be_dispatched c).
Definition with_simd_cycle (n : Z) (c : core) : core :=
  mk_core (c_exec c) (m_num_in_sched c) (m_num_per_sched c) n (m_ops_to_be_dispatched c).
Definition with_counts (n : Z) (l : list Z) (c : core) : core :=
  mk_core (c_exec c) n l (m_last_sched_cycle c) (m_ops_to_be_dispatched c).
Definition with_ops (m : gmap Z Z) (c : core) : core :=
  mk_core (c_exec c) (m_num_in_sched c) (m_num_per_sched c) (m_last_sched_cycle c) m.
Definition upd_core (f : uop_s -> uop_s) (u : nat) (c : core) : outcome core :=
  e ← upd_uop f u (c_exec c); mret (with_exec e c).
Definition uops_of (c : core) : uop_store := x_uops (c_exec c).

Definition with_core (c : core) (s : sched) : sched :=
  mk_schedule c (m_alloc_q s) (m_schedule_list s) (m_first_schlist_ptr s) (m_last_schlist_ptr s) (m_schedule_running s)
    (m_next_inorder_to_schedule s).
Definition with_queues (q : list (pqueue_c (T := Z))) (s : sched) : sched :=
  mk_schedule (s_core s) q (m_schedule_list s) (m_first_schlist_ptr s) (m_last_schlist_ptr s) (m_schedule_running s)
    (m_next_inorder_to_schedule s).
Definition with_list (l : list Z) (first last : Z) (s : sched) : sched :=
  mk_schedule (s_core s) (m_alloc_q s) l first last (m_schedule_running s) (m_next_inorder_to_schedule s).
Definition with_running (b : bool) (s : sched) : sched :=
  mk_schedule (s_core s) (m_alloc_q s) (m_schedule_list s) (m_first_schlist_ptr s) (m_last_schlist_ptr s) b
    (m_next_inorder_to_schedule s).
Definition with_next (n : Z) (s : sched) : sched :=
  mk_schedule (s_core s) (m_alloc_q s) (m_schedule_list s) (m_first_schlist_ptr s) (m_last_schlist_ptr s) (m_schedule_running s) n.

Definition start (s : sched) : sched := with_running true s.
Definition stop (s : sched) : sched := with_running false s.

(** The micro-operation at an entry of the reorder buffer. *)
Definition rob_uop (entry : Z) (c : core) : outcome nat :=
  p ← aget (m_rob (x_rob (c_exec c))) entry; get_or NullDeref p.

(** ** Sources *)

(** The object a source names is still the micro-operation it was. *)
Definition src_live (x y : uop_s) (si : src_info_c) : bool :=
  m_valid y && (num_of y =? si_uop_num si) && (thread_of y =? thread_of x).
Definition src_waits (y : uop_s) : bool := (done_of y =? 0) || (now <? done_of y).

(** The pointer moves to [a] when there was none or its result is later. *)
Definition note_dep (u : nat) (x : uop_s) (a : nat) (y : uop_s) (c : core) : outcome core :=
  let set := upd_core (fun x => with_deps (with_rdy (m_srcs_rdy (deps x)) (Some a) (deps x)) x) u c in
  match m_last_dep_exec (deps x) with
  | None => set
  | Some b => z ← get_s b (uops_of c); if done_of z <? done_of y then set else mret c
  end.

(** The loop over the sources from [i] on; [n] of them are left. *)
Fixpoint check_loop (n : nat) (i : Z) (u : nat) (x : uop_s) (c : core) : outcome (core * bool) :=
  match n with
  | O => c1 ← upd_core (fun x => with_deps (with_rdy true (m_last_dep_exec (deps x)) (deps x)) x) u c; mret (c1, true)
  | S n' =>
      si ← aget (m_map_src_info (deps x)) i;
      match si_uop si with
      | None => check_loop n' (i + 1) u x c
      | Some a =>
          y ← get_s a (uops_of c);
          if src_live x y si && src_waits y then c1 ← note_dep u x a y c; mret (c1, false)
          else check_loop n' (i + 1) u x c
      end
  end.
Definition check_srcs (entry : Z) (c : core) : outcome (core * bool) :=
  u ← rob_uop entry c;
  x ← get_s u (uops_of c);
  if m_srcs_rdy (deps x) then mret (c, true) else check_loop (Z.to_nat (m_num_srcs (deps x))) 0 u x c.

(** ** Starting one micro-operation *)

(** The checks a bogus micro-operation skips, in the order of the code. *)
Definition may_start (entry : Z) (u : nat) (x : uop_s) (c : core) : outcome (core * SCHED_FAIL_TYPE) :=
  if m_bogus x then mret (c, SCHED_SUCCESS) else
  early ← (if m_srcs_rdy (deps x) then mret false else
           match m_last_dep_exec (deps x) with
           | None => mret false
           | Some b => z ← get_s b (uops_of c); mret (now <? done_of z)
           end);
  if early : bool then mret (c, SCHED_FAIL_OPERANDS_NOT_READY) else
  '(c1, rdy) ← check_srcs entry c;
  if negb rdy then mret (c1, SCHED_FAIL_OPERANDS_NOT_READY) else
  port ← port_available (sk_exec k) (m_allocq_num (base x)) (c_exec c1);
  if negb port then mret (c1, SCHED_FAIL_NO_AVAILABLE_PORTS) else
  if KNOB_FENCE_ENABLE (sk_exec k) && negb (bool_decide (m_mem_type (base x) = NOT_MEM)) &&
     ensure_mem_ordering (KNOB_ACQ_REL (sk_exec k)) entry (x_rob (c_exec c1)) then
    if KNOB_FENCE_PREF_ENABLE k then
      m ← fence_pref (uops_of c1) u (x_mem (c_exec c1));
      mret (with_exec (with_xmem m (c_exec c1)) c1, SCHED_FAIL_FENCE_ACTIVE)
    else mret (c1, SCHED_FAIL_FENCE_ACTIVE)
  else mret (c1, SCHED_SUCCESS).

(** The bookkeeping after the execution stage has taken it. *)
Definition leave_scheduler (u : nat) (x : uop_s) (c : core) : outcome core :=
  let c1 := if bool_decide (m_uop_type (base x) = UOP_SIMD) then with_simd_cycle now c else c in
  let ops := m_ops_to_be_dispatched c1 in
  let c2 := with_ops (<[thread_of x := u64 (default 0 (ops !! thread_of x) - 1)]> ops) c1 in
  c3 ← upd_core (fun x => with_sched (m_in_iaq x) false x) u c2;
  _ ← ASSERT (0 <? m_num_in_sched c3);
  n ← aget (m_num_per_sched c3) (q_index (m_allocq_num (base x)));
  _ ← ASSERT (0 <? n);
  l ← aset (m_num_per_sched c3) (q_index (m_allocq_num (base x))) (n - 1);
  mret (with_counts (m_num_in_sched c3 - 1) l c3).

Definition uop_schedule (entry : Z) (c : core) : outcome (core * (bool * SCHED_FAIL_TYPE)) :=
  u ← rob_uop entry c;
  x ← get_s u (uops_of c);
  if core_type_igpu k && bool_decide (m_uop_type (base x) = UOP_SIMD) && (m_last_sched_cycle c =? u64 (now - 1))
  then mret (c, (false, SCHED_FAIL_NO_AVAILABLE_SIMD_UNIT)) else
  '(c1, why) ← may_start entry u x c;
  match why with
  | SCHED_SUCCESS =>
      '(e, started) ← exec (sk_exec k) now entry u (c_exec c1);
      let c2 := with_exec e c1 in
      if negb started then mret (c2, (false, SCHED_SUCCESS)) else
      c3 ← leave_scheduler u x c2;
      mret (c3, (true, SCHED_SUCCESS))
  | _ => mret (c1, (false, why))
  end.

(** ** From the allocation queues *)

(** The loop of [advance] on queue [q]; [count] is [m_count]. *)
Fixpoint advance_loop (fuel : nat) (q : Z) (count : list Z) (s : sched) : outcome sched :=
  match fuel with
  | O => Fault Diverged
  | S fuel' =>
      aq ← aget (m_alloc_q s) q;
      rdy ← ready aq;
      if negb rdy then mret s else
      if (m_last_schlist_ptr s + 1) mod MAX_SCHED_SIZE =? m_first_schlist_ptr s then mret s else
      entry ← peek 0 0 aq;
      u ← rob_uop entry (s_core s);
      x ← get_s u (uops_of (s_core s));
      let q_type := q_index (m_allocq_num (base x)) in
      n ← aget count q_type;
      rate ← aget (m_sched_rate k) q_type;
      per ← aget (m_num_per_sched (s_core s)) q_type;
      size ← aget (m_sched_size k) q_type;
      if (rate <=? n) || (size <=? per) then mret s else
      '(_, _, aq1) ← dequeue aq;
      qs ← aset (m_alloc_q s) q aq1;
      let s1 := with_queues qs s in
      if m_bogus x || negb (done_of x =? 0) then
        c ← upd_core (with_done now) u (s_core s1);
        advance_loop fuel' q count (with_core c s1)
      else
        count1 ← aset count q_type (n + 1);
        c ← upd_core (with_sched false true) u (s_core s1);
        l ← aset (m_schedule_list s1) (m_last_schlist_ptr s1) entry;
        lper ← aset (m_num_per_sched c) q_type (per + 1);
        let c1 := with_counts (m_num_in_sched c + 1) lper c in
        advance_loop fuel' q count1
          (with_list l (m_first_schlist_ptr s1) ((m_last_schlist_ptr s1 + 1) mod MAX_SCHED_SIZE) (with_core c1 s1))
  end.
(** An iteration takes an entry from the queue, so their number bounds the loop. *)
Definition advance (q : Z) (s : sched) : outcome sched :=
  aq ← aget (m_alloc_q s) q;
  advance_loop (S (length (contents aq))) q (replicate max_ALLOCQ 0) s.
Definition advance_all (s : sched) : outcome sched :=
  s1 ← advance 0 s; s2 ← advance 1 s1; s3 ← advance 2 s2; advance 3 s3.

(** ** Out of order *)

(** [for (i = first; i != last; i = (i + 1) % MAX_SCHED_SIZE)]; the first pointer
    moves while the loop runs. *)
Fixpoint ooo_loop (fuel : nat) (i count : Z) (s : sched) : outcome (sched * Z) :=
  match fuel with
  | O => Fault Diverged
  | S fuel' =>
      if i =? m_last_schlist_ptr s then mret (s, count) else
      e ← aget (m_schedule_list s) i;
      let next := (i + 1) mod MAX_SCHED_SIZE in
      let moved := if i =? m_first_schlist_ptr s then (m_first_schlist_ptr s + 1) mod MAX_SCHED_SIZE else m_first_schlist_ptr s in
      if e =? -1 then ooo_loop fuel' next count (with_list (m_schedule_list s) moved (m_last_schlist_ptr s) s) else
      '(c, (ok, _)) ← uop_schedule e (s_core s);
      if negb ok then ooo_loop fuel' next count (with_core c s) else
      l ← aset (m_schedule_list s) i (-1);
      let s1 := with_list l moved (m_last_schlist_ptr s) (with_core c s) in
      if m_knob_sched_to_width k && (m_knob_width k <=? count + 1) then mret (s1, count + 1)
      else ooo_loop fuel' next (count + 1) s1
  end.
Definition ooo_turns : nat := Z.to_nat MAX_SCHED_SIZE.

Definition with_ports_cleared (s : sched) : sched :=
  with_core (with_exec (clear_ports (c_exec (s_core s))) (s_core s)) s.

Definition run_a_cycle_ooo (s : sched) : outcome (sched * Z) :=
  if negb (m_schedule_running s) then mret (s, 0) else
  let s1 := with_ports_cleared s in
  '(s2, count) ← (if m_num_in_sched (s_core s1) =? 0 then mret (s1, 0)
                  else ooo_loop ooo_turns (m_first_schlist_ptr s1) 0 s1);
  s3 ← advance_all s2;
  mret (s3, count).

(** ** In order *)

Fixpoint io_loop (fuel : nat) (count : Z) (s : sched) : outcome (sched * Z) :=
  match fuel with
  | O => Fault Diverged
  | S fuel' =>
      if m_knob_sched_to_width k && (m_knob_width k <=? count) then mret (s, count) else
      let next := m_next_inorder_to_schedule s in
      p ← aget (m_rob (x_rob (c_exec (s_core s)))) next;
      match p with
      | None => mret (s, count)
      | Some u =>
          x ← get_s u (uops_of (s_core s));
          if negb (m_in_scheduler x) then mret (s, count) else
          '(c, (ok, _)) ← uop_schedule next (s_core s);
          if negb ok then mret (with_core c s, count) else
          let s1 := with_list (m_schedule_list s) ((m_first_schlist_ptr s + 1) mod MAX_SCHED_SIZE) (m_last_schlist_ptr s) (with_core c s) in
          let r := x_rob (c_exec c) in
          prev ← (if next =? front_rob r then mret true else
                  v ← rob_uop (dec_index next r) c; y ← get_s v (uops_of c); mret (negb (m_sched_cycle (base y) =? 0)));
          _ ← ASSERT prev;
          io_loop fuel' (count + 1) (with_next (inc_index next r) s1)
      end
  end.

(** Each turn starts one of the [m_num_in_sched] waiting micro-operations. *)
Definition run_a_cycle_io (s : sched) : outcome (sched * Z) :=
  if negb (m_schedule_running s) then mret (s, 0) else
  let s1 := with_ports_cleared s in
  '(s2, count) ← (if m_num_in_sched (s_core s1) =? 0 then mret (s1, 0)
                  else io_loop (S (Z.to_nat (m_num_in_sched (s_core s1)))) 0 s1);
  s3 ← advance_all s2;
  mret (s3, count).
End SCHEDULE.

(** ** The circular list *)

Definition live (e : Z) : Prop := e <> -1.
#[export] Instance live_dec e : Decision (live e).
Proof. unfold live. apply _. Defined.

(** [n] slots of a ring of [MAX_SCHED_SIZE] from position [f] on. *)
Fixpoint ring (l : list Z) (f : Z) (n : nat) : list Z :=
  match n with
  | O => []
  | S n' => default 0 (l !! Z.to_nat (f mod MAX_SCHED_SIZE)) :: ring l (f + 1) n'
  end.

Section WAITING.
Context {M B : Type}.
Definition window (s : schedule_c M B) : nat := Z.to_nat ((m_last_schlist_ptr s - m_first_schlist_ptr s) mod MAX_SCHED_SIZE).
(** The entries that wait, oldest first. *)
Definition waiting (s : schedule_c M B) : list Z := filter live (ring (m_schedule_list s) (m_first_schlist_ptr s) (window s)).
Record list_wf (s : schedule_c M B) : Prop := {
  lw_len : Z.of_nat (length (m_schedule_list s)) = MAX_SCHED_SIZE;
  lw_first : 0 <= m_first_schlist_ptr s < MAX_SCHED_SIZE;
  lw_last : 0 <= m_last_schlist_ptr s < MAX_SCHED_SIZE
}.
End WAITING.

Lemma ring_app l f a b : ring l f (a + b) = ring l f a ++ ring l (f + Z.of_nat a) b.
Proof.
  revert f. induction a as [| a IH]; intros f; simpl; [by rewrite Z.add_0_r |]. f_equal. rewrite IH. do 2 f_equal. lia.
Qed.
Lemma ring_snoc l f a : ring l f (S a) = ring l f a ++ [default 0 (l !! Z.to_nat ((f + Z.of_nat a) mod MAX_SCHED_SIZE))].
Proof. replace (S a) with (a + 1)%nat by lia. by rewrite ring_app. Qed.
Lemma ring_mod l f n : ring l (f mod MAX_SCHED_SIZE) n = ring l f n.
Proof.
  assert (H : forall f f', f mod MAX_SCHED_SIZE = f' mod MAX_SCHED_SIZE -> ring l f n = ring l f' n).
  { induction n as [| n IH]; intros a b E; simpl; [done |]. f_equal; [by rewrite E |]. apply IH.
    rewrite <- (Zplus_mod_idemp_l a), <- (Zplus_mod_idemp_l b). by rewrite E. }
  apply H, Z.mod_mod. done.
Qed.
Lemma ring_inj_at f a b : 0 <= a < MAX_SCHED_SIZE -> 0 <= b < MAX_SCHED_SIZE ->
  (f + a) mod MAX_SCHED_SIZE = (f + b) mod MAX_SCHED_SIZE -> a = b.
Proof. apply ring_inj. Qed.
Lemma mod_size x : 0 <= x mod MAX_SCHED_SIZE < MAX_SCHED_SIZE.
Proof. by apply Z.mod_pos_bound. Qed.
(** Writing the slot at distance [a] changes no other slot. *)
Lemma ring_set l f d n a e : (forall j, (j < n)%nat -> d + Z.of_nat j <> a) -> 0 <= d -> d + Z.of_nat n <= MAX_SCHED_SIZE -> 0 <= a < MAX_SCHED_SIZE ->
  ring (<[Z.to_nat ((f + a) mod MAX_SCHED_SIZE) := e]> l) (f + d) n = ring l (f + d) n.
Proof.
  revert d. induction n as [| n IH]; intros d Hj Hd Hn Ha; simpl; [done |]. f_equal.
  - rewrite list_lookup_insert_ne; [done |]. intros E. apply Z2Nat.inj in E; [| apply mod_size | apply mod_size].
    apply ring_inj_at in E; [| lia | lia]. by apply (Hj 0%nat); lia.
  - replace (f + d + 1) with (f + (d + 1)) by lia. apply IH; try lia. intros j Hlt. specialize (Hj (S j)). lia.
Qed.

(** ** Out-of-order selection as a pass over a list *)

Section SELECT.
Context {M B : Type} `{!MemoryPath M} `{!Predictor B}.
Context (k : sched_knobs) (now : Z).

(** Try the entries one after the other; keep those that did not start, and
    stop when the width is used up. *)
Fixpoint select (l : list Z) (count : Z) (c : schedule_core M B) : outcome (list Z * Z * schedule_core M B) :=
  match l with
  | [] => mret ([], count, c)
  | e :: l' =>
      '(c1, (ok, _)) ← uop_schedule k now e c;
      if negb ok then '(rest, n, c2) ← select l' count c1; mret (e :: rest, n, c2)
      else if m_knob_sched_to_width k && (m_knob_width k <=? count + 1) then mret (l', count + 1, c1)
      else select l' (count + 1) c1
  end.

(** What selection leaves alone. *)
Definition same_queues (s s' : schedule_c M B) : Prop :=
  m_alloc_q s' = m_alloc_q s /\ m_schedule_running s' = m_schedule_running s /\
  m_next_inorder_to_schedule s' = m_next_inorder_to_schedule s.

Definition loop_result (s : schedule_c M B) (pre : list Z) (r : outcome (schedule_c M B * Z))
    (o : outcome (list Z * Z * schedule_core M B)) : Prop :=
  match o with
  | Done (rest, n, c) => exists s', r = Done (s', n) /\ s_core s' = c /\ list_wf s' /\ waiting s' = pre ++ rest /\ same_queues s s'
  | Fault f => r = Fault f
  end.

Definition at_turn (s : schedule_c M B) (F : Z) (a b : nat) : Prop :=
  Z.of_nat (length (m_schedule_list s)) = MAX_SCHED_SIZE /\ Z.of_nat (a + b) < MAX_SCHED_SIZE /\
  m_first_schlist_ptr s = F mod MAX_SCHED_SIZE /\ m_last_schlist_ptr s = (F + Z.of_nat (a + b)) mod MAX_SCHED_SIZE.

Lemma at_turn_waiting s F a b : at_turn s F a b -> list_wf s /\
  waiting s = filter live (ring (m_schedule_list s) F a) ++ filter live (ring (m_schedule_list s) (F + Z.of_nat a) b).
Proof.
  intros (Hl & Hab & Hf & Hla). split; [split; [done | rewrite Hf; apply mod_size | rewrite Hla; apply mod_size] |].
  unfold waiting, window. rewrite Hla, Hf, <- Zminus_mod, ring_mod.
  replace (F + Z.of_nat (a + b) - F) with (Z.of_nat (a + b)) by lia. rewrite Z.mod_small by lia. rewrite Nat2Z.id.
  by rewrite ring_app, filter_app.
Qed.

(** The slot at the loop position is empty afterwards: the first pointer moves
    over it when it stands there, and the passed entries are the same. *)
Lemma next_turn s F a b l' : at_turn s F a (S b) ->
  Z.of_nat (length l') = MAX_SCHED_SIZE -> l' !! Z.to_nat ((F + Z.of_nat a) mod MAX_SCHED_SIZE) = Some (-1) ->
  ring l' F a = ring (m_schedule_list s) F a ->
  let i := (F + Z.of_nat a) mod MAX_SCHED_SIZE in
  let moved := if i =? m_first_schlist_ptr s then (m_first_schlist_ptr s + 1) mod MAX_SCHED_SIZE else m_first_schlist_ptr s in
  forall s1, m_schedule_list s1 = l' -> m_first_schlist_ptr s1 = moved -> m_last_schlist_ptr s1 = m_last_schlist_ptr s ->
  exists F' a', F' + Z.of_nat a' = F + Z.of_nat a + 1 /\ at_turn s1 F' a' b /\
    filter live (ring l' F' a') = filter live (ring (m_schedule_list s) F a).
Proof.
  intros (Hl & Hab & Hf & Hla) Hl' Hnone Hpre i moved s1 E1 E2 E3. destruct (decide (a = 0%nat)) as [-> | Ha].
  - exists (F + 1), 0%nat. split; [lia |]. split; [| done]. repeat split.
    + by rewrite E1.
    + lia.
    + rewrite E2. unfold moved, i. rewrite Z.add_0_r, Hf, Z.eqb_refl. by rewrite Zplus_mod_idemp_l.
    + rewrite E3, Hla. f_equal. lia.
  - exists F, (S a). split; [lia |]. split.
    + repeat split; [by rewrite E1 | lia | | rewrite E3, Hla; f_equal; lia].
      rewrite E2. unfold moved, i. rewrite Hf. rewrite (proj2 (Z.eqb_neq _ _)); [done |]. intros E.
      replace F with (F + 0) in E at 2 by lia. apply ring_inj_at in E; lia.
    + rewrite ring_snoc, filter_app, Hnone. simpl. rewrite Hpre. rewrite filter_cons_False by (unfold live; lia). by rewrite app_nil_r.
Qed.

Lemma loop_result_weaken s s0 pre pre' r o : same_queues s0 s -> pre = pre' -> loop_result s pre r o -> loop_result s0 pre' r o.
Proof.
  intros (Q1 & Q2 & Q3) -> H. destruct o as [[[rest n] c] |]; [| done]. destruct H as (s' & E1 & E2 & E3 & E4 & (R1 & R2 & R3)).
  exists s'. split_and!; try done. unfold same_queues. by rewrite R1, R2, R3.
Qed.
(** An entry that stays is in front of what the rest of the pass keeps. *)
Lemma loop_result_keep s pre e r o : loop_result s (pre ++ [e]) r o ->
  loop_result s pre r ('(rest, n, c) ← o; mret (e :: rest, n, c)).
Proof.
  destruct o as [[[rest n] c] |]; [| done]. intros (s' & E1 & E2 & E3 & E4 & E5). exists s'. split_and!; try done. by rewrite E4, <- app_assoc.
Qed.

Lemma ooo_loop_select b : forall fuel F a count s, at_turn s F a b -> (b < fuel)%nat ->
  loop_result s (filter live (ring (m_schedule_list s) F a)) (ooo_loop k now fuel ((F + Z.of_nat a) mod MAX_SCHED_SIZE) count s)
    (select (filter live (ring (m_schedule_list s) (F + Z.of_nat a) b)) count (s_core s)).
Proof.
  induction b as [| b IH]; intros [| fuel] F a count s Ht Hf; try lia; cbn [ooo_loop].
  { pose proof Ht as (Hl & Hab & Hfi & Hla). rewrite Nat.add_0_r in Hla. rewrite Hla, Z.eqb_refl. simpl.
    destruct (at_turn_waiting s F a 0 Ht) as [Hw Hwait]. exists s. by split_and!. }
  pose proof Ht as (Hl & Hab & Hfi & Hla). set (i := (F + Z.of_nat a) mod MAX_SCHED_SIZE).
  assert (Hi : 0 <= i < MAX_SCHED_SIZE) by apply mod_size.
  rewrite (proj2 (Z.eqb_neq i _)) by (rewrite Hla; intros E; apply ring_inj_at in E; lia).
  destruct (aget_in_range (m_schedule_list s) i ltac:(lia)) as (e & He & ->). rewrite bind_done. cbn [ring]. fold i. rewrite He. cbn [default from_option id].
  assert (Hnext : (i + 1) mod MAX_SCHED_SIZE = (F + Z.of_nat a + 1) mod MAX_SCHED_SIZE) by apply Zplus_mod_idemp_l.
  rewrite Hnext. destruct (Z.eqb_spec e (-1)) as [-> | Hne].
  { rewrite filter_cons_False by (unfold live; lia). set (s1 := with_list _ _ _ s).
    destruct (next_turn s F a b (m_schedule_list s) Ht Hl He eq_refl s1 eq_refl eq_refl eq_refl) as (F' & a' & Ep & Ht1 & Epre).
    rewrite <- Ep. rewrite <- Epre. refine (loop_result_weaken s1 _ _ _ _ _ _ eq_refl (IH fuel F' a' count s1 Ht1 _)); [done | lia]. }
  rewrite filter_cons_True by done. cbn [select]. destruct (uop_schedule k now e (s_core s)) as [[c [ok why]] |]; [rewrite !bind_done | done].
  destruct ok; simpl negb; cbv iota.
  2: { apply loop_result_keep. assert (Ht1 : at_turn (with_core c s) F (S a) b) by (repeat split; simpl; try done; try lia; rewrite Hla; f_equal; lia).
    replace (F + Z.of_nat a + 1) with (F + Z.of_nat (S a)) by lia. refine (loop_result_weaken (with_core c s) _ _ _ _ _ _ _ (IH fuel F (S a) count (with_core c s) Ht1 _)); [done | | lia].
    simpl m_schedule_list. rewrite ring_snoc, filter_app. fold i. rewrite He. by rewrite filter_cons_True by done.  }
  rewrite aset_in_range by lia. rewrite bind_done. set (l' := <[Z.to_nat i := -1]> (m_schedule_list s)). set (s1 := with_list l' _ _ _).
  assert (Hr : ring l' (F + Z.of_nat a + 1) b = ring (m_schedule_list s) (F + Z.of_nat a + 1) b).
  { unfold l', i. rewrite <- Z.add_assoc. apply ring_set; lia. }
  destruct (next_turn s F a b l' Ht) with (s1 := s1) as (F' & a' & Ep & Ht1 & Epre); try done.
  { unfold l'. by rewrite length_insert. } { apply list_lookup_insert_eq. apply lookup_lt_Some in He. exact He. }
  { pose proof (ring_set (m_schedule_list s) F 0 a (Z.of_nat a) (-1)) as H. rewrite Z.add_0_r in H. apply H; lia. }
  rewrite <- Hr, <- Ep, <- Epre. change l' with (m_schedule_list s1). change c with (s_core s1). destruct (m_knob_sched_to_width k && _).
  - destruct (at_turn_waiting s1 F' a' b Ht1) as [Hw Hwait]. exists s1. by split_and!.
  - refine (loop_result_weaken s1 _ _ _ _ _ _ eq_refl (IH fuel F' a' (count + 1) s1 Ht1 _)); [done | lia].
Qed.

Lemma ooo_pass s count : list_wf s ->
  loop_result s [] (ooo_loop k now ooo_turns (m_first_schlist_ptr s) count s) (select (waiting s) count (s_core s)).
Proof.
  intros [H1 H2 H3]. pose proof (mod_size (m_last_schlist_ptr s - m_first_schlist_ptr s)) as Hw.
  assert (Ht : at_turn s (m_first_schlist_ptr s) 0 (window s)).
  { repeat split; [done | unfold window; lia | by rewrite Z.mod_small |]. unfold window. simpl. rewrite Z2Nat.id by lia.
    rewrite Zplus_mod_idemp_r. rewrite Z.mod_small; [lia |]. lia. }
  pose proof (ooo_loop_select (window s) ooo_turns _ 0 count s Ht) as H.
  change (ring (m_schedule_list s) (m_first_schlist_ptr s) 0) with (@nil Z) in H. rewrite filter_nil in H. rewrite Z.add_0_r in H.
  rewrite (Z.mod_small _ _ H2) in H. apply H. unfold window, ooo_turns. lia.
Qed.
End SELECT.
