(* ===== verification/ScheduleSystem.v ===== *)
(** * The schedulers at work (schedule.cc, schedule_ooo.cc, schedule_io.cc)

    What one attempt to start a micro-operation changes, the invariant that ties
    the circular list, the counters and the micro-operations together, and the
    properties of whole cycles. *)

From S2P Require Import Prelude.
From S2P Require Import Utils.
From S2P Require Import Pqueue.
From S2P Require Import Rob.
From S2P Require Import Uops.
From S2P Require Import Exec.
From S2P Require Import Schedule.

Import Rob.

(** The sources a micro-operation records. *)
Definition recorded (x : uop_s) : list src_info_c := take (Z.to_nat (m_num_srcs (deps x))) (m_map_src_info (deps x)).

(** Every recorded source that is still the micro-operation it was has a result
    by [now]. *)
Definition sources_ready (now : Z) (σ : uop_store) (x : uop_s) : Prop :=
  forall si a y, si ∈ recorded x -> si_uop si = Some a -> σ !! a = Some y -> src_live x y si = true -> src_waits now y = false.

(** The same, field by field. *)
Definition sources_done (now : Z) (σ : uop_store) (x : uop_s) : Prop :=
  forall si a y, si ∈ recorded x -> si_uop si = Some a -> σ !! a = Some y ->
    m_valid y = true -> num_of y = si_uop_num si -> thread_of y = thread_of x -> done_of y <> 0 /\ done_of y <= now.
Lemma sources_ready_done now σ x : sources_ready now σ x -> sources_done now σ x.
Proof.
  intros H si a y Hsi Ha Hy Hv Hn Ht. assert (Hl : src_live x y si = true).
  { unfold src_live. by rewrite Hv, Hn, Ht, !Z.eqb_refl. }
  specialize (H si a y Hsi Ha Hy Hl). unfold src_waits in H. apply orb_false_iff in H as [H0 H1].
  apply Z.eqb_neq in H0. apply Z.ltb_ge in H1. done.
Qed.

(** What scheduling never changes of a micro-operation. *)
Record same_uop (x x' : uop_s) : Prop := {
  su_num : num_of x' = num_of x;
  su_thread : thread_of x' = thread_of x;
  su_q : m_allocq_num (base x') = m_allocq_num (base x);
  su_valid : m_valid x' = m_valid x;
  su_bogus : m_bogus x' = m_bogus x;
  su_type : m_uop_type (base x') = m_uop_type (base x);
  su_recorded : recorded x' = recorded x
}.
#[export] Instance same_uop_preorder : PreOrder same_uop.
Proof. split; [done |]. intros x y z [] []. split; congruence. Qed.
Lemma stable_same x x' : stable x x' -> same_uop x x'.
Proof. intros []. split; try done. unfold recorded. congruence. Qed.

Section STEP.
Context {M B : Type} `{!MemoryPath M} `{!Predictor B}.
Context (k : sched_knobs) (now : Z).
Abbreviation core := (schedule_core M B).

Lemma upd_core_done f u (c c' : core) : upd_core f u c = Done c' ->
  exists x, uops_of c !! u = Some x /\ c' = with_exec (with_xuops (<[u := f x]> (uops_of c)) (c_exec c)) c.
Proof. unfold upd_core. intros H. step H as e He. apply upd_uop_done in He as (x & Hx & ->). apply done_val in H as ->. eauto. Qed.
Lemma rob_uop_at e u (c : core) : at_entry e u (c_exec c) -> rob_uop e c = Done u.
Proof. unfold rob_uop, at_entry. by intros ->. Qed.
Lemma rob_uop_inv e u (c : core) : rob_uop e c = Done u -> at_entry e u (c_exec c).
Proof. unfold rob_uop, at_entry. intros H. step H as p Hp. apply get_or_done in H as ->. done. Qed.

(** ** The check of the sources *)

(** A change of the two fields the check writes. *)
Definition noted (rdy : bool) (p : option nat) (x : uop_s) : uop_s := with_deps (with_rdy rdy p (deps x)) x.
Lemma noted_same rdy p x : same_uop x (noted rdy p x).
Proof. done. Qed.

Definition with_uop (u : nat) (x : uop_s) (c : core) : core := with_exec (with_xuops (<[u := x]> (uops_of c)) (c_exec c)) c.
Lemma with_uop_id u x (c : core) : uops_of c !! u = Some x -> with_uop u x c = c.
Proof. intros Hx. unfold with_uop. rewrite insert_id by done. by destruct c as [[] ? ? ? ?]. Qed.

Lemma note_dep_done u x a y (c c' : core) : uops_of c !! u = Some x -> note_dep u x a y c = Done c' ->
  exists p, c' = with_uop u (noted (m_srcs_rdy (deps x)) p x) c.
Proof.
  intros Hx H. assert (Hset : forall d, upd_core (fun x => with_deps (with_rdy (m_srcs_rdy (deps x)) d (deps x)) x) u c = Done c' ->
    exists p, c' = with_uop u (noted (m_srcs_rdy (deps x)) p x) c).
  { intros d Hd. apply upd_core_done in Hd as (x0 & Hx0 & ->). rewrite Hx in Hx0. injection Hx0 as <-. by exists d. }
  unfold note_dep in H. destruct (m_last_dep_exec (deps x)) as [b |] eqn:Eb; [| by eapply Hset]. step H as z Hz.
  destruct (_ <? _); [by eapply Hset |]. apply done_val in H as ->. exists (Some b). rewrite with_uop_id; [done |]. rewrite Hx. f_equal.
  unfold noted. rewrite <- Eb. by destruct x as [? ? ? ? ? ? ? ? ? ? ? ? [] ?].
Qed.

Lemma check_loop_done n : forall i u x (c c' : core) ok, uops_of c !! u = Some x -> 0 <= i ->
  check_loop now n i u x c = Done (c', ok) ->
  exists p, c' = with_uop u (noted (ok || m_srcs_rdy (deps x)) p x) c /\
    (ok = true -> forall j si a y, (Z.to_nat i <= j < Z.to_nat i + n)%nat -> m_map_src_info (deps x) !! j = Some si -> si_uop si = Some a ->
       uops_of c !! a = Some y -> src_live x y si = true -> src_waits now y = false).
Proof.
  induction n as [| n IH]; intros i u x c c' ok Hx Hi H; simpl in H.
  { step H as c1 H1. apply done_pair in H as [-> ->]. apply upd_core_done in H1 as (x0 & Hx0 & ->). rewrite Hx in Hx0. injection Hx0 as <-.
    eexists. split; [done |]. intros. lia. }
  step H as si Hsi. apply aget_done in Hsi as [_ Hsi].
  assert (Hcont : check_loop now n (i + 1) u x c = Done (c', ok) ->
    (forall a y, si_uop si = Some a -> uops_of c !! a = Some y -> src_live x y si = true -> src_waits now y = false) ->
    exists p, c' = with_uop u (noted (ok || m_srcs_rdy (deps x)) p x) c /\
    (ok = true -> forall j si a y, (Z.to_nat i <= j < Z.to_nat i + S n)%nat -> m_map_src_info (deps x) !! j = Some si -> si_uop si = Some a ->
       uops_of c !! a = Some y -> src_live x y si = true -> src_waits now y = false)).
  { intros Hl Hnow. destruct (IH (i + 1) u x c c' ok Hx ltac:(lia) Hl) as (p & -> & Hr). exists p. split; [done |].
    intros Hok j sj a y Hj Hsj Ha Hy Hlive. destruct (decide (j = Z.to_nat i)) as [-> | Hne].
    - rewrite Hsi in Hsj. injection Hsj as <-. by eapply Hnow.
    - eapply (Hr Hok j); eauto. lia. }
  destruct (si_uop si) as [a |] eqn:Ea; [| by apply Hcont].
  step H as y Hy. apply get_s_done in Hy. destruct (src_live x y si && src_waits now y) eqn:Ew.
  - step H as c1 H1. apply done_pair in H as [-> ->]. destruct (note_dep_done _ _ _ _ _ _ Hx H1) as (p & ->). by exists p.
  - apply Hcont; [done |]. intros a0 y0 [= <-] Hy0 Hl. rewrite Hy in Hy0. injection Hy0 as <-. by rewrite Hl in Ew.
Qed.

Lemma check_srcs_done e u x (c c' : core) ok : at_entry e u (c_exec c) -> uops_of c !! u = Some x -> check_srcs now e c = Done (c', ok) ->
  exists p, c' = with_uop u (noted (ok || m_srcs_rdy (deps x)) p x) c /\ (ok = true -> m_srcs_rdy (deps x) = true \/ sources_ready now (uops_of c) x).
Proof.
  intros He Hx H. unfold check_srcs in H. rewrite (rob_uop_at _ _ _ He), bind_done, (get_s_live _ _ _ Hx), bind_done in H.
  destruct (m_srcs_rdy (deps x)) eqn:Er.
  - apply done_pair in H as [-> ->]. exists (m_last_dep_exec (deps x)). split; [| by left]. rewrite with_uop_id; [done |]. rewrite Hx. f_equal.
    unfold noted. simpl orb. rewrite <- Er. by destruct x as [? ? ? ? ? ? ? ? ? ? ? ? [] ?].
  - destruct (check_loop_done _ _ _ _ _ _ _ Hx (Z.le_refl 0) H) as (p & -> & Hr). rewrite Er. exists p. split; [done |]. intros Hok. right.
    intros si a y Hsi Ha Hy Hl. apply list_elem_of_lookup in Hsi as [j Hj]. unfold recorded in Hj. apply lookup_take_Some in Hj as [Hj Hlt].
    eapply (Hr Hok j); eauto. lia.
Qed.

(** ** One attempt *)

Definition q_of (x : uop_s) : nat := Z.to_nat (q_index (m_allocq_num (base x))).
Definition room (x : uop_s) (c : core) : Prop :=
  exists used max, m_port_used (c_exec c) !! q_of x = Some used /\ m_max_port (sk_exec k) !! q_of x = Some max /\ used < max.

Record attempt (u : nat) (x x' : uop_s) (n : Z) (ok : bool) (c c' : core) : Prop := {
  at_store : uops_of c' = <[u := x']> (uops_of c);
  at_same : same_uop x x';
  at_rob : m_rob (x_rob (c_exec c')) = m_rob (x_rob (c_exec c));
  at_max : m_max_cnt (x_rob (c_exec c')) = m_max_cnt (x_rob (c_exec c));
  at_ports : m_port_used (c_exec c') = alter (Z.add n) (q_of x) (m_port_used (c_exec c));
  at_port : n = 0 \/ n = 1 /\ room x c;
  at_rdy : m_srcs_rdy (deps x') = true -> m_srcs_rdy (deps x) = true \/ sources_ready now (uops_of c) x;
  at_sched : m_in_scheduler x' = if ok then false else m_in_scheduler x;
  at_done : ok = false -> done_of x' = done_of x;
  at_ok : ok = true -> m_bogus x = true \/ m_srcs_rdy (deps x') = true;
  at_pos : ok = true -> 0 < m_num_in_sched c;
  at_num : m_num_in_sched c' = if ok then m_num_in_sched c - 1 else m_num_in_sched c;
  at_per : m_num_per_sched c' = if ok then alter (Z.add (-1)) (q_of x) (m_num_per_sched c) else m_num_per_sched c
}.

Lemma attempt_noted u x rdy p n (c c' : core) m :
  uops_of c !! u = Some x -> n = 0 -> (rdy = true -> m_srcs_rdy (deps x) = true \/ sources_ready now (uops_of c) x) ->
  c' = with_exec (with_xmem m (c_exec (with_uop u (noted rdy p x) c))) (with_uop u (noted rdy p x) c) ->
  attempt u x (noted rdy p x) n false c c'.
Proof. intros Hx -> Hr ->. split; try done; [simpl; by rewrite alter_zero | by left]. Qed.
Lemma with_xmem_same (c : core) : with_exec (with_xmem (x_mem (c_exec c)) (c_exec c)) c = c.
Proof. by destruct c as [[] ? ? ? ?]. Qed.
Lemma noted_id x : noted (m_srcs_rdy (deps x)) (m_last_dep_exec (deps x)) x = x.
Proof. by destruct x as [? ? ? ? ? ? ? ? ? ? ? ? [] ?]. Qed.

(** The checks change at most what [noted] says and the memory. *)
Lemma may_start_done e u x (c c1 : core) why : at_entry e u (c_exec c) -> uops_of c !! u = Some x -> may_start k now e u x c = Done (c1, why) ->
  exists rdy p m, c1 = with_exec (with_xmem m (c_exec (with_uop u (noted rdy p x) c))) (with_uop u (noted rdy p x) c) /\
    (rdy = true -> m_srcs_rdy (deps x) = true \/ sources_ready now (uops_of c) x) /\
    (why = SCHED_SUCCESS -> m_bogus x = true \/ (rdy = true /\ room x c)).
Proof.
  intros He Hx H.
  assert (Hid : exists rdy p m, c = with_exec (with_xmem m (c_exec (with_uop u (noted rdy p x) c))) (with_uop u (noted rdy p x) c) /\
    (rdy = true -> m_srcs_rdy (deps x) = true \/ sources_ready now (uops_of c) x)).
  { exists (m_srcs_rdy (deps x)), (m_last_dep_exec (deps x)), (x_mem (c_exec c)). rewrite noted_id, with_uop_id by done.
    rewrite with_xmem_same. split; [done | by left]. }
  unfold may_start in H. destruct (m_bogus x) eqn:Hb.
  { apply done_pair in H as [-> ->]. destruct Hid as (rdy & p & m & E & Hr). exists rdy, p, m. split_and!; auto. }
  step H as early Hea. destruct early.
  { apply done_pair in H as [-> ->]. destruct Hid as (rdy & p & m & E & Hr). by exists rdy, p, m. }
  step H as [c2 ok] H2. destruct (check_srcs_done e u x c c2 ok He Hx H2) as (p & -> & Hr). clear Hid Hea H2.
  set (c2 := with_uop u _ c) in *. exists (ok || m_srcs_rdy (deps x)), p.
  assert (Hr' : ok || m_srcs_rdy (deps x) = true -> m_srcs_rdy (deps x) = true \/ sources_ready now (uops_of c) x).
  { intros [Ho | Hs]%orb_true_iff; [by apply Hr | by left]. }
  assert (Hdone : forall w, Done (c2, w) = Done (c1, why) -> w <> SCHED_SUCCESS \/ (ok = true /\ room x c) ->
    exists m, c1 = with_exec (with_xmem m (c_exec c2)) c2 /\
      (ok || m_srcs_rdy (deps x) = true -> m_srcs_rdy (deps x) = true \/ sources_ready now (uops_of c) x) /\
      (why = SCHED_SUCCESS -> false = true \/ (ok || m_srcs_rdy (deps x) = true /\ room x c))).
  { intros w [= <- <-] Hw. exists (x_mem (c_exec c2)). rewrite with_xmem_same. split_and!; [done | done |]. intros ->.
    destruct Hw as [Hw | [-> Hw]]; [done |]. by right. }
  destruct ok; [simpl negb in H; cbv iota in H | by eapply Hdone; [exact H | left]].
  step H as port Hport. destruct port; [simpl negb in H; cbv iota in H | by eapply Hdone; [exact H | left]].
  assert (Hroom : room x c).
  { unfold port_available in Hport. step Hport as used Hu. step Hport as mx Hm. apply done_val in Hport. symmetry in Hport. apply Z.ltb_lt in Hport.
    apply aget_done in Hu as [_ Hu]. apply aget_done in Hm as [_ Hm]. by exists used, mx. }
  destruct (_ && _ && _) in H; [| by eapply Hdone; [exact H | right]].
  destruct (KNOB_FENCE_PREF_ENABLE k); [| by eapply Hdone; [exact H | left]].
  step H as m Hm. apply done_pair in H as [-> ->]. by exists m.
Qed.

Lemma leave_scheduler_done u x x0 (c c' : core) : uops_of c !! u = Some x0 -> leave_scheduler now u x c = Done c' ->
  uops_of c' = <[u := with_sched (m_in_iaq x0) false x0]> (uops_of c) /\
  x_rob (c_exec c') = x_rob (c_exec c) /\ m_port_used (c_exec c') = m_port_used (c_exec c) /\
  0 < m_num_in_sched c /\ m_num_in_sched c' = m_num_in_sched c - 1 /\ m_num_per_sched c' = alter (Z.add (-1)) (q_of x) (m_num_per_sched c).
Proof.
  intros Hx H. unfold leave_scheduler in H. set (c1 := if bool_decide _ then _ else c) in *.
  assert (E1 : c_exec c1 = c_exec c /\ m_num_in_sched c1 = m_num_in_sched c /\ m_num_per_sched c1 = m_num_per_sched c).
  { unfold c1. by destruct (bool_decide _). }
  destruct E1 as (E1 & E2 & E3). clearbody c1. step H as c3 H3. apply upd_core_done in H3 as (x1 & Hx1 & ->). unfold uops_of in *. simpl in *.
  rewrite E1 in *. rewrite Hx in Hx1. injection Hx1 as <-. step H as [] Ha. step H as n Hn. step H as [] Hb. step H as l Hl.
  apply done_val in H as ->. simpl in *. apply aset_done in Hl as [_ ->]. apply aget_done in Hn as [_ Hn]. apply ASSERT_done, Z.ltb_lt in Ha. rewrite E2 in *. split_and!; try done.
  rewrite E3 in *. unfold q_of. rewrite (list_alter_insert _ _ _ n) by done. f_equal. lia.
Qed.

Lemma uop_schedule_done e u x (c c' : core) ok why : at_entry e u (c_exec c) -> uops_of c !! u = Some x ->
  uop_schedule k now e c = Done (c', (ok, why)) -> exists x' n, attempt u x x' n ok c c'.
Proof.
  intros He Hx H. unfold uop_schedule in H. rewrite (rob_uop_at _ _ _ He), bind_done, (get_s_live _ _ _ Hx), bind_done in H.
  destruct (_ && _ && _) in H.
  { injection H as <- <- _. exists x, 0. split; try done; [by rewrite insert_id | by rewrite alter_zero | by left | by left]. }
  step H as [c1 w] H1. destruct (may_start_done e u x c c1 w He Hx H1) as (rdy & p & m & E & Hr & Hs). clear H1.
  assert (Hfail : Done (c1, (false, w)) = Done (c', (ok, why)) -> exists x' n, attempt u x x' n ok c c').
  { intros [= <- <- _]. exists (noted rdy p x), 0. by eapply attempt_noted. }
  destruct w; try by apply Hfail. clear Hfail. specialize (Hs eq_refl). step H as [ex started] Hex.
  destruct (exec_effect (sk_exec k) now e u (c_exec c1) ex started) as (n & (y & y' & Hy & Ey & Sy & Dy & Ry & Py & Ny) & Hn); [by rewrite E | done |].
  rewrite E in Hy. unfold uops_of in Hy. simpl in Hy. rewrite lookup_insert_eq in Hy. injection Hy as <-.
  assert (Eu : x_uops ex = <[u := y']> (uops_of c)) by (rewrite Ey, E; simpl; by rewrite insert_insert_eq).
  assert (Sx : same_uop x y') by (transitivity (noted rdy p x); [done | by apply stable_same]).
  assert (Er : m_srcs_rdy (deps y') = rdy) by (by rewrite (st_deps _ _ Sy)).
  injection Ry as Ry Rm. assert (Er1 : m_rob (x_rob ex) = m_rob (x_rob (c_exec c))) by (by rewrite Ry, E).
  assert (Em1 : m_max_cnt (x_rob ex) = m_max_cnt (x_rob (c_exec c))) by (by rewrite Rm, E).
  assert (Ep : m_port_used ex = alter (Z.add n) (q_of x) (m_port_used (c_exec c))) by (by rewrite Py, E).
  assert (Hport : n = 0 \/ n = 1 /\ room x c).
  { destruct Ny as [-> | Nb]; [by left |]. change (m_bogus x = false) in Nb. destruct Hs as [Hs | [_ Hs]]; [congruence |].
    assert (n = 0 \/ n = 1) as [-> | ->] by lia; auto. }
  destruct started; simpl negb in H; cbv iota in H.
  - step H as c3 H3. injection H as <- <- _.
    destruct (leave_scheduler_done u x y' (with_exec ex c1) c3) as (L1 & L2 & L3 & L6 & L4 & L5); [by unfold uops_of; simpl; rewrite Eu, lookup_insert_eq | done |].
    exists (with_sched (m_in_iaq y') false y'), n. split; simpl; try done.
    + rewrite L1. unfold uops_of at 1. simpl. by rewrite Eu, insert_insert_eq.
    + transitivity y'; done.
    + by rewrite L2.
    + by rewrite L2.
    + by rewrite L3.
    + by rewrite Er.
    + intros _. rewrite Er. destruct Hs as [Hs | [Hs _]]; auto.
    + intros _. by rewrite E in L6.
    + rewrite L4. by rewrite E.
    + rewrite L5. by rewrite E.
  - injection H as <- <- _. exists y', n. split; simpl; try done; [by rewrite Er | by rewrite (st_sched _ _ Sy) | | by rewrite E | by rewrite E].
    intros _. by rewrite Dy.
Qed.
End STEP.

(** ** The invariant *)

Section INVARIANT.
Context {M B : Type} `{!MemoryPath M} `{!Predictor B}.
Context (k : sched_knobs) (now : Z).
Abbreviation core := (schedule_core M B).

Definition entry_uop (c : core) (e : Z) (u : nat) (x : uop_s) : Prop := at_entry e u (c_exec c) /\ uops_of c !! u = Some x.
(** The queue of the micro-operation at an entry. *)
Definition entry_q (c : core) (e : Z) : option nat :=
  match aget (m_rob (x_rob (c_exec c))) e with Done (Some u) => q_of <$> (uops_of c !! u) | _ => None end.
Definition count_q (c : core) (i : nat) (w : list Z) : Z := countb (fun e => bool_decide (entry_q c e = Some i)) w.

(** [d] left the scheduler in this cycle, [w] wait, [q] are in the allocation
    queues. *)
Record core_ok (d w q : list Z) (c : core) : Prop := {
  co_entry : forall e, e ∈ d ++ w ++ q -> exists u x, entry_uop c e u x;
  co_inj : forall e e' u, e ∈ d ++ w ++ q -> e' ∈ d ++ w ++ q -> at_entry e u (c_exec c) -> at_entry e' u (c_exec c) -> e = e';
  co_nodup : NoDup (d ++ w ++ q);
  co_gone : forall e u x, e ∈ d -> entry_uop c e u x -> m_in_scheduler x = false /\ (m_bogus x = true \/ m_srcs_rdy (deps x) = true);
  co_wait : forall e u x, e ∈ w -> entry_uop c e u x -> m_in_scheduler x = true /\ done_of x = 0;
  co_num : m_num_in_sched c = Z.of_nat (length w);
  co_per : length (m_num_per_sched c) = max_ALLOCQ /\ forall i n, m_num_per_sched c !! i = Some n -> n = count_q c i w;
  co_size : forall i n size, m_num_per_sched c !! i = Some n -> m_sched_size k !! i = Some size -> n <= size;
  co_ports : forall i used max, m_port_used (c_exec c) !! i = Some used -> m_max_port (sk_exec k) !! i = Some max -> used <= max;
  co_rdy : forall u x, uops_of c !! u = Some x -> m_srcs_rdy (deps x) = true -> sources_ready now (uops_of c) x
}.

Lemma entry_uop_fun c e u x u' x' : entry_uop c e u x -> entry_uop c e u' x' -> u' = u /\ x' = x.
Proof. intros [A1 A2] [B1 B2]. unfold at_entry in *. rewrite A1 in B1. injection B1 as <-. rewrite A2 in B2. by injection B2 as <-. Qed.
Lemma entry_q_of c e u x : entry_uop c e u x -> entry_q c e = Some (q_of x).
Proof. intros [A1 A2]. unfold entry_q. unfold at_entry in A1. by rewrite A1, A2. Qed.

(** A change of one object that keeps what identifies it keeps every queue. *)
Lemma entry_q_upd (c c' : core) u x x' e : uops_of c !! u = Some x -> same_uop x x' -> uops_of c' = <[u := x']> (uops_of c) ->
  m_rob (x_rob (c_exec c')) = m_rob (x_rob (c_exec c)) -> entry_q c' e = entry_q c e.
Proof.
  intros Hx Hs Hu Hr. unfold entry_q. rewrite Hr, Hu. destruct (aget _ e) as [[v |] |]; try done.
  destruct (decide (v = u)) as [-> | Hne]; [| by rewrite lookup_insert_ne]. rewrite lookup_insert_eq, Hx. simpl. unfold q_of. by rewrite (su_q _ _ Hs).
Qed.
Lemma count_q_upd (c c' : core) u x x' i w : uops_of c !! u = Some x -> same_uop x x' -> uops_of c' = <[u := x']> (uops_of c) ->
  m_rob (x_rob (c_exec c')) = m_rob (x_rob (c_exec c)) -> count_q c' i w = count_q c i w.
Proof. intros. unfold count_q. apply countb_ext. intros e _. by erewrite entry_q_upd. Qed.
Lemma entry_uop_upd (c c' : core) u x x' e v y : uops_of c !! u = Some x -> uops_of c' = <[u := x']> (uops_of c) ->
  m_rob (x_rob (c_exec c')) = m_rob (x_rob (c_exec c)) -> entry_uop c' e v y ->
  (v = u /\ y = x' /\ entry_uop c e u x) \/ (v <> u /\ entry_uop c e v y).
Proof.
  intros Hx Hu Hr [A1 A2]. unfold at_entry in *. rewrite Hr in A1. rewrite Hu in A2. destruct (decide (v = u)) as [-> | Hne].
  - rewrite lookup_insert_eq in A2. injection A2 as <-. left. by split_and!.
  - rewrite lookup_insert_ne in A2 by done. right. by split_and!.
Qed.

(** Readiness survives when an object that had no result by [now] changes, and
    when the object keeps its result. *)
Lemma sources_ready_upd (σ : uop_store) u x x' y y' : σ !! u = Some x -> same_uop x x' -> same_uop y y' ->
  src_waits now x = true \/ src_waits now x' = false -> sources_ready now σ y -> sources_ready now (<[u := x']> σ) y'.
Proof.
  intros Hx Hs Hy Hw Hr si a z Hsi Ha Hz Hl. rewrite (su_recorded _ _ Hy) in Hsi. unfold src_live in Hl. rewrite (su_thread _ _ Hy) in Hl.
  destruct (decide (a = u)) as [-> | Hne].
  - rewrite lookup_insert_eq in Hz. injection Hz as <-. destruct Hw as [Hw | Hw]; [| done]. exfalso.
    rewrite (Hr si u x Hsi Ha Hx) in Hw; [done |]. unfold src_live. by rewrite <- (su_valid _ _ Hs), <- (su_num _ _ Hs), <- (su_thread _ _ Hs).
  - rewrite lookup_insert_ne in Hz by done. by eapply Hr.
Qed.
Lemma src_waits_same x x' : done_of x' = done_of x -> src_waits now x' = src_waits now x.
Proof. unfold src_waits. by intros ->. Qed.
Lemma src_waits_kept x x' : done_of x' = done_of x -> src_waits now x = true \/ src_waits now x' = false.
Proof. intros E. rewrite (src_waits_same _ _ E). destruct (src_waits now x); auto. Qed.

(** One object changes and its entry may move between the lists. *)
Lemma core_ok_step d w q (c : core) d' w' q' (c' : core) e u x x' :
  core_ok d w q c -> entry_uop c e u x -> e ∈ d ++ w ++ q ->
  uops_of c' = <[u := x']> (uops_of c) -> m_rob (x_rob (c_exec c')) = m_rob (x_rob (c_exec c)) -> same_uop x x' ->
  (forall e', e' ∈ d' -> e' = e \/ e' ∈ d) -> (forall e', e' ∈ w' -> e' = e \/ e' ∈ w) -> (forall e', e' ∈ q' -> e' ∈ q) ->
  NoDup (d' ++ w' ++ q') ->
  (e ∈ d' -> m_in_scheduler x' = false /\ (m_bogus x' = true \/ m_srcs_rdy (deps x') = true)) ->
  (e ∈ w' -> m_in_scheduler x' = true /\ done_of x' = 0) ->
  m_num_in_sched c' = Z.of_nat (length w') ->
  (length (m_num_per_sched c') = max_ALLOCQ /\ forall i n, m_num_per_sched c' !! i = Some n -> n = count_q c i w') ->
  (forall i n size, m_num_per_sched c' !! i = Some n -> m_sched_size k !! i = Some size -> n <= size) ->
  (forall i used max, m_port_used (c_exec c') !! i = Some used -> m_max_port (sk_exec k) !! i = Some max -> used <= max) ->
  (m_srcs_rdy (deps x') = true -> m_srcs_rdy (deps x) = true \/ sources_ready now (uops_of c) x) ->
  (src_waits now x = true \/ src_waits now x' = false) ->
  core_ok d' w' q' c'.
Proof.
  intros [C1 C2 C3 C4 C5 C6 C7 Cs C8 C9] Hxu Hin Hu Hr Hs Hd Hw Hq Hnd Hed Hew Hnum [Hlen Hper] Hsize Hports Hrdy Hwait. pose proof Hxu as [He Hx].
  assert (Hsub : forall e', e' ∈ d' ++ w' ++ q' -> e' ∈ d ++ w ++ q).
  { assert (Hine : e ∈ d \/ e ∈ w \/ e ∈ q) by (by rewrite !elem_of_app in Hin). intros e'. rewrite !elem_of_app.
    intros [He' | [He' | He']]; [apply Hd in He' as [-> | He'] | apply Hw in He' as [-> | He'] | apply Hq in He']; auto. }
  assert (Hother : forall e' v y, e' ∈ d ++ w ++ q -> v <> u -> entry_uop c e' v y -> e' <> e).
  { intros e' v y _ Hne [A1 _] ->. unfold at_entry in *. congruence. }
  assert (Hown : forall e', e' ∈ d ++ w ++ q -> entry_uop c e' u x -> e' = e). { intros e' Hin' [A1 _]. by eapply C2. }
  split; try done.
  - intros e' Hin'. destruct (C1 e' (Hsub _ Hin')) as (v & y & A1 & A2). unfold entry_uop, at_entry in *. rewrite Hr, Hu.
    destruct (decide (v = u)) as [-> | Hne]; [exists u, x' | exists v, y]; (split; [done |]); by simplify_map_eq.
  - intros e1 e2 v H1 H2 A1 A2. unfold at_entry in *. rewrite Hr in A1, A2. eapply C2; eauto.
  - intros e' v y Hin' Hy. destruct (entry_uop_upd c c' u x x' e' v y Hx Hu Hr Hy) as [(-> & -> & Hc) | [Hne Hc]].
    + rewrite (Hown e') in Hin'; [by apply Hed | apply Hsub; rewrite elem_of_app; auto | done].
    + destruct (Hd e' Hin') as [-> | Hd']; [| by eapply C4]. exfalso. by eapply (Hother e v y).
  - intros e' v y Hin' Hy. destruct (entry_uop_upd c c' u x x' e' v y Hx Hu Hr Hy) as [(-> & -> & Hc) | [Hne Hc]].
    + rewrite (Hown e') in Hin'; [by apply Hew | apply Hsub; rewrite !elem_of_app; auto | done].
    + destruct (Hw e' Hin') as [-> | Hw']; [| by eapply C5]. exfalso. by eapply (Hother e v y).
  - split; [done |]. intros i n Hn. by rewrite (count_q_upd c c' u x x') by done; apply Hper.
  - intros v y Hv Hy. rewrite Hu in *. destruct (decide (v = u)) as [-> | Hne].
    + rewrite lookup_insert_eq in Hv. injection Hv as <-. eapply sources_ready_upd; eauto. destruct (Hrdy Hy) as [Hy' |]; [by eapply C9 | done].
    + rewrite lookup_insert_ne in Hv by done. eapply sources_ready_upd; eauto. done.
Qed.

Lemma lookup_alter_add (l : list Z) i j n m : alter (Z.add n) i l !! j = Some m -> exists m', l !! j = Some m' /\ m = m' + (if decide (i = j) then n else 0).
Proof.
  destruct (decide (i = j)) as [-> | Hne].
  - rewrite list_lookup_alter_eq. intros H. destruct (l !! j) as [a |]; [| done]. injection H as <-. exists a. split; [done | lia].
  - rewrite list_lookup_alter_ne by done. intros ->. exists m. split; [done | lia].
Qed.

Lemma ports_step (c c' : core) x n : n = 0 \/ n = 1 /\ room k x c ->
  m_port_used (c_exec c') = alter (Z.add n) (q_of x) (m_port_used (c_exec c)) ->
  (forall i used max, m_port_used (c_exec c) !! i = Some used -> m_max_port (sk_exec k) !! i = Some max -> used <= max) ->
  forall i used max, m_port_used (c_exec c') !! i = Some used -> m_max_port (sk_exec k) !! i = Some max -> used <= max.
Proof.
  intros Hn E Hp i used max Hu Hm. rewrite E in Hu. apply lookup_alter_add in Hu as (v & Hv & ->). specialize (Hp i v max Hv Hm).
  destruct (decide (q_of x = i)) as [<- |]; [| lia]. destruct Hn as [-> | (-> & used0 & max0 & Hu0 & Hm0 & Hlt)]; [lia |].
  simplify_eq. lia.
Qed.

(** An attempt keeps the invariant; the entry leaves when it starts. *)
Lemma attempt_ok d w1 e w2 q (c c' : core) u x x' n ok : core_ok d (w1 ++ e :: w2) q c -> entry_uop c e u x ->
  attempt k now u x x' n ok c c' ->
  if ok then core_ok (d ++ [e]) (w1 ++ w2) q c' else core_ok d (w1 ++ e :: w2) q c'.
Proof.
  intros Hok Hxu [T1 T2 T3 Tm T4 T5 T6 T7 T8 T9 Tp T10 T11]. pose proof Hok as [C1 C2 C3 C4 C5 C6 C7 Cs C8 C9].
  assert (Hew : e ∈ w1 ++ e :: w2) by (rewrite elem_of_app, elem_of_cons; auto).
  assert (Hin : e ∈ d ++ (w1 ++ e :: w2) ++ q) by (rewrite !elem_of_app; rewrite elem_of_app in Hew; auto).
  destruct (C5 e u x Hew Hxu) as [Hsch Hdone]. destruct C7 as [Hlen Hper].
  assert (Hed : e ∉ d). { intros Hd. destruct (C4 e u x Hd Hxu) as [? _]. congruence. }
  destruct ok.
  - assert (Hperm : (d ++ [e]) ++ (w1 ++ w2) ++ q ≡ₚ d ++ (w1 ++ e :: w2) ++ q) by solve_Permutation.
    eapply (core_ok_step d (w1 ++ e :: w2) q c); try exact Hok; try exact Hxu; try done.
    + intros e'. rewrite elem_of_app, list_elem_of_singleton. intuition.
    + intros e'. rewrite !elem_of_app, elem_of_cons. intuition.
    + by rewrite Hperm.
    + intros _. split; [done |]. rewrite (su_bogus _ _ T2). auto.
    + intros Hw. exfalso. rewrite <- Hperm in C3. apply NoDup_app in C3 as (_ & C3 & _).
      apply (C3 e); rewrite elem_of_app; [right; by apply list_elem_of_singleton | by left].
    + rewrite T10, C6, !length_app. simpl. lia.
    + rewrite T11. split; [by rewrite length_alter |]. intros i m Hm. apply lookup_alter_add in Hm as (m' & Hm' & ->).
      rewrite (Hper i m' Hm'). unfold count_q. rewrite (countb_perm _ _ (e :: w1 ++ w2)) by solve_Permutation. rewrite countb_cons, (entry_q_of _ _ _ _ Hxu).
      destruct (decide (q_of x = i)) as [<- | Hne]; [rewrite bool_decide_true by done; lia | rewrite bool_decide_false by congruence; lia].
    + rewrite T11. intros i m size Hm Hsz. apply lookup_alter_add in Hm as (m' & Hm' & ->). specialize (Cs i m' size Hm' Hsz).
      destruct (decide _); lia.
    + by eapply ports_step.
    + left. unfold src_waits. by rewrite Hdone.
  - eapply (core_ok_step d (w1 ++ e :: w2) q c); try exact Hok; try exact Hxu; try done; auto.
    + intros _. rewrite T7, T8; done.
    + by rewrite T10.
    + by rewrite T11.
    + by rewrite T11.
    + by eapply ports_step.
    + apply src_waits_kept. auto.
Qed.

(** ** A pass over the waiting entries *)

Lemma select_ok l : forall d pre q count (c : core) rest n c', core_ok d (pre ++ l) q c ->
  select k now l count c = Done (rest, n, c') ->
  exists d', core_ok (d ++ d') (pre ++ rest) q c' /\ d' ++ rest ≡ₚ l /\ rest `sublist_of` l /\ n = count + Z.of_nat (length d') /\
    (m_knob_sched_to_width k = true -> count < m_knob_width k -> n <= m_knob_width k).
Proof.
  induction l as [| e l IH]; intros d pre q count c rest n c' Hok H; simpl in H.
  { injection H as <- <- <-. exists []. rewrite !app_nil_r. split_and!; try done; [rewrite app_nil_r in Hok; done | simpl; lia | lia]. }
  step H as [c1 [ok why]] H1. destruct (co_entry _ _ _ _ Hok e) as (u & x & Hxu).
  { rewrite !elem_of_app, elem_of_cons. auto. }
  destruct Hxu as [He Hx]. destruct (uop_schedule_done k now e u x c c1 ok why He Hx H1) as (x' & p & Hat).
  pose proof (attempt_ok _ _ _ _ _ _ _ _ _ _ _ _ Hok (conj He Hx) Hat) as Hok1. destruct ok; simpl negb in H; cbv iota in H.
  - destruct (m_knob_sched_to_width k && (m_knob_width k <=? count + 1)) eqn:Ew.
    + injection H as <- <- <-. exists [e]. split_and!; try done; [by apply sublist_cons | simpl; intros; lia].
    + destruct (IH (d ++ [e]) pre q (count + 1) c1 rest n c' Hok1 H) as (d' & H2 & H3 & H4 & -> & H6). exists (e :: d').
      rewrite <- app_assoc in H2. split_and!; [done | simpl; by rewrite H3 | by apply sublist_cons | simpl; lia |].
      intros Hk Hc. apply H6; [done |]. rewrite Hk in Ew. simpl in Ew. apply Z.leb_gt in Ew. lia.
  - step H as [[rest1 n1] c2] H2. injection H as <- <- <-. rewrite cons_middle, app_assoc in Hok1.
    destruct (IH d (pre ++ [e]) q count c1 rest1 n1 c2 Hok1 H2) as (d' & K2 & K3 & K4 & -> & K6). exists d'.
    rewrite <- app_assoc in K2. split_and!; try done; [| by apply sublist_skip]. rewrite <- K3. solve_Permutation.
Qed.

(** ** Filling up from the allocation queues *)

Abbreviation sched := (schedule_c M B).
Definition queue_entries (aq : pqueue_c (T := Z)) : list Z := m_data <$> contents aq.
Definition queued (s : sched) : list Z := concat (queue_entries <$> m_alloc_q s).

Record sched_at (d : list Z) (s : sched) : Prop := {
  sa_list : list_wf s;
  sa_core : core_ok d (waiting s) (queued s) (s_core s);
  sa_queues : Forall pq_inv (m_alloc_q s);
  sa_four : length (m_alloc_q s) = max_ALLOCQ
}.

Lemma waiting_push (s : sched) e : list_wf s -> (m_last_schlist_ptr s + 1) mod MAX_SCHED_SIZE <> m_first_schlist_ptr s -> live e ->
  let s' := with_list (<[Z.to_nat (m_last_schlist_ptr s) := e]> (m_schedule_list s)) (m_first_schlist_ptr s)
              ((m_last_schlist_ptr s + 1) mod MAX_SCHED_SIZE) s in
  list_wf s' /\ waiting s' = waiting s ++ [e].
Proof.
  intros Hwf Hfull He s'. pose proof Hwf as [L1 L2 L3]. set (f := m_first_schlist_ptr s) in *. set (la := m_last_schlist_ptr s) in *.
  pose proof (mod_size (la - f)) as Hw. assert (Hla : (f + Z.of_nat (window s)) mod MAX_SCHED_SIZE = la).
  { unfold window. fold f la. rewrite Z2Nat.id by lia. rewrite Zplus_mod_idemp_r, Z.mod_small; lia. }
  assert (Hroom : Z.of_nat (window s) + 1 < MAX_SCHED_SIZE).
  { unfold window. fold f la. rewrite Z2Nat.id by lia. destruct (Z.eq_dec ((la - f) mod MAX_SCHED_SIZE) (MAX_SCHED_SIZE - 1)) as [E |]; [| lia].
    exfalso. apply Hfull. rewrite <- Hla, Zplus_mod_idemp_l. unfold window. fold f la. rewrite Z2Nat.id, E by lia.
    replace (f + (MAX_SCHED_SIZE - 1) + 1) with (f + 1 * MAX_SCHED_SIZE) by lia. rewrite Z.mod_add by done. by apply Z.mod_small. }
  assert (Ht : at_turn s' f 0 (S (window s))).
  { repeat split; simpl; [by rewrite length_insert | lia | by rewrite Z.mod_small |]. rewrite <- Hla at 1. rewrite Zplus_mod_idemp_l. f_equal. lia. }
  destruct (at_turn_waiting s' f 0 _ Ht) as [Hwf' ->]. split; [done |]. change (filter live (ring (m_schedule_list s') f 0)) with (@nil Z).
  rewrite app_nil_l, Z.add_0_r.
  rewrite ring_snoc, filter_app, Hla. simpl m_schedule_list. rewrite list_lookup_insert_eq by lia. simpl default. rewrite filter_cons_True by done.
  f_equal. unfold waiting. fold f. pose proof (ring_set (m_schedule_list s) f 0 (window s) (Z.of_nat (window s)) e) as H.
  rewrite Z.add_0_r, Hla in H. rewrite H; [done | lia | lia | lia | lia].
Qed.

Lemma queued_dequeue (s : sched) i aq aq' e rest : m_alloc_q s !! i = Some aq -> contents aq = e :: rest -> contents aq' = rest ->
  queued s ≡ₚ m_data e :: queued (with_queues (<[i := aq']> (m_alloc_q s)) s).
Proof.
  intros Hi Hc Hc'. unfold queued. simpl. revert i Hi. induction (m_alloc_q s) as [| a l IH]; intros [| i] Hi; simpl in *; try done.
  - injection Hi as ->. unfold queue_entries. by rewrite Hc, Hc'.
  - rewrite (IH i Hi). solve_Permutation.
Qed.

Context (Hnow : 0 < now) (Hrate : length (m_sched_rate k) = max_ALLOCQ) (Hsz : length (m_sched_size k) = max_ALLOCQ).

Lemma q_index_range a : 0 <= q_index a < Z.of_nat max_ALLOCQ.
Proof. by destruct a. Qed.
Lemma upd_core_live f u x (c : core) : uops_of c !! u = Some x -> upd_core f u c = Done (with_uop u (f x) c).
Proof. intros H. unfold upd_core. by rewrite (upd_uop_live _ _ _ x). Qed.

(** A flushed entry is dropped from its queue. *)
Lemma drop_ok d w q q' (c : core) e u x : core_ok d w q c -> entry_uop c e u x -> q ≡ₚ e :: q' -> core_ok d w q' (with_uop u (with_done now x) c).
Proof.
  intros Hok Hxu Hq. pose proof Hok as [C1 C2 C3 C4 C5 C6 C7 Cs C8 C9]. rewrite Hq in C3. assert (Hnd : NoDup (e :: d ++ w ++ q')).
  { by rewrite !Permutation_middle. }
  apply NoDup_cons in Hnd as [He Hnd]. rewrite !elem_of_app in He.
  eapply (core_ok_step d w q c); try exact Hok; try exact Hxu; try done; auto.
  - rewrite !elem_of_app, Hq, elem_of_cons. auto.
  - intros e'. rewrite Hq, elem_of_cons. auto.
  - intros Hd. exfalso. auto.
  - intros Hw. exfalso. auto.
  - right. unfold src_waits. change (done_of (with_done now x)) with now. lia.
Qed.

(** An entry moves from its queue to the end of the waiting ones. *)
Lemma enter_ok d w q q' (c : core) e u x per : core_ok d w q c -> entry_uop c e u x -> q ≡ₚ e :: q' -> done_of x = 0 ->
  m_num_per_sched c !! q_of x = Some per -> (forall size, m_sched_size k !! q_of x = Some size -> per < size) ->
  core_ok d (w ++ [e]) q' (with_counts (m_num_in_sched c + 1) (<[q_of x := per + 1]> (m_num_per_sched c)) (with_uop u (with_sched false true x) c)).
Proof.
  intros Hok Hxu Hq Hdone Hper Hlt. pose proof Hok as [C1 C2 C3 C4 C5 C6 [Cl C7] Cs C8 C9]. rewrite Hq in C3.
  assert (Hnd : NoDup (e :: d ++ w ++ q')). { by rewrite !Permutation_middle. }
  assert (He : ~ e ∈ d /\ ~ e ∈ w). { apply NoDup_cons in Hnd as [He _]. rewrite !elem_of_app in He. split; auto. }
  assert (Hl : forall i n, <[q_of x := per + 1]> (m_num_per_sched c) !! i = Some n ->
    (i = q_of x /\ n = per + 1) \/ (i <> q_of x /\ m_num_per_sched c !! i = Some n)).
  { intros i n Hi. apply list_lookup_insert_Some in Hi as [(<- & -> & _) | [Hne Hi]]; [left | right]; auto. }
  eapply (core_ok_step d w q c); try exact Hok; try exact Hxu; try done; auto.
  - rewrite !elem_of_app, Hq, elem_of_cons. auto.
  - intros e'. rewrite elem_of_app, list_elem_of_singleton. intuition.
  - intros e'. rewrite Hq, elem_of_cons. auto.
  - assert (d ++ (w ++ [e]) ++ q' ≡ₚ e :: d ++ w ++ q') as -> by solve_Permutation. done.
  - intros Hd. by destruct He.
  - simpl. rewrite C6, length_app. simpl. lia.
  - simpl. split; [by rewrite length_insert |]. intros i n Hi. unfold count_q. rewrite countb_app. simpl countb at 2.
    rewrite (entry_q_of _ _ _ _ Hxu). destruct (Hl i n Hi) as [[-> ->] | [Hne Hi']].
    + rewrite bool_decide_true by done. rewrite (C7 _ _ Hper). unfold count_q. lia.
    + rewrite bool_decide_false by congruence. rewrite (C7 _ _ Hi'). unfold count_q. lia.
  - simpl. intros i n size Hi Hs. destruct (Hl i n Hi) as [[-> ->] | [Hne Hi']]; [specialize (Hlt size Hs); lia | by eapply Cs].
  - apply src_waits_kept. done.
Qed.

(** What filling up does: some entries leave the queues, those in [mv] to the
    end of the waiting ones, those in [fl] because they are flushed or done. *)
Definition full (s : sched) : Prop := (m_last_schlist_ptr s + 1) mod MAX_SCHED_SIZE = m_first_schlist_ptr s.
Definition live_entry (c : core) (e : Z) : Prop := exists u x, entry_uop c e u x /\ m_bogus x = false /\ done_of x = 0.
Definition flushed_entry (c : core) (e : Z) : Prop := exists u x, entry_uop c e u x /\ (m_bogus x = true \/ done_of x <> 0).
Record fill_frame (mv fl : list Z) (s s' : sched) : Prop := {
  ff_moved : Forall (live_entry (s_core s)) mv;
  ff_flushed : Forall (flushed_entry (s_core s)) fl;
  ff_kept : forall e u x, e ∈ queued s' -> entry_uop (s_core s') e u x -> entry_uop (s_core s) e u x;
  ff_class : forall e, entry_q (s_core s') e = entry_q (s_core s) e;
  ff_full : full s -> full s';
  ff_running : m_schedule_running s' = m_schedule_running s;
  ff_next : m_next_inorder_to_schedule s' = m_next_inorder_to_schedule s
}.
Definition filled (d : list Z) (s s' : sched) : Prop :=
  exists mv fl, sched_at d s' /\ waiting s' = waiting s ++ mv /\ mv ++ fl ++ queued s' ≡ₚ queued s /\ fill_frame mv fl s s'.
Lemma filled_refl d s : sched_at d s -> filled d s s.
Proof. intros H. exists [], []. rewrite app_nil_r. by split_and!. Qed.
Lemma filled_trans d s s1 s2 : filled d s s1 -> filled d s1 s2 -> filled d s s2.
Proof.
  intros (mv & fl & A1 & A2 & A3 & [F1 F2 F3 F4 F5 F6 F7]) (mv' & fl' & B1 & B2 & B3 & [G1 G2 G3 G4 G5 G6 G7]). exists (mv ++ mv'), (fl ++ fl').
  assert (Hin : forall e, e ∈ mv' \/ e ∈ fl' -> e ∈ queued s1) by (intros e He; rewrite <- B3, !elem_of_app; tauto).
  split_and!; [done | by rewrite B2, A2, app_assoc | rewrite <- A3, <- B3; solve_Permutation |].
  constructor; [| | | | | congruence | congruence].
  - apply Forall_app. split; [done |]. rewrite Forall_forall in *. intros e He. destruct (G1 e He) as (u & x & H1 & H2). exists u, x. split; [| done]. by apply F3; [apply Hin; left |].
  - apply Forall_app. split; [done |]. rewrite Forall_forall in *. intros e He. destruct (G2 e He) as (u & x & H1 & H2). exists u, x. split; [| done]. by apply F3; [apply Hin; right |].
  - intros e u x He Hx. assert (He1 : e ∈ queued s1) by (rewrite <- B3, !elem_of_app; auto). by apply F3, G3.
  - intros e. by rewrite G4, F4.
  - auto.
Qed.
(** What stays in the queues keeps its micro-operation when an entry leaves them. *)
Lemma kept_upd d (s s' : sched) e u x x' : sched_at d s -> entry_uop (s_core s) e u x -> queued s ≡ₚ e :: queued s' ->
  uops_of (s_core s') = <[u := x']> (uops_of (s_core s)) -> m_rob (x_rob (c_exec (s_core s'))) = m_rob (x_rob (c_exec (s_core s))) ->
  forall e' v y, e' ∈ queued s' -> entry_uop (s_core s') e' v y -> entry_uop (s_core s) e' v y.
Proof.
  intros [_ S2 _ _] Hxu Hq Hu Hr e' v y Hin Hy. pose proof (co_nodup _ _ _ _ S2) as Hnd. rewrite Hq in Hnd.
  destruct (entry_uop_upd _ _ u x x' e' v y (proj2 Hxu) Hu Hr Hy) as [(-> & -> & Hc') | [_ Hc']]; [| done].
  exfalso. assert (e' = e) as ->. { eapply (co_inj _ _ _ _ S2 e' e u); [| | apply Hc' | apply Hxu]; rewrite !elem_of_app, Hq, elem_of_cons; auto. }
  apply NoDup_app in Hnd as (_ & _ & Hnd). apply NoDup_app in Hnd as (_ & _ & Hnd). by apply NoDup_cons in Hnd as [? _].
Qed.

(** One turn of [advance] that takes an entry. *)
Lemma advance_take d (s : sched) i aq e rest aq' : sched_at d s -> m_alloc_q s !! i = Some aq -> contents aq = e :: rest -> contents aq' = rest ->
  pq_inv aq' -> exists u x, entry_uop (s_core s) (m_data e) u x /\
  let s1 := with_queues (<[i := aq']> (m_alloc_q s)) s in
  (m_bogus x = true \/ done_of x <> 0 -> filled d s (with_core (with_uop u (with_done now x) (s_core s)) s1)) /\
  (forall per, m_bogus x = false -> done_of x = 0 -> (m_last_schlist_ptr s + 1) mod MAX_SCHED_SIZE <> m_first_schlist_ptr s ->
     m_num_per_sched (s_core s) !! q_of x = Some per -> (forall size, m_sched_size k !! q_of x = Some size -> per < size) ->
     let s2 := with_list (<[Z.to_nat (m_last_schlist_ptr s) := m_data e]> (m_schedule_list s)) (m_first_schlist_ptr s)
       ((m_last_schlist_ptr s + 1) mod MAX_SCHED_SIZE)
       (with_core (with_counts (m_num_in_sched (s_core s) + 1) (<[q_of x := per + 1]> (m_num_per_sched (s_core s)))
          (with_uop u (with_sched false true x) (s_core s))) s1) in
     filled d s s2 /\ waiting s2 = waiting s ++ [m_data e]).
Proof.
  intros Hs Hi Hc Hc' Hq. pose proof Hs as [S1 S2 S3 S4]. pose proof (queued_dequeue s i aq aq' e rest Hi Hc Hc') as Hp.
  destruct (co_entry _ _ _ _ S2 (m_data e)) as (u & x & Hxu). { rewrite !elem_of_app, Hp, elem_of_cons. auto. }
  exists u, x. split; [done |]. intros s1. assert (Hqs : Forall pq_inv (m_alloc_q s1)) by (by apply Forall_insert).
  assert (Hfour : length (m_alloc_q s1) = max_ALLOCQ) by (unfold s1; simpl; by rewrite length_insert). split.
  - intros Hfl. exists [], [m_data e]. split_and!; [| by rewrite app_nil_r | by rewrite Hp |].
    + split; [by destruct S1 | by eapply drop_ok | done | done].
    + constructor; [apply Forall_nil_2 | apply Forall_singleton; by exists u, x | | | done | done | done].
      * eapply (kept_upd d s _ (m_data e) u x _ Hs Hxu); [exact Hp | done | done].
      * intros e'. eapply (entry_q_upd _ _ u x); [apply Hxu | | reflexivity | done]; by split.
  - intros per Hb Hd Hfull Hper Hlt. set (s2 := with_core _ s1).
    assert (He : live (m_data e)). { destruct Hxu as [He _]. apply aget_done in He as [He _]. unfold live. lia. }
    destruct (waiting_push s2 (m_data e)) as [Hwf Hw]; [by destruct S1 | done | done |]. split; [| exact Hw]. exists [m_data e], [].
    split_and!; [| exact Hw | by rewrite Hp |].
    + split; [exact Hwf | refine (eq_ind_r (fun w => core_ok d w _ _) _ Hw) | done | done]. eapply (enter_ok d (waiting s) (queued s)); eauto.
    + constructor; [| apply Forall_nil_2 | | | by intros ? | done | done].
      * apply Forall_singleton. by exists u, x.
      * eapply (kept_upd d s _ (m_data e) u x _ Hs Hxu); [exact Hp | done | done].
      * intros e'. eapply (entry_q_upd _ _ u x); [apply Hxu | | reflexivity | done]; by split.
Qed.

Lemma aget_four {A} (l : list A) (a : ALLOCQ) : length l = max_ALLOCQ -> exists z, l !! Z.to_nat (q_index a) = Some z /\ aget l (q_index a) = Done z.
Proof. intros Hl. apply aget_in_range. rewrite Hl. apply q_index_range. Qed.

(** Why a queue is left, when it has moved [n] entries of each kind and then those of
    [mv]: its first entry is not ready, the list is full, or the entry's kind has
    used up its rate or its part of the list. *)
Definition stuck (i : nat) (count : list Z) (mv : list Z) (s' : sched) : Prop :=
  exists aq, m_alloc_q s' !! i = Some aq /\
    (ready aq = Done false \/ full s' \/
     exists e rest u x per size n rate, contents aq = e :: rest /\ entry_uop (s_core s') (m_data e) u x /\
       m_num_per_sched (s_core s') !! q_of x = Some per /\ m_sched_size k !! q_of x = Some size /\
       count !! q_of x = Some n /\ m_sched_rate k !! q_of x = Some rate /\ (size <= per \/ rate <= n + count_q (s_core s') (q_of x) mv)).
Lemma stuck_step i cnt cnt1 mv1 mv s' :
  (forall j n, cnt1 !! j = Some n -> exists n0, cnt !! j = Some n0 /\ n <= n0 + count_q (s_core s') j mv1) -> stuck i cnt1 mv s' -> stuck i cnt (mv1 ++ mv) s'.
Proof.
  intros Hc (aq & Haq & H). exists aq. split; [done |]. destruct H as [H | [H | H]]; [by left | by right; left |].
  destruct H as (e & rest & u & x & per & size & n & rate & H1 & H2 & H3 & H4 & H5 & H6 & H7). destruct (Hc _ _ H5) as (n0 & H8 & H9).
  right. right. exists e, rest, u, x, per, size, n0, rate. split_and!; try done. unfold count_q in *. rewrite countb_app. destruct H7; [by left | right; lia].
Qed.
Lemma queue_entry_queued i aq e rest (s : sched) : m_alloc_q s !! i = Some aq -> contents aq = e :: rest -> m_data e ∈ queued s.
Proof.
  intros Hi Hc. unfold queued. revert i Hi. induction (m_alloc_q s) as [| a l IH]; intros [| i] Hi; simpl in *; try done.
  - injection Hi as ->. unfold queue_entries. rewrite Hc. left.
  - rewrite elem_of_app. right. by eapply IH.
Qed.
(** The other queues do not change that. *)
Lemma stuck_later d i count mv mv' s s1 :
  sched_at d s -> stuck i count mv s -> filled d s s1 -> m_alloc_q s1 !! i = m_alloc_q s !! i -> waiting s1 = waiting s ++ mv' -> stuck i count (mv ++ mv') s1.
Proof.
  intros Hs (aq & Haq & H) (mv1 & fl & A1 & A2 & A3 & [F1 F2 F3 F4 F5 F6 F7]) Ei Hw. rewrite A2 in Hw. apply app_inv_head in Hw as ->.
  assert (Hcount : forall j w, count_q (s_core s1) j w = count_q (s_core s) j w) by (intros j w; unfold count_q; apply countb_ext; intros e _; by rewrite F4).
  exists aq. rewrite Ei. split; [done |]. destruct H as [H | [H | H]]; [by left | right; left; by apply F5 |].
  destruct H as (e & rest & u & x & per & size & n & rate & H1 & H2 & H3 & H4 & H5 & H6 & H7). right. right. rewrite <- Ei in Haq.
  destruct (co_entry _ _ _ _ (sa_core _ _ A1) (m_data e)) as (u' & x' & Hx'). { rewrite !elem_of_app. right. right. by eapply queue_entry_queued. }
  destruct (entry_uop_fun _ _ _ _ _ _ H2 (F3 _ _ _ (queue_entry_queued _ _ _ _ _ Haq H1) Hx')) as [-> ->].
  destruct (lookup_lt_is_Some_2 (m_num_per_sched (s_core s1)) (q_of x)) as [per' Hper'].
  { rewrite (proj1 (co_per _ _ _ _ (sa_core _ _ A1))), <- (proj1 (co_per _ _ _ _ (sa_core _ _ Hs))). by eapply lookup_lt_Some. }
  exists e, rest, u, x, per', size, n, rate. split_and!; try done.
  rewrite (proj2 (co_per _ _ _ _ (sa_core _ _ A1)) _ _ Hper'), A2, Hcount. rewrite (proj2 (co_per _ _ _ _ (sa_core _ _ Hs)) _ _ H3) in H7.
  rewrite Hcount. unfold count_q in *. rewrite !countb_app. pose proof (countb_nonneg (fun e => bool_decide (entry_q (s_core s) e = Some (q_of x))) mv'). destruct H7; [left | right]; lia.
Qed.

Lemma advance_loop_ok d fuel : forall (i : nat) count (s : sched) aq, sched_at d s -> m_alloc_q s !! i = Some aq -> length count = max_ALLOCQ ->
  (length (contents aq) < fuel)%nat -> exists s', advance_loop k now fuel (Z.of_nat i) count s = Done s' /\ filled d s s' /\
    forall mv, waiting s' = waiting s ++ mv -> stuck i count mv s'.
Proof.
  induction fuel as [| fuel IH]; intros i count s aq Hs Hi Hcount Hf; [lia |]. cbn [advance_loop].
  assert (Hil : (i < length (m_alloc_q s))%nat) by (by eapply lookup_lt_Some).
  rewrite (aget_at _ (Z.of_nat i) aq) by (rewrite ?Nat2Z.id; try lia; done). rewrite bind_done.
  pose proof (Forall_lookup_1 _ _ _ _ (sa_queues _ _ Hs) Hi) as Hinv. destruct (ready_total aq Hinv) as [b Hb]. rewrite Hb, bind_done.
  destruct b; simpl negb; cbv iota; [| eexists; split_and!; [done | by apply filled_refl | intros mv _; exists aq; auto]].
  destruct (Z.eqb_spec ((m_last_schlist_ptr s + 1) mod MAX_SCHED_SIZE) (m_first_schlist_ptr s)) as [| Hfull];
    [eexists; split_and!; [done | by apply filled_refl | intros mv _; exists aq; auto] |].
  destruct (dequeue_ok aq Hinv Hb) as (e & rest & aq' & Edeq & Hinv' & Hc & Hc').
  rewrite (peek_ok 0 aq 0 Hinv) by (pose proof (inv_num aq Hinv); lia). rewrite Hc. simpl default. rewrite bind_done.
  destruct (advance_take d s i aq e rest aq' Hs Hi Hc Hc' Hinv') as (u & x & Hxu & Hflush & Henter).
  rewrite (rob_uop_at _ _ _ (proj1 Hxu)), bind_done, (get_s_live _ _ _ (proj2 Hxu)), bind_done.
  destruct (aget_four count (m_allocq_num (base x)) Hcount) as (n & Hcn & ->). destruct (aget_four _ (m_allocq_num (base x)) Hrate) as (rate & Hrt & ->).
  destruct (aget_four _ (m_allocq_num (base x)) (proj1 (co_per _ _ _ _ (sa_core _ _ Hs)))) as (per & Hper & ->).
  destruct (aget_four _ (m_allocq_num (base x)) Hsz) as (size & Hsize & ->). rewrite !bind_done.
  destruct ((rate <=? n) || (size <=? per)) eqn:Efull.
  { eexists. split_and!; [done | by apply filled_refl |]. intros mv Hmv.
    assert (mv = []) as -> by (apply (app_inv_head (waiting s)); by rewrite app_nil_r).
    exists aq. split; [done |]. right. right. exists e, rest, u, x, per, size, n, rate. split_and!; try done. unfold count_q. simpl.
    apply orb_true_iff in Efull as [E%Z.leb_le | E%Z.leb_le]; [right; lia | by left]. }
  apply orb_false_iff in Efull as [_ Efull]. apply Z.leb_gt in Efull. rewrite Edeq, bind_done.
  rewrite (aset_in_range (m_alloc_q s)) by lia. rewrite Nat2Z.id, bind_done. cbv zeta.
  assert (Hnext : forall s1 mv1, filled d s s1 -> waiting s1 = waiting s ++ mv1 -> m_alloc_q s1 = <[i := aq']> (m_alloc_q s) -> forall cnt, length cnt = max_ALLOCQ ->
    (forall j n, cnt !! j = Some n -> exists n0, count !! j = Some n0 /\ n <= n0 + count_q (s_core s) j mv1) ->
    exists s', advance_loop k now fuel (Z.of_nat i) cnt s1 = Done s' /\ filled d s s' /\ forall mv, waiting s' = waiting s ++ mv -> stuck i count mv s').
  { intros s1 mv1 H1 Hmv1 Eq cnt Hcnt Hcc. pose proof H1 as (mv & fl & A1 & A2). destruct (IH i cnt s1 aq' A1) as (s' & E & H2 & Hst); [| done | |].
    - rewrite Eq. by apply list_lookup_insert_eq.
    - rewrite Hc'. rewrite Hc in Hf. simpl in Hf. lia.
    - pose proof (filled_trans d s s1 s' H1 H2) as H12. exists s'. split_and!; [done | done |]. intros mv2 Hmv2.
      destruct H2 as (mv3 & fl3 & _ & B2 & _). rewrite B2, Hmv1, <- app_assoc in Hmv2. apply app_inv_head in Hmv2 as <-.
      apply (stuck_step i count cnt); [| by apply Hst]. intros j n0 Hj. destruct (Hcc j n0 Hj) as (n1 & E1 & E2). exists n1. split; [done |].
      destruct H12 as (? & ? & _ & _ & _ & [_ _ _ F4 _ _ _]). unfold count_q in *. erewrite countb_ext; [exact E2 |]. intros e' _. simpl. by rewrite F4. }
  destruct (m_bogus x || negb (done_of x =? 0)) eqn:Ebd.
  - rewrite (upd_core_live _ u x) by exact (proj2 Hxu). rewrite bind_done.
    apply (Hnext _ []); [| by rewrite app_nil_r | done | done | intros j n0 Hj; exists n0; unfold count_q; simpl; split; [done | lia]]. apply Hflush.
    apply orb_true_iff in Ebd as [Ebd | Ebd]; [by left | right]. by apply negb_true_iff, Z.eqb_neq in Ebd.
  - apply orb_false_iff in Ebd as [Ebog Ebd]. apply negb_false_iff, Z.eqb_eq in Ebd.
    rewrite (aset_in_range count) by (rewrite Hcount; apply q_index_range). rewrite bind_done.
    rewrite (upd_core_live _ u x) by exact (proj2 Hxu). rewrite bind_done. destruct (sa_list _ _ Hs) as [L1 L2 L3]. simpl m_schedule_list. simpl m_last_schlist_ptr.
    rewrite (aset_in_range (m_schedule_list s)) by lia. rewrite bind_done. simpl m_num_per_sched.
    rewrite (aset_in_range (m_num_per_sched (s_core s))) by (rewrite (proj1 (co_per _ _ _ _ (sa_core _ _ Hs))); apply q_index_range). rewrite bind_done.
    destruct (Henter per Ebog Ebd Hfull Hper) as [Hent Hwait]; [intros size' Hs'; unfold q_of in Hs'; rewrite Hsize in Hs'; by injection Hs' as <- |].
    apply (Hnext _ _ Hent Hwait); [done | by rewrite length_insert |]. intros j n0 Hj. unfold count_q. simpl countb. rewrite (entry_q_of _ _ _ _ Hxu).
    apply list_lookup_insert_Some in Hj as [(<- & <- & _) | [Hne Hj]].
    + exists n. split; [exact Hcn |]. rewrite bool_decide_true by done. lia.
    + exists n0. split; [done |]. case_bool_decide; lia.
Qed.
(** A queue does not touch the others. *)
Lemma advance_loop_others fuel q : forall count (s s' : sched), advance_loop k now fuel q count s = Done s' ->
  forall i, Z.of_nat i <> q -> m_alloc_q s' !! i = m_alloc_q s !! i.
Proof.
  induction fuel as [| fuel IH]; intros count s s' H i Hi; [done |]. cbn [advance_loop] in H. step H as aq Eaq. step H as rdy Er.
  destruct (negb rdy); [by injection H as <- |]. destruct (_ =? _); [by injection H as <- |].
  step H as e Ee. step H as u Eu. step H as x Ex. cbv zeta in H. step H as n En. step H as rate Erate. step H as per Eper. step H as size Esize.
  destruct (_ || _); [by injection H as <- |]. step H as r Er2. destruct r as [[dt pr] aq1]. step H as qs Eqs. apply aset_done in Eqs as [Hr ->].
  assert (Hq : <[Z.to_nat q := aq1]> (m_alloc_q s) !! i = m_alloc_q s !! i) by (rewrite list_lookup_insert_ne; [done | lia]). rewrite <- Hq.
  destruct (_ || _).
  - step H as c Ec. by rewrite (IH _ _ _ H i Hi).
  - step H as count1 E1. step H as c Ec. step H as l El. step H as lper Elp. by rewrite (IH _ _ _ H i Hi).
Qed.

Definition all_stuck (n : nat) (s s' : sched) : Prop :=
  forall i mv, (i < n)%nat -> waiting s' = waiting s ++ mv -> stuck i (replicate max_ALLOCQ 0) mv s'.
(** The queues one after the other. *)
Lemma advance_next d i (s s1 : sched) : filled d s s1 -> all_stuck i s s1 -> (i < max_ALLOCQ)%nat ->
  exists s', advance k now (Z.of_nat i) s1 = Done s' /\ filled d s s' /\ all_stuck (S i) s s'.
Proof.
  intros H1 Hall Hi. pose proof H1 as (mv1 & fl1 & A1 & A2 & _). destruct (lookup_lt_is_Some_2 (m_alloc_q s1) i) as [aq Haq]; [by rewrite (sa_four _ _ A1) |].
  unfold advance. rewrite (aget_at _ (Z.of_nat i) aq) by (rewrite ?Nat2Z.id; try lia; done). rewrite bind_done.
  destruct (advance_loop_ok d (S (length (contents aq))) i (replicate max_ALLOCQ 0) s1 aq) as (s' & E & H2 & Hst); [done | done | done | lia |].
  exists s'. split_and!; [done | by eapply filled_trans |]. intros j mv Hj Hmv. pose proof H2 as (mv2 & fl2 & B1 & B2 & B3 & [_ _ _ F4 _ _ _]).
  assert (mv = mv1 ++ mv2) as ->. { rewrite B2, A2, <- app_assoc in Hmv. by apply app_inv_head in Hmv. }
  destruct (decide (j = i)) as [-> | Hne].
  - apply (stuck_step i _ (replicate max_ALLOCQ 0)); [| by apply Hst]. intros q n Hn. exists n. split; [done |].
    pose proof (countb_nonneg (fun e => bool_decide (entry_q (s_core s') e = Some q)) mv1). unfold count_q. lia.
  - apply (stuck_later d j _ mv1 mv2 s1 s' A1); [| done | | done]; [by apply Hall; [lia |] |]. eapply advance_loop_others; [exact E | lia].
Qed.
Lemma advance_all_ok d (s : sched) : sched_at d s -> exists s', advance_all k now s = Done s' /\ filled d s s' /\ all_stuck max_ALLOCQ s s'.
Proof.
  intros Hs. unfold advance_all. change 0 with (Z.of_nat 0). change 1 with (Z.of_nat 1). change 2 with (Z.of_nat 2). change 3 with (Z.of_nat 3).
  destruct (advance_next d 0 s s (filled_refl d s Hs)) as (s1 & -> & F1 & G1); [intros i mv Hi; lia | by apply Nat.ltb_lt |]. rewrite bind_done.
  destruct (advance_next d 1 s s1 F1 G1) as (s2 & -> & F2 & G2); [by apply Nat.ltb_lt |]. rewrite bind_done.
  destruct (advance_next d 2 s s2 F2 G2) as (s3 & -> & F3 & G3); [by apply Nat.ltb_lt |]. rewrite bind_done.
  apply (advance_next d 3 s s3 F3 G3). by apply Nat.ltb_lt.
Qed.

Lemma sched_at_forget d (s : sched) : sched_at d s -> sched_at [] s.
Proof.
  intros [S1 [C1 C2 C3 C4 C5 C6 C7 Cs C8 C9] S3 S4]. split; try done. split; try done.
  - intros e He. apply C1. rewrite elem_of_app. auto.
  - intros e e' u He He'. apply C2; rewrite elem_of_app; auto.
  - by apply NoDup_app in C3 as (_ & _ & ?).
  - intros e u x He. by apply not_elem_of_nil in He.
Qed.

Context (Hports : Forall (fun m => 0 <= m) (m_max_port (sk_exec k))).

Lemma cleared_ok (s : sched) : sched_at [] s -> sched_at [] (with_ports_cleared s).
Proof.
  intros [[S1 S2 S3] [C1 C2 C3 C4 C5 C6 C7 Cs C8 C9] S4 S5]. split; try done. split; try done.
  intros i used max Hu Hm. apply lookup_replicate in Hu as [-> _]. by apply (Forall_lookup_1 _ _ _ _ Hports) in Hm.
Qed.

(** The state after selection, before the queues are looked at. *)
Definition selected (d rest : list Z) (n : Z) (s s2 : sched) : Prop :=
  sched_at d s2 /\ waiting s2 = rest /\ queued s2 = queued s /\ d ++ rest ≡ₚ waiting s /\ rest `sublist_of` waiting s /\
  n = Z.of_nat (length d) /\ (m_knob_sched_to_width k = true -> 0 < m_knob_width k -> n <= m_knob_width k) /\
  m_schedule_running s2 = m_schedule_running s.

Lemma ooo_cycle_ok (s : sched) : sched_at [] s -> m_schedule_running s = true ->
  match select k now (waiting s) 0 (s_core (with_ports_cleared s)) with
  | Done (rest, n, c) => exists d s2 s', run_a_cycle_ooo k now s = Done (s', n) /\ s_core s2 = c /\ selected d rest n s s2 /\ filled d s2 s' /\ all_stuck max_ALLOCQ s2 s'
  | Fault f => run_a_cycle_ooo k now s = Fault f
  end.
Proof.
  intros Hs Hrun. pose proof (cleared_ok s Hs) as Hs1. unfold run_a_cycle_ooo. rewrite Hrun. simpl negb. cbv iota zeta.
  set (s1 := with_ports_cleared s) in *. change (waiting s) with (waiting s1).
  assert (Hfin : forall d rest n s2, selected d rest n s s2 -> exists s', ('(s2, count) ← mret (s2, n); s3 ← advance_all k now s2; mret (s3, count)) = Done (s', n) /\ filled d s2 s' /\ all_stuck max_ALLOCQ s2 s').
  { intros d rest n s2 (A1 & _). destruct (advance_all_ok d s2 A1) as (s' & E & F). exists s'. split; [| done].
    change (mret (s2, n)) with (Done (s2, n)). by rewrite bind_done, E. }
  destruct (Z.eqb_spec (m_num_in_sched (s_core s1)) 0) as [E0 | E0].
  { rewrite (co_num _ _ _ _ (sa_core _ _ Hs1)) in E0. assert (Hw : waiting s1 = []) by (apply nil_length_inv; lia). rewrite Hw. simpl select.
    assert (Hsel : selected [] [] 0 s s1).
    { split_and!; try done; [by change (waiting s) with (waiting s1); rewrite Hw | by change (waiting s) with (waiting s1); rewrite Hw | lia]. }
    destruct (Hfin _ _ _ _ Hsel) as (s' & E & F). by exists [], s1, s'. }
  pose proof (ooo_pass k now s1 0 (sa_list _ _ Hs1)) as Hp. unfold loop_result in Hp. simpl app in Hp.
  destruct (select k now (waiting s1) 0 (s_core s1)) as [[[rest n] c] | f] eqn:Esel; [| by rewrite Hp].
  destruct Hp as (s2 & -> & Ec & Hwf & Hw & (Q1 & Q2 & Q3)).
  destruct (select_ok (waiting s1) [] [] (queued s1) 0 (s_core s1) rest n c (sa_core _ _ Hs1) Esel) as (d & K1 & K2 & K3 & K4 & K5).
  assert (Hq : queued s2 = queued s1) by (unfold queued; by rewrite Q1).
  assert (Hsel : selected d rest n s s2).
  { split_and!; try done. split; [done | | by rewrite Q1; apply Hs1 | by rewrite Q1; apply Hs1]. rewrite Hw, Hq, Ec. exact K1. }
  destruct (Hfin _ _ _ _ Hsel) as (s' & E & F). by exists d, s2, s'.
Qed.
End INVARIANT.

Lemma src_waits_later now now' x : now <= now' -> src_waits now x = false -> src_waits now' x = false.
Proof. unfold src_waits. intros Hle [H0 H1]%orb_false_iff. rewrite H0. simpl. apply Z.ltb_ge in H1. apply Z.ltb_ge. lia. Qed.
(** The invariant of one cycle is the invariant of the next. *)
Lemma sched_at_later {M B} k now now' (s : schedule_c M B) : now <= now' -> sched_at k now [] s -> sched_at k now' [] s.
Proof.
  intros Hle [S1 [C1 C2 C3 C4 C5 C6 C7 Cs C8 C9] S3 S4]. split; try done. split; try done.
  intros u x Hu Hr si a y H1 H2 H3 H4. eapply src_waits_later; [exact Hle |]. exact (C9 u x Hu Hr si a y H1 H2 H3 H4).
Qed.

(** ** In order *)

Section IN_ORDER.
Context {M B : Type} `{!MemoryPath M} `{!Predictor B}.
Context (k : sched_knobs) (now : Z).

Record flags_ok (σ : uop_store) : Prop := {
  fo_rdy : forall u x, σ !! u = Some x -> m_srcs_rdy (deps x) = true -> sources_ready now σ x;
  fo_undone : forall u x, σ !! u = Some x -> m_in_scheduler x = true -> done_of x = 0
}.

Definition gone (σ : uop_store) (u : nat) : Prop :=
  exists x, σ !! u = Some x /\ m_in_scheduler x = false /\ (m_bogus x = true \/ m_srcs_rdy (deps x) = true).

Lemma attempt_flags (c c' : schedule_core M B) u x x' n ok : flags_ok (uops_of c) -> uops_of c !! u = Some x -> m_in_scheduler x = true ->
  attempt k now u x x' n ok c c' -> flags_ok (uops_of c').
Proof.
  intros [F1 F2] Hx Hin [T1 T2 T3 Tm T4 T5 T6 T7 T8 T9 Tp T10 T11]. pose proof (F2 u x Hx Hin) as Hd.
  assert (Hw : src_waits now x = true \/ src_waits now x' = false) by (left; unfold src_waits; by rewrite Hd).
  rewrite T1. split; intros v y Hv.
  - destruct (decide (v = u)) as [-> | Hne].
    + rewrite lookup_insert_eq in Hv. injection Hv as <-. intros Hr. eapply sources_ready_upd; eauto. destruct (T6 Hr) as [|]; [by eapply F1 | done].
    + rewrite lookup_insert_ne in Hv by done. intros Hr. eapply sources_ready_upd; eauto. done.
  - destruct (decide (v = u)) as [-> | Hne]; [| rewrite lookup_insert_ne in Hv by done; exact (F2 v y Hv)].
    rewrite lookup_insert_eq in Hv. injection Hv as <-. rewrite T7. destruct ok; [done |]. intros _. rewrite T8; done.
Qed.

Lemma gone_other (σ : uop_store) u x x' v : σ !! u = Some x -> m_in_scheduler x = true -> gone σ v -> gone (<[u := x']> σ) v.
Proof. intros Hx Hin (y & Hy & Hg). exists y. split; [| done]. rewrite lookup_insert_ne; [done |]. intros ->. destruct Hg. congruence. Qed.

(** The [i]-th entry from [next] on. *)
Definition entry_after (next size : Z) (i : nat) : Z := (next + Z.of_nat i) mod size.

Record io_result (j : nat) (s s' : schedule_c M B) : Prop := {
  ir_flags : flags_ok (uops_of (s_core s'));
  ir_rob : m_rob (x_rob (c_exec (s_core s'))) = m_rob (x_rob (c_exec (s_core s)));
  ir_max : m_max_cnt (x_rob (c_exec (s_core s'))) = m_max_cnt (x_rob (c_exec (s_core s)));
  ir_num : m_num_in_sched (s_core s') = m_num_in_sched (s_core s) - Z.of_nat j;
  ir_next : m_next_inorder_to_schedule s' = entry_after (m_next_inorder_to_schedule s) (m_max_cnt (x_rob (c_exec (s_core s)))) j;
  ir_started : forall i, (i < j)%nat -> exists u,
    at_entry (entry_after (m_next_inorder_to_schedule s) (m_max_cnt (x_rob (c_exec (s_core s)))) i) u (c_exec (s_core s)) /\
    gone (uops_of (s_core s')) u;
  ir_gone : forall u, gone (uops_of (s_core s)) u -> gone (uops_of (s_core s')) u;
  ir_others : forall u x, uops_of (s_core s) !! u = Some x ->
    (forall i, (i < j)%nat -> ~ at_entry (entry_after (m_next_inorder_to_schedule s) (m_max_cnt (x_rob (c_exec (s_core s)))) i) u (c_exec (s_core s))) ->
    exists x', uops_of (s_core s') !! u = Some x' /\ m_in_scheduler x' = m_in_scheduler x
}.

Lemma entry_after_0 next size : 0 <= next < size -> entry_after next size 0 = next.
Proof. intros. unfold entry_after. rewrite Z.add_0_r. by apply Z.mod_small. Qed.
Lemma entry_after_S next size i : entry_after ((next + 1) mod size) size i = entry_after next size (S i).
Proof. unfold entry_after. rewrite Zplus_mod_idemp_l. f_equal. lia. Qed.

Lemma io_result_refl (s : schedule_c M B) : flags_ok (uops_of (s_core s)) -> 0 <= m_next_inorder_to_schedule s < m_max_cnt (x_rob (c_exec (s_core s))) -> io_result 0 s s.
Proof. intros Hf Hn. split; try done; [lia | by rewrite entry_after_0 | intros; lia |]. intros u x Hx _. eauto. Qed.
(** One start and then [j] more. *)
Lemma io_result_step j (s s1 s' : schedule_c M B) c why u x x' p :
  flags_ok (uops_of (s_core s)) -> 0 <= m_next_inorder_to_schedule s < m_max_cnt (x_rob (c_exec (s_core s))) ->
  at_entry (m_next_inorder_to_schedule s) u (c_exec (s_core s)) -> uops_of (s_core s) !! u = Some x -> m_in_scheduler x = true ->
  attempt k now u x x' p true (s_core s) c -> uop_schedule k now (m_next_inorder_to_schedule s) (s_core s) = Done (c, (true, why)) ->
  s_core s1 = c -> m_next_inorder_to_schedule s1 = (m_next_inorder_to_schedule s + 1) mod m_max_cnt (x_rob (c_exec (s_core s))) ->
  io_result j s1 s' -> io_result (S j) s s'.
Proof.
  intros Hf Hnext Hp Hx Hin [T1 T2 T3 Tm T4 T5 T6 T7 T8 T9 Tp T10 T11] _ Ec Hn1 [R1 R2 R3 R4 R5 R6 Rg R7].
  rewrite Ec in *. rewrite Tm, Hn1 in *. split; [done | congruence | congruence | lia | by rewrite R5, entry_after_S | | |].
  - intros [| i] Hi.
    + exists u. rewrite entry_after_0 by done. split; [exact Hp |]. apply Rg. exists x'. rewrite T1, lookup_insert_eq. split; [done |].
      split; [done |]. destruct (T9 eq_refl); [left; by rewrite (su_bogus _ _ T2) | by right].
    + destruct (R6 i ltac:(lia)) as (v & Hv & Hg). exists v. rewrite <- entry_after_S. split; [| done]. unfold at_entry in *. by rewrite <- T3.
  - intros v Hg. apply Rg. rewrite T1. by eapply gone_other.
  - intros v y Hv Hno. assert (Hne : v <> u). { intros ->. apply (Hno 0%nat ltac:(lia)). by rewrite entry_after_0. }
    destruct (R7 v y) as (y' & Hy' & E).
    + rewrite T1. by rewrite lookup_insert_ne.
    + intros i Hi Hv'. apply (Hno (S i) ltac:(lia)). rewrite <- entry_after_S. unfold at_entry in *. by rewrite <- T3.
    + eauto.
Qed.
(** Why the loop ends: the width is used up, nothing waits at the next entry,
    or it could not start. *)
Definition io_stop (n : Z) (j : nat) (s s' : schedule_c M B) : Prop :=
  (m_knob_sched_to_width k = true /\ m_knob_width k <= n) \/
  (exists p, aget (m_rob (x_rob (c_exec (s_core s')))) (m_next_inorder_to_schedule s') = Done p /\
     forall u, p = Some u -> exists x, uops_of (s_core s') !! u = Some x /\ m_in_scheduler x = false) \/
  (exists s1 why, io_result j s s1 /\ m_next_inorder_to_schedule s1 = m_next_inorder_to_schedule s' /\
     uop_schedule k now (m_next_inorder_to_schedule s1) (s_core s1) = Done (s_core s', (false, why))).

Lemma io_loop_ok fuel : forall count (s s' : schedule_c M B) n,
  flags_ok (uops_of (s_core s)) -> 0 <= m_next_inorder_to_schedule s < m_max_cnt (x_rob (c_exec (s_core s))) ->
  io_loop k now fuel count s = Done (s', n) ->
  exists j, io_result j s s' /\ io_stop n j s s' /\ n = count + Z.of_nat j /\ (m_knob_sched_to_width k = true -> count <= m_knob_width k -> n <= m_knob_width k).
Proof.
  induction fuel as [| fuel IH]; intros count s s' n Hf Hnext H; [done |]. cbn [io_loop] in H.
  assert (H0 : io_stop count 0 s s -> exists j, io_result j s s /\ io_stop count j s s /\ count = count + Z.of_nat j /\ (m_knob_sched_to_width k = true -> count <= m_knob_width k -> count <= m_knob_width k)).
  { intros Hstop. exists 0%nat. split; [by apply io_result_refl | split; [done | split; [lia | done]]]. }
  destruct (_ && _) eqn:Ew in H.
  { injection H as <- <-. apply H0. left. apply andb_true_iff in Ew as [E1 E2]. apply Z.leb_le in E2. done. }
  step H as p Hp. destruct p as [u |]; [| injection H as <- <-; apply H0; right; left; by exists None].
  step H as x Hx. apply get_s_done in Hx. destruct (m_in_scheduler x) eqn:Hin; [simpl negb in H; cbv iota in H |].
  2: { injection H as <- <-. apply H0. right. left. exists (Some u). split; [done |]. intros v [= <-]. eauto. }
  step H as [c [ok why]] Hsch. destruct (uop_schedule_done k now _ u x _ _ _ _ Hp Hx Hsch) as (x' & p & Hat).
  pose proof (attempt_flags _ _ _ _ _ _ _ Hf Hx Hin Hat) as Hf'. pose proof Hat as [T1 T2 T3 Tm T4 T5 T6 T7 T8 T9 Tp T10 T11].
  destruct ok; simpl negb in H; cbv iota in H.
  2: { injection H as <- <-. exists 0%nat. split; [| split; [right; right; exists s, why; split_and!; [by apply io_result_refl | done | done] | split; [lia | done]]]. split; simpl; try done; [lia | by rewrite entry_after_0 | intros; lia | |].
    { intros v Hg. rewrite T1. by eapply gone_other. }
    intros v y Hv _. rewrite T1. destruct (decide (v = u)) as [-> | Hne]; [| rewrite lookup_insert_ne by done; eauto].
    rewrite lookup_insert_eq. exists x'. split; [done |]. congruence. }
  cbv zeta in H. step H as prev Hprev. step H as [] Ha. clear Hprev Ha.
  set (s1 := with_next _ _) in H.
  assert (Hn1 : m_next_inorder_to_schedule s1 = (m_next_inorder_to_schedule s + 1) mod m_max_cnt (x_rob (c_exec (s_core s)))).
  { unfold s1. simpl. unfold inc_index. by rewrite Tm. }
  destruct (IH (count + 1) s1 s' n Hf') as (j & HR & Hst & -> & Hw).
  { rewrite Hn1. change (s_core s1) with c. rewrite Tm. apply Z.mod_pos_bound. lia. } { exact H. }
  exists (S j). split; [by eapply (io_result_step j s s1 s' c why u x x' p) | split; [| split; [lia |]]].
  { destruct Hst as [Hst | [Hst | (s2 & why2 & Hs2 & Hst)]]; [by left | by right; left | right; right]. exists s2, why2. split; [| exact Hst].
    by eapply (io_result_step j s s1 s2 c why u x x' p). }
  intros Hk Hc. apply Hw; [done |]. rewrite Hk in Ew. simpl in Ew. apply Z.leb_gt in Ew. lia.
Qed.

(** The check that the entry before [next] was started, after the start of [next]. *)
Definition previous_started (next : Z) (c : schedule_core M B) : outcome bool :=
  if next =? front_rob (x_rob (c_exec c)) then mret true
  else v ← rob_uop (dec_index next (x_rob (c_exec c))) c; y ← get_s v (uops_of c); mret (negb (m_sched_cycle (base y) =? 0)).
(** A turn fails: there is no such entry or object, the attempt to start it fails, or
    the entry before it was not started. *)
Definition turn_fails (s : schedule_c M B) (f : fault) : Prop :=
  let next := m_next_inorder_to_schedule s in
  aget (m_rob (x_rob (c_exec (s_core s)))) next = Fault f \/
  exists u, aget (m_rob (x_rob (c_exec (s_core s)))) next = Done (Some u) /\
    (get_s u (uops_of (s_core s)) = Fault f \/ uop_schedule k now next (s_core s) = Fault f \/
     exists c why, uop_schedule k now next (s_core s) = Done (c, (true, why)) /\
       (previous_started next c = Fault f \/ previous_started next c = Done false /\ f = AssertFailed)).
(** With as many turns as micro-operations wait the loop fails only when a turn does. *)
Lemma io_loop_fails fuel : forall count (s : schedule_c M B) f,
  flags_ok (uops_of (s_core s)) -> 0 <= m_next_inorder_to_schedule s < m_max_cnt (x_rob (c_exec (s_core s))) ->
  (Z.to_nat (m_num_in_sched (s_core s)) < fuel)%nat -> io_loop k now fuel count s = Fault f -> exists j s1, io_result j s s1 /\ turn_fails s1 f.
Proof.
  induction fuel as [| fuel IH]; intros count s f Hf Hnext Hfuel H; [lia |]. cbn [io_loop] in H. destruct (_ && _); [done |].
  pose proof (io_result_refl s Hf Hnext) as H0.
  destruct (aget _ (m_next_inorder_to_schedule s)) as [[u |] |] eqn:Hp; [rewrite bind_done in H | done | injection H as ->; exists 0%nat, s; split; [done | by left]].
  assert (Hturn : (get_s u (uops_of (s_core s)) = Fault f \/ uop_schedule k now (m_next_inorder_to_schedule s) (s_core s) = Fault f \/
     exists c why, uop_schedule k now (m_next_inorder_to_schedule s) (s_core s) = Done (c, (true, why)) /\
       (previous_started (m_next_inorder_to_schedule s) c = Fault f \/ previous_started (m_next_inorder_to_schedule s) c = Done false /\ f = AssertFailed)) ->
     exists j s1, io_result j s s1 /\ turn_fails s1 f). { intros Ht. exists 0%nat, s. split; [done |]. right. by exists u. }
  destruct (get_s u _) as [x |] eqn:Hx; [rewrite bind_done in H | injection H as ->; auto]. apply get_s_done in Hx. destruct (m_in_scheduler x) eqn:Hin; [| done]. cbn [negb] in H.
  destruct (uop_schedule k now _ _) as [[c [ok why]] |] eqn:Hs; [rewrite bind_done in H | injection H as ->; auto]. destruct ok; simpl negb in H; cbv iota zeta in H; [| done].
  destruct (uop_schedule_done k now _ u x _ _ _ _ Hp Hx Hs) as (x' & p & Hat). pose proof (attempt_flags _ _ _ _ _ _ _ Hf Hx Hin Hat) as Hf'.
  pose proof Hat as [T1 T2 T3 Tm T4 T5 T6 T7 T8 T9 Tp T10 T11]. specialize (Tp eq_refl).
  change (if _ =? _ then mret true else _) with (previous_started (m_next_inorder_to_schedule s) c) in H.
  destruct (previous_started _ c) as [prev |] eqn:Hprev; [rewrite bind_done in H | injection H as ->; apply Hturn; right; right; exists c, why; auto].
  destruct prev; cbn [ASSERT] in H; [rewrite bind_done in H | injection H as <-; apply Hturn; right; right; exists c, why; auto].
  set (s1 := with_next _ _) in H.
  assert (Hn1 : m_next_inorder_to_schedule s1 = (m_next_inorder_to_schedule s + 1) mod m_max_cnt (x_rob (c_exec (s_core s)))).
  { unfold s1. simpl. unfold inc_index. by rewrite Tm. }
  destruct (IH (count + 1) s1 f Hf') as (j & s2 & R & Ht); [| simpl; lia | exact H |].
  { rewrite Hn1. change (s_core s1) with c. rewrite Tm. apply Z.mod_pos_bound. lia. }
  exists (S j), s2. split; [| done]. by eapply (io_result_step j s s1 s2 c why u x x' p).
Qed.
(** Nothing in a turn but the attempt can run for ever. *)
Lemma turn_diverges (s : schedule_c M B) : turn_fails s Diverged -> uop_schedule k now (m_next_inorder_to_schedule s) (s_core s) = Fault Diverged.
Proof.
  assert (H1 : forall n (c : schedule_core M B), previous_started n c <> Fault Diverged) by (intros n c; unfold previous_started, rob_uop, get_s; ends).
  assert (H2 : forall u σ, get_s u σ <> Fault Diverged) by (intros u σ; unfold get_s; ends).
  assert (H3 : forall A (l : list A) i, aget l i <> Fault Diverged) by (intros A l i; ends).
  intros [H | (u & _ & [H | [H | (c & why & _ & [H | [_ H]])]])]; [by apply H3 in H | by apply H2 in H | done | by apply H1 in H | done].
Qed.
End IN_ORDER.

(** ** Properties *)

(** The knobs a scheduler can run with. *)
Record knobs_ok (k : sched_knobs) : Prop := {
  ko_rate : length (m_sched_rate k) = max_ALLOCQ;
  ko_size : length (m_sched_size k) = max_ALLOCQ;
  ko_ports : Forall (fun m => 0 <= m) (m_max_port (sk_exec k))
}.

Lemma ooo_cycle_keeps {M B : Type} `{!MemoryPath M} `{!Predictor B} k now (s s' : schedule_c M B) n :
  knobs_ok k -> 0 < now -> sched_at k now [] s -> m_schedule_running s = true -> run_a_cycle_ooo k now s = Done (s', n) ->
  exists rest d s2, select k now (waiting s) 0 (s_core (with_ports_cleared s)) = Done (rest, n, s_core s2) /\
    selected k now d rest n s s2 /\ filled k now d s2 s'.
Proof.
  intros [K1 K2 K3] Hn Hs Hr H. pose proof (ooo_cycle_ok k now Hn K1 K2 K3 s Hs Hr) as Hc. rewrite H in Hc.
  destruct (select _ _ _ _ _) as [[[rest m] c] |]; [| done]. destruct Hc as (d & s2 & s'' & [= <- <-] & <- & Hsel & Hfill & _). exists rest, d, s2. by split_and!.
Qed.

(** C14: the circular list of the out-of-order scheduler refines a list of
    waiting entries: a cycle is one pass over them, oldest first, in which each is
    tried once until the width is used up, and then entries move from the allocation
    queues to its end. When no attempt faults the cycle returns, and its entries are
    those the pass kept followed by those that moved: none is lost or doubled, those
    that moved had live micro-operations without result, and an entry of a queue is
    dropped only when its micro-operation is bogus or already done. A queue is left
    only when its first entry is not ready, the list is full, or the kind of that
    entry has used up its rate or its part of the list. The invariant of the
    scheduler holds again; when an attempt faults so does the cycle. *)
Theorem ooo_cycle_refines_list {M B : Type} `{!MemoryPath M} `{!Predictor B} k now (s : schedule_c M B) :
  knobs_ok k -> 0 < now -> sched_at k now [] s -> m_schedule_running s = true ->
  match select k now (waiting s) 0 (s_core (with_ports_cleared s)) with
  | Done (rest, n, c) => exists s' started moved dropped, run_a_cycle_ooo k now s = Done (s', n) /\ sched_at k now [] s' /\
      waiting s' = rest ++ moved /\ started ++ rest ≡ₚ waiting s /\ rest `sublist_of` waiting s /\ n = Z.of_nat (length started) /\
      moved ++ dropped ++ queued s' ≡ₚ queued s /\ Forall (live_entry c) moved /\ Forall (flushed_entry c) dropped /\
      forall i, (i < max_ALLOCQ)%nat -> stuck k i (replicate max_ALLOCQ 0) moved s'
  | Fault f => run_a_cycle_ooo k now s = Fault f
  end.
Proof.
  intros [K1 K2 K3] Hn Hs Hr. pose proof (ooo_cycle_ok k now Hn K1 K2 K3 s Hs Hr) as H.
  destruct (select _ _ _ _ _) as [[[rest n] c] |]; [| done].
  destruct H as (d & s2 & s' & E & Ec & (A1 & A2 & A3 & A4 & A5 & A6 & _) & (mv & fl & F1 & F2 & F3 & F4) & Hst). exists s', d, mv, fl.
  pose proof (fun i Hi => Hst i mv Hi F2) as Hst'. rewrite A2 in F2. rewrite A3 in F3. destruct F4 as [G1 G2 _ _ _ _ _]. rewrite Ec in G1, G2.
  split_and!; try done. by eapply sched_at_forget.
Qed.

(** C5: dependences are respected: whatever else happens in the cycle, an entry
    that leaves the out-of-order scheduler is not bogus only if every source its
    micro-operation recorded, and that still is the micro-operation it was, has its
    result in this cycle; and an entry leaves only by being started. *)
Theorem ooo_respects_dependences {M B : Type} `{!MemoryPath M} `{!Predictor B} k now (s s' : schedule_c M B) n e :
  knobs_ok k -> 0 < now -> sched_at k now [] s -> m_schedule_running s = true -> run_a_cycle_ooo k now s = Done (s', n) ->
  e ∈ waiting s -> ~ e ∈ waiting s' ->
  exists u x, entry_uop (s_core s') e u x /\ m_in_scheduler x = false /\
    (m_bogus x = true \/ sources_done now (uops_of (s_core s')) x).
Proof.
  intros K Hn Hs Hr H He Hne. destruct (ooo_cycle_keeps k now s s' n K Hn Hs Hr H) as (rest & d & s2 & _ & Hsel & Hfill).
  destruct Hsel as (A1 & A2 & A3 & A4 & _). destruct Hfill as (mv & fl & F1 & F2 & _). rewrite <- A4, elem_of_app in He.
  assert (Hd : e ∈ d). { destruct He as [| He]; [done |]. exfalso. apply Hne. rewrite F2, A2, elem_of_app. auto. }
  destruct F1 as [_ Hc _ _]. destruct (co_entry _ _ _ _ _ _ Hc e) as (u & x & Hxu); [rewrite elem_of_app; auto |].
  destruct (co_gone _ _ _ _ _ _ Hc e u x Hd Hxu) as [Hin Hg]. exists u, x. split; [done |]. split; [done |].
  destruct Hg as [| Hg]; [by left | right]. apply sources_ready_done. by eapply (co_rdy _ _ _ _ _ _ Hc u x); [apply Hxu |].
Qed.

(** C39: after any cycle of the out-of-order scheduler no kind of port has been
    used more often than there are such ports, the counter of each queue is the
    number of its waiting entries and at most its size, the total is their number,
    and with the width limit at most that many were started. *)
Theorem ooo_resource_bounds {M B : Type} `{!MemoryPath M} `{!Predictor B} k now (s s' : schedule_c M B) n :
  knobs_ok k -> 0 < now -> sched_at k now [] s -> m_schedule_running s = true -> run_a_cycle_ooo k now s = Done (s', n) ->
  (forall i used max, m_port_used (c_exec (s_core s')) !! i = Some used -> m_max_port (sk_exec k) !! i = Some max -> used <= max) /\
  (forall i per size, m_num_per_sched (s_core s') !! i = Some per -> m_sched_size k !! i = Some size ->
     per = count_q (s_core s') i (waiting s') /\ per <= size) /\
  m_num_in_sched (s_core s') = Z.of_nat (length (waiting s')) /\
  (m_knob_sched_to_width k = true -> 0 < m_knob_width k -> n <= m_knob_width k).
Proof.
  intros K Hn Hs Hr H. destruct (ooo_cycle_keeps k now s s' n K Hn Hs Hr H) as (rest & d & s2 & _ & Hsel & Hfill).
  destruct Hsel as (_ & _ & _ & _ & _ & _ & Hw & _). destruct Hfill as (mv & fl & [_ Hc _ _] & _). destruct Hc as [C1 C2 C3 C4 C5 C6 [C7 C7'] Cs C8 C9].
  split_and!; try done. intros i per size Hp Hz. eauto.
Qed.

(** C34: the in-order scheduler starts micro-operations strictly in reorder-buffer
    order, and its loop ends: with one turn more than micro-operations wait it returns,
    unless a turn fails (no such entry or object, a failed attempt, an entry that was
    started before the one in front of it), and it does not run for ever unless an
    attempt does. The entries that leave are exactly the [n] from the next one on,
    each with its sources ready unless bogus; the loop stops only when the width is
    used up, nothing waits at the next entry, or that one cannot start. *)
Theorem io_in_order {M B : Type} `{!MemoryPath M} `{!Predictor B} k now (s : schedule_c M B) fuel :
  flags_ok now (uops_of (s_core s)) -> 0 <= m_next_inorder_to_schedule s < m_max_cnt (x_rob (c_exec (s_core s))) ->
  (Z.to_nat (m_num_in_sched (s_core s)) < fuel)%nat ->
  match io_loop k now fuel 0 s with
  | Done (s', n) =>
     exists j, n = Z.of_nat j /\ io_result now j s s' /\ io_stop k now n j s s' /\
       (m_knob_sched_to_width k = true -> 0 <= m_knob_width k -> n <= m_knob_width k) /\
       forall u x, gone (uops_of (s_core s')) u -> uops_of (s_core s') !! u = Some x ->
         m_bogus x = true \/ sources_done now (uops_of (s_core s')) x
  | Fault f =>
     exists j s1, io_result now j s s1 /\ turn_fails k now s1 f /\
       (f = Diverged -> uop_schedule k now (m_next_inorder_to_schedule s1) (s_core s1) = Fault Diverged)
  end.
Proof.
  intros Hf Hn Hfuel. destruct (io_loop k now fuel 0 s) as [[s' n] | f] eqn:H.
  - destruct (io_loop_ok k now fuel 0 s s' n Hf Hn H) as (j & Hr & Hst & -> & Hw). exists j. split; [done |]. split; [done |]. split; [done |].
    split; [done |]. intros u x (y & Hy & _ & Hg) Hx. rewrite Hx in Hy. injection Hy as <-. destruct Hg as [| Hg]; [by left | right].
    apply sources_ready_done. by eapply (fo_rdy _ _ (ir_flags _ _ _ _ Hr) u x).
  - destruct (io_loop_fails k now fuel 0 s f Hf Hn Hfuel H) as (j & s1 & Hr & Ht). exists j, s1. split_and!; [done | done |]. intros ->. by apply turn_diverges.
Qed.

(** ** An example *)

(** Three micro-operations: the second needs the first, the third is a SIMD one.
    They are in the allocation queues; there is one port of each kind. *)
Module ScheduleExample.
#[export] Instance no_predictor : Predictor unit := {
  bp_update x b := mret b; bp_recover x b := mret b; targ_update x b := mret b
}.
Definition xk : exec_knobs := mk_exec_knobs [1; 1; 1; 1] (fun _ => 2) false false false false false false false 1 0 false.
Definition k : sched_knobs := mk_sched_knobs xk false false 4 true [8; 8; 8; 8] [4; 4; 4; 4].
Definition needs (src : nat) (num : Z) (x : uop_s) : uop_s :=
  with_deps (with_srcs 1 (mk_src REG_DATA_DEP (Some src) num 0 :: replicate 9 (mk_src REG_DATA_DEP None 0 0)) 1 (deps x)) x.
Definition uops : uop_store :=
  <[1%nat := ExecExample.uop 11 NOT_MEM UOP_IADD gen_ALLOCQ [] 0]>
  (<[2%nat := needs 1 11 (ExecExample.uop 12 NOT_MEM UOP_IADD gen_ALLOCQ [] 0)]>
  (<[3%nat := ExecExample.uop 13 NOT_MEM UOP_SIMD simd_ALLOCQ [] 0]> ∅)).
Definition rob : rob_c := mk_rob 8 4 1 [Some 1%nat; Some 2%nat; Some 3%nat; None; None; None; None; None] 0 3
  (m_fence (rob_new 4 0 0 0)) false 0 0 0 [] ∅.
Definition queue (l : list Z) : pqueue_c (T := Z) :=
  match pq_run (PEnq 0 <$> l) (pqueue_new 16 0 0) with Done q => q | Fault _ => pqueue_new 16 0 0 end.
Definition s0 : schedule_c (list Z) unit :=
  mk_schedule (mk_core (mk_exec uops rob (replicate 4 0) [] tt ∅ ∅ ∅ []) 0 (replicate 4 0) 0 ∅)
    [queue [0; 1]; queue []; queue []; queue [2]] (replicate (Z.to_nat MAX_SCHED_SIZE) (-1)) 0 0 true 0.

Lemma queue_inv l : pq_inv (queue l).
Proof.
  unfold queue. destruct (pq_run_ok (PEnq 0 <$> l) (pqueue_new 16 0 0)) as (q & -> & Hq); [| done]. apply pqueue_new_inv; lia.
Qed.
Lemma k_ok : knobs_ok k.
Proof. split; [done | done |]. by repeat constructor. Qed.
Lemma s0_queued : queued s0 = [0; 1; 2].
Proof. by vm_compute. Qed.
Lemma s0_entry e : e ∈ [0; 1; 2] -> exists x, entry_uop (s_core s0) e (S (Z.to_nat e)) x.
Proof. intros He. repeat (apply elem_of_cons in He as [-> | He]; [by eexists |]). by apply not_elem_of_nil in He. Qed.
Lemma s0_rdy : map_Forall (fun _ x => m_srcs_rdy (deps x) = false) uops.
Proof. by apply (bool_decide_unpack _), I. Qed.
Lemma s0_ok : sched_at k 1 [] s0.
Proof.
  split; [split | | | reflexivity].
  { cbn [m_schedule_list s0]. rewrite length_replicate. by apply Z2Nat.id. } { by split. } { by split. }
  2: { cbn [m_alloc_q s0]. repeat (apply Forall_cons; split; [apply queue_inv |]). apply Forall_nil; done. }
  change (waiting s0) with (@nil Z). rewrite s0_queued. split; simpl app.
  - intros e He. destruct (s0_entry e He) as [x Hx]. eauto.
  - intros e e' u He He' A1 A2. destruct (s0_entry e He) as [x [B1 _]]. destruct (s0_entry e' He') as [x' [B2 _]].
    unfold at_entry in *. rewrite A1 in B1. rewrite A2 in B2. injection B1 as ->. injection B2 as E.
    apply aget_done in A1 as [? _]. apply aget_done in A2 as [? _]. lia.
  - by apply (bool_decide_unpack _), I.
  - intros e u x He. by apply not_elem_of_nil in He.
  - intros e u x He. by apply not_elem_of_nil in He.
  - done.
  - split; [done |]. intros i n Hn. by apply lookup_replicate in Hn as [-> _].
  - intros i n size Hn Hs. apply lookup_replicate in Hn as [-> _]. change (m_sched_size k) with (replicate 4 8) in Hs.
    apply lookup_replicate in Hs as [-> _]. lia.
  - intros i n max Hn Hs. apply lookup_replicate in Hn as [-> _]. change (m_max_port (sk_exec k)) with (replicate 4 1) in Hs.
    apply lookup_replicate in Hs as [-> _]. lia.
  - intros u x Hu Hr. by rewrite (s0_rdy u x Hu) in Hr.
Qed.

(** The state after the first cycle: all three wait. *)
#[local] Existing Instance ExecExample.scripted.
Definition after (now : Z) (s : schedule_c (list Z) unit) : schedule_c (list Z) unit :=
  match run_a_cycle_ooo k now s with Done (s', _) => s' | Fault _ => s end.
Definition started (now : Z) (s : schedule_c (list Z) unit) : option Z :=
  match run_a_cycle_ooo k now s with Done (_, n) => Some n | Fault _ => None end.
Lemma after_done now s n : started now s = Some n -> run_a_cycle_ooo k now s = Done (after now s, n).
Proof. unfold started, after. destruct (run_a_cycle_ooo k now s) as [[s' m] |]; [| done]. by intros [= ->]. Qed.
Definition s1 : schedule_c (list Z) unit := after 1 s0.
Lemma s1_ok : sched_at k 2 [] s1.
Proof.
  assert (E : started 1 s0 = Some 0) by (by vm_compute). apply after_done in E.
  destruct (ooo_cycle_keeps k 1 s0 s1 0 k_ok eq_refl s0_ok eq_refl E) as (rest & d & s2 & _ & _ & (mv & fl & H & _)).
  apply (sched_at_later k 1 2); [done |]. by eapply sched_at_forget.
Qed.
Lemma s1_running : m_schedule_running s1 = true.
Proof. by vm_compute. Qed.
Lemma s1_waiting : waiting s1 = [0; 1; 2].
Proof. by vm_compute. Qed.
End ScheduleExample.
#[local] Existing Instance ScheduleExample.no_predictor.
#[local] Existing Instance ExecExample.scripted.

Lemma ooo_cycle_refines_list_witness : exists s', run_a_cycle_ooo ScheduleExample.k 2 ScheduleExample.s1 = Done (s', 2) /\
  sched_at ScheduleExample.k 2 [] s' /\ exists moved, waiting s' = [1] ++ moved.
Proof.
  pose proof (ooo_cycle_refines_list ScheduleExample.k 2 ScheduleExample.s1 ScheduleExample.k_ok eq_refl ScheduleExample.s1_ok ScheduleExample.s1_running) as H.
  assert (Hr : match select ScheduleExample.k 2 (waiting ScheduleExample.s1) 0 (s_core (with_ports_cleared ScheduleExample.s1)) with
    | Done (rest, n, _) => Some (rest, n) | Fault _ => None end = Some ([1], 2)) by (vm_compute; reflexivity).
  destruct (select _ _ _ _ _) as [[[rest n] c] |]; [injection Hr as -> -> | discriminate Hr].
  destruct H as (s' & started & moved & dropped & H1 & H2 & H3 & _). exists s'. split; [exact H1 |]. split; [exact H2 |]. exists moved. exact H3.
Defined.

Lemma ooo_respects_dependences_witness : exists u x,
  entry_uop (s_core (ScheduleExample.after 2 ScheduleExample.s1)) 0 u x /\ m_in_scheduler x = false.
Proof.
  assert (E : ScheduleExample.started 2 ScheduleExample.s1 = Some 2) by (vm_compute; reflexivity). apply ScheduleExample.after_done in E.
  destruct (ooo_respects_dependences ScheduleExample.k 2 _ _ _ 0 ScheduleExample.k_ok eq_refl ScheduleExample.s1_ok ScheduleExample.s1_running E) as (u & x & H1 & H2 & _).
  - rewrite ScheduleExample.s1_waiting. left.
  - assert (Hw : waiting (ScheduleExample.after 2 ScheduleExample.s1) = [1]) by (vm_compute; reflexivity). rewrite Hw. intros H. apply list_elem_of_singleton in H. discriminate H.
  - exists u, x. split; [exact H1 | exact H2].
Defined.

Lemma ooo_resource_bounds_witness :
  m_port_used (c_exec (s_core (ScheduleExample.after 2 ScheduleExample.s1))) = [1; 0; 0; 1] /\
  m_num_in_sched (s_core (ScheduleExample.after 2 ScheduleExample.s1)) = Z.of_nat (length (waiting (ScheduleExample.after 2 ScheduleExample.s1))).
Proof.
  assert (E : ScheduleExample.started 2 ScheduleExample.s1 = Some 2) by (vm_compute; reflexivity). apply ScheduleExample.after_done in E.
  destruct (ooo_resource_bounds ScheduleExample.k 2 _ _ _ ScheduleExample.k_ok eq_refl ScheduleExample.s1_ok ScheduleExample.s1_running E) as (_ & _ & H & _).
  split; [vm_compute; reflexivity | exact H].
Defined.

(** The same three, in order: the first starts, the second has to wait for it, and
    so does the third. *)
Lemma io_in_order_witness : exists s', io_loop ScheduleExample.k 2 4 0 ScheduleExample.s1 = Done (s', 1) /\
  io_result 2 1 ScheduleExample.s1 s' /\ m_next_inorder_to_schedule s' = 1.
Proof.
  pose proof (io_in_order ScheduleExample.k 2 ScheduleExample.s1 4) as H.
  assert (Hr : match io_loop ScheduleExample.k 2 4 0 ScheduleExample.s1 with Done (s', n) => Some (n, m_next_inorder_to_schedule s') | Fault _ => None end = Some (1, 1))
    by (vm_compute; reflexivity).
  destruct (io_loop _ _ _ _ _) as [[s' n] |] eqn:E; [injection Hr as -> Hn | discriminate Hr].
  destruct H as (j & Hj & H1 & _).
  - split; intros u x Hu; revert u x Hu; [| apply (map_Forall_lookup (fun _ x => m_in_scheduler x = true -> done_of x = 0) (uops_of (s_core ScheduleExample.s1)));
      apply (bool_decide_unpack _); vm_compute; exact I].
    intros u x Hu Hr. exfalso. assert (Hf : map_Forall (fun _ x => m_srcs_rdy (deps x) = false) (uops_of (s_core ScheduleExample.s1)))
      by (apply (bool_decide_unpack _); vm_compute; exact I). rewrite (Hf u x Hu) in Hr. discriminate Hr.
  - vm_compute. split; [discriminate | reflexivity].
  - vm_compute. lia.
  - assert (j = 1%nat) as -> by lia. exists s'. split; [reflexivity |]. split; [exact H1 | exact Hn].
Defined.
