(* ===== verification/Retire.v ===== *)
(** * Retirement (retire.cc, retire.h)

    The retirement stage of a CPU core commits finished micro-operations from the
    front of the reorder buffer, keeps committed stores in a write buffer until
    they are done, gives resources back and frees the objects. What the process
    manager does with a thread that ends is the interface [ProcessManager]: its
    calls can fault, and a cycle then faults with them. *)

From S2P Require Import Prelude.
From S2P Require Import Utils.
From S2P Require Import Rob.
From S2P Require Import Allocate.
From S2P Require Import Uops.
From S2P Require Import Map.

Import Rob.

(** The calls of the stage to the process manager, for a thread of this core. *)
Class ProcessManager (T : Type) := {
  terminate_thread : Z -> T -> outcome T;
  (** all threads of its process have ended; there is no further application or
      the instruction limit is reached *)
  all_threads_terminated : Z -> T -> bool;
  no_more_applications : Z -> T -> bool;
  update_stats : Z -> T -> outcome T;
  terminate_process : Z -> T -> outcome T;
  repeat_traces : Z -> T -> outcome T;
  sim_thread_schedule : bool -> T -> outcome T
}.

Record retire_knobs := mk_retire_knobs {
  rk_map : map_knobs;
  m_knob_width : nat;
  KNOB_USE_WB : bool;
  KNOB_WB_SIZE : Z;
  KNOB_WB_FIFO : bool;
  KNOB_FENCE_ENABLE : bool;
  KNOB_ACQ_REL : bool;
  KNOB_MAX_INSTS : Z
}.

(** The fields of the core that say how far its threads are. *)
Record thread_flags := mk_flags {
  m_thread_reach_end : gmap Z bool;
  m_thread_finished : gmap Z bool;
  m_fetch_ended : gmap Z bool;
  m_num_thread_reach_end : Z;
  m_fetching_thread_num : Z
}.

Record retire_c (T : Type) := mk_retire {
  rt_map : map_c;
  rt_rob : rob_c;
  m_resource : Resource.resource_c;
  m_uop_pool : Pool.pool_c;
  m_write_buffer : list nat;
  m_insts_retired : gmap Z Z;
  m_uops_retired : gmap Z Z;
  m_total_insts_retired : Z;
  m_period_inst_count : Z;
  m_retire_running : bool;
  rt_core : thread_flags;
  rt_pm : T
}.
Arguments mk_retire {T}.
Arguments rt_map {T}.
Arguments rt_rob {T}.
Arguments m_resource {T}.
Arguments m_uop_pool {T}.
Arguments m_write_buffer {T}.
Arguments m_insts_retired {T}.
Arguments m_uops_retired {T}.
Arguments m_total_insts_retired {T}.
Arguments m_period_inst_count {T}.
Arguments m_retire_running {T}.
Arguments rt_core {T}.
Arguments rt_pm {T}.

Section RETIRE.
Context {T : Type} `{!ProcessManager T}.
Context (k : retire_knobs) (now : Z).
Abbreviation state := (retire_c T).

Definition uops_in (s : state) : uop_store := uops (rt_map s).
Definition with_map (m : map_c) (s : state) : state :=
  mk_retire m (rt_rob s) (m_resource s) (m_uop_pool s) (m_write_buffer s) (m_insts_retired s) (m_uops_retired s)
    (m_total_insts_retired s) (m_period_inst_count s) (m_retire_running s) (rt_core s) (rt_pm s).
Definition with_rob (r : rob_c) (s : state) : state :=
  mk_retire (rt_map s) r (m_resource s) (m_uop_pool s) (m_write_buffer s) (m_insts_retired s) (m_uops_retired s)
    (m_total_insts_retired s) (m_period_inst_count s) (m_retire_running s) (rt_core s) (rt_pm s).
Definition with_resource (r : Resource.resource_c) (s : state) : state :=
  mk_retire (rt_map s) (rt_rob s) r (m_uop_pool s) (m_write_buffer s) (m_insts_retired s) (m_uops_retired s)
    (m_total_insts_retired s) (m_period_inst_count s) (m_retire_running s) (rt_core s) (rt_pm s).
Definition with_pool (p : Pool.pool_c) (s : state) : state :=
  mk_retire (rt_map s) (rt_rob s) (m_resource s) p (m_write_buffer s) (m_insts_retired s) (m_uops_retired s)
    (m_total_insts_retired s) (m_period_inst_count s) (m_retire_running s) (rt_core s) (rt_pm s).
Definition with_wb (l : list nat) (s : state) : state :=
  mk_retire (rt_map s) (rt_rob s) (m_resource s) (m_uop_pool s) l (m_insts_retired s) (m_uops_retired s)
    (m_total_insts_retired s) (m_period_inst_count s) (m_retire_running s) (rt_core s) (rt_pm s).
Definition with_retired (insts uops_ : gmap Z Z) (total period : Z) (s : state) : state :=
  mk_retire (rt_map s) (rt_rob s) (m_resource s) (m_uop_pool s) (m_write_buffer s) insts uops_ total period
    (m_retire_running s) (rt_core s) (rt_pm s).
Definition with_running (b : bool) (s : state) : state :=
  mk_retire (rt_map s) (rt_rob s) (m_resource s) (m_uop_pool s) (m_write_buffer s) (m_insts_retired s) (m_uops_retired s)
    (m_total_insts_retired s) (m_period_inst_count s) b (rt_core s) (rt_pm s).
Definition with_threads (c : thread_flags) (t : T) (s : state) : state :=
  mk_retire (rt_map s) (rt_rob s) (m_resource s) (m_uop_pool s) (m_write_buffer s) (m_insts_retired s) (m_uops_retired s)
    (m_total_insts_retired s) (m_period_inst_count s) (m_retire_running s) c t.

Definition start (s : state) : state := with_running true s.
Definition stop (s : state) : state := with_running false s.
Definition bump (m : gmap Z Z) (t : Z) : gmap Z Z := <[t := u64 (default 0 (m !! t) + 1)]> m.
Definition flag (m : gmap Z bool) (t : Z) : bool := default false (m !! t).
Definition allocate_retire_data (tid : Z) (s : state) : state :=
  with_retired (<[tid := 0]> (m_insts_retired s)) (<[tid := 0]> (m_uops_retired s)) (m_total_insts_retired s) (m_period_inst_count s) s.

(** ** The write buffer *)

Definition insert_wb (u : nat) (s : state) : state := with_wb (m_write_buffer s ++ [u]) s.

(** The lowest version, and the lowest number among the entries that lowered or
    met the version so far. *)
Fixpoint min_wb_loop (l : list nat) (lowest age : Z) (σ : uop_store) : outcome (Z * Z) :=
  match l with
  | [] => mret (lowest, age)
  | u :: l' =>
      x ← get_s u σ;
      if m_mem_version (base x) <=? lowest
      then min_wb_loop l' (m_mem_version (base x)) (if num_of x <? age then num_of x else age) σ
      else min_wb_loop l' lowest age σ
  end.
Definition get_min_wb (s : state) : outcome (Z * Z) := min_wb_loop (m_write_buffer s) 65535 (u64 (-1)) (uops_in s).

Definition check_ld_ordering_wb (x : uop_s) (s : state) : outcome bool :=
  match m_write_buffer s with
  | [] => mret false
  | _ =>
      '(lowest, age) ← get_min_wb s;
      mret (if m_mem_version (base x) <=? lowest then false else if age <? num_of x then false else true)
  end.

(** ** Freeing *)

Definition release (u : nat) (s : state) : outcome state :=
  m ← free_uop (rk_map k) u (rt_map s);
  mret (with_pool (Pool.release_entry u (m_uop_pool s)) (with_map m s)).
Fixpoint free_children (n : nat) (i : Z) (children : list nat) (s : state) : outcome state :=
  match n with
  | O => mret s
  | S n' => c ← aget children i; s1 ← release c s; free_children n' (i + 1) children s1
  end.
Definition free_uop_resources (u : nat) (s : state) : outcome state :=
  x ← get_s u (uops_in s);
  s1 ← free_children (Z.to_nat (m_num_child_uops (mem x))) 0 (m_child_uops (mem x)) s;
  release u s1.

(** ** Draining the write buffer *)

Definition store_pending (x : uop_s) : bool := (done_of x =? 0) || (now <? done_of x) || (m_exec_cycle x =? 0).

(** A done store that has to stay: [first] says that it is the oldest. The second
    result is whether the loop goes on. *)
Definition store_held (first : bool) (x : uop_s) (r : rob_c) : outcome (bool * bool) :=
  if negb (KNOB_ACQ_REL k) then mret (false, true) else
  match m_bar_type (base x) with
  | REL_BAR => mret (negb first, true)
  | _ => held ← version_ordering_check (base x) r; mret (held, negb (KNOB_WB_FIFO k))
  end.

(** [kept] are the entries the iterator has passed. *)
Fixpoint drain_loop (kept rest : list nat) (s : state) : outcome (list nat * state) :=
  match rest with
  | [] => mret (kept, s)
  | u :: rest' =>
      x ← get_s u (uops_in s);
      if store_pending x then
        if KNOB_WB_FIFO k then mret (kept ++ rest, s) else drain_loop (kept ++ [u]) rest' s
      else
        '(held, go_on) ← store_held (match kept with [] => true | _ => false end) x (rt_rob s);
        if held : bool then (if go_on : bool then drain_loop (kept ++ [u]) rest' s else mret (kept ++ rest, s)) else
        s1 ← free_uop_resources u s;
        drain_loop kept rest' s1
  end.

(** [uint8_t lowest_version = -1]. *)
Fixpoint lowest_version_loop (l : list nat) (lowest : Z) (σ : uop_store) : outcome Z :=
  match l with
  | [] => mret lowest
  | u :: l' => x ← get_s u σ; lowest_version_loop l' (if m_mem_version (base x) <? lowest then u8 (m_mem_version (base x)) else lowest) σ
  end.

Definition drain_wb (s : state) : outcome state :=
  match m_write_buffer s with
  | [] => mret s
  | _ =>
      '(wb, s1) ← drain_loop [] (m_write_buffer s) s;
      let s2 := with_wb wb s1 in
      r ← match wb with
          | [] => update_orq (u64 (-1)) (set_wb_empty true (rt_rob s2))
          | u :: _ => x ← get_s u (uops_in s2); update_orq (num_of x) (set_wb_empty false (rt_rob s2))
          end;
      lowest ← lowest_version_loop wb (u8 (-1)) (uops_in s2);
      r1 ← update_orq lowest r;
      mret (with_rob r1 s2)
  end.

(** ** Committing one micro-operation *)

Definition fence_kind_of (x : uop_s) : Fence.fence_type :=
  if negb (KNOB_ACQ_REL k) then Fence.FENCE_FULL else
  match m_uop_type (base x) with UOP_ACQ_FENCE => Fence.FENCE_ACQUIRE | UOP_REL_FENCE => Fence.FENCE_RELEASE | _ => Fence.FENCE_FULL end.

Definition retire_fence (x : uop_s) (r : rob_c) : outcome rob_c :=
  if negb (KNOB_FENCE_ENABLE k && is_any_fence (base x)) then mret r else
  _ ← ASSERT (Fence.is_fence_active (m_fence r));
  r1 ← rob_del_fence_entry (fence_kind_of x) r;
  update_root (base x) r1.

(** The calls to the process manager when thread [t] ends. *)
Definition thread_ends (t : Z) (pm : T) : outcome T :=
  pm1 ← terminate_thread t pm;
  pm2 ← (if all_threads_terminated t pm1 then
           pm ← (if no_more_applications t pm1
                 then a ← update_stats t pm1; b ← terminate_process t a; repeat_traces t b
                 else terminate_process t pm1);
           sim_thread_schedule true pm
         else mret pm1);
  sim_thread_schedule false pm2.

(** The thread of [x] ends; [terminate_thread] marks it as finished and, through
    [deallocate_thread_data], deletes its dependence map. *)
Definition end_thread (x : uop_s) (s : state) : outcome state :=
  let t := thread_of x in
  let c := rt_core s in
  let c1 := mk_flags (<[t := true]> (m_thread_reach_end c)) (m_thread_finished c) (m_fetch_ended c) (m_num_thread_reach_end c) (m_fetching_thread_num c) in
  if flag (m_thread_finished c) t then mret (with_threads c1 (rt_pm s) s) else
  let c2 := mk_flags (m_thread_reach_end c1) (<[t := true]> (m_thread_finished c1))
              (if flag (m_fetch_ended c1) t then m_fetch_ended c1 else <[t := true]> (m_fetch_ended c1))
              (m_num_thread_reach_end c1 + 1)
              (if flag (m_fetch_ended c1) t then m_fetching_thread_num c1 else m_fetching_thread_num c1 - 1) in
  pm ← thread_ends t (rt_pm s);
  mret (with_threads c2 pm (with_map (delete_map t (rt_map s)) s)).

Definition count_inst (x : uop_s) (s : state) : state :=
  if m_isitBOM x
  then with_retired (bump (m_insts_retired s) (thread_of x)) (m_uops_retired s) (u64 (m_total_insts_retired s + 1)) (m_period_inst_count s + 1) s
  else s.

Definition give_back (x : uop_s) (r : Resource.resource_c) : outcome Resource.resource_c :=
  r1 ← (if m_req_lb (base x) then Resource.dealloc_lb r else mret r);
  r2 ← (if m_req_sb (base x) then Resource.dealloc_sb r1 else mret r1);
  let r3 := if m_req_int_reg (base x) then Resource.dealloc_int_reg r2 else r2 in
  mret (if m_req_fp_reg (base x) then Resource.dealloc_fp_reg r3 else r3).

(** What follows the removal from the reorder buffer. *)
Definition commit (u : nat) (x : uop_s) (s : state) : outcome state :=
  let s1 := count_inst x s in
  s2 ← (if m_last_uop x || (KNOB_MAX_INSTS k <=? default 0 (m_insts_retired s1 !! thread_of x)) then end_thread x s1 else mret s1);
  let s3 := with_retired (m_insts_retired s2) (bump (m_uops_retired s2) (thread_of x)) (m_total_insts_retired s2) (m_period_inst_count s2) s2 in
  r ← give_back x (m_resource s3);
  let s4 := with_resource r s3 in
  if KNOB_USE_WB k && bool_decide (m_mem_type (base x) = MEM_ST) then mret s4 else free_uop_resources u s4.

(** Whether the front of the buffer can go, and the state with a store moved to
    the write buffer. *)
Definition front_ready (u : nat) (x : uop_s) (s : state) : outcome (option state) :=
  let wb := KNOB_USE_WB k && bool_decide (m_mem_type (base x) = MEM_ST) && negb (m_exec_cycle x =? 0) in
  if wb && (Z.of_nat (length (m_write_buffer s)) =? KNOB_WB_SIZE k) then mret None else
  if negb wb && ((done_of x =? 0) || (m_exec_cycle x =? 0) || (now <? done_of x)) then mret None else
  let s1 := if wb then insert_wb u s else s in
  if bool_decide (m_mem_type (base x) = MEM_LD) then
    late ← check_ld_ordering_wb x s1; mret (if late : bool then None else Some s1)
  else mret (Some s1).

Definition retire_one (s : state) : outcome (option state) :=
  if entries (rt_rob s) =? 0 then mret None else
  p ← front (rt_rob s);
  u ← get_or NullDeref p;
  x ← get_s u (uops_in s);
  adm ← front_ready u x s;
  match adm with
  | None => mret None
  | Some s1 =>
      r ← retire_fence x (rt_rob s1);
      r1 ← pop r (bases (uops_in s1));
      s2 ← commit u x (with_rob r1 s1);
      mret (Some s2)
  end.

Fixpoint retire_loop (width : nat) (s : state) : outcome state :=
  match width with
  | O => mret s
  | S w => o ← retire_one s; match o with None => mret s | Some s1 => retire_loop w s1 end
  end.

Definition run_a_cycle (s : state) : outcome state :=
  if negb (m_retire_running s) then mret s else
  s1 ← retire_loop (m_knob_width k) s;
  drain_wb s1.
End RETIRE.

(** ** Freeing an object *)

(** The entries of the store table have a slot for every byte. *)
Definition hash_wf (m : map_c) : Prop :=
  forall t d key e, m_core_map_data m !! t = Some d -> m_oracle_mem_hash d !! key = Some e -> length (mm_uop e) = 8%nat.
Definition dead (x : uop_s) : uop_s := with_valid false (with_base (set_id 0 (-1) (base x)) x).

Lemma delete_store_hash_total km u m x : uops m !! u = Some x -> hash_wf m ->
  exists m', delete_store_hash_entry km u m = Done m' /\ hash_wf m' /\ uops m' = uops m.
Proof.
  intros Hx Hwf. unfold delete_store_hash_entry. destruct (KNOB_IGNORE_DEP km); [by exists m |]. rewrite (get_s_live _ _ _ Hx), bind_done.
  destruct (m_core_map_data m !! thread_of x) as [d |] eqn:Hd; [| by exists m].
  destruct (m_oracle_mem_hash d !! _) as [e |] eqn:He; [| by exists m]. pose proof (Hwf _ _ _ _ Hd He) as Hl.
  assert (Hb : 0 <= Z.land (m_vaddr (mem x)) 7 < Z.of_nat (length (mm_uop e))).
  { rewrite Hl. change 7 with (Z.ones 3). rewrite Z.land_ones by lia. by apply Z.mod_pos_bound. }
  destruct (aget_in_range (mm_uop e) _ Hb) as (p & _ & ->). rewrite bind_done. destruct (negb _); [by exists m |].
  rewrite aset_in_range by done. rewrite bind_done. eexists. split; [done |]. split; [| done].
  intros t d' key' e' Hd' He'. simpl in Hd'. apply lookup_insert_Some in Hd' as [[<- <-] | [_ Hd']]; [| by eapply Hwf].
  simpl in He'. destruct (_ =? 0).
  - apply lookup_delete_Some in He' as [_ He']. by eapply Hwf.
  - apply lookup_insert_Some in He' as [[_ <-] | [_ He']]; [| by eapply Hwf]. simpl. by rewrite length_insert.
Qed.
Lemma free_uop_ok km u m x : uops m !! u = Some x -> hash_wf m ->
  exists m', free_uop km u m = Done m' /\ hash_wf m' /\ uops m' = <[u := dead x]> (uops m).
Proof.
  intros Hx Hwf. unfold free_uop. rewrite (get_s_live _ _ _ Hx), bind_done. cbv zeta. set (m0 := with_uops _ m).
  assert (H1 : exists m1, (if is_mem_store (m_mem_type (base x)) then delete_store_hash_entry km u m0 else mret m0) = Done m1 /\ hash_wf m1 /\ uops m1 = uops m0).
  { destruct (is_mem_store _); [| by exists m0]. eapply delete_store_hash_total; [apply lookup_insert_eq | done]. }
  destruct H1 as (m1 & -> & Hw1 & E1). rewrite bind_done. eexists. unfold upd_s. rewrite (get_s_live u (uops m1) (with_valid false (with_base (set_id 0 (thread_of x) (base x)) x))).
  - rewrite bind_done. simpl. split; [done |]. split; [done |]. rewrite E1. simpl. by rewrite insert_insert_eq.
  - rewrite E1. apply lookup_insert_eq.
Qed.

(** ** What a cycle works on *)

Section FREE.
Context {T : Type} `{!ProcessManager T}.
Context (k : retire_knobs) (now : Z).
Abbreviation state := (retire_c T).

(** The objects of a micro-operation: its children and itself. *)
Definition owned (σ : uop_store) (u : nat) : list nat :=
  match σ !! u with Some x => m_child_uops (mem x) ++ [u] | None => [u] end.
Definition owned_all (σ : uop_store) (l : list nat) : list nat := concat (owned σ <$> l).

(** An object that can be freed: its children are as many as it says, and live. *)
Definition whole (σ : uop_store) (u : nat) : Prop :=
  exists x, σ !! u = Some x /\ m_num_child_uops (mem x) = Z.of_nat (length (m_child_uops (mem x))) /\
    forall c, c ∈ m_child_uops (mem x) -> is_Some (σ !! c).

(** The fields freeing does not touch. *)
Definition same_but_objects (s s' : state) : Prop :=
  rt_rob s' = rt_rob s /\ m_resource s' = m_resource s /\ m_write_buffer s' = m_write_buffer s /\
  m_insts_retired s' = m_insts_retired s /\ m_uops_retired s' = m_uops_retired s /\
  m_total_insts_retired s' = m_total_insts_retired s /\ m_retire_running s' = m_retire_running s /\ rt_core s' = rt_core s /\ rt_pm s' = rt_pm s.
Lemma same_but_objects_trans s s1 s2 : same_but_objects s s1 -> same_but_objects s1 s2 -> same_but_objects s s2.
Proof. unfold same_but_objects. intros (? & ? & ? & ? & ? & ? & ? & ? & ?) (? & ? & ? & ? & ? & ? & ? & ? & ?). split_and!; congruence. Qed.

(** [l] has been given back to the pool. *)
Record freed (l : list nat) (s s' : state) : Prop := {
  fr_same : same_but_objects s s';
  fr_wf : hash_wf (rt_map s');
  fr_pool : forall out, Pool.pool_inv (m_uop_pool s) (l ++ out) -> Pool.pool_inv (m_uop_pool s') out;
  fr_store : forall v, ~ v ∈ l -> uops_in s' !! v = uops_in s !! v;
  fr_live : forall v, is_Some (uops_in s !! v) -> is_Some (uops_in s' !! v)
}.
Lemma freed_nil s : hash_wf (rt_map s) -> freed [] s s.
Proof. intros H. by split. Qed.
Lemma freed_app l l' s s1 s2 : freed l s s1 -> freed l' s1 s2 -> freed (l ++ l') s s2.
Proof.
  intros [A1 A2 A3 A4 A5] [B1 B2 B3 B4 B5]. split; [by eapply same_but_objects_trans | done | | | auto].
  - intros out Hp. apply B3, A3. by rewrite app_assoc.
  - intros v Hv. rewrite elem_of_app in Hv. rewrite B4, A4; auto.
Qed.

Lemma release_object_ok u s : is_Some (uops_in s !! u) -> hash_wf (rt_map s) -> exists s', release k u s = Done s' /\ freed [u] s s'.
Proof.
  intros [x Hx] Hwf. unfold release. destruct (free_uop_ok (rk_map k) u (rt_map s) x Hx Hwf) as (m' & -> & Hwf' & E). rewrite bind_done.
  eexists. split; [done |]. split; simpl; [done | done | | |].
  - intros out Hp. by apply Pool.release_entry_ok.
  - intros v Hv. unfold uops_in. simpl. rewrite E. apply lookup_insert_ne. intros ->. apply Hv. by apply list_elem_of_singleton.
  - intros v Hv. unfold uops_in. simpl. rewrite E. destruct (decide (v = u)) as [-> |]; [by rewrite lookup_insert_eq | by rewrite lookup_insert_ne].
Qed.
Lemma free_children_ok cs : forall pre s, (forall c, c ∈ cs -> is_Some (uops_in s !! c)) -> hash_wf (rt_map s) ->
  exists s', free_children k (length cs) (Z.of_nat (length pre)) (pre ++ cs) s = Done s' /\ freed cs s s'.
Proof.
  induction cs as [| c cs IH]; intros pre s Hl Hwf; simpl; [exists s; split; [done | by apply freed_nil] |].
  rewrite (aget_at _ _ c) by (rewrite ?Nat2Z.id; try lia; by rewrite lookup_app_r, Nat.sub_diag by lia). rewrite bind_done.
  destruct (release_object_ok c s) as (s1 & -> & F1); [apply Hl; left | done |]. rewrite bind_done.
  destruct (IH (pre ++ [c]) s1) as (s2 & E2 & F2).
  { intros c' Hc'. apply (fr_live _ _ _ F1), Hl. by right. } { by apply F1. }
  exists s2. split; [| exact (freed_app [c] cs s s1 s2 F1 F2)]. rewrite length_app, <- app_assoc in E2. simpl in E2.
  replace (Z.of_nat (length pre) + 1) with (Z.of_nat (length pre + 1)) by lia. done.
Qed.
Lemma free_uop_resources_ok u s : whole (uops_in s) u -> hash_wf (rt_map s) ->
  exists s', free_uop_resources k u s = Done s' /\ freed (owned (uops_in s) u) s s'.
Proof.
  intros (x & Hx & Hn & Hc) Hwf. unfold free_uop_resources, owned. rewrite Hx, (get_s_live _ _ _ Hx), bind_done. rewrite Hn, Nat2Z.id.
  destruct (free_children_ok (m_child_uops (mem x)) [] s Hc Hwf) as (s1 & E1 & F1). simpl in E1. change (Z.of_nat 0) with 0 in E1. rewrite E1, bind_done.
  destruct (release_object_ok u s1) as (s2 & -> & F2); [by apply (fr_live _ _ _ F1) | by apply F1 |]. exists s2. split; [done |].
  by eapply freed_app.
Qed.
End FREE.

(** ** The invariant *)

Definition goes_to_wb (k : retire_knobs) (x : uop_s) : bool :=
  KNOB_USE_WB k && bool_decide (m_mem_type (base x) = MEM_ST) && negb (m_exec_cycle x =? 0).
Definition finished (now : Z) (x : uop_s) : bool := negb (done_of x =? 0) && negb (m_exec_cycle x =? 0) && (done_of x <=? now).

Definition count_need (f : uop_c -> bool) (σ : uop_store) (l : list nat) : Z :=
  countb (fun u => match σ !! u with Some x => f (base x) | None => false end) l.
(** The resources in use are exactly those the micro-operations of [l] need. *)
Record charged (r : Resource.resource_c) (σ : uop_store) (l : list nat) : Prop := {
  ch_lb : Resource.m_num_lb r + count_need m_req_lb σ l = Resource.m_max_lb_cnt r;
  ch_sb : Resource.m_num_sb r + count_need m_req_sb σ l = Resource.m_max_sb_cnt r;
  ch_int : Resource.m_num_int_regs r + count_need m_req_int_reg σ l = Resource.m_max_int_regs r;
  ch_fp : Resource.m_num_fp_regs r + count_need m_req_fp_reg σ l = Resource.m_max_fp_regs r
}.

Lemma count_need_cons f σ u x l : σ !! u = Some x -> count_need f σ (u :: l) = (if f (base x) then 1 else 0) + count_need f σ l.
Proof. intros H. unfold count_need. simpl. by rewrite H. Qed.
Lemma count_need_ext f σ σ' l : (forall v, v ∈ l -> σ' !! v = σ !! v) -> count_need f σ' l = count_need f σ l.
Proof. intros H. apply countb_ext. intros v Hv. by rewrite H. Qed.
Lemma charged_ext r σ σ' l : (forall v, v ∈ l -> σ' !! v = σ !! v) -> charged r σ l -> charged r σ' l.
Proof. intros H []. split; by rewrite (count_need_ext _ _ _ _ H). Qed.
Lemma count_need_nonneg f σ l : 0 <= count_need f σ l.
Proof. apply countb_nonneg. Qed.

Lemma give_back_ok u x r σ l : σ !! u = Some x -> charged r σ (u :: l) -> exists r', give_back x r = Done r' /\ charged r' σ l.
Proof.
  intros Hx [H1 H2 H3 H4]. rewrite (count_need_cons _ _ _ _ _ Hx) in H1. rewrite (count_need_cons _ _ _ _ _ Hx) in H2.
  rewrite (count_need_cons _ _ _ _ _ Hx) in H3. rewrite (count_need_cons _ _ _ _ _ Hx) in H4.
  pose proof (count_need_nonneg m_req_lb σ l). pose proof (count_need_nonneg m_req_sb σ l). unfold give_back, Resource.dealloc_lb, Resource.dealloc_sb.
  destruct (m_req_lb (base x)); [rewrite (proj2 (Z.ltb_lt (Resource.m_num_lb r) _)) by lia |]; simpl;
  (destruct (m_req_sb (base x)); [rewrite (proj2 (Z.ltb_lt (Resource.m_num_sb r) _)) by lia |]; simpl);
  (eexists; split; [done |]); destruct (m_req_int_reg (base x)), (m_req_fp_reg (base x)); split; simpl; lia.
Qed.

Section INVARIANT.
Context {T : Type} `{!ProcessManager T}.
Context (k : retire_knobs) (now : Z).
Abbreviation state := (retire_c T).

(** [l] is in the reorder buffer, oldest first; [out] are the objects in use
    elsewhere. *)
Record retire_ok (l out : list nat) (s : state) : Prop := {
  ro_rob : rob_ok (rt_rob s) l;
  ro_whole : forall u, u ∈ l ++ m_write_buffer s -> whole (uops_in s) u;
  ro_pool : Pool.pool_inv (m_uop_pool s) (owned_all (uops_in s) (l ++ m_write_buffer s) ++ out);
  ro_wf : hash_wf (rt_map s);
  ro_res : charged (m_resource s) (uops_in s) l;
  ro_orq : KNOB_FENCE_ENABLE k = false -> m_orq (rt_rob s) = []
}.

Lemma owned_self σ u : u ∈ owned σ u.
Proof. unfold owned. destruct (σ !! u); [rewrite elem_of_app |]; rewrite ?list_elem_of_singleton; auto. Qed.
Lemma owned_in σ l u v : u ∈ l -> v ∈ owned σ u -> v ∈ owned_all σ l.
Proof.
  intros Hu Hv. unfold owned_all. apply list_elem_of_In, in_concat. exists (owned σ u). split; apply list_elem_of_In; [| done].
  by apply list_elem_of_fmap_2.
Qed.
Lemma owned_all_cons σ u l : owned_all σ (u :: l) = owned σ u ++ owned_all σ l.
Proof. done. Qed.
Lemma owned_all_app σ l l' : owned_all σ (l ++ l') = owned_all σ l ++ owned_all σ l'.
Proof. unfold owned_all. by rewrite fmap_app, concat_app. Qed.
Lemma pool_nodup p out : Pool.pool_inv p out -> NoDup out.
Proof. intros (H & _). by apply NoDup_app in H as (_ & _ & ?). Qed.

(** What stays is as it was when the objects of another micro-operation go. *)
Lemma freed_frame u (L out : list nat) (s s' : state) : freed (owned (uops_in s) u) s s' ->
  Pool.pool_inv (m_uop_pool s) (owned (uops_in s) u ++ owned_all (uops_in s) L ++ out) ->
  (forall v, v ∈ L -> whole (uops_in s) v) ->
  (forall v, v ∈ L -> uops_in s' !! v = uops_in s !! v) /\ (forall v, v ∈ L -> whole (uops_in s') v) /\
  owned_all (uops_in s') L = owned_all (uops_in s) L /\ Pool.pool_inv (m_uop_pool s') (owned_all (uops_in s') L ++ out).
Proof.
  intros [F1 F2 F3 F4 F5] Hp Hwh. pose proof (pool_nodup _ _ Hp) as Hnd. apply NoDup_app in Hnd as (_ & Hdis & _).
  assert (Hk : forall v w, v ∈ L -> w ∈ owned (uops_in s) v -> uops_in s' !! w = uops_in s !! w).
  { intros v w Hv Hw. apply F4. intros Hin. apply (Hdis w Hin). rewrite elem_of_app. left. by eapply owned_in. }
  assert (Hs : forall v, v ∈ L -> uops_in s' !! v = uops_in s !! v) by (intros v Hv; eapply Hk; [exact Hv | apply owned_self]).
  assert (Ho : owned_all (uops_in s') L = owned_all (uops_in s) L).
  { unfold owned_all. f_equal. apply list_fmap_ext. intros i v Hv. unfold owned. rewrite Hs; [done |]. by eapply list_elem_of_lookup_2. }
  split; [done |]. split; [| split; [done |]].
  - intros v Hv. destruct (Hwh v Hv) as (x & Hx & Hn & Hc). exists x. rewrite Hs by done. split; [done |]. split; [done |].
    intros c Hin. apply F5. auto.
  - rewrite Ho. by apply F3.
Qed.

(** States of the process manager that ending threads leads to. *)
Definition pm_step (p p' : T) : Prop := exists t, thread_ends t p = Done p'.

(** Counting and ending threads concern neither objects nor buffers. *)
Definition same_objects (s s' : state) : Prop :=
  (uops_in s' = uops_in s /\ (hash_wf (rt_map s) -> hash_wf (rt_map s'))) /\ rt_rob s' = rt_rob s /\ m_resource s' = m_resource s /\ m_uop_pool s' = m_uop_pool s /\
  m_write_buffer s' = m_write_buffer s /\ m_retire_running s' = m_retire_running s.
Lemma delete_map_wf t m : hash_wf m -> hash_wf (delete_map t m).
Proof. intros H t' d key e Hd. simpl in Hd. apply lookup_delete_Some in Hd as [_ Hd]. by eapply H. Qed.
Lemma retire_end_thread_cases x s :
  match end_thread x s with
  | Done s' => same_objects s s' /\ rtc pm_step (rt_pm s) (rt_pm s')
  | Fault f => thread_ends (thread_of x) (rt_pm s) = Fault f
  end.
Proof.
  unfold end_thread. destruct (flag _ _); [by split |]. destruct (thread_ends (thread_of x) (rt_pm s)) as [p |] eqn:E; simpl; [| done].
  split; [| apply rtc_once; by exists (thread_of x)]. split; [split; [done | apply delete_map_wf] | done].
Qed.

(** [s'] differs from [s] in nothing the objects of [L] depend on. *)
Definition kept (L : list nat) (s s' : state) : Prop := forall v, v ∈ L -> uops_in s' !! v = uops_in s !! v.

Lemma commit_ok u x l out wbr (s : state) : rob_ok (rt_rob s) l -> (KNOB_FENCE_ENABLE k = false -> m_orq (rt_rob s) = []) ->
  hash_wf (rt_map s) -> uops_in s !! u = Some x -> charged (m_resource s) (uops_in s) (u :: l) ->
  (forall v, v ∈ u :: l ++ wbr -> whole (uops_in s) v) -> Pool.pool_inv (m_uop_pool s) (owned_all (uops_in s) (u :: l ++ wbr) ++ out) ->
  m_write_buffer s = wbr ++ (if KNOB_USE_WB k && bool_decide (m_mem_type (base x) = MEM_ST) then [u] else []) ->
  match commit k u x s with
  | Done s' => retire_ok l out s' /\ m_write_buffer s' = m_write_buffer s /\
      kept (l ++ m_write_buffer s) s s' /\ m_retire_running s' = m_retire_running s /\ rtc pm_step (rt_pm s) (rt_pm s')
  | Fault f => thread_ends (thread_of x) (rt_pm s) = Fault f
  end.
Proof.
  intros Hrob Horq Hwf Hx Hch Hwh Hpool Hwb. unfold commit. set (s1 := count_inst x s).
  assert (E1 : same_objects s s1 /\ rt_pm s1 = rt_pm s) by (unfold s1, count_inst; by destruct (m_isitBOM x)).
  assert (H2 : match (if m_last_uop x || (KNOB_MAX_INSTS k <=? default 0 (m_insts_retired s1 !! thread_of x)) then end_thread x s1 else mret s1) with
    | Done s2 => same_objects s1 s2 /\ rtc pm_step (rt_pm s1) (rt_pm s2) | Fault f => thread_ends (thread_of x) (rt_pm s1) = Fault f end).
  { destruct (_ || _); [apply retire_end_thread_cases | done]. }
  destruct E1 as [E1 P1]. rewrite P1 in H2. destruct (if _ || _ then _ else _) as [s2 |]; [| exact H2]. destruct H2 as [E2 P2].
  rewrite bind_done. set (s3 := with_retired _ _ _ _ s2).
  assert (E3 : same_objects s s3 /\ rtc pm_step (rt_pm s) (rt_pm s3)).
  { destruct E1 as ([? ?] & ? & ? & ? & ? & ?), E2 as ([? ?] & ? & ? & ? & ? & ?). split; [| done]. unfold s3, same_objects, uops_in in *. simpl.
    split_and!; try congruence. auto. }
  clearbody s3. clear s1 s2 E1 E2 P1 P2. destruct E3 as [([Mu M1] & M2 & M3 & M4 & M5 & M6) P3].
  rewrite M3. destruct (give_back_ok u x (m_resource s) (uops_in s) l Hx Hch) as (r & -> & Hr). rewrite bind_done. set (s4 := with_resource r s3).
  assert (E4 : hash_wf (rt_map s4) /\ rt_rob s4 = rt_rob s /\ m_resource s4 = r /\ m_uop_pool s4 = m_uop_pool s /\
    m_write_buffer s4 = m_write_buffer s /\ m_retire_running s4 = m_retire_running s /\ uops_in s4 = uops_in s /\ rtc pm_step (rt_pm s) (rt_pm s4))
    by (split_and!; try done; by apply M1).
  clearbody s4. clear s3 M1 M2 M3 M4 M5 M6 Mu P3. destruct E4 as (M1 & M2 & M3 & M4 & M5 & M6 & Mu & P4).
  destruct (KNOB_USE_WB k && bool_decide (m_mem_type (base x) = MEM_ST)).
  - simpl. split; [| split; [exact M5 | split; [intros v _; by rewrite Mu | split; [exact M6 | exact P4]]]].
    split; rewrite ?M2, ?M3, ?M4, ?Mu, ?M5, ?Hwb; try done.
    + intros v. rewrite !elem_of_app, list_elem_of_singleton. intros Hv. apply Hwh. rewrite elem_of_cons, elem_of_app. destruct Hv as [| [|]]; auto.
    + assert (Hp : owned_all (uops_in s) (l ++ wbr ++ [u]) ≡ₚ owned_all (uops_in s) (u :: l ++ wbr)).
      { rewrite owned_all_cons, !owned_all_app. unfold owned_all at 3. simpl. rewrite app_nil_r. solve_Permutation. }
      eapply Pool.pool_inv_proper; [| exact Hpool]. by rewrite Hp.
  - rewrite app_nil_r in Hwb. destruct (free_uop_resources_ok k u s4) as (s5 & E5 & F5).
    { rewrite Mu. apply Hwh. left. } { done. }
    rewrite E5. destruct (freed_frame u (l ++ wbr) out s4 s5 F5) as (G1 & G2 & G3 & G4).
    { rewrite Mu, M4. rewrite owned_all_cons, <- app_assoc in Hpool. exact Hpool. }
    { intros v Hv. rewrite Mu. apply Hwh. by right. }
    destruct F5 as [(B1 & B2 & B3 & B4 & B5 & B6 & B7 & B8 & B9) F52 F53 F54 F55]. rewrite Mu in *.
    assert (Hw5 : m_write_buffer s5 = wbr) by congruence.
    split; [| split; [congruence | split; [| split; [congruence | by rewrite B9]]]]; [| intros v Hv; rewrite Hwb in Hv; auto].
    split; rewrite ?Hw5, ?B1, ?B2, ?M2, ?M3; try done.
    eapply charged_ext; [| exact Hr]. intros v Hv. apply G1. rewrite elem_of_app. auto.
Qed.

Lemma retire_fence_cases x r :
  match retire_fence k x r with
  | Done r' => same_buffer r r' /\ (KNOB_FENCE_ENABLE k = false -> m_orq r' = m_orq r)
  | Fault _ => KNOB_FENCE_ENABLE k = true
  end.
Proof.
  unfold retire_fence. destruct (KNOB_FENCE_ENABLE k); simpl; [| done]. destruct (is_any_fence (base x)); simpl; [| done].
  destruct (ASSERT _) as [[] |]; [rewrite bind_done | done]. unfold rob_del_fence_entry. destruct (Fence.del_fence_entry _ _) as [f |]; [rewrite !bind_done | done].
  unfold update_root. destruct (negb (is_root_fence _)); [done |]. destruct (ASSERT _) as [[] |]; [rewrite bind_done | done].
  destruct (get_or _ _); [rewrite bind_done | done]. done.
Qed.
Lemma pop_orq r σ r' : pop r σ = Done r' -> m_orq r' = m_orq r.
Proof.
  unfold pop. intros H. step H as r1 H1. apply done_val in H as ->. simpl. destruct (_ && _) in H1; [| by apply done_val in H1 as ->].
  step H1 as p Hp. step H1 as y Hy. by apply done_val in H1 as ->.
Qed.

(** The load [x] is held back by the write buffer [wb]: it has a lower version
    than the load, and no entry counted for that version is older. *)
Definition held_back (σ : uop_store) (wb : list nat) (x : uop_s) : Prop :=
  wb <> [] /\ exists lowest age, min_wb_loop wb 65535 (u64 (-1)) σ = Done (lowest, age) /\ lowest < m_mem_version (base x) /\ num_of x <= age.

(** Why the front of the buffer stays, with the write buffer [wb]: there is no
    entry, it is a store and [wb] is full, it is not finished, or it is a load
    held back by [wb]. *)
Definition blocked (σ : uop_store) (wb l : list nat) : Prop :=
  l = [] \/ exists u l' x, l = u :: l' /\ σ !! u = Some x /\
    ((goes_to_wb k x = true /\ Z.of_nat (length wb) = KNOB_WB_SIZE k) \/
     (goes_to_wb k x = false /\ finished now x = false) \/
     (m_mem_type (base x) = MEM_LD /\ held_back σ wb x)).

Lemma check_ld_held x (s : state) : check_ld_ordering_wb x s = Done true -> held_back (uops_in s) (m_write_buffer s) x.
Proof.
  unfold check_ld_ordering_wb, get_min_wb, held_back. destruct (m_write_buffer s) as [| w ws]; [done |]. intros H. step H as [lo age] Hm.
  destruct (Z.leb_spec (m_mem_version (base x)) lo); [done |]. destruct (Z.ltb_spec age (num_of x)); [done |]. split; [done |]. by exists lo, age.
Qed.
Lemma min_wb_ext σ σ' wb : (forall v, v ∈ wb -> σ' !! v = σ !! v) -> forall a b, min_wb_loop wb a b σ' = min_wb_loop wb a b σ.
Proof.
  induction wb as [| u wb IH]; intros H a b; simpl; [done |].
  assert (Eu : get_s u σ' = get_s u σ) by (unfold get_s; by rewrite H by left). rewrite Eu. destruct (get_s u σ) as [x |]; simpl; [| done].
  rewrite !IH by (intros v Hv; apply H; by right). done.
Qed.
Lemma blocked_ext σ σ' wb l : (forall v, v ∈ l ++ wb -> σ' !! v = σ !! v) -> blocked σ' wb l -> blocked σ wb l.
Proof.
  intros H [-> | (u & l' & x & -> & Hx & Hc)]; [by left |]. right. exists u, l', x. rewrite H in Hx by (simpl; left). split; [done |]. split; [done |].
  destruct Hc as [? | [? | (Hm & Hne & lo & age & Hw & Hr)]]; [by left | by right; left |]. right. right. split; [done |]. split; [done |].
  exists lo, age. rewrite <- (min_wb_ext σ σ') by (intros v Hv; apply H; rewrite elem_of_app; auto). done.
Qed.

Lemma min_wb_total (s : state) (l : list nat) : (forall u, u ∈ l -> is_Some (uops_in s !! u)) -> forall a b, exists r, min_wb_loop l a b (uops_in s) = Done r.
Proof.
  induction l as [| u l IH]; intros Hl a b; simpl; [by eexists |]. destruct (Hl u) as [x Hx]; [left |]. rewrite (get_s_live _ _ _ Hx), bind_done.
  destruct (_ <=? _); apply IH; intros v Hv; apply Hl; by right.
Qed.
Lemma check_ld_total x (s : state) : (forall u, u ∈ m_write_buffer s -> is_Some (uops_in s !! u)) -> exists b, check_ld_ordering_wb x s = Done b.
Proof.
  intros H. unfold check_ld_ordering_wb, get_min_wb. destruct (m_write_buffer s) as [| u l]; [by eexists |].
  destruct (min_wb_total s (u :: l) H 65535 (u64 (-1))) as [[a b] ->]. rewrite bind_done. by eexists.
Qed.

Lemma front_ready_cases u l x (s : state) : uops_in s !! u = Some x -> (forall v, v ∈ m_write_buffer s -> is_Some (uops_in s !! v)) ->
  (front_ready k now u x s = Done None /\ blocked (uops_in s) (m_write_buffer s) (u :: l)) \/
  (front_ready k now u x s = Done (Some (if goes_to_wb k x then insert_wb u s else s)) /\ (goes_to_wb k x = true \/ finished now x = true) /\
   (goes_to_wb k x = true -> Z.of_nat (length (m_write_buffer s)) <> KNOB_WB_SIZE k)).
Proof.
  intros Hx Hl. unfold front_ready. fold (goes_to_wb k x).
  destruct (goes_to_wb k x && (Z.of_nat (length (m_write_buffer s)) =? KNOB_WB_SIZE k)) eqn:E1.
  { left. split; [done |]. right. exists u, l, x. split; [done |]. split; [done |]. left. by apply andb_true_iff in E1 as [? ->%Z.eqb_eq]. }
  assert (Ef : (done_of x =? 0) || (m_exec_cycle x =? 0) || (now <? done_of x) = negb (finished now x)).
  { unfold finished. rewrite !negb_andb, !negb_involutive. by rewrite Z.leb_antisym, negb_involutive. }
  rewrite Ef. destruct (goes_to_wb k x) eqn:Ew; simpl negb; simpl andb.
  - right. split; [| split; [by left | intros _; by apply andb_false_iff in E1 as [|?%Z.eqb_neq]]]. assert (m_mem_type (base x) = MEM_ST) as Em.
    { unfold goes_to_wb in Ew. clear E1. apply andb_true_iff in Ew as [Ew _]. apply andb_true_iff in Ew as [_ Ew]. by apply bool_decide_eq_true in Ew. }
    by rewrite Em.
  - destruct (finished now x) eqn:Ed; simpl; [| left; split; [done |]; right; exists u, l, x; split; [done |]; split; [done |]; right; by left].
    destruct (bool_decide_reflect (m_mem_type (base x) = MEM_LD)) as [Em |]; [| right; by auto].
    destruct (check_ld_total x s Hl) as [b Eb]. rewrite Eb, bind_done. destruct b; [left | right; by auto].
    split; [done |]. right. exists u, l, x. split; [done |]. split; [done |]. right. right. split; [done |]. by apply check_ld_held.
Qed.

(** The object of [u] was complete when it was committed. *)
Definition committable (s : state) (u : nat) : Prop :=
  exists x, uops_in s !! u = Some x /\ (goes_to_wb k x = true \/ finished now x = true).
Definition to_wb (s : state) (u : nat) : bool := match uops_in s !! u with Some x => goes_to_wb k x | None => false end.

Lemma retire_one_ok l out (s : state) : retire_ok l out s ->
  match retire_one k now s with
  | Done None => blocked (uops_in s) (m_write_buffer s) l
  | Done (Some s') => exists u l', l = u :: l' /\ committable s u /\ (to_wb s u = true -> Z.of_nat (length (m_write_buffer s)) <> KNOB_WB_SIZE k) /\ retire_ok l' out s' /\
      m_write_buffer s' = m_write_buffer s ++ (if to_wb s u then [u] else []) /\ kept (l' ++ m_write_buffer s') s s' /\
      m_retire_running s' = m_retire_running s /\ rtc pm_step (rt_pm s) (rt_pm s')
  | Fault f => KNOB_FENCE_ENABLE k = true \/
      exists u l' x, l = u :: l' /\ uops_in s !! u = Some x /\ committable s u /\ thread_ends (thread_of x) (rt_pm s) = Fault f
  end.
Proof.
  intros Hok. pose proof Hok as [R1 R2 R3 R4 R5 R6]. unfold retire_one. pose proof (k_free _ _ R1) as Hfree. unfold entries. destruct l as [| u l].
  { rewrite (proj2 (Z.eqb_eq _ 0)) by (simpl in Hfree; lia). by left. }
  rewrite (proj2 (Z.eqb_neq _ 0)) by (simpl in Hfree; lia). rewrite (front_ok _ _ _ R1), bind_done. simpl get_or. rewrite bind_done.
  destruct (R2 u) as (x & Hx & Hch); [rewrite elem_of_app; left; left |]. rewrite (get_s_live _ _ _ Hx), bind_done.
  assert (Hl : forall v, v ∈ m_write_buffer s -> is_Some (uops_in s !! v)).
  { intros v Hv. destruct (R2 v) as (y & Hy & _); [rewrite elem_of_app; auto |]. eauto. }
  destruct (front_ready_cases u l x s Hx Hl) as [[-> Hb] | (-> & Hc & Hroom)]; rewrite bind_done; [done |].
  set (s1 := if goes_to_wb k x then insert_wb u s else s).
  assert (E1 : rt_map s1 = rt_map s /\ rt_rob s1 = rt_rob s /\ m_resource s1 = m_resource s /\ m_uop_pool s1 = m_uop_pool s /\
    m_write_buffer s1 = m_write_buffer s ++ (if goes_to_wb k x then [u] else []) /\ m_retire_running s1 = m_retire_running s /\ uops_in s1 = uops_in s /\ rt_pm s1 = rt_pm s).
  { unfold s1. destruct (goes_to_wb k x); split_and!; try done. by rewrite app_nil_r. }
  clearbody s1. destruct E1 as (M1 & M2 & M3 & M4 & M5 & M6 & Mu & Mp). rewrite M2.
  pose proof (retire_fence_cases x (rt_rob s)) as Hf. destruct (retire_fence k x (rt_rob s)) as [r |]; [rewrite bind_done | by left]. destruct Hf as [Hsb Horq].
  destruct (pop_ok r u l (bases (uops_in s1))) as (r1 & Epop & Hr1 & _).
  { by eapply rob_ok_same. } { intros v Hv. unfold bases. rewrite lookup_fmap, Mu. destruct (R2 v) as (y & -> & _); [rewrite elem_of_app; auto |]. by eexists. }
  rewrite Epop, bind_done. apply pop_orq in Epop.
  assert (Hst : KNOB_USE_WB k && bool_decide (m_mem_type (base x) = MEM_ST) = goes_to_wb k x).
  { unfold goes_to_wb in *. destruct (KNOB_USE_WB k && _); [| done]. simpl in *. destruct (m_exec_cycle x =? 0) eqn:Ee; [| done]. exfalso.
    destruct Hc as [| Hc]; [done |]. unfold finished in Hc. rewrite Ee in Hc. simpl in Hc. by rewrite andb_false_r in Hc. }
  assert (Eu : uops_in (with_rob r1 s1) = uops_in s) by exact Mu.
  assert (Hcm : match commit k u x (with_rob r1 s1) with
    | Done s' => retire_ok l out s' /\ m_write_buffer s' = m_write_buffer s1 /\
        kept (l ++ m_write_buffer s1) s s' /\ m_retire_running s' = m_retire_running s /\ rtc pm_step (rt_pm s) (rt_pm s')
    | Fault f => thread_ends (thread_of x) (rt_pm s) = Fault f end).
  { pose proof (commit_ok u x l out (m_write_buffer s) (with_rob r1 s1)) as Hcm. rewrite Eu in Hcm. simpl in Hcm. rewrite M1, M3, M4, M5, M6, Mp, Hst in Hcm.
    unfold kept in *. rewrite Eu in Hcm. rewrite M5. apply Hcm; try done. intros Hfe. rewrite Epop, Horq by done. auto. }
  destruct (commit k u x (with_rob r1 s1)) as [s2 |]; [rewrite bind_done | right; exists u, l, x; split_and!; try done; by exists x].
  destruct Hcm as (H2 & H3 & H4 & H5 & H6). exists u, l. split; [done |]. split; [by exists x |]. unfold to_wb. rewrite Hx. split; [done |].
  split; [done |]. split; [congruence |]. split; [by rewrite H3 | done].
Qed.

Lemma kept_sub L L' (s s' : state) : (forall v, v ∈ L' -> v ∈ L) -> kept L s s' -> kept L' s s'.
Proof. intros H Hk v Hv. auto. Qed.
Lemma kept_trans L (s s1 s2 : state) : kept L s s1 -> kept L s1 s2 -> kept L s s2.
Proof. intros H1 H2 v Hv. rewrite H2, H1; auto. Qed.
Lemma committable_kept (s s1 : state) u : uops_in s1 !! u = uops_in s !! u -> committable s1 u -> committable s u.
Proof. intros E (x & Hx & H). exists x. by rewrite <- E. Qed.

(** A call to the process manager faults for the thread of a finished
    micro-operation of [l], after it went well for those before. *)
Definition pm_faults (l : list nat) (s : state) (f : fault) : Prop :=
  exists u x p, u ∈ l /\ uops_in s !! u = Some x /\ committable s u /\ rtc pm_step (rt_pm s) p /\ thread_ends (thread_of x) p = Fault f.

Lemma retire_loop_ok out : forall w l (s : state), retire_ok l out s ->
  match retire_loop k now w s with
  | Done s' => exists cs l', l = cs ++ l' /\ (length cs <= w)%nat /\ Forall (committable s) cs /\ retire_ok l' out s' /\
      m_write_buffer s' = m_write_buffer s ++ filter (fun u => to_wb s u = true) cs /\ kept (l' ++ m_write_buffer s') s s' /\
      m_retire_running s' = m_retire_running s /\ (length cs = w \/ blocked (uops_in s) (m_write_buffer s') l')
  | Fault f => KNOB_FENCE_ENABLE k = true \/ pm_faults l s f
  end.
Proof.
  induction w as [| w IH]; intros l s Hok; cbn [retire_loop].
  { exists [], l. rewrite app_nil_r. split_and!; try done. by left. }
  pose proof (retire_one_ok l out s Hok) as H1. destruct (retire_one k now s) as [[s1 |] |]; [rewrite bind_done | rewrite bind_done |].
  3: { destruct H1 as [? | (u & l' & x & -> & Hx & Hc & Hf)]; [by left | right]. exists u, x, (rt_pm s). split; [by left |]. by split_and!. }
  2: { exists [], l. rewrite app_nil_r. split_and!; try done; [simpl; lia | by right]. }
  destruct H1 as (u & l1 & -> & Hc & _ & Hok1 & Hw1 & Hk1 & Hr1 & Hp1). specialize (IH l1 s1 Hok1).
  assert (Hs1 : forall v, v ∈ l1 -> uops_in s1 !! v = uops_in s !! v). { intros v Hv. apply Hk1. rewrite !elem_of_app. auto. }
  destruct (retire_loop k now w s1) as [s' |].
  2: { destruct IH as [? | (v & x & p & Hv & Hx & Hcv & Hp & Hf)]; [by left | right]. exists v, x, p. rewrite Hs1 in Hx by done. split; [by right |].
       split; [done |]. split; [eapply committable_kept; [by apply Hs1 | done] |]. split; [by etrans | done]. }
  destruct IH as (cs & l' & -> & Hlen & Hcs & Hok' & Hw' & Hk' & Hr' & Hst). exists (u :: cs), l'.
  split; [done |]. split; [simpl; lia |]. split.
  { constructor; [done |]. rewrite Forall_forall in *. intros v Hv. eapply committable_kept; [apply Hs1; rewrite elem_of_app; auto | auto]. }
  assert (Hf : filter (fun u => to_wb s1 u = true) cs = filter (fun u => to_wb s u = true) cs).
  { apply filter_ext_in. intros v Hv. unfold to_wb. rewrite Hs1; [done |]. rewrite elem_of_app; auto. }
  split; [done |]. assert (Hw : m_write_buffer s' = m_write_buffer s ++ filter (fun u => to_wb s u = true) (u :: cs)).
  { rewrite Hw', Hw1, Hf, <- app_assoc. f_equal. destruct (to_wb s u) eqn:Et; [by rewrite filter_cons_True | by rewrite filter_cons_False by congruence]. }
  assert (Hk1' : forall v, v ∈ l' ++ m_write_buffer s' -> uops_in s1 !! v = uops_in s !! v).
  { intros v Hv. apply Hk1. revert Hv. rewrite Hw', !elem_of_app. intros [| [|Hv]]; auto. apply list_elem_of_filter in Hv as [_ Hv]. auto. }
  split; [done |]. split; [by eapply kept_trans |]. split; [congruence |].
  destruct Hst as [| Hb]; [left; simpl; lia | right]. by eapply blocked_ext.
Qed.

(** ** Draining *)

Lemma update_orq_cases age r :
  match update_orq age r with Done r' => same_buffer r r' /\ (m_orq r = [] -> m_orq r' = []) | Fault _ => m_orq r <> [] end.
Proof.
  unfold update_orq. destruct (m_orq r) as [| e q] eqn:E; [done |]. destruct (orq_loop age (e :: q) (m_root_fences r)) as [[q' roots] |]; [rewrite bind_done; done | done].
Qed.

Lemma owned_all_perm σ l l' : l ≡ₚ l' -> owned_all σ l ≡ₚ owned_all σ l'.
Proof. intros H. unfold owned_all. by rewrite H. Qed.

Lemma drain_free l out kp u rest (s s1 : state) : retire_ok l out (with_wb (kp ++ u :: rest) s) -> freed (owned (uops_in s) u) s s1 ->
  retire_ok l out (with_wb (kp ++ rest) s1) /\ kept (l ++ kp ++ rest) s s1 /\ m_retire_running s1 = m_retire_running s.
Proof.
  intros [R1 R2 R3 R4 R5 R6] F. simpl in *. change (uops_in (with_wb (kp ++ u :: rest) s)) with (uops_in s) in *.
  assert (Hp : l ++ kp ++ u :: rest ≡ₚ u :: l ++ kp ++ rest) by solve_Permutation.
  destruct (freed_frame u (l ++ kp ++ rest) out s s1 F) as (G1 & G2 & G3 & G4).
  { eapply Pool.pool_inv_proper; [| exact R3]. rewrite (owned_all_perm _ _ _ Hp), owned_all_cons. by rewrite app_assoc. }
  { intros v Hv. apply R2. rewrite Hp. by right. }
  destruct F as [(B1 & B2 & B3 & B4 & B5 & B6 & B7 & B8 & B9) F52 F53 F54 F55]. split; [| split; done].
  split; simpl; rewrite ?B1, ?B2; try done. eapply charged_ext; [| exact R5]. intros v Hv. apply G1. rewrite elem_of_app. auto.
Qed.

(** The stores from the first one that is not done on. *)
Fixpoint drop_done (σ : uop_store) (l : list nat) : list nat :=
  match l with
  | [] => []
  | u :: l' => match σ !! u with Some x => if store_pending now x then l else drop_done σ l' | None => l end
  end.
Lemma drop_done_ext σ σ' l : (forall v, v ∈ l -> σ' !! v = σ !! v) -> drop_done σ' l = drop_done σ l.
Proof.
  induction l as [| u l IH]; intros H; simpl; [done |]. rewrite H by left. destruct (σ !! u) as [x |]; [| done]. destruct (store_pending now x); [done |].
  apply IH. intros v Hv. apply H. by right.
Qed.
Definition is_pending (σ : uop_store) (u : nat) : bool := match σ !! u with Some x => store_pending now x | None => false end.

(** What draining does to the write buffer: [fr] is freed. *)
Definition drained (fr kp rest wb : list nat) (s : state) : Prop :=
  kp ++ rest ≡ₚ fr ++ wb /\ wb `sublist_of` kp ++ rest /\ Forall (fun u => exists x, uops_in s !! u = Some x /\ store_pending now x = false) fr /\
  (KNOB_ACQ_REL k = false -> KNOB_WB_FIFO k = true -> wb = kp ++ drop_done (uops_in s) rest) /\
  (KNOB_ACQ_REL k = false -> KNOB_WB_FIFO k = false -> wb = kp ++ filter (fun u => is_pending (uops_in s) u = true) rest).

Lemma drain_loop_ok l out rest : forall kp (s : state), retire_ok l out (with_wb (kp ++ rest) s) ->
  match drain_loop k now kp rest s with
  | Done (wb, s') => exists fr, drained fr kp rest wb s /\ retire_ok l out (with_wb wb s') /\ kept (l ++ wb) s s' /\
      m_retire_running s' = m_retire_running s
  | Fault _ => KNOB_ACQ_REL k = true
  end.
Proof.
  induction rest as [| u rest IH]; intros kp s Hok; cbn [drain_loop].
  { exists []. rewrite app_nil_r in *. split; [| split; [done | split; done]]. split_and!; [by rewrite app_nil_r | by rewrite app_nil_r | done | |].
    - intros _ _. by rewrite app_nil_r.
    - intros _ _. by rewrite filter_nil, app_nil_r. }
  assert (Hstop : KNOB_ACQ_REL k = true \/ (KNOB_WB_FIFO k = true /\ drop_done (uops_in s) (u :: rest) = u :: rest) -> exists fr, drained fr kp (u :: rest) (kp ++ u :: rest) s /\
    retire_ok l out (with_wb (kp ++ u :: rest) s) /\ kept (l ++ kp ++ u :: rest) s s /\ m_retire_running s = m_retire_running s).
  { intros Hd. exists []. split; [| done]. split_and!; [done | done | done | |].
    - intros E1 _. destruct Hd as [| [_ Hd]]; [congruence |]. by rewrite Hd.
    - intros E1 E2. destruct Hd as [| [? _]]; congruence. }
  destruct (ro_whole _ _ _ Hok u) as (x & Hx & Hch). { simpl. rewrite !elem_of_app, elem_of_cons. auto. }
  change (uops_in (with_wb (kp ++ u :: rest) s)) with (uops_in s) in *. rewrite (get_s_live _ _ _ Hx), bind_done.
  assert (Hpass : KNOB_ACQ_REL k = true \/ (KNOB_WB_FIFO k = false /\ store_pending now x = true) ->
    match drain_loop k now (kp ++ [u]) rest s with
    | Done (wb, s') => exists fr, drained fr kp (u :: rest) wb s /\ retire_ok l out (with_wb wb s') /\ kept (l ++ wb) s s' /\ m_retire_running s' = m_retire_running s
    | Fault _ => KNOB_ACQ_REL k = true end).
  { intros Hd. specialize (IH (kp ++ [u]) s). rewrite <- app_assoc in IH. specialize (IH Hok). destruct (drain_loop k now (kp ++ [u]) rest s) as [[wb s'] |]; [| done].
    destruct IH as (fr & (D1 & D2 & D3 & D4 & D5) & IH2). exists fr. split; [| done]. rewrite <- app_assoc in D1, D2. split_and!; [done | done | done | |].
    - intros E1 E2. destruct Hd as [| [? _]]; congruence.
    - intros E1 E2. destruct Hd as [| [_ Hp]]; [congruence |]. rewrite (D5 E1 E2), <- app_assoc. f_equal. simpl. rewrite filter_cons_True; [done |]. unfold is_pending. by rewrite Hx. }
  destruct (store_pending now x) eqn:Ep.
  { destruct (KNOB_WB_FIFO k) eqn:Ef; [apply Hstop; right; split; [done |]; simpl; by rewrite Hx, Ep | apply Hpass; auto]. }
  assert (Hfree : match (s1 ← free_uop_resources k u s; drain_loop k now kp rest s1) with
    | Done (wb, s') => exists fr, drained fr kp (u :: rest) wb s /\ retire_ok l out (with_wb wb s') /\ kept (l ++ wb) s s' /\ m_retire_running s' = m_retire_running s
    | Fault _ => KNOB_ACQ_REL k = true end).
  { destruct (free_uop_resources_ok k u s) as (s1 & E1 & F1); [by exists x | by apply (ro_wf _ _ _ Hok) |]. rewrite E1, bind_done.
    destruct (drain_free l out kp u rest s s1 Hok F1) as (Hok1 & Hk1 & Hr1). specialize (IH kp s1 Hok1).
    destruct (drain_loop k now kp rest s1) as [[wb s'] |]; [| done]. destruct IH as (fr & (D1 & D2 & D3 & D4 & D5) & IH2 & IH3 & IH4). exists (u :: fr).
    assert (Hrest : forall v, v ∈ rest -> uops_in s1 !! v = uops_in s !! v). { intros v Hv. apply Hk1. rewrite !elem_of_app. auto. }
    assert (Hsub : forall v, v ∈ fr ++ wb -> v ∈ kp ++ rest) by (intros v Hv; by rewrite D1).
    split; [| split; [done | split; [| congruence]]].
    2: { eapply kept_trans; [| exact IH3]. eapply kept_sub; [| exact Hk1]. intros v. rewrite elem_of_app. intros [Hv | Hv]; rewrite elem_of_app; [auto |].
      right. apply Hsub. rewrite elem_of_app. auto. }
    split_and!.
    - simpl. rewrite <- D1. solve_Permutation.
    - etransitivity; [exact D2 |]. apply sublist_app; [done | by apply sublist_cons].
    - constructor; [by exists x |]. rewrite Forall_forall in *. intros v Hv. destruct (D3 v Hv) as (y & Hy & Hp). exists y. split; [| done]. rewrite <- Hy. symmetry. apply Hk1.
      rewrite elem_of_app. right. apply Hsub. rewrite elem_of_app. auto.
    - intros E2 E3. rewrite (D4 E2 E3). f_equal. simpl. rewrite Hx, Ep. by apply drop_done_ext.
    - intros E2 E3. rewrite (D5 E2 E3). f_equal. rewrite filter_cons_False by (unfold is_pending; rewrite Hx; congruence). apply filter_ext_in. intros v Hv. unfold is_pending. by rewrite Hrest. }
  unfold store_held. destruct (KNOB_ACQ_REL k) eqn:Ea; simpl negb; cbv iota.
  - assert (Hh : match (match m_bar_type (base x) with REL_BAR => mret (negb match kp with [] => true | _ => false end, true)
        | _ => held ← version_ordering_check (base x) (rt_rob s); mret (held, negb (KNOB_WB_FIFO k)) end) with
      | Done _ => True | Fault _ => true = true end) by (destruct (match m_bar_type (base x) with REL_BAR => _ | _ => _ end); done).
    destruct (match m_bar_type (base x) with REL_BAR => _ | _ => _ end) as [[held go_on] |]; [rewrite bind_done | done]. clear Hh.
    destruct held; [destruct go_on; [apply Hpass; auto | apply Hstop; auto] | exact Hfree].
  - exact Hfree.
Qed.

Lemma lowest_version_total (σ : uop_store) l : (forall u, u ∈ l -> is_Some (σ !! u)) -> forall a, exists r, lowest_version_loop l a σ = Done r.
Proof.
  induction l as [| u l IH]; intros Hl a; simpl; [by eexists |]. destruct (Hl u) as [x Hx]; [left |]. rewrite (get_s_live _ _ _ Hx), bind_done.
  apply IH. intros v Hv. apply Hl. by right.
Qed.
Lemma retire_ok_rob l out (s : state) r : same_buffer (rt_rob s) r -> (m_orq (rt_rob s) = [] -> m_orq r = []) -> retire_ok l out s -> retire_ok l out (with_rob r s).
Proof. intros H1 H2 [R1 R2 R3 R4 R5 R6]. split; try done; [by eapply rob_ok_same | simpl; auto]. Qed.

Lemma drain_wb_ok l out (s : state) : retire_ok l out s ->
  match drain_wb k now s with
  | Done s' => exists fr, drained fr [] (m_write_buffer s) (m_write_buffer s') s /\ retire_ok l out s' /\ kept (l ++ m_write_buffer s') s s' /\
      m_retire_running s' = m_retire_running s
  | Fault _ => KNOB_FENCE_ENABLE k = true \/ KNOB_ACQ_REL k = true
  end.
Proof.
  intros Hok. unfold drain_wb. destruct (m_write_buffer s) as [| w ws] eqn:Ew.
  { exists []. rewrite Ew. split; [| done]. by split_and!. }
  assert (Hok0 : retire_ok l out (with_wb ([] ++ w :: ws) s)). { simpl. rewrite <- Ew. by destruct s. }
  pose proof (drain_loop_ok l out (w :: ws) [] s Hok0) as Hd. destruct (drain_loop k now [] (w :: ws) s) as [[wb s1] |]; [rewrite bind_done | by right].
  destruct Hd as (fr & Hdr & Hok1 & Hk & Hr). cbv zeta. set (s2 := with_wb wb s1) in *.
  assert (Hfin : forall age1 age2 b, match (r ← update_orq age1 (set_wb_empty b (rt_rob s2)); r1 ← update_orq age2 r; mret (with_rob r1 s2)) with
    | Done s' => exists fr, drained fr [] (w :: ws) (m_write_buffer s') s /\ retire_ok l out s' /\ kept (l ++ m_write_buffer s') s s' /\ m_retire_running s' = m_retire_running s
    | Fault _ => KNOB_FENCE_ENABLE k = true \/ KNOB_ACQ_REL k = true end).
  { intros age1 age2 b. pose proof (update_orq_cases age1 (set_wb_empty b (rt_rob s2))) as H1.
    assert (Hfe : m_orq (rt_rob s2) <> [] -> KNOB_FENCE_ENABLE k = true \/ KNOB_ACQ_REL k = true).
    { intros Hne. left. destruct (KNOB_FENCE_ENABLE k) eqn:E; [done |]. exfalso. by apply Hne, (ro_orq _ _ _ Hok1). }
    destruct (update_orq age1 _) as [r |]; [rewrite bind_done | exact (Hfe H1)]. destruct H1 as [S1 O1].
    pose proof (update_orq_cases age2 r) as H2. destruct (update_orq age2 r) as [r1 |]; [rewrite bind_done | apply Hfe; intros E; apply H2, O1, E]. destruct H2 as [S2 O2].
    exists fr. split; [done |]. split; [| by split]. apply retire_ok_rob; [| auto | done].
    destruct S1 as (A1 & A2 & A3 & A4 & A5 & A6), S2 as (B1 & B2 & B3 & B4 & B5 & B6). simpl in *. unfold same_buffer. split_and!; congruence. }
  assert (Hlive : forall u, u ∈ wb -> is_Some (uops_in s2 !! u)).
  { intros u Hu. destruct (ro_whole _ _ _ Hok1 u) as (x & Hx & _); [rewrite elem_of_app; by right |]. eauto. }
  destruct (lowest_version_total (uops_in s2) wb Hlive (u8 (-1))) as [low El].
  destruct wb as [| u wb].
  - specialize (Hfin (u64 (-1)) low true). destruct (update_orq (u64 (-1)) _) as [r |]; [| exact Hfin]. rewrite bind_done in Hfin. rewrite bind_done, El, bind_done. exact Hfin.
  - destruct (Hlive u) as [x Hx]; [left |]. rewrite (get_s_live _ _ _ Hx), bind_done. specialize (Hfin (num_of x) low false).
    destruct (update_orq (num_of x) _) as [r |]; [| exact Hfin]. rewrite bind_done in Hfin. rewrite bind_done, El, bind_done. exact Hfin.
Qed.

(** ** Program order *)

(** [u] is older than [v]; their numbers and versions have the width of the code. *)
Definition older (σ : uop_store) (u v : nat) : Prop :=
  exists x y, σ !! u = Some x /\ σ !! v = Some y /\ num_of x < num_of y /\ num_of y <= u64 (-1) /\ m_mem_version (base x) <= 65535.
(** Write buffer and reorder buffer together are in program order. *)
Definition in_program_order (l : list nat) (s : state) : Prop := StronglySorted (older (uops_in s)) (m_write_buffer s ++ l).

Lemma strongly_sorted_sub {A} (R : A -> A -> Prop) l l' : l' `sublist_of` l -> StronglySorted R l -> StronglySorted R l'.
Proof.
  intros Hs. induction Hs as [| a l1 l2 Hs IH | a l1 l2 Hs IH]; intros H; [done | |]; apply StronglySorted_inv in H as [H Hf]; [| auto].
  constructor; [auto |]. rewrite Forall_forall in *. intros v Hv. apply Hf. by eapply elem_of_sublist.
Qed.
Lemma older_ext σ σ' l : (forall v, v ∈ l -> σ' !! v = σ !! v) -> StronglySorted (older σ) l -> StronglySorted (older σ') l.
Proof.
  intros H Hs. induction Hs as [| a l Hs IH Hf]; [constructor |]. constructor; [apply IH; intros v Hv; apply H; by right |].
  rewrite Forall_forall in *. intros v Hv. destruct (Hf v Hv) as (x & y & Hx & Hy & Hr). exists x, y. rewrite !H; [done | by right | by left].
Qed.

(** The age [get_min_wb] reports is at most that of any entry it took. *)
Lemma min_wb_age σ l : forall a b lo age, min_wb_loop l a b σ = Done (lo, age) -> age <= b.
Proof.
  induction l as [| u l IH]; intros a b lo age H; simpl in H; [apply done_val in H; simplify_eq; done |]. step H as x Hx.
  destruct (_ <=? a); [| by eapply IH]. apply IH in H. destruct (num_of x <? b) eqn:E; [lia | done].
Qed.
Lemma ld_not_held (s : state) u l x : in_program_order (u :: l) s -> uops_in s !! u = Some x -> ~ held_back (uops_in s) (m_write_buffer s) x.
Proof.
  intros Ho Hx (Hne & lo & age & E & Hlo & Hage). unfold in_program_order in Ho. destruct (m_write_buffer s) as [| w ws] eqn:Ew; [done |].
  assert (Hold : older (uops_in s) w u).
  { simpl in Ho. apply StronglySorted_inv in Ho as [_ Hf]. rewrite Forall_forall in Hf. apply Hf. rewrite elem_of_app. right. left. }
  destruct Hold as (a & b & Ha & Hb & H1 & H2 & H3).
  rewrite Hx in Hb. injection Hb as <-. simpl in E. rewrite (get_s_live _ _ _ Ha), bind_done in E. rewrite (proj2 (Z.leb_le _ _)) in E by done.
  apply min_wb_age in E. rewrite (proj2 (Z.ltb_lt (num_of a) _)) in E by lia. lia.
Qed.

(** ** The reference for a cycle *)

(** The micro-operations a cycle commits, from the front of the reorder buffer on:
    at most [w] of them, and at most [room] stores into the write buffer. *)
Fixpoint commits (σ : uop_store) (w : nat) (room : Z) (l : list nat) : list nat :=
  match w, l with
  | S w', u :: l' =>
      match σ !! u with
      | Some x =>
          if goes_to_wb k x then (if room =? 0 then [] else u :: commits σ w' (room - 1) l')
          else if finished now x then u :: commits σ w' room l' else []
      | None => []
      end
  | _, _ => []
  end.
Lemma commits_ext σ σ' l : (forall v, v ∈ l -> σ' !! v = σ !! v) -> forall w room, commits σ' w room l = commits σ w room l.
Proof.
  induction l as [| u l IH]; intros H [| w] room; simpl; try done. rewrite H by left. destruct (σ !! u) as [x |]; [| done].
  assert (forall v, v ∈ l -> σ' !! v = σ !! v) as H' by (intros v Hv; apply H; by right). by rewrite !(IH H').
Qed.
Definition room (s : state) : Z := KNOB_WB_SIZE k - Z.of_nat (length (m_write_buffer s)).
(** What is left of a write buffer after draining. *)
Definition undone (σ : uop_store) (wb : list nat) : list nat :=
  if KNOB_WB_FIFO k then drop_done σ wb else filter (fun u => is_pending σ u = true) wb.
Lemma undone_ext σ σ' l : (forall v, v ∈ l -> σ' !! v = σ !! v) -> undone σ' l = undone σ l.
Proof.
  intros H. unfold undone. destruct (KNOB_WB_FIFO k); [by apply drop_done_ext |]. apply filter_ext_in. intros v Hv. unfold is_pending. by rewrite H.
Qed.

Lemma in_order_step u l (s s' : state) : in_program_order (u :: l) s ->
  m_write_buffer s' = m_write_buffer s ++ (if to_wb s u then [u] else []) -> kept (l ++ m_write_buffer s') s s' -> in_program_order l s'.
Proof.
  unfold in_program_order. intros Ho Hw Hk. eapply older_ext; [intros v Hv; apply Hk; revert Hv; rewrite !elem_of_app; tauto |].
  eapply strongly_sorted_sub; [| exact Ho]. rewrite Hw, <- app_assoc. apply sublist_app; [done |]. destruct (to_wb s u); [done | by apply sublist_cons].
Qed.
Lemma blocked_commits l (s : state) w : in_program_order l s -> blocked (uops_in s) (m_write_buffer s) l -> commits (uops_in s) w (room s) l = [].
Proof.
  intros Ho [-> | (u & l' & x & -> & Hx & Hb)]; [by destruct w |]. destruct w as [| w]; [done |]. simpl. rewrite Hx.
  destruct Hb as [[-> Hf] | [[-> ->] | [_ Hld]]]; [| done | by apply (ld_not_held s u l' x Ho Hx) in Hld].
  by rewrite (proj2 (Z.eqb_eq _ 0)) by (unfold room; lia).
Qed.

Lemma retire_loop_refines out : KNOB_FENCE_ENABLE k = false -> forall w l (s : state), retire_ok l out s -> in_program_order l s ->
  let cs := commits (uops_in s) w (room s) l in
  match retire_loop k now w s with
  | Done s' => exists l', l = cs ++ l' /\ retire_ok l' out s' /\ in_program_order l' s' /\
    m_write_buffer s' = m_write_buffer s ++ filter (fun u => to_wb s u = true) cs /\
      kept (l' ++ m_write_buffer s') s s' /\ m_retire_running s' = m_retire_running s
  | Fault f => pm_faults l s f
  end.
Proof.
  intros Hfe. induction w as [| w IH]; intros l s Hok Ho cs; cbn [retire_loop].
  { exists l. unfold cs. simpl. rewrite filter_nil, app_nil_r. by split_and!. }
  pose proof (retire_one_ok l out s Hok) as H1. destruct (retire_one k now s) as [[s1 |] |]; [rewrite bind_done | rewrite bind_done |].
  3: { destruct H1 as [| (u & l' & x & -> & Hx & Hc & Hf)]; [congruence |]. exists u, x, (rt_pm s). split; [by left |]. by split_and!. }
  2: { exists l. unfold cs. rewrite (blocked_commits l s (S w) Ho H1), filter_nil, app_nil_r. by split_and!. }
  destruct H1 as (u & l1 & -> & (x & Hx & Hc) & Hroom & Hok1 & Hw1 & Hk1 & Hr1 & Hp1). pose proof (in_order_step u l1 s s1 Ho Hw1 Hk1) as Ho1.
  assert (Hs1 : forall v, v ∈ l1 -> uops_in s1 !! v = uops_in s !! v). { intros v Hv. apply Hk1. rewrite !elem_of_app. auto. }
  specialize (IH l1 s1 Hok1 Ho1). cbv zeta in IH. destruct (retire_loop k now w s1) as [s' |].
  2: { destruct IH as (v & y & p & Hv & Hy & Hcv & Hp & Hf). exists v, y, p. rewrite Hs1 in Hy by done. split; [by right |].
       split; [done |]. split; [eapply committable_kept; [by apply Hs1 | done] |]. split; [by etrans | done]. }
  destruct IH as (l' & El & Hok' & Ho' & Hw' & Hk' & Hr'). exists l'. unfold cs.
  rewrite (commits_ext _ _ _ Hs1) in El, Hw'. assert (Hc1 : commits (uops_in s) (S w) (room s) (u :: l1) = u :: commits (uops_in s) w (room s1) l1).
  { simpl. rewrite Hx. unfold to_wb in Hroom, Hw1. rewrite Hx in Hroom, Hw1. unfold room. rewrite Hw1, length_app. destruct (goes_to_wb k x) eqn:Eg.
    - rewrite (proj2 (Z.eqb_neq _ 0)) by (specialize (Hroom eq_refl); lia). do 2 f_equal. simpl. lia.
    - destruct Hc as [| ->]; [done |]. do 2 f_equal. simpl. lia. }
  rewrite Hc1. split; [by rewrite El at 1 |]. split; [done |]. split; [done |].
  assert (Hf : filter (fun u => to_wb s1 u = true) (commits (uops_in s) w (room s1) l1) = filter (fun u => to_wb s u = true) (commits (uops_in s) w (room s1) l1)).
  { apply filter_ext_in. intros v Hv. unfold to_wb. rewrite Hs1; [done |]. rewrite El, elem_of_app. auto. }
  rewrite Hf, Hw1, <- app_assoc in Hw'. split; [| split; [| congruence]].
  - rewrite Hw'. f_equal. destruct (to_wb s u) eqn:Et; [by rewrite filter_cons_True | by rewrite filter_cons_False by congruence].
  - eapply kept_trans; [| exact Hk']. eapply kept_sub; [| exact Hk1]. intros v. rewrite Hw', Hw1, !elem_of_app. intros [Hv | [| [|Hv]]]; auto; left;
    rewrite El, elem_of_app; [auto |]. apply list_elem_of_filter in Hv as [_ Hv]. auto.
Qed.

Lemma commits_room σ l : forall w r, 0 <= r -> Z.of_nat (length (filter (fun u => match σ !! u with Some x => goes_to_wb k x | None => false end = true) (commits σ w r l))) <= r.
Proof.
  induction l as [| u l IH]; intros [| w] r Hr; simpl; try lia. destruct (σ !! u) as [x |] eqn:Hx; [| done]. destruct (goes_to_wb k x) eqn:Eg.
  - destruct (Z.eqb_spec r 0); [done |]. rewrite filter_cons_True by (by rewrite Hx). simpl. specialize (IH w (r - 1)). lia.
  - destruct (finished now x); [| done]. rewrite filter_cons_False by (rewrite Hx; congruence). auto.
Qed.
End INVARIANT.

(** ** The cycle *)

Section CYCLE.
Context {T : Type} `{!ProcessManager T}.
Context (k : retire_knobs) (now : Z).
Abbreviation state := (retire_c T).

(** C9: Whatever the knobs, a cycle of a stage that runs commits a prefix of
    the reorder buffer: as long as the retire width, or up to an entry that has
    to stay (there is none, it is a store and the write buffer is full, it is not
    finished, or it is a load the write buffer holds back). Every committed
    micro-operation was finished, or is a store that has executed; the committed
    stores go to the write buffer and nothing else does; what leaves the write
    buffer is a done store; and the invariant (no object is freed twice or lost,
    load and store buffer entries and registers are given back exactly) holds for
    the rest. A cycle can fault only in the fence machinery, or because a call of
    the process manager faults when the thread of a finished micro-operation
    ends. *)
Theorem retire_cycle_in_order l out (s : state) : retire_ok k l out s ->
  match run_a_cycle k now s with
  | Done s' => exists cs l' fr, l = cs ++ l' /\ (length cs <= m_knob_width k)%nat /\ Forall (committable k now s) cs /\ retire_ok k l' out s' /\
      let wb := m_write_buffer s ++ filter (fun u => to_wb k s u = true) cs in
      (m_retire_running s = true -> length cs = m_knob_width k \/ blocked k now (uops_in s) wb l') /\
      wb ≡ₚ fr ++ m_write_buffer s' /\
      Forall (fun u => exists x, uops_in s !! u = Some x /\ store_pending now x = false) fr
  | Fault f => KNOB_FENCE_ENABLE k = true \/ KNOB_ACQ_REL k = true \/ pm_faults k now l s f
  end.
Proof.
  intros Hok. unfold run_a_cycle. destruct (m_retire_running s); simpl negb; cbv iota.
  2: { exists [], l, []. rewrite filter_nil, app_nil_r. split_and!; try done. simpl. lia. }
  pose proof (retire_loop_ok k now out (m_knob_width k) l s Hok) as H1.
  destruct (retire_loop k now (m_knob_width k) s) as [s1 |]; [rewrite bind_done | simpl; destruct H1; auto].
  destruct H1 as (cs & l' & -> & Hlen & Hcs & Hok1 & Hw1 & Hk1 & _ & Hst). pose proof (drain_wb_ok k now l' out s1 Hok1) as H2.
  destruct (drain_wb k now s1) as [s' |]; [| destruct H2; auto]. destruct H2 as (fr & (D1 & _ & D3 & _) & Hok' & _). exists cs, l', fr.
  split_and!; try done; [by rewrite <- Hw1 | by rewrite <- Hw1 |]. rewrite Forall_forall in *. intros u Hu. destruct (D3 u Hu) as (x & Hx & Hp). exists x. split; [| done].
  rewrite <- Hx. symmetry. apply Hk1. rewrite elem_of_app. right. simpl in D1. rewrite D1, elem_of_app. auto.
Qed.

(** C15: Without the fence extensions, and with the numbers of the
    micro-operations increasing from the write buffer through the reorder buffer
    (as on a core that runs one thread; numbers count per thread), a cycle of a
    stage that runs is exactly the reference, unless a call of the process
    manager faults when a thread ends: the micro-operations committed are the
    longest run from the front of the reorder buffer that are finished, or are
    executed stores for which the write buffer has room, up to the retire width;
    the write buffer then is the old one followed by the committed stores, less
    the done prefix (FIFO) or less all done stores (otherwise). The order of both
    buffers, the bound on the write buffer and the invariant are kept. In
    particular such a cycle never stops at a load for the sake of a buffered
    store. *)
Theorem retire_cycle_refines l out (s : state) : KNOB_FENCE_ENABLE k = false -> KNOB_ACQ_REL k = false ->
  m_retire_running s = true -> retire_ok k l out s -> in_program_order l s -> Z.of_nat (length (m_write_buffer s)) <= KNOB_WB_SIZE k ->
  let cs := commits k now (uops_in s) (m_knob_width k) (room k s) l in
  let wb := m_write_buffer s ++ filter (fun u => to_wb k s u = true) cs in
  match run_a_cycle k now s with
  | Done s' => exists l', l = cs ++ l' /\ m_write_buffer s' = undone k now (uops_in s) wb /\
      retire_ok k l' out s' /\ in_program_order l' s' /\ Z.of_nat (length (m_write_buffer s')) <= KNOB_WB_SIZE k /\
      kept (l' ++ m_write_buffer s') s s'
  | Fault f => pm_faults k now l s f
  end.
Proof.
  intros Hfe Har Hrun Hok Ho Hsz cs wb. unfold run_a_cycle. rewrite Hrun. simpl negb. cbv iota.
  pose proof (retire_loop_refines k now out Hfe (m_knob_width k) l s Hok Ho) as H1. cbv zeta in H1. fold cs in H1.
  destruct (retire_loop k now (m_knob_width k) s) as [s1 |]; [rewrite bind_done | exact H1].
  destruct H1 as (l' & El & Hok1 & Ho1 & Hw1 & Hk1 & _). fold wb in Hw1. pose proof (drain_wb_ok k now l' out s1 Hok1) as H2.
  destruct (drain_wb k now s1) as [s' |]; [| destruct H2; congruence]. destruct H2 as (fr & (D1 & D2 & _ & D4 & D5) & Hok' & Hk' & _). simpl in D1, D2.
  exists l'. split; [done |]. pose proof (sublist_length _ _ D2) as Hlen. rewrite Hw1 in *.
  assert (Hsub : forall v, v ∈ l' ++ m_write_buffer s' -> v ∈ l' ++ wb). { intros v. rewrite !elem_of_app. intros [|]; [auto |]. right. by eapply elem_of_sublist. }
  split; [| split; [done | split; [| split]]].
  - rewrite <- (undone_ext k now (uops_in s) (uops_in s1) wb) by (intros v Hv; apply Hk1; rewrite elem_of_app; auto).
    unfold undone. destruct (KNOB_WB_FIFO k); [by apply D4 | by apply D5].
  - unfold in_program_order in *. rewrite Hw1 in Ho1. eapply older_ext; [intros v Hv; apply Hk'; revert Hv; rewrite !elem_of_app; tauto |].
    eapply strongly_sorted_sub; [| exact Ho1]. by apply sublist_app.
  - pose proof (commits_room k now (uops_in s) l (m_knob_width k) (room k s) ltac:(unfold room; lia)) as Hr. fold cs in Hr.
    unfold wb in Hlen. rewrite length_app in Hlen. unfold to_wb, room in *. lia.
  - eapply kept_trans; [| exact Hk']. by eapply kept_sub.
Qed.
End CYCLE.

(** ** An example *)

(** The reorder buffer holds an executed store, a finished load and an unfinished
    addition; the write buffer an older store that is done. *)
Module RetireExample.
#[export] Instance no_processes : ProcessManager unit := {
  terminate_thread t p := mret p; all_threads_terminated t p := true; no_more_applications t p := false; update_stats t p := mret p;
  terminate_process t p := mret p; repeat_traces t p := mret p; sim_thread_schedule b p := mret p
}.
Definition k (fifo : bool) : retire_knobs := mk_retire_knobs (mk_map_knobs false true false true) 4 true 2 fifo false false 1000.
Definition uop (num : Z) (mt : Mem_Type) (done exec : Z) (sb lb : bool) : uop_s :=
  mk_uop_s (mk_uop num 0 mt (UOP_OTHER 0) NOT_BAR NOT_CF done 0 false 0 0 sb lb false false mem_ALLOCQ false)
    true false false false true false num 0 true false exec
    (mk_deps 0 [] 0 [] (replicate 10 (mk_src REG_DATA_DEP None 0 0)) 0 false None false) (mk_umem 64 4 0 0 0 [] 0).
Definition objects : uop_store :=
  <[0%nat := uop 5 MEM_ST 8 7 true false]> (<[1%nat := uop 6 MEM_ST 30 7 true false]>
  (<[2%nat := uop 7 MEM_LD 9 8 false true]> (<[3%nat := uop 8 NOT_MEM 0 0 false false]> ∅))).
Definition rob : rob_c := mk_rob 8 4 1 [Some 1%nat; Some 2%nat; Some 3%nat; None; None; None; None; None] 0 3
  (m_fence (rob_new 4 0 0 0)) false 0 0 0 [] ∅.
Definition s0 : retire_c unit :=
  mk_retire (mk_map objects ∅) rob (Resource.mk_resource 4 3 4 3 8 8 8 8) (Pool.mk_pool [] 4 4 4) [0%nat] ∅ ∅ 0 0 true
    (mk_flags ∅ ∅ ∅ 0 1) tt.

Lemma pm_ok t (p : unit) f : thread_ends t p <> Fault f.
Proof. done. Qed.
Lemma start_ok fifo : retire_ok (k fifo) [1; 2; 3]%nat [] s0.
Proof.
  split.
  - split; [by split | done | by split | done | done | done |]. intros i u Hi. repeat (destruct i as [| i]; [injection Hi as <-; done | simpl in Hi]). done.
  - intros u Hu. simpl in Hu. repeat (apply elem_of_cons in Hu as [-> | Hu]; [eexists; split; [reflexivity | split; [reflexivity | by intros c ?%not_elem_of_nil]] |]). by apply not_elem_of_nil in Hu.
  - split; [by apply (bool_decide_unpack _), I | split; [by apply (bool_decide_unpack _), I | by split]].
  - intros t d key e Hd. simpl in Hd. by rewrite lookup_empty in Hd.
  - split; reflexivity.
  - done.
Qed.
Lemma s0_in_order : in_program_order [1; 2; 3]%nat s0.
Proof.
  unfold in_program_order. simpl app.
  repeat (apply SSorted_cons; [| repeat (apply Forall_cons; split; [eexists _, _; split; [reflexivity |]; split; [reflexivity |]; vm_compute; by split_and! |]); apply Forall_nil; exact I]).
  apply SSorted_nil.
Qed.
End RetireExample.
#[local] Existing Instance RetireExample.no_processes.

Lemma retire_cycle_in_order_witness :
  match run_a_cycle (RetireExample.k true) 10 RetireExample.s0 with
  | Done s' => retire_ok (RetireExample.k true) [3%nat] [] s' /\ m_write_buffer s' = [1%nat] /\ Resource.m_num_sb (m_resource s') = 4
  | Fault _ => False
  end.
Proof.
  pose proof (retire_cycle_in_order (RetireExample.k true) 10 [1; 2; 3]%nat [] RetireExample.s0 (RetireExample.start_ok true)) as H.
  assert (E : match run_a_cycle (RetireExample.k true) 10 RetireExample.s0 with
    | Done s' => entries (rt_rob s') = 1 /\ m_write_buffer s' = [1%nat] /\ Resource.m_num_sb (m_resource s') = 4 | Fault _ => False end)
    by (vm_compute; split; [reflexivity | split; reflexivity]).
  destruct (run_a_cycle (RetireExample.k true) 10 RetireExample.s0) as [s' |]; [| exact E]. destruct E as (E1 & E2 & E3).
  destruct H as (cs & l' & fr & El & _ & _ & Hok & _). split; [| split; [exact E2 | exact E3]].
  pose proof (k_free _ _ (ro_rob _ _ _ _ Hok)) as Hf. unfold entries in E1. assert (Hl : length l' = 1%nat) by lia.
  destruct l' as [| a [| b l']]; [discriminate Hl | | discriminate Hl].
  assert (E4 : [1; 2]%nat ++ [3%nat] = cs ++ [a]) by exact El. apply app_inj_tail in E4 as [_ <-]. exact Hok.
Defined.

Lemma retire_cycle_refines_witness : exists s', run_a_cycle (RetireExample.k false) 10 RetireExample.s0 = Done s' /\
  retire_ok (RetireExample.k false) [3%nat] [] s' /\ m_write_buffer s' = [1%nat].
Proof.
  pose proof (retire_cycle_refines (RetireExample.k false) 10 [1; 2; 3]%nat [] RetireExample.s0 eq_refl eq_refl eq_refl
    (RetireExample.start_ok false) RetireExample.s0_in_order ltac:(vm_compute; discriminate)) as H. cbv zeta in H.
  destruct (run_a_cycle (RetireExample.k false) 10 RetireExample.s0) as [s' |].
  2: { exfalso. destruct H as (u & x & p & _ & _ & _ & _ & Hf). exact (RetireExample.pm_ok _ _ _ Hf). }
  destruct H as (l' & El & Ew & Hok & _).
  exists s'. split; [reflexivity |]. assert (E4 : [1; 2]%nat ++ [3%nat] = [1; 2]%nat ++ l') by exact El. apply app_inv_head in E4 as <-.
  split; [exact Hok | exact Ew].
Defined.
