(* ===== verification/Stride.v ===== *)
(** * The stride prefetcher (pref_stride.cc, pref_stride.h)

    Memory is divided in regions; for each tracked region the prefetcher learns one
    stride, or two alternating ones, and then runs ahead of the stream. The request
    queue of the prefetch framework is the interface [PrefQueue]. *)

From S2P Require Import Prelude.
From S2P Require Import Utils.

(** [hwp_common_c::pref_addto_l2req_queue]: line index, prefetcher; whether the
    request was taken. *)
Class PrefQueue (Q : Type) := { pref_addto_l2req_queue : Z -> Z -> Q -> outcome (Q * bool) }.
(** What the queue promises prefetcher [id]: in a well-formed state a request does not
    fault and leaves it well formed. *)
Class PrefQueueOk (Q : Type) `{!PrefQueue Q} (id : Z) (queue_ok : Q -> Prop) :=
  addto_ok : forall i q, queue_ok q -> exists q' taken, pref_addto_l2req_queue i id q = Done (q', taken) /\ queue_ok q'.

Record stride_knobs := mk_stride_knobs {
  KNOB_PREF_STRIDE_TABLE_N : Z;
  KNOB_PREF_THREAD_INDEX : bool;
  KNOB_PREF_STRIDE_REGION_BITS : Z;
  KNOB_PREF_STRIDE_DEGREE : Z;
  KNOB_PREF_STRIDE_DISTANCE : Z;
  KNOB_PREF_STRIDE_STARTDISTANCE : Z;
  KNOB_PREF_STRIDE_SINGLE_THRESH : Z;
  KNOB_PREF_STRIDE_MULTI_THRESH : Z;
  KNOB_PREF_STRIDE_SINGLE_STRIDE_MODE : bool;
  m_l1_line_size : list Z
}.
(** [memory_c::line_size] of a core: the line size of [m_l1_cache[core_id]]. *)
Definition LOG2_DCACHE_LINE_SIZE (k : stride_knobs) (core_id : Z) : outcome Z := size ← aget (m_l1_line_size k) core_id; mret (Bits.log2_int size).

Record stride_region_table_entry_s := mk_region { r_tid : Z; r_tag : Z; r_valid : bool; r_last_access : Z }.

(** The arrays have the two states of a stream as indices. *)
Record stride_index_table_entry_s := mk_index {
  trained : bool;
  train_count_mode : bool;
  num_states : Z;
  curr_state : Z;
  last_index : Z;
  stride : list Z;
  s_cnt : list Z;
  strans : list Z;
  recnt : Z;
  count : Z;
  pref_count : Z;
  pref_curr_state : Z;
  pref_last_index : Z;
  pref_sent : Z
}.

Record pref_stride_c := mk_stride { pref_core_id : Z; region_table : list stride_region_table_entry_s; index_table : list stride_index_table_entry_s }.

Definition learnt (tr mode : bool) (ns cs : Z) (st sc sx : list Z) (re co : Z) (e : stride_index_table_entry_s) : stride_index_table_entry_s :=
  mk_index tr mode ns cs (last_index e) st sc sx re co (pref_count e) (pref_curr_state e) (pref_last_index e) (pref_sent e).
Definition with_last_index (i : Z) (e : stride_index_table_entry_s) : stride_index_table_entry_s :=
  mk_index (trained e) (train_count_mode e) (num_states e) (curr_state e) i (stride e) (s_cnt e) (strans e) (recnt e) (count e)
    (pref_count e) (pref_curr_state e) (pref_last_index e) (pref_sent e).
Definition with_pref (pc ps pl sent : Z) (e : stride_index_table_entry_s) : stride_index_table_entry_s :=
  mk_index (trained e) (train_count_mode e) (num_states e) (curr_state e) (last_index e) (stride e) (s_cnt e) (strans e) (recnt e) (count e)
    pc ps pl sent.

Section STRIDE.
Context {Q : Type} `{!PrefQueue Q}.
Context (k : stride_knobs) (id CYCLE : Z).
Abbreviation entry := stride_index_table_entry_s.

(** [new] of the tables: only [valid] and [trained] are initialised. [core_id = core_id]
    assigns the parameter to itself, so the member keeps what it held, [member]. *)
Definition init_func (member : Z) (junk_r : list stride_region_table_entry_s) (junk_i : list entry) : pref_stride_c :=
  mk_stride member ((fun r => mk_region (r_tid r) (r_tag r) false (r_last_access r)) <$> junk_r)
    ((fun e => learnt false (train_count_mode e) (num_states e) (curr_state e) (stride e) (s_cnt e) (strans e) (recnt e) (count e) e) <$> junk_i).

(** [1 - s] on [uns]. *)
Definition other_state (s : Z) : Z := u32 (1 - s).
Definition STRIDE_REGION (x : Z) : Z := Z.shiftr x (KNOB_PREF_STRIDE_REGION_BITS k).

(** ** Tables *)

Definition region_match (tid tag : Z) (r : stride_region_table_entry_s) : bool :=
  (negb (KNOB_PREF_THREAD_INDEX k) || (tid =? r_tid r)) && (tag =? r_tag r) && r_valid r.
Fixpoint find_region (n : nat) (ii tid tag : Z) (t : list stride_region_table_entry_s) : outcome Z :=
  match n with
  | O => mret (-1)
  | S n' => r ← aget t ii; if region_match tid tag r then mret ii else find_region n' (ii + 1) tid tag t
  end.
Fixpoint unused_region (n : nat) (ii idx : Z) (t : list stride_region_table_entry_s) : outcome Z :=
  match n with
  | O => mret idx
  | S n' =>
      r ← aget t ii;
      if negb (r_valid r) then mret ii else
      later ← (if idx =? -1 then mret true else b ← aget t idx; mret (r_last_access b <? r_last_access r));
      unused_region n' (ii + 1) (if later : bool then ii else idx) t
  end.

Definition new_index (line_index : Z) (e : entry) : entry :=
  with_last_index line_index
    (with_pref (pref_count e) (pref_curr_state e) (pref_last_index e) 0 (learnt false false 1 0 [0; 0] [0; 0] [0; 0] 0 0 e)).
Definition create_newentry (idx line_addr region_tag : Z) (s : pref_stride_c) : outcome pref_stride_c :=
  r ← aget (region_table s) idx;
  t ← aset (region_table s) idx (mk_region (r_tid r) region_tag true (u32 CYCLE));
  e ← aget (index_table s) idx;
  shift ← LOG2_DCACHE_LINE_SIZE k (pref_core_id s);
  x ← aset (index_table s) idx (new_index (Z.shiftr line_addr shift) e);
  mret (mk_stride (pref_core_id s) t x).

(** ** Learning *)

(** An access of an untrained stream; [None]: it does not fit. *)
Definition learn (str : Z) (e : entry) : outcome (option entry) :=
  let c := curr_state e in
  cur ← aget (stride e) c;
  cnt ← aget (s_cnt e) c;
  if negb (train_count_mode e) then
    if cur =? 0 then
      st ← aset (stride e) c str;
      sc ← aset (s_cnt e) c 1;
      mret (Some (learnt (trained e) false (num_states e) c st sc (strans e) (recnt e) (count e) e))
    else if cur =? str then
      st ← aset (stride e) c str;
      sc ← aset (s_cnt e) c (cnt + 1);
      mret (Some (learnt (trained e) false (num_states e) c st sc (strans e) (recnt e) (count e) e))
    else if KNOB_PREF_STRIDE_SINGLE_STRIDE_MODE k then
      st ← aset (stride e) c str;
      sc ← aset (s_cnt e) c 1;
      mret (Some (learnt (trained e) false (num_states e) c st sc (strans e) (recnt e) (count e) e))
    else
      sx ← aset (strans e) c str;
      let c' := other_state c in
      let ns := if num_states e =? 1 then 2 else num_states e in
      mret (Some (if c' =? 0 then learnt (trained e) true ns c' (stride e) (s_cnt e) sx 0 0 e
                  else learnt (trained e) false ns c' (stride e) (s_cnt e) sx (recnt e) (count e) e))
  else
    tr ← aget (strans e) c;
    if (str =? cur) && (count e <? cnt) then
      mret (Some (learnt (trained e) true (num_states e) c (stride e) (s_cnt e) (strans e) (recnt e + 1) (count e + 1) e))
    else if (str =? tr) && (count e =? cnt) then
      mret (Some (learnt (trained e) true (num_states e) (other_state c) (stride e) (s_cnt e) (strans e) (recnt e + 1) 0 e))
    else mret None.

(** The next line of a stream, and the stream after it. *)
Definition next_pref (e : entry) : outcome (Z * entry) :=
  let c := pref_curr_state e in
  cnt ← aget (s_cnt e) c;
  if pref_count e =? cnt then
    tr ← aget (strans e) c;
    let i := u64 (pref_last_index e + tr) in
    mret (i, with_pref 0 (other_state c) i (pref_sent e) e)
  else
    st ← aget (stride e) c;
    let i := u64 (pref_last_index e + st) in
    mret (i, with_pref (pref_count e + 1) c i (pref_sent e) e).
Fixpoint run_ahead (n : nat) (e : entry) : outcome entry :=
  match n with O => mret e | S n' => '(_, e1) ← next_pref e; run_ahead n' e1 end.

(** Whether the stream is known by now. *)
Definition conclude (e : entry) : outcome entry :=
  cnt ← aget (s_cnt e) (curr_state e);
  e1 ← (if KNOB_PREF_STRIDE_SINGLE_THRESH k <=? cnt then
          st0 ← aget (stride e) 0;
          let i := u64 (last_index e + s32 (st0 * KNOB_PREF_STRIDE_STARTDISTANCE k)) in
          mret (with_pref (pref_count e) (pref_curr_state e) i (pref_sent e)
            (learnt true (train_count_mode e) 1 0 (stride e) (s_cnt e) (strans e) (recnt e) (count e) e))
        else mret e);
  if KNOB_PREF_STRIDE_MULTI_THRESH k <=? recnt e1 then
    run_ahead (Z.to_nat (KNOB_PREF_STRIDE_STARTDISTANCE k))
      (with_pref (count e1) (curr_state e1) (last_index e1) (pref_sent e1)
        (learnt true (train_count_mode e1) (num_states e1) (curr_state e1) (stride e1) (s_cnt e1) (strans e1) (recnt e1) (count e1) e1))
  else mret e1.

(** ** Prefetching *)

Fixpoint send_single (n : nat) (e : entry) (q : Q) : outcome (entry * Q) :=
  match n with
  | O => mret (e, q)
  | S n' =>
      if pref_sent e <? KNOB_PREF_STRIDE_DISTANCE k then
        st0 ← aget (stride e) 0;
        let i := u64 (pref_last_index e + st0) in
        '(q1, taken) ← pref_addto_l2req_queue i id q;
        if taken : bool then send_single n' (with_pref (pref_count e) (pref_curr_state e) i (pref_sent e + 1) e) q1 else mret (e, q1)
      else mret (e, q)
  end.
Fixpoint send_multi (n : nat) (e : entry) (q : Q) : outcome (entry * Q) :=
  match n with
  | O => mret (e, q)
  | S n' =>
      if pref_sent e <? KNOB_PREF_STRIDE_DISTANCE k then
        '(i, e1) ← next_pref e;
        '(q1, taken) ← pref_addto_l2req_queue i id q;
        if taken : bool then send_multi n' (with_pref (pref_count e1) (pref_curr_state e1) (pref_last_index e1) (pref_sent e1 + 1) e1) q1 else mret (e, q1)
      else mret (e, q)
  end.

(** The stream was lost. *)
Definition forget (e : entry) : entry :=
  with_pref (pref_count e) (pref_curr_state e) (pref_last_index e) 0 (learnt false false 1 0 [0; 0] [0; 0] [0; 0] 0 0 e).

Definition follow (str : Z) (e : entry) (q : Q) : outcome (entry * Q) :=
  let e := with_pref (pref_count e) (pref_curr_state e) (pref_last_index e) (if pref_sent e =? 0 then 0 else pref_sent e - 1) e in
  let n := Z.to_nat (KNOB_PREF_STRIDE_DEGREE k) in
  st0 ← aget (stride e) 0;
  if (num_states e =? 1) && (str =? st0) then send_single n e q else
  let c := curr_state e in
  cur ← aget (stride e) c;
  cnt ← aget (s_cnt e) c;
  tr ← aget (strans e) c;
  if ((str =? cur) && (count e <? cnt)) || ((str =? tr) && (count e =? cnt)) then
    send_multi n
      (if count e =? cnt then learnt (trained e) (train_count_mode e) (num_states e) (other_state c) (stride e) (s_cnt e) (strans e) (recnt e) 0 e
       else learnt (trained e) (train_count_mode e) (num_states e) c (stride e) (s_cnt e) (strans e) (recnt e) (count e + 1) e) q
  else mret (forget e, q).

(** ** Training *)

Definition put_entry (idx : Z) (e : entry) (s : pref_stride_c) : outcome pref_stride_c :=
  x ← aset (index_table s) idx e; mret (mk_stride (pref_core_id s) (region_table s) x).

(** The access falls in the region of entry [idx]. *)
Definition train_region (idx lineIndex lineAddr : Z) (s : pref_stride_c) (q : Q) : outcome (pref_stride_c * Q) :=
  e ← aget (index_table s) idx;
  let str := s32 (lineIndex - last_index e) in
  let e := with_last_index lineIndex e in
  r ← aget (region_table s) idx;
  t ← aset (region_table s) idx (mk_region (r_tid r) (r_tag r) (r_valid r) (u32 CYCLE));
  s1 ← put_entry idx e (mk_stride (pref_core_id s) t (index_table s));
  if negb (trained e) then
    o ← learn str e;
    s2 ← match o with Some e1 => put_entry idx e1 s1 | None => create_newentry idx lineAddr (STRIDE_REGION lineAddr) s1 end;
    e2 ← aget (index_table s2) idx;
    e3 ← conclude e2;
    s3 ← put_entry idx e3 s2;
    mret (s3, q)
  else
    '(e1, q1) ← follow str e q;
    s2 ← put_entry idx e1 s1;
    mret (s2, q1).

Definition train (tid lineAddr : Z) (l2_hit : bool) (s : pref_stride_c) (q : Q) : outcome (pref_stride_c * Q) :=
  shift ← LOG2_DCACHE_LINE_SIZE k (pref_core_id s);
  let n := Z.to_nat (KNOB_PREF_STRIDE_TABLE_N k) in
  let index_tag := STRIDE_REGION lineAddr in
  idx ← find_region n 0 tid index_tag (region_table s);
  if idx =? -1 then
    if l2_hit then mret (s, q) else
    free ← unused_region n 0 (-1) (region_table s);
    s1 ← create_newentry free lineAddr index_tag s;
    mret (s1, q)
  else train_region idx (Z.shiftr lineAddr shift) lineAddr s q.

Definition l2_miss_func (tid lineAddr : Z) (s : pref_stride_c) (q : Q) : outcome (pref_stride_c * Q) := train tid lineAddr false s q.
Definition l2_hit_func (tid lineAddr : Z) (s : pref_stride_c) (q : Q) : outcome (pref_stride_c * Q) := train tid lineAddr true s q.
Definition l1_hit_func (tid lineAddr : Z) (s : pref_stride_c) (q : Q) : outcome (pref_stride_c * Q) := l2_miss_func tid lineAddr s q.
Definition l1_miss_func (tid lineAddr : Z) (s : pref_stride_c) (q : Q) : outcome (pref_stride_c * Q) := l2_miss_func tid lineAddr s q.
End STRIDE.

(** ** The tables *)

Section TABLES.
Context (k : stride_knobs).

Lemma find_region_spec tid tag t : forall n ii, 0 <= ii -> ii + Z.of_nat n = Z.of_nat (length t) ->
  exists i, find_region k n ii tid tag t = Done i /\
    ((i = -1 /\ forall j r, ii <= Z.of_nat j -> t !! j = Some r -> region_match k tid tag r = false) \/
     (ii <= i < Z.of_nat (length t) /\ exists r, t !! Z.to_nat i = Some r /\ region_match k tid tag r = true)).
Proof.
  induction n as [| n IH]; intros ii H0 Hn; simpl.
  { exists (-1). split; [done |]. left. split; [done |]. intros j r Hj Hr. apply lookup_lt_Some in Hr. lia. }
  destruct (aget_in_range t ii) as (r & Hr & ->); [lia |]. rewrite bind_done. destruct (region_match k tid tag r) eqn:E.
  { exists ii. split; [done |]. right. split; [lia | by exists r]. }
  destruct (IH (ii + 1)) as (i & Hi & Hs); [lia | lia |]. exists i. split; [done |]. destruct Hs as [[-> Hs] | [Hs1 Hs2]]; [left | right; split; [lia | done]].
  split; [done |]. intros j r' Hj Hr'. destruct (Z.eq_dec (Z.of_nat j) ii) as [<- |]; [| apply (Hs j r'); [lia | done]].
  rewrite Nat2Z.id in Hr. congruence.
Qed.

(** The entry a new region gets: the first unused one, or, when all are in use, the
    one that was accessed last. *)
Definition replaced (t : list stride_region_table_entry_s) (i : Z) : Prop :=
  exists r, t !! Z.to_nat i = Some r /\ (r_valid r = false \/ forall j r', t !! j = Some r' -> r_valid r' = true /\ r_last_access r' <= r_last_access r).
Lemma unused_region_spec t : forall n ii idx, 0 <= ii -> ii + Z.of_nat n = Z.of_nat (length t) -> (0 < ii + Z.of_nat n) ->
  (forall j r, Z.of_nat j < ii -> t !! j = Some r -> r_valid r = true) ->
  ((idx = -1 /\ ii = 0) \/ (0 <= idx < ii /\ exists r, t !! Z.to_nat idx = Some r /\ forall j r', Z.of_nat j < ii -> t !! j = Some r' -> r_last_access r' <= r_last_access r)) ->
  exists i, unused_region n ii idx t = Done i /\ 0 <= i < Z.of_nat (length t) /\ replaced t i.
Proof.
  induction n as [| n IH]; intros ii idx H0 Hn Hp Hv Hidx; simpl.
  { destruct Hidx as [[_ ->] | (Hi & r & Hr & Hmax)]; [lia |]. exists idx. split; [done |]. split; [lia |]. exists r. split; [done |]. right.
    intros j r' Hj. pose proof (lookup_lt_Some _ _ _ Hj). split; [apply (Hv j); [lia | done] | apply (Hmax j); [lia | done]]. }
  destruct (aget_in_range t ii) as (r & Hr & ->); [lia |]. rewrite bind_done. destruct (r_valid r) eqn:Er; simpl negb; cbv iota.
  2: { exists ii. split; [done |]. split; [lia |]. exists r. split; [done | by left]. }
  assert (Hv' : forall j r0, Z.of_nat j < ii + 1 -> t !! j = Some r0 -> r_valid r0 = true).
  { intros j r0 Hj Hr0. destruct (Z.eq_dec (Z.of_nat j) ii) as [<- |]; [rewrite Nat2Z.id in Hr; congruence | apply (Hv j); [lia | done]]. }
  destruct Hidx as [[-> ->] | (Hi & b & Hb & Hmax)].
  - simpl. apply IH; try lia; try done. right. split; [lia |]. exists r. split; [done |]. intros j r' Hj Hr'.
    destruct j as [| j]; [| lia]. change (Z.to_nat 0) with 0%nat in Hr. rewrite Hr in Hr'. by injection Hr' as <-.
  - rewrite (proj2 (Z.eqb_neq idx (-1))) by lia. rewrite (aget_at t idx b) by (try lia; done). rewrite !bind_done.
    apply IH; try lia; try done. right. destruct (Z.ltb_spec (r_last_access b) (r_last_access r)) as [Hlt | Hge].
    + split; [lia |]. exists r. split; [done |]. intros j r' Hj Hr'. destruct (Z.eq_dec (Z.of_nat j) ii) as [<- |].
      * rewrite Nat2Z.id in Hr. rewrite Hr in Hr'. by injection Hr' as <-.
      * pose proof (Hmax j r' ltac:(lia) Hr'). lia.
    + split; [lia |]. exists b. split; [done |]. intros j r' Hj Hr'. destruct (Z.eq_dec (Z.of_nat j) ii) as [<- |].
      * rewrite Nat2Z.id in Hr. rewrite Hr in Hr'. by injection Hr' as <-.
      * apply (Hmax j); [lia | done].
Qed.
End TABLES.

(** ** Streams *)

Section ENTRIES.
Context {Q : Type} `{!PrefQueue Q}.
Context (k : stride_knobs) (id : Z).
Context (Hsingle : 1 <= KNOB_PREF_STRIDE_SINGLE_THRESH k).
Abbreviation entry := stride_index_table_entry_s.
Abbreviation T := (KNOB_PREF_STRIDE_SINGLE_THRESH k).

Definition is_state (c : Z) : Prop := c = 0 \/ c = 1.
(** Arrays, states and the number of outstanding prefetches are in range. *)
Record shape (e : entry) : Prop := {
  sh_stride : exists a b, stride e = [a; b];
  sh_cnt : exists a b, s_cnt e = [a; b];
  sh_trans : exists a b, strans e = [a; b];
  sh_curr : is_state (curr_state e);
  sh_num : num_states e = 1 \/ num_states e = 2;
  sh_sent : 0 <= pref_sent e <= Z.max 0 (KNOB_PREF_STRIDE_DISTANCE k)
}.
Definition slot (l : list Z) (i : Z) : Z := l !!! Z.to_nat i.

(** A stream that is being learnt; [full] when it may have reached the threshold. *)
Definition learning (full : bool) (e : entry) : Prop :=
  trained e = false /\ slot (s_cnt e) (other_state (curr_state e)) < T /\
  (if train_count_mode e then slot (s_cnt e) (curr_state e) < T
   else (full = false -> slot (s_cnt e) (curr_state e) < T) /\ count e = 0 /\ (1 <= slot (s_cnt e) 0 \/ (curr_state e = 0 /\ slot (stride e) 0 = 0))).
(** A stream with two strides has a valid position; one with a single stride never
    looks at it. *)
Definition known (e : entry) : Prop :=
  trained e = true /\ (is_state (pref_curr_state e) \/ (num_states e = 1 /\ curr_state e = 0 /\ count e = 0 /\ 1 <= slot (s_cnt e) 0)).
Definition entry_ok (e : entry) : Prop := shape e /\ (learning false e \/ known e).

Lemma other_cases c : is_state c -> (c = 0 /\ other_state c = 1) \/ (c = 1 /\ other_state c = 0).
Proof. intros [-> | ->]; auto. Qed.

Lemma learn_ok str e : shape e -> learning false e ->
  exists o, learn k str e = Done o /\ match o with Some e1 => shape e1 /\ learning true e1 | None => True end.
Proof.
  intros [(a0 & a1 & Ha) (n0 & n1 & Hn) (x0 & x1 & Hx) Hc Hs Hp] (Ht & Ho & Hm). unfold learn. rewrite Ha, Hn, Hx in *.
  destruct e as [tr mode ns c li st sc sx re co pc ps pl se]; simpl in *. subst tr st sc sx.
  destruct Hc as [-> | ->]; simpl in *; unfold slot in *; simpl in *; destruct mode; simpl;
  repeat (match goal with |- exists o, (if ?b then _ else _) = _ /\ _ => destruct b eqn:? end); eexists; (split; [reflexivity |]); try done;
  (split; [split; simpl; eauto; try (by left); try (by right); repeat case_match; auto |]); unfold learning, slot in *; simpl in *; repeat split; try lia.
Qed.

Lemma next_pref_ok e : shape e -> is_state (pref_curr_state e) ->
  exists i pc ps, next_pref e = Done (i, with_pref pc ps i (pref_sent e) e) /\ is_state ps.
Proof.
  intros [(a0 & a1 & Ha) (n0 & n1 & Hn) (x0 & x1 & Hx) _ _ _] Hc. unfold next_pref. rewrite Ha, Hn, Hx.
  destruct Hc as [-> | ->]; simpl; destruct (_ =? _); eexists _, _, _; (split; [reflexivity |]); unfold is_state, other_state; auto.
Qed.
Lemma with_pref_shape pc ps pl se e : 0 <= se <= Z.max 0 (KNOB_PREF_STRIDE_DISTANCE k) -> shape e -> shape (with_pref pc ps pl se e).
Proof. intros H []. by split. Qed.
Lemma run_ahead_ok n : forall e, shape e -> is_state (pref_curr_state e) -> trained e = true ->
  exists e', run_ahead n e = Done e' /\ shape e' /\ is_state (pref_curr_state e') /\ trained e' = true.
Proof.
  induction n as [| n IH]; intros e Hs Hc Ht; simpl; [by exists e |].
  destruct (next_pref_ok e Hs Hc) as (i & pc & ps & -> & Hps). rewrite bind_done. apply IH; [| done | done]. apply with_pref_shape; [apply Hs | done].
Qed.

Lemma conclude_ok e : shape e -> learning true e -> exists e', conclude k e = Done e' /\ entry_ok e'.
Proof.
  intros Hs (Ht & Ho & Hm). unfold conclude. pose proof Hs as [(a0 & a1 & Ha) (n0 & n1 & Hn) (x0 & x1 & Hx) Hc Hns Hp].
  assert (Hg : aget (s_cnt e) (curr_state e) = Done (slot (s_cnt e) (curr_state e))) by (rewrite Hn; by destruct Hc as [-> | ->]).
  rewrite Hg, bind_done. destruct (Z.leb_spec T (slot (s_cnt e) (curr_state e))) as [Hge | Hlt].
  - rewrite Ha. change (aget [a0; a1] 0) with (Done a0 : outcome Z). rewrite bind_done. set (i := u64 _). rewrite <- Ha.
    set (e1 := with_pref _ _ _ _ _). rewrite bind_done.
    assert (Hs1 : shape e1) by (unfold e1; split; simpl; eauto; by left).
    assert (Hk1 : known e1).
    { unfold e1. split; [done |]. right. simpl. split; [done |]. split; [done |]. destruct (train_count_mode e); [lia |]. destruct Hm as (_ & Hco & Hz).
      split; [done |]. destruct Hz as [| [Hz _]]; [done |]. rewrite Hz in Hge. lia. }
    destruct (_ <=? recnt e1); [| by exists e1; split; [| split; [| right]]].
    edestruct (run_ahead_ok (Z.to_nat (KNOB_PREF_STRIDE_STARTDISTANCE k))) as (e' & E & H1 & H2 & H3); [| | | exists e'; split; [exact E |]; split; [done |]; right; split; auto].
    + apply with_pref_shape; [exact Hp |]. by destruct Hs1.
    + by left.
    + done.
  - rewrite bind_done. destruct (_ <=? recnt e).
    + edestruct (run_ahead_ok (Z.to_nat (KNOB_PREF_STRIDE_STARTDISTANCE k))) as (e' & E & H1 & H2 & H3); [| | | exists e'; split; [exact E |]; split; [done |]; right; split; auto].
      * apply with_pref_shape; [exact Hp |]. by destruct Hs.
      * exact Hc.
      * done.
    + exists e. split; [done |]. split; [done |]. left. split; [done |]. split; [done |]. destruct (train_count_mode e); [done |]. destruct Hm as (_ & ? & ?). by split_and!.
Qed.

Context {queue_ok : Q -> Prop} `{!PrefQueueOk Q id queue_ok}.

Lemma send_single_ok n : forall e q, shape e -> known e -> queue_ok q ->
  exists e' q', send_single k id n e q = Done (e', q') /\ shape e' /\ known e' /\ queue_ok q'.
Proof.
  induction n as [| n IH]; intros e q Hs Hk Hq; simpl; [by exists e, q |]. destruct (Z.ltb_spec (pref_sent e) (KNOB_PREF_STRIDE_DISTANCE k)); [| by exists e, q].
  destruct (sh_stride _ Hs) as (a0 & a1 & Ha). rewrite Ha. simpl. destruct (addto_ok (u64 (pref_last_index e + a0)) q Hq) as (q1 & taken & -> & Hq1). rewrite bind_done.
  destruct taken; [| by exists e, q1]. apply IH; [apply with_pref_shape; [pose proof (sh_sent _ Hs); lia | done] | | done]. exact Hk.
Qed.
Lemma send_multi_ok n : forall e q, shape e -> trained e = true -> is_state (pref_curr_state e) -> queue_ok q ->
  exists e' q', send_multi k id n e q = Done (e', q') /\ shape e' /\ known e' /\ queue_ok q'.
Proof.
  induction n as [| n IH]; intros e q Hs Ht Hc Hq; simpl.
  { exists e, q. split; [done |]. split; [done |]. split; [split; auto | done]. }
  destruct (Z.ltb_spec (pref_sent e) (KNOB_PREF_STRIDE_DISTANCE k)).
  2: { exists e, q. split; [done |]. split; [done |]. split; [split; auto | done]. }
  destruct (next_pref_ok e Hs Hc) as (i & pc & ps & -> & Hps). rewrite bind_done. destruct (addto_ok i q Hq) as (q1 & taken & -> & Hq1). rewrite bind_done.
  destruct taken.
  - apply IH; [| done | done | done]. apply with_pref_shape; [simpl; pose proof (sh_sent _ Hs); lia |]. apply with_pref_shape; [apply Hs | done].
  - exists e, q1. split; [done |]. split; [done |]. split; [split; auto | done].
Qed.

Lemma with_last_index_ok i e : entry_ok e -> entry_ok (with_last_index i e).
Proof. intros [[] H]. split; [by split | exact H]. Qed.
Lemma forget_ok e : shape e -> entry_ok (forget e).
Proof.
  intros []. split; [split; simpl; eauto; unfold is_state; lia |]. left. unfold learning, slot. simpl. repeat split; lia.
Qed.
Lemma new_index_ok i e : entry_ok (new_index i e).
Proof.
  split; [split; simpl; eauto; unfold is_state; lia |]. left. unfold learning, slot. simpl. repeat split; lia.
Qed.

Lemma follow_ok str e q : shape e -> known e -> queue_ok q ->
  exists e' q', follow k id str e q = Done (e', q') /\ entry_ok e' /\ queue_ok q'.
Proof.
  intros Hs Hk Hq. unfold follow. set (e0 := with_pref _ _ _ _ e).
  assert (Hs0 : shape e0). { apply with_pref_shape; [| done]. pose proof (sh_sent _ Hs). destruct (Z.eqb_spec (pref_sent e) 0); lia. }
  assert (Hk0 : known e0) by exact Hk. clearbody e0. clear Hs Hk. pose proof Hs0 as [(a0 & a1 & Ha) (n0 & n1 & Hn) (x0 & x1 & Hx) Hc Hns Hp].
  rewrite Ha. change (aget [a0; a1] 0) with (Done a0 : outcome Z). rewrite bind_done. destruct ((num_states e0 =? 1) && (str =? a0)) eqn:E1.
  { destruct (send_single_ok (Z.to_nat (KNOB_PREF_STRIDE_DEGREE k)) e0 q Hs0 Hk0 Hq) as (e' & q' & E & H1 & H2 & H3). exists e', q'. split; [done |]. split; [split; auto | done]. }
  assert (exists cur, aget [a0; a1] (curr_state e0) = Done cur /\ (curr_state e0 = 0 -> cur = a0)) as (cur & -> & Hcur) by (destruct Hc as [-> | ->]; eexists; split; try done; discriminate).
  assert (exists cnt, aget (s_cnt e0) (curr_state e0) = Done cnt /\ slot (s_cnt e0) (curr_state e0) = cnt) as (cnt & -> & Hcnt) by (rewrite Hn; destruct Hc as [-> | ->]; by eexists).
  assert (exists tr, aget (strans e0) (curr_state e0) = Done tr) as (tr & ->) by (rewrite Hx; destruct Hc as [-> | ->]; by eexists).
  rewrite !bind_done. destruct (_ || _) eqn:E2.
  2: { exists (forget e0), q. split; [done |]. split; [by apply forget_ok | done]. }
  destruct Hk0 as [Ht [Hps | (H1 & H2 & H3 & H4)]].
  - edestruct (send_multi_ok (Z.to_nat (KNOB_PREF_STRIDE_DEGREE k))) as (e' & q' & E & G1 & G2 & G3); [| | | exact Hq | exists e', q'; split; [exact E |]; split; [split; [exact G1 | right; exact G2] | exact G3]].
    + destruct (count e0 =? cnt); split; simpl; eauto. destruct (other_cases _ Hc) as [[_ ->] | [_ ->]]; [by right | by left].
    + by destruct (count e0 =? cnt).
    + by destruct (count e0 =? cnt).
  - exfalso. rewrite H1 in E1. simpl in E1. rewrite (Hcur H2), E1, H3, <- Hcnt, H2 in E2. apply orb_true_iff in E2 as [E2 | E2]; [done |]. apply andb_true_iff in E2 as [_ E2]. apply Z.eqb_eq in E2. lia.
Qed.
End ENTRIES.

(** ** The prefetcher *)

Record access := mk_access { a_cycle : Z; a_tid : Z; a_line_addr : Z; a_l2_hit : bool }.
Definition train_one {Q} `{!PrefQueue Q} (k : stride_knobs) (id : Z) (a : access) (s : pref_stride_c) (q : Q) : outcome (pref_stride_c * Q) :=
  train k id (a_cycle a) (a_tid a) (a_line_addr a) (a_l2_hit a) s q.
Fixpoint train_run {Q} `{!PrefQueue Q} (k : stride_knobs) (id : Z) (l : list access) (s : pref_stride_c) (q : Q) : outcome (pref_stride_c * Q) :=
  match l with [] => mret (s, q) | a :: l' => '(s1, q1) ← train_one k id a s q; train_run k id l' s1 q1 end.

Section SAFE.
Context (k : stride_knobs) (id : Z).
Context {Q : Type} `{!PrefQueue Q} {queue_ok : Q -> Prop} `{!PrefQueueOk Q id queue_ok}.
Context (Hsingle : 1 <= KNOB_PREF_STRIDE_SINGLE_THRESH k).
Context (Htable : 0 < KNOB_PREF_STRIDE_TABLE_N k).
Context (shift : Z).

(** The core the prefetcher takes itself for has a cache, the tables have their size, every tracked region has a well-formed stream, and,
    unless streams are kept per thread, no region is tracked twice. *)
Record stride_ok (s : pref_stride_c) : Prop := {
  so_shift : LOG2_DCACHE_LINE_SIZE k (pref_core_id s) = Done shift;
  so_regions : Z.of_nat (length (region_table s)) = KNOB_PREF_STRIDE_TABLE_N k;
  so_indices : Z.of_nat (length (index_table s)) = KNOB_PREF_STRIDE_TABLE_N k;
  so_entry : forall i r e, region_table s !! i = Some r -> r_valid r = true -> index_table s !! i = Some e -> entry_ok k e;
  so_tags : KNOB_PREF_THREAD_INDEX k = false -> forall i j r r', region_table s !! i = Some r -> region_table s !! j = Some r' ->
    r_valid r = true -> r_valid r' = true -> r_tag r = r_tag r' -> i = j
}.

Lemma init_func_ok member junk_r junk_i : LOG2_DCACHE_LINE_SIZE k member = Done shift -> Z.of_nat (length junk_r) = KNOB_PREF_STRIDE_TABLE_N k -> Z.of_nat (length junk_i) = KNOB_PREF_STRIDE_TABLE_N k ->
  stride_ok (init_func member junk_r junk_i).
Proof.
  intros H0 H1 H2. split; simpl; rewrite ?length_fmap; try done.
  - intros i r e Hr Hv _. rewrite list_lookup_fmap in Hr. destruct (junk_r !! i); [| done]. injection Hr as <-. done.
  - intros _ i j r r' Hr _ Hv. rewrite list_lookup_fmap in Hr. destruct (junk_r !! i); [| done]. injection Hr as <-. done.
Qed.

Lemma put_entry_ok i e s : stride_ok s -> (i < length (index_table s))%nat -> entry_ok k e ->
  put_entry (Z.of_nat i) e s = Done (mk_stride (pref_core_id s) (region_table s) (<[i := e]> (index_table s))) /\
  stride_ok (mk_stride (pref_core_id s) (region_table s) (<[i := e]> (index_table s))).
Proof.
  intros [S0 S1 S2 S3 S4] Hi He. unfold put_entry. rewrite aset_in_range, Nat2Z.id by lia. split; [done |]. split; simpl; rewrite ?length_insert; try done.
  intros j r e' Hr Hv. rewrite list_lookup_insert_Some. intros [(<- & <- & _) | [_ He']]; [done | by eapply S3].
Qed.

Lemma create_newentry_ok cyc i a tag s : stride_ok s -> (i < length (index_table s))%nat ->
  (KNOB_PREF_THREAD_INDEX k = false -> forall j r, region_table s !! j = Some r -> r_valid r = true -> r_tag r = tag -> j = i) ->
  exists s' e, create_newentry k cyc (Z.of_nat i) a tag s = Done s' /\ stride_ok s' /\ index_table s' !! i = Some (new_index (Z.shiftr a shift) e).
Proof.
  intros [S0 S1 S2 S3 S4] Hi Htag. unfold create_newentry.
  destruct (aget_in_range (region_table s) (Z.of_nat i)) as (r & Hr & ->); [lia |]. destruct (aget_in_range (index_table s) (Z.of_nat i)) as (e & He & Ee); [lia |].
  rewrite bind_done, aset_in_range by lia. rewrite bind_done, Ee, bind_done, S0, bind_done, aset_in_range by lia. rewrite bind_done, Nat2Z.id. eexists _, e. split; [done |].
  split; [| simpl; by rewrite list_lookup_insert_eq]. split; simpl; rewrite ?length_insert; try done.
  - intros j r' e' Hr' Hv. rewrite list_lookup_insert_Some in Hr'. rewrite list_lookup_insert_Some. intros [(<- & <- & _) | [Hne He']]; [by apply new_index_ok |].
    destruct Hr' as [(? & _) | [_ Hr']]; [done | by eapply S3].
  - intros HT j j' r1 r2 H1 H2 V1 V2. rewrite list_lookup_insert_Some in H1. rewrite list_lookup_insert_Some in H2.
    destruct H1 as [(<- & <- & _) | [N1 H1]], H2 as [(<- & <- & _) | [N2 H2]]; simpl; intros Et; [done | | | by eapply S4].
    + symmetry. by apply (Htag HT j' r2).
    + by apply (Htag HT j r1).
Qed.

(** An access of entry [i], before its stream is looked at. *)
Definition touched (cyc : Z) (i : nat) (r : stride_region_table_entry_s) (e : stride_index_table_entry_s) (s : pref_stride_c) : pref_stride_c :=
  mk_stride (pref_core_id s) (<[i := mk_region (r_tid r) (r_tag r) (r_valid r) (u32 cyc)]> (region_table s)) (<[i := e]> (index_table s)).
Lemma touched_ok cyc i r e s : stride_ok s -> region_table s !! i = Some r -> entry_ok k e -> stride_ok (touched cyc i r e s).
Proof.
  intros [S0 S1 S2 S3 S4] Hr He. split; simpl; rewrite ?length_insert; try done.
  - intros j r' e' Hr' Hv'. rewrite list_lookup_insert_Some in Hr'. rewrite list_lookup_insert_Some. intros [(<- & <- & _) | [Hne He']]; [done |].
    destruct Hr' as [(? & _) | [_ Hr']]; [done | eauto].
  - intros HT i' j r1 r2 H1 H2 V1 V2. rewrite list_lookup_insert_Some in H1. rewrite list_lookup_insert_Some in H2.
    destruct H1 as [(<- & <- & _) | [_ H1]], H2 as [(<- & <- & _) | [_ H2]]; simpl in *; intros Et; by eapply S4.
Qed.
Lemma touched_touched cyc i r e e' s : region_table s !! i = Some r ->
  put_entry (Z.of_nat i) e' (touched cyc i r e s) = (if decide (i < length (index_table s))%nat then Done (touched cyc i r e' s) else Fault OutOfBounds).
Proof.
  intros Hr. unfold put_entry, touched. simpl. case_decide as Hi.
  - rewrite aset_in_range by (rewrite length_insert; lia). by rewrite bind_done, Nat2Z.id, list_insert_insert_eq.
  - unfold aset. rewrite bool_decide_false; [done |]. rewrite length_insert. lia.
Qed.

Lemma train_region_eq cyc i x a r e s q : stride_ok s -> region_table s !! i = Some r -> index_table s !! i = Some e ->
  train_region k id cyc (Z.of_nat i) x a s q =
    let e0 := with_last_index x e in
    let str := s32 (x - last_index e) in
    if negb (trained e) then
      o ← learn k str e0;
      s2 ← match o with Some e1 => mret (touched cyc i r e1 s) | None => create_newentry k cyc (Z.of_nat i) a (STRIDE_REGION k a) (touched cyc i r e0 s) end;
      e2 ← aget (index_table s2) (Z.of_nat i);
      e3 ← conclude k e2;
      s3 ← put_entry (Z.of_nat i) e3 s2;
      mret (s3, q)
    else '(e1, q1) ← follow k id str e0 q; mret (touched cyc i r e1 s, q1).
Proof.
  intros [S0 S1 S2 S3 S4] Hr He. unfold train_region. pose proof (lookup_lt_Some _ _ _ He) as Hi. rewrite (aget_lookup _ _ _ He), bind_done. cbv zeta.
  rewrite (aget_lookup _ _ _ Hr), bind_done, aset_in_range by lia. rewrite bind_done, Nat2Z.id. set (e0 := with_last_index _ e).
  assert (E1 : put_entry (Z.of_nat i) e0 (mk_stride (pref_core_id s) (<[i := mk_region (r_tid r) (r_tag r) (r_valid r) (u32 cyc)]> (region_table s)) (index_table s)) = Done (touched cyc i r e0 s)).
  { unfold put_entry, touched. simpl. rewrite aset_in_range by lia. by rewrite bind_done, Nat2Z.id. }
  rewrite E1, bind_done. change (trained e0) with (trained e). destruct (negb (trained e)).
  - destruct (learn k _ e0) as [[e1 |] |]; rewrite ?bind_done; try done. by rewrite touched_touched, decide_True.
  - destruct (follow k id _ e0 q) as [[e1 q1] |]; rewrite ?bind_done; try done. by rewrite touched_touched, decide_True.
Qed.

Lemma train_region_ok cyc i x a r e s q : stride_ok s -> queue_ok q -> region_table s !! i = Some r -> index_table s !! i = Some e ->
  r_valid r = true -> r_tag r = STRIDE_REGION k a ->
  exists s' q', train_region k id cyc (Z.of_nat i) x a s q = Done (s', q') /\ stride_ok s' /\ queue_ok q'.
Proof.
  intros Hs Hq Hr He Hv Ht. rewrite (train_region_eq cyc i x a r e s q Hs Hr He). cbv zeta. set (e0 := with_last_index _ e). set (str := s32 _).
  pose proof (lookup_lt_Some _ _ _ He) as Hi. assert (Hok : entry_ok k e0) by (apply with_last_index_ok; exact (so_entry _ Hs _ _ _ Hr Hv He)).
  destruct Hok as [Hsh [Hl | Hk]].
  - change (trained e) with (trained e0). rewrite (proj1 Hl). simpl negb. cbv iota. destruct (learn_ok k str e0 Hsh Hl) as (o & -> & Ho). rewrite bind_done.
    destruct o as [e1 |]; simpl mbind.
    + destruct Ho as [Ho1 Ho2]. rewrite (aget_lookup _ i e1) by (simpl; by rewrite list_lookup_insert_eq). rewrite bind_done.
      destruct (conclude_ok k Hsingle e1 Ho1 Ho2) as (e3 & -> & He3). rewrite bind_done, touched_touched, decide_True, bind_done by done.
      eexists _, q. split; [done |]. split; [by apply touched_ok | done].
    + assert (Hs1 : stride_ok (touched cyc i r e0 s)) by (apply touched_ok; [done | done | by split; [| left]]).
      destruct (create_newentry_ok cyc i a (STRIDE_REGION k a) _ Hs1) as (s2 & e2 & -> & Hs2 & He2).
      { simpl. by rewrite length_insert. }
      { intros HT j r' Hr' Hv' Ht'. eapply (so_tags _ Hs1 HT j i r'); simpl; [exact Hr' | by rewrite list_lookup_insert_eq by (by eapply lookup_lt_Some) | done | done | by simpl; rewrite Ht']. }
      rewrite bind_done, (aget_lookup _ _ _ He2), bind_done. destruct (new_index_ok k Hsingle (Z.shiftr a shift) e2) as [Hn1 [(N1 & N2 & _ & N3) | [? _]]]; [| done].
      destruct (conclude_ok k Hsingle (new_index (Z.shiftr a shift) e2)) as (e3 & -> & He3); [done | by split |]. rewrite bind_done.
      destruct (put_entry_ok i e3 s2 Hs2) as [-> H3]; [by eapply lookup_lt_Some | done |]. rewrite bind_done. eauto.
  - change (trained e) with (trained e0). rewrite (proj1 Hk). simpl negb. cbv iota. destruct (follow_ok k id Hsingle str e0 q Hsh Hk Hq) as (e1 & q1 & -> & He1 & Hq1). rewrite bind_done.
    eexists _, q1. split; [done |]. split; [by apply touched_ok | done].
Qed.

Lemma stride_access_ok cyc tid a hit s q : stride_ok s -> queue_ok q ->
  exists s' q', train k id cyc tid a hit s q = Done (s', q') /\ stride_ok s' /\ queue_ok q'.
Proof.
  intros Hs Hq. pose proof Hs as [S0 S1 S2 S3 S4]. unfold train. rewrite S0, bind_done. set (n := Z.to_nat (KNOB_PREF_STRIDE_TABLE_N k)). set (tag := STRIDE_REGION k a).
  destruct (find_region_spec k tid tag (region_table s) n 0) as (idx & -> & Hidx); [lia | unfold n; lia |]. rewrite bind_done.
  destruct Hidx as [[-> Hnone] | (Hidx & r & Hr & Hm)].
  - change (-1 =? -1) with true. cbv iota. destruct hit; [by exists s, q |].
    destruct (unused_region_spec (region_table s) n 0 (-1)) as (f & -> & Hf & _); [lia | unfold n; lia | unfold n; lia | lia | by left |]. rewrite bind_done.
    destruct (create_newentry_ok cyc (Z.to_nat f) a tag s Hs) as (s' & e & E & Hs' & _); [lia | |].
    { intros HT j r Hr Hv Ht. specialize (Hnone j r ltac:(lia) Hr). unfold region_match in Hnone. rewrite HT, Hv, Ht, Z.eqb_refl in Hnone. done. }
    rewrite Z2Nat.id in E by lia. rewrite E, bind_done. by exists s', q.
  - rewrite (proj2 (Z.eqb_neq idx (-1))) by lia. destruct (aget_in_range (index_table s) idx) as (e & He & _); [lia |].
    unfold region_match in Hm. apply andb_true_iff in Hm as [Hm Hv]. apply andb_true_iff in Hm as [_ Ht]. apply Z.eqb_eq in Ht.
    rewrite <- (Z2Nat.id idx) by lia. by eapply train_region_ok.
Qed.

Lemma train_run_ok l : forall s q, stride_ok s -> queue_ok q ->
  exists s' q', train_run k id l s q = Done (s', q') /\ stride_ok s' /\ queue_ok q'.
Proof.
  induction l as [| a l IH]; intros s q Hs Hq; simpl; [by exists s, q |].
  destruct (stride_access_ok (a_cycle a) (a_tid a) (a_line_addr a) (a_l2_hit a) s q Hs Hq) as (s1 & q1 & E & Hs1 & Hq1). unfold train_one. rewrite E, bind_done. auto.
Qed.
End SAFE.

(** ** Following a stream *)

(** The requests for [l] were taken, in this order, possibly after refusals. *)
Inductive requested {Q} `{!PrefQueue Q} (id : Z) : Q -> list Z -> Q -> Prop :=
  | requested_none q : requested id q [] q
  | requested_taken q i q1 l q2 : pref_addto_l2req_queue i id q = Done (q1, true) -> requested id q1 l q2 -> requested id q (i :: l) q2
  | requested_refused q i q1 l q2 : pref_addto_l2req_queue i id q = Done (q1, false) -> requested id q1 l q2 -> requested id q l q2.
Lemma requested_app {Q} `{!PrefQueue Q} id (q q1 q2 : Q) l l' : requested id q l q1 -> requested id q1 l' q2 -> requested id q (l ++ l') q2.
Proof. induction 1; intros; simpl; eauto using requested_taken, requested_refused. Qed.

(** Lines [p + 1] to [p + m] of the stream from [x] by [d]. *)
Fixpoint lines (x d p : Z) (m : nat) : list Z :=
  match m with O => [] | S m' => u64 (x + d * (p + 1)) :: lines x d (p + 1) m' end.
Lemma lines_app x d m m' : forall p, lines x d p (m + m') = lines x d p m ++ lines x d (p + Z.of_nat m) m'.
Proof.
  induction m as [| m IH]; intros p; cbn [lines Nat.add app]; [f_equal; lia |]. rewrite IH. do 3 f_equal. lia.
Qed.
Lemma lines_elem x d j m : forall p, p < j <= p + Z.of_nat m -> u64 (x + d * j) ∈ lines x d p m.
Proof.
  induction m as [| m IH]; intros p Hj; [lia |]. simpl. destruct (Z.eq_dec j (p + 1)) as [-> |]; [left |]. right. apply IH. lia.
Qed.

Section STREAM.
Context (k : stride_knobs) (id : Z).
Context {Q : Type} `{!PrefQueue Q} {queue_ok : Q -> Prop} `{!PrefQueueOk Q id queue_ok}.
Context (Hsingle : 1 <= KNOB_PREF_STRIDE_SINGLE_THRESH k) (Hmulti : 1 <= KNOB_PREF_STRIDE_MULTI_THRESH k).
Context (shift : Z) (Htable : 0 < KNOB_PREF_STRIDE_TABLE_N k) (Hthread : KNOB_PREF_THREAD_INDEX k = false).
Abbreviation entry := stride_index_table_entry_s.
Abbreviation T := (KNOB_PREF_STRIDE_SINGLE_THRESH k).
Abbreviation D := (KNOB_PREF_STRIDE_STARTDISTANCE k).

Definition always_takes : Prop := forall i (q q' : Q) b, pref_addto_l2req_queue i id q = Done (q', b) -> b = true.

Lemma send_single_stream x d b n : forall p e q, stride e = [d; b] -> pref_last_index e = u64 (x + d * p) -> queue_ok q ->
  exists m q', send_single k id n e q = Done (with_pref (pref_count e) (pref_curr_state e) (u64 (x + d * (p + Z.of_nat m))) (pref_sent e + Z.of_nat m) e, q') /\
    requested id q (lines x d p m) q' /\ queue_ok q' /\ (always_takes -> (0 < n)%nat -> pref_sent e < KNOB_PREF_STRIDE_DISTANCE k -> (1 <= m)%nat).
Proof.
  induction n as [| n IH]; intros p e q Hst Hp Hq.
  { exists 0%nat, q. rewrite !Z.add_0_r, <- Hp. split; [by destruct e |]. split; [constructor |]. split; [done | lia]. }
  simpl. destruct (Z.ltb_spec (pref_sent e) (KNOB_PREF_STRIDE_DISTANCE k)) as [Hlt | Hge].
  2: { exists 0%nat, q. rewrite !Z.add_0_r, <- Hp. split; [by destruct e |]. split; [constructor |]. split; [done | lia]. }
  rewrite Hst. change (aget [d; b] 0) with (Done d : outcome Z). rewrite bind_done.
  assert (Hi : u64 (pref_last_index e + d) = u64 (x + d * (p + 1))). { rewrite Hp. unfold u64. rewrite Zplus_mod_idemp_l. f_equal. lia. }
  rewrite Hi. destruct (addto_ok (u64 (x + d * (p + 1))) q Hq) as (q1 & taken & E & Hq1). rewrite E, bind_done. destruct taken.
  - set (e1 := with_pref _ _ _ _ e). destruct (IH (p + 1) e1 q1) as (m & q' & Es & Hr & Hq' & _); [done | done | done |].
    exists (S m), q'. rewrite Es. split; [by replace (p + Z.of_nat (S m)) with (p + 1 + Z.of_nat m) by lia; replace (pref_sent e + Z.of_nat (S m)) with (pref_sent e + 1 + Z.of_nat m) by lia |]. split; [by eapply requested_taken |]. split; [done | lia].
  - exists 0%nat, q1. rewrite !Z.add_0_r, <- Hp. split; [by destruct e |]. split; [eapply requested_refused; [exact E | constructor] |]. split; [done |].
    intros Hat. by apply Hat in E.
Qed.

(** Entry [i] holds stream [e] of region [tag]. *)
Definition tracked (s : pref_stride_c) (i : nat) (tag : Z) (e : entry) : Prop :=
  stride_ok k shift s /\ index_table s !! i = Some e /\ exists r, region_table s !! i = Some r /\ r_valid r = true /\ r_tag r = tag.
Definition untracked (s : pref_stride_c) (tag : Z) : Prop := forall i r, region_table s !! i = Some r -> r_valid r = true -> r_tag r <> tag.

Lemma train_tracked s i tag e a q : tracked s i tag e -> STRIDE_REGION k (a_line_addr a) = tag ->
  train_one k id a s q = train_region k id (a_cycle a) (Z.of_nat i) (Z.shiftr (a_line_addr a) shift) (a_line_addr a) s q.
Proof.
  intros (Hs & He & r & Hr & Hv & Ht) Ha. unfold train_one, train. rewrite Ha, (so_shift _ _ _ Hs), bind_done. pose proof (so_regions _ _ _ Hs) as Hlen.
  destruct (find_region_spec k (a_tid a) tag (region_table s) (Z.to_nat (KNOB_PREF_STRIDE_TABLE_N k)) 0) as (idx & -> & Hidx); [lia | lia |]. rewrite bind_done.
  assert (Hm : region_match k (a_tid a) tag r = true). { unfold region_match. by rewrite Hthread, Hv, Ht, Z.eqb_refl. }
  destruct Hidx as [[-> Hn] | (Hi & r' & Hr' & Hm')]; [by rewrite (Hn i r ltac:(lia) Hr) in Hm |]. rewrite (proj2 (Z.eqb_neq idx (-1))) by lia.
  unfold region_match in Hm'. rewrite Hthread in Hm'. simpl in Hm'. apply andb_true_iff in Hm' as [Ht' Hv']. apply Z.eqb_eq in Ht'.
  replace idx with (Z.of_nat i); [done |]. rewrite (so_tags _ _ _ Hs Hthread i (Z.to_nat idx) r r' Hr Hr' Hv Hv') by congruence. lia.
Qed.
Lemma touched_tracked cyc s i tag e r e' : region_table s !! i = Some r -> r_valid r = true -> r_tag r = tag -> index_table s !! i = Some e ->
  stride_ok k shift (touched cyc i r e' s) -> tracked (touched cyc i r e' s) i tag e'.
Proof.
  intros Hr Hv Ht He Hok. split; [done |]. split; simpl; [by rewrite list_lookup_insert_eq by (by eapply lookup_lt_Some) |].
  eexists. rewrite list_lookup_insert_eq by (by eapply lookup_lt_Some). by split.
Qed.

Lemma follow_step s i tag e a q e1 q1 : tracked s i tag e -> STRIDE_REGION k (a_line_addr a) = tag -> queue_ok q -> trained e = true ->
  let x := Z.shiftr (a_line_addr a) shift in
  follow k id (s32 (x - last_index e)) (with_last_index x e) q = Done (e1, q1) ->
  exists s', train_one k id a s q = Done (s', q1) /\ tracked s' i tag e1.
Proof.
  intros Htr Ha Hq Ht x Hf. rewrite (train_tracked _ _ _ _ _ _ Htr Ha). fold x. destruct Htr as (Hs & He & r & Hr & Hv & Hrt).
  destruct (train_region_ok k id Hsingle shift (a_cycle a) i x (a_line_addr a) r e s q Hs Hq Hr He Hv) as (s' & q' & E & Hs' & _); [congruence |]. rewrite E.
  rewrite (train_region_eq k id shift (a_cycle a) i _ _ r e s q Hs Hr He) in E. cbv zeta in E. rewrite Ht in E. simpl negb in E. cbv iota in E.
  rewrite Hf, bind_done in E. injection E as <- <-. eexists. split; [done |]. by eapply touched_tracked.
Qed.
Lemma learn_step s i tag e a q e1 e3 : tracked s i tag e -> STRIDE_REGION k (a_line_addr a) = tag -> queue_ok q -> trained e = false ->
  let x := Z.shiftr (a_line_addr a) shift in
  learn k (s32 (x - last_index e)) (with_last_index x e) = Done (Some e1) -> conclude k e1 = Done e3 ->
  exists s', train_one k id a s q = Done (s', q) /\ tracked s' i tag e3.
Proof.
  intros Htr Ha Hq Ht x Hl Hc. rewrite (train_tracked _ _ _ _ _ _ Htr Ha). fold x. destruct Htr as (Hs & He & r & Hr & Hv & Hrt).
  destruct (train_region_ok k id Hsingle shift (a_cycle a) i x (a_line_addr a) r e s q Hs Hq Hr He Hv) as (s' & q' & E & Hs' & _); [congruence |]. rewrite E.
  rewrite (train_region_eq k id shift (a_cycle a) i _ _ r e s q Hs Hr He) in E. cbv zeta in E. rewrite Ht in E. simpl negb in E. cbv iota in E.
  rewrite Hl, bind_done in E. simpl mbind in E. rewrite (aget_lookup _ i e1) in E by (simpl; by rewrite list_lookup_insert_eq by (by eapply lookup_lt_Some)).
  rewrite bind_done, Hc, bind_done, touched_touched, decide_True in E by (try done; by eapply lookup_lt_Some). rewrite bind_done in E. injection E as <- <-.
  eexists. split; [done |]. by eapply touched_tracked.
Qed.
Lemma create_step s tag a q : stride_ok k shift s -> untracked s tag -> STRIDE_REGION k (a_line_addr a) = tag -> a_l2_hit a = false -> queue_ok q ->
  exists s' i e, train_one k id a s q = Done (s', q) /\ tracked s' i tag (new_index (Z.shiftr (a_line_addr a) shift) e).
Proof.
  intros Hs Hu Ha Hh Hq. unfold train_one, train. rewrite Ha, Hh, (so_shift _ _ _ Hs), bind_done. pose proof (so_regions _ _ _ Hs) as Hlen. pose proof (so_indices _ _ _ Hs) as Hlen'.
  destruct (find_region_spec k (a_tid a) tag (region_table s) (Z.to_nat (KNOB_PREF_STRIDE_TABLE_N k)) 0) as (idx & -> & Hidx); [lia | lia |]. rewrite bind_done.
  destruct Hidx as [[-> _] | (Hi & r & Hr & Hm)].
  2: { exfalso. unfold region_match in Hm. apply andb_true_iff in Hm as [Hm Hv]. apply andb_true_iff in Hm as [_ Hm]. apply Z.eqb_eq in Hm. by eapply (Hu _ r). }
  change (-1 =? -1) with true. cbv iota.
  destruct (unused_region_spec (region_table s) (Z.to_nat (KNOB_PREF_STRIDE_TABLE_N k)) 0 (-1)) as (f & -> & Hf & _); [lia | lia | lia | lia | by left |]. rewrite bind_done.
  destruct (create_newentry_ok k Hsingle shift (a_cycle a) (Z.to_nat f) (a_line_addr a) tag s Hs) as (s' & e & E & Hs' & He); [lia | |].
  { intros _ j r Hr Hv Ht. by destruct (Hu j r Hr Hv). }
  rewrite Z2Nat.id in E by lia. rewrite E, bind_done. exists s', (Z.to_nat f), e. split; [done |]. split; [done |]. split; [done |].
  unfold create_newentry in E. step E as r Er. step E as t Et. step E as e' Ee. step E as sh Esh. step E as x' Ex. apply done_val in E as ->.
  apply aset_done in Et as [_ ->]. simpl. eexists. rewrite list_lookup_insert_eq by lia. by split.
Qed.

(** ** Learning a constant stride *)

Definition is_s32 (z : Z) : Prop := - 2 ^ 31 <= z < 2 ^ 31.
Lemma s32_small z : is_s32 z -> s32 z = z.
Proof. intros H. unfold is_s32 in H. unfold s32. rewrite Z.mod_small; lia. Qed.

Definition learning_at (x d j : Z) (e : entry) : Prop :=
  trained e = false /\ train_count_mode e = false /\ num_states e = 1 /\ curr_state e = 0 /\ last_index e = x + d * j /\
  stride e = [if j =? 0 then 0 else d; 0] /\ s_cnt e = [j; 0] /\ recnt e = 0.
Definition following (x d n p : Z) (e : entry) : Prop :=
  trained e = true /\ num_states e = 1 /\ last_index e = x + d * n /\ (exists b, stride e = [d; b]) /\ pref_last_index e = u64 (x + d * p).

Lemma learn_at x d j e : d <> 0 -> 0 <= j -> learning_at x d j e ->
  exists e1, learn k d (with_last_index (x + d * (j + 1)) e) = Done (Some e1) /\ learning_at x d (j + 1) e1.
Proof.
  intros Hd Hj (H1 & H2 & H3 & H4 & H5 & H6 & H7 & H8). unfold learn. simpl. rewrite H2, H4, H6, H7. simpl.
  destruct (Z.eqb_spec j 0) as [-> | Hn]; simpl.
  - eexists. split; [done |]. by split_and!.
  - rewrite (proj2 (Z.eqb_neq d 0)), Z.eqb_refl by done. simpl. eexists. split; [done |]. split_and!; simpl; try done. by rewrite (proj2 (Z.eqb_neq (j + 1) 0)) by lia.
Qed.
Lemma conclude_at x d j e : 1 <= j -> is_s32 (d * D) -> learning_at x d j e ->
  exists e', conclude k e = Done e' /\ (if j <? T then e' = e else following x d j (j + D) e').
Proof.
  intros Hj HD Hl. pose proof Hl as (H1 & H2 & H3 & H4 & H5 & H6 & H7 & H8). unfold conclude. rewrite H4, H7. change (aget [j; 0] 0) with (Done j : outcome Z).
  rewrite bind_done. destruct (Z.ltb_spec j T).
  - rewrite (proj2 (Z.leb_gt T j)) by lia. rewrite bind_done, H8, (proj2 (Z.leb_gt _ 0)) by lia. by exists e.
  - rewrite (proj2 (Z.leb_le T j)) by lia. rewrite H6, (proj2 (Z.eqb_neq j 0)) by lia. change (aget [d; 0] 0) with (Done d : outcome Z). rewrite bind_done.
    rewrite bind_done. simpl recnt. rewrite H8, (proj2 (Z.leb_gt _ 0)) by lia. eexists. split; [done |]. split; [done |]. split; [done |].
    split; [done |]. split; [by exists 0 |]. simpl. rewrite H5, s32_small by done. f_equal. lia.
Qed.

Lemma follow_single d b e q : num_states e = 1 -> stride e = [d; b] ->
  follow k id d e q = send_single k id (Z.to_nat (KNOB_PREF_STRIDE_DEGREE k))
    (with_pref (pref_count e) (pref_curr_state e) (pref_last_index e) (if pref_sent e =? 0 then 0 else pref_sent e - 1) e) q.
Proof.
  intros H1 H2. unfold follow. change (stride (with_pref _ _ _ _ e)) with (stride e). rewrite H2. change (aget [d; b] 0) with (Done d : outcome Z). rewrite bind_done.
  change (num_states (with_pref _ _ _ _ e)) with (num_states e). by rewrite H1, !Z.eqb_refl.
Qed.

(** ** A run over a stream *)

(** Accesses [0] to [N] fall in region [tag], on the lines [x], [x + d], [x + 2 d], ... *)
Definition stream (N : nat) (a : nat -> access) (x d tag : Z) : Prop :=
  forall j, (j <= N)%nat -> Z.shiftr (a_line_addr (a j)) shift = x + d * Z.of_nat j /\ STRIDE_REGION k (a_line_addr (a j)) = tag.
Lemma train_run_app l l' s q : train_run k id (l ++ l') s q = ('(s1, q1) ← train_run k id l s q; train_run k id l' s1 q1).
Proof. revert s q. induction l as [| a l IH]; intros s q; [done |]. simpl. destruct (train_one k id a s q) as [[s1 q1] |]; [apply IH | done]. Qed.
Lemma train_run_snoc (a : nat -> access) n s q :
  train_run k id (a <$> seq 0 (S n)) s q = ('(s1, q1) ← train_run k id (a <$> seq 0 n) s q; train_one k id (a n) s1 q1).
Proof.
  rewrite seq_S, fmap_app, train_run_app. destruct (train_run k id (a <$> seq 0 n) s q) as [[s1 q1] |]; rewrite ?bind_done; [| done].
  simpl. destruct (train_one k id (a n) s1 q1) as [[s2 q2] |]; done.
Qed.

Lemma run_learning N a x d tag s q n : stream N a x d tag -> (n <= N)%nat -> d <> 0 -> is_s32 d -> is_s32 (d * D) -> stride_ok k shift s -> untracked s tag -> a_l2_hit (a 0%nat) = false -> queue_ok q ->
  Z.of_nat n < T -> exists s' i e, train_run k id (a <$> seq 0 (S n)) s q = Done (s', q) /\ tracked s' i tag e /\ learning_at x d (Z.of_nat n) e.
Proof.
  intros Ha HN Hd Hd32 HD Hs Hu Hh Hq. induction n as [| n IH]; intros Hn.
  - destruct (Ha 0%nat) as [Hx Ht]; [lia |]. destruct (create_step s tag (a 0%nat) q Hs Hu Ht Hh Hq) as (s' & i & e & E & Htr). exists s', i, (new_index (Z.shiftr (a_line_addr (a 0%nat)) shift) e).
    split; [simpl; by rewrite E |]. split; [done |]. split_and!; simpl; try done.
  - destruct IH as (s1 & i & e & E & Htr & Hl); [lia | lia |]. destruct (Ha (S n)) as [Hx Ht]; [lia |]. rewrite train_run_snoc, E, bind_done.
    destruct (learn_at x d (Z.of_nat n) e Hd) as (e1 & El & Hl1); [lia | done |]. destruct (conclude_at x d (Z.of_nat n + 1) e1) as (e3 & Ec & H3); [lia | done | done |].
    rewrite (proj2 (Z.ltb_lt _ T)) in H3 by lia. subst e3. replace (Z.of_nat n + 1) with (Z.of_nat (S n)) in * by lia.
    destruct (learn_step s1 i tag e (a (S n)) q e1 e1 Htr Ht Hq) as (s2 & E2 & Htr2); [apply Hl | | exact Ec |].
    { rewrite Hx. destruct Hl as (_ & _ & _ & _ & -> & _). replace (_ - _) with d by lia. by rewrite s32_small. }
    exists s2, i, e1. by split_and!.
Qed.

Lemma run_following N a x d tag s q n : stream N a x d tag -> (Z.to_nat T + n <= N)%nat -> d <> 0 -> is_s32 d -> is_s32 (d * D) -> stride_ok k shift s -> untracked s tag -> a_l2_hit (a 0%nat) = false -> queue_ok q ->
  1 <= KNOB_PREF_STRIDE_DEGREE k -> 1 <= KNOB_PREF_STRIDE_DISTANCE k ->
  exists s' q' i e m, train_run k id (a <$> seq 0 (S (Z.to_nat T + n))) s q = Done (s', q') /\ tracked s' i tag e /\ queue_ok q' /\
    following x d (T + Z.of_nat n) (T + D + Z.of_nat m) e /\ requested id q (lines x d (T + D) m) q' /\ (always_takes -> (n <= m)%nat).
Proof.
  intros Ha HN Hd Hd32 HD Hs Hu Hh Hq Hdeg Hdist. induction n as [| n IH].
  - destruct (run_learning N a x d tag s q (Z.to_nat T - 1) Ha ltac:(lia) Hd Hd32 HD Hs Hu Hh Hq) as (s1 & i & e & E & Htr & Hl); [lia |].
    replace (S (Z.to_nat T - 1)) with (Z.to_nat T) in E by lia. replace (Z.to_nat T + 0)%nat with (Z.to_nat T) by lia. rewrite train_run_snoc, E, bind_done.
    destruct (Ha (Z.to_nat T)) as [Hx Ht]; [lia |]. destruct (learn_at x d (Z.of_nat (Z.to_nat T - 1)) e Hd ltac:(lia) Hl) as (e1 & El & Hl1). replace (Z.of_nat (Z.to_nat T - 1)) with (T - 1) in * by lia. rewrite Z.sub_add in El, Hl1.
    destruct (conclude_at x d T e1) as (e3 & Ec & H3); [lia | done | done |]. rewrite (proj2 (Z.ltb_ge T T)) in H3 by lia.
    destruct (learn_step s1 i tag e (a (Z.to_nat T)) q e1 e3 Htr Ht Hq) as (s2 & E2 & Htr2); [apply Hl | | exact Ec |].
    { rewrite Hx, Z2Nat.id by lia. destruct Hl as (_ & _ & _ & _ & -> & _). replace (x + d * T - _) with d by ring. by rewrite s32_small. }
    exists s2, q, i, e3, 0%nat. rewrite !Z.add_0_r. split_and!; try done. constructor.
  - destruct IH as (s1 & q1 & i & e & m & E & Htr & Hq1 & (F1 & F2 & F3 & (b & F4) & F5) & Hr & Hm); [lia |]. replace (Z.to_nat T + S n)%nat with (S (Z.to_nat T + n)) by lia.
    rewrite train_run_snoc, E, bind_done. destruct (Ha (S (Z.to_nat T + n))) as [Hx Ht]; [lia |].
    set (e0 := with_pref (pref_count e) (pref_curr_state e) (pref_last_index e) (if pref_sent e =? 0 then 0 else pref_sent e - 1) (with_last_index (x + d * Z.of_nat (S (Z.to_nat T + n))) e)).
    destruct (send_single_stream x d b (Z.to_nat (KNOB_PREF_STRIDE_DEGREE k)) (T + D + Z.of_nat m) e0 q1 F4 F5 Hq1) as (m' & q2 & E2 & Hr2 & Hq2 & Hm2).
    edestruct (follow_step s1 i tag e (a (S (Z.to_nat T + n))) q1) as (s2 & E3 & Htr2); [exact Htr | exact Ht | exact Hq1 | exact F1 | |].
    { rewrite Hx, F3. assert (Hstr : x + d * Z.of_nat (S (Z.to_nat T + n)) - (x + d * (T + Z.of_nat n)) = d) by (rewrite Nat2Z.inj_succ, Nat2Z.inj_add, Z2Nat.id by lia; ring).
      rewrite Hstr, s32_small by done. rewrite (follow_single d b) by done. exact E2. }
    exists s2, q2, i. eexists. exists (m + m')%nat. split; [exact E3 |]. split; [exact Htr2 |]. split; [exact Hq2 |]. split.
    { split; [exact F1 |]. split; [exact F2 |]. split; [simpl; f_equal; lia |]. split; [by exists b |]. simpl. f_equal. f_equal. lia. }
    split; [rewrite lines_app; by eapply requested_app |]. intros Hat. specialize (Hm Hat). specialize (Hm2 Hat ltac:(lia)).
    assert (1 <= m')%nat; [| lia]. apply Hm2. simpl. destruct Htr as (Hs1 & He & r & Hr1 & Hv & _). pose proof (sh_sent _ _ (proj1 (so_entry _ _ _ Hs1 _ _ _ Hr1 Hv He))).
    destruct (Z.eqb_spec (pref_sent e) 0); lia.
Qed.
End STREAM.

(** ** Properties *)

Section PROPERTIES.
Context (k : stride_knobs) (id : Z).
Context {Q : Type} `{!PrefQueue Q} {queue_ok : Q -> Prop} `{!PrefQueueOk Q id queue_ok}.

(** C40: the tables are well formed in every state training can reach, provided the
    uninitialised member [core_id] of the prefetcher happens to name a core (training
    takes the line size from that core's cache; outside the cores the access leaves
    the array of caches). Then, whatever the rest of the uninitialised memory holds
    and whatever accesses are trained, no access leaves an array (although the
    position of a stream is uninitialised until two strides are known) and every
    tracked region has states, counters and outstanding prefetches in range; with
    KNOB_PREF_THREAD_INDEX off no region is tracked twice. When [core_id] names no
    core the first access that is trained faults. *)
Theorem stride_runs_safe l member junk_r junk_i (q : Q) :
  1 <= KNOB_PREF_STRIDE_SINGLE_THRESH k -> 0 < KNOB_PREF_STRIDE_TABLE_N k ->
  Z.of_nat (length junk_r) = KNOB_PREF_STRIDE_TABLE_N k -> Z.of_nat (length junk_i) = KNOB_PREF_STRIDE_TABLE_N k -> queue_ok q ->
  if decide (0 <= member < Z.of_nat (length (m_l1_line_size k))) then
    exists shift s' q', LOG2_DCACHE_LINE_SIZE k member = Done shift /\
      train_run k id l (init_func member junk_r junk_i) q = Done (s', q') /\ stride_ok k shift s' /\ queue_ok q'
  else l <> [] -> train_run k id l (init_func member junk_r junk_i) q = Fault OutOfBounds.
Proof.
  intros H1 H2 H3 H4 Hq. case_decide as Hm.
  - destruct (aget_in_range (m_l1_line_size k) member Hm) as (z & _ & Ez).
    assert (Hs : LOG2_DCACHE_LINE_SIZE k member = Done (Bits.log2_int z)) by (unfold LOG2_DCACHE_LINE_SIZE; by rewrite Ez).
    destruct (train_run_ok k id H1 H2 (Bits.log2_int z) l (init_func member junk_r junk_i) q) as (s' & q' & E); [by apply init_func_ok | done |].
    by exists (Bits.log2_int z), s', q'.
  - intros Hl. destruct l as [| a l]; [done |]. simpl. unfold train_one, train, LOG2_DCACHE_LINE_SIZE. cbn [pref_core_id init_func].
    assert (E : aget (m_l1_line_size k) member = Fault OutOfBounds); [| by rewrite E]. unfold aget. destruct (Z.leb_spec 0 member); [| done].
    rewrite lookup_ge_None_2; [done | lia].
Qed.

(** C28: With KNOB_PREF_THREAD_INDEX off and degree and distance at least
    one, a stream of constant stride is learnt and, from a point on,
    covered. After the threshold T of accesses [x], [x + d], ... in a region
    that was not tracked, the queue has been asked for exactly the lines of
    the stream from number T + D + 1 on, D being the start distance, in
    order and without gap or repetition; the D lines right after learning
    are never requested. When the queue takes every request, n further
    accesses have requested at least the first n of these lines; so with a
    start distance of at least one each of them is requested before it is
    accessed. Lines are counted in the line size of the core the prefetcher
    takes itself for. *)
Theorem stride_stream_covered shift (a : nat -> access) x d tag s (q : Q) n :
  let T := KNOB_PREF_STRIDE_SINGLE_THRESH k in
  let D := KNOB_PREF_STRIDE_STARTDISTANCE k in
  1 <= T -> 1 <= KNOB_PREF_STRIDE_MULTI_THRESH k -> 0 < KNOB_PREF_STRIDE_TABLE_N k -> KNOB_PREF_THREAD_INDEX k = false ->
  1 <= KNOB_PREF_STRIDE_DEGREE k -> 1 <= KNOB_PREF_STRIDE_DISTANCE k ->
  d <> 0 -> is_s32 d -> is_s32 (d * D) -> stream k shift (Z.to_nat T + n) a x d tag -> a_l2_hit (a 0%nat) = false ->
  stride_ok k shift s -> untracked s tag -> queue_ok q ->
  exists s' q' m, train_run k id (a <$> seq 0 (S (Z.to_nat T + n))) s q = Done (s', q') /\ stride_ok k shift s' /\
    requested id q (lines x d (T + D) m) q' /\
    (always_takes (Q := Q) id -> forall j, T + D < j <= T + D + Z.of_nat n -> u64 (x + d * j) ∈ lines x d (T + D) m).
Proof.
  intros T D HT HM HN Hth Hdeg Hdist Hd Hd32 HD Ha Hh Hs Hu Hq.
  destruct (run_following k id HT HM shift HN Hth (Z.to_nat T + n) a x d tag s q n Ha ltac:(lia) Hd Hd32 HD Hs Hu Hh Hq Hdeg Hdist)
    as (s' & q' & i & e & m & E & (Hs' & _) & _ & _ & Hr & Hm).
  exists s', q', m. split; [exact E |]. split; [done |]. split; [done |]. intros Hat j Hj. apply lines_elem. specialize (Hm Hat). lia.
Qed.
End PROPERTIES.

(** ** An example *)

(** A queue that records every request. *)
Module StrideExample.
#[export] Instance recorder : PrefQueue (list Z) := { pref_addto_l2req_queue i id q := mret (q ++ [i], true) }.
#[export] Instance recorder_ok id : PrefQueueOk (list Z) id (fun _ => True).
Proof. intros i q _. by eexists _, _. Qed.
Definition k : stride_knobs := mk_stride_knobs 2 false 16 2 4 1 3 6 false [64; 64].
(** What [new] leaves in the tables. *)
Definition junk_r : list stride_region_table_entry_s := replicate 2 (mk_region 7 1 true 0).
Definition junk_i : list stride_index_table_entry_s := replicate 2 (mk_index true true 9 9 0 [5; 5] [5; 5] [5; 5] 9 9 9 9 9 9).
Definition s0 : pref_stride_c := init_func 1 junk_r junk_i.
(** Every second line of a region. *)
Definition a (j : nat) : access := mk_access (10 + Z.of_nat j) 0 (65536 + 128 * Z.of_nat j) false.
Lemma a_stream : stream k 6 5 a 1024 2 1.
Proof. intros j Hj. do 6 (destruct j as [| j]; [by vm_compute |]). lia. Qed.
End StrideExample.
#[local] Existing Instance StrideExample.recorder.
#[local] Existing Instance StrideExample.recorder_ok.

Lemma stride_runs_safe_witness : exists s' (q' : list Z),
  train_run StrideExample.k 0 (StrideExample.a <$> seq 0 6) (init_func 1 StrideExample.junk_r StrideExample.junk_i) [] = Done (s', q') /\
  stride_ok StrideExample.k 6 s' /\ q' = [1034; 1036; 1038; 1040].
Proof.
  pose proof (stride_runs_safe StrideExample.k 0 (StrideExample.a <$> seq 0 6) 1 StrideExample.junk_r StrideExample.junk_i ([] : list Z)) as H.
  destruct (decide _) as [_ | Hn]; [| exfalso; apply Hn; vm_compute; split; [discriminate | reflexivity]].
  destruct H as (shift & s' & q' & Hsh & E & Hs & _); [vm_compute; discriminate | reflexivity | reflexivity | reflexivity | exact I |].
  injection Hsh as <-. exists s', q'. split; [exact E |]. split; [exact Hs |]. vm_compute in E. injection E as _ <-. reflexivity.
Defined.

Lemma stride_stream_covered_witness : exists s' (q' : list Z) m,
  train_run StrideExample.k 0 (StrideExample.a <$> seq 0 6) StrideExample.s0 [] = Done (s', q') /\ requested 0 [] (lines 1024 2 4 m) q' /\ 1036 ∈ lines 1024 2 4 m.
Proof.
  destruct (stride_stream_covered StrideExample.k 0 6 StrideExample.a 1024 2 1 StrideExample.s0 ([] : list Z) 2) as (s' & q' & m & E & _ & Hr & Hc).
  - vm_compute. discriminate.
  - vm_compute. discriminate.
  - reflexivity.
  - reflexivity.
  - vm_compute. discriminate.
  - vm_compute. discriminate.
  - discriminate.
  - vm_compute. split; [discriminate | reflexivity].
  - vm_compute. split; [discriminate | reflexivity].
  - exact StrideExample.a_stream.
  - reflexivity.
  - apply init_func_ok; reflexivity.
  - intros i r Hr Hv. apply list_lookup_fmap_Some in Hr as (r' & -> & _). discriminate Hv.
  - exact I.
  - exists s', q', m. split; [exact E |]. split; [exact Hr |]. apply (Hc ltac:(intros i q1 q2 b [= _ <-]; reflexivity) 6). vm_compute. split; [reflexivity | discriminate].
Defined.
