(* ===== verification/Prefetch.v ===== *)
(** * The prefetch framework (pref_common.cc, pref_common.h, pref.cc, pref_factory.cc)

    The framework of one core passes cache events on to its prefetchers, keeps their
    requests in two circular queues and sends them to the memory system, which
    answers through the class [PrefMemory]. The options that compute with floating
    point (update interval, hybrid selection, accuracy study) are taken to be off. *)

From S2P Require Import Prelude.
From S2P Require Import Utils.
From S2P Require Import Stride.

Record pref_mem_req_s := mk_pref_req {
  line_addr : Z;
  line_index : Z;
  loadPC : Z;
  prefetcher_id : Z;
  valid : bool;
  req_core_id : Z;
  thread_id : Z
}.

Record pref_region_line_status_s := mk_status {
  l2_hit : bool;
  l2_miss : bool;
  status_pref_sent : Z;
  l2_evict : bool;
  cycle_evict : Z;
  evict_onPF : bool
}.
Record pref_region_info_s := mk_region_info {
  region_id : Z;
  last_access : Z;
  region_valid : bool;
  region_trained : bool;
  status : list pref_region_line_status_s
}.

(** The memory system as the framework sees it. *)
Class PrefMemory (M : Type) := {
  bank_id : Z -> Z -> M -> Z;
  get_read_port : Z -> Z -> M -> outcome (M * bool);
  access_cache : Z -> Z -> M -> outcome (M * bool);
  (** [new_mem_req] for a prefetch *)
  new_mem_req : pref_mem_req_s -> M -> outcome (M * bool)
}.

(** The knobs, and the member [m_shift_bit] the constructor sets for good. *)
Record pref_knobs := mk_pref_knobs {
  pk_stride : stride_knobs;
  m_shift_bit : Z;
  KNOB_PREF_FRAMEWORK_ON : bool;
  KNOB_PREF_DL0REQ_QUEUE_SIZE : Z;
  KNOB_PREF_UL1REQ_QUEUE_SIZE : Z;
  KNOB_PREF_DL0_MISS_ON : bool;
  KNOB_PREF_DL0_HIT_ON : bool;
  KNOB_PREF_DL0REQ_QUEUE_FILTER_ON : bool;
  KNOB_PREF_UL1REQ_QUEUE_FILTER_ON : bool;
  KNOB_PREF_DL0REQ_ADD_FILTER_ON : bool;
  KNOB_PREF_UL1REQ_ADD_FILTER_ON : bool;
  KNOB_PREF_DL0REQ_QUEUE_OVERWRITE_ON_FULL : bool;
  KNOB_PREF_UL1REQ_QUEUE_OVERWRITE_ON_FULL : bool;
  KNOB_PREF_DL0SCHEDULE_NUM : Z;
  KNOB_PREF_UL1SCHEDULE_NUM : Z;
  KNOB_PREF_REGION_ON : bool;
  KNOB_PREF_USEREGION_TOCALC_ACC : bool;
  KNOB_PREF_NUMTRACKING_REGIONS : Z;
  LOG2_PREF_REGION_SIZE : Z;
  KNOB_PREF_POLBV_ON : bool;
  KNOB_LOG2_PREF_POLBV_SIZE : Z;
  KNOB_PREF_TRAIN_INST_ONCE : bool;
  KNOB_PREF_DHAL : bool;
  KNOB_PREF_DHAL_SENTTHRESH : Z;
  KNOB_PREF_DHAL_USETHRESH_MAX : Z;
  KNOB_PREF_DHAL_USETHRESH_MIN2 : Z;
  KNOB_PREF_DHAL_USETHRESH_MIN1 : Z;
  KNOB_PREF_DHAL_MAXDEG : Z
}.

(** A prefetcher of the table: its counters, the events it listens to, its tables. *)
Record pref_info_s := mk_info { id : Z; enabled : bool; curr_useful : Z; curr_sent : Z; curr_late : Z; dyn_degree : Z }.
Record pref_base_c := mk_pref {
  hwp_info : pref_info_s;
  on_l1_miss : bool;
  on_l1_hit : bool;
  on_l2_miss : bool;
  on_l2_hit : bool;
  tables : pref_stride_c
}.

Record counters := mk_counters {
  m_overall_l1useful : Z;
  m_overall_l1sent : Z;
  m_overall_l2useful : Z;
  m_overall_l2sent : Z;
  m_num_uselesspref_evict : Z;
  m_num_l2_evicts : Z;
  m_curr_l2_misses : Z;
  m_curr_pfpol : Z
}.
(** The framework without its prefetchers. *)
Record hwp_queues := mk_queues {
  core_id : Z;
  m_l1req_queue : list pref_mem_req_s;
  m_l1req_queue_req_pos : Z;
  m_l1req_queue_send_pos : Z;
  m_l2req_queue : list pref_mem_req_s;
  m_l2req_queue_req_pos : Z;
  m_l2req_queue_send_pos : Z;
  region_info : list pref_region_info_s;
  m_polbv_info : list Z;
  m_last_inst_num : gmap Z Z;
  counts : counters
}.
Record hwp_common_c := mk_hwp { pref_table : list pref_base_c; hq : hwp_queues }.

Definition with_l1 (l : list pref_mem_req_s) (rq sd : Z) (h : hwp_queues) : hwp_queues :=
  mk_queues (core_id h) l rq sd (m_l2req_queue h) (m_l2req_queue_req_pos h) (m_l2req_queue_send_pos h) (region_info h) (m_polbv_info h) (m_last_inst_num h) (counts h).
Definition with_l2 (l : list pref_mem_req_s) (rq sd : Z) (h : hwp_queues) : hwp_queues :=
  mk_queues (core_id h) (m_l1req_queue h) (m_l1req_queue_req_pos h) (m_l1req_queue_send_pos h) l rq sd (region_info h) (m_polbv_info h) (m_last_inst_num h) (counts h).
Definition with_pollution (ri : list pref_region_info_s) (bv : list Z) (c : counters) (h : hwp_queues) : hwp_queues :=
  mk_queues (core_id h) (m_l1req_queue h) (m_l1req_queue_req_pos h) (m_l1req_queue_send_pos h) (m_l2req_queue h) (m_l2req_queue_req_pos h) (m_l2req_queue_send_pos h)
    ri bv (m_last_inst_num h) c.
Definition with_counts (c : counters) (h : hwp_queues) : hwp_queues := with_pollution (region_info h) (m_polbv_info h) c h.
Definition with_insts (m : gmap Z Z) (h : hwp_queues) : hwp_queues :=
  mk_queues (core_id h) (m_l1req_queue h) (m_l1req_queue_req_pos h) (m_l1req_queue_send_pos h) (m_l2req_queue h) (m_l2req_queue_req_pos h) (m_l2req_queue_send_pos h)
    (region_info h) (m_polbv_info h) m (counts h).
Definition invalid (r : pref_mem_req_s) : pref_mem_req_s :=
  mk_pref_req (line_addr r) (line_index r) (loadPC r) (prefetcher_id r) false (req_core_id r) (thread_id r).

Section FRAMEWORK.
Context (k : pref_knobs) (now : Z).

(** ** Construction *)

(** The constructor for core [cid]: its [m_shift_bit] is that of the core's cache. *)
Definition hwp_common_new (cid : Z) : Prop := LOG2_DCACHE_LINE_SIZE (pk_stride k) cid = Done (m_shift_bit k).

(** [pref_init]: the arrays come from [new], which initialises [valid] only. *)
Definition pref_init (cid : Z) (l1 l2 : list pref_mem_req_s) (ri : list pref_region_info_s) (bv : list Z) (junk : Z) : hwp_queues :=
  mk_queues cid (invalid <$> l1) (-1) 0 (invalid <$> l2) (-1) 0
    ((fun r => mk_region_info (region_id r) 0 false false (status r)) <$> ri) bv ∅ (mk_counters 0 0 0 0 0 0 0 (if KNOB_PREF_REGION_ON k then 0 else junk)).
(** [pref_factory] makes one stride prefetcher per core; the id is drawn from a
    counter of the whole program. *)
Definition pref_factory (next_id : Z) (on : bool) (t : pref_stride_c) : list pref_base_c :=
  [mk_pref (mk_info (u8 next_id) on 0 0 0 2) true true true false t].

(** ** Pollution and regions *)

Definition no_status : pref_region_line_status_s := mk_status false false 0 false 0 false.
(** The entry to replace is the last unused one, or the least recently used. *)
Fixpoint match_loop (n : nat) (ii idx reg_id : Z) (t : list pref_region_info_s) : outcome (bool * Z) :=
  match n with
  | O => mret (false, idx)
  | S n' =>
      r ← aget t ii;
      if region_valid r && (region_id r =? reg_id) then mret (true, ii) else
      take ← (if (idx =? -1) || negb (region_valid r) then mret true else
              b ← aget t idx; mret (region_valid b && (last_access r <? last_access b)));
      match_loop n' (ii + 1) (if take : bool then ii else idx) reg_id t
  end.
Definition pref_matchregion (reg_id : Z) (onPF : bool) (h : hwp_queues) : outcome (hwp_queues * Z) :=
  '(found, idx) ← match_loop (Z.to_nat (KNOB_PREF_NUMTRACKING_REGIONS k)) 0 (-1) reg_id (region_info h);
  if found : bool then mret (h, idx) else
  r ← aget (region_info h) idx;
  if onPF || negb (region_valid r) then
    t ← aset (region_info h) idx (mk_region_info reg_id (last_access r) true false ((fun _ => no_status) <$> status r));
    mret (with_pollution t (m_polbv_info h) (counts h) h, idx)
  else mret (h, -1).

Definition count_pfpol (h : hwp_queues) : counters :=
  let c := counts h in
  mk_counters (m_overall_l1useful c) (m_overall_l1sent c) (m_overall_l2useful c) (m_overall_l2sent c) (m_num_uselesspref_evict c) (m_num_l2_evicts c)
    (m_curr_l2_misses c) (u64 (m_curr_pfpol c + 1)).
Definition pref_update_regioninfo (addr : Z) (hit miss onPF : bool) (evict_at pid : Z) (h : hwp_queues) : outcome hwp_queues :=
  let region_linenum := Z.land (Z.shiftr addr (m_shift_bit k)) (N_BIT_MASK (LOG2_PREF_REGION_SIZE k)) in
  '(h1, idx) ← pref_matchregion (Z.shiftr addr (LOG2_PREF_REGION_SIZE k + (m_shift_bit k))) onPF h;
  if idx =? -1 then mret h1 else
  r ← aget (region_info h1) idx;
  st ← aget (status r) region_linenum;
  let polluted := (hit || miss) && evict_onPF st in
  let h2 := if polluted then with_counts (count_pfpol h1) h1 else h1 in
  let st1 := mk_status (l2_hit st || hit) (l2_miss st || miss) (status_pref_sent st) (l2_evict st || negb (evict_at =? 0))
               (if evict_at =? 0 then cycle_evict st else evict_at) ((evict_onPF st && negb polluted) || onPF) in
  _ ← ASSERT (pid <? 16);
  let st2 := if pid =? 0 then st1
             else mk_status false false (if l2_hit st1 || l2_miss st1 then 0 else status_pref_sent st1) false (cycle_evict st1) false in
  s ← aset (status r) region_linenum st2;
  t ← aset (region_info h2) idx (mk_region_info (region_id r) now (region_valid r) (region_trained r) s);
  mret (with_pollution t (m_polbv_info h2) (counts h2) h2).

(** The mask is the logarithm of the size. *)
Definition pref_polbv_access (lineIndex : Z) : Z :=
  u32 (Z.land (Z.lxor (Z.shiftr lineIndex (KNOB_LOG2_PREF_POLBV_SIZE k)) lineIndex) (KNOB_LOG2_PREF_POLBV_SIZE k)).
Definition set_polbv (lineIndex b : Z) (h : hwp_queues) : outcome hwp_queues :=
  v ← aset (m_polbv_info h) (pref_polbv_access lineIndex) b;
  mret (with_pollution (region_info h) v (counts h) h).

(** ** Queues *)

Fixpoint filter_loop (n : nat) (ii line : Z) (q : list pref_mem_req_s) : outcome (list pref_mem_req_s * bool) :=
  match n with
  | O => mret (q, false)
  | S n' =>
      r ← aget q ii;
      if valid r && (Z.shiftr (line_addr r) (m_shift_bit k) =? line) then q1 ← aset q ii (invalid r); mret (q1, true)
      else filter_loop n' (ii + 1) line q
  end.
Definition pref_l1req_queue_filter (addr : Z) (h : hwp_queues) : outcome (hwp_queues * bool) :=
  if negb (KNOB_PREF_DL0REQ_QUEUE_FILTER_ON k) then mret (h, false) else
  '(q, b) ← filter_loop (Z.to_nat (KNOB_PREF_DL0REQ_QUEUE_SIZE k)) 0 (Z.shiftr addr (m_shift_bit k)) (m_l1req_queue h);
  mret (with_l1 q (m_l1req_queue_req_pos h) (m_l1req_queue_send_pos h) h, b).
Definition pref_l2req_queue_filter (addr : Z) (h : hwp_queues) : outcome (hwp_queues * bool) :=
  if negb (KNOB_PREF_UL1REQ_QUEUE_FILTER_ON k) then mret (h, false) else
  '(q, b) ← filter_loop (Z.to_nat (KNOB_PREF_UL1REQ_QUEUE_SIZE k)) 0 (Z.shiftr addr (m_shift_bit k)) (m_l2req_queue h);
  mret (with_l2 q (m_l2req_queue_req_pos h) (m_l2req_queue_send_pos h) h, b).

(** A request for this line is anywhere in the queue, sent or not. *)
Fixpoint queue_has (n : nat) (ii line : Z) (q : list pref_mem_req_s) : outcome bool :=
  match n with
  | O => mret false
  | S n' => r ← aget q ii; if line_index r =? line then mret true else queue_has n' (ii + 1) line q
  end.

(** The common end of the two insertions: [None] when the queue is full. *)
Definition enqueue (size : Z) (overwrite : bool) (r : pref_mem_req_s) (q : list pref_mem_req_s) (req_pos : Z) : outcome (option (list pref_mem_req_s * Z)) :=
  let pos := (req_pos + 1) mod size in
  b ← aget q pos;
  if valid b && negb overwrite then mret None else
  q1 ← aset q pos r;
  mret (Some (q1, pos)).

(** The fields the L1 queue does not set are those of the local variable. *)
Definition pref_addto_l1req_queue (junk : pref_mem_req_s) (line pid : Z) (h : hwp_queues) : outcome (hwp_queues * bool) :=
  if line =? 0 then mret (h, true) else
  known ← (if KNOB_PREF_DL0REQ_ADD_FILTER_ON k then queue_has (Z.to_nat (KNOB_PREF_DL0REQ_QUEUE_SIZE k)) 0 line (m_l1req_queue h) else mret false);
  if known : bool then mret (h, true) else
  o ← enqueue (KNOB_PREF_DL0REQ_QUEUE_SIZE k) (KNOB_PREF_DL0REQ_QUEUE_OVERWRITE_ON_FULL k)
        (mk_pref_req (shl64 line (m_shift_bit k)) line (loadPC junk) pid true (req_core_id junk) (thread_id junk)) (m_l1req_queue h) (m_l1req_queue_req_pos h);
  match o with
  | None => mret (h, false)
  | Some (q, pos) => mret (with_l1 q pos (m_l1req_queue_send_pos h) h, true)
  end.

Definition pref_addto_l2req_queue_set (line pid pc tid : Z) (h : hwp_queues) : outcome (hwp_queues * bool) :=
  if line =? 0 then mret (h, true) else
  let addr := shl64 line (m_shift_bit k) in
  h1 ← (if KNOB_PREF_POLBV_ON k then set_polbv line 0 h else mret h);
  h2 ← (if KNOB_PREF_REGION_ON k then pref_update_regioninfo addr false false false 0 pid h1 else mret h1);
  known ← (if KNOB_PREF_UL1REQ_ADD_FILTER_ON k then queue_has (Z.to_nat (KNOB_PREF_UL1REQ_QUEUE_SIZE k)) 0 line (m_l2req_queue h2) else mret false);
  if known : bool then mret (h2, true) else
  o ← enqueue (KNOB_PREF_UL1REQ_QUEUE_SIZE k) (KNOB_PREF_UL1REQ_QUEUE_OVERWRITE_ON_FULL k)
        (mk_pref_req addr line pc pid true (core_id h2) tid) (m_l2req_queue h2) (m_l2req_queue_req_pos h2);
  match o with
  | None => mret (h2, false)
  | Some (q, pos) => mret (with_l2 q pos (m_l2req_queue_send_pos h2) h2, true)
  end.
Definition addto_l2 (line pid : Z) (h : hwp_queues) : outcome (hwp_queues * bool) := pref_addto_l2req_queue_set line pid 0 0 h.
#[export] Instance framework_queue : PrefQueue hwp_queues := { pref_addto_l2req_queue := addto_l2 }.

(** ** Sending *)

Section SEND.
Context {M : Type} `{!PrefMemory M}.

Definition count_l1sent (h : hwp_queues) : hwp_queues :=
  let c := counts h in
  with_counts (mk_counters (m_overall_l1useful c) (u64 (m_overall_l1sent c + 1)) (m_overall_l2useful c) (m_overall_l2sent c) (m_num_uselesspref_evict c) (m_num_l2_evicts c)
    (m_curr_l2_misses c) (m_curr_pfpol c)) h.
Definition l1_next (h : hwp_queues) : hwp_queues :=
  with_l1 (m_l1req_queue h) (m_l1req_queue_req_pos h) ((m_l1req_queue_send_pos h + 1) mod KNOB_PREF_DL0REQ_QUEUE_SIZE k) h.
Fixpoint l1_schedule (n : nat) (h : hwp_queues) (m : M) : outcome (hwp_queues * M) :=
  match n with
  | O => mret (h, m)
  | S n' =>
      r ← aget (m_l1req_queue h) (m_l1req_queue_send_pos h);
      if valid r then
        '(m1, port) ← get_read_port (req_core_id r) (bank_id (req_core_id r) (line_addr r) m) m;
        if negb port then l1_schedule n' h m1 else
        '(m2, hit) ← access_cache (req_core_id r) (line_addr r) m1;
        if hit : bool then l1_schedule n' (l1_next h) m2 else
        '(h1, taken) ← addto_l2 (line_index r) (prefetcher_id r) h;
        l1_schedule n' (if taken : bool then l1_next h1 else count_l1sent h1) m2
      else l1_schedule n' (l1_next h) m
  end.
Fixpoint l2_schedule (n : nat) (h : hwp_queues) (m : M) : outcome (hwp_queues * M) :=
  match n with
  | O => mret (h, m)
  | S n' =>
      let pos := m_l2req_queue_send_pos h in
      let next := (pos + 1) mod KNOB_PREF_UL1REQ_QUEUE_SIZE k in
      r ← aget (m_l2req_queue h) pos;
      if valid r then
        '(m1, result) ← (if 2 ^ 63 <=? line_addr r then mret (m, true) else new_mem_req r m);
        if result : bool then
          q ← aset (m_l2req_queue h) pos (invalid r);
          l2_schedule n' (with_l2 q (m_l2req_queue_req_pos h) next h) m1
        else mret (h, m1)
      else l2_schedule n' (with_l2 (m_l2req_queue h) (m_l2req_queue_req_pos h) next h) m
  end.
Definition pref_update_queues (h : hwp_queues) (m : M) : outcome (hwp_queues * M) :=
  if negb (KNOB_PREF_FRAMEWORK_ON k) then mret (h, m) else
  '(h1, m1) ← l1_schedule (Z.to_nat (KNOB_PREF_DL0SCHEDULE_NUM k)) h m;
  l2_schedule (Z.to_nat (KNOB_PREF_UL1SCHEDULE_NUM k)) h1 m1.
End SEND.

(** ** Events *)

(** The micro-operation of an event is given by its instruction number, or absent. *)
Fixpoint notify (listens : pref_base_c -> bool) (f : Z -> pref_stride_c -> hwp_queues -> outcome (pref_stride_c * hwp_queues))
    (tid : Z) (uop : option Z) (l : list pref_base_c) (h : hwp_queues) : outcome (list pref_base_c * hwp_queues) :=
  match l with
  | [] => mret ([], h)
  | p :: l' =>
      '(p1, h1) ← (if enabled (hwp_info p) && listens p then
          let call := '(t, h') ← f (id (hwp_info p)) (tables p) h;
            mret (mk_pref (hwp_info p) (on_l1_miss p) (on_l1_hit p) (on_l2_miss p) (on_l2_hit p) t, h') in
          if KNOB_PREF_TRAIN_INST_ONCE k then
            inst ← get_or NullDeref uop;
            if bool_decide (m_last_inst_num h !! tid = Some inst) then mret (p, h) else
            '(p', h') ← call;
            mret (p', with_insts (<[tid := inst]> (m_last_inst_num h')) h')
          else call
        else mret (p, h));
      '(l1, h2) ← notify listens f tid uop l' h1;
      mret (p1 :: l1, h2)
  end.
Definition notify_all (listens : pref_base_c -> bool) (f : Z -> pref_stride_c -> hwp_queues -> outcome (pref_stride_c * hwp_queues))
    (tid : Z) (uop : option Z) (c : hwp_common_c) : outcome hwp_common_c :=
  '(l, h) ← notify listens f tid uop (pref_table c) (hq c);
  mret (mk_hwp l h).

Definition pref_l1_miss (tid addr : Z) (uop : option Z) (c : hwp_common_c) : outcome hwp_common_c :=
  if negb (KNOB_PREF_FRAMEWORK_ON k) || negb (KNOB_PREF_DL0_MISS_ON k) then mret c else
  notify_all on_l1_miss (fun i t h => l1_miss_func (pk_stride k) i now tid addr t h) tid uop c.
Definition pref_l1_hit (tid addr : Z) (uop : option Z) (c : hwp_common_c) : outcome hwp_common_c :=
  if negb (KNOB_PREF_FRAMEWORK_ON k) || negb (KNOB_PREF_DL0_HIT_ON k) then mret c else
  notify_all on_l1_hit (fun i t h => l1_hit_func (pk_stride k) i now tid addr t h) tid uop c.

Definition count_miss (d : Z) (h : hwp_queues) : hwp_queues :=
  let c := counts h in
  with_counts (mk_counters (m_overall_l1useful c) (m_overall_l1sent c) (m_overall_l2useful c) (m_overall_l2sent c) (m_num_uselesspref_evict c) (m_num_l2_evicts c)
    (u64 (m_curr_l2_misses c + d)) (m_curr_pfpol c)) h.
Definition check_polbv (line : Z) (h : hwp_queues) : outcome hwp_queues :=
  b ← aget (m_polbv_info h) (pref_polbv_access line);
  set_polbv line 0 (if b =? 1 then with_counts (count_pfpol h) h else h).
Definition pref_l2_miss (tid addr : Z) (uop : option Z) (c : hwp_common_c) : outcome hwp_common_c :=
  if negb (KNOB_PREF_FRAMEWORK_ON k) then mret c else
  let h := count_miss 1 (hq c) in
  h1 ← (if KNOB_PREF_REGION_ON k then pref_update_regioninfo addr false true false 0 0 h else mret h);
  h2 ← (if KNOB_PREF_POLBV_ON k then check_polbv (Z.shiftr addr (m_shift_bit k)) h1 else mret h1);
  notify_all on_l2_miss (fun i t h => l2_miss_func (pk_stride k) i now tid addr t h) tid uop (mk_hwp (pref_table c) h2).
Definition pref_l2_hit (tid addr : Z) (uop : option Z) (c : hwp_common_c) : outcome hwp_common_c :=
  if negb (KNOB_PREF_FRAMEWORK_ON k) then mret c else
  h1 ← (if KNOB_PREF_REGION_ON k then pref_update_regioninfo addr true false false 0 0 (hq c) else mret (hq c));
  notify_all on_l2_hit (fun i t h => l2_hit_func (pk_stride k) i now tid addr t h) tid uop (mk_hwp (pref_table c) h1).

Inductive cache_level := MEM_L2 | MEM_LLC | OTHER_LEVEL.
Definition hwp_train (level : cache_level) (tid addr : Z) (uop : option Z) (hit : bool) (c : hwp_common_c) : outcome hwp_common_c :=
  if negb (KNOB_PREF_FRAMEWORK_ON k) then mret c else
  match level with
  | MEM_L2 => if hit then pref_l1_hit tid addr uop c else pref_l1_miss tid addr uop c
  | MEM_LLC => if hit then pref_l2_hit tid addr uop c else pref_l2_miss tid addr uop c
  | OTHER_LEVEL => mret c
  end.

(** ** Feedback *)

Definition set_info (i : pref_info_s) (p : pref_base_c) : pref_base_c := mk_pref i (on_l1_miss p) (on_l1_hit p) (on_l2_miss p) (on_l2_hit p) (tables p).
Definition upd_info (pid : Z) (f : pref_info_s -> pref_info_s) (c : hwp_common_c) : outcome hwp_common_c :=
  p ← aget (pref_table c) pid;
  l ← aset (pref_table c) pid (set_info (f (hwp_info p)) p);
  mret (mk_hwp l (hq c)).
Definition count_useful (d1 d2 ds : Z) (h : hwp_queues) : hwp_queues :=
  let c := counts h in
  with_counts (mk_counters (u64 (m_overall_l1useful c + d1)) (m_overall_l1sent c) (u64 (m_overall_l2useful c + d2)) (u64 (m_overall_l2sent c + ds))
    (m_num_uselesspref_evict c) (m_num_l2_evicts c) (m_curr_l2_misses c) (m_curr_pfpol c)) h.

Definition pref_l1_pref_hit (pid : Z) (c : hwp_common_c) : hwp_common_c :=
  if negb (KNOB_PREF_FRAMEWORK_ON k) || (pid =? 0) then c else mk_hwp (pref_table c) (count_useful 1 0 0 (hq c)).
Definition pref_l2_pref_hit (pid : Z) (c : hwp_common_c) : outcome hwp_common_c :=
  if (pid =? 0) || negb (KNOB_PREF_FRAMEWORK_ON k) || KNOB_PREF_USEREGION_TOCALC_ACC k then mret c else
  upd_info pid (fun i => mk_info (id i) (enabled i) (u64 (curr_useful i + 1)) (curr_sent i) (curr_late i) (dyn_degree i))
    (mk_hwp (pref_table c) (count_useful 0 1 0 (hq c))).
Definition pref_l2_pref_hit_late (pid : Z) (c : hwp_common_c) : outcome hwp_common_c :=
  if negb (KNOB_PREF_FRAMEWORK_ON k) || (pid =? 0) then mret c else
  c1 ← upd_info pid (fun i => mk_info (id i) (enabled i) (curr_useful i) (curr_sent i) (u64 (curr_late i + 1)) (dyn_degree i))
         (mk_hwp (pref_table c) (count_miss (-1) (hq c)));
  pref_l2_pref_hit pid c1.

(** Dynamic adjustment of the degree by usefulness. *)
Definition dhal (i : pref_info_s) : pref_info_s :=
  if negb ((curr_sent i =? KNOB_PREF_DHAL_SENTTHRESH k) && KNOB_PREF_DHAL k) then i else
  let d := dyn_degree i in
  let d' := if KNOB_PREF_DHAL_USETHRESH_MAX k <? curr_useful i then (if d <? KNOB_PREF_DHAL_MAXDEG k then d + 1 else d)
            else if curr_useful i <? KNOB_PREF_DHAL_USETHRESH_MIN2 k then
              if curr_useful i <? KNOB_PREF_DHAL_USETHRESH_MIN1 k then (if 8 <? d then d / 2 else 4)
              else (if 4 <? d then d - 1 else d)
            else d in
  mk_info (id i) (enabled i) 0 0 (curr_late i) d'.
Definition pref_l2sent (pid : Z) (c : hwp_common_c) : outcome hwp_common_c :=
  if negb (KNOB_PREF_FRAMEWORK_ON k) || (pid =? 0) || KNOB_PREF_USEREGION_TOCALC_ACC k then mret c else
  upd_info pid (fun i => dhal (mk_info (id i) (enabled i) (curr_useful i) (u64 (curr_sent i + 1)) (curr_late i) (dyn_degree i)))
    (mk_hwp (pref_table c) (count_useful 0 0 1 (hq c))).

Definition count_evicts (du de : Z) (h : hwp_queues) : hwp_queues :=
  let c := counts h in
  with_counts (mk_counters (m_overall_l1useful c) (m_overall_l1sent c) (m_overall_l2useful c) (m_overall_l2sent c) (u64 (m_num_uselesspref_evict c + du))
    (u64 (m_num_l2_evicts c + de)) (m_curr_l2_misses c) (m_curr_pfpol c)) h.
Definition pref_evictline_notused (h : hwp_queues) : hwp_queues := if KNOB_PREF_FRAMEWORK_ON k then count_evicts 1 (-1) h else h.
Definition pref_l2evict (h : hwp_queues) : hwp_queues := if KNOB_PREF_FRAMEWORK_ON k then count_evicts 0 1 h else h.
Definition pref_l2evictOnPF (addr : Z) (h : hwp_queues) : outcome hwp_queues :=
  if negb (KNOB_PREF_FRAMEWORK_ON k) then mret h else
  h1 ← (if KNOB_PREF_POLBV_ON k then set_polbv (Z.shiftr addr (m_shift_bit k)) 1 h else mret h);
  if KNOB_PREF_REGION_ON k then pref_update_regioninfo addr false false true now 0 h1 else mret h1.
End FRAMEWORK.

(** ** The invariant *)

Section INVARIANT.
Context (k : pref_knobs).
Abbreviation S1 := (KNOB_PREF_DL0REQ_QUEUE_SIZE k).
Abbreviation S2 := (KNOB_PREF_UL1REQ_QUEUE_SIZE k).
#[local] Existing Instance framework_queue.

(** The knobs describe arrays that exist. *)
Record pref_knobs_ok : Prop := {
  pk_s1 : 0 < S1;
  pk_s2 : 0 < S2;
  pk_regions : 0 < KNOB_PREF_NUMTRACKING_REGIONS k;
  pk_size : 0 <= LOG2_PREF_REGION_SIZE k <= 64;
  pk_log : 0 <= KNOB_LOG2_PREF_POLBV_SIZE k;
  pk_table : 0 < KNOB_PREF_STRIDE_TABLE_N (pk_stride k);
  pk_thresh : 1 <= KNOB_PREF_STRIDE_SINGLE_THRESH (pk_stride k)
}.

(** No two waiting requests are for the same line. *)
Definition distinct_lines (q : list pref_mem_req_s) : Prop :=
  forall i j r r', q !! i = Some r -> q !! j = Some r' -> valid r = true -> valid r' = true -> line_index r = line_index r' -> i = j.
Definition ring_ok (size : Z) (q : list pref_mem_req_s) (req_pos send_pos : Z) : Prop :=
  Z.of_nat (length q) = size /\ -1 <= req_pos < size /\ 0 <= send_pos < size.
Record queues_ok (h : hwp_queues) : Prop := {
  qo_l1 : ring_ok S1 (m_l1req_queue h) (m_l1req_queue_req_pos h) (m_l1req_queue_send_pos h);
  qo_l2 : ring_ok S2 (m_l2req_queue h) (m_l2req_queue_req_pos h) (m_l2req_queue_send_pos h);
  qo_lines : KNOB_PREF_UL1REQ_ADD_FILTER_ON k = true -> distinct_lines (m_l2req_queue h);
  qo_regions : KNOB_PREF_REGION_ON k = true -> Z.of_nat (length (region_info h)) = KNOB_PREF_NUMTRACKING_REGIONS k /\
    Forall (fun r => Z.of_nat (length (status r)) = 2 ^ LOG2_PREF_REGION_SIZE k) (region_info h);
  qo_ids : KNOB_PREF_REGION_ON k = true -> Forall (fun r => valid r = true -> prefetcher_id r < 16) (m_l1req_queue h);
  qo_polbv : KNOB_PREF_POLBV_ON k = true -> KNOB_LOG2_PREF_POLBV_SIZE k < Z.of_nat (length (m_polbv_info h))
}.
Context (Hk : pref_knobs_ok).

(** *** Pollution and regions *)

Lemma land_le a b : 0 <= a -> Z.land a b <= a.
Proof.
  intros Ha. assert (H : a - Z.land a b = Z.ldiff a (Z.land a b)).
  { apply Z.sub_nocarry_ldiff. apply Z.bits_inj'. intros i _. rewrite Z.ldiff_spec, Z.land_spec, Z.bits_0. by destruct (Z.testbit a i), (Z.testbit b i). }
  assert (0 <= Z.ldiff a (Z.land a b)) by (apply Z.ldiff_nonneg; by left). lia.
Qed.

Lemma queues_ok_pollution h ri bv c : queues_ok h ->
  (KNOB_PREF_REGION_ON k = true -> length ri = length (region_info h) /\ Forall (fun r => Z.of_nat (length (status r)) = 2 ^ LOG2_PREF_REGION_SIZE k) ri) ->
  length bv = length (m_polbv_info h) -> queues_ok (with_pollution ri bv c h).
Proof. intros [A1 A2 A3 A4 A5 A6] Hr Hb. split; simpl; try done. - intros E. destruct (Hr E) as [-> ?]. by destruct (A4 E). - rewrite Hb. done. Qed.
Lemma with_counts_ok h c : queues_ok h -> queues_ok (with_counts c h).
Proof. intros H. apply queues_ok_pollution; [done | | done]. intros E. by destruct (qo_regions _ H E). Qed.

Lemma polbv_range line : 0 <= pref_polbv_access k line <= KNOB_LOG2_PREF_POLBV_SIZE k.
Proof.
  unfold pref_polbv_access, u32. set (x := Z.land _ _). pose proof (pk_log Hk) as Hl.
  assert (0 <= x <= KNOB_LOG2_PREF_POLBV_SIZE k).
  { split; [apply Z.land_nonneg; by right |]. unfold x. rewrite Z.land_comm. clear x. set (a := KNOB_LOG2_PREF_POLBV_SIZE k) in *. set (b := Z.lxor _ _).
    by apply land_le. }
  split; [by apply Z.mod_pos_bound |]. pose proof (Z.mod_le x (2 ^ 32)). lia.
Qed.
Lemma set_polbv_ok line b h : KNOB_PREF_POLBV_ON k = true -> queues_ok h ->
  exists h', set_polbv k line b h = Done h' /\ queues_ok h' /\ m_l2req_queue h' = m_l2req_queue h /\ m_l2req_queue_req_pos h' = m_l2req_queue_req_pos h /\ m_l2req_queue_send_pos h' = m_l2req_queue_send_pos h.
Proof.
  intros Hp Hh. unfold set_polbv. pose proof (polbv_range line). pose proof (qo_polbv _ Hh Hp). rewrite aset_in_range by lia. rewrite bind_done. eexists. split; [done |].
  split; [| done]. apply queues_ok_pollution; [done | | by rewrite length_insert]. intros E. by destruct (qo_regions _ Hh E).
Qed.

Lemma match_loop_ok reg_id t : forall n ii idx, 0 <= ii -> ii + Z.of_nat n = Z.of_nat (length t) -> 0 < ii + Z.of_nat n -> (idx = -1 /\ ii = 0 \/ 0 <= idx < ii) ->
  exists found i, match_loop n ii idx reg_id t = Done (found, i) /\ 0 <= i < Z.of_nat (length t).
Proof.
  induction n as [| n IH]; intros ii idx H0 Hn Hp Hi; simpl; [exists false, idx; split; [done | lia] |].
  destruct (aget_in_range t ii) as (r & Hr & ->); [lia |]. rewrite bind_done. destruct (_ && _); [exists true, ii; split; [done | lia] |].
  assert (exists b, (if (idx =? -1) || negb (region_valid r) then mret true else b ← aget t idx; mret (region_valid b && (last_access r <? last_access b))) = Done b) as [b Eb].
  { destruct Hi as [[-> ->] | Hi]; [by eexists |]. rewrite (proj2 (Z.eqb_neq idx (-1))) by lia. destruct (negb _); [by eexists |]. simpl.
    destruct (aget_in_range t idx) as (b & _ & ->); [lia |]. by eexists. }
  rewrite Eb, bind_done. apply IH; try lia. right. destruct Hi as [[-> ->] | Hi]; [| destruct b; lia]. simpl in Eb. injection Eb as <-. lia.
Qed.
Lemma pref_matchregion_ok reg_id onPF h : KNOB_PREF_REGION_ON k = true -> queues_ok h ->
  exists t idx, pref_matchregion k reg_id onPF h = Done (with_pollution t (m_polbv_info h) (counts h) h, idx) /\
    queues_ok (with_pollution t (m_polbv_info h) (counts h) h) /\ -1 <= idx < Z.of_nat (length t).
Proof.
  intros Hr Hh. unfold pref_matchregion. destruct (qo_regions _ Hh Hr) as [Hl Hf]. pose proof (pk_regions Hk).
  assert (Hself : with_pollution (region_info h) (m_polbv_info h) (counts h) h = h) by (by destruct h).
  destruct (match_loop_ok reg_id (region_info h) (Z.to_nat (KNOB_PREF_NUMTRACKING_REGIONS k)) 0 (-1)) as (found & i & -> & Hi); [lia | lia | lia | by left |]. rewrite bind_done.
  destruct found; [exists (region_info h), i; rewrite Hself; split; [done |]; split; [done | lia] |].
  destruct (aget_in_range (region_info h) i) as (r & Hri & ->); [lia |]. rewrite bind_done. destruct (_ || _).
  - rewrite aset_in_range by lia. rewrite bind_done. eexists _, i. split; [done |]. rewrite length_insert. split; [| lia]. apply queues_ok_pollution; [done | | done].
    intros _. rewrite length_insert. split; [done |]. apply Forall_insert; [done |]. simpl. rewrite length_fmap. by eapply (Forall_lookup_1 _ _ _ _ Hf).
  - exists (region_info h), (-1). rewrite Hself. split; [done |]. split; [done | lia].
Qed.
Lemma pref_update_regioninfo_ok now addr hit miss onPF ev pid h : KNOB_PREF_REGION_ON k = true -> pid < 16 -> queues_ok h ->
  exists h', pref_update_regioninfo k now addr hit miss onPF ev pid h = Done h' /\ queues_ok h' /\ m_l2req_queue h' = m_l2req_queue h /\
    m_l2req_queue_req_pos h' = m_l2req_queue_req_pos h /\ m_l2req_queue_send_pos h' = m_l2req_queue_send_pos h.
Proof.
  intros Hr Hp Hh. unfold pref_update_regioninfo. destruct (pref_matchregion_ok (Z.shiftr addr (LOG2_PREF_REGION_SIZE k + m_shift_bit k)) onPF h Hr Hh) as (t & idx & -> & Hh1 & Hi).
  rewrite bind_done. destruct (Z.eqb_spec idx (-1)); [by eexists |]. set (h1 := with_pollution _ _ _ h) in *. destruct (aget_in_range (region_info h1) idx) as (r & Hri & ->); [simpl; lia |].
  rewrite bind_done. destruct (qo_regions _ Hh1 Hr) as [Hl Hf]. pose proof (Forall_lookup_1 _ _ _ _ Hf Hri) as Hst. simpl in Hst. pose proof (pk_size Hk) as Hsz.
  set (line := Z.land _ _). assert (0 <= line < 2 ^ LOG2_PREF_REGION_SIZE k) as Hline by (unfold line; rewrite land_mask by done; apply Z.mod_pos_bound; apply pow2_pos; lia).
  destruct (aget_in_range (status r) line) as (st & _ & ->); [lia |]. rewrite bind_done. rewrite (proj2 (Z.ltb_lt pid 16)) by done. simpl ASSERT. rewrite bind_done.
  rewrite aset_in_range by lia. rewrite bind_done. set (h2 := if (hit || miss) && evict_onPF st then with_counts (count_pfpol h1) h1 else h1).
  assert (Hh2 : queues_ok h2 /\ region_info h2 = region_info h1 /\ m_l2req_queue h2 = m_l2req_queue h /\ m_l2req_queue_req_pos h2 = m_l2req_queue_req_pos h /\ m_l2req_queue_send_pos h2 = m_l2req_queue_send_pos h).
  { unfold h2. destruct (_ && _); [split; [by apply with_counts_ok | done] | done]. }
  clearbody h2. destruct Hh2 as (Hh2 & E1 & E2 & E3 & E4). rewrite E1. rewrite aset_in_range by (simpl; lia). rewrite bind_done. eexists. split; [done |]. split; [| done].
  apply queues_ok_pollution; [done | | done]. intros _. rewrite length_insert, E1. split; [done |]. apply Forall_insert; [done |]. simpl. by rewrite length_insert.
Qed.

(** *** Insertion *)

Lemma queue_has_spec line q : forall n ii, 0 <= ii -> ii + Z.of_nat n = Z.of_nat (length q) ->
  exists b, queue_has n ii line q = Done b /\
    (if b : bool then exists j r, q !! j = Some r /\ line_index r = line else forall j r, ii <= Z.of_nat j -> q !! j = Some r -> line_index r <> line).
Proof.
  induction n as [| n IH]; intros ii H0 Hn; simpl.
  { exists false. split; [done |]. intros j r Hj Hr. apply lookup_lt_Some in Hr. lia. }
  destruct (aget_in_range q ii) as (r & Hr & ->); [lia |]. rewrite bind_done. destruct (Z.eqb_spec (line_index r) line) as [E | E]; [exists true; split; [done |]; by exists (Z.to_nat ii), r |].
  destruct (IH (ii + 1)) as (b & Eb & Hb); [lia | lia |]. exists b. split; [done |]. destruct b; [done |]. intros j r' Hj Hr'.
  destruct (Z.eq_dec (Z.of_nat j) ii) as [<- |]; [| apply (Hb j r'); [lia | done]]. rewrite Nat2Z.id in Hr. congruence.
Qed.

(** What an insertion does to a circular queue. *)
Definition next_pos (size req_pos : Z) : nat := Z.to_nat ((req_pos + 1) mod size).
Lemma enqueue_spec size ow r q rp sp : 0 < size -> ring_ok size q rp sp ->
  exists b, q !! next_pos size rp = Some b /\
    enqueue size ow r q rp = Done (if valid b && negb ow then None else Some (<[next_pos size rp := r]> q, (rp + 1) mod size)) /\
    ring_ok size (<[next_pos size rp := r]> q) ((rp + 1) mod size) sp.
Proof.
  intros Hs (Hl & Hrp & Hsp). pose proof (Z.mod_pos_bound (rp + 1) size Hs) as Hm. unfold enqueue, next_pos.
  destruct (aget_in_range q ((rp + 1) mod size)) as (b & Hb & ->); [lia |]. exists b. split; [done |]. rewrite bind_done. rewrite aset_in_range by lia.
  split; [by destruct (valid b && negb ow) |]. split; [by rewrite length_insert |]. lia.
Qed.

(** The request was not needed, or refused because its slot is in use, or it is now
    the last of the queue. *)
Definition inserted (line pid : Z) (taken : bool) (h h' : hwp_queues) : Prop :=
  m_l2req_queue_send_pos h' = m_l2req_queue_send_pos h /\
  exists b, m_l2req_queue h !! next_pos S2 (m_l2req_queue_req_pos h) = Some b /\
  ((m_l2req_queue h' = m_l2req_queue h /\ m_l2req_queue_req_pos h' = m_l2req_queue_req_pos h /\
    (if taken then line = 0 \/ exists j r, m_l2req_queue h !! j = Some r /\ line_index r = line else valid b = true /\ KNOB_PREF_UL1REQ_QUEUE_OVERWRITE_ON_FULL k = false)) \/
   (taken = true /\ (valid b = false \/ KNOB_PREF_UL1REQ_QUEUE_OVERWRITE_ON_FULL k = true) /\
    exists r, line_index r = line /\ prefetcher_id r = pid /\ valid r = true /\
      m_l2req_queue h' = <[next_pos S2 (m_l2req_queue_req_pos h) := r]> (m_l2req_queue h))).

Lemma addto_l2_ok now line pid h : (KNOB_PREF_REGION_ON k = true -> pid < 16) -> queues_ok h ->
  exists h' taken, addto_l2 k now line pid h = Done (h', taken) /\ queues_ok h' /\ inserted line pid taken h h'.
Proof.
  intros Hpid Hh. unfold addto_l2, pref_addto_l2req_queue_set. pose proof (pk_s2 Hk) as Hs2.
  destruct (enqueue_spec S2 true (mk_pref_req 0 0 0 0 true 0 0) _ _ _ Hs2 (qo_l2 _ Hh)) as (b & Hb & _).
  destruct (Z.eqb_spec line 0) as [-> | Hl].
  { exists h, true. split; [done |]. split; [done |]. split; [done |]. exists b. split; [done |]. left. auto. }
  assert (H1 : exists h1, (if KNOB_PREF_POLBV_ON k then set_polbv k line 0 h else mret h) = Done h1 /\ queues_ok h1 /\ m_l2req_queue h1 = m_l2req_queue h /\
    m_l2req_queue_req_pos h1 = m_l2req_queue_req_pos h /\ m_l2req_queue_send_pos h1 = m_l2req_queue_send_pos h).
  { destruct (KNOB_PREF_POLBV_ON k) eqn:E; [by apply set_polbv_ok | by exists h]. }
  destruct H1 as (h1 & -> & Hh1 & A1 & A2 & A3). rewrite bind_done.
  assert (H2 : exists h2, (if KNOB_PREF_REGION_ON k then pref_update_regioninfo k now (shl64 line (m_shift_bit k)) false false false 0 pid h1 else mret h1) = Done h2 /\
    queues_ok h2 /\ m_l2req_queue h2 = m_l2req_queue h1 /\ m_l2req_queue_req_pos h2 = m_l2req_queue_req_pos h1 /\ m_l2req_queue_send_pos h2 = m_l2req_queue_send_pos h1).
  { destruct (KNOB_PREF_REGION_ON k) eqn:E; [apply pref_update_regioninfo_ok; auto | by exists h1]. }
  destruct H2 as (h2 & -> & Hh2 & B1 & B2 & B3). rewrite bind_done. pose proof (qo_l2 _ Hh2) as (Hl2 & _ & _).
  assert (H3 : exists known, (if KNOB_PREF_UL1REQ_ADD_FILTER_ON k then queue_has (Z.to_nat S2) 0 line (m_l2req_queue h2) else mret false) = Done known /\
    (if known : bool then exists j r, m_l2req_queue h2 !! j = Some r /\ line_index r = line
     else KNOB_PREF_UL1REQ_ADD_FILTER_ON k = true -> forall j r, m_l2req_queue h2 !! j = Some r -> line_index r <> line)).
  { destruct (KNOB_PREF_UL1REQ_ADD_FILTER_ON k) eqn:E; [| by exists false]. destruct (queue_has_spec line (m_l2req_queue h2) (Z.to_nat S2) 0) as (known & -> & Hkn); [lia | lia |].
    exists known. split; [done |]. destruct known; [done |]. intros _ j r. apply (Hkn j r). lia. }
  destruct H3 as (known & -> & Hkn). rewrite bind_done. destruct known.
  { exists h2, true. split; [done |]. split; [done |]. split; [congruence |]. exists b. split; [done |]. left. rewrite B1, A1 in *. split; [done |]. split; [congruence | by right]. }
  set (r := mk_pref_req _ _ _ _ _ _ _). destruct (enqueue_spec S2 (KNOB_PREF_UL1REQ_QUEUE_OVERWRITE_ON_FULL k) r _ _ _ Hs2 (qo_l2 _ Hh2)) as (b' & Hb' & -> & Hring).
  rewrite bind_done. rewrite B1, A1, B2, A2 in Hb'. rewrite Hb in Hb'. injection Hb' as <-. destruct (valid b && negb (KNOB_PREF_UL1REQ_QUEUE_OVERWRITE_ON_FULL k)) eqn:Ef.
  - exists h2, false. split; [done |]. split; [done |]. split; [congruence |]. exists b. split; [done |]. left. apply andb_true_iff in Ef as [? ?%negb_true_iff]. split; [congruence |]. split; [congruence | done].
  - eexists _, true. split; [done |]. split.
    + destruct Hh2 as [C1 C2 C3 C4 C5 C6]. split; simpl; try done. intros Hf. specialize (C3 Hf). specialize (Hkn Hf). intros i j x y Hx Hy Vx Vy E.
      rewrite list_lookup_insert_Some in Hx. rewrite list_lookup_insert_Some in Hy.
      destruct Hx as [(<- & <- & _) | [_ Hx]], Hy as [(<- & <- & _) | [_ Hy]]; [done | | | by eapply C3]; exfalso; simpl in E; [by apply (Hkn j y) | by apply (Hkn i x)].
    + split; [simpl; congruence |]. exists b. split; [done |]. right. split; [done |]. split.
      { apply andb_false_iff in Ef as [? | ?%negb_false_iff]; auto. }
      exists r. split; [done |]. split; [done |]. split; [done |]. simpl. congruence.
Qed.

Lemma framework_queue_law now id : (KNOB_PREF_REGION_ON k = true -> id < 16) -> PrefQueueOk (PrefQueue0 := framework_queue k now) hwp_queues id queues_ok.
Proof. intros Hid i q Hq. destruct (addto_l2_ok now i id q Hid Hq) as (q' & b & E & Hq' & _). by exists q', b. Qed.

(** *** Removal *)

Lemma filter_loop_ok line q : forall n ii, 0 <= ii -> ii + Z.of_nat n = Z.of_nat (length q) ->
  exists q' b, filter_loop k n ii line q = Done (q', b) /\
    (if b : bool then exists j r, q !! j = Some r /\ valid r = true /\ Z.shiftr (line_addr r) (m_shift_bit k) = line /\ q' = <[j := invalid r]> q
     else q' = q /\ forall j r, ii <= Z.of_nat j -> q !! j = Some r -> valid r = true -> Z.shiftr (line_addr r) (m_shift_bit k) <> line).
Proof.
  induction n as [| n IH]; intros ii H0 Hn; simpl.
  { exists q, false. split; [done |]. split; [done |]. intros j r Hj Hr. apply lookup_lt_Some in Hr. lia. }
  destruct (aget_in_range q ii) as (r & Hr & ->); [lia |]. rewrite bind_done. destruct (valid r && _) eqn:E.
  - rewrite aset_in_range by lia. rewrite bind_done. eexists _, true. split; [done |]. apply andb_true_iff in E as [? ?%Z.eqb_eq]. by exists (Z.to_nat ii), r.
  - destruct (IH (ii + 1)) as (q' & b & Eb & Hb); [lia | lia |]. exists q', b. split; [done |]. destruct b; [done |]. destruct Hb as [-> Hb]. split; [done |]. intros j r' Hj Hr' Hv.
    destruct (Z.eq_dec (Z.of_nat j) ii) as [<- |]; [| apply (Hb j r'); [lia | done | done]]. rewrite Nat2Z.id in Hr. rewrite Hr in Hr'. injection Hr' as <-.
    rewrite Hv in E. simpl in E. by apply Z.eqb_neq in E.
Qed.

(** Invalidating an entry keeps the invariant. *)
Lemma queues_ok_l2 h q sp : queues_ok h -> 0 <= sp < S2 -> length q = length (m_l2req_queue h) ->
  (forall i r, q !! i = Some r -> valid r = true -> m_l2req_queue h !! i = Some r) -> queues_ok (with_l2 q (m_l2req_queue_req_pos h) sp h).
Proof.
  intros [A1 A2 A3 A4 A5 A6] Hsp Hl Hsub. split; simpl; try done.
  - destruct A2 as (B1 & B2 & B3). split; [by rewrite Hl | by split].
  - intros Hf i j r r' Hr Hr' V V'. apply (A3 Hf i j r r'); auto.
Qed.
Lemma insert_invalid_sub (q : list pref_mem_req_s) j r : forall i x, <[j := invalid r]> q !! i = Some x -> valid x = true -> q !! i = Some x.
Proof. intros i x. rewrite list_lookup_insert_Some. intros [(_ & <- & _) | [_ H]]; done. Qed.
Lemma queues_ok_l1 h q sp : queues_ok h -> 0 <= sp < S1 -> length q = length (m_l1req_queue h) ->
  (forall i r, q !! i = Some r -> valid r = true -> m_l1req_queue h !! i = Some r) -> queues_ok (with_l1 q (m_l1req_queue_req_pos h) sp h).
Proof.
  intros [A1 A2 A3 A4 A5 A6] Hsp Hl Hsub. split; simpl; try done.
  - destruct A1 as (B1 & B2 & B3). split; [by rewrite Hl | by split].
  - intros E. specialize (A5 E). apply Forall_lookup. intros i r Hr Hv. apply (Forall_lookup_1 _ _ _ _ A5 (Hsub i r Hr Hv)); done.
Qed.
Lemma pref_l2req_queue_filter_ok addr h : queues_ok h -> exists h' b, pref_l2req_queue_filter k addr h = Done (h', b) /\ queues_ok h'.
Proof.
  intros Hh. unfold pref_l2req_queue_filter. destruct (negb _); [by exists h, false |]. pose proof (pk_s2 Hk). destruct (qo_l2 _ Hh) as (Hl & _ & Hsp).
  destruct (filter_loop_ok (Z.shiftr addr (m_shift_bit k)) (m_l2req_queue h) (Z.to_nat S2) 0) as (q' & b & -> & Hb); [lia | lia |]. rewrite bind_done. eexists _, b. split; [done |].
  destruct b; [destruct Hb as (j & r & _ & _ & _ & ->) | destruct Hb as [-> _]].
  - apply queues_ok_l2; [done | done | by rewrite length_insert | apply insert_invalid_sub].
  - by apply queues_ok_l2.
Qed.
Lemma pref_l1req_queue_filter_ok addr h : queues_ok h -> exists h' b, pref_l1req_queue_filter k addr h = Done (h', b) /\ queues_ok h'.
Proof.
  intros Hh. unfold pref_l1req_queue_filter. destruct (negb _); [by exists h, false |]. pose proof (pk_s1 Hk). destruct (qo_l1 _ Hh) as (Hl & _ & Hsp).
  destruct (filter_loop_ok (Z.shiftr addr (m_shift_bit k)) (m_l1req_queue h) (Z.to_nat S1) 0) as (q' & b & -> & Hb); [lia | lia |]. rewrite bind_done. eexists _, b. split; [done |].
  destruct b; [destruct Hb as (j & r & _ & _ & _ & ->) | destruct Hb as [-> _]].
  - apply queues_ok_l1; [done | done | by rewrite length_insert | apply insert_invalid_sub].
  - by apply queues_ok_l1.
Qed.
End INVARIANT.

(** ** Sending *)

(** What the memory promises: in a well-formed state no call faults, and the state
    stays well formed. *)
Class PrefMemoryOk (M : Type) `{!PrefMemory M} (mem_ok : M -> Prop) := {
  port_ok : forall c b m, mem_ok m -> exists m' r, get_read_port c b m = Done (m', r) /\ mem_ok m';
  cache_ok : forall c a m, mem_ok m -> exists m' r, access_cache c a m = Done (m', r) /\ mem_ok m';
  new_req_ok : forall r m, mem_ok m -> exists m' b, new_mem_req r m = Done (m', b) /\ mem_ok m'
}.

(** The memory took the requests [l], in this order; what else it was asked does not
    matter. *)
Inductive served {M} `{!PrefMemory M} : M -> list pref_mem_req_s -> M -> Prop :=
  | served_none m : served m [] m
  | served_port c b m m1 r l m2 : get_read_port c b m = Done (m1, r) -> served m1 l m2 -> served m l m2
  | served_cache c a m m1 r l m2 : access_cache c a m = Done (m1, r) -> served m1 l m2 -> served m l m2
  | served_taken r m m1 l m2 : new_mem_req r m = Done (m1, true) -> served m1 l m2 -> served m (r :: l) m2
  | served_refused r m m1 l m2 : new_mem_req r m = Done (m1, false) -> served m1 l m2 -> served m l m2.
Lemma served_app {M} `{!PrefMemory M} (m m1 m2 : M) l l' : served m l m1 -> served m1 l' m2 -> served m (l ++ l') m2.
Proof. induction 1; intros; simpl; eauto using served. Qed.

Definition pending (q : list pref_mem_req_s) : list pref_mem_req_s := filter (fun r => valid r = true) q.
(** Requests for addresses with the top bit set are dropped instead of sent. *)
Definition sendable (r : pref_mem_req_s) : bool := line_addr r <? 2 ^ 63.

Lemma pending_insert q : forall j r, q !! j = Some r -> valid r = true -> pending q ≡ₚ r :: pending (<[j := invalid r]> q).
Proof.
  unfold pending. induction q as [| x q IH]; intros [| j] r Hr Hv; simpl in *; try done.
  - injection Hr as ->. rewrite filter_cons_True by done. by rewrite filter_cons_False.
  - rewrite !filter_cons. case_decide; rewrite (IH j r Hr Hv); [apply perm_swap | done].
Qed.

Section SENDING.
Context (k : pref_knobs) (Hk : pref_knobs_ok k).
Context {M : Type} `{!PrefMemory M} {mem_ok : M -> Prop} `{!PrefMemoryOk M mem_ok}.
Abbreviation S1 := (KNOB_PREF_DL0REQ_QUEUE_SIZE k).
Abbreviation S2 := (KNOB_PREF_UL1REQ_QUEUE_SIZE k).

Definition always_accepts : Prop := forall r (m m' : M) b, new_mem_req r m = Done (m', b) -> b = true.
(** Slot [i] is not in use. *)
Definition free_slot (q : list pref_mem_req_s) (i : Z) : Prop := forall r, q !! Z.to_nat i = Some r -> valid r = false.

(** [j] slots were visited; [out] left the queue. *)
Record swept (n : nat) (h h' : hwp_queues) (m m' : M) : Prop := {
  sw_out : exists out, pending (m_l2req_queue h) ≡ₚ out ++ pending (m_l2req_queue h') /\ served m (filter (fun r => sendable r = true) out) m';
  sw_sub : forall i, free_slot (m_l2req_queue h) i -> free_slot (m_l2req_queue h') i;
  sw_rest : exists q sp, h' = with_l2 q (m_l2req_queue_req_pos h) sp h;
  sw_visit : always_accepts -> m_l2req_queue_send_pos h' = (m_l2req_queue_send_pos h + Z.of_nat n) mod S2 /\
    forall i, 0 <= i < Z.of_nat n -> free_slot (m_l2req_queue h') ((m_l2req_queue_send_pos h + i) mod S2)
}.

Lemma swept_step n r q next h h' m m1 m' : queues_ok k h -> m_l2req_queue h !! Z.to_nat (m_l2req_queue_send_pos h) = Some r ->
  next = (m_l2req_queue_send_pos h + 1) mod S2 ->
  (valid r = false /\ q = m_l2req_queue h /\ m1 = m \/
   valid r = true /\ q = <[Z.to_nat (m_l2req_queue_send_pos h) := invalid r]> (m_l2req_queue h) /\
     (sendable r = false /\ m1 = m \/ sendable r = true /\ new_mem_req r m = Done (m1, true))) ->
  swept n (with_l2 q (m_l2req_queue_req_pos h) next h) h' m1 m' -> swept (S n) h h' m m'.
Proof.
  intros Hh Hr -> Hc [W1 W2 W3 W4]. simpl in *. pose proof (qo_l2 _ _ Hh) as (Hl & _ & Hsp). pose proof (pk_s2 _ Hk) as Hs2.
  assert (Hfree : free_slot q (m_l2req_queue_send_pos h)).
  { intros x Hx. destruct Hc as [(Hv & -> & _) | (Hv & -> & _)]; [congruence |]. rewrite list_lookup_insert_eq in Hx by (by eapply lookup_lt_Some). by injection Hx as <-. }
  split.
  - destruct W1 as (out & P1 & P2). destruct Hc as [(Hv & -> & ->) | (Hv & -> & Hs)]; [by exists out |]. exists (r :: out). split.
    + rewrite (pending_insert _ _ _ Hr Hv), P1. done.
    + destruct Hs as [[Hs ->] | [Hs E]]; [by rewrite filter_cons_False by congruence | rewrite filter_cons_True by done; by eapply served_taken].
  - intros i Hi. apply W2. destruct Hc as [(_ & -> & _) | (_ & -> & _)]; [done |]. intros x Hx.
    rewrite list_lookup_insert_Some in Hx. destruct Hx as [(_ & <- & _) | [_ Hx]]; [done | by apply Hi].
  - destruct W3 as (q' & sp & ->). by exists q', sp.
  - intros Ha. destruct (W4 Ha) as [E1 E2]. split.
    + rewrite E1, Z.add_mod_idemp_l by lia. f_equal. lia.
    + intros i Hi. destruct (Z.eq_dec i 0) as [-> |].
      * rewrite Z.add_0_r, Z.mod_small by lia. by apply W2.
      * replace ((m_l2req_queue_send_pos h + i) mod S2) with (((m_l2req_queue_send_pos h + 1) mod S2 + (i - 1)) mod S2); [apply E2; lia |].
        rewrite Z.add_mod_idemp_l by lia. f_equal. lia.
Qed.

Lemma l2_schedule_ok n : forall h m, queues_ok k h -> mem_ok m ->
  exists h' m', l2_schedule k n h m = Done (h', m') /\ queues_ok k h' /\ mem_ok m' /\ swept n h h' m m'.
Proof.
  induction n as [| n IH]; intros h m Hh Hm.
  { exists h, m. split; [done |]. split; [done |]. split; [done |]. pose proof (qo_l2 _ _ Hh) as (_ & _ & Hsp). split.
    - exists []. split; [done | constructor]. - done. - exists (m_l2req_queue h), (m_l2req_queue_send_pos h). by destruct h.
    - intros _. rewrite Z.add_0_r, Z.mod_small by lia. split; [done | lia]. }
  simpl. pose proof (qo_l2 _ _ Hh) as (Hl & _ & Hsp). pose proof (pk_s2 _ Hk) as Hs2. destruct (aget_in_range (m_l2req_queue h) (m_l2req_queue_send_pos h)) as (r & Hr & ->); [lia |].
  rewrite bind_done. pose proof (Z.mod_pos_bound (m_l2req_queue_send_pos h + 1) S2 Hs2) as Hnext.
  destruct (valid r) eqn:Hv.
  - assert (Hgo : forall m1, mem_ok m1 -> (sendable r = false /\ m1 = m \/ sendable r = true /\ new_mem_req r m = Done (m1, true)) ->
      exists h' m', (q ← aset (m_l2req_queue h) (m_l2req_queue_send_pos h) (invalid r);
        l2_schedule k n (with_l2 q (m_l2req_queue_req_pos h) ((m_l2req_queue_send_pos h + 1) mod S2) h) m1) = Done (h', m') /\ queues_ok k h' /\ mem_ok m' /\ swept (S n) h h' m m').
    { intros m1 Hm1 Hcase. rewrite aset_in_range by lia. rewrite bind_done. set (q := <[_ := _]> _).
      destruct (IH (with_l2 q (m_l2req_queue_req_pos h) ((m_l2req_queue_send_pos h + 1) mod S2) h) m1) as (h' & m' & E & Hh' & Hm' & Hsw);
        [apply queues_ok_l2; [done | done | by unfold q; rewrite length_insert | apply insert_invalid_sub] | done |].
      exists h', m'. split; [done |]. split; [done |]. split; [done |]. eapply swept_step; [done | exact Hr | done | | exact Hsw]. right. auto. }
    destruct (Z.leb_spec (2 ^ 63) (line_addr r)).
    + rewrite bind_done. apply Hgo; [done |]. left. split; [unfold sendable; lia | done].
    + destruct (new_req_ok r m Hm) as (m1 & b & E & Hm1). rewrite E, bind_done. destruct b.
      * apply Hgo; [done |]. right. split; [unfold sendable; lia | done].
      * exists h, m1. split; [done |]. split; [done |]. split; [done |]. split.
        -- exists []. split; [done |]. eapply served_refused; [exact E | constructor].
        -- done.
        -- exists (m_l2req_queue h), (m_l2req_queue_send_pos h). by destruct h.
        -- intros Ha. by apply Ha in E.
  - destruct (IH (with_l2 (m_l2req_queue h) (m_l2req_queue_req_pos h) ((m_l2req_queue_send_pos h + 1) mod S2) h) m) as (h' & m' & E & Hh' & Hm' & Hsw);
      [by apply queues_ok_l2 | done |].
    exists h', m'. split; [done |]. split; [done |]. split; [done |]. eapply swept_step; [done | exact Hr | done | | exact Hsw]. left. auto.
Qed.

Lemma l1_next_ok h : queues_ok k h -> queues_ok k (l1_next k h).
Proof. intros Hh. apply queues_ok_l1; [done | apply Z.mod_pos_bound, (pk_s1 _ Hk) | done | done]. Qed.
Lemma l1_schedule_ok now n : forall h m, queues_ok k h -> mem_ok m ->
  exists h' m', l1_schedule k now n h m = Done (h', m') /\ queues_ok k h' /\ mem_ok m'.
Proof.
  induction n as [| n IH]; intros h m Hh Hm; simpl; [by exists h, m |]. destruct (qo_l1 _ _ Hh) as (Hl & _ & Hsp).
  destruct (aget_in_range (m_l1req_queue h) (m_l1req_queue_send_pos h)) as (r & Hr & ->); [lia |]. rewrite bind_done.
  destruct (valid r) eqn:Hv; [| apply IH; [by apply l1_next_ok | done]].
  destruct (port_ok (req_core_id r) (bank_id (req_core_id r) (line_addr r) m) m Hm) as (m1 & port & -> & Hm1). rewrite bind_done. destruct port; [| by apply IH]. simpl negb. cbv iota.
  destruct (cache_ok (req_core_id r) (line_addr r) m1 Hm1) as (m2 & hit & -> & Hm2). rewrite bind_done. destruct hit; [apply IH; [by apply l1_next_ok | done] |].
  destruct (addto_l2_ok k Hk now (line_index r) (prefetcher_id r) h) as (h1 & taken & -> & Hh1 & _); [| done |].
  { intros E. by apply (Forall_lookup_1 _ _ _ _ (qo_ids _ _ Hh E) Hr). }
  rewrite bind_done. apply IH; [| done]. destruct taken; [by apply l1_next_ok | by apply with_counts_ok].
Qed.
Lemma update_queues_ok now h m : queues_ok k h -> mem_ok m -> exists h' m', pref_update_queues k now h m = Done (h', m') /\ queues_ok k h' /\ mem_ok m'.
Proof.
  intros Hh Hm. unfold pref_update_queues. destruct (negb _); [by exists h, m |]. destruct (l1_schedule_ok now (Z.to_nat (KNOB_PREF_DL0SCHEDULE_NUM k)) h m Hh Hm) as (h1 & m1 & -> & Hh1 & Hm1).
  rewrite bind_done. destruct (l2_schedule_ok (Z.to_nat (KNOB_PREF_UL1SCHEDULE_NUM k)) h1 m1 Hh1 Hm1) as (h2 & m2 & -> & Hh2 & Hm2 & _). by exists h2, m2.
Qed.

(** An unused L1 queue only turns. *)
Definition l1_idle (h : hwp_queues) : Prop := Forall (fun r => valid r = false) (m_l1req_queue h).
Lemma l1_schedule_idle now n : forall h (m : M), queues_ok k h -> l1_idle h ->
  exists sp, l1_schedule k now n h m = Done (with_l1 (m_l1req_queue h) (m_l1req_queue_req_pos h) sp h, m) /\ queues_ok k (with_l1 (m_l1req_queue h) (m_l1req_queue_req_pos h) sp h).
Proof.
  induction n as [| n IH]; intros h m Hh Hi; simpl.
  { exists (m_l1req_queue_send_pos h). assert (E : with_l1 (m_l1req_queue h) (m_l1req_queue_req_pos h) (m_l1req_queue_send_pos h) h = h) by (by destruct h). by rewrite E. }
  destruct (qo_l1 _ _ Hh) as (Hl & _ & Hsp). destruct (aget_in_range (m_l1req_queue h) (m_l1req_queue_send_pos h)) as (r & Hr & ->); [lia |]. rewrite bind_done.
  rewrite (Forall_lookup_1 _ _ _ _ Hi Hr). destruct (IH (l1_next k h) m) as (sp & E & Hok); [by apply l1_next_ok | exact Hi |]. by exists sp.
Qed.
Lemma update_queues_idle now h m : queues_ok k h -> mem_ok m -> l1_idle h -> KNOB_PREF_FRAMEWORK_ON k = true ->
  exists h' m', pref_update_queues k now h m = Done (h', m') /\ queues_ok k h' /\ mem_ok m' /\ l1_idle h' /\
    exists h1, m_l2req_queue h1 = m_l2req_queue h /\ m_l2req_queue_send_pos h1 = m_l2req_queue_send_pos h /\ swept (Z.to_nat (KNOB_PREF_UL1SCHEDULE_NUM k)) h1 h' m m'.
Proof.
  intros Hh Hm Hi Hon. unfold pref_update_queues. rewrite Hon. simpl negb. cbv iota. destruct (l1_schedule_idle now (Z.to_nat (KNOB_PREF_DL0SCHEDULE_NUM k)) h m Hh Hi) as (sp & -> & Hh1).
  rewrite bind_done. set (h1 := with_l1 _ _ _ h) in *. destruct (l2_schedule_ok (Z.to_nat (KNOB_PREF_UL1SCHEDULE_NUM k)) h1 m Hh1 Hm) as (h2 & m2 & -> & Hh2 & Hm2 & Hsw). exists h2, m2.
  split; [done |]. split; [done |]. split; [done |]. split; [| by exists h1]. destruct (sw_rest _ _ _ _ _ Hsw) as (q & sp' & ->). exact Hi.
Qed.

Fixpoint updates (nows : list Z) (h : hwp_queues) (m : M) : outcome (hwp_queues * M) :=
  match nows with [] => mret (h, m) | now :: l => '(h1, m1) ← pref_update_queues k now h m; updates l h1 m1 end.
Lemma updates_idle nows : forall h m, queues_ok k h -> mem_ok m -> l1_idle h -> KNOB_PREF_FRAMEWORK_ON k = true ->
  exists h' m' out, updates nows h m = Done (h', m') /\ queues_ok k h' /\ mem_ok m' /\ pending (m_l2req_queue h) ≡ₚ out ++ pending (m_l2req_queue h') /\
    served m (filter (fun r => sendable r = true) out) m' /\
    (always_accepts -> forall i, 0 <= i < Z.of_nat (length nows) * Z.of_nat (Z.to_nat (KNOB_PREF_UL1SCHEDULE_NUM k)) -> free_slot (m_l2req_queue h') ((m_l2req_queue_send_pos h + i) mod S2)) /\
    (forall i, free_slot (m_l2req_queue h) i -> free_slot (m_l2req_queue h') i).
Proof.
  set (N := Z.to_nat (KNOB_PREF_UL1SCHEDULE_NUM k)). induction nows as [| now nows IH]; intros h m Hh Hm Hi Hon.
  { exists h, m, []. split; [done |]. split; [done |]. split; [done |]. split; [done |]. split; [constructor |]. split; [simpl; lia | done]. }
  simpl. destruct (update_queues_idle now h m Hh Hm Hi Hon) as (h1 & m1 & -> & Hh1 & Hm1 & Hi1 & h0 & E1 & E2 & [W1 W2 W3 W4]). rewrite bind_done.
  destruct (IH h1 m1 Hh1 Hm1 Hi1 Hon) as (h2 & m2 & out & E & Hh2 & Hm2 & P & Sv & Hfree & Hsub). destruct W1 as (out1 & P1 & Sv1). rewrite E1 in *. rewrite E2 in *.
  exists h2, m2, (out1 ++ out). split; [done |]. split; [done |]. split; [done |]. split; [rewrite P1, P; by rewrite app_assoc |].
  split; [rewrite filter_app; by eapply served_app |]. split; [| auto]. intros Ha i Hi'. destruct (W4 Ha) as [F1 F2]. destruct (decide (i < Z.of_nat N)) as [Hlt | Hge].
  - apply Hsub, F2. fold N. lia.
  - specialize (Hfree Ha (i - Z.of_nat N)). rewrite F1, Z.add_mod_idemp_l in Hfree by (pose proof (pk_s2 _ Hk); lia). fold N in Hfree.
    replace (m_l2req_queue_send_pos h + Z.of_nat N + (i - Z.of_nat N)) with (m_l2req_queue_send_pos h + i) in Hfree by lia. apply Hfree. lia.
Qed.
End SENDING.

(** ** The framework as a whole *)

Section SYSTEM.
Context (k : pref_knobs) (Hk : pref_knobs_ok k).
Context {M : Type} `{!PrefMemory M} {mem_ok : M -> Prop} `{!PrefMemoryOk M mem_ok}.

Definition good_id (i : Z) : Prop := KNOB_PREF_REGION_ON k = true -> i < 16.
Definition tables_ok (t : pref_stride_c) : Prop := exists shift, stride_ok (pk_stride k) shift t.
Definition pref_ok (p : pref_base_c) : Prop := tables_ok (tables p) /\ good_id (id (hwp_info p)).
Record framework_ok (c : hwp_common_c) : Prop := { fo_queues : queues_ok k (hq c); fo_prefs : Forall pref_ok (pref_table c) }.

Lemma queues_ok_insts m h : queues_ok k h -> queues_ok k (with_insts m h).
Proof. intros []. by split. Qed.
Lemma notify_ok listens f tid uop : (KNOB_PREF_TRAIN_INST_ONCE k = true -> is_Some uop) ->
  (forall i t h, good_id i -> tables_ok t -> queues_ok k h -> exists t' h', f i t h = Done (t', h') /\ tables_ok t' /\ queues_ok k h') ->
  forall l h, Forall pref_ok l -> queues_ok k h -> exists l' h', notify k listens f tid uop l h = Done (l', h') /\ Forall pref_ok l' /\ queues_ok k h'.
Proof.
  intros Hu Hf. induction l as [| p l IH]; intros h Hl Hh; simpl; [by exists [], h |]. apply Forall_cons in Hl as [[Hp Hid] Hl].
  assert (Hcall : exists p1 h1, ('(t, h') ← f (id (hwp_info p)) (tables p) h; mret (mk_pref (hwp_info p) (on_l1_miss p) (on_l1_hit p) (on_l2_miss p) (on_l2_hit p) t, h')) = Done (p1, h1) /\
    pref_ok p1 /\ queues_ok k h1).
  { destruct (Hf (id (hwp_info p)) (tables p) h Hid Hp Hh) as (t' & h' & -> & Ht & Hh'). rewrite bind_done. eexists _, h'. split; [done |]. by split. }
  destruct Hcall as (p1 & h1 & Ec & Hp1 & Hh1).
  assert (H1 : exists p2 h2, (if enabled (hwp_info p) && listens p then
      if KNOB_PREF_TRAIN_INST_ONCE k then
        inst ← get_or NullDeref uop; if bool_decide (m_last_inst_num h !! tid = Some inst) then mret (p, h) else
        '(p', h') ← ('(t, h') ← f (id (hwp_info p)) (tables p) h; mret (mk_pref (hwp_info p) (on_l1_miss p) (on_l1_hit p) (on_l2_miss p) (on_l2_hit p) t, h'));
        mret (p', with_insts (<[tid := inst]> (m_last_inst_num h')) h')
      else '(t, h') ← f (id (hwp_info p)) (tables p) h; mret (mk_pref (hwp_info p) (on_l1_miss p) (on_l1_hit p) (on_l2_miss p) (on_l2_hit p) t, h')
    else mret (p, h)) = Done (p2, h2) /\ pref_ok p2 /\ queues_ok k h2).
  { destruct (enabled (hwp_info p) && listens p); [| by exists p, h]. destruct (KNOB_PREF_TRAIN_INST_ONCE k); [| by exists p1, h1].
    destruct (Hu eq_refl) as [inst ->]. simpl get_or. rewrite bind_done. case_bool_decide; [by exists p, h |]. rewrite Ec, bind_done.
    eexists _, _. split; [done |]. split; [done | by apply queues_ok_insts]. }
  destruct H1 as (p2 & h2 & -> & Hp2 & Hh2). rewrite bind_done. destruct (IH h2 Hl Hh2) as (l' & h' & -> & Hl' & Hh'). rewrite bind_done. eexists _, h'. split; [done |].
  split; [by constructor | done].
Qed.

Lemma stride_train_ok now i tid addr hit t h : good_id i -> tables_ok t -> queues_ok k h ->
  exists t' h', train (PrefQueue0 := framework_queue k now) (pk_stride k) i now tid addr hit t h = Done (t', h') /\ tables_ok t' /\ queues_ok k h'.
Proof.
  intros Hi [shift Ht] Hh. pose proof (framework_queue_law k Hk now i Hi) as Hlaw.
  destruct (stride_access_ok (PrefQueue0 := framework_queue k now) (PrefQueueOk0 := Hlaw) (pk_stride k) i (pk_thresh _ Hk) (pk_table _ Hk) shift now tid addr hit t h) as (t' & h' & E & Ht' & Hh'); [done | done |].
  exists t', h'. split_and!; [done | by exists shift | done].
Qed.

Lemma notify_all_ok listens f tid uop c : (KNOB_PREF_TRAIN_INST_ONCE k = true -> is_Some uop) ->
  (forall i t h, good_id i -> tables_ok t -> queues_ok k h -> exists t' h', f i t h = Done (t', h') /\ tables_ok t' /\ queues_ok k h') ->
  framework_ok c -> exists c', notify_all k listens f tid uop c = Done c' /\ framework_ok c'.
Proof.
  intros Hu Hf [Hq Hp]. unfold notify_all. destruct (notify_ok listens f tid uop Hu Hf (pref_table c) (hq c) Hp Hq) as (l & h & -> & Hl & Hh). rewrite bind_done.
  eexists. split; [done |]. by split.
Qed.
Lemma check_polbv_ok line h : KNOB_PREF_POLBV_ON k = true -> queues_ok k h -> exists h', check_polbv k line h = Done h' /\ queues_ok k h'.
Proof.
  intros Hp Hh. unfold check_polbv. pose proof (polbv_range k Hk line). pose proof (qo_polbv _ _ Hh Hp).
  destruct (aget_in_range (m_polbv_info h) (pref_polbv_access k line)) as (b & _ & ->); [lia |]. rewrite bind_done.
  destruct (set_polbv_ok k Hk line 0 (if b =? 1 then with_counts (count_pfpol h) h else h) Hp) as (h' & -> & Hh' & _); [destruct (b =? 1); [by apply with_counts_ok | done] | by exists h'].
Qed.
Lemma region_step now addr hit miss onPF ev h : queues_ok k h ->
  exists h', (if KNOB_PREF_REGION_ON k then pref_update_regioninfo k now addr hit miss onPF ev 0 h else mret h) = Done h' /\ queues_ok k h'.
Proof.
  intros Hh. destruct (KNOB_PREF_REGION_ON k) eqn:E; [| by exists h]. destruct (pref_update_regioninfo_ok k Hk now addr hit miss onPF ev 0 h E ltac:(lia) Hh) as (h' & -> & Hh' & _). by exists h'.
Qed.

Lemma hwp_train_ok now level tid addr uop hit c : (KNOB_PREF_TRAIN_INST_ONCE k = true -> is_Some uop) -> framework_ok c ->
  exists c', hwp_train k now level tid addr uop hit c = Done c' /\ framework_ok c'.
Proof.
  intros Hu Hc. pose proof Hc as [Hq Hp]. unfold hwp_train. destruct (negb (KNOB_PREF_FRAMEWORK_ON k)) eqn:Eon; [by exists c |].
  assert (Hn : forall listens hit c0, framework_ok c0 -> exists c', notify_all k listens (fun i t h => train (PrefQueue0 := framework_queue k now) (pk_stride k) i now tid addr hit t h) tid uop c0 = Done c' /\ framework_ok c').
  { intros listens b c0 Hc0. apply notify_all_ok; [done | | done]. intros. by apply stride_train_ok. }
  destruct level; [| | by exists c].
  - destruct hit; [unfold pref_l1_hit | unfold pref_l1_miss]; (destruct (_ || _); [by exists c | by apply (Hn _ false)]).
  - destruct hit; [unfold pref_l2_hit | unfold pref_l2_miss]; rewrite Eon.
    + destruct (region_step now addr true false false 0 (hq c) Hq) as (h1 & -> & Hh1). rewrite bind_done. apply (Hn _ true). by split.
    + destruct (region_step now addr false true false 0 (count_miss 1 (hq c))) as (h1 & -> & Hh1); [by apply with_counts_ok |]. rewrite bind_done.
      assert (H2 : exists h2, (if KNOB_PREF_POLBV_ON k then check_polbv k (Z.shiftr addr (m_shift_bit k)) h1 else mret h1) = Done h2 /\ queues_ok k h2).
      { destruct (KNOB_PREF_POLBV_ON k) eqn:E; [by apply check_polbv_ok | by exists h1]. }
      destruct H2 as (h2 & -> & Hh2). rewrite bind_done. apply (Hn _ false). by split.
Qed.

(** What happens to the framework of a core. *)
Inductive event :=
  | ETrain (level : cache_level) (tid addr : Z) (uop : option Z) (hit : bool)
  | EUpdate
  | EDemand (addr : Z)
  | EEvictOnPF (addr : Z)
  | EEvict
  | ENotUsed.
Definition on_queues (f : hwp_queues -> outcome hwp_queues) (c : hwp_common_c) : outcome hwp_common_c := h ← f (hq c); mret (mk_hwp (pref_table c) h).
Definition framework_step (now : Z) (e : event) (c : hwp_common_c) (m : M) : outcome (hwp_common_c * M) :=
  match e with
  | ETrain level tid addr uop hit => c' ← hwp_train k now level tid addr uop hit c; mret (c', m)
  | EUpdate => '(h, m') ← pref_update_queues k now (hq c) m; mret (mk_hwp (pref_table c) h, m')
  | EDemand addr => c' ← on_queues (fun h => '(h1, _) ← pref_l1req_queue_filter k addr h; '(h2, _) ← pref_l2req_queue_filter k addr h1; mret h2) c; mret (c', m)
  | EEvictOnPF addr => c' ← on_queues (pref_l2evictOnPF k now addr) c; mret (c', m)
  | EEvict => mret (mk_hwp (pref_table c) (pref_l2evict k (hq c)), m)
  | ENotUsed => mret (mk_hwp (pref_table c) (pref_evictline_notused k (hq c)), m)
  end.
Fixpoint framework_run (l : list (Z * event)) (c : hwp_common_c) (m : M) : outcome (hwp_common_c * M) :=
  match l with [] => mret (c, m) | (now, e) :: l' => '(c1, m1) ← framework_step now e c m; framework_run l' c1 m1 end.
Definition event_ok (e : event) : Prop :=
  match e with ETrain _ _ _ uop _ => KNOB_PREF_TRAIN_INST_ONCE k = true -> is_Some uop | _ => True end.

Lemma framework_step_ok now e c m : event_ok e -> framework_ok c -> mem_ok m ->
  exists c' m', framework_step now e c m = Done (c', m') /\ framework_ok c' /\ mem_ok m'.
Proof.
  intros He Hc Hm. pose proof Hc as [Hq Hp]. destruct e as [level tid addr uop hit | | addr | addr | |]; simpl in *.
  - destruct (hwp_train_ok now level tid addr uop hit c He Hc) as (c' & -> & Hc'). rewrite bind_done. by exists c', m.
  - destruct (update_queues_ok k Hk now (hq c) m Hq Hm) as (h & m' & -> & Hh & Hm'). rewrite bind_done. eexists _, m'. split; [done |]. by split.
  - unfold on_queues. destruct (pref_l1req_queue_filter_ok k Hk addr (hq c) Hq) as (h1 & b1 & -> & Hh1). rewrite bind_done.
    destruct (pref_l2req_queue_filter_ok k Hk addr h1 Hh1) as (h2 & b2 & -> & Hh2). eexists _, m. split; [done |]. by split.
  - unfold on_queues, pref_l2evictOnPF. destruct (negb _); [exists c, m; split; [by destruct c | done] |].
    assert (H1 : exists h1, (if KNOB_PREF_POLBV_ON k then set_polbv k (Z.shiftr addr (m_shift_bit k)) 1 (hq c) else mret (hq c)) = Done h1 /\ queues_ok k h1).
    { destruct (KNOB_PREF_POLBV_ON k) eqn:E; [| by exists (hq c)]. destruct (set_polbv_ok k Hk (Z.shiftr addr (m_shift_bit k)) 1 (hq c) E Hq) as (h1 & -> & Hh1 & _). by exists h1. }
    destruct H1 as (h1 & -> & Hh1). rewrite bind_done. destruct (region_step now addr false false true now h1 Hh1) as (h2 & -> & Hh2). eexists _, m. split; [done |]. by split.
  - eexists _, m. split; [done |]. split; [| done]. split; [| done]. unfold pref_l2evict. simpl. destruct (KNOB_PREF_FRAMEWORK_ON k); [by apply with_counts_ok | done].
  - eexists _, m. split; [done |]. split; [| done]. split; [| done]. unfold pref_evictline_notused. simpl. destruct (KNOB_PREF_FRAMEWORK_ON k); [by apply with_counts_ok | done].
Qed.
Lemma framework_run_ok l : forall c m, Forall (fun x => event_ok x.2) l -> framework_ok c -> mem_ok m ->
  exists c' m', framework_run l c m = Done (c', m') /\ framework_ok c' /\ mem_ok m'.
Proof.
  induction l as [| [now e] l IH]; intros c m He Hc Hm; simpl; [by exists c, m |]. apply Forall_cons in He as [He Hl].
  destruct (framework_step_ok now e c m He Hc Hm) as (c1 & m1 & -> & Hc1 & Hm1). rewrite bind_done. by apply IH.
Qed.

(** What [new] gives the framework: arrays of the sizes the knobs say. *)
Record allocated (l1 l2 : list pref_mem_req_s) (ri : list pref_region_info_s) (bv : list Z) : Prop := {
  al_l1 : Z.of_nat (length l1) = KNOB_PREF_DL0REQ_QUEUE_SIZE k;
  al_l2 : Z.of_nat (length l2) = KNOB_PREF_UL1REQ_QUEUE_SIZE k;
  al_regions : KNOB_PREF_REGION_ON k = true -> Z.of_nat (length ri) = KNOB_PREF_NUMTRACKING_REGIONS k /\
    Forall (fun r => Z.of_nat (length (status r)) = 2 ^ LOG2_PREF_REGION_SIZE k) ri;
  al_polbv : KNOB_PREF_POLBV_ON k = true -> KNOB_LOG2_PREF_POLBV_SIZE k < Z.of_nat (length bv)
}.
Lemma pref_init_ok cid l1 l2 ri bv junk : allocated l1 l2 ri bv -> queues_ok k (pref_init k cid l1 l2 ri bv junk) /\ pending (m_l2req_queue (pref_init k cid l1 l2 ri bv junk)) = [].
Proof.
  intros [A1 A2 A3 A4]. pose proof (pk_s1 _ Hk). pose proof (pk_s2 _ Hk). split.
  - split; simpl; unfold ring_ok; rewrite ?length_fmap; try done; try lia.
    + intros _ i j r r' Hr _ Hv. apply list_lookup_fmap_Some in Hr as (x & -> & _). done.
    + intros E. destruct (A3 E) as [? Hf]. split; [done |]. apply Forall_fmap. eapply Forall_impl; [exact Hf |]. done.
    + intros _. apply Forall_fmap, Forall_forall. done.
  - apply filter_none. intros r Hr. simpl in Hr. apply list_elem_of_fmap in Hr as (x & -> & _). done.
Qed.
End SYSTEM.

(** ** Properties *)

Section PROPERTIES.
Context (k : pref_knobs).
Context {M : Type} `{!PrefMemory M} {mem_ok : M -> Prop} `{!PrefMemoryOk M mem_ok}.

(** C21: the framework and its stride prefetcher together, from their constructors on
    and under any sequence of training events, cycles, demand accesses and evictions:
    nothing leaves an array, no assertion fails, the queues and tables stay well
    formed, and no two waiting requests are for the same line when insertion is
    filtered. This holds when the uninitialised member [core_id] of the prefetcher
    happens to name a core, the prefetcher was created with a number below 16 if
    regions are tracked (the counter runs over all cores and an assertion bounds it),
    and every training event has a micro-operation if an instruction trains only
    once. The prefetcher is used through its interface with the queue. *)
Theorem prefetch_framework_safe next_id on member jr ji cid l1 l2 ri bv junk l (m : M) :
  pref_knobs_ok k -> hwp_common_new k cid -> allocated k l1 l2 ri bv -> 0 <= member < Z.of_nat (length (m_l1_line_size (pk_stride k))) ->
  (KNOB_PREF_REGION_ON k = true -> u8 next_id < 16) ->
  Z.of_nat (length jr) = KNOB_PREF_STRIDE_TABLE_N (pk_stride k) -> Z.of_nat (length ji) = KNOB_PREF_STRIDE_TABLE_N (pk_stride k) ->
  Forall (fun x => event_ok k x.2) l -> mem_ok m ->
  exists c' m', framework_run k l (mk_hwp (pref_factory next_id on (init_func member jr ji)) (pref_init k cid l1 l2 ri bv junk)) m = Done (c', m') /\
    framework_ok k c' /\ mem_ok m' /\
    (KNOB_PREF_UL1REQ_ADD_FILTER_ON k = true -> distinct_lines (m_l2req_queue (hq c'))).
Proof.
  intros Hk _ Ha Hmem Hid Hjr Hji Hl Hm.
  destruct (framework_run_ok k Hk l (mk_hwp (pref_factory next_id on (init_func member jr ji)) (pref_init k cid l1 l2 ri bv junk)) m Hl) as (c' & m' & E & Hc & Hm').
  - split; [by apply pref_init_ok |]. constructor; [| constructor]. split; [| done].
    destruct (aget_in_range _ _ Hmem) as (z & _ & Ez). exists (Bits.log2_int z). apply init_func_ok; [| done | done]. unfold LOG2_DCACHE_LINE_SIZE. by rewrite Ez.
  - done.
  - exists c', m'. split; [exact E |]. split; [done |]. split; [done |]. apply Hc.
Qed.

(** C29: The request queue drains. With the framework on, a memory that
    takes every request and an idle L1 queue, cycles whose send slots
    together go once around the queue leave it empty, and every waiting
    request for an address below 2^63 was sent exactly once; those for
    addresses with the top bit set are dropped. *)
Theorem prefetch_queue_drains nows h (m : M) : pref_knobs_ok k -> KNOB_PREF_FRAMEWORK_ON k = true -> queues_ok k h -> mem_ok m -> l1_idle h ->
  always_accepts (M := M) -> KNOB_PREF_UL1REQ_QUEUE_SIZE k <= Z.of_nat (length nows) * KNOB_PREF_UL1SCHEDULE_NUM k ->
  exists h' m' out, updates k nows h m = Done (h', m') /\ pending (m_l2req_queue h') = [] /\ out ≡ₚ pending (m_l2req_queue h) /\
    served m (filter (fun r => sendable r = true) out) m'.
Proof.
  intros Hk Hon Hh Hm Hi Ha Hn. destruct (updates_idle k Hk nows h m Hh Hm Hi Hon) as (h' & m' & out & E & Hh' & _ & P & Sv & Hfree & _). exists h', m', out. split; [done |].
  assert (Hempty : pending (m_l2req_queue h') = []).
  { apply filter_none. intros r Hr Hv. apply list_elem_of_lookup in Hr as [i Hr]. pose proof (qo_l2 _ _ Hh) as (_ & _ & Hsp). pose proof (qo_l2 _ _ Hh') as (Hl & _ & _).
    pose proof (pk_s2 _ Hk) as Hs2. pose proof (lookup_lt_Some _ _ _ Hr) as Hlt. set (S2 := KNOB_PREF_UL1REQ_QUEUE_SIZE k) in *.
    specialize (Hfree Ha ((Z.of_nat i - m_l2req_queue_send_pos h) mod S2)). pose proof (Z.mod_pos_bound (Z.of_nat i - m_l2req_queue_send_pos h) S2 Hs2) as Hb.
    rewrite Z.add_mod_idemp_r in Hfree by lia. replace (m_l2req_queue_send_pos h + (Z.of_nat i - m_l2req_queue_send_pos h)) with (Z.of_nat i) in Hfree by lia.
    assert (0 <= KNOB_PREF_UL1SCHEDULE_NUM k) as Hnum by nia. rewrite Z2Nat.id in Hfree by done.
    rewrite (Z.mod_small (Z.of_nat i)) in Hfree by lia. rewrite (Hfree ltac:(lia) r) in Hv; [done |]. by rewrite Nat2Z.id. }
  split; [done |]. rewrite Hempty, app_nil_r in P. by split.
Qed.
End PROPERTIES.

(** Feedback indexes the table of the core with an id drawn from a counter of the
    whole program: it misses the table of every core but the first, and is ignored
    there. *)
Lemma feedback_out_of_bounds k next_id on t h : KNOB_PREF_FRAMEWORK_ON k = true -> KNOB_PREF_USEREGION_TOCALC_ACC k = false -> 0 < u8 next_id ->
  pref_l2sent k (u8 next_id) (mk_hwp (pref_factory next_id on t) h) = Fault OutOfBounds.
Proof.
  intros H1 H2 H3. unfold pref_l2sent. rewrite H1, H2, (proj2 (Z.eqb_neq _ 0)) by lia. simpl. unfold upd_info, aget. rewrite (proj2 (Z.leb_le 0 _)) by lia.
  destruct (Z.to_nat (u8 next_id)) as [| n] eqn:E; [lia | done].
Qed.

(** ** An example *)

(** A memory that takes every request and remembers it. *)
Module PrefetchExample.
#[export] Instance logger : PrefMemory (list pref_mem_req_s) := {
  bank_id c a m := 0; get_read_port c b m := mret (m, true); access_cache c a m := mret (m, false); new_mem_req r m := mret (m ++ [r], true)
}.
#[export] Instance logger_ok : PrefMemoryOk (list pref_mem_req_s) (fun _ => True).
Proof. split; by intros; eexists _, _. Qed.
Definition k : pref_knobs := mk_pref_knobs StrideExample.k 6 true 2 4 true true true true true true false false 1 2 true false 2 4 true 3 false false 16 12 8 4 64.
Definition slot0 : pref_mem_req_s := mk_pref_req 7 7 7 7 true 7 7.
Definition region0 : pref_region_info_s := mk_region_info 7 7 true true (replicate 16 no_status).
Lemma example_knobs_ok : pref_knobs_ok k.
Proof. split; by vm_compute. Qed.
Lemma alloc_ok : allocated k (replicate 2 slot0) (replicate 4 slot0) (replicate 2 region0) (replicate 8 1).
Proof. split; try done. intros _. split; [done |]. by repeat constructor. Qed.
Definition events : list (Z * event) := ((fun j => (a_cycle (StrideExample.a j), ETrain MEM_LLC 0 (a_line_addr (StrideExample.a j)) None false)) <$> seq 0 6).
Definition h0 : hwp_queues :=
  mk_queues 0 (replicate 2 (invalid slot0)) (-1) 0 [mk_pref_req 640 10 0 0 true 0 0; invalid slot0; mk_pref_req 704 11 0 0 true 0 0; mk_pref_req (2 ^ 63) (2 ^ 57) 0 0 true 0 0] 3 1
    (replicate 2 region0) (replicate 8 1) ∅ (mk_counters 0 0 0 0 0 0 0 0).
Lemma h0_ok : queues_ok k h0.
Proof.
  split; try (vm_compute; by repeat split); try done.
  - intros _ i j r r' Hr Hr' V V' E. do 4 (destruct i as [| i]; [do 4 (destruct j as [| j]; [simpl in Hr, Hr'; simplify_eq; done |]); done |]). done.
  - intros _. split; [done |]. by repeat constructor.
  - intros _. by repeat constructor.
Qed.
End PrefetchExample.
#[local] Existing Instance PrefetchExample.logger.
#[local] Existing Instance PrefetchExample.logger_ok.

Lemma prefetch_framework_safe_witness : exists c' (m' : list pref_mem_req_s),
  framework_run PrefetchExample.k PrefetchExample.events
    (mk_hwp (pref_factory 0 true (init_func 1 StrideExample.junk_r StrideExample.junk_i))
       (pref_init PrefetchExample.k 0 (replicate 2 PrefetchExample.slot0) (replicate 4 PrefetchExample.slot0) (replicate 2 PrefetchExample.region0) (replicate 8 1) 5)) [] = Done (c', m') /\
  framework_ok PrefetchExample.k c' /\ (line_index <$> pending (m_l2req_queue (hq c'))) = [1034; 1036; 1038; 1040].
Proof.
  destruct (prefetch_framework_safe PrefetchExample.k 0 true 1 StrideExample.junk_r StrideExample.junk_i 0 (replicate 2 PrefetchExample.slot0) (replicate 4 PrefetchExample.slot0)
    (replicate 2 PrefetchExample.region0) (replicate 8 1) 5 PrefetchExample.events ([] : list pref_mem_req_s)) as (c' & m' & E & Hc & _).
  - exact PrefetchExample.example_knobs_ok.
  - reflexivity.
  - exact PrefetchExample.alloc_ok.
  - vm_compute. split; [discriminate | reflexivity].
  - intros _. reflexivity.
  - reflexivity.
  - reflexivity.
  - repeat (apply Forall_cons; split; [discriminate |]). apply Forall_nil. exact I.
  - exact I.
  - exists c', m'. split; [exact E |]. split; [exact Hc |]. vm_compute in E. injection E as <- _. vm_compute. reflexivity.
Defined.

Lemma prefetch_queue_drains_witness : exists h' (m' : list pref_mem_req_s),
  updates PrefetchExample.k [20; 21] PrefetchExample.h0 [] = Done (h', m') /\ pending (m_l2req_queue h') = [] /\ (line_index <$> m') = [11; 10].
Proof.
  destruct (prefetch_queue_drains PrefetchExample.k [20; 21] PrefetchExample.h0 ([] : list pref_mem_req_s)) as (h' & m' & out & E & Hp & _).
  - exact PrefetchExample.example_knobs_ok.
  - reflexivity.
  - exact PrefetchExample.h0_ok.
  - exact I.
  - repeat constructor.
  - intros r m m' b [= _ <-]. reflexivity.
  - vm_compute. discriminate.
  - exists h', m'. split; [exact E |]. split; [exact Hp |]. vm_compute in E. injection E as _ <-. reflexivity.
Defined.
