(* ===== verification/Frontend.v ===== *)
(** * The front end (frontend.cc, frontend.h)

    Every cycle the front end picks a thread round-robin, looks its address up in the
    instruction cache and, on a hit, reads micro-operations from the trace, maps
    their sources, predicts branches and puts them in the front-end queue. Traces,
    predictors and the memory system answer through the class [FetchEnv]; the
    branches for the SST back end are not compiled in. *)

From S2P Require Import Prelude.
From S2P Require Import Utils.
From S2P Require Import Pqueue.
From S2P Require Import Cache.
From S2P Require Import Rob.
From S2P Require Import Uops.
From S2P Require Import Map.

Import Rob.

Inductive FRONTEND_MODE := FRONTEND_MODE_PERFECT | FRONTEND_MODE_IFETCH | FRONTEND_MODE_WAIT_FOR_MISS | FRONTEND_MODE_WAIT_FOR_TIMER.

(** What is known of a thread for fetching. *)
Record frontend_s := mk_fetch_data {
  m_fe_mode : FRONTEND_MODE;
  m_fe_prev_mode : FRONTEND_MODE;
  m_fetch_blocked : bool;
  m_first_time : bool;
  m_sync_wait_start : Z;
  m_sync_wait_count : Z;
  m_MT_load_waiting : Z;
  m_MT_br_waiting : bool;
  m_fetch_ready_addr : Z;
  m_next_fetch_addr : Z;
  m_load_waiting : gset Z
}.
Record thread_s := mk_thread { m_block_id : Z; m_process_id : Z; m_fetch_data : frontend_s }.
Record sync_thread_s := mk_sync { m_sync_count : Z; m_num_threads_in_block : Z }.

(** A micro-operation as the trace reader delivers it: its object, the objects of its
    children, and what the predictors are compared with. *)
Record fetched := mk_fetched { f_uop : uop_s; f_children : list (nat * uop_s); m_dir : Z; m_npc : Z; m_target_addr : Z }.

Record frontend_knobs := mk_frontend_knobs {
  fk_map : map_knobs;
  fk_cache : cache_knobs;
  m_knob_width : Z;
  m_knob_fetch_width : Z;
  m_ptx_sim : bool;
  m_fetch_ratio : Z;
  KNOB_NUM_WARP_SCHEDULER : nat;
  KNOB_PERFECT_ICACHE : bool;
  KNOB_NO_FETCH_ON_ICACHE_MISS : bool;
  KNOB_MT_NO_FETCH_BR : bool;
  KNOB_FETCH_ONLY_LOAD_READY : bool;
  KNOB_ENABLE_BTB : bool;
  KNOB_USE_BRANCH_PREDICTION : bool;
  KNOB_PERFECT_BP : bool
}.

(** The fields of the core the front end shares. *)
Record core_fetch := mk_core_fetch {
  m_thread_trace_info : gmap Z thread_s;
  m_fetch_ended : gmap Z bool;
  m_thread_reach_end : gmap Z bool;
  m_fetching_thread_num : Z;
  m_unique_scheduled_thread_num : Z;
  m_last_terminated_tid : Z;
  m_inst_fetched : gmap Z Z;
  m_max_inst_fetched : Z;
  m_ops_to_be_dispatched : gmap Z Z;
  m_last_fetch_cycle : gmap Z Z
}.
(** What the trace reader works on besides the micro-operation it fills in: the
    core's fields, the barriers, the pool it takes children from, its own files. *)
Record trace_view (T : Type) := mk_view { tv_core : core_fetch; tv_sync : gmap Z sync_thread_s; tv_pool : Pool.pool_c; tv_env : T }.
Arguments mk_view {T}.
Arguments tv_core {T}.
Arguments tv_sync {T}.
Arguments tv_pool {T}.
Arguments tv_env {T}.

Class FetchEnv (T : Type) := {
  setup_trace : Z -> T -> outcome T;
  (** the address of the first instruction of a thread *)
  first_address : Z -> T -> outcome Z;
  get_uops_from_traces : Z -> uop_s -> trace_view T -> outcome (trace_view T * option fetched);
  bp_pred : fetched -> T -> outcome (T * Z);
  bp_targ_pred : fetched -> T -> outcome (T * Z);
  (** [new_mem_req] for an instruction line of a thread *)
  ifetch_req : Z -> Z -> T -> outcome (T * bool)
}.

Record bp_cycles := mk_bp_cycles { m_bp_recovery_cycle : gmap Z Z; m_bp_redirect_cycle : gmap Z Z; m_bp_cause_op : gmap Z Z }.

Record frontend_c (T : Type) := mk_frontend {
  fe_core : core_fetch;
  fe_map : map_c;
  m_uop_pool : Pool.pool_c;
  m_q_frontend : pqueue_c (T := option nat);
  m_icache : cache_c (D := Z);
  fe_bp : bp_cycles;
  m_sync_info : gmap Z sync_thread_s;
  m_sync_done : list Z;
  m_fe_running : bool;
  m_fe_stall : bool;
  m_fetch_modulo : Z;
  m_fetch_arbiter : Z;
  m_mem_access_thread_num : Z;
  m_last_fetch_tid_failed : bool;
  fe_env : T
}.
Arguments mk_frontend {T}.
Arguments fe_core {T}.
Arguments fe_map {T}.
Arguments m_uop_pool {T}.
Arguments m_q_frontend {T}.
Arguments m_icache {T}.
Arguments fe_bp {T}.
Arguments m_sync_info {T}.
Arguments m_sync_done {T}.
Arguments m_fe_running {T}.
Arguments m_fe_stall {T}.
Arguments m_fetch_modulo {T}.
Arguments m_fetch_arbiter {T}.
Arguments m_mem_access_thread_num {T}.
Arguments m_last_fetch_tid_failed {T}.
Arguments fe_env {T}.

(** ** Field updates *)

Definition with_mode (m p : FRONTEND_MODE) (d : frontend_s) : frontend_s :=
  mk_fetch_data m p (m_fetch_blocked d) (m_first_time d) (m_sync_wait_start d) (m_sync_wait_count d) (m_MT_load_waiting d) (m_MT_br_waiting d)
    (m_fetch_ready_addr d) (m_next_fetch_addr d) (m_load_waiting d).
Definition with_addrs (first : bool) (ready next : Z) (d : frontend_s) : frontend_s :=
  mk_fetch_data (m_fe_mode d) (m_fe_prev_mode d) (m_fetch_blocked d) first (m_sync_wait_start d) (m_sync_wait_count d) (m_MT_load_waiting d) (m_MT_br_waiting d)
    ready next (m_load_waiting d).
Definition with_waits (n : Z) (br : bool) (w : gset Z) (d : frontend_s) : frontend_s :=
  mk_fetch_data (m_fe_mode d) (m_fe_prev_mode d) (m_fetch_blocked d) (m_first_time d) (m_sync_wait_start d) (m_sync_wait_count d) n br
    (m_fetch_ready_addr d) (m_next_fetch_addr d) w.
Definition with_sync (b : bool) (c : Z) (d : frontend_s) : frontend_s :=
  mk_fetch_data (m_fe_mode d) (m_fe_prev_mode d) b (m_first_time d) (m_sync_wait_start d) c (m_MT_load_waiting d) (m_MT_br_waiting d)
    (m_fetch_ready_addr d) (m_next_fetch_addr d) (m_load_waiting d).
Definition with_threads (t : gmap Z thread_s) (c : core_fetch) : core_fetch :=
  mk_core_fetch t (m_fetch_ended c) (m_thread_reach_end c) (m_fetching_thread_num c) (m_unique_scheduled_thread_num c) (m_last_terminated_tid c)
    (m_inst_fetched c) (m_max_inst_fetched c) (m_ops_to_be_dispatched c) (m_last_fetch_cycle c).
Definition with_fetch_counts (i : gmap Z Z) (mx : Z) (o l : gmap Z Z) (c : core_fetch) : core_fetch :=
  mk_core_fetch (m_thread_trace_info c) (m_fetch_ended c) (m_thread_reach_end c) (m_fetching_thread_num c) (m_unique_scheduled_thread_num c)
    (m_last_terminated_tid c) i mx o l.

Section UPDATES.
Context {T : Type}.
Abbreviation state := (frontend_c T).
Definition with_core (c : core_fetch) (s : state) : state :=
  mk_frontend c (fe_map s) (m_uop_pool s) (m_q_frontend s) (m_icache s) (fe_bp s) (m_sync_info s) (m_sync_done s) (m_fe_running s) (m_fe_stall s)
    (m_fetch_modulo s) (m_fetch_arbiter s) (m_mem_access_thread_num s) (m_last_fetch_tid_failed s) (fe_env s).
Definition with_objects (m : map_c) (p : Pool.pool_c) (s : state) : state :=
  mk_frontend (fe_core s) m p (m_q_frontend s) (m_icache s) (fe_bp s) (m_sync_info s) (m_sync_done s) (m_fe_running s) (m_fe_stall s)
    (m_fetch_modulo s) (m_fetch_arbiter s) (m_mem_access_thread_num s) (m_last_fetch_tid_failed s) (fe_env s).
Definition with_queue (q : pqueue_c (T := option nat)) (s : state) : state :=
  mk_frontend (fe_core s) (fe_map s) (m_uop_pool s) q (m_icache s) (fe_bp s) (m_sync_info s) (m_sync_done s) (m_fe_running s) (m_fe_stall s)
    (m_fetch_modulo s) (m_fetch_arbiter s) (m_mem_access_thread_num s) (m_last_fetch_tid_failed s) (fe_env s).
Definition with_icache (c : cache_c (D := Z)) (s : state) : state :=
  mk_frontend (fe_core s) (fe_map s) (m_uop_pool s) (m_q_frontend s) c (fe_bp s) (m_sync_info s) (m_sync_done s) (m_fe_running s) (m_fe_stall s)
    (m_fetch_modulo s) (m_fetch_arbiter s) (m_mem_access_thread_num s) (m_last_fetch_tid_failed s) (fe_env s).
Definition with_bp (b : bp_cycles) (s : state) : state :=
  mk_frontend (fe_core s) (fe_map s) (m_uop_pool s) (m_q_frontend s) (m_icache s) b (m_sync_info s) (m_sync_done s) (m_fe_running s) (m_fe_stall s)
    (m_fetch_modulo s) (m_fetch_arbiter s) (m_mem_access_thread_num s) (m_last_fetch_tid_failed s) (fe_env s).
Definition with_barriers (i : gmap Z sync_thread_s) (d : list Z) (s : state) : state :=
  mk_frontend (fe_core s) (fe_map s) (m_uop_pool s) (m_q_frontend s) (m_icache s) (fe_bp s) i d (m_fe_running s) (m_fe_stall s)
    (m_fetch_modulo s) (m_fetch_arbiter s) (m_mem_access_thread_num s) (m_last_fetch_tid_failed s) (fe_env s).
Definition with_arbiter (md ar : Z) (failed : bool) (s : state) : state :=
  mk_frontend (fe_core s) (fe_map s) (m_uop_pool s) (m_q_frontend s) (m_icache s) (fe_bp s) (m_sync_info s) (m_sync_done s) (m_fe_running s) (m_fe_stall s)
    md ar (m_mem_access_thread_num s) failed (fe_env s).
Definition with_mem_threads (n : Z) (s : state) : state :=
  mk_frontend (fe_core s) (fe_map s) (m_uop_pool s) (m_q_frontend s) (m_icache s) (fe_bp s) (m_sync_info s) (m_sync_done s) (m_fe_running s) (m_fe_stall s)
    (m_fetch_modulo s) (m_fetch_arbiter s) n (m_last_fetch_tid_failed s) (fe_env s).
Definition with_running (b : bool) (s : state) : state :=
  mk_frontend (fe_core s) (fe_map s) (m_uop_pool s) (m_q_frontend s) (m_icache s) (fe_bp s) (m_sync_info s) (m_sync_done s) b (m_fe_stall s)
    (m_fetch_modulo s) (m_fetch_arbiter s) (m_mem_access_thread_num s) (m_last_fetch_tid_failed s) (fe_env s).
Definition with_env (t : T) (s : state) : state :=
  mk_frontend (fe_core s) (fe_map s) (m_uop_pool s) (m_q_frontend s) (m_icache s) (fe_bp s) (m_sync_info s) (m_sync_done s) (m_fe_running s) (m_fe_stall s)
    (m_fetch_modulo s) (m_fetch_arbiter s) (m_mem_access_thread_num s) (m_last_fetch_tid_failed s) t.
End UPDATES.

Section FRONTEND.
Context {T : Type} `{!FetchEnv T}.
(** The invalid object, what uninitialised memory holds, and the three clocks: the
    simulator's, the core's in the simulator and the core's own. *)
Context (k : frontend_knobs) (inv : nat) (junk_entry : mem_map_entry_c) (junk_uop : uop_s) (now m_cur_core_cycle cycle_count : Z).
Abbreviation state := (frontend_c T).
Definition MAX_CTR : Z := 18446744073709551615.

(** [frontend_s::init]; the address a thread waits for is not initialised. *)
Definition init (junk_mode : FRONTEND_MODE) (junk_addr : Z) : frontend_s :=
  mk_fetch_data FRONTEND_MODE_IFETCH junk_mode false true 0 0 0 false junk_addr 0 ∅.
Definition start (s : state) : state := with_running true s.
Definition stop (s : state) : state := with_running false s.

Definition get_trace_info (tid : Z) (s : state) : outcome thread_s :=
  _ ← ASSERT (tid <? m_unique_scheduled_thread_num (fe_core s));
  get_or NullDeref (m_thread_trace_info (fe_core s) !! tid).
Definition set_fetch_data (tid : Z) (t : thread_s) (d : frontend_s) (s : state) : state :=
  with_core (with_threads (<[tid := mk_thread (m_block_id t) (m_process_id t) d]> (m_thread_trace_info (fe_core s))) (fe_core s)) s.
Definition upd_fetch_data (tid : Z) (f : frontend_s -> frontend_s) (s : state) : outcome state :=
  t ← get_trace_info tid s; mret (set_fetch_data tid t (f (m_fetch_data t)) s).
Definition flag (m : gmap Z bool) (t : Z) : bool := default false (m !! t).
Definition count (m : gmap Z Z) (t : Z) : Z := default 0 (m !! t).

(** ** Waiting *)

Definition check_fetch_ready (tid : Z) (s : state) : outcome bool := t ← get_trace_info tid s; mret (m_fetch_ready_addr (m_fetch_data t) =? 0).
Definition check_load_ready (tid : Z) (s : state) : outcome bool := t ← get_trace_info tid s; mret (m_MT_load_waiting (m_fetch_data t) =? 0).
Definition check_br_ready (tid : Z) (s : state) : outcome bool := t ← get_trace_info tid s; mret (negb (m_MT_br_waiting (m_fetch_data t))).
Definition set_br_wait (tid : Z) (s : state) : outcome state := upd_fetch_data tid (fun d => with_waits (m_MT_load_waiting d) true (m_load_waiting d) d) s.
Definition set_br_ready (tid : Z) (s : state) : outcome state := upd_fetch_data tid (fun d => with_waits (m_MT_load_waiting d) false (m_load_waiting d) d) s.
Definition set_load_wait (tid uop_num : Z) (s : state) : outcome state :=
  t ← get_trace_info tid s;
  let d := m_fetch_data t in
  let s1 := if m_MT_load_waiting d =? 0 then with_mem_threads (m_mem_access_thread_num s + 1) s else s in
  mret (set_fetch_data tid t (with_waits (m_MT_load_waiting d + 1) (m_MT_br_waiting d) ({[uop_num]} ∪ m_load_waiting d) d) s1).
Definition set_load_ready (tid uop_num : Z) (s : state) : outcome state :=
  t ← get_trace_info tid s;
  let d := m_fetch_data t in
  let d1 := if bool_decide (uop_num ∈ m_load_waiting d) then with_waits (m_MT_load_waiting d - 1) (m_MT_br_waiting d) (m_load_waiting d ∖ {[uop_num]}) d else d in
  let s1 := set_fetch_data tid t d1 s in
  mret (if m_MT_load_waiting d1 =? 0 then with_mem_threads (m_mem_access_thread_num s1 - 1) s1 else s1).

(** ** Picking a thread *)

Definition may_fetch (tid : Z) (s : state) : outcome bool :=
  let c := fe_core s in
  if flag (m_fetch_ended c) tid || flag (m_thread_reach_end c) tid then mret false else
  ready ← (if KNOB_NO_FETCH_ON_ICACHE_MISS k then check_fetch_ready tid s else mret true);
  if negb ready then mret false else
  t ← get_trace_info tid s;
  if m_fetch_blocked (m_fetch_data t) then mret false else
  if negb (m_ptx_sim k) then mret true else
  br ← (if KNOB_MT_NO_FETCH_BR k then check_br_ready tid s else mret true);
  if negb br then mret false else
  if KNOB_FETCH_ONLY_LOAD_READY k then check_load_ready tid s else mret true.

(** [n] tries are left. *)
Fixpoint fetch_rr_loop (n : nat) (s : state) : outcome (Z * state) :=
  match n with
  | O => mret (-1, s)
  | S n' =>
      let c := fe_core s in
      let U := m_unique_scheduled_thread_num c in
      let fetch_id := if U <=? m_fetch_arbiter s then Z.rem (m_fetch_arbiter s) U else m_fetch_arbiter s in
      let a1 := if m_last_fetch_tid_failed s then m_fetch_arbiter s
                else if m_fetch_arbiter s + 1 =? U then 0 else m_fetch_arbiter s + 1 in
      let a2 := if a1 <? m_last_terminated_tid c then m_last_terminated_tid c else a1 in
      let s1 := with_arbiter (m_fetch_modulo s) a2 false s in
      ok ← may_fetch fetch_id s1;
      if ok : bool then mret (fetch_id, s1) else fetch_rr_loop n' s1
  end.
Definition fetch_rr (s : state) : outcome (Z * state) :=
  if m_fetching_thread_num (fe_core s) =? 0
  then mret (-1, s)
  else fetch_rr_loop (Z.to_nat (m_unique_scheduled_thread_num (fe_core s) - m_last_terminated_tid (fe_core s))) s.
Definition fetch (s : state) : outcome (Z * state) := fetch_rr s.

(** ** The instruction cache *)

(** Whether the access missed. When no miss buffer is free the request is not made
    and the access counts as a hit. *)
Definition access_icache (tid fetch_addr : Z) (s : state) : outcome (bool * state) :=
  if fetch_addr =? 0 then mret (false, s) else
  if KNOB_PERFECT_ICACHE k then mret (false, s) else
  '(line, la, c) ← access_cache now fetch_addr true (m_icache s);
  let s1 := with_icache c s in
  match line with
  | Some _ => mret (false, s1)
  | None =>
      line_addr ← get_or Uninitialised la;
      '(e, result) ← ifetch_req line_addr tid (fe_env s1);
      let s2 := with_env e s1 in
      if negb result then mret (false, s2) else
      s3 ← upd_fetch_data tid (fun d => with_addrs (m_first_time d) line_addr (m_next_fetch_addr d) d) s2;
      mret (true, s3)
  end.

(** Wakes the threads that wait for the line. *)
Fixpoint wake_loop (n : nat) (ii addr : Z) (s : state) : outcome state :=
  match n with
  | O => mret s
  | S n' =>
      _ ← ASSERT (ii <? m_unique_scheduled_thread_num (fe_core s));
      let s1 := match m_thread_trace_info (fe_core s) !! ii with
                | Some t => if m_fetch_ready_addr (m_fetch_data t) =? addr
                            then set_fetch_data ii t (with_addrs (m_first_time (m_fetch_data t)) 0 (m_next_fetch_addr (m_fetch_data t)) (m_fetch_data t)) s else s
                | None => s
                end in
      wake_loop n' (ii + 1) addr s1
  end.
Definition icache_fill_line (addr appl_id : Z) (acc : bool) (s : state) : outcome state :=
  '(line, _, c) ← access_cache now addr false (m_icache s);
  c1 ← match line with
       | Some _ => mret c
       | None => '(_, _, _, _, c') ← insert_cache (fk_cache k) now addr appl_id acc false c; mret c'
       end;
  wake_loop (Z.to_nat (m_unique_scheduled_thread_num (fe_core s) - m_last_terminated_tid (fe_core s))) (m_last_terminated_tid (fe_core s)) addr (with_icache c1 s).

(** ** Branches *)

(** [uop_c::allocate]: what is left of the object's last life is reset, but for the
    fields that the trace reader fills in. *)
Definition init_base (b : uop_c) : uop_c :=
  mk_uop 0 (-1) NOT_MEM (m_uop_type b) (m_bar_type b) (m_cf_type b) 0 0 false 0 0 false false false false (m_allocq_num b) false.
Definition init_srcs (l : list src_info_c) : list src_info_c :=
  imap (fun i e => if bool_decide (Z.of_nat i < MAX_SRCS) then mk_src (si_type e) None (si_uop_num e) (si_unique_num e) else e) l.
Definition init_deps (d : uop_deps) : uop_deps :=
  mk_deps (m_num_srcs d) (m_src_info d) (m_num_dests d) ((fun _ => 0) <$> m_dest_info d) (init_srcs (m_map_src_info d)) 0 false None false.
Definition init_mem (d : uop_mem) : uop_mem := mk_umem (m_vaddr d) (m_mem_size d) 0 0 0 [] 0.
Definition allocate (x : uop_s) : uop_s :=
  mk_uop_s (init_base (base x)) true false false (m_mispredicted x) (m_isitBOM x) false (m_unique_num x) 0 (m_in_iaq x) false 0
    (init_deps (deps x)) (init_mem (mem x)).

Definition set_btb_miss (b : bool) (u : uop_c) : uop_c :=
  mk_uop (m_uop_num u) (m_thread_id u) (m_mem_type u) (m_uop_type u) (m_bar_type u) (m_cf_type u) (m_done_cycle u) (m_sched_cycle u)
    b (m_mem_version u) (m_alloc_cycle u) (m_req_sb u) (m_req_lb u) (m_req_int_reg u) (m_req_fp_reg u) (m_allocq_num u) (m_btb_miss_resolved u).
Definition with_prediction (btb mis : bool) (x : uop_s) : uop_s :=
  mk_uop_s (set_btb_miss btb (base x)) (m_valid x) (m_bogus x) (m_off_path x) mis (m_isitBOM x) (m_last_uop x) (m_unique_num x) (m_hmc_inst x) (m_in_iaq x)
    (m_in_scheduler x) (m_exec_cycle x) (deps x) (mem x).

Definition btb_access (f : fetched) (s : state) : outcome (bool * state) :=
  if negb (KNOB_ENABLE_BTB k) then mret (false, s) else
  '(e, pred_targ_addr) ← bp_targ_pred f (fe_env s);
  mret (negb (pred_targ_addr =? m_target_addr f), with_env e s).

Definition predict_dir (f : fetched) (s : state) : outcome (bool * state) :=
  match m_cf_type (base (f_uop f)) with
  | CF_BR | CF_CBR => '(e, pred_dir) ← bp_pred f (fe_env s); mret (negb (pred_dir =? m_dir f), with_env e s)
  | _ => mret (false, s)
  end.
Definition predict_bpu (f : fetched) (btb_miss : bool) (s : state) : outcome (bool * state) :=
  '(wrong, s1) ← predict_dir f s;
  let mispredicted := if btb_miss then true else wrong in
  '(m1, s2) ← (if negb (KNOB_USE_BRANCH_PREDICTION k) && (m_ptx_sim k && KNOB_MT_NO_FETCH_BR k)
               then s' ← set_br_wait (thread_of (f_uop f)) s1; mret (false, s') else mret (mispredicted, s1));
  mret (if KNOB_PERFECT_BP k then false else m1, s2).

Definition block_recovery (tid num : Z) (b : bp_cycles) : bp_cycles :=
  mk_bp_cycles (<[tid := MAX_CTR]> (m_bp_recovery_cycle b)) (m_bp_redirect_cycle b) (<[tid := num]> (m_bp_cause_op b)).
Definition block_redirect (tid num : Z) (b : bp_cycles) : bp_cycles :=
  mk_bp_cycles (m_bp_recovery_cycle b) (<[tid := MAX_CTR]> (m_bp_redirect_cycle b)) (<[tid := num]> (m_bp_cause_op b)).

(** The predictors, for a micro-operation that transfers control. *)
Definition access_predictors (tid : Z) (u : nat) (f : fetched) (s : state) : outcome state :=
  if bool_decide (m_cf_type (base (f_uop f)) = NOT_CF) then mret s else
  '(btb_miss, s1) ← btb_access f s;
  '(br_mispred, s2) ← predict_bpu f btb_miss s1;
  σ ← upd_s (with_prediction btb_miss br_mispred) u (uops (fe_map s2));
  let s3 := with_objects (with_uops σ (fe_map s2)) (m_uop_pool s2) s2 in
  let t := thread_of (f_uop f) in
  if br_mispred : bool then mret (with_bp (block_recovery t (num_of (f_uop f)) (fe_bp s3)) s3)
  else if btb_miss : bool then mret (with_bp (block_redirect t (num_of (f_uop f)) (fe_bp s3)) s3)
  else upd_fetch_data tid (fun d => with_addrs (m_first_time d) (m_fetch_ready_addr d) (m_npc f) d) s3.

(** ** Fetching *)

Definition send_uop_to_qfe (u : nat) (s : state) : outcome state :=
  '(success, q) ← enqueue 0 (Some u) (m_q_frontend s);
  _ ← ASSERT success;
  mret (with_queue q s).

Definition view (s : state) : trace_view T := mk_view (fe_core s) (m_sync_info s) (m_uop_pool s) (fe_env s).
Definition with_view (v : trace_view T) (s : state) : state :=
  with_env (tv_env v) (with_barriers (tv_sync v) (m_sync_done s) (with_objects (fe_map s) (tv_pool v) (with_core (tv_core v) s))).
Definition add_children (l : list (nat * uop_s)) (m : map_c) : map_c :=
  with_uops (fold_right (fun e σ => <[e.1 := e.2]> σ) (uops m) l) m.
Definition count_fetched (tid : Z) (c : core_fetch) : core_fetch :=
  with_fetch_counts (m_inst_fetched c) (m_max_inst_fetched c) (<[tid := count (m_ops_to_be_dispatched c) tid + 1]> (m_ops_to_be_dispatched c))
    (<[tid := cycle_count]> (m_last_fetch_cycle c)) c.

(** One micro-operation; [false] when the trace has none to give. *)
Definition fetch_one (tid : Z) (s : state) : outcome (bool * state) :=
  '(u, pool) ← Pool.acquire_entry (m_uop_pool s);
  let new_uop := allocate (default junk_uop (uops (fe_map s) !! u)) in
  '(v, r) ← get_uops_from_traces tid new_uop (view (with_objects (fe_map s) pool s));
  let s1 := with_view v s in
  match r with
  | None =>
      m ← free_uop (fk_map k) u (with_uops (<[u := new_uop]> (uops (fe_map s1))) (fe_map s1));
      mret (false, with_objects m (Pool.release_entry u (m_uop_pool s1)) s1)
  | Some f =>
      let s2 := with_core (count_fetched tid (fe_core s1)) s1 in
      m ← map_new_uop (fk_map k) inv junk_entry u (f_uop f) (add_children (f_children f) (fe_map s2));
      s3 ← access_predictors tid u f (with_objects m (m_uop_pool s2) s2);
      s4 ← send_uop_to_qfe u s3;
      mret (true, s4)
  end.

(** [n] bounds the iterations that are left. *)
Fixpoint fetch_loop (n : nat) (fetched_uops tid : Z) (s : state) : outcome state :=
  match n with
  | O => mret s
  | S n' =>
      if negb (0 <? Pqueue.space (m_q_frontend s)) then mret s else
      '(success, s1) ← fetch_one tid s;
      if negb success then mret s1 else
      if m_knob_width k <=? fetched_uops + 1 then mret s1 else fetch_loop n' (fetched_uops + 1) tid s1
  end.
Definition fetch_fuel : nat := Z.to_nat (Z.max 1 (m_knob_width k)).

Definition count_first (tid : Z) (c : core_fetch) : core_fetch :=
  let n := count (m_inst_fetched c) tid + 1 in
  with_fetch_counts (<[tid := n]> (m_inst_fetched c)) (Z.max (m_max_inst_fetched c) n) (m_ops_to_be_dispatched c) (m_last_fetch_cycle c) c.
(** The first time a thread is fetched its trace is set up. *)
Definition set_up_thread (tid : Z) (s : state) : outcome state :=
  t ← get_trace_info tid s;
  if negb (m_first_time (m_fetch_data t)) then mret s else
  e ← setup_trace tid (fe_env s);
  addr ← first_address tid e;
  upd_fetch_data tid (fun d => with_addrs false (m_fetch_ready_addr d) addr d) (with_core (count_first tid (fe_core s)) (with_env e s)).

Definition stalled (tid : Z) (b : bp_cycles) : bool :=
  (m_cur_core_cycle <? count (m_bp_recovery_cycle b) tid) || (m_cur_core_cycle <? count (m_bp_redirect_cycle b) tid).
(** The instruction's address in the memory space of its application. *)
Definition UINT_MAX : Z := 4294967295.
Definition fetch_address (t : thread_s) (g : cache_geom) : Z :=
  u64 (m_next_fetch_addr (m_fetch_data t) + base_cache_line g (u64 (UINT_MAX * m_process_id t * 10))).

(** The outer loop of the source ends after one round: the line always ends it. *)
Definition process_ifetch (tid : Z) (s : state) : outcome (FRONTEND_MODE * state) :=
  s1 ← set_up_thread tid s;
  if stalled tid (fe_bp s1) then mret (FRONTEND_MODE_IFETCH, s1) else
  t ← get_trace_info tid s1;
  '(icache_miss, s2) ← access_icache tid (fetch_address t (m_geom (m_icache s1))) s1;
  if icache_miss : bool then mret (FRONTEND_MODE_WAIT_FOR_MISS, s2) else
  s3 ← fetch_loop fetch_fuel 0 tid s2;
  mret (FRONTEND_MODE_IFETCH, s3).

(** ** Barriers *)

Definition synch_thread (block_id : Z) (s : state) : outcome state :=
  sync ← get_or NullDeref (m_sync_info s !! block_id);
  let n := m_sync_count sync + 1 in
  mret (with_barriers (<[block_id := mk_sync n (m_num_threads_in_block sync)]> (m_sync_info s))
          (m_sync_done s ++ (if n =? m_num_threads_in_block sync then [block_id] else [])) s).

Fixpoint unblock_loop (n : nat) (tid block_id : Z) (s : state) : outcome state :=
  match n with
  | O => mret s
  | S n' =>
      if flag (m_fetch_ended (fe_core s)) tid || flag (m_thread_reach_end (fe_core s)) tid then unblock_loop n' (tid + 1) block_id s else
      t ← get_trace_info tid s;
      let d := m_fetch_data t in
      unblock_loop n' (tid + 1) block_id
        (if m_block_id t =? block_id
         then set_fetch_data tid t (with_sync false (u64 (m_sync_wait_count d + (m_cur_core_cycle - m_sync_wait_start d + 1))) d) s else s)
  end.
Fixpoint release_blocks (done_ : list Z) (s : state) : outcome state :=
  match done_ with
  | [] => mret s
  | block_id :: rest =>
      s1 ← unblock_loop (Z.to_nat (m_unique_scheduled_thread_num (fe_core s) - m_last_terminated_tid (fe_core s)))
             (m_last_terminated_tid (fe_core s)) block_id (with_barriers (m_sync_info s) rest s);
      release_blocks rest (with_barriers (delete block_id (m_sync_info s1)) rest s1)
  end.

(** ** A cycle *)

Definition set_mode (tid : Z) (m p : FRONTEND_MODE) (s : state) : outcome state := upd_fetch_data tid (with_mode m p) s.
Definition run_thread (tid : Z) (s : state) : outcome state :=
  t ← get_trace_info tid s;
  match m_fe_mode (m_fetch_data t) with
  | FRONTEND_MODE_PERFECT => set_mode tid FRONTEND_MODE_PERFECT FRONTEND_MODE_PERFECT s
  | FRONTEND_MODE_IFETCH =>
      s1 ← set_mode tid FRONTEND_MODE_IFETCH FRONTEND_MODE_IFETCH s;
      '(m, s2) ← process_ifetch tid s1;
      upd_fetch_data tid (fun d => with_mode m (m_fe_prev_mode d) d) s2
  | FRONTEND_MODE_WAIT_FOR_MISS =>
      s1 ← set_mode tid FRONTEND_MODE_WAIT_FOR_MISS FRONTEND_MODE_WAIT_FOR_MISS s;
      ready ← check_fetch_ready tid s1;
      if ready : bool then set_mode tid FRONTEND_MODE_IFETCH FRONTEND_MODE_WAIT_FOR_MISS s1 else mret s1
  | FRONTEND_MODE_WAIT_FOR_TIMER => Fault AssertFailed
  end.
Fixpoint schedule_loop (n : nat) (prev_fetched_tid : Z) (s : state) : outcome state :=
  match n with
  | O => mret s
  | S n' =>
      '(fetch_thread, s1) ← fetch s;
      if fetch_thread =? -1 then mret s1 else
      if prev_fetched_tid =? fetch_thread then mret s1 else
      s2 ← (if negb (m_fe_stall s1) && (m_knob_fetch_width k <? Pqueue.space (m_q_frontend s1))
            then run_thread fetch_thread s1 else mret (with_arbiter (m_fetch_modulo s1) (m_fetch_arbiter s1) true s1));
      schedule_loop n' fetch_thread s2
  end.
Definition run_a_cycle (s : state) : outcome state :=
  if negb (m_fe_running s) || (m_fetching_thread_num (fe_core s) =? 0) then mret s else
  let md := m_fetch_modulo s + 1 in
  let ratio := m_fetch_ratio k in
  let s0 := if ratio =? 1 then s else with_arbiter (if md =? ratio then 0 else md) (m_fetch_arbiter s) (m_last_fetch_tid_failed s) s in
  if negb (ratio =? 1) && negb (md =? ratio) then mret s0 else
  s1 ← schedule_loop (KNOB_NUM_WARP_SCHEDULER k) (-1) s0;
  if m_ptx_sim k then release_blocks (m_sync_done s1) s1 else mret s1.
End FRONTEND.

(** ** Round robin *)

Section ROUND_ROBIN.
Context {T : Type} `{!FetchEnv T}.
Context (k : frontend_knobs) (L U : Z).
Abbreviation state := (frontend_c T).

(** The threads between the oldest that is left and the newest are known. *)
Record rr_ready (s : state) : Prop := {
  rr_first : m_last_terminated_tid (fe_core s) = L;
  rr_last : m_unique_scheduled_thread_num (fe_core s) = U;
  rr_range : 0 <= L <= m_fetch_arbiter s /\ m_fetch_arbiter s < U;
  rr_known : forall t, L <= t < U -> is_Some (m_thread_trace_info (fe_core s) !! t);
  rr_failed : m_last_fetch_tid_failed s = false
}.

(** The [i]-th thread in circular order from thread [a]. *)
Definition circular (a : Z) (i : nat) : Z := L + (a - L + Z.of_nat i) mod (U - L).

Lemma circular_range a i : L < U -> L <= circular a i < U.
Proof. intros H. unfold circular. pose proof (Z.mod_pos_bound (a - L + Z.of_nat i) (U - L)). lia. Qed.
Lemma circular_0 a : L <= a < U -> circular a 0 = a.
Proof. intros H. unfold circular. rewrite Z.mod_small; lia. Qed.
Lemma circular_S a i : L <= a < U -> circular a (S i) = circular (if a + 1 =? U then L else a + 1) i.
Proof.
  intros H. unfold circular. f_equal. destruct (Z.eqb_spec (a + 1) U) as [E | E].
  - rewrite <- (Z.mod_add (L - L + Z.of_nat i) 1) by lia. f_equal. lia.
  - f_equal. lia.
Qed.
Lemma circular_reaches a t : L <= a < U -> L <= t < U ->
  exists d, (Z.of_nat d < U - L) /\ circular a d = t.
Proof.
  intros Ha Ht. exists (Z.to_nat ((t - a) mod (U - L))). pose proof (Z.mod_pos_bound (t - a) (U - L)).
  split; [lia |]. unfold circular. rewrite Z2Nat.id by lia. rewrite Zplus_mod_idemp_r.
  replace (a - L + (t - a)) with (t - L) by lia. rewrite Z.mod_small; lia.
Qed.
Lemma circular_again a : L <= a < U -> circular a (Z.to_nat (U - L)) = a.
Proof.
  intros H. unfold circular. rewrite Z2Nat.id by lia. rewrite <- Zplus_mod_idemp_r, Z_mod_same_full, Z.mod_small; lia.
Qed.

Lemma get_trace_info_ok tid (s : state) t :
  tid < m_unique_scheduled_thread_num (fe_core s) -> m_thread_trace_info (fe_core s) !! tid = Some t -> get_trace_info tid s = Done t.
Proof. intros H E. unfold get_trace_info. rewrite (proj2 (Z.ltb_lt _ _) H), E. done. Qed.
Lemma may_fetch_total tid (s : state) : tid < m_unique_scheduled_thread_num (fe_core s) -> is_Some (m_thread_trace_info (fe_core s) !! tid) ->
  exists b, may_fetch k tid s = Done b.
Proof.
  intros Ht [t Et]. unfold may_fetch, check_fetch_ready, check_br_ready, check_load_ready.
  rewrite (get_trace_info_ok tid s t) by done. cbn [mbind outcome_bind].
  repeat (case_match; cbn [mbind outcome_bind mret outcome_ret]); eauto; congruence.
Qed.

(** The loop tries the threads in circular order and stops at the first it may fetch. *)
Lemma fetch_rr_loop_ok n : forall s, rr_ready s ->
  exists i, (i <= n)%nat /\ (forall j, (j < i)%nat -> may_fetch k (circular (m_fetch_arbiter s) j) s = Done false) /\
    ((i < n)%nat /\ may_fetch k (circular (m_fetch_arbiter s) i) s = Done true /\
       fetch_rr_loop k n s = Done (circular (m_fetch_arbiter s) i, with_arbiter (m_fetch_modulo s) (circular (m_fetch_arbiter s) (S i)) false s) \/
     i = n /\ fetch_rr_loop k n s = Done (-1, with_arbiter (m_fetch_modulo s) (circular (m_fetch_arbiter s) n) false s)).
Proof.
  induction n as [| n IH]; intros s Hs; pose proof Hs as [H1 H2 H3 H4 H5].
  { exists O. split; [done |]. split; [lia |]. right. split; [done |]. rewrite circular_0 by lia. simpl. destruct s; simpl in *. by subst. }
  cbn [fetch_rr_loop]. cbv zeta. rewrite H1, H2, H5, (proj2 (Z.leb_gt _ _)) by lia.
  set (a := m_fetch_arbiter s) in *. set (a1 := if a + 1 =? U then L else a + 1).
  assert (Ea : (if (if a + 1 =? U then 0 else a + 1) <? L then L else if a + 1 =? U then 0 else a + 1) = a1).
  { unfold a1. destruct (Z.eqb_spec (a + 1) U); destruct (Z.ltb_spec 0 L); try destruct (Z.ltb_spec (a + 1) L); lia. }
  rewrite Ea. set (s1 := with_arbiter _ a1 false s). destruct (may_fetch_total a s) as [[] Hb]; [lia | apply H4; lia | |].
  - exists O. split; [lia |]. split; [lia |]. left. rewrite circular_0, circular_S, circular_0 by (unfold a1; lia || (destruct (Z.eqb_spec (a + 1) U); lia)).
    change (may_fetch k a s1) with (may_fetch k a s). rewrite Hb. split; [lia |]. done.
  - change (may_fetch k a s1) with (may_fetch k a s). rewrite Hb. cbn [mbind outcome_bind].
    destruct (IH s1) as (i & Hi & Hno & Hr). { split; simpl; try done. unfold a1. destruct (Z.eqb_spec (a + 1) U); lia. }
    change (m_fetch_arbiter s1) with a1 in *. change (m_fetch_modulo s1) with (m_fetch_modulo s) in *. exists (S i). split; [lia |].
    assert (Ec : forall j, circular a1 j = circular a (S j)) by (intros j; by rewrite circular_S by lia).
    setoid_rewrite Ec in Hno. rewrite !Ec in Hr. split.
    { intros [| j] Hj; [by rewrite circular_0 by lia |]. apply (Hno j). lia. }
    destruct Hr as [(Hin & Hyes & E) | [-> E]]; [left | right]; split_and?; try done; lia.
Qed.

Lemma fetch_rr_spec s : rr_ready s -> m_fetching_thread_num (fe_core s) <> 0 ->
  exists i, (i <= Z.to_nat (U - L))%nat /\ (forall j, (j < i)%nat -> may_fetch k (circular (m_fetch_arbiter s) j) s = Done false) /\
    ((i < Z.to_nat (U - L))%nat /\ may_fetch k (circular (m_fetch_arbiter s) i) s = Done true /\
       fetch_rr k s = Done (circular (m_fetch_arbiter s) i, with_arbiter (m_fetch_modulo s) (circular (m_fetch_arbiter s) (S i)) false s) \/
     i = Z.to_nat (U - L) /\ fetch_rr k s = Done (-1, s)).
Proof.
  intros Hs Hn. destruct (fetch_rr_loop_ok (Z.to_nat (U - L)) s Hs) as (i & Hi & Hno & Hr). pose proof Hs as [H1 H2 H3 _ H5].
  exists i. split; [done |]. split; [done |]. unfold fetch_rr. rewrite (proj2 (Z.eqb_neq _ _) Hn), H1, H2.
  destruct Hr as [Hr | [-> E]]; [by left | right]. split; [done |]. rewrite E, circular_again by lia. destruct s; simpl in *. by subst.
Qed.

(** Calls of [fetch], between which anything may change that keeps [P]. *)
Inductive rr_calls (P : state -> Prop) : list Z -> state -> Prop :=
| rr_no_call s : rr_calls P [] s
| rr_call s s1 s2 tid ids :
    P s -> fetch_rr k s = Done (tid, s1) -> m_fetch_arbiter s2 = m_fetch_arbiter s1 -> rr_calls P ids s2 -> rr_calls P (tid :: ids) s.

(** One call either picks [t] or brings the arbiter closer to it. *)
Lemma fetch_rr_closer s t d tid s1 : rr_ready s -> m_fetching_thread_num (fe_core s) <> 0 ->
  may_fetch k t s = Done true -> Z.of_nat d < U - L -> circular (m_fetch_arbiter s) d = t -> fetch_rr k s = Done (tid, s1) ->
  tid = t \/ exists d', (d' < d)%nat /\ circular (m_fetch_arbiter s1) d' = t.
Proof.
  intros Hs Hn Ht Hd Ed E. pose proof (rr_range s Hs) as Hr. destruct (fetch_rr_spec s Hs Hn) as (i & Hi & Hno & [(Hin & Hyes & E') | [-> E']]);
    rewrite E in E'; injection E' as -> ->.
  - destruct (decide (i = d)) as [-> | Hne]; [by left |]. right. exists (d - S i)%nat.
    destruct (decide (i < d)%nat) as [Hlt |]; [| specialize (Hno d ltac:(lia)); rewrite Ed, Ht in Hno; done].
    split; [lia |]. simpl. rewrite <- Ed. unfold circular. rewrite Z.add_simpl_l, Zplus_mod_idemp_l. f_equal. f_equal. lia.
  - specialize (Hno d ltac:(lia)). rewrite Ed, Ht in Hno. done.
Qed.
Lemma rr_calls_reach t ids : forall s d,
  rr_calls (fun s => rr_ready s /\ m_fetching_thread_num (fe_core s) <> 0 /\ may_fetch k t s = Done true) ids s ->
  circular (m_fetch_arbiter s) d = t -> Z.of_nat d < U - L -> (d < length ids)%nat -> t ∈ ids.
Proof.
  induction ids as [| id ids IH]; intros s d Hc Ed Hd Hl; [simpl in Hl; lia |]. inversion Hc as [| ? s1 s2 ? ? (Hs & Hn & Ht) E Ea Hc']; subst.
  destruct (fetch_rr_closer s _ d id s1 Hs Hn Ht Hd eq_refl E) as [-> | (d' & Hlt & Ed')]; [left |].
  right. apply (IH s2 d' Hc'); [by rewrite Ea | lia | simpl in Hl; lia].
Qed.
End ROUND_ROBIN.

(** ** Barriers *)

Section BARRIER.
Context {T : Type} `{!FetchEnv T}.
Context (m_cur_core_cycle : Z).
Abbreviation state := (frontend_c T).

(** Threads of a block arrive one after the other. *)
Fixpoint arrive (n : nat) (block_id : Z) (s : state) : outcome state :=
  match n with O => mret s | S n' => s1 ← arrive n' block_id s; synch_thread block_id s1 end.

Lemma arrive_ok b N s : m_sync_info s !! b = Some (mk_sync 0 N) -> m_sync_done s = [] -> 0 < N -> forall n, Z.of_nat n <= N ->
  arrive n b s = Done (with_barriers (<[b := mk_sync (Z.of_nat n) N]> (m_sync_info s)) (if Z.of_nat n =? N then [b] else []) s).
Proof.
  intros Hb Hd HN. induction n as [| n IH]; intros Hn.
  - change (Z.of_nat 0) with 0. rewrite insert_id by done. rewrite (proj2 (Z.eqb_neq 0 N)) by lia. destruct s; simpl in *. by subst.
  - cbn [arrive]. rewrite IH by lia. cbn [mbind outcome_bind]. unfold synch_thread. simpl. rewrite lookup_insert_eq. cbn [mbind outcome_bind get_or].
    simpl. destruct (Z.eqb_spec (Z.of_nat n) N); [lia |]. rewrite insert_insert_eq. unfold with_barriers. simpl.
    replace (Z.of_nat n + 1) with (Z.of_nat (S n)) by lia. done.
Qed.

(** What opening the barrier of block [b] does to thread [tid]. *)
Definition opened (c : core_fetch) (b tid : Z) (t : thread_s) : thread_s :=
  let d := m_fetch_data t in
  if negb (flag (m_fetch_ended c) tid || flag (m_thread_reach_end c) tid) && (m_block_id t =? b)
  then mk_thread (m_block_id t) (m_process_id t) (with_sync false (u64 (m_sync_wait_count d + (m_cur_core_cycle - m_sync_wait_start d + 1))) d) else t.
Definition open_from (c : core_fetch) (b lo hi tid : Z) (t : thread_s) : thread_s :=
  if bool_decide (lo <= tid < hi) then opened c b tid t else t.

Lemma opened_threads c m b tid t : opened (with_threads m c) b tid t = opened c b tid t.
Proof. done. Qed.
Lemma unblock_loop_ok b n : forall lo (s : state), let c := fe_core s in
  lo + Z.of_nat n = m_unique_scheduled_thread_num c -> (forall t, lo <= t < lo + Z.of_nat n -> is_Some (m_thread_trace_info c !! t)) ->
  unblock_loop m_cur_core_cycle n lo b s =
    Done (with_core (with_threads (map_imap (fun tid t => Some (open_from c b lo (lo + Z.of_nat n) tid t)) (m_thread_trace_info c)) c) s).
Proof.
  induction n as [| n IH]; intros lo s c HU Hk.
  { simpl. do 2 f_equal. replace (map_imap _ _) with (m_thread_trace_info c); [by destruct s as [[]] |].
    apply map_eq. intros tid. rewrite map_lookup_imap. unfold open_from. destruct (_ !! tid); simpl; [| done].
    by rewrite bool_decide_eq_false_2 by lia. }
  cbn [unblock_loop]. fold c. destruct (Hk lo) as [t Et]; [lia |].
  assert (Hs : exists s1, s1 = with_core (with_threads (<[lo := opened c b lo t]> (m_thread_trace_info c)) c) s /\
    unblock_loop m_cur_core_cycle (S n) lo b s = unblock_loop m_cur_core_cycle n (lo + 1) b s1).
  { eexists. split; [done |]. cbn [unblock_loop]. fold c. unfold opened.
    destruct (flag (m_fetch_ended c) lo || flag (m_thread_reach_end c) lo); cbn [negb andb].
    { f_equal. rewrite insert_id by done. by destruct s as [[]]. }
    rewrite (get_trace_info_ok lo s t) by (done || (fold c; lia)). cbn [mbind outcome_bind].
    destruct (m_block_id t =? b); [done |]. f_equal. rewrite insert_id by done. by destruct s as [[]]. }
  destruct Hs as (s1 & -> & Hs). cbn [unblock_loop] in Hs. fold c in Hs. rewrite Hs. rewrite IH; [| simpl; lia |].
  2: { simpl. intros t' Ht'. apply lookup_insert_is_Some'. right. apply Hk. lia. }
  f_equal. unfold with_core, with_threads. simpl. do 2 f_equal. apply map_eq. intros tid. rewrite !map_lookup_imap.
  destruct (decide (tid = lo)) as [-> | Hne].
  - rewrite lookup_insert_eq, Et. simpl. unfold open_from. rewrite bool_decide_eq_false_2, bool_decide_eq_true_2 by lia. done.
  - rewrite lookup_insert_ne by done. destruct (_ !! tid); simpl; [| done]. unfold open_from. f_equal.
    rewrite (bool_decide_ext (lo + 1 <= tid < lo + 1 + Z.of_nat n) (lo <= tid < lo + Z.of_nat (S n))) by lia. done.
Qed.

Lemma release_blocks_ok b (s : state) : let c := fe_core s in
  m_last_terminated_tid c <= m_unique_scheduled_thread_num c ->
  (forall t, m_last_terminated_tid c <= t < m_unique_scheduled_thread_num c -> is_Some (m_thread_trace_info c !! t)) ->
  release_blocks m_cur_core_cycle [b] s =
    Done (with_barriers (delete b (m_sync_info s)) []
            (with_core (with_threads (map_imap (fun tid t => Some (open_from c b (m_last_terminated_tid c) (m_unique_scheduled_thread_num c) tid t))
               (m_thread_trace_info c)) c) s)).
Proof.
  intros c Hle Hk. cbn [release_blocks]. rewrite unblock_loop_ok; simpl; fold c; [| lia |].
  - rewrite Z2Nat.id by lia. rewrite Z.add_sub_assoc, Z.add_simpl_l. done.
  - intros t Ht. apply Hk. lia.
Qed.
End BARRIER.

(** ** A trace reader over lists *)

(** Every thread's trace is a list; branches are predicted taken, to address 0, and
    the memory takes every request. *)
Abbreviation list_trace := (gmap Z (list fetched)).
Definition end_fetch (tid : Z) (c : core_fetch) : core_fetch :=
  mk_core_fetch (m_thread_trace_info c) (<[tid := true]> (m_fetch_ended c)) (m_thread_reach_end c) (m_fetching_thread_num c - 1)
    (m_unique_scheduled_thread_num c) (m_last_terminated_tid c) (m_inst_fetched c) (m_max_inst_fetched c) (m_ops_to_be_dispatched c) (m_last_fetch_cycle c).
Definition list_trace_read (tid : Z) (_ : uop_s) (v : trace_view list_trace) : outcome (trace_view list_trace * option fetched) :=
  match tv_env v !! tid with
  | Some (f :: rest) =>
      let c := match rest with [] => end_fetch tid (tv_core v) | _ => tv_core v end in
      mret (mk_view c (tv_sync v) (tv_pool v) (<[tid := rest]> (tv_env v)), Some f)
  | _ => mret (v, None)
  end.
#[export] Instance list_trace_env : FetchEnv list_trace := {
  setup_trace _ e := mret e;
  first_address _ _ := mret 4096;
  get_uops_from_traces := list_trace_read;
  bp_pred _ e := mret (e, 1);
  bp_targ_pred _ e := mret (e, 0);
  ifetch_req _ _ e := mret (e, true)
}.

Module FrontendExample.
Definition knobs (ptx : bool) : frontend_knobs :=
  mk_frontend_knobs (mk_map_knobs false true false false) (mk_cache_knobs false false 0 0) 2 2 ptx 1 1 (negb ptx) true true true true true false.
Definition junk_entry : mem_map_entry_c := mk_mem_entry (replicate 8 None) 0.
Definition uop (num tid : Z) (cf : Cf_Type) (rs ds : list Z) : uop_s :=
  mk_uop_s (mk_uop num tid NOT_MEM (UOP_OTHER 0) NOT_BAR cf 0 0 false 0 0 false false false false gen_ALLOCQ false)
    true false false false true false (100 + num) 0 false false 0
    (mk_deps (Z.of_nat (length rs)) rs (Z.of_nat (length ds)) ds (replicate 10 (mk_src REG_DATA_DEP None 0 0)) 0 false None false)
    (mk_umem 0 0 0 0 0 [] 0).
Definition junk_uop : uop_s := with_valid false (uop 0 (-1) NOT_CF [] []).
(** An operation and a branch that is not taken, per thread. *)
Definition trace (tid : Z) : list fetched :=
  [mk_fetched (uop 1 tid NOT_CF [] [5]) [] 0 0 0; mk_fetched (uop 2 tid CF_CBR [5] []) [] 0 4100 0; mk_fetched (uop 3 tid NOT_CF [] [6]) [] 0 0 0].
Definition thread (block : Z) (blocked : bool) : thread_s :=
  mk_thread block 0 (mk_fetch_data FRONTEND_MODE_IFETCH FRONTEND_MODE_IFETCH blocked true 7 0 0 false 0 0 ∅).
Definition line0 : cache_entry_c (D := Z) := mk_line false 0 0 0 0 0 false false 0 false false.
Definition state (blocked : bool) (arbiter : Z) : frontend_c list_trace :=
  mk_frontend
    (mk_core_fetch (<[0 := thread 4 blocked]> (<[1 := thread 4 blocked]> (<[2 := thread 5 false]> ∅))) ∅ ∅ 3 3 0 ∅ 0 ∅ ∅)
    (mk_map {[0%nat := junk_uop]} ∅) (Pool.mk_pool [] 1 4 1) (pqueue_new 8 2 0)
    (cache_new 0 (cache_geometry 4 2 64 0 1 false false 2 64) (fun _ _ => line0) (fun _ => (0, 0))) (mk_bp_cycles ∅ ∅ ∅)
    {[4 := mk_sync 0 2]} [] true false 0 arbiter 0 false (<[0 := trace 0]> (<[1 := trace 1]> (<[2 := trace 2]> ∅))).

Lemma threads_known blocked arbiter t :
  0 <= t < 3 -> is_Some (m_thread_trace_info (fe_core (state blocked arbiter)) !! t).
Proof. intros H. assert (t = 0 \/ t = 1 \/ t = 2) as [-> | [-> | ->]] by lia; eexists; reflexivity. Qed.
Lemma state_ready blocked arbiter : 0 <= arbiter < 3 -> rr_ready 0 3 (state blocked arbiter).
Proof. intros H. split; [done | done | simpl; lia | apply threads_known | done]. Qed.
End FrontendExample.

(** ** Properties *)

(** The fetch policy picks the first thread, in circular order from the arbiter,
    that may be fetched: its trace is not at the end, no instruction line is
    awaited, no barrier blocks it and (on a GPU) no branch or load stalls it. The
    arbiter moves just behind it. When no thread may be fetched the answer is -1
    and nothing changes. *)
Theorem fetch_rr_circular {T} `{!FetchEnv T} k L U (s : frontend_c T) :
  rr_ready L U s -> m_fetching_thread_num (fe_core s) <> 0 ->
  exists i, (i <= Z.to_nat (U - L))%nat /\ (forall j, (j < i)%nat -> may_fetch k (circular L U (m_fetch_arbiter s) j) s = Done false) /\
    ((i < Z.to_nat (U - L))%nat /\ may_fetch k (circular L U (m_fetch_arbiter s) i) s = Done true /\
       fetch k s = Done (circular L U (m_fetch_arbiter s) i, with_arbiter (m_fetch_modulo s) (circular L U (m_fetch_arbiter s) (S i)) false s) \/
     i = Z.to_nat (U - L) /\ fetch k s = Done (-1, s)).
Proof. apply fetch_rr_spec. Qed.

(** C31: The fetch policy is fair as long as its picks can be used: when at
    every call the flag that the last pick failed is clear, the threads are
    the same ones and some thread is fetching, a thread that may be fetched
    at every call is picked within as many calls as there are threads,
    whatever else happens between the calls. (With the flag set the policy
    tries the last thread again and leaves one out.) *)
Theorem fetch_rr_fair {T} `{!FetchEnv T} k L U t ids (s : frontend_c T) :
  L <= t < U -> (U - L <= Z.of_nat (length ids)) ->
  rr_calls k (fun s => rr_ready L U s /\ m_fetching_thread_num (fe_core s) <> 0 /\ may_fetch k t s = Done true) ids s ->
  t ∈ ids.
Proof.
  intros Ht Hl Hc. inversion Hc as [s0 E1 E2 | ? s1 s2 tid ids' (Hs & _) _ _ _ E1 E2]; subst; [simpl in Hl; lia |].
  pose proof (rr_range _ _ _ Hs). destruct (circular_reaches L U (m_fetch_arbiter s) t) as (d & Hd & Ed); [lia | done |].
  eapply rr_calls_reach; [exact Hc | exact Ed | exact Hd | lia].
Qed.

(** C36: A barrier of a block of [N] threads opens exactly when the last of them has
    arrived: with fewer arrivals a cycle releases nothing and the count is kept,
    with all of them it lets every live thread of the block fetch again, adds the
    time it waited, and touches no other thread. *)
Theorem barrier_opens_when_all_arrive {T} `{!FetchEnv T} cycle b N n (s : frontend_c T) :
  let c := fe_core s in
  m_sync_info s !! b = Some (mk_sync 0 N) -> m_sync_done s = [] -> 0 < N -> Z.of_nat n <= N ->
  m_last_terminated_tid c <= m_unique_scheduled_thread_num c ->
  (forall t, m_last_terminated_tid c <= t < m_unique_scheduled_thread_num c -> is_Some (m_thread_trace_info c !! t)) ->
  exists s1 s2, arrive n b s = Done s1 /\ release_blocks cycle (m_sync_done s1) s1 = Done s2 /\ m_sync_done s2 = [] /\
    m_sync_info s2 !! b = (if Z.of_nat n =? N then None else Some (mk_sync (Z.of_nat n) N)) /\
    forall tid t, m_thread_trace_info c !! tid = Some t ->
      m_thread_trace_info (fe_core s2) !! tid =
        Some (if Z.of_nat n =? N then open_from cycle c b (m_last_terminated_tid c) (m_unique_scheduled_thread_num c) tid t else t).
Proof.
  intros c Hb Hd HN Hn Hle Hk. rewrite (arrive_ok b N s Hb Hd HN n Hn). destruct (Z.of_nat n =? N).
  - eexists _, _. split; [done |]. split; [by apply release_blocks_ok |]. simpl. split; [done |]. split; [apply lookup_delete_eq |].
    intros tid t Ht. rewrite map_lookup_imap. fold c. by rewrite Ht.
  - eexists _, _. split; [done |]. split; [done |]. simpl. split; [done |]. split; [apply lookup_insert_eq | done].
Qed.

(** ** Witnesses *)

Lemma fetch_rr_circular_witness : fetch (FrontendExample.knobs true) (FrontendExample.state true 0) =
  Done (2, with_arbiter 0 0 false (FrontendExample.state true 0)).
Proof.
  destruct (fetch_rr_circular (FrontendExample.knobs true) 0 3 (FrontendExample.state true 0)) as (i & _ & _ & [(Hi & _ & E) | [_ E]]);
    [apply FrontendExample.state_ready; lia | done | |].
  - rewrite E. destruct i as [| [| [| i]]]; [exfalso; vm_compute in E; discriminate | exfalso; vm_compute in E; discriminate | reflexivity | lia].
  - exfalso. vm_compute in E. discriminate.
Defined.

Lemma fetch_rr_fair_witness : exists ids, length ids = 3%nat /\ 2 ∈ ids /\
  rr_calls (FrontendExample.knobs true)
    (fun s => rr_ready 0 3 s /\ m_fetching_thread_num (fe_core s) <> 0 /\ may_fetch (FrontendExample.knobs true) 2 s = Done true) ids
    (FrontendExample.state false 0).
Proof.
  assert (H : rr_calls (FrontendExample.knobs true)
    (fun s => rr_ready 0 3 s /\ m_fetching_thread_num (fe_core s) <> 0 /\ may_fetch (FrontendExample.knobs true) 2 s = Done true) [0; 1; 2]
    (FrontendExample.state false 0)).
  { eapply (rr_call _ _ _ _ (FrontendExample.state false 1)); [| reflexivity | reflexivity |].
    { split; [apply FrontendExample.state_ready; lia | done]. }
    eapply (rr_call _ _ _ _ (FrontendExample.state false 2)); [| reflexivity | reflexivity |].
    { split; [apply FrontendExample.state_ready; lia | done]. }
    eapply (rr_call _ _ _ _ (FrontendExample.state false 0)); [| reflexivity | reflexivity |].
    { split; [apply FrontendExample.state_ready; lia | done]. }
    constructor. }
  exists [0; 1; 2]. split; [reflexivity |]. split; [| exact H].
  apply (fetch_rr_fair (FrontendExample.knobs true) 0 3 2 [0; 1; 2] (FrontendExample.state false 0)); [lia | simpl; lia | exact H].
Defined.

Lemma barrier_opens_when_all_arrive_witness : exists s1 s2,
  arrive 2 4 (FrontendExample.state true 0) = Done s1 /\ release_blocks 20 (m_sync_done s1) s1 = Done s2 /\
  m_fetch_blocked ∘ m_fetch_data <$> m_thread_trace_info (fe_core s2) !! 0 = Some false.
Proof.
  destruct (barrier_opens_when_all_arrive 20 4 2 2 (FrontendExample.state true 0)) as (s1 & s2 & E1 & E2 & _ & _ & H);
    [reflexivity | reflexivity | lia | lia | simpl; lia | apply FrontendExample.threads_known |].
  exists s1, s2. split; [exact E1 |]. split; [exact E2 |].
  rewrite (H 0 (FrontendExample.thread 4 true) eq_refl). reflexivity.
Defined.

(** When the last pick could not be used its thread is tried twice, and the last
    thread in line is not tried at all: none is found although one is ready. *)
Theorem fetch_rr_skips_last : exists s : frontend_c list_trace,
  m_last_fetch_tid_failed s = true /\ may_fetch (FrontendExample.knobs true) 2 s = Done true /\
  fetch (FrontendExample.knobs true) s = Done (-1, with_arbiter 0 2 false s).
Proof.
  exists (with_arbiter 0 0 true (FrontendExample.state true 0)). split_and!; vm_compute; reflexivity.
Qed.

(** The counter of the fetch ratio starts from the GPU's ratio on every core. Once it
    is not below the core's own ratio the front end never fetches: every cycle only
    counts on. *)
Theorem fetch_ratio_never_hits {T} `{!FetchEnv T} k inv junk_entry junk_uop now cycle count (s : frontend_c T) :
  m_fetch_ratio k <> 1 -> m_fetch_ratio k <= m_fetch_modulo s -> m_fe_running s = true -> m_fetching_thread_num (fe_core s) <> 0 ->
  run_a_cycle k inv junk_entry junk_uop now cycle count s =
    Done (with_arbiter (m_fetch_modulo s + 1) (m_fetch_arbiter s) (m_last_fetch_tid_failed s) s).
Proof.
  intros H1 H2 H3 H4. unfold run_a_cycle. rewrite H3, (proj2 (Z.eqb_neq _ _) H4), (proj2 (Z.eqb_neq _ _) H1), (proj2 (Z.eqb_neq (m_fetch_modulo s + 1) _)) by lia. done.
Qed.
