(* ===== verification/FrontendSystem.v ===== *)
(** * Fetching in the order of the traces (frontend.cc)

    The front end over a trace reader for CPU threads, a class of laws: what is
    left of every trace is a list, and reading takes its head. Fetching then
    appends the next micro-operations of the trace to the front-end queue, mapped
    by the dependence map, and as many as fit, or none when a branch was
    unresolved at the start of the cycle or an instruction line is missing. *)

From S2P Require Import Prelude.
From S2P Require Import Utils.
From S2P Require Import Pqueue.
From S2P Require Import Cache.
From S2P Require Import Rob.
From S2P Require Import Uops.
From S2P Require Import Map.
From S2P Require Import MapSystem.
From S2P Require Import Frontend.

Import Rob.

(** ** Mapping changes the dependences of one micro-operation *)

Section FRAME.
Definition deps_only (u : nat) (σ σ' : uop_store) : Prop :=
  (forall a, a <> u -> σ' !! a = σ !! a) /\ (forall x, σ !! u = Some x -> exists d, σ' !! u = Some (with_deps d x)).

#[export] Instance deps_only_preorder u : PreOrder (deps_only u).
Proof.
  split.
  - intros σ. split; [done |]. intros x Hx. exists (deps x). rewrite Hx. by destruct x.
  - intros σ1 σ2 σ3 [A1 B1] [A2 B2]. split; [intros a Ha; by rewrite A2, A1 |].
    intros x Hx. destruct (B1 x Hx) as [d1 Hd1]. destruct (B2 _ Hd1) as [d2 Hd2]. by exists d2.
Qed.
Lemma deps_only_insert u σ x d : σ !! u = Some x -> deps_only u σ (<[u := with_deps d x]> σ).
Proof.
  intros Hx. split; [intros a Ha; by rewrite lookup_insert_ne |]. intros y Hy. rewrite Hx in Hy. injection Hy as <-.
  exists d. by rewrite lookup_insert_eq.
Qed.

Context (k : map_knobs) (inv : nat) (junk : mem_map_entry_c).

Lemma put_src_deps i info x x1 : put_src i info x = Done x1 -> exists d, x1 = with_deps d x.
Proof.
  unfold put_src, set_not_rdy_bit. intros H. step H as l Hl. step H as [] Ha. apply done_val in H as ->. by eexists.
Qed.
Lemma add_src_from_map_entry_deps u n e ty σ σ' : add_src_from_map_entry u n e ty σ = Done σ' -> deps_only u σ σ'.
Proof.
  unfold add_src_from_map_entry. intros H. step H as x Hx. apply get_s_done in Hx. step H as y Hy. step H as [] H1. step H as [] H2. step H as x1 H3.
  apply done_val in H as ->. apply put_src_deps in H3 as [d ->].
  destruct (_ && _); by apply (deps_only_insert u σ x).
Qed.
Lemma add_src_from_uop_deps u src ty σ σ' : add_src_from_uop u src ty σ = Done σ' -> deps_only u σ σ'.
Proof.
  unfold add_src_from_uop. intros H. step H as x Hx. apply get_s_done in Hx. step H as y Hy. step H as dup Hd.
  destruct dup; [by apply done_val in H as -> |]. step H as [] H1. step H as [] H2. step H as [] H3. step H as x1 H4. apply done_val in H as ->.
  apply put_src_deps in H4 as [d ->]. by apply (deps_only_insert u σ x).
Qed.
Lemma read_regs_deps u d n : forall ii σ σ', read_regs u d ii n σ = Done σ' -> deps_only u σ σ'.
Proof.
  induction n as [| n IH]; intros ii σ σ' H; cbn [read_regs] in H; [by apply done_val in H as -> |].
  step H as x Hx. step H as id Hid. step H as [] H1. step H as fl Hf. step H as [] H2. step H as e He. step H as σ1 Hσ.
  etrans; [by eapply add_src_from_map_entry_deps | by eapply IH].
Qed.
Lemma find_stores_deps u va size e bytes : forall best σ r, find_stores k u va size e bytes best σ = Done r -> deps_only u σ r.1.
Proof.
  induction bytes as [| ii bytes IH]; intros best σ r H; cbn [find_stores] in H; [by apply done_val in H as -> |].
  step H as p Hp. destruct (negb _); [by eapply IH |]. step H as a Ha. step H as y Hy. destruct (negb _); [by eapply IH |].
  step H as σ1 H1. etrans; [| by eapply IH]. destruct (KNOB_MEM_OOO_STORES k); [by eapply add_src_from_uop_deps | by apply done_val in H1 as ->].
Qed.
Lemma depend_on_byte_deps u va b e i s r : depend_on_byte k u va b e i s = Done r -> deps_only u (uops s) (uops r.1).
Proof.
  unfold depend_on_byte. intros H. step H as x Hx. step H as p Hp. step H as a Ha. step H as y Hy. step H as [] H1. step H as [] H2.
  destruct (KNOB_MEM_OOO_STORES k); [by apply done_val in H as -> |]. step H as σ Hσ. apply done_val in H as ->. by eapply add_src_from_uop_deps.
Qed.
Lemma add_store_deps_deps u s r : add_store_deps k u s = Done r -> deps_only u (uops s) (uops r.1).
Proof.
  unfold add_store_deps. intros H. step H as x Hx. step H as d Hd. destruct (m_oracle_mem_hash d !! _) as [e |]; [| by apply done_val in H as ->].
  destruct (_ =? _).
  - step H as p Hp. step H as a Ha. step H as y Hy. step H as [] H1. step H as σ Hσ. apply depend_on_byte_deps in H. etrans; [| exact H]. simpl.
    destruct (KNOB_MEM_OOO_STORES k); [by eapply add_src_from_uop_deps | by apply done_val in Hσ as ->].
  - step H as [σ best] Hσ. apply find_stores_deps in Hσ. simpl in *. destruct best.1; [| by apply done_val in H as ->].
    apply depend_on_byte_deps in H. by etrans.
Qed.
Lemma map_uop_deps u s s' : map_uop k inv u s = Done s' -> deps_only u (uops s) (uops s').
Proof.
  unfold map_uop, read_reg_map, read_store_map, update_map. intros H. step H as s1 H1. step H1 as x Hx. step H1 as σ1 Hσ. apply done_val in H1 as ->.
  apply read_regs_deps in Hσ. etrans; [exact Hσ |]. step H as s2 H2.
  assert (Hs2 : deps_only u σ1 (uops s2)).
  { step H2 as y Hy. apply get_s_done in Hy. step H2 as d Hd. destruct (_ || _); [by apply done_val in H2 as -> |].
    destruct (bool_decide _); [by apply done_val in H2 as -> |]. step H2 as e He. step H2 as σ2 Hσ2. apply done_val in H2 as ->.
    apply add_src_from_map_entry_deps in Hσ2. etrans; [| exact Hσ2]. by apply (deps_only_insert u σ1 y). }
  step H as y Hy. step H as d Hd. step H as d1 Hd1. by apply done_val in H as ->.
Qed.
Lemma map_new_uop_deps u x s s' : map_new_uop k inv junk u x s = Done s' -> deps_only u (<[u := x]> (uops s)) (uops s').
Proof.
  unfold map_new_uop. intros H. destruct (KNOB_IGNORE_DEP k); [by apply done_val in H as -> |]. step H as s1 H1. apply map_uop_deps in H1.
  etrans; [exact H1 |]. unfold map_mem_dep in H. destruct (negb _); [by apply done_val in H as -> |]. step H as y Hy. step H as s2 H2.
  assert (E : uops s2 = uops s1).
  { destruct (is_mem_store _); [| by apply done_val in H2 as ->]. unfold update_store_hash in H2.
    step H2 as z Hz. step H2 as d Hd. step H2 as e He. step H2 as l Hl. by apply done_val in H2 as ->. }
  rewrite <- E. destruct (is_mem_load _); [| by apply done_val in H as ->]. step H as [s3 o] H3. apply done_val in H as ->.
  by apply add_store_deps_deps in H3.
Qed.
End FRAME.

(** ** The queue, when all its entries have one priority *)

Lemma enqueue_capacity {A} p (d : A) q b q' : enqueue p d q = Done (b, q') -> m_capacity q' = m_capacity q.
Proof.
  unfold enqueue. intros H. step H as [] H1. step H as [e pool] H2. step H as l H3. step H as es H4. by apply done_val in H as [= -> ->].
Qed.
Lemma enqueue_last {A} (d : A) q : pq_inv q -> Forall (fun e => Pqueue.m_priority e = 0) (contents q) -> 0 < Pqueue.space q ->
  exists q', enqueue 0 d q = Done (true, q') /\ pq_inv q' /\ Forall (fun e => Pqueue.m_priority e = 0) (contents q') /\
    Pqueue.m_data <$> contents q' = (Pqueue.m_data <$> contents q) ++ [d] /\ Pqueue.space q' = Pqueue.space q - 1.
Proof.
  unfold Pqueue.space. intros Hi Hz Hsp. destruct (enqueue_rotation 0 d q Hi) as (q' & e0 & _ & _ & E & Hi' & _); [lia |].
  destruct (enqueue_split 0 d q Hi) as (q2 & e & hi & lo & E2 & Hp & Hd & Ec & Ec' & Hlo); [lia |]. rewrite E in E2. injection E2 as <-.
  assert (lo = []) as ->.
  { destruct lo as [| y lo]; [done |]. rewrite Ec in Hz. apply Forall_app in Hz as [_ Hz]. apply Forall_inv in Hz, Hlo. simpl in *. lia. }
  rewrite app_nil_r in Ec. exists q'. split; [done |]. split; [done |]. pose proof (inv_num q Hi). pose proof (inv_num q' Hi').
  rewrite Ec', Ec in *. split; [apply Forall_app; split; [done |]; by apply Forall_singleton |]. rewrite fmap_app. simpl. rewrite Hd. split; [done |].
  rewrite (enqueue_capacity _ _ _ _ _ E). rewrite length_app in *. simpl in *. lia.
Qed.

(** ** The laws of a trace reader *)

(** The threads of the core are the trace reader's to read. *)
Definition same_threads (c c' : core_fetch) : Prop :=
  m_thread_trace_info c' = m_thread_trace_info c /\ m_unique_scheduled_thread_num c' = m_unique_scheduled_thread_num c /\
  m_last_terminated_tid c' = m_last_terminated_tid c.

(** Two objects for the same micro-operation of a trace: unique numbers, and what the
    trace says nothing about, can differ. *)
Record same_op (f g : fetched) : Prop := {
  sp_valid : Uops.m_valid (f_uop g) = Uops.m_valid (f_uop f);
  sp_num : num_of (f_uop g) = num_of (f_uop f);
  sp_thread : thread_of (f_uop g) = thread_of (f_uop f);
  sp_mem_type : m_mem_type (base (f_uop g)) = m_mem_type (base (f_uop f));
  sp_cf_type : m_cf_type (base (f_uop g)) = m_cf_type (base (f_uop f));
  sp_vaddr : m_vaddr (mem (f_uop g)) = m_vaddr (mem (f_uop f));
  sp_size : m_mem_size (mem (f_uop g)) = m_mem_size (mem (f_uop f));
  sp_num_srcs : m_num_srcs (deps (f_uop g)) = m_num_srcs (deps (f_uop f));
  sp_srcs : m_src_info (deps (f_uop g)) = m_src_info (deps (f_uop f));
  sp_num_dests : m_num_dests (deps (f_uop g)) = m_num_dests (deps (f_uop f));
  sp_dests : m_dest_info (deps (f_uop g)) = m_dest_info (deps (f_uop f));
  sp_infos : length (m_map_src_info (deps (f_uop g))) = length (m_map_src_info (deps (f_uop f)));
  sp_children : f_children g = f_children f
}.
#[export] Instance same_op_refl : Reflexive same_op.
Proof. by split. Qed.

(** [remaining e t] is what the trace of thread [t] has left to deliver. *)
Class FetchEnvOk (T : Type) `{!FetchEnv T} := {
  remaining : T -> Z -> list fetched;
  read_ok tid x (v : trace_view T) : exists c sy e o,
    get_uops_from_traces tid x v = Done (mk_view c sy (tv_pool v) e, o) /\ option_Forall2 same_op (head (remaining (tv_env v) tid)) o /\ same_threads (tv_core v) c /\
    remaining e tid = tail (remaining (tv_env v) tid) /\ (forall t, t <> tid -> remaining e t = remaining (tv_env v) t);
  setup_ok tid e : exists e', setup_trace tid e = Done e' /\ (forall t, remaining e' t = remaining e t);
  first_ok tid e : exists a, first_address tid e = Done a;
  pred_ok f e : exists e' d, bp_pred f e = Done (e', d) /\ (forall t, remaining e' t = remaining e t);
  targ_ok f e : exists e' a, bp_targ_pred f e = Done (e', a) /\ (forall t, remaining e' t = remaining e t);
  req_ok line tid e : exists e' b, ifetch_req line tid e = Done (e', b) /\ (forall t, remaining e' t = remaining e t)
}.

(** A micro-operation of a CPU trace. *)
Record deliverable (k : map_knobs) (tid : Z) (f : fetched) : Prop := {
  dl_children : f_children f = [];
  dl_thread : thread_of (f_uop f) = tid;
  dl_fresh : fresh_uop k [] (f_uop f);
  dl_branch : m_cf_type (base (f_uop f)) <> NOT_CF -> m_mem_type (base (f_uop f)) = NOT_MEM
}.
Lemma same_op_deliverable k tid f g : same_op f g -> deliverable k tid f -> deliverable k tid g.
Proof.
  intros [] [D1 D2 [] D4]. split; [congruence | congruence | | by intros; rewrite sp_mem_type0; apply D4; congruence].
  split; unfold src_regs, dest_regs, room, addr_dep, proper_access in *; try congruence; rewrite ?sp_num0, ?sp_infos0, ?sp_num_srcs0, ?sp_srcs0, ?sp_num_dests0, ?sp_dests0, ?sp_mem_type0, ?sp_vaddr0, ?sp_size0; done.
Qed.
Definition before (f g : fetched) : Prop := num_of (f_uop f) < num_of (f_uop g).

Section SYSTEM.
Context {T : Type} `{!FetchEnv T} `{!FetchEnvOk T}.
Context (k : frontend_knobs) (inv : nat) (junk_entry : mem_map_entry_c) (junk_uop : uop_s) (now m_cur_core_cycle cycle_count : Z) (L U : Z).
Context (Hdep : KNOB_IGNORE_DEP (fk_map k) = false) (Horacle : KNOB_USE_NEW_ORACLE (fk_map k) = false) (Hjunk : length (mm_uop junk_entry) = 8%nat).
Abbreviation state := (frontend_c T).

(** The timer mode is never entered, and the code has no case for it. *)
Definition mode_ok (th : thread_s) : Prop := m_fe_mode (m_fetch_data th) <> FRONTEND_MODE_WAIT_FOR_TIMER.

(** The state for the mapped history [sp], with the objects [out] in the pipeline. *)
Record fe_ok (sp : map_spec) (out : list nat) (s : state) : Prop := {
  fo_map : map_ok inv (fe_map s) sp;
  fo_pool : Pool.pool_inv (m_uop_pool s) (inv :: out);
  fo_free : forall a y, uops (fe_map s) !! a = Some y -> a ∉ inv :: out -> m_valid y = false;
  fo_queue : pq_inv (m_q_frontend s) /\ Forall (fun e => Pqueue.m_priority e = 0) (contents (m_q_frontend s));
  fo_icache : cache_wf (m_icache s) /\ m_cache_by_pass (m_geom (m_icache s)) = false;
  fo_first : m_last_terminated_tid (fe_core s) = L;
  fo_last : m_unique_scheduled_thread_num (fe_core s) = U;
  fo_known : forall t, L <= t < U -> is_Some (m_thread_trace_info (fe_core s) !! t);
  fo_modes : forall t th, m_thread_trace_info (fe_core s) !! t = Some th -> mode_ok th;
  fo_arbiter : 0 <= L <= m_fetch_arbiter s /\ m_fetch_arbiter s < U;
  fo_trace : forall t, Forall (deliverable (fk_map k) t) (remaining (fe_env s) t) /\ StronglySorted before (remaining (fe_env s) t) /\
    forall e ids, (e, ids) ∈ writers sp t -> Forall (fun f => e_uop_num e < num_of (f_uop f)) (remaining (fe_env s) t)
}.
Definition waiting_uops (s : state) : list (option nat) := Pqueue.m_data <$> contents (m_q_frontend s).

(** *** Steps that leave the pipeline alone *)

(** Only the data of threads, the instruction cache, the core's counters, the
    prediction stalls and the environment may differ. *)
Record quiet (s s' : state) : Prop := {
  qt_map : fe_map s' = fe_map s;
  qt_pool : m_uop_pool s' = m_uop_pool s;
  qt_queue : m_q_frontend s' = m_q_frontend s;
  qt_first : m_last_terminated_tid (fe_core s') = m_last_terminated_tid (fe_core s);
  qt_last : m_unique_scheduled_thread_num (fe_core s') = m_unique_scheduled_thread_num (fe_core s);
  qt_known : forall t, is_Some (m_thread_trace_info (fe_core s) !! t) -> is_Some (m_thread_trace_info (fe_core s') !! t);
  qt_modes : (forall t th, m_thread_trace_info (fe_core s) !! t = Some th -> mode_ok th) ->
    forall t th, m_thread_trace_info (fe_core s') !! t = Some th -> mode_ok th;
  qt_arbiter : 0 <= L <= m_fetch_arbiter s /\ m_fetch_arbiter s < U -> 0 <= L <= m_fetch_arbiter s' /\ m_fetch_arbiter s' < U;
  qt_icache : cache_wf (m_icache s) -> cache_wf (m_icache s');
  qt_geom : m_geom (m_icache s') = m_geom (m_icache s);
  qt_env : forall t, remaining (fe_env s') t = remaining (fe_env s) t
}.
#[export] Instance quiet_preorder : PreOrder quiet.
Proof.
  split; [done |]. intros s1 s2 s3 [] []. split; try congruence; eauto.
Qed.
Lemma fe_ok_quiet sp out s s' : quiet s s' -> fe_ok sp out s -> fe_ok sp out s'.
Proof.
  intros [E1 E2 E3 E4 E5 H6 Hmo Har H7 E8 E9] [H1 H2 H3 H4 [H5 H5'] H H' H8 Hm Ha H9]. split; rewrite ?E1, ?E2, ?E3, ?E4, ?E5, ?E8; eauto.
  intros t. rewrite E9. apply H9.
Qed.

Lemma upd_fetch_data_quiet tid f s : L <= tid < U ->
  (forall d, m_fe_mode (f d) = m_fe_mode d \/ m_fe_mode (f d) <> FRONTEND_MODE_WAIT_FOR_TIMER) ->
  m_unique_scheduled_thread_num (fe_core s) = U ->
  is_Some (m_thread_trace_info (fe_core s) !! tid) ->
  exists s', upd_fetch_data tid f s = Done s' /\ quiet s s' /\ fe_bp s' = fe_bp s /\ m_icache s' = m_icache s.
Proof.
  intros Ht Hf EU [t Et]. unfold upd_fetch_data. rewrite (get_trace_info_ok tid s t) by (done || lia). cbn [mbind outcome_bind].
  eexists. split; [done |]. split; [| done]. split; try done; simpl.
  - intros t' Ht'. apply lookup_insert_is_Some'. by right.
  - intros Hm t' th Hth. destruct (decide (t' = tid)) as [-> | Hne]; [| rewrite lookup_insert_ne in Hth by done; by eapply Hm].
    rewrite lookup_insert_eq in Hth. injection Hth as <-. unfold mode_ok. simpl. destruct (Hf (m_fetch_data t)) as [-> |]; [by eapply Hm | done].
Qed.

Lemma set_up_thread_quiet tid s sp out : fe_ok sp out s -> L <= tid < U ->
  exists s', set_up_thread tid s = Done s' /\ quiet s s' /\ fe_bp s' = fe_bp s /\ m_icache s' = m_icache s.
Proof.
  intros Hs Ht. destruct (fo_known _ _ _ Hs tid Ht) as [t Et]. pose proof (fo_last _ _ _ Hs) as EU. unfold set_up_thread.
  rewrite (get_trace_info_ok tid s t) by (done || lia). cbn [mbind outcome_bind]. destruct (negb _); [by exists s |].
  destruct (setup_ok tid (fe_env s)) as (e & -> & He). cbn [mbind outcome_bind]. destruct (first_ok tid e) as [a ->]. cbn [mbind outcome_bind].
  set (s1 := with_core _ _). destruct (upd_fetch_data_quiet tid (fun d => with_addrs false (m_fetch_ready_addr d) a d) s1) as (s2 & E & Hq & Hb & Hi); [done | by left | done | by exists t |].
  exists s2. split; [done |]. split; [| by rewrite Hb, Hi]. etrans; [| exact Hq]. by split.
Qed.

(** The request is made, and the thread waits, only on a miss. *)
Lemma access_icache_quiet tid addr s sp out : fe_ok sp out s -> L <= tid < U -> is_u64 addr ->
  exists b s', access_icache k now tid addr s = Done (b, s') /\ quiet s s' /\ fe_bp s' = fe_bp s /\
    (b = true -> lookup_line (m_icache s) addr = None /\
       exists t, m_thread_trace_info (fe_core s') !! tid = Some t /\ m_fetch_ready_addr (m_fetch_data t) = base_cache_line (m_geom (m_icache s)) addr).
Proof.
  intros Hs Ht Ha. destruct (fo_known _ _ _ Hs tid Ht) as [t Et]. pose proof (fo_last _ _ _ Hs) as EU. unfold access_icache.
  destruct (addr =? 0); [by exists false, s |]. destruct (KNOB_PERFECT_ICACHE k); [by exists false, s |].
  destruct (fo_icache _ _ _ Hs) as [Hwf Hby]. destruct (access_cache_ok now addr true (m_icache s) Hwf Ha Hby) as (c & -> & Eg & Hwf' & _).
  cbn [mbind outcome_bind]. assert (Hq : quiet s (with_icache c s)) by (by split).
  destruct (lookup_line (m_icache s) addr) as [p |]; [by exists false, (with_icache c s) |]. cbn [mbind outcome_bind get_or].
  destruct (req_ok (base_cache_line (m_geom (m_icache s)) addr) tid (fe_env (with_icache c s))) as (e & b & -> & He). cbn [mbind outcome_bind].
  assert (Hq2 : quiet s (with_env e (with_icache c s))) by (etrans; [exact Hq | by split]).
  destruct b; cbn [negb]; [| by eexists false, _].
  unfold upd_fetch_data. rewrite (get_trace_info_ok tid _ t) by (done || (simpl; lia)). cbn [mbind outcome_bind]. eexists true, _. split; [done |].
  split; [| split; [done |]].
  - etrans; [exact Hq2 |]. split; try done; simpl.
    + intros t' Ht'. apply lookup_insert_is_Some'. by right.
    + intros Hm t' th Hth. destruct (decide (t' = tid)) as [-> | Hne]; [| rewrite lookup_insert_ne in Hth by done; by eapply Hm].
      rewrite lookup_insert_eq in Hth. injection Hth as <-. by eapply (Hm tid t).
  - intros _. split; [done |]. eexists. split; [apply lookup_insert_eq | done].
Qed.

(** *** The predictors *)

Lemma btb_access_quiet f s : exists b s', btb_access k f s = Done (b, s') /\ quiet s s' /\ fe_bp s' = fe_bp s /\ fe_core s' = fe_core s.
Proof.
  unfold btb_access. destruct (negb _); [by exists false, s |]. destruct (targ_ok f (fe_env s)) as (e & a & -> & He). cbn [mbind outcome_bind].
  eexists _, _. split; [done |]. by split.
Qed.
Lemma predict_bpu_quiet f b s sp out : fe_ok sp out s -> L <= thread_of (f_uop f) < U ->
  exists m s', predict_bpu k f b s = Done (m, s') /\ quiet s s' /\ fe_bp s' = fe_bp s.
Proof.
  intros Hs Ht. unfold predict_bpu.
  assert (Hd : exists w s1, predict_dir f s = Done (w, s1) /\ quiet s s1 /\ fe_bp s1 = fe_bp s).
  { unfold predict_dir. destruct (pred_ok f (fe_env s)) as (e & d & E & He).
    destruct (m_cf_type _); rewrite ?E; cbn [mbind outcome_bind]; eexists _, _; (split; [done |]); by split. }
  destruct Hd as (w & s1 & -> & Hq & Hb). cbn [mbind outcome_bind]. destruct (_ && _).
  - pose proof (fe_ok_quiet _ _ _ _ Hq Hs) as Hs1. unfold set_br_wait.
    destruct (upd_fetch_data_quiet (thread_of (f_uop f)) (fun d => with_waits (m_MT_load_waiting d) true (m_load_waiting d) d) s1) as (s2 & -> & Hq2 & Hb2 & _);
      [done | by left | apply Hs1 | by eapply fo_known |].
    cbn [mbind outcome_bind]. eexists _, s2. split; [done |]. split; [by etrans | congruence].
  - by eexists _, s1.
Qed.

(** The cycle until which branches of thread [t] stop it only grows to the end of time. *)
Definition recovery (s : state) (t : Z) : Z := count (m_bp_recovery_cycle (fe_bp s)) t.

Lemma map_ok_prediction sp s u x b m : map_ok inv s sp -> uops s !! u = Some x -> m_mem_type (base x) = NOT_MEM ->
  map_ok inv (with_uops (<[u := with_prediction b m x]> (uops s)) s) sp.
Proof.
  intros Ho Hx Hm. apply map_ok_insert; [done |]. intros t va b' Hp. destruct (stores_valid _ _ _ _ _ _ _ Ho Hp) as (y & Hy & Hpd & _).
  rewrite Hx in Hy. injection Hy as <-. pose proof (pd_store _ _ _ _ Hpd) as Hst. by rewrite Hm in Hst.
Qed.

(** A micro-operation as it is once the predictors have seen it. *)
Definition predicted (f : fetched) (x x' : uop_s) (s : state) : Prop :=
  x' = x /\ m_cf_type (base (f_uop f)) = NOT_CF \/
  exists b m, x' = with_prediction b m x /\ (m = true -> recovery s (thread_of (f_uop f)) = MAX_CTR).

Lemma access_predictors_ok sp out s tid u f x :
  fe_ok sp out s -> L <= tid < U -> deliverable (fk_map k) tid f -> uops (fe_map s) !! u = Some x -> base x = base (f_uop f) -> u ∈ out ->
  exists x' s', access_predictors k tid u f s = Done s' /\ fe_ok sp out s' /\ m_q_frontend s' = m_q_frontend s /\
    (forall t, remaining (fe_env s') t = remaining (fe_env s) t) /\ uops (fe_map s') = <[u := x']> (uops (fe_map s)) /\
    predicted f x x' s' /\ (recovery s' tid = recovery s tid \/ recovery s' tid = MAX_CTR).
Proof.
  intros Hs Ht [_ Eth _ Hcf] Hx Hb Hu. unfold access_predictors. destruct (bool_decide _) eqn:Ecf.
  { apply bool_decide_eq_true in Ecf. exists x, s. split_and!; try done; [by rewrite insert_id | by left | by left]. }
  apply bool_decide_eq_false in Ecf. pose proof (Hcf Ecf) as Hm. rewrite <- Hb in Hm.
  destruct (btb_access_quiet f s) as (b & s1 & -> & Q1 & B1 & _). cbn [mbind outcome_bind].
  pose proof (fe_ok_quiet _ _ _ _ Q1 Hs) as Hs1.
  destruct (predict_bpu_quiet f b s1 sp out Hs1) as (m & s2 & -> & Q2 & B2); [lia |]. cbn [mbind outcome_bind].
  pose proof (PreOrder_Transitive _ _ _ Q1 Q2) as Q. rewrite (qt_map _ _ Q), (upd_s_live _ _ _ _ Hx). cbn [mbind outcome_bind].
  pose proof (fe_ok_quiet _ _ _ _ Q2 Hs1) as Hs2. set (x' := with_prediction b m x). set (s3 := with_objects _ _ s2).
  assert (Hs3 : fe_ok sp out s3).
  { destruct Hs2 as [H1 H2 H3 H4 H5 H6 H7 H8 Hmo Har H9]. split; try done; simpl; rewrite (qt_map _ _ Q) in *.
    - by apply map_ok_prediction.
    - intros a y Ha Hn. destruct (decide (a = u)) as [-> | Hne]; [exfalso; apply Hn; by right |]. rewrite lookup_insert_ne in Ha by done. by eapply H3. }
  assert (Hr3 : recovery s3 tid = recovery s tid) by (unfold recovery, s3; simpl; by rewrite B2, B1).
  assert (Hq3 : m_q_frontend s3 = m_q_frontend s) by apply Q. rewrite Eth.
  assert (Hr3' : forall t, remaining (fe_env s3) t = remaining (fe_env s) t) by apply Q.
  destruct m.
  { exists x'. eexists. split; [done |]. set (s4 := with_bp _ s3). assert (Hr : recovery s4 tid = MAX_CTR).
    { unfold recovery, count. simpl. by rewrite lookup_insert_eq. }
    split; [by destruct Hs3; split |]. split_and!; try done; [| by right]. right. exists b, true. by rewrite Eth. }
  destruct b.
  { exists x'. eexists. split; [done |]. split; [by destruct Hs3; split |]. split_and!; try done; [| by left]. by right; exists true, false. }
  destruct (upd_fetch_data_quiet tid (fun d => with_addrs (m_first_time d) (m_fetch_ready_addr d) (m_npc f) d) s3) as (s4 & -> & Q4 & B4 & _);
    [done | by left | apply Hs3 | by eapply fo_known |].
  exists x', s4. split; [done |]. split; [by eapply fe_ok_quiet |]. split; [by rewrite (qt_queue _ _ Q4) |]. split; [intros t; by rewrite (qt_env _ _ Q4) |].
  split; [by rewrite (qt_map _ _ Q4) |]. split; [by right; exists false, false |]. left. unfold recovery. rewrite B4. exact Hr3.
Qed.

(** *** One micro-operation *)

(** Object [u] holds the micro-operation [f] of the trace; its first sources are
    the last writers of its registers in the history [w] of its thread, and a
    misprediction of it keeps the thread from fetching from the next cycle on. *)
Definition landed (s : state) (w : history) (u : nat) (f : fetched) : Prop :=
  exists x, uops (fe_map s) !! u = Some x /\ Uops.m_valid x = true /\
    base_sources (fk_map k) inv w (f_uop f) `prefix_of` srcs x /\ num_of x = num_of (f_uop f) /\ thread_of x = thread_of (f_uop f) /\
    m_mem_type (base x) = m_mem_type (base (f_uop f)) /\ m_vaddr (mem x) = m_vaddr (mem (f_uop f)) /\ m_mem_size (mem x) = m_mem_size (mem (f_uop f)) /\
    (m_cf_type (base (f_uop f)) <> NOT_CF -> m_mispredicted x = true -> recovery s (thread_of (f_uop f)) = MAX_CTR).

Lemma landed_later s s' w u f : landed s w u f -> uops (fe_map s') !! u = uops (fe_map s) !! u ->
  recovery s' (thread_of (f_uop f)) = recovery s (thread_of (f_uop f)) \/ recovery s' (thread_of (f_uop f)) = MAX_CTR -> landed s' w u f.
Proof.
  intros (x & Hx & H1 & H1' & H2 & H3 & H4 & H5 & H5' & H6) E Hr. exists x. rewrite E. split_and!; try done. intros Hc Hm. destruct Hr as [-> | ->]; auto.
Qed.

Lemma same_op_sources w f g : same_op f g -> base_sources (fk_map k) inv w (f_uop g) = base_sources (fk_map k) inv w (f_uop f).
Proof. intros []. unfold base_sources, src_regs, addr_dep. by rewrite sp_num_srcs0, sp_srcs0, sp_mem_type0. Qed.

(** The free object that the pool gives. *)
Lemma acquire_free sp out s : fe_ok sp out s ->
  exists u p, Pool.acquire_entry (m_uop_pool s) = Done (u, p) /\ (u ∉ inv :: out) /\ Pool.pool_inv p (inv :: u :: out) /\
    (forall y, uops (fe_map s) !! u = Some y -> Uops.m_valid y = false) /\ (forall t va b, stores sp t va b <> Some u).
Proof.
  intros Hs. destruct (Pool.acquire_entry_ok _ _ (fo_pool _ _ _ Hs)) as (u & p & E & Hu & Hp). exists u, p.
  assert (Hv : forall y, uops (fe_map s) !! u = Some y -> Uops.m_valid y = false) by (intros y Hy; by eapply (fo_free _ _ _ Hs)).
  split_and!; [done | done | | done | by eapply not_pending; [apply Hs |]]. eapply Pool.pool_inv_proper; [| exact Hp]. apply perm_swap.
Qed.

Lemma read_frame tid x v sp out s : fe_ok sp out s -> tv_env v = fe_env s -> tv_core v = fe_core s ->
  exists c sy e o, get_uops_from_traces tid x v = Done (mk_view c sy (tv_pool v) e, o) /\ option_Forall2 same_op (head (remaining (fe_env s) tid)) o /\
    same_threads (fe_core s) c /\ remaining e tid = tail (remaining (fe_env s) tid) /\ (forall t, t <> tid -> remaining e t = remaining (fe_env s) t).
Proof. intros Hs Ee Ec. destruct (read_ok tid x v) as (c & sy & e & o & E & H). exists c, sy, e, o. by rewrite <- Ee, <- Ec. Qed.

Lemma fetch_none sp out s tid : fe_ok sp out s -> remaining (fe_env s) tid = [] ->
  exists s', fetch_one k inv junk_entry junk_uop cycle_count tid s = Done (false, s') /\ fe_ok sp out s' /\ m_q_frontend s' = m_q_frontend s /\
    (forall a, a ∈ out -> uops (fe_map s') !! a = uops (fe_map s) !! a) /\ fe_bp s' = fe_bp s /\ (forall t, remaining (fe_env s') t = remaining (fe_env s) t).
Proof.
  intros Hs Hr. destruct (acquire_free sp out s Hs) as (u & p & E & Hu & Hp & Hv & Hnp). unfold fetch_one. rewrite E. cbn [mbind outcome_bind].
  set (x := allocate _). destruct (read_frame tid x (view (with_objects (fe_map s) p s)) sp out s Hs) as (c & sy & e & o & -> & Hop & (E1 & E2 & E3) & He & He'); [done | done |].
  rewrite Hr in *. inversion Hop; subst o. cbn [mbind outcome_bind]. set (s1 := with_view _ s). unfold free_uop. simpl.
  rewrite (get_s_live u _ x) by apply lookup_insert_eq. cbn [mbind outcome_bind mret outcome_ret]. simpl.
  erewrite upd_s_live by apply lookup_insert_eq. cbn [mbind outcome_bind]. eexists. split; [done |]. unfold with_uops. simpl. rewrite !insert_insert_eq.
  destruct Hs as [H1 H2 H3 H4 H5 H6 H7 H8 Hmo Har H9]. split.
  - split; simpl; try done; try congruence.
    + by apply (map_ok_insert inv (fe_map s)).
    + apply Pool.release_entry_ok. eapply Pool.pool_inv_proper; [| exact Hp]. apply perm_swap.
    + intros a y Ha Hn. destruct (decide (a = u)) as [-> | Hne]; [rewrite lookup_insert_eq in Ha; by injection Ha as <- |].
      rewrite lookup_insert_ne in Ha by done. by eapply H3.
    + intros t Ht. rewrite E1. by apply H8.
    + intros t th Hth. rewrite E1 in Hth. by eapply Hmo.
    + intros t. destruct (decide (t = tid)) as [-> | Hne]; [rewrite He; split_and!; constructor | rewrite He' by done; apply H9].
  - split_and!; try done.
    + intros a Ha. simpl. rewrite lookup_insert_ne; [done |]. intros <-. apply Hu. by right.
    + intros t. simpl. destruct (decide (t = tid)) as [-> |]; [by rewrite He | by apply He'].
Qed.

(** The next micro-operation of the trace is new to the map. *)
Lemma next_allowed sp out s u f g rest tid : fe_ok sp out s -> remaining (fe_env s) tid = f :: rest -> same_op f g -> u <> inv ->
  (forall y, uops (fe_map s) !! u = Some y -> Uops.m_valid y = false) ->
  map_allowed (fk_map k) inv (Fetch junk_entry u (f_uop g)) (fe_map s) sp.
Proof.
  intros Hs Hr Hop Hu Hv. destruct (fo_trace _ _ _ Hs tid) as (Hd & _ & Hw). rewrite Hr in *. apply Forall_inv in Hd. destruct (same_op_deliverable _ _ _ _ Hop Hd) as [_ Eth [] _].
  split_and!; [done | done | | exact Hjunk]. split; try done. intros e ids He. rewrite Eth in He. rewrite (sp_num _ _ Hop). by apply Hw, Forall_inv in He.
Qed.

(** After [f] is fetched the rest of the traces still follows the history. *)
Lemma trace_after sp u f g rest tid s e : same_op f g ->
  (forall t, Forall (deliverable (fk_map k) t) (remaining (fe_env s) t) /\ StronglySorted before (remaining (fe_env s) t) /\
    forall e ids, (e, ids) ∈ writers sp t -> Forall (fun f => e_uop_num e < num_of (f_uop f)) (remaining (fe_env s) t)) ->
  remaining (fe_env s) tid = f :: rest -> remaining e tid = rest -> (forall t, t <> tid -> remaining e t = remaining (fe_env s) t) ->
  let sp' := spec_do (fk_map k) (Fetch junk_entry u (f_uop g)) sp in
  forall t, Forall (deliverable (fk_map k) t) (remaining e t) /\ StronglySorted before (remaining e t) /\
    forall e' ids, (e', ids) ∈ writers sp' t -> Forall (fun f => e_uop_num e' < num_of (f_uop f)) (remaining e t).
Proof.
  intros Hop H Hr He He' sp' t. pose proof (H tid) as (D1 & D2 & D3). rewrite Hr in D1, D2, D3. pose proof (dl_thread _ _ _ (Forall_inv D1)) as Eth. rewrite <- (sp_thread _ _ Hop) in Eth.
  destruct (decide (t = tid)) as [-> | Hne].
  - rewrite He. apply Forall_inv_tail in D1. apply StronglySorted_inv in D2 as [D2 D2']. split; [done |]. split; [done |]. intros e' ids Hin. simpl in Hin.
    rewrite Eth, decide_True in Hin by done. apply elem_of_cons in Hin as [[= -> ->] | Hin]; [simpl; rewrite (sp_num _ _ Hop); exact D2' |]. by apply D3, Forall_inv_tail in Hin.
  - rewrite He' by done. destruct (H t) as (T1 & T2 & T3). split; [done |]. split; [done |]. intros e' ids Hin. simpl in Hin.
    rewrite decide_False in Hin by congruence. by eapply T3.
Qed.

Lemma fetch_some sp out s tid f rest : fe_ok sp out s -> L <= tid < U -> 0 < Pqueue.space (m_q_frontend s) -> remaining (fe_env s) tid = f :: rest ->
  exists u g s', fetch_one k inv junk_entry junk_uop cycle_count tid s = Done (true, s') /\ same_op f g /\
    fe_ok (spec_do (fk_map k) (Fetch junk_entry u (f_uop g)) sp) (u :: out) s' /\ (u ∉ out) /\
    waiting_uops s' = waiting_uops s ++ [Some u] /\ Pqueue.space (m_q_frontend s') = Pqueue.space (m_q_frontend s) - 1 /\
    landed s' (writers sp tid) u f /\ (forall a, a ∈ out -> uops (fe_map s') !! a = uops (fe_map s) !! a) /\
    (recovery s' tid = recovery s tid \/ recovery s' tid = MAX_CTR) /\ remaining (fe_env s') tid = rest /\
    (forall t, t <> tid -> remaining (fe_env s') t = remaining (fe_env s) t).
Proof.
  intros Hs Ht Hsp Hr. destruct (acquire_free sp out s Hs) as (u & p & E & Hu & Hp & Hv & Hnp). unfold fetch_one. rewrite E. cbn [mbind outcome_bind].
  set (x := allocate _). destruct (read_frame tid x (view (with_objects (fe_map s) p s)) sp out s Hs) as (c & sy & e & o & -> & Hop & (E1 & E2 & E3) & He & He'); [done | done |].
  rewrite Hr in *. inversion Hop as [? g Hfg |]; subst. cbn [mbind outcome_bind head tail] in *. set (s1 := with_view _ s). apply not_elem_of_cons in Hu as [Hui Huo].
  pose proof (fo_trace _ _ _ Hs tid) as (Hd & _ & _). rewrite Hr in Hd. apply Forall_inv, (same_op_deliverable _ _ _ _ Hfg) in Hd. rewrite (dl_children _ _ _ Hd). unfold add_children. simpl.
  replace (with_uops (uops (fe_map s)) (fe_map s)) with (fe_map s) by (by destruct (fe_map s)).
  destruct (fetch_ok (fk_map k) inv Hdep Horacle junk_entry u (f_uop g) (fe_map s) sp) as (m & Em & Hm & xm & Hxm & Hpre & _);
    [apply Hs | by eapply next_allowed |].
  rewrite Em. cbn [mbind outcome_bind]. destruct (map_new_uop_deps _ _ _ _ _ _ _ Em) as [Fo Fu]. destruct (Fu (f_uop g)) as [d Hx]; [apply lookup_insert_eq |].
  rewrite Hx in Hxm. injection Hxm as <-. rewrite (dl_thread _ _ _ Hd) in Hpre. rewrite (same_op_sources _ _ _ Hfg) in Hpre.
  set (sp' := spec_do _ _ sp) in *. set (s2 := with_objects m _ _).
  assert (Hs2 : fe_ok sp' (u :: out) s2).
  { pose proof (trace_after sp u f g rest tid s e Hfg (fo_trace _ _ _ Hs) Hr He He') as Htr. destruct Hs as [H1 H2 H3 H4 H5 H6 H7 H8 Hmo Har H9]. split; simpl; try done; try congruence.
    - intros a y Ha Hn. apply not_elem_of_cons in Hn as [Hn1 Hn2]. apply not_elem_of_cons in Hn2 as [Hn2 Hn3].
      rewrite Fo, lookup_insert_ne in Ha by done. eapply H3; [exact Ha |]. by apply not_elem_of_cons.
    - intros t Ht'. rewrite E1. by apply H8.
    - intros t th Hth. rewrite E1 in Hth. by eapply Hmo. }
  destruct (access_predictors_ok sp' (u :: out) s2 tid u g _ Hs2 Ht Hd Hx) as (x' & s3 & -> & Hs3 & Eq & Er & Eu & Hpr & Hrec); [by destruct g as [[]] | left |].
  cbn [mbind outcome_bind]. unfold send_uop_to_qfe. destruct (fo_queue _ _ _ Hs3) as [Hq Hz]. rewrite Eq in *.
  destruct (enqueue_last (Some u) (m_q_frontend s2) Hq Hz Hsp) as (q & -> & Hq' & Hz' & Ed & Es). cbn [mbind outcome_bind ASSERT].
  exists u, g. eexists. split; [done |]. split; [done |]. split_and!.
  - destruct Hs3 as [H1 H2 H3 H4 H5 H6 H7 H8 Hmo Har H9]. by split.
  - done.
  - exact Ed.
  - exact Es.
  - exists x'. simpl. rewrite Eu, lookup_insert_eq. split; [done |]. destruct Hfg. rewrite <- sp_num0, <- sp_thread0, <- sp_mem_type0, <- sp_cf_type0, <- sp_vaddr0, <- sp_size0.
    destruct Hpr as [[-> Ecf] | (b & mi & -> & Hmi)]; (split; [apply (dl_fresh _ _ _ Hd) |]); split_and!; try done.
    all: intros; auto; congruence.
  - intros a Ha. simpl. assert (a <> u) by congruence. rewrite Eu, lookup_insert_ne by done. rewrite Fo by done. by rewrite lookup_insert_ne.
  - exact Hrec.
  - simpl. by rewrite Er.
  - intros t Hne. simpl. rewrite Er. by apply He'.
Qed.

(** *** A line of them *)

(** The history once the objects [us] have been taken for the micro-operations
    [gs], and each of them mapped in that order: it holds the micro-operation of
    the trace and the last writers of the history before it. *)
Fixpoint mapped_line (tid : Z) (sp : map_spec) (us : list nat) (gs l : list fetched) (s : state) : Prop :=
  match us, gs, l with
  | [], [], [] => True
  | u :: us', g :: gs', f :: l' => same_op f g /\ landed s (writers sp tid) u f /\
      mapped_line tid (spec_do (fk_map k) (Fetch junk_entry u (f_uop g)) sp) us' gs' l' s
  | _, _, _ => False
  end.
Fixpoint fetch_all (us : list nat) (gs : list fetched) (sp : map_spec) : map_spec :=
  match us, gs with
  | u :: us', g :: gs' => fetch_all us' gs' (spec_do (fk_map k) (Fetch junk_entry u (f_uop g)) sp)
  | _, _ => sp
  end.
Lemma mapped_later tid us s s' : (forall w u f, u ∈ us -> landed s w u f -> landed s' w u f) ->
  forall sp gs l, mapped_line tid sp us gs l s -> mapped_line tid sp us gs l s'.
Proof.
  intros H. induction us as [| u us IH]; intros sp [| g gs] [| f l]; try done. intros (H1 & H2 & H3).
  split; [done |]. split; [apply H; [by left | done] |]. apply IH; [| done]. intros w v h Hv. apply H. by right.
Qed.

(** What fetching [us] from the trace of thread [tid] makes of [s]: [us] are the
    next micro-operations of the trace, mapped one after the other, at the end
    of the queue. *)
Record fetched_line (tid : Z) (us : list nat) (l rest : list fetched) (sp : map_spec) (out : list nat) (s s' : state) : Prop := {
  fl_mapped : exists gs, mapped_line tid sp us gs l s' /\ fe_ok (fetch_all us gs sp) (reverse us ++ out) s';
  fl_queue : waiting_uops s' = waiting_uops s ++ (Some <$> us);
  fl_rest : remaining (fe_env s') tid = rest;
  fl_others : forall t, t <> tid -> remaining (fe_env s') t = remaining (fe_env s) t;
  fl_kept : forall a, a ∈ out -> uops (fe_map s') !! a = uops (fe_map s) !! a;
  fl_recovery : recovery s' tid = recovery s tid \/ recovery s' tid = MAX_CTR
}.

Lemma fetched_nothing tid sp out s s' : fe_ok sp out s' -> m_q_frontend s' = m_q_frontend s -> (forall t, remaining (fe_env s') t = remaining (fe_env s) t) ->
  (forall a, a ∈ out -> uops (fe_map s') !! a = uops (fe_map s) !! a) -> fe_bp s' = fe_bp s ->
  fetched_line tid [] [] (remaining (fe_env s) tid) sp out s s'.
Proof.
  intros Hs Eq Er Eu Eb. split; [by exists [] | | done | done | done |].
  - unfold waiting_uops. rewrite Eq. simpl. by rewrite app_nil_r.
  - left. unfold recovery. by rewrite Eb.
Qed.

(** How many micro-operations a cycle can take. *)
Definition fetch_room (fetched_uops : Z) (s : state) : nat :=
  Nat.min (Z.to_nat (Z.max 1 (m_knob_width k - fetched_uops))) (Z.to_nat (Pqueue.space (m_q_frontend s))).

Lemma fetched_line_cons tid u us f g l rest sp out s s1 s' :
  thread_of (f_uop f) = tid -> same_op f g -> (u ∉ out) ->
  waiting_uops s1 = waiting_uops s ++ [Some u] -> landed s1 (writers sp tid) u f -> (forall a, a ∈ out -> uops (fe_map s1) !! a = uops (fe_map s) !! a) ->
  (recovery s1 tid = recovery s tid \/ recovery s1 tid = MAX_CTR) -> (forall t, t <> tid -> remaining (fe_env s1) t = remaining (fe_env s) t) ->
  fetched_line tid us l rest (spec_do (fk_map k) (Fetch junk_entry u (f_uop g)) sp) (u :: out) s1 s' ->
  fetched_line tid (u :: us) (f :: l) rest sp out s s'.
Proof.
  intros Hf Hop Hu Hq Hla Hk Hr Ho [(gs & Hm & H1) H2 H4 Ho' H5 H6]. split.
  - exists (g :: gs). split; [| simpl; rewrite reverse_cons, <- app_assoc; exact H1]. split; [done |]. split; [| done].
    eapply landed_later; [exact Hla | apply H5; left | by rewrite Hf].
  - rewrite H2, Hq, <- app_assoc. done.
  - done.
  - intros t Hne. rewrite Ho' by done. by apply Ho.
  - intros a Ha. rewrite H5 by (by right). by apply Hk.
  - destruct H6 as [-> | ->]; auto.
Qed.

Lemma fetch_loop_line tid n : forall c sp out s, fe_ok sp out s -> L <= tid < U -> (Z.to_nat (Z.max 1 (m_knob_width k - c)) <= n)%nat ->
  let l := remaining (fe_env s) tid in
  exists us s', fetch_loop k inv junk_entry junk_uop cycle_count n c tid s = Done s' /\
    fetched_line tid us (take (fetch_room c s) l) (drop (fetch_room c s) l) sp out s s'.
Proof.
  induction n as [| n IH]; intros c sp out s Hs Ht Hn l; [lia |]. cbn [fetch_loop].
  destruct (Z.ltb_spec 0 (Pqueue.space (m_q_frontend s))) as [Hsp | Hsp]; cbn [negb].
  2: { exists [], s. split; [done |]. unfold fetch_room. rewrite (Z2Nat.nonpos (Pqueue.space _)), Nat.min_0_r by lia. by eapply fetched_nothing. }
  unfold l. destruct (remaining (fe_env s) tid) as [| f rest] eqn:Er.
  { destruct (fetch_none sp out s tid Hs Er) as (s' & -> & Hs' & Eq & Eu & Eb & Er'). cbn [mbind outcome_bind negb]. exists [], s'. split; [done |].
    pose proof (fetched_nothing tid sp out s s' Hs' Eq) as Hl. rewrite Er in Hl. rewrite take_nil, drop_nil. by apply Hl. }
  destruct (fetch_some sp out s tid f rest Hs Ht Hsp Er) as (u & g & s1 & -> & Hop & Hs1 & Hu & Hq & Hsp1 & Hla & Hk & Hr & Er1 & Eo). cbn [mbind outcome_bind negb].
  destruct (fo_trace _ _ _ Hs tid) as (Hd & _). rewrite Er in Hd. pose proof (dl_thread _ _ _ (Forall_inv Hd)) as Hf.
  destruct (Z.leb_spec (m_knob_width k) (c + 1)) as [Hw | Hw].
  - exists [u], s1. split; [done |]. replace (fetch_room c s) with 1%nat by (unfold fetch_room; lia). simpl. rewrite take_0, drop_0.
    eapply fetched_line_cons; try done. rewrite <- Er1. by eapply fetched_nothing.
  - destruct (IH (c + 1) _ _ s1 Hs1 Ht) as (us & s' & -> & Hl'); [lia |]. exists (u :: us), s'. split; [done |].
    replace (fetch_room c s) with (S (fetch_room (c + 1) s1)) by (unfold fetch_room; rewrite Hsp1; lia). rewrite Er1 in Hl'. simpl.
    by eapply fetched_line_cons.
Qed.

Lemma fetched_line_quiet tid us l rest sp out s s1 s' : quiet s s1 -> fe_bp s1 = fe_bp s ->
  fetched_line tid us l rest sp out s1 s' -> fetched_line tid us l rest sp out s s'.
Proof.
  intros Q Eb [H1 H2 H4 Ho H5 H6]. split; try done.
  - rewrite H2. unfold waiting_uops. by rewrite (qt_queue _ _ Q).
  - intros t Hne. by rewrite Ho, (qt_env _ _ Q).
  - intros a Ha. by rewrite H5, (qt_map _ _ Q).
  - unfold recovery in *. by rewrite <- Eb.
Qed.
Lemma quiet_line tid sp out s s' : quiet s s' -> fe_bp s' = fe_bp s -> fe_ok sp out s ->
  fetched_line tid [] [] (remaining (fe_env s) tid) sp out s s'.
Proof.
  intros Q Eb Hs. eapply fetched_nothing; [by eapply fe_ok_quiet | apply Q | apply Q | | done]. intros a _. by rewrite (qt_map _ _ Q).
Qed.

(** [process_ifetch]: a thread that waits for a branch fetches nothing; one that
    misses in the instruction cache fetches nothing and waits for the line; any
    other fetches as much of its trace as the width and the queue allow. *)
Lemma process_ifetch_line sp out s tid : fe_ok sp out s -> L <= tid < U ->
  let l := remaining (fe_env s) tid in
  exists mode us s', process_ifetch k inv junk_entry junk_uop now m_cur_core_cycle cycle_count tid s = Done (mode, s') /\
    let n := if stalled m_cur_core_cycle tid (fe_bp s) then 0%nat else
             match mode with FRONTEND_MODE_IFETCH => fetch_room 0 s | _ => 0%nat end in
    fetched_line tid us (take n l) (drop n l) sp out s s' /\
    (mode = FRONTEND_MODE_IFETCH \/
     mode = FRONTEND_MODE_WAIT_FOR_MISS /\ exists t addr, m_thread_trace_info (fe_core s') !! tid = Some t /\
       lookup_line (m_icache s) addr = None /\ m_fetch_ready_addr (m_fetch_data t) = base_cache_line (m_geom (m_icache s)) addr).
Proof.
  intros Hs Ht l. unfold process_ifetch. destruct (set_up_thread_quiet tid s sp out Hs Ht) as (s1 & -> & Q1 & B1 & I1). cbn [mbind outcome_bind].
  rewrite B1. destruct (stalled _ tid (fe_bp s)).
  { eexists _, [], s1. split; [done |]. split; [| by left]. rewrite take_0, drop_0. by eapply quiet_line. }
  pose proof (fe_ok_quiet _ _ _ _ Q1 Hs) as Hs1. destruct (fo_known _ _ _ Hs1 tid Ht) as [t Et]. pose proof (fo_last _ _ _ Hs1) as EU.
  rewrite (get_trace_info_ok tid s1 t) by (done || lia). cbn [mbind outcome_bind]. set (addr := fetch_address t _).
  destruct (access_icache_quiet tid addr s1 sp out Hs1 Ht) as (b & s2 & -> & Q2 & B2 & Hmiss); [apply u64_range |]. cbn [mbind outcome_bind].
  assert (Q : quiet s s2) by (by etrans). assert (B : fe_bp s2 = fe_bp s) by congruence. destruct b.
  - eexists _, [], s2. split; [done |]. split; [rewrite take_0, drop_0; by eapply quiet_line |]. right. split; [done |].
    destruct (Hmiss eq_refl) as (Hl & t' & Et' & Ea). exists t', addr. by rewrite <- I1.
  - pose proof (fe_ok_quiet _ _ _ _ Q Hs) as Hs2. destruct (fetch_loop_line tid (fetch_fuel k) 0 sp out s2 Hs2 Ht) as (us & s3 & -> & Hl);
      [unfold fetch_fuel; by rewrite Z.sub_0_r |].
    cbn [mbind outcome_bind]. eexists _, us, s3. split; [done |]. split; [| by left].
    replace (fetch_room 0 s2) with (fetch_room 0 s) in Hl by (unfold fetch_room; by rewrite (qt_queue _ _ Q)).
    rewrite (qt_env _ _ Q) in Hl. by eapply fetched_line_quiet.
Qed.

(** *** A cycle *)

Lemma fetch_rr_quiet n : forall s sp out, fe_ok sp out s ->
  exists tid s', fetch_rr_loop k n s = Done (tid, s') /\ quiet s s' /\ fe_core s' = fe_core s /\ fe_bp s' = fe_bp s /\ m_icache s' = m_icache s /\
    m_fe_stall s' = m_fe_stall s /\
    (tid = -1 \/ L <= tid < U /\ may_fetch k tid s = Done true).
Proof.
  induction n as [| n IH]; intros s sp out Hs; [exists (-1), s; by split_and!; auto |]. pose proof (fo_arbiter _ _ _ Hs) as Har.
  cbn [fetch_rr_loop]. cbv zeta. rewrite (fo_first _ _ _ Hs), (fo_last _ _ _ Hs), (proj2 (Z.leb_gt _ _)) by lia. set (s1 := with_arbiter _ _ _ s).
  assert (Q : quiet s s1).
  { split; try done. intros _. simpl. destruct (m_last_fetch_tid_failed s); destruct (Z.ltb_spec (m_fetch_arbiter s) L);
      try destruct (Z.eqb_spec (m_fetch_arbiter s + 1) U); try destruct (Z.ltb_spec 0 L); try destruct (Z.ltb_spec (m_fetch_arbiter s + 1) L); lia. }
  destruct (may_fetch_total k (m_fetch_arbiter s) s) as [b Hb]; [rewrite (fo_last _ _ _ Hs); lia | apply (fo_known _ _ _ Hs); lia |].
  change (may_fetch k (m_fetch_arbiter s) s1) with (may_fetch k (m_fetch_arbiter s) s). rewrite Hb. cbn [mbind outcome_bind]. destruct b.
  - exists (m_fetch_arbiter s), s1. split_and!; try done. right. split; [lia | done].
  - destruct (IH s1 sp out) as (tid & s2 & -> & Q2 & E2 & B2 & I2 & S2 & Hr); [by eapply fe_ok_quiet |]. exists tid, s2. split; [done |]. split; [by etrans |].
    by split_and!; try congruence.
Qed.

(** How many micro-operations the thread [tid] takes: as many as the width of
    the machine and the queue have room for, or none when it is not in fetch
    mode, when a branch of it was not resolved at the start of the cycle, or when
    its instruction line is not in the cache and it now waits for it. *)
Definition turn_size (tid : Z) (n : nat) (s s' : state) : Prop :=
  exists th, m_thread_trace_info (fe_core s) !! tid = Some th /\
    (m_fe_mode (m_fetch_data th) = FRONTEND_MODE_IFETCH /\ stalled m_cur_core_cycle tid (fe_bp s) = false /\ n = fetch_room 0 s \/
     n = 0%nat /\
     (m_fe_mode (m_fetch_data th) <> FRONTEND_MODE_IFETCH \/ stalled m_cur_core_cycle tid (fe_bp s) = true \/
      exists t addr, m_thread_trace_info (fe_core s') !! tid = Some t /\ m_fe_mode (m_fetch_data t) = FRONTEND_MODE_WAIT_FOR_MISS /\
        lookup_line (m_icache s) addr = None /\ m_fetch_ready_addr (m_fetch_data t) = base_cache_line (m_geom (m_icache s)) addr)).

(** The thread [tid] fetches the next [n] of its trace, in order. *)
Definition takes_turn (tid : Z) (sp : map_spec) (out : list nat) (s s' : state) : Prop :=
  exists us n, turn_size tid n s s' /\
    fetched_line tid us (take n (remaining (fe_env s) tid)) (drop n (remaining (fe_env s) tid)) sp out s s'.

(** Steps that leave pipeline, traces and threads alone. *)
Lemma turn_after_quiet tid sp out s s1 s' : quiet s s1 -> fe_bp s1 = fe_bp s -> fe_core s1 = fe_core s -> m_icache s1 = m_icache s ->
  takes_turn tid sp out s1 s' -> takes_turn tid sp out s s'.
Proof.
  intros Q B C I (us & n & H1 & H3). exists us, n. rewrite (qt_env _ _ Q) in H3. split; [| by eapply fetched_line_quiet].
  unfold turn_size, fetch_room in *. by rewrite B, C, I, (qt_queue _ _ Q) in H1.
Qed.
Lemma line_before_quiet tid us l rest sp out s s1 s' : quiet s1 s' -> fe_bp s' = fe_bp s1 ->
  fetched_line tid us l rest sp out s s1 -> fetched_line tid us l rest sp out s s'.
Proof.
  intros Q B [(gs & F3 & F1) F2 F4 F5 F6 F7].
  assert (R : forall t, recovery s' t = recovery s1 t) by (intros t; unfold recovery; by rewrite B). split.
  - exists gs. split; [| by eapply fe_ok_quiet]. eapply mapped_later; [| exact F3].
    intros w u f _ Hl. eapply landed_later; [exact Hl | by rewrite (qt_map _ _ Q) | left; apply R].
  - rewrite <- F2. unfold waiting_uops. by rewrite (qt_queue _ _ Q).
  - by rewrite (qt_env _ _ Q).
  - intros t Hne. rewrite (qt_env _ _ Q). by apply F5.
  - intros a Ha. rewrite (qt_map _ _ Q). by apply F6.
  - by rewrite R.
Qed.

Lemma set_mode_quiet tid m p s sp out : fe_ok sp out s -> L <= tid < U -> m <> FRONTEND_MODE_WAIT_FOR_TIMER ->
  exists s', set_mode tid m p s = Done s' /\ quiet s s' /\ fe_bp s' = fe_bp s /\ m_icache s' = m_icache s.
Proof.
  intros Hs Ht Hm. apply upd_fetch_data_quiet; [done | by right | apply Hs | by apply (fo_known _ _ _ Hs)].
Qed.
Lemma upd_fetch_data_at tid f (s s' : state) t : upd_fetch_data tid f s = Done s' -> m_thread_trace_info (fe_core s) !! tid = Some t ->
  exists t', m_thread_trace_info (fe_core s') !! tid = Some t' /\ m_fetch_data t' = f (m_fetch_data t).
Proof.
  unfold upd_fetch_data, get_trace_info. intros H Ht. step H as t1 H1. step H1 as [] H2. rewrite Ht in H1. apply done_val in H1 as ->.
  apply done_val in H as ->. eexists. split; [apply lookup_insert_eq | done].
Qed.

(** A turn without fetching. *)
Lemma idle_turn tid sp out s s' th : quiet s s' -> fe_bp s' = fe_bp s -> fe_ok sp out s ->
  m_thread_trace_info (fe_core s) !! tid = Some th -> m_fe_mode (m_fetch_data th) <> FRONTEND_MODE_IFETCH -> takes_turn tid sp out s s'.
Proof.
  intros Q B Hs Et Hm. exists [], 0%nat. rewrite take_0, drop_0. split; [| by eapply quiet_line]. exists th. split; [done |]. right. by split; [| left].
Qed.

(** A turn in fetch mode. *)
Lemma ifetch_turn sp out s tid th : fe_ok sp out s -> L <= tid < U -> m_thread_trace_info (fe_core s) !! tid = Some th ->
  m_fe_mode (m_fetch_data th) = FRONTEND_MODE_IFETCH ->
  exists s', (s1 ← set_mode tid FRONTEND_MODE_IFETCH FRONTEND_MODE_IFETCH s;
    '(m, s2) ← process_ifetch k inv junk_entry junk_uop now m_cur_core_cycle cycle_count tid s1;
    upd_fetch_data tid (fun d => with_mode m (m_fe_prev_mode d) d) s2) = Done s' /\ takes_turn tid sp out s s'.
Proof.
  intros Hs Ht Et Em.
  destruct (set_mode_quiet tid FRONTEND_MODE_IFETCH FRONTEND_MODE_IFETCH s sp out) as (s1 & -> & Q1 & B1 & I1); [done.. |]. cbn [mbind outcome_bind].
  pose proof (fe_ok_quiet _ _ _ _ Q1 Hs) as Hs1.
  destruct (process_ifetch_line sp out s1 tid Hs1 Ht) as (mode & us & s2 & -> & Hl & Hm). cbn [mbind outcome_bind]. cbv zeta in Hl.
  destruct (fl_mapped _ _ _ _ _ _ _ _ Hl) as (gs & _ & Hs2).
  destruct (upd_fetch_data_quiet tid (fun d => with_mode mode (m_fe_prev_mode d) d) s2) as (s3 & E3 & Q3 & B3 & _);
    [done | right; by destruct Hm as [-> | [-> _]] | apply Hs2 | by apply (fo_known _ _ _ Hs2) |].
  exists s3. split; [done |]. rewrite (qt_env _ _ Q1) in Hl. eexists us, _. split.
  2: { eapply line_before_quiet; [done | done |]. eapply fetched_line_quiet; [done | done | exact Hl]. }
  exists th. split; [done |]. rewrite B1. replace (fetch_room 0 s1) with (fetch_room 0 s) by (unfold fetch_room; by rewrite (qt_queue _ _ Q1)).
  destruct (stalled _ tid (fe_bp s)); [right; by split; [| right; left] |].
  destruct Hm as [-> | [-> (t & addr & Et' & Hmiss & Ea)]]; [by left |]. right. split; [done |]. right. right.
  destruct (upd_fetch_data_at _ _ _ _ _ E3 Et') as (t3 & Et3 & Ed3). exists t3, addr. rewrite I1 in Hmiss, Ea. by rewrite Ed3.
Qed.

Lemma run_thread_turn sp out s tid : fe_ok sp out s -> L <= tid < U ->
  exists s', run_thread k inv junk_entry junk_uop now m_cur_core_cycle cycle_count tid s = Done s' /\ takes_turn tid sp out s s'.
Proof.
  intros Hs Ht. destruct (fo_known _ _ _ Hs tid Ht) as [t Et]. pose proof (fo_last _ _ _ Hs) as EU. unfold run_thread.
  rewrite (get_trace_info_ok tid s t) by (done || lia). cbn [mbind outcome_bind].
  pose proof (fo_modes _ _ _ Hs tid t Et) as Hmode. unfold mode_ok in Hmode. destruct (m_fe_mode (m_fetch_data t)) eqn:Em; [| | | done].
  - destruct (set_mode_quiet tid FRONTEND_MODE_PERFECT FRONTEND_MODE_PERFECT s sp out) as (s1 & -> & Q1 & B1 & _); [done.. |].
    exists s1. split; [done |]. eapply idle_turn; try done. by rewrite Em.
  - by eapply ifetch_turn.
  - destruct (set_mode_quiet tid FRONTEND_MODE_WAIT_FOR_MISS FRONTEND_MODE_WAIT_FOR_MISS s sp out) as (s1 & -> & Q1 & B1 & _); [done.. |]. cbn [mbind outcome_bind].
    pose proof (fe_ok_quiet _ _ _ _ Q1 Hs) as Hs1. destruct (fo_known _ _ _ Hs1 tid Ht) as [t1 Et1]. unfold check_fetch_ready.
    rewrite (get_trace_info_ok tid s1 t1) by (done || (rewrite (fo_last _ _ _ Hs1); lia)). cbn [mbind outcome_bind]. destruct (_ =? 0).
    + destruct (set_mode_quiet tid FRONTEND_MODE_IFETCH FRONTEND_MODE_WAIT_FOR_MISS s1 sp out) as (s2 & -> & Q2 & B2 & _); [done.. |].
      exists s2. split; [done |]. eapply idle_turn; [by etrans | congruence | done | done | by rewrite Em].
    + exists s1. split; [done |]. eapply idle_turn; try done. by rewrite Em.
Qed.

Lemma may_fetch_core tid (s s' : state) : fe_core s' = fe_core s -> may_fetch k tid s' = may_fetch k tid s.
Proof. intros E. unfold may_fetch, check_fetch_ready, check_br_ready, check_load_ready, get_trace_info. by rewrite E. Qed.

(** Nothing is fetched: queue, map, objects, traces and stalls stay. *)
Definition fetches_nothing (sp : map_spec) (out : list nat) (s s' : state) : Prop := quiet s s' /\ fe_bp s' = fe_bp s /\ fe_ok sp out s'.

(** The thread the policy picks takes its turn; none does when the policy picks
    none, the stage is stalled or the queue has no room for a full line. *)
Definition scheduled (s0 : state) (sp : map_spec) (out : list nat) (s s' : state) : Prop :=
  exists tid s1, fetch k s0 = Done (tid, s1) /\
    ((tid = -1 \/ m_fe_stall s0 = true \/ Pqueue.space (m_q_frontend s0) <= m_knob_fetch_width k) /\ fetches_nothing sp out s s' \/
     L <= tid < U /\ may_fetch k tid s = Done true /\ m_fe_stall s0 = false /\ m_knob_fetch_width k < Pqueue.space (m_q_frontend s0) /\
     takes_turn tid sp out s s').

Lemma fetch_policy_quiet s sp out : fe_ok sp out s ->
  exists tid s1, fetch k s = Done (tid, s1) /\ quiet s s1 /\ fe_core s1 = fe_core s /\ fe_bp s1 = fe_bp s /\ m_icache s1 = m_icache s /\
    m_fe_stall s1 = m_fe_stall s /\ (tid = -1 \/ L <= tid < U /\ may_fetch k tid s = Done true).
Proof.
  intros Hs. unfold fetch, fetch_rr. destruct (_ =? 0); [exists (-1), s; by split_and!; auto |].
  destruct (fetch_rr_quiet (Z.to_nat (m_unique_scheduled_thread_num (fe_core s) - m_last_terminated_tid (fe_core s))) s sp out Hs)
    as (tid & s1 & E & Q & C & B & I & St & Hr). by exists tid, s1.
Qed.

Lemma schedule_turn sp out s : fe_ok sp out s ->
  exists s', schedule_loop k inv junk_entry junk_uop now m_cur_core_cycle cycle_count 1 (-1) s = Done s' /\ scheduled s sp out s s'.
Proof.
  intros Hs. cbn [schedule_loop]. destruct (fetch_policy_quiet s sp out Hs) as (tid & s1 & E & Q & C & B & I & St & Hr).
  rewrite E. cbn [mbind outcome_bind]. pose proof (fe_ok_quiet _ _ _ _ Q Hs) as Hs1. destruct Hr as [-> | [Ht Hm]].
  { exists s1. split; [done |]. exists (-1), s1. split; [done |]. left. split; [by left | done]. }
  pose proof (fo_arbiter _ _ _ Hs) as Har. rewrite (proj2 (Z.eqb_neq tid (-1))), (proj2 (Z.eqb_neq (-1) tid)) by lia.
  rewrite St, (qt_queue _ _ Q). destruct (m_fe_stall s) eqn:Est; cbn [negb andb].
  { eexists. split; [done |]. exists tid, s1. split; [done |]. left. split; [by right; left |]. split; [etrans; [exact Q | by split] |].
    split; [done |]. destruct Hs1; by split. }
  destruct (Z.ltb_spec (m_knob_fetch_width k) (Pqueue.space (m_q_frontend s))).
  - destruct (run_thread_turn sp out s1 tid Hs1 Ht) as (s2 & -> & Htu). cbn [mbind outcome_bind]. exists s2. split; [done |]. exists tid, s1.
    split; [done |]. right. split_and!; try done; try lia. by eapply turn_after_quiet.
  - eexists. split; [done |]. exists tid, s1. split; [done |]. left. split; [right; right; lia |]. split; [etrans; [exact Q | by split] |].
    split; [done |]. destruct Hs1; by split.
Qed.

(** The state the policy is asked in: with a fetch ratio the modulo counter has
    been advanced. *)
Definition clocked (s : state) : state :=
  if m_fetch_ratio k =? 1 then s
  else with_arbiter (if m_fetch_modulo s + 1 =? m_fetch_ratio k then 0 else m_fetch_modulo s + 1) (m_fetch_arbiter s) (m_last_fetch_tid_failed s) s.
End SYSTEM.

(** ** Properties *)


(** ** Witnesses *)

#[export] Instance list_trace_ok : FetchEnvOk list_trace.
Proof.
  refine {| remaining := fun e t => default [] (e !! t) |}.
  - intros tid x v. cbn [get_uops_from_traces list_trace_env]. unfold list_trace_read. destruct (tv_env v !! tid) as [[| f rest] |] eqn:E.
    + destruct v as [c sy p e]. exists c, sy, e, None. simpl in *. rewrite E. by split; [| split; [constructor |]].
    + eexists _, _, _, _. simpl. split; [done |]. split; [by constructor |]. split; [by destruct rest |]. split; [by rewrite lookup_insert_eq |].
      intros t Hne. by rewrite lookup_insert_ne.
    + destruct v as [c sy p e]. exists c, sy, e, None. simpl in *. rewrite E. by split; [| split; [constructor |]].
  - intros tid e. by exists e.
  - intros tid e. by exists 4096.
  - intros f e. by exists e, 1.
  - intros f e. by exists e, 0.
  - intros line tid e. by exists e, true.
Defined.

Module FrontendSystemExample.
Import FrontendExample.

Lemma demo_deliverable tid : 0 <= tid -> Forall (deliverable (fk_map (knobs false)) tid) (trace tid).
Proof.
  intros Ht. repeat (apply Forall_cons; split); [.. | by apply Forall_nil].
  all: split; [done | done | | done]; split; try done; try (unfold thread_of; simpl; lia).
  all: try (intros e ids ?%not_elem_of_nil; done).
  all: repeat (apply Forall_cons; split; [vm_compute; split; [discriminate | reflexivity] |]); by apply Forall_nil.
Qed.
Lemma demo_sorted tid : StronglySorted before (trace tid).
Proof. repeat (apply SSorted_cons; [| repeat (apply Forall_cons; split; [unfold before; vm_compute; reflexivity |]); by apply Forall_nil]). apply SSorted_nil. Qed.
Lemma fe_start_ok : fe_ok (knobs false) 0 0 3 spec0 [] (state false 0).
Proof.
  split.
  - apply (map_reach_ok (fk_map (knobs false)) 0); [done | done |]. apply map_reach_new. by exists junk_uop.
  - split; [apply NoDup_singleton | split; [by repeat constructor | by split]].
  - intros a y Ha _. simpl in Ha. apply lookup_singleton_Some in Ha as [_ <-]. done.
  - split; [by apply pqueue_new_inv | constructor].
  - split; [apply cache_new_ok, cache_geometry_wf; lia | done].
  - done.
  - done.
  - apply threads_known.
  - intros t th Hth. unfold mode_ok. simpl in Hth.
    repeat (apply lookup_insert_Some in Hth as [[_ <-] | [_ Hth]]; [done |]). by rewrite lookup_empty in Hth.
  - simpl. lia.
  - intros t. split_and!; [| | by intros e ids ?%not_elem_of_nil].
    all: cbn [remaining list_trace_ok fe_env state]; destruct (decide (t = 0)) as [-> |]; [| destruct (decide (t = 1)) as [-> |]; [| destruct (decide (t = 2)) as [-> |]]].
    1-3: by apply demo_deliverable.
    2-4: apply demo_sorted.
    all: rewrite !lookup_insert_ne, lookup_empty by congruence; constructor.
Qed.
End FrontendSystemExample.

