(* ===== verification/CpuOpcodes.v ===== *)
(** * Operation tables of the x86 decoder (trace_read.h, trace_read_cpu.cc)

    The categories a trace record can carry and the tables from categories to the
    kinds of micro-operations, one for integer and one for floating-point
    instructions under each latency map ([cpu_decoder_c::init_pin_convert]). An entry
    that is never assigned is [None]. *)

From S2P Require Import Prelude.
From S2P Require Import Rob.

Inductive CPU_OPCODE_ENUM :=
| XED_CATEGORY_INVALID | XED_CATEGORY_3DNOW | XED_CATEGORY_ADOX_ADCX | XED_CATEGORY_AES | XED_CATEGORY_AVX
| XED_CATEGORY_AVX2 | XED_CATEGORY_AVX2GATHER | XED_CATEGORY_AVX512 | XED_CATEGORY_AVX512_4FMAPS
| XED_CATEGORY_AVX512_4VNNIW | XED_CATEGORY_AVX512_BITALG | XED_CATEGORY_AVX512_VBMI
| XED_CATEGORY_AVX512_VP2INTERSECT | XED_CATEGORY_BINARY | XED_CATEGORY_BITBYTE | XED_CATEGORY_BLEND
| XED_CATEGORY_BMI1 | XED_CATEGORY_BMI2 | XED_CATEGORY_BROADCAST | XED_CATEGORY_CALL | XED_CATEGORY_CET
| XED_CATEGORY_CLDEMOTE | XED_CATEGORY_CLFLUSHOPT | XED_CATEGORY_CLWB | XED_CATEGORY_CLZERO
| XED_CATEGORY_CMOV | XED_CATEGORY_COMPRESS | XED_CATEGORY_COND_BR | XED_CATEGORY_CONFLICT
| XED_CATEGORY_CONVERT | XED_CATEGORY_DATAXFER | XED_CATEGORY_DECIMAL | XED_CATEGORY_ENQCMD
| XED_CATEGORY_EXPAND | XED_CATEGORY_FCMOV | XED_CATEGORY_FLAGOP | XED_CATEGORY_FMA4 | XED_CATEGORY_GATHER
| XED_CATEGORY_GFNI | XED_CATEGORY_IFMA | XED_CATEGORY_INTERRUPT | XED_CATEGORY_IO | XED_CATEGORY_IOSTRINGOP
| XED_CATEGORY_KMASK | XED_CATEGORY_LOGICAL | XED_CATEGORY_LOGICAL_FP | XED_CATEGORY_LZCNT
| XED_CATEGORY_MISC | XED_CATEGORY_MMX | XED_CATEGORY_MOVDIR | XED_CATEGORY_MPX | XED_CATEGORY_NOP
| XED_CATEGORY_PCLMULQDQ | XED_CATEGORY_PCONFIG | XED_CATEGORY_PKU | XED_CATEGORY_POP | XED_CATEGORY_PREFETCH
| XED_CATEGORY_PREFETCHWT1 | XED_CATEGORY_PT | XED_CATEGORY_PUSH | XED_CATEGORY_RDPID | XED_CATEGORY_RDPRU
| XED_CATEGORY_RDRAND | XED_CATEGORY_RDSEED | XED_CATEGORY_RDWRFSGS | XED_CATEGORY_RET | XED_CATEGORY_ROTATE
| XED_CATEGORY_SCATTER | XED_CATEGORY_SEGOP | XED_CATEGORY_SEMAPHORE | XED_CATEGORY_SETCC | XED_CATEGORY_SGX
| XED_CATEGORY_SHA | XED_CATEGORY_SHIFT | XED_CATEGORY_SMAP | XED_CATEGORY_SSE | XED_CATEGORY_STRINGOP
| XED_CATEGORY_STTNI | XED_CATEGORY_SYSCALL | XED_CATEGORY_SYSRET | XED_CATEGORY_SYSTEM | XED_CATEGORY_TBM
| XED_CATEGORY_UNCOND_BR | XED_CATEGORY_VAES | XED_CATEGORY_VBMI2 | XED_CATEGORY_VFMA
| XED_CATEGORY_VIA_PADLOCK | XED_CATEGORY_VPCLMULQDQ | XED_CATEGORY_VTX | XED_CATEGORY_WAITPKG
| XED_CATEGORY_WIDENOP | XED_CATEGORY_X87_ALU | XED_CATEGORY_XOP | XED_CATEGORY_XSAVE | XED_CATEGORY_XSAVEOPT
| TR_MUL | TR_DIV | TR_FMUL | TR_FDIV | TR_NOP | PREFETCH_NTA | PREFETCH_T0 | PREFETCH_T1 | PREFETCH_T2
| GPU_EN.

(** The kinds the pipeline does not tell apart, by their codes in [Uop_Type]. *)
Definition UOP_INV : Uop_Type := UOP_OTHER 0.
Definition UOP_NOP : Uop_Type := UOP_OTHER 2.
Definition UOP_CF : Uop_Type := UOP_OTHER 3.
Definition UOP_CMOV : Uop_Type := UOP_OTHER 4.
Definition UOP_IMEM : Uop_Type := UOP_OTHER 6.
Definition UOP_IDIV : Uop_Type := UOP_OTHER 9.
Definition UOP_LOGIC : Uop_Type := UOP_OTHER 11.
Definition UOP_SHIFT : Uop_Type := UOP_OTHER 12.
Definition UOP_BYTE : Uop_Type := UOP_OTHER 13.
Definition UOP_VADD : Uop_Type := UOP_OTHER 15.
Definition UOP_VSTR : Uop_Type := UOP_OTHER 16.
Definition UOP_VFADD : Uop_Type := UOP_OTHER 17.
Definition UOP_FMEM : Uop_Type := UOP_OTHER 22.
Definition UOP_FMUL : Uop_Type := UOP_OTHER 26.
Definition UOP_FDIV : Uop_Type := UOP_OTHER 27.
Definition UOP_AES : Uop_Type := UOP_OTHER 35.
Definition UOP_PCLMUL : Uop_Type := UOP_OTHER 36.
Definition UOP_X87 : Uop_Type := UOP_OTHER 37.
Definition UOP_XSAVE : Uop_Type := UOP_OTHER 38.
Definition UOP_XSAVEOPT : Uop_Type := UOP_OTHER 39.

Inductive LAT_MAP := LATENCY_SKYLAKE | LATENCY_COFFEE_LAKE | LATENCY_SKYLAKE_X | LATENCY_DEFAULT.

Definition int_table_skylake (op : CPU_OPCODE_ENUM) : option Uop_Type :=
  match op with
  | XED_CATEGORY_INVALID => Some UOP_INV
  | XED_CATEGORY_3DNOW => Some UOP_VADD
  | XED_CATEGORY_ADOX_ADCX => Some UOP_IADD
  | XED_CATEGORY_AES => Some UOP_AES
  | XED_CATEGORY_AVX | XED_CATEGORY_AVX2 | XED_CATEGORY_AVX2GATHER | XED_CATEGORY_AVX512 | XED_CATEGORY_AVX512_4FMAPS
    | XED_CATEGORY_AVX512_4VNNIW | XED_CATEGORY_AVX512_BITALG | XED_CATEGORY_AVX512_VBMI
    | XED_CATEGORY_AVX512_VP2INTERSECT => Some UOP_VADD
  | XED_CATEGORY_BINARY | XED_CATEGORY_BITBYTE | XED_CATEGORY_BLEND => Some UOP_IADD
  | XED_CATEGORY_BMI1 | XED_CATEGORY_BMI2 => Some UOP_BYTE
  | XED_CATEGORY_BROADCAST | XED_CATEGORY_CALL | XED_CATEGORY_CET | XED_CATEGORY_CLDEMOTE | XED_CATEGORY_CLFLUSHOPT
    | XED_CATEGORY_CLWB | XED_CATEGORY_CLZERO => Some UOP_IADD
  | XED_CATEGORY_CMOV => Some UOP_CMOV
  | XED_CATEGORY_COMPRESS | XED_CATEGORY_COND_BR | XED_CATEGORY_CONFLICT | XED_CATEGORY_CONVERT
    | XED_CATEGORY_DATAXFER | XED_CATEGORY_DECIMAL | XED_CATEGORY_ENQCMD | XED_CATEGORY_EXPAND => Some UOP_IADD
  | XED_CATEGORY_FCMOV => Some UOP_FADD
  | XED_CATEGORY_FLAGOP => Some UOP_IADD
  | XED_CATEGORY_FMA4 => Some UOP_FMUL
  | XED_CATEGORY_GATHER => Some UOP_IADD
  | XED_CATEGORY_GFNI | XED_CATEGORY_IFMA => Some UOP_IMUL
  | XED_CATEGORY_INTERRUPT | XED_CATEGORY_IO => Some UOP_IADD
  | XED_CATEGORY_IOSTRINGOP => Some UOP_IMUL
  | XED_CATEGORY_KMASK => Some UOP_IADD
  | XED_CATEGORY_LOGICAL | XED_CATEGORY_LOGICAL_FP | XED_CATEGORY_LZCNT => Some UOP_LOGIC
  | XED_CATEGORY_MISC => Some UOP_IADD
  | XED_CATEGORY_MMX => Some UOP_VADD
  | XED_CATEGORY_MOVDIR | XED_CATEGORY_MPX => Some UOP_FADD
  | XED_CATEGORY_NOP => Some UOP_NOP
  | XED_CATEGORY_PCLMULQDQ => Some UOP_PCLMUL
  | XED_CATEGORY_PCONFIG | XED_CATEGORY_PKU | XED_CATEGORY_POP | XED_CATEGORY_PREFETCH | XED_CATEGORY_PREFETCHWT1
    | XED_CATEGORY_PT | XED_CATEGORY_PUSH | XED_CATEGORY_RDPID | XED_CATEGORY_RDPRU | XED_CATEGORY_RDRAND
    | XED_CATEGORY_RDSEED | XED_CATEGORY_RDWRFSGS | XED_CATEGORY_RET => Some UOP_IADD
  | XED_CATEGORY_ROTATE => Some UOP_SHIFT
  | XED_CATEGORY_SCATTER | XED_CATEGORY_SEGOP | XED_CATEGORY_SEMAPHORE | XED_CATEGORY_SETCC | XED_CATEGORY_SGX
    | XED_CATEGORY_SHA => Some UOP_IADD
  | XED_CATEGORY_SHIFT => Some UOP_SHIFT
  | XED_CATEGORY_SMAP => Some UOP_IADD
  | XED_CATEGORY_SSE => Some UOP_VADD
  | XED_CATEGORY_STRINGOP => Some UOP_IADD
  | XED_CATEGORY_STTNI => Some UOP_VSTR
  | XED_CATEGORY_SYSCALL | XED_CATEGORY_SYSRET | XED_CATEGORY_SYSTEM | XED_CATEGORY_TBM
    | XED_CATEGORY_UNCOND_BR => Some UOP_IADD
  | XED_CATEGORY_VAES => Some UOP_AES
  | XED_CATEGORY_VBMI2 | XED_CATEGORY_VFMA => Some UOP_VADD
  | XED_CATEGORY_VIA_PADLOCK => Some UOP_AES
  | XED_CATEGORY_VPCLMULQDQ => Some UOP_PCLMUL
  | XED_CATEGORY_VTX | XED_CATEGORY_WAITPKG | XED_CATEGORY_WIDENOP => Some UOP_IADD
  | XED_CATEGORY_X87_ALU => Some UOP_X87
  | XED_CATEGORY_XOP => Some UOP_VADD
  | XED_CATEGORY_XSAVE => Some UOP_XSAVE
  | XED_CATEGORY_XSAVEOPT => Some UOP_XSAVEOPT
  | TR_MUL => Some UOP_IMUL
  | TR_DIV => Some UOP_IDIV
  | TR_FMUL => Some UOP_FMUL
  | TR_FDIV => Some UOP_FDIV
  | TR_NOP => Some UOP_NOP
  | PREFETCH_NTA | PREFETCH_T0 | PREFETCH_T1 | PREFETCH_T2 => Some UOP_IADD
  | GPU_EN => None
  end.

Definition fp_table_skylake (op : CPU_OPCODE_ENUM) : option Uop_Type :=
  match op with
  | XED_CATEGORY_INVALID => Some UOP_INV
  | XED_CATEGORY_3DNOW | XED_CATEGORY_ADOX_ADCX => Some UOP_FADD
  | XED_CATEGORY_AES => Some UOP_AES
  | XED_CATEGORY_AVX | XED_CATEGORY_AVX2 | XED_CATEGORY_AVX2GATHER | XED_CATEGORY_AVX512 | XED_CATEGORY_AVX512_4FMAPS
    | XED_CATEGORY_AVX512_4VNNIW | XED_CATEGORY_AVX512_BITALG | XED_CATEGORY_AVX512_VBMI
    | XED_CATEGORY_AVX512_VP2INTERSECT | XED_CATEGORY_BINARY | XED_CATEGORY_BITBYTE
    | XED_CATEGORY_BLEND => Some UOP_FADD
  | XED_CATEGORY_BMI1 | XED_CATEGORY_BMI2 => Some UOP_BYTE
  | XED_CATEGORY_BROADCAST | XED_CATEGORY_CALL | XED_CATEGORY_CET | XED_CATEGORY_CLDEMOTE | XED_CATEGORY_CLFLUSHOPT
    | XED_CATEGORY_CLWB | XED_CATEGORY_CLZERO => Some UOP_FADD
  | XED_CATEGORY_CMOV => Some UOP_CMOV
  | XED_CATEGORY_COMPRESS | XED_CATEGORY_COND_BR | XED_CATEGORY_CONFLICT | XED_CATEGORY_CONVERT
    | XED_CATEGORY_DATAXFER | XED_CATEGORY_DECIMAL | XED_CATEGORY_ENQCMD | XED_CATEGORY_EXPAND | XED_CATEGORY_FCMOV
    | XED_CATEGORY_FLAGOP => Some UOP_FADD
  | XED_CATEGORY_FMA4 => Some UOP_FMUL
  | XED_CATEGORY_GATHER => Some UOP_FADD
  | XED_CATEGORY_GFNI | XED_CATEGORY_IFMA => Some UOP_FMUL
  | XED_CATEGORY_INTERRUPT | XED_CATEGORY_IO => Some UOP_FADD
  | XED_CATEGORY_IOSTRINGOP => Some UOP_FMUL
  | XED_CATEGORY_KMASK => Some UOP_FADD
  | XED_CATEGORY_LOGICAL | XED_CATEGORY_LOGICAL_FP | XED_CATEGORY_LZCNT => Some UOP_LOGIC
  | XED_CATEGORY_MISC | XED_CATEGORY_MMX | XED_CATEGORY_MOVDIR | XED_CATEGORY_MPX => Some UOP_FADD
  | XED_CATEGORY_NOP => Some UOP_NOP
  | XED_CATEGORY_PCLMULQDQ => Some UOP_PCLMUL
  | XED_CATEGORY_PCONFIG | XED_CATEGORY_PKU | XED_CATEGORY_POP | XED_CATEGORY_PREFETCH | XED_CATEGORY_PREFETCHWT1
    | XED_CATEGORY_PT | XED_CATEGORY_PUSH | XED_CATEGORY_RDPID | XED_CATEGORY_RDPRU | XED_CATEGORY_RDRAND
    | XED_CATEGORY_RDSEED | XED_CATEGORY_RDWRFSGS | XED_CATEGORY_RET => Some UOP_FADD
  | XED_CATEGORY_ROTATE => Some UOP_SHIFT
  | XED_CATEGORY_SCATTER | XED_CATEGORY_SEGOP | XED_CATEGORY_SEMAPHORE | XED_CATEGORY_SETCC | XED_CATEGORY_SGX
    | XED_CATEGORY_SHA => Some UOP_FADD
  | XED_CATEGORY_SHIFT => Some UOP_SHIFT
  | XED_CATEGORY_SMAP | XED_CATEGORY_SSE | XED_CATEGORY_STRINGOP => Some UOP_FADD
  | XED_CATEGORY_STTNI => Some UOP_VSTR
  | XED_CATEGORY_SYSCALL | XED_CATEGORY_SYSRET | XED_CATEGORY_SYSTEM | XED_CATEGORY_TBM
    | XED_CATEGORY_UNCOND_BR => Some UOP_FADD
  | XED_CATEGORY_VAES => Some UOP_AES
  | XED_CATEGORY_VBMI2 | XED_CATEGORY_VFMA => Some UOP_FADD
  | XED_CATEGORY_VIA_PADLOCK => Some UOP_AES
  | XED_CATEGORY_VPCLMULQDQ => Some UOP_PCLMUL
  | XED_CATEGORY_VTX | XED_CATEGORY_WAITPKG | XED_CATEGORY_WIDENOP => Some UOP_FADD
  | XED_CATEGORY_X87_ALU => Some UOP_X87
  | XED_CATEGORY_XOP => Some UOP_FADD
  | XED_CATEGORY_XSAVE => Some UOP_XSAVE
  | XED_CATEGORY_XSAVEOPT => Some UOP_XSAVEOPT
  | TR_MUL => Some UOP_FMUL
  | TR_DIV => Some UOP_FDIV
  | TR_FMUL => Some UOP_FMUL
  | TR_FDIV => Some UOP_FDIV
  | TR_NOP => Some UOP_NOP
  | PREFETCH_NTA | PREFETCH_T0 | PREFETCH_T1 | PREFETCH_T2 => Some UOP_FADD
  | GPU_EN => None
  end.

Definition int_table_skylake_x (op : CPU_OPCODE_ENUM) : option Uop_Type :=
  match op with
  | XED_CATEGORY_INVALID => Some UOP_INV
  | XED_CATEGORY_3DNOW => Some UOP_VADD
  | XED_CATEGORY_ADOX_ADCX => Some UOP_IADD
  | XED_CATEGORY_AES => Some UOP_AES
  | XED_CATEGORY_AVX | XED_CATEGORY_AVX2 | XED_CATEGORY_AVX2GATHER | XED_CATEGORY_AVX512 | XED_CATEGORY_AVX512_4FMAPS
    | XED_CATEGORY_AVX512_4VNNIW | XED_CATEGORY_AVX512_BITALG | XED_CATEGORY_AVX512_VBMI
    | XED_CATEGORY_AVX512_VP2INTERSECT => Some UOP_VADD
  | XED_CATEGORY_BINARY | XED_CATEGORY_BITBYTE | XED_CATEGORY_BLEND => Some UOP_IADD
  | XED_CATEGORY_BMI1 | XED_CATEGORY_BMI2 => Some UOP_BYTE
  | XED_CATEGORY_BROADCAST | XED_CATEGORY_CALL | XED_CATEGORY_CET | XED_CATEGORY_CLDEMOTE | XED_CATEGORY_CLFLUSHOPT
    | XED_CATEGORY_CLWB | XED_CATEGORY_CLZERO => Some UOP_IADD
  | XED_CATEGORY_CMOV => Some UOP_CMOV
  | XED_CATEGORY_COMPRESS | XED_CATEGORY_COND_BR | XED_CATEGORY_CONFLICT | XED_CATEGORY_CONVERT
    | XED_CATEGORY_DATAXFER | XED_CATEGORY_DECIMAL | XED_CATEGORY_ENQCMD | XED_CATEGORY_EXPAND => Some UOP_IADD
  | XED_CATEGORY_FCMOV => Some UOP_FADD
  | XED_CATEGORY_FLAGOP => Some UOP_IADD
  | XED_CATEGORY_FMA4 => Some UOP_FMUL
  | XED_CATEGORY_GATHER => Some UOP_IADD
  | XED_CATEGORY_GFNI | XED_CATEGORY_IFMA => Some UOP_IMUL
  | XED_CATEGORY_INTERRUPT | XED_CATEGORY_IO => Some UOP_IADD
  | XED_CATEGORY_IOSTRINGOP => Some UOP_IMUL
  | XED_CATEGORY_KMASK => Some UOP_IADD
  | XED_CATEGORY_LOGICAL | XED_CATEGORY_LOGICAL_FP | XED_CATEGORY_LZCNT => Some UOP_LOGIC
  | XED_CATEGORY_MISC => Some UOP_IADD
  | XED_CATEGORY_MMX => Some UOP_VADD
  | XED_CATEGORY_MOVDIR | XED_CATEGORY_MPX => Some UOP_FADD
  | XED_CATEGORY_NOP => Some UOP_NOP
  | XED_CATEGORY_PCLMULQDQ => Some UOP_PCLMUL
  | XED_CATEGORY_PCONFIG | XED_CATEGORY_PKU | XED_CATEGORY_POP | XED_CATEGORY_PREFETCH | XED_CATEGORY_PREFETCHWT1
    | XED_CATEGORY_PT | XED_CATEGORY_PUSH | XED_CATEGORY_RDPID | XED_CATEGORY_RDPRU | XED_CATEGORY_RDRAND
    | XED_CATEGORY_RDSEED | XED_CATEGORY_RDWRFSGS | XED_CATEGORY_RET => Some UOP_IADD
  | XED_CATEGORY_ROTATE => Some UOP_SHIFT
  | XED_CATEGORY_SCATTER | XED_CATEGORY_SEGOP | XED_CATEGORY_SEMAPHORE | XED_CATEGORY_SETCC | XED_CATEGORY_SGX
    | XED_CATEGORY_SHA => Some UOP_IADD
  | XED_CATEGORY_SHIFT => Some UOP_SHIFT
  | XED_CATEGORY_SMAP => Some UOP_IADD
  | XED_CATEGORY_SSE => Some UOP_VADD
  | XED_CATEGORY_STRINGOP => Some UOP_IADD
  | XED_CATEGORY_STTNI => Some UOP_VSTR
  | XED_CATEGORY_SYSCALL | XED_CATEGORY_SYSRET | XED_CATEGORY_SYSTEM | XED_CATEGORY_TBM
    | XED_CATEGORY_UNCOND_BR => Some UOP_IADD
  | XED_CATEGORY_VAES => Some UOP_AES
  | XED_CATEGORY_VBMI2 | XED_CATEGORY_VFMA => Some UOP_VADD
  | XED_CATEGORY_VIA_PADLOCK => Some UOP_AES
  | XED_CATEGORY_VPCLMULQDQ => Some UOP_PCLMUL
  | XED_CATEGORY_VTX | XED_CATEGORY_WAITPKG | XED_CATEGORY_WIDENOP => Some UOP_IADD
  | XED_CATEGORY_X87_ALU => Some UOP_X87
  | XED_CATEGORY_XOP => Some UOP_VADD
  | XED_CATEGORY_XSAVE => Some UOP_XSAVE
  | XED_CATEGORY_XSAVEOPT => Some UOP_XSAVEOPT
  | TR_MUL => Some UOP_IMUL
  | TR_DIV => Some UOP_IDIV
  | TR_FMUL => Some UOP_FMUL
  | TR_FDIV => Some UOP_FDIV
  | TR_NOP => Some UOP_NOP
  | PREFETCH_NTA | PREFETCH_T0 | PREFETCH_T1 | PREFETCH_T2 => Some UOP_IADD
  | GPU_EN => None
  end.

Definition fp_table_skylake_x (op : CPU_OPCODE_ENUM) : option Uop_Type :=
  match op with
  | XED_CATEGORY_INVALID => Some UOP_INV
  | XED_CATEGORY_3DNOW | XED_CATEGORY_ADOX_ADCX => Some UOP_FADD
  | XED_CATEGORY_AES => Some UOP_AES
  | XED_CATEGORY_AVX | XED_CATEGORY_AVX2 | XED_CATEGORY_AVX2GATHER | XED_CATEGORY_AVX512 | XED_CATEGORY_AVX512_4FMAPS
    | XED_CATEGORY_AVX512_4VNNIW | XED_CATEGORY_AVX512_BITALG | XED_CATEGORY_AVX512_VBMI
    | XED_CATEGORY_AVX512_VP2INTERSECT => Some UOP_VFADD
  | XED_CATEGORY_BINARY | XED_CATEGORY_BITBYTE | XED_CATEGORY_BLEND => Some UOP_FADD
  | XED_CATEGORY_BMI1 | XED_CATEGORY_BMI2 => Some UOP_BYTE
  | XED_CATEGORY_BROADCAST | XED_CATEGORY_CALL | XED_CATEGORY_CET | XED_CATEGORY_CLDEMOTE | XED_CATEGORY_CLFLUSHOPT
    | XED_CATEGORY_CLWB | XED_CATEGORY_CLZERO => Some UOP_FADD
  | XED_CATEGORY_CMOV => Some UOP_CMOV
  | XED_CATEGORY_COMPRESS | XED_CATEGORY_COND_BR | XED_CATEGORY_CONFLICT | XED_CATEGORY_CONVERT
    | XED_CATEGORY_DATAXFER | XED_CATEGORY_DECIMAL | XED_CATEGORY_ENQCMD | XED_CATEGORY_EXPAND | XED_CATEGORY_FCMOV
    | XED_CATEGORY_FLAGOP => Some UOP_FADD
  | XED_CATEGORY_FMA4 => Some UOP_FMUL
  | XED_CATEGORY_GATHER => Some UOP_FADD
  | XED_CATEGORY_GFNI | XED_CATEGORY_IFMA => Some UOP_FMUL
  | XED_CATEGORY_INTERRUPT | XED_CATEGORY_IO => Some UOP_FADD
  | XED_CATEGORY_IOSTRINGOP => Some UOP_FMUL
  | XED_CATEGORY_KMASK => Some UOP_FADD
  | XED_CATEGORY_LOGICAL | XED_CATEGORY_LOGICAL_FP | XED_CATEGORY_LZCNT => Some UOP_LOGIC
  | XED_CATEGORY_MISC => Some UOP_FADD
  | XED_CATEGORY_MMX => Some UOP_VFADD
  | XED_CATEGORY_MOVDIR | XED_CATEGORY_MPX => Some UOP_FADD
  | XED_CATEGORY_NOP => Some UOP_NOP
  | XED_CATEGORY_PCLMULQDQ => Some UOP_PCLMUL
  | XED_CATEGORY_PCONFIG | XED_CATEGORY_PKU | XED_CATEGORY_POP | XED_CATEGORY_PREFETCH | XED_CATEGORY_PREFETCHWT1
    | XED_CATEGORY_PT | XED_CATEGORY_PUSH | XED_CATEGORY_RDPID | XED_CATEGORY_RDPRU | XED_CATEGORY_RDRAND
    | XED_CATEGORY_RDSEED | XED_CATEGORY_RDWRFSGS | XED_CATEGORY_RET => Some UOP_FADD
  | XED_CATEGORY_ROTATE => Some UOP_SHIFT
  | XED_CATEGORY_SCATTER | XED_CATEGORY_SEGOP | XED_CATEGORY_SEMAPHORE | XED_CATEGORY_SETCC | XED_CATEGORY_SGX
    | XED_CATEGORY_SHA => Some UOP_FADD
  | XED_CATEGORY_SHIFT => Some UOP_SHIFT
  | XED_CATEGORY_SMAP => Some UOP_FADD
  | XED_CATEGORY_SSE => Some UOP_VFADD
  | XED_CATEGORY_STRINGOP => Some UOP_FADD
  | XED_CATEGORY_STTNI => Some UOP_VSTR
  | XED_CATEGORY_SYSCALL | XED_CATEGORY_SYSRET | XED_CATEGORY_SYSTEM | XED_CATEGORY_TBM
    | XED_CATEGORY_UNCOND_BR => Some UOP_FADD
  | XED_CATEGORY_VAES => Some UOP_AES
  | XED_CATEGORY_VBMI2 | XED_CATEGORY_VFMA => Some UOP_FADD
  | XED_CATEGORY_VIA_PADLOCK => Some UOP_AES
  | XED_CATEGORY_VPCLMULQDQ => Some UOP_PCLMUL
  | XED_CATEGORY_VTX | XED_CATEGORY_WAITPKG | XED_CATEGORY_WIDENOP => Some UOP_FADD
  | XED_CATEGORY_X87_ALU => Some UOP_X87
  | XED_CATEGORY_XOP => Some UOP_FADD
  | XED_CATEGORY_XSAVE => Some UOP_XSAVE
  | XED_CATEGORY_XSAVEOPT => Some UOP_XSAVEOPT
  | TR_MUL => Some UOP_FMUL
  | TR_DIV => Some UOP_FDIV
  | TR_FMUL => Some UOP_FMUL
  | TR_FDIV => Some UOP_FDIV
  | TR_NOP => Some UOP_NOP
  | PREFETCH_NTA | PREFETCH_T0 | PREFETCH_T1 | PREFETCH_T2 => Some UOP_FADD
  | GPU_EN => None
  end.

Definition int_table_default (op : CPU_OPCODE_ENUM) : option Uop_Type :=
  match op with
  | XED_CATEGORY_INVALID => Some UOP_INV
  | XED_CATEGORY_3DNOW | XED_CATEGORY_ADOX_ADCX => Some UOP_IADD
  | XED_CATEGORY_AES => Some UOP_IMUL
  | XED_CATEGORY_AVX | XED_CATEGORY_AVX2 | XED_CATEGORY_AVX2GATHER | XED_CATEGORY_AVX512 | XED_CATEGORY_AVX512_4FMAPS
    | XED_CATEGORY_AVX512_4VNNIW | XED_CATEGORY_AVX512_BITALG | XED_CATEGORY_AVX512_VBMI
    | XED_CATEGORY_AVX512_VP2INTERSECT => Some UOP_FADD
  | XED_CATEGORY_BINARY | XED_CATEGORY_BITBYTE | XED_CATEGORY_BLEND => Some UOP_IADD
  | XED_CATEGORY_BMI1 | XED_CATEGORY_BMI2 => Some UOP_BYTE
  | XED_CATEGORY_BROADCAST | XED_CATEGORY_CALL | XED_CATEGORY_CET | XED_CATEGORY_CLDEMOTE | XED_CATEGORY_CLFLUSHOPT
    | XED_CATEGORY_CLWB | XED_CATEGORY_CLZERO => Some UOP_IADD
  | XED_CATEGORY_CMOV => Some UOP_CMOV
  | XED_CATEGORY_COMPRESS | XED_CATEGORY_COND_BR | XED_CATEGORY_CONFLICT | XED_CATEGORY_CONVERT
    | XED_CATEGORY_DATAXFER | XED_CATEGORY_DECIMAL | XED_CATEGORY_ENQCMD | XED_CATEGORY_EXPAND => Some UOP_IADD
  | XED_CATEGORY_FCMOV => Some UOP_FADD
  | XED_CATEGORY_FLAGOP => Some UOP_IADD
  | XED_CATEGORY_FMA4 => Some UOP_FMUL
  | XED_CATEGORY_GATHER => Some UOP_IADD
  | XED_CATEGORY_GFNI | XED_CATEGORY_IFMA => Some UOP_IMUL
  | XED_CATEGORY_INTERRUPT | XED_CATEGORY_IO => Some UOP_IADD
  | XED_CATEGORY_IOSTRINGOP => Some UOP_IMUL
  | XED_CATEGORY_KMASK => Some UOP_IADD
  | XED_CATEGORY_LOGICAL | XED_CATEGORY_LOGICAL_FP | XED_CATEGORY_LZCNT => Some UOP_LOGIC
  | XED_CATEGORY_MISC => Some UOP_IADD
  | XED_CATEGORY_MMX | XED_CATEGORY_MOVDIR | XED_CATEGORY_MPX => Some UOP_FADD
  | XED_CATEGORY_NOP => Some UOP_NOP
  | XED_CATEGORY_PCLMULQDQ => Some UOP_IMUL
  | XED_CATEGORY_PCONFIG | XED_CATEGORY_PKU | XED_CATEGORY_POP | XED_CATEGORY_PREFETCH | XED_CATEGORY_PREFETCHWT1
    | XED_CATEGORY_PT | XED_CATEGORY_PUSH | XED_CATEGORY_RDPID | XED_CATEGORY_RDPRU | XED_CATEGORY_RDRAND
    | XED_CATEGORY_RDSEED | XED_CATEGORY_RDWRFSGS | XED_CATEGORY_RET => Some UOP_IADD
  | XED_CATEGORY_ROTATE => Some UOP_SHIFT
  | XED_CATEGORY_SCATTER | XED_CATEGORY_SEGOP | XED_CATEGORY_SEMAPHORE | XED_CATEGORY_SETCC | XED_CATEGORY_SGX
    | XED_CATEGORY_SHA => Some UOP_IADD
  | XED_CATEGORY_SHIFT => Some UOP_SHIFT
  | XED_CATEGORY_SMAP => Some UOP_IADD
  | XED_CATEGORY_SSE => Some UOP_FADD
  | XED_CATEGORY_STRINGOP | XED_CATEGORY_STTNI | XED_CATEGORY_SYSCALL | XED_CATEGORY_SYSRET | XED_CATEGORY_SYSTEM
    | XED_CATEGORY_TBM | XED_CATEGORY_UNCOND_BR | XED_CATEGORY_VAES | XED_CATEGORY_VBMI2
    | XED_CATEGORY_VFMA => Some UOP_IADD
  | XED_CATEGORY_VIA_PADLOCK | XED_CATEGORY_VPCLMULQDQ => Some UOP_IMUL
  | XED_CATEGORY_VTX | XED_CATEGORY_WAITPKG | XED_CATEGORY_WIDENOP => Some UOP_IADD
  | XED_CATEGORY_X87_ALU => Some UOP_FADD
  | XED_CATEGORY_XOP => Some UOP_IADD
  | XED_CATEGORY_XSAVE | XED_CATEGORY_XSAVEOPT | TR_MUL | TR_DIV => Some UOP_IMUL
  | TR_FMUL => Some UOP_FMUL
  | TR_FDIV => Some UOP_FDIV
  | TR_NOP => Some UOP_NOP
  | PREFETCH_NTA | PREFETCH_T0 | PREFETCH_T1 | PREFETCH_T2 => Some UOP_IADD
  | GPU_EN => None
  end.

Definition fp_table_default (op : CPU_OPCODE_ENUM) : option Uop_Type :=
  match op with
  | XED_CATEGORY_INVALID => Some UOP_INV
  | XED_CATEGORY_3DNOW | XED_CATEGORY_ADOX_ADCX => Some UOP_FADD
  | XED_CATEGORY_AES => Some UOP_FMUL
  | XED_CATEGORY_AVX | XED_CATEGORY_AVX2 | XED_CATEGORY_AVX2GATHER | XED_CATEGORY_AVX512 | XED_CATEGORY_AVX512_4FMAPS
    | XED_CATEGORY_AVX512_4VNNIW | XED_CATEGORY_AVX512_BITALG | XED_CATEGORY_AVX512_VBMI
    | XED_CATEGORY_AVX512_VP2INTERSECT | XED_CATEGORY_BINARY | XED_CATEGORY_BITBYTE
    | XED_CATEGORY_BLEND => Some UOP_FADD
  | XED_CATEGORY_BMI1 | XED_CATEGORY_BMI2 => Some UOP_BYTE
  | XED_CATEGORY_BROADCAST | XED_CATEGORY_CALL | XED_CATEGORY_CET | XED_CATEGORY_CLDEMOTE | XED_CATEGORY_CLFLUSHOPT
    | XED_CATEGORY_CLWB | XED_CATEGORY_CLZERO => Some UOP_FADD
  | XED_CATEGORY_CMOV => Some UOP_CMOV
  | XED_CATEGORY_COMPRESS | XED_CATEGORY_COND_BR | XED_CATEGORY_CONFLICT | XED_CATEGORY_CONVERT
    | XED_CATEGORY_DATAXFER | XED_CATEGORY_DECIMAL | XED_CATEGORY_ENQCMD | XED_CATEGORY_EXPAND | XED_CATEGORY_FCMOV
    | XED_CATEGORY_FLAGOP => Some UOP_FADD
  | XED_CATEGORY_FMA4 => Some UOP_FMUL
  | XED_CATEGORY_GATHER => Some UOP_FADD
  | XED_CATEGORY_GFNI | XED_CATEGORY_IFMA => Some UOP_FMUL
  | XED_CATEGORY_INTERRUPT | XED_CATEGORY_IO => Some UOP_FADD
  | XED_CATEGORY_IOSTRINGOP => Some UOP_FMUL
  | XED_CATEGORY_KMASK => Some UOP_FADD
  | XED_CATEGORY_LOGICAL | XED_CATEGORY_LOGICAL_FP | XED_CATEGORY_LZCNT => Some UOP_LOGIC
  | XED_CATEGORY_MISC | XED_CATEGORY_MMX | XED_CATEGORY_MOVDIR | XED_CATEGORY_MPX => Some UOP_FADD
  | XED_CATEGORY_NOP => Some UOP_NOP
  | XED_CATEGORY_PCLMULQDQ => Some UOP_FMUL
  | XED_CATEGORY_PCONFIG | XED_CATEGORY_PKU | XED_CATEGORY_POP | XED_CATEGORY_PREFETCH | XED_CATEGORY_PREFETCHWT1
    | XED_CATEGORY_PT | XED_CATEGORY_PUSH | XED_CATEGORY_RDPID | XED_CATEGORY_RDPRU | XED_CATEGORY_RDRAND
    | XED_CATEGORY_RDSEED | XED_CATEGORY_RDWRFSGS | XED_CATEGORY_RET => Some UOP_FADD
  | XED_CATEGORY_ROTATE => Some UOP_SHIFT
  | XED_CATEGORY_SCATTER | XED_CATEGORY_SEGOP | XED_CATEGORY_SEMAPHORE | XED_CATEGORY_SETCC | XED_CATEGORY_SGX
    | XED_CATEGORY_SHA => Some UOP_FADD
  | XED_CATEGORY_SHIFT => Some UOP_SHIFT
  | XED_CATEGORY_SMAP | XED_CATEGORY_SSE | XED_CATEGORY_STRINGOP | XED_CATEGORY_STTNI | XED_CATEGORY_SYSCALL
    | XED_CATEGORY_SYSRET | XED_CATEGORY_SYSTEM | XED_CATEGORY_TBM | XED_CATEGORY_UNCOND_BR | XED_CATEGORY_VAES
    | XED_CATEGORY_VBMI2 | XED_CATEGORY_VFMA => Some UOP_FADD
  | XED_CATEGORY_VIA_PADLOCK | XED_CATEGORY_VPCLMULQDQ => Some UOP_FMUL
  | XED_CATEGORY_VTX | XED_CATEGORY_WAITPKG | XED_CATEGORY_WIDENOP | XED_CATEGORY_X87_ALU
    | XED_CATEGORY_XOP => Some UOP_FADD
  | XED_CATEGORY_XSAVE | XED_CATEGORY_XSAVEOPT | TR_MUL => Some UOP_FMUL
  | TR_DIV => Some UOP_FDIV
  | TR_FMUL => Some UOP_FMUL
  | TR_FDIV => Some UOP_FDIV
  | TR_NOP => Some UOP_NOP
  | PREFETCH_NTA | PREFETCH_T0 | PREFETCH_T1 | PREFETCH_T2 => Some UOP_FADD
  | GPU_EN => None
  end.

Definition m_int_uop_table (l : LAT_MAP) : CPU_OPCODE_ENUM -> option Uop_Type :=
  match l with LATENCY_SKYLAKE | LATENCY_COFFEE_LAKE => int_table_skylake | LATENCY_SKYLAKE_X => int_table_skylake_x | LATENCY_DEFAULT => int_table_default end.
Definition m_fp_uop_table (l : LAT_MAP) : CPU_OPCODE_ENUM -> option Uop_Type :=
  match l with LATENCY_SKYLAKE | LATENCY_COFFEE_LAKE => fp_table_skylake | LATENCY_SKYLAKE_X => fp_table_skylake_x | LATENCY_DEFAULT => fp_table_default end.

(** Every category has a kind in all six tables, but the one that starts the GPU. *)
Lemma uop_tables_total l op (fp : bool) : op <> GPU_EN -> is_Some ((if fp then m_fp_uop_table else m_int_uop_table) l op).
Proof. intros H. destruct fp, l, op; first [exact (mk_is_Some _ _ eq_refl) | by destruct H]. Qed.
