(* ===== verification/TraceCpu.v ===== *)
(** * The x86 trace decoder (trace_read_cpu.cc, trace_read.cc, inst_info.h)

    A record of a trace is one instruction. The decoder splits it into
    micro-operations: loads, the operation, the store, the branch, with a temporary
    register between them. The static part is kept in a table per process and taken
    from there when the instruction is met again. Micro-operations are written into
    an array of objects that are reused for every instruction of a thread, field by
    field, so what a field is not given it keeps from the instruction before. *)

From S2P Require Import Prelude.
From S2P Require Import Rob.
From S2P Require Import Uops.
From S2P Require Import Map.
From S2P Require Import CpuOpcodes.

Definition MAX_PUP : Z := 256.
Definition TR_REG_TMP0 : Z := 256.
Definition PIN_CF_SYS : Z := 8.

(** ** Data *)

(** A record of the trace; the last field is the address of the next record. *)
Record trace_info_cpu_s := mk_inst {
  p_num_read_regs : Z;
  p_num_dest_regs : Z;
  p_src : list Z;
  p_dst : list Z;
  p_cf_type : Z;
  p_has_immediate : bool;
  p_opcode : CPU_OPCODE_ENUM;
  p_has_st : bool;
  p_is_fp : bool;
  p_num_ld : Z;
  p_size : Z;
  p_ld_vaddr1 : Z;
  p_ld_vaddr2 : Z;
  p_st_vaddr : Z;
  p_instruction_addr : Z;
  p_branch_target : Z;
  p_mem_read_size : Z;
  p_mem_write_size : Z;
  p_rep_dir : bool;
  p_actually_taken : bool;
  p_instruction_next_addr : Z
}.

(** What both a micro-operation and the table hold. *)
Record kind_s := mk_kind { k_op : Uop_Type; k_mem : Mem_Type; k_cf : Cf_Type; k_bar : Bar_Type }.
(** What a single execution adds. *)
Record dyn_s := mk_dyn { d_va : Z; d_mem_size : Z; d_actual_taken : bool; d_target : Z; d_active_mask : Z; d_taken_mask : Z; d_reconverge_addr : Z }.

(** The register arrays hold the numbers, which the code stores twice ([m_id], [m_reg]). *)
Record trace_uop_s := mk_tuop {
  t_opcode : CPU_OPCODE_ENUM;
  t_kind : kind_s;
  t_num_dest_regs : Z;
  t_num_src_regs : Z;
  t_srcs : list Z;
  t_dests : list Z;
  t_pin_2nd_mem : bool;
  t_eom : bool;
  t_alu_uop : bool;
  t_inst_size : Z;
  t_mul_mem_uops : bool;
  t_addr : Z;
  t_npc : Z;
  t_dyn : dyn_s;
  t_info : option Z;
  t_rep_uop_num : Z;
  t_hmc_inst : Z
}.

Record inst_info_s := mk_info {
  i_addr : Z;
  i_kind : kind_s;
  i_num_dest_regs : Z;
  i_num_src_regs : Z;
  i_mem_size : Z;
  i_srcs : list Z;
  i_dests : list Z;
  i_inst_size : Z;
  i_num_uop : Z;
  i_second_mem : bool;
  i_bom : bool;
  i_eom : bool
}.
Abbreviation inst_table := (gmap Z inst_info_s).
Abbreviation uop_array := (list trace_uop_s).

Record decoder_knobs := mk_decoder_knobs {
  lat_map : LAT_MAP;
  KNOB_MEM_SIZE_AMP : Z;
  KNOB_ENABLE_HMC_FENCE : bool;
  KNOB_ENABLE_HMC_DOUBLE_FENCE : bool;
  m_hmc_fence_info : gset Z
}.

(** ** Field updates *)

Definition set_opcode (o : CPU_OPCODE_ENUM) (u : trace_uop_s) : trace_uop_s :=
  mk_tuop o (t_kind u) (t_num_dest_regs u) (t_num_src_regs u) (t_srcs u) (t_dests u) (t_pin_2nd_mem u) (t_eom u) (t_alu_uop u) (t_inst_size u) (t_mul_mem_uops u)
    (t_addr u) (t_npc u) (t_dyn u) (t_info u) (t_rep_uop_num u) (t_hmc_inst u).
(** The fields every kind of micro-operation is given. *)
Definition set_static (kd : kind_s) (nd ns : Z) (second eom : bool) (u : trace_uop_s) : trace_uop_s :=
  mk_tuop (t_opcode u) kd nd ns (t_srcs u) (t_dests u) second eom (t_alu_uop u) (t_inst_size u) (t_mul_mem_uops u)
    (t_addr u) (t_npc u) (t_dyn u) (t_info u) (t_rep_uop_num u) (t_hmc_inst u).
Definition set_alu (b : bool) (u : trace_uop_s) : trace_uop_s :=
  mk_tuop (t_opcode u) (t_kind u) (t_num_dest_regs u) (t_num_src_regs u) (t_srcs u) (t_dests u) (t_pin_2nd_mem u) (t_eom u) b (t_inst_size u) (t_mul_mem_uops u)
    (t_addr u) (t_npc u) (t_dyn u) (t_info u) (t_rep_uop_num u) (t_hmc_inst u).
Definition set_inst_size (z : Z) (u : trace_uop_s) : trace_uop_s :=
  mk_tuop (t_opcode u) (t_kind u) (t_num_dest_regs u) (t_num_src_regs u) (t_srcs u) (t_dests u) (t_pin_2nd_mem u) (t_eom u) (t_alu_uop u) z (t_mul_mem_uops u)
    (t_addr u) (t_npc u) (t_dyn u) (t_info u) (t_rep_uop_num u) (t_hmc_inst u).
Definition set_mul (b : bool) (u : trace_uop_s) : trace_uop_s :=
  mk_tuop (t_opcode u) (t_kind u) (t_num_dest_regs u) (t_num_src_regs u) (t_srcs u) (t_dests u) (t_pin_2nd_mem u) (t_eom u) (t_alu_uop u) (t_inst_size u) b
    (t_addr u) (t_npc u) (t_dyn u) (t_info u) (t_rep_uop_num u) (t_hmc_inst u).
Definition set_regs (nd ns : Z) (srcs dests : list Z) (u : trace_uop_s) : trace_uop_s :=
  mk_tuop (t_opcode u) (t_kind u) nd ns srcs dests (t_pin_2nd_mem u) (t_eom u) (t_alu_uop u) (t_inst_size u) (t_mul_mem_uops u)
    (t_addr u) (t_npc u) (t_dyn u) (t_info u) (t_rep_uop_num u) (t_hmc_inst u).
Definition set_kind (kd : kind_s) (u : trace_uop_s) : trace_uop_s :=
  mk_tuop (t_opcode u) kd (t_num_dest_regs u) (t_num_src_regs u) (t_srcs u) (t_dests u) (t_pin_2nd_mem u) (t_eom u) (t_alu_uop u) (t_inst_size u) (t_mul_mem_uops u)
    (t_addr u) (t_npc u) (t_dyn u) (t_info u) (t_rep_uop_num u) (t_hmc_inst u).
Definition set_eom (b : bool) (u : trace_uop_s) : trace_uop_s :=
  mk_tuop (t_opcode u) (t_kind u) (t_num_dest_regs u) (t_num_src_regs u) (t_srcs u) (t_dests u) (t_pin_2nd_mem u) b (t_alu_uop u) (t_inst_size u) (t_mul_mem_uops u)
    (t_addr u) (t_npc u) (t_dyn u) (t_info u) (t_rep_uop_num u) (t_hmc_inst u).
Definition set_addr (a : Z) (u : trace_uop_s) : trace_uop_s :=
  mk_tuop (t_opcode u) (t_kind u) (t_num_dest_regs u) (t_num_src_regs u) (t_srcs u) (t_dests u) (t_pin_2nd_mem u) (t_eom u) (t_alu_uop u) (t_inst_size u) (t_mul_mem_uops u)
    a (t_npc u) (t_dyn u) (t_info u) (t_rep_uop_num u) (t_hmc_inst u).
Definition set_npc (a : Z) (u : trace_uop_s) : trace_uop_s :=
  mk_tuop (t_opcode u) (t_kind u) (t_num_dest_regs u) (t_num_src_regs u) (t_srcs u) (t_dests u) (t_pin_2nd_mem u) (t_eom u) (t_alu_uop u) (t_inst_size u) (t_mul_mem_uops u)
    (t_addr u) a (t_dyn u) (t_info u) (t_rep_uop_num u) (t_hmc_inst u).
Definition set_dyn (d : dyn_s) (u : trace_uop_s) : trace_uop_s :=
  mk_tuop (t_opcode u) (t_kind u) (t_num_dest_regs u) (t_num_src_regs u) (t_srcs u) (t_dests u) (t_pin_2nd_mem u) (t_eom u) (t_alu_uop u) (t_inst_size u) (t_mul_mem_uops u)
    (t_addr u) (t_npc u) d (t_info u) (t_rep_uop_num u) (t_hmc_inst u).
Definition set_info (key : Z) (u : trace_uop_s) : trace_uop_s :=
  mk_tuop (t_opcode u) (t_kind u) (t_num_dest_regs u) (t_num_src_regs u) (t_srcs u) (t_dests u) (t_pin_2nd_mem u) (t_eom u) (t_alu_uop u) (t_inst_size u) (t_mul_mem_uops u)
    (t_addr u) (t_npc u) (t_dyn u) (Some key) (t_rep_uop_num u) (t_hmc_inst u).
Definition set_rep (n : Z) (u : trace_uop_s) : trace_uop_s :=
  mk_tuop (t_opcode u) (t_kind u) (t_num_dest_regs u) (t_num_src_regs u) (t_srcs u) (t_dests u) (t_pin_2nd_mem u) (t_eom u) (t_alu_uop u) (t_inst_size u) (t_mul_mem_uops u)
    (t_addr u) (t_npc u) (t_dyn u) (t_info u) n (t_hmc_inst u).
Definition set_hmc (h : Z) (u : trace_uop_s) : trace_uop_s :=
  mk_tuop (t_opcode u) (t_kind u) (t_num_dest_regs u) (t_num_src_regs u) (t_srcs u) (t_dests u) (t_pin_2nd_mem u) (t_eom u) (t_alu_uop u) (t_inst_size u) (t_mul_mem_uops u)
    (t_addr u) (t_npc u) (t_dyn u) (t_info u) (t_rep_uop_num u) h.
Definition set_mem_size (z : Z) (u : trace_uop_s) : trace_uop_s :=
  let d := t_dyn u in set_dyn (mk_dyn (d_va d) z (d_actual_taken d) (d_target d) (d_active_mask d) (d_taken_mask d) (d_reconverge_addr d)) u.
Definition set_marks (bom eom : bool) (i : inst_info_s) : inst_info_s :=
  mk_info (i_addr i) (i_kind i) (i_num_dest_regs i) (i_num_src_regs i) (i_mem_size i) (i_srcs i) (i_dests i) (i_inst_size i) (i_num_uop i) (i_second_mem i) bom eom.
Definition set_num_uop (n : Z) (i : inst_info_s) : inst_info_s :=
  mk_info (i_addr i) (i_kind i) (i_num_dest_regs i) (i_num_src_regs i) (i_mem_size i) (i_srcs i) (i_dests i) (i_inst_size i) (u8 n) (i_second_mem i) (i_bom i) (i_eom i).

(** Object [i] of the array. *)
Definition at_uop (i : Z) (f : trace_uop_s -> outcome trace_uop_s) (a : uop_array) : outcome uop_array :=
  u ← aget a i; u' ← f u; aset a i u'.
Definition upd_uop (i : Z) (f : trace_uop_s -> trace_uop_s) (a : uop_array) : outcome uop_array := at_uop i (fun u => mret (f u)) a.

(** [to[off + i] = from[i]] for [n] values of [i]. *)
Fixpoint copy_regs (n : nat) (i off : Z) (from to : list Z) : outcome (list Z) :=
  match n with
  | O => mret to
  | S n' => r ← aget from i; to' ← aset to (off + i) r; copy_regs n' (i + 1) off from to'
  end.

Section DECODER.
Context (k : decoder_knobs) (junk : inst_info_s).

(** ** The table of decoded instructions *)

Definition inst_key (pi : trace_info_cpu_s) (ii : Z) : Z := u64 (shl64 (p_instruction_addr pi) 3 + ii).
(** [hash_table_access_create]; [junk] is what a new object holds. *)
Definition info_create (key : Z) (h : inst_table) : inst_info_s * bool * inst_table :=
  match h !! key with Some i => (i, false, h) | None => (junk, true, <[key := junk]> h) end.

(** The loop over the destinations sets its own bound to one. *)
Definition convert_t_uop_to_info (u : trace_uop_s) (i : inst_info_s) : outcome inst_info_s :=
  _ ← ASSERT (t_num_dest_regs u <=? MAX_DESTS);
  _ ← ASSERT (t_num_src_regs u <=? MAX_SRCS);
  srcs ← copy_regs (Z.to_nat (t_num_src_regs u)) 0 0 (t_srcs u) (i_srcs i);
  dests ← copy_regs (if 0 <? t_num_dest_regs u then 1 else 0) 0 0 (t_dests u) (i_dests i);
  mret (mk_info (t_addr u) (t_kind u) (if 0 <? t_num_dest_regs u then 1 else t_num_dest_regs u) (t_num_src_regs u) (d_mem_size (t_dyn u)) srcs dests
          (u8 (t_inst_size u)) (i_num_uop i) (t_pin_2nd_mem u) (i_bom i) (i_eom i)).
Definition convert_info_uop (i : inst_info_s) (u : trace_uop_s) : outcome trace_uop_s :=
  srcs ← copy_regs (Z.to_nat (i_num_src_regs i)) 0 0 (i_srcs i) (t_srcs u);
  dests ← copy_regs (Z.to_nat (i_num_dest_regs i)) 0 0 (i_dests i) (t_dests u);
  _ ← ASSERT (forallb (fun r => r <? NUM_REG_IDS) (take (Z.to_nat (i_num_dest_regs i)) dests));
  mret (set_mem_size (i_mem_size i) (set_addr (i_addr i) (set_inst_size (i_inst_size i)
    (set_regs (i_num_dest_regs i) (i_num_src_regs i) srcs dests
      (set_static (i_kind i) (i_num_dest_regs i) (i_num_src_regs i) (i_second_mem i) (t_eom u) u))))).

(** ** Dynamic information *)

Definition REP_MOV_MEM_SIZE_MAX_NEW : Z := Z.max 4 (KNOB_MEM_SIZE_AMP k * 4).
Definition is_stringop (o : CPU_OPCODE_ENUM) : bool := match o with XED_CATEGORY_STRINGOP => true | _ => false end.
Definition is_load (m : Mem_Type) : bool :=
  match m with MEM_LD | MEM_PF | MEM_SWPREF_NTA | MEM_SWPREF_T0 | MEM_SWPREF_T1 | MEM_SWPREF_T2 => true | _ => false end.
Definition amp_val (pi : trace_info_cpu_s) : Z := if is_stringop (p_opcode pi) then KNOB_MEM_SIZE_AMP k else 1.
Definition convert_dyn_uop (i : inst_info_s) (pi : trace_info_cpu_s) (rep_offset : Z) (u : trace_uop_s) : trace_uop_s :=
  let d := t_dyn u in
  let access va size := mk_dyn (u64 (u64 (va + rep_offset) * amp_val pi)) (Z.min (size * amp_val pi) REP_MOV_MEM_SIZE_MAX_NEW) (d_actual_taken d) (d_target d)
    (d_active_mask d) (d_taken_mask d) (d_reconverge_addr d) in
  let none := mk_dyn 0 (d_mem_size d) (d_actual_taken d) (d_target d) (d_active_mask d) (d_taken_mask d) (d_reconverge_addr d) in
  let d' :=
    if negb (bool_decide (k_cf (i_kind i) = NOT_CF))
    then mk_dyn 0 (d_mem_size d) (p_actually_taken pi) (p_branch_target pi) (u32 (p_ld_vaddr2 pi)) (u32 (p_ld_vaddr1 pi)) (p_st_vaddr pi)
    else if bool_decide (k_mem (i_kind i) = MEM_ST) then access (p_st_vaddr pi) (p_mem_write_size pi)
    else if is_load (k_mem (i_kind i)) then access (if i_second_mem i then p_ld_vaddr2 pi else p_ld_vaddr1 pi) (p_mem_read_size pi)
    else none in
  set_npc (t_addr u) (set_dyn d' u).

(** ** Splitting an instruction *)

Definition is_dataxfer (o : CPU_OPCODE_ENUM) : bool := match o with XED_CATEGORY_DATAXFER => true | _ => false end.
Definition load_type (o : CPU_OPCODE_ENUM) : Mem_Type :=
  match o with
  | XED_CATEGORY_PREFETCH => MEM_PF
  | PREFETCH_NTA => MEM_SWPREF_NTA | PREFETCH_T0 => MEM_SWPREF_T0 | PREFETCH_T1 => MEM_SWPREF_T1 | PREFETCH_T2 => MEM_SWPREF_T2
  | _ => MEM_LD
  end.
Definition mem_op (pi : trace_info_cpu_s) : Uop_Type := if p_is_fp pi then UOP_FMEM else UOP_IMEM.
Definition cf_of_pin (c : Z) : Cf_Type :=
  if PIN_CF_SYS <=? c then CF_ICO else
  match c with 1 => CF_BR | 2 => CF_CBR | 3 => CF_CALL | 4 => CF_IBR | 5 => CF_ICALL | 6 => CF_ICO | 7 => CF_RET | _ => NOT_CF end.

Definition has_loads (pi : trace_info_cpu_s) : bool := negb (p_num_ld pi =? 0).
Definition has_ld_uop (pi : trace_info_cpu_s) : bool := has_loads pi && bool_decide (load_type (p_opcode pi) = MEM_LD).
(** A data transfer writes its destination with the load. *)
Definition has_alu_uop (pi : trace_info_cpu_s) : bool :=
  negb (p_num_dest_regs pi =? 0) && negb (has_loads pi && is_dataxfer (p_opcode pi)).
Definition has_cf (pi : trace_info_cpu_s) : bool := negb (p_cf_type pi =? 0).
Definition needs_tmp (pi : trace_info_cpu_s) : bool := has_ld_uop pi && (has_alu_uop pi || p_has_st pi || has_cf pi).

Definition set_load (pi : trace_info_cpu_s) (second : bool) (u : trace_uop_s) : trace_uop_s :=
  set_mul (p_has_immediate pi) (set_inst_size (p_size pi) (set_alu false
    (set_static (mk_kind (mem_op pi) (load_type (p_opcode pi)) NOT_CF NOT_BAR)
       (if is_dataxfer (p_opcode pi) then p_num_dest_regs pi else 0) (p_num_read_regs pi) second false u))).
Definition set_alu_uop (pi : trace_info_cpu_s) (op : Uop_Type) (u : trace_uop_s) : trace_uop_s :=
  set_alu true (set_static (mk_kind op NOT_MEM NOT_CF NOT_BAR) (p_num_dest_regs pi) (p_num_read_regs pi) false false (set_opcode (p_opcode pi) u)).
Definition set_store (pi : trace_info_cpu_s) (u : trace_uop_s) : trace_uop_s :=
  set_mul (p_has_immediate pi) (set_inst_size (p_size pi) (set_alu false
    (set_static (mk_kind (mem_op pi) MEM_ST NOT_CF NOT_BAR) 0 (p_num_read_regs pi) false false (set_opcode (p_opcode pi) u)))).
(** The operation code is not assigned. *)
Definition set_branch (pi : trace_info_cpu_s) (u : trace_uop_s) : trace_uop_s :=
  set_inst_size (p_size pi) (set_alu false (set_static (mk_kind UOP_CF NOT_MEM (cf_of_pin (p_cf_type pi)) NOT_BAR) 0 (p_num_read_regs pi) false false u)).
Definition set_single (pi : trace_info_cpu_s) (o : CPU_OPCODE_ENUM) (op : Uop_Type) (eom : bool) (u : trace_uop_s) : trace_uop_s :=
  set_inst_size (p_size pi) (set_static (mk_kind op NOT_MEM NOT_CF NOT_BAR) 0 0 false eom (set_opcode o u)).

Definition add_loads (pi : trace_info_cpu_s) (a : uop_array) : outcome (uop_array * Z) :=
  if negb (has_loads pi) then mret (a, 0) else
  a1 ← upd_uop 0 (set_load pi false) a;
  if p_num_ld pi =? 2 then a2 ← upd_uop 1 (set_load pi true ∘ set_opcode (p_opcode pi)) a1; mret (a2, 2) else mret (a1, 1).
Definition alu_type (pi : trace_info_cpu_s) : outcome Uop_Type :=
  get_or Uninitialised ((if p_is_fp pi then m_fp_uop_table (lat_map k) else m_int_uop_table (lat_map k)) (p_opcode pi)).
Definition add_when (c : bool) (f : trace_uop_s -> trace_uop_s) (an : uop_array * Z) : outcome (uop_array * Z) :=
  if c then a ← upd_uop an.2 f an.1; mret (a, an.2 + 1) else mret an.
Definition is_fence (pi : trace_info_cpu_s) : bool := match p_opcode pi with XED_CATEGORY_MISC => p_ld_vaddr2 pi =? 1 | _ => false end.

(** The object behind the last one moves to the front. *)
Definition shift_uops (n : nat) (a : uop_array) : outcome uop_array :=
  u ← aget a (Z.of_nat n); mret (u :: take n a ++ drop (S n) a).
Definition add_fences (pi : trace_info_cpu_s) (an : uop_array * Z) : outcome (uop_array * Z) :=
  if negb (KNOB_ENABLE_HMC_FENCE k && bool_decide (p_instruction_addr pi ∈ m_hmc_fence_info k)) then mret an else
  '(a1, n) ← (if KNOB_ENABLE_HMC_DOUBLE_FENCE k
              then a ← shift_uops (Z.to_nat an.2) an.1; a' ← upd_uop 0 (set_single pi XED_CATEGORY_MISC UOP_FULL_FENCE false) a; mret (a', an.2 + 1)
              else mret an);
  a2 ← upd_uop (n - 1) (set_eom false) a1;
  add_when true (set_single pi XED_CATEGORY_MISC UOP_FULL_FENCE true) (a2, n).

Definition split_inst (pi : trace_info_cpu_s) (a : uop_array) : outcome (uop_array * Z) :=
  a0 ← upd_uop 0 (set_opcode (p_opcode pi) ∘ set_rep 0) a;
  an1 ← add_loads pi a0;
  an2 ← (if has_alu_uop pi then op ← alu_type pi; add_when true (set_alu_uop pi op) an1 else mret an1);
  an3 ← add_when (p_has_st pi) (set_store pi) an2;
  an4 ← add_when (has_cf pi) (set_branch pi) an3;
  an5 ← add_when ((an4.2 =? 0) && is_fence pi) (set_single pi (p_opcode pi) UOP_FULL_FENCE true) an4;
  an6 ← add_when (an5.2 =? 0) (set_single pi (p_opcode pi) UOP_NOP true) an5;
  add_fences pi an6.

(** ** Registers *)

Definition fill_srcs (pi : trace_info_cpu_s) (u : trace_uop_s) : outcome trace_uop_s :=
  let jj := t_num_src_regs u in
  s1 ← copy_regs (Z.to_nat jj) 0 0 (p_src pi) (t_srcs u);
  '(s2, n2) ← (if bool_decide (k_mem (t_kind u) = MEM_ST) || negb (bool_decide (k_cf (t_kind u) = NOT_CF))
               then if needs_tmp pi && negb (has_alu_uop pi) then s ← aset s1 jj TR_REG_TMP0; mret (s, jj + 1)
                    else if has_alu_uop pi then s ← copy_regs (Z.to_nat (p_num_dest_regs pi)) 0 jj (p_dst pi) s1; mret (s, jj + p_num_dest_regs pi)
                    else mret (s1, jj)
               else mret (s1, jj));
  '(s3, n3) ← (if t_alu_uop u && needs_tmp pi then s ← aset s2 jj TR_REG_TMP0; mret (s, n2 + 1) else mret (s2, n2));
  mret (set_regs (t_num_dest_regs u) n3 s3 (t_dests u) u).
Definition fill_dests (pi : trace_info_cpu_s) (u : trace_uop_s) : outcome trace_uop_s :=
  let jj := t_num_dest_regs u in
  d1 ← copy_regs (Z.to_nat jj) 0 0 (p_dst pi) (t_dests u);
  '(d2, n2) ← (if needs_tmp pi && bool_decide (k_mem (t_kind u) = MEM_LD) then d ← aset d1 jj TR_REG_TMP0; mret (d, jj + 1) else mret (d1, jj));
  mret (set_regs n2 (t_num_src_regs u) (t_srcs u) d2 u).
Definition is_serializing (o : CPU_OPCODE_ENUM) : bool :=
  match o with
  | XED_CATEGORY_SEMAPHORE | XED_CATEGORY_IO | XED_CATEGORY_INTERRUPT | XED_CATEGORY_SYSTEM | XED_CATEGORY_SYSCALL | XED_CATEGORY_SYSRET => true
  | _ => false
  end.
Definition mark_last (pi : trace_info_cpu_s) (last : bool) (u : trace_uop_s) : trace_uop_s :=
  if last && bool_decide (k_mem (t_kind u) = NOT_MEM) && is_serializing (p_opcode pi)
  then set_kind (mk_kind (k_op (t_kind u)) (k_mem (t_kind u)) CF_ICO BAR_FETCH) u else u.

(** ** A new instruction *)

Definition finish_uop (pi : trace_info_cpu_s) (key : Z) (i : inst_info_s) (last : bool) (u : trace_uop_s) : outcome (trace_uop_s * inst_info_s) :=
  u1 ← fill_srcs pi (set_addr (p_instruction_addr pi) u);
  u2 ← fill_dests pi u1;
  let u3 := mark_last pi last u2 in
  i' ← convert_t_uop_to_info u3 i;
  mret (convert_dyn_uop i' pi 0 (set_info key u3), i').
(** [n] micro-operations are left, from number [ii] on. *)
Fixpoint finish_loop (pi : trace_info_cpu_s) (n : nat) (ii : Z) (a : uop_array) (h : inst_table) : outcome (uop_array * inst_table) :=
  match n with
  | O => mret (a, h)
  | S n' =>
      let key := inst_key pi ii in
      '(i, h1) ← (if ii =? 0 then i ← get_or NullDeref (h !! key); mret (i, h)
                  else let '(i, new_entry, h1) := info_create key h in _ ← ASSERT new_entry; mret (set_marks false false i, h1));
      u ← aget a ii;
      '(u', i') ← finish_uop pi key i (Nat.eqb n' 0) u;
      a' ← aset a ii u';
      finish_loop pi n' (ii + 1) a' (<[key := i']> h1)
  end.
Definition decode_new (pi : trace_info_cpu_s) (a : uop_array) (h : inst_table) : outcome (uop_array * inst_table * Z) :=
  '(a1, n) ← split_inst pi a;
  i ← get_or NullDeref (h !! inst_key pi 0);
  '(a2, h2) ← finish_loop pi (Z.to_nat n) 0 a1 (<[inst_key pi 0 := set_num_uop n (set_marks true false i)]> h);
  a3 ← upd_uop (n - 1) (set_eom true) a2;
  _ ← ASSERT (0 <? n);
  mret (a3, h2, n).

(** ** An instruction the table has *)

Definition reuse_uop (pi : trace_info_cpu_s) (key : Z) (i : inst_info_s) (u : trace_uop_s) : outcome trace_uop_s :=
  u1 ← convert_info_uop i u;
  mret (set_opcode (p_opcode pi) (set_addr (p_instruction_addr pi) (set_eom false (set_info key (convert_dyn_uop i pi 0 u1))))).
Fixpoint reuse_loop (pi : trace_info_cpu_s) (n : nat) (ii : Z) (a : uop_array) (h : inst_table) : outcome (uop_array * inst_table) :=
  match n with
  | O => mret (a, h)
  | S n' =>
      let key := inst_key pi ii in
      let '(i, new_entry, h1) := info_create key h in
      _ ← ASSERT (negb new_entry);
      a' ← at_uop ii (reuse_uop pi key i) a;
      reuse_loop pi n' (ii + 1) a' h1
  end.
Definition decode_known (pi : trace_info_cpu_s) (i : inst_info_s) (a : uop_array) (h : inst_table) : outcome (uop_array * inst_table * Z) :=
  let n := i_num_uop i in
  '(a1, h1) ← reuse_loop pi (Z.to_nat n) 0 a h;
  a2 ← upd_uop (n - 1) (set_eom true) a1;
  _ ← ASSERT (0 <? n);
  mret (a2, h1, n).

(** ** Repeated string operations *)

Fixpoint repeat_uops (pi : trace_info_cpu_s) (n : nat) (ii rep_mem_size rep_offset dyn : Z) (a : uop_array) (h : inst_table) :
    outcome (uop_array * inst_table * Z) :=
  match n with
  | O => mret (a, h, dyn)
  | S n' =>
      let key := inst_key pi ii in
      let '(i, new_entry, h1) := info_create key h in
      let i1 := set_marks false false i in
      _ ← ASSERT (negb new_entry);
      a' ← upd_uop dyn (fun u => set_addr (p_instruction_addr pi) (set_eom false (set_info key
             (set_mem_size (Z.min rep_mem_size REP_MOV_MEM_SIZE_MAX_NEW) (convert_dyn_uop i1 pi rep_offset u))))) a;
      repeat_uops pi n' (ii + 1) rep_mem_size rep_offset (dyn + 1) a' (<[key := i1]> h1)
  end.
(** [n] bounds the rounds that are left. *)
Fixpoint repeat_loop (pi : trace_info_cpu_s) (n : nat) (num_uop rep_mem_size rep_counter dyn : Z) (a : uop_array) (h : inst_table) :
    outcome (uop_array * inst_table * Z) :=
  match n with
  | O => mret (a, h, dyn)
  | S n' =>
      if negb ((0 <? rep_mem_size) && (dyn <? MAX_PUP)) then mret (a, h, dyn) else
      let rep_offset := REP_MOV_MEM_SIZE_MAX_NEW * rep_counter * (if p_rep_dir pi then -1 else 1) in
      a1 ← upd_uop (dyn - 1) (set_npc (p_instruction_addr pi)) a;
      _ ← ASSERT (num_uop <? 8);
      '(a2, h2, dyn') ← repeat_uops pi (Z.to_nat num_uop) 0 rep_mem_size rep_offset dyn a1 h;
      repeat_loop pi n' num_uop (rep_mem_size - REP_MOV_MEM_SIZE_MAX_NEW) (rep_counter + 1) dyn' a2 h2
  end.
(** An operation of length zero becomes a no-operation, in the table as well. The
    address is filled in behind the last micro-operation. *)
Definition repeat_none (pi : trace_info_cpu_s) (n : Z) (a : uop_array) (h : inst_table) : outcome (uop_array * inst_table * Z) :=
  let key := inst_key pi 0 in
  let '(i, _, h1) := info_create key h in
  a1 ← upd_uop 0 (fun u => set_inst_size (p_size pi) (set_static (mk_kind UOP_NOP NOT_MEM NOT_CF NOT_BAR) 0 0 false true u)) a;
  u ← aget a1 0;
  i' ← convert_t_uop_to_info u i;
  a2 ← upd_uop 0 (set_info key) a1;
  a3 ← upd_uop n (convert_dyn_uop i' pi 0) a2;
  a4 ← upd_uop 0 (set_addr (p_instruction_addr pi) ∘ set_eom true) a3;
  mret (a4, <[key := i']> h1, 1).

(** [num_uop] and the number of micro-operations of this execution. *)
Definition repeat_inst (pi : trace_info_cpu_s) (n : Z) (a : uop_array) (h : inst_table) : outcome (uop_array * inst_table * Z * Z) :=
  if negb (is_stringop (p_opcode pi)) then mret (a, h, n, n) else
  '(a1, h1, n1, dyn) ←
    (if p_mem_read_size pi =? 0 then '(a', h', n') ← repeat_none pi n a h; mret (a', h', n', n')
     else let '(_, _, h0) := info_create (inst_key pi 0) h in
          let rest := p_mem_read_size pi - REP_MOV_MEM_SIZE_MAX_NEW in
          '(a', h', dyn) ← repeat_loop pi (Z.to_nat rest) n rest 1 n a h0; mret (a', h', n, dyn));
  a2 ← upd_uop 0 (set_rep dyn) a1;
  mret (a2, h1, n1, dyn).

Definition decode_inst (pi : trace_info_cpu_s) (a : uop_array) (h : inst_table) : outcome (uop_array * inst_table * Z) :=
  let '(i, new_entry, h0) := info_create (inst_key pi 0) h in
  if new_entry : bool then decode_new pi a h0 else decode_known pi i a h0.
Definition convert_pinuop_to_t_uop (pi : trace_info_cpu_s) (a : uop_array) (h : inst_table) : outcome (uop_array * inst_table * Z) :=
  '(a1, h1, n) ← decode_inst pi a h;
  '(a2, h2, n2, dyn) ← repeat_inst pi n a1 h1;
  _ ← ASSERT (negb (dyn =? 0));
  a3 ← upd_uop (dyn - 1) (set_npc (p_instruction_next_addr pi) ∘ set_eom true) a2;
  _ ← ASSERT (0 <? n2);
  i' ← get_or NullDeref (h2 !! inst_key pi 0);
  mret (a3, <[inst_key pi 0 := set_num_uop n2 i']> h2, dyn).
End DECODER.

(** ** Reference *)

(** A micro-operation as the pipeline sees it. *)
Record uview := mk_uview { v_kind : kind_s; v_second : bool; v_srcs : list Z; v_dests : list Z }.
Definition view (u : trace_uop_s) : uview :=
  mk_uview (t_kind u) (t_pin_2nd_mem u) (take (Z.to_nat (t_num_src_regs u)) (t_srcs u)) (take (Z.to_nat (t_num_dest_regs u)) (t_dests u)).

Section REFERENCE.
Context (pi : trace_info_cpu_s).
Definition inst_reads : list Z := take (Z.to_nat (p_num_read_regs pi)) (p_src pi).
Definition inst_writes : list Z := take (Z.to_nat (p_num_dest_regs pi)) (p_dst pi).
Definition tmp (b : bool) : list Z := if b then [TR_REG_TMP0] else [].
(** What a store or a branch waits for: the operation, or the load when there is none. *)
Definition result_of_inst : list Z := if has_alu_uop pi then inst_writes else tmp (needs_tmp pi).

Definition ref_load (second : bool) : uview :=
  mk_uview (mk_kind (mem_op pi) (load_type (p_opcode pi)) NOT_CF NOT_BAR) second inst_reads
    ((if is_dataxfer (p_opcode pi) then inst_writes else []) ++ tmp (needs_tmp pi)).
Definition ref_alu (op : Uop_Type) : uview := mk_uview (mk_kind op NOT_MEM NOT_CF NOT_BAR) false (inst_reads ++ tmp (needs_tmp pi)) inst_writes.
Definition ref_store : uview := mk_uview (mk_kind (mem_op pi) MEM_ST NOT_CF NOT_BAR) false (inst_reads ++ result_of_inst) [].
Definition ref_branch : uview :=
  mk_uview (mk_kind UOP_CF NOT_MEM (cf_of_pin (p_cf_type pi)) NOT_BAR) false (inst_reads ++ result_of_inst) [].
Definition ref_single : uview := mk_uview (mk_kind (if is_fence pi then UOP_FULL_FENCE else UOP_NOP) NOT_MEM NOT_CF NOT_BAR) false [] [].
Definition ref_parts (op : Uop_Type) : list uview :=
  (if has_loads pi then ref_load false :: (if p_num_ld pi =? 2 then [ref_load true] else []) else []) ++
  (if has_alu_uop pi then [ref_alu op] else []) ++ (if p_has_st pi then [ref_store] else []) ++ (if has_cf pi then [ref_branch] else []).
(** The last micro-operation of a serializing instruction stops fetching, unless it
    accesses memory. *)
Definition ref_mark (last : bool) (v : uview) : uview :=
  if last && bool_decide (k_mem (v_kind v) = NOT_MEM) && is_serializing (p_opcode pi)
  then mk_uview (mk_kind (k_op (v_kind v)) (k_mem (v_kind v)) CF_ICO BAR_FETCH) (v_second v) (v_srcs v) (v_dests v) else v.
Definition ref_all (op : Uop_Type) : list uview := match ref_parts op with [] => [ref_single] | l => l end.
Definition reference (op : Uop_Type) : list uview :=
  imap (fun i v => ref_mark (Nat.eqb (S i) (length (ref_all op))) v) (ref_all op).

(** The address a micro-operation accesses. *)
Definition ref_va (v : uview) : Z :=
  if bool_decide (k_cf (v_kind v) <> NOT_CF) then 0
  else if bool_decide (k_mem (v_kind v) = MEM_ST) then p_st_vaddr pi
  else if is_load (k_mem (v_kind v)) then if v_second v then p_ld_vaddr2 pi else p_ld_vaddr1 pi else 0.

(** Whether it accesses memory, and how many bytes it asks for. *)
Definition accesses (v : uview) : bool := bool_decide (k_cf (v_kind v) = NOT_CF) && (bool_decide (k_mem (v_kind v) = MEM_ST) || is_load (k_mem (v_kind v))).
Definition access_size (v : uview) : Z := if bool_decide (k_mem (v_kind v) = MEM_ST) then p_mem_write_size pi else p_mem_read_size pi.

(** The register counts of the record are within its arrays and leave room for what
    decoding adds. *)
Record inst_ok : Prop := {
  ik_reads : 0 <= p_num_read_regs pi;
  ik_writes : 0 <= p_num_dest_regs pi < MAX_DESTS;
  ik_room : p_num_read_regs pi + Z.max 1 (p_num_dest_regs pi) <= MAX_SRCS;
  ik_src : length (p_src pi) = Z.to_nat MAX_SRCS;
  ik_dst : length (p_dst pi) = Z.to_nat MAX_DESTS;
  ik_cf : 0 <= p_cf_type pi;
  ik_addrs : is_u64 (p_ld_vaddr1 pi) /\ is_u64 (p_ld_vaddr2 pi) /\ is_u64 (p_st_vaddr pi);
  ik_regs : Forall (fun r => 0 <= r < 256) (p_src pi ++ p_dst pi)
}.
End REFERENCE.

Definition tuop_ok (u : trace_uop_s) : Prop := length (t_srcs u) = Z.to_nat MAX_SRCS /\ length (t_dests u) = Z.to_nat MAX_DESTS.
Definition info_ok (i : inst_info_s) : Prop := length (i_srcs i) = Z.to_nat MAX_SRCS /\ length (i_dests i) = Z.to_nat MAX_DESTS.
Definition array_ok (a : uop_array) : Prop := length a = Z.to_nat MAX_PUP /\ Forall tuop_ok a.
