(* ===== verification/TraceDecode.v ===== *)
(** * Properties of the x86 trace decoder

    Decoding a trace is compared with a reference: the micro-operations an
    instruction stands for, with their registers, in order. The proofs follow the
    decoder: the objects of the array are changed one by one, get their registers
    and go into the table; an instruction that is met again is taken from there. A
    last part describes the rounds of a repeated string operation. *)

From S2P Require Import Prelude.
From S2P Require Import Rob.
From S2P Require Import Uops.
From S2P Require Import Map.
From S2P Require Import CpuOpcodes.
From S2P Require Import TraceCpu.

(** ** Copies *)

Lemma copy_regs_ok n : forall i off from to, 0 <= i -> 0 <= off -> i + Z.of_nat n <= Z.of_nat (length from) ->
  off + i + Z.of_nat n <= Z.of_nat (length to) ->
  copy_regs n i off from to =
    Done (take (Z.to_nat (off + i)) to ++ take n (drop (Z.to_nat i) from) ++ drop (Z.to_nat (off + i) + n) to).
Proof.
  induction n as [| n IH]; intros i off from to Hi Ho Hf Ht; cbn [copy_regs].
  { f_equal. by rewrite take_0, Nat.add_0_r, app_nil_l, take_drop. }
  destruct (aget_in_range from i) as (r & Hr & ->); [lia |]. cbn [mbind outcome_bind]. rewrite aset_in_range by lia. cbn [mbind outcome_bind].
  rewrite IH by (rewrite ?length_insert; lia). f_equal. replace (Z.to_nat (off + (i + 1))) with (S (Z.to_nat (off + i))) by lia.
  replace (Z.to_nat (i + 1)) with (S (Z.to_nat i)) by lia. rewrite (drop_S from r (Z.to_nat i)) by done. cbn [take].
  rewrite (take_S_r _ _ r) by (apply list_lookup_insert_eq; lia). rewrite take_insert_ge, drop_insert_lt by lia. rewrite <- app_assoc. simpl.
  repeat f_equal. lia.
Qed.
Lemma copy_prefix n from to : 0 <= n -> n <= Z.of_nat (length from) -> n <= Z.of_nat (length to) ->
  copy_regs (Z.to_nat n) 0 0 from to = Done (take (Z.to_nat n) from ++ drop (Z.to_nat n) to).
Proof. intros Hn Hf Ht. rewrite copy_regs_ok by lia. by rewrite drop_0. Qed.
Lemma aset_end (l : list Z) (t : list Z) n x : n = Z.of_nat (length l) -> (0 < length t)%nat ->
  aset (l ++ t) n x = Done ((l ++ [x]) ++ drop 1 t).
Proof.
  intros -> Ht. rewrite aset_in_range by (rewrite length_app; lia). rewrite Nat2Z.id, insert_app_r_alt, Nat.sub_diag by lia.
  destruct t; simpl in *; [lia |]. rewrite <- app_assoc. by rewrite drop_0.
Qed.

(** ** Filling the array *)

(** The first objects of the array, changed one by one. *)
Definition fill (fs : list (trace_uop_s -> trace_uop_s)) (a : uop_array) : uop_array :=
  zip_with (fun f u => f u) fs (take (length fs) a) ++ drop (length fs) a.

Lemma fill_nil a : fill [] a = a.
Proof. done. Qed.
Lemma length_fill fs a : (length fs <= length a)%nat -> length (fill fs a) = length a.
Proof. intros H. unfold fill. rewrite length_app, length_zip_with, length_take, length_drop. lia. Qed.
Lemma fill_lookup fs a i f u : fs !! i = Some f -> a !! i = Some u -> fill fs a !! i = Some (f u).
Proof.
  intros Hf Hu. pose proof (lookup_lt_Some _ _ _ Hf). pose proof (lookup_lt_Some _ _ _ Hu). unfold fill.
  rewrite lookup_app_l by (rewrite length_zip_with, length_take; lia). rewrite lookup_zip_with, Hf. simpl. by rewrite lookup_take_lt, Hu by lia.
Qed.
Lemma fill_lookup_ge fs a i : (length fs <= i)%nat -> (length fs <= length a)%nat -> fill fs a !! i = a !! i.
Proof.
  intros Hi Ha. unfold fill. rewrite lookup_app_r by (rewrite length_zip_with, length_take; lia).
  rewrite lookup_drop, length_zip_with, length_take. f_equal. lia.
Qed.
Lemma upd_fill fs a f : (length fs < length a)%nat -> upd_uop (Z.of_nat (length fs)) f (fill fs a) = Done (fill (fs ++ [f]) a).
Proof.
  intros Hl. destruct (lookup_lt_is_Some_2 a (length fs) Hl) as [u Hu]. unfold upd_uop, at_uop.
  rewrite (aget_lookup _ _ u) by (by rewrite fill_lookup_ge by lia). cbn [mbind outcome_bind mret outcome_ret].
  rewrite aset_in_range by (rewrite length_fill; lia). rewrite Nat2Z.id. f_equal. unfold fill. rewrite length_app. simpl.
  rewrite Nat.add_1_r, (take_S_r _ _ u), zip_with_app by (done || (rewrite length_take; lia)). simpl.
  rewrite insert_app_r_alt by (rewrite length_zip_with, length_take; lia). rewrite length_zip_with, length_take.
  replace (length fs - (length fs `min` (length fs `min` length a)))%nat with 0%nat by lia. rewrite (drop_S a u) by done. simpl. by rewrite <- app_assoc.
Qed.
Lemma add_when_fill c f fs a : (length fs < length a)%nat ->
  add_when c f (fill fs a, Z.of_nat (length fs)) = Done (fill (fs ++ (if c then [f] else [])) a, Z.of_nat (length (fs ++ (if c then [f] else [])))).
Proof.
  intros Hl. unfold add_when. destruct c; [| by rewrite app_nil_r]. simpl. rewrite upd_fill by done. cbn [mbind outcome_bind].
  rewrite length_app. simpl. do 2 f_equal. lia.
Qed.

Section SPLIT.
Context (k : decoder_knobs) (pi : trace_info_cpu_s).

Definition load_setters : list (trace_uop_s -> trace_uop_s) :=
  if has_loads pi then set_load pi false :: (if p_num_ld pi =? 2 then [set_load pi true ∘ set_opcode (p_opcode pi)] else []) else [].
Definition part_setters (op : Uop_Type) : list (trace_uop_s -> trace_uop_s) :=
  ((load_setters ++ (if has_alu_uop pi then [set_alu_uop pi op] else [])) ++ (if p_has_st pi then [set_store pi] else [])) ++
  (if has_cf pi then [set_branch pi] else []).
Definition setters (op : Uop_Type) : list (trace_uop_s -> trace_uop_s) :=
  match part_setters op with
  | [] => [set_single pi (p_opcode pi) (if is_fence pi then UOP_FULL_FENCE else UOP_NOP) true]
  | l => l
  end.
Definition first_touch : trace_uop_s -> trace_uop_s := set_opcode (p_opcode pi) ∘ set_rep 0.
(** The array after the first object got its operation code. *)
Definition touched (a : uop_array) : uop_array := alter first_touch 0%nat a.

Lemma part_setters_length op : (length (part_setters op) <= 5)%nat.
Proof. unfold part_setters, load_setters. rewrite !length_app. repeat case_match; simpl; lia. Qed.
Lemma setters_length op : (1 <= length (setters op) <= 5)%nat.
Proof. pose proof (part_setters_length op). unfold setters. destruct (part_setters op) eqn:E; simpl in *; lia. Qed.

Lemma add_loads_fill a : (2 < length a)%nat -> add_loads pi a = Done (fill load_setters a, Z.of_nat (length load_setters)).
Proof.
  intros Hl. unfold add_loads, load_setters. destruct (has_loads pi); cbn [negb]; [| done].
  pose proof (upd_fill [] a (set_load pi false)) as E. change (Z.of_nat (length [])) with 0 in E. rewrite fill_nil in E. rewrite E by (simpl; lia). cbn [mbind outcome_bind].
  destruct (p_num_ld pi =? 2); [| done].
  pose proof (upd_fill [set_load pi false] a (set_load pi true ∘ set_opcode (p_opcode pi))) as E2.
  change (Z.of_nat (length [set_load pi false])) with 1 in E2. simpl app in E2 |- *. rewrite E2 by (simpl; lia). done.
Qed.
Lemma split_inst_fill op a : (8 < length a)%nat -> (has_alu_uop pi = true -> alu_type k pi = Done op) ->
  KNOB_ENABLE_HMC_FENCE k = false ->
  split_inst k pi a = Done (fill (setters op) (touched a), Z.of_nat (length (setters op))).
Proof.
  intros Hl Hop Hf. unfold split_inst. destruct (lookup_lt_is_Some_2 a 0) as [u Hu]; [lia |].
  assert (E : upd_uop 0 (set_opcode (p_opcode pi) ∘ set_rep 0) a = Done (touched a)).
  { unfold upd_uop, at_uop, touched. rewrite (aget_at a 0 u) by done. cbn [mbind outcome_bind mret outcome_ret]. rewrite aset_in_range by lia.
    f_equal. by destruct a as [| u0 a]; [| injection Hu as ->]. }
  rewrite E. cbn [mbind outcome_bind]. assert (Ht : length (touched a) = length a) by apply length_alter.
  rewrite add_loads_fill by lia. cbn [mbind outcome_bind]. assert (H2 : (length load_setters <= 2)%nat) by (unfold load_setters; repeat case_match; simpl; lia).
  assert (E2 : (if has_alu_uop pi then op ← alu_type k pi; add_when true (set_alu_uop pi op) (fill load_setters (touched a), Z.of_nat (length load_setters))
                else mret (fill load_setters (touched a), Z.of_nat (length load_setters))) =
    Done (fill (load_setters ++ (if has_alu_uop pi then [set_alu_uop pi op] else [])) (touched a),
          Z.of_nat (length (load_setters ++ (if has_alu_uop pi then [set_alu_uop pi op] else []))))).
  { destruct (has_alu_uop pi); [| by rewrite app_nil_r]. rewrite Hop by done. cbn [mbind outcome_bind]. by rewrite add_when_fill by lia. }
  rewrite E2. cbn [mbind outcome_bind]. set (l2 := load_setters ++ _). assert (H3 : (length l2 <= 3)%nat) by (unfold l2; rewrite length_app; destruct (has_alu_uop pi); simpl length; lia).
  rewrite add_when_fill by lia. cbn [mbind outcome_bind]. set (l3 := l2 ++ _). assert (H4 : (length l3 <= 4)%nat) by (unfold l3; rewrite length_app; destruct (p_has_st pi); simpl length; lia).
  rewrite add_when_fill by lia. cbn [mbind outcome_bind]. change (l3 ++ (if has_cf pi then [set_branch pi] else [])) with (part_setters op).
  unfold setters. pose proof (part_setters_length op). destruct (part_setters op) as [| f fs] eqn:Ep.
  - cbn [length snd]. rewrite add_when_fill by (simpl; lia). cbn [mbind outcome_bind]. destruct (is_fence pi); simpl.
    + unfold add_fences. by rewrite Hf.
    + pose proof (upd_fill [] (touched a) (set_single pi (p_opcode pi) UOP_NOP true)) as E3. simpl in E3. rewrite E3 by lia.
      cbn [mbind outcome_bind mret outcome_ret]. unfold add_fences. by rewrite Hf.
  - rewrite (proj2 (Z.eqb_neq _ 0)) by (simpl; lia). cbn [andb]. rewrite add_when_fill by lia. cbn [mbind outcome_bind]. rewrite app_nil_r.
    rewrite (proj2 (Z.eqb_neq _ 0)) by (simpl; lia). rewrite add_when_fill by lia. cbn [mbind outcome_bind]. unfold add_fences. rewrite Hf. by rewrite app_nil_r.
Qed.
End SPLIT.

(** ** Registers *)

(** What a micro-operation accesses. *)
Definition sized (k : decoder_knobs) (pi : trace_info_cpu_s) (v : uview) (u : trace_uop_s) : Prop :=
  accesses v = true -> d_mem_size (t_dyn u) = Z.min (access_size pi v) (REP_MOV_MEM_SIZE_MAX_NEW k).
Definition dynamics (k : decoder_knobs) (pi : trace_info_cpu_s) (v : uview) (u : trace_uop_s) : Prop := d_va (t_dyn u) = ref_va pi v /\ sized k pi v u.

Section REGS.
Context (k : decoder_knobs) (pi : trace_info_cpu_s) (Hpi : inst_ok pi).

Definition consumes (u : trace_uop_s) : bool := bool_decide (k_mem (t_kind u) = MEM_ST) || negb (bool_decide (k_cf (t_kind u) = NOT_CF)).
Definition src_list (u : trace_uop_s) : list Z :=
  take (Z.to_nat (t_num_src_regs u)) (p_src pi) ++ (if consumes u then result_of_inst pi else []) ++ tmp (t_alu_uop u && needs_tmp pi).
Definition dest_list (u : trace_uop_s) : list Z :=
  take (Z.to_nat (t_num_dest_regs u)) (p_dst pi) ++ tmp (needs_tmp pi && bool_decide (k_mem (t_kind u) = MEM_LD)).
(** A micro-operation as splitting leaves it. *)
Record split_ok (u : trace_uop_s) : Prop := {
  so_arrays : tuop_ok u;
  so_srcs : 0 <= t_num_src_regs u <= p_num_read_regs pi;
  so_dests : 0 <= t_num_dest_regs u <= p_num_dest_regs pi;
  so_alu : t_alu_uop u && needs_tmp pi = true -> consumes u = false
}.

Lemma length_writes : length (inst_writes pi) = Z.to_nat (p_num_dest_regs pi).
Proof. destruct Hpi as [_ H _ _ E]. unfold inst_writes. rewrite length_take, E. unfold MAX_DESTS in *. lia. Qed.
Lemma copy_extra (l t : list Z) : (length (inst_writes pi) <= length t)%nat ->
  copy_regs (Z.to_nat (p_num_dest_regs pi)) 0 (Z.of_nat (length l)) (p_dst pi) (l ++ t) =
    Done ((l ++ inst_writes pi) ++ drop (length (inst_writes pi)) t).
Proof.
  intros Ht. pose proof length_writes as Hw. destruct Hpi as [_ H _ _ E]. rewrite copy_regs_ok by (rewrite ?length_app, ?E; unfold MAX_DESTS in *; lia).
  rewrite Z.add_0_r, Nat2Z.id, take_app_length, drop_0, <- app_assoc, drop_app_add, Hw. done.
Qed.

Lemma fill_srcs_ok u : split_ok u ->
  exists t, fill_srcs pi u = Done (set_regs (t_num_dest_regs u) (Z.of_nat (length (src_list u))) (src_list u ++ t) (t_dests u) u) /\
    length (src_list u ++ t) = Z.to_nat MAX_SRCS.
Proof.
  intros [[Hs Hd] Hns Hnd Ha]. pose proof length_writes as Hw. destruct Hpi as [H1 H2 H3 H4 H5 _ _ _]. unfold fill_srcs, src_list.
  rewrite copy_prefix by (rewrite ?H4, ?Hs; unfold MAX_SRCS in *; lia). cbn [mbind outcome_bind]. set (l := take _ (p_src pi)). set (t := drop _ (t_srcs u)).
  assert (Hl : t_num_src_regs u = Z.of_nat (length l)) by (unfold l; rewrite length_take, H4; unfold MAX_SRCS in *; lia).
  assert (Ht : (length t = Z.to_nat MAX_SRCS - length l)%nat) by (unfold t; rewrite length_drop, Hs; lia).
  unfold MAX_SRCS, MAX_DESTS in *. fold (consumes u). unfold result_of_inst. destruct (consumes u) eqn:Ec.
  - destruct (t_alu_uop u && needs_tmp pi) eqn:Eal; [by specialize (Ha eq_refl) |]. rewrite app_nil_r.
    destruct (has_alu_uop pi) eqn:Eh; [rewrite andb_false_r | rewrite andb_true_r; destruct (needs_tmp pi)]; cbn [tmp].
    + rewrite Hl, copy_extra by lia. cbn [mbind outcome_bind mret outcome_ret]. exists (drop (length (inst_writes pi)) t). rewrite !length_app, length_drop, Hw. split; [| lia].
      do 2 f_equal. lia.
    + rewrite Hl, aset_end by (done || lia). cbn [mbind outcome_bind mret outcome_ret]. exists (drop 1 t). rewrite !length_app, length_drop. simpl length. split; [| lia].
      do 2 f_equal. lia.
    + cbn [mbind outcome_bind mret outcome_ret]. exists t. rewrite Hl, app_nil_r. split; [done |]. rewrite length_app. lia.
  - cbn [mbind outcome_bind mret outcome_ret app]. destruct (t_alu_uop u && needs_tmp pi); cbn [tmp].
    + rewrite Hl, aset_end by (done || lia). cbn [mbind outcome_bind mret outcome_ret]. exists (drop 1 t). rewrite !length_app, length_drop. simpl length. split; [| lia].
      do 2 f_equal. lia.
    + cbn [mbind outcome_bind mret outcome_ret]. exists t. rewrite Hl, app_nil_r. split; [done |]. rewrite length_app. lia.
Qed.
Lemma fill_dests_ok u : length (t_dests u) = Z.to_nat MAX_DESTS -> 0 <= t_num_dest_regs u <= p_num_dest_regs pi ->
  exists t, fill_dests pi u = Done (set_regs (Z.of_nat (length (dest_list u))) (t_num_src_regs u) (t_srcs u) (dest_list u ++ t) u) /\
    length (dest_list u ++ t) = Z.to_nat MAX_DESTS.
Proof.
  intros Hd Hnd. destruct Hpi as [_ H2 _ _ H5 _ _ _]. unfold fill_dests, dest_list. rewrite copy_prefix by (rewrite ?H5, ?Hd; unfold MAX_DESTS in *; lia).
  cbn [mbind outcome_bind]. set (l := take _ (p_dst pi)). set (t := drop _ (t_dests u)).
  assert (Hl : t_num_dest_regs u = Z.of_nat (length l)) by (unfold l; rewrite length_take, H5; unfold MAX_DESTS in *; lia).
  assert (Ht : (length t = Z.to_nat MAX_DESTS - length l)%nat) by (unfold t; rewrite length_drop, Hd; lia). unfold MAX_DESTS in *.
  destruct (_ && _); cbn [tmp].
  - rewrite Hl, aset_end by (done || lia). cbn [mbind outcome_bind mret outcome_ret]. exists (drop 1 t). rewrite !length_app, length_drop. simpl length. split; [| lia].
    do 2 f_equal. lia.
  - cbn [mbind outcome_bind mret outcome_ret]. exists t. rewrite Hl, app_nil_r. split; [done |]. rewrite length_app. lia.
Qed.

(** What the table keeps of a micro-operation: one destination at most. *)
Record cached (v : uview) (i : inst_info_s) : Prop := {
  ca_kind : i_kind i = v_kind v;
  ca_second : i_second_mem i = v_second v;
  ca_srcs : 0 <= i_num_src_regs i <= MAX_SRCS /\ take (Z.to_nat (i_num_src_regs i)) (i_srcs i) = v_srcs v;
  ca_dests : 0 <= i_num_dest_regs i <= 1 /\ take (Z.to_nat (i_num_dest_regs i)) (i_dests i) = take 1 (v_dests v);
  ca_ok : info_ok i
}.

Lemma convert_to_info_ok u i : tuop_ok u -> info_ok i -> 0 <= t_num_src_regs u <= MAX_SRCS -> 0 <= t_num_dest_regs u <= MAX_DESTS ->
  exists i', convert_t_uop_to_info u i = Done i' /\ cached (view u) i' /\ i_num_uop i' = i_num_uop i /\ i_addr i' = t_addr u.
Proof.
  intros [Hs Hd] [Is Id] Hns Hnd. unfold convert_t_uop_to_info. rewrite (proj2 (Z.leb_le _ _) (proj2 Hnd)), (proj2 (Z.leb_le _ _) (proj2 Hns)).
  cbn [mbind outcome_bind ASSERT]. unfold MAX_SRCS, MAX_DESTS in *. rewrite copy_prefix by lia. cbn [mbind outcome_bind].
  set (b := 0 <? t_num_dest_regs u). set (nd := if b then 1%nat else 0%nat). pose proof (copy_prefix (Z.of_nat nd) (t_dests u) (i_dests i)) as E.
  rewrite Nat2Z.id in E. rewrite E by (unfold nd; destruct b; lia). cbn [mbind outcome_bind]. eexists. split; [done |]. split; [| done].
  assert (Hb : b = true /\ 0 < t_num_dest_regs u \/ b = false /\ t_num_dest_regs u = 0) by (unfold b; destruct (Z.ltb_spec 0 (t_num_dest_regs u)); lia).
  split; [done | done | | |].
  - simpl. split; [unfold MAX_SRCS; lia |]. rewrite take_app_length'; [done | rewrite length_take; lia].
  - simpl. unfold nd. destruct Hb as [[-> Hb] | [-> ->]]; [| done]. split; [lia |]. rewrite take_app_length'; [| rewrite length_take; lia].
    rewrite take_take. f_equal. lia.
  - split; simpl; rewrite length_app, length_take, length_drop; unfold MAX_SRCS, MAX_DESTS, nd; [lia | destruct b; lia].
Qed.

Lemma src_list_length u : split_ok u -> Z.of_nat (length (src_list u)) <= MAX_SRCS.
Proof. intros H. destruct (fill_srcs_ok u H) as (t & _ & E). rewrite length_app in E. unfold MAX_SRCS in *. lia. Qed.

(** The record's part of a micro-operation is the reference's. *)
Definition ref_of (u : trace_uop_s) : uview := mk_uview (t_kind u) (t_pin_2nd_mem u) (src_list u) (dest_list u).

Lemma convert_dyn_view i off u : view (convert_dyn_uop k i pi off u) = view u.
Proof. done. Qed.
Lemma convert_dyn_va i u : amp_val k pi = 1 -> i_kind i = t_kind u -> i_second_mem i = t_pin_2nd_mem u ->
  d_va (t_dyn (convert_dyn_uop k i pi 0 u)) = ref_va pi (view u).
Proof.
  intros Ho Ek Es. destruct Hpi as [_ _ _ _ _ _ (A1 & A2 & A3) _]. unfold convert_dyn_uop, ref_va. cbn [t_dyn set_npc set_dyn view v_kind v_second]. rewrite Ho, Ek, Es.
  rewrite bool_decide_not. destruct (bool_decide (k_cf (t_kind u) = NOT_CF)); cbn [negb]; [| done].
  destruct (bool_decide _); [cbn [d_va]; rewrite Z.add_0_r, Z.mul_1_r, (u64_small (u64 _)) by apply u64_range; rewrite u64_small; done |].
  destruct (is_load _); [| done]. cbn [d_va]. rewrite Z.add_0_r, Z.mul_1_r, (u64_small (u64 _)) by apply u64_range; rewrite u64_small by (by destruct (t_pin_2nd_mem u)). done.
Qed.

Lemma convert_dyn_sized i off u v : amp_val k pi = 1 -> i_kind i = v_kind v -> sized k pi v (convert_dyn_uop k i pi off u).
Proof.
  intros Hamp Ek. unfold sized, accesses, access_size, convert_dyn_uop. cbn [t_dyn set_npc set_dyn]. rewrite Hamp, Ek. intros H. apply andb_true_iff in H as [H1 H2].
  rewrite H1. cbn [negb]. destruct (bool_decide (k_mem (v_kind v) = MEM_ST)); [cbn [d_mem_size]; by rewrite Z.mul_1_r |]. simpl in H2. rewrite H2. cbn [d_mem_size]. by rewrite Z.mul_1_r.
Qed.
Lemma convert_dyn_dynamics i u : amp_val k pi = 1 -> i_kind i = t_kind u -> i_second_mem i = t_pin_2nd_mem u ->
  dynamics k pi (view u) (convert_dyn_uop k i pi 0 u).
Proof. intros Ho Ek Es. split; [by apply convert_dyn_va | exact (convert_dyn_sized i 0 u (view u) Ho Ek)]. Qed.

Lemma finish_uop_ok key i last u : split_ok u -> info_ok i -> amp_val k pi = 1 ->
  exists u' i', finish_uop k pi key i last u = Done (u', i') /\ tuop_ok u' /\ view u' = ref_mark pi last (ref_of u) /\
    t_addr u' = p_instruction_addr pi /\ t_info u' = Some key /\ t_eom u' = t_eom u /\ t_npc u' = p_instruction_addr pi /\ dynamics k pi (view u') u' /\
    cached (view u') i' /\ i_num_uop i' = i_num_uop i /\ i_addr i' = p_instruction_addr pi.
Proof.
  intros Hu Hi Ho. set (u0 := set_addr (p_instruction_addr pi) u). assert (Hu0 : split_ok u0) by (by destruct Hu; split).
  unfold finish_uop. fold u0. destruct (fill_srcs_ok u0 Hu0) as (t1 & -> & L1). cbn [mbind outcome_bind]. set (u1 := set_regs _ _ _ _ u0).
  destruct (fill_dests_ok u1) as (t2 & -> & L2); [apply Hu0 | apply Hu0 |]. cbn [mbind outcome_bind]. set (u2 := set_regs _ _ _ _ u1).
  assert (Hv2 : view u2 = ref_of u).
  { unfold view, u2, u1. simpl. rewrite !Nat2Z.id, !take_app_length. done. }
  assert (Hv3 : view (mark_last pi last u2) = ref_mark pi last (ref_of u)).
  { rewrite <- Hv2. unfold mark_last, ref_mark. change (v_kind (view u2)) with (t_kind u2). destruct (_ && _); done. }
  assert (Hn3 : tuop_ok (mark_last pi last u2) /\ t_num_src_regs (mark_last pi last u2) = Z.of_nat (length (src_list u0)) /\
    t_num_dest_regs (mark_last pi last u2) = Z.of_nat (length (dest_list u1)) /\ t_addr (mark_last pi last u2) = p_instruction_addr pi /\
    t_eom (mark_last pi last u2) = t_eom u).
  { unfold mark_last. destruct (_ && _ && _); (split; [split; [exact L1 | exact L2] |]); by split_and!. }
  set (u3 := mark_last pi last u2) in *. destruct Hn3 as (Hok & Es & Ed & Ea & Ee). pose proof (src_list_length u0 Hu0) as Hls.
  assert (Hld : Z.of_nat (length (dest_list u1)) <= MAX_DESTS) by (rewrite length_app in L2; unfold MAX_DESTS in *; lia).
  destruct (convert_to_info_ok u3 i Hok Hi) as (i' & -> & Hc & En & Eai); [rewrite Es; lia | rewrite Ed; lia |]. cbn [mbind outcome_bind].
  eexists _, i'. split; [done |]. split_and!; try done.
  - apply (convert_dyn_dynamics i' (set_info key u3)); [done | apply Hc | apply Hc].
  - by rewrite Eai.
Qed.
End REGS.

(** ** Keys *)

Lemma inst_key_inj pi i j : 0 <= i < 8 -> 0 <= j < 8 -> inst_key pi i = inst_key pi j -> i = j.
Proof.
  intros Hi Hj. unfold inst_key, shl64, u64. rewrite Z.shiftl_mul_pow2 by lia. intros E.
  assert (D : forall x, 0 <= x < 8 -> (((p_instruction_addr pi * 2 ^ 3) mod 2 ^ 64 + x) mod 2 ^ 64) mod 8 = x).
  { intros x Hx. rewrite Z.mod_mod_divide by (exists (2 ^ 61); lia). rewrite Z.add_mod by lia. rewrite Z.mod_mod_divide by (exists (2 ^ 61); lia).
    change (2 ^ 3) with 8. rewrite Z.mod_mul, Z.add_0_l, Z.mod_mod by lia. apply Z.mod_small. lia. }
  rewrite <- (D i Hi), <- (D j Hj), E. done.
Qed.

(** ** A new instruction *)

(** The first micro-operations of the array are [vs], for the execution [pi]. *)
Definition decoded (k : decoder_knobs) (pi : trace_info_cpu_s) (vs : list uview) (a : uop_array) : Prop :=
  forall j v, vs !! j = Some v -> exists u, a !! j = Some u /\ view u = v /\ t_eom u = Nat.eqb (S j) (length vs) /\
    t_addr u = p_instruction_addr pi /\ t_info u = Some (inst_key pi (Z.of_nat j)) /\ dynamics k pi v u /\
    t_npc u = (if Nat.eqb (S j) (length vs) then p_instruction_next_addr pi else p_instruction_addr pi).
(** The same before the end of the instruction gets its next address. *)
Definition begun (k : decoder_knobs) (pi : trace_info_cpu_s) (vs : list uview) (a : uop_array) : Prop :=
  forall j v, vs !! j = Some v -> exists u, a !! j = Some u /\ view u = v /\ t_eom u = Nat.eqb (S j) (length vs) /\
    t_addr u = p_instruction_addr pi /\ t_info u = Some (inst_key pi (Z.of_nat j)) /\ dynamics k pi v u /\ t_npc u = p_instruction_addr pi.
(** The table has the instruction, with the micro-operations [vs]. *)
Definition tabled (pi : trace_info_cpu_s) (vs : list uview) (h : inst_table) : Prop :=
  (forall j v, vs !! j = Some v -> exists i, h !! inst_key pi (Z.of_nat j) = Some i /\ cached v i /\ i_addr i = p_instruction_addr pi) /\
  (exists i, h !! inst_key pi 0 = Some i /\ i_num_uop i = Z.of_nat (length vs)).

Lemma ref_all_length pi op : (1 <= length (ref_all pi op) <= 5)%nat.
Proof. unfold ref_all, ref_parts. destruct (has_loads pi), (p_num_ld pi =? 2), (has_alu_uop pi), (p_has_st pi), (has_cf pi); simpl; lia. Qed.

Lemma upd_uop_at i f (a : uop_array) u : a !! i = Some u -> upd_uop (Z.of_nat i) f a = Done (<[i := f u]> a).
Proof.
  intros H. unfold upd_uop, at_uop. rewrite (aget_lookup _ _ _ H). cbn [mbind outcome_bind mret outcome_ret].
  pose proof (lookup_lt_Some _ _ _ H). rewrite aset_in_range by lia. by rewrite Nat2Z.id.
Qed.
(** One object of the array changes. *)
Lemma upd_array_ok i f a : array_ok a -> (i < Z.to_nat MAX_PUP)%nat -> (forall u, tuop_ok u -> tuop_ok (f u)) ->
  exists a', upd_uop (Z.of_nat i) f a = Done a' /\ array_ok a' /\ forall j, a' !! j = (if Nat.eqb j i then f else id) <$> a !! j.
Proof.
  intros [Hl Hf] Hi Hok. destruct (lookup_lt_is_Some_2 a i) as [u Hu]; [lia |]. rewrite (upd_uop_at _ _ _ _ Hu). eexists. split; [done |]. split.
  - split; [by rewrite length_insert |]. apply Forall_insert; [done |]. apply Hok. exact (Forall_lookup_1 _ _ _ _ Hf Hu).
  - intros j. destruct (Nat.eqb_spec j i) as [-> | E]; [rewrite list_lookup_insert_eq by lia; by rewrite Hu |]. rewrite list_lookup_insert_ne by lia. by destruct (a !! j).
Qed.
Lemma upd_last_ok n f a : array_ok a -> (0 < n <= Z.to_nat MAX_PUP)%nat -> (forall u, tuop_ok u -> tuop_ok (f u)) ->
  exists a', upd_uop (Z.of_nat n - 1) f a = Done a' /\ array_ok a' /\ forall j, a' !! j = (if Nat.eqb (S j) n then f else id) <$> a !! j.
Proof. intros Ha Hn Hok. destruct n as [| n]; [lia |]. replace (Z.of_nat (S n) - 1) with (Z.of_nat n) by lia. apply (upd_array_ok n); [done | lia | done]. Qed.

(** An entry keeps what decoding relies on. *)
Lemma tabled_insert pi vs h j i i' : tabled pi vs h -> h !! inst_key pi j = Some i -> (forall v, cached v i -> cached v i') -> i_addr i' = i_addr i ->
  i_num_uop i' = i_num_uop i -> tabled pi vs (<[inst_key pi j := i']> h).
Proof.
  intros [H1 (i0 & E0 & H2)] Ei Hc Ha Hn. split.
  - intros j' v Hv. destruct (H1 j' v Hv) as (i2 & E2 & C & A). destruct (decide (inst_key pi j = inst_key pi (Z.of_nat j'))) as [E | E].
    + rewrite E in Ei |- *. rewrite E2 in Ei. injection Ei as ->. exists i'. rewrite lookup_insert_eq, Ha. auto.
    + exists i2. by rewrite lookup_insert_ne.
  - destruct (decide (inst_key pi j = inst_key pi 0)) as [E | E].
    + rewrite E in Ei |- *. rewrite E0 in Ei. injection Ei as ->. exists i'. rewrite lookup_insert_eq, Hn. done.
    + exists i0. by rewrite lookup_insert_ne.
Qed.
Lemma cached_num_uop v n i : cached v i -> cached v (set_num_uop n i).
Proof. intros C. by destruct C; split. Qed.
Lemma cached_marks v b e i : cached v i -> cached v (set_marks b e i).
Proof. intros C. by destruct C; split. Qed.

Lemma tabled_end pi vs h i : (length vs <= 8)%nat -> tabled pi vs h -> h !! inst_key pi 0 = Some i ->
  tabled pi vs (<[inst_key pi 0 := set_num_uop (Z.of_nat (length vs)) i]> h).
Proof.
  intros Hn Ht Ei. pose proof Ht as [_ (i' & Ei' & En)]. rewrite Ei in Ei'. injection Ei' as <-.
  eapply tabled_insert; [done | done | intros v; apply cached_num_uop | done |]. simpl. rewrite En. unfold u8. rewrite Z.mod_small; lia.
Qed.

(** What follows the decoding of an instruction that is not repeated. *)
Lemma convert_tail k junk pi vs a h a1 h1 i : is_stringop (p_opcode pi) = false -> (0 < length vs <= 8)%nat ->
  decode_inst k junk pi a h = Done (a1, h1, Z.of_nat (length vs)) -> array_ok a1 -> begun k pi vs a1 -> h1 !! inst_key pi 0 = Some i ->
  exists a', convert_pinuop_to_t_uop k junk pi a h = Done (a', <[inst_key pi 0 := set_num_uop (Z.of_nat (length vs)) i]> h1, Z.of_nat (length vs)) /\
    array_ok a' /\ decoded k pi vs a'.
Proof.
  intros Ho Hn E Ha Hb Ei. unfold convert_pinuop_to_t_uop. rewrite E. cbn [mbind outcome_bind]. unfold repeat_inst. rewrite Ho.
  cbn [negb mbind outcome_bind mret outcome_ret]. rewrite (proj2 (Z.eqb_neq (Z.of_nat (length vs)) 0)) by lia. cbn [ASSERT negb mbind outcome_bind].
  destruct (upd_last_ok (length vs) (set_npc (p_instruction_next_addr pi) ∘ set_eom true) a1 Ha) as (a2 & E2 & Ha2 & Hl); [unfold MAX_PUP; lia | done |].
  rewrite E2. cbn [mbind outcome_bind]. rewrite (proj2 (Z.ltb_lt 0 (Z.of_nat (length vs)))) by lia. cbn [ASSERT mbind outcome_bind]. rewrite Ei.
  cbn [get_or mbind outcome_bind mret outcome_ret]. exists a2. split; [done |]. split; [done |].
  intros j v Hv. destruct (Hb j v Hv) as (u & Eu & V & M & A & K & D & P). rewrite Hl, Eu. destruct (Nat.eqb (S j) (length vs)); simpl.
  - eexists. split; [done |]. by split_and!.
  - exists u. by split_and!.
Qed.

Section NEW.
Context (k : decoder_knobs) (junk : inst_info_s) (pi : trace_info_cpu_s) (Hpi : inst_ok pi) (Hamp : amp_val k pi = 1) (Hj : info_ok junk).

(** Micro-operation [j] made from the object [u]. *)
Record made (j : nat) (last : bool) (u u' : trace_uop_s) (i' : inst_info_s) : Prop := {
  md_view : view u' = ref_mark pi last (ref_of pi u);
  md_addr : t_addr u' = p_instruction_addr pi;
  md_info : t_info u' = Some (inst_key pi (Z.of_nat j));
  md_eom : t_eom u' = t_eom u;
  md_npc : t_npc u' = p_instruction_addr pi;
  md_va : dynamics k pi (view u') u';
  md_ok : tuop_ok u';
  md_cached : cached (view u') i';
  md_iaddr : i_addr i' = p_instruction_addr pi
}.

(** The entry of the table that micro-operation [ii] goes to. *)
Lemma finish_entry ii (h : inst_table) : (ii < 8)%nat ->
  (ii = O -> exists i, h !! inst_key pi 0 = Some i /\ info_ok i) -> (ii <> O -> h !! inst_key pi (Z.of_nat ii) = None) ->
  exists i h1, (if Z.of_nat ii =? 0 then i ← get_or NullDeref (h !! inst_key pi (Z.of_nat ii)); mret (i, h)
       else let '(i, new_entry, h1) := info_create junk (inst_key pi (Z.of_nat ii)) h in _ ← ASSERT new_entry; mret (set_marks false false i, h1)) = Done (i, h1) /\
    info_ok i /\ (ii = O -> h !! inst_key pi 0 = Some i) /\ (forall key, key <> inst_key pi (Z.of_nat ii) -> h1 !! key = h !! key).
Proof.
  intros Hi H0 Hn. destruct ii as [| ii].
  - destruct (H0 eq_refl) as (i & Ei & Hok). exists i, h. change (Z.of_nat 0) with 0. rewrite Ei. by split_and!.
  - specialize (Hn ltac:(done)). unfold info_create. rewrite Hn. rewrite (proj2 (Z.eqb_neq _ _)) by lia. cbn [ASSERT mbind outcome_bind].
    eexists _, _. split; [done |]. split_and!; [done | done |]. intros key Hk. by rewrite lookup_insert_ne.
Qed.

Lemma finish_loop_ok n : forall ii a h, (ii + n <= 8)%nat -> array_ok a ->
  (forall j, (ii <= j < ii + n)%nat -> exists u, a !! j = Some u /\ split_ok pi u) ->
  ((0 < n)%nat -> ii = O -> exists i, h !! inst_key pi 0 = Some i /\ info_ok i) ->
  (forall j, (ii <= j < ii + n)%nat -> j <> O -> h !! inst_key pi (Z.of_nat j) = None) ->
  exists a' h', finish_loop k junk pi n (Z.of_nat ii) a h = Done (a', h') /\ array_ok a' /\
    (forall j u, (ii <= j < ii + n)%nat -> a !! j = Some u -> exists u' i', a' !! j = Some u' /\ h' !! inst_key pi (Z.of_nat j) = Some i' /\
       made j (Nat.eqb (S j) (ii + n)) u u' i' /\ (j = O -> forall i, h !! inst_key pi 0 = Some i -> i_num_uop i' = i_num_uop i)) /\
    (forall j, ~ (ii <= j < ii + n)%nat -> a' !! j = a !! j) /\
    (forall key, (forall j, (ii <= j < ii + n)%nat -> key <> inst_key pi (Z.of_nat j)) -> h' !! key = h !! key).
Proof.
  induction n as [| n IH]; intros ii a h Hle Ha Hu H0 Hn.
  { exists a, h. split; [done |]. split; [done |]. split; [lia | done]. }
  cbn [finish_loop]. destruct (finish_entry ii h) as (i & h1 & -> & Hi & Ei & Eh); [lia | intros; apply H0; [lia | done] | intros; apply Hn; [lia | done] |]. cbn [mbind outcome_bind].
  destruct (Hu ii) as (u & Eu & Hsu); [lia |]. rewrite (aget_lookup _ _ _ Eu). cbn [mbind outcome_bind].
  destruct (finish_uop_ok k pi Hpi (inst_key pi (Z.of_nat ii)) i (Nat.eqb n 0) u Hsu Hi Hamp) as (u' & i' & -> & Hok & V & A & K & M & P & D & C & N & I). cbn [mbind outcome_bind].
  destruct Ha as [Hl Hf]. pose proof (lookup_lt_Some _ _ _ Eu) as Hlt. rewrite aset_in_range by lia. rewrite Nat2Z.id. cbn [mbind outcome_bind].
  set (a1 := <[ii := u']> a). set (h2 := <[inst_key pi (Z.of_nat ii) := i']> h1).
  assert (Hother : forall j, j <> ii -> a1 !! j = a !! j) by (intros j Hne; by apply list_lookup_insert_ne).
  assert (Hkeys : forall key, key <> inst_key pi (Z.of_nat ii) -> h2 !! key = h !! key).
  { intros key Hk. unfold h2. rewrite lookup_insert_ne by done. by apply Eh. }
  assert (Hdiff : forall j, (j < 8)%nat -> j <> ii -> inst_key pi (Z.of_nat j) <> inst_key pi (Z.of_nat ii)) by (intros j Hj8 Hne E; apply inst_key_inj in E; lia).
  replace (Z.of_nat ii + 1) with (Z.of_nat (S ii)) by lia. destruct (IH (S ii) a1 h2) as (a' & h' & E & Ha' & Hmade & Hout & Hold).
  - lia.
  - split; [unfold a1; by rewrite length_insert | by apply Forall_insert].
  - intros j Hj'. rewrite Hother by lia. apply Hu. lia.
  - lia.
  - intros j Hj' Hj0. rewrite Hkeys by (apply Hdiff; lia). apply Hn; lia.
  - exists a', h'. split; [exact E |]. split; [done |]. split; [| split].
    + intros j w Hjr Ew. destruct (decide (j = ii)) as [-> | Hne].
      * rewrite Eu in Ew. injection Ew as <-. exists u', i'. rewrite Hout by lia. split; [by apply list_lookup_insert_eq |].
        split; [rewrite Hold by (intros j' Hj' E'; apply (Hdiff j'); [lia | lia | done]); apply lookup_insert_eq |]. replace (Nat.eqb (S ii) (ii + S n)) with (Nat.eqb n 0) by (destruct (Nat.eqb_spec n 0), (Nat.eqb_spec (S ii) (ii + S n)); lia).
        split; [by split |]. intros -> i0 Ei0. rewrite Ei in Ei0 by done. injection Ei0 as <-. done.
      * destruct (Hmade j w) as (w' & iw & E1 & E2 & E3 & E4); [lia | by rewrite Hother |]. exists w', iw.
        replace (ii + S n)%nat with (S ii + n)%nat by lia. split; [done |]. split; [done |]. split; [done |]. lia.
    + intros j Hj'. rewrite Hout by lia. apply Hother. lia.
    + intros key Hk. rewrite Hold by (intros j Hj'; apply Hk; lia). apply Hkeys, Hk. lia.
Qed.

(** Each setter makes its part of the reference from any object. *)
Definition makes (f : trace_uop_s -> trace_uop_s) (v : uview) : Prop :=
  forall u, tuop_ok u -> split_ok pi (f u) /\ ref_of pi (f u) = v.

Lemma needs_ld : needs_tmp pi = true -> load_type (p_opcode pi) = MEM_LD.
Proof. unfold needs_tmp, has_ld_uop. rewrite !andb_true_iff, bool_decide_eq_true. tauto. Qed.
Lemma load_makes second : makes (set_load pi second) (ref_load pi second).
Proof.
  intros u Hu. assert (Hc : consumes (set_load pi second u) = false).
  { unfold consumes. simpl. by destruct (p_opcode pi). }
  split.
  - split; [done | simpl; destruct Hpi; lia | simpl; destruct Hpi, (is_dataxfer _); lia | done].
  - unfold ref_of, ref_load, src_list, dest_list. rewrite Hc. simpl. rewrite app_nil_r. f_equal. f_equal; [by destruct (is_dataxfer _) |].
    destruct (needs_tmp pi) eqn:E; [| done]. by rewrite bool_decide_eq_true_2 by (by apply needs_ld).
Qed.
Lemma load2_makes : makes (set_load pi true ∘ set_opcode (p_opcode pi)) (ref_load pi true).
Proof. intros u Hu. apply load_makes. done. Qed.
Lemma alu_makes op : makes (set_alu_uop pi op) (ref_alu pi op).
Proof.
  intros u Hu. split; [split; [done | simpl; destruct Hpi; lia | simpl; destruct Hpi; lia | done] |].
  unfold ref_of, ref_alu, src_list, dest_list. simpl. by rewrite andb_false_r, app_nil_r.
Qed.
Lemma store_makes : makes (set_store pi) (ref_store pi).
Proof.
  intros u Hu. split; [split; [done | simpl; destruct Hpi; lia | simpl; destruct Hpi; lia | done] |].
  unfold ref_of, ref_store, src_list, dest_list. simpl. by rewrite andb_false_r, app_nil_r.
Qed.
Lemma branch_makes : has_cf pi = true -> makes (set_branch pi) (ref_branch pi).
Proof.
  intros Hc u Hu. assert (Hcf : cf_of_pin (p_cf_type pi) <> NOT_CF).
  { unfold has_cf in Hc. apply negb_true_iff, Z.eqb_neq in Hc. destruct Hpi. unfold cf_of_pin, PIN_CF_SYS. destruct (Z.leb_spec 8 (p_cf_type pi)); [done |].
    assert (p_cf_type pi = 1 \/ p_cf_type pi = 2 \/ p_cf_type pi = 3 \/ p_cf_type pi = 4 \/ p_cf_type pi = 5 \/ p_cf_type pi = 6 \/ p_cf_type pi = 7) as E by lia.
    by destruct E as [-> | [-> | [-> | [-> | [-> | [-> | ->]]]]]]. }
  split; [split; [done | simpl; destruct Hpi; lia | simpl; destruct Hpi; lia | done] |].
  unfold ref_of, ref_branch, src_list, dest_list, consumes. simpl. rewrite (bool_decide_eq_false_2 _ Hcf). simpl. by rewrite andb_false_r, app_nil_r.
Qed.
Lemma single_makes : has_loads pi = false ->
  makes (set_single pi (p_opcode pi) (if is_fence pi then UOP_FULL_FENCE else UOP_NOP) true) (ref_single pi).
Proof.
  intros Hl u Hu. assert (Hn : needs_tmp pi = false) by (unfold needs_tmp, has_ld_uop; by rewrite Hl).
  split; [split; [done | simpl; destruct Hpi; lia | simpl; destruct Hpi; lia | done] |].
  unfold ref_of, ref_single, src_list, dest_list. rewrite Hn, andb_false_r. done.
Qed.

Lemma parts_make op : Forall2 makes (part_setters pi op) (ref_parts pi op).
Proof.
  unfold part_setters, ref_parts, load_setters. rewrite <- !app_assoc. repeat apply Forall2_app.
  - destruct (has_loads pi); [| constructor]. constructor; [apply load_makes |]. destruct (_ =? 2); constructor; [apply load2_makes | constructor].
  - destruct (has_alu_uop pi); constructor; [apply alu_makes | constructor].
  - destruct (p_has_st pi); constructor; [apply store_makes | constructor].
  - destruct (has_cf pi) eqn:E; constructor; [by apply branch_makes | constructor].
Qed.
Lemma setters_make op : Forall2 makes (setters pi op) (ref_all pi op).
Proof.
  pose proof (parts_make op) as H. unfold setters, ref_all. destruct (part_setters pi op) eqn:E, (ref_parts pi op) eqn:E2; [| by inversion H.. | done].
  constructor; [| constructor]. apply single_makes. unfold part_setters, load_setters in E. by destruct (has_loads pi).
Qed.

Lemma touched_lookup a j u : touched pi a !! j = Some u -> exists w, a !! j = Some w /\ t_srcs u = t_srcs w /\ t_dests u = t_dests w.
Proof.
  unfold touched. intros H. destruct j as [| j]; destruct a as [| w a]; try done; simpl in H; [injection H as <-; by exists w |]. by exists u.
Qed.
Lemma touched_array_ok a : array_ok a -> array_ok (touched pi a).
Proof.
  intros [Hl Hf]. split; [by rewrite <- Hl; apply length_alter |]. apply Forall_lookup. intros j u Hu. destruct (touched_lookup a j u Hu) as (w & Hw & E1 & E2).
  unfold tuop_ok. rewrite E1, E2. exact (Forall_lookup_1 _ _ _ _ Hf Hw).
Qed.
Lemma fill_ok fs vs a : Forall2 makes fs vs -> (length fs <= 8)%nat -> array_ok a ->
  array_ok (fill fs a) /\ (forall j v, vs !! j = Some v -> exists u, fill fs a !! j = Some u /\ split_ok pi u /\ ref_of pi u = v).
Proof.
  intros Hm Hn Ha. pose proof Ha as [Hl Hf].
  assert (Hj8 : forall j v, vs !! j = Some v -> exists u, fill fs a !! j = Some u /\ split_ok pi u /\ ref_of pi u = v).
  { intros j v Hv. destruct (Forall2_lookup_r _ _ _ _ _ Hm Hv) as (f & Hfj & Hmk). pose proof (lookup_lt_Some _ _ _ Hfj).
    destruct (lookup_lt_is_Some_2 a j) as [u Hu]; [rewrite Hl; unfold MAX_PUP; lia |]. exists (f u). split; [by apply fill_lookup |].
    apply Hmk. exact (Forall_lookup_1 _ _ _ _ Hf Hu). }
  split; [| done]. split; [rewrite length_fill; [done | rewrite Hl; unfold MAX_PUP; lia] |]. apply Forall_lookup. intros j u Hu.
  destruct (decide (j < length fs)%nat) as [Hlt |].
  - destruct (lookup_lt_is_Some_2 vs j) as [v Hv]; [by rewrite <- (Forall2_length _ _ _ Hm) |]. destruct (Hj8 j v Hv) as (u' & E & Hs & _).
    rewrite Hu in E. injection E as <-. apply Hs.
  - rewrite fill_lookup_ge in Hu by (lia || (rewrite Hl; unfold MAX_PUP; lia)). exact (Forall_lookup_1 _ _ _ _ Hf Hu).
Qed.
Lemma setters_eom op j f u : setters pi op !! j = Some f -> S j <> length (setters pi op) -> t_eom (f u) = false.
Proof.
  assert (H : Forall (fun f => t_eom (f u) = false) (part_setters pi op)).
  { unfold part_setters, load_setters. repeat (apply Forall_app; split); repeat case_match; repeat constructor. }
  unfold setters. destruct (part_setters pi op) as [| g gs]; intros Hf Hl; [destruct j; [simpl in Hl; lia | discriminate Hf] |].
  exact (Forall_lookup_1 _ _ _ _ H Hf).
Qed.
Lemma reference_lookup op j : reference pi op !! j = ref_mark pi (Nat.eqb (S j) (length (ref_all pi op))) <$> ref_all pi op !! j.
Proof. unfold reference. by rewrite list_lookup_imap. Qed.
Lemma reference_length op : length (reference pi op) = length (ref_all pi op).
Proof. unfold reference. apply length_imap. Qed.

(** All micro-operations of the instruction were made. *)
Definition all_made (op : Uop_Type) (a0 a : uop_array) (h : inst_table) : Prop :=
  forall j v, ref_all pi op !! j = Some v -> exists u u' i', a0 !! j = Some u /\ ref_of pi u = v /\ a !! j = Some u' /\
    h !! inst_key pi (Z.of_nat j) = Some i' /\ made j (Nat.eqb (S j) (length (ref_all pi op))) u u' i'.

Lemma made_begun op a0 a a' h : length a0 = Z.to_nat MAX_PUP -> all_made op (fill (setters pi op) (touched pi a0)) a h ->
  (forall j, a' !! j = (if Nat.eqb (S j) (length (ref_all pi op)) then set_eom true else id) <$> a !! j) -> begun k pi (reference pi op) a'.
Proof.
  intros Hl Hm Hend j v Hv. rewrite reference_length. rewrite reference_lookup in Hv. apply fmap_Some in Hv as (v1 & Hv1 & ->).
  destruct (Hm j v1 Hv1) as (u & u' & i' & Eu & <- & Eu' & _ & [V A K M P D O C _]). rewrite Hend, Eu'. rewrite <- V.
  destruct (Nat.eqb_spec (S j) (length (ref_all pi op))) as [Ej | Ej]; simpl; [eexists; split; [done |]; by split_and! |].
  exists u'. split; [done |]. split_and!; try done. rewrite M. pose proof (lookup_lt_Some _ _ _ Hv1). pose proof (Forall2_length _ _ _ (setters_make op)) as Hn.
  pose proof (setters_length pi op). destruct (lookup_lt_is_Some_2 (setters pi op) j) as [f Hfj]; [lia |]. destruct (lookup_lt_is_Some_2 (touched pi a0) j) as [w Hw].
  { unfold touched. rewrite length_alter, Hl. unfold MAX_PUP. lia. }
  rewrite (fill_lookup _ _ _ _ _ Hfj Hw) in Eu. injection Eu as <-. eapply setters_eom; [done | lia].
Qed.
Lemma made_tabled op a0 a h i0 : all_made op a0 a h -> h !! inst_key pi 0 = Some i0 -> i_num_uop i0 = Z.of_nat (length (ref_all pi op)) ->
  tabled pi (reference pi op) h.
Proof.
  intros Hm E0 En. split; [| exists i0; by rewrite reference_length]. intros j v Hv. rewrite reference_lookup in Hv. apply fmap_Some in Hv as (v1 & Hv1 & ->).
  destruct (Hm j v1 Hv1) as (u & u' & i' & _ & <- & _ & Ei' & [V _ _ _ _ _ _ C I]). rewrite <- V. by exists i'.
Qed.

Lemma decode_new_begun op a h :
  array_ok a -> (forall j, 0 <= j < 8 -> h !! inst_key pi j = None) -> KNOB_ENABLE_HMC_FENCE k = false -> (has_alu_uop pi = true -> alu_type k pi = Done op) ->
  exists a2 h2, decode_inst k junk pi a h = Done (a2, h2, Z.of_nat (length (reference pi op))) /\ array_ok a2 /\
    begun k pi (reference pi op) a2 /\ tabled pi (reference pi op) h2 /\ (forall key, (forall j, 0 <= j < 8 -> key <> inst_key pi j) -> h2 !! key = h !! key).
Proof.
  intros Ha Hnew Hf Hop. unfold decode_inst, info_create. rewrite (Hnew 0) by lia. unfold decode_new. pose proof Ha as [Hla _].
  rewrite (split_inst_fill k pi op) by (done || (rewrite Hla; unfold MAX_PUP; lia)). cbn [mbind outcome_bind].
  rewrite lookup_insert_eq. cbn [mbind outcome_bind get_or]. rewrite insert_insert_eq. pose proof (ref_all_length pi op) as Hn. pose proof (setters_make op) as Hm.
  rewrite reference_length, (Forall2_length _ _ _ Hm). set (n := length (ref_all pi op)) in *. set (i0 := set_num_uop _ _).
  destruct (fill_ok _ _ (touched pi a) Hm) as [Hfa Hfu]; [rewrite (Forall2_length _ _ _ Hm); unfold n in *; lia | by apply (touched_array_ok a) |].
  destruct (finish_loop_ok n 0 (fill (setters pi op) (touched pi a)) (<[inst_key pi 0 := i0]> h)) as (a1 & h2 & E2 & Ha1 & Hmade & _ & Hold).
  { lia. } { done. }
  { intros j Hj'. destruct (lookup_lt_is_Some_2 (ref_all pi op) j) as [v Hv]; [unfold n in *; lia |]. destruct (Hfu j v Hv) as (u & Eu & Hs & _). by exists u. }
  { intros _ _. exists i0. by rewrite lookup_insert_eq. }
  { intros j Hj' Hj0. rewrite lookup_insert_ne by (intros E; apply inst_key_inj in E; lia). apply Hnew. lia. }
  change (Z.of_nat 0) with 0 in E2. rewrite Nat2Z.id, E2. cbn [mbind outcome_bind].
  destruct (upd_last_ok n (set_eom true) a1 Ha1) as (a2 & E3 & Ha2 & Hl); [unfold MAX_PUP; lia | done |]. rewrite E3. cbn [mbind outcome_bind].
  rewrite (proj2 (Z.ltb_lt 0 (Z.of_nat n))) by lia. cbn [ASSERT mbind outcome_bind mret outcome_ret].
  assert (Hall : all_made op (fill (setters pi op) (touched pi a)) a1 h2).
  { intros j v Hv. destruct (Hfu j v Hv) as (u & Eu & _ & Er). pose proof (lookup_lt_Some _ _ _ Hv).
    destruct (Hmade j u) as (u' & i' & B1 & B2 & B3 & _); [unfold n in *; lia | done |]. by exists u, u', i'. }
  destruct (lookup_lt_is_Some_2 (ref_all pi op) 0) as [v0 Hv0]; [unfold n in *; lia |]. destruct (Hfu 0%nat v0 Hv0) as (u0 & Eu0 & _).
  destruct (Hmade 0%nat u0) as (_ & i1 & _ & Ei1 & _ & En); [lia | done |]. specialize (En eq_refl i0 (lookup_insert_eq _ _ _)).
  exists a2, h2. split; [done |]. split; [done |]. split; [by eapply made_begun; [apply Hla | |] |]. split.
  - eapply made_tabled; [done | done |]. rewrite En. simpl. unfold u8. rewrite Z.mod_small; unfold n in *; lia.
  - intros key Hk. rewrite Hold by (intros j Hj'; apply Hk; lia). rewrite lookup_insert_ne; [done |]. intros E. apply (Hk 0); [lia | done].
Qed.
End NEW.

(** ** An instruction the table has *)

(** What is left of a micro-operation that went through the table. *)
Definition first_dest (v : uview) : uview := mk_uview (v_kind v) (v_second v) (v_srcs v) (take 1 (v_dests v)).
Definition regs_ok (v : uview) : Prop := Forall (fun r => r < NUM_REG_IDS) (v_dests v).

Section KNOWN.
Context (k : decoder_knobs) (junk : inst_info_s) (pi : trace_info_cpu_s) (Hpi : inst_ok pi) (Hamp : amp_val k pi = 1).

(** Micro-operation [j], taken from the table. *)
Record reused (j : nat) (v : uview) (u : trace_uop_s) : Prop := {
  ru_view : view u = first_dest v;
  ru_eom : t_eom u = false;
  ru_addr : t_addr u = p_instruction_addr pi;
  ru_info : t_info u = Some (inst_key pi (Z.of_nat j));
  ru_va : dynamics k pi v u;
  ru_npc : t_npc u = p_instruction_addr pi;
  ru_ok : tuop_ok u
}.

Lemma convert_info_uop_ok v i u : cached v i -> regs_ok v -> tuop_ok u ->
  exists u', convert_info_uop i u = Done u' /\ view u' = first_dest v /\ tuop_ok u' /\ t_addr u' = i_addr i /\ t_kind u' = i_kind i /\ t_pin_2nd_mem u' = i_second_mem i.
Proof.
  intros [Ck Cs [Ns Es] [Nd Ed] [Ls Ld]] Hr [Hs Hd]. unfold convert_info_uop. unfold MAX_SRCS, MAX_DESTS in *. rewrite !copy_prefix by lia. cbn [mbind outcome_bind].
  rewrite take_app_length' by (rewrite length_take; lia). rewrite Ed.
  assert (Ef : forallb (fun r => r <? NUM_REG_IDS) (take 1 (v_dests v)) = true).
  { unfold regs_ok in Hr. destruct (v_dests v) as [| r l]; [done |]. apply Forall_cons in Hr as [Hr _]. simpl. by rewrite (proj2 (Z.ltb_lt _ _) Hr). }
  rewrite Ef. cbn [ASSERT mbind outcome_bind]. eexists. split; [done |]. split_and!; try done.
  - assert (L1 : length (v_srcs v) = Z.to_nat (i_num_src_regs i)) by (rewrite <- Es, length_take; lia).
    assert (L2 : length (take 1 (v_dests v)) = Z.to_nat (i_num_dest_regs i)) by (rewrite <- Ed, length_take; lia).
    unfold view, first_dest. simpl. by rewrite Es, Ck, Cs, !take_app_length'.
  - split; simpl; [| rewrite <- Ed]; rewrite length_app, length_take, length_drop; unfold MAX_SRCS, MAX_DESTS; lia.
Qed.
Lemma ref_va_first v : ref_va pi (first_dest v) = ref_va pi v.
Proof. done. Qed.
Lemma reuse_uop_ok j v i u : cached v i -> regs_ok v -> tuop_ok u -> i_addr i = p_instruction_addr pi ->
  exists u', reuse_uop k pi (inst_key pi (Z.of_nat j)) i u = Done u' /\ reused j v u'.
Proof.
  intros Hc Hr Hu Ha. unfold reuse_uop. destruct (convert_info_uop_ok v i u Hc Hr Hu) as (u1 & -> & V & O & A & K & S). cbn [mbind outcome_bind].
  eexists. split; [done |]. split; try done.
  - destruct (convert_dyn_dynamics k pi Hpi i u1) as [D1 D2]; [done | done | done |]. rewrite V in D1, D2. split; [exact D1 | exact D2].
  - simpl. by rewrite A.
Qed.

Lemma reuse_loop_ok vs h : tabled pi vs h -> Forall regs_ok vs -> forall n ii a, (ii + n = length vs)%nat -> (length vs <= Z.to_nat MAX_PUP)%nat -> array_ok a ->
  exists a', reuse_loop k junk pi n (Z.of_nat ii) a h = Done (a', h) /\ array_ok a' /\ (forall j, (j < ii)%nat -> a' !! j = a !! j) /\
    (forall j v, (ii <= j)%nat -> vs !! j = Some v -> exists u, a' !! j = Some u /\ reused j v u).
Proof.
  intros [Ht _] Hr. induction n as [| n IH]; intros ii a Hn Hmax Ha.
  { exists a. split; [done |]. split; [done |]. split; [done |]. intros j v Hj Hv. apply lookup_lt_Some in Hv. lia. }
  cbn [reuse_loop]. destruct (lookup_lt_is_Some_2 vs ii) as [v Hv]; [lia |]. destruct (Ht ii v Hv) as (i & Ei & Hc & Hia).
  unfold info_create. rewrite Ei. cbn [negb ASSERT mbind outcome_bind]. pose proof Ha as [Hl Hf]. destruct (lookup_lt_is_Some_2 a ii) as [u Hu]; [lia |].
  unfold at_uop. rewrite (aget_lookup _ _ _ Hu). cbn [mbind outcome_bind].
  destruct (reuse_uop_ok ii v i u Hc (Forall_lookup_1 _ _ _ _ Hr Hv) (Forall_lookup_1 _ _ _ _ Hf Hu) Hia) as (u' & -> & Hre). cbn [mbind outcome_bind].
  pose proof (lookup_lt_Some _ _ _ Hu). rewrite aset_in_range by lia. rewrite Nat2Z.id. cbn [mbind outcome_bind].
  replace (Z.of_nat ii + 1) with (Z.of_nat (S ii)) by lia. destruct (IH (S ii) (<[ii := u']> a)) as (a' & E & Ha' & Hlow & Hhigh); [lia | done | |].
  { split; [by rewrite length_insert |]. apply Forall_insert; [done | apply Hre]. }
  exists a'. split; [done |]. split; [done |]. split.
  - intros j Hj. rewrite Hlow by lia. apply list_lookup_insert_ne. lia.
  - intros j w Hj Hw. destruct (decide (j = ii)) as [-> | Hne]; [| apply Hhigh; [lia | done]].
    rewrite Hv in Hw. injection Hw as <-. exists u'. split; [| done]. rewrite Hlow by lia. apply list_lookup_insert_eq. lia.
Qed.

Lemma tabled_first_dest vs h : tabled pi vs h -> tabled pi (first_dest <$> vs) h.
Proof.
  intros [H1 H2]. split; [| by rewrite length_fmap]. intros j v' Hv'. rewrite list_lookup_fmap in Hv'. apply fmap_Some in Hv' as (v & Hv & ->).
  destruct (H1 j v Hv) as (i & Ei & [K S R D O] & A). exists i. split; [done |]. split; [| done]. split; try done. simpl. by rewrite take_take.
Qed.
Lemma decode_known_begun vs a h : array_ok a -> tabled pi vs h -> Forall regs_ok vs -> (0 < length vs <= 8)%nat ->
  exists a2, decode_inst k junk pi a h = Done (a2, h, Z.of_nat (length vs)) /\ array_ok a2 /\ begun k pi (first_dest <$> vs) a2.
Proof.
  intros Ha Ht Hr Hn. pose proof Ht as [Hc (i & Ei & En)]. unfold decode_inst, info_create. rewrite Ei. unfold decode_known. rewrite En, Nat2Z.id.
  destruct (reuse_loop_ok vs h Ht Hr (length vs) 0 a) as (a1 & E1 & Ha1 & _ & Hu); [lia | unfold MAX_PUP; lia | done |]. change (Z.of_nat 0) with 0 in E1.
  rewrite E1. cbn [mbind outcome_bind]. destruct (upd_last_ok (length vs) (set_eom true) a1 Ha1) as (a2 & E2 & Ha2 & Hl); [unfold MAX_PUP; lia | done |].
  rewrite E2. cbn [mbind outcome_bind]. rewrite (proj2 (Z.ltb_lt 0 (Z.of_nat (length vs)))) by lia. exists a2. split; [done |]. split; [done |].
  intros j v' Hv'. rewrite list_lookup_fmap in Hv'. apply fmap_Some in Hv' as (v & Hv & ->). rewrite length_fmap.
  destruct (Hu j v) as (u & Eu & [V M A K D P O]); [lia | done |]. rewrite Hl, Eu. destruct (Nat.eqb (S j) (length vs)); simpl.
  - eexists. split; [done |]. by split_and!.
  - exists u. by split_and!.
Qed.
End KNOWN.

(** ** A whole trace *)

Section TRACE.
Context (k : decoder_knobs) (junk : inst_info_s).

(** The micro-operations an instruction stands for. *)
Definition inst_views (pi : trace_info_cpu_s) : list uview :=
  reference pi (match alu_type k pi with Done op => op | _ => UOP_INV end).

(** The records of a trace one after the other, with the array and the table that
    decoding leaves; what the pipeline reads is the front of the array. *)
Fixpoint decode_trace (pis : list trace_info_cpu_s) (a : uop_array) (h : inst_table) : outcome (list (list trace_uop_s)) :=
  match pis with
  | [] => mret []
  | pi :: pis' =>
      '(a', h', n) ← convert_pinuop_to_t_uop k junk pi a h;
      us ← decode_trace pis' a' h';
      mret (take (Z.to_nat n) a' :: us)
  end.
(** What it should be: an instruction met before comes from the table. *)
Fixpoint trace_views (seen : list Z) (pis : list trace_info_cpu_s) : list (list uview) :=
  match pis with
  | [] => []
  | pi :: pis' =>
      (if bool_decide (p_instruction_addr pi ∈ seen) then first_dest <$> inst_views pi else inst_views pi) :: trace_views (p_instruction_addr pi :: seen) pis'
  end.

(** The program does not change under the trace: [code] has the micro-operations at
    an address. *)
Record rec_ok (code : Z -> list uview) (pi : trace_info_cpu_s) : Prop := {
  rk_inst : inst_ok pi;
  rk_string : is_stringop (p_opcode pi) = false;
  rk_gpu : p_opcode pi <> GPU_EN;
  rk_addr : 0 <= p_instruction_addr pi < 2 ^ 61;
  rk_code : inst_views pi = code (p_instruction_addr pi)
}.
Context (code : Z -> list uview) (Hj : info_ok junk) (Hf : KNOB_ENABLE_HMC_FENCE k = false).

Definition table_ok (seen : list Z) (h : inst_table) : Prop :=
  forall pi, rec_ok code pi ->
    if bool_decide (p_instruction_addr pi ∈ seen) then tabled pi (inst_views pi) h else forall j, 0 <= j < 8 -> h !! inst_key pi j = None.

Lemma inst_key_value pi j : 0 <= p_instruction_addr pi < 2 ^ 61 -> 0 <= j < 8 -> inst_key pi j = 8 * p_instruction_addr pi + j.
Proof.
  intros Ha Hj'. unfold inst_key, shl64. rewrite Z.shiftl_mul_pow2 by lia. rewrite (u64_small (_ * _)) by (unfold is_u64; lia).
  rewrite u64_small by (unfold is_u64; lia). lia.
Qed.
Lemma tabled_frame pi pi' vs h h' : (length vs <= 8)%nat -> p_instruction_addr pi' = p_instruction_addr pi ->
  (forall j, 0 <= j < 8 -> h' !! inst_key pi j = h !! inst_key pi j) -> tabled pi vs h -> tabled pi' vs h'.
Proof.
  intros Hn Ea Hh [H1 (i & H2 & H3)]. assert (Ek : forall j, inst_key pi' j = inst_key pi j) by (intros j; unfold inst_key; by rewrite Ea).
  split; [| exists i; by rewrite Ek, Hh by lia]. intros j v Hv. destruct (H1 j v Hv) as (i' & E & C & A). apply lookup_lt_Some in Hv.
  exists i'. rewrite Ek, Hh, Ea by lia. done.
Qed.
Lemma alu_type_ok pi : p_opcode pi <> GPU_EN -> alu_type k pi = Done (match alu_type k pi with Done op => op | _ => UOP_INV end).
Proof.
  intros H. unfold alu_type. pose proof (uop_tables_total (lat_map k) (p_opcode pi) (p_is_fp pi) H) as [op E].
  by destruct (p_is_fp pi); rewrite E.
Qed.
Lemma inst_views_length pi : (1 <= length (inst_views pi) <= 5)%nat.
Proof. unfold inst_views. rewrite reference_length. apply ref_all_length. Qed.
Lemma ref_mark_dests pi last v : v_dests (ref_mark pi last v) = v_dests v.
Proof. unfold ref_mark. by destruct (_ && _). Qed.
Lemma inst_views_regs pi : inst_ok pi -> Forall regs_ok (inst_views pi).
Proof.
  intros [_ _ _ _ _ _ _ Hr]. apply Forall_app in Hr as [_ Hr].
  assert (Hw : Forall (fun r => r < NUM_REG_IDS) (inst_writes pi)).
  { apply Forall_take. eapply Forall_impl; [exact Hr |]. intros r Hr'. unfold NUM_REG_IDS. simpl in Hr'. lia. }
  assert (Ht : forall b, Forall (fun r => r < NUM_REG_IDS) (tmp b)) by (intros []; repeat constructor).
  apply Forall_lookup. intros j v Hv. unfold inst_views in Hv. rewrite reference_lookup in Hv. apply fmap_Some in Hv as (w & Hw' & ->).
  unfold regs_ok. rewrite ref_mark_dests. revert j w Hw'. apply Forall_lookup. unfold ref_all.
  match goal with |- context [ref_parts pi ?op] => assert (H : Forall (fun v => Forall (fun r => r < NUM_REG_IDS) (v_dests v)) (ref_parts pi op)) end.
  { unfold ref_parts. repeat (apply Forall_app; split); repeat case_match; repeat constructor; simpl; try done; apply Forall_app; split; try apply Ht; try case_match; done. }
  destruct (ref_parts pi _); [repeat constructor | exact H].
Qed.

Lemma table_step seen pi h h' : rec_ok code pi -> table_ok seen h -> tabled pi (inst_views pi) h' ->
  (forall key, (forall j, 0 <= j < 8 -> key <> inst_key pi j) -> h' !! key = h !! key) -> table_ok (p_instruction_addr pi :: seen) h'.
Proof.
  intros Hk Ht Htab Hold pi' Hk'. destruct (decide (p_instruction_addr pi' = p_instruction_addr pi)) as [E | Hne].
  - rewrite bool_decide_eq_true_2 by (rewrite E; left). pose proof (inst_views_length pi).
    assert (Ev : inst_views pi' = inst_views pi) by (rewrite (rk_code _ _ Hk), (rk_code _ _ Hk'); by rewrite E).
    rewrite Ev. by apply (tabled_frame pi pi' _ h'); [lia | done | done |].
  - assert (Hkeys : forall j, 0 <= j < 8 -> h' !! inst_key pi' j = h !! inst_key pi' j).
    { intros j Hj'. apply Hold. intros j2 Hj2 E. rewrite !inst_key_value in E by (done || apply Hk || apply Hk'). lia. }
    rewrite (bool_decide_ext _ (p_instruction_addr pi' ∈ seen)) by (rewrite elem_of_cons; tauto). specialize (Ht pi' Hk').
    destruct (bool_decide _); [| intros j Hj'; rewrite Hkeys by done; by apply Ht].
    pose proof (inst_views_length pi'). by apply (tabled_frame pi' pi' _ h); [lia | done | done |].
Qed.

Lemma amp_one pi : is_stringop (p_opcode pi) = false -> amp_val k pi = 1.
Proof. intros H. unfold amp_val. by rewrite H. Qed.
Lemma decode_step seen pi a h : rec_ok code pi -> array_ok a -> table_ok seen h ->
  exists a' h', convert_pinuop_to_t_uop k junk pi a h = Done (a', h', Z.of_nat (length (inst_views pi))) /\ array_ok a' /\
    decoded k pi (if bool_decide (p_instruction_addr pi ∈ seen) then first_dest <$> inst_views pi else inst_views pi) a' /\
    table_ok (p_instruction_addr pi :: seen) h'.
Proof.
  intros Hk Ha Ht. pose proof (Ht pi Hk) as Hpi. pose proof Hk as [Hok Hs Hg _ _]. pose proof (inst_views_length pi) as Hn. destruct (bool_decide _).
  - pose proof Hpi as [_ (i & Ei & _)].
    destruct (decode_known_begun k junk pi Hok (amp_one pi Hs) (inst_views pi) a h Ha Hpi (inst_views_regs pi Hok) ltac:(lia)) as (a1 & E & Ha1 & Hb).
    destruct (convert_tail k junk pi (first_dest <$> inst_views pi) a h a1 h i) as (a' & E' & Ha' & Hd);
      [done | rewrite length_fmap; lia | by rewrite length_fmap | done | done | done |].
    rewrite length_fmap in E'. eexists a', _. split; [done |]. split; [done |]. split; [done |]. eapply table_step; [done | done | apply tabled_end; [lia | done | done] |].
    intros key Hkey. apply lookup_insert_ne. intros Ek. apply (Hkey 0); [lia | done].
  - destruct (decode_new_begun k junk pi Hok (amp_one pi Hs) Hj _ a h Ha Hpi Hf (fun _ => alu_type_ok pi Hg)) as (a1 & h1 & E & Ha1 & Hb & Htab & Hold).
    pose proof Htab as [_ (i & Ei & _)]. destruct (convert_tail k junk pi (inst_views pi) a h a1 h1 i) as (a' & E' & Ha' & Hd); [done | lia | done | done | done | done |].
    eexists a', _. split; [done |]. split; [done |]. split; [done |]. eapply table_step; [done | done | apply tabled_end; [lia | done | done] |].
    intros key Hkey. rewrite lookup_insert_ne by (intros Ek; apply (Hkey 0); [lia | done]). by apply Hold.
Qed.

Lemma decoded_take pi vs a : decoded k pi vs a -> decoded k pi vs (take (length vs) a).
Proof. intros H j v Hv. destruct (H j v Hv) as (u & Eu & Hu). exists u. split; [| done]. rewrite lookup_take_lt; [done |]. by eapply lookup_lt_Some. Qed.
Lemma trace_views_length n pi (b : bool) : n = Z.of_nat (length (inst_views pi)) -> Z.to_nat n = length (if b then first_dest <$> inst_views pi else inst_views pi).
Proof. intros ->. destruct b; rewrite ?length_fmap; lia. Qed.
Lemma decode_trace_ok pis : Forall (rec_ok code) pis -> forall seen a h, array_ok a -> table_ok seen h ->
  exists us, decode_trace pis a h = Done us /\
    Forall2 (fun pv u => length u = length pv.2 /\ decoded k pv.1 pv.2 u) (zip pis (trace_views seen pis)) us.
Proof.
  induction 1 as [| pi pis Hk _ IH]; intros seen a h Ha Ht; [exists []; by split |].
  destruct (decode_step seen pi a h Hk Ha Ht) as (a' & h' & E & Ha' & Hd & Ht'). destruct (IH _ a' h' Ha' Ht') as (us & E' & Hus).
  cbn [decode_trace]. rewrite E. cbn [mbind outcome_bind]. rewrite E'. cbn [mbind outcome_bind mret outcome_ret].
  eexists. split; [done |]. cbn [trace_views zip zip_with]. constructor; [| exact Hus]. cbn [fst snd].
  rewrite (trace_views_length _ pi (bool_decide (p_instruction_addr pi ∈ seen)) eq_refl). split; [| by apply decoded_take].
  rewrite length_take. destruct Ha' as [-> _]. pose proof (inst_views_length pi). destruct (bool_decide _); rewrite ?length_fmap; unfold MAX_PUP; lia.
Qed.
Lemma table_ok_empty : table_ok [] ∅.
Proof. intros pi _. rewrite bool_decide_eq_false_2 by apply not_elem_of_nil. intros j _. apply lookup_empty. Qed.
Lemma first_dest_id v : (length (v_dests v) <= 1)%nat -> first_dest v = v.
Proof. intros H. unfold first_dest. rewrite take_ge by done. by destruct v. Qed.
Lemma trace_views_plain pis : Forall (fun pi => Forall (fun v => (length (v_dests v) <= 1)%nat) (inst_views pi)) pis ->
  forall seen, trace_views seen pis = inst_views <$> pis.
Proof.
  induction 1 as [| pi pis Hv _ IH]; intros seen; [done |]. cbn [trace_views]. rewrite IH. change (inst_views <$> pi :: pis) with (inst_views pi :: (inst_views <$> pis)). f_equal.
  destruct (bool_decide _); [| done]. rewrite <- (list_fmap_id (inst_views pi)) at 2. apply list_fmap_ext. intros j v Hj'. apply first_dest_id. exact (Forall_lookup_1 _ _ _ _ Hv Hj').
Qed.
End TRACE.

(** ** String operations *)

Section STRING.
Context (k : decoder_knobs) (junk : inst_info_s) (pi : trace_info_cpu_s) (Hpi : inst_ok pi) (Hamp : amp_val k pi = 1).
Abbreviation M := (REP_MOV_MEM_SIZE_MAX_NEW k).

(** How often a string operation is executed when [rest] bytes are left. *)
Definition rounds (rest : Z) : nat := Z.to_nat ((rest + M - 1) / M).
Definition round_offset (r : nat) : Z := M * Z.of_nat r * (if p_rep_dir pi then -1 else 1).
Definition rep_va (off : Z) (v : uview) : Z := if accesses v then u64 (ref_va pi v + off) else 0.

(** Micro-operation [j] of a repeated round. *)
Record repeated (j : nat) (v : uview) (off size : Z) (u : trace_uop_s) : Prop := {
  rp_addr : t_addr u = p_instruction_addr pi;
  rp_info : t_info u = Some (inst_key pi (Z.of_nat j));
  rp_eom : t_eom u = false;
  rp_va : d_va (t_dyn u) = rep_va off v;
  rp_size : d_mem_size (t_dyn u) = Z.min size M
}.

Lemma M_pos : 4 <= M.
Proof. unfold REP_MOV_MEM_SIZE_MAX_NEW. lia. Qed.
Lemma rounds_none rest : rest <= 0 -> rounds rest = O.
Proof. intros H. pose proof M_pos. unfold rounds. pose proof (Z.div_lt_upper_bound (rest + M - 1) M 1). lia. Qed.
Lemma rounds_more rest : 0 < rest -> rounds rest = S (rounds (rest - M)).
Proof.
  intros H. pose proof M_pos. unfold rounds. replace (rest + M - 1) with ((rest - M + M - 1) + 1 * M) by lia. rewrite Z.div_add by lia.
  pose proof (Z.div_pos (rest - M + M - 1) M). lia.
Qed.

Lemma convert_dyn_off i off u v : i_kind i = v_kind v -> i_second_mem i = v_second v -> d_va (t_dyn (convert_dyn_uop k i pi off u)) = rep_va off v.
Proof.
  intros Ek Es. unfold convert_dyn_uop, rep_va, accesses, ref_va. cbn [t_dyn set_npc set_dyn]. rewrite Hamp, Ek, Es, bool_decide_not.
  destruct (bool_decide (k_cf (v_kind v) = NOT_CF)); cbn [negb andb]; [| done].
  destruct (bool_decide _); cbn [orb]; [cbn [d_va]; rewrite Z.mul_1_r; by rewrite (u64_small (u64 _)) by apply u64_range |].
  destruct (is_load _); [| done]. cbn [d_va]. rewrite Z.mul_1_r. by rewrite (u64_small (u64 _)) by apply u64_range.
Qed.

Lemma repeat_uops_ok vs size off : (length vs <= 8)%nat -> forall n ii dyn a h, (ii + n = length vs)%nat -> (dyn + n <= Z.to_nat MAX_PUP)%nat -> array_ok a -> tabled pi vs h ->
  exists a' h', repeat_uops k junk pi n (Z.of_nat ii) size off (Z.of_nat dyn) a h = Done (a', h', Z.of_nat (dyn + n)) /\ array_ok a' /\ tabled pi vs h' /\
    (forall i, (i < dyn)%nat -> a' !! i = a !! i) /\
    (forall j v, vs !! (ii + j)%nat = Some v -> exists u, a' !! (dyn + j)%nat = Some u /\ repeated (ii + j) v off size u).
Proof.
  intros H8. induction n as [| n IH]; intros ii dyn a h Hn Hd Ha Ht.
  { exists a, h. rewrite Nat.add_0_r. do 4 (split; [done |]). intros j v Hv. apply lookup_lt_Some in Hv. lia. }
  cbn [repeat_uops]. destruct (lookup_lt_is_Some_2 vs ii) as [v Hv]; [lia |]. pose proof Ht as [H1 _]. destruct (H1 ii v Hv) as (i & Ei & Hc & Hia).
  unfold info_create. rewrite Ei. cbn [negb ASSERT mbind outcome_bind].
  match goal with |- context [upd_uop (Z.of_nat dyn) ?f a] => destruct (upd_array_ok dyn f a Ha) as (a1 & -> & Ha1 & Hl1); [lia | done |] end.
  cbn [mbind outcome_bind]. replace (Z.of_nat ii + 1) with (Z.of_nat (S ii)) by lia. replace (Z.of_nat dyn + 1) with (Z.of_nat (S dyn)) by lia.
  destruct (IH (S ii) (S dyn) a1 (<[inst_key pi (Z.of_nat ii) := set_marks false false i]> h)) as (a' & h' & E & Ha' & Ht' & Hlow & Hhigh); [lia | lia | done | |].
  { eapply tabled_insert; [done | done | intros w; apply cached_marks | done | done]. }
  exists a', h'. split; [rewrite E; do 3 f_equal; lia |]. split; [done |]. split; [done |]. split.
  - intros x Hx. rewrite Hlow, Hl1 by lia. rewrite (proj2 (Nat.eqb_neq _ _)) by lia. by destruct (a !! x).
  - intros [| j] w Hw.
    + rewrite Nat.add_0_r in Hw |- *. rewrite Hv in Hw. injection Hw as <-. rewrite Nat.add_0_r, Hlow, Hl1, Nat.eqb_refl by lia.
      destruct Ha as [Hl _]. destruct (lookup_lt_is_Some_2 a dyn) as [u Hu]; [lia |]. rewrite Hu. eexists. split; [done |]. split; try done.
      cbn [t_dyn set_addr set_eom set_info set_mem_size set_dyn d_va]. apply (convert_dyn_off (set_marks false false i)); apply Hc.
    + replace (ii + S j)%nat with (S ii + j)%nat in Hw |- * by lia. replace (dyn + S j)%nat with (S dyn + j)%nat by lia. by apply Hhigh.
Qed.

(** Rounds change the next address of what is in the array already, nothing else. *)
Definition but_npc (u u' : trace_uop_s) : Prop := exists a, u' = set_npc a u.
Lemma but_npc_refl u : but_npc u u.
Proof. exists (t_npc u). by destruct u. Qed.
Lemma but_npc_trans u u1 u2 : but_npc u u1 -> but_npc u1 u2 -> but_npc u u2.
Proof. intros [a ->] [b ->]. by exists b. Qed.
Lemma repeated_npc j v off size u u' : but_npc u u' -> repeated j v off size u -> repeated j v off size u'.
Proof. intros [a ->] H. by destruct H; split. Qed.

Lemma repeat_loop_ok vs : (0 < length vs < 8)%nat -> forall fuel rest r dyn a h,
  (Z.to_nat rest <= fuel)%nat -> (0 < dyn)%nat -> (dyn + rounds rest * length vs <= Z.to_nat MAX_PUP)%nat -> array_ok a -> tabled pi vs h ->
  exists a' h', repeat_loop k junk pi fuel (Z.of_nat (length vs)) rest (Z.of_nat r) (Z.of_nat dyn) a h = Done (a', h', Z.of_nat (dyn + rounds rest * length vs)) /\
    array_ok a' /\ tabled pi vs h' /\ (forall i u, (i < dyn)%nat -> a !! i = Some u -> exists u', a' !! i = Some u' /\ but_npc u u') /\
    (forall q j v, (q < rounds rest)%nat -> vs !! j = Some v ->
       exists u, a' !! (dyn + q * length vs + j)%nat = Some u /\ repeated j v (round_offset (r + q)) (rest - Z.of_nat q * M) u).
Proof.
  intros Hn. pose proof M_pos as HM. induction fuel as [| fuel IH]; intros rest r dyn a h Hfuel Hdyn Hmax Ha Ht.
  { rewrite rounds_none by lia. exists a, h. cbn [repeat_loop]. rewrite Nat.add_0_r. split; [done |]. split; [done |]. split; [done |]. split; [| lia].
    intros i u _ Hu. exists u. split; [done | apply but_npc_refl]. }
  cbn [repeat_loop]. destruct (Z.ltb_spec 0 rest) as [Hr | Hr]; cbn [negb andb].
  2: { rewrite rounds_none by lia. exists a, h. rewrite Nat.add_0_r. split; [done |]. split; [done |]. split; [done |]. split; [| lia].
    intros i u _ Hu. exists u. split; [done | apply but_npc_refl]. }
  rewrite (rounds_more rest Hr) in Hmax |- *. rewrite (proj2 (Z.ltb_lt _ _)) by (unfold MAX_PUP in *; lia). cbn [negb].
  destruct (upd_last_ok dyn (set_npc (p_instruction_addr pi)) a Ha) as (a1 & -> & Ha1 & Hl1); [lia | done |]. cbn [mbind outcome_bind].
  rewrite (proj2 (Z.ltb_lt _ 8)) by lia. cbn [ASSERT mbind outcome_bind]. rewrite Nat2Z.id.
  destruct (repeat_uops_ok vs rest (round_offset r) ltac:(lia) (length vs) 0 dyn a1 h) as (a2 & h2 & E2 & Ha2 & Ht2 & Hlow2 & Hhigh2); [lia | lia | done | done |].
  change (Z.of_nat 0) with 0 in E2. unfold round_offset in E2. rewrite E2. cbn [mbind outcome_bind]. replace (Z.of_nat r + 1) with (Z.of_nat (S r)) by lia.
  destruct (IH (rest - M) (S r) (dyn + length vs)%nat a2 h2) as (a' & h' & E & Ha' & Ht' & Hlow & Hhigh); [lia | lia | lia | done | done |].
  exists a', h'. split; [rewrite E; do 3 f_equal; lia |]. split; [done |]. split; [done |]. split.
  - intros i u Hi Hu. destruct (Hlow i ((if Nat.eqb (S i) dyn then set_npc (p_instruction_addr pi) else id) u)) as (u' & Eu' & Hb).
    { lia. } { by rewrite Hlow2, Hl1, Hu by lia. }
    exists u'. split; [done |]. eapply but_npc_trans; [| exact Hb]. destruct (Nat.eqb (S i) dyn); [by eexists | apply but_npc_refl].
  - intros [| q] j v Hq Hv.
    + destruct (Hhigh2 j v Hv) as (u & Eu & Hu). pose proof (lookup_lt_Some _ _ _ Hv). destruct (Hlow (dyn + j)%nat u) as (u' & Eu' & Hb); [lia | done |].
      exists u'. rewrite Nat.mul_0_l, !Nat.add_0_r. split; [done |]. eapply repeated_npc; [done |]. replace (rest - Z.of_nat 0 * M) with rest by lia. exact Hu.
    + destruct (Hhigh q j v) as (u & Eu & Hu); [lia | done |]. exists u. replace (dyn + S q * length vs + j)%nat with (dyn + length vs + q * length vs + j)%nat by lia.
      split; [done |]. replace (r + S q)%nat with (S r + q)%nat by lia. by replace (rest - Z.of_nat (S q) * M) with (rest - M - Z.of_nat q * M) by lia.
Qed.

(** What a string operation that was decoded leaves in the array. *)
Record string_array (vs : list uview) (a : uop_array) : Prop := {
  sa_first j v : vs !! j = Some v -> exists u, a !! j = Some u /\ view u = v /\ t_addr u = p_instruction_addr pi /\
    t_info u = Some (inst_key pi (Z.of_nat j)) /\ t_eom u = Nat.eqb (S j) (length vs) /\ dynamics k pi v u;
  sa_round q j v : (1 <= q < rounds (p_mem_read_size pi))%nat -> vs !! j = Some v -> exists u, a !! (q * length vs + j)%nat = Some u /\
    t_addr u = p_instruction_addr pi /\ t_info u = Some (inst_key pi (Z.of_nat j)) /\
    t_eom u = Nat.eqb (S (q * length vs + j)) (rounds (p_mem_read_size pi) * length vs) /\
    d_va (t_dyn u) = rep_va (round_offset q) v /\ d_mem_size (t_dyn u) = Z.min (p_mem_read_size pi - Z.of_nat q * M) M
}.

Lemma upd_end_ok n a (f := set_npc (p_instruction_next_addr pi) ∘ set_eom true) (g := set_rep (Z.of_nat n)) :
  array_ok a -> (0 < n <= Z.to_nat MAX_PUP)%nat -> exists a2 a3, upd_uop 0 g a = Done a2 /\ upd_uop (Z.of_nat n - 1) f a2 = Done a3 /\ array_ok a3 /\
    forall j, a3 !! j = (fun u => (if Nat.eqb (S j) n then f else id) ((if Nat.eqb j 0 then g else id) u)) <$> a !! j.
Proof.
  intros Ha Hn. destruct (upd_array_ok 0 g a Ha) as (a2 & E2 & Ha2 & Hl2); [lia | done |]. destruct (upd_last_ok n f a2 Ha2) as (a3 & E3 & Ha3 & Hl3); [lia | done |].
  exists a2, a3. split; [done |]. split; [done |]. split; [done |]. intros j. rewrite Hl3, Hl2. by destruct (a !! j).
Qed.

Lemma string_decoded vs a h a1 h1 : is_stringop (p_opcode pi) = true -> 0 < p_mem_read_size pi -> (0 < length vs < 8)%nat ->
  (rounds (p_mem_read_size pi) * length vs <= Z.to_nat MAX_PUP)%nat ->
  decode_inst k junk pi a h = Done (a1, h1, Z.of_nat (length vs)) -> array_ok a1 -> begun k pi vs a1 -> tabled pi vs h1 ->
  exists a' h', convert_pinuop_to_t_uop k junk pi a h = Done (a', h', Z.of_nat (rounds (p_mem_read_size pi) * length vs)) /\ array_ok a' /\ string_array vs a' /\ tabled pi vs h'.
Proof.
  intros Ho Hs Hn Hmax E Ha Hb Ht. pose proof Ht as [_ (i & Ei & En)]. unfold convert_pinuop_to_t_uop. rewrite E. cbn [mbind outcome_bind]. unfold repeat_inst. rewrite Ho.
  cbn [negb]. rewrite (proj2 (Z.eqb_neq _ 0)) by lia. unfold info_create. rewrite Ei. set (S0 := p_mem_read_size pi) in *. pose proof (rounds_more S0 Hs) as HR. rewrite HR in Hmax |- *.
  destruct (repeat_loop_ok vs Hn (Z.to_nat (S0 - M)) (S0 - M) 1 (length vs) a1 h1) as (a2 & h2 & E2 & Ha2 & Ht2 & Hlow & Hhigh); [lia | lia | lia | done | done |].
  change (Z.of_nat 1) with 1 in E2. rewrite E2. cbn [mbind outcome_bind mret outcome_ret]. replace (length vs + rounds (S0 - M) * length vs)%nat with (S (rounds (S0 - M)) * length vs)%nat by lia. rewrite <- HR in Hmax |- *.
  set (n := (rounds S0 * length vs)%nat) in *. destruct (upd_end_ok n a2 Ha2) as (a3 & a4 & -> & E4 & Ha4 & Hl4); [unfold n in *; lia |]. cbn [mbind outcome_bind mret outcome_ret].
  rewrite (proj2 (Z.eqb_neq (Z.of_nat n) 0)) by (unfold n; lia). cbn [ASSERT negb mbind outcome_bind]. rewrite E4. cbn [mbind outcome_bind].
  rewrite (proj2 (Z.ltb_lt 0 _)) by lia. cbn [ASSERT mbind outcome_bind]. pose proof Ht2 as [_ (i2 & Ei2 & _)]. rewrite Ei2. cbn [get_or mbind outcome_bind mret outcome_ret].
  eexists a4, _. split; [done |]. split; [done |]. split; [| apply tabled_end; [lia | done | done]]. split.
  - intros j v Hv. destruct (Hb j v Hv) as (u & Eu & V & Me & A & K & D & P). pose proof (lookup_lt_Some _ _ _ Hv). destruct (Hlow j u) as (u' & Eu' & [x ->]); [lia | done |].
    rewrite Hl4, Eu'. eexists. split; [done |]. destruct (Nat.eqb_spec (S j) n) as [Ej | _], (Nat.eqb j 0); cbn -[Nat.eqb]; (split_and!; try done);
      symmetry; apply Nat.eqb_eq; unfold n in *; nia.
  - intros q j v Hq Hv. destruct (Hhigh (q - 1)%nat j v) as (u & Eu & [A K Me D Z]); [fold S0 in Hq; lia | done |]. pose proof (lookup_lt_Some _ _ _ Hv).
    replace (length vs + (q - 1) * length vs + j)%nat with (q * length vs + j)%nat in Eu by nia. rewrite Hl4, Eu. eexists. split; [done |].
    replace (1 + (q - 1))%nat with q in D by lia. fold S0 n. replace (S0 - M - Z.of_nat (q - 1) * M) with (S0 - Z.of_nat q * M) in Z by nia.
    destruct (Nat.eqb_spec (q * length vs + j) 0) as [Eq | _]; [nia |]. destruct (Nat.eqb (S _) n); cbn -[Nat.eqb]; by split_and!.
Qed.
End STRING.

(** ** An example *)

Module DecoderExample.
Definition knobs : decoder_knobs := mk_decoder_knobs LATENCY_DEFAULT 1 false false ∅.
Definition junk : inst_info_s := mk_info 0 (mk_kind UOP_NOP NOT_MEM NOT_CF NOT_BAR) 0 0 0 (replicate 9 0) (replicate 6 0) 0 0 false false false.
Definition blank : trace_uop_s :=
  mk_tuop XED_CATEGORY_INVALID (mk_kind UOP_NOP NOT_MEM NOT_CF NOT_BAR) 0 0 (replicate 9 0) (replicate 6 0) false false false 0 false 0 0 (mk_dyn 0 0 false 0 0 0 0) None 0 0.
Definition array : uop_array := replicate 256 blank.
Definition pad (n : nat) (l : list Z) : list Z := l ++ replicate (n - length l) 0.
Definition inst (addr : Z) (op : CPU_OPCODE_ENUM) (srcs dsts : list Z) (ld : Z) (st : bool) (cf ld1 st1 size : Z) : trace_info_cpu_s :=
  mk_inst (Z.of_nat (length srcs)) (Z.of_nat (length dsts)) (pad 9 srcs) (pad 6 dsts) cf false op st false ld 4 ld1 0 st1 addr 0 size size false false (addr + 4).
(** [add \[mem\], reg], a multiplication with two results, a string operation. *)
Definition add_mem (va : Z) : trace_info_cpu_s := inst 4096 XED_CATEGORY_BINARY [3; 5] [7] 1 true 0 va va 4.
Definition mul : trace_info_cpu_s := inst 4100 TR_MUL [1; 2] [1; 3] 0 false 0 0 0 0.
Definition movs (size : Z) : trace_info_cpu_s := inst 4200 XED_CATEGORY_STRINGOP [6] [] 1 true 0 1000 2000 size.
Definition code (a : Z) : list uview := inst_views knobs (if a =? 4096 then add_mem 0 else if a =? 4100 then mul else movs 0).
Definition trace : list trace_info_cpu_s := [add_mem 512; mul; add_mem 520; mul].

Lemma array_is_ok : array_ok array.
Proof. split; [done |]. by apply Forall_replicate. Qed.
Lemma inst_is_ok addr op srcs dsts ld st cf ld1 st1 size : (length srcs <= 4)%nat -> (length dsts <= 5)%nat -> 0 <= cf -> is_u64 ld1 -> is_u64 st1 ->
  Forall (fun r => 0 <= r < 256) (srcs ++ dsts) -> inst_ok (inst addr op srcs dsts ld st cf ld1 st1 size).
Proof.
  intros Hs Hd Hc H1 H2 Hr. apply Forall_app in Hr as [Hr1 Hr2].
  assert (Hp : forall n l, Forall (fun r => 0 <= r < 256) l -> Forall (fun r => 0 <= r < 256) (pad n l)) by (intros n l Hl; apply Forall_app; split; [done |]; apply Forall_replicate; lia).
  split; cbn -[pad Z.of_nat]; unfold MAX_SRCS, MAX_DESTS; try lia; try (unfold pad; rewrite length_app, length_replicate; lia).
  - by split_and!.
  - apply Forall_app; split; by apply Hp.
Qed.
Lemma trace_is_ok : Forall (rec_ok knobs code) trace.
Proof.
  assert (H : forall va, is_u64 va -> rec_ok knobs code (add_mem va)).
  { intros va Hv. split; [| done | done | simpl; lia | done]. apply inst_is_ok; simpl; try lia; try done. repeat constructor; lia. }
  assert (H2 : rec_ok knobs code mul).
  { split; [| done | done | simpl; lia | done]. apply inst_is_ok; simpl; try lia; try done; try (unfold is_u64; lia). repeat constructor; lia. }
  unfold trace. repeat constructor; try done; apply H; unfold is_u64; lia.
Qed.
End DecoderExample.

(** ** Properties *)

(** C7: Take a trace of a program that does not change under it, whose
    records have their counts, register numbers and addresses within the
    arrays of the decoder, with no string operation (their rounds are a
    claim of their own) and no GPU record among them, and with the HMC fence
    option off. Decoding it, with the table of decoded instructions empty at
    first, succeeds and gives for every record the micro-operations it
    stands for, in order and with their registers: the loads, the operation,
    the store and the branch, chained by a temporary register where the load
    feeds another; each with the address it accesses, the last one marked
    and followed by the next record. From the second execution of an
    instruction on the table answers, and it keeps one destination per
    micro-operation only. *)
Theorem decode_trace_correct k junk code pis a :
  info_ok junk -> KNOB_ENABLE_HMC_FENCE k = false -> array_ok a -> Forall (rec_ok k code) pis ->
  exists us, decode_trace k junk pis a ∅ = Done us /\
    Forall2 (fun pv u => length u = length pv.2 /\ decoded k pv.1 pv.2 u) (zip pis (trace_views k [] pis)) us.
Proof. intros Hj Hf Ha Hk. eapply decode_trace_ok; [exact Hj | exact Hf | exact Hk | exact Ha | apply table_ok_empty]. Qed.
(** Witness: an addition to memory and a multiplication, each executed twice. *)
Lemma decode_trace_correct_witness : exists us, decode_trace DecoderExample.knobs DecoderExample.junk DecoderExample.trace DecoderExample.array ∅ = Done us /\
  Forall2 (fun pv u => length u = length pv.2 /\ decoded DecoderExample.knobs pv.1 pv.2 u)
    (zip DecoderExample.trace (trace_views DecoderExample.knobs [] DecoderExample.trace)) us.
Proof.
  apply (decode_trace_correct _ _ DecoderExample.code); [done | done | apply DecoderExample.array_is_ok | apply DecoderExample.trace_is_ok].
Defined.

(** The table is not observable for a program whose micro-operations write one
    register at most: every execution of an instruction decodes to the
    micro-operations the instruction stands for. *)
Theorem decode_cache_transparent k junk code pis a :
  info_ok junk -> KNOB_ENABLE_HMC_FENCE k = false -> array_ok a -> Forall (rec_ok k code) pis ->
  Forall (fun pi => Forall (fun v => (length (v_dests v) <= 1)%nat) (inst_views k pi)) pis ->
  exists us, decode_trace k junk pis a ∅ = Done us /\ Forall2 (fun pi u => length u = length (inst_views k pi) /\ decoded k pi (inst_views k pi) u) pis us.
Proof.
  intros Hj Hf Ha Hk Hd. destruct (decode_trace_ok k junk code Hj Hf pis Hk [] a ∅ Ha (table_ok_empty k code)) as (us & E & Hus).
  exists us. split; [done |]. rewrite (trace_views_plain k pis Hd) in Hus. clear - Hus. revert us Hus. induction pis as [| pi pis IH]; intros us Hus; inversion Hus; constructor; [done | by apply IH].
Qed.
(** Witness: an addition to memory, executed twice. *)
Lemma decode_cache_transparent_witness : exists us,
  decode_trace DecoderExample.knobs DecoderExample.junk [DecoderExample.add_mem 512; DecoderExample.add_mem 520] DecoderExample.array ∅ = Done us /\
  Forall2 (fun pi u => length u = length (inst_views DecoderExample.knobs pi) /\ decoded DecoderExample.knobs pi (inst_views DecoderExample.knobs pi) u)
    [DecoderExample.add_mem 512; DecoderExample.add_mem 520] us.
Proof.
  apply (decode_cache_transparent _ _ DecoderExample.code); [done | done | apply DecoderExample.array_is_ok | |].
  - pose proof DecoderExample.trace_is_ok as H. inversion H as [| ? ? H1 H2]; subst. inversion H2 as [| ? ? _ H3]; subst. inversion H3; subst. by repeat constructor.
  - repeat constructor; simpl; lia.
Defined.

(** The second destination of a multiplication is lost when it is executed again. *)
Theorem second_dest_lost : exists u1 u2, decode_trace DecoderExample.knobs DecoderExample.junk [DecoderExample.mul; DecoderExample.mul] DecoderExample.array ∅ = Done [[u1]; [u2]] /\
  v_dests (view u1) = [1; 3] /\ v_dests (view u2) = [1].
Proof. eexists _, _. split; [vm_compute; reflexivity |]. split; reflexivity. Qed.

(** C27: A string operation of [S] bytes that is decoded for the first time becomes
    [ceil(S / M)] rounds of its micro-operations, and decoding ends whenever they
    fit into the array. The rounds access the consecutive pieces of the string,
    up or down, and the sizes of the last round are what is left. The mark of the
    last micro-operation is not taken back from the first round, so it is set in two
    places when there is more than one round. *)
Theorem string_op_rounds k junk pi a h :
  inst_ok pi -> is_stringop (p_opcode pi) = true -> KNOB_MEM_SIZE_AMP k = 1 -> info_ok junk -> KNOB_ENABLE_HMC_FENCE k = false -> array_ok a ->
  (forall j, 0 <= j < 8 -> h !! inst_key pi j = None) -> 0 < p_mem_read_size pi ->
  (rounds k (p_mem_read_size pi) * length (inst_views k pi) <= Z.to_nat MAX_PUP)%nat ->
  exists a' h', convert_pinuop_to_t_uop k junk pi a h = Done (a', h', Z.of_nat (rounds k (p_mem_read_size pi) * length (inst_views k pi))) /\
    string_array k pi (inst_views k pi) a' /\ tabled pi (inst_views k pi) h'.
Proof.
  intros Hpi Ho Hk Hj Hf Ha Hnew Hs Hmax. assert (Hamp : amp_val k pi = 1) by (unfold amp_val; by rewrite Ho). pose proof (inst_views_length k pi) as Hn.
  assert (Hg : p_opcode pi <> GPU_EN) by (intros E; by rewrite E in Ho).
  destruct (decode_new_begun k junk pi Hpi Hamp Hj _ a h Ha Hnew Hf (fun _ => alu_type_ok k pi Hg)) as (a1 & h1 & E & Ha1 & Hb & Ht & _).
  destruct (string_decoded k junk pi Hamp (inst_views k pi) a h a1 h1) as (a' & h' & E' & _ & Hsa & Ht'); [done | done | lia | done | done | done | done | done |]. by exists a', h'.
Qed.
(** Witness: ten bytes moved in three rounds of a load and a store. *)
Lemma string_op_rounds_witness : exists a' h',
  convert_pinuop_to_t_uop DecoderExample.knobs DecoderExample.junk (DecoderExample.movs 10) DecoderExample.array ∅ = Done (a', h', 6) /\
  string_array DecoderExample.knobs (DecoderExample.movs 10) (inst_views DecoderExample.knobs (DecoderExample.movs 10)) a' /\
  tabled (DecoderExample.movs 10) (inst_views DecoderExample.knobs (DecoderExample.movs 10)) h'.
Proof.
  apply (string_op_rounds DecoderExample.knobs DecoderExample.junk (DecoderExample.movs 10) DecoderExample.array ∅); try done.
  - apply DecoderExample.inst_is_ok; simpl; try lia; try done. repeat constructor; lia.
  - apply DecoderExample.array_is_ok.
  - vm_compute. lia.
Defined.

(** Ten bytes: the first round ends with the mark of the last micro-operation, and the
    registers of the second round are what the array held. *)
Theorem string_marked_early : exists a h u1 u2,
  convert_pinuop_to_t_uop DecoderExample.knobs DecoderExample.junk (DecoderExample.movs 10) DecoderExample.array ∅ = Done (a, h, 6) /\
  a !! 1%nat = Some u1 /\ t_eom u1 = true /\ a !! 2%nat = Some u2 /\ v_srcs (view u2) = [] /\
  (v_srcs <$> inst_views DecoderExample.knobs (DecoderExample.movs 10)) !! 0%nat = Some [6].
Proof. eexists _, _, _, _. split; [vm_compute; reflexivity |]. repeat (split; [reflexivity |]). reflexivity. Qed.
(** A string operation of length zero leaves a no-operation in the table: the next
    execution, of four bytes, is a no-operation as well. *)
Theorem string_zero_poisons : exists u1 u2,
  decode_trace DecoderExample.knobs DecoderExample.junk [DecoderExample.movs 0; DecoderExample.movs 4] DecoderExample.array ∅ = Done [[u1]; [u2]] /\
  k_op (t_kind u2) = UOP_NOP /\ k_mem (t_kind u2) = NOT_MEM.
Proof. eexists _, _. split; [vm_compute; reflexivity |]. split; reflexivity. Qed.
(** Two fences around three micro-operations: the check of the counter is made once a
    round, and the last round is written behind the array. *)
Theorem string_fences_overflow :
  convert_pinuop_to_t_uop (mk_decoder_knobs LATENCY_DEFAULT 1 true true {[4200]}) DecoderExample.junk
    (DecoderExample.inst 4200 XED_CATEGORY_STRINGOP [6] [7] 1 true 0 1000 2000 255) DecoderExample.array ∅ = Fault OutOfBounds.
Proof. vm_compute. reflexivity. Qed.
