(* ===== verification/TraceRead.v ===== *)
(** * Reading x86 traces (trace_read.cc, trace_read_cpu.cc)

    A thread reads its trace in chunks and always holds one record ahead, since the
    next address of an instruction is the address of the following record.
    [get_uops_from_traces] hands out one micro-operation per call: at the beginning
    of an instruction it reads and decodes, otherwise it takes the next object of
    the array. The file is the list of its records. What the process manager does
    when a thread is created is recorded as a list of calls. *)

From S2P Require Import Prelude.
From S2P Require Import Rob.
From S2P Require Import Uops.
From S2P Require Import Map.
From S2P Require Import PageMapping.
From S2P Require Import CpuOpcodes.
From S2P Require Import TraceCpu.

Definition k_trace_buffer_size : Z := 1000.
Definition MAX_DST_NUM : Z := 6.
Definition HMC_NONE : Z := 0.
Definition HMC_CANDIDATE : Z := 20.
Definition UINT_MAX : Z := 2 ^ 32 - 1.

(** ** State *)

Record trace_io := mk_io {
  m_trace_file : list trace_info_cpu_s;      (* what is left of the file *)
  m_buffer : list trace_info_cpu_s;
  m_buffer_index : Z;
  m_buffer_index_max : Z;
  m_buffer_exhausted : bool;
  m_trace_ended : bool
}.
Record trace_insts := mk_insts {
  m_prev_trace_info : trace_info_cpu_s;
  m_next_trace_info : trace_info_cpu_s;
  m_prev_hmc_type : Z;
  m_next_hmc_type : Z;
  m_inside_hmc_func : bool;
  m_next_hmc_func_ret : Z
}.
Record trace_seq := mk_seq {
  m_bom : bool;
  m_eom : bool;
  m_num_sending_uop : Z;
  m_temp_inst_count : Z;
  m_temp_uop_count : Z;
  m_trace_uop_array : uop_array
}.
Record thread_s := mk_thread { io : trace_io; insts : trace_insts; seq : trace_seq; m_thread_init : bool; m_main_thread : bool; m_inst_count : Z }.

Record process_s := mk_process {
  m_process_id : Z;
  m_no_of_threads : Z;
  m_no_of_threads_created : Z;
  m_thread_start_info : list Z;
  m_hmc_info : gmap Z Z;                     (* the return address of a function *)
  m_inst_info_hash : inst_table;
  create_thread_calls : list Z
}.
Record core_s := mk_core {
  m_running_thread_num : Z;
  m_thread_finished : gmap Z bool;
  m_fetch_ended : gmap Z bool;
  m_inst_fetched : gmap Z Z;
  m_max_inst_fetched : Z;
  m_fetching_thread_num : Z;
  m_unique_uop_num : Z
}.
Inductive page_mapper := no_mapper | fcfs_mapper (n : numbering) | region_mapper (m : PageMapping.region_mapper).
Record reader := mk_reader { core : core_s; process : process_s; thread : thread_s; m_page_mapper : page_mapper; m_gpu_paused : bool }.

(** The fields of a micro-operation that are filled in here. *)
Record new_uop := mk_new {
  n_isitBOM : bool; n_isitEOM : bool; n_last_uop : bool;
  n_unique_num : Z; n_uop_num : Z; n_inst_num : Z; n_thread_id : Z;
  n_opcode : CPU_OPCODE_ENUM; n_kind : kind_s;
  n_pc : Z; n_npc : Z; n_dir : bool; n_target_addr : Z;
  n_active_mask : Z; n_taken_mask : Z; n_reconverge_addr : Z;
  n_hmc_inst : Z; n_vaddr : Z; n_mem_size : Z;
  n_src_info : list Z; n_dest_info : list Z
}.

Record read_knobs := mk_read_knobs {
  rk_decoder : decoder_knobs;
  KNOB_MAX_INSTS : Z;
  KNOB_ENABLE_HMC_INST_SKIP : bool;
  KNOB_MAX_TRANSACTION_SIZE : Z;
  KNOB_PAGE_SIZE : Z;
  KNOB_REGION_SIZE : Z;
  m_line_size : Z
}.

Definition with_io (i : trace_io) (t : thread_s) : thread_s := mk_thread i (insts t) (seq t) (m_thread_init t) (m_main_thread t) (m_inst_count t).
Definition with_insts (i : trace_insts) (t : thread_s) : thread_s := mk_thread (io t) i (seq t) (m_thread_init t) (m_main_thread t) (m_inst_count t).
Definition with_seq (q : trace_seq) (t : thread_s) : thread_s := mk_thread (io t) (insts t) q (m_thread_init t) (m_main_thread t) (m_inst_count t).
Definition with_thread (t : thread_s) (r : reader) : reader := mk_reader (core r) (process r) t (m_page_mapper r) (m_gpu_paused r).
Definition with_core (c : core_s) (r : reader) : reader := mk_reader c (process r) (thread r) (m_page_mapper r) (m_gpu_paused r).
Definition with_process (p : process_s) (r : reader) : reader := mk_reader (core r) p (thread r) (m_page_mapper r) (m_gpu_paused r).
Definition with_table (h : inst_table) (p : process_s) : process_s :=
  mk_process (m_process_id p) (m_no_of_threads p) (m_no_of_threads_created p) (m_thread_start_info p) (m_hmc_info p) h (create_thread_calls p).
Definition set_ended (b : bool) (i : trace_io) : trace_io :=
  mk_io (m_trace_file i) (m_buffer i) (m_buffer_index i) (m_buffer_index_max i) (m_buffer_exhausted i) b.
Definition set_next (x : trace_info_cpu_s) (i : trace_insts) : trace_insts :=
  mk_insts (m_prev_trace_info i) x (m_prev_hmc_type i) (m_next_hmc_type i) (m_inside_hmc_func i) (m_next_hmc_func_ret i).
Definition set_next_addr (a : Z) (pi : trace_info_cpu_s) : trace_info_cpu_s :=
  mk_inst (p_num_read_regs pi) (p_num_dest_regs pi) (p_src pi) (p_dst pi) (p_cf_type pi) (p_has_immediate pi) (p_opcode pi) (p_has_st pi) (p_is_fp pi)
    (p_num_ld pi) (p_size pi) (p_ld_vaddr1 pi) (p_ld_vaddr2 pi) (p_st_vaddr pi) (p_instruction_addr pi) (p_branch_target pi) (p_mem_read_size pi)
    (p_mem_write_size pi) (p_rep_dir pi) (p_actually_taken pi) a.
Definition end_trace (r : reader) : reader := with_thread (with_io (set_ended true (io (thread r))) (thread r)) r.
Definition count_inst (tid : Z) (c : core_s) : core_s :=
  mk_core (m_running_thread_num c) (m_thread_finished c) (m_fetch_ended c) (<[tid := default 0 (m_inst_fetched c !! tid) + 1]> (m_inst_fetched c))
    (m_max_inst_fetched c) (m_fetching_thread_num c) (m_unique_uop_num c).

Section READER.
Context (k : read_knobs) (junk : inst_info_s) (tid : Z).

(** ** Records *)

(** The first record of a thread. *)
Definition setup_trace (r : reader) : reader :=
  if m_running_thread_num (core r) =? 0 then r else
  match m_trace_file (io (thread r)) with
  | [] => r
  | x :: file =>
      let i := io (thread r) in
      let n := insts (thread r) in
      with_thread (with_insts (mk_insts x (m_next_trace_info n) (m_prev_hmc_type n) (m_next_hmc_type n) (m_inside_hmc_func n) (m_next_hmc_func_ret n))
        (with_io (mk_io file (m_buffer i) (m_buffer_index i) (m_buffer_index_max i) (m_buffer_exhausted i) (m_trace_ended i)) (thread r))) r
  end.

(** A chunk of the file goes to the front of the buffer. *)
Definition fill_buffer (i : trace_io) : trace_io :=
  if negb (m_buffer_index i =? 0) then i else
  let n := Nat.min (Z.to_nat k_trace_buffer_size) (length (m_trace_file i)) in
  mk_io (drop n (m_trace_file i)) (take n (m_trace_file i) ++ drop n (m_buffer i)) (m_buffer_index i) (Z.of_nat n) false (m_trace_ended i).
(** The next record of the buffer, and whether it counts as read. *)
Definition next_record (i : trace_io) : outcome (trace_io * trace_info_cpu_s * bool) :=
  let i1 := fill_buffer i in
  x ← aget (m_buffer i1) (m_buffer_index i1);
  let index := (m_buffer_index i1 + 1) mod k_trace_buffer_size in
  mret (mk_io (m_trace_file i1) (m_buffer i1) index (m_buffer_index_max i1) (if index =? 0 then true else m_buffer_exhausted i1) (m_trace_ended i1),
        x, index <? m_buffer_index_max i1).

(** The condition looks at the start of the first thread to create, also when it has
    been created. *)
Fixpoint create_threads (n : nat) (no_created_thread inst_count : Z) (p : process_s) : outcome process_s :=
  if negb (m_no_of_threads_created p <? m_no_of_threads p) then mret p else
  start ← aget (m_thread_start_info p) no_created_thread;
  if negb ((inst_count =? start) || (start =? 0)) then mret p else
  match n with
  | O => Fault Diverged
  | S n' =>
      create_threads n' no_created_thread inst_count
        (mk_process (m_process_id p) (m_no_of_threads p) (m_no_of_threads_created p + 1) (m_thread_start_info p) (m_hmc_info p) (m_inst_info_hash p)
           (create_thread_calls p ++ [m_no_of_threads_created p]))
  end.
Definition start_threads (r : reader) : outcome reader :=
  let t := thread r in
  if negb (m_main_thread t) then mret r else
  let count := u64 (m_inst_count t + 1) in
  let p := process r in
  p' ← create_threads (Z.to_nat (m_no_of_threads p - m_no_of_threads_created p)) (m_no_of_threads_created p) count p;
  mret (with_process p' (with_thread (mk_thread (io t) (insts t) (seq t) (m_thread_init t) (m_main_thread t) count) r)).

(** The result and [inst_read]; [n] bounds the turns of the loop. *)
Fixpoint read_loop (n : nat) (r : reader) : outcome (reader * bool * bool) :=
  match n with
  | O => Fault Diverged
  | S n' =>
      if negb (negb (m_running_thread_num (core r) =? 0) && negb (m_trace_ended (io (thread r)))) then mret (r, true, false) else
      '(i, x, ok) ← next_record (io (thread r));
      let t1 := with_insts (set_next x (insts (thread r))) (with_io i (thread r)) in
      r2 ← start_threads (with_thread t1 r);
      if ok : bool then mret (r2, true, true) else
      if negb (default false (m_thread_finished (core r2) !! tid)) then read_loop n' (end_trace r2) else mret (r2, false, false)
  end.
Definition read_trace (r : reader) : outcome (reader * bool * bool) := read_loop 2 r.

(** ** Instructions *)

Fixpoint mark_hmc (n : nat) (i hmc : Z) (a : uop_array) : outcome uop_array :=
  match n with
  | O => mret a
  | S n' => a' ← upd_uop i (set_hmc hmc) a; mark_hmc n' (i + 1) hmc a'
  end.
(** The key of the instruction's first entry. *)
Definition get_inst_info (r : reader) : outcome (reader * Z) :=
  let t := thread r in
  let n := insts t in
  let pi := set_next_addr (p_instruction_addr (m_next_trace_info n)) (m_prev_trace_info n) in
  let n' := mk_insts (m_next_trace_info n) (m_next_trace_info n) (m_next_hmc_type n) (m_next_hmc_type n) (m_inside_hmc_func n) (m_next_hmc_func_ret n) in
  '(a, h, _) ← convert_pinuop_to_t_uop (rk_decoder k) junk pi (m_trace_uop_array (seq t)) (m_inst_info_hash (process r));
  info ← get_or NullDeref (h !! inst_key pi 0);
  a' ← mark_hmc (Z.to_nat (i_num_uop info)) 0 (m_prev_hmc_type n) a;
  let q := seq t in
  mret (with_process (with_table h (process r))
          (with_thread (with_seq (mk_seq (m_bom q) (m_eom q) (m_num_sending_uop q) (m_temp_inst_count q) (m_temp_uop_count q) a') (with_insts n' t)) r),
        inst_key pi 0).

(** Reading on to the return address of an offloaded function; [n] bounds the turns. *)
Fixpoint skip_function (n : nat) (ret_pc : Z) (r : reader) : outcome (reader * bool * bool) :=
  match n with
  | O => Fault Diverged
  | S n' =>
      '(r1, ok, inst_read) ← read_trace r;
      let r2 := with_core (count_inst tid (core r1)) r1 in
      if negb ok then mret (r2, ok, inst_read) else
      if p_instruction_addr (m_next_trace_info (insts (thread r2))) =? ret_pc then mret (r2, ok, inst_read) else skip_function n' ret_pc r2
  end.
Definition mark_function (r : reader) : reader :=
  let t := thread r in
  let n := insts t in
  let addr := p_instruction_addr (m_next_trace_info n) in
  let '(inside, ret) :=
    if negb (m_inside_hmc_func n) then match m_hmc_info (process r) !! addr with Some pc => (true, pc) | None => (false, m_next_hmc_func_ret n) end
    else (negb (addr =? m_next_hmc_func_ret n), m_next_hmc_func_ret n) in
  with_thread (with_insts (mk_insts (m_prev_trace_info n) (m_next_trace_info n) (m_prev_hmc_type n) (if inside : bool then HMC_CANDIDATE else HMC_NONE) inside ret) t) r.
Definition read_next (fuel : nat) (r : reader) : outcome (reader * bool * bool) :=
  if negb (default 0 (m_inst_fetched (core r) !! tid) <? KNOB_MAX_INSTS k) then mret (end_trace r, true, false) else
  '(r1, ok, inst_read) ← read_trace r;
  '(r2, ok2, inst_read2) ←
    (match (if KNOB_ENABLE_HMC_INST_SKIP k then m_hmc_info (process r1) !! p_instruction_addr (m_next_trace_info (insts (thread r1))) else None) with
     | Some ret_pc => skip_function fuel ret_pc r1
     | None => mret (r1, ok, inst_read)
     end);
  mret (mark_function r2, ok2, inst_read2).

(** ** Micro-operations *)

(** The object to hand out and the key of its entry; [None] when reading failed. *)
Definition first_uop (fuel : nat) (r : reader) : outcome (reader * option (trace_uop_s * Z * bool)) :=
  '(r1, ok, inst_read) ← read_next fuel r;
  if negb ok then mret (r1, None) else
  '(r2, key) ← get_inst_info r1;
  let r3 := if inst_read : bool then
      let c := count_inst tid (core r2) in
      let n := default 0 (m_inst_fetched c !! tid) in
      with_core (mk_core (m_running_thread_num c) (m_thread_finished c) (m_fetch_ended c) (m_inst_fetched c)
        (if m_max_inst_fetched c <? n then n else m_max_inst_fetched c) (m_fetching_thread_num c) (m_unique_uop_num c)) r2
    else r2 in
  let q := seq (thread r3) in
  u ← aget (m_trace_uop_array q) 0;
  info ← get_or NullDeref (m_inst_info_hash (process r3) !! key);
  _ ← ASSERT (0 <? i_num_uop info);
  mret (with_thread (with_seq (mk_seq false (t_eom u) 1 (m_temp_inst_count q) (m_temp_uop_count q) (m_trace_uop_array q)) (thread r3)) r3, Some (u, key, true)).
Definition further_uop (r : reader) : outcome (reader * option (trace_uop_s * Z * bool)) :=
  let q := seq (thread r) in
  u ← aget (m_trace_uop_array q) (m_num_sending_uop q);
  key ← get_or NullDeref (t_info u);
  info ← get_or NullDeref (m_inst_info_hash (process r) !! key);
  mret (with_process (with_table (<[key := set_marks false (i_eom info) info]> (m_inst_info_hash (process r))) (process r))
          (with_thread (with_seq (mk_seq (m_bom q) (t_eom u) (m_num_sending_uop q + 1) (m_temp_inst_count q) (m_temp_uop_count q) (m_trace_uop_array q)) (thread r)) r),
        Some (u, key, false)).

(** The address space of a process starts at its own base. *)
Definition base_addr (addr : Z) : Z := Z.land addr (u64 (- m_line_size k)).
Definition map_page (addr : Z) (m : page_mapper) : page_mapper * Z :=
  match m with
  | no_mapper => (m, addr)
  | fcfs_mapper n => let '(n', a) := fcfs_translate (KNOB_PAGE_SIZE k) addr n in (fcfs_mapper n', a)
  | region_mapper n => let '(n', a) := region_translate (KNOB_PAGE_SIZE k) (KNOB_REGION_SIZE k) addr n in (region_mapper n', a)
  end.
Definition uop_vaddr (va : Z) (r : reader) : page_mapper * Z :=
  if va =? 0 then (m_page_mapper r, 0)
  else map_page (u64 (va + base_addr (u64 (UINT_MAX * m_process_id (process r) * 10)))) (m_page_mapper r).

(** The end of an instruction, and of a thread. *)
Definition end_of_inst (r : reader) : reader * bool :=
  let t := thread r in
  let q := seq t in
  let r1 := with_thread (with_seq (mk_seq (m_eom q) (m_eom q) (m_num_sending_uop q) (m_temp_inst_count q) (m_temp_uop_count q) (m_trace_uop_array q)) t) r in
  let last := m_trace_ended (io t) && m_eom q in
  let c := core r1 in
  (if last then with_core (mk_core (m_running_thread_num c) (m_thread_finished c) (<[tid := true]> (m_fetch_ended c)) (m_inst_fetched c) (m_max_inst_fetched c)
                             (m_fetching_thread_num c - 1) (m_unique_uop_num c)) r1 else r1, last).

Definition fill_uop (u : trace_uop_s) (key : Z) (bom last : bool) (x : new_uop) (r : reader) : outcome (reader * new_uop) :=
  info ← get_or NullDeref (m_inst_info_hash (process r) !! key);
  let d := t_dyn u in
  let cf := negb (bool_decide (k_cf (i_kind info) = NOT_CF)) in
  let '(mapper, vaddr) := uop_vaddr (d_va d) r in
  _ ← (if bool_decide (k_mem (i_kind info) = NOT_MEM) then mret tt
       else ASSERT (0 <? (d_mem_size d + KNOB_MAX_TRANSACTION_SIZE k - 1) `quot` KNOB_MAX_TRANSACTION_SIZE k));
  let t := thread r in
  let q := seq t in
  let inst_num := if bom : bool then m_temp_inst_count q + 1 else m_temp_inst_count q in
  _ ← ASSERT (t_num_dest_regs u <? MAX_DST_NUM);
  _ ← ASSERT (t_num_src_regs u <? MAX_SRCS);
  _ ← ASSERT (forallb (fun r => r <? NUM_REG_IDS) (take (Z.to_nat (t_num_dest_regs u)) (t_dests u)));
  mret (mk_reader (core r) (process r)
          (with_seq (mk_seq (m_bom q) (m_eom q) (m_num_sending_uop q) inst_num (m_temp_uop_count q + 1) (m_trace_uop_array q)) t) mapper
          (match t_opcode u with GPU_EN => false | _ => m_gpu_paused r end),
        mk_new bom (m_eom q) (last || n_last_uop x) (m_unique_uop_num (core r)) (m_temp_uop_count q) inst_num tid
          (t_opcode u) (mk_kind (k_op (i_kind info)) (k_mem (i_kind info)) (k_cf (i_kind info)) (k_bar (t_kind u)))
          (i_addr info) (t_npc u) (d_actual_taken d) (if cf then d_target d else n_target_addr x)
          (d_active_mask d) (if cf then d_taken_mask d else n_taken_mask x) (if cf then d_reconverge_addr d else n_reconverge_addr x)
          (t_hmc_inst u) vaddr (d_mem_size d)
          (take (Z.to_nat (t_num_src_regs u)) (t_srcs u)) (take (Z.to_nat (t_num_dest_regs u)) (t_dests u))).

Definition hand_out (u : trace_uop_s) (key : Z) (bom : bool) (x : new_uop) (r : reader) : outcome (reader * option new_uop) :=
  let c := core r in
  let r1 := with_core (mk_core (m_running_thread_num c) (m_thread_finished c) (m_fetch_ended c) (m_inst_fetched c) (m_max_inst_fetched c)
              (m_fetching_thread_num c) (m_unique_uop_num c + 1)) r in
  let '(r2, last) := end_of_inst r1 in
  '(r3, x') ← fill_uop u key bom last x r2;
  mret (r3, Some x').
Definition get_uops_from_traces (fuel : nat) (x : new_uop) (r : reader) : outcome (reader * option new_uop) :=
  if default false (m_fetch_ended (core r) !! tid) then mret (r, None) else
  let t := thread r in
  let r0 := with_thread (mk_thread (io t) (insts t) (seq t) false (m_main_thread t) (m_inst_count t)) r in
  '(r1, ou) ← (if m_bom (seq t) then first_uop fuel r0 else further_uop r0);
  match ou with
  | None => mret (r1, None)
  | Some (u, key, bom) => hand_out u key bom x r1
  end.
End READER.
