(* ===== verification/TraceStream.v ===== *)
(** * What a trace delivers

    The chunked reading of a trace is a list of records to come; whether the very
    last record is executed depends on the length of the file. Calls of
    [get_uops_from_traces] then deliver the micro-operations of the records, one by
    one and in order, until the thread ends. *)

From S2P Require Import Prelude.
From S2P Require Import Rob.
From S2P Require Import Uops.
From S2P Require Import Map.
From S2P Require Import PageMapping.
From S2P Require Import CpuOpcodes.
From S2P Require Import TraceCpu.
From S2P Require Import TraceDecode.
From S2P Require Import TraceRead.

(** ** Records to come *)

Abbreviation K := k_trace_buffer_size.
(** Records of the file that were not handed out yet. *)
Definition unread (i : trace_io) : list trace_info_cpu_s :=
  (if m_buffer_index i =? 0 then [] else take (Z.to_nat (m_buffer_index_max i - m_buffer_index i)) (drop (Z.to_nat (m_buffer_index i)) (m_buffer i))) ++ m_trace_file i.
(** The last record of the file is not executed, unless it ends a full chunk. *)
Definition cut (index : Z) (l : list trace_info_cpu_s) : list trace_info_cpu_s :=
  if (Z.of_nat (length l) + index) mod K =? 0 then l else removelast l.
Definition coming (i : trace_io) : list trace_info_cpu_s := cut (m_buffer_index i) (unread i).

Record io_ok (i : trace_io) : Prop := {
  ik_length : length (m_buffer i) = Z.to_nat K;
  ik_index : 0 <= m_buffer_index i < K;
  ik_max : m_buffer_index i <> 0 -> m_buffer_index i < m_buffer_index_max i <= K;
  ik_last : m_buffer_index i <> 0 -> m_buffer_index_max i < K -> m_trace_file i = [];
  ik_live : m_trace_ended i = false
}.

Lemma cut_cons index x l : 0 <= index < K -> l <> [] \/ index + 1 = K -> cut index (x :: l) = x :: cut ((index + 1) mod K) l.
Proof.
  intros Hi Hl. unfold cut, K in *. simpl length. rewrite Nat2Z.inj_succ.
  assert (E : (Z.succ (Z.of_nat (length l)) + index) mod 1000 = (Z.of_nat (length l) + (index + 1) mod 1000) mod 1000).
  { rewrite Z.add_mod_idemp_r by lia. f_equal. lia. }
  rewrite E. destruct (_ =? 0) eqn:E0; [done |]. destruct l as [| y l]; [| done]. destruct Hl as [| Hl]; [done |]. by rewrite Hl in E0.
Qed.
Lemma cut_last index x : 0 <= index -> index + 1 < K -> cut index [x] = [].
Proof. intros H1 H2. unfold cut. simpl length. unfold K in *. rewrite Z.mod_small by lia. by rewrite (proj2 (Z.eqb_neq _ _)) by lia. Qed.
Lemma cut_nil index : cut index [] = [].
Proof. unfold cut. by destruct (_ =? 0). Qed.

(** One record is taken; [false] says that it is not to be executed. *)
Lemma next_record_ok i : io_ok i -> exists i' x ok, next_record i = Done (i', x, ok) /\ m_trace_ended i' = false /\
  match coming i with
  | [] => ok = false
  | y :: rest => ok = true /\ x = y /\ io_ok i' /\ coming i' = rest
  end.
Proof.
  intros [Hl Hi Hm He Hd]. unfold next_record, fill_buffer, coming, unread. destruct (Z.eqb_spec (m_buffer_index i) 0) as [E0 | E0]; cbn [negb].
  - rewrite E0. cbn [m_trace_file m_buffer m_buffer_index m_buffer_index_max m_buffer_exhausted m_trace_ended app]. set (f := m_trace_file i).
    set (n := (Z.to_nat K `min` length f)%nat). change ((0 + 1) mod K) with 1. cbn [Z.eqb].
    destruct (aget_in_range (take n f ++ drop n (m_buffer i)) 0) as (x & Hx & ->); [rewrite length_app, length_take, length_drop, Hl; unfold n, K in *; lia |].
    cbn [mbind outcome_bind mret outcome_ret]. eexists _, _, _. split; [done |]. split; [done |]. destruct f as [| y f'] eqn:Ef; [by rewrite cut_nil |].
    assert (Hn : (1 <= n)%nat) by (unfold n; simpl; unfold K; lia). assert (x = y) as ->.
    { change (Z.to_nat 0) with 0%nat in Hx. rewrite lookup_app_l in Hx by (rewrite length_take; cbn [length]; lia). rewrite lookup_take_lt in Hx by lia. by injection Hx. }
    destruct (Nat.eq_dec n 1) as [E1 | E1].
    + assert (f' = []) as -> by (destruct f'; [done | unfold n, K in E1; simpl in E1; lia]). rewrite cut_last by (unfold K; lia). by rewrite E1.
    + assert (Hf' : f' <> []) by (intros ->; unfold n, K in E1; simpl in E1; lia). rewrite cut_cons by (auto; unfold K; lia).
      change ((0 + 1) mod K) with 1. split; [apply Z.ltb_lt; lia |]. split; [done |]. split.
      * split; cbn [m_buffer m_buffer_index m_buffer_index_max m_trace_file m_trace_ended]; [| unfold K; lia | unfold n, K; lia | | done]; [| intros _ Hlt; apply drop_ge; unfold n in *; cbn [length] in *; lia].
        rewrite length_app, length_take, length_drop, Hl. unfold n. lia.
      * cbn [m_buffer m_buffer_index m_buffer_index_max m_trace_file Z.eqb]. change (Z.to_nat 1) with 1%nat. f_equal. rewrite drop_app_le by (rewrite length_take; lia). destruct n as [| n'] eqn:En; [lia |]. cbn [take drop].
        rewrite Z.sub_1_r, <- Nat2Z.inj_pred, Nat2Z.id by lia. cbn [Nat.pred].
        rewrite drop_0, take_app_length' by (rewrite length_take; unfold n in En; cbn [length] in En; lia). apply take_drop.
  - specialize (Hm E0). specialize (He E0). destruct (aget_in_range (m_buffer i) (m_buffer_index i)) as (x & Hx & ->); [unfold K in *; lia |].
    cbn [mbind outcome_bind mret outcome_ret]. eexists _, _, _. split; [done |]. split; [done |]. set (c := take _ (drop _ (m_buffer i))).
    assert (Hc : c = x :: take (Z.to_nat (m_buffer_index_max i - m_buffer_index i - 1)) (drop (S (Z.to_nat (m_buffer_index i))) (m_buffer i))).
    { unfold c. rewrite (drop_S _ _ _ Hx). replace (Z.to_nat (m_buffer_index_max i - m_buffer_index i)) with (S (Z.to_nat (m_buffer_index_max i - m_buffer_index i - 1))) by lia. done. }
    rewrite Hc. cbn [app]. destruct (Z.eq_dec (m_buffer_index i + 1) K) as [EK | EK].
    + rewrite cut_cons by auto. rewrite EK, Z.mod_same by done. split; [apply Z.ltb_lt; unfold K in *; lia |]. split; [done |]. split; [split; cbn [m_buffer m_buffer_index m_buffer_index_max m_trace_file m_trace_ended]; try done; unfold K; lia |].
      cbn [m_buffer_index m_trace_file]. rewrite Z.eqb_refl. replace (m_buffer_index_max i - m_buffer_index i - 1) with 0 by lia. done.
    + rewrite (Z.mod_small (m_buffer_index i + 1)) by (unfold K in *; lia). destruct (Z.ltb_spec (m_buffer_index i + 1) (m_buffer_index_max i)) as [Hlt | Hge].
      * set (c' := take _ (drop (S _) _)). assert (Hc' : c' <> []).
        { intros E. apply (f_equal length) in E. unfold c' in E. rewrite length_take, length_drop, Hl in E. simpl in E. unfold K in *. lia. }
        rewrite cut_cons by (done || (left; intros E; by apply app_eq_nil in E as [? _])). rewrite Z.mod_small by (unfold K in *; lia). split; [done |]. split; [done |].
        split; [split; cbn [m_buffer m_buffer_index m_buffer_index_max m_trace_file m_trace_ended]; try done; try (unfold K in *; lia); intros _; exact He |].
        cbn [m_buffer_index m_trace_file m_buffer m_buffer_index_max]. rewrite (proj2 (Z.eqb_neq _ 0)) by lia. unfold c'.
        replace (Z.to_nat (m_buffer_index i + 1)) with (S (Z.to_nat (m_buffer_index i))) by lia. do 3 f_equal. lia.
      * replace (m_buffer_index_max i - m_buffer_index i - 1) with 0 by lia. cbn [Z.to_nat take app]. rewrite (He ltac:(unfold K in *; lia)).
        by rewrite cut_last by (unfold K in *; lia).
Qed.

(** ** Threads that are started *)

Definition all_created (p : process_s) : process_s :=
  mk_process (m_process_id p) (m_no_of_threads p) (m_no_of_threads p) (m_thread_start_info p) (m_hmc_info p) (m_inst_info_hash p)
    (create_thread_calls p ++ seqZ (m_no_of_threads_created p) (m_no_of_threads p - m_no_of_threads_created p)).

(** When the first of the waiting threads starts all of them do. *)
Lemma create_threads_all no count start n : forall p, m_thread_start_info p !! Z.to_nat no = Some start -> 0 <= no -> (count =? start) || (start =? 0) = true ->
  m_no_of_threads_created p + Z.of_nat n = m_no_of_threads p -> create_threads n no count p = Done (all_created p).
Proof.
  induction n as [| n IH]; intros p Hs Hno Hc Hn; cbn [create_threads].
  - rewrite (proj2 (Z.ltb_ge _ _)) by lia. cbn [negb]. unfold all_created. replace (m_no_of_threads p - m_no_of_threads_created p) with 0 by lia. rewrite app_nil_r.
    replace (m_no_of_threads p) with (m_no_of_threads_created p) at 2 by lia. by destruct p.
  - rewrite (proj2 (Z.ltb_lt _ _)) by lia. cbn [negb]. unfold aget. rewrite (proj2 (Z.leb_le 0 no)), Hs by done. cbn [get_or mbind outcome_bind]. rewrite Hc. cbn [negb].
    rewrite IH by (done || (simpl; lia)). unfold all_created. cbn [m_process_id m_no_of_threads m_no_of_threads_created m_thread_start_info m_hmc_info m_inst_info_hash create_thread_calls].
    do 2 f_equal. rewrite <- app_assoc. f_equal. simpl. rewrite (seqZ_cons (m_no_of_threads_created p)) by lia. f_equal. f_equal; lia.
Qed.

(** The start of every thread is known. *)
Definition start_ok (r : reader) : Prop :=
  m_main_thread (thread r) = true -> 0 <= m_no_of_threads_created (process r) /\ m_no_of_threads (process r) <= Z.of_nat (length (m_thread_start_info (process r))).
(** What reading keeps of the process. *)
Definition same_program (p p' : process_s) : Prop :=
  m_process_id p' = m_process_id p /\ m_hmc_info p' = m_hmc_info p /\ m_inst_info_hash p' = m_inst_info_hash p.
(** What it keeps of the rest. *)
Record same_reader (r r' : reader) : Prop := {
  sr_core : core r' = core r;
  sr_program : same_program (process r) (process r');
  sr_seq : seq (thread r') = seq (thread r);
  sr_prev : m_prev_trace_info (insts (thread r')) = m_prev_trace_info (insts (thread r));
  sr_hmc : m_inside_hmc_func (insts (thread r')) = m_inside_hmc_func (insts (thread r));
  sr_mapper : m_page_mapper r' = m_page_mapper r
}.

Lemma start_threads_ok r : start_ok r -> exists r', start_threads r = Done r' /\ same_reader r r' /\ start_ok r' /\ io (thread r') = io (thread r) /\ insts (thread r') = insts (thread r).
Proof.
  intros Hs. unfold start_threads. destruct (m_main_thread (thread r)) eqn:Em; cbn [negb]; [| by exists r].
  destruct (Hs Em) as [H0 Hl]. set (p := process r) in *. set (count := u64 _). set (n := Z.to_nat _).
  assert (H : exists p', create_threads n (m_no_of_threads_created p) count p = Done p' /\ same_program p p' /\ 0 <= m_no_of_threads_created p' /\
    m_no_of_threads p' = m_no_of_threads p /\ m_thread_start_info p' = m_thread_start_info p).
  { destruct (Z.ltb_spec (m_no_of_threads_created p) (m_no_of_threads p)) as [Hlt | Hge].
    - destruct (lookup_lt_is_Some_2 (m_thread_start_info p) (Z.to_nat (m_no_of_threads_created p))) as [start Est]; [lia |].
      destruct ((count =? start) || (start =? 0)) eqn:Ec.
      + rewrite (create_threads_all _ _ start) by (done || lia). eexists. split; [done |]. split_and!; try done. simpl. lia.
      + exists p. split; [| done]. destruct n; cbn [create_threads]; rewrite (proj2 (Z.ltb_lt _ _) Hlt); cbn [negb]; unfold aget;
          rewrite (proj2 (Z.leb_le 0 _) H0), Est; cbn [get_or mbind outcome_bind]; by rewrite Ec.
    - exists p. split; [| done]. destruct n; cbn [create_threads]; by rewrite (proj2 (Z.ltb_ge _ _) Hge). }
  destruct H as (p' & -> & Hp & H0' & Hn & Hi). cbn [mbind outcome_bind]. eexists. split; [done |]. split; [by split |]. split; [| done].
  intros _. simpl. rewrite Hn, Hi. done.
Qed.

Lemma read_trace_ok tid r : io_ok (io (thread r)) -> m_running_thread_num (core r) <> 0 -> default false (m_thread_finished (core r) !! tid) = false -> start_ok r ->
  exists r' ok, read_trace tid r = Done (r', true, ok) /\ same_reader r r' /\ start_ok r' /\
    match coming (io (thread r)) with
    | [] => ok = false /\ m_trace_ended (io (thread r')) = true
    | y :: rest => ok = true /\ m_next_trace_info (insts (thread r')) = y /\ io_ok (io (thread r')) /\ coming (io (thread r')) = rest
    end.
Proof.
  intros Hi Hr Hf Hs. unfold read_trace. cbn [read_loop]. rewrite (proj2 (Z.eqb_neq _ _) Hr), (ik_live _ Hi). cbn [negb andb].
  destruct (next_record_ok _ Hi) as (i' & x & ok & -> & He & Hc). cbn [mbind outcome_bind].
  set (t1 := with_insts _ _). destruct (start_threads_ok (with_thread t1 r)) as (r2 & -> & Hq & Hs2 & Eio & Ein); [exact Hs |]. cbn [mbind outcome_bind].
  assert (Hq' : same_reader r r2) by (destruct Hq; by split). destruct (coming (io (thread r))) as [| y rest].
  - subst ok. rewrite (sr_core _ _ Hq'), Hf. cbn [negb]. destruct Hq' as [Q1 Q2 Q3 Q4 Q5 Q6]. rewrite andb_false_r. cbn [negb]. eexists _, _. split; [done |].
    split; [by split |]. split; [exact Hs2 | done].
  - destruct Hc as (-> & -> & Hi' & Hc). exists r2, true. split; [done |]. split; [done |]. split; [done |]. rewrite Eio, Ein. done.
Qed.

(** ** Instructions *)

(** Only the mark of an offloaded instruction differs. *)
Definition but_hmc (u u' : trace_uop_s) : Prop := exists x, u' = set_hmc x u.
Lemma but_hmc_refl u : but_hmc u u.
Proof. exists (t_hmc_inst u). by destruct u. Qed.
Lemma but_hmc_trans u u1 u2 : but_hmc u u1 -> but_hmc u1 u2 -> but_hmc u u2.
Proof. intros [x ->] [y ->]. by exists y. Qed.

Lemma mark_hmc_ok hmc n : forall i a, array_ok a -> (i + n <= Z.to_nat MAX_PUP)%nat ->
  exists a', mark_hmc n (Z.of_nat i) hmc a = Done a' /\ array_ok a' /\ forall j u, a !! j = Some u -> exists u', a' !! j = Some u' /\ but_hmc u u'.
Proof.
  induction n as [| n IH]; intros i a Ha Hi; cbn [mark_hmc].
  { exists a. split; [done |]. split; [done |]. intros j u Hu. exists u. split; [done | apply but_hmc_refl]. }
  destruct (upd_array_ok i (set_hmc hmc) a Ha) as (a1 & -> & Ha1 & Hl); [lia | done |]. cbn [mbind outcome_bind].
  replace (Z.of_nat i + 1) with (Z.of_nat (S i)) by lia. destruct (IH (S i) a1 Ha1) as (a' & -> & Ha' & Hb); [lia |].
  exists a'. split; [done |]. split; [done |]. intros j u Hu. destruct (Hb j ((if Nat.eqb j i then set_hmc hmc else id) u)) as (u' & Eu' & Hu'); [by rewrite Hl, Hu |].
  exists u'. split; [done |]. eapply but_hmc_trans; [| exact Hu']. destruct (Nat.eqb j i); [by eexists | apply but_hmc_refl].
Qed.
Lemma decoded_but_hmc dk pi vs a a' : (forall j u, a !! j = Some u -> exists u', a' !! j = Some u' /\ but_hmc u u') -> decoded dk pi vs a -> decoded dk pi vs a'.
Proof.
  intros Hb Hd j v Hv. destruct (Hd j v Hv) as (u & Eu & V & M & A & I & D & N). destruct (Hb j u Eu) as (u' & Eu' & [x ->]). eexists. split; [exact Eu' |]. by split_and!.
Qed.

Section STREAM.
Context (k : read_knobs) (junk : inst_info_s) (tid : Z) (fuel : nat) (x0 : new_uop) (code : Z -> list uview).
Abbreviation dk := (rk_decoder k).
Context (Hj : info_ok junk) (Hf : KNOB_ENABLE_HMC_FENCE dk = false) (Hts : 0 < KNOB_MAX_TRANSACTION_SIZE k).

(** Records that can be fetched: the pipeline takes fewer registers than the decoder,
    and an access has a size. *)
Record fetchable (pi : trace_info_cpu_s) : Prop := {
  fb_rec : rec_ok dk code pi;
  fb_srcs : p_num_read_regs pi + Z.max 1 (p_num_dest_regs pi) < MAX_SRCS;
  fb_dests : p_num_dest_regs pi + 1 < MAX_DST_NUM;
  fb_loads : has_loads pi = true -> 0 < p_mem_read_size pi;
  fb_store : p_has_st pi = true -> 0 < p_mem_write_size pi
}.
Lemma fetchable_next a pi : fetchable pi -> fetchable (set_next_addr a pi).
Proof. intros [[R1 R2 R3 R4 R5] H2 H3 H4 H5]. destruct R1. split; [split; [by split | done..] | done..]. Qed.

(** What handing out a micro-operation relies on. *)
Record handy (pi : trace_info_cpu_s) (v : uview) : Prop := {
  hd_srcs : Z.of_nat (length (v_srcs v)) < MAX_SRCS;
  hd_dests : Z.of_nat (length (v_dests v)) < MAX_DST_NUM;
  hd_regs : regs_ok v;
  hd_mem : k_mem (v_kind v) <> NOT_MEM -> accesses v = true /\ 0 < access_size pi v
}.
Lemma handy_first pi v : handy pi v -> handy pi (first_dest v).
Proof.
  intros [H1 H2 H3 H4]. split; simpl; [done | rewrite length_take; unfold MAX_DST_NUM in *; lia | | done]. unfold regs_ok in *. simpl. by apply Forall_take.
Qed.
Lemma handy_mark pi last v : handy pi v -> handy pi (ref_mark pi last v).
Proof.
  intros [H1 H2 H3 H4]. unfold ref_mark. destruct (last && bool_decide (k_mem (v_kind v) = NOT_MEM) && is_serializing (p_opcode pi)) eqn:E; [| done].
  apply andb_true_iff in E as [E _]. apply andb_true_iff in E as [_ E]. apply bool_decide_eq_true in E. split; simpl; done.
Qed.
Definition fits (pi : trace_info_cpu_s) (v : uview) : Prop :=
  Z.of_nat (length (v_srcs v)) < MAX_SRCS /\ Z.of_nat (length (v_dests v)) < MAX_DST_NUM /\ (k_mem (v_kind v) <> NOT_MEM -> accesses v = true /\ 0 < access_size pi v).
Lemma parts_fit pi op : fetchable pi -> Forall (fits pi) (ref_parts pi op).
Proof.
  intros [Hr Hs Hd Hl Hst]. pose proof (rk_inst _ _ _ Hr) as Hok. pose proof (length_writes pi Hok) as Lw. destruct Hok as [B1 B2 _ _ _ _ _ _].
  assert (Lr : (length (inst_reads pi) <= Z.to_nat (p_num_read_regs pi))%nat) by (unfold inst_reads; rewrite length_take; lia).
  assert (Lt : (length (tmp (needs_tmp pi)) <= 1)%nat) by (destruct (needs_tmp pi); simpl; lia).
  assert (Lres : Z.of_nat (length (result_of_inst pi)) <= Z.max 1 (p_num_dest_regs pi)) by (unfold result_of_inst; destruct (has_alu_uop pi); lia).
  unfold fits, ref_parts, MAX_SRCS, MAX_DST_NUM, MAX_DESTS in *. repeat (apply Forall_app; split).
  - assert (Hload : has_loads pi = true -> forall b, fits pi (ref_load pi b)).
    { intros E b. unfold fits, MAX_SRCS, MAX_DST_NUM. simpl. rewrite length_app. split; [lia |]. split; [destruct (is_dataxfer _); simpl; lia |].
      intros _. unfold accesses, access_size. simpl. destruct (p_opcode pi); simpl; auto. }
    destruct (has_loads pi); [| constructor]. constructor; [by apply Hload |]. destruct (_ =? 2); [constructor; [by apply Hload | constructor] | constructor].
  - destruct (has_alu_uop pi); [| constructor]. constructor; [| constructor]. simpl. rewrite length_app. split; [lia |]. split; [lia | done].
  - destruct (p_has_st pi); [| constructor]. constructor; [| constructor]. simpl. rewrite length_app. split; [lia |]. split; [lia |]. intros _. split; [done |]. by apply Hst.
  - destruct (has_cf pi); [| constructor]. constructor; [| constructor]. simpl. rewrite length_app. split; [lia |]. split; [lia | done].
Qed.
Lemma inst_views_handy pi : fetchable pi -> Forall (handy pi) (inst_views dk pi).
Proof.
  intros H. pose proof (inst_views_regs dk pi (rk_inst _ _ _ (fb_rec _ H))) as Hregs.
  apply Forall_lookup. intros j v Hv. pose proof (Forall_lookup_1 _ _ _ _ Hregs Hv) as Hg. unfold inst_views in Hv. rewrite reference_lookup in Hv.
  apply fmap_Some in Hv as (w & Hw & ->). assert (Hfit : forall op, Forall (fits pi) (ref_all pi op)).
  { intros op. unfold ref_all. pose proof (parts_fit pi op H). destruct (ref_parts pi op); [| done]. constructor; [| constructor]. split_and!; done. }
  destruct (Forall_lookup_1 _ _ _ _ (Hfit _) Hw) as (A & B & C). apply handy_mark. split; [done | done | | done].
  unfold regs_ok in *. by rewrite ref_mark_dests in Hg.
Qed.

(** ** States between two calls *)

Record world_ok (seen : list Z) (r : reader) : Prop := {
  wo_running : m_running_thread_num (core r) <> 0;
  wo_finished : default false (m_thread_finished (core r) !! tid) = false;
  wo_start : start_ok r;
  wo_hmc : m_hmc_info (process r) = ∅;
  wo_mapper : m_page_mapper r = no_mapper;
  wo_table : table_ok dk code seen (m_inst_info_hash (process r));
  wo_array : array_ok (m_trace_uop_array (seq (thread r)))
}.
(** The thread has [prev] to decode next and [rest] to come. *)
Record thread_live (prev : trace_info_cpu_s) (rest : list trace_info_cpu_s) (r : reader) : Prop := {
  tl_io : io_ok (io (thread r));
  tl_coming : coming (io (thread r)) = rest;
  tl_prev : m_prev_trace_info (insts (thread r)) = prev;
  tl_inside : m_inside_hmc_func (insts (thread r)) = false;
  tl_limit : default 0 (m_inst_fetched (core r) !! tid) + Z.of_nat (length rest) < KNOB_MAX_INSTS k;
  tl_ok : Forall fetchable (prev :: rest)
}.
Definition status (next : option (trace_info_cpu_s * list trace_info_cpu_s)) (r : reader) : Prop :=
  match next with None => m_trace_ended (io (thread r)) = true | Some (prev, rest) => thread_live prev rest r /\ m_trace_ended (io (thread r)) = false end.
Record idle (seen : list Z) (prev : trace_info_cpu_s) (rest : list trace_info_cpu_s) (r : reader) : Prop := {
  id_world : world_ok seen r;
  id_live : thread_live prev rest r;
  id_bom : m_bom (seq (thread r)) = true;
  id_open : default false (m_fetch_ended (core r) !! tid) = false
}.
(** [j] micro-operations of [pi] were handed out. *)
Record sending (seen : list Z) (pi : trace_info_cpu_s) (vs : list uview) (next : option (trace_info_cpu_s * list trace_info_cpu_s)) (j : nat) (r : reader) : Prop := {
  se_world : world_ok seen r;
  se_status : status next r;
  se_array : decoded dk pi vs (m_trace_uop_array (seq (thread r)));
  se_bom : m_bom (seq (thread r)) = Nat.eqb j (length vs);
  se_count : m_num_sending_uop (seq (thread r)) = Z.of_nat j;
  se_ended : default false (m_fetch_ended (core r) !! tid) = bool_decide (next = None) && Nat.eqb j (length vs)
}.
(** The micro-operation [x] is number [j] of [vs], for the execution [pi]. *)
Record delivers (pi : trace_info_cpu_s) (final : bool) (count j : nat) (v : uview) (pid : Z) (x : new_uop) : Prop := {
  dv_kind : n_kind x = v_kind v;
  dv_srcs : n_src_info x = v_srcs v;
  dv_dests : n_dest_info x = v_dests v;
  dv_bom : n_isitBOM x = Nat.eqb j 0;
  dv_eom : n_isitEOM x = Nat.eqb (S j) count;
  dv_last : n_last_uop x = final && Nat.eqb (S j) count;
  dv_thread : n_thread_id x = tid;
  dv_pc : n_pc x = p_instruction_addr pi;
  dv_npc : n_npc x = if Nat.eqb (S j) count then p_instruction_next_addr pi else p_instruction_addr pi;
  dv_vaddr : n_vaddr x = if ref_va pi v =? 0 then 0 else u64 (ref_va pi v + base_addr k (u64 (UINT_MAX * pid * 10)));
  dv_size : accesses v = true -> n_mem_size x = Z.min (access_size pi v) (REP_MOV_MEM_SIZE_MAX_NEW dk)
}.
(** The entry of the table that micro-operation [j] is taken from. *)
Definition entry_of (pi : trace_info_cpu_s) (v : uview) (key : Z) (r : reader) : Prop :=
  exists i, m_inst_info_hash (process r) !! key = Some i /\ i_kind i = v_kind v /\ i_addr i = p_instruction_addr pi.

(** The number of [x] is the next one. *)
Definition numbered (r : reader) (x : new_uop) (r' : reader) : Prop :=
  n_uop_num x = m_temp_uop_count (seq (thread r)) /\ m_temp_uop_count (seq (thread r')) = m_temp_uop_count (seq (thread r)) + 1.

(** What [u] hands out, given the state in which it was chosen. *)
Lemma fill_uop_ok pi vs final j v u key r :
  decoded dk pi vs (m_trace_uop_array (seq (thread r))) -> array_ok (m_trace_uop_array (seq (thread r))) -> vs !! j = Some v -> handy pi v ->
  m_trace_uop_array (seq (thread r)) !! j = Some u -> entry_of pi v key r -> m_page_mapper r = no_mapper -> m_eom (seq (thread r)) = t_eom u -> n_last_uop x0 = false ->
  exists r' x, fill_uop k tid u key (Nat.eqb j 0) (final && Nat.eqb (S j) (length vs)) x0 r = Done (r', x) /\
    delivers pi final (length vs) j v (m_process_id (process r)) x /\ numbered r x r' /\ core r' = core r /\ process r' = process r /\ m_page_mapper r' = no_mapper /\
    io (thread r') = io (thread r) /\ insts (thread r') = insts (thread r) /\ m_main_thread (thread r') = m_main_thread (thread r) /\
    m_bom (seq (thread r')) = m_bom (seq (thread r)) /\ m_num_sending_uop (seq (thread r')) = m_num_sending_uop (seq (thread r)) /\
    m_trace_uop_array (seq (thread r')) = m_trace_uop_array (seq (thread r)).
Proof.
  intros Hd [Hl Ha] Hv Hh Hu (i & Ei & Ek & Ea) Hm He Hx. destruct (Hd j v Hv) as (u' & Hu' & V & M & A & I & [D1 D2] & N). rewrite Hu in Hu'. injection Hu' as <-.
  pose proof (Forall_lookup_1 _ _ _ _ Ha Hu) as [Ls Ld]. destruct Hh as [H1 H2 H3 H4]. unfold fill_uop. rewrite Ei. cbn [get_or mbind outcome_bind].
  assert (Es : take (Z.to_nat (t_num_src_regs u)) (t_srcs u) = v_srcs v) by (by rewrite <- V). assert (Ed : take (Z.to_nat (t_num_dest_regs u)) (t_dests u) = v_dests v) by (by rewrite <- V).
  assert (Ns : t_num_src_regs u < MAX_SRCS) by (rewrite <- Es, length_take, Ls in H1; unfold MAX_SRCS in *; lia).
  assert (Nd : t_num_dest_regs u < MAX_DST_NUM) by (rewrite <- Ed, length_take, Ld in H2; unfold MAX_DST_NUM, MAX_DESTS in *; lia).
  assert (Er : forallb (fun r => r <? NUM_REG_IDS) (v_dests v) = true).
  { apply forallb_forall. intros x Hin. apply Z.ltb_lt. unfold regs_ok in H3. rewrite Forall_forall in H3. apply H3. by apply list_elem_of_In. }
  assert (Emem : (if bool_decide (k_mem (i_kind i) = NOT_MEM) then mret tt
    else ASSERT (0 <? (d_mem_size (t_dyn u) + KNOB_MAX_TRANSACTION_SIZE k - 1) `quot` KNOB_MAX_TRANSACTION_SIZE k)) = Done tt).
  { rewrite Ek. case_bool_decide as Em; [done |]. destruct (H4 Em) as [Hacc Hpos]. rewrite (D2 Hacc). rewrite Z.quot_div_nonneg by (pose proof (M_pos dk); lia).
    rewrite (proj2 (Z.ltb_lt _ _)); [done |]. apply Z.div_str_pos. pose proof (M_pos dk). lia. }
  unfold uop_vaddr. rewrite Hm, Es, Ed. cbn [map_page].
  assert (Evp : (if d_va (t_dyn u) =? 0 then (no_mapper, 0) else (no_mapper, u64 (d_va (t_dyn u) + base_addr k (u64 (UINT_MAX * m_process_id (process r) * 10))))) =
    (no_mapper, if ref_va pi v =? 0 then 0 else u64 (ref_va pi v + base_addr k (u64 (UINT_MAX * m_process_id (process r) * 10))))) by (rewrite D1; by destruct (_ =? 0)).
  rewrite Evp, Emem. cbn [mbind outcome_bind]. rewrite (proj2 (Z.ltb_lt _ _) Nd), (proj2 (Z.ltb_lt _ _) Ns), Er. cbn [ASSERT mbind outcome_bind mret outcome_ret].
  eexists _, _. split; [done |]. split; [| by split_and!]. split; cbn [n_kind n_src_info n_dest_info n_isitBOM n_isitEOM n_last_uop n_thread_id n_pc n_npc n_vaddr n_mem_size]; try done.
  - assert (Et : t_kind u = v_kind v) by (by rewrite <- V). rewrite Ek, Et. by destruct (v_kind v).
  - by rewrite He.
  - by rewrite Hx, orb_false_r.
Qed.

Lemma status_ended next r : status next r -> m_trace_ended (io (thread r)) = bool_decide (next = None).
Proof. destruct next as [[y rest] |]; [intros [_ H] | intros H]; by rewrite H. Qed.
(** The state keeps what it is when only counters and the sequence change. *)
Lemma status_frame next r r' : io (thread r') = io (thread r) -> insts (thread r') = insts (thread r) -> m_inst_fetched (core r') = m_inst_fetched (core r) ->
  status next r -> status next r'.
Proof.
  intros Ei En Ec. destruct next as [[y rest] |]; simpl; rewrite Ei; [| done]. intros [[A B C D E F] G]. split; [| done]. split; rewrite ?Ei, ?En, ?Ec; done.
Qed.

(** Object [u] of the array was chosen, number [j] of [vs]. *)
Record chosen (seen : list Z) (pi : trace_info_cpu_s) (vs : list uview) (next : option (trace_info_cpu_s * list trace_info_cpu_s)) (j : nat) (v : uview)
    (u : trace_uop_s) (key : Z) (r : reader) : Prop := {
  ch_world : world_ok seen r;
  ch_status : status next r;
  ch_array : decoded dk pi vs (m_trace_uop_array (seq (thread r)));
  ch_view : vs !! j = Some v;
  ch_handy : handy pi v;
  ch_uop : m_trace_uop_array (seq (thread r)) !! j = Some u;
  ch_entry : entry_of pi v key r;
  ch_eom : m_eom (seq (thread r)) = t_eom u;
  ch_count : m_num_sending_uop (seq (thread r)) = Z.of_nat (S j);
  ch_open : default false (m_fetch_ended (core r) !! tid) = false
}.
Lemma hand_out_ok seen pi vs next j v u key r : chosen seen pi vs next j v u key r -> n_last_uop x0 = false ->
  exists r' x, hand_out k tid u key (Nat.eqb j 0) x0 r = Done (r', Some x) /\
    delivers pi (bool_decide (next = None)) (length vs) j v (m_process_id (process r)) x /\ numbered r x r' /\ sending seen pi vs next (S j) r' /\ process r' = process r.
Proof.
  intros [Hw Hs Hd Hv Hh Hu He Hm Hn Ho] Hx. destruct (Hd j v Hv) as (u' & Hu' & _ & Eom & _). rewrite Hu in Hu'. injection Hu' as <-.
  unfold hand_out, end_of_inst. cbn [with_core core thread process]. rewrite (status_ended _ _ Hs), Hm, Eom. set (fin := bool_decide (next = None)). set (e := Nat.eqb (S j) (length vs)).
  match goal with |- context [fill_uop _ _ _ _ _ _ _ ?s] => set (r2 := s) end. destruct Hw as [W1 W2 W3 W4 W5 W6 W7].
  assert (E2 : process r2 = process r /\ io (thread r2) = io (thread r) /\ insts (thread r2) = insts (thread r) /\ m_main_thread (thread r2) = m_main_thread (thread r) /\
    m_page_mapper r2 = m_page_mapper r /\ m_running_thread_num (core r2) = m_running_thread_num (core r) /\ m_thread_finished (core r2) = m_thread_finished (core r) /\
    m_inst_fetched (core r2) = m_inst_fetched (core r) /\ seq (thread r2) = mk_seq e e (m_num_sending_uop (seq (thread r))) (m_temp_inst_count (seq (thread r)))
      (m_temp_uop_count (seq (thread r))) (m_trace_uop_array (seq (thread r))) /\ default false (m_fetch_ended (core r2) !! tid) = fin && e).
  { unfold r2. destruct (fin && e); simpl; split_and!; try done. by rewrite lookup_insert_eq. }
  clearbody r2. destruct E2 as (P1 & P2 & P3 & P4 & P5 & P6 & P7 & P8 & P9 & P10).
  destruct (fill_uop_ok pi vs fin j v u key r2) as (r' & x & E & Hdv & [M1 M2] & C1 & C2 & C3 & C4 & C5 & C6 & C7 & C8 & C9);
    [by rewrite P9 | by rewrite P9 | done | done | by rewrite P9 | unfold entry_of; by rewrite P1 | by rewrite P5 | by rewrite P9 | done |].
  fold e in E. rewrite E. cbn [mbind outcome_bind mret outcome_ret]. rewrite P1 in *. eexists _, _. split; [done |]. split; [done |].
  split; [unfold numbered; by rewrite M1, M2, P9 |]. split; [| by rewrite C2].
  split; [split | | | | |].
  - by rewrite C1, P6.
  - by rewrite C1, P7.
  - unfold start_ok. by rewrite C6, P4, C2.
  - by rewrite C2.
  - done.
  - by rewrite C2.
  - by rewrite C9, P9.
  - apply (status_frame next r r'); [by rewrite C4 | by rewrite C5 | by rewrite C1 | done].
  - by rewrite C9, P9.
  - by rewrite C7, P9.
  - by rewrite C8, P9.
  - by rewrite C1, P10.
Qed.

(** ** The calls *)

Definition views_of (seen : list Z) (pi : trace_info_cpu_s) : list uview :=
  if bool_decide (p_instruction_addr pi ∈ seen) then first_dest <$> inst_views dk pi else inst_views dk pi.
Lemma views_of_lookup seen pi j v : views_of seen pi !! j = Some v -> exists w, inst_views dk pi !! j = Some w /\ (v = w \/ v = first_dest w).
Proof.
  unfold views_of. destruct (bool_decide _); [| intros H; exists v; auto]. rewrite list_lookup_fmap. intros H. apply fmap_Some in H as (w & Hw & ->). exists w. auto.
Qed.
Lemma views_of_length seen pi : length (views_of seen pi) = length (inst_views dk pi).
Proof. unfold views_of. destruct (bool_decide _); [apply length_fmap | done]. Qed.
Lemma views_of_handy seen pi j v : fetchable pi -> views_of seen pi !! j = Some v -> handy pi v.
Proof.
  intros Hp Hv. destruct (views_of_lookup _ _ _ _ Hv) as (w & Hw & [-> | ->]); [| apply handy_first]; exact (Forall_lookup_1 _ _ _ _ (inst_views_handy pi Hp) Hw).
Qed.
Lemma table_entry seen seen' pi j v r : fetchable pi -> table_ok dk code seen' (m_inst_info_hash (process r)) -> p_instruction_addr pi ∈ seen' ->
  views_of seen pi !! j = Some v -> entry_of pi v (inst_key pi (Z.of_nat j)) r.
Proof.
  intros Hp Ht Hin Hv. specialize (Ht pi (fb_rec _ Hp)). rewrite bool_decide_eq_true_2 in Ht by done. destruct Ht as [Ht _].
  destruct (views_of_lookup _ _ _ _ Hv) as (w & Hw & Ew). destruct (Ht j w Hw) as (i & Ei & Hc & Ha). exists i. split; [done |]. split; [| done].
  rewrite (ca_kind _ _ Hc). by destruct Ew as [-> | ->].
Qed.
Lemma table_marks seen h pi j i b e : rec_ok dk code pi -> p_instruction_addr pi ∈ seen -> 0 <= j < 8 -> table_ok dk code seen h -> h !! inst_key pi j = Some i ->
  table_ok dk code seen (<[inst_key pi j := set_marks b e i]> h).
Proof.
  intros Hp Hin Hj' Ht Ei pi' Hp'. specialize (Ht pi' Hp'). destruct (decide (p_instruction_addr pi' = p_instruction_addr pi)) as [E | Hne].
  - rewrite bool_decide_eq_true_2 in Ht |- * by (by rewrite E). assert (Ek : inst_key pi j = inst_key pi' j) by (unfold inst_key; by rewrite E). rewrite Ek in Ei |- *.
    eapply tabled_insert; [exact Ht | exact Ei | intros v; apply cached_marks | done | done].
  - assert (Hk : forall j', 0 <= j' < 8 -> inst_key pi j <> inst_key pi' j').
    { intros j' Hj2 Ek. rewrite !inst_key_value in Ek by (done || apply Hp || apply Hp'). lia. }
    destruct (bool_decide _); [| intros j' Hj2; rewrite lookup_insert_ne by (by apply Hk); by apply Ht].
    pose proof (inst_views_length dk pi'). apply (tabled_frame pi' pi' _ h); [lia | done | | done]. intros j' Hj2. by rewrite lookup_insert_ne by (by apply Hk).
Qed.

Lemma further_ok seen seen' pi next j r : fetchable pi -> p_instruction_addr pi ∈ seen' -> (0 < j < length (views_of seen pi))%nat -> n_last_uop x0 = false ->
  sending seen' pi (views_of seen pi) next j r ->
  exists r' x v, views_of seen pi !! j = Some v /\ get_uops_from_traces k junk tid fuel x0 r = Done (r', Some x) /\
    delivers pi (bool_decide (next = None)) (length (views_of seen pi)) j v (m_process_id (process r)) x /\ numbered r x r' /\ sending seen' pi (views_of seen pi) next (S j) r' /\
    m_process_id (process r') = m_process_id (process r).
Proof.
  intros Hp Hin Hjn Hx [Hw Hs Hd Hb Hc He]. destruct (lookup_lt_is_Some_2 (views_of seen pi) j) as [v Hv]; [lia |]. set (n := length (views_of seen pi)) in *.
  rewrite (proj2 (Nat.eqb_neq j n)) in Hb, He by lia. rewrite andb_false_r in He. unfold get_uops_from_traces. rewrite He, Hb.
  unfold further_uop. cbn [with_thread thread process seq]. rewrite Hc. destruct (Hd j v Hv) as (u & Hu & V & _ & _ & I & _). rewrite (aget_lookup _ _ _ Hu). cbn [mbind outcome_bind].
  rewrite I. cbn [get_or mbind outcome_bind]. destruct (table_entry seen seen' pi j v r Hp (wo_table _ _ Hw) Hin Hv) as (i & Ei & Ek & Ea). rewrite Ei. cbn [get_or mbind outcome_bind mret outcome_ret].
  match goal with |- context [hand_out _ _ _ _ _ _ ?s] => set (r1 := s) end. pose proof (inst_views_length dk pi). pose proof (views_of_length seen pi).
  destruct (hand_out_ok seen' pi (views_of seen pi) next j v u (inst_key pi (Z.of_nat j)) r1) as (r' & x & E & Hdv & Hnum & Hse & Ep); [| done |].
  { split; try done.
    - destruct Hw as [W1 W2 W3 W4 W5 W6 W7]. split; try done. apply table_marks; [apply Hp | done | lia | done | done].
    - by apply (status_frame next r r1).
    - by eapply views_of_handy.
    - exists (set_marks false (i_eom i) i). split; [apply lookup_insert_eq | done].
    - cbn. lia. }
  exists r', x, v. rewrite (proj2 (Nat.eqb_neq j 0)) in E by lia. split; [done |]. split; [exact E |]. split; [exact Hdv |]. split; [exact Hnum |]. split; [exact Hse |]. by rewrite Ep.
Qed.

(** What the next record is, and what is left then. *)
Definition after (rest : list trace_info_cpu_s) : option (trace_info_cpu_s * list trace_info_cpu_s) := match rest with [] => None | y :: rest' => Some (y, rest') end.
Definition read_state (rest : list trace_info_cpu_s) (ok : bool) (r : reader) : Prop :=
  match rest with
  | [] => ok = false /\ m_trace_ended (io (thread r)) = true
  | y :: rest' => ok = true /\ m_next_trace_info (insts (thread r)) = y /\ io_ok (io (thread r)) /\ coming (io (thread r)) = rest'
  end.
Lemma same_world seen r r' : same_reader r r' -> start_ok r' -> world_ok seen r -> world_ok seen r'.
Proof. intros [E1 (E2 & E3 & E4) E5 E6 E7 E8] Hs [W1 W2 W3 W4 W5 W6 W7]. split; rewrite ?E1, ?E3, ?E4, ?E5, ?E8; done. Qed.

Lemma read_next_ok seen prev rest r : world_ok seen r -> thread_live prev rest r ->
  exists r' ok, read_next k tid fuel r = Done (r', true, ok) /\ same_reader r r' /\ start_ok r' /\ read_state rest ok r'.
Proof.
  intros Hw [Hi Hc Hp Hn Hl _]. pose proof Hw as [W1 W2 W3 W4 W5 W6 W7]. unfold read_next. rewrite (proj2 (Z.ltb_lt _ _)) by lia. cbn [negb].
  destruct (read_trace_ok tid r Hi W1 W2 W3) as (r1 & ok & -> & Hq & Hs & Hr). rewrite Hc in Hr. cbn [mbind outcome_bind].
  pose proof Hq as [Q1 (Q2 & Q3 & Q4) Q5 Q6 Q7 Q8]. rewrite Q3, W4, lookup_empty. replace (if KNOB_ENABLE_HMC_INST_SKIP k then @None Z else None) with (@None Z) by (by destruct (KNOB_ENABLE_HMC_INST_SKIP k)).
  cbn [mbind outcome_bind mret outcome_ret]. unfold mark_function. rewrite Q7, Hn. cbn [negb]. rewrite Q3, W4, lookup_empty. eexists _, ok. split; [done |]. split; [| split].
  - by split.
  - exact Hs.
  - destruct rest; exact Hr.
Qed.

Lemma get_inst_info_ok seen prev r (pi := set_next_addr (p_instruction_addr (m_next_trace_info (insts (thread r)))) prev) :
  world_ok seen r -> fetchable prev -> m_prev_trace_info (insts (thread r)) = prev ->
  exists r', get_inst_info k junk r = Done (r', inst_key pi 0) /\ world_ok (p_instruction_addr pi :: seen) r' /\ core r' = core r /\ io (thread r') = io (thread r) /\
    decoded dk pi (views_of seen pi) (m_trace_uop_array (seq (thread r'))) /\ m_temp_uop_count (seq (thread r')) = m_temp_uop_count (seq (thread r)) /\ m_process_id (process r') = m_process_id (process r) /\
    m_prev_trace_info (insts (thread r')) = m_next_trace_info (insts (thread r)) /\ m_inside_hmc_func (insts (thread r')) = m_inside_hmc_func (insts (thread r)).
Proof.
  intros [W1 W2 W3 W4 W5 W6 W7] Hp Ep. pose proof (fetchable_next (p_instruction_addr (m_next_trace_info (insts (thread r)))) _ Hp) as Hpi. fold pi in Hpi.
  unfold get_inst_info. rewrite Ep. fold pi. destruct (decode_step dk junk code Hj Hf seen pi _ _ (fb_rec _ Hpi) W7 W6) as (a & h & -> & Ha & Hd & Ht). cbn [mbind outcome_bind].
  pose proof (Ht pi (fb_rec _ Hpi)) as Hpt. rewrite bool_decide_eq_true_2 in Hpt by left. destruct Hpt as [_ (i & Ei & En)]. rewrite Ei. cbn [get_or mbind outcome_bind].
  pose proof (inst_views_length dk pi) as Hn. destruct (mark_hmc_ok (m_prev_hmc_type (insts (thread r))) (Z.to_nat (i_num_uop i)) 0 a Ha) as (a' & E & Ha' & Hb); [rewrite En; unfold MAX_PUP; lia |].
  change (Z.of_nat 0) with 0 in E. rewrite E. cbn [mbind outcome_bind mret outcome_ret]. eexists. split; [done |]. split; [by split |]. split_and!; try done.
  apply (decoded_but_hmc dk pi _ a); [done | exact Hd].
Qed.

(** The state after a record was read. *)
Lemma first_status rest ok r1 r : read_state rest ok r1 -> Forall fetchable rest -> io (thread r) = io (thread r1) ->
  m_prev_trace_info (insts (thread r)) = m_next_trace_info (insts (thread r1)) -> m_inside_hmc_func (insts (thread r)) = false ->
  default 0 (m_inst_fetched (core r) !! tid) + Z.of_nat (length rest) < KNOB_MAX_INSTS k + (if ok then 1 else 0) -> status (after rest) r.
Proof.
  intros Hr Hrest Ei Ep Hn Hl. destruct rest as [| y rest]; simpl in *; rewrite Ei; [by destruct Hr as [_ ->] |]. destruct Hr as (-> & En & Hi & Hc).
  split; [| apply (ik_live _ Hi)]. split; rewrite ?Ei, ?Ep; try done. lia.
Qed.

(** The flags that counting an instruction keeps. *)
Definition counted (ok : bool) (c c' : core_s) : Prop :=
  m_running_thread_num c' = m_running_thread_num c /\ m_thread_finished c' = m_thread_finished c /\ m_fetch_ended c' = m_fetch_ended c /\
  default 0 (m_inst_fetched c' !! tid) = default 0 (m_inst_fetched c !! tid) + (if ok then 1 else 0).

Lemma first_uop_ok seen prev rest r : idle seen prev rest r -> exists last,
  let pi := set_next_addr (match rest with [] => last | y :: _ => p_instruction_addr y end) prev in
  exists r' u v, first_uop k junk tid fuel r = Done (r', Some (u, inst_key pi 0, true)) /\
    chosen (p_instruction_addr prev :: seen) pi (views_of seen pi) (after rest) 0 v u (inst_key pi 0) r' /\
    m_process_id (process r') = m_process_id (process r) /\ m_temp_uop_count (seq (thread r')) = m_temp_uop_count (seq (thread r)).
Proof.
  intros [Hw Hl Hb Ho]. pose proof Hl as [Hi Hc Hp Hn Hlim Hall]. apply Forall_cons in Hall as [Hprev Hrest].
  destruct (read_next_ok seen prev rest r Hw Hl) as (r1 & ok & E1 & Hq & Hs & Hr). exists (p_instruction_addr (m_next_trace_info (insts (thread r1)))). set (pi := set_next_addr _ prev).
  assert (Epi : pi = set_next_addr (p_instruction_addr (m_next_trace_info (insts (thread r1)))) prev) by (unfold pi; destruct rest; [done | by destruct Hr as (_ & -> & _)]).
  cbn zeta. destruct (get_inst_info_ok seen prev r1 (same_world _ _ _ Hq Hs Hw) Hprev) as (r2 & E2 & Hw2 & C2 & I2 & D2 & U2 & P2 & V2 & N2); [by rewrite (sr_prev _ _ Hq) |].
  rewrite <- Epi in E2, Hw2, D2. assert (Hpi : fetchable pi) by (by apply fetchable_next). pose proof (inst_views_length dk pi) as Hlen. pose proof (views_of_length seen pi) as Hvl.
  destruct (lookup_lt_is_Some_2 (views_of seen pi) 0) as [v Hv]; [lia |]. destruct (D2 0%nat v Hv) as (u & Hu & _).
  pose proof (wo_table _ _ Hw2 pi (fb_rec _ Hpi)) as Hpt. rewrite bool_decide_eq_true_2 in Hpt by left. destruct Hpt as [_ (i & Ei & En)].
  destruct (table_entry seen _ pi 0 v r2 Hpi (wo_table _ _ Hw2) ltac:(left) Hv) as (i' & Ei' & Ek & Ea). change (Z.of_nat 0) with 0 in Ei'. rewrite Ei in Ei'. injection Ei' as <-.
  unfold first_uop. rewrite E1. cbn [mbind outcome_bind negb]. rewrite E2. cbn [mbind outcome_bind].
  match goal with |- context [aget (m_trace_uop_array (seq (thread ?s))) 0] => set (r3 := s) end.
  assert (E3 : thread r3 = thread r2 /\ process r3 = process r2 /\ m_page_mapper r3 = m_page_mapper r2 /\ counted ok (core r) (core r3)).
  { unfold r3, counted. destruct ok; simpl; rewrite ?C2, ?(sr_core _ _ Hq); split_and!; try done; [by rewrite lookup_insert_eq | by rewrite Z.add_0_r]. }
  clearbody r3. destruct E3 as (T3 & P3 & M3 & R3 & F3 & O3 & N3). rewrite T3, P3, (aget_at _ 0 u) by done. cbn [mbind outcome_bind]. rewrite Ei. cbn [get_or mbind outcome_bind].
  rewrite (proj2 (Z.ltb_lt 0 (i_num_uop i))) by lia. cbn [ASSERT mbind outcome_bind mret outcome_ret]. eexists _, u, v. split; [done |]. split; [split; try done |].
  - destruct Hw2 as [W1 W2 W3 W4 W5 W6 W7]. split; simpl; rewrite ?P3, ?T3, ?M3, ?R3, ?F3; try done; [apply Hw | apply Hw |]. unfold start_ok in *. simpl. by rewrite P3.
  - apply first_status with (r1 := r1) (ok := ok); try done; simpl; rewrite ?T3, ?V2, ?N2, ?N3; try done; [by rewrite (sr_hmc _ _ Hq) | lia].
  - by eapply views_of_handy.
  - exists i. simpl. by rewrite P3.
  - simpl. by rewrite O3.
  - destruct (sr_program _ _ Hq) as (Eid & _). simpl. rewrite P3, P2, Eid, U2, (sr_seq _ _ Hq). done.
Qed.

Lemma first_ok seen prev rest r : idle seen prev rest r -> n_last_uop x0 = false -> exists last,
  let pi := set_next_addr (match rest with [] => last | y :: _ => p_instruction_addr y end) prev in
  exists r' x v, views_of seen pi !! 0%nat = Some v /\ get_uops_from_traces k junk tid fuel x0 r = Done (r', Some x) /\
    delivers pi (bool_decide (after rest = None)) (length (views_of seen pi)) 0 v (m_process_id (process r)) x /\ numbered r x r' /\
    sending (p_instruction_addr prev :: seen) pi (views_of seen pi) (after rest) 1 r' /\ m_process_id (process r') = m_process_id (process r).
Proof.
  intros Hid Hx. pose proof Hid as [Hw Hl Hb Ho]. unfold get_uops_from_traces. rewrite Ho, Hb. match goal with |- context [first_uop _ _ _ _ ?s] => set (r0 := s) end.
  destruct (first_uop_ok seen prev rest r0) as (last & r1 & u & v & E1 & Hch & Hpid & Hcount); [by destruct Hw, Hl; split; try split |]. exists last. cbn zeta in *. rewrite E1. cbn [mbind outcome_bind].
  destruct (hand_out_ok _ _ _ _ _ _ _ _ _ Hch Hx) as (r' & x & E & Hdv & [Hn1 Hn2] & Hse & Ep). exists r', x, v. rewrite Hpid in Hdv. rewrite Hcount in Hn1, Hn2.
  split; [apply Hch |]. split; [exact E |]. split; [exact Hdv |]. split; [by split |]. split; [exact Hse |]. by rewrite Ep.
Qed.

(** ** Whole traces *)

Fixpoint fetch_n (n : nat) (r : reader) : outcome (reader * list new_uop) :=
  match n with
  | O => mret (r, [])
  | S n' =>
      '(r1, ox) ← get_uops_from_traces k junk tid fuel x0 r;
      match ox with None => mret (r1, []) | Some x => '(r2, xs) ← fetch_n n' r1; mret (r2, x :: xs) end
  end.
Lemma fetch_n_app n m : forall r r1 r2 xs ys, fetch_n n r = Done (r1, xs) -> length xs = n -> fetch_n m r1 = Done (r2, ys) -> fetch_n (n + m) r = Done (r2, xs ++ ys).
Proof.
  induction n as [| n IH]; intros r r1 r2 xs ys; cbn [fetch_n Nat.add].
  - intros [= <- <-] _ ->. done.
  - destruct (get_uops_from_traces k junk tid fuel x0 r) as [[r' [x |]] |]; cbn [mbind outcome_bind mret outcome_ret]; [| intros [= <- <-]; discriminate | discriminate].
    destruct (fetch_n n r') as [[r3 zs] |] eqn:E; cbn [mbind outcome_bind mret outcome_ret]; [| discriminate]. intros [= <- <-] Hl Hm.
    rewrite (IH r' r3 r2 zs ys E) by (done || (simpl in Hl; lia)). done.
Qed.
Lemma fetch_n_ended m r : default false (m_fetch_ended (core r) !! tid) = true -> fetch_n m r = Done (r, []).
Proof. intros H. destruct m; [done |]. cbn [fetch_n]. unfold get_uops_from_traces. by rewrite H. Qed.

Record item := mk_item { it_inst : trace_info_cpu_s; it_final : bool; it_count : nat; it_index : nat; it_view : uview }.
Definition items_of (pi : trace_info_cpu_s) (final : bool) (vs : list uview) : list item := imap (mk_item pi final (length vs)) vs.
Definition delivers_item (pid : Z) (it : item) (x : new_uop) : Prop := delivers (it_inst it) (it_final it) (it_count it) (it_index it) (it_view it) pid x.
Lemma items_of_drop pi final vs j v : vs !! j = Some v -> drop j (items_of pi final vs) = mk_item pi final (length vs) j v :: drop (S j) (items_of pi final vs).
Proof. intros Hv. apply drop_S. unfold items_of. by rewrite list_lookup_imap, Hv. Qed.

(** The numbers from [r] to [r'] are those of [xs]. *)
Definition numbers (r : reader) (xs : list new_uop) (r' : reader) : Prop :=
  n_uop_num <$> xs = seqZ (m_temp_uop_count (seq (thread r))) (Z.of_nat (length xs)) /\ m_temp_uop_count (seq (thread r')) = m_temp_uop_count (seq (thread r)) + Z.of_nat (length xs).
Lemma numbers_nil r : numbers r [] r.
Proof. split; simpl; [done | lia]. Qed.
Lemma numbers_cons r x r1 xs r' : numbered r x r1 -> numbers r1 xs r' -> numbers r (x :: xs) r'.
Proof.
  intros [E1 E2] [E3 E4]. split; cbn [length]; [| lia]. rewrite fmap_cons, (seqZ_cons _ (Z.of_nat (S _))), E1, E3, E2 by lia. do 2 f_equal; lia.
Qed.
Lemma numbers_app r xs r1 ys r' : numbers r xs r1 -> numbers r1 ys r' -> numbers r (xs ++ ys) r'.
Proof.
  intros [E1 E2] [E3 E4]. split; rewrite length_app, Nat2Z.inj_add; [| lia]. rewrite fmap_app, E1, E3, E2. rewrite seqZ_app by lia. done.
Qed.

Lemma rest_delivered seen seen' pi next : fetchable pi -> p_instruction_addr pi ∈ seen' -> n_last_uop x0 = false -> forall d j r, (0 < j)%nat -> (j + d = length (views_of seen pi))%nat ->
  sending seen' pi (views_of seen pi) next j r ->
  exists r' xs, fetch_n d r = Done (r', xs) /\ Forall2 (delivers_item (m_process_id (process r))) (drop j (items_of pi (bool_decide (next = None)) (views_of seen pi))) xs /\
    numbers r xs r' /\ sending seen' pi (views_of seen pi) next (length (views_of seen pi)) r' /\ m_process_id (process r') = m_process_id (process r).
Proof.
  intros Hp Hin Hx. induction d as [| d IH]; intros j r Hj0 Hjd Hs.
  - exists r, []. split; [done |]. split; [rewrite drop_ge by (unfold items_of; rewrite length_imap; lia); constructor |]. split; [apply numbers_nil |]. split; [| done].
    by replace (length (views_of seen pi)) with j by lia.
  - destruct (further_ok seen seen' pi next j r Hp Hin) as (r1 & x & v & Hv & E & Hdv & Hnum & Hs1 & Hpid); [lia | done | done |].
    destruct (IH (S j) r1) as (r' & xs & E' & Hxs & Hns & Hse & Hpid'); [lia | lia | done |]. exists r', (x :: xs). cbn [fetch_n]. rewrite E. cbn [mbind outcome_bind]. rewrite E'.
    split; [done |]. rewrite (items_of_drop _ _ _ _ _ Hv). rewrite Hpid in *. split; [by constructor |]. split; [by eapply numbers_cons |]. by split.
Qed.

(** The records with the address that follows each; [last] follows the last one. *)
Fixpoint chain (recs : list trace_info_cpu_s) (last : Z) : list trace_info_cpu_s :=
  match recs with
  | [] => []
  | x :: rest => set_next_addr (match rest with [] => last | y :: _ => p_instruction_addr y end) x :: chain rest last
  end.
Fixpoint items (seen : list Z) (pis : list trace_info_cpu_s) : list item :=
  match pis with
  | [] => []
  | pi :: pis' => items_of pi (bool_decide (pis' = [])) (views_of seen pi) ++ items (p_instruction_addr pi :: seen) pis'
  end.

Lemma inst_delivered seen prev rest r : idle seen prev rest r -> n_last_uop x0 = false -> exists last,
  let pi := set_next_addr (match rest with [] => last | y :: _ => p_instruction_addr y end) prev in
  exists r' xs, fetch_n (length xs) r = Done (r', xs) /\ Forall2 (delivers_item (m_process_id (process r))) (items_of pi (bool_decide (rest = [])) (views_of seen pi)) xs /\
    numbers r xs r' /\ m_process_id (process r') = m_process_id (process r) /\
    match rest with [] => default false (m_fetch_ended (core r') !! tid) = true | y :: rest' => idle (p_instruction_addr prev :: seen) y rest' r' end.
Proof.
  intros Hid Hx. destruct (first_ok seen prev rest r Hid Hx) as (last & r1 & x & v & Hv & E & Hdv & Hnum & Hs & Hpid). exists last. cbn zeta in *.
  set (pi := set_next_addr _ prev) in *. assert (Hp : fetchable pi) by (apply fetchable_next; exact (Forall_inv (tl_ok _ _ _ (id_live _ _ _ _ Hid)))).
  assert (Hlen : (0 < length (views_of seen pi))%nat) by (rewrite views_of_length; pose proof (inst_views_length dk pi); lia).
  destruct (rest_delivered seen (p_instruction_addr prev :: seen) pi (after rest) Hp ltac:(left) Hx (length (views_of seen pi) - 1) 1 r1) as (r' & xs & E' & Hxs & Hns & Hse & Hpid');
    [lia | lia | done |].
  assert (Hfin : bool_decide (after rest = None) = bool_decide (rest = [])) by (apply bool_decide_ext; by destruct rest). rewrite Hfin, Hpid in *.
  assert (Hall : Forall2 (delivers_item (m_process_id (process r))) (items_of pi (bool_decide (rest = [])) (views_of seen pi)) (x :: xs)).
  { rewrite <- (drop_0 (items_of _ _ _)), (items_of_drop _ _ _ _ _ Hv). by constructor. }
  exists r', (x :: xs). split; [| split; [done | split; [by eapply numbers_cons | split; [by rewrite Hpid' |]]]].
  - pose proof (Forall2_length _ _ _ Hxs) as Hl. rewrite length_drop in Hl. unfold items_of in Hl. rewrite length_imap in Hl. cbn [length fetch_n]. rewrite E.
    cbn [mbind outcome_bind]. replace (length xs) with (length (views_of seen pi) - 1)%nat by lia. by rewrite E'.
  - destruct Hse as [Hw Hst Ha Hb _ He]. rewrite Nat.eqb_refl in Hb, He. destruct rest as [| y rest']; [by rewrite He |]. destruct Hst as [Hl _]. split; [done | done | done |].
    by rewrite He.
Qed.

Lemma trace_delivered_from rest : n_last_uop x0 = false -> forall seen prev r, idle seen prev rest r -> exists last r' xs,
  fetch_n (length xs) r = Done (r', xs) /\ Forall2 (delivers_item (m_process_id (process r))) (items seen (chain (prev :: rest) last)) xs /\
  numbers r xs r' /\ default false (m_fetch_ended (core r') !! tid) = true.
Proof.
  intros Hx. induction rest as [| y rest IH]; intros seen prev r Hid; destruct (inst_delivered seen prev _ r Hid Hx) as (last & r1 & xs & E & Hxs & Hns & Hpid & Hr1).
  - exists last, r1, xs. split; [done |]. split; [| done]. cbn [chain items]. rewrite app_nil_r. exact Hxs.
  - destruct (IH _ y r1 Hr1) as (last' & r' & ys & E' & Hys & Hns' & Hend). exists last', r', (xs ++ ys). rewrite length_app. split; [by eapply fetch_n_app |].
    split; [| split; [by eapply numbers_app | done]]. rewrite Hpid in Hys. cbn [chain items] in *. apply Forall2_app; [exact Hxs | exact Hys].
Qed.

(** A thread before its first record was read. *)
Record fresh_reader (first : trace_info_cpu_s) (file : list trace_info_cpu_s) (r : reader) : Prop := {
  fr_file : m_trace_file (io (thread r)) = first :: file;
  fr_buffer : length (m_buffer (io (thread r))) = Z.to_nat K;
  fr_index : m_buffer_index (io (thread r)) = 0;
  fr_ended : m_trace_ended (io (thread r)) = false;
  fr_inside : m_inside_hmc_func (insts (thread r)) = false;
  fr_bom : m_bom (seq (thread r)) = true;
  fr_open : default false (m_fetch_ended (core r) !! tid) = false;
  fr_world : world_ok [] r;
  fr_limit : default 0 (m_inst_fetched (core r) !! tid) + Z.of_nat (length file) < KNOB_MAX_INSTS k
}.
Lemma cut_spec file : cut 0 file = file \/ exists x, file = cut 0 file ++ [x].
Proof.
  unfold cut. destruct (_ =? 0) eqn:E; [by left |]. right. destruct file as [| y l]; [done |]. exists (List.last (y :: l) y). by apply app_removelast_last.
Qed.
Lemma setup_idle first file r : fresh_reader first file r -> Forall fetchable (first :: file) -> idle [] first (cut 0 file) (setup_trace r) /\ process (setup_trace r) = process r.
Proof.
  intros [F1 F2 F3 F4 F5 F6 F7 F8 F9] Hall. unfold setup_trace. destruct F8 as [W1 W2 W3 W4 W5 W6 W7]. rewrite (proj2 (Z.eqb_neq _ _) W1), F1. split; [| done].
  apply Forall_cons in Hall as [Hfirst Hfile]. assert (Hc : (length (cut 0 file) <= length file)%nat /\ Forall fetchable (cut 0 file)).
  { destruct (cut_spec file) as [-> | [x E]]; [done |]. rewrite E in Hfile |- * at 2. rewrite length_app. apply Forall_app in Hfile as [Hfile _]. split; [lia | done]. }
  split; [by split | | done | done]. split; simpl; try done.
  - rewrite F3. split; simpl; try done; unfold K; lia.
  - unfold coming, unread. simpl. by rewrite F3.
  - lia.
  - constructor; [done | apply Hc].
Qed.
End STREAM.

(** ** An example *)

Module StreamExample.
Import DecoderExample.
Definition rknobs : read_knobs := mk_read_knobs knobs 100 false 64 4096 65536 64.
Definition x0 : new_uop := mk_new false false false 0 0 0 0 XED_CATEGORY_INVALID (mk_kind UOP_NOP NOT_MEM NOT_CF NOT_BAR) 0 0 false 0 0 0 0 0 0 0 [] [].
Definition fresh (file : list trace_info_cpu_s) : reader :=
  mk_reader (mk_core 1 ∅ ∅ ∅ 0 1 0) (mk_process 1 1 1 [0] ∅ ∅ [])
    (mk_thread (mk_io file (replicate 1000 mul) 0 0 false false) (mk_insts mul mul 0 0 false 0) (mk_seq true false 0 0 0 array) true true 0) no_mapper false.
Lemma fresh_is_ok first file : (length file < 100)%nat -> fresh_reader rknobs 0 code first file (fresh (first :: file)).
Proof.
  intros H. split; try done; [| change (0 + Z.of_nat (length file) < 100); lia].
  split; try done. apply array_is_ok.
Qed.
Lemma trace_fetchable : Forall (fetchable rknobs code) trace.
Proof.
  pose proof trace_is_ok as H. unfold trace in *. apply Forall_cons in H as [H1 H]. apply Forall_cons in H as [H2 H]. apply Forall_cons in H as [H3 _].
  repeat (constructor; [split; [done | by vm_compute..] |]). constructor.
Qed.
End StreamExample.

(** ** Properties *)

(** C8: Take a thread at the start of its trace, whose records are those of
    the decoder's claim (no string operations, no GPU records, HMC fence
    option off) and also fit the smaller arrays of the pipeline, with a size
    for every access; let the trace be shorter than KNOB_MAX_INSTS, its
    process have no HMC functions, no page mapper be installed, and nothing
    of the program be decoded before. Then from its first record on the
    thread delivers exactly the micro-operations of its trace, one per call
    and in order: the first record and those behind it, of which the last is
    executed only when they fill whole chunks of the buffer. Each has the
    registers, the kind, the address and the position it has in its
    instruction; numbers are consecutive; the very last one is marked as
    such, and every further call delivers nothing. *)
Theorem trace_delivered k junk tid fuel x0 code first file r :
  info_ok junk -> KNOB_ENABLE_HMC_FENCE (rk_decoder k) = false -> 0 < KNOB_MAX_TRANSACTION_SIZE k -> n_last_uop x0 = false ->
  fresh_reader k tid code first file r -> Forall (fetchable k code) (first :: file) ->
  exists last r' xs, (forall m, (length xs <= m)%nat -> fetch_n k junk tid fuel x0 m (setup_trace r) = Done (r', xs)) /\
    Forall2 (delivers_item k tid (m_process_id (process r))) (items k [] (chain (first :: cut 0 file) last)) xs /\
    n_uop_num <$> xs = seqZ (m_temp_uop_count (seq (thread (setup_trace r)))) (Z.of_nat (length xs)).
Proof.
  intros Hj Hf Ht Hx Hr Hall. destruct (setup_idle k tid code first file r Hr Hall) as [Hid Hp].
  destruct (trace_delivered_from k junk tid fuel x0 code Hj Hf Ht (cut 0 file) Hx [] first _ Hid) as (last & r' & xs & E & Hxs & [Hns _] & Hend).
  exists last, r', xs. rewrite Hp in Hxs. split; [| done]. intros m Hm. replace m with (length xs + (m - length xs))%nat by lia.
  rewrite (fetch_n_app k junk tid fuel x0 _ _ _ _ _ _ [] E eq_refl (fetch_n_ended k junk tid fuel x0 _ _ Hend)). by rewrite app_nil_r.
Qed.
(** Witness: an addition to memory and a multiplication, each executed twice. *)
Lemma trace_delivered_witness : exists last r' xs,
  (forall m, (length xs <= m)%nat -> fetch_n StreamExample.rknobs DecoderExample.junk 0 0 StreamExample.x0 m (setup_trace (StreamExample.fresh DecoderExample.trace)) = Done (r', xs)) /\
  Forall2 (delivers_item StreamExample.rknobs 0 1)
    (items StreamExample.rknobs [] (chain (DecoderExample.add_mem 512 :: cut 0 [DecoderExample.mul; DecoderExample.add_mem 520; DecoderExample.mul]) last)) xs /\
  n_uop_num <$> xs = seqZ 0 (Z.of_nat (length xs)).
Proof.
  apply (trace_delivered StreamExample.rknobs DecoderExample.junk 0 0 StreamExample.x0 DecoderExample.code (DecoderExample.add_mem 512)
    [DecoderExample.mul; DecoderExample.add_mem 520; DecoderExample.mul] (StreamExample.fresh DecoderExample.trace)); try done.
  - apply StreamExample.fresh_is_ok. simpl. lia.
  - exact StreamExample.trace_fetchable.
Defined.

(** Of a file with two records only the first is executed. *)
Theorem last_record_dropped : exists r u,
  fetch_n StreamExample.rknobs DecoderExample.junk 0 0 StreamExample.x0 10 (setup_trace (StreamExample.fresh [DecoderExample.mul; DecoderExample.mul])) = Done (r, [u]) /\
  n_last_uop u = true.
Proof. eexists _, _. split; [vm_compute; reflexivity | reflexivity]. Qed.

(** The threads of a process start together: when the first of them is due, those that
    should start later are created as well. *)
Theorem threads_start_together no count start n p : m_thread_start_info p !! Z.to_nat no = Some start -> 0 <= no -> count = start ->
  m_no_of_threads_created p + Z.of_nat n = m_no_of_threads p -> create_threads n no count p = Done (all_created p).
Proof. intros Hs Hno -> Hn. apply (create_threads_all no start start n p); [done | done | by rewrite Z.eqb_refl | done]. Qed.

(** Skipping an offloaded function never ends when the trace ends inside it. *)
Theorem skip_function_hangs tid fuel ret_pc : forall r, m_trace_ended (io (thread r)) = true -> p_instruction_addr (m_next_trace_info (insts (thread r))) <> ret_pc ->
  skip_function tid fuel ret_pc r = Fault Diverged.
Proof.
  induction fuel as [| fuel IH]; intros r He Hn; [done |]. cbn [skip_function]. unfold read_trace. cbn [read_loop]. rewrite He, andb_false_r.
  cbn [negb mbind outcome_bind mret outcome_ret with_core core thread]. rewrite (proj2 (Z.eqb_neq _ _) Hn). by apply IH.
Qed.
