(* ===== verification/ProcessManager.v ===== *)
(** * The process manager (process_manager.cc, thread part of core.cc)

    Threads that may start wait in a queue, those of GPU blocks in a queue per
    block. [sim_thread_schedule] puts them on cores: CPU threads one by one on the
    core the policy picks, blocks as a whole on one core. A thread that ends makes
    room for the next. Threads, nodes and blocks are values here; which process a
    thread belongs to is the address of the process. *)

From S2P Require Import Prelude.
From S2P Require Import Utils.

Definition BLOCK_ID_SHIFT : Z := 16.
Definition BLOCK_ID_MOD : Z := 16384.

(** ** State *)

(** In the order of their names. *)
Inductive Core_Type := core_a64 | core_igpu | core_ptx | core_x86.
#[export] Instance Core_Type_eq_dec : EqDecision Core_Type.
Proof. solve_decision. Defined.
Definition core_types : list Core_Type := [core_a64; core_igpu; core_ptx; core_x86].

Record thread_trace_info_node_s := mk_node { n_process : nat; n_tid : Z; n_main : bool; n_acc : bool; n_block_id : Z }.
Record block_schedule_info_s := mk_block {
  m_start_to_fetch : bool;
  m_dispatched_core_id : Z;
  m_retired : bool;
  m_dispatched_thread_num : Z;
  m_retired_thread_num : Z;
  m_total_thread_num : Z;
  m_trace_exist : bool;
  m_sched_cycle : Z
}.
Record process_s := mk_process {
  m_process_id : Z;
  m_orig_pid : Z;
  m_max_block : Z;
  m_thread_start_info : list Z;              (* thread ids *)
  m_no_of_threads_terminated : Z;
  m_core_list : gset Z;
  m_acc : bool;
  m_kernel_block_start_count : list Z;
  m_current_vector_index : Z;
  m_block_list : gset Z;
  m_block_count : Z
}.
Record thread_s := mk_thread {
  th_process : nat;
  th_tid : Z;
  th_thread_id : Z;
  th_block_id : Z;
  th_orig_block_id : Z;
  th_unique_thread_id : Z;
  th_orig_thread_id : Z;
  th_main : bool;
  th_acc : bool
}.
(** The last three are arrays over the cores in the simulator. *)
Record core_c := mk_core {
  m_core_type : Core_Type;
  m_max_threads_per_core : Z;
  m_running_thread_num : Z;
  m_running_block_num : Z;
  m_fetching_block_id : Z;
  m_unique_scheduled_thread_num : Z;
  m_fetching_thread_num : Z;
  m_thread_trace_info : gmap Z thread_s;
  m_fetch_ended : gmap Z bool;
  m_thread_finished : gmap Z bool;
  m_thread_reach_end : gmap Z bool;
  m_terminated_tid : gset Z;
  m_last_terminated_tid : Z;
  m_tid_to_appl_map : gmap Z nat;
  m_appl_id : Z;
  m_core_end_trace : bool;
  m_sim_end : bool;
  m_core_started : bool
}.
Record manager := mk_manager {
  m_core_pointers : list core_c;
  processes : gmap nat process_s;
  m_sim_processes : gmap Z nat;
  m_thread_queue : list thread_trace_info_node_s;
  m_block_queue : gmap Z (list thread_trace_info_node_s);
  m_block_schedule_info : gmap Z block_schedule_info_s;
  m_block_id_mapper : MultiKey.multi_key_map_c;
  m_num_waiting_dispatched_threads : Z;
  m_num_active_threads : Z;
  global_unique_thread_id : Z;
  m_all_threads : Z;
  m_total_retired_block : Z;
  m_end_simulation : bool;
  AVG_BLOCK_EXE_CYCLE : Z
}.
Record pm_knobs := mk_pm_knobs {
  KNOB_CORE_THREAD_SCHED_balanced : bool;
  KNOB_ROUTER_PLACEMENT : Z;
  KNOB_CORE_ENABLE_BEGIN : Z;
  KNOB_CORE_ENABLE_END : Z;
  KNOB_ASSIGN_BLOCKS_GREEDILY_INITIALLY : bool;
  KNOB_MAX_NUM_CORE_PER_APPL : Z;
  KNOB_MAX_BLOCKS_TO_SIMULATE : Z
}.

(** ** Updates *)

Definition with_cores (c : list core_c) (m : manager) : manager :=
  mk_manager c (processes m) (m_sim_processes m) (m_thread_queue m) (m_block_queue m) (m_block_schedule_info m) (m_block_id_mapper m)
    (m_num_waiting_dispatched_threads m) (m_num_active_threads m) (global_unique_thread_id m) (m_all_threads m) (m_total_retired_block m) (m_end_simulation m)
    (AVG_BLOCK_EXE_CYCLE m).
Definition with_processes (p : gmap nat process_s) (m : manager) : manager :=
  mk_manager (m_core_pointers m) p (m_sim_processes m) (m_thread_queue m) (m_block_queue m) (m_block_schedule_info m) (m_block_id_mapper m)
    (m_num_waiting_dispatched_threads m) (m_num_active_threads m) (global_unique_thread_id m) (m_all_threads m) (m_total_retired_block m) (m_end_simulation m)
    (AVG_BLOCK_EXE_CYCLE m).
Definition with_queues (q : list thread_trace_info_node_s) (b : gmap Z (list thread_trace_info_node_s)) (waiting : Z) (m : manager) : manager :=
  mk_manager (m_core_pointers m) (processes m) (m_sim_processes m) q b (m_block_schedule_info m) (m_block_id_mapper m)
    waiting (m_num_active_threads m) (global_unique_thread_id m) (m_all_threads m) (m_total_retired_block m) (m_end_simulation m)
    (AVG_BLOCK_EXE_CYCLE m).
Definition with_blocks (b : gmap Z block_schedule_info_s) (m : manager) : manager :=
  mk_manager (m_core_pointers m) (processes m) (m_sim_processes m) (m_thread_queue m) (m_block_queue m) b (m_block_id_mapper m)
    (m_num_waiting_dispatched_threads m) (m_num_active_threads m) (global_unique_thread_id m) (m_all_threads m) (m_total_retired_block m) (m_end_simulation m)
    (AVG_BLOCK_EXE_CYCLE m).
Definition with_mapper (b : MultiKey.multi_key_map_c) (m : manager) : manager :=
  mk_manager (m_core_pointers m) (processes m) (m_sim_processes m) (m_thread_queue m) (m_block_queue m) (m_block_schedule_info m) b
    (m_num_waiting_dispatched_threads m) (m_num_active_threads m) (global_unique_thread_id m) (m_all_threads m) (m_total_retired_block m) (m_end_simulation m)
    (AVG_BLOCK_EXE_CYCLE m).
Definition with_active (n : Z) (m : manager) : manager :=
  mk_manager (m_core_pointers m) (processes m) (m_sim_processes m) (m_thread_queue m) (m_block_queue m) (m_block_schedule_info m) (m_block_id_mapper m)
    (m_num_waiting_dispatched_threads m) n (global_unique_thread_id m) (m_all_threads m) (m_total_retired_block m) (m_end_simulation m)
    (AVG_BLOCK_EXE_CYCLE m).
Definition with_unique (n : Z) (m : manager) : manager :=
  mk_manager (m_core_pointers m) (processes m) (m_sim_processes m) (m_thread_queue m) (m_block_queue m) (m_block_schedule_info m) (m_block_id_mapper m)
    (m_num_waiting_dispatched_threads m) (m_num_active_threads m) n (m_all_threads m) (m_total_retired_block m) (m_end_simulation m)
    (AVG_BLOCK_EXE_CYCLE m).
Definition with_retired (n : Z) (b : bool) (cycles : Z) (m : manager) : manager :=
  mk_manager (m_core_pointers m) (processes m) (m_sim_processes m) (m_thread_queue m) (m_block_queue m) (m_block_schedule_info m) (m_block_id_mapper m)
    (m_num_waiting_dispatched_threads m) (m_num_active_threads m) (global_unique_thread_id m) (m_all_threads m) n b cycles.

Definition set_process_blocks (l : gset Z) (count : Z) (p : process_s) : process_s :=
  mk_process (m_process_id p) (m_orig_pid p) (m_max_block p) (m_thread_start_info p) (m_no_of_threads_terminated p) (m_core_list p) (m_acc p)
    (m_kernel_block_start_count p) (m_current_vector_index p) l count.
Definition count_terminated (p : process_s) : process_s :=
  mk_process (m_process_id p) (m_orig_pid p) (m_max_block p) (m_thread_start_info p) (m_no_of_threads_terminated p + 1) (m_core_list p) (m_acc p)
    (m_kernel_block_start_count p) (m_current_vector_index p) (m_block_list p) (m_block_count p).
Definition set_dispatched (n : Z) (b : block_schedule_info_s) : block_schedule_info_s :=
  mk_block (m_start_to_fetch b) (m_dispatched_core_id b) (m_retired b) n (m_retired_thread_num b) (m_total_thread_num b) (m_trace_exist b) (m_sched_cycle b).
Definition set_running_blocks (n fetching : Z) (c : core_c) : core_c :=
  mk_core (m_core_type c) (m_max_threads_per_core c) (m_running_thread_num c) n fetching (m_unique_scheduled_thread_num c) (m_fetching_thread_num c)
    (m_thread_trace_info c) (m_fetch_ended c) (m_thread_finished c) (m_thread_reach_end c) (m_terminated_tid c) (m_last_terminated_tid c) (m_tid_to_appl_map c)
    (m_appl_id c) (m_core_end_trace c) (m_sim_end c) (m_core_started c).

(** A core, a process, a block: [p->field] of a missing one is an error. *)
Definition at_core (i : Z) (f : core_c -> core_c) (m : manager) : outcome manager :=
  c ← aget (m_core_pointers m) i; l ← aset (m_core_pointers m) i (f c); mret (with_cores l m).
Definition get_process (p : nat) (m : manager) : outcome process_s := get_or NullDeref (processes m !! p).
Definition get_block (b : Z) (m : manager) : outcome block_schedule_info_s := get_or NullDeref (m_block_schedule_info m !! b).

(** ** Waiting threads *)

Definition insert_thread (n : thread_trace_info_node_s) (m : manager) : manager :=
  with_queues (m_thread_queue m ++ [n]) (m_block_queue m) (m_num_waiting_dispatched_threads m + 1) m.
Definition block_new : block_schedule_info_s := mk_block false (-1) false 0 0 0 false 0.
Definition insert_block (n : thread_trace_info_node_s) (m : manager) : manager :=
  let b := n_block_id n in
  let i := default block_new (m_block_schedule_info m !! b) in
  let i' := mk_block (m_start_to_fetch i) (m_dispatched_core_id i) (m_retired i) (m_dispatched_thread_num i) (m_retired_thread_num i) (m_total_thread_num i + 1) true (m_sched_cycle i) in
  with_blocks (<[b := i']> (m_block_schedule_info m))
    (with_queues (m_thread_queue m) (<[b := default [] (m_block_queue m !! b) ++ [n]]> (m_block_queue m)) (m_num_waiting_dispatched_threads m + 1) m).
Definition fetch_thread (m : manager) : outcome (option thread_trace_info_node_s * manager) :=
  match m_thread_queue m with
  | [] => mret (None, m)
  | n :: q =>
      _ ← ASSERT (0 <? m_num_waiting_dispatched_threads m);
      mret (Some n, with_queues q (m_block_queue m) (m_num_waiting_dispatched_threads m - 1) m)
  end.
Definition fetch_block (b : Z) (m : manager) : outcome (option thread_trace_info_node_s * manager) :=
  l ← get_or NullDeref (m_block_queue m !! b);
  match l with
  | [] => mret (None, m)
  | n :: q =>
      _ ← ASSERT (0 <? m_num_waiting_dispatched_threads m);
      mret (Some n, with_queues (m_thread_queue m) (<[b := q]> (m_block_queue m)) (m_num_waiting_dispatched_threads m - 1) m)
  end.

(** The block of thread [tid] of a process, as the mapper knows it. *)
Definition block_key (tid : Z) (p : process_s) : outcome Z :=
  start ← aget (m_thread_start_info p) tid;
  first ← aget (m_kernel_block_start_count p) (m_current_vector_index p - 1);
  mret (Z.shiftr start BLOCK_ID_SHIFT + first).
Definition create_thread_node (pa : nat) (tid : Z) (main : bool) (m : manager) : outcome manager :=
  p ← get_process pa m;
  key ← block_key tid p;
  b0 ← MultiKey.find (m_process_id p) key (m_block_id_mapper m);
  '(b, mapper, count) ← (if b0 =? -1 then '(b, mapper) ← MultiKey.insert (m_process_id p) key (m_block_id_mapper m); mret (b, mapper, m_block_count p + 1)
                         else mret (b0, m_block_id_mapper m, m_block_count p));
  let p' := set_process_blocks ({[b]} ∪ m_block_list p) count p in
  let m1 := with_mapper mapper (with_processes (<[pa := p']> (processes m)) m) in
  let node := mk_node pa tid main (m_acc p) b in
  let m2 := if m_acc p then insert_block node m1 else insert_thread node m1 in
  mret (with_active (m_num_active_threads m2 + 1) m2).

(** ** Starting a thread *)

Section MANAGER.
Context (k : pm_knobs) (cycle_count : Z).

(** The trace file and the decoder's data of the thread belong to the trace reader. *)
Definition create_thread (n : thread_trace_info_node_s) (m : manager) : outcome (thread_s * manager) :=
  p ← get_process (n_process n) m;
  start ← aget (m_thread_start_info p) (n_tid n);
  key ← block_key (n_tid n) p;
  b ← MultiKey.find (m_process_id p) key (m_block_id_mapper m);
  mret (mk_thread (n_process n) (n_tid n) 0 b (Z.shiftr start BLOCK_ID_SHIFT) (Z.rem start BLOCK_ID_MOD) (global_unique_thread_id m) (n_main n) (m_acc p),
        with_unique (global_unique_thread_id m + 1) m).
Definition set_thread_id (i : Z) (t : thread_s) : thread_s :=
  mk_thread (th_process t) (th_tid t) i (th_block_id t) (th_orig_block_id t) (th_unique_thread_id t) (th_orig_thread_id t) (th_main t) (th_acc t).
(** [add_application], [create_trace_info] and the flags of the simulation. *)
Definition add_thread (t : thread_s) (p : process_s) (c : core_c) : core_c :=
  let tid := m_unique_scheduled_thread_num c in
  mk_core (m_core_type c) (m_max_threads_per_core c) (m_running_thread_num c + 1) (m_running_block_num c) (m_fetching_block_id c) (tid + 1)
    (m_fetching_thread_num c + 1) (<[tid := set_thread_id tid t]> (m_thread_trace_info c)) (<[tid := false]> (m_fetch_ended c)) (<[tid := false]> (m_thread_finished c))
    (<[tid := false]> (m_thread_reach_end c)) (m_terminated_tid c) (m_last_terminated_tid c) (<[tid := th_process t]> (m_tid_to_appl_map c)) (m_orig_pid p)
    false false true.
Definition start_thread (core_id : Z) (n : thread_trace_info_node_s) (m : manager) : outcome (thread_s * manager) :=
  '(t, m1) ← create_thread n m;
  p ← get_process (n_process n) m1;
  m2 ← at_core core_id (add_thread t p) m1;
  mret (t, m2).

(** ** Choosing a core *)

Definition disabled (core_id : Z) (c : core_c) : bool :=
  (KNOB_ROUTER_PLACEMENT k =? 1) && negb (bool_decide (m_core_type c = core_ptx)) &&
  ((core_id <? KNOB_CORE_ENABLE_BEGIN k) || (KNOB_CORE_ENABLE_END k <? core_id)).
Definition has_room (ty : Core_Type) (core_id : Z) (c : core_c) : bool :=
  negb (disabled core_id c) && (m_running_thread_num c <? m_max_threads_per_core c) && bool_decide (m_core_type c = ty).
Fixpoint available_loop (ty : Core_Type) (core_id : Z) (l : list core_c) : Z :=
  match l with
  | [] => -1
  | c :: l' => if has_room ty core_id c then core_id else available_loop ty (core_id + 1) l'
  end.
Definition get_next_available_core (ty : Core_Type) (m : manager) : Z := available_loop ty 0 (m_core_pointers m).
(** [INT_MAX] is the occupancy to beat at first. *)
Fixpoint occupancy_loop (ty : Core_Type) (core_id least_occupied_core min_occupancy : Z) (l : list core_c) : Z :=
  match l with
  | [] => least_occupied_core
  | c :: l' =>
      if has_room ty core_id c && (m_running_thread_num c <? min_occupancy)
      then occupancy_loop ty (core_id + 1) core_id (m_running_thread_num c) l'
      else occupancy_loop ty (core_id + 1) least_occupied_core min_occupancy l'
  end.
Definition get_next_low_occupancy_core (ty : Core_Type) (m : manager) : Z := occupancy_loop ty 0 (-1) (2 ^ 31 - 1) (m_core_pointers m).
Definition get_next_core (ty : Core_Type) (m : manager) : Z :=
  if KNOB_CORE_THREAD_SCHED_balanced k then get_next_low_occupancy_core ty m else get_next_available_core ty m.

(** ** Scheduling *)

(** [n] bounds the turns that are left. *)
Fixpoint cpu_loop (n : nat) (ty : Core_Type) (m : manager) : outcome manager :=
  match n with
  | O => Fault Diverged
  | S n' =>
      let core_id := get_next_core ty m in
      if core_id <? 0 then mret m else
      '(on, m1) ← fetch_thread m;
      match on with
      | None => mret m1
      | Some node => '(_, m2) ← start_thread core_id node m1; cpu_loop n' ty m2
      end
  end.
Fixpoint cpu_types (tys : list Core_Type) (m : manager) : outcome manager :=
  match tys with
  | [] => mret m
  | ty :: tys' => m1 ← (if bool_decide (ty = core_ptx) then mret m else cpu_loop (S (length (m_thread_queue m))) ty m); cpu_types tys' m1
  end.
Definition core_type_set (m : manager) : list Core_Type := filter (fun ty => ty ∈ m_core_type <$> m_core_pointers m) core_types.

(** Blocks in the order of their numbers. *)
Definition blocks_of (p : process_s) : list Z := merge_sort Z.le (elements (m_block_list p)).
Definition round_robin_skips (core_id b : Z) (p : process_s) (m : manager) : outcome bool :=
  min_core_id ← (if KNOB_MAX_NUM_CORE_PER_APPL k =? 0 then mret 0 else get_or NullDeref (head (merge_sort Z.le (elements (m_core_list p)))));
  first ← aget (m_kernel_block_start_count p) (m_current_vector_index p - 1);
  b0 ← MultiKey.find (m_process_id p) first (m_block_id_mapper m);
  let num_core_per_appl := Z.of_nat (size (m_core_list p)) in
  if num_core_per_appl =? 0 then Fault DivByZero else mret (negb (Z.rem (b - b0) num_core_per_appl =? core_id - min_core_id)).
Fixpoint find_block (core_id : Z) (initial : bool) (p : process_s) (l : list Z) (m : manager) : outcome Z :=
  match l with
  | [] => mret (-1)
  | b :: l' =>
      skip ← (if initial && negb (KNOB_ASSIGN_BLOCKS_GREEDILY_INITIALLY k) then round_robin_skips core_id b p m else mret false);
      if skip : bool then find_block core_id initial p l' m else
      i ← get_block b m;
      if negb (m_start_to_fetch i) && m_trace_exist i then mret b else find_block core_id initial p l' m
  end.
(** The block a core goes on with. *)
Definition current_block (c : core_c) (m : manager) : option Z :=
  let b := m_fetching_block_id c in
  if b =? -1 then None else
  match m_block_schedule_info m !! b with
  | Some i => if negb (m_retired i) && (m_dispatched_thread_num i <? m_total_thread_num i) then Some b else None
  | None => None
  end.
Definition sim_schedule_thread_block (core_id : Z) (initial : bool) (m : manager) : outcome (Z * manager) :=
  c ← aget (m_core_pointers m) core_id;
  match current_block c m with
  | Some b => mret (b, m)
  | None =>
      pa ← get_or NullDeref (m_sim_processes m !! m_appl_id c);
      p ← get_process pa m;
      if m_max_block p <? m_running_block_num c + 1 then mret (-1, m) else
      b ← find_block core_id initial p (blocks_of p) m;
      if b =? -1 then mret (-1, m) else
      i ← get_block b m;
      let i' := mk_block true core_id (m_retired i) (m_dispatched_thread_num i) (m_retired_thread_num i) (m_total_thread_num i) (m_trace_exist i) cycle_count in
      m1 ← at_core core_id (set_running_blocks (m_running_block_num c + 1) b) (with_blocks (<[b := i']> (m_block_schedule_info m)) m);
      mret (b, m1)
  end.

(** The threads of blocks, as long as the core has room; [n] bounds the turns. *)
Fixpoint gpu_loop (n : nat) (core_id : Z) (initial : bool) (b : Z) (m : manager) : outcome manager :=
  match n with
  | O => Fault Diverged
  | S n' =>
      '(on, m1) ← fetch_block b m;
      match on with
      | None => mret m1
      | Some node =>
          '(t, m2) ← start_thread core_id node m1;
          i ← get_block b m2;
          let m3 := with_blocks (<[b := set_dispatched (m_dispatched_thread_num i + 1) i]> (m_block_schedule_info m2)) m2 in
          _ ← ASSERT (u32 (th_unique_thread_id t) <? m_all_threads m3);
          c ← aget (m_core_pointers m3) core_id;
          if m_running_thread_num c =? m_max_threads_per_core c then mret m3 else
          '(b', m4) ← sim_schedule_thread_block core_id initial m3;
          if b' =? -1 then mret m4 else gpu_loop n' core_id initial b' m4
      end
  end.
(** One core after the other, from number [core_id] on. *)
Fixpoint gpu_cores (n : nat) (core_id : Z) (initial : bool) (m : manager) : outcome manager :=
  match n with
  | O => mret m
  | S n' =>
      c ← aget (m_core_pointers m) core_id;
      m1 ← (if negb (bool_decide (m_core_type c = core_ptx)) then mret m else
            '(b, m') ← sim_schedule_thread_block core_id initial m;
            if b =? -1 then mret m' else gpu_loop (S (Z.to_nat (m_num_waiting_dispatched_threads m'))) core_id initial b m');
      gpu_cores n' (core_id + 1) initial m1
  end.
Definition sim_thread_schedule (initial : bool) (m : manager) : outcome manager :=
  m1 ← cpu_types (core_type_set m) m;
  gpu_cores (length (m_core_pointers m1)) 0 initial m1.

(** ** The end of a thread *)

(** All threads below [m_last_terminated_tid] have ended. *)
Fixpoint drop_terminated (n : nat) (last : Z) (s : gset Z) : outcome (Z * gset Z) :=
  if negb (bool_decide (last ∈ s)) then mret (last, s) else
  match n with
  | O => Fault Diverged
  | S n' => drop_terminated n' (last + 1) (s ∖ {[last]})
  end.
Definition deallocate_thread_data (tid : Z) (c : core_c) : outcome core_c :=
  '(last, s) ← drop_terminated (S (size (m_terminated_tid c))) (m_last_terminated_tid c) ({[tid]} ∪ m_terminated_tid c);
  _ ← ASSERT (m_unique_scheduled_thread_num c <? last + 1000);
  mret (mk_core (m_core_type c) (m_max_threads_per_core c) (m_running_thread_num c) (m_running_block_num c) (m_fetching_block_id c) (m_unique_scheduled_thread_num c)
    (m_fetching_thread_num c) (m_thread_trace_info c) (m_fetch_ended c) (m_thread_finished c) (m_thread_reach_end c) s last (m_tid_to_appl_map c)
    (m_appl_id c) (m_core_end_trace c) (m_sim_end c) (m_core_started c)).
Definition finish_thread (tid : Z) (c : core_c) : core_c :=
  let n := m_running_thread_num c - 1 in
  mk_core (m_core_type c) (m_max_threads_per_core c) n (m_running_block_num c) (m_fetching_block_id c) (m_unique_scheduled_thread_num c)
    (m_fetching_thread_num c) (m_thread_trace_info c) (m_fetch_ended c) (<[tid := true]> (m_thread_finished c)) (m_thread_reach_end c) (m_terminated_tid c)
    (m_last_terminated_tid c) (m_tid_to_appl_map c) (m_appl_id c) (if n =? 0 then true else m_core_end_trace c) (m_sim_end c) (m_core_started c).
(** The last thread of a block retires the block. The statistic of the cycles it ran
    is taken after its entry was deleted: [stale] is what the freed memory then holds
    in the place of the cycle the block started at. *)
Definition retire_block (stale core_id : Z) (t : thread_s) (m : manager) : outcome manager :=
  let b := th_block_id t in
  i ← get_block b m;
  let n := m_retired_thread_num i + 1 in
  if negb (n =? m_total_thread_num i) then
    mret (with_blocks (<[b := mk_block (m_start_to_fetch i) (m_dispatched_core_id i) (m_retired i) (m_dispatched_thread_num i) n (m_total_thread_num i) (m_trace_exist i) (m_sched_cycle i)]>
                         (m_block_schedule_info m)) m)
  else
    c ← aget (m_core_pointers m) core_id;
    m1 ← at_core core_id (set_running_blocks (m_running_block_num c - 1) (m_fetching_block_id c)) m;
    p ← get_process (th_process t) m1;
    _ ← get_or NullDeref (m_block_queue m1 !! b);
    let retired := m_total_retired_block m1 + 1 in
    let done := m_end_simulation m1 || ((0 <? KNOB_MAX_BLOCKS_TO_SIMULATE k) && (KNOB_MAX_BLOCKS_TO_SIMULATE k <=? retired)) in
    _ ← ASSERT (0 <=? m_running_block_num c - 1);
    mret (with_retired retired done (u64 (AVG_BLOCK_EXE_CYCLE m1 + u32 (cycle_count - stale)))
            (with_queues (m_thread_queue m1) (base.delete b (m_block_queue m1)) (m_num_waiting_dispatched_threads m1)
              (with_processes (<[th_process t := set_process_blocks (m_block_list p ∖ {[b]}) (m_block_count p) p]> (processes m1))
                (with_blocks (base.delete b (m_block_schedule_info m1)) m1)))).
(** The last heartbeat schedules threads before the one that ends has left. *)
Definition final_heartbeat (m : manager) : outcome manager := sim_thread_schedule false m.
Definition terminate_thread (stale core_id tid : Z) (t : thread_s) (m0 : manager) : outcome manager :=
  c0 ← aget (m_core_pointers m0) core_id;
  _ ← ASSERT (negb (m_running_thread_num c0 =? 0));
  m ← final_heartbeat m0;
  c ← aget (m_core_pointers m) core_id;
  c' ← deallocate_thread_data tid (finish_thread tid c);
  m1 ← at_core core_id (fun _ => c') m;
  p ← get_process (th_process t) m1;
  let m2 := with_active (m_num_active_threads m1 - 1) (with_processes (<[th_process t := count_terminated p]> (processes m1)) m1) in
  m3 ← (if th_acc t then retire_block stale core_id t m2 else mret m2);
  if m_num_waiting_dispatched_threads m3 =? 0 then mret m3 else sim_thread_schedule false m3.
End MANAGER.
