(* ===== verification/ProcessSystem.v ===== *)
(** * Threads and blocks are accounted for

    What the process manager keeps true from the start on, whatever order threads
    become ready, are scheduled and end in ([accounts]), and what follows for the
    scheduling of threads and the retirement of blocks. *)

From S2P Require Import Prelude.
From S2P Require Import Utils.
From S2P Require Import ProcessManager.

(** ** The threads that run *)

(** Started on the core and not ended, by their number there. *)
Definition live_threads (c : core_c) : gmap Z thread_s :=
  filter (fun kv => m_thread_finished c !! kv.1 = Some false) (m_thread_trace_info c).
Definition warp_of (b : Z) (t : thread_s) : Z := if th_acc t && (th_block_id t =? b) then 1 else 0.
Definition warps_of (b : Z) (c : core_c) : Z := msum (warp_of b) (live_threads c).
Definition block_on (j : nat) (i : block_schedule_info_s) : bool := m_start_to_fetch i && (m_dispatched_core_id i =? Z.of_nat j).

Lemma live_lookup c tid t :
  live_threads c !! tid = Some t <-> m_thread_trace_info c !! tid = Some t /\ m_thread_finished c !! tid = Some false.
Proof. apply map_lookup_filter_Some. Qed.

Lemma live_add t p c :
  m_thread_trace_info c !! m_unique_scheduled_thread_num c = None ->
  live_threads (add_thread t p c) = <[m_unique_scheduled_thread_num c := set_thread_id (m_unique_scheduled_thread_num c) t]> (live_threads c) /\
  live_threads c !! m_unique_scheduled_thread_num c = None.
Proof.
  intros Hn. set (tid := m_unique_scheduled_thread_num c) in *. split.
  - apply map_eq. intros q. apply option_eq. intros t'. rewrite live_lookup. simpl. fold tid.
    destruct (decide (q = tid)) as [-> | Hq].
    + rewrite !lookup_insert_eq. naive_solver.
    + rewrite !lookup_insert_ne by done. symmetry. apply live_lookup.
  - destruct (live_threads c !! tid) eqn:E; [| done]. apply live_lookup in E as [E _]. congruence.
Qed.

Lemma live_finish tid c : live_threads (finish_thread tid c) = delete tid (live_threads c).
Proof.
  apply map_eq. intros q. apply option_eq. intros t'. rewrite live_lookup. simpl. destruct (decide (q = tid)) as [-> | Hq].
  - rewrite lookup_insert_eq, lookup_delete_eq. naive_solver.
  - rewrite lookup_insert_ne, lookup_delete_ne by done. symmetry. apply live_lookup.
Qed.

Lemma msum_fresh {A} (h : A -> Z) (m : gmap Z A) q x : m !! q = None -> msum h (<[q := x]> m) = h x + msum h m.
Proof. apply ksum_fresh. Qed.
Lemma msum_delete {A} (h : A -> Z) (m : gmap Z A) q x : m !! q = Some x -> msum h (delete q m) = msum h m - h x.
Proof. apply ksum_delete. Qed.
Lemma msum_nonneg {A} (h : A -> Z) (m : gmap Z A) : (forall x, 0 <= h x) -> 0 <= msum h m.
Proof. intros Hh. unfold msum, ksum. induction (map_to_list m); simpl; [lia |]. pose proof (Hh a.2). lia. Qed.
Lemma msum_ge {A} (h : A -> Z) (m : gmap Z A) q x : (forall y, 0 <= h y) -> m !! q = Some x -> h x <= msum h m.
Proof. intros Hh Hq. pose proof (msum_nonneg h (delete q m) Hh). rewrite (msum_delete _ _ _ _ Hq) in H. lia. Qed.
Lemma sum_by_ge {A} (h : A -> Z) l n x : (forall y, 0 <= h y) -> l !! n = Some x -> h x <= sum_by h l.
Proof.
  intros Hh. revert n. induction l as [| a l IH]; intros [| n] H; simpl in *; try done.
  - simplify_eq. assert (0 <= sum_by h l) by (clear IH; induction l; simpl; [lia |]; pose proof (Hh a); lia). lia.
  - specialize (IH n H). pose proof (Hh a). lia.
Qed.
Lemma warp_of_nonneg b t : 0 <= warp_of b t.
Proof. unfold warp_of. destruct (_ && _); lia. Qed.
Lemma warps_of_nonneg b c : 0 <= warps_of b c.
Proof. apply msum_nonneg. apply warp_of_nonneg. Qed.
Lemma sum_warps_nonneg b cores : 0 <= sum_by (warps_of b) cores.
Proof. induction cores as [| d l IH]; simpl; [lia |]. pose proof (warps_of_nonneg b d). lia. Qed.

(** ** The invariant *)

Definition find_node (ps : gmap nat process_s) (mp : MultiKey.multi_key_map_c) (n : thread_trace_info_node_s) : Prop :=
  exists p key, ps !! n_process n = Some p /\ m_acc p = n_acc n /\ block_key (n_tid n) p = Done key /\
    MultiKey.find (m_process_id p) key mp = Done (n_block_id n) /\ 0 <= n_block_id n.

(** Every waiting thread is in one queue and counted once; those of the thread
    queue are no GPU threads, those of a block queue are warps of the block. *)
Record queues_ok (ps : gmap nat process_s) (mp : MultiKey.multi_key_map_c) (tq : list thread_trace_info_node_s)
    (bq : gmap Z (list thread_trace_info_node_s)) (waiting : Z) : Prop := {
  q_waiting : waiting = Z.of_nat (length tq) + msum (fun l => Z.of_nat (length l)) bq;
  q_threads : forall n, n ∈ tq -> find_node ps mp n /\ n_acc n = false;
  q_blocks : forall b l n, bq !! b = Some l -> n ∈ l -> find_node ps mp n /\ n_acc n = true /\ n_block_id n = b
}.
(** A block with a queue has an entry and not all its warps have ended; an entry
    without a queue is no block yet.
    The warps of a block wait, run or have ended, and none runs before the block is
    given to a core. *)
Record blocks_ok (bs : gmap Z block_schedule_info_s) (bq : gmap Z (list thread_trace_info_node_s)) (cores : list core_c) : Prop := {
  b_queue : forall b, is_Some (bq !! b) -> is_Some (bs !! b);
  b_none : forall b i, bs !! b = Some i -> bq !! b = None -> m_trace_exist i = false /\ m_start_to_fetch i = false;
  b_total : forall b i, bs !! b = Some i -> m_total_thread_num i = m_dispatched_thread_num i + Z.of_nat (length (default [] (bq !! b)));
  b_live : forall b i, bs !! b = Some i -> m_dispatched_thread_num i - m_retired_thread_num i = sum_by (warps_of b) cores;
  b_start : forall b i, bs !! b = Some i -> 0 <= m_retired_thread_num i /\ (m_start_to_fetch i = false -> m_dispatched_thread_num i = 0);
  b_open : forall b i, bs !! b = Some i -> is_Some (bq !! b) -> m_retired_thread_num i < m_total_thread_num i
}.
(** A core counts its threads and blocks, and a warp runs where its block is. *)
Record core_ok (bs : gmap Z block_schedule_info_s) (j : nat) (c : core_c) : Prop := {
  c_running : m_running_thread_num c = msum (fun _ => 1) (live_threads c);
  c_blocks : m_running_block_num c = msum (fun i => if block_on j i then 1 else 0) bs;
  c_fresh : forall tid t, m_thread_trace_info c !! tid = Some t -> tid < m_unique_scheduled_thread_num c;
  c_home : forall tid t, live_threads c !! tid = Some t -> th_acc t = true -> exists i, bs !! th_block_id t = Some i /\ block_on j i = true;
  c_int : m_max_threads_per_core c <= 2 ^ 31 - 1
}.
Definition cores_ok (bs : gmap Z block_schedule_info_s) (cores : list core_c) : Prop := forall j c, cores !! j = Some c -> core_ok bs j c.
(** The block a core fetches is on the core, unless it has retired; numbers of
    blocks come from the mapper. *)
Record ids_ok (bs : gmap Z block_schedule_info_s) (bq : gmap Z (list thread_trace_info_node_s)) (cores : list core_c) (size : Z) : Prop := {
  i_entry : forall b, is_Some (bs !! b) -> 0 <= b;
  i_queue : forall b, is_Some (bq !! b) -> b < size;
  i_fetching : forall j c, cores !! j = Some c -> m_fetching_block_id c < size /\ (forall i, bs !! m_fetching_block_id c = Some i -> block_on j i = true)
}.
Record accounts (m : manager) : Prop := {
  a_mapper : MultiKey.mkm_inv (m_block_id_mapper m);
  a_queues : queues_ok (processes m) (m_block_id_mapper m) (m_thread_queue m) (m_block_queue m) (m_num_waiting_dispatched_threads m);
  a_blocks : blocks_ok (m_block_schedule_info m) (m_block_queue m) (m_core_pointers m);
  a_cores : cores_ok (m_block_schedule_info m) (m_core_pointers m);
  a_ids : ids_ok (m_block_schedule_info m) (m_block_queue m) (m_core_pointers m) (MultiKey.m_size (m_block_id_mapper m));
  a_active : m_num_active_threads m = m_num_waiting_dispatched_threads m + sum_by m_running_thread_num (m_core_pointers m)
}.

(** ** A thread starts on a core *)

Lemma core_fresh bs j c : core_ok bs j c -> m_thread_trace_info c !! m_unique_scheduled_thread_num c = None.
Proof. intros Hc. destruct (m_thread_trace_info c !! _) as [t |] eqn:E; [| done]. apply (c_fresh _ _ _ Hc) in E. lia. Qed.

Lemma warps_of_add bs j c b t p : core_ok bs j c -> warps_of b (add_thread t p c) = warps_of b c + warp_of b t.
Proof.
  intros Hc. destruct (live_add t p c (core_fresh _ _ _ Hc)) as [E Hn]. unfold warps_of. rewrite E, msum_fresh by done.
  change (warp_of b (set_thread_id _ t)) with (warp_of b t). lia.
Qed.

Lemma core_ok_add bs j c t p :
  core_ok bs j c -> (th_acc t = true -> exists i, bs !! th_block_id t = Some i /\ block_on j i = true) -> core_ok bs j (add_thread t p c).
Proof.
  intros Hc Ht. destruct (live_add t p c (core_fresh _ _ _ Hc)) as [E Hn]. constructor.
  - rewrite E, msum_fresh by done. simpl. rewrite (c_running _ _ _ Hc). lia.
  - apply (c_blocks _ _ _ Hc).
  - intros tid t'. simpl. rewrite lookup_insert. case_decide; [intros; lia |]. intros H'. apply (c_fresh _ _ _ Hc) in H'. lia.
  - intros tid t'. rewrite E, lookup_insert. case_decide.
    + intros [= <-] Ha. apply Ht. exact Ha.
    + apply (c_home _ _ _ Hc).
  - apply (c_int _ _ _ Hc).
Qed.

(** Entries that differ in counters only are as good to the cores. *)
Lemma core_ok_counters bs j c b i i' :
  bs !! b = Some i -> m_start_to_fetch i' = m_start_to_fetch i -> m_dispatched_core_id i' = m_dispatched_core_id i ->
  core_ok bs j c -> core_ok (<[b := i']> bs) j c.
Proof.
  intros Hb Hs Hd Hc. assert (Hon : block_on j i' = block_on j i) by (unfold block_on; by rewrite Hs, Hd). constructor.
  - apply (c_running _ _ _ Hc).
  - rewrite (msum_insert _ _ _ _ _ Hb), Hon, (c_blocks _ _ _ Hc). lia.
  - apply (c_fresh _ _ _ Hc).
  - intros tid t Ht Ha. destruct (c_home _ _ _ Hc tid t Ht Ha) as (i0 & Hi0 & Hon0).
    destruct (decide (th_block_id t = b)) as [E | E].
    + exists i'. rewrite E, lookup_insert_eq. rewrite E in Hi0. split; [done |]. rewrite Hon. congruence.
    + exists i0. by rewrite lookup_insert_ne by congruence.
  - apply (c_int _ _ _ Hc).
Qed.

Lemma cores_ok_insert bs cores j c c' : cores_ok bs cores -> cores !! j = Some c -> core_ok bs j c' -> cores_ok bs (<[j := c']> cores).
Proof.
  intros H Hj Hc' q d Hq. destruct (decide (q = j)) as [-> | Hne].
  - rewrite list_lookup_insert_eq in Hq by (eapply lookup_lt_Some; exact Hj). simplify_eq. exact Hc'.
  - rewrite list_lookup_insert_ne in Hq by done. by apply H.
Qed.

Lemma ids_ok_insert bs bq cores size j c c' :
  ids_ok bs bq cores size -> cores !! j = Some c -> m_fetching_block_id c' = m_fetching_block_id c -> ids_ok bs bq (<[j := c']> cores) size.
Proof.
  intros [H1 H2 H3] Hj Hf. constructor; [done | done |]. intros q d Hq. destruct (decide (q = j)) as [-> | Hne].
  - rewrite list_lookup_insert_eq in Hq by (eapply lookup_lt_Some; exact Hj). simplify_eq. rewrite Hf. by apply H3.
  - rewrite list_lookup_insert_ne in Hq by done. by apply H3.
Qed.
Lemma ids_ok_counters bs bq cores size b i i' l l' :
  bs !! b = Some i -> bq !! b = Some l -> m_start_to_fetch i' = m_start_to_fetch i -> m_dispatched_core_id i' = m_dispatched_core_id i ->
  ids_ok bs bq cores size -> ids_ok (<[b := i']> bs) (<[b := l']> bq) cores size.
Proof.
  intros Hb Hq Hs Hd [H1 H2 H3]. constructor.
  - intros b'. rewrite lookup_insert. case_decide; [intros _; subst b'; eauto | apply H1].
  - intros b'. rewrite lookup_insert. case_decide; [intros _; subst b'; eauto | apply H2].
  - intros j c Hj. destruct (H3 j c Hj) as [Hlt Hf]. split; [done |]. intros i0. rewrite lookup_insert. case_decide as E; [| apply Hf].
    intros [= <-]. rewrite <- E in Hf. specialize (Hf i Hb). unfold block_on in *. by rewrite Hs, Hd.
Qed.

(** What starting a thread comes to. *)
Definition thread_for (n : thread_trace_info_node_s) (t : thread_s) : Prop :=
  th_process t = n_process n /\ th_tid t = n_tid n /\ th_block_id t = n_block_id n /\ th_acc t = n_acc n /\ th_main t = n_main n.
Definition started (m : manager) (j : nat) (c : core_c) : manager :=
  with_cores (<[j := c]> (m_core_pointers m)) (with_unique (global_unique_thread_id m + 1) m).

Lemma at_core_runs j f m c : m_core_pointers m !! j = Some c -> at_core (Z.of_nat j) f m = Done (with_cores (<[j := f c]> (m_core_pointers m)) m).
Proof.
  intros Hc. unfold at_core. rewrite (aget_lookup _ _ _ Hc), bind_done.
  assert (j < length (m_core_pointers m))%nat by (eapply lookup_lt_Some; exact Hc).
  rewrite aset_in_range, bind_done by lia. by rewrite Nat2Z.id.
Qed.
Lemma at_core_done i f m m' : at_core i f m = Done m' ->
  exists j c, i = Z.of_nat j /\ m_core_pointers m !! j = Some c /\ m' = with_cores (<[j := f c]> (m_core_pointers m)) m.
Proof.
  intros H. pose proof H as H0. unfold at_core in H. step H as c E. apply aget_done in E as [Hi E].
  exists (Z.to_nat i), c. split_and!; [lia | done |]. rewrite <- (Z2Nat.id i Hi), (at_core_runs _ _ _ _ E) in H0. congruence.
Qed.

Lemma start_thread_runs n m j c :
  find_node (processes m) (m_block_id_mapper m) n -> m_core_pointers m !! j = Some c ->
  exists t p, start_thread (Z.of_nat j) n m = Done (t, started m j (add_thread t p c)) /\ thread_for n t.
Proof.
  intros (p & key & Hp & Ha & Hk & Hf & _) Hc. unfold start_thread, create_thread, get_process. rewrite Hp. cbn [get_or]. rewrite bind_done.
  pose proof Hk as Hk'. unfold block_key in Hk'. step Hk' as s Es. rewrite Es, bind_done, Hk, bind_done, Hf, bind_done.
  unfold mret at 1, outcome_ret at 1. rewrite bind_done. cbn [processes with_unique]. rewrite Hp. cbn [get_or]. rewrite bind_done.
  rewrite (at_core_runs _ _ (with_unique _ m) c) by done. rewrite bind_done.
  eexists _, p. split; [reflexivity |]. unfold thread_for. simpl. by rewrite Ha.
Qed.

Lemma started_running m j c t p : m_core_pointers m !! j = Some c ->
  sum_by m_running_thread_num (m_core_pointers (started m j (add_thread t p c))) = sum_by m_running_thread_num (m_core_pointers m) + 1.
Proof. intros Hc. simpl. rewrite (sum_by_insert _ _ _ _ _ Hc). simpl. lia. Qed.

(** A thread of the thread queue. *)
Lemma fetch_thread_runs m n q :
  accounts m -> m_thread_queue m = n :: q ->
  fetch_thread m = Done (Some n, with_queues q (m_block_queue m) (m_num_waiting_dispatched_threads m - 1) m) /\ find_node (processes m) (m_block_id_mapper m) n /\ n_acc n = false.
Proof.
  intros Hm Hq. pose proof (q_waiting _ _ _ _ _ (a_queues _ Hm)) as Hw. rewrite Hq in Hw. simpl in Hw.
  assert (0 <= msum (fun l : list thread_trace_info_node_s => Z.of_nat (length l)) (m_block_queue m)) by (apply msum_nonneg; lia).
  split; [unfold fetch_thread; rewrite Hq; rewrite (proj2 (Z.ltb_lt 0 _)) by lia; done |].
  apply (q_threads _ _ _ _ _ (a_queues _ Hm)). rewrite Hq. left.
Qed.

Lemma accounts_start_thread m n q j c t p :
  accounts m -> m_thread_queue m = n :: q -> m_core_pointers m !! j = Some c -> thread_for n t -> n_acc n = false ->
  accounts (started (with_queues q (m_block_queue m) (m_num_waiting_dispatched_threads m - 1) m) j (add_thread t p c)).
Proof.
  intros Hm Hq Hc (Hp & Htid & Hb & Ha & _) Hacc. pose proof (a_cores _ Hm j c Hc) as Hcj. rewrite Hacc in Ha. constructor; simpl.
  - apply (a_mapper _ Hm).
  - destruct (a_queues _ Hm) as [Hw Ht Hbq]. rewrite Hq in Hw, Ht. simpl in Hw. constructor; [lia | | exact Hbq].
    intros n' Hn'. apply Ht. by right.
  - destruct (a_blocks _ Hm) as [H1 H0 H2 H3 H4 H5]. constructor; [done | done | done | | done | done].
    intros b i Hi. rewrite (sum_by_insert _ _ _ _ _ Hc), (warps_of_add _ _ _ _ _ _ Hcj), (H3 b i Hi).
    unfold warp_of. rewrite Ha. simpl. lia.
  - apply (cores_ok_insert _ _ _ c); [apply (a_cores _ Hm) | done |]. apply core_ok_add; [done |]. by rewrite Ha.
  - apply (ids_ok_insert _ _ _ _ _ c); [apply (a_ids _ Hm) | done | done].
  - rewrite (sum_by_insert _ _ _ _ _ Hc). simpl. rewrite (a_active _ Hm). lia.
Qed.

(** A warp of a block that is on the core. *)
Definition warp_started (m : manager) (b : Z) (i : block_schedule_info_s) (q : list thread_trace_info_node_s) (j : nat) (c : core_c) : manager :=
  with_blocks (<[b := set_dispatched (m_dispatched_thread_num i + 1) i]> (m_block_schedule_info m))
    (started (with_queues (m_thread_queue m) (<[b := q]> (m_block_queue m)) (m_num_waiting_dispatched_threads m - 1) m) j c).

Lemma accounts_start_warp m b i n q j c t p :
  accounts m -> m_block_queue m !! b = Some (n :: q) -> m_block_schedule_info m !! b = Some i -> block_on j i = true ->
  m_core_pointers m !! j = Some c -> thread_for n t -> n_acc n = true -> n_block_id n = b ->
  accounts (warp_started m b i q j (add_thread t p c)).
Proof.
  intros Hm Hq Hi Hon Hc (Hp & Htid & Hb & Ha & _) Hacc Hnb. pose proof (a_cores _ Hm j c Hc) as Hcj. rewrite Hacc in Ha. rewrite Hnb in Hb.
  constructor; simpl.
  - apply (a_mapper _ Hm).
  - destruct (a_queues _ Hm) as [Hw Ht Hbq]. constructor; [| exact Ht |].
    + rewrite (msum_insert _ _ _ _ _ Hq). simpl. lia.
    + intros b' l n'. rewrite lookup_insert. case_decide as E; [intros [= <-] Hn' | apply Hbq].
      subst b'. apply (Hbq b _ n' Hq). by right.
  - destruct (a_blocks _ Hm) as [H1 H0 H2 H3 H4 H5]. constructor.
    + intros b'. rewrite !lookup_insert. case_decide; [eauto | apply H1].
    + intros b' i'. rewrite !lookup_insert. case_decide; [done | apply H0].
    + intros b' i'. rewrite !lookup_insert. case_decide; [| apply H2]. intros [= <-]. simpl.
      specialize (H2 b i Hi). rewrite Hq in H2. simpl in H2. lia.
    + intros b' i'. rewrite (sum_by_insert _ _ _ _ _ Hc), (warps_of_add _ _ _ _ _ _ Hcj). unfold warp_of. rewrite Ha, Hb. simpl.
      rewrite lookup_insert. case_decide as E.
      * subst b'. intros [= <-]. simpl. specialize (H3 b i Hi). rewrite Z.eqb_refl. lia.
      * intros Hi'. specialize (H3 b' i' Hi'). rewrite (proj2 (Z.eqb_neq b b')) by done. lia.
    + intros b' i'. rewrite lookup_insert. case_decide; [| apply H4]. intros [= <-]. simpl.
      destruct (H4 b i Hi). split; [done |]. unfold block_on in Hon. destruct (m_start_to_fetch i); [done | discriminate].
    + intros b' i'. rewrite !lookup_insert. case_decide; [| apply H5]. intros [= <-] _. apply (H5 b i Hi). eauto.
  - intros j' c' Hj'. eapply core_ok_counters; [exact Hi | done | done |]. revert j' c' Hj'.
    apply (cores_ok_insert _ _ _ c); [apply (a_cores _ Hm) | done |]. apply core_ok_add; [done |]. intros _. rewrite Hb. eauto.
  - apply (ids_ok_counters _ _ _ _ _ i _ _ _ Hi Hq); [done | done |]. apply (ids_ok_insert _ _ _ _ _ c); [apply (a_ids _ Hm) | done | done].
  - rewrite (sum_by_insert _ _ _ _ _ Hc). simpl. rewrite (a_active _ Hm). lia.
Qed.

(** ** A block is given to a core *)

Lemma find_block_spec k core_id initial p l m b :
  find_block k core_id initial p l m = Done b -> b = -1 \/ b ∈ l /\ exists i, m_block_schedule_info m !! b = Some i /\ m_start_to_fetch i = false /\ m_trace_exist i = true.
Proof.
  induction l as [| b' l IH]; simpl; intros H; [left; by injection H |].
  step H as skip E. destruct skip; [destruct (IH H) as [|[]]; [by left | right; split; [by right | done]] |].
  step H as i Ei. apply get_or_done in Ei.
  destruct (negb (m_start_to_fetch i) && m_trace_exist i) eqn:Eb; [| destruct (IH H) as [|[]]; [by left | right; split; [by right | done]]].
  injection H as <-. right. split; [by left |]. apply andb_true_iff in Eb as [E1 E2]. exists i. by destruct (m_start_to_fetch i).
Qed.

Definition given (m : manager) (b : Z) (i : block_schedule_info_s) (j : nat) (c : core_c) (cycle : Z) : manager :=
  with_cores (<[j := set_running_blocks (m_running_block_num c + 1) b c]> (m_core_pointers m))
    (with_blocks (<[b := mk_block true (Z.of_nat j) (m_retired i) (m_dispatched_thread_num i) (m_retired_thread_num i) (m_total_thread_num i) (m_trace_exist i) cycle]>
      (m_block_schedule_info m)) m).

Lemma warps_of_blocks b n f c : warps_of b (set_running_blocks n f c) = warps_of b c.
Proof. done. Qed.

Lemma core_ok_give bs j c b i i' q d :
  core_ok bs q d -> bs !! b = Some i -> m_start_to_fetch i = false -> block_on j i' = true -> (forall q, q <> j -> block_on q i' = false) ->
  (q = j -> m_running_block_num c = m_running_block_num d + 1 /\ live_threads c = live_threads d /\ m_thread_trace_info c = m_thread_trace_info d /\
      m_unique_scheduled_thread_num c = m_unique_scheduled_thread_num d /\ m_running_thread_num c = m_running_thread_num d /\
      m_max_threads_per_core c = m_max_threads_per_core d) ->
  core_ok (<[b := i']> bs) q (if decide (q = j) then c else d).
Proof.
  intros Hd Hb Hs Hon Hoff Hc. assert (Hi : block_on q i = false) by (unfold block_on; by rewrite Hs).
  assert (Hhome : forall tid t, live_threads d !! tid = Some t -> th_acc t = true -> exists i0, <[b := i']> bs !! th_block_id t = Some i0 /\ block_on q i0 = true).
  { intros tid t Ht Ha. destruct (c_home _ _ _ Hd tid t Ht Ha) as (i0 & Hi0 & Hon0). exists i0. split; [| done].
    rewrite lookup_insert_ne; [done |]. intros ->. rewrite Hb in Hi0. simplify_eq. congruence. }
  assert (Hsum : msum (fun i0 => if block_on q i0 then 1 else 0) (<[b := i']> bs) = m_running_block_num d + if decide (q = j) then 1 else 0).
  { rewrite (msum_insert _ _ _ _ _ Hb), Hi, <- (c_blocks _ _ _ Hd). case_decide as E; [subst q; rewrite Hon; lia |].
    rewrite (Hoff q E). lia. }
  destruct (decide (q = j)) as [E |].
  - destruct (Hc E) as (H1 & H2 & H3 & H4 & H5 & H6). constructor.
    + rewrite H5, H2. apply (c_running _ _ _ Hd).
    + rewrite Hsum. exact H1.
    + rewrite H3, H4. apply (c_fresh _ _ _ Hd).
    + rewrite H2. exact Hhome.
    + rewrite H6. apply (c_int _ _ _ Hd).
  - constructor; [apply (c_running _ _ _ Hd) | rewrite Hsum; lia | apply (c_fresh _ _ _ Hd) | exact Hhome | apply (c_int _ _ _ Hd)].
Qed.

Lemma lookup_insert_pick {A} (l : list A) j x y q d : l !! j = Some y -> <[j := x]> l !! q = Some d ->
  exists d0, l !! q = Some d0 /\ d = if decide (q = j) then x else d0.
Proof.
  intros Hj Hq. destruct (decide (q = j)) as [-> | Hne].
  - rewrite list_lookup_insert_eq in Hq by (eapply lookup_lt_Some; exact Hj). exists y. by simplify_eq.
  - rewrite list_lookup_insert_ne in Hq by done. by exists d.
Qed.

Lemma block_on_new j r d rt tt te cy q : block_on q (mk_block true (Z.of_nat j) r d rt tt te cy) = bool_decide (q = j).
Proof. unfold block_on. simpl. destruct (Z.eqb_spec (Z.of_nat j) (Z.of_nat q)); case_bool_decide; lia || done. Qed.

Lemma accounts_give m b i j c cycle :
  accounts m -> m_core_pointers m !! j = Some c -> m_block_schedule_info m !! b = Some i -> m_start_to_fetch i = false -> m_trace_exist i = true ->
  accounts (given m b i j c cycle).
Proof.
  intros Hm Hc Hi Hs Ht. pose proof (a_blocks _ Hm) as [H1 H0 H2 H3 H4 H5].
  assert (Hq : is_Some (m_block_queue m !! b)). { destruct (m_block_queue m !! b) eqn:E; [eauto |]. destruct (H0 b i Hi E). congruence. }
  constructor; simpl.
  - apply (a_mapper _ Hm).
  - apply (a_queues _ Hm).
  - constructor.
    + intros b' Hb'. rewrite lookup_insert. case_decide; [eauto | by apply H1].
    + intros b' i'. rewrite lookup_insert. case_decide as E; [intros _ E'; subst b'; rewrite E' in Hq; by destruct Hq | apply H0].
    + intros b' i'. rewrite lookup_insert. case_decide as E; [intros [= <-]; subst b'; apply (H2 b i Hi) | apply H2].
    + intros b' i'. rewrite (sum_by_insert _ _ _ _ _ Hc), warps_of_blocks, lookup_insert. case_decide as E.
      * intros [= <-]. subst b'. simpl. rewrite (H3 b i Hi). lia.
      * intros Hi'. rewrite (H3 _ _ Hi'). lia.
    + intros b' i'. rewrite lookup_insert. case_decide as E; [| apply H4]. intros [= <-]. simpl. split; [apply (H4 b i Hi) | done].
    + intros b' i'. rewrite lookup_insert. case_decide as E; [| apply H5]. intros [= <-] _. apply (H5 b i Hi Hq).
  - intros q d Hq'. destruct (lookup_insert_pick _ _ _ _ _ _ Hc Hq') as (d0 & Hd0 & ->).
    apply (core_ok_give _ j _ b i); [by apply (a_cores _ Hm) | done | done | | |].
    + rewrite block_on_new. by apply bool_decide_eq_true.
    + intros q' Hne. rewrite block_on_new. by apply bool_decide_eq_false.
    + intros ->. rewrite Hc in Hd0. by simplify_eq.
  - pose proof (a_ids _ Hm) as [I1 I2 I3]. constructor.
    + intros b'. rewrite lookup_insert. case_decide; [intros _; subst b'; eauto | apply I1].
    + exact I2.
    + intros q d Hq'. destruct (lookup_insert_pick _ _ _ _ _ _ Hc Hq') as (d0 & Hd0 & ->). destruct (I3 q d0 Hd0) as [Hlt Hf].
      case_decide as E; simpl.
      * split; [by apply I2 |]. intros i'. rewrite lookup_insert_eq. intros [= <-]. rewrite block_on_new. by apply bool_decide_eq_true.
      * split; [done |]. intros i'. rewrite lookup_insert. case_decide as Eb; [| apply Hf]. intros _.
        rewrite <- Eb in Hf. specialize (Hf i Hi). unfold block_on in Hf. by rewrite Hs in Hf.
  - rewrite (sum_by_insert _ _ _ _ _ Hc). simpl. rewrite (a_active _ Hm). lia.
Qed.

(** ** The next core *)

Definition no_room (k : pm_knobs) (ty : Core_Type) (cores : list core_c) : Prop :=
  forall j c, cores !! j = Some c -> has_room k ty (Z.of_nat j) c = false.

Section NEXT.
Context (k : pm_knobs) (ty : Core_Type).

Lemma available_loop_spec l base :
  (forall j c, l !! j = Some c -> has_room k ty (base + Z.of_nat j) c = false) /\ available_loop k ty base l = -1 \/
  exists j c, l !! j = Some c /\ has_room k ty (base + Z.of_nat j) c = true /\ available_loop k ty base l = base + Z.of_nat j /\
    forall j' c', (j' < j)%nat -> l !! j' = Some c' -> has_room k ty (base + Z.of_nat j') c' = false.
Proof.
  revert base. induction l as [| a l IH]; intros base; simpl; [left; split; [| done]; intros j c; by rewrite lookup_nil |].
  destruct (has_room k ty base a) eqn:E.
  - right. exists 0%nat, a. simpl. rewrite Z.add_0_r. split_and!; [done | done | done | lia].
  - destruct (IH (base + 1)) as [[Hn ->] | (j & c & Hj & Hr & -> & Hf)].
    + left. split; [| done]. intros [| j] c Hj; simpl in Hj; [simplify_eq; by rewrite Z.add_0_r |].
      replace (base + Z.of_nat (S j)) with (base + 1 + Z.of_nat j) by lia. by apply Hn.
    + right. exists (S j), c. replace (base + Z.of_nat (S j)) with (base + 1 + Z.of_nat j) by lia. split_and!; [done | done | done |].
      intros [| j'] c' Hlt Hj'; simpl in Hj'; [simplify_eq; by rewrite Z.add_0_r |].
      replace (base + Z.of_nat (S j')) with (base + 1 + Z.of_nat j') by lia. apply Hf; [lia | done].
Qed.

(** With [bk] the occupancy of the best core so far, the loop ends with a core
    that beats it and no later one, or with the best so far. *)
Lemma occupancy_loop_spec l base best bk :
  (forall j c, l !! j = Some c -> has_room k ty (base + Z.of_nat j) c = true -> bk <= m_running_thread_num c) /\ occupancy_loop k ty base best bk l = best \/
  exists j c, l !! j = Some c /\ has_room k ty (base + Z.of_nat j) c = true /\ occupancy_loop k ty base best bk l = base + Z.of_nat j /\ m_running_thread_num c < bk /\
    forall j' c', l !! j' = Some c' -> has_room k ty (base + Z.of_nat j') c' = true ->
      m_running_thread_num c <= m_running_thread_num c' /\ ((j' < j)%nat -> m_running_thread_num c < m_running_thread_num c').
Proof.
  revert base best bk. induction l as [| a l IH]; intros base best bk; simpl; [left; split; [| done]; intros j c; by rewrite lookup_nil |].
  assert (Hs : forall j, base + Z.of_nat (S j) = base + 1 + Z.of_nat j) by lia.
  destruct (has_room k ty base a && (m_running_thread_num a <? bk)) eqn:E.
  - apply andb_true_iff in E as [Er Ek%Z.ltb_lt]. right.
    destruct (IH (base + 1) base (m_running_thread_num a)) as [[Hn ->] | (j & c & Hj & Hr & -> & Hlt & Hf)].
    + exists 0%nat, a. simpl. rewrite Z.add_0_r. split_and!; [done | done | done | done |]. intros [| j'] c' Hj'; simpl in Hj'; [simplify_eq; lia |].
      rewrite Hs. intros Hr'. specialize (Hn j' c' Hj' Hr'). lia.
    + exists (S j), c. rewrite Hs. split_and!; [done | done | done | lia |]. intros [| j'] c' Hj'; simpl in Hj'; [simplify_eq; lia |].
      rewrite Hs. intros Hr'. destruct (Hf j' c' Hj' Hr'). lia.
  - assert (Ha : has_room k ty base a = true -> bk <= m_running_thread_num a) by (intros Er; rewrite Er in E; simpl in E; by apply Z.ltb_ge).
    destruct (IH (base + 1) best bk) as [[Hn ->] | (j & c & Hj & Hr & -> & Hlt & Hf)].
    + left. split; [| done]. intros [| j'] c' Hj'; simpl in Hj'; [simplify_eq; by rewrite Z.add_0_r |]. rewrite Hs. by apply Hn.
    + right. exists (S j), c. rewrite Hs. split_and!; [done | done | done | done |]. intros [| j'] c' Hj'; simpl in Hj'.
      * simplify_eq. rewrite Z.add_0_r. intros Hr'. specialize (Ha Hr'). lia.
      * rewrite Hs. intros Hr'. destruct (Hf j' c' Hj' Hr'). lia.
Qed.

Lemma has_room_running j c : has_room k ty j c = true -> m_running_thread_num c < m_max_threads_per_core c /\ m_core_type c = ty /\ disabled k j c = false.
Proof.
  unfold has_room. intros [[H1 H2]%andb_true_iff H3]%andb_true_iff. apply Z.ltb_lt in H2. apply bool_decide_eq_true in H3.
  by destruct (disabled k j c).
Qed.

(** The policy: greedy takes the first core with room, balanced the first of the
    least occupied; -1 stands for no room at all. *)
Definition best_core (m : manager) (j : nat) (c : core_c) : Prop :=
  forall j' c', m_core_pointers m !! j' = Some c' -> has_room k ty (Z.of_nat j') c' = true ->
    if KNOB_CORE_THREAD_SCHED_balanced k
    then m_running_thread_num c <= m_running_thread_num c' /\ ((j' < j)%nat -> m_running_thread_num c < m_running_thread_num c')
    else (j <= j')%nat.

Lemma next_core_cases m :
  accounts m ->
  no_room k ty (m_core_pointers m) /\ get_next_core k ty m = -1 \/
  exists j c, m_core_pointers m !! j = Some c /\ has_room k ty (Z.of_nat j) c = true /\ get_next_core k ty m = Z.of_nat j /\ best_core m j c.
Proof.
  intros Hm. unfold get_next_core, best_core, get_next_low_occupancy_core, get_next_available_core. destruct (KNOB_CORE_THREAD_SCHED_balanced k).
  - destruct (occupancy_loop_spec (m_core_pointers m) 0 (-1) (2 ^ 31 - 1)) as [[Hn ->] | (j & c & Hj & Hr & -> & _ & Hf)].
    + left. split; [| done]. intros j c Hj. destruct (has_room k ty _ c) eqn:E; [| done]. specialize (Hn j c Hj E).
      apply has_room_running in E as [E _]. pose proof (c_int _ _ _ (a_cores _ Hm j c Hj)). lia.
    + right. exists j, c. by split_and!.
  - destruct (available_loop_spec (m_core_pointers m) 0) as [[Hn ->] | (j & c & Hj & Hr & -> & Hf)]; [by left |].
    right. exists j, c. split_and!; [done | done | done |]. intros j' c' Hj' Hr'. destruct (decide (j' < j)%nat) as [Hlt |]; [| lia].
    specialize (Hf j' c' Hlt Hj'). rewrite Z.add_0_l in Hf. congruence.
Qed.
End NEXT.

(** ** CPU threads *)

(** A run of placements: the thread that waits longest goes to the core the policy
    picks among those of some CPU type. *)
Inductive places (k : pm_knobs) : manager -> list (nat * thread_trace_info_node_s) -> manager -> Prop :=
| places_nil m : places k m [] m
| places_cons m j c n t p q l m' :
    m_thread_queue m = n :: q -> m_core_pointers m !! j = Some c -> m_core_type c <> core_ptx ->
    has_room k (m_core_type c) (Z.of_nat j) c = true -> best_core k (m_core_type c) m j c -> thread_for n t ->
    places k (started (with_queues q (m_block_queue m) (m_num_waiting_dispatched_threads m - 1) m) j (add_thread t p c)) l m' ->
    places k m ((j, n) :: l) m'.

Definition on_core (j : nat) (l : list (nat * thread_trace_info_node_s)) : list thread_trace_info_node_s := (filter (fun jn => jn.1 = j) l).*2.

(** What the threads [ns] change about a core. *)
Record core_grew (c : core_c) (ns : list thread_trace_info_node_s) (c' : core_c) : Prop := {
  g_type : m_core_type c' = m_core_type c /\ m_max_threads_per_core c' = m_max_threads_per_core c;
  g_running : m_running_thread_num c' = m_running_thread_num c + Z.of_nat (length ns);
  g_unique : m_unique_scheduled_thread_num c' = m_unique_scheduled_thread_num c + Z.of_nat (length ns);
  g_limit : ns <> [] -> m_running_thread_num c' <= m_max_threads_per_core c';
  g_old : live_threads c ⊆ live_threads c';
  g_new : forall i n, ns !! i = Some n -> exists t, live_threads c' !! (m_unique_scheduled_thread_num c + Z.of_nat i) = Some t /\ thread_for n t /\
            th_thread_id t = m_unique_scheduled_thread_num c + Z.of_nat i
}.

Lemma core_grew_nil c : core_grew c [] c.
Proof. constructor; simpl; [done | lia | lia | done | done | done]. Qed.

Lemma core_grew_cons bs j c n t p ns c' :
  core_ok bs j c -> m_running_thread_num c < m_max_threads_per_core c -> thread_for n t ->
  core_grew (add_thread t p c) ns c' -> core_grew c (n :: ns) c'.
Proof.
  intros Hc Hr Ht [[H1 H2] H3 H4 H5 H6 H7]. simpl in *. destruct (live_add t p c (core_fresh _ _ _ Hc)) as [E Hn]. rewrite E in H6. constructor; simpl.
  - done.
  - lia.
  - lia.
  - intros _. destruct ns as [| n' ns]; [simpl in H3; lia | by apply H5].
  - etrans; [| exact H6]. by apply insert_subseteq.
  - intros [| i] n' Hi; simpl in Hi.
    + simplify_eq. rewrite Z.add_0_r. eexists. split; [eapply lookup_weaken; [apply lookup_insert_eq | exact H6] | done].
    + destruct (H7 i n' Hi) as (t' & Ht' & Hn' & Hid). exists t'.
      replace (m_unique_scheduled_thread_num c + Z.of_nat (S i)) with (m_unique_scheduled_thread_num c + 1 + Z.of_nat i) by lia. done.
Qed.

Lemma places_facts k m l m' :
  places k m l m' -> accounts m ->
  accounts m' /\ m_thread_queue m = l.*2 ++ m_thread_queue m' /\ length (m_core_pointers m') = length (m_core_pointers m) /\
  forall j c, m_core_pointers m !! j = Some c -> exists c', m_core_pointers m' !! j = Some c' /\ core_grew c (on_core j l) c'.
Proof.
  induction 1 as [m | m j c n t p q l m' Hq Hc Hty Hr Hbest Ht Hl IH]; intros Hm.
  - split_and!; [done | done | done |]. intros j c Hc. exists c. split; [done | apply core_grew_nil].
  - destruct (fetch_thread_runs m n q Hm Hq) as (_ & _ & Ha).
    destruct (IH (accounts_start_thread m n q j c t p Hm Hq Hc Ht Ha)) as (H1 & H2 & H3 & H4). simpl in H2, H3, H4.
    split_and!; [done | by rewrite Hq, H2 | by rewrite H3, length_insert |]. intros j' c' Hc'. unfold on_core. rewrite filter_cons.
    destruct (decide (j' = j)) as [-> | Hne].
    + assert (c' = c) as -> by congruence. rewrite decide_True by done. destruct (H4 j (add_thread t p c)) as (c2 & Hc2 & Hg).
      { apply list_lookup_insert_eq. by eapply lookup_lt_Some. }
      exists c2. split; [done |]. cbn [fmap list_fmap]. eapply core_grew_cons; [by apply (a_cores _ Hm) | | done | exact Hg].
      by apply has_room_running in Hr as [].
    + rewrite decide_False by (simpl; congruence). apply H4. by rewrite list_lookup_insert_ne.
Qed.

Lemma places_app k m1 l1 m2 l2 m3 : places k m1 l1 m2 -> places k m2 l2 m3 -> places k m1 (l1 ++ l2) m3.
Proof. induction 1; intros H'; [done |]. simpl. econstructor; eauto. Qed.

(** A core without room gets none by the placements of others. *)
Lemma places_no_room k ty m l m' : places k m l m' -> accounts m -> no_room k ty (m_core_pointers m) -> no_room k ty (m_core_pointers m').
Proof.
  intros Hp Hm Hn j c' Hc'. destruct (places_facts _ _ _ _ Hp Hm) as (_ & _ & Hl & Hg).
  destruct (lookup_lt_is_Some_2 (m_core_pointers m) j) as [c Hc]; [rewrite <- Hl; by eapply lookup_lt_Some |].
  destruct (Hg j c Hc) as (c2 & Hc2 & [[E1 E2] E3 _ _ _ _]). simplify_eq. specialize (Hn j c Hc).
  unfold has_room, disabled in *. rewrite E1, E2, E3. destruct (negb _); simpl in *; [| done].
  destruct (bool_decide (m_core_type c = ty)); [| by rewrite !andb_false_r].
  rewrite andb_true_r in *. apply Z.ltb_ge in Hn. apply Z.ltb_ge. lia.
Qed.

Lemma cpu_loop_places k n ty m :
  ty <> core_ptx -> accounts m -> (length (m_thread_queue m) < n)%nat ->
  exists l m', cpu_loop k n ty m = Done m' /\ places k m l m' /\ (m_thread_queue m' = [] \/ no_room k ty (m_core_pointers m')).
Proof.
  intros Hty. revert m. induction n as [| n IH]; intros m Hm Hn; [lia |]. simpl.
  destruct (next_core_cases k ty m Hm) as [[Hno ->] | (j & c & Hc & Hr & -> & Hb)].
  { exists [], m. split_and!; [done | constructor | by right]. }
  rewrite (proj2 (Z.ltb_ge _ 0)) by lia. destruct (m_thread_queue m) as [| nd q] eqn:Hq.
  { unfold fetch_thread. rewrite Hq. exists [], m. split_and!; [done | constructor | by left]. }
  destruct (fetch_thread_runs m nd q Hm Hq) as (-> & Hf & Ha). rewrite bind_done.
  set (m1 := with_queues q (m_block_queue m) (m_num_waiting_dispatched_threads m - 1) m).
  destruct (start_thread_runs nd m1 j c Hf Hc) as (t & p & -> & Ht). rewrite bind_done.
  pose proof (accounts_start_thread m nd q j c t p Hm Hq Hc Ht Ha) as Hm2. fold m1 in Hm2.
  destruct (has_room_running _ _ _ _ Hr) as (_ & Hct & _).
  assert (Hone : places k m [(j, nd)] (started m1 j (add_thread t p c))).
  { rewrite <- Hct in Hr, Hb, Hty. econstructor; eauto. apply places_nil. }
  destruct (IH _ Hm2) as (l & m' & E & Hp & Hend); [simpl in *; lia |].
  exists ((j, nd) :: l), m'. split_and!; [exact E | by apply (places_app _ _ [(j, nd)] _ l _ Hone) | done].
Qed.

Lemma cpu_types_places k tys m :
  accounts m ->
  exists l m', cpu_types k tys m = Done m' /\ places k m l m' /\
    (m_thread_queue m' = [] \/ forall ty, ty ∈ tys -> ty <> core_ptx -> no_room k ty (m_core_pointers m')).
Proof.
  revert m. induction tys as [| ty tys IH]; intros m Hm; cbn [cpu_types].
  { exists [], m. split_and!; [done | constructor |]. right. intros ty Hty. by apply not_elem_of_nil in Hty. }
  assert (H1 : exists l m1, (if bool_decide (ty = core_ptx) then mret m else cpu_loop k (S (length (m_thread_queue m))) ty m) = Done m1 /\
      places k m l m1 /\ (m_thread_queue m1 = [] \/ (ty <> core_ptx -> no_room k ty (m_core_pointers m1)))).
  { case_bool_decide as E; [exists [], m; split_and!; [done | constructor | by right] |].
    destruct (cpu_loop_places k (S (length (m_thread_queue m))) ty m E Hm) as (l & m1 & -> & Hp & Hend); [lia |].
    exists l, m1. split_and!; [done | done |]. destruct Hend; [by left | by right]. }
  destruct H1 as (l1 & m1 & -> & Hp1 & Hend1). rewrite bind_done. destruct (places_facts _ _ _ _ Hp1 Hm) as (Hm1 & _).
  destruct (IH m1 Hm1) as (l2 & m2 & -> & Hp2 & Hend2).
  exists (l1 ++ l2), m2. split_and!; [done | by eapply places_app |]. destruct Hend2 as [| Hend2]; [by left |].
  destruct Hend1 as [Hq | Hend1].
  - left. destruct (places_facts _ _ _ _ Hp2 Hm1) as (_ & E & _). rewrite Hq in E. symmetry in E. by apply app_eq_nil in E as [].
  - right. intros ty' [-> | Hin]%elem_of_cons Hne; [| by apply Hend2]. by apply (places_no_room _ _ _ _ _ Hp2 Hm1), Hend1.
Qed.

(** ** Every operation keeps the accounts *)

(** Threads that ran still do. *)
Definition threads_kept (m m' : manager) : Prop :=
  forall j c, m_core_pointers m !! j = Some c -> exists c', m_core_pointers m' !! j = Some c' /\ live_threads c ⊆ live_threads c'.
#[export] Instance threads_kept_preorder : PreOrder threads_kept.
Proof.
  split.
  - intros m j c Hc. eauto.
  - intros m1 m2 m3 H1 H2 j c Hc. destruct (H1 j c Hc) as (c2 & Hc2 & E2). destruct (H2 j c2 Hc2) as (c3 & Hc3 & E3).
    exists c3. split; [done | by etrans].
Qed.
Lemma threads_kept_insert m j c c' m' :
  m_core_pointers m !! j = Some c -> m_core_pointers m' = <[j := c']> (m_core_pointers m) -> live_threads c ⊆ live_threads c' -> threads_kept m m'.
Proof.
  intros Hc E Hl q d Hq. rewrite E. destruct (decide (q = j)) as [-> | Hne].
  - exists c'. rewrite list_lookup_insert_eq by (by eapply lookup_lt_Some). split; [done |]. assert (d = c) as -> by congruence. done.
  - exists d. by rewrite list_lookup_insert_ne.
Qed.
Lemma live_add_subseteq bs j c t p : core_ok bs j c -> live_threads c ⊆ live_threads (add_thread t p c).
Proof. intros Hc. destruct (live_add t p c (core_fresh _ _ _ Hc)) as [-> Hn]. by apply insert_subseteq. Qed.
Lemma places_kept k m l m' : places k m l m' -> accounts m -> threads_kept m m'.
Proof.
  intros Hp Hm. destruct (places_facts _ _ _ _ Hp Hm) as (_ & _ & _ & Hg). intros j c Hc.
  destruct (Hg j c Hc) as (c' & Hc' & G). exists c'. split; [done | apply (g_old _ _ _ G)].
Qed.

(** The run ends, and what it ends in has its accounts in order. *)
Definition keeps (m : manager) (c : outcome manager) : Prop :=
  c <> Fault Diverged /\ forall m', c = Done m' -> accounts m' /\ threads_kept m m'.

Lemma keeps_ret m m' : accounts m' -> threads_kept m m' -> keeps m (mret m').
Proof. intros Hm Hk. split; [done |]. by intros m2 [= <-]. Qed.
Lemma keeps_then {A} m (c : outcome A) f : c <> Fault Diverged -> (forall a, c = Done a -> keeps m (f a)) -> keeps m (c ≫= f).
Proof. intros Hd Hf. destruct c as [a | e]; [by apply Hf |]. split; [by intros [= ->] | done]. Qed.
Lemma keeps_after m m1 c : threads_kept m m1 -> keeps m1 c -> keeps m c.
Proof. intros Hk [Hd Hc]. split; [done |]. intros m' E. destruct (Hc m' E). split; [done | by etrans]. Qed.
Lemma keeps_steps m c f : keeps m c -> (forall m1, accounts m1 -> keeps m1 (f m1)) -> keeps m (c ≫= f).
Proof. intros [Hd Hc] Hf. apply keeps_then; [done |]. intros m1 E. destruct (Hc m1 E). eapply keeps_after; [done | by apply Hf]. Qed.

Lemma mkm_find_ends k1 k2 mp : MultiKey.find k1 k2 mp <> Fault Diverged.
Proof. unfold MultiKey.find. destruct (_ !! k1) as [p |]; [| done]. destruct (_ !! p) as [s |]; simpl; [| done]. by destruct (s !! k2). Qed.
Lemma at_core_ends i f m : at_core i f m <> Fault Diverged.
Proof.
  unfold at_core. apply bind_ends; [apply aget_ends |]. intros c _. by apply bind_ends; [apply aset_ends |].
Qed.
#[export] Hint Resolve mkm_find_ends at_core_ends : ends.

Lemma find_block_ends k core_id initial p l m : find_block k core_id initial p l m <> Fault Diverged.
Proof.
  induction l as [| b l IH]; simpl; [done |]. apply bind_ends; [unfold round_robin_skips; ends |]. intros [] _; [done |].
  apply bind_ends; [unfold get_block; ends |]. intros i _. by destruct (_ && _).
Qed.

Section SCHEDULE.
Context (k : pm_knobs) (cycle : Z).

Definition block_at (m : manager) (core_id b : Z) : Prop :=
  exists j c i, core_id = Z.of_nat j /\ m_core_pointers m !! j = Some c /\ m_block_schedule_info m !! b = Some i /\ block_on j i = true.

Lemma schedule_block_ends core_id initial m : sim_schedule_thread_block k cycle core_id initial m <> Fault Diverged.
Proof.
  unfold sim_schedule_thread_block, get_process, get_block. apply bind_ends; [apply aget_ends |]. intros c _.
  destruct (current_block c m); [done |]. apply bind_ends; [ends |]. intros pa _. apply bind_ends; [ends |]. intros p _.
  destruct (_ <? _); [done |]. apply bind_ends; [apply find_block_ends |]. intros b _. destruct (b =? -1); [done |]. ends.
Qed.

Lemma current_block_at m j c b : accounts m -> m_core_pointers m !! j = Some c -> current_block c m = Some b -> block_at m (Z.of_nat j) b.
Proof.
  intros Hm Hc. unfold current_block. destruct (m_fetching_block_id c =? -1); [done |].
  destruct (m_block_schedule_info m !! m_fetching_block_id c) as [i |] eqn:Ei; [| done]. destruct (_ && _); [| done]. intros [= <-].
  exists j, c, i. destruct (i_fetching _ _ _ _ (a_ids _ Hm) j c Hc) as [_ Hf]. eauto.
Qed.

Lemma schedule_block_spec core_id initial m b m' :
  accounts m -> sim_schedule_thread_block k cycle core_id initial m = Done (b, m') ->
  accounts m' /\ threads_kept m m' /\ m_num_waiting_dispatched_threads m' = m_num_waiting_dispatched_threads m /\ (b = -1 \/ block_at m' core_id b).
Proof.
  intros Hm H. unfold sim_schedule_thread_block in H. step H as c Ec. apply aget_done in Ec as [Hge Ec].
  destruct (current_block c m) as [b0 |] eqn:Ecb.
  { injection H as <- <-. split_and!; [done | done | done |]. right. rewrite <- (Z2Nat.id core_id Hge). by eapply current_block_at. }
  step H as pa Epa. step H as p Ep. destruct (_ <? _); [injection H as <- <-; by split_and!; [| | | left] |].
  step H as b0 Eb. destruct (Z.eqb_spec b0 (-1)) as [-> | Hne]; [injection H as <- <-; by split_and!; [| | | left] |].
  destruct (find_block_spec _ _ _ _ _ _ _ Eb) as [-> | (_ & i & Hi & Hs & Ht)]; [done |].
  unfold get_block in H. rewrite Hi in H. cbn [get_or] in H. rewrite bind_done in H. step H as m1 Em1. injection H as <- <-.
  apply at_core_done in Em1 as (j & c0 & -> & Hc0 & ->). rewrite Nat2Z.id in Ec. simpl in Hc0. assert (c0 = c) as -> by congruence.
  split_and!.
  - apply (accounts_give m b0 i j c cycle Hm Ec Hi Hs Ht).
  - eapply (threads_kept_insert m j c); [done | reflexivity | done].
  - done.
  - right. exists j. eexists _, _. split_and!; [done | simpl; apply list_lookup_insert_eq; by eapply lookup_lt_Some | simpl; apply lookup_insert_eq |].
    rewrite block_on_new. by apply bool_decide_eq_true.
Qed.

Lemma fetch_block_runs m core_id b :
  accounts m -> block_at m core_id b ->
  fetch_block b m = Done (None, m) \/
  exists n q i, m_block_queue m !! b = Some (n :: q) /\ m_block_schedule_info m !! b = Some i /\
    fetch_block b m = Done (Some n, with_queues (m_thread_queue m) (<[b := q]> (m_block_queue m)) (m_num_waiting_dispatched_threads m - 1) m) /\
    find_node (processes m) (m_block_id_mapper m) n /\ n_acc n = true /\ n_block_id n = b /\ 0 < m_num_waiting_dispatched_threads m.
Proof.
  intros Hm (j & c & i & _ & Hc & Hi & Hon). unfold fetch_block. destruct (m_block_queue m !! b) as [[| n q] |] eqn:Eq.
  - by left.
  - right. pose proof (a_queues _ Hm) as [Hw _ Hb].
    pose proof (msum_ge (fun l : list thread_trace_info_node_s => Z.of_nat (length l)) _ _ _ (fun y => Nat2Z.is_nonneg _) Eq) as Hge. simpl in Hge.
    destruct (Hb b _ n Eq) as (H1 & H2 & H3); [left |]. exists n, q, i. cbn [get_or]. rewrite bind_done, (proj2 (Z.ltb_lt 0 _)) by lia.
    split_and!; try done. lia.
  - destruct (b_none _ _ _ (a_blocks _ Hm) b i Hi Eq) as [_ Hs]. unfold block_on in Hon. by rewrite Hs in Hon.
Qed.

Lemma gpu_loop_keeps n core_id initial b m :
  accounts m -> block_at m core_id b -> m_num_waiting_dispatched_threads m < Z.of_nat n -> keeps m (gpu_loop k cycle n core_id initial b m).
Proof.
  revert b m. induction n as [| n IH]; intros b m Hm Hat Hn; [|].
  { pose proof (q_waiting _ _ _ _ _ (a_queues _ Hm)) as Hw.
    assert (0 <= msum (fun l : list thread_trace_info_node_s => Z.of_nat (length l)) (m_block_queue m)) by (apply msum_nonneg; lia). lia. }
  simpl. destruct (fetch_block_runs m core_id b Hm Hat) as [-> | (nd & q & i & Hq & Hi & -> & Hf & Ha & Hb & Hw)].
  { rewrite bind_done. by apply keeps_ret. }
  rewrite bind_done. destruct Hat as (j & c & i0 & -> & Hc & Hi0 & Hon). assert (i0 = i) as -> by congruence.
  set (m1 := with_queues _ _ _ m). destruct (start_thread_runs nd m1 j c Hf Hc) as (t & p & -> & Ht). rewrite bind_done.
  unfold get_block. cbn [m_block_schedule_info started with_cores with_unique m1 with_queues]. rewrite Hi. cbn [get_or]. rewrite bind_done.
  pose proof (accounts_start_warp m b i nd q j c t p Hm Hq Hi Hon Hc Ht Ha Hb) as Hm3. fold m1 in Hm3.
  change (with_blocks _ _) with (warp_started m b i q j (add_thread t p c)).
  set (m3 := warp_started m b i q j (add_thread t p c)) in *.
  assert (Hk3 : threads_kept m m3).
  { eapply (threads_kept_insert m j c); [done | reflexivity |]. eapply live_add_subseteq. by apply (a_cores _ Hm). }
  apply keeps_then; [apply ASSERT_ends |]. intros [] _. apply keeps_then; [apply aget_ends |]. intros c3 _.
  destruct (_ =? _); [by apply keeps_ret |]. apply keeps_then; [apply schedule_block_ends |]. intros [b' m4] E.
  destruct (schedule_block_spec _ _ _ _ _ Hm3 E) as (Hm4 & Hk4 & Hw4 & Hat4). apply (keeps_after _ m4); [by etrans |].
  destruct (Z.eqb_spec b' (-1)) as [-> | Hne]; [by apply keeps_ret |]. destruct Hat4 as [-> | Hat4]; [done |].
  apply IH; [done | done |]. rewrite Hw4. unfold m3, warp_started. simpl. lia.
Qed.

Lemma gpu_cores_keeps n core_id initial m : accounts m -> keeps m (gpu_cores k cycle n core_id initial m).
Proof.
  revert core_id m. induction n as [| n IH]; intros core_id m Hm; simpl; [by apply keeps_ret |].
  apply keeps_then; [apply aget_ends |]. intros c Ec. apply keeps_steps; [| intros m1 Hm1; by apply IH].
  destruct (negb _); [by apply keeps_ret |]. apply keeps_then; [apply schedule_block_ends |]. intros [b m'] E.
  destruct (schedule_block_spec _ _ _ _ _ Hm E) as (Hm4 & Hk4 & Hw4 & Hat4). apply (keeps_after _ m'); [done |].
  destruct (Z.eqb_spec b (-1)) as [-> | Hne]; [by apply keeps_ret |]. destruct Hat4 as [-> | Hat4]; [done |].
  apply (gpu_loop_keeps (S _)); [done | done |].
  pose proof (q_waiting _ _ _ _ _ (a_queues _ Hm4)) as Hw.
  assert (0 <= msum (fun l : list thread_trace_info_node_s => Z.of_nat (length l)) (m_block_queue m')) by (apply msum_nonneg; lia). lia.
Qed.
End SCHEDULE.

Lemma core_type_in m j c : m_core_pointers m !! j = Some c -> m_core_type c ∈ core_type_set m.
Proof.
  intros Hc. unfold core_type_set. apply list_elem_of_filter. split.
  - apply list_elem_of_fmap. exists c. split; [done |]. by eapply list_elem_of_lookup_2.
  - destruct (m_core_type c); set_solver.
Qed.

Lemma sim_thread_schedule_keeps k cycle initial m : accounts m -> keeps m (sim_thread_schedule k cycle initial m).
Proof.
  intros Hm. unfold sim_thread_schedule. destruct (cpu_types_places k (core_type_set m) m Hm) as (l & m1 & -> & Hp & _).
  rewrite bind_done. destruct (places_facts _ _ _ _ Hp Hm) as (Hm1 & _). eapply keeps_after; [by eapply places_kept |]. by apply gpu_cores_keeps.
Qed.

Lemma gpu_cores_none k cycle n core_id initial m :
  (forall j c, m_core_pointers m !! j = Some c -> m_core_type c <> core_ptx) -> (core_id + n = length (m_core_pointers m))%nat ->
  gpu_cores k cycle n (Z.of_nat core_id) initial m = Done m.
Proof.
  intros Hty. revert core_id. induction n as [| n IH]; intros core_id Hlen; simpl; [done |].
  destruct (lookup_lt_is_Some_2 (m_core_pointers m) core_id) as [c Hc]; [lia |].
  rewrite (aget_lookup _ _ _ Hc), bind_done, bool_decide_eq_false_2 by eauto. simpl.
  replace (Z.of_nat core_id + 1) with (Z.of_nat (S core_id)) by lia. apply IH. lia.
Qed.

(** C18: On a machine without GPU cores one call of the scheduler starts the threads
    that wait longest, in order, each on the core the policy picks (the first with
    room, or the first of the least occupied); each gets the next thread number of
    its core, no core gets more threads than it may run, the threads that ran before
    still do, and the call ends only when no thread waits any more or every enabled
    core is full. *)
Theorem cpu_threads_placed k cycle initial m :
  accounts m -> (forall j c, m_core_pointers m !! j = Some c -> m_core_type c <> core_ptx) ->
  exists l m', sim_thread_schedule k cycle initial m = Done m' /\ accounts m' /\ places k m l m' /\
    m_thread_queue m = l.*2 ++ m_thread_queue m' /\
    (forall j c, m_core_pointers m !! j = Some c -> exists c', m_core_pointers m' !! j = Some c' /\ core_grew c (on_core j l) c') /\
    (m_thread_queue m' = [] \/
     forall j c', m_core_pointers m' !! j = Some c' -> disabled k (Z.of_nat j) c' = false -> m_max_threads_per_core c' <= m_running_thread_num c').
Proof.
  intros Hm Hty. unfold sim_thread_schedule. destruct (cpu_types_places k (core_type_set m) m Hm) as (l & m1 & -> & Hp & Hend).
  rewrite bind_done. destruct (places_facts _ _ _ _ Hp Hm) as (Hm1 & Hq & Hl & Hg).
  assert (Hback : forall j c', m_core_pointers m1 !! j = Some c' -> exists c, m_core_pointers m !! j = Some c /\ m_core_type c' = m_core_type c).
  { intros j c' Hc'. destruct (lookup_lt_is_Some_2 (m_core_pointers m) j) as [c Hc]; [rewrite <- Hl; by eapply lookup_lt_Some |].
    destruct (Hg j c Hc) as (c2 & Hc2 & [[E _] _ _ _ _ _]). exists c. split; [done |]. congruence. }
  exists l, m1. split_and!; [| done | done | done | done |].
  - apply (gpu_cores_none _ _ _ 0); [| done]. intros j c' Hc'. destruct (Hback j c' Hc') as (c & Hc & ->). by eapply Hty.
  - destruct Hend as [| Hfull]; [by left |]. right. intros j c' Hc' Hen. destruct (Hback j c' Hc') as (c & Hc & Et).
    assert (Hin : m_core_type c' ∈ core_type_set m) by (rewrite Et; by eapply core_type_in).
    assert (Hne : m_core_type c' <> core_ptx) by (rewrite Et; by eapply Hty).
    specialize (Hfull _ Hin Hne j c' Hc'). unfold has_room in Hfull. rewrite Hen, bool_decide_eq_true_2, andb_true_r in Hfull by done.
    by apply Z.ltb_ge.
Qed.

(** ** A thread becomes ready *)

Definition same_program (p p' : process_s) : Prop := m_process_id p' = m_process_id p /\ m_acc p' = m_acc p /\ forall tid, block_key tid p' = block_key tid p.
Lemma find_node_process ps mp pa p p' n : ps !! pa = Some p -> same_program p p' -> find_node ps mp n -> find_node (<[pa := p']> ps) mp n.
Proof.
  intros Hp (E1 & E2 & E3) (q & key & Hq & Ha & Hk & Hf & Hge). destruct (decide (n_process n = pa)) as [E | E].
  - subst pa. assert (q = p) as -> by congruence. exists p', key. rewrite lookup_insert_eq, E1, E2, E3. done.
  - exists q, key. by rewrite lookup_insert_ne.
Qed.
Lemma find_node_mapper ps mp mp' n :
  (forall k1 k2 v, MultiKey.find k1 k2 mp = Done v -> v <> -1 -> MultiKey.find k1 k2 mp' = Done v) -> find_node ps mp n -> find_node ps mp' n.
Proof. intros Hm (q & key & Hq & Ha & Hk & Hf & Hge). exists q, key. split_and!; try done. apply Hm; [done | lia]. Qed.
Lemma queues_ok_weaken ps mp ps' mp' tq bq w :
  (forall n, find_node ps mp n -> find_node ps' mp' n) -> queues_ok ps mp tq bq w -> queues_ok ps' mp' tq bq w.
Proof.
  intros H [H1 H2 H3]. constructor; [done | |].
  - intros n Hn. destruct (H2 n Hn). auto.
  - intros b l n Hb Hn. destruct (H3 b l n Hb Hn). auto.
Qed.

Definition with_program (ps : gmap nat process_s) (mp : MultiKey.multi_key_map_c) (m : manager) : manager := with_mapper mp (with_processes ps m).
Lemma accounts_program ps mp m :
  accounts m -> MultiKey.mkm_inv mp -> MultiKey.m_size (m_block_id_mapper m) <= MultiKey.m_size mp ->
  (forall n, find_node (processes m) (m_block_id_mapper m) n -> find_node ps mp n) -> accounts (with_program ps mp m).
Proof.
  intros [H1 H2 H3 H4 [I1 I2 I3] H6] Hmp Hsz Hf. constructor; simpl; try done.
  - by eapply queues_ok_weaken.
  - constructor; [done | intros b Hb; specialize (I2 b Hb); lia |]. intros j c Hc. destruct (I3 j c Hc). split; [lia | done].
Qed.

Lemma accounts_insert_thread m n :
  accounts m -> find_node (processes m) (m_block_id_mapper m) n -> n_acc n = false ->
  accounts (with_active (m_num_active_threads m + 1) (insert_thread n m)).
Proof.
  intros [H1 [W Q1 Q2] H3 H4 H5 H6] Hn Ha. constructor; simpl; try done; [| lia]. constructor; [rewrite length_app; simpl; lia | | done].
  intros n' [Hn' | ->%list_elem_of_singleton]%elem_of_app; [by apply Q1 | done].
Qed.

(** No entry, no warps. *)
Lemma no_entry_no_warps bs cores b : cores_ok bs cores -> bs !! b = None -> sum_by (warps_of b) cores = 0.
Proof.
  intros Hc Hb. apply sum_by_none. apply Forall_lookup. intros j c Hj. apply msum_zero. intros tid t Ht. unfold warp_of.
  destruct (th_acc t) eqn:Ea; [| done]. simpl. destruct (Z.eqb_spec (th_block_id t) b) as [E |]; [| done].
  destruct (c_home _ _ _ (Hc j c Hj) tid t Ht Ea) as (i & Hi & _). rewrite E in Hi. congruence.
Qed.

(** The entry of a block after another warp, with the counters of before. *)
Lemma cores_ok_entry bs cores b i' :
  cores_ok bs cores -> (bs !! b = None -> m_start_to_fetch i' = false) ->
  (forall i, bs !! b = Some i -> m_start_to_fetch i' = m_start_to_fetch i /\ m_dispatched_core_id i' = m_dispatched_core_id i) -> cores_ok (<[b := i']> bs) cores.
Proof.
  intros Hc Hnone Hsome j c Hj. specialize (Hc j c Hj). destruct (bs !! b) as [i |] eqn:Eb.
  { destruct (Hsome i eq_refl). by eapply core_ok_counters. }
  constructor; [apply (c_running _ _ _ Hc) | | apply (c_fresh _ _ _ Hc) | | apply (c_int _ _ _ Hc)].
  - rewrite msum_fresh, (c_blocks _ _ _ Hc) by done. unfold block_on at 2. rewrite Hnone by done. simpl. lia.
  - intros tid t Ht Ha. destruct (c_home _ _ _ Hc tid t Ht Ha) as (i0 & Hi0 & Hon0). exists i0. rewrite lookup_insert_ne by congruence. done.
Qed.

Lemma accounts_insert_block m n :
  accounts m -> find_node (processes m) (m_block_id_mapper m) n -> n_acc n = true -> n_block_id n < MultiKey.m_size (m_block_id_mapper m) ->
  (m_block_schedule_info m !! n_block_id n = None -> forall j c, m_core_pointers m !! j = Some c -> m_fetching_block_id c <> n_block_id n) ->
  accounts (with_active (m_num_active_threads m + 1) (insert_block n m)).
Proof.
  intros [H1 [W Q1 Q2] [B1 B2 B3 B4 B5 B6] H4 [I1 I2 I3] H6] Hn Ha Hlt Hfresh. set (b := n_block_id n) in *.
  assert (Hge : 0 <= b) by (destruct Hn as (? & ? & Hn); apply Hn).
  assert (Hi : forall i, m_block_schedule_info m !! b = Some i -> default block_new (m_block_schedule_info m !! b) = i) by (by intros i ->).
  assert (Hc0 : sum_by (warps_of b) (m_core_pointers m) = m_dispatched_thread_num (default block_new (m_block_schedule_info m !! b)) - m_retired_thread_num (default block_new (m_block_schedule_info m !! b))).
  { destruct (m_block_schedule_info m !! b) as [i |] eqn:Eb; [simpl; symmetry; by apply B4 |]. by rewrite (no_entry_no_warps _ _ _ H4 Eb). }
  constructor; unfold insert_block; fold b; simpl; try done; [| | | | lia].
  - constructor; [| done |].
    + destruct (m_block_queue m !! b) as [l |] eqn:Eq; simpl.
      * rewrite (msum_insert _ _ _ _ _ Eq), length_app. simpl. lia.
      * rewrite msum_fresh by done. simpl. lia.
    + intros b' l n'. rewrite lookup_insert. case_decide as E; [| apply Q2]. intros [= <-]. subst b'.
      intros [Hn' | ->%list_elem_of_singleton]%elem_of_app; [| done].
      destruct (m_block_queue m !! b) as [l |] eqn:Eq; simpl in Hn'; [by eapply Q2 | by apply not_elem_of_nil in Hn'].
  - constructor.
    + intros b'. rewrite !lookup_insert. case_decide; [eauto | apply B1].
    + intros b' i'. rewrite !lookup_insert. case_decide; [done | apply B2].
    + intros b' i'. rewrite !lookup_insert. case_decide as E; [| apply B3]. intros [= <-]. simpl. rewrite length_app. simpl.
      destruct (m_block_schedule_info m !! b) as [i |] eqn:Eb; simpl; [rewrite (B3 b i Eb); lia |].
      destruct (m_block_queue m !! b) as [l |] eqn:Eq; simpl; [| lia]. destruct (B1 b) as [? ?]; [eauto | congruence].
    + intros b' i'. rewrite lookup_insert. case_decide as E; [| apply B4]. intros [= <-]. subst b'. simpl. lia.
    + intros b' i'. rewrite lookup_insert. case_decide as E; [| apply B5]. intros [= <-]. simpl.
      destruct (m_block_schedule_info m !! b) as [i |] eqn:Eb; [apply (B5 b i Eb) | simpl; lia].
    + intros b' i'. rewrite lookup_insert. case_decide as E; [| by rewrite lookup_insert_ne; [apply B6 |]]. intros [= <-] _. simpl.
      destruct (m_block_schedule_info m !! b) as [i |] eqn:Eb; [| simpl; lia]. simpl.
      destruct (m_block_queue m !! b) eqn:Eq; [assert (m_retired_thread_num i < m_total_thread_num i) by eauto; lia |].
      destruct (B2 b i Eb Eq) as [_ Hst]. destruct (B5 b i Eb) as [Hr Hd]. specialize (Hd Hst). specialize (B3 b i Eb). rewrite Eq in B3. simpl in B3.
      assert (0 <= sum_by (warps_of b) (m_core_pointers m)) by apply sum_warps_nonneg. simpl in Hc0. lia.
  - apply cores_ok_entry; [done | by intros -> |]. intros i ->. done.
  - constructor.
    + intros b'. rewrite lookup_insert. case_decide; [intros _; by subst b' | apply I1].
    + intros b'. rewrite lookup_insert. case_decide; [intros _; by subst b' | apply I2].
    + intros j c Hj. destruct (I3 j c Hj) as [Hs Hf]. split; [done |]. intros i'. rewrite lookup_insert. case_decide as E; [| apply Hf].
      intros [= <-]. rewrite <- E in Hf. destruct (m_block_schedule_info m !! b) as [i |] eqn:Eb; [specialize (Hf i eq_refl); exact Hf |].
      by destruct (Hfresh eq_refl j c Hj).
Qed.

(** A warp joins a block only as long as the block has not retired. *)
Definition opens (pa : nat) (tid : Z) (m : manager) : Prop :=
  forall p key b, processes m !! pa = Some p -> m_acc p = true -> block_key tid p = Done key ->
    MultiKey.find (m_process_id p) key (m_block_id_mapper m) = Done b -> b <> -1 -> is_Some (m_block_queue m !! b).

Lemma create_thread_node_accounts pa tid main m m' :
  accounts m -> opens pa tid m -> create_thread_node pa tid main m = Done m' -> accounts m'.
Proof.
  intros Hm Hop H. unfold create_thread_node in H. step H as p Ep. apply get_or_done in Ep. step H as key Ek. step H as b0 Eb.
  step H as r Er. destruct r as [[b mp] count]. injection H as <-.
  assert (Hmp : MultiKey.mkm_inv mp /\ MultiKey.m_size (m_block_id_mapper m) <= MultiKey.m_size mp /\ 0 <= b < MultiKey.m_size mp /\
    MultiKey.find (m_process_id p) key mp = Done b /\
    (forall k1 k2 v, MultiKey.find k1 k2 (m_block_id_mapper m) = Done v -> v <> -1 -> MultiKey.find k1 k2 mp = Done v) /\
    (b = MultiKey.m_size (m_block_id_mapper m) \/ b = b0 /\ b0 <> -1)).
  { pose proof (a_mapper _ Hm) as Hinv. destruct (Z.eqb_spec b0 (-1)) as [-> | Hne].
    - destruct (MultiKey.insert_ok (m_process_id p) key _ Hinv) as (mp' & Ei & Hi' & Hf & Ho). rewrite Ei in Er. injection Er as <- <- _.
      assert (Hsz : MultiKey.m_size mp' = MultiKey.m_size (m_block_id_mapper m) + 1).
      { unfold MultiKey.insert in Ei. destruct (_ !! m_process_id p); [step Ei as s Es |]; by injection Ei as <-. }
      pose proof (MultiKey.inv_size _ Hinv). split_and!; [done | lia | lia | lia | done | | by left].
      intros k1 k2 v Hv Hv1. rewrite Ho; [done |]. intros [= -> ->]. congruence.
    - injection Er as <- <- _. destruct (MultiKey.find_total (m_process_id p) key _ Hinv) as (v & Hv & Hr). assert (v = b0) as -> by congruence.
      split_and!; first [done | lia | by right]. }
  destruct Hmp as (Hinv & Hsz & Hb & Hf & Hext & Hcase).
  set (p' := set_process_blocks _ count p). set (ps := <[pa := p']> (processes m)).
  assert (Hsame : same_program p p') by done.
  assert (Hm1 : accounts (with_program ps mp m)).
  { apply accounts_program; [done | done | done |]. intros n Hn. eapply find_node_mapper; [done |]. by eapply find_node_process. }
  assert (Hnode : find_node ps mp (mk_node pa tid main (m_acc p) b)).
  { exists p', key. unfold ps. rewrite lookup_insert_eq. split_and!; try done. simpl. lia. }
  change (with_mapper mp (with_processes ps m)) with (with_program ps mp m). destruct (m_acc p) eqn:Ea.
  - apply (accounts_insert_block (with_program ps mp m)); [done | done | done | simpl; lia |]. simpl. intros Hno j c Hc.
    destruct Hcase as [-> | [-> Hne]].
    + destruct (i_fetching _ _ _ _ (a_ids _ Hm) j c Hc). lia.
    + destruct (Hop p key b0 Ep Ea Ek Eb Hne) as [l Hl]. destruct (b_queue _ _ _ (a_blocks _ Hm) b0) as [i Hi]; [eauto | congruence].
  - by apply (accounts_insert_thread (with_program ps mp m)).
Qed.

(** ** A thread ends *)

(** The same core as far as the accounts go. *)
Record core_same (c c' : core_c) : Prop := {
  s_max : m_max_threads_per_core c' = m_max_threads_per_core c;
  s_running : m_running_thread_num c' = m_running_thread_num c;
  s_blocks : m_running_block_num c' = m_running_block_num c;
  s_fetching : m_fetching_block_id c' = m_fetching_block_id c;
  s_unique : m_unique_scheduled_thread_num c' = m_unique_scheduled_thread_num c;
  s_info : m_thread_trace_info c' = m_thread_trace_info c;
  s_finished : m_thread_finished c' = m_thread_finished c
}.
Lemma core_same_live c c' : core_same c c' -> live_threads c' = live_threads c.
Proof. intros [_ _ _ _ _ H1 H2]. unfold live_threads. by rewrite H1, H2. Qed.
Lemma core_ok_same bs j c c' : core_same c c' -> core_ok bs j c -> core_ok bs j c'.
Proof.
  intros Hs Hc. pose proof (core_same_live _ _ Hs) as El. constructor; rewrite ?El.
  - rewrite (s_running _ _ Hs). apply (c_running _ _ _ Hc).
  - rewrite (s_blocks _ _ Hs). apply (c_blocks _ _ _ Hc).
  - rewrite (s_info _ _ Hs), (s_unique _ _ Hs). apply (c_fresh _ _ _ Hc).
  - apply (c_home _ _ _ Hc).
  - rewrite (s_max _ _ Hs). apply (c_int _ _ _ Hc).
Qed.

Lemma drop_terminated_ends n last s : (size s <= n)%nat -> drop_terminated n last s <> Fault Diverged.
Proof.
  revert last s. induction n as [| n IH]; intros last s Hs; simpl; case_bool_decide as E; try done.
  - assert (size s = 0)%nat as Hz by lia. apply size_empty_inv in Hz. simpl. set_solver.
  - simpl. apply IH. rewrite size_difference, size_singleton by set_solver. lia.
Qed.
Lemma deallocate_ends tid c : deallocate_thread_data tid c <> Fault Diverged.
Proof.
  unfold deallocate_thread_data. apply bind_ends; [| intros [last s] _; ends]. apply drop_terminated_ends.
  pose proof (size_union_alt {[tid]} (m_terminated_tid c)) as E. rewrite E, size_singleton.
  pose proof (subseteq_size (m_terminated_tid c ∖ {[tid]}) (m_terminated_tid c) ltac:(set_solver)). lia.
Qed.
Lemma deallocate_same tid c c' : deallocate_thread_data tid c = Done c' -> core_same c c'.
Proof. unfold deallocate_thread_data. intros H. step H as r E. destruct r as [last s]. step H as u E'. by injection H as <-. Qed.

Section FINISH.
Context (bs : gmap Z block_schedule_info_s) (j : nat) (c c' : core_c) (tid : Z) (t : thread_s).
Context (Hc : core_ok bs j c) (Ht : live_threads c !! tid = Some t) (Hs : core_same (finish_thread tid c) c').

Lemma live_finished : live_threads c' = delete tid (live_threads c).
Proof. rewrite (core_same_live _ _ Hs). apply live_finish. Qed.
Lemma core_ok_finish : core_ok bs j c'.
Proof.
  apply (core_ok_same _ _ _ _ Hs). constructor; rewrite ?live_finish; simpl.
  - rewrite (msum_delete _ _ _ _ Ht), (c_running _ _ _ Hc). done.
  - apply (c_blocks _ _ _ Hc).
  - apply (c_fresh _ _ _ Hc).
  - intros tid' t' [_ Ht']%lookup_delete_Some. by apply (c_home _ _ _ Hc tid').
  - apply (c_int _ _ _ Hc).
Qed.
Lemma warps_of_finish b : warps_of b c' = warps_of b c - warp_of b t.
Proof. unfold warps_of. by rewrite live_finished, (msum_delete _ _ _ _ Ht). Qed.
End FINISH.

(** The core without the thread, which its process counts as ended. *)
Definition left_core (m : manager) (j : nat) (c' : core_c) (pa : nat) (p : process_s) : manager :=
  with_active (m_num_active_threads m - 1) (with_processes (<[pa := count_terminated p]> (processes m)) (with_cores (<[j := c']> (m_core_pointers m)) m)).

Lemma block_on_unique j q i : block_on j i = true -> block_on q i = true -> q = j.
Proof. unfold block_on. intros [_ E%Z.eqb_eq]%andb_true_iff [_ E'%Z.eqb_eq]%andb_true_iff. lia. Qed.

Section LEAVE.
Context (m : manager) (j : nat) (c c' : core_c) (tid : Z) (t : thread_s) (pa : nat) (p : process_s).
Context (Hm : accounts m) (Hc : m_core_pointers m !! j = Some c) (Ht : live_threads c !! tid = Some t).
Context (Hs : core_same (finish_thread tid c) c') (Hp : processes m !! pa = Some p).
Let Hcj := a_cores _ Hm j c Hc.

Lemma leave_warps b : sum_by (warps_of b) (<[j := c']> (m_core_pointers m)) = sum_by (warps_of b) (m_core_pointers m) - warp_of b t.
Proof. rewrite (sum_by_insert _ _ _ _ _ Hc), (warps_of_finish c c' tid t Ht Hs). lia. Qed.
Lemma leave_running : sum_by m_running_thread_num (<[j := c']> (m_core_pointers m)) = sum_by m_running_thread_num (m_core_pointers m) - 1.
Proof. rewrite (sum_by_insert _ _ _ _ _ Hc), (s_running _ _ Hs). simpl. lia. Qed.
Lemma leave_queues tq bq w :
  queues_ok (processes m) (m_block_id_mapper m) tq bq w -> queues_ok (<[pa := count_terminated p]> (processes m)) (m_block_id_mapper m) tq bq w.
Proof. apply queues_ok_weaken. intros n Hn. by eapply find_node_process. Qed.
Lemma leave_cores : cores_ok (m_block_schedule_info m) (<[j := c']> (m_core_pointers m)).
Proof. apply (cores_ok_insert _ _ _ c); [apply (a_cores _ Hm) | done | by eapply core_ok_finish]. Qed.
Lemma leave_ids : ids_ok (m_block_schedule_info m) (m_block_queue m) (<[j := c']> (m_core_pointers m)) (MultiKey.m_size (m_block_id_mapper m)).
Proof. apply (ids_ok_insert _ _ _ _ _ c); [apply (a_ids _ Hm) | done | apply (s_fetching _ _ Hs)]. Qed.

Lemma accounts_leave : th_acc t = false -> accounts (left_core m j c' pa p).
Proof.
  intros Ha. constructor; simpl; [apply (a_mapper _ Hm) | apply leave_queues, (a_queues _ Hm) | | apply leave_cores | apply leave_ids |].
  - destruct (a_blocks _ Hm) as [B1 B2 B3 B4 B5 B6]. constructor; try done. intros b i Hi. rewrite leave_warps, (B4 b i Hi).
    unfold warp_of. rewrite Ha. simpl. lia.
  - rewrite leave_running, (a_active _ Hm). lia.
Qed.

(** The entry of the block of a warp that ends. *)
Definition one_more_retired (i : block_schedule_info_s) : block_schedule_info_s :=
  mk_block (m_start_to_fetch i) (m_dispatched_core_id i) (m_retired i) (m_dispatched_thread_num i) (m_retired_thread_num i + 1) (m_total_thread_num i) (m_trace_exist i) (m_sched_cycle i).
Context (Ha : th_acc t = true) (i : block_schedule_info_s) (Hi : m_block_schedule_info m !! th_block_id t = Some i) (Hon : block_on j i = true).

Lemma home_queue : exists l, m_block_queue m !! th_block_id t = Some l.
Proof.
  destruct (m_block_queue m !! th_block_id t) as [l |] eqn:E; [eauto |]. destruct (b_none _ _ _ (a_blocks _ Hm) _ i Hi E) as [_ H].
  unfold block_on in Hon. by rewrite H in Hon.
Qed.
Lemma warp_of_home : warp_of (th_block_id t) t = 1.
Proof. unfold warp_of. by rewrite Ha, Z.eqb_refl. Qed.

Lemma accounts_leave_block : m_retired_thread_num i + 1 <> m_total_thread_num i -> accounts (with_blocks (<[th_block_id t := one_more_retired i]> (m_block_schedule_info m)) (left_core m j c' pa p)).
Proof.
  intros Hmore. destruct home_queue as [l Hl]. constructor; simpl; [apply (a_mapper _ Hm) | apply leave_queues, (a_queues _ Hm) | | | |].
  - destruct (a_blocks _ Hm) as [B1 B2 B3 B4 B5 B6]. constructor.
    + intros b Hb. rewrite lookup_insert. case_decide; [eauto | by apply B1].
    + intros b i'. rewrite lookup_insert. case_decide as E; [intros _; congruence | apply B2].
    + intros b i'. rewrite lookup_insert. case_decide as E; [intros [= <-]; rewrite <- E; exact (B3 _ i Hi) | apply B3].
    + intros b i'. rewrite leave_warps, lookup_insert. case_decide as E.
      * intros [= <-]. rewrite <- E, warp_of_home. simpl. specialize (B4 _ i Hi). lia.
      * intros Hi'. unfold warp_of. rewrite (proj2 (Z.eqb_neq (th_block_id t) b)), andb_false_r by done. rewrite (B4 b i' Hi'). lia.
    + intros b i'. rewrite lookup_insert. case_decide as E; [| apply B5]. intros [= <-]. simpl. destruct (B5 _ i Hi). split; [lia | done].
    + intros b i'. rewrite lookup_insert. case_decide as E; [| apply B6]. intros [= <-] _. simpl.
      assert (m_retired_thread_num i < m_total_thread_num i) by eauto. lia.
  - intros q d Hq. eapply core_ok_counters; [exact Hi | done | done | by apply leave_cores].
  - rewrite <- (insert_id _ _ _ Hl). eapply ids_ok_counters; [exact Hi | exact Hl | done | done | apply leave_ids].
  - rewrite leave_running, (a_active _ Hm). lia.
Qed.

(** The last one finds all other warps of the block started and ended. *)
Lemma last_leaves : m_retired_thread_num i + 1 = m_total_thread_num i ->
  m_block_queue m !! th_block_id t = Some [] /\ sum_by (warps_of (th_block_id t)) (<[j := c']> (m_core_pointers m)) = 0.
Proof.
  intros Hlast. destruct home_queue as [l Hl]. pose proof (b_total _ _ _ (a_blocks _ Hm) _ i Hi) as Htot. rewrite Hl in Htot. simpl in Htot.
  pose proof (b_live _ _ _ (a_blocks _ Hm) _ i Hi) as Hlive. pose proof (leave_warps (th_block_id t)) as Hw. rewrite warp_of_home in Hw.
  assert (Hge : 0 <= sum_by (warps_of (th_block_id t)) (<[j := c']> (m_core_pointers m))).
  { apply sum_warps_nonneg. }
  assert (length l = 0)%nat as ->%nil_length_inv by lia. split; [done | lia].
Qed.

Lemma core_ok_retire q d :
  (<[j := c']> (m_core_pointers m)) !! q = Some d -> sum_by (warps_of (th_block_id t)) (<[j := c']> (m_core_pointers m)) = 0 ->
  core_ok (delete (th_block_id t) (m_block_schedule_info m)) q (if decide (q = j) then set_running_blocks (m_running_block_num d - 1) (m_fetching_block_id d) d else d).
Proof.
  intros Hq Hz. pose proof (leave_cores q d Hq) as Hd.
  assert (Hsum : msum (fun i0 => if block_on q i0 then 1 else 0) (delete (th_block_id t) (m_block_schedule_info m)) = m_running_block_num d - if decide (q = j) then 1 else 0).
  { rewrite (msum_delete _ _ _ _ Hi), <- (c_blocks _ _ _ Hd). case_decide as E; [subst q; by rewrite Hon |].
    destruct (block_on q i) eqn:Eq; [by destruct E; eapply block_on_unique |]. done. }
  assert (Hhome : forall tid' t', live_threads d !! tid' = Some t' -> th_acc t' = true ->
    exists i0, delete (th_block_id t) (m_block_schedule_info m) !! th_block_id t' = Some i0 /\ block_on q i0 = true).
  { intros tid' t' Ht' Ha'. destruct (c_home _ _ _ Hd tid' t' Ht' Ha') as (i0 & Hi0 & Hon0). exists i0. split; [| done].
    rewrite lookup_delete_ne; [done |]. intros E.
    assert (Hw : warp_of (th_block_id t) t' = 1) by (unfold warp_of; by rewrite Ha', E, Z.eqb_refl).
    pose proof (msum_ge (warp_of (th_block_id t)) _ _ _ (warp_of_nonneg _) Ht') as H1.
    pose proof (sum_by_ge (warps_of (th_block_id t)) _ _ _ (warps_of_nonneg _) Hq) as H2. unfold warps_of at 1 in H2. lia. }
  destruct (decide (q = j)); constructor;
    solve [exact (c_running _ _ _ Hd) | exact (c_fresh _ _ _ Hd) | exact Hhome | exact (c_int _ _ _ Hd) | rewrite Hsum; simpl; lia].
Qed.

Lemma accounts_retire p' n e y :
  m_retired_thread_num i + 1 = m_total_thread_num i -> same_program p p' ->
  accounts (with_retired n e y (with_active (m_num_active_threads m - 1)
    (with_queues (m_thread_queue m) (delete (th_block_id t) (m_block_queue m)) (m_num_waiting_dispatched_threads m)
      (with_processes (<[pa := p']> (processes m))
        (with_blocks (delete (th_block_id t) (m_block_schedule_info m))
          (with_cores (<[j := set_running_blocks (m_running_block_num c' - 1) (m_fetching_block_id c') c']> (m_core_pointers m)) m)))))).
Proof.
  intros Hlast Hsame. destruct (last_leaves Hlast) as [Hq Hz]. set (c2 := set_running_blocks _ _ c').
  assert (Hins : <[j := c2]> (m_core_pointers m) = <[j := c2]> (<[j := c']> (m_core_pointers m))) by (by rewrite list_insert_insert_eq).
  assert (Hj : <[j := c']> (m_core_pointers m) !! j = Some c') by (apply list_lookup_insert_eq; by eapply lookup_lt_Some).
  constructor; simpl; rewrite ?Hins.
  - apply (a_mapper _ Hm).
  - destruct (a_queues _ Hm) as [W Q1 Q2]. apply (queues_ok_weaken (processes m) (m_block_id_mapper m)); [intros n' Hn'; by eapply find_node_process |].
    constructor; [rewrite (msum_delete _ _ _ _ Hq); simpl; lia | done |]. intros b l n' [_ Hb]%lookup_delete_Some. by apply Q2.
  - destruct (a_blocks _ Hm) as [B1 B2 B3 B4 B5 B6]. constructor.
    + intros b [l [Hne Hb]%lookup_delete_Some]. rewrite lookup_delete_ne by done. eauto.
    + intros b i' [Hne Hb]%lookup_delete_Some. rewrite lookup_delete_ne by done. by apply B2.
    + intros b i' [Hne Hb]%lookup_delete_Some. rewrite lookup_delete_ne by done. by apply B3.
    + intros b i' [Hne Hb]%lookup_delete_Some. rewrite (sum_by_insert _ _ _ _ _ Hj). unfold c2. rewrite warps_of_blocks, leave_warps.
      unfold warp_of. rewrite (proj2 (Z.eqb_neq (th_block_id t) b)), andb_false_r by done. rewrite (B4 b i' Hb). lia.
    + intros b i' [_ Hb]%lookup_delete_Some. exact (B5 b i' Hb).
    + intros b i' [Hne Hb]%lookup_delete_Some. rewrite lookup_delete_ne by done. by apply B6.
  - intros q d Hd. destruct (lookup_insert_pick _ _ _ _ _ _ Hj Hd) as (d0 & Hd0 & ->).
    pose proof (core_ok_retire q d0 Hd0 Hz) as Hok. destruct (decide (q = j)) as [-> |]; [| done]. assert (d0 = c') as -> by congruence. exact Hok.
  - pose proof leave_ids as [I1 I2 I3]. constructor.
    + intros b [x [_ Hb]%lookup_delete_Some]. eauto.
    + intros b [x [_ Hb]%lookup_delete_Some]. eauto.
    + intros q d Hd. destruct (lookup_insert_pick _ _ _ _ _ _ Hj Hd) as (d0 & Hd0 & ->). destruct (I3 q d0 Hd0) as [Hlt Hf].
      assert (Ef : m_fetching_block_id (if decide (q = j) then c2 else d0) = m_fetching_block_id d0).
      { destruct (decide (q = j)) as [-> |]; [| done]. by assert (d0 = c') as -> by congruence. }
      rewrite Ef. split; [done |]. intros i' [_ Hi']%lookup_delete_Some. by apply Hf.
  - rewrite (sum_by_insert _ _ _ _ _ Hj), leave_running, (a_active _ Hm). simpl. lia.
Qed.
End LEAVE.

Lemma retire_block_spec k cycle stale j c c' tid t pa p m :
  accounts m -> m_core_pointers m !! j = Some c -> live_threads c !! tid = Some t -> core_same (finish_thread tid c) c' ->
  processes m !! pa = Some p -> th_acc t = true -> th_process t = pa ->
  retire_block k cycle stale (Z.of_nat j) t (left_core m j c' pa p) <> Fault Diverged /\
  forall m', retire_block k cycle stale (Z.of_nat j) t (left_core m j c' pa p) = Done m' -> accounts m'.
Proof.
  intros Hm Hc Ht Hs Hp Ha <-. split; [unfold retire_block, get_block, get_process; ends |]. intros m' H.
  destruct (c_home _ _ _ (a_cores _ Hm j c Hc) tid t Ht Ha) as (i & Hi & Hon).
  assert (Hj : m_core_pointers (left_core m j c' (th_process t) p) !! j = Some c') by (simpl; apply list_lookup_insert_eq; by eapply lookup_lt_Some).
  unfold retire_block, get_block in H. cbn [m_block_schedule_info left_core with_active with_processes with_cores] in H. rewrite Hi in H. cbn [get_or] in H. rewrite bind_done in H.
  destruct (Z.eqb_spec (m_retired_thread_num i + 1) (m_total_thread_num i)) as [Hlast | Hmore]; cbn [negb] in H.
  - rewrite (aget_lookup _ _ _ Hj), bind_done, (at_core_runs _ _ _ _ Hj), bind_done in H.
    unfold get_process in H. cbn [processes left_core with_active with_processes with_cores] in H. rewrite lookup_insert_eq in H. cbn [get_or] in H. rewrite bind_done in H.
    step H as u1 E1. step H as u2 E2. injection H as <-.
    pose proof (accounts_retire m j c c' tid t (th_process t) p Hm Hc Ht Hs Hp Ha i Hi Hon) as Hacc.
    unfold with_retired, with_queues, with_processes, with_blocks, with_cores, with_active, left_core in *. simpl in *.
    rewrite list_insert_insert_eq, insert_insert_eq. by apply Hacc.
  - injection H as <-. by eapply (accounts_leave_block m j c c' tid t (th_process t) p Hm Hc Ht Hs Hp Ha i Hi Hon).
Qed.

Lemma terminate_thread_spec k cycle stale j c tid t m :
  accounts m -> m_core_pointers m !! j = Some c -> live_threads c !! tid = Some t ->
  terminate_thread k cycle stale (Z.of_nat j) tid t m <> Fault Diverged /\
  forall m', terminate_thread k cycle stale (Z.of_nat j) tid t m = Done m' -> accounts m'.
Proof.
  intros Hm Hc Ht. unfold terminate_thread, final_heartbeat. rewrite (aget_lookup _ _ _ Hc), bind_done.
  pose proof (msum_ge (fun _ : thread_s => 1) _ _ _ (fun _ => Z.le_0_1) Ht) as Hrun. rewrite <- (c_running _ _ _ (a_cores _ Hm j c Hc)) in Hrun.
  rewrite (proj2 (Z.eqb_neq (m_running_thread_num c) 0)) by lia. cbn [negb ASSERT]. rewrite bind_done.
  destruct (sim_thread_schedule_keeps k cycle false m Hm) as [Hend0 Hkeep0].
  destruct (sim_thread_schedule k cycle false m) as [m0 | e] eqn:E0; [| split; [by intros [= ->] | done]].
  destruct (Hkeep0 m0 eq_refl) as [Hm0 Hk]. destruct (Hk j c Hc) as (c0 & Hc0 & Hsub). rewrite bind_done, (aget_lookup _ _ _ Hc0), bind_done.
  assert (Ht0 : live_threads c0 !! tid = Some t) by (by eapply lookup_weaken).
  pose proof (deallocate_ends tid (finish_thread tid c0)) as Hend1.
  destruct (deallocate_thread_data tid (finish_thread tid c0)) as [c' | e] eqn:E1; [| split; [by intros [= ->] | done]].
  apply deallocate_same in E1. rewrite bind_done, (at_core_runs _ _ _ _ Hc0), bind_done. unfold get_process. cbn [processes with_cores].
  destruct (processes m0 !! th_process t) as [p |] eqn:Ep; [cbn [get_or] | by split]. rewrite bind_done.
  change (with_active _ _) with (left_core m0 j c' (th_process t) p).
  assert (Hm3 : (if th_acc t then retire_block k cycle stale (Z.of_nat j) t (left_core m0 j c' (th_process t) p) else mret (left_core m0 j c' (th_process t) p)) <> Fault Diverged /\
     forall m3, (if th_acc t then retire_block k cycle stale (Z.of_nat j) t (left_core m0 j c' (th_process t) p) else mret (left_core m0 j c' (th_process t) p)) = Done m3 -> accounts m3).
  { destruct (th_acc t) eqn:Ea; [by eapply retire_block_spec |]. split; [done |]. intros m3 [= <-]. by eapply accounts_leave. }
  destruct Hm3 as [Hend3 Hacc3]. destruct (if th_acc t then _ else _) as [m3 | e]; [| split; [by intros [= ->] | done]].
  specialize (Hacc3 m3 eq_refl). rewrite bind_done. destruct (_ =? 0); [split; [done |]; by intros m' [= <-] |].
  destruct (sim_thread_schedule_keeps k cycle false m3 Hacc3) as [Hend4 Hkeep4]. split; [done |]. intros m' E. by apply Hkeep4.
Qed.

(** ** Every run *)

(** The state of the constructors: idle cores, empty queues, the one entry the
    simulator starts with. *)
Record fresh_manager (m : manager) : Prop := {
  f_queues : m_thread_queue m = [] /\ m_block_queue m = ∅ /\ m_num_waiting_dispatched_threads m = 0 /\ m_num_active_threads m = 0;
  f_blocks : m_block_schedule_info m = {[0 := block_new]} /\ m_block_id_mapper m = MultiKey.mkm_new;
  f_cores : forall j c, m_core_pointers m !! j = Some c -> m_running_thread_num c = 0 /\ m_running_block_num c = 0 /\ m_fetching_block_id c = -1 /\
              m_unique_scheduled_thread_num c = 0 /\ m_thread_trace_info c = ∅ /\ m_max_threads_per_core c <= 2 ^ 31 - 1
}.

(** A thread becomes ready, the scheduler runs, a running thread ends; a process
    without waiting threads is set up; the rest of a core goes on. *)
Inductive reached (k : pm_knobs) : manager -> Prop :=
| reached_start m : fresh_manager m -> reached k m
| reached_create m m' pa tid main : reached k m -> opens pa tid m -> create_thread_node pa tid main m = Done m' -> reached k m'
| reached_schedule m m' cycle initial : reached k m -> sim_thread_schedule k cycle initial m = Done m' -> reached k m'
| reached_end m m' cycle stale j c tid t :
    reached k m -> m_core_pointers m !! j = Some c -> live_threads c !! tid = Some t ->
    terminate_thread k cycle stale (Z.of_nat j) tid t m = Done m' -> reached k m'
| reached_setup m pa p sims all :
    reached k m -> (forall n, n ∈ m_thread_queue m -> n_process n <> pa) -> (forall b l n, m_block_queue m !! b = Some l -> n ∈ l -> n_process n <> pa) ->
    reached k (mk_manager (m_core_pointers m) (<[pa := p]> (processes m)) sims (m_thread_queue m) (m_block_queue m) (m_block_schedule_info m)
      (m_block_id_mapper m) (m_num_waiting_dispatched_threads m) (m_num_active_threads m) (global_unique_thread_id m) all (m_total_retired_block m) (m_end_simulation m) (AVG_BLOCK_EXE_CYCLE m))
| reached_core m j c c' : reached k m -> m_core_pointers m !! j = Some c -> core_same c c' -> reached k (with_cores (<[j := c']> (m_core_pointers m)) m).

Lemma fresh_accounts m : fresh_manager m -> accounts m.
Proof.
  intros [(Q1 & Q2 & Q3 & Q4) [B1 B2] C].
  assert (Hl : forall j c, m_core_pointers m !! j = Some c -> live_threads c = ∅).
  { intros j c Hj. destruct (C j c Hj) as (_ & _ & _ & _ & E & _). unfold live_threads. rewrite E. apply map_filter_empty. }
  constructor; rewrite ?Q1, ?Q2, ?Q3, ?Q4, ?B1, ?B2.
  - apply MultiKey.mkm_new_inv.
  - constructor; [done | by intros n Hn%not_elem_of_nil |]. intros b l n Hb. by rewrite lookup_empty in Hb.
  - assert (Hz : forall b, sum_by (warps_of b) (m_core_pointers m) = 0).
    { intros b. apply sum_by_none, Forall_lookup. intros j c Hj. unfold warps_of. by rewrite (Hl j c Hj). }
    constructor; [intros b [x Hx]; by rewrite lookup_empty in Hx | | | | |]; intros b i [<- <-]%lookup_singleton_Some; rewrite ?Hz; simpl; try done.
    intros [x Hx]. by rewrite lookup_empty in Hx.
  - intros j c Hj. destruct (C j c Hj) as (E1 & E2 & E3 & E4 & E5 & E6). constructor; rewrite ?(Hl j c Hj), ?E1, ?E2, ?E5; [done | done | | | done].
    + intros tid t Ht. by rewrite lookup_empty in Ht.
    + intros tid t Ht. by rewrite lookup_empty in Ht.
  - constructor.
    + intros b [i [<- _]%lookup_singleton_Some]. lia.
    + intros b [x Hx]. by rewrite lookup_empty in Hx.
    + intros j c Hj. destruct (C j c Hj) as (_ & _ & -> & _). split; [simpl; lia |]. intros i Hi. apply lookup_singleton_Some in Hi as [Hi _]. lia.
  - symmetry. apply sum_by_none, Forall_lookup. intros j c Hj. apply (C j c Hj).
Qed.

Lemma reached_accounts k m : reached k m -> accounts m.
Proof.
  induction 1 as [m Hf | m m' pa tid main _ Hm Hop E | m m' cycle initial _ Hm E | m m' cycle stale j c tid t _ Hm Hc Ht E | m pa p sims all _ Hm Hq1 Hq2 | m j c c' _ Hm Hc Hs].
  - by apply fresh_accounts.
  - by eapply create_thread_node_accounts.
  - by apply (sim_thread_schedule_keeps k cycle initial m Hm).
  - by apply (terminate_thread_spec k cycle stale j c tid t m Hm Hc Ht).
  - destruct Hm as [H1 [W Q1 Q2] H3 H4 H5 H6]. constructor; simpl; try done.
    assert (Hfn : forall n, n_process n <> pa -> find_node (processes m) (m_block_id_mapper m) n -> find_node (<[pa := p]> (processes m)) (m_block_id_mapper m) n).
    { intros n Hne (q & key & Hn). exists q, key. by rewrite lookup_insert_ne. }
    constructor; [done | |].
    + intros n Hn. destruct (Q1 n Hn). split; [apply Hfn; eauto | done].
    + intros b l n Hb Hn. destruct (Q2 b l n Hb Hn). split; [apply Hfn; eauto | done].
  - pose proof (core_same_live _ _ Hs) as El. destruct Hm as [H1 H2 [B1 B2 B3 B4 B5 B6] H4 H5 H6]. constructor; simpl; try done.
    + constructor; try done. intros b i Hi. rewrite (sum_by_insert _ _ _ _ _ Hc), (B4 b i Hi). unfold warps_of. rewrite El. lia.
    + apply (cores_ok_insert _ _ _ c); [done | done |]. apply (core_ok_same _ _ c); [done | by apply H4].
    + apply (ids_ok_insert _ _ _ _ _ c); [done | done | apply (s_fetching _ _ Hs)].
    + rewrite (sum_by_insert _ _ _ _ _ Hc), (s_running _ _ Hs), H6. lia.
Qed.

Lemma msum_size {A} (f : A -> bool) (mp : gmap Z A) : msum (fun x => if f x then 1 else 0) mp = Z.of_nat (size (filter (fun kv => f kv.2 = true) mp)).
Proof.
  induction mp as [| q x mp Hq IH] using map_ind; [done |]. rewrite msum_fresh, IH by done. destruct (f x) eqn:E.
  - rewrite map_filter_insert_True by done. rewrite map_size_insert_None; [lia |]. apply map_lookup_filter_None. by left.
  - rewrite map_filter_insert_False by (simpl; congruence). rewrite delete_id by done. lia.
Qed.
Lemma msum_one {A} (mp : gmap Z A) : msum (fun _ => 1) mp = Z.of_nat (size mp).
Proof. induction mp as [| q x mp Hq IH] using map_ind; [done |]. rewrite msum_fresh, IH, map_size_insert_None by done. lia. Qed.
Lemma sum_by_same {A} (h g : A -> Z) l : (forall n x, l !! n = Some x -> h x = g x) -> sum_by h l = sum_by g l.
Proof. intros H. apply sum_by_ext, Forall2_same_length_lookup. split; [done |]. intros n x y Hx Hy. rewrite Hx in Hy. injection Hy as <-. by eapply H. Qed.

(** C11: As long as no warp is created for a block that has already retired
    ([opens]; [reopened_block_miscounted] below shows what happens
    otherwise), however threads become ready, are scheduled and end, every
    thread is accounted for: the counter of waiting threads is the number of
    queued ones and the active threads are the waiting and the running ones;
    a core counts exactly its running threads and the blocks given to it,
    and a warp runs on the core its block was given to; the warps of a block
    are those that wait, those that run and those that have ended, and a
    block is kept exactly as long as one of its warps waits or runs, so none
    is lost when the block retires. *)
Theorem threads_accounted k m :
  reached k m ->
  m_num_waiting_dispatched_threads m = Z.of_nat (length (m_thread_queue m)) + msum (fun l => Z.of_nat (length l)) (m_block_queue m) /\
  m_num_active_threads m = m_num_waiting_dispatched_threads m + sum_by (fun c => Z.of_nat (size (live_threads c))) (m_core_pointers m) /\
  (forall j c, m_core_pointers m !! j = Some c ->
     m_running_thread_num c = Z.of_nat (size (live_threads c)) /\
     m_running_block_num c = Z.of_nat (size (filter (fun bi => block_on j bi.2 = true) (m_block_schedule_info m))) /\
     (forall tid t, live_threads c !! tid = Some t -> th_acc t = true -> exists i, m_block_schedule_info m !! th_block_id t = Some i /\ m_dispatched_core_id i = Z.of_nat j)) /\
  (forall b i, m_block_schedule_info m !! b = Some i ->
     m_total_thread_num i = Z.of_nat (length (default [] (m_block_queue m !! b))) + sum_by (warps_of b) (m_core_pointers m) + m_retired_thread_num i) /\
  (forall b, is_Some (m_block_queue m !! b) <-> 0 < Z.of_nat (length (default [] (m_block_queue m !! b))) + sum_by (warps_of b) (m_core_pointers m)).
Proof.
  intros Hr%reached_accounts. destruct Hr as [_ [W _ _] [B1 B2 B3 B4 B5 B6] C _ Act]. split_and!.
  - exact W.
  - rewrite Act. f_equal. apply sum_by_same. intros j c Hj. by rewrite (c_running _ _ _ (C j c Hj)), msum_one.
  - intros j c Hj. destruct (C j c Hj) as [C1 C2 _ C4 _]. split_and!; [by rewrite C1, msum_one | by rewrite C2, msum_size |].
    intros tid t Ht Ha. destruct (C4 tid t Ht Ha) as (i & Hi & Hon). exists i. split; [done |]. unfold block_on in Hon.
    apply andb_true_iff in Hon as [_ Hon]. by apply Z.eqb_eq.
  - intros b i Hi. rewrite (B3 b i Hi), <- (B4 b i Hi). lia.
  - intros b. split.
    + intros Hq. destruct (B1 b Hq) as [i Hi]. specialize (B6 b i Hi Hq). specialize (B3 b i Hi). specialize (B4 b i Hi). lia.
    + destruct (m_block_queue m !! b) as [l |] eqn:Eq; [eauto |]. simpl. intros Hpos.
      destruct (m_block_schedule_info m !! b) as [i |] eqn:Eb; [| rewrite (no_entry_no_warps _ _ _ C Eb) in Hpos; lia].
      destruct (B2 b i Eb Eq) as [_ Hs]. destruct (B5 b i Eb) as [H0 Hd]. specialize (Hd Hs). specialize (B4 b i Eb). lia.
Qed.

(** The scheduler and the end of a thread always come to an end. *)
Theorem process_manager_ends k m cycle initial :
  reached k m ->
  sim_thread_schedule k cycle initial m <> Fault Diverged /\
  forall stale j c tid t, m_core_pointers m !! j = Some c -> live_threads c !! tid = Some t -> terminate_thread k cycle stale (Z.of_nat j) tid t m <> Fault Diverged.
Proof.
  intros Hm%reached_accounts. split; [by apply sim_thread_schedule_keeps |]. intros stale j c tid t Hc Ht. by apply (terminate_thread_spec k cycle stale j c tid t m Hm Hc Ht).
Qed.

(** ** Examples *)

Definition from_done {A} (d : A) (o : outcome A) : A := match o with Done a => a | Fault _ => d end.
Definition knobs_ex : pm_knobs := mk_pm_knobs true 0 0 0 true 0 0.
Definition core_ex (ty : Core_Type) (max : Z) : core_c := mk_core ty max 0 0 (-1) 0 0 ∅ ∅ ∅ ∅ ∅ 0 ∅ 0 true true false.
Definition manager_ex (l : list (Core_Type * Z)) : manager := mk_manager ((fun x => core_ex x.1 x.2) <$> l) ∅ ∅ [] ∅ {[0 := block_new]} MultiKey.mkm_new 0 0 0 0 0 false 0.
Definition setup_ex (p : process_s) (m : manager) : manager :=
  mk_manager (m_core_pointers m) (<[0%nat := p]> (processes m)) (<[0 := 0%nat]> (m_sim_processes m)) (m_thread_queue m) (m_block_queue m) (m_block_schedule_info m)
    (m_block_id_mapper m) (m_num_waiting_dispatched_threads m) (m_num_active_threads m) (global_unique_thread_id m) 100 (m_total_retired_block m) (m_end_simulation m) (AVG_BLOCK_EXE_CYCLE m).
Definition create_ex (tids : list Z) (m : manager) : manager := foldl (fun m tid => from_done m (create_thread_node 0 tid (tid =? 0) m)) m tids.

(** Three CPU threads and two cores of two threads each. *)
Definition cpu_process : process_s := mk_process 0 0 0 [0; 1; 2] 0 ∅ false [0] 1 ∅ 0.
Definition cpu_start : manager := create_ex [0; 1; 2] (setup_ex cpu_process (manager_ex [(core_x86, 2); (core_x86, 2)])).
(** A block of four warps and a GPU core that may run two threads. *)
Definition gpu_process : process_s := mk_process 0 0 8 [0; 1; 2; 3] 0 ∅ true [0] 1 ∅ 0.
Definition gpu_start : manager := create_ex [0; 1; 2; 3] (setup_ex gpu_process (manager_ex [(core_ptx, 2)])).
Definition gpu_started : manager := from_done gpu_start (sim_thread_schedule knobs_ex 0 true gpu_start).
(** Thread [tid] of core [j] ends. *)
Definition end_ex (j : nat) (tid : Z) (m : manager) : manager :=
  match m_core_pointers m !! j with
  | Some c => match live_threads c !! tid with Some t => from_done m (terminate_thread knobs_ex 0 0 (Z.of_nat j) tid t m) | None => m end
  | None => m
  end.
Definition gpu_ended : manager := end_ex 0 0 gpu_started.

Definition opens_b (pa : nat) (tid : Z) (m : manager) : bool :=
  match processes m !! pa with
  | Some p =>
      match block_key tid p with
      | Done key => match MultiKey.find (m_process_id p) key (m_block_id_mapper m) with
                    | Done b => negb (m_acc p) || (b =? -1) || bool_decide (is_Some (m_block_queue m !! b))
                    | Fault _ => true
                    end
      | Fault _ => true
      end
  | None => true
  end.
Lemma opens_b_ok pa tid m : opens_b pa tid m = true -> opens pa tid m.
Proof.
  intros H p key b Hp Ha Hk Hf Hne. unfold opens_b in H. rewrite Hp, Hk, Hf, Ha in H. simpl in H.
  rewrite (proj2 (Z.eqb_neq b (-1)) Hne) in H. by apply bool_decide_eq_true in H.
Qed.
Fixpoint opens_all (tids : list Z) (m : manager) : bool :=
  match tids with
  | [] => true
  | tid :: tids' => opens_b 0 tid m && opens_all tids' (from_done m (create_thread_node 0 tid (tid =? 0) m))
  end.
Lemma reached_create_ex k tids m : reached k m -> opens_all tids m = true -> reached k (create_ex tids m).
Proof.
  revert m. induction tids as [| tid tids IH]; intros m Hm Ho; [done |]. simpl in Ho. apply andb_true_iff in Ho as [Ho1 Ho2].
  simpl. apply IH; [| done]. destruct (create_thread_node 0 tid (tid =? 0) m) as [m' |] eqn:E; [| done].
  eapply reached_create; [exact Hm | by apply opens_b_ok | exact E].
Qed.
Lemma manager_ex_fresh l : Forall (fun x => x.2 <= 2 ^ 31 - 1) l -> fresh_manager (manager_ex l).
Proof.
  intros Hl. constructor; [done | done |]. intros j c Hj. apply list_lookup_fmap_Some in Hj as ([ty max] & -> & Hx).
  apply (Forall_lookup_1 _ _ _ _ Hl) in Hx. done.
Qed.
Lemma setup_ex_reached k p l : Forall (fun x => x.2 <= 2 ^ 31 - 1) l -> reached k (setup_ex p (manager_ex l)).
Proof.
  intros Hl. apply (reached_setup k (manager_ex l)); [by apply reached_start, manager_ex_fresh | by intros n Hn%not_elem_of_nil |].
  intros b q n Hb. cbn [manager_ex m_block_queue] in Hb. by rewrite lookup_empty in Hb.
Qed.
Lemma cpu_start_reached : reached knobs_ex cpu_start.
Proof. apply reached_create_ex; [apply setup_ex_reached; repeat constructor; done | by vm_compute]. Qed.
Lemma gpu_started_reached : reached knobs_ex gpu_started.
Proof.
  unfold gpu_started. destruct (sim_thread_schedule knobs_ex 0 true gpu_start) as [m |] eqn:E; [| by vm_compute in E].
  apply (reached_schedule _ gpu_start m 0 true); [| done]. apply reached_create_ex; [apply setup_ex_reached; repeat constructor; done | by vm_compute].
Qed.
Lemma end_ex_reached j tid m : reached knobs_ex m -> reached knobs_ex (end_ex j tid m).
Proof.
  intros Hm. unfold end_ex. destruct (m_core_pointers m !! j) as [c |] eqn:Ec; [| done]. destruct (live_threads c !! tid) as [t |] eqn:Et; [| done].
  destruct (terminate_thread knobs_ex 0 0 (Z.of_nat j) tid t m) as [m' |] eqn:E; [| done]. by eapply reached_end.
Qed.

(** The threads go to the two cores in turn. *)
Lemma cpu_threads_placed_witness :
  exists l m', sim_thread_schedule knobs_ex 0 true cpu_start = Done m' /\ places knobs_ex cpu_start l m' /\ m_thread_queue cpu_start = l.*2 ++ m_thread_queue m'.
Proof.
  destruct (cpu_threads_placed knobs_ex 0 true cpu_start) as (l & m' & H1 & _ & H2 & H3 & _).
  - apply (reached_accounts knobs_ex), cpu_start_reached.
  - intros [| [| j]] c Hc; [| | vm_compute in Hc; discriminate]; vm_compute in Hc; by injection Hc as <-.
  - eauto.
Defined.
Lemma threads_accounted_witness :
  reached knobs_ex gpu_started /\ m_num_active_threads gpu_started = 4 /\
  m_num_active_threads gpu_started = m_num_waiting_dispatched_threads gpu_started + sum_by (fun c => Z.of_nat (size (live_threads c))) (m_core_pointers gpu_started).
Proof. split_and!; [apply gpu_started_reached | by vm_compute | apply (threads_accounted knobs_ex gpu_started gpu_started_reached)]. Defined.

(** The end of a warp lets a GPU core run more threads than it may: the scheduler
    starts a warp of the current block before it looks at the number of threads,
    and goes on as long as that number is not exactly the limit. *)
Theorem gpu_core_overfull :
  reached knobs_ex gpu_ended /\
  (fun c => (m_running_thread_num c, m_max_threads_per_core c)) <$> m_core_pointers gpu_started = [(2, 2)] /\
  (fun c => (m_running_thread_num c, m_max_threads_per_core c)) <$> m_core_pointers gpu_ended = [(3, 2)].
Proof. split_and!; [apply end_ex_reached, gpu_started_reached | by vm_compute | by vm_compute]. Qed.

(** A block retires when the warps created so far have ended; a warp created for it
    later reopens it. The core that ran the block still names it as the one it
    fetches, so it starts the warp without counting the block: the warp runs on
    core 0 while that core counts no block and the block is on no core. *)
Definition late_process : process_s := mk_process 0 0 2 [0; 1] 0 ∅ true [0] 1 ∅ 0.
Definition late_start : manager := create_ex [0] (setup_ex late_process (manager_ex [(core_ptx, 1)])).
Definition late_retired : manager := end_ex 0 0 (from_done late_start (sim_thread_schedule knobs_ex 0 true late_start)).
Definition late_created : manager := from_done late_retired (create_thread_node 0 1 false late_retired).
Definition late_restarted : manager := from_done late_created (sim_thread_schedule knobs_ex 0 false late_created).
Lemma from_done_ok {A} (d : A) o : (if o is Done _ then true else false) = true -> o = Done (from_done d o).
Proof. by destruct o. Qed.
Theorem reopened_block_miscounted :
  reached knobs_ex late_retired /\ ~ opens 0 1 late_retired /\
  create_thread_node 0 1 false late_retired = Done late_created /\ sim_thread_schedule knobs_ex 0 false late_created = Done late_restarted /\
  (fun c => (th_block_id <$> (map_to_list (live_threads c)).*2, m_running_block_num c)) <$> m_core_pointers late_restarted = [([0], 0)] /\
  m_dispatched_core_id <$> m_block_schedule_info late_restarted !! 0 = Some (-1).
Proof.
  split_and!.
  - unfold late_retired. apply end_ex_reached. destruct (sim_thread_schedule knobs_ex 0 true late_start) as [m |] eqn:E; [| by vm_compute in E].
    apply (reached_schedule _ late_start m 0 true); [| done]. apply reached_create_ex; [apply setup_ex_reached; repeat constructor; done | by vm_compute].
  - intros H. destruct (H (from_done late_process (get_process 0 late_retired)) 0 0) as [l Hl]; try by vm_compute.
  - apply from_done_ok. by vm_compute.
  - apply from_done_ok. by vm_compute.
  - by vm_compute.
  - by vm_compute.
Qed.
