(* ===== verification/GpuSchedule.v ===== *)
(** * The warp schedulers of a GPU core (schedule_smc.cc, schedule_smc.h)

    The micro-operations of all threads of a GPU core wait in one circular list of
    (thread, reorder-buffer entry) pairs. In a cycle every warp scheduler that is
    not busy looks through the list for the threads it is responsible for and
    starts at most one micro-operation. The execution stage and the memory answer
    through the class [GpuExec]. *)

From S2P Require Import Prelude.
From S2P Require Import Utils.
From S2P Require Import Pqueue.
From S2P Require Import Rob.
From S2P Require Import Uops.

Import Rob.
Import Smc.

Definition UOP_GPU_FCOS : Uop_Type := UOP_OTHER 210.
Definition UOP_GPU_FEX2 : Uop_Type := UOP_OTHER 217.
Definition UOP_GPU_FLG2 : Uop_Type := UOP_OTHER 226.
Definition UOP_GPU_FRCP : Uop_Type := UOP_OTHER 256.
Definition UOP_GPU_FRSQRT : Uop_Type := UOP_OTHER 265.
Definition UOP_GPU_FSIN : Uop_Type := UOP_OTHER 281.
Definition UOP_GPU_FSQRT : Uop_Type := UOP_OTHER 284.
Definition MAX_GPU_SCHED_SIZE : Z := 128.
Definition max_ALLOCQ : nat := 4.
Definition q_index (q : ALLOCQ) : Z := match q with gen_ALLOCQ => 0 | mem_ALLOCQ => 1 | fp_ALLOCQ => 2 | simd_ALLOCQ => 3 end.

Inductive SCHED_FAIL_TYPE :=
| SCHED_SUCCESS | SCHED_FAIL_OPERANDS_NOT_READY | SCHED_FAIL_NO_AVAILABLE_PORTS | SCHED_FAIL_NO_MEM_REQ_SLOTS | SCHED_FAIL_MEM_MANAGEMENT.

(** The execution stage of the core and its miss buffers. [exec] may change the
    micro-operation and the reorder buffers. *)
Class GpuExec (X : Type) := {
  port_available : ALLOCQ -> X -> outcome bool;
  get_num_avail_entry : X -> outcome Z;
  exec : Z -> Z -> nat -> uop_store -> smc_rob_c -> X -> outcome (uop_store * smc_rob_c * X * bool);
  clear_ports : X -> X
}.

Record gpu_knobs := mk_gpu_knobs {
  KNOB_NUM_WARP_SCHEDULER : Z;
  KNOB_GPU_SCHEDULE_RATIO : Z;
  m_schlist_size : Z;
  m_sched_size : list Z;
  m_sched_rate : list Z;
  m_dispatch_latency : Uop_Type -> Z
}.

Record gpu_allocq_entry_s := mk_allocq_entry { aq_thread_id : Z; aq_rob_entry : Z }.
Definition no_entry : gpu_allocq_entry_s := mk_allocq_entry (-1) (-1).

(** What starting a micro-operation works on. *)
Record gpu_core (X : Type) := mk_gcore {
  g_uops : uop_store;
  m_gpu_rob : smc_rob_c;
  m_exec : X;
  m_num_in_sched : Z;
  m_num_per_sched : list Z;
  m_ops_to_be_dispatched : gmap Z Z
}.
Arguments mk_gcore {X}.
Arguments g_uops {X}.
Arguments m_gpu_rob {X}.
Arguments m_exec {X}.
Arguments m_num_in_sched {X}.
Arguments m_num_per_sched {X}.
Arguments m_ops_to_be_dispatched {X}.

(** The dispatchers: until when each scheduler and the special-function unit are
    busy. *)
Record dispatchers := mk_disp { m_dispatch_busy_cycle : list Z; m_sfu_dispatch_busy_cycle : Z }.

Record schedule_smc_c (X : Type) := mk_smc_sched {
  s_core : gpu_core X;
  s_disp : dispatchers;
  m_gpu_allocq : list (pqueue_c (T := gpu_allocq_entry_s));
  m_schlist_entry : list Z;
  m_schlist_tid : list Z;
  m_first_schlist : Z;
  m_last_schlist : Z;
  m_processed_threads : gset Z;
  m_schedule_modulo : Z;
  m_next_sched_id : Z;
  m_schedule_running : bool
}.
Arguments mk_smc_sched {X}.
Arguments s_core {X}.
Arguments s_disp {X}.
Arguments m_gpu_allocq {X}.
Arguments m_schlist_entry {X}.
Arguments m_schlist_tid {X}.
Arguments m_first_schlist {X}.
Arguments m_last_schlist {X}.
Arguments m_processed_threads {X}.
Arguments m_schedule_modulo {X}.
Arguments m_next_sched_id {X}.
Arguments m_schedule_running {X}.

Section GPU.
Context {X : Type} `{!GpuExec X} (k : gpu_knobs) (now : Z).
Abbreviation core := (gpu_core X).
Abbreviation sched := (schedule_smc_c X).

Definition with_guops (σ : uop_store) (c : core) : core :=
  mk_gcore σ (m_gpu_rob c) (m_exec c) (m_num_in_sched c) (m_num_per_sched c) (m_ops_to_be_dispatched c).
Definition with_gexec (σ : uop_store) (r : smc_rob_c) (x : X) (c : core) : core :=
  mk_gcore σ r x (m_num_in_sched c) (m_num_per_sched c) (m_ops_to_be_dispatched c).
Definition with_gcounts (n : Z) (l : list Z) (c : core) : core := mk_gcore (g_uops c) (m_gpu_rob c) (m_exec c) n l (m_ops_to_be_dispatched c).
Definition with_gops (m : gmap Z Z) (c : core) : core :=
  mk_gcore (g_uops c) (m_gpu_rob c) (m_exec c) (m_num_in_sched c) (m_num_per_sched c) m.
Definition upd_g (f : uop_s -> uop_s) (u : nat) (c : core) : outcome core := σ ← upd_s f u (g_uops c); mret (with_guops σ c).
Definition with_score (c : core) (d : dispatchers) (s : sched) : sched :=
  mk_smc_sched c d (m_gpu_allocq s) (m_schlist_entry s) (m_schlist_tid s) (m_first_schlist s) (m_last_schlist s) (m_processed_threads s)
    (m_schedule_modulo s) (m_next_sched_id s) (m_schedule_running s).
Definition with_slist (e t : list Z) (first last : Z) (s : sched) : sched :=
  mk_smc_sched (s_core s) (s_disp s) (m_gpu_allocq s) e t first last (m_processed_threads s) (m_schedule_modulo s) (m_next_sched_id s) (m_schedule_running s).
Definition with_processed (p : gset Z) (s : sched) : sched :=
  mk_smc_sched (s_core s) (s_disp s) (m_gpu_allocq s) (m_schlist_entry s) (m_schlist_tid s) (m_first_schlist s) (m_last_schlist s) p
    (m_schedule_modulo s) (m_next_sched_id s) (m_schedule_running s).
Definition with_turn (modulo next : Z) (s : sched) : sched :=
  mk_smc_sched (s_core s) (s_disp s) (m_gpu_allocq s) (m_schlist_entry s) (m_schlist_tid s) (m_first_schlist s) (m_last_schlist s)
    (m_processed_threads s) modulo next (m_schedule_running s).
Definition with_allocq (q : list (pqueue_c (T := gpu_allocq_entry_s))) (s : sched) : sched :=
  mk_smc_sched (s_core s) (s_disp s) q (m_schlist_entry s) (m_schlist_tid s) (m_first_schlist s) (m_last_schlist s) (m_processed_threads s)
    (m_schedule_modulo s) (m_next_sched_id s) (m_schedule_running s).

(** The micro-operation at an entry of a thread's reorder buffer. *)
Definition thread_uop (tid entry : Z) (c : core) : outcome nat :=
  r ← get_thread_rob tid (m_gpu_rob c); p ← aget (m_rob r) entry; get_or NullDeref p.

(** ** Sources *)

Definition src_live (x y : uop_s) (si : src_info_c) : bool :=
  m_valid y && (num_of y =? si_uop_num si) && (thread_of y =? thread_of x).
Definition src_waits (y : uop_s) : bool := (done_of y =? 0) || (now <? done_of y).
Definition note_dep (u : nat) (x : uop_s) (a : nat) (y : uop_s) (c : core) : outcome core :=
  let set := upd_g (fun x => with_deps (with_rdy (m_srcs_rdy (deps x)) (Some a) (deps x)) x) u c in
  match m_last_dep_exec (deps x) with
  | None => set
  | Some b => z ← get_s b (g_uops c); if done_of z <? done_of y then set else mret c
  end.
Fixpoint check_loop (n : nat) (i : Z) (u : nat) (x : uop_s) (c : core) : outcome (core * bool) :=
  match n with
  | O => c1 ← upd_g (fun x => with_deps (with_rdy true (m_last_dep_exec (deps x)) (deps x)) x) u c; mret (c1, true)
  | S n' =>
      si ← aget (m_map_src_info (deps x)) i;
      match si_uop si with
      | None => check_loop n' (i + 1) u x c
      | Some a =>
          y ← get_s a (g_uops c);
          if src_live x y si && src_waits y then c1 ← note_dep u x a y c; mret (c1, false)
          else check_loop n' (i + 1) u x c
      end
  end.
Definition check_srcs_smc (u : nat) (c : core) : outcome (core * bool) :=
  x ← get_s u (g_uops c);
  if m_srcs_rdy (deps x) then mret (c, true) else check_loop (Z.to_nat (m_num_srcs (deps x))) 0 u x c.

(** ** Starting one micro-operation *)

Definition is_cm_tm (t : Mem_Type) : bool := bool_decide (t = MEM_LD_CM) || bool_decide (t = MEM_LD_TM).
(** The checks a bogus micro-operation skips, in the order of the code. *)
Definition may_start (u : nat) (x : uop_s) (c : core) : outcome (core * SCHED_FAIL_TYPE) :=
  if m_bogus x then mret (c, SCHED_SUCCESS) else
  early ← (if m_srcs_rdy (deps x) then mret false else
           match m_last_dep_exec (deps x) with
           | None => mret false
           | Some b => z ← get_s b (g_uops c); mret (now <? done_of z)
           end);
  if early : bool then mret (c, SCHED_FAIL_OPERANDS_NOT_READY) else
  '(c1, rdy) ← check_srcs_smc u c;
  if negb rdy then mret (c1, SCHED_FAIL_OPERANDS_NOT_READY) else
  port ← port_available (m_allocq_num (base x)) (m_exec c1);
  if negb port then mret (c1, SCHED_FAIL_NO_AVAILABLE_PORTS) else
  if negb (bool_decide (m_mem_type (base x) = NOT_MEM)) && (0 <? m_num_child_uops (mem x)) && is_cm_tm (m_mem_type (base x)) then
    n ← get_num_avail_entry (m_exec c1);
    mret (c1, if n =? 0 then SCHED_FAIL_NO_MEM_REQ_SLOTS else SCHED_SUCCESS)
  else mret (c1, SCHED_SUCCESS).
Definition refusal (t : Mem_Type) : SCHED_FAIL_TYPE :=
  if bool_decide (t = MEM_LD_SM) || bool_decide (t = MEM_ST_SM) then SCHED_FAIL_NO_AVAILABLE_PORTS
  else if is_cm_tm t then SCHED_FAIL_NO_MEM_REQ_SLOTS else SCHED_FAIL_MEM_MANAGEMENT.
(** A queue other than the first three ends the simulator. *)
Definition leave_scheduler (u : nat) (x : uop_s) (c : core) : outcome core :=
  let ops := m_ops_to_be_dispatched c in
  let c1 := with_gops (<[thread_of x := u64 (default 0 (ops !! thread_of x) - 1)]> ops) c in
  c2 ← upd_g (fun x => with_sched (m_in_iaq x) false x) u c1;
  _ ← ASSERT (negb (bool_decide (m_allocq_num (base x) = simd_ALLOCQ)));
  n ← aget (m_num_per_sched c2) (q_index (m_allocq_num (base x)));
  l ← aset (m_num_per_sched c2) (q_index (m_allocq_num (base x))) (n - 1);
  mret (with_gcounts (m_num_in_sched c2 - 1) l c2).
Definition uop_schedule_smc (tid entry : Z) (c : core) : outcome (core * (bool * SCHED_FAIL_TYPE)) :=
  u ← thread_uop tid entry c;
  x ← get_s u (g_uops c);
  '(c1, why) ← may_start u x c;
  match why with
  | SCHED_SUCCESS =>
      '(σ, r, e, started) ← exec tid entry u (g_uops c1) (m_gpu_rob c1) (m_exec c1);
      let c2 := with_gexec σ r e c1 in
      if negb started then mret (c2, (false, refusal (m_mem_type (base x)))) else
      c3 ← leave_scheduler u x c2;
      mret (c3, (true, SCHED_SUCCESS))
  | _ => mret (c1, (false, why))
  end.

(** ** A warp scheduler *)

Definition is_sfu_inst (x : uop_s) : bool :=
  bool_decide (m_uop_type (base x) ∈ [UOP_GPU_FCOS; UOP_GPU_FEX2; UOP_GPU_FLG2; UOP_GPU_FRCP; UOP_GPU_FRSQRT; UOP_GPU_FSIN; UOP_GPU_FSQRT]).
(** The dispatcher a started micro-operation keeps busy. *)
Definition occupy (sched_id : Z) (sfu : bool) (x : uop_s) (d : dispatchers) : outcome dispatchers :=
  let until := u64 (now + m_dispatch_latency k (m_uop_type (base x))) in
  if sfu then mret (mk_disp (m_dispatch_busy_cycle d) until)
  else l ← aset (m_dispatch_busy_cycle d) sched_id until; mret (mk_disp l (m_sfu_dispatch_busy_cycle d)).
(** One attempt: the special-function unit, the start, the dispatcher. *)
Definition attempt (sched_id tid entry : Z) (c : core) (d : dispatchers) : outcome (core * dispatchers * bool) :=
  u ← thread_uop tid entry c;
  x ← get_s u (g_uops c);
  let sfu := is_sfu_inst x in
  if sfu && (now <? m_sfu_dispatch_busy_cycle d) then mret (c, d, false) else
  '(c1, (ok, _)) ← uop_schedule_smc tid entry c;
  if negb ok then mret (c1, d, false) else
  u1 ← thread_uop tid entry c1;
  x1 ← get_s u1 (g_uops c1);
  d1 ← occupy sched_id sfu x1 d;
  mret (c1, d1, true).

(** [for (ii = first; ii != last; ii = (ii + 1) % size)] of scheduler [sched_id]. *)
Fixpoint warp_loop (fuel : nat) (sched_id ii : Z) (s : sched) : outcome (sched * bool) :=
  match fuel with
  | O => Fault Diverged
  | S fuel' =>
      if ii =? m_last_schlist s then mret (s, false) else
      if (m_num_in_sched (s_core s) =? 0) || (m_first_schlist s =? m_last_schlist s) then mret (s, false) else
      tid ← aget (m_schlist_tid s) ii;
      entry ← aget (m_schlist_entry s) ii;
      let next := (ii + 1) mod m_schlist_size k in
      let moved := if ii =? m_first_schlist s then (m_first_schlist s + 1) mod m_schlist_size k else m_first_schlist s in
      if negb (tid =? -1) && negb (Z.rem tid (KNOB_NUM_WARP_SCHEDULER k) =? sched_id) then warp_loop fuel' sched_id next s else
      if entry =? -1 then warp_loop fuel' sched_id next (with_slist (m_schlist_entry s) (m_schlist_tid s) moved (m_last_schlist s) s) else
      if bool_decide (tid ∈ m_processed_threads s) then warp_loop fuel' sched_id next s else
      let s1 := with_processed ({[tid]} ∪ m_processed_threads s) s in
      '(c, d, ok) ← attempt sched_id tid entry (s_core s1) (s_disp s1);
      let s2 := with_score c d s1 in
      if negb ok then warp_loop fuel' sched_id next s2 else
      le ← aset (m_schlist_entry s2) ii (-1);
      lt ← aset (m_schlist_tid s2) ii (-1);
      mret (with_slist le lt moved (m_last_schlist s2) s2, true)
  end.
Definition warp_turns : nat := S (Z.to_nat (m_schlist_size k)).
(** All schedulers, from [sched_id] on; [n] of them are left. *)
Fixpoint schedulers (n : nat) (sched_id count : Z) (s : sched) : outcome (sched * Z) :=
  match n with
  | O => mret (s, count)
  | S n' =>
      busy ← aget (m_dispatch_busy_cycle (s_disp s)) sched_id;
      let next := Z.rem (sched_id + 1) (KNOB_NUM_WARP_SCHEDULER k) in
      if now <? busy then schedulers n' next count s else
      '(s1, ok) ← warp_loop warp_turns sched_id (m_first_schlist s) s;
      schedulers n' next (if ok : bool then count + 1 else count) s1
  end.

(** ** From the allocation queues *)

Fixpoint advance_loop (fuel : nat) (q : Z) (count : list Z) (s : sched) : outcome sched :=
  match fuel with
  | O => Fault Diverged
  | S fuel' =>
      aq ← aget (m_gpu_allocq s) q;
      rdy ← ready aq;
      if negb rdy then mret s else
      if (m_last_schlist s + 1) mod m_schlist_size k =? m_first_schlist s then mret s else
      e ← peek no_entry 0 aq;
      let tid := aq_thread_id e in
      let entry := aq_rob_entry e in
      u ← thread_uop tid entry (s_core s);
      x ← get_s u (g_uops (s_core s));
      let q_type := q_index (m_allocq_num (base x)) in
      n ← aget count q_type;
      rate ← aget (m_sched_rate k) q_type;
      per ← aget (m_num_per_sched (s_core s)) q_type;
      size ← aget (m_sched_size k) q_type;
      if (rate <=? n) || (size <=? per) then mret s else
      '(_, _, aq1) ← dequeue aq;
      qs ← aset (m_gpu_allocq s) q aq1;
      let s1 := with_allocq qs s in
      if m_bogus x || negb (done_of x =? 0) then
        c ← upd_g (with_done now) u (s_core s1);
        advance_loop fuel' q count (with_score c (s_disp s1) s1)
      else
        count1 ← aset count q_type (n + 1);
        c ← upd_g (with_sched false true) u (s_core s1);
        le ← aset (m_schlist_entry s1) (m_last_schlist s1) entry;
        lt ← aset (m_schlist_tid s1) (m_last_schlist s1) tid;
        lper ← aset (m_num_per_sched c) q_type (per + 1);
        let last := (m_last_schlist s1 + 1) mod m_schlist_size k in
        _ ← ASSERT (negb (last =? m_first_schlist s1));
        advance_loop fuel' q count1
          (with_slist le lt (m_first_schlist s1) last (with_score (with_gcounts (m_num_in_sched c + 1) lper c) (s_disp s1) s1))
  end.
(** An iteration takes an entry from the queue, so their number bounds the loop. *)
Definition advance (q : Z) (s : sched) : outcome sched :=
  aq ← aget (m_gpu_allocq s) q;
  advance_loop (S (length (contents aq))) q (replicate max_ALLOCQ 0) s.
Definition advance_all (s : sched) : outcome sched := s1 ← advance 0 s; s2 ← advance 1 s1; s3 ← advance 2 s2; advance 3 s3.

Definition with_ports_cleared (s : sched) : sched :=
  let c := s_core s in with_score (with_gexec (g_uops c) (m_gpu_rob c) (clear_ports (m_exec c)) c) (s_disp s) s.
(** The scheduling part of a cycle and the number of micro-operations started. *)
Definition schedule_warps (s : sched) : outcome (sched * Z) :=
  '(s1, count) ← schedulers (Z.to_nat (KNOB_NUM_WARP_SCHEDULER k)) (m_next_sched_id s) 0 s;
  mret (with_processed ∅ (with_turn (m_schedule_modulo s1) (Z.rem (m_next_sched_id s1 + 1) (KNOB_NUM_WARP_SCHEDULER k)) s1), count).
Definition run_a_cycle (s : sched) : outcome (sched * Z) :=
  if negb (m_schedule_running s) then mret (s, 0) else
  if KNOB_GPU_SCHEDULE_RATIO k =? 0 then Fault DivByZero else
  let modulo := Z.rem (m_schedule_modulo s + 1) (KNOB_GPU_SCHEDULE_RATIO k) in
  let s1 := with_turn modulo (m_next_sched_id s) s in
  if negb (modulo =? 0) then mret (s1, 0) else
  '(s2, count) ← schedule_warps (with_ports_cleared s1);
  s3 ← advance_all s2;
  mret (s3, count).
End GPU.
