(* ===== verification/GpuWarps.v ===== *)
(** * The warp schedulers as a choice from a list

    The circular list of the scheduler with its holes stands for the list of the
    waiting micro-operations, oldest first. [pick] is the choice one warp scheduler
    makes from that list; the scheduling part of a cycle is this choice for every
    scheduler in turn, and starts the micro-operations of a thread in order. *)

From S2P Require Import Prelude.
From S2P Require Import Utils.
From S2P Require Import Pqueue.
From S2P Require Import Rob.
From S2P Require Import Uops.
From S2P Require Import GpuSchedule.

(** ** The circular list *)

Definition hole : Z * Z := (-1, -1).
Definition slot (size : Z) (lt le : list Z) (p : Z) : Z * Z :=
  (default (-1) (lt !! Z.to_nat (p mod size)), default (-1) (le !! Z.to_nat (p mod size))).
(** [n] slots from position [f] on. *)
Definition slots (size : Z) (lt le : list Z) (f : Z) (n : nat) : list (Z * Z) := (fun i => slot size lt le (f + Z.of_nat i)) <$> seq 0 n.
Definition is_live (te : Z * Z) : Prop := te.2 <> -1.
#[export] Instance is_live_dec te : Decision (is_live te).
Proof. unfold is_live. apply _. Defined.

Lemma slots_cons size lt le f n : slots size lt le f (S n) = slot size lt le f :: slots size lt le (f + 1) n.
Proof.
  unfold slots. cbn [seq fmap list_fmap]. rewrite Z.add_0_r. f_equal. rewrite <- fmap_S_seq, <- list_fmap_compose.
  apply list_fmap_ext. intros i x _. unfold compose. f_equal. lia.
Qed.
Lemma slots_app size lt le f a b : slots size lt le f (a + b) = slots size lt le f a ++ slots size lt le (f + Z.of_nat a) b.
Proof.
  revert f. induction a as [| a IH]; intros f; [by rewrite Z.add_0_r |].
  change (S a + b)%nat with (S (a + b)). rewrite !slots_cons, IH. simpl. do 3 f_equal. lia.
Qed.
Lemma slots_length size lt le f n : length (slots size lt le f n) = n.
Proof. unfold slots. by rewrite length_fmap, length_seq. Qed.

(** Slots do not see a write to another position of the ring. *)
Lemma slots_other size lt le f n p t e :
  0 < size -> 0 <= p < size -> (forall i, (i < n)%nat -> (f + Z.of_nat i) mod size <> p) ->
  slots size (<[Z.to_nat p := t]> lt) (<[Z.to_nat p := e]> le) f n = slots size lt le f n.
Proof.
  intros Hs Hp Hne. apply list_fmap_ext. intros i x [-> Hi]%lookup_seq. specialize (Hne (0 + i)%nat Hi).
  pose proof (Z.mod_pos_bound (f + Z.of_nat (0 + i)) size Hs). unfold slot. rewrite !list_lookup_insert_ne by lia. done.
Qed.
Lemma ring_apart size f a b : 0 < size -> 0 <= a < size -> 0 <= b < size -> a <> b -> (f + a) mod size <> (f + b) mod size.
Proof.
  intros Hs Ha Hb Hne E. pose proof (Z.div_mod (f + a) size ltac:(lia)). pose proof (Z.div_mod (f + b) size ltac:(lia)).
  destruct (Z.lt_trichotomy ((f + a) / size) ((f + b) / size)) as [| [|]]; nia.
Qed.

Section WARPS.
Context {X : Type} `{!GpuExec X} (k : gpu_knobs) (now : Z).
Abbreviation core := (gpu_core X).
Abbreviation sched := (schedule_smc_c X).
Let size := m_schlist_size k.

Definition window (s : sched) : nat := Z.to_nat ((m_last_schlist s - m_first_schlist s) mod size).
Definition slots_of (s : sched) : Z -> nat -> list (Z * Z) := slots size (m_schlist_tid s) (m_schlist_entry s).
(** The micro-operations that wait, oldest first: thread and entry. *)
Definition waiting (s : sched) : list (Z * Z) := filter is_live (slots_of s (m_first_schlist s) (window s)).
Definition slot_ok (te : Z * Z) : Prop := te = hole \/ 0 <= te.1 /\ 0 <= te.2.
Record warps_wf (s : sched) : Prop := {
  w_size : 0 < size;
  w_len : Z.of_nat (length (m_schlist_tid s)) = size /\ Z.of_nat (length (m_schlist_entry s)) = size;
  w_first : 0 <= m_first_schlist s < size;
  w_last : 0 <= m_last_schlist s < size;
  w_slots : Forall slot_ok (slots_of s (m_first_schlist s) (window s));
  w_count : m_num_in_sched (s_core s) = Z.of_nat (length (waiting s))
}.

Lemma window_lt s : 0 < size -> Z.of_nat (window s) < size.
Proof. intros Hs. unfold window. pose proof (Z.mod_pos_bound (m_last_schlist s - m_first_schlist s) size Hs). lia. Qed.
Lemma window_last s : 0 < size -> 0 <= m_last_schlist s < size -> (m_first_schlist s + Z.of_nat (window s)) mod size = m_last_schlist s.
Proof.
  intros Hs Hl. unfold window. pose proof (Z.mod_pos_bound (m_last_schlist s - m_first_schlist s) size Hs). rewrite Z2Nat.id by lia.
  rewrite Zplus_mod_idemp_r. replace (m_first_schlist s + (m_last_schlist s - m_first_schlist s)) with (m_last_schlist s) by lia. by apply Z.mod_small.
Qed.

(** The first pointer moves over a slot. *)
Lemma window_moved first last n :
  0 < size -> Z.to_nat ((last - first) mod size) = S n -> Z.to_nat ((last - (first + 1) mod size) mod size) = n.
Proof.
  intros Hs Hn. pose proof (Z.mod_pos_bound (last - first) size Hs) as Hb. rewrite Zminus_mod_idemp_r.
  replace (last - (first + 1)) with ((last - first) - 1) by lia. rewrite <- Zminus_mod_idemp_l.
  rewrite (Z.mod_small ((last - first) mod size - 1)) by lia. lia.
Qed.
Lemma slots_mod lt le f n : slots size lt le (f mod size) n = slots size lt le f n.
Proof. apply list_fmap_ext. intros i x _. unfold slot. by rewrite Zplus_mod_idemp_l. Qed.

(** ** The reference *)

(** One scheduler chooses from the list [w]; [seen] are the threads that have had
    their turn. The result: what still waits and what was started. *)
Fixpoint pick (sched_id : Z) (seen : gset Z) (w : list (Z * Z)) (c : core) (d : dispatchers)
    : outcome (list (Z * Z) * gset Z * core * dispatchers * option (Z * Z)) :=
  match w with
  | [] => mret ([], seen, c, d, None)
  | (t, e) :: w' =>
      if negb (Z.rem t (KNOB_NUM_WARP_SCHEDULER k) =? sched_id) || bool_decide (t ∈ seen) then
        '(w1, seen1, c1, d1, o) ← pick sched_id seen w' c d; mret ((t, e) :: w1, seen1, c1, d1, o)
      else
        '(c1, d1, ok) ← attempt k now sched_id t e c d;
        if ok : bool then mret (w', {[t]} ∪ seen, c1, d1, Some (t, e))
        else '(w1, seen1, c2, d2, o) ← pick sched_id ({[t]} ∪ seen) w' c1 d1; mret ((t, e) :: w1, seen1, c2, d2, o)
  end.
(** Every scheduler that is not busy; the starts with their scheduler, in order. *)
Fixpoint pick_all (n : nat) (sched_id : Z) (seen : gset Z) (w : list (Z * Z)) (c : core) (d : dispatchers)
    : outcome (list (Z * Z) * core * dispatchers * list (Z * (Z * Z))) :=
  match n with
  | O => mret (w, c, d, [])
  | S n' =>
      busy ← aget (m_dispatch_busy_cycle d) sched_id;
      let next := Z.rem (sched_id + 1) (KNOB_NUM_WARP_SCHEDULER k) in
      if now <? busy then pick_all n' next seen w c d else
      '(w1, seen1, c1, d1, o) ← pick sched_id seen w c d;
      '(w2, c2, d2, l) ← pick_all n' next seen1 w1 c1 d1;
      mret (w2, c2, d2, match o with Some te => (sched_id, te) :: l | None => l end)
  end.

(** ** An attempt and the counter *)

Lemma upd_g_count f u (c c' : core) : upd_g f u c = Done c' -> m_num_in_sched c' = m_num_in_sched c.
Proof. unfold upd_g. intros H. step H as σ E. by injection H as <-. Qed.
Lemma check_loop_count n i u x (c c' : core) b : check_loop now n i u x c = Done (c', b) -> m_num_in_sched c' = m_num_in_sched c.
Proof.
  revert i. induction n as [| n IH]; intros i H; simpl in H.
  { step H as c1 E. injection H as <- _. by eapply upd_g_count. }
  step H as si Es. destruct (si_uop si) as [a |]; [| by eapply IH]. step H as y Ey. destruct (_ && _); [| by eapply IH].
  step H as c1 E. injection H as <- _. unfold note_dep in E. destruct (m_last_dep_exec (deps x)); [| by eapply upd_g_count].
  step E as z Ez. destruct (_ <? _); [by eapply upd_g_count | by injection E as <-].
Qed.
Lemma may_start_count u x (c c' : core) why : may_start now u x c = Done (c', why) -> m_num_in_sched c' = m_num_in_sched c.
Proof.
  unfold may_start. intros H. destruct (m_bogus x); [by injection H as <- _ |]. step H as early Ee.
  destruct early; [by injection H as <- _ |]. step H as r Er. destruct r as [c1 rdy].
  assert (Hc : m_num_in_sched c1 = m_num_in_sched c).
  { unfold check_srcs_smc in Er. step Er as y Ey. destruct (m_srcs_rdy (deps y)); [by injection Er as <- _ | by eapply check_loop_count]. }
  destruct (negb rdy); [by injection H as <- _ |]. step H as port Ep. destruct (negb port); [by injection H as <- _ |].
  destruct (_ && _ && _); [step H as n En |]; by injection H as <- _.
Qed.
Lemma attempt_count sched_id t e (c c1 : core) d d1 ok :
  attempt k now sched_id t e c d = Done (c1, d1, ok) -> m_num_in_sched c1 = m_num_in_sched c - (if ok then 1 else 0).
Proof.
  unfold attempt. intros H. step H as u Eu. step H as x Ex. destruct (_ && _); [injection H as <- _ <-; lia |].
  step H as r Er. destruct r as [c' [ok' why']].
  assert (Hc : m_num_in_sched c' = m_num_in_sched c - (if ok' then 1 else 0)).
  { unfold uop_schedule_smc in Er. step Er as u1 Eu1. step Er as x1 Ex1. step Er as r1 Er1. destruct r1 as [c2 why].
    apply may_start_count in Er1. destruct why; try (injection Er as <- <- _; lia). step Er as r2 Er2. destruct r2 as [[[σ r] x2] started].
    destruct started; cbn [negb] in Er; [| injection Er as <- <- _; simpl; lia]. step Er as c3 Ec3. injection Er as <- <- _.
    unfold leave_scheduler in Ec3. step Ec3 as c4 Ec4. apply upd_g_count in Ec4. step Ec3 as a1 E1. step Ec3 as a2 E2. step Ec3 as a3 E3.
    injection Ec3 as <-. simpl in *. lia. }
  destruct ok'; cbn [negb] in H; [| injection H as <- _ <-; lia]. step H as u1 Eu1. step H as x1 Ex1. step H as d2 Ed. injection H as <- _ <-. lia.
Qed.

(** ** One scheduler *)

Definition rest_same (s s' : sched) : Prop :=
  m_gpu_allocq s' = m_gpu_allocq s /\ m_schedule_modulo s' = m_schedule_modulo s /\ m_next_sched_id s' = m_next_sched_id s /\
  m_schedule_running s' = m_schedule_running s /\ m_last_schlist s' = m_last_schlist s.

(** The loop ends as the choice does; [before] are the waiting ones it has passed. *)
Definition picked (s : sched) (before : list (Z * Z)) (o : outcome (list (Z * Z) * gset Z * core * dispatchers * option (Z * Z)))
    (res : outcome (sched * bool)) : Prop :=
  match o with
  | Fault f => res = Fault f
  | Done (w1, seen1, c1, d1, st) =>
      exists s', res = Done (s', bool_decide (is_Some st)) /\ warps_wf s' /\ waiting s' = before ++ w1 /\ s_core s' = c1 /\ s_disp s' = d1 /\
        m_processed_threads s' = seen1 /\ rest_same s s'
  end.

Lemma rest_same_trans s1 s2 s3 : rest_same s1 s2 -> rest_same s2 s3 -> rest_same s1 s3.
Proof. unfold rest_same. intuition congruence. Qed.
Lemma picked_pass s s1 before te o res :
  rest_same s s1 -> picked s1 (before ++ [te]) o res -> picked s before ('(w1, seen1, c1, d1, st) ← o; mret (te :: w1, seen1, c1, d1, st)) res.
Proof.
  intros Hs. destruct o as [[[[[w1 seen1] c1] d1] st] | f]; simpl; [| done]. intros (s' & E & H1 & H2 & H3 & H4 & H5 & H6).
  exists s'. split_and!; try done; [by rewrite H2, <- app_assoc | by eapply rest_same_trans].
Qed.
Lemma picked_weaken s s1 before o res : rest_same s s1 -> picked s1 before o res -> picked s before o res.
Proof.
  intros Hs. destruct o as [[[[[w1 seen1] c1] d1] st] | f]; simpl; [| done]. intros (s' & E & H1 & H2 & H3 & H4 & H5 & H6).
  exists s'. split_and!; try done. by eapply rest_same_trans.
Qed.

Lemma slot_at s p : warps_wf s -> 0 <= p < size ->
  exists t e, aget (m_schlist_tid s) p = Done t /\ aget (m_schlist_entry s) p = Done e /\ forall f a, (f + a) mod size = p -> slot size (m_schlist_tid s) (m_schlist_entry s) (f + a) = (t, e).
Proof.
  intros [Hs [L1 L2] _ _ _ _] Hp. destruct (aget_in_range (m_schlist_tid s) p ltac:(lia)) as (t & Ht & Et).
  destruct (aget_in_range (m_schlist_entry s) p ltac:(lia)) as (e & He & Ee). exists t, e. split_and!; [done | done |].
  intros f a E. unfold slot. by rewrite E, Ht, He.
Qed.

(** Changes of the rest of the state keep the list. *)
Lemma wf_core s s' :
  warps_wf s -> m_schlist_tid s' = m_schlist_tid s -> m_schlist_entry s' = m_schlist_entry s -> m_first_schlist s' = m_first_schlist s ->
  m_last_schlist s' = m_last_schlist s -> m_num_in_sched (s_core s') = m_num_in_sched (s_core s) -> warps_wf s' /\ waiting s' = waiting s /\ window s' = window s.
Proof.
  intros Hw E1 E2 E3 E4 E5. assert (Ew : window s' = window s) by (unfold window; by rewrite E3, E4).
  assert (Ea : waiting s' = waiting s) by (unfold waiting, slots_of; by rewrite Ew, E1, E2, E3).
  split; [| done]. destruct Hw as [H1 H2 H3 H4 H5 H6]. constructor; unfold slots_of in *; rewrite ?Ew, ?Ea, ?E1, ?E2, ?E3, ?E4, ?E5; done.
Qed.

(** The first pointer passes a hole. *)
Lemma wf_move s r :
  warps_wf s -> window s = S r -> slot size (m_schlist_tid s) (m_schlist_entry s) (m_first_schlist s) = hole ->
  let s1 := with_slist (m_schlist_entry s) (m_schlist_tid s) ((m_first_schlist s + 1) mod size) (m_last_schlist s) s in
  warps_wf s1 /\ window s1 = r /\ waiting s1 = waiting s /\ slots_of s1 (m_first_schlist s1) r = slots_of s (m_first_schlist s + 1) r.
Proof.
  intros [H1 H2 H3 H4 H5 H6] Hr Hh s1. assert (Ew : window s1 = r) by (unfold window, s1; simpl; by apply window_moved).
  assert (Es : slots_of s1 (m_first_schlist s1) r = slots_of s (m_first_schlist s + 1) r) by (unfold slots_of, s1; simpl; apply slots_mod).
  assert (Ea : waiting s1 = waiting s).
  { unfold waiting. rewrite Ew, Es, Hr. unfold slots_of. rewrite slots_cons, Hh, filter_cons_False; [done |]. unfold is_live. simpl. lia. }
  split_and!; [| done | done | done]. constructor; [done | done | simpl; by apply Z.mod_pos_bound | done | | by rewrite Ea].
  rewrite Ew, Es. rewrite Hr in H5. unfold slots_of in *. rewrite slots_cons in H5. by inversion H5.
Qed.

(** A slot of the window becomes a hole. *)
Lemma wf_clear s a r t e c d :
  warps_wf s -> window s = (a + S r)%nat -> slot size (m_schlist_tid s) (m_schlist_entry s) (m_first_schlist s + Z.of_nat a) = (t, e) -> e <> -1 ->
  m_num_in_sched c = m_num_in_sched (s_core s) - 1 ->
  let p := Z.to_nat ((m_first_schlist s + Z.of_nat a) mod size) in
  let s1 := with_score c d (with_slist (<[p := -1]> (m_schlist_entry s)) (<[p := -1]> (m_schlist_tid s)) (m_first_schlist s) (m_last_schlist s) s) in
  warps_wf s1 /\ window s1 = window s /\ slot size (m_schlist_tid s1) (m_schlist_entry s1) (m_first_schlist s + Z.of_nat a) = hole /\
  waiting s1 = filter is_live (slots_of s (m_first_schlist s) a) ++ filter is_live (slots_of s (m_first_schlist s + Z.of_nat (S a)) r).
Proof.
  intros [H1 [L1 L2] H3 H4 H5 H6] Hw Hte He Hc p s1. pose proof (window_lt s H1) as Hlt. set (f := m_first_schlist s) in *.
  pose proof (Z.mod_pos_bound (f + Z.of_nat a) size H1) as Hp.
  assert (Hhole : slot size (m_schlist_tid s1) (m_schlist_entry s1) (f + Z.of_nat a) = hole).
  { unfold slot, s1. simpl. fold p. rewrite !list_lookup_insert_eq by lia. done. }
  assert (Ha : slots_of s1 f a = slots_of s f a).
  { apply slots_other; [done | done |]. intros i Hi. apply ring_apart; lia. }
  assert (Hr : slots_of s1 (f + Z.of_nat (S a)) r = slots_of s (f + Z.of_nat (S a)) r).
  { apply slots_other; [done | done |]. intros i Hi. rewrite <- Z.add_assoc. apply ring_apart; lia. }
  assert (Hsplit : forall s2, m_first_schlist s2 = f -> slots_of s2 f (window s) = slots_of s2 f a ++ slot size (m_schlist_tid s2) (m_schlist_entry s2) (f + Z.of_nat a) :: slots_of s2 (f + Z.of_nat (S a)) r).
  { intros s2 _. unfold slots_of. rewrite Hw, slots_app, slots_cons. do 3 f_equal. lia. }
  assert (Ew : window s1 = window s) by done.
  assert (Ea : waiting s1 = filter is_live (slots_of s f a) ++ filter is_live (slots_of s (f + Z.of_nat (S a)) r)).
  { unfold waiting. rewrite Ew. change (m_first_schlist s1) with f. rewrite (Hsplit s1 eq_refl), Hhole, Ha, Hr, filter_app, filter_cons_False; [done |].
    unfold is_live. simpl. lia. }
  assert (Ea0 : waiting s = filter is_live (slots_of s f a) ++ (t, e) :: filter is_live (slots_of s (f + Z.of_nat (S a)) r)).
  { unfold waiting. fold f. rewrite (Hsplit s eq_refl), Hte, filter_app, filter_cons_True by done. done. }
  split_and!; [| done | done | done]. constructor; try done.
  - simpl. by rewrite !length_insert.
  - rewrite Ew. change (m_first_schlist s1) with f. rewrite (Hsplit s1 eq_refl), Hhole, Ha, Hr. rewrite (Hsplit s eq_refl) in H5.
    apply Forall_app in H5 as [H5a H5b]. inversion H5b. apply Forall_app. split; [done |]. constructor; [by left | done].
  - rewrite Ea. simpl. rewrite Hc, H6, Ea0, !length_app. simpl. lia.
Qed.

Lemma with_slist_id (s : sched) : with_slist (m_schlist_entry s) (m_schlist_tid s) (m_first_schlist s) (m_last_schlist s) s = s.
Proof. by destruct s. Qed.

Lemma at_first s a r : warps_wf s -> window s = (a + S r)%nat -> ((m_first_schlist s + Z.of_nat a) mod size =? m_first_schlist s) = bool_decide (a = 0%nat).
Proof.
  intros Hw Ha. pose proof (window_lt s (w_size _ Hw)). pose proof (w_first _ Hw) as Hf.
  destruct (decide (a = 0%nat)) as [-> | Hne].
  - rewrite Z.add_0_r, Z.mod_small, Z.eqb_refl by lia. done.
  - rewrite bool_decide_eq_false_2 by done. apply Z.eqb_neq. intros E. apply (ring_apart size (m_first_schlist s) (Z.of_nat a) 0); try lia.
    by rewrite Z.add_0_r, (Z.mod_small (m_first_schlist s)) by lia.
Qed.

(** The slot after [a] others and what is behind it. *)
Lemma slots_at s a r : slots_of s (m_first_schlist s + Z.of_nat a) (S r) =
  slot size (m_schlist_tid s) (m_schlist_entry s) (m_first_schlist s + Z.of_nat a) :: slots_of s (m_first_schlist s + Z.of_nat (S a)) r.
Proof. unfold slots_of. rewrite slots_cons. do 2 f_equal. lia. Qed.
Lemma slots_snoc s a : slots_of s (m_first_schlist s) (S a) =
  slots_of s (m_first_schlist s) a ++ [slot size (m_schlist_tid s) (m_schlist_entry s) (m_first_schlist s + Z.of_nat a)].
Proof. unfold slots_of. replace (S a) with (a + 1)%nat by lia. rewrite slots_app. f_equal. unfold slots. simpl. by rewrite Z.add_0_r. Qed.
Lemma waiting_split s a r : window s = (a + r)%nat ->
  waiting s = filter is_live (slots_of s (m_first_schlist s) a) ++ filter is_live (slots_of s (m_first_schlist s + Z.of_nat a) r).
Proof. intros Hw. unfold waiting, slots_of. by rewrite Hw, slots_app, filter_app. Qed.
Lemma slot_at_ok s a r : warps_wf s -> window s = (a + S r)%nat -> slot_ok (slot size (m_schlist_tid s) (m_schlist_entry s) (m_first_schlist s + Z.of_nat a)).
Proof.
  intros Hwf Hw. pose proof (w_slots _ Hwf) as Hall. rewrite Hw in Hall. unfold slots_of in Hall. rewrite slots_app in Hall.
  apply Forall_app in Hall as [_ Hall]. rewrite slots_cons in Hall. by inversion Hall.
Qed.
(** Inside the window a position is not the last one, and the window is not empty. *)
Lemma not_last s a r : warps_wf s -> window s = (a + S r)%nat ->
  ((m_first_schlist s + Z.of_nat a) mod size =? m_last_schlist s) = false /\ (m_first_schlist s =? m_last_schlist s) = false.
Proof.
  intros Hwf Hw. pose proof (window_lt s (w_size _ Hwf)) as Hlt. pose proof (w_size _ Hwf) as Hsz. rewrite <- (window_last s Hsz (w_last _ Hwf)).
  split; apply Z.eqb_neq; [apply ring_apart; lia |]. rewrite <- (Z.mod_small (m_first_schlist s) size (w_first _ Hwf)) at 1.
  rewrite <- (Z.add_0_r (m_first_schlist s)) at 1. apply ring_apart; lia.
Qed.

(** The loop over the last [r] slots of a window. *)
Definition loop_picks (fuel : nat) (sid : Z) (r : nat) : Prop := forall a s, warps_wf s -> window s = (a + r)%nat ->
  picked s (filter is_live (slots_of s (m_first_schlist s) a))
    (pick sid (m_processed_threads s) (filter is_live (slots_of s (m_first_schlist s + Z.of_nat a) r)) (s_core s) (s_disp s))
    (warp_loop k now fuel sid ((m_first_schlist s + Z.of_nat a) mod size) s).

(** A hole is passed; at the front the first pointer follows. *)
Lemma pass_hole fuel sid a r s :
  loop_picks fuel sid r -> warps_wf s -> window s = (a + S r)%nat ->
  slot size (m_schlist_tid s) (m_schlist_entry s) (m_first_schlist s + Z.of_nat a) = hole ->
  picked s (filter is_live (slots_of s (m_first_schlist s) a))
    (pick sid (m_processed_threads s) (filter is_live (slots_of s (m_first_schlist s + Z.of_nat (S a)) r)) (s_core s) (s_disp s))
    (warp_loop k now fuel sid ((m_first_schlist s + Z.of_nat (S a)) mod size)
      (with_slist (m_schlist_entry s) (m_schlist_tid s) (if bool_decide (a = 0%nat) then (m_first_schlist s + 1) mod size else m_first_schlist s) (m_last_schlist s) s)).
Proof.
  intros IH Hwf Hw Hh. pose proof (w_size _ Hwf) as Hsz. case_bool_decide as E0.
  - subst a. rewrite Z.add_0_r in Hh. destruct (wf_move s r Hwf Hw Hh) as (Hwf1 & Hw1 & Ha1 & Hs1). set (s1 := with_slist _ _ _ _ s) in *.
    specialize (IH 0%nat s1 Hwf1 Hw1). rewrite Z.add_0_r, Hs1 in IH. apply (picked_weaken s s1) in IH; [| done].
    change (m_first_schlist s1) with ((m_first_schlist s + 1) mod size) in IH. rewrite Z.mod_mod in IH by lia. exact IH.
  - rewrite with_slist_id. specialize (IH (S a) s Hwf ltac:(lia)). rewrite slots_snoc, Hh, filter_app in IH.
    rewrite (filter_cons_False _ hole) in IH by (unfold is_live; simpl; lia). by rewrite filter_nil, app_nil_r in IH.
Qed.

(** A micro-operation that is not started is passed. *)
Lemma pass_uop fuel sid a r s s1 t e :
  loop_picks fuel sid r -> warps_wf s -> window s = (a + S r)%nat ->
  slot size (m_schlist_tid s) (m_schlist_entry s) (m_first_schlist s + Z.of_nat a) = (t, e) -> 0 <= e ->
  m_schlist_tid s1 = m_schlist_tid s -> m_schlist_entry s1 = m_schlist_entry s -> m_first_schlist s1 = m_first_schlist s ->
  rest_same s s1 -> m_num_in_sched (s_core s1) = m_num_in_sched (s_core s) ->
  picked s (filter is_live (slots_of s (m_first_schlist s) a))
    ('(w1, seen1, c1, d1, st) ← pick sid (m_processed_threads s1) (filter is_live (slots_of s (m_first_schlist s + Z.of_nat (S a)) r)) (s_core s1) (s_disp s1);
     mret ((t, e) :: w1, seen1, c1, d1, st))
    (warp_loop k now fuel sid ((m_first_schlist s + Z.of_nat (S a)) mod size) s1).
Proof.
  intros IH Hwf Hw Hslot He E1 E2 E3 E4 E5. pose proof E4 as (_ & _ & _ & _ & E6). destruct (wf_core s s1 Hwf E1 E2 E3 E6 E5) as (Hwf1 & _ & Hw1).
  specialize (IH (S a) s1 Hwf1 ltac:(lia)). rewrite slots_snoc, filter_app in IH. unfold slots_of in *. rewrite E1, E2, E3, Hslot in IH.
  rewrite (filter_cons_True _ (t, e)) in IH by (unfold is_live; simpl; lia). rewrite filter_nil in IH. by eapply picked_pass.
Qed.

(** One that is started leaves a hole. *)
Lemma picked_start a r s t e c1 d1 :
  warps_wf s -> window s = (a + S r)%nat -> slot size (m_schlist_tid s) (m_schlist_entry s) (m_first_schlist s + Z.of_nat a) = (t, e) -> 0 <= e ->
  m_num_in_sched c1 = m_num_in_sched (s_core s) - 1 ->
  let p := Z.to_nat ((m_first_schlist s + Z.of_nat a) mod size) in let seen := {[t]} ∪ m_processed_threads s in
  picked s (filter is_live (slots_of s (m_first_schlist s) a)) (Done (filter is_live (slots_of s (m_first_schlist s + Z.of_nat (S a)) r), seen, c1, d1, Some (t, e)))
    (Done (with_slist (<[p := -1]> (m_schlist_entry s)) (<[p := -1]> (m_schlist_tid s)) (if bool_decide (a = 0%nat) then (m_first_schlist s + 1) mod size else m_first_schlist s)
      (m_last_schlist s) (with_score c1 d1 (with_processed seen s)), true)).
Proof.
  intros Hwf Hw Hslot He Hcnt p seen. destruct (wf_clear s a r t e c1 d1 Hwf Hw Hslot ltac:(lia) Hcnt) as (Hwf1 & Hw1 & Hh1 & Ha1). fold p in Hwf1, Hw1, Hh1, Ha1.
  set (s1 := with_score c1 d1 _) in Hwf1, Hw1, Hh1, Ha1. eexists. split; [reflexivity |]. case_bool_decide as E0.
  - subst a. rewrite Z.add_0_r in Hh1. destruct (wf_move s1 r Hwf1 ltac:(by rewrite Hw1) Hh1) as (Hwf2 & Hw2 & Ha2 & _). set (s2 := with_slist _ _ _ _ s1) in *.
    edestruct (wf_core s2) as (Hwf3 & Ha3 & _); [exact Hwf2 | | | | | |]; last first.
    { split_and!; [exact Hwf3 | by rewrite Ha3, Ha2, Ha1 | done | done | done | done]. }
    all: done.
  - edestruct (wf_core s1) as (Hwf3 & Ha3 & _); [exact Hwf1 | | | | | |]; last first.
    { split_and!; [exact Hwf3 | by rewrite Ha3, Ha1 | done | done | done | done]. }
    all: done.
Qed.

Lemma warp_loop_picks fuel sid r : (r < fuel)%nat -> loop_picks fuel sid r.
Proof.
  revert fuel. induction r as [| r IH]; intros fuel Hfuel a s Hwf Hw; (destruct fuel as [| fuel]; [lia |]); cbn [warp_loop].
  { rewrite <- (window_last s (w_size _ Hwf) (w_last _ Hwf)), Hw, Nat.add_0_r, Z.eqb_refl.
    exists s. split_and!; try done. unfold waiting. by rewrite Hw, Nat.add_0_r, app_nil_r. }
  specialize (IH fuel ltac:(lia)). destruct (not_last s a r Hwf Hw) as [-> ->]. rewrite orb_false_r.
  destruct (Z.eqb_spec (m_num_in_sched (s_core s)) 0) as [Hz | Hnz].
  { pose proof (waiting_split s a (S r) Hw) as Hwait. pose proof (w_count _ Hwf) as Hc. rewrite Hz, Hwait, length_app in Hc.
    assert (filter is_live (slots_of s (m_first_schlist s + Z.of_nat a) (S r)) = []) as E by (apply nil_length_inv; lia). rewrite E in *. by exists s. }
  pose proof (slot_at_ok s a r Hwf Hw) as Hok. pose proof (at_first s a r Hwf Hw) as Hfirst. rewrite slots_at. set (ii := (m_first_schlist s + Z.of_nat a) mod size) in *.
  assert (Hp : 0 <= ii < size) by (apply Z.mod_pos_bound, (w_size _ Hwf)).
  destruct (slot_at s ii Hwf Hp) as (t & e & -> & -> & Hslot). rewrite !bind_done. specialize (Hslot _ _ eq_refl). rewrite Hslot in *.
  assert (Hnext : (ii + 1) mod size = (m_first_schlist s + Z.of_nat (S a)) mod size) by (unfold ii; rewrite Zplus_mod_idemp_l; f_equal; lia).
  fold size. rewrite Hnext, Hfirst. destruct Hok as [[= -> ->] | [Ht He]]; simpl in *.
  { rewrite filter_cons_False by (unfold is_live; simpl; lia). by apply pass_hole. }
  rewrite filter_cons_True by (unfold is_live; simpl; lia). rewrite (proj2 (Z.eqb_neq t (-1))), (proj2 (Z.eqb_neq e (-1))) by lia. cbn [negb andb pick].
  destruct (negb (Z.rem t (KNOB_NUM_WARP_SCHEDULER k) =? sid)) eqn:Erem; cbn [orb]; [by apply pass_uop |]. destruct (bool_decide (t ∈ m_processed_threads s)); [by apply pass_uop |].
  destruct (attempt k now sid t e (s_core s) (s_disp s)) as [[[c1 d1] ok] |] eqn:Eatt; [rewrite !bind_done | done].
  pose proof (attempt_count _ _ _ _ _ _ _ _ Eatt) as Hcnt. destruct ok; cbn [negb].
  - destruct (w_len _ Hwf) as [L1 L2]. rewrite !aset_in_range, !bind_done by (simpl; lia). by apply picked_start.
  - pose proof (pass_uop fuel sid a r s (with_score c1 d1 (with_processed ({[t]} ∪ m_processed_threads s) s)) t e) as Hpass.
    cbn [m_processed_threads s_core s_disp with_score with_processed] in Hpass. apply Hpass; try done. lia.
Qed.

Lemma scheduler_picks sid s :
  warps_wf s -> picked s [] (pick sid (m_processed_threads s) (waiting s) (s_core s) (s_disp s)) (warp_loop k now (warp_turns k) sid (m_first_schlist s) s).
Proof.
  intros Hwf. pose proof (window_lt s (w_size _ Hwf)) as Hlt. assert (Hf : (window s < warp_turns k)%nat) by (unfold warp_turns; fold size; lia).
  pose proof (warp_loop_picks (warp_turns k) sid (window s) Hf 0%nat s Hwf eq_refl) as H. by rewrite !Z.add_0_r, Z.mod_small in H by apply (w_first _ Hwf).
Qed.

Lemma schedulers_pick n sid count s :
  warps_wf s ->
  match pick_all n sid (m_processed_threads s) (waiting s) (s_core s) (s_disp s) with
  | Fault f => schedulers k now n sid count s = Fault f
  | Done (w, c, d, l) =>
      exists s', schedulers k now n sid count s = Done (s', count + Z.of_nat (length l)) /\ warps_wf s' /\ waiting s' = w /\ s_core s' = c /\ s_disp s' = d /\ rest_same s s'
  end.
Proof.
  revert sid count s. induction n as [| n IH]; intros sid count s Hwf; cbn [pick_all schedulers].
  { exists s. rewrite Z.add_0_r. done. }
  destruct (aget (m_dispatch_busy_cycle (s_disp s)) sid) as [busy | f]; [rewrite !bind_done | done].
  destruct (now <? busy); [by apply IH |]. pose proof (scheduler_picks sid s Hwf) as Hp.
  destruct (pick sid (m_processed_threads s) (waiting s) (s_core s) (s_disp s)) as [[[[[w1 seen1] c1] d1] st] | f]; unfold picked in Hp; [| by rewrite Hp].
  destruct Hp as (s1 & -> & Hwf1 & Hw1 & <- & <- & <- & Hrest). cbn [app] in Hw1. subst w1. rewrite !bind_done.
  specialize (IH (Z.rem (sid + 1) (KNOB_NUM_WARP_SCHEDULER k)) (if bool_decide (is_Some st) then count + 1 else count) s1 Hwf1).
  destruct (pick_all n _ _ _ _ _) as [[[[w2 c2] d2] l] | f]; [| exact IH]. destruct IH as (s2 & -> & H1 & H2 & H3 & H4 & H5).
  exists s2. split_and!; try done; [| by eapply rest_same_trans].
  destruct st; simpl; do 2 f_equal; lia.
Qed.

(** ** What the choice promises *)

(** The micro-operations of one thread, oldest first. *)
Definition of_thread (t : Z) (w : list (Z * Z)) : list (Z * Z) := filter (fun te => te.1 = t) w.
Abbreviation warp_of := (fun t => Z.rem t (KNOB_NUM_WARP_SCHEDULER k)).

Lemma of_thread_cons t te w : of_thread t (te :: w) = (if decide (te.1 = t) then [te] else []) ++ of_thread t w.
Proof. unfold of_thread. rewrite filter_cons. by case_decide. Qed.

(** The attempts of a cycle in order: scheduler, thread and entry, and whether the
    micro-operation started; each runs on the state the one before it left. *)
Inductive tried : core -> dispatchers -> list (Z * (Z * Z) * bool) -> core -> dispatchers -> Prop :=
  | tried_none c d : tried c d [] c d
  | tried_next c d sid te ok c1 d1 tr c2 d2 :
      attempt k now sid te.1 te.2 c d = Done (c1, d1, ok) -> tried c1 d1 tr c2 d2 -> tried c d ((sid, te, ok) :: tr) c2 d2.
(** The attempts of one scheduler, and those that started something. *)
Definition tries_of (sid : Z) (tr : list (Z * (Z * Z) * bool)) : list (Z * (Z * Z) * bool) := filter (fun x => x.1.1 = sid) tr.
Definition starts (tr : list (Z * (Z * Z) * bool)) : list (Z * (Z * Z)) := (filter (fun x => x.2 = true) tr).*1.
(** The oldest micro-operation of every thread of a scheduler, oldest first. *)
Fixpoint oldest (sid : Z) (seen : gset Z) (w : list (Z * Z)) : list (Z * Z) :=
  match w with
  | [] => []
  | te :: w' => if decide (warp_of te.1 = sid /\ te.1 ∉ seen) then te :: oldest sid ({[te.1]} ∪ seen) w' else oldest sid seen w'
  end.
(** A scheduler goes through them until one starts. *)
Definition greedy (sid : Z) (w : list (Z * Z)) (tr : list (Z * (Z * Z) * bool)) : Prop :=
  exists before after, oldest sid ∅ w = before ++ after /\
    (after = [] /\ tr = (fun te => (sid, te, false)) <$> before \/
     exists te more, after = te :: more /\ tr = ((fun te => (sid, te, false)) <$> before) ++ [(sid, te, true)]).

Lemma tried_app c d tr1 c1 d1 tr2 c2 d2 : tried c d tr1 c1 d1 -> tried c1 d1 tr2 c2 d2 -> tried c d (tr1 ++ tr2) c2 d2.
Proof. induction 1; [done |]. intros H2. simpl. econstructor; eauto. Qed.
Lemma tries_of_app sid a b : tries_of sid (a ++ b) = tries_of sid a ++ tries_of sid b.
Proof. apply filter_app. Qed.
Lemma tries_of_own sid tr : Forall (fun x => x.1.1 = sid) tr -> tries_of sid tr = tr.
Proof. intros H. unfold tries_of. induction H; [done |]. rewrite filter_cons_True by done. by f_equal. Qed.
Lemma tries_of_other sid tr : Forall (fun x => x.1.1 <> sid) tr -> tries_of sid tr = [].
Proof. intros H. unfold tries_of. induction H; [done |]. by rewrite filter_cons_False. Qed.
Lemma starts_app a b : starts (a ++ b) = starts a ++ starts b.
Proof. unfold starts. by rewrite filter_app, fmap_app. Qed.
Lemma oldest_seen sid seen seen' w : (forall t, warp_of t = sid -> t ∈ seen <-> t ∈ seen') -> oldest sid seen w = oldest sid seen' w.
Proof.
  revert seen seen'. induction w as [| te w IH]; intros seen seen' H; cbn [oldest]; [done |].
  destruct (decide (warp_of te.1 = sid /\ te.1 ∉ seen)) as [[H1 H2] | H1].
  - rewrite decide_True by (by rewrite <- (H te.1 H1)). f_equal. apply IH. intros t Ht. specialize (H t Ht). set_solver.
  - rewrite decide_False; [by apply IH |]. intros [H2 H3]. destruct H1. split; [done |]. by rewrite (H te.1 H2).
Qed.
(** What another scheduler starts is not among them. *)
Lemma oldest_without sid seen a te b : warp_of te.1 <> sid -> oldest sid seen (a ++ te :: b) = oldest sid seen (a ++ b).
Proof.
  intros Hte. revert seen. induction a as [| te' a IH]; intros seen; cbn [app oldest].
  - by rewrite decide_False by tauto.
  - by case_decide; rewrite IH.
Qed.

(** The scheduler leaves the list without the start, which was the oldest of a
    thread of its own; with no start every oldest one was refused. *)
Abbreviation refusals := (fun sid => fmap (M := list) (fun te : Z * Z => (sid : Z, te, false))).
Definition turn_of (sid : Z) (seen : gset Z) (w w1 : list (Z * Z)) (tr : list (Z * (Z * Z) * bool)) (st : option (Z * Z)) : Prop :=
  match st with
  | Some te => exists a b before more, w = a ++ te :: b /\ w1 = a ++ b /\ Forall (fun x => x.1 <> te.1) a /\ warp_of te.1 = sid /\
      oldest sid seen w = before ++ te :: more /\ tr = refusals sid before ++ [(sid, te, true)]
  | None => w1 = w /\ tr = refusals sid (oldest sid seen w)
  end.
Lemma turn_skip sid seen te w w1 tr st :
  ~ (warp_of te.1 = sid /\ te.1 ∉ seen) -> (forall te', st = Some te' -> te'.1 ∉ seen) -> turn_of sid seen w w1 tr st -> turn_of sid seen (te :: w) (te :: w1) tr st.
Proof.
  intros Hskip Hst. unfold turn_of. cbn [oldest]. rewrite decide_False by done. destruct st as [te' |]; [| by intros [-> ->]].
  intros (a & b & before & more & -> & -> & H1 & H2 & H3 & H4). exists (te :: a), b, before, more. split_and!; try done.
  constructor; [| done]. intros E. apply Hskip. rewrite E. auto.
Qed.
Lemma pick_spec sid seen w c d w1 seen1 c1 d1 st :
  pick sid seen w c d = Done (w1, seen1, c1, d1, st) ->
  (forall t, t ∈ seen1 -> t ∈ seen \/ warp_of t = sid) /\ (forall te, st = Some te -> te.1 ∉ seen) /\
  exists tr, tried c d tr c1 d1 /\ turn_of sid seen w w1 tr st.
Proof.
  revert seen c d w1 seen1 c1 d1 st. induction w as [| [t e] w IH]; intros seen c d w1 seen1 c1 d1 st; cbn [pick].
  { intros [= <- <- <- <- <-]. split_and!; [by left | done |]. exists []. split; [constructor | done]. }
  destruct (negb (Z.rem t (KNOB_NUM_WARP_SCHEDULER k) =? sid) || bool_decide (t ∈ seen)) eqn:Eskip.
  - intros H. step H as r Er. destruct r as [[[[w2 seen2] c2] d2] st2]. injection H as <- <- <- <- <-.
    destruct (IH _ _ _ _ _ _ _ _ Er) as (H1 & H2 & tr & H3 & H4). split_and!; [done | done |]. exists tr. split; [done |].
    apply turn_skip; [| done | done]. simpl. intros [Ew Es]. rewrite Ew, Z.eqb_refl in Eskip. simpl in Eskip. by apply bool_decide_eq_true in Eskip.
  - apply orb_false_iff in Eskip as [Ew%negb_false_iff%Z.eqb_eq Es%bool_decide_eq_false].
    intros H. step H as r Er. destruct r as [[c2 d2] ok]. destruct ok.
    + injection H as <- <- <- <- <-. split_and!.
      * intros t' [->%elem_of_singleton | Ht']%elem_of_union; [by right | by left].
      * by intros te [= <-].
      * exists [(sid, (t, e), true)]. split; [eapply tried_next; [exact Er | constructor] |].
        exists [], w, [], (oldest sid ({[t]} ∪ seen) w). cbn [oldest fst]. rewrite decide_True by done. done.
    + step H as r Er2. destruct r as [[[[w2 seen2] c3] d3] st2]. injection H as <- <- <- <- <-.
      destruct (IH _ _ _ _ _ _ _ _ Er2) as (H1 & H2 & tr & H3 & H4). split_and!.
      * intros t' Ht'. destruct (H1 t' Ht') as [[->%elem_of_singleton | Ht'']%elem_of_union |]; [by right | by left | by right].
      * intros te Hte. specialize (H2 te Hte). set_solver.
      * exists ((sid, (t, e), false) :: tr). split; [by eapply tried_next |]. unfold turn_of in *. cbn [oldest fst]. rewrite decide_True by done.
        destruct st2 as [te |]; [| by destruct H4 as [-> ->]]. destruct H4 as (a & b & before & more & -> & -> & H4 & H5 & -> & ->).
        exists ((t, e) :: a), b, ((t, e) :: before), more. split_and!; try done. constructor; [| done]. specialize (H2 te eq_refl). set_solver.
Qed.
Lemma pick_fault sid seen w c d f :
  pick sid seen w c d = Fault f ->
  exists before te more c' d', oldest sid seen w = before ++ te :: more /\ tried c d (refusals sid before) c' d' /\ attempt k now sid te.1 te.2 c' d' = Fault f.
Proof.
  revert seen c d. induction w as [| [t e] w IH]; intros seen c d; cbn [pick]; [done |].
  destruct (negb (Z.rem t (KNOB_NUM_WARP_SCHEDULER k) =? sid) || bool_decide (t ∈ seen)) eqn:Eskip.
  - destruct (pick sid seen w c d) as [[[[[w1 seen1] c1] d1] st] | f'] eqn:E; simpl; [done |]. intros [= ->]. rewrite decide_False; [by apply IH |].
    intros [Ew Es]. rewrite Ew, Z.eqb_refl in Eskip. simpl in Eskip. by apply bool_decide_eq_true in Eskip.
  - apply orb_false_iff in Eskip as [Ew%negb_false_iff%Z.eqb_eq Es%bool_decide_eq_false]. cbn [oldest fst]. rewrite decide_True by done.
    destruct (attempt k now sid t e c d) as [[[c1 d1] ok] | f'] eqn:Ea; simpl.
    + destruct ok; [done |]. destruct (pick sid _ w c1 d1) as [[[[[w1 seen1] c2] d2] st] | f'] eqn:E; simpl; [done |]. intros [= ->].
      destruct (IH _ _ _ E) as (before & te & more & c' & d' & -> & H1 & H2). exists ((t, e) :: before), te, more, c', d'. split_and!; [done | by eapply tried_next | done].
    + intros [= ->]. eexists [], (t, e), _, c, d. split_and!; [done | constructor | done].
Qed.

Definition idle (d : dispatchers) (sid : Z) : Prop := exists busy, aget (m_dispatch_busy_cycle d) sid = Done busy /\ busy <= now.
(** The schedulers in the order of a cycle. *)
Fixpoint rounds (n : nat) (sid : Z) : list Z :=
  match n with
  | O => []
  | S n' => sid :: rounds n' (Z.rem (sid + 1) (KNOB_NUM_WARP_SCHEDULER k))
  end.

(** A start keeps only the dispatcher of its own scheduler busy. *)
Definition others_same (sid : Z) (d d1 : dispatchers) : Prop :=
  forall i, i <> sid -> aget (m_dispatch_busy_cycle d1) i = aget (m_dispatch_busy_cycle d) i.
Lemma attempt_disp sid t e (c c1 : core) d d1 ok : attempt k now sid t e c d = Done (c1, d1, ok) -> others_same sid d d1.
Proof.
  unfold attempt. intros H. step H as u Eu. step H as x Ex. destruct (_ && _); [by injection H as _ <- _ |].
  step H as r Er. destruct r as [c' [ok' why]]. destruct (negb ok'); [by injection H as _ <- _ |]. step H as u1 Eu1. step H as x1 Ex1. step H as d2 Ed.
  injection H as _ <- _. unfold occupy in Ed. destruct (is_sfu_inst x); [by injection Ed as <- |]. step Ed as l El. injection Ed as <-.
  apply aset_done in El as [Hr ->]. intros i Hi. unfold aget. simpl. destruct (Z.leb_spec 0 i); [| done]. by rewrite list_lookup_insert_ne by lia.
Qed.
Lemma pick_disp sid seen w c d w1 seen1 c1 d1 st : pick sid seen w c d = Done (w1, seen1, c1, d1, st) -> others_same sid d d1.
Proof.
  revert seen c d w1 seen1 c1 d1 st. induction w as [| [t e] w IH]; intros seen c d w1 seen1 c1 d1 st; cbn [pick]; [by intros [= _ _ _ <- _] |].
  destruct (_ || _); intros H.
  - step H as r Er. destruct r as [[[[w2 seen2] c2] d2] st2]. injection H as _ _ _ <- _. by eapply IH.
  - step H as r Er. destruct r as [[c2 d2] ok]. apply attempt_disp in Er. destruct ok; [by injection H as _ _ _ <- _ |].
    step H as r Er2. destruct r as [[[[w2 seen2] c3] d3] st2]. injection H as _ _ _ <- _. apply IH in Er2.
    intros i Hi. by rewrite (Er2 i Hi), (Er i Hi).
Qed.
Lemma idle_others sid d d1 s : others_same sid d d1 -> s <> sid -> idle d1 s <-> idle d s.
Proof. intros H Hs. unfold idle. by rewrite (H s Hs). Qed.

(** What the attempts [tr] of the schedulers [ids] make of the waiting list [w]. *)
Record fair_starts (ids : list Z) (w : list (Z * Z)) (d : dispatchers) (w2 : list (Z * Z)) (tr : list (Z * (Z * Z) * bool)) : Prop := {
  f_order : forall t, of_thread t w = of_thread t (starts tr).*2 ++ of_thread t w2;
  f_left : w2 `sublist_of` w /\ w ≡ₚ (starts tr).*2 ++ w2;
  f_once : NoDup (starts tr).*1;
  f_free : Forall (fun x => x.1.1 ∈ ids /\ warp_of x.1.2.1 = x.1.1 /\ idle d x.1.1) tr;
  f_work : forall s, s ∈ ids -> idle d s -> greedy s w (tries_of s tr)
}.

Lemma oldest_own sid seen w : Forall (fun te => warp_of te.1 = sid) (oldest sid seen w).
Proof. revert seen. induction w as [| te w IH]; intros seen; cbn [oldest]; [constructor |]. case_decide as H; [constructor; [tauto | done] | done]. Qed.
Lemma starts_refusals sid l : starts (refusals sid l) = [].
Proof. unfold starts. induction l as [| te l IH]; [done |]. cbn [fmap list_fmap]. by rewrite filter_cons_False. Qed.
Lemma turn_starts sid seen w w1 tr st : turn_of sid seen w w1 tr st -> starts tr = match st with Some te => [(sid, te)] | None => [] end.
Proof.
  unfold turn_of. destruct st as [te |]; [| intros [_ ->]; apply starts_refusals].
  intros (a & b & before & more & _ & _ & _ & _ & _ & ->). by rewrite starts_app, starts_refusals.
Qed.
Lemma of_thread_none t a : Forall (fun x => x.1 <> t) a -> of_thread t a = [].
Proof. unfold of_thread. induction 1; [done |]. by rewrite filter_cons_False. Qed.
Lemma turn_order sid seen w w1 tr st : turn_of sid seen w w1 tr st ->
  (forall t, of_thread t w = of_thread t (starts tr).*2 ++ of_thread t w1) /\ w1 `sublist_of` w /\ w ≡ₚ (starts tr).*2 ++ w1.
Proof.
  intros H. rewrite (turn_starts _ _ _ _ _ _ H). destruct st as [te |]; [| by destruct H as [-> _]].
  destruct H as (a & b & _ & _ & -> & -> & Ha & _). cbn [fmap list_fmap snd]. split_and!.
  - intros t. unfold of_thread. rewrite !filter_app, !filter_cons, filter_nil. destruct (decide (te.1 = t)) as [<- |]; [| done].
    pose proof (of_thread_none _ _ Ha) as E. unfold of_thread in E. by rewrite E.
  - apply sublist_app; [done |]. by constructor.
  - simpl. by rewrite <- Permutation_middle.
Qed.
Lemma turn_own sid seen w w1 tr st : turn_of sid seen w w1 tr st -> Forall (fun x => x.1.1 = sid /\ warp_of x.1.2.1 = sid) tr.
Proof.
  intros H. pose proof (oldest_own sid seen w) as Ho. unfold turn_of in H. destruct st as [te |].
  - destruct H as (a & b & before & more & _ & _ & _ & Hte & E & ->). rewrite E in Ho. apply Forall_app in Ho as [Ho _].
    apply Forall_app. split; [| by repeat constructor]. apply Forall_fmap. by eapply Forall_impl; [exact Ho |].
  - destruct H as [_ ->]. apply Forall_fmap. by eapply Forall_impl; [exact Ho |].
Qed.
Lemma turn_greedy sid seen w w1 tr st : (forall t, t ∈ seen -> warp_of t <> sid) -> turn_of sid seen w w1 tr st -> greedy sid w tr.
Proof.
  intros Hseen H. unfold turn_of, greedy in *. rewrite (oldest_seen sid seen ∅) in H by (intros t Ht; specialize (Hseen t); set_solver).
  destruct st as [te |].
  - destruct H as (a & b & before & more & _ & _ & _ & _ & E & ->). exists before, (te :: more). split; [done |]. right. by exists te, more.
  - destruct H as [_ ->]. exists (oldest sid ∅ w), []. rewrite app_nil_r. split; [done |]. by left.
Qed.
(** What another scheduler did leaves the candidates of [s]. *)
Lemma turn_keeps sid seen w w1 tr st s : turn_of sid seen w w1 tr st -> s <> sid -> oldest s ∅ w = oldest s ∅ w1.
Proof.
  intros H Hs. destruct st as [te |]; [| by destruct H as [-> _]]. destruct H as (a & b & _ & _ & -> & -> & _ & Hte & _). apply oldest_without. congruence.
Qed.

Lemma pick_all_spec n sid seen w c d w2 c2 d2 l :
  pick_all n sid seen w c d = Done (w2, c2, d2, l) -> NoDup (rounds n sid) -> (forall t, t ∈ seen -> warp_of t ∉ rounds n sid) ->
  exists tr, tried c d tr c2 d2 /\ l = starts tr /\ fair_starts (rounds n sid) w d w2 tr.
Proof.
  revert sid seen w c d w2 c2 d2 l. induction n as [| n IH]; intros sid seen w c d w2 c2 d2 l; cbn [pick_all rounds].
  { intros [= <- <- <- <-] _ _. exists []. split_and!; [constructor | done |]. constructor; [done | done | constructor | constructor | by intros s Hs%not_elem_of_nil]. }
  intros H [Hni Hnd]%NoDup_cons Hseen. step H as busy Eb. set (ids := rounds n _) in *. destruct (Z.ltb_spec now busy) as [Hbusy | Hidle].
  - destruct (IH _ _ _ _ _ _ _ _ _ H Hnd) as (tr & H1 & H2 & [F1 F2 F3 F4 F5]); [intros t Ht Hin; apply (Hseen t Ht); by right |]. exists tr. split_and!; [done | done |].
    constructor; [done | done | done | |].
    + eapply Forall_impl; [exact F4 |]. intros x (? & ? & ?). split_and!; [by right | done | done].
    + intros s [-> | Hin]%elem_of_cons Hid; [| by apply F5]. destruct Hid as (b & Eb' & Hb). rewrite Eb in Eb'. injection Eb' as <-. lia.
  - step H as r Er. destruct r as [[[[w1 seen1] c1] d1] st]. step H as r Er2. destruct r as [[[w3 c3] d3] l']. injection H as <- <- <- <-.
    destruct (pick_spec _ _ _ _ _ _ _ _ _ _ Er) as (P1 & _ & tr1 & T1 & P2). pose proof (pick_disp _ _ _ _ _ _ _ _ _ _ Er) as Pd.
    destruct (IH _ _ _ _ _ _ _ _ _ Er2 Hnd) as (tr2 & T2 & -> & [F1 F2 F3 F4 F5]).
    { intros t Ht Hin. destruct (P1 t Ht) as [Ht' | <-]; [apply (Hseen t Ht'); by right | done]. }
    assert (Hidle0 : idle d sid) by (by exists busy). pose proof (turn_starts _ _ _ _ _ _ P2) as Est. pose proof (turn_own _ _ _ _ _ _ P2) as Hown.
    destruct (turn_order _ _ _ _ _ _ P2) as (O1 & O2 & O3).
    assert (F4' : Forall (fun x => x.1.1 ∈ ids /\ warp_of x.1.2.1 = x.1.1 /\ idle d x.1.1) tr2).
    { eapply Forall_impl; [exact F4 |]. intros x (X1 & X2 & X3). split_and!; [done | done |]. apply (idle_others sid d d1); [done | by intros E; rewrite E in X1 | done]. }
    exists (tr1 ++ tr2). split_and!; [by eapply tried_app | rewrite starts_app, Est; by destruct st |]. constructor.
    + intros t. rewrite (O1 t), (F1 t), starts_app, fmap_app. unfold of_thread. by rewrite filter_app, app_assoc.
    + destruct F2 as [F2 F2']. split; [by trans w1 |]. rewrite starts_app, fmap_app, <- app_assoc, <- F2'. done.
    + rewrite starts_app, fmap_app, Est. destruct st as [te |]; [| done]. cbn [fmap list_fmap fst app]. apply NoDup_cons. split; [| done].
      intros Hin. apply list_elem_of_fmap in Hin as ([s te'] & E & Hin). simpl in E. subst s. unfold starts in Hin. apply list_elem_of_fmap in Hin as (x & E & Hx).
      apply list_elem_of_filter in Hx as [_ Hx]. rewrite Forall_forall in F4'. destruct (F4' x Hx) as [X1 _]. by rewrite <- E in X1.
    + apply Forall_app. split; [| eapply Forall_impl; [exact F4' |]; intros x (? & ? & ?); split_and!; [by right | done | done]].
      eapply Forall_impl; [exact Hown |]. intros x [-> X2]. split_and!; [by left | done | done].
    + intros s Hin Hid. rewrite tries_of_app. destruct (decide (s = sid)) as [-> | Hne].
      * rewrite (tries_of_own sid tr1) by (eapply Forall_impl; [exact Hown |]; tauto).
        rewrite (tries_of_other sid tr2) by (eapply Forall_impl; [exact F4' |]; intros x (X1 & _ & _) E; by rewrite E in X1).
        rewrite app_nil_r. eapply turn_greedy; [| exact P2]. intros t Ht E. apply (Hseen t Ht). rewrite E. left.
      * rewrite (tries_of_other s tr1) by (eapply Forall_impl; [exact Hown |]; intros x [-> _]; done). cbn [app].
        apply elem_of_cons in Hin as [| Hin]; [done |]. destruct (F5 s Hin) as (before & after & E & Hg); [by apply (idle_others sid d d1) |].
        exists before, after. split; [| done]. by rewrite (turn_keeps _ _ _ _ _ _ s P2 Hne).
Qed.

(** A fault of the schedulers: the attempt that fails after those of [tr]. *)
Definition attempt_fails (c : core) (d : dispatchers) (w : list (Z * Z)) (f : fault) : Prop :=
  exists tr c' d' sid te, tried c d tr c' d' /\ te ∈ oldest sid ∅ w /\ attempt k now sid te.1 te.2 c' d' = Fault f.
Lemma pick_all_fault n sid seen w c d f :
  pick_all n sid seen w c d = Fault f -> (forall i, i ∈ rounds n sid -> exists b, aget (m_dispatch_busy_cycle d) i = Done b) -> NoDup (rounds n sid) ->
  (forall t, t ∈ seen -> warp_of t ∉ rounds n sid) ->
  exists tr c' d' s te, s ∈ rounds n sid /\ tried c d tr c' d' /\ te ∈ oldest s ∅ w /\ attempt k now s te.1 te.2 c' d' = Fault f.
Proof.
  revert sid seen w c d. induction n as [| n IH]; intros sid seen w c d; cbn [pick_all rounds]; [done |]. intros H Hb [Hni Hnd]%NoDup_cons Hseen.
  assert (Hlater : forall t, t ∈ seen -> warp_of t ∉ rounds n (Z.rem (sid + 1) (KNOB_NUM_WARP_SCHEDULER k))) by (intros t Ht Hin; apply (Hseen t Ht); by right).
  destruct (Hb sid) as [busy Eb]; [left |]. rewrite Eb, bind_done in H. destruct (now <? busy).
  { destruct (IH _ _ _ _ _ H) as (tr & c' & d' & s & te & H1 & H2); [intros i Hi; apply Hb; by right | done | done |]. exists tr, c', d', s, te. split; [by right | done]. }
  destruct (pick sid seen w c d) as [[[[[w1 seen1] c1] d1] st] | f'] eqn:Ep; cbn [mbind outcome_bind] in H.
  - destruct (pick_all n _ seen1 w1 c1 d1) as [[[[w3 c3] d3] l'] | f'] eqn:Ea; simpl in H; [done |]. injection H as ->.
    destruct (pick_spec _ _ _ _ _ _ _ _ _ _ Ep) as (P1 & _ & tr1 & T1 & P2).
    destruct (IH _ _ _ _ _ Ea) as (tr & c' & d' & s & te & H1 & H2 & H3 & H4); [| done | |].
    { intros i Hi. rewrite (pick_disp _ _ _ _ _ _ _ _ _ _ Ep i) by (by intros ->). apply Hb. by right. }
    { intros t Ht Hin. destruct (P1 t Ht) as [Ht' | <-]; [by apply (Hlater t Ht') | done]. }
    exists (tr1 ++ tr), c', d', s, te. split_and!; [by right | by eapply tried_app | | done]. by rewrite (turn_keeps _ _ _ _ _ _ s P2) by (by intros ->).
  - injection H as ->. destruct (pick_fault _ _ _ _ _ _ Ep) as (before & te & more & c' & d' & E & H1 & H2).
    eexists _, c', d', sid, te. split_and!; [by left | exact H1 | | done].
    rewrite (oldest_seen sid ∅ seen), E; [apply elem_of_app; right; left |]. intros t Ht. split; [set_solver |]. intros Hs. exfalso. apply (Hseen t Hs). rewrite Ht. left.
Qed.

(** ** The schedulers of a cycle *)

Abbreviation num := (KNOB_NUM_WARP_SCHEDULER k).
Lemma rounds_mod n sid : 0 < num -> 0 <= sid < num -> rounds n sid = (fun i => (sid + Z.of_nat i) mod num) <$> seq 0 n.
Proof.
  intros Hn. revert sid. induction n as [| n IH]; intros sid Hs; [done |]. cbn [rounds seq fmap list_fmap].
  rewrite Z.add_0_r, Z.mod_small by lia. f_equal. rewrite Z.rem_mod_nonneg by lia. rewrite IH by (by apply Z.mod_pos_bound).
  rewrite <- fmap_S_seq, <- list_fmap_compose. apply list_fmap_ext. intros i x _. unfold compose. rewrite Zplus_mod_idemp_l. f_equal. lia.
Qed.
Lemma rounds_nodup sid : 0 < num -> 0 <= sid < num -> NoDup (rounds (Z.to_nat num) sid).
Proof.
  intros Hn Hs. rewrite rounds_mod by done. apply NoDup_alt. intros i j x Hi Hj.
  apply list_lookup_fmap_Some in Hi as (a & -> & [-> Ha]%lookup_seq). apply list_lookup_fmap_Some in Hj as (b & E & [-> Hb]%lookup_seq).
  destruct (decide (i = j)) as [| Hne]; [done |]. exfalso. apply (ring_apart num sid (Z.of_nat (0 + i)) (Z.of_nat (0 + j))); lia.
Qed.
Lemma rounds_all sid s : 0 < num -> 0 <= sid < num -> s ∈ rounds (Z.to_nat num) sid <-> s ∈ seqZ 0 num.
Proof.
  intros Hn Hs. rewrite rounds_mod, list_elem_of_fmap, elem_of_seqZ by done. split.
  - intros (i & -> & _). pose proof (Z.mod_pos_bound (sid + Z.of_nat i) num Hn). lia.
  - intros Hr. exists (Z.to_nat ((s - sid) mod num)). pose proof (Z.mod_pos_bound (s - sid) num Hn). split; [| apply elem_of_seq; lia].
    rewrite Z2Nat.id, Zplus_mod_idemp_r by lia. replace (sid + (s - sid)) with s by lia. by rewrite Z.mod_small by lia.
Qed.
Lemma fair_starts_ids ids ids' w d w2 l : (forall s, s ∈ ids <-> s ∈ ids') -> fair_starts ids w d w2 l -> fair_starts ids' w d w2 l.
Proof.
  intros Hi [F1 F2 F3 F4 F5]. constructor; [done | done | done | |].
  - eapply Forall_impl; [exact F4 |]. intros x (H1 & H2 & H3). split_and!; [by apply Hi | done | done].
  - intros s Hs. apply F5. by apply Hi.
Qed.

(** What a cycle starts with and leaves for the next one. *)
Record cycle_ready (s : sched) : Prop := {
  r_wf : warps_wf s;
  r_seen : m_processed_threads s = ∅;
  r_num : 0 < num;
  r_ratio : 0 < KNOB_GPU_SCHEDULE_RATIO k;
  r_next : 0 <= m_next_sched_id s < num;
  r_disp : Z.of_nat (length (m_dispatch_busy_cycle (s_disp s))) = num
}.

Lemma attempt_disp_length sid t e (c c1 : core) d d1 ok :
  attempt k now sid t e c d = Done (c1, d1, ok) -> length (m_dispatch_busy_cycle d1) = length (m_dispatch_busy_cycle d).
Proof.
  unfold attempt. intros H. step H as u Eu. step H as x Ex. destruct (_ && _); [by injection H as _ <- _ |].
  step H as r Er. destruct r as [c' [ok' why]]. destruct (negb ok'); [by injection H as _ <- _ |]. step H as u1 Eu1. step H as x1 Ex1. step H as d2 Ed.
  injection H as _ <- _. unfold occupy in Ed. destruct (is_sfu_inst x); [by injection Ed as <- |]. step Ed as l El. injection Ed as <-.
  apply aset_done in El as [Hr ->]. simpl. apply length_insert.
Qed.
Lemma pick_disp_length sid seen w c d w1 seen1 c1 d1 st :
  pick sid seen w c d = Done (w1, seen1, c1, d1, st) -> length (m_dispatch_busy_cycle d1) = length (m_dispatch_busy_cycle d).
Proof.
  revert seen c d w1 seen1 c1 d1 st. induction w as [| [t e] w IH]; intros seen c d w1 seen1 c1 d1 st; cbn [pick]; [by intros [= _ _ _ <- _] |].
  destruct (_ || _); intros H.
  - step H as r Er. destruct r as [[[[w2 seen2] c2] d2] st2]. injection H as _ _ _ <- _. by eapply IH.
  - step H as r Er. destruct r as [[c2 d2] ok]. apply attempt_disp_length in Er. destruct ok; [by injection H as _ _ _ <- _ |].
    step H as r Er2. destruct r as [[[[w2 seen2] c3] d3] st2]. injection H as _ _ _ <- _. apply IH in Er2. congruence.
Qed.
Lemma pick_all_disp_length n sid seen w c d w2 c2 d2 l :
  pick_all n sid seen w c d = Done (w2, c2, d2, l) -> length (m_dispatch_busy_cycle d2) = length (m_dispatch_busy_cycle d).
Proof.
  revert sid seen w c d w2 c2 d2 l. induction n as [| n IH]; intros sid seen w c d w2 c2 d2 l; cbn [pick_all]; [by intros [= _ _ <- _] |].
  intros H. step H as busy Eb. destruct (now <? busy); [by eapply IH |]. step H as r Er. destruct r as [[[[w1 seen1] c1] d1] st].
  step H as r Er2. destruct r as [[[w3 c3] d3] l']. injection H as _ _ <- _. apply pick_disp_length in Er. apply IH in Er2. congruence.
Qed.

(** No fault comes from the scheduler's own list: the loops end and only an
    attempt to start a micro-operation can fail. *)
Theorem schedule_warps_fair s :
  cycle_ready s ->
  match schedule_warps k now s with
  | Done (s', count) =>
      exists tr, tried (s_core s) (s_disp s) tr (s_core s') (s_disp s') /\ count = Z.of_nat (length (starts tr)) /\ cycle_ready s' /\
        m_next_sched_id s' = (m_next_sched_id s + 1) mod num /\ m_gpu_allocq s' = m_gpu_allocq s /\
        fair_starts (seqZ 0 num) (waiting s) (s_disp s) (waiting s') tr
  | Fault f => attempt_fails (s_core s) (s_disp s) (waiting s) f
  end.
Proof.
  intros [Hwf Hseen Hn Hr Hnext Hd]. unfold schedule_warps. pose proof (rounds_nodup _ Hn Hnext) as Hnd.
  pose proof (schedulers_pick (Z.to_nat num) (m_next_sched_id s) 0 s Hwf) as Hs. rewrite Hseen in Hs.
  destruct (pick_all _ _ ∅ _ _ _) as [[[[w c] d] l] | f] eqn:Ep.
  - destruct Hs as (s1 & -> & Hwf1 & <- & <- & <- & Hrest). rewrite bind_done. pose proof Hrest as (Ealloc & _ & Enext & _). rewrite Enext, Z.rem_mod_nonneg by lia.
    destruct (pick_all_spec _ _ _ _ _ _ _ _ _ _ Ep Hnd) as (tr & Htr & -> & Hfair); [set_solver |]. exists tr.
    destruct (wf_core s1 (with_processed ∅ (with_turn (m_schedule_modulo s1) ((m_next_sched_id s + 1) mod num) s1)) Hwf1) as (Hwf2 & Ha2 & _); try done.
    split_and!; [done | done | | done | done |].
    + constructor; [done | done | done | done | simpl; by apply Z.mod_pos_bound |]. simpl. apply pick_all_disp_length in Ep. lia.
    + rewrite Ha2. apply (fair_starts_ids (rounds (Z.to_nat num) (m_next_sched_id s))); [intros s2; by apply rounds_all | done].
  - rewrite Hs. destruct (pick_all_fault _ _ _ _ _ _ _ Ep) as (tr & c' & d' & s' & te & _ & H); [| done | set_solver | by exists tr, c', d', s', te]. intros i Hi. rewrite rounds_all, elem_of_seqZ in Hi by done.
    destruct (aget_in_range (m_dispatch_busy_cycle (s_disp s)) i) as (b & _ & Hb); [lia | eauto].
Qed.

(** ** From the allocation queues *)

Lemma wf_push s t e c :
  warps_wf s -> (m_last_schlist s + 1) mod size <> m_first_schlist s -> 0 <= t -> 0 <= e -> m_num_in_sched c = m_num_in_sched (s_core s) + 1 ->
  let s1 := with_slist (<[Z.to_nat (m_last_schlist s) := e]> (m_schlist_entry s)) (<[Z.to_nat (m_last_schlist s) := t]> (m_schlist_tid s))
              (m_first_schlist s) ((m_last_schlist s + 1) mod size) (with_score c (s_disp s) s) in
  warps_wf s1 /\ waiting s1 = waiting s ++ [(t, e)].
Proof.
  intros [H1 [L1 L2] H3 H4 H5 H6] Hfull Ht He Hc s1. pose proof (window_lt s H1) as Hlt. pose proof (window_last s H1 H4) as Hlast. set (f := m_first_schlist s) in *.
  assert (Hroom : Z.of_nat (window s) + 1 < size).
  { destruct (decide (Z.of_nat (window s) + 1 = size)) as [E |]; [| lia]. destruct Hfull. rewrite <- Hlast, Zplus_mod_idemp_l.
    replace (f + Z.of_nat (window s) + 1) with (f + 1 * size) by lia. rewrite Z.mod_add, Z.mod_small by lia. done. }
  assert (Ew : window s1 = S (window s)).
  { unfold window at 1, s1. simpl. fold f. rewrite Zminus_mod_idemp_l. rewrite <- Hlast.
    rewrite <- Zminus_mod_idemp_l, Zplus_mod_idemp_l, Zminus_mod_idemp_l. replace (f + Z.of_nat (window s) + 1 - f) with (Z.of_nat (window s) + 1) by lia.
    rewrite Z.mod_small by lia. lia. }
  assert (Es : slots_of s1 f (S (window s)) = slots_of s f (window s) ++ [(t, e)]).
  { unfold slots_of. replace (S (window s)) with (window s + 1)%nat by lia. rewrite slots_app. f_equal.
    - apply slots_other; [done | done |]. intros i Hi. rewrite <- Hlast. apply ring_apart; lia.
    - unfold slots. simpl. unfold slot. rewrite Z.add_0_r, Hlast, !list_lookup_insert_eq by lia. done. }
  assert (Ea : waiting s1 = waiting s ++ [(t, e)]).
  { unfold waiting. rewrite Ew. change (m_first_schlist s1) with f. rewrite Es, filter_app, filter_cons_True; [done |]. unfold is_live. simpl. lia. }
  split; [| done]. constructor; [done | simpl; by rewrite !length_insert | done | simpl; by apply Z.mod_pos_bound | |].
  - rewrite Ew. change (m_first_schlist s1) with f. rewrite Es. apply Forall_app. split; [done |]. constructor; [by right | constructor].
  - rewrite Ea, length_app. simpl. rewrite Hc, H6. lia.
Qed.

Lemma thread_uop_valid t e (c : core) u : thread_uop t e c = Done u -> 0 <= t /\ 0 <= e.
Proof.
  unfold thread_uop, Smc.get_thread_rob. intros H. step H as r Er. step H as p Ep. apply aget_done in Ep as [He _]. split; [| done].
  step Er as b Eb. apply ASSERT_done in Eb. by apply Z.leb_le.
Qed.

Lemma dequeue_length {T} (q q1 : pqueue_c (T := T)) x p : dequeue q = Done (x, p, q1) -> length (contents q) = S (length (contents q1)).
Proof.
  unfold dequeue. intros H. step H as b Eb. destruct b as [| e rest]; [done |]. step H as es Ees. injection H as _ _ <-.
  apply aget_done in Eb as [Hge Hb]. apply aset_done in Ees as [_ ->]. unfold contents. cbn [m_entry m_current_index]. rewrite !rotation_perm.
  rewrite <- (take_drop_middle _ _ _ Hb) at 1. rewrite (insert_take_drop _ _ _ (lookup_lt_Some _ _ _ Hb)). rewrite !concat_app. cbn [concat]. rewrite !length_app. simpl. lia.
Qed.

Lemma upd_g_ends f u (c : core) : upd_g f u c <> Fault Diverged.
Proof. unfold upd_g, upd_s, get_s. destruct (g_uops c !! u); done. Qed.

(** Queues only add to the end of the list. *)
Definition filled (s : sched) (o : outcome sched) : Prop :=
  o <> Fault Diverged /\ forall s', o = Done s' -> cycle_ready s' /\ m_next_sched_id s' = m_next_sched_id s /\ exists added, waiting s' = waiting s ++ added.
Lemma fills_none s : cycle_ready s -> filled s (mret s).
Proof. intros Hs. split; [done |]. intros s' [= <-]. split_and!; [done | done |]. exists []. by rewrite app_nil_r. Qed.
Lemma fills_after s s1 added o : m_next_sched_id s1 = m_next_sched_id s -> waiting s1 = waiting s ++ added -> filled s1 o -> filled s o.
Proof.
  intros En E [H1 H2]. split; [done |]. intros s' Es. destruct (H2 s' Es) as (H3 & H5 & more & H4). split_and!; [done | by rewrite H5 |]. exists (added ++ more). by rewrite H4, E, app_assoc.
Qed.
Lemma fills_then s o f : filled s o -> (forall s1, cycle_ready s1 -> filled s1 (f s1)) -> filled s (o ≫= f).
Proof.
  intros [H1 H2] Hf. destruct o as [s1 |]; [| split; [by intros [= ->] | done]]. destruct (H2 s1 eq_refl) as (H3 & H5 & added & H4).
  eapply fills_after; [exact H5 | exact H4 | by apply Hf].
Qed.
Lemma fills_step {A} s (o : outcome A) f : o <> Fault Diverged -> (forall a, o = Done a -> filled s (f a)) -> filled s (o ≫= f).
Proof. intros H1 H2. destruct o; [by apply H2 |]. split; [by intros [= ->] | done]. Qed.

Lemma aset_aget {A} (l l1 : list A) i x : aset l i x = Done l1 -> aget l1 i = Done x.
Proof. intros [Hr ->]%aset_done. apply aget_at; [lia |]. apply list_lookup_insert_eq. lia. Qed.
Lemma ready_keep s s' :
  cycle_ready s -> m_processed_threads s' = m_processed_threads s -> m_next_sched_id s' = m_next_sched_id s -> s_disp s' = s_disp s -> warps_wf s' -> cycle_ready s'.
Proof. intros [H1 H2 H3 H4 H5 H6] E1 E2 E3 H. constructor; rewrite ?E1, ?E2, ?E3; done. Qed.
Lemma queue_ends (aq : pqueue_c (T := gpu_allocq_entry_s)) : ready aq <> Fault Diverged /\ peek no_entry 0 aq <> Fault Diverged /\ dequeue aq <> Fault Diverged.
Proof. unfold ready, peek, dequeue. split_and!; ends. Qed.
Lemma thread_uop_ends t e (c : core) : thread_uop t e c <> Fault Diverged.
Proof. unfold thread_uop, Smc.get_thread_rob. ends. Qed.

Lemma advance_loop_fills fuel q count s aq :
  cycle_ready s -> aget (m_gpu_allocq s) q = Done aq -> (length (contents aq) < fuel)%nat -> filled s (advance_loop k now fuel q count s).
Proof.
  revert count s aq. induction fuel as [| fuel IH]; intros count s aq Hs Eq Hf; [lia |]. cbn [advance_loop]. rewrite Eq, bind_done.
  destruct (queue_ends aq) as (E1 & E2 & E3). apply fills_step; [done |]. intros rdy _. destruct (negb rdy); [by apply fills_none |].
  destruct (Z.eqb_spec ((m_last_schlist s + 1) mod m_schlist_size k) (m_first_schlist s)) as [| Hfull]; [by apply fills_none |].
  apply fills_step; [done |]. intros e _. apply fills_step; [apply thread_uop_ends |]. intros u Eu. destruct (thread_uop_valid _ _ _ _ Eu) as [Ht He].
  apply fills_step; [unfold get_s; ends |]. intros x _. apply fills_step; [ends |]. intros n _. apply fills_step; [ends |]. intros rate _.
  apply fills_step; [ends |]. intros per _. apply fills_step; [ends |]. intros sz _. destruct (_ || _); [by apply fills_none |].
  apply fills_step; [done |]. intros [[dt pr] aq1] Edeq. apply fills_step; [ends |]. intros qs Eqs. apply aset_aget in Eqs. apply dequeue_length in Edeq.
  destruct (m_bogus x || negb (done_of x =? 0)).
  - apply fills_step; [apply upd_g_ends |]. intros c Ec. apply upd_g_count in Ec.
    destruct (wf_core s (with_score c (s_disp s) (with_allocq qs s)) (r_wf _ Hs)) as (Hwf & Ha & _); try done.
    apply (fills_after s (with_score c (s_disp s) (with_allocq qs s)) []); [done | by rewrite Ha, app_nil_r |].
    apply (IH _ _ aq1); [by apply (ready_keep s) | done | lia].
  - apply fills_step; [ends |]. intros count1 _. apply fills_step; [apply upd_g_ends |]. intros c Ec. apply upd_g_count in Ec. cbn [s_core with_allocq] in Ec.
    apply fills_step; [ends |]. intros le Ele. apply fills_step; [ends |]. intros lt Elt. apply fills_step; [ends |]. intros lper _.
    apply fills_step; [ends |]. intros [] _. apply aset_done in Ele as [_ ->]. apply aset_done in Elt as [_ ->]. cbn [m_schlist_entry m_schlist_tid m_first_schlist m_last_schlist s_disp with_allocq].
    destruct (wf_core s (with_allocq qs s) (r_wf _ Hs)) as (Hwf0 & Ha0 & _); try done.
    destruct (wf_push (with_allocq qs s) (aq_thread_id e) (aq_rob_entry e) (with_gcounts (m_num_in_sched c + 1) lper c) Hwf0 Hfull Ht He) as [Hwf Ha]; [simpl; lia |].
    rewrite Ha0 in Ha. eapply fills_after; [| exact Ha |]; [done |]. apply (IH _ _ aq1); [by apply (ready_keep s) | done | lia].
Qed.
Lemma advance_fills q s : cycle_ready s -> filled s (advance k now q s).
Proof. intros Hs. unfold advance. apply fills_step; [ends |]. intros aq Eq. eapply advance_loop_fills; [done | exact Eq | lia]. Qed.
Lemma advance_all_fills s : cycle_ready s -> filled s (advance_all k now s).
Proof. intros Hs. unfold advance_all. repeat (apply fills_then; [by apply advance_fills | intros ? ?]). by apply advance_fills. Qed.

(** C10: In a cycle in which the GPU scheduler is running and its turn has come, the
    attempts to start micro-operations are exactly these: every warp scheduler whose
    dispatcher is free goes through the oldest micro-operation of each of its threads,
    oldest first, and stops at the first that starts; a busy one tries nothing. Each
    attempt runs on the state the one before it left, from the core with its ports
    cleared. So the micro-operations of a thread start in the order they entered the
    scheduler, one per scheduler at most; all others go on waiting in their order and
    new ones queue up behind them. In any other cycle nothing but the turn counter
    changes. A cycle faults only when one of these attempts does, or when after them
    the allocation queues hold something that cannot be moved; it does not run for
    ever unless an attempt does. The number of schedulers and the schedule ratio are
    positive. *)
Theorem gpu_cycle_in_order s :
  cycle_ready s ->
  let turn := (m_schedule_modulo s + 1) `rem` KNOB_GPU_SCHEDULE_RATIO k in
  if negb (m_schedule_running s) then run_a_cycle k now s = Done (s, 0)
  else if negb (turn =? 0) then run_a_cycle k now s = Done (with_turn turn (m_next_sched_id s) s, 0)
  else
    let c := s_core (with_ports_cleared s) in
    match run_a_cycle k now s with
    | Done (s', count) =>
        cycle_ready s' /\ m_next_sched_id s' = (m_next_sched_id s + 1) mod num /\
        exists tr c' d' w1 added, tried c (s_disp s) tr c' d' /\ count = Z.of_nat (length (starts tr)) /\
          fair_starts (seqZ 0 num) (waiting s) (s_disp s) w1 tr /\ waiting s' = w1 ++ added
    | Fault f =>
        attempt_fails c (s_disp s) (waiting s) f \/
        f <> Diverged /\ exists tr s2, tried c (s_disp s) tr (s_core s2) (s_disp s2) /\ m_gpu_allocq s2 = m_gpu_allocq s /\
          fair_starts (seqZ 0 num) (waiting s) (s_disp s) (waiting s2) tr /\ advance_all k now s2 = Fault f
    end.
Proof.
  intros Hs turn. unfold run_a_cycle. fold turn. rewrite (proj2 (Z.eqb_neq (KNOB_GPU_SCHEDULE_RATIO k) 0)) by (pose proof (r_ratio _ Hs); lia).
  set (s1 := with_turn turn _ s).
  destruct (wf_core s s1 (r_wf _ Hs)) as (Hwf1 & Ha1 & _); try done. assert (Hs1 : cycle_ready s1) by (by apply (ready_keep s)).
  destruct (negb (m_schedule_running s)); [done |]. destruct (negb _); [done |]. set (c := s_core (with_ports_cleared s)).
  destruct (wf_core s1 (with_ports_cleared s1) Hwf1) as (Hwf2 & Ha2 & _); try done.
  assert (Hs2 : cycle_ready (with_ports_cleared s1)) by (by apply (ready_keep s1)).
  pose proof (schedule_warps_fair _ Hs2) as Hw. change (s_core (with_ports_cleared s1)) with c in Hw. rewrite Ha2, Ha1 in Hw.
  destruct (schedule_warps k now (with_ports_cleared s1)) as [[s3 n] | f]; simpl; [| by left].
  destruct Hw as (tr & Htr & -> & Hs3 & Hnext & Hq & Hfair). destruct (advance_all_fills s3 Hs3) as (Hend & Hfill).
  destruct (advance_all k now s3) as [s4 | f] eqn:Eadv; simpl; [| right; split; [by intros -> | by exists tr, s3]]. destruct (Hfill s4 eq_refl) as (Hs4 & En & added & Ha).
  split_and!; [done | by rewrite En | by exists tr, (s_core s3), (s_disp s3), (waiting s3), added].
Qed.
End WARPS.

(** ** Example *)

Module GpuExample.
Import Rob.Rob.
(** An execution stage that takes everything. *)
#[export] Instance takes_all : GpuExec unit := {
  port_available q x := mret true; get_num_avail_entry x := mret 1;
  exec tid entry u σ r x := mret (σ, r, x, true); clear_ports x := x
}.
Definition knobs : gpu_knobs := mk_gpu_knobs 2 1 8 [4; 4; 4; 4] [4; 4; 4; 4] (fun _ => 2).
(** A micro-operation of thread [t] that waits for object [src], if there is one. *)
Definition uop (num t : Z) (src : option nat) : uop_s :=
  mk_uop_s (mk_uop num t NOT_MEM (UOP_OTHER 0) NOT_BAR NOT_CF 0 0 false 0 0 false false false false gen_ALLOCQ false)
    true false false false true false (100 + num) 0 false true 0
    (mk_deps 1 [] 0 [] (replicate 10 (mk_src REG_DATA_DEP src 5 0)) 0 false None false) (mk_umem 0 0 0 0 0 [] 0).
Definition buffer (l : list nat) : rob_c :=
  mk_rob 8 4 4 ((Some <$> l) ++ replicate (8 - length l) None) 0 0 Fence.fence_new true 0 0 0 [] ∅.
Definition robs : Smc.smc_rob_c := Smc.mk_smc [buffer [1; 2]%nat; buffer [3%nat]; buffer [4%nat]] [] (list_to_map [(0, 0); (1, 1); (2, 2)]) [].
Definition start_core : gpu_core unit :=
  mk_gcore (list_to_map [(1%nat, uop 1 0 None); (2%nat, uop 2 0 None); (3%nat, uop 3 1 (Some 5%nat)); (4%nat, uop 4 2 None); (5%nat, uop 5 1 None)])
    robs tt 4 [4; 0; 0; 0] ∅.
(** Threads 0 and 2 belong to the first scheduler, thread 1 to the second. *)
Definition start : schedule_smc_c unit :=
  mk_smc_sched start_core (mk_disp [0; 0] 0) (replicate 4 (pqueue_new 8 0 0)) [0; 1; -1; 0; 0; -1; -1; -1] [0; 0; -1; 1; 2; -1; -1; -1] 0 5 ∅ 0 0 true.
Lemma start_ready : cycle_ready knobs start.
Proof.
  constructor; try done. constructor; try done.
  change (slots_of _ _ _ _) with [(0, 0); (0, 1); hole; (1, 0); (2, 0)]. repeat apply Forall_cons_2; try apply Forall_nil_2; first [by left | by right].
Qed.
End GpuExample.
#[local] Existing Instance GpuExample.takes_all.

(** The oldest of thread 0 starts; thread 1 waits for its source. *)
Lemma gpu_cycle_in_order_witness :
  exists s' count, run_a_cycle GpuExample.knobs 7 GpuExample.start = Done (s', count) /\ count = 1 /\ cycle_ready GpuExample.knobs s' /\
    waiting GpuExample.knobs GpuExample.start = [(0, 0); (0, 1); (1, 0); (2, 0)] /\ waiting GpuExample.knobs s' = [(0, 1); (1, 0); (2, 0)].
Proof.
  pose proof (gpu_cycle_in_order GpuExample.knobs 7 GpuExample.start GpuExample.start_ready) as H.
  destruct (run_a_cycle GpuExample.knobs 7 GpuExample.start) as [[s' count] | f] eqn:E; [| by vm_compute in E].
  exists s', count. destruct H as [Hr _]. split; [done |]. vm_compute in E. injection E as <- <-. split_and!; [done | exact Hr | done | done].
Defined.
